(* ===== verification/_CoqProject ===== *)
-Q . S2P
Prelude.v
GttSa.v
DqmState.v
DqmAlloc.v
DqmOps.v
DqmCounts.v
DqmProc.v
DqmSystem.v
Mqd.v
Pqm.v
Doorbell.v
KernelQueue.v
Pm4.v
PacketManager.v
Events.v
EventsProof.v
EventsSystem.v
Debug.v
DebugProof.v
Interrupt.v
InterruptProof.v
IntV9.v
IntSystem.v
Eeprom.v
RasEeprom.v
RasCodec.v
RasEepromProof.v
RasSystem.v
Ras.v
RasProof.v
IhRing.v
Irq.v
IhProof.v
IhSystem.v
GmcFault.v
GmcFaultProof.v
IrqProof.v
Svm.v
SvmProof.v
SvmAdd.v
SvmSet.v
SvmUnmap.v
SvmWork.v
SvmSystem.v
SvmRead.v
SvmClaims.v
Vm.v
VmWalk.v
VmCursor.v
VmDfs.v
VmLeaf.v
VmWrite.v
VmFragment.v
VmFreeing.v
VmUpdate.v
VmRange.v
VmHw.v
VmProof.v
VmRes.v
VmResProof.v
VmMap.v
VmMapOk.v
VmMapOps.v
VmMapProof.v
VmMapBase.v
VmSync.v
VmSpace.v
VmMapClaims.v
