(* ===== verification/Prelude.v ===== *)
(** * Verification library of the amdkfd compute driver

    The program is the compute side of the Linux AMD GPU driver (src/kfd, on top
    of the graphics driver in src/kfd_amdgpu).  A process that opens the device
    gets queues, doorbells and events; the driver keeps the tables behind their
    numbers, gives the hardware its run lists, and takes interrupts.

    ** Parts, and the files that model them

    - Prelude: record update, machine widths, bitmaps as numbers, first-zero
      searches, sums over maps, the tactics of the library.
    - GttSa: the GTT sub-allocator (the kfd_gtt_sa functions of kfd_device.c), which hands out
      runs of chunks of one buffer for queue descriptors.
    - DqmState, DqmAlloc, DqmOps, DqmCounts, DqmProc, DqmSystem: the device queue
      manager (kfd_device_queue_manager.c).  DqmState has struct queue,
      struct qcm_process_device (qpd), struct device_queue_manager (dqm) and the
      allocators of hardware queue slots, SDMA queues, doorbells and VMIDs;
      DqmAlloc their properties.  DqmOps has one definition for each operation of
      the two tables device_queue_manager_init installs: _nocpsch for software
      scheduling and _cpsch for the hardware scheduler (HWS or MES).  DqmCounts
      and DqmProc prove that each operation keeps the counters in step with the
      queues.  A creation gives the lock back to allocate the descriptor, so it is two
      definitions, _begin up to there and _end from there, and their composition.
      DqmSystem has the operation table as a record, what a client may
      rely on as the class Scheduler with an instance for each table, and
      histories of requests by several processes, in which anything may come between
      the two halves of a creation but a request that needs the mutex its process holds.
    - Pqm: the queues of one process on one device
      (kfd_process_queue_manager.c), against the interface Scheduler and its
      extension Linker, so that its theorem holds of both tables; creations at the
      queue manager are whole here.
    - Doorbell: doorbell pages (kfd_doorbell.c).
    - KernelQueue: the ring the driver writes packets to, and what it takes from
      the sub-allocator and the doorbell page (kfd_kernel_queue.c).
    - Pm4: the layout of PM4 packets (kfd_pm4_headers_ai.h), their builders
      (kfd_packet_manager_v9.c) and the class PacketFuncs, what the packet
      manager relies on.
    - PacketManager: run lists and the packets sent through the hardware interface
      queue (kfd_packet_manager.c), for any instance of PacketFuncs.
    - Mqd: masks of compute units and the buffer of the HIQ and SDMA descriptors
      (kfd_mqd_manager.c and its callers in kfd_mqd_manager_v9.c).
    - Events, EventsProof, EventsSystem: events of a process (kfd_events.c): the
      operations, the agreement of the IDR and the heap, and histories.
    - Debug, DebugProof: exceptions for the debugger and address watch points
      (kfd_debug.c).
    - Interrupt, InterruptProof: from the interrupt handler to the worker through
      the fifo of a node (kfd_interrupt.c, kgd2kfd_interrupt of kfd_device.c), for
      any interrupt class of the class InterruptClass.
    - IntV9, IntSystem: the classes of GFX9 and GFX9.4.3 (kfd_int_process_v9.c), the
      drain of a process' interrupts (kfd_process.c, amdgpu_ih.c,
      amdgpu_amdkfd.c), and the properties of the whole path.
    - Eeprom: transfers to an I2C EEPROM (amdgpu_eeprom.c), for any adapter of the
      class EepromDevice.
    - RasEeprom, RasCodec, RasEepromProof, RasSystem: the table of bad pages in the
      EEPROM (amdgpu_ras_eeprom.c, with the table version hook of umc_v8_10.c): its
      operations, the codecs and checksums, the ring of records under transfers that may
      fail, and the properties of loading, appending and resetting.
    - Ras, RasProof: the list of bad pages in memory and how it follows the table
      (the part of amdgpu_ras.c from amdgpu_ras_realloc_eh_data_space to
      amdgpu_ras_recovery_init).
    - IhRing, Irq, IhProof, IhSystem: the interrupt rings of the graphics driver
      (amdgpu_ih.c, with the functions of vega10_ih.c and the write-back slots of
      amdgpu_device.c), the sources of interrupts and the handler that dispatches
      the vectors (amdgpu_irq.c), for any functions of the class IhFuncs and any
      sources of the class Sources.  IrqProof has the counts behind the enabling of
      interrupt types, for sources of the class IrqSet, which two of the repository
      are not (cp_ecc of gfx_v9_0.c, the VM faults of gmc_v9_0.c in s0ix).
    - GmcFault, GmcFaultProof: the filter of repeated page faults (amdgpu_gmc.c).
    - Svm, SvmProof, SvmAdd, SvmSet, SvmUnmap, SvmWork, SvmSystem, SvmRead, SvmClaims: shared
      virtual memory (kfd_svm.c).  Svm has the ranges of a process, their splitting,
      the requests that set and read attributes, the callback of an unmapping and the
      deferred work.  SvmProof is about splits, SvmAdd about the transaction of
      svm_range_add, SvmSet about its commit, SvmUnmap about the invariant while work
      is pending, SvmWork about the work itself; SvmSystem has what requests mean for
      the pages of a process, SvmRead what a request sets and a query gathers, and
      SvmClaims the properties of reachable states.
    - Vm and the files whose names start with it: the page tables of a GPU address space
      (amdgpu_vm_pt.c, with the updates by the CPU of amdgpu_vm_cpu.c, the directory
      updates of amdgpu_vm.c and the entries of amdgpu_gmc.c and gmc_v9_0.c).  Vm has the
      definitions: the cursor and its walks, making, clearing and freeing tables,
      updating a range in fragments, updating directories.  VmWalk has the tree, its
      well-formedness and which entry translates an address ([leaf]); VmCursor the
      moves of the cursor, VmDfs the walk that frees tables from the leaves up, VmLeaf what
      writing, making and cutting an entry do to translations, VmWrite writing under the
      class VmPde of what a memory controller does to entries, with GFX9 as its instance;
      VmFragment, VmFreeing, VmUpdate and VmRange are about one fragment, the freeing
      behind it, one table and the whole range; VmHw has the directories and the walk of the
      hardware, under the class VmPdeTable, and VmProof the properties of all of them.
      VmRes has the update of a range from the memory of a buffer (amdgpu_vm_update_range
      with the cursor of amdgpu_res_cursor.h), VmResProof that every page of the range
      gets its page of memory.
    - VmMap and the files whose names start with it: the mappings of buffers in an address
      space (amdgpu_vm.c, with the flags of amdgpu_ttm.c and gmc_v9_0.c,
      amdgpu_bo_move_notify of amdgpu_object.c and amdgpu_gem_va_update_vm of amdgpu_gem.c).
      VmMap has the definitions: the interval tree, the requests to map, replace, unmap and
      clear, buffers that move, and the updates that bring the page tables up to date.
      VmMapOk has the invariant of tree and lists, VmMapOps what clearing a range leaves,
      VmMapProof what each request does to the pages, VmMapBase adding a base and
      moving a buffer.  VmSync is about the updates of the page tables from the mappings,
      under the class VmPte of what the memory controller does to the flags, with GFX9 as
      its instance; VmSpace has the invariant that holds mappings and page tables
      together, and VmMapClaims the histories of calls and their properties.

    The process queue manager calls the queue manager through its operation
    table; the queue manager uses the doorbell layout of DqmState, and the packet
    manager the queues and counters of DqmState, the ring of KernelQueue and the
    sub-allocator.  Descriptors are placed by the SDMA ids of DqmState.  An
    interrupt goes through the fifo of Interrupt to the worker of IntV9, which
    sets events of Events and raises exceptions of Debug.  Its handler is called by
    the dispatcher of Irq with each vector of a ring of IhRing that no source of the
    graphics driver has handled.  Ras calls RasEeprom, which reaches the device
    through Eeprom only.

    ** How the code is rendered

    A C structure is a record with the same field names (those the modelled
    functions use), [r->f = v] is [r <| f := v |>], a function that changes
    objects takes and returns them, and a return code is a Z, 0 for success and
    [-EINVAL] and the like for errors.  Unsigned arithmetic is wrapped with u8,
    u32 and u64, and [int] with s32.  Lists are Coq lists in the order of the
    kernel's list, bitmaps are non-negative numbers, the IDR is a finite map.
    A function called with a lock held is one atomic step; where a function drops
    a lock the model is split there.  Register writes and calls of the firmware
    are events of a log where their order matters, and the answers of the
    hardware, of the memory allocators and of firmware calls are fields of the
    environments [dev_env], [hw_env], [pqm_env], [doorbell_env], [irq_env],
    [ras_env], [vm_env],
    [range_env] and [space_env], about which nothing is assumed but what a theorem names.  Following a pointer to a freed
    object, or a null one, is the result [None].  The I2C bus is an argument,
    i2c_transfer over a state of its own; EepromDevice states what the data sheets
    of the part promise of it, ReliableBus that no transfer fails, and the memory
    [ram] has both.  Objects that share pointers, as the ranges of shared virtual
    memory and their buffers do, are a finite map by identity, and lists hold the
    identities; every request for memory asks a function of its number, so that
    theorems hold wherever memory runs out.  The interval tree is the list of its
    nodes in order.  The overflow bit of the interrupt ring, the kernel's hash_64, the
    width of a shifted bit-field and the constants of the user interface header are
    parameters, since they are not in the repository.

    ** Bounds and fuel

    The search of the GTT sub-allocator and the loops over pipes, SDMA ids,
    VMIDs and queues take as fuel the size of what they scan; the theorems named
    after termination state that it suffices, and the loop of
    process_termination_nocpsch, which may not end, is given any fuel.
    KFD_SIGNAL_EVENT_LIMIT comes from a header that is not in the repository:
    theorems about events hold for limits from 256, the size of the page the
    driver allocates, to 2^30, where the ids of other events start; those about
    signals of waves, whose ids have 24 bits, for limits up to 2^24.  Interrupt
    entries have 4 or 8 dwords, the sizes of the devices of kfd_device.c.  The
    transfer loops of Eeprom take the size as fuel, since each turn moves at least
    one byte; the sizes an adapter takes are [size_ok], below 64 KiB when it has no
    limits of its own.  The handler of an interrupt ring of N vectors takes 2N + 1
    turns, enough when the hardware writes at most N more while it runs; the chase
    through the chains of the fault filter 257 steps, one more than its slots.  In
    shared virtual memory the loop that makes new ranges takes the number of their
    pages, the one over the children of a range three times their number, since each
    adds at most two that add none, and deferred work the length of its list.  The
    loops of the page tables end by what they do to the range and the tree, so they are
    run by [run_loop], up to 2^64 turns: its lemma asks for a measure below that.  A cursor
    climbs at most as many levels as its path has and goes down at most four.  Theorems
    about them are for devices of [adev_ok] (page tables of at most 2^13 entries, a root of
    at most 2^31) and ranges within the address space, to addresses of 48 bits.
    Those about mappings are for four levels with addresses of 48 bits, requests of less than
    a terabyte (the step between the addresses of entries is a number of 32 bits), buffers
    the device can reach ([bo_ready]) and lists of less than 2^64 bases; the calls are those
    their callers may make ([call_ok]): what was unmapped is cleared before something is
    entered, and a mapping whose old pages are still translated is not taken from the list
    of those to be entered, which the code does not see to itself.

    ** What is proved

    - GttSa: the allocator is first fit and exact about failure; live objects
      are disjoint and the bitmap marks exactly their chunks; a free undoes an
      allocation.
    - DqmAlloc: each small allocator returns what it promises, ids in use are
      distinct, and a release undoes an allocation; what a restored doorbell id
      can do.
    - DqmSystem: without the MES, in any history the counters of active, compute, GWS
      and total queues are what the queues of the processes say; under software
      scheduling as long as no process begins to be evicted in the gap of one of its
      creations, which counts a queue twice; a run
      list is sent only after an acknowledged preemption; termination of a
      process ends, except on a stopped manager; the error path of a restore
      under MES that counts a queue twice.
    - Pqm: the bitmap of queue ids, the nodes and the queues of the device agree
      in any history, without the MES and while the manager's only failures are
      timeouts; which CU masks are accepted; two error paths that lose an id
      or keep a node.
    - Doorbell: kernel doorbells round trip and stay in their page up to a number;
      what is mapped to user mode.
    - KernelQueue: in any history what the hardware has read and may read is the
      packets sent, whole and in order, and a packet is refused exactly when there
      is no room; initialisation is all or nothing and is undone.
    - PacketManager: a run list has a packet for each process and each active
      queue and fills exactly its buffer, whose size comes from the counters that
      DqmSystem proves exact; what the hardware reads from the ring, taken header
      by header, is the packets of the calls that succeeded.
    - EventsSystem: agreement of ids, events and counts in any history, mappings of the
      page and restored events included when what is restored is what the driver writes,
      and completion of every request but the end of a wait; equality of the two
      exhaustive searches; what set_event does to waiters; auto-reset events;
      three error paths, one of them a use after free.
    - Mqd: exactly which bits of the shader engine masks a mask of compute units
      sets, by the rank of each unit in an order stated apart from the loops; in any history the descriptors of SDMA queues lie in their buffer, apart
      from each other and from those of the HIQ.
    - DebugProof: reading the exceptions reports each source once; watch points
      have one owner as long as only ids of watch points are cleared; two error paths.
    - IntSystem: accepted interrupts are handled once, in order, and, when workers
      are scheduled, all of them; a signal of a pipe, a wave or an SDMA engine sets
      the event it names and no other; a drain that need not wait for the ring sends no fence,
      and a fence is not wanted on GFX9.4.3.
    - Eeprom: transfers are the reads and writes of a flat memory, below 64 KiB or with
      an adapter that limits its messages; what becomes of sizes from 64 KiB on without.
    - RasSystem: an append keeps the last N records, and the device then holds a
      header and a checksum that describe them; a read gives the oldest; what was
      appended to a ring that has not wrapped, on a device without errors, is found by a
      driver loaded anew; four ways a table is lost or
      turned.
    - RasProof: the list in memory takes each page once; what was saved is there
      after a reload; a failed save is not retried.
    - IhSystem: while the ring is never full every vector the hardware wrote is
      dispatched once and in order, and those no source takes reach the compute driver;
      after an overflow one call of the handler dispatches the last N - 1 of them.
    - IrqProof: a type of interrupt is on exactly while its count is positive; a reset
      turns on what was on; a get that fails leaves its count.
    - GmcFaultProof: while time stamps increase strictly the filter decides as a list of the
      last 256 faults would, whatever the hash, stale expiries included; once the clock wraps it lets nothing through.
    - VmProof: mapping a range and updating the directories makes the hardware translate
      each page of it to its page of memory, and leaves the others alone or unmapped; in
      any history of updates, with or without memory for tables, each address has
      exactly one translation, the hardware finds the one of the tree, updates
      never get stuck and the end frees every table; freeing is exact; an update that runs
      out of memory; a table that could not be cleared is used after it was freed.
    - VmResProof: when a range is updated from the memory of a buffer, be it blocks of video
      memory or pages of system memory, every page of the range gets its page of it.
    - VmMapClaims: in any history of requests and updates every call ends and does to each
      page what it says; the hardware translates the pages of a base that is up to date to
      the pages of its buffer, and, once what was unmapped is cleared, no other pages;
      moved buffers are worked off; two ways in which a page stays translated that no
      mapping has.
    - SvmClaims, for pages from 1 on and no range in video memory: any sequence of requests does to the pages of a process what the
      requests mean one after the other; ranges, tables and the memory account agree
      in every reachable state; a request that fails before it downgrades its lock
      changes nothing; a split keeps every
      page; deferred work ends and leaves the tables settled; whatever was set
      is read back by any query; an unmapping that finds no memory follows a null pointer.

    ** What is not modelled

    Within these files: debug output, the locks themselves, and the copies of
    tables to user buffers (snapshots, CRIU checkpoints of queues).  The registers
    of a descriptor are laid out by headers that are not in the repository.  Of
    shared virtual memory, the second half of svm_range_set_attr (migration,
    validation and mapping), retry faults, eviction and CRIU are left out: they copy
    pages and write page tables; mapping may give a range any addresses of the right
    number.  Of the interrupt rings, the functions of other generations and MSI.
    Of the page tables, the theorems are for locked updates by the CPU on GFX9 and later
    without ATS; updates of page faults, older chips and ATS are in the definitions only.
    The packets of the SDMA engine that write entries, shadow tables and the flush
    of translation caches are left out, and so are fences, buffers imported over XGMI and
    the end of an address space with mappings; the flags of cache coherence are a parameter.
    The entry points of the debugger and of CRIU of the queue manager, and suspend and
    resume of devices, mostly copy to users and call operations that are
    modelled.  Rings and fences of engines are packets of hardware and the scheduler of
    DRM, which is not in the repository; the ATOM interpreter runs tables of a BIOS that
    is not in it either.  Of the RAS code the debugfs views of the table, recovery and error
    injection are left out.  Register sequences of the IP blocks are input and output only. *)

From stdpp Require Export base list gmap numbers sorting.
#[global] Open Scope Z_scope.
#[global] Arguments Z.quot : simpl never.
#[global] Arguments Z.rem : simpl never.
#[global] Arguments Z.testbit : simpl never.
#[global] Arguments Z.ones : simpl never.

(** ** Record update

    [r <| f := v |>] is the record [r] with field [f] replaced, the functional
    counterpart of the C assignment [r->f = v].  A record opts in by giving its
    eta expansion as an [Eta] instance. *)

Class Eta (R : Type) := eta : R → R.
Class Setter {R E : Type} (proj : R → E) := set_field : (E → E) → R → R.

Ltac derive_setter :=
  lazymatch goal with
  | |- @Setter ?Rec ?Fld ?proj =>
      let i := constr:(_ : Eta Rec) in
      let e := eval red in i in
      lazymatch eval pattern proj in e with
      | ?mk _ =>
          let s := eval cbv beta in
            (λ upd0 : Fld → Fld, mk (λ rec0 : Rec, upd0 (proj rec0))) in
          exact s
      end
  end.
#[export] Hint Extern 1 (Setter _) => derive_setter : typeclass_instances.
Arguments set_field {R E} proj {_} _ _ /.

Notation "r <| f := v |>" := (set_field f (λ _, v) r)
  (at level 1, left associativity, f at level 9, format "r  <| f  :=  v |>").
Notation "r <| f ::= g |>" := (set_field f g r)
  (at level 1, left associativity, f at level 9, format "r  <| f  ::=  g |>").

(** ** Fixed-width integers

    C integers are carried as [Z]; a value of an unsigned [w]-bit type is in
    [0, 2^w), and every C operation that can leave the range is followed by the
    corresponding wrap. *)

Definition wrap (w z : Z) : Z := z `mod` 2 ^ w.
Abbreviation u8 := (wrap 8).
Abbreviation u16 := (wrap 16).
Abbreviation u32 := (wrap 32).
Abbreviation u64 := (wrap 64).

(** Reinterpretation of a 32-bit pattern as a two's complement [int]. *)
Definition s32 (z : Z) : Z := wrap 32 (z + 2 ^ 31) - 2 ^ 31.
Definition s16 (z : Z) : Z := wrap 16 (z + 2 ^ 15) - 2 ^ 15.
Definition s8 (z : Z) : Z := wrap 8 (z + 2 ^ 7) - 2 ^ 7.

Definition in_width (w z : Z) : Prop := 0 ≤ z < 2 ^ w.

(** Boolean of a C condition as the [int] it evaluates to, and back. *)
Definition b2z (b : bool) : Z := if b then 1 else 0.
Definition nz (z : Z) : bool := negb (z =? 0).

Create HintDb kint.
Create Rewrite HintDb kbits.
Create Rewrite HintDb keq32.

Lemma wrap_in_width w z : 0 ≤ w → in_width w (wrap w z).
Proof. intros. apply Z.mod_pos_bound. lia. Qed.

Lemma wrap_small w z : in_width w z → wrap w z = z.
Proof. apply Z.mod_small. Qed.

Lemma wrap_wrap w z : 0 ≤ w → wrap w (wrap w z) = wrap w z.
Proof. intros. apply wrap_small, wrap_in_width. done. Qed.

Lemma s32_small z : - 2 ^ 31 ≤ z < 2 ^ 31 → s32 z = z.
Proof. intros. unfold s32. rewrite wrap_small; unfold in_width; lia. Qed.

Lemma nz_true z : nz z = true ↔ z ≠ 0.
Proof. unfold nz. rewrite negb_true_iff, Z.eqb_neq. done. Qed.

Lemma nz_false z : nz z = false ↔ z = 0.
Proof. unfold nz. rewrite negb_false_iff, Z.eqb_eq. done. Qed.

#[export] Hint Resolve wrap_in_width wrap_small : kint.

(** Boolean comparisons in hypotheses and goals become propositions. *)
Ltac bool_to_Prop :=
  repeat match goal with
  | H : negb _ = true |- _ => apply negb_true_iff in H
  | H : negb _ = false |- _ => apply negb_false_iff in H
  | H : _ && _ = true |- _ => apply andb_true_iff in H as [? ?]
  | H : _ || _ = false |- _ => apply orb_false_iff in H as [? ?]
  | H : (_ =? _) = true |- _ => apply Z.eqb_eq in H
  | H : (_ =? _) = false |- _ => apply Z.eqb_neq in H
  | H : (_ <? _) = true |- _ => apply Z.ltb_lt in H
  | H : (_ <? _) = false |- _ => apply Z.ltb_ge in H
  | H : (_ <=? _) = true |- _ => apply Z.leb_le in H
  | H : (_ <=? _) = false |- _ => apply Z.leb_gt in H
  | H : nz _ = true |- _ => apply nz_true in H
  | H : nz _ = false |- _ => apply nz_false in H
  end.

(** Case analysis on the conditions of the code, with the branch's fact named
    and reflected; contradictory branches are closed. *)
Ltac branch :=
  match goal with
  | |- context [if ?b then _ else _] =>
      lazymatch type of b with
      | bool => let E := fresh "Hb" in destruct b eqn:E; bool_to_Prop
      | _ => let E := fresh "Hb" in destruct b as [E | E]
      end
  end; try lia; try congruence.

Ltac branch_in H :=
  match type of H with
  | context [if ?b then _ else _] =>
      lazymatch type of b with
      | bool => let E := fresh "Hb" in destruct b eqn:E; bool_to_Prop
      | _ => let E := fresh "Hb" in destruct b as [E | E]
      end
  end; try lia; try congruence.

(** Versions of IP blocks, from [amdgpu.h]. *)
Definition IP_VERSION (mj mn rv : Z) : Z :=
  Z.lor (Z.lor (Z.shiftl mj 24) (Z.shiftl mn 16)) (Z.shiftl rv 8).

(** ** Kernel return codes

    An [int]-returning function gives 0 or a negated error number. *)

Definition EPERM : Z := 1.
Definition ENOENT : Z := 2.
Definition ESRCH : Z := 3.
Definition EINTR : Z := 4.
Definition EIO : Z := 5.
Definition EAGAIN : Z := 11.
Definition ENOMEM : Z := 12.
Definition EACCES : Z := 13.
Definition EFAULT : Z := 14.
Definition EBUSY : Z := 16.
Definition ENODEV : Z := 19.
Definition EINVAL : Z := 22.
Definition ENOSPC : Z := 28.
Definition ENODATA : Z := 61.
Definition ETIME : Z := 62.
Definition EOPNOTSUPP : Z := 95.
Definition ETIMEDOUT : Z := 110.
Definition ERESTARTSYS : Z := 512.

(** ** Bitmaps

    The kernel's bitmap and bit-search primitives ([linux/bitmap.h],
    [linux/find.h]).  A bitmap is the non-negative integer whose binary digits
    are its bits. *)

Section Scan.
Context (p : Z → bool).

(** First [i] in [from, from + n) with [p i]. *)
Fixpoint scan (from : Z) (n : nat) : option Z :=
  match n with
  | O => None
  | S n => if p from then Some from else scan (from + 1) n
  end.

Lemma scan_Some from n i :
  scan from n = Some i →
  from ≤ i < from + Z.of_nat n ∧ p i = true ∧ (∀ j, from ≤ j < i → p j = false).
Proof.
  revert from. induction n as [|n IH]; intros from; simpl; [done|].
  destruct (p from) eqn:E; intros H.
  - simplify_eq. split_and!; [lia|lia|done|lia].
  - apply IH in H as (? & ? & Hlt). split_and!; [lia|lia|done|].
    intros j Hj. destruct (decide (j = from)) as [->|]; [done|]. apply Hlt. lia.
Qed.

Lemma scan_None from n :
  scan from n = None → ∀ j, from ≤ j < from + Z.of_nat n → p j = false.
Proof.
  revert from. induction n as [|n IH]; intros from; simpl; [lia|].
  destruct (p from) eqn:E; [done|]. intros H j Hj.
  destruct (decide (j = from)) as [->|]; [done|]. eapply IH; [done|lia].
Qed.
End Scan.

Definition test_bit (i bm : Z) : bool := Z.testbit bm i.
Definition set_bit (i bm : Z) : Z := Z.setbit bm i.
Definition clear_bit (i bm : Z) : Z := Z.clearbit bm i.

(** Bits [start, start + n) set or cleared. *)
Definition bitmap_range (start n : Z) : Z := Z.shiftl (Z.ones n) start.
Definition bitmap_set (bm start n : Z) : Z := Z.lor bm (bitmap_range start n).
Definition bitmap_clear (bm start n : Z) : Z := Z.ldiff bm (bitmap_range start n).
Definition bitmap_andnot (a b nbits : Z) : Z := Z.land (Z.ldiff a b) (Z.ones nbits).
Definition bitmap_empty (bm nbits : Z) : bool := Z.land bm (Z.ones nbits) =? 0.

(** Searches return [size] when there is no such bit. *)
Definition find_next_zero_bit (bm size start : Z) : Z :=
  default size (scan (λ i, negb (Z.testbit bm i)) start (Z.to_nat (size - start))).
Definition find_first_zero_bit (bm size : Z) : Z := find_next_zero_bit bm size 0.
Definition find_next_bit (bm size start : Z) : Z :=
  default size (scan (λ i, Z.testbit bm i) start (Z.to_nat (size - start))).
Definition find_first_bit (bm size : Z) : Z := find_next_bit bm size 0.

(** [ffs]: one plus the index of the lowest set bit of a 32-bit word, 0 for 0. *)
Definition ffs (w : Z) : Z :=
  match scan (λ i, Z.testbit w i) 0 32 with Some i => i + 1 | None => 0 end.

Definition bitmap_weight (bm nbits : Z) : Z :=
  Z.of_nat (length (filter (λ i, Z.testbit bm i = true) (seqZ 0 nbits))).

Lemma bitmap_range_spec start n i :
  0 ≤ start → 0 ≤ n →
  Z.testbit (bitmap_range start n) i = bool_decide (start ≤ i < start + n).
Proof.
  intros. unfold bitmap_range.
  destruct (decide (0 ≤ i)); [|rewrite Z.testbit_neg_r by lia; symmetry;
    apply bool_decide_eq_false; lia].
  rewrite Z.shiftl_spec by done.
  destruct (decide (start ≤ i)).
  - destruct (decide (i < start + n)).
    + rewrite Z.ones_spec_low by lia. symmetry. apply bool_decide_eq_true. lia.
    + rewrite Z.ones_spec_high by lia. symmetry. apply bool_decide_eq_false. lia.
  - rewrite Z.testbit_neg_r by lia. symmetry. apply bool_decide_eq_false. lia.
Qed.

Lemma bitmap_set_spec bm start n i :
  0 ≤ start → 0 ≤ n →
  Z.testbit (bitmap_set bm start n) i
  = Z.testbit bm i || bool_decide (start ≤ i < start + n).
Proof. intros. unfold bitmap_set. by rewrite Z.lor_spec, bitmap_range_spec. Qed.

Lemma bitmap_clear_spec bm start n i :
  0 ≤ start → 0 ≤ n →
  Z.testbit (bitmap_clear bm start n) i
  = Z.testbit bm i && negb (bool_decide (start ≤ i < start + n)).
Proof. intros. unfold bitmap_clear. by rewrite Z.ldiff_spec, bitmap_range_spec. Qed.

Lemma set_bit_spec i bm j :
  0 ≤ i → Z.testbit (set_bit i bm) j = (i =? j) || Z.testbit bm j.
Proof. intros. by apply Z.setbit_eqb. Qed.

Lemma clear_bit_spec i bm j :
  Z.testbit (clear_bit i bm) j = Z.testbit bm j && negb (i =? j).
Proof. apply Z.clearbit_eqb. Qed.

Lemma find_next_zero_bit_spec bm size start :
  start ≤ size →
  let r := find_next_zero_bit bm size start in
  start ≤ r ≤ size ∧
  (∀ j, start ≤ j < r → Z.testbit bm j = true) ∧
  (r < size → Z.testbit bm r = false).
Proof.
  intros Hle. unfold find_next_zero_bit.
  destruct (scan _ _ _) as [i|] eqn:E; simpl.
  - apply scan_Some in E as (? & Hi & Hj). apply negb_true_iff in Hi.
    split_and!; [lia|lia| |done].
    intros j ?. specialize (Hj j). rewrite negb_false_iff in Hj. apply Hj. lia.
  - pose proof (scan_None _ _ _ E) as Hn. split_and!; [lia|lia| |lia].
    intros j ?. apply negb_false_iff, Hn. lia.
Qed.

Lemma find_next_bit_spec bm size start :
  start ≤ size →
  let r := find_next_bit bm size start in
  start ≤ r ≤ size ∧
  (∀ j, start ≤ j < r → Z.testbit bm j = false) ∧
  (r < size → Z.testbit bm r = true).
Proof.
  intros Hle. unfold find_next_bit.
  destruct (scan _ _ _) as [i|] eqn:E; simpl.
  - apply scan_Some in E as (? & Hi & Hj). split_and!; [lia|lia|done|done].
  - pose proof (scan_None _ _ _ E) as Hn. split_and!; [lia|lia| |lia].
    intros j ?. apply Hn. lia.
Qed.

Lemma bitmap_empty_spec bm nbits :
  0 ≤ nbits →
  bitmap_empty bm nbits = true ↔ ∀ j, 0 ≤ j < nbits → Z.testbit bm j = false.
Proof.
  intros Hn. unfold bitmap_empty. rewrite Z.eqb_eq. split.
  - intros H j Hj. apply (f_equal (λ z, Z.testbit z j)) in H.
    rewrite Z.land_spec, Z.bits_0, Z.ones_spec_low, andb_true_r in H by lia. done.
  - intros H. apply Z.bits_inj'. intros j Hj. rewrite Z.land_spec, Z.bits_0.
    destruct (decide (j < nbits)).
    + rewrite H by lia. done.
    + rewrite Z.ones_spec_high by lia. apply andb_false_r.
Qed.

#[export] Hint Rewrite bitmap_set_spec bitmap_clear_spec set_bit_spec clear_bit_spec
  Z.land_spec Z.lor_spec Z.ldiff_spec using lia : kbits.

(** A word without set bits below its width is zero. *)
Lemma bits_zero w z :
  0 ≤ w → in_width w z → (∀ i, 0 ≤ i < w → Z.testbit z i = false) → z = 0.
Proof.
  intros Hw [Hz1 Hz2] H. apply Z.bits_inj'. intros i Hi. rewrite Z.bits_0.
  destruct (decide (i < w)); [by apply H|].
  rewrite <- (Z.mod_small z (2 ^ w)) by done. apply Z.mod_pow2_bits_high. lia.
Qed.

Lemma ffs_spec w :
  in_width 32 w → w ≠ 0 →
  1 ≤ ffs w ≤ 32 ∧ Z.testbit w (ffs w - 1) = true ∧
  (∀ j, 0 ≤ j < ffs w - 1 → Z.testbit w j = false).
Proof.
  intros Hw Hnz. unfold ffs. destruct (scan _ _ _) as [i|] eqn:E.
  - apply scan_Some in E as (? & Hi & Hj). replace (i + 1 - 1) with i by lia.
    split_and!; [lia|lia|done|done].
  - exfalso. apply Hnz, (bits_zero 32); [lia|done|].
    intros j Hj. eapply scan_None in E; [done|lia].
Qed.

(** A word has width [w] when no bit at or above [w] is set. *)
Lemma in_width_bits w z :
  0 ≤ w → in_width w z ↔ ∀ i, w ≤ i → Z.testbit z i = false.
Proof.
  intros Hw. split.
  - intros Hz i Hi. rewrite <- (wrap_small w z) by done. by apply Z.mod_pow2_bits_high.
  - intros H. assert (z = wrap w z) as ->; [|by apply wrap_in_width].
    apply Z.bits_inj'. intros i Hi. unfold wrap. destruct (decide (w ≤ i)).
    + rewrite H, Z.mod_pow2_bits_high by lia. done.
    + rewrite Z.mod_pow2_bits_low by lia. done.
Qed.

Lemma in_width_setbit w z i :
  0 ≤ i < w → in_width w z → in_width w (set_bit i z).
Proof.
  intros Hi Hz. apply in_width_bits; [lia|]. intros j Hj.
  rewrite set_bit_spec, (proj1 (in_width_bits w z ltac:(lia))) by done || lia.
  rewrite orb_false_r. apply Z.eqb_neq. lia.
Qed.

Lemma in_width_clearbit w z i : 0 ≤ w → in_width w z → in_width w (clear_bit i z).
Proof.
  intros Hw Hz. apply in_width_bits; [done|]. intros j Hj.
  by rewrite clear_bit_spec, (proj1 (in_width_bits w z Hw) Hz j Hj).
Qed.

Lemma clear_set_bit i z : 0 ≤ i → Z.testbit z i = false → clear_bit i (set_bit i z) = z.
Proof.
  intros Hi Hz. apply Z.bits_inj'. intros j Hj. rewrite clear_bit_spec, set_bit_spec by done.
  destruct (Z.eqb_spec i j) as [<-|]; simpl; [by rewrite Hz|by rewrite andb_true_r].
Qed.

Lemma set_clear_bit i z : 0 ≤ i → Z.testbit z i = true → set_bit i (clear_bit i z) = z.
Proof.
  intros Hi Hz. apply Z.bits_inj'. intros j Hj. rewrite set_bit_spec, clear_bit_spec by done.
  destruct (Z.eqb_spec i j) as [<-|]; simpl; [by rewrite Hz|by rewrite andb_true_r].
Qed.

(** Fields of a word, and words put together of disjoint fields. *)
Lemma land_field x k n : 0 ≤ k → 0 ≤ n → Z.land x (Z.shiftl (Z.ones n) k) = ((x / 2 ^ k) `mod` 2 ^ n) * 2 ^ k.
Proof.
  intros Hk Hn. rewrite <- Z.shiftl_mul_pow2, <- Z.land_ones, <- Z.shiftr_div_pow2 by done.
  rewrite Z.shiftl_land. apply Z.bits_inj'. intros j Hj. rewrite !Z.land_spec.
  rewrite !Z.shiftl_spec by done. destruct (decide (k ≤ j)).
  - rewrite Z.shiftr_spec by lia. f_equal. f_equal. lia.
  - rewrite !(Z.testbit_neg_r _ (j - k)) by lia. by rewrite andb_false_r.
Qed.

Lemma lor_add a b k : 0 ≤ k → 0 ≤ a < 2 ^ k → 0 ≤ b → Z.lor a (b * 2 ^ k) = a + b * 2 ^ k.
Proof.
  intros Hk Ha Hb. assert (Hhigh : ∀ i, k ≤ i → Z.testbit a i = false).
  { intros i Hi. rewrite <- (Z.mod_small a (2 ^ k)) by done. apply Z.mod_pow2_bits_high. lia. }
  rewrite <- Z.shiftl_mul_pow2 by done. symmetry. rewrite Z.add_nocarry_lxor.
  - apply Z.bits_inj'. intros i Hi. rewrite Z.lxor_spec, Z.lor_spec, Z.shiftl_spec by done.
    destruct (decide (i < k)); [rewrite (Z.testbit_neg_r _ (i - k)) by lia; by destruct (Z.testbit a i)|].
    rewrite Hhigh by lia. by destruct (Z.testbit b (i - k)).
  - apply Z.bits_inj'. intros i Hi. rewrite Z.land_spec, Z.shiftl_spec, Z.bits_0 by done.
    destruct (decide (i < k)); [rewrite (Z.testbit_neg_r _ (i - k)) by lia; apply andb_false_r|].
    by rewrite Hhigh by lia.
Qed.

(** Every residue is reached from any start within one turn. *)
Lemma mod_cover p n r :
  0 < n → 0 ≤ r < n → ∃ k, 0 ≤ k < n ∧ (p + k) `mod` n = r.
Proof.
  intros Hn Hr. exists ((r - p) `mod` n). split; [by apply Z.mod_pos_bound|].
  rewrite Z.add_mod_idemp_r by lia. replace (p + (r - p)) with r by lia. by apply Z.mod_small.
Qed.

(** ** Counters of 32 bits

    [eq32 a b]: equal as [unsigned int].  Counters are compared with the exact
    quantity they count up to this equivalence, which addition and subtraction
    respect, so that increments and decrements need no overflow hypothesis. *)

Definition eq32 (a b : Z) : Prop := u32 a = u32 b.

#[export] Instance eq32_equivalence : Equivalence eq32.
Proof. split; unfold eq32; red; congruence. Qed.

#[export] Instance eq32_add : Proper (eq32 ==> eq32 ==> eq32) Z.add.
Proof.
  intros a a' Ha b b' Hb. unfold eq32, wrap in *.
  by rewrite (Z.add_mod a b), (Z.add_mod a' b'), Ha, Hb by lia.
Qed.

#[export] Instance eq32_sub : Proper (eq32 ==> eq32 ==> eq32) Z.sub.
Proof.
  intros a a' Ha b b' Hb. unfold eq32, wrap in *. by rewrite Zminus_mod, Ha, Hb, <- Zminus_mod.
Qed.

Lemma eq32_u32 a : eq32 (u32 a) a.
Proof. unfold eq32. by rewrite wrap_wrap. Qed.

Lemma eq32_eq a b : a = b → eq32 a b.
Proof. by intros ->. Qed.

Lemma eq32_exact a b : in_width 32 a → in_width 32 b → eq32 a b → a = b.
Proof. intros Ha Hb. unfold eq32. by rewrite !wrap_small. Qed.

#[export] Hint Rewrite eq32_u32 : keq32.

(** Linear goals modulo 2^32. *)
Ltac eq32_lia :=
  repeat match goal with H : eq32 _ _ |- _ => rewrite H; clear H end;
  rewrite ?eq32_u32; apply eq32_eq; lia.

(** ** Sums over finite maps *)

Definition msum `{Countable K} {A} (f : A → Z) (m : gmap K A) : Z := map_fold (λ _ x s, f x + s) 0 m.

Lemma msum_empty `{Countable K} {A} (f : A → Z) : msum (K := K) f ∅ = 0.
Proof. apply map_fold_empty. Qed.

Lemma msum_insert_None `{Countable K} {A} (f : A → Z) (m : gmap K A) k x :
  m !! k = None → msum f (<[k := x]> m) = f x + msum f m.
Proof. intros Hm. unfold msum. apply (map_fold_insert_L (λ _ x s, f x + s)); [intros; lia|done]. Qed.

Lemma msum_delete `{Countable K} {A} (f : A → Z) (m : gmap K A) k x :
  m !! k = Some x → msum f (delete k m) = msum f m - f x.
Proof.
  intros Hm. rewrite <- (insert_id m k x) at 2 by done. rewrite <- insert_delete_eq.
  rewrite msum_insert_None by apply lookup_delete_eq. lia.
Qed.

Lemma msum_update `{Countable K} {A} (f : A → Z) (m : gmap K A) k x y :
  m !! k = Some x → msum f (<[k := y]> m) = msum f m - f x + f y.
Proof.
  intros Hm. rewrite <- insert_delete_eq. rewrite msum_insert_None by apply lookup_delete_eq.
  rewrite (msum_delete f m k x) by done. lia.
Qed.

Lemma msum_nonneg `{Countable K} {A} (f : A → Z) (m : gmap K A) : (∀ x, 0 ≤ f x) → 0 ≤ msum f m.
Proof.
  intros Hf. induction m as [|k x m Hk IH] using map_ind; [by rewrite msum_empty|].
  rewrite msum_insert_None by done. specialize (Hf x). lia.
Qed.

Lemma msum_fmap `{Countable K} {A B} (f : B → Z) (g : A → B) (m : gmap K A) : msum f (g <$> m) = msum (λ x, f (g x)) m.
Proof.
  induction m as [|k x m Hk IH] using map_ind; [by rewrite fmap_empty, !msum_empty|].
  rewrite fmap_insert, !msum_insert_None; [by rewrite IH|done|by rewrite lookup_fmap, Hk].
Qed.

Lemma msum_same `{Countable K} {A} (f : A → Z) (m m' : gmap K A) :
  (∀ k, f <$> m' !! k = f <$> m !! k) → msum f m' = msum f m.
Proof.
  intros Hm. assert (Hs : ∀ m : gmap K A, msum f m = msum (λ z, z) (f <$> m)) by (intros; by rewrite msum_fmap).
  rewrite !Hs. f_equal. apply map_eq. intros k. by rewrite !lookup_fmap.
Qed.

(** Number of elements of a list that satisfy a test. *)
Definition count {A} (f : A → bool) (l : list A) : Z := foldr (λ x n, b2z (f x) + n) 0 l.

Lemma count_app {A} (f : A → bool) l1 l2 : count f (l1 ++ l2) = count f l1 + count f l2.
Proof. induction l1; simpl; lia. Qed.

Lemma count_nonneg {A} (f : A → bool) l : 0 ≤ count f l.
Proof. induction l as [|x l IH]; simpl; [done|]. destruct (f x); simpl; lia. Qed.

(** ** Sorted lists *)

(** A value that [f] takes once among the elements of [P] has one index. *)
Lemma NoDup_filter_lookup {A B} (f : A → B) (P : A → Prop) `{∀ x, Decision (P x)} l i j x y :
  NoDup (f <$> filter P l) → l !! i = Some x → l !! j = Some y → P x → P y → f x = f y → i = j.
Proof.
  revert i j. induction l as [|z l IH]; intros i j Hnd Hi Hj Hx Hy Hf; [done|].
  assert (Hin : ∀ k w, l !! k = Some w → P w → f w ∈ f <$> filter P l).
  { intros k w Hk Hw. apply list_elem_of_fmap. exists w. split; [done|].
    apply list_elem_of_filter. split; [done|]. by eapply list_elem_of_lookup_2. }
  rewrite filter_cons in Hnd. destruct i as [|i], j as [|j]; simplify_eq/=; [done|..].
  - rewrite decide_True in Hnd by done. apply NoDup_cons in Hnd as [Hn _]. destruct Hn. rewrite Hf. by eapply Hin.
  - rewrite decide_True in Hnd by done. apply NoDup_cons in Hnd as [Hn _]. destruct Hn. rewrite <- Hf. by eapply Hin.
  - f_equal. apply (IH i j); try done. destruct (decide (P z)); [|done]. by apply NoDup_cons in Hnd as [_ ?].
Qed.

Lemma StronglySorted_omap {A B} (R : relation A) (R' : relation B) (f : A → option B) l :
  (∀ x y x' y', R x y → f x = Some x' → f y = Some y' → R' x' y') →
  StronglySorted R l → StronglySorted R' (omap f l).
Proof.
  intros Hf. induction 1 as [|x l Hl IH Hx]; simpl; [constructor|].
  destruct (f x) as [x'|] eqn:E; [|done]. constructor; [done|].
  apply list.Forall_forall. intros y' Hy. apply list_elem_of_omap in Hy as (y & Hy & Ey).
  apply (Hf x y); [|done|done]. by apply (proj1 (list.Forall_forall _ _) Hx).
Qed.

Lemma StronglySorted_filter {A} (R : relation A) (P : A → Prop) `{∀ x, Decision (P x)} l :
  StronglySorted R l → StronglySorted R (filter P l).
Proof.
  induction 1 as [|x l Hl IH Hx]; [constructor|]. rewrite filter_cons.
  destruct (decide (P x)); [|done]. constructor; [done|].
  apply list.Forall_forall. intros y Hy. apply list_elem_of_filter in Hy as [_ Hy].
  by apply (proj1 (list.Forall_forall _ _) Hx).
Qed.

Lemma StronglySorted_seqZ m n : StronglySorted Z.le (seqZ m n).
Proof.
  unfold seqZ. generalize 0%nat. induction (Z.to_nat n) as [|k IH]; intros i; simpl; [constructor|].
  constructor; [apply IH|]. apply list.Forall_forall. intros x Hx.
  apply list_elem_of_fmap in Hx as (j & -> & Hj). apply elem_of_seq in Hj. lia.
Qed.

(** ** Loops

    A loop whose body goes on with a state or stops with a result is given [2 ^ 64]
    turns, counted in binary so that it computes; [None] also stands for a body that
    fails. *)

Section Loop.
Context {X R : Type} (body : X → option (X + R)).

Fixpoint iterate (n : nat) (s : X) : option (X + R) :=
  match n with
  | O => body s
  | S n => r ← iterate n s; match r with inl s => iterate n s | inr r => Some (inr r) end
  end.

Definition run_loop (s : X) : option R := r ← iterate 64 s; match r with inr r => Some r | inl _ => None end.

(** Partial correctness with a measure: the loop stops where the measure fits. *)
Lemma iterate_spec (I : X → Prop) (Q : R → Prop) (m : X → Z) :
  (∀ s, I s → ∃ r, body s = Some r ∧ match r with inl s' => I s' ∧ 0 ≤ m s' < m s | inr r => Q r end) →
  ∀ n s, I s → ∃ r, iterate n s = Some r ∧
    match r with inl s' => I s' ∧ 0 ≤ m s' ∧ m s' + 2 ^ Z.of_nat n ≤ m s | inr r => Q r end.
Proof.
  intros Hbody. induction n as [|n IH]; intros s Hs; cbn [iterate].
  - destruct (Hbody s Hs) as (r & -> & Hr). exists r. split; [done|]. destruct r as [s'|]; [|done].
    destruct Hr as (? & ? & ?). split_and!; [done|lia|]. change (2 ^ Z.of_nat 0) with 1. lia.
  - destruct (IH s Hs) as (r & -> & Hr). simpl. destruct r as [s'|r]; [|by exists (inr r)].
    destruct Hr as (Hs' & H0 & Hm). destruct (IH s' Hs') as (r & -> & Hr). exists r. split; [done|].
    destruct r as [s2|]; [|done]. destruct Hr as (? & ? & ?). split_and!; [done|lia|].
    rewrite Nat2Z.inj_succ, Z.pow_succ_r by lia. lia.
Qed.

Lemma run_loop_spec (I : X → Prop) (Q : R → Prop) (m : X → Z) s :
  (∀ s, I s → ∃ r, body s = Some r ∧ match r with inl s' => I s' ∧ 0 ≤ m s' < m s | inr r => Q r end) →
  I s → m s < 2 ^ 64 → ∃ r, run_loop s = Some r ∧ Q r.
Proof.
  intros Hbody Hs Hm. destruct (iterate_spec I Q m Hbody 64 s Hs) as (r & Hr & Hc). unfold run_loop. rewrite Hr. simpl.
  destruct r as [s'|r]; [|by exists r]. destruct Hc as (_ & ? & Hc). change (Z.of_nat 64) with 64 in Hc. lia.
Qed.

(** Some number of turns, at most [n], leads from a state to another. *)
Inductive turns : Z → X → X → Prop :=
  | turns_O n s : 0 ≤ n → turns n s s
  | turns_S n s s1 s2 : body s = Some (inl s1) → turns n s1 s2 → turns (n + 1) s s2.

Lemma turns_weaken n n' s s' : turns n s s' → n ≤ n' → turns n' s s'.
Proof.
  intros H. revert n'. induction H as [|n s s1 s2 Hb H IH]; intros n' Hn; [apply turns_O; lia|].
  replace n' with (n' - 1 + 1) by lia. eapply turns_S; [done|]. apply IH. lia.
Qed.

Lemma turns_app n1 n2 s1 s2 s3 : turns n1 s1 s2 → turns n2 s2 s3 → turns (n1 + n2) s1 s3.
Proof.
  intros H. revert n2. induction H as [n s Hn|n s s' s2 Hb H IH]; intros n2 H2; [eapply turns_weaken; [exact H2|lia]|].
  replace (n + 1 + n2) with (n + n2 + 1) by lia. eapply turns_S; [done|]. by apply IH.
Qed.

Lemma turns_one s s' : body s = Some (inl s') → turns 1 s s'.
Proof. intros H. replace 1 with (0 + 1) by lia. eapply turns_S; [done|]. by apply turns_O. Qed.

Lemma iterate_turns s' r : body s' = Some (inr r) → ∀ k n s, turns n s s' →
  iterate k s = Some (inr r) ∨ ∃ s1, iterate k s = Some (inl s1) ∧ 2 ^ Z.of_nat k ≤ n ∧ turns (n - 2 ^ Z.of_nat k) s1 s'.
Proof.
  intros Hstop. assert (Hnn : ∀ n s s', turns n s s' → 0 ≤ n) by (induction 1; lia).
  induction k as [|k IH]; intros n s H; cbn [iterate].
  - change (2 ^ Z.of_nat 0) with 1. destruct H as [n s Hn|n s s1 s2 Hb H]; [by left|right]. exists s1. split; [done|].
    pose proof (Hnn _ _ _ H). split; [lia|]. by replace (n + 1 - 1) with n by lia.
  - destruct (IH n s H) as [->|(s1 & -> & Hle & H1)]; [by left|]. simpl.
    destruct (IH _ s1 H1) as [->|(s2 & -> & Hle2 & H2)]; [by left|right]. exists s2. split; [done|].
    rewrite Nat2Z.inj_succ, Z.pow_succ_r by lia. split; [lia|].
    by replace (n - 2 * 2 ^ Z.of_nat k) with (n - 2 ^ Z.of_nat k - 2 ^ Z.of_nat k) by lia.
Qed.

Lemma turns_stop n s s' r : turns n s s' → body s' = Some (inr r) → n < 2 ^ 64 → run_loop s = Some r.
Proof.
  intros H Hstop Hn. unfold run_loop. destruct (iterate_turns s' r Hstop 64 n s H) as [->|(s1 & _ & Hle & _)]; [done|].
  change (Z.of_nat 64) with 64 in Hle. lia.
Qed.
End Loop.
