(* ===== verification/GttSa.v ===== *)
(** * GTT sub-allocator of a KFD device

    Models the chunk allocator of [kfd_device.c] ([kfd_gtt_sa_init],
    [kfd_gtt_sa_allocate], [kfd_gtt_sa_free]): a GTT buffer is split in chunks,
    a bitmap has one bit per chunk, and an allocation is the first run of free
    chunks that is long enough.  The two nested searches of the C code (the
    [kfd_gtt_restart_search] label and the [do ... while] loop) carry fuel;
    [kfd_gtt_sa_allocate_first_fit] shows that the fuel chosen is enough. *)

From S2P Require Import Prelude.

Module GttSa.

(** The allocator's part of [struct kfd_dev]. *)
Record kfd_dev := mk_kfd_dev {
  gtt_sa_chunk_size : Z;
  gtt_sa_num_of_chunks : Z;
  gtt_sa_bitmap : Z;
  gtt_start_gpu_addr : Z;
  gtt_start_cpu_ptr : Z;
}.
#[export] Instance eta_kfd_dev : Eta kfd_dev := λ k,
  mk_kfd_dev (gtt_sa_chunk_size k) (gtt_sa_num_of_chunks k) (gtt_sa_bitmap k)
    (gtt_start_gpu_addr k) (gtt_start_cpu_ptr k).

Record kfd_mem_obj := mk_mem_obj {
  range_start : Z;
  range_end : Z;
  gpu_addr : Z;
  cpu_ptr : Z;
}.

(** [zalloc_ok] is the outcome of [bitmap_zalloc]. *)
Definition kfd_gtt_sa_init (zalloc_ok : bool) (k : kfd_dev)
    (buf_size chunk_size : Z) : Z * kfd_dev :=
  if buf_size <? chunk_size then (-EINVAL, k)
  else if buf_size =? 0 then (-EINVAL, k)
  else if chunk_size =? 0 then (-EINVAL, k)
  else
    let k := k <| gtt_sa_chunk_size := chunk_size |>
               <| gtt_sa_num_of_chunks := buf_size `quot` chunk_size |> in
    if negb zalloc_ok then (-ENOMEM, k)
    else (0, k <| gtt_sa_bitmap := 0 |>).

Definition kfd_gtt_sa_calc_gpu_addr (start_addr bit_num chunk_size : Z) : Z :=
  u64 (start_addr + u32 (bit_num * chunk_size)).
Definition kfd_gtt_sa_calc_cpu_addr (start_addr bit_num chunk_size : Z) : Z :=
  u64 (start_addr + u32 (bit_num * chunk_size)).

(** How the [do ... while] loop is left. *)
Inductive extend_result :=
  | Contiguous (range_end : Z)
  | Restart (start_search : Z)
  | NoFreeChunk.

(** The [do ... while] loop that extends the run one chunk at a time. *)
Fixpoint extend (fuel : nat) (bm num chunk found cur_size : Z)
    : option extend_result :=
  match fuel with
  | O => None
  | S fuel =>
      let found := u32 (found + 1) in
      let range_end := find_next_zero_bit bm num found in
      if negb (range_end =? found) then Some (Restart found)
      else if found =? num then Some NoFreeChunk
      else
        let cur_size := if cur_size <=? chunk then 0 else cur_size - chunk in
        if 0 <? cur_size then extend fuel bm num chunk found cur_size
        else Some (Contiguous range_end)
  end.

(** The search from label [kfd_gtt_restart_search]: the pair of [range_start]
    and [range_end], or [None] for [kfd_gtt_no_free_chunk]. *)
Fixpoint search (fuel : nat) (bm num chunk size start_search : Z)
    : option (option (Z * Z)) :=
  match fuel with
  | O => None
  | S fuel' =>
      let found := find_next_zero_bit bm num start_search in
      if found =? num then Some None
      else if size <=? chunk then Some (Some (found, found))
      else
        match extend (S (Z.to_nat num)) bm num chunk found (size - chunk) with
        | None => None
        | Some (Restart s) => search fuel' bm num chunk size s
        | Some NoFreeChunk => Some None
        | Some (Contiguous e) => Some (Some (found, e))
        end
  end.

(** [kzalloc_ok] is the outcome of allocating the [kfd_mem_obj].  The result is
    the return code, the device and [*mem_obj]; [None] stands for fuel
    exhaustion and never happens. *)
Definition kfd_gtt_sa_allocate (kzalloc_ok : bool) (k : kfd_dev) (size : Z)
    : option (Z * kfd_dev * option kfd_mem_obj) :=
  let num := gtt_sa_num_of_chunks k in
  let chunk := gtt_sa_chunk_size k in
  let bm := gtt_sa_bitmap k in
  if size =? 0 then Some (-EINVAL, k, None)
  else if u32 (num * chunk) <? size then Some (-ENOMEM, k, None)
  else if negb kzalloc_ok then Some (-ENOMEM, k, None)
  else
    match search (S (Z.to_nat num)) bm num chunk size 0 with
    | None => None
    | Some None => Some (-ENOMEM, k, None)
    | Some (Some (s, e)) =>
        let m := mk_mem_obj s e
          (kfd_gtt_sa_calc_gpu_addr (gtt_start_gpu_addr k) s chunk)
          (kfd_gtt_sa_calc_cpu_addr (gtt_start_cpu_ptr k) s chunk) in
        let bm' := if size <=? chunk then set_bit s bm
                   else bitmap_set bm s (e - s + 1) in
        Some (0, k <| gtt_sa_bitmap := bm' |>, Some m)
    end.

(** Freeing a null object does nothing. *)
Definition kfd_gtt_sa_free (k : kfd_dev) (mem_obj : option kfd_mem_obj)
    : Z * kfd_dev :=
  match mem_obj with
  | None => (0, k)
  | Some m =>
      (0, k <| gtt_sa_bitmap ::= λ bm,
            bitmap_clear bm (range_start m) (range_end m - range_start m + 1) |>)
  end.

(** ** Specification: first fit

    The reference allocator looks at every start in turn. *)

Definition chunks_needed (chunk size : Z) : Z := (size + chunk - 1) / chunk.

Definition run_free (bm a n : Z) : Prop :=
  ∀ i, a ≤ i < a + n → Z.testbit bm i = false.

Definition run_freeb (bm a n : Z) : bool :=
  match scan (λ i, Z.testbit bm i) a (Z.to_nat n) with Some _ => false | None => true end.

Definition first_fit (bm num n : Z) : option Z :=
  scan (λ a, run_freeb bm a n) 0 (Z.to_nat (num - n + 1)).

Definition spec_allocate (k : kfd_dev) (size : Z) : Z * kfd_dev * option kfd_mem_obj :=
  let chunk := gtt_sa_chunk_size k in
  let n := chunks_needed chunk size in
  if size =? 0 then (-EINVAL, k, None)
  else
    match first_fit (gtt_sa_bitmap k) (gtt_sa_num_of_chunks k) n with
    | None => (-ENOMEM, k, None)
    | Some a =>
        (0, k <| gtt_sa_bitmap ::= λ bm, bitmap_set bm a n |>,
         Some (mk_mem_obj a (a + n - 1)
           (u64 (gtt_start_gpu_addr k + a * chunk))
           (u64 (gtt_start_cpu_ptr k + a * chunk))))
    end.

(** Geometry established by [kfd_gtt_sa_init]. *)
Definition wf (k : kfd_dev) : Prop :=
  0 < gtt_sa_chunk_size k ∧ 0 < gtt_sa_num_of_chunks k ∧
  gtt_sa_num_of_chunks k * gtt_sa_chunk_size k < 2 ^ 32.

Lemma run_freeb_spec bm a n :
  0 ≤ n → run_freeb bm a n = true ↔ run_free bm a n.
Proof.
  intros Hn. unfold run_freeb, run_free. destruct (scan _ _ _) as [i|] eqn:E.
  - apply scan_Some in E as (? & Hi & _). split; [done|].
    intros Hf. rewrite Hf in Hi by lia. done.
  - split; [|done]. intros _ i ?. eapply scan_None in E; [done|lia].
Qed.

Lemma chunks_needed_spec chunk size :
  0 < chunk → 0 < size →
  let n := chunks_needed chunk size in
  1 ≤ n ∧ (n - 1) * chunk < size ≤ n * chunk.
Proof.
  intros Hc Hs. unfold chunks_needed.
  pose proof (Z.div_mod (size + chunk - 1) chunk ltac:(lia)) as Hd.
  pose proof (Z.mod_pos_bound (size + chunk - 1) chunk Hc).
  assert (1 ≤ (size + chunk - 1) / chunk) by (apply Z.div_le_lower_bound; lia).
  split; nia.
Qed.

Lemma chunks_needed_unique chunk size n :
  0 < chunk → (n - 1) * chunk < size ≤ n * chunk → 0 < size →
  chunks_needed chunk size = n.
Proof.
  intros Hc Hn Hs. pose proof (chunks_needed_spec chunk size Hc Hs). simpl in *. nia.
Qed.

Lemma first_fit_Some bm num n a :
  1 ≤ n →
  first_fit bm num n = Some a ↔
  0 ≤ a ∧ a + n ≤ num ∧ run_free bm a n ∧
  (∀ a', 0 ≤ a' < a → ¬ run_free bm a' n).
Proof.
  intros Hn. unfold first_fit. split.
  - intros (? & Ha & Hlt)%scan_Some. apply run_freeb_spec in Ha; [|lia].
    split_and!; [lia|lia|done|]. intros a' ?. rewrite <- run_freeb_spec by lia.
    rewrite Hlt by lia. done.
  - intros (? & ? & Hf & Hlt). destruct (scan _ _ _) as [b|] eqn:E.
    + apply scan_Some in E as (? & Hb & Hblt). apply run_freeb_spec in Hb; [|lia].
      f_equal. destruct (Z.lt_total a b) as [?|[?|?]]; [|done|].
      * apply run_freeb_spec in Hf; [|lia]. rewrite Hblt in Hf by lia. done.
      * exfalso. eapply Hlt; [|done]. lia.
    + eapply scan_None in E; [|split; [done|]; lia].
      apply run_freeb_spec in Hf; [|lia]. simpl in *. congruence.
Qed.

Lemma first_fit_None bm num n :
  1 ≤ n →
  first_fit bm num n = None ↔
  ∀ a, 0 ≤ a → a + n ≤ num → ¬ run_free bm a n.
Proof.
  intros Hn. unfold first_fit. split.
  - intros E a ?? Hf. apply run_freeb_spec in Hf; [|lia].
    eapply scan_None in E; [|split; [done|]; lia]. simpl in *. congruence.
  - intros H. destruct (scan _ _ _) as [b|] eqn:E; [|done].
    apply scan_Some in E as (? & Hb & _). apply run_freeb_spec in Hb; [|lia].
    exfalso. eapply H; [| |done]; lia.
Qed.

(** Postcondition of the extension loop started on the free chunk [a]. *)
Definition extend_post (bm num chunk size a found : Z) (r : extend_result) : Prop :=
  match r with
  | Contiguous e =>
      e < num ∧ run_free bm a (e - a + 1) ∧ (e - a) * chunk < size ≤ (e - a + 1) * chunk
  | Restart s =>
      found < s < num ∧ Z.testbit bm s = true ∧ (s - a) * chunk < size
  | NoFreeChunk => (num - a) * chunk < size
  end.

Lemma extend_spec bm num chunk size a fuel found cur :
  0 < chunk → num < 2 ^ 32 → 0 ≤ a ≤ found → found < num →
  run_free bm a (found - a + 1) →
  cur = size - (found - a + 1) * chunk → 0 < cur →
  Z.of_nat fuel > num - found →
  ∃ r, extend fuel bm num chunk found cur = Some r ∧ extend_post bm num chunk size a found r.
Proof.
  revert found cur. induction fuel as [|fuel IH]; intros found cur Hc Hnum Ha Hf Hrun Hcur Hpos Hfuel;
    [lia|].
  cbn [extend].
  rewrite (wrap_small 32 (found + 1)) by (unfold in_width; lia).
  pose proof (find_next_zero_bit_spec bm num (found + 1) ltac:(lia)) as (Hr & Hset & Hclr).
  set (re := find_next_zero_bit bm num (found + 1)) in *.
  destruct (re =? found + 1) eqn:E1; bool_to_Prop; cbn [negb].
  2:{ eexists. split; [done|]. simpl. split_and!; [lia|lia|apply Hset; lia|nia]. }
  destruct (found + 1 =? num) eqn:E2; bool_to_Prop.
  { eexists. split; [done|]. simpl. nia. }
  assert (Hrun' : run_free bm a (found + 1 - a + 1)).
  { intros i ?. destruct (decide (i = found + 1)) as [->|].
    - rewrite <- E1. apply Hclr. lia.
    - apply Hrun. lia. }
  destruct (cur <=? chunk) eqn:E3; bool_to_Prop.
  - change (0 <? 0) with false. cbn iota. eexists. split; [done|]. simpl.
    rewrite E1. split_and!; [lia|done|nia|nia].
  - replace (0 <? cur - chunk) with true by (symmetry; apply Z.ltb_lt; lia).
    destruct (IH (found + 1) (cur - chunk)) as (r & -> & Hpost); try lia; try done.
    eexists. split; [done|]. destruct r; simpl in *; [done| |done].
    destruct Hpost as (? & ? & ?). split_and!; [lia|lia|done|done].
Qed.

(** The search keeps every start below [start_search] excluded. *)
Lemma search_spec bm num chunk size fuel start :
  0 < chunk → num < 2 ^ 32 → 0 < size → 0 ≤ start ≤ num →
  let n := chunks_needed chunk size in
  (∀ a, 0 ≤ a < start → ¬ run_free bm a n) →
  Z.of_nat fuel > num - start →
  search fuel bm num chunk size start
  = Some ((λ a, (a, a + n - 1)) <$> first_fit bm num n).
Proof.
  intros Hc Hnum Hsz. revert start.
  pose proof (chunks_needed_spec chunk size Hc Hsz) as [Hn1 Hn2].
  induction fuel as [|fuel IH]; intros start Hstart n Hex Hfuel; [lia|].
  cbn [search].
  pose proof (find_next_zero_bit_spec bm num start ltac:(lia)) as (Hr & Hset & Hclr).
  set (found := find_next_zero_bit bm num start) in *.
  assert (Hex' : ∀ a, 0 ≤ a < found → ¬ run_free bm a n).
  { intros a Ha Hrun. destruct (decide (a < start)); [by eapply Hex; [|done]; lia|].
    specialize (Hrun a ltac:(unfold n; lia)). rewrite Hset in Hrun by lia. done. }
  assert (Hnone : (∀ a, found ≤ a → a + n ≤ num → ¬ run_free bm a n) →
    first_fit bm num n = None).
  { intros H. apply first_fit_None; [done|]. intros a ??.
    destruct (decide (a < found)); [apply Hex'; lia|apply H; lia]. }
  destruct (found =? num) eqn:E1; bool_to_Prop.
  { rewrite Hnone; [done|]. unfold n; lia. }
  destruct (size <=? chunk) eqn:E2; bool_to_Prop.
  { assert (n = 1) as Hn by (apply chunks_needed_unique; lia).
    replace (first_fit bm num n) with (Some found); [simpl; repeat f_equal; lia|].
    symmetry. apply first_fit_Some; [lia|]. rewrite Hn in *. split_and!; [lia|lia| |done].
    intros i ?. replace i with found by lia. apply Hclr. lia. }
  destruct (extend_spec bm num chunk size found (S (Z.to_nat num)) found (size - chunk))
    as (r & -> & Hpost); try lia.
  { intros i ?. replace i with found by lia. apply Hclr. lia. }
  destruct r as [e|s|]; simpl in Hpost.
  - destruct Hpost as (? & Hrun & Hsize).
    assert (n = e - found + 1) as Hn by (apply chunks_needed_unique; nia).
    replace (first_fit bm num n) with (Some found); [simpl; repeat f_equal; lia|].
    symmetry. apply first_fit_Some; [lia|]. split_and!; [lia|lia|by rewrite Hn|done].
  - destruct Hpost as (Hs & Hbit & Hlt). apply IH; [lia| |lia].
    intros a Ha Hrun. destruct (decide (a < found)); [by eapply Hex'; [|done]; lia|].
    specialize (Hrun s). rewrite Hbit in Hrun.
    discriminate Hrun. unfold n. nia.
  - rewrite Hnone; [done|]. intros a ?? _. unfold n in *. nia.
Qed.

(** [set_bit] on one chunk is the one-chunk range of the reference. *)
Lemma set_bit_range s bm : 0 ≤ s → set_bit s bm = bitmap_set bm s 1.
Proof.
  intros Hs. apply Z.bits_inj'. intros i Hi.
  rewrite set_bit_spec, bitmap_set_spec by lia. rewrite orb_comm. f_equal.
  case_bool_decide; [apply Z.eqb_eq|apply Z.eqb_neq]; lia.
Qed.

Lemma allocate_spec k size :
  wf k → 0 ≤ size < 2 ^ 32 →
  kfd_gtt_sa_allocate true k size = Some (spec_allocate k size).
Proof.
  intros (Hc & Hnum & Hcap) Hsz. unfold kfd_gtt_sa_allocate, spec_allocate.
  set (n := chunks_needed (gtt_sa_chunk_size k) size).
  destruct (size =? 0) eqn:E0; bool_to_Prop; [done|].
  pose proof (chunks_needed_spec (gtt_sa_chunk_size k) size Hc ltac:(lia)) as [Hn1 Hn2].
  fold n in Hn1, Hn2.
  rewrite wrap_small by (unfold in_width; nia).
  destruct (_ <? size) eqn:E1; bool_to_Prop.
  { replace (first_fit _ _ n) with (@None Z); [done|]. symmetry.
    apply first_fit_None; [done|]. intros a ?? _. nia. }
  cbn [negb].
  rewrite (search_spec _ _ _ size) by (nia || (intros; lia) || lia). fold n.
  destruct (first_fit _ _ n) as [a|] eqn:Ef; [|done].
  apply first_fit_Some in Ef as (? & ? & _ & _); [|done]. simpl.
  unfold kfd_gtt_sa_calc_gpu_addr, kfd_gtt_sa_calc_cpu_addr.
  rewrite (wrap_small 32) by (unfold in_width; nia).
  repeat f_equal. destruct (size <=? _) eqn:E2; bool_to_Prop.
  - assert (n = 1) as -> by (apply chunks_needed_unique; lia).
    by apply set_bit_range.
  - simpl. f_equal. f_equal. lia.
Qed.

(** C1. The allocator is the first-fit allocator: for every size and every
    bitmap state, [kfd_gtt_sa_allocate] terminates and returns exactly what the
    reference search over all starts gives: the lowest run of free chunks that
    covers the size, marked in the bitmap, with its GPU and CPU addresses, or
    [-ENOMEM] with the device unchanged precisely when no such run exists. *)
Theorem kfd_gtt_sa_allocate_first_fit k size :
  wf k → 0 ≤ size < 2 ^ 32 →
  kfd_gtt_sa_allocate true k size = Some (spec_allocate k size).
Proof. apply allocate_spec. Qed.

Definition dev0 : kfd_dev := mk_kfd_dev 512 8 21 4096 8192.

Lemma kfd_gtt_sa_allocate_first_fit_witness :
  wf dev0 ∧ kfd_gtt_sa_allocate true dev0 1500
            = Some (0, dev0 <| gtt_sa_bitmap := 245 |>, Some (mk_mem_obj 5 7 6656 10752)).
Proof.
  split; [vm_compute; done|].
  rewrite (kfd_gtt_sa_allocate_first_fit dev0 1500); [vm_compute; reflexivity| |]; vm_compute; done.
Defined.

(** ** Histories of allocations and frees *)

Definition covers (m : kfd_mem_obj) (i : Z) : Prop := range_start m ≤ i ≤ range_end m.

(** One call on the allocator together with the objects its clients hold. *)
Inductive step : kfd_dev * list kfd_mem_obj → kfd_dev * list kfd_mem_obj → Prop :=
  | step_allocate ok k live size r k' mo :
      0 ≤ size < 2 ^ 32 →
      kfd_gtt_sa_allocate ok k size = Some (r, k', mo) →
      step (k, live) (k', option_list mo ++ live)
  | step_free k l1 m l2 :
      step (k, l1 ++ m :: l2) ((kfd_gtt_sa_free k (Some m)).2, l1 ++ l2).

Definition disjoint (m1 m2 : kfd_mem_obj) : Prop :=
  range_end m1 < range_start m2 ∨ range_end m2 < range_start m1.

(** Bits are set exactly for the chunks of live objects, which are in range and
    pairwise disjoint. *)
Record inv (s : kfd_dev * list kfd_mem_obj) : Prop := {
  inv_wf : wf s.1;
  inv_range : ∀ m, m ∈ s.2 →
    0 ≤ range_start m ≤ range_end m ∧ range_end m < gtt_sa_num_of_chunks s.1;
  inv_disjoint : StronglySorted disjoint s.2;
  inv_bits : ∀ i, Z.testbit (gtt_sa_bitmap s.1) i = true ↔ ∃ m, m ∈ s.2 ∧ covers m i;
}.

Lemma spec_allocate_cases k size :
  wf k → 0 ≤ size < 2 ^ 32 →
  (∃ r, spec_allocate k size = (r, k, None)) ∨
  (∃ a n g c, 1 ≤ n ∧ 0 ≤ a ∧ a + n ≤ gtt_sa_num_of_chunks k ∧
     run_free (gtt_sa_bitmap k) a n ∧
     spec_allocate k size = (0, k <| gtt_sa_bitmap ::= λ bm, bitmap_set bm a n |>,
       Some (mk_mem_obj a (a + n - 1) g c))).
Proof.
  intros (Hc & _ & _) Hsz. unfold spec_allocate.
  destruct (size =? 0) eqn:E0; bool_to_Prop; [by eauto|].
  pose proof (chunks_needed_spec (gtt_sa_chunk_size k) size Hc ltac:(lia)) as [Hn _].
  destruct (first_fit _ _ _) as [a|] eqn:E; [|by eauto].
  apply first_fit_Some in E as (? & ? & ? & _); [|done].
  right. do 4 eexists. split_and!; done || lia.
Qed.

(** No object covers a chunk of a run that is free in the bitmap. *)
Lemma inv_run_disjoint s a n m g c :
  inv s → run_free (gtt_sa_bitmap s.1) a n → 1 ≤ n → m ∈ s.2 →
  disjoint (mk_mem_obj a (a + n - 1) g c) m.
Proof.
  intros Hinv Hrun Hn Hm. unfold disjoint. simpl.
  destruct (inv_range _ Hinv m Hm) as [? _].
  destruct (decide (a + n - 1 < range_start m)); [by left|].
  destruct (decide (range_end m < a)); [by right|]. exfalso.
  set (i := Z.max a (range_start m)).
  assert (Z.testbit (gtt_sa_bitmap s.1) i = true) as Ht.
  { apply (inv_bits _ Hinv). exists m. split; [done|]. unfold covers. lia. }
  rewrite Hrun in Ht by lia. done.
Qed.

Lemma inv_allocate k live a n g c :
  inv (k, live) → 1 ≤ n → 0 ≤ a → a + n ≤ gtt_sa_num_of_chunks k →
  run_free (gtt_sa_bitmap k) a n →
  inv (k <| gtt_sa_bitmap ::= λ bm, bitmap_set bm a n |>,
       mk_mem_obj a (a + n - 1) g c :: live).
Proof.
  intros Hinv Hn Ha Hb Hrun. split; simpl.
  - apply Hinv.
  - intros m [->|Hm]%elem_of_cons; simpl; [lia|]. by apply (inv_range _ Hinv).
  - constructor; [apply (inv_disjoint _ Hinv)|]. apply Forall_forall. intros m Hm.
    exact (inv_run_disjoint (k, live) a n m g c Hinv Hrun Hn Hm).
  - intros i. rewrite bitmap_set_spec, orb_true_iff, bool_decide_eq_true, (inv_bits _ Hinv) by lia.
    unfold covers. simpl. setoid_rewrite elem_of_cons. split.
    + intros [(m & ? & ?)|?]; [by eauto|]. eexists. split; [by left|]. simpl. lia.
    + intros (m & [->|?] & ?); simpl in *; [right; lia|left; eauto].
Qed.

Lemma disjoint_not_covers m1 m2 i : disjoint m1 m2 → covers m1 i → ¬ covers m2 i.
Proof. unfold disjoint, covers. lia. Qed.

Lemma disjoint_sym m1 m2 : disjoint m1 m2 → disjoint m2 m1.
Proof. unfold disjoint. lia. Qed.

Lemma inv_free k l1 m l2 :
  inv (k, l1 ++ m :: l2) → inv ((kfd_gtt_sa_free k (Some m)).2, l1 ++ l2).
Proof.
  intros Hinv.
  assert (Hm : m ∈ l1 ++ m :: l2) by set_solver.
  destruct (inv_range _ Hinv m Hm) as [Hr _].
  pose proof (inv_disjoint _ Hinv) as Hss. simpl in Hss.
  apply StronglySorted_app in Hss as (H12 & Hl1 & [Hml2 Hl2]%StronglySorted_cons).
  assert (Hdis : ∀ m', m' ∈ l1 ++ l2 → disjoint m m').
  { intros m' [H|H]%elem_of_app.
    - apply disjoint_sym. apply H12; set_solver.
    - by eapply Forall_forall. }
  split; simpl.
  - apply Hinv.
  - intros m' Hm'. apply (inv_range _ Hinv). simpl. set_solver.
  - apply StronglySorted_app. split_and!; [|done..]. set_solver.
  - intros i. rewrite bitmap_clear_spec, andb_true_iff, negb_true_iff, bool_decide_eq_false by lia.
    rewrite (inv_bits _ Hinv). simpl. split.
    + intros [(m' & Hm' & Hc) Hn]. exists m'. split; [|done].
      apply elem_of_app in Hm'. rewrite elem_of_cons in Hm'.
      destruct Hm' as [?|[->|?]]; [set_solver| |set_solver]. unfold covers in *. lia.
    + intros (m' & Hm' & Hc). split; [exists m'; split; [set_solver|done]|].
      specialize (Hdis m' Hm'). unfold disjoint, covers in *. lia.
Qed.

Lemma inv_init k0 buf_size chunk_size :
  0 ≤ buf_size < 2 ^ 32 → 0 ≤ chunk_size →
  (kfd_gtt_sa_init true k0 buf_size chunk_size).1 = 0 →
  inv ((kfd_gtt_sa_init true k0 buf_size chunk_size).2, []).
Proof.
  intros Hb Hc. unfold kfd_gtt_sa_init, EINVAL. repeat branch; simpl; intros Hz; try lia.
  split; simpl; [|set_solver|constructor|].
  - unfold wf. simpl. rewrite Z.quot_div_nonneg by lia.
    pose proof (Z.div_le_lower_bound buf_size chunk_size 1 ltac:(lia) ltac:(lia)).
    pose proof (Z.mul_div_le buf_size chunk_size ltac:(lia)).
    split_and!; lia.
  - intros i. rewrite Z.bits_0. set_solver.
Qed.

Lemma inv_step s s' : step s s' → inv s → inv s'.
Proof.
  intros Hstep Hinv. destruct Hstep as [ok k live size r k' mo Hsz Hall|k l1 m l2].
  - destruct ok.
    + rewrite allocate_spec in Hall by (done || apply Hinv).
      destruct (spec_allocate_cases k size) as [[r' Hr]|(a & n & g & c & ? & ? & ? & ? & Hr)];
        [apply Hinv|done| |]; rewrite Hr in Hall; simplify_eq; [done|].
      by apply inv_allocate.
    + unfold kfd_gtt_sa_allocate in Hall. simpl in Hall.
      repeat case_match; simplify_eq; done.
  - by apply inv_free.
Qed.

(** C2. Whatever allocations and frees clients issue after [kfd_gtt_sa_init], no
    chunk is ever handed out twice: the objects they hold are pairwise disjoint,
    stay inside the buffer, and the bitmap marks exactly their chunks. *)
Theorem kfd_gtt_sa_exclusive k0 buf_size chunk_size k live :
  0 ≤ buf_size < 2 ^ 32 → 0 ≤ chunk_size →
  (kfd_gtt_sa_init true k0 buf_size chunk_size).1 = 0 →
  rtc step ((kfd_gtt_sa_init true k0 buf_size chunk_size).2, []) (k, live) →
  inv (k, live).
Proof.
  intros Hb Hc Hinit.
  enough (H : ∀ s s', rtc step s s' → inv s → inv s').
  { intros Hr. eapply H; [exact Hr|]. by apply inv_init. }
  induction 1 as [|s1 s2 s3 Hs _ IH]; [done|].
  intros Hinv. apply IH. by eapply inv_step.
Qed.

Lemma kfd_gtt_sa_exclusive_witness :
  inv (dev0 <| gtt_sa_num_of_chunks := 8 |> <| gtt_sa_bitmap := 7 |>,
       [mk_mem_obj 0 2 4096 8192]).
Proof.
  apply (kfd_gtt_sa_exclusive dev0 4096 512); [lia|lia|reflexivity|].
  eapply rtc_l; [|apply rtc_refl].
  refine (step_allocate true _ [] 1500 0 _ (Some (mk_mem_obj 0 2 4096 8192)) _ _); [lia|].
  vm_compute. reflexivity.
Defined.

(** Freeing an object that was just allocated gives back the bitmap, so the
    same request succeeds again with the same placement. *)
Theorem kfd_gtt_sa_allocate_free k size k' m :
  wf k → 0 ≤ size < 2 ^ 32 →
  kfd_gtt_sa_allocate true k size = Some (0, k', Some m) →
  kfd_gtt_sa_free k' (Some m) = (0, k).
Proof.
  intros Hwf Hsz. rewrite (allocate_spec k size Hwf Hsz).
  destruct (spec_allocate_cases k size Hwf Hsz)
    as [[r ->]|(a & n & g & c & Hn & Ha & _ & Hrun & ->)]; [done|].
  intros [= <- <-]. unfold kfd_gtt_sa_free. simpl. f_equal.
  destruct k as [ch nu bm ga ca]; simpl in *. f_equal. apply Z.bits_inj'. intros i Hi.
  rewrite bitmap_clear_spec, bitmap_set_spec by lia.
  replace (a + n - 1 - a + 1) with n by lia.
  case_bool_decide; simpl; [|by rewrite orb_false_r, andb_true_r].
  rewrite andb_false_r, Hrun by lia. done.
Qed.

Lemma kfd_gtt_sa_allocate_free_witness :
  kfd_gtt_sa_free (dev0 <| gtt_sa_bitmap := 245 |>) (Some (mk_mem_obj 5 7 6656 10752)) = (0, dev0).
Proof.
  apply (kfd_gtt_sa_allocate_free dev0 1500); [vm_compute; done|lia|vm_compute; reflexivity].
Defined.

End GttSa.
