(* ===== verification/DqmState.v ===== *)
(** * Queues and the resources of a device queue manager

    The data of [kfd_device_queue_manager.c] ([struct queue],
    [struct qcm_process_device], [struct device_queue_manager]) and its resource
    allocators: hardware queue slots ([allocate_hqd]), SDMA queues
    ([allocate_sdma_queue]), doorbells ([allocate_doorbell],
    [init_doorbell_bitmap]) and VMIDs ([allocate_vmid]).

    What the hardware and the firmware do is an environment: device constants
    ([dev_env]) and answers ([hw_env]) that may depend on the whole history of
    register programming and packets ([hw_log]), newest first. *)

From S2P Require Import Prelude.

(** ** Data *)

Inductive kfd_queue_type :=
  | KFD_QUEUE_TYPE_COMPUTE | KFD_QUEUE_TYPE_SDMA | KFD_QUEUE_TYPE_HIQ
  | KFD_QUEUE_TYPE_DIQ | KFD_QUEUE_TYPE_SDMA_XGMI.
#[export] Instance kfd_queue_type_eq_dec : EqDecision kfd_queue_type.
Proof. solve_decision. Defined.

Definition is_type (t t' : kfd_queue_type) : bool := bool_decide (t = t').

Record queue_properties := mk_props {
  type : kfd_queue_type;
  queue_id : Z;
  queue_address : Z;
  queue_size : Z;
  queue_percent : Z;
  doorbell_off : Z;
  is_evicted : bool;
  is_suspended : bool;
  is_being_destroyed : bool;
  is_active : bool;
  is_gws : bool;
  is_dbg_wa : bool;
  vmid_of_queue : Z;
  sdma_engine_id : Z;
  sdma_queue_id : Z;
  q_tba_addr : Z;
  q_tma_addr : Z;
  exception_status : Z;
}.
#[export] Instance eta_props : Eta queue_properties := λ p,
  mk_props (type p) (queue_id p) (queue_address p) (queue_size p) (queue_percent p)
    (doorbell_off p) (is_evicted p) (is_suspended p) (is_being_destroyed p)
    (is_active p) (is_gws p) (is_dbg_wa p) (vmid_of_queue p) (sdma_engine_id p)
    (sdma_queue_id p) (q_tba_addr p) (q_tma_addr p) (exception_status p).

Definition QUEUE_IS_ACTIVE (q : queue_properties) : bool :=
  (0 <? queue_size q) && negb (queue_address q =? 0) && (0 <? queue_percent q)
  && negb (is_evicted q) && negb (is_suspended q).

(** [q_addr] is the address of the object: what the C lists link and compare. *)
Record queue := mk_queue {
  q_addr : Z;
  properties : queue_properties;
  pipe : Z;
  hqd : Z;
  sdma_id : Z;
  doorbell_id : Z;
  gws : bool;
  pasid : Z;
}.
#[export] Instance eta_queue : Eta queue := λ q,
  mk_queue (q_addr q) (properties q) (pipe q) (hqd q) (sdma_id q) (doorbell_id q)
    (gws q) (pasid q).

Definition set_props (f : queue_properties → queue_properties) (q : queue) : queue :=
  q <| properties ::= f |>.
Definition qtype (q : queue) : kfd_queue_type := type (properties q).
Definition qactive (q : queue) : bool := is_active (properties q).

Record qcm_process_device := mk_qpd {
  queues_list : list queue;
  priv_queue_list : list queue;
  queue_count : Z;
  vmid : Z;
  is_debug : bool;
  evicted : Z;
  reset_wavefronts : bool;
  mapped_gws_queue : bool;
  page_table_base : Z;
  tba_addr : Z;
  tma_addr : Z;
  doorbell_bitmap : Z;
  (* fields of the enclosing kfd_process_device and kfd_process *)
  drm_priv : bool;
  last_evict_timestamp : Z;
  evict_duration_counter : Z;
  debug_trap_enabled : bool;
}.
#[export] Instance eta_qpd : Eta qcm_process_device := λ p,
  mk_qpd (queues_list p) (priv_queue_list p) (queue_count p) (vmid p) (is_debug p)
    (evicted p) (reset_wavefronts p) (mapped_gws_queue p) (page_table_base p)
    (tba_addr p) (tma_addr p) (doorbell_bitmap p) (drm_priv p)
    (last_evict_timestamp p) (evict_duration_counter p) (debug_trap_enabled p).

(** Effects of the driver on the device, in the order they are issued. *)
Inductive hw_event :=
  | EvSetPasidVmidMapping (pasid vmid xcc_id : Z)
  | EvProgramShMem (vmid xcc_id : Z)
  | EvProgramTrapHandler (vmid tba tma xcc_id : Z)
  | EvPageTableBase (vmid base : Z)
  | EvFlushTlb (vmid : Z)
  | EvScratchBackingVa (vmid : Z)
  | EvFlushTextureCache (vmid : Z)
  | EvInitSdmaVm (q : Z)
  | EvInitMqd (q : Z) | EvRestoreMqd (q : Z) | EvUpdateMqd (q : Z)
  | EvLoadMqd (q pipe hqd : Z)
  | EvDestroyMqd (q pipe hqd : Z)
  | EvFreeMqd (q : Z)
  | EvResetWavefronts
  | EvSendRunlist
  | EvSendUnmap (filter param : Z) (reset : bool)
  | EvQueryStatus
  | EvGracePeriod (g : Z)
  | EvReleaseIb
  | EvAddHwQueue (q : Z) | EvRemoveHwQueue (q : Z)
  | EvScheduleReset
  | EvDebugEvent (q : Z).

Record device_queue_manager := mk_dqm {
  dqm_queues : list Z;            (* device_process_node list: registered processes *)
  processes_count : Z;
  active_queue_count : Z;
  active_cp_queue_count : Z;
  gws_queue_count : Z;
  total_queue_count : Z;
  next_pipe_to_allocate : Z;
  allocated_queues : list Z;      (* per pipe, bit set = free *)
  sdma_bitmap : Z;                (* bit set = free *)
  xgmi_sdma_bitmap : Z;
  vmid_pasid : list Z;
  active_runlist : bool;
  is_hws_hang : bool;
  is_resetting : bool;
  sched_running : bool;
  compute_profile : Z;
  hw_log : list hw_event;
}.
#[export] Instance eta_dqm : Eta device_queue_manager := λ d,
  mk_dqm (dqm_queues d) (processes_count d) (active_queue_count d)
    (active_cp_queue_count d) (gws_queue_count d) (total_queue_count d)
    (next_pipe_to_allocate d) (allocated_queues d) (sdma_bitmap d)
    (xgmi_sdma_bitmap d) (vmid_pasid d) (active_runlist d) (is_hws_hang d)
    (is_resetting d) (sched_running d) (compute_profile d) (hw_log d).

Definition emit (ev : hw_event) (d : device_queue_manager) : device_queue_manager :=
  d <| hw_log ::= cons ev |>.

(** Device constants. *)
Record dev_env := mk_dev_env {
  num_pipe_per_mec : Z;
  num_queue_per_pipe : Z;
  cp_queue_bitmap : Z;
  sdma_num_instances : Z;
  num_nodes : Z;
  xgmi_supported : bool;
  num_sdma_queues_per_engine : Z;
  reserved_sdma_queues_bitmap : Z;
  node_id : Z;
  sdma_doorbell_idx : Z → Z;
  is_soc15 : bool;
  non_cp_doorbells_start : Z;
  non_cp_doorbells_end : Z;
  doorbell_size : Z;
  proc_doorbells_offset : Z;      (* amdgpu_bo_gpu_offset_no_check of the doorbell BO *)
  first_vmid_kfd : Z;
  last_vmid_kfd : Z;
  xcc_mask : Z;
  cwsr_enabled : bool;
  enable_mes : bool;
  is_hawaii : bool;
  has_scratch_backing_va : bool;
  has_trap_handler_settings : bool;
  has_cwsr_workaround : bool;
  max_num_of_queues_per_device : Z;
  ec_queue_new_mask : Z;          (* KFD_EC_MASK(EC_QUEUE_NEW) *)
}.

(** Answers of the memory manager, the hardware and the firmware; each may
    depend on everything issued so far. *)
Record hw_env := mk_hw_env {
  hw_set_pasid_vmid : list hw_event → Z;
  hw_allocate_mqd : list hw_event → Z → bool;
  hw_load_mqd : list hw_event → Z → Z;
  hw_destroy_mqd : list hw_event → Z → Z;
  hw_same_mm : bool;
  hw_send_runlist : list hw_event → Z;
  hw_send_unmap : list hw_event → Z;
  hw_grace_period : list hw_event → Z;
  hw_fence_wait : list hw_event → Z;
  hw_hiq_doorbell_id : list hw_event → bool;
  hw_add_hw_queue : list hw_event → Z → Z;
  hw_remove_hw_queue : list hw_event → Z → Z;
  hw_page_dir : Z;
  hw_jiffies : Z;
  hw_task_mm : bool;
  hw_zalloc : bool;
}.

(** The objects an operation works on: the manager, the process' [qpd], a queue. *)
Record frame := mk_frame {
  fd : device_queue_manager;
  fp : qcm_process_device;
  fq : queue;
}.
#[export] Instance eta_frame : Eta frame := λ s, mk_frame (fd s) (fp s) (fq s).

(** ** Sizes *)

Definition KFD_MAX_NUM_OF_QUEUES_PER_PROCESS : Z := 1024.
Definition KFD_QUEUE_DOORBELL_MIRROR_OFFSET : Z := 512.
Definition KFD_MAX_SDMA_QUEUES : Z := 128.
Definition AMDGPU_MAX_QUEUES : Z := 128.

Section Env.
Context (e : dev_env) (h : hw_env).

Definition kfd_get_num_sdma_engines : Z :=
  if negb (xgmi_supported e) then sdma_num_instances e `quot` num_nodes e
  else Z.min (sdma_num_instances e `quot` num_nodes e) 2.

Definition kfd_get_num_xgmi_sdma_engines : Z :=
  u32 (sdma_num_instances e `quot` num_nodes e - kfd_get_num_sdma_engines).

Definition get_num_all_sdma_engines : Z :=
  u32 (kfd_get_num_sdma_engines + kfd_get_num_xgmi_sdma_engines).
Definition get_num_sdma_queues : Z :=
  u32 (kfd_get_num_sdma_engines * num_sdma_queues_per_engine e).
Definition get_num_xgmi_sdma_queues : Z :=
  u32 (kfd_get_num_xgmi_sdma_engines * num_sdma_queues_per_engine e).
Definition get_queues_per_pipe : Z := num_queue_per_pipe e.
Definition get_pipes_per_mec : Z := num_pipe_per_mec e.
Definition get_cp_queues_num : Z := bitmap_weight (cp_queue_bitmap e) AMDGPU_MAX_QUEUES.

(** [for_each_inst]: the XCCs of the partition, lowest first. *)
Definition xccs : list Z := filter (λ i, Z.testbit (xcc_mask e) i = true) (seqZ 0 32).

(** ** Hardware queue slots *)

Definition is_pipe_enabled (mec p : Z) : bool :=
  let pipe_offset := (mec * num_pipe_per_mec e + p) * num_queue_per_pipe e in
  existsb (λ i, test_bit (pipe_offset + i) (cp_queue_bitmap e))
    (seqZ 0 (num_queue_per_pipe e)).

Definition free_hqds (d : device_queue_manager) (p : Z) : Z :=
  default 0 (allocated_queues d !! Z.to_nat p).

(** The [for] loop of [allocate_hqd], [n] iterations from pipe [p]. *)
Fixpoint hqd_loop (d : device_queue_manager) (n : nat) (p : Z) : option (Z * Z) :=
  match n with
  | O => None
  | S n =>
      let next := (p + 1) `mod` get_pipes_per_mec in
      if negb (is_pipe_enabled 0 p) then hqd_loop d n next
      else if nz (free_hqds d p) then Some (p, ffs (free_hqds d p) - 1)
      else hqd_loop d n next
  end.

Definition allocate_hqd (d : device_queue_manager) (q : queue)
    : Z * device_queue_manager * queue :=
  match hqd_loop d (Z.to_nat get_pipes_per_mec) (next_pipe_to_allocate d) with
  | None => (-EBUSY, d, q)
  | Some (p, bit) =>
      (0,
       d <| allocated_queues ::= <[Z.to_nat p := clear_bit bit (free_hqds d p)]> |>
         <| next_pipe_to_allocate := (p + 1) `mod` get_pipes_per_mec |>,
       q <| pipe := p |> <| hqd := bit |>)
  end.

Definition deallocate_hqd (d : device_queue_manager) (q : queue) : device_queue_manager :=
  d <| allocated_queues ::=
    <[Z.to_nat (pipe q) := Z.lor (free_hqds d (pipe q)) (u32 (Z.shiftl 1 (hqd q)))]> |>.

(** ** SDMA queues *)

Definition init_sdma_bitmaps (d : device_queue_manager) : device_queue_manager :=
  let d := d <| sdma_bitmap := bitmap_set 0 0 get_num_sdma_queues |> in
  let d := d <| xgmi_sdma_bitmap := bitmap_set 0 0 get_num_xgmi_sdma_queues |> in
  d <| sdma_bitmap := bitmap_andnot (sdma_bitmap d) (reserved_sdma_queues_bitmap e)
                        KFD_MAX_SDMA_QUEUES |>.

(** Common part of the two branches of [allocate_sdma_queue]: pick the id asked
    for, or the first free one below [num]. *)
Definition take_sdma_id (bm num : Z) (restore_sdma_id : option Z) : Z * Z * Z :=
  if bitmap_empty bm KFD_MAX_SDMA_QUEUES then (-ENOMEM, bm, 0)
  else
    match restore_sdma_id with
    | Some id =>
        if negb (test_bit id bm) then (-EBUSY, bm, 0) else (0, clear_bit id bm, id)
    | None =>
        let bit := find_first_bit bm num in (0, clear_bit bit bm, bit)
    end.

Definition allocate_sdma_queue (d : device_queue_manager) (q : queue)
    (restore_sdma_id : option Z) : Z * device_queue_manager * queue :=
  match qtype q with
  | KFD_QUEUE_TYPE_SDMA =>
      let '(r, bm, id) := take_sdma_id (sdma_bitmap d) get_num_sdma_queues restore_sdma_id in
      if nz r then (r, d, q)
      else (0, d <| sdma_bitmap := bm |>,
            set_props (λ p, p <| sdma_engine_id := id `mod` kfd_get_num_sdma_engines |>
                              <| sdma_queue_id := id / kfd_get_num_sdma_engines |>)
              (q <| sdma_id := id |>))
  | KFD_QUEUE_TYPE_SDMA_XGMI =>
      let '(r, bm, id) :=
        take_sdma_id (xgmi_sdma_bitmap d) get_num_xgmi_sdma_queues restore_sdma_id in
      if nz r then (r, d, q)
      else (0, d <| xgmi_sdma_bitmap := bm |>,
            set_props (λ p,
                p <| sdma_engine_id := u32 (kfd_get_num_sdma_engines
                                            + id `mod` kfd_get_num_xgmi_sdma_engines) |>
                  <| sdma_queue_id := id / kfd_get_num_xgmi_sdma_engines |>)
              (q <| sdma_id := id |>))
  | _ => (0, d, q)
  end.

Definition deallocate_sdma_queue (d : device_queue_manager) (q : queue)
    : device_queue_manager :=
  match qtype q with
  | KFD_QUEUE_TYPE_SDMA =>
      if get_num_sdma_queues <=? sdma_id q then d
      else d <| sdma_bitmap ::= set_bit (sdma_id q) |>
  | KFD_QUEUE_TYPE_SDMA_XGMI =>
      if get_num_xgmi_sdma_queues <=? sdma_id q then d
      else d <| xgmi_sdma_bitmap ::= set_bit (sdma_id q) |>
  | _ => d
  end.

Definition is_sdma (q : queue) : bool :=
  is_type (qtype q) KFD_QUEUE_TYPE_SDMA || is_type (qtype q) KFD_QUEUE_TYPE_SDMA_XGMI.

(** ** Doorbells *)

Definition DIV_ROUND_UP (n d : Z) : Z := u32 (n + d - 1) / d.

(** [db_bo_offset] is an [int] divided by the [size_t] 4, hence as a 64-bit
    unsigned value. *)
Definition amdgpu_doorbell_index_on_bar (bo_offset doorbell_index db_size : Z) : Z :=
  u32 (u64 (s32 bo_offset) / 4 + u32 (doorbell_index * DIV_ROUND_UP db_size 4)).

(** The reserved doorbells are marked used in both halves of the bitmap. *)
Definition init_doorbell_bitmap (bm : Z) : Z :=
  let range_start := non_cp_doorbells_start e in
  let range_end := non_cp_doorbells_end e in
  if negb (is_soc15 e) then bm
  else
    foldl (λ bm i,
      if (u32 range_start <=? i) && (i <=? u32 range_end) then
        set_bit (i + KFD_QUEUE_DOORBELL_MIRROR_OFFSET) (set_bit i bm)
      else bm)
      bm (seqZ 0 (KFD_MAX_NUM_OF_QUEUES_PER_PROCESS / 2)).

Definition sdma_valid_doorbell (q : queue) : Z :=
  u32 (sdma_doorbell_idx e (u32 (node_id e * get_num_all_sdma_engines
                                 + sdma_engine_id (properties q)))
       + Z.land (sdma_queue_id (properties q)) 1 * KFD_QUEUE_DOORBELL_MIRROR_OFFSET
       + Z.shiftr (sdma_queue_id (properties q)) 1).

Definition set_doorbell_off (q : queue) : queue :=
  set_props (set_field doorbell_off (λ _,
    amdgpu_doorbell_index_on_bar (proc_doorbells_offset e) (doorbell_id q) (doorbell_size e))) q.

(** [restore_id && *restore_id != id] *)
Definition restore_mismatch (restore_id : option Z) (id : Z) : bool :=
  match restore_id with Some r => negb (r =? id) | None => false end.

Definition allocate_doorbell (p : qcm_process_device) (q : queue) (restore_id : option Z)
    : Z * qcm_process_device * queue :=
  if negb (is_soc15 e) then
    if restore_mismatch restore_id (queue_id (properties q))
    then (-EINVAL, p, q)
    else (0, p, set_doorbell_off (q <| doorbell_id := queue_id (properties q) |>))
  else if is_sdma q then
    let valid_id := sdma_valid_doorbell q in
    if restore_mismatch restore_id valid_id
    then (-EINVAL, p, q)
    else (0, p, set_doorbell_off (q <| doorbell_id := valid_id |>))
  else
    match restore_id with
    | Some id =>
        let p' := p <| doorbell_bitmap ::= set_bit id |> in
        if test_bit id (doorbell_bitmap p) then (-EINVAL, p', q)
        else (0, p', set_doorbell_off (q <| doorbell_id := id |>))
    | None =>
        let found := find_first_zero_bit (doorbell_bitmap p) KFD_MAX_NUM_OF_QUEUES_PER_PROCESS in
        if KFD_MAX_NUM_OF_QUEUES_PER_PROCESS <=? found then (-EBUSY, p, q)
        else (0, p <| doorbell_bitmap ::= set_bit found |>,
              set_doorbell_off (q <| doorbell_id := found |>))
    end.

Definition deallocate_doorbell (p : qcm_process_device) (q : queue) : qcm_process_device :=
  if negb (is_soc15 e) || is_sdma q then p
  else p <| doorbell_bitmap ::= clear_bit (doorbell_id q) |>.

(** ** VMIDs *)

(** The mapping is written for each XCC until one write fails. *)
Fixpoint set_pasid_vmid_mapping_loop (pasid vmid : Z) (l : list Z) (d : device_queue_manager)
    : Z * device_queue_manager :=
  match l with
  | [] => (0, d)
  | xcc :: l =>
      let ret := hw_set_pasid_vmid h (hw_log d) in
      let d := emit (EvSetPasidVmidMapping pasid vmid xcc) d in
      if nz ret then (ret, d) else set_pasid_vmid_mapping_loop pasid vmid l d
  end.
Definition set_pasid_vmid_mapping (d : device_queue_manager) (pasid vmid : Z)
    : Z * device_queue_manager := set_pasid_vmid_mapping_loop pasid vmid xccs d.

Definition program_sh_mem_settings (d : device_queue_manager) (p : qcm_process_device)
    : device_queue_manager :=
  foldl (λ d xcc, emit (EvProgramShMem (vmid p) xcc) d) d xccs.

Definition program_trap_handler_settings (d : device_queue_manager) (p : qcm_process_device)
    : device_queue_manager :=
  if has_trap_handler_settings e then
    foldl (λ d xcc, emit (EvProgramTrapHandler (vmid p) (tba_addr p) (tma_addr p) xcc) d) d xccs
  else d.

Definition vmid_owner (d : device_queue_manager) (i : Z) : Z :=
  default 0 (vmid_pasid d !! Z.to_nat i).

Definition allocate_vmid (d : device_queue_manager) (p : qcm_process_device) (q : queue)
    : Z * device_queue_manager * qcm_process_device * queue :=
  match scan (λ i, vmid_owner d i =? 0) (first_vmid_kfd e)
          (Z.to_nat (last_vmid_kfd e - first_vmid_kfd e + 1)) with
  | None => (-ENOSPC, d, p, q)
  | Some v =>
      let d := d <| vmid_pasid ::= <[Z.to_nat v := u16 (pasid q)]> |> in
      let d := (set_pasid_vmid_mapping d (pasid q) v).2 in
      let p := p <| vmid := v |> in
      let q := set_props (set_field vmid_of_queue (λ _, v)) q in
      let d := program_sh_mem_settings d p in
      let d := if is_soc15 e && cwsr_enabled e then program_trap_handler_settings d p else d in
      let d := emit (EvPageTableBase (vmid p) (page_table_base p)) d in
      let d := emit (EvFlushTlb (vmid p)) d in
      let d := if has_scratch_backing_va e then emit (EvScratchBackingVa (vmid p)) d else d in
      (0, d, p, q)
  end.

Definition deallocate_vmid (d : device_queue_manager) (p : qcm_process_device) (q : queue)
    : device_queue_manager * qcm_process_device * queue :=
  let d := if is_hawaii e then emit (EvFlushTextureCache (vmid p)) d else d in
  let d := emit (EvFlushTlb (vmid p)) d in
  let d := (set_pasid_vmid_mapping d 0 (vmid p)).2 in
  let d := d <| vmid_pasid ::= <[Z.to_nat (vmid p) := 0]> |> in
  (d, p <| vmid := 0 |>, set_props (set_field vmid_of_queue (λ _, 0)) q).

(** ** Queue counters *)

Definition counts_as_cp (q : queue) : bool :=
  is_type (qtype q) KFD_QUEUE_TYPE_COMPUTE || is_type (qtype q) KFD_QUEUE_TYPE_DIQ.

Definition increment_queue_count (d : device_queue_manager) (p : qcm_process_device) (q : queue)
    : device_queue_manager * qcm_process_device :=
  let d := d <| active_queue_count ::= λ n, u32 (n + 1) |> in
  let d := if counts_as_cp q then d <| active_cp_queue_count ::= λ n, u32 (n + 1) |> else d in
  if is_gws (properties q) then
    (d <| gws_queue_count ::= λ n, u32 (n + 1) |>, p <| mapped_gws_queue := true |>)
  else (d, p).

Definition decrement_queue_count (d : device_queue_manager) (p : qcm_process_device) (q : queue)
    : device_queue_manager * qcm_process_device :=
  let d := d <| active_queue_count ::= λ n, u32 (n - 1) |> in
  let d := if counts_as_cp q then d <| active_cp_queue_count ::= λ n, u32 (n - 1) |> else d in
  if is_gws (properties q) then
    (d <| gws_queue_count ::= λ n, u32 (n - 1) |>, p <| mapped_gws_queue := false |>)
  else (d, p).

Definition kfd_inc_compute_active (d : device_queue_manager) : device_queue_manager :=
  d <| compute_profile ::= Z.succ |>.
Definition kfd_dec_compute_active (d : device_queue_manager) : device_queue_manager :=
  d <| compute_profile ::= Z.pred |>.

(** Effect of the MQD managers on the queue: [init_mqd] and [update_mqd]
    recompute [is_active], [restore_mqd] leaves the queue inactive. *)
Definition mqd_refresh (q : queue) : queue :=
  set_props (λ p, p <| is_active := QUEUE_IS_ACTIVE p |>) q.
Definition mqd_restored (q : queue) : queue :=
  set_props (set_field is_active (λ _, false)) q.

(** ** Initialisation *)

Definition initialize_nocpsch (kcalloc_ok : bool) (d : device_queue_manager)
    : Z * device_queue_manager :=
  if negb kcalloc_ok then (-ENOMEM, d)
  else
    let d := d <| dqm_queues := [] |> <| active_queue_count := 0 |>
               <| next_pipe_to_allocate := 0 |> <| active_cp_queue_count := 0 |>
               <| gws_queue_count := 0 |> in
    let pipe_slots p :=
      foldl (λ m i, if test_bit (p * get_queues_per_pipe + i) (cp_queue_bitmap e)
                    then Z.lor m (u32 (Z.shiftl 1 i)) else m)
        0 (seqZ 0 get_queues_per_pipe) in
    let d := d <| allocated_queues := pipe_slots <$> seqZ 0 get_pipes_per_mec |> in
    let d := d <| vmid_pasid := replicate 16 0 |> in
    (0, init_sdma_bitmaps d).

Definition initialize_cpsch (d : device_queue_manager) : device_queue_manager :=
  init_sdma_bitmaps
    (d <| dqm_queues := [] |> <| active_queue_count := 0 |> <| processes_count := 0 |>
       <| active_cp_queue_count := 0 |> <| gws_queue_count := 0 |> <| active_runlist := false |>).

End Env.

(** ** A concrete device

    Four pipes of eight queues (the first queue of each pipe is kept by the
    graphics driver), two SDMA engines of eight queues, VMIDs 8 to 15.  The
    examples of the development run on it. *)

Definition env0 : dev_env :=
  mk_dev_env 4 8 0xfefefefe 2 1 false 8 3 0 (λ i, 256 + 16 * i) true 240 255 8 4096
    8 15 1 true false false true true false 4096 (2 ^ 29).

(** Hardware and firmware that accept every request. *)
Definition hw0 : hw_env :=
  mk_hw_env (λ _, 0) (λ _ _, true) (λ _ _, 0) (λ _ _, 0) true (λ _, 0) (λ _, 0) (λ _, 0)
    (λ _, 0) (λ _, false) (λ _ _, 0) (λ _ _, 0) 4096 1000 true true.

Definition props0 (t : kfd_queue_type) (id : Z) : queue_properties :=
  mk_props t id 65536 4096 100 0 false false false false false false 0 0 0 0 0 0.
Definition queue0 (t : kfd_queue_type) (addr id : Z) : queue :=
  mk_queue addr (props0 t id) 0 0 0 0 false 33.
Definition qpd0 : qcm_process_device :=
  mk_qpd [] [] 0 0 false 0 false false 4096 0 0 (init_doorbell_bitmap env0 0) true 0 0 false.
Definition dqm_zero : device_queue_manager :=
  mk_dqm [] 0 0 0 0 0 0 [] 0 0 [] false false false true 0 [].
(** The manager after [initialize_nocpsch]. *)
Definition dqm0 : device_queue_manager := (initialize_nocpsch env0 true dqm_zero).2.
