(* ===== verification/DqmAlloc.v ===== *)
(** * Correctness of the resource allocators of the device queue manager

    Hardware queue slots, SDMA queues, doorbells and VMIDs are handed out
    without duplicates, refused exactly when exhausted, and given back by the
    matching release. *)

From S2P Require Import Prelude DqmState.

Section Alloc.
Context (e : dev_env) (h : hw_env).

(** ** Hardware queue slots *)

(** Shape of the slot table set up by [initialize_nocpsch]. *)
Record hqd_wf (d : device_queue_manager) : Prop := {
  hqd_pipes : 0 < num_pipe_per_mec e;
  hqd_len : Z.of_nat (length (allocated_queues d)) = num_pipe_per_mec e;
  hqd_next : 0 ≤ next_pipe_to_allocate d < num_pipe_per_mec e;
  hqd_width : Forall (in_width 32) (allocated_queues d);
}.

Definition hqd_available (d : device_queue_manager) (p : Z) : Prop :=
  is_pipe_enabled e 0 p = true ∧ free_hqds d p ≠ 0.

Lemma free_hqds_width d p : hqd_wf d → in_width 32 (free_hqds d p).
Proof.
  intros Hwf. unfold free_hqds. destruct (_ !! _) eqn:E; simpl; [|by unfold in_width].
  by eapply (Forall_lookup_1 _ _ _ _ (hqd_width d Hwf)).
Qed.

Lemma hqd_loop_Some d n p r b :
  0 < num_pipe_per_mec e → 0 ≤ p < num_pipe_per_mec e →
  hqd_loop e d n p = Some (r, b) →
  0 ≤ r < num_pipe_per_mec e ∧ hqd_available d r ∧ b = ffs (free_hqds d r) - 1.
Proof.
  intros Hn. revert p. induction n as [|n IH]; intros p Hp; simpl; [done|].
  assert (0 ≤ (p + 1) `mod` num_pipe_per_mec e < num_pipe_per_mec e)
    by (apply Z.mod_pos_bound; lia).
  destruct (is_pipe_enabled e 0 p) eqn:Ee; simpl; [|by apply IH].
  destruct (nz (free_hqds d p)) eqn:Ef; [|by apply IH].
  intros [= <- <-]. apply nz_true in Ef. by unfold hqd_available.
Qed.

Lemma hqd_loop_None d n p :
  0 < num_pipe_per_mec e → 0 ≤ p < num_pipe_per_mec e →
  hqd_loop e d n p = None →
  ∀ k, 0 ≤ k < Z.of_nat n → ¬ hqd_available d ((p + k) `mod` num_pipe_per_mec e).
Proof.
  intros Hn. revert p. induction n as [|n IH]; intros p Hp; simpl; [lia|].
  set (next := (p + 1) `mod` num_pipe_per_mec e).
  assert (0 ≤ next < num_pipe_per_mec e) by (apply Z.mod_pos_bound; lia).
  intros Hloop k Hk.
  assert (hqd_loop e d n next = None ∧ ¬ hqd_available d p) as [Hnext Hna].
  { unfold hqd_available. destruct (is_pipe_enabled e 0 p); simpl in *; [|by split; [|intros []]].
    destruct (nz (free_hqds d p)) eqn:Ef; [done|]. apply nz_false in Ef. by split; [|intros []]. }
  destruct (decide (k = 0)) as [->|].
  - by rewrite Z.add_0_r, Z.mod_small.
  - specialize (IH next ltac:(done) Hnext (k - 1) ltac:(lia)).
    unfold next in IH. rewrite Z.add_mod_idemp_l in IH by lia.
    by replace (p + 1 + (k - 1)) with (p + k) in IH by lia.
Qed.

(** [allocate_hqd] fails with [-EBUSY], changing nothing, exactly when no
    enabled pipe has a free slot; otherwise it takes the lowest free slot of an
    enabled pipe, removes just that slot from the table, records it in the queue
    and moves the round-robin pointer to the following pipe. *)
Theorem allocate_hqd_spec d q :
  hqd_wf d →
  (allocate_hqd e d q = (-EBUSY, d, q) ∧
   ∀ p, 0 ≤ p < num_pipe_per_mec e → ¬ hqd_available d p) ∨
  (∃ p b d' q', allocate_hqd e d q = (0, d', q') ∧
     0 ≤ p < num_pipe_per_mec e ∧ hqd_available d p ∧
     0 ≤ b < 32 ∧ Z.testbit (free_hqds d p) b = true ∧
     (∀ j, 0 ≤ j < b → Z.testbit (free_hqds d p) j = false) ∧
     pipe q' = p ∧ hqd q' = b ∧ properties q' = properties q ∧
     (∀ p' i, Z.testbit (free_hqds d' (Z.of_nat p')) i
              = Z.testbit (free_hqds d (Z.of_nat p')) i
                && negb (bool_decide (Z.of_nat p' = p ∧ i = b))) ∧
     next_pipe_to_allocate d' = (p + 1) `mod` num_pipe_per_mec e ∧ hqd_wf d').
Proof.
  intros Hwf. pose proof Hwf as [Hn Hlen Hnext Hw].
  unfold allocate_hqd, get_pipes_per_mec.
  destruct (hqd_loop _ _ _ _) as [[p b]|] eqn:E.
  - right. apply hqd_loop_Some in E as (Hp & [Hen Hfree] & ->); [|done..].
    destruct (ffs_spec (free_hqds d p)) as (Hffs & Hbit & Hlow);
      [by apply free_hqds_width|done|].
    assert (Hlt : (Z.to_nat p < length (allocated_queues d))%nat) by lia.
    exists p, (ffs (free_hqds d p) - 1). do 2 eexists. split; [reflexivity|].
    split_and!; try done; try lia.
    + intros p' i. unfold free_hqds; simpl. rewrite Nat2Z.id, list_lookup_insert.
      destruct (decide (p' = Z.to_nat p)) as [->|Hne].
      * rewrite decide_True by (split; [done|lia]). simpl.
        fold (free_hqds d p). rewrite clear_bit_spec. f_equal. f_equal.
        case_bool_decide; [apply Z.eqb_eq|apply Z.eqb_neq]; lia.
      * rewrite decide_False by (intros [? _]; congruence).
        rewrite bool_decide_eq_false_2 by lia. by rewrite andb_true_r.
    + split; simpl; [done|by rewrite length_insert|apply Z.mod_pos_bound; lia|].
      apply Forall_insert; [done|]. by apply in_width_clearbit, free_hqds_width.
  - left. split; [done|]. intros r Hr.
    destruct (mod_cover (next_pipe_to_allocate d) (num_pipe_per_mec e) r) as (k & Hk & <-); [lia..|].
    eapply hqd_loop_None in E; [done|lia|lia|lia].
Qed.

(** Releasing the slot just allocated restores the slot table. *)
Theorem allocate_deallocate_hqd d q d' q' :
  hqd_wf d → allocate_hqd e d q = (0, d', q') →
  allocated_queues (deallocate_hqd d' q') = allocated_queues d.
Proof.
  intros Hwf. pose proof Hwf as [Hn Hlen Hnext Hw]. unfold allocate_hqd, get_pipes_per_mec.
  destruct (hqd_loop _ _ _ _) as [[p b]|] eqn:E; [|done]. intros [= <- <-].
  apply hqd_loop_Some in E as (Hp & [Hen Hfree] & ->); [|done..].
  destruct (ffs_spec (free_hqds d p)) as (Hffs & Hbit & _); [by apply free_hqds_width|done|].
  unfold deallocate_hqd; simpl. unfold free_hqds at 1; simpl.
  rewrite list_lookup_insert_eq by lia. simpl. rewrite list_insert_insert_eq.
  apply list_insert_id. unfold free_hqds in *.
  destruct (lookup_lt_is_Some_2 (allocated_queues d) (Z.to_nat p)) as [w Hw']; [lia|].
  rewrite Hw' in *. simpl in *. f_equal.
  rewrite Z.shiftl_1_l, wrap_small.
  - rewrite <- Z.setbit_spec'. symmetry. by apply set_clear_bit; [lia|].
  - split; [apply Z.pow_nonneg; lia|apply Z.pow_lt_mono_r; lia].
Qed.

(** ** SDMA queues *)

(** A pool of ids: [all] are the usable ones, [bm] the free ones, [ids] those in
    use. *)
Record pool_inv (all bm : Z) (ids : list Z) : Prop := {
  pool_bits : ∀ i, Z.testbit bm i = Z.testbit all i && negb (bool_decide (i ∈ ids));
  pool_nodup : NoDup ids;
  pool_used : ∀ i, i ∈ ids → Z.testbit all i = true;
}.

Definition pool_range (all num : Z) : Prop :=
  0 ≤ num ≤ KFD_MAX_SDMA_QUEUES ∧ ∀ i, Z.testbit all i = true → 0 ≤ i < num.

Lemma pool_take all bm ids id :
  pool_inv all bm ids → Z.testbit bm id = true →
  pool_inv all (clear_bit id bm) (id :: ids).
Proof.
  intros [Hb Hnd Hu] Hid. rewrite Hb, andb_true_iff, negb_true_iff, bool_decide_eq_false in Hid.
  destruct Hid as [Hall Hnin]. split.
  - intros i. rewrite clear_bit_spec, Hb, <- andb_assoc. f_equal.
    rewrite <- negb_orb. f_equal. rewrite (bool_decide_ext (i ∈ id :: ids) (id = i ∨ i ∈ ids));
      [|rewrite elem_of_cons; naive_solver].
    rewrite bool_decide_or, orb_comm. f_equal. by destruct (Z.eqb_spec id i); case_bool_decide.
  - by constructor.
  - intros i [->|Hi]%elem_of_cons; auto.
Qed.

Lemma pool_give all bm ids1 id ids2 :
  0 ≤ id → pool_inv all bm (ids1 ++ id :: ids2) →
  pool_inv all (set_bit id bm) (ids1 ++ ids2).
Proof.
  intros Hpos [Hb Hnd Hu]. rewrite <- Permutation_middle in Hnd. apply NoDup_cons in Hnd as [Hni Hnd].
  split; [|done|intros i Hi; apply Hu; set_solver].
  intros i. rewrite set_bit_spec, Hb by done.
  destruct (Z.eqb_spec id i) as [<-|Hne]; simpl.
  - rewrite Hu by set_solver. by rewrite bool_decide_eq_false_2.
  - f_equal. f_equal. apply bool_decide_ext. set_solver.
Qed.

Lemma pool_empty all bm ids num :
  pool_range all num → pool_inv all bm ids →
  bitmap_empty bm KFD_MAX_SDMA_QUEUES = true ↔ ∀ i, Z.testbit all i = true → i ∈ ids.
Proof.
  intros [Hnum Hr] [Hb _ _]. rewrite bitmap_empty_spec by done. split; intros H i.
  - intros Hi. specialize (H i). rewrite Hb, Hi in H. apply Hr in Hi. simpl in H.
    specialize (H ltac:(lia)). apply negb_false_iff, bool_decide_eq_true in H. done.
  - intros _. rewrite Hb. destruct (Z.testbit all i) eqn:Ha; [|done].
    simpl. by rewrite bool_decide_eq_true_2 by auto.
Qed.

(** What [take_sdma_id] does to the pool. *)
Lemma take_sdma_id_spec all bm ids num restore :
  pool_range all num → pool_inv all bm ids →
  let '(r, bm', id) := take_sdma_id bm num restore in
  (r = 0 ∧ (id ∉ ids) ∧ (Z.testbit all id = true) ∧ pool_inv all bm' (id :: ids) ∧
   (∀ id', restore = Some id' → id = id')) ∨
  (r = -ENOMEM ∧ ∀ i, Z.testbit all i = true → i ∈ ids) ∨
  (r = -EBUSY ∧ ∃ id', restore = Some id' ∧ (Z.testbit all id' = false ∨ id' ∈ ids)).
Proof.
  intros Hrange Hinv. pose proof Hrange as [Hnum Hr]. unfold take_sdma_id.
  destruct (bitmap_empty bm KFD_MAX_SDMA_QUEUES) eqn:Ee.
  { right. left. split; [done|]. by eapply pool_empty. }
  assert (Htake : ∀ id, Z.testbit bm id = true → (id ∉ ids) ∧ (Z.testbit all id = true)).
  { intros id Hid. rewrite (pool_bits _ _ _ Hinv) in Hid.
    apply andb_true_iff in Hid as [? Hid]. by apply negb_true_iff, bool_decide_eq_false in Hid. }
  destruct restore as [id|].
  - unfold test_bit. destruct (Z.testbit bm id) eqn:Et; simpl.
    + left. destruct (Htake id Et). split_and!; [done..|by apply pool_take|naive_solver].
    + right. right. split; [done|]. exists id. split; [done|].
      rewrite (pool_bits _ _ _ Hinv) in Et. apply andb_false_iff in Et as [?|Et]; [by left|right].
      by apply negb_false_iff, bool_decide_eq_true in Et.
  - left. pose proof (find_next_bit_spec bm num 0 ltac:(lia)) as (Hf & Hz & Hs).
    fold (find_first_bit bm num) in *.
    assert (Hlt : find_first_bit bm num < num).
    { destruct (decide (find_first_bit bm num < num)); [done|]. exfalso.
      assert (bitmap_empty bm KFD_MAX_SDMA_QUEUES = true); [|congruence].
      apply bitmap_empty_spec; [done|]. intros j Hj.
      destruct (decide (j < num)); [apply Hz; lia|].
      rewrite (pool_bits _ _ _ Hinv). destruct (Z.testbit all j) eqn:Ha; [|done].
      apply Hr in Ha. lia. }
    specialize (Hs Hlt). destruct (Htake _ Hs). split_and!; [done..|by apply pool_take|done].
Qed.

(** Usable SDMA ids, as [init_sdma_bitmaps] computes them. *)
Definition sdma_all : Z :=
  bitmap_andnot (bitmap_set 0 0 (get_num_sdma_queues e)) (reserved_sdma_queues_bitmap e)
    KFD_MAX_SDMA_QUEUES.
Definition xgmi_all : Z := bitmap_set 0 0 (get_num_xgmi_sdma_queues e).

Definition sdma_ids (t : kfd_queue_type) (live : list queue) : list Z :=
  sdma_id <$> filter (λ q, qtype q = t) live.

(** Ids recorded by the live queues agree with the bitmaps. *)
Record sdma_inv (s : device_queue_manager * list queue) : Prop := {
  sdma_pool : pool_inv sdma_all (sdma_bitmap s.1) (sdma_ids KFD_QUEUE_TYPE_SDMA s.2);
  xgmi_pool : pool_inv xgmi_all (xgmi_sdma_bitmap s.1) (sdma_ids KFD_QUEUE_TYPE_SDMA_XGMI s.2);
}.

Definition sdma_env_ok : Prop :=
  get_num_sdma_queues e ≤ KFD_MAX_SDMA_QUEUES ∧ get_num_xgmi_sdma_queues e ≤ KFD_MAX_SDMA_QUEUES.

Lemma sdma_all_range : sdma_env_ok → pool_range sdma_all (get_num_sdma_queues e).
Proof.
  intros [H _]. assert (0 ≤ get_num_sdma_queues e).
  { unfold get_num_sdma_queues. apply wrap_in_width. lia. }
  split; [done|]. intros i. unfold sdma_all, bitmap_andnot.
  rewrite Z.land_spec, Z.ldiff_spec, bitmap_set_spec, Z.bits_0 by lia. simpl.
  rewrite !andb_true_iff, bool_decide_eq_true. lia.
Qed.

Lemma xgmi_all_range : sdma_env_ok → pool_range xgmi_all (get_num_xgmi_sdma_queues e).
Proof.
  intros [_ H]. assert (0 ≤ get_num_xgmi_sdma_queues e).
  { unfold get_num_xgmi_sdma_queues. apply wrap_in_width. lia. }
  split; [done|]. intros i. unfold xgmi_all.
  rewrite bitmap_set_spec, Z.bits_0 by lia. simpl. rewrite bool_decide_eq_true. lia.
Qed.

(** One queue creation (restored or not) or destruction, as far as SDMA ids go. *)
Inductive sdma_step : device_queue_manager * list queue → device_queue_manager * list queue → Prop :=
  | sdma_step_create d live q restore r d' q' :
      is_sdma q = true →
      allocate_sdma_queue e d q restore = (r, d', q') →
      sdma_step (d, live) (d', if nz r then live else q' :: live)
  | sdma_step_destroy d l1 q l2 :
      sdma_step (d, l1 ++ q :: l2) (deallocate_sdma_queue e d q, l1 ++ l2).

Lemma sdma_inv_init d : sdma_inv (init_sdma_bitmaps e d, []).
Proof.
  split; (split; [|apply NoDup_nil_2|set_solver]); intros i;
    rewrite bool_decide_eq_false_2 by apply not_elem_of_nil; by rewrite andb_true_r.
Qed.

Lemma sdma_ids_cons t q live :
  sdma_ids t (q :: live) = if is_type (qtype q) t then sdma_id q :: sdma_ids t live
                           else sdma_ids t live.
Proof.
  unfold sdma_ids, is_type. rewrite filter_cons. by destruct (decide (qtype q = t)) as [H|H];
    [rewrite bool_decide_eq_true_2|rewrite bool_decide_eq_false_2].
Qed.

Lemma sdma_ids_app t l1 l2 : sdma_ids t (l1 ++ l2) = sdma_ids t l1 ++ sdma_ids t l2.
Proof. unfold sdma_ids. by rewrite filter_app, fmap_app. Qed.

Lemma take_sdma_id_error bm num restore r bm' id :
  take_sdma_id bm num restore = (r, bm', id) → r = 0 ∨ r = -ENOMEM ∨ r = -EBUSY.
Proof. unfold take_sdma_id. repeat case_match; naive_solver. Qed.

Lemma sdma_inv_step s s' :
  sdma_env_ok → sdma_step s s' → sdma_inv s → sdma_inv s'.
Proof.
  intros Henv Hstep [Hs Hx]. destruct Hstep as [d live q restore r d' q' Hq Ha|d l1 q l2].
  - unfold allocate_sdma_queue in Ha. unfold is_sdma, is_type in Hq.
    destruct (qtype q) eqn:Eq; try discriminate Hq.
    + pose proof (take_sdma_id_spec _ _ _ _ restore (sdma_all_range Henv) Hs) as Ht. simpl in Ht.
      destruct (take_sdma_id _ _ restore) as [[r0 bm'] id]. destruct (nz r0) eqn:Er.
      { simplify_eq. rewrite Er. by split. }
      apply nz_false in Er as ->. destruct Ht as [(_ & _ & _ & Hp & _)|[[? _]|[? _]]]; [|done..].
      simplify_eq. split; simpl; rewrite sdma_ids_cons; unfold qtype in *; simpl; rewrite Eq; done.
    + pose proof (take_sdma_id_spec _ _ _ _ restore (xgmi_all_range Henv) Hx) as Ht. simpl in Ht.
      destruct (take_sdma_id _ _ restore) as [[r0 bm'] id]. destruct (nz r0) eqn:Er.
      { simplify_eq. rewrite Er. by split. }
      apply nz_false in Er as ->. destruct Ht as [(_ & _ & _ & Hp & _)|[[? _]|[? _]]]; [|done..].
      simplify_eq. split; simpl; rewrite sdma_ids_cons; unfold qtype in *; simpl; rewrite Eq; done.
  - simpl in Hs, Hx. rewrite sdma_ids_app, sdma_ids_cons in Hs, Hx.
    unfold deallocate_sdma_queue. unfold is_type in Hs, Hx.
    destruct (qtype q) eqn:Eq; simpl in Hs, Hx;
      try (split; simpl; rewrite sdma_ids_app; done).
    + pose proof (proj2 (sdma_all_range Henv) (sdma_id q)
        (pool_used _ _ _ Hs (sdma_id q) ltac:(set_solver))).
      branch. split; simpl; rewrite sdma_ids_app; [|done]. apply pool_give; [lia|done].
    + pose proof (proj2 (xgmi_all_range Henv) (sdma_id q)
        (pool_used _ _ _ Hx (sdma_id q) ltac:(set_solver))).
      branch. split; simpl; rewrite sdma_ids_app; [done|]. apply pool_give; [lia|done].
Qed.

Lemma NoDup_fmap_lookup {A} (f : A → Z) (l : list A) i j x y :
  NoDup (f <$> l) → l !! i = Some x → l !! j = Some y → f x = f y → i = j.
Proof.
  intros Hnd Hx Hy Hf. eapply NoDup_lookup; [done| |].
  - by rewrite list_lookup_fmap, Hx.
  - rewrite list_lookup_fmap, Hy. simpl. by rewrite Hf.
Qed.

(** Starting from [init_sdma_bitmaps], whatever SDMA queues are created
    (freshly or with an id to restore) and destroyed: two live queues of the same
    kind never have the same SDMA id, ids stay below the number of queues of the
    device, and a reserved PCIe SDMA queue is never handed out. *)
Theorem sdma_queues_exclusive d0 d live :
  sdma_env_ok →
  rtc sdma_step (init_sdma_bitmaps e d0, []) (d, live) →
  (∀ t i j q1 q2, i ≠ j →
     filter (λ q, qtype q = t) live !! i = Some q1 →
     filter (λ q, qtype q = t) live !! j = Some q2 →
     t = KFD_QUEUE_TYPE_SDMA ∨ t = KFD_QUEUE_TYPE_SDMA_XGMI → sdma_id q1 ≠ sdma_id q2) ∧
  (∀ q, q ∈ live → qtype q = KFD_QUEUE_TYPE_SDMA →
     0 ≤ sdma_id q < get_num_sdma_queues e ∧
     Z.testbit (reserved_sdma_queues_bitmap e) (sdma_id q) = false).
Proof.
  intros Henv Hr.
  assert (Hinv : sdma_inv (d, live)).
  { revert Hr. generalize (sdma_inv_init d0). generalize (init_sdma_bitmaps e d0, @nil queue).
    intros s Hs Hr. induction Hr as [|s1 s2 s3 Hst _ IH]; [done|].
    by eapply IH, sdma_inv_step. }
  destruct Hinv as [Hs Hx]; simpl in *. split.
  - intros t i j q1 q2 Hij Hi Hj [->| ->] Heq; apply Hij;
      [eapply (NoDup_fmap_lookup sdma_id _ _ _ _ _ (pool_nodup _ _ _ Hs))
      |eapply (NoDup_fmap_lookup sdma_id _ _ _ _ _ (pool_nodup _ _ _ Hx))]; done.
  - intros q Hq Ht.
    assert (Hall : Z.testbit sdma_all (sdma_id q) = true).
    { eapply (pool_used _ _ _ Hs). unfold sdma_ids. apply list_elem_of_fmap.
      exists q. split; [done|]. by apply list_elem_of_filter. }
    split; [by apply (sdma_all_range Henv)|].
    unfold sdma_all, bitmap_andnot in Hall.
    rewrite Z.land_spec, Z.ldiff_spec, !andb_true_iff, negb_true_iff in Hall. tauto.
Qed.

(** ** Doorbells of compute queues *)

Definition db_reserved (i : Z) : bool :=
  is_soc15 e && (u32 (non_cp_doorbells_start e) <=? i) && (i <=? u32 (non_cp_doorbells_end e)).

Lemma init_doorbell_fold l bm j :
  Forall (λ i, 0 ≤ i) l →
  Z.testbit (foldl (λ bm i,
      if (u32 (non_cp_doorbells_start e) <=? i) && (i <=? u32 (non_cp_doorbells_end e)) then
        set_bit (i + KFD_QUEUE_DOORBELL_MIRROR_OFFSET) (set_bit i bm)
      else bm) bm l) j
  = Z.testbit bm j || existsb (λ i,
      (u32 (non_cp_doorbells_start e) <=? i) && (i <=? u32 (non_cp_doorbells_end e))
      && ((i =? j) || (i + KFD_QUEUE_DOORBELL_MIRROR_OFFSET =? j))) l.
Proof.
  intros Hl. revert bm. induction Hl as [|i l Hi _ IH]; intros bm; simpl; [by rewrite orb_false_r|].
  rewrite IH. destruct (_ && _); simpl; [|done].
  unfold KFD_QUEUE_DOORBELL_MIRROR_OFFSET. rewrite !set_bit_spec by lia.
  destruct (i + 512 =? j), (i =? j), (Z.testbit bm j); done.
Qed.

(** [init_doorbell_bitmap] marks the reserved doorbells and their mirrors. *)
Lemma init_doorbell_bitmap_spec j :
  Z.testbit (init_doorbell_bitmap e 0) j = true ↔
  (0 ≤ j < 512 ∧ db_reserved j = true) ∨ (512 ≤ j < 1024 ∧ db_reserved (j - 512) = true).
Proof.
  unfold init_doorbell_bitmap, db_reserved. destruct (is_soc15 e); cbn [negb andb];
    [|rewrite Z.bits_0; intuition congruence].
  change (KFD_MAX_NUM_OF_QUEUES_PER_PROCESS / 2) with 512.
  rewrite init_doorbell_fold by (apply Forall_forall; intros i ?%elem_of_seqZ; lia).
  rewrite Z.bits_0. cbn [orb]. rewrite existsb_exists. unfold KFD_QUEUE_DOORBELL_MIRROR_OFFSET.
  split.
  - intros (i & Hi & H). apply list_elem_of_In, elem_of_seqZ in Hi. bool_to_Prop.
    rewrite !andb_true_iff, !Z.leb_le.
    rewrite orb_true_iff, !Z.eqb_eq in *. lia.
  - intros [[Hj H]|[Hj H]]; [exists j|exists (j - 512)]; rewrite <- list_elem_of_In, elem_of_seqZ;
      bool_to_Prop; (split; [lia|]); rewrite !andb_true_iff, orb_true_iff, !Z.leb_le, !Z.eqb_eq; lia.
Qed.

Definition cp_doorbells (live : list queue) : list Z := doorbell_id <$> live.

Record db_inv (s : qcm_process_device * list queue) : Prop := {
  db_bits : ∀ i, Z.testbit (doorbell_bitmap s.1) i
                 = Z.testbit (init_doorbell_bitmap e 0) i || bool_decide (i ∈ cp_doorbells s.2);
  db_nodup : NoDup (cp_doorbells s.2);
  db_range : ∀ i, i ∈ cp_doorbells s.2 →
    0 ≤ i < KFD_MAX_NUM_OF_QUEUES_PER_PROCESS ∧ Z.testbit (init_doorbell_bitmap e 0) i = false;
  db_types : ∀ q, q ∈ s.2 → is_sdma q = false;
}.

(** Creation and destruction of compute queues; a restored doorbell id lies in
    the bitmap. *)
Inductive db_step : qcm_process_device * list queue → qcm_process_device * list queue → Prop :=
  | db_step_create p live q restore r p' q' :
      is_sdma q = false →
      (∀ id, restore = Some id → 0 ≤ id < KFD_MAX_NUM_OF_QUEUES_PER_PROCESS) →
      allocate_doorbell e p q restore = (r, p', q') →
      db_step (p, live) (p', if nz r then live else q' :: live)
  | db_step_destroy p l1 q l2 :
      db_step (p, l1 ++ q :: l2) (deallocate_doorbell e p q, l1 ++ l2).

Lemma set_doorbell_off_type q : qtype (set_doorbell_off e q) = qtype q.
Proof. done. Qed.

Lemma db_inv_take p live q id :
  db_inv (p, live) → is_sdma q = false → 0 ≤ id < KFD_MAX_NUM_OF_QUEUES_PER_PROCESS →
  Z.testbit (doorbell_bitmap p) id = false →
  db_inv (p <| doorbell_bitmap ::= set_bit id |>,
          set_doorbell_off e (q <| doorbell_id := id |>) :: live).
Proof.
  intros [Hb Hnd Hr Ht] Hq Hid Hfree. rewrite Hb in Hfree. simpl in *.
  apply orb_false_iff in Hfree as [Hinit Hni%bool_decide_eq_false].
  split; simpl.
  - intros i. rewrite set_bit_spec, Hb by lia.
    rewrite (bool_decide_ext (i ∈ id :: cp_doorbells live) (id = i ∨ i ∈ cp_doorbells live))
      by (rewrite elem_of_cons; naive_solver).
    rewrite bool_decide_or. replace (bool_decide (id = i)) with (id =? i)
      by (by destruct (Z.eqb_spec id i); case_bool_decide).
    by destruct (id =? i), (Z.testbit (init_doorbell_bitmap e 0) i).
  - by constructor.
  - intros i [->|Hi]%elem_of_cons; [done|by apply Hr].
  - intros q' [->|Hi]%elem_of_cons; [done|by apply Ht].
Qed.

Lemma set_doorbell_used p id :
  0 ≤ id → Z.testbit (doorbell_bitmap p) id = true → p <| doorbell_bitmap ::= set_bit id |> = p.
Proof.
  intros Hid Ht. destruct p; simpl in *. f_equal. apply Z.bits_inj'. intros j Hj.
  rewrite set_bit_spec by done. by destruct (Z.eqb_spec id j) as [<-|].
Qed.

Lemma db_inv_step s s' : is_soc15 e = true → db_step s s' → db_inv s → db_inv s'.
Proof.
  intros Hsoc Hstep Hinv. destruct Hstep as [p live q restore r p' q' Hq Hres Ha|p l1 q l2].
  - unfold allocate_doorbell in Ha. rewrite Hsoc, Hq in Ha. simpl in Ha.
    destruct restore as [id|].
    + unfold test_bit in Ha. destruct (Z.testbit (doorbell_bitmap p) id) eqn:E; simplify_eq; simpl.
      * pose proof (set_doorbell_used p id (proj1 (Hres _ eq_refl)) E) as Hsd.
        simpl in Hsd. by rewrite Hsd.
      * apply db_inv_take; [done..|by apply Hres|done].
    + pose proof (find_next_zero_bit_spec (doorbell_bitmap p) KFD_MAX_NUM_OF_QUEUES_PER_PROCESS 0
        ltac:(done)) as (Hf & _ & Hz). fold (find_first_zero_bit (doorbell_bitmap p)
        KFD_MAX_NUM_OF_QUEUES_PER_PROCESS) in *.
      branch_in Ha; simplify_eq; simpl; [done|]. apply db_inv_take; [done..|lia|by apply Hz].
  - destruct Hinv as [Hb Hnd Hr Ht]; simpl in *. unfold cp_doorbells in *.
    rewrite fmap_app, fmap_cons in *.
    unfold deallocate_doorbell. rewrite Hsoc, (Ht q) by set_solver. simpl.
    assert (Hnd' := Hnd). rewrite <- Permutation_middle in Hnd'. apply NoDup_cons in Hnd' as [Hni Hnd'].
    destruct (Hr (doorbell_id q)) as [_ Hq]; [set_solver|].
    split; simpl; unfold cp_doorbells; rewrite ?fmap_app; [|done| |intros ??; apply Ht; set_solver].
    + intros i. rewrite clear_bit_spec, Hb.
      destruct (Z.eqb_spec (doorbell_id q) i) as [<-|Hne]; simpl.
      * rewrite Hq, andb_false_r. symmetry. by rewrite bool_decide_eq_false_2.
      * rewrite andb_true_r. f_equal. apply bool_decide_ext. set_solver.
    + intros i Hi. apply Hr. set_solver.
Qed.

(** On SOC15 devices the doorbells of a process' compute queues, handed out
    from the bitmap prepared by [init_doorbell_bitmap], are pairwise distinct,
    lie in the process' doorbell slice, and are never one of the doorbells
    reserved for SDMA, IH and VCN nor the mirror of one. *)
Theorem doorbells_exclusive p0 p live :
  is_soc15 e = true →
  rtc db_step (p0 <| doorbell_bitmap := init_doorbell_bitmap e 0 |>, []) (p, live) →
  NoDup (doorbell_id <$> live) ∧
  (∀ q, q ∈ live →
     0 ≤ doorbell_id q < KFD_MAX_NUM_OF_QUEUES_PER_PROCESS ∧
     db_reserved (doorbell_id q `mod` KFD_QUEUE_DOORBELL_MIRROR_OFFSET) = false).
Proof.
  intros Hsoc Hr.
  assert (Hinv : db_inv (p, live)).
  { assert (H0 : db_inv (p0 <| doorbell_bitmap := init_doorbell_bitmap e 0 |>, [])).
    { split; [|apply NoDup_nil_2|set_solver..].
      intros i. rewrite bool_decide_eq_false_2 by apply not_elem_of_nil. by rewrite orb_false_r. }
    revert Hr H0. induction 1 as [|s1 s2 s3 Hst _ IH]; [done|]. intros; by eapply IH, db_inv_step. }
  destruct Hinv as [_ Hnd Hrange _]; simpl in *. split; [done|].
  intros q Hq. destruct (Hrange (doorbell_id q)) as [Hid Hres]; [by apply list_elem_of_fmap_2|].
  split; [done|]. apply not_true_iff_false. intros Hc.
  apply not_true_iff_false in Hres. apply Hres, init_doorbell_bitmap_spec.
  unfold KFD_MAX_NUM_OF_QUEUES_PER_PROCESS, KFD_QUEUE_DOORBELL_MIRROR_OFFSET in *.
  destruct (decide (doorbell_id q < 512)); [left|right]; (split; [lia|]).
  - by rewrite Z.mod_small in Hc by lia.
  - replace (doorbell_id q - 512) with (doorbell_id q `mod` 512); [done|].
    rewrite <- (Z.mod_add _ (-1)) by lia. by rewrite Z.mod_small by lia.
Qed.

(** The id of a restored compute doorbell is not compared with the size of
    the bitmap: any id whose bit happens to read clear is accepted, and the
    write lands outside the 1024 bits the process owns. *)
Theorem allocate_doorbell_restore_unchecked p q id :
  is_soc15 e = true → is_sdma q = false →
  in_width KFD_MAX_NUM_OF_QUEUES_PER_PROCESS (doorbell_bitmap p) →
  KFD_MAX_NUM_OF_QUEUES_PER_PROCESS ≤ id →
  ∃ p' q', allocate_doorbell e p q (Some id) = (0, p', q') ∧ doorbell_id q' = id ∧
    ¬ in_width KFD_MAX_NUM_OF_QUEUES_PER_PROCESS (doorbell_bitmap p').
Proof.
  intros Hsoc Hq Hw Hid. unfold allocate_doorbell. rewrite Hsoc, Hq. simpl.
  rewrite in_width_bits in Hw by done. unfold test_bit. rewrite Hw by done.
  do 2 eexists. split; [done|]. split; [done|]. simpl. rewrite in_width_bits by done.
  intros H. specialize (H id Hid).
  rewrite set_bit_spec, Z.eqb_refl in H by (unfold KFD_MAX_NUM_OF_QUEUES_PER_PROCESS in *; lia). done.
Qed.

(** ** VMIDs *)

(** Programming the device only extends the log. *)
Definition only_log (d d' : device_queue_manager) : Prop := d' = d <| hw_log := hw_log d' |>.

Lemma only_log_refl d : only_log d d.
Proof. by destruct d. Qed.
Lemma only_log_trans d1 d2 d3 : only_log d1 d2 → only_log d2 d3 → only_log d1 d3.
Proof. intros H1 H2. unfold only_log in *. rewrite H2, H1. done. Qed.
Lemma only_log_emit ev d : only_log d (emit ev d).
Proof. by destruct d. Qed.

Lemma only_log_set_pasid pasid v l d :
  only_log d (set_pasid_vmid_mapping_loop h pasid v l d).2.
Proof.
  revert d. induction l as [|x l IH]; intros d; simpl; [apply only_log_refl|].
  destruct (nz _); simpl; [apply only_log_emit|].
  eapply only_log_trans; [apply only_log_emit|apply IH].
Qed.

Lemma only_log_emits (f : Z → hw_event) l d :
  only_log d (foldl (λ d x, emit (f x) d) d l).
Proof.
  revert d. induction l as [|x l IH]; intros d; simpl; [apply only_log_refl|].
  eapply only_log_trans; [apply (only_log_emit (f x))|apply IH].
Qed.

(** [allocate_vmid] fails with [-ENOSPC], changing nothing, exactly when every
    VMID of the KFD range has an owner; otherwise it takes the lowest unowned
    one, makes the process its owner and records it in the process and the
    queue, touching no other VMID and no other state of the manager. *)
Theorem allocate_vmid_spec d p q :
  length (vmid_pasid d) = 16%nat → 0 ≤ first_vmid_kfd e → last_vmid_kfd e < 16 →
  (allocate_vmid e h d p q = (-ENOSPC, d, p, q) ∧
   ∀ v, first_vmid_kfd e ≤ v ≤ last_vmid_kfd e → vmid_owner d v ≠ 0) ∨
  (∃ v d' p' q', allocate_vmid e h d p q = (0, d', p', q') ∧
     first_vmid_kfd e ≤ v ≤ last_vmid_kfd e ∧ vmid_owner d v = 0 ∧
     (∀ v', first_vmid_kfd e ≤ v' < v → vmid_owner d v' ≠ 0) ∧
     p' = p <| vmid := v |> ∧ vmid_of_queue (properties q') = v ∧
     vmid_owner d' v = u16 (pasid q) ∧
     (∀ v', 0 ≤ v' → v' ≠ v → vmid_owner d' v' = vmid_owner d v') ∧
     d' = d <| vmid_pasid := vmid_pasid d' |> <| hw_log := hw_log d' |>).
Proof.
  intros Hlen Hfirst Hlast. unfold allocate_vmid.
  destruct (scan _ _ _) as [v|] eqn:E.
  - right. apply scan_Some in E as (Hv & Hfree & Hlow). apply Z.eqb_eq in Hfree.
    match goal with |- ∃ v d' p' q', (0, ?dd, _, _) = _ ∧ _ =>
      assert (Hlog : only_log (d <| vmid_pasid ::= <[Z.to_nat v := u16 (pasid q)]> |>) dd) end.
    { repeat (lazymatch goal with
      | |- only_log _ (if ?b then _ else _) => destruct b
      | |- only_log _ (emit _ _) => eapply only_log_trans; [|apply only_log_emit]
      | |- only_log _ (program_trap_handler_settings _ _ _) => unfold program_trap_handler_settings
      | |- only_log _ (foldl _ _ _) => eapply only_log_trans; [|apply only_log_emits]
      | |- only_log _ (program_sh_mem_settings _ _ _) => unfold program_sh_mem_settings
      end). all: apply only_log_set_pasid. }
    match goal with |- ∃ v d' p' q', (0, ?dd, _, _) = _ ∧ _ => generalize dependent dd end.
    intros dd Hdd. unfold only_log in Hdd. exists v, dd. do 2 eexists. split; [done|].
    assert (Hvp : vmid_pasid dd = <[Z.to_nat v := u16 (pasid q)]> (vmid_pasid d)) by (by rewrite Hdd).
    unfold vmid_owner in *. rewrite !Hvp.
    split_and!; [lia|lia|done| |done|done| | |].
    + intros v' ?. apply Z.eqb_neq, Hlow. lia.
    + by rewrite list_lookup_insert_eq by lia.
    + intros v' ??. by rewrite list_lookup_insert_ne by lia.
    + rewrite Hdd. by destruct d.
  - left. split; [done|]. intros v Hv.
    eapply scan_None in E; [|split; [apply Hv|]; lia]. by apply Z.eqb_neq in E.
Qed.
End Alloc.

(** ** The concrete device *)

Lemma hqd_wf_dqm0 : hqd_wf env0 dqm0.
Proof.
  split; [done|done|vm_compute; split; congruence|].
  repeat constructor; vm_compute; congruence.
Qed.

Lemma allocate_hqd_spec_witness :
  ∃ d' q', allocate_hqd env0 dqm0 (queue0 KFD_QUEUE_TYPE_COMPUTE 1 0) = (0, d', q') ∧
    pipe q' = 0 ∧ hqd q' = 1.
Proof.
  destruct (allocate_hqd_spec env0 dqm0 (queue0 KFD_QUEUE_TYPE_COMPUTE 1 0) hqd_wf_dqm0)
    as [[Hf _]|(p & b & d' & q' & Ha & _ & _ & _ & _ & _ & Hp & Hb & _)].
  - vm_compute in Hf. discriminate Hf.
  - exists d', q'. split; [exact Ha|]. vm_compute in Ha. injection Ha as <- <-.
    split; reflexivity.
Defined.

Lemma allocate_deallocate_hqd_witness :
  ∃ d' q', allocate_hqd env0 dqm0 (queue0 KFD_QUEUE_TYPE_COMPUTE 1 0) = (0, d', q') ∧
    allocated_queues (deallocate_hqd d' q') = [254; 254; 254; 254].
Proof.
  do 2 eexists. split; [vm_compute; reflexivity|].
  erewrite (allocate_deallocate_hqd env0 dqm0 (queue0 KFD_QUEUE_TYPE_COMPUTE 1 0)
    _ _ hqd_wf_dqm0); [reflexivity|vm_compute; reflexivity].
Defined.

Definition sdma_queue1 : queue := (allocate_sdma_queue env0 dqm0 (queue0 KFD_QUEUE_TYPE_SDMA 1 0) None).2.
Definition sdma_dqm1 : device_queue_manager :=
  (allocate_sdma_queue env0 dqm0 (queue0 KFD_QUEUE_TYPE_SDMA 1 0) None).1.2.

Lemma sdma_queues_exclusive_witness :
  sdma_env_ok env0 ∧
  (∀ q, q ∈ [sdma_queue1] → qtype q = KFD_QUEUE_TYPE_SDMA →
     0 ≤ sdma_id q < get_num_sdma_queues env0 ∧
     Z.testbit (reserved_sdma_queues_bitmap env0) (sdma_id q) = false) ∧
  sdma_id sdma_queue1 = 2.
Proof.
  assert (Hok : sdma_env_ok env0) by (split; vm_compute; congruence).
  split; [exact Hok|]. split; [|reflexivity].
  apply (sdma_queues_exclusive env0 dqm0 sdma_dqm1 [sdma_queue1] Hok).
  eapply rtc_l; [|apply rtc_refl].
  exact (sdma_step_create env0 (init_sdma_bitmaps env0 dqm0) [] (queue0 KFD_QUEUE_TYPE_SDMA 1 0)
           None 0 sdma_dqm1 sdma_queue1 eq_refl eq_refl).
Defined.

Definition db_result1 : Z * qcm_process_device * queue :=
  Eval vm_compute in
    allocate_doorbell env0 qpd0 (queue0 KFD_QUEUE_TYPE_COMPUTE 1 0) (Some 17).

Lemma doorbells_exclusive_witness :
  doorbell_id db_result1.2 = 17 ∧ NoDup (doorbell_id <$> [db_result1.2]).
Proof.
  split; [reflexivity|].
  refine (proj1 (doorbells_exclusive env0 qpd0 db_result1.1.2 [db_result1.2] eq_refl _)).
  eapply rtc_l; [|apply rtc_refl].
  refine (db_step_create env0 _ [] (queue0 KFD_QUEUE_TYPE_COMPUTE 1 0) (Some 17) 0 _ _ eq_refl _ _).
  - intros id [= <-]. vm_compute. split; congruence.
  - vm_compute. reflexivity.
Defined.

Lemma allocate_doorbell_restore_unchecked_witness :
  ∃ p' q', allocate_doorbell env0 qpd0 (queue0 KFD_QUEUE_TYPE_COMPUTE 1 0) (Some 5000) = (0, p', q').
Proof.
  destruct (allocate_doorbell_restore_unchecked env0 qpd0 (queue0 KFD_QUEUE_TYPE_COMPUTE 1 0) 5000)
    as (p' & q' & H & _); [reflexivity|reflexivity|vm_compute; split; congruence|vm_compute; congruence|].
  exists p', q'. exact H.
Defined.

Lemma allocate_vmid_spec_witness :
  ∃ d' p' q', allocate_vmid env0 hw0 dqm0 qpd0 (queue0 KFD_QUEUE_TYPE_COMPUTE 1 0) = (0, d', p', q') ∧
    vmid p' = 8.
Proof.
  destruct (allocate_vmid_spec env0 hw0 dqm0 qpd0 (queue0 KFD_QUEUE_TYPE_COMPUTE 1 0))
    as [[Hf _]|(v & d' & p' & q' & Ha & _)];
    [reflexivity|vm_compute; congruence|reflexivity|vm_compute in Hf; discriminate Hf|].
  exists d', p', q'. split; [exact Ha|]. vm_compute in Ha. injection Ha as <- <- <-. reflexivity.
Defined.
