(* ===== verification/DqmOps.v ===== *)
(** * Operations of the device queue manager

    [kfd_device_queue_manager.c], both schedulers: the software one
    ([*_nocpsch]) that loads queues in hardware slots itself, and the hardware
    one ([*_cpsch]) that sends runlists to the firmware or hands queues to the
    MES.  Each definition is one function of the file: it takes the manager, the
    process and the queue it mutates and returns them with the return code, the
    [goto] labels being local continuations.  [dqm->lock] makes each of them
    atomic.  A creation holds the lock in two separate sections, which are two
    definitions: [create_queue_nocpsch] drops it while the MQD is allocated,
    [create_queue_cpsch] takes it for the SDMA queue and again to link the queue.
    Its check of [total_queue_count], made without the lock, is part of the first
    section. *)

From S2P Require Import Prelude DqmState.

(** CRIU data of a queue to restore. *)
Record criu_queue_data := mk_criu { criu_sdma_id : Z; criu_doorbell_id : Z }.

Definition list_empty {A} (l : list A) : bool := match l with [] => true | _ => false end.

(** [list_del]: unlink the object at the queue's address. *)
Definition list_del (q : queue) (l : list queue) : list queue :=
  filter (λ x, q_addr x ≠ q_addr q) l.

(** The object was mutated in place: the list shows its new contents. *)
Definition list_update (q : queue) (l : list queue) : list queue :=
  (λ x, if q_addr x =? q_addr q then q else x) <$> l.

Inductive mes_queue_type := MES_QUEUE_TYPE_COMPUTE | MES_QUEUE_TYPE_SDMA.
#[export] Instance mes_queue_type_eq_dec : EqDecision mes_queue_type.
Proof. solve_decision. Defined.

Section Ops.
Context (e : dev_env) (h : hw_env).

Abbreviation dqm := device_queue_manager.
Abbreviation qpd := qcm_process_device.

(** A creation gives up the lock while it allocates memory: it has returned, or
    this is the state in which it does so. *)
Definition create_step : Type := (Z * dqm * qpd * queue) + (dqm * qpd * queue).

(** ** Software scheduling *)

(** The labels of [create_queue_nocpsch]. *)
Definition undo_vmid_nocpsch (r : Z) (d : dqm) (p : qpd) (q : queue) : Z * dqm * qpd * queue :=
  if list_empty (queues_list p) then
    let '(d, p, q) := deallocate_vmid e h d p q in (r, d, p, q)
  else (r, d, p, q).
Definition undo_hqd_nocpsch (r : Z) (d : dqm) (p : qpd) (q : queue) : Z * dqm * qpd * queue :=
  let d := if is_type (qtype q) KFD_QUEUE_TYPE_COMPUTE then deallocate_hqd d q
           else if is_sdma q then deallocate_sdma_queue e d q else d in
  undo_vmid_nocpsch r d p q.
Definition undo_doorbell_nocpsch (r : Z) (d : dqm) (p : qpd) (q : queue)
    : Z * dqm * qpd * queue :=
  undo_hqd_nocpsch r d (deallocate_doorbell e p q) q.

(** Up to [dqm_unlock], before the allocation of the MQD: the call returned, or
    it goes on without the lock. *)
Definition create_queue_nocpsch_begin (d : dqm) (q : queue) (p : qpd)
    (qd : option criu_queue_data) : create_step :=
  if max_num_of_queues_per_device e <=? total_queue_count d then inl (-EPERM, d, p, q)
  else
    let '(r, d, p, q) :=
      if list_empty (queues_list p) then allocate_vmid e h d p q else (0, d, p, q) in
    if nz r then inl (r, d, p, q)
    else
      let q := set_props (λ pr, pr <| vmid_of_queue := vmid p |>
                                   <| is_evicted := nz (evicted p) |>
                                   <| q_tba_addr := tba_addr p |>
                                   <| q_tma_addr := tma_addr p |>) q in
      let '(r, d, q) :=
        if is_type (qtype q) KFD_QUEUE_TYPE_COMPUTE then allocate_hqd e d q
        else if is_sdma q then
          let '(r, d, q) := allocate_sdma_queue e d q (criu_sdma_id <$> qd) in
          (r, if nz r then d else emit (EvInitSdmaVm (q_addr q)) d, q)
        else (0, d, q) in
      if nz r then inl (undo_vmid_nocpsch r d p q)
      else
        let '(r, p, q) := allocate_doorbell e p q (criu_doorbell_id <$> qd) in
        if nz r then inl (undo_hqd_nocpsch r d p q) else inr (d, p, q).

(** From the second [dqm_lock]: [d] and [p] are what the thread finds then. *)
Definition create_queue_nocpsch_end (d : dqm) (q : queue) (p : qpd)
    (qd : option criu_queue_data) : Z * dqm * qpd * queue :=
  if negb (hw_allocate_mqd h (hw_log d) (q_addr q)) then undo_doorbell_nocpsch (-ENOMEM) d p q
  else
    let '(d, q) :=
      match qd with
      | Some _ => (emit (EvRestoreMqd (q_addr q)) d, mqd_restored q)
      | None => (emit (EvInitMqd (q_addr q)) d, mqd_refresh q)
      end in
    let add_queue_to_list d p q :=
      let p := p <| queues_list ::= cons q |> <| queue_count ::= λ n, u32 (n + 1) |> in
      let '(d, p) := if qactive q then increment_queue_count d p q else (d, p) in
      (0, d <| total_queue_count ::= λ n, u32 (n + 1) |>, p, q) in
    if qactive q then
      if negb (sched_running d) then add_queue_to_list d p q
      else
        let '(r, d) :=
          if negb (hw_same_mm h) then (-EFAULT, d)
          else (hw_load_mqd h (hw_log d) (q_addr q),
                emit (EvLoadMqd (q_addr q) (pipe q) (hqd q)) d) in
        if nz r then undo_doorbell_nocpsch r (emit (EvFreeMqd (q_addr q)) d) p q
        else add_queue_to_list d p q
    else add_queue_to_list d p q.

(** The whole call, when nobody takes the lock in between. *)
Definition create_queue_nocpsch (d : dqm) (q : queue) (p : qpd) (qd : option criu_queue_data)
    : Z * dqm * qpd * queue :=
  match create_queue_nocpsch_begin d q p qd with
  | inl res => res
  | inr (d, p, q) => create_queue_nocpsch_end d q p qd
  end.

Definition destroy_queue_nocpsch_locked (d : dqm) (p : qpd) (q : queue)
    : Z * dqm * qpd * queue :=
  match
    match qtype q with
    | KFD_QUEUE_TYPE_COMPUTE => Some (deallocate_hqd d q)
    | KFD_QUEUE_TYPE_SDMA | KFD_QUEUE_TYPE_SDMA_XGMI => Some (deallocate_sdma_queue e d q)
    | _ => None
    end
  with
  | None => (-EINVAL, d, p, q)
  | Some d =>
      let d := d <| total_queue_count ::= λ n, u32 (n - 1) |> in
      let p := deallocate_doorbell e p q in
      if negb (sched_running d) then (0, d, p, q)
      else
        let retval := hw_destroy_mqd h (hw_log d) (q_addr q) in
        let d := emit (EvDestroyMqd (q_addr q) (pipe q) (hqd q)) d in
        let p := if retval =? -ETIME then p <| reset_wavefronts := true |> else p in
        let p := p <| queues_list ::= list_del q |> in
        let '(d, p, q) :=
          if list_empty (queues_list p) then
            let '(d, p) := if reset_wavefronts p
                           then (emit EvResetWavefronts d, p <| reset_wavefronts := false |>)
                           else (d, p) in
            deallocate_vmid e h d p q
          else (d, p, q) in
        let p := p <| queue_count ::= λ n, u32 (n - 1) |> in
        let '(d, p) := if qactive q then decrement_queue_count d p q else (d, p) in
        (retval, d, p, q)
  end.

(** The SDMA activity counter of the process is user-space data and not kept. *)
Definition destroy_queue_nocpsch (d : dqm) (p : qpd) (q : queue) : Z * dqm * qpd :=
  let '(r, d, p, q) := destroy_queue_nocpsch_locked d p q in
  (r, emit (EvFreeMqd (q_addr q)) d, p).

(** The [list_for_each_entry] loop of [evict_process_queues_nocpsch]: [done] are
    the queues already visited, in reverse. *)
Fixpoint evict_loop_nocpsch (todo : list queue) (d : dqm) (p : qpd) (ret : Z)
    : Z * dqm * qpd * list queue :=
  match todo with
  | [] => (ret, d, p, [])
  | q :: todo =>
      let q := set_props (set_field is_evicted (λ _, true)) q in
      let '(ret, d, p, q) :=
        if negb (qactive q) then (ret, d, p, q)
        else
          let q := set_props (set_field is_active (λ _, false)) q in
          let '(d, p) := decrement_queue_count d p q in
          if negb (sched_running d) then (ret, d, p, q)
          else
            let retval := hw_destroy_mqd h (hw_log d) (q_addr q) in
            let d := emit (EvDestroyMqd (q_addr q) (pipe q) (hqd q)) d in
            (if nz retval && negb (nz ret) then retval else ret, d, p, q) in
      let '(ret, d, p, rest) := evict_loop_nocpsch todo d p ret in
      (ret, d, p, q :: rest)
  end.

Definition evict_process_queues_nocpsch (d : dqm) (p : qpd) : Z * dqm * qpd :=
  let old := evicted p in
  let p := p <| evicted := u32 (old + 1) |> in
  if 0 <? old then (0, d, p)
  else
    let p := p <| last_evict_timestamp := hw_jiffies h |> in
    let '(ret, d, p, l) := evict_loop_nocpsch (queues_list p) d p 0 in
    (ret, d, p <| queues_list := l |>).

Fixpoint restore_loop_nocpsch (todo : list queue) (d : dqm) (p : qpd) (ret : Z)
    : Z * dqm * qpd * list queue :=
  match todo with
  | [] => (ret, d, p, [])
  | q :: todo =>
      let q := set_props (set_field is_evicted (λ _, false)) q in
      let '(ret, d, p, q) :=
        if negb (QUEUE_IS_ACTIVE (properties q)) then (ret, d, p, q)
        else
          let q := set_props (set_field is_active (λ _, true)) q in
          let '(d, p) := increment_queue_count d p q in
          if negb (sched_running d) then (ret, d, p, q)
          else
            let retval := hw_load_mqd h (hw_log d) (q_addr q) in
            let d := emit (EvLoadMqd (q_addr q) (pipe q) (hqd q)) d in
            (if nz retval && negb (nz ret) then retval else ret, d, p, q) in
      let '(ret, d, p, rest) := restore_loop_nocpsch todo d p ret in
      (ret, d, p, q :: rest)
  end.

Definition restore_process_queues_nocpsch (d : dqm) (p : qpd) : Z * dqm * qpd :=
  if negb (nz (evicted p)) then (0, d, p)
  else if 1 <? evicted p then (0, d, p <| evicted ::= λ n, u32 (n - 1) |>)
  else
    let p := p <| page_table_base := hw_page_dir h |> in
    let d := if list_empty (queues_list p) then d
             else emit (EvFlushTlb (vmid p)) (emit (EvPageTableBase (vmid p) (page_table_base p)) d) in
    if negb (hw_task_mm h) then (-EFAULT, d, p)
    else
      let '(ret, d, p, l) := restore_loop_nocpsch (queues_list p) d p 0 in
      (ret, d,
       p <| queues_list := l |> <| evicted := 0 |>
         <| evict_duration_counter ::= λ c, c + u64 (hw_jiffies h - last_evict_timestamp p) |>).

(** ** Registration of processes *)

(** [pid] names the [qpd]; [asic_ops.update_qpd] only programs the SH_MEM words
    of the [qpd] and returns 0 on every ASIC. *)
Definition register_process (d : dqm) (p : qpd) (pid : Z) : Z * dqm * qpd :=
  if negb (hw_zalloc h) then (-ENOMEM, d, p)
  else
    let d := d <| dqm_queues ::= cons pid |> in
    let p := p <| page_table_base := hw_page_dir h |> in
    let d := d <| processes_count ::= λ n, u32 (n + 1) |> in
    (0, kfd_inc_compute_active d, p).

(** Unlink the first node of [pid], if there is one. *)
Fixpoint remove_first (pid : Z) (l : list Z) : option (list Z) :=
  match l with
  | [] => None
  | x :: l => if x =? pid then Some l else cons x <$> remove_first pid l
  end.

Definition unregister_process (d : dqm) (pid : Z) : Z * dqm :=
  match remove_first pid (dqm_queues d) with
  | None => (1, d)
  | Some l =>
      (0, kfd_dec_compute_active
            (d <| dqm_queues := l |> <| processes_count ::= λ n, u32 (n - 1) |>))
  end.

(** [process_termination_nocpsch]: the [while] loop destroys the first queue of
    the list until the list is empty, at most [fuel] times. *)
Fixpoint terminate_loop_nocpsch (fuel : nat) (d : dqm) (p : qpd) (retval : Z)
    : option (Z * dqm * qpd) :=
  match queues_list p with
  | [] => Some (retval, d, p)
  | q :: _ =>
      match fuel with
      | O => None
      | S fuel =>
          let '(ret, d, p, q) := destroy_queue_nocpsch_locked d p q in
          terminate_loop_nocpsch fuel (emit (EvFreeMqd (q_addr q)) d) p
            (if nz ret then ret else retval)
      end
  end.

Definition process_termination_nocpsch (fuel : nat) (d : dqm) (p : qpd) (pid : Z)
    : option (Z * dqm * qpd) :=
  match terminate_loop_nocpsch fuel d p 0 with
  | None => None
  | Some (retval, d, p) =>
      match remove_first pid (dqm_queues d) with
      | None => Some (retval, d, p)
      | Some l =>
          Some (retval, kfd_dec_compute_active
            (d <| dqm_queues := l |> <| processes_count ::= λ n, u32 (n - 1) |>), p)
      end
  end.

(** ** Hardware scheduling: the runlist and the MES *)

Definition KFD_UNMAP_QUEUES_FILTER_ALL_QUEUES : Z := 1.
Definition KFD_UNMAP_QUEUES_FILTER_DYNAMIC_QUEUES : Z := 2.
Definition KFD_UNMAP_QUEUES_FILTER_BY_PASID : Z := 3.
Definition USE_DEFAULT_GRACE_PERIOD : Z := 0xffffffff.

Definition kfd_hws_hang (d : dqm) : dqm :=
  let d := d <| is_hws_hang := true |> in
  if negb (is_resetting d) then emit EvScheduleReset d else d.

(** [halt_if_hws_hang], a debugging module parameter, is off. *)
Definition unmap_queues_cpsch (d : dqm) (filter filter_param grace_period : Z) (reset : bool)
    : Z * dqm :=
  if negb (sched_running d) then (0, d)
  else if is_hws_hang d || is_resetting d then (-EIO, d)
  else if negb (active_runlist d) then (0, d)
  else
    let '(retval, d) :=
      if negb (grace_period =? USE_DEFAULT_GRACE_PERIOD) then
        (hw_grace_period h (hw_log d), emit (EvGracePeriod grace_period) d)
      else (0, d) in
    if nz retval then (retval, d)
    else
      let retval := hw_send_unmap h (hw_log d) in
      let d := emit (EvSendUnmap filter filter_param reset) d in
      if nz retval then (retval, d)
      else
        let d := emit EvQueryStatus d in
        let retval := hw_fence_wait h (hw_log d) in
        if nz retval then (retval, kfd_hws_hang d)
        else if hw_hiq_doorbell_id h (hw_log d) then (-ETIME, kfd_hws_hang d)
        else
          let d := if negb (grace_period =? USE_DEFAULT_GRACE_PERIOD)
                   then emit (EvGracePeriod USE_DEFAULT_GRACE_PERIOD) d else d in
          (retval, (emit EvReleaseIb d) <| active_runlist := false |>).

Definition map_queues_cpsch (d : dqm) : Z * dqm :=
  if negb (sched_running d) then (0, d)
  else if (active_queue_count d <=? 0) || (processes_count d <=? 0) then (0, d)
  else if active_runlist d then (0, d)
  else
    let retval := hw_send_runlist h (hw_log d) in
    let d := emit EvSendRunlist d in
    if nz retval then (retval, d) else (retval, d <| active_runlist := true |>).

Definition execute_queues_cpsch (d : dqm) (filter filter_param grace_period : Z) : Z * dqm :=
  if is_hws_hang d then (-EIO, d)
  else
    let '(retval, d) := unmap_queues_cpsch d filter filter_param grace_period false in
    if nz retval then (retval, d) else map_queues_cpsch d.

Definition reset_queues_cpsch (d : dqm) (pasid : Z) : Z * dqm :=
  unmap_queues_cpsch d KFD_UNMAP_QUEUES_FILTER_BY_PASID (u16 pasid) USE_DEFAULT_GRACE_PERIOD true.


(** [None] is the negative result for a type the MES does not schedule. *)
Definition convert_to_mes_queue_type (t : kfd_queue_type) : option mes_queue_type :=
  match t with
  | KFD_QUEUE_TYPE_COMPUTE => Some MES_QUEUE_TYPE_COMPUTE
  | KFD_QUEUE_TYPE_SDMA => Some MES_QUEUE_TYPE_SDMA
  | _ => None
  end.

(** The packet handed to the MES is a function of the queue; the answer is [h]'s. *)
Definition add_queue_mes (d : dqm) (q : queue) : Z * dqm :=
  if is_hws_hang d then (-EIO, d)
  else if bool_decide (convert_to_mes_queue_type (qtype q) = None) then (-EINVAL, d)
  else
    let r := hw_add_hw_queue h (hw_log d) (q_addr q) in
    let d := emit (EvAddHwQueue (q_addr q)) d in
    if nz r then (r, kfd_hws_hang d) else (r, d).

Definition remove_queue_mes (d : dqm) (q : queue) : Z * dqm :=
  if is_hws_hang d then (-EIO, d)
  else
    let r := hw_remove_hw_queue h (hw_log d) (q_addr q) in
    let d := emit (EvRemoveHwQueue (q_addr q)) d in
    if nz r then (r, kfd_hws_hang d) else (r, d).

Definition execute_dynamic (d : dqm) : Z * dqm :=
  execute_queues_cpsch d KFD_UNMAP_QUEUES_FILTER_DYNAMIC_QUEUES 0 USE_DEFAULT_GRACE_PERIOD.

(** The labels of [create_queue_cpsch]. *)
Definition undo_sdma_cpsch (r : Z) (d : dqm) (p : qpd) (q : queue) : Z * dqm * qpd * queue :=
  (r, if is_sdma q then deallocate_sdma_queue e d q else d, p, q).
Definition undo_doorbell_cpsch (r : Z) (d : dqm) (p : qpd) (q : queue) : Z * dqm * qpd * queue :=
  undo_sdma_cpsch r d (deallocate_doorbell e p q) q.

(** The part that follows the check of [total_queue_count], which the C code
    makes before it takes the lock, up to the allocation of the MQD.  The lock is
    held for the SDMA queue only; what follows touches the process and the queue. *)
Definition create_queue_cpsch_checked (d : dqm) (q : queue) (p : qpd)
    (qd : option criu_queue_data) : create_step :=
  let '(r, d, q) :=
    if is_sdma q then allocate_sdma_queue e d q (criu_sdma_id <$> qd) else (0, d, q) in
  if nz r then inl (r, d, p, q)
  else
    let '(r, p, q) := allocate_doorbell e p q (criu_doorbell_id <$> qd) in
    if nz r then inl (undo_sdma_cpsch r d p q)
    else
      let d := if is_sdma q then emit (EvInitSdmaVm (q_addr q)) d else d in
      let q := set_props (λ pr, pr <| q_tba_addr := tba_addr p |>
                                   <| q_tma_addr := tma_addr p |>) q in
      if negb (hw_allocate_mqd h (hw_log d) (q_addr q)) then
        inl (undo_doorbell_cpsch (-ENOMEM) d p q)
      else inr (d, p, q).

Definition create_queue_cpsch_begin (d : dqm) (q : queue) (p : qpd)
    (qd : option criu_queue_data) : create_step :=
  if max_num_of_queues_per_device e <=? total_queue_count d then inl (-EPERM, d, p, q)
  else create_queue_cpsch_checked d q p qd.

(** From the [dqm_lock] that follows the allocation. *)
Definition create_queue_cpsch_end (d : dqm) (q : queue) (p : qpd)
    (qd : option criu_queue_data) : Z * dqm * qpd * queue :=
  let q := set_props (λ pr, pr <| is_evicted := nz (evicted p) |>
             <| is_dbg_wa := debug_trap_enabled p && has_cwsr_workaround e |>) q in
  let '(d, q) :=
    match qd with
    | Some _ => (emit (EvRestoreMqd (q_addr q)) d, mqd_restored q)
    | None => (emit (EvInitMqd (q_addr q)) d, mqd_refresh q)
    end in
  let p := p <| queues_list ::= cons q |> <| queue_count ::= λ n, u32 (n + 1) |> in
  let '(retval, d, p) :=
    if qactive q then
      let '(d, p) := increment_queue_count d p q in
      let '(retval, d) := if negb (enable_mes e) then execute_dynamic d
                          else add_queue_mes d q in
      (retval, d, p)
    else (0, d, p) in
  if nz retval then
    let p := p <| queue_count ::= λ n, u32 (n - 1) |> <| queues_list ::= list_del q |> in
    let '(d, p) := if qactive q then decrement_queue_count d p q else (d, p) in
    undo_doorbell_cpsch retval (emit (EvFreeMqd (q_addr q)) d) p q
  else (retval, d <| total_queue_count ::= λ n, u32 (n + 1) |>, p, q).

(** The whole call, when nobody takes the lock in between. *)
Definition create_queue_cpsch (d : dqm) (q : queue) (p : qpd) (qd : option criu_queue_data)
    : Z * dqm * qpd * queue :=
  match create_queue_cpsch_begin d q p qd with
  | inl res => res
  | inr (d, p, q) => create_queue_cpsch_end d q p qd
  end.

(** The wait for the debugger to resume a suspended queue releases the lock:
    [woken] is [None] when a signal interrupts it, and otherwise the state in
    which the other threads left the objects. *)
Definition wait_on_destroy_queue (woken : option (dqm * qpd * queue)) (d : dqm) (p : qpd)
    (q : queue) : Z * dqm * qpd * queue :=
  if is_debug p then (0, d, p, q)
  else
    let q := set_props (set_field is_being_destroyed (λ _, true)) q in
    let p := p <| queues_list ::= list_update q |> in
    if debug_trap_enabled p && is_suspended (properties q) then
      match woken with
      | None => (-ERESTARTSYS, d, p, q)
      | Some (d, p, q) => (0, d, p, q)
      end
    else (0, d, p, q).

Definition destroy_queue_cpsch (woken : option (dqm * qpd * queue)) (d : dqm) (p : qpd)
    (q : queue) : Z * dqm * qpd * queue :=
  let '(retval, d, p, q) := wait_on_destroy_queue woken d p q in
  if nz retval then (retval, d, p, q)
  else if is_debug p then (-EBUSY, d, p, q)
  else
    let p := deallocate_doorbell e p q in
    let d := if is_sdma q then deallocate_sdma_queue e d q else d in
    let p := p <| queues_list ::= list_del q |> <| queue_count ::= λ n, u32 (n - 1) |> in
    let '(retval, d, p) :=
      if qactive q then
        let '(d, p) := decrement_queue_count d p q in
        if negb (enable_mes e) then
          let '(r, d) := execute_dynamic d in
          (r, d, if r =? -ETIME then p <| reset_wavefronts := true |> else p)
        else
          let '(r, d) := remove_queue_mes d q in (r, d, p)
      else (retval, d, p) in
    let d := d <| total_queue_count ::= λ n, u32 (n - 1) |> in
    let d := emit (EvFreeMqd (q_addr q)) (emit (EvDebugEvent (q_addr q)) d) in
    (retval, d, p, q).

Definition create_kernel_queue_cpsch (d : dqm) (kq : queue) (p : qpd) : Z * dqm * qpd :=
  if max_num_of_queues_per_device e <=? total_queue_count d then (-EPERM, d, p)
  else
    let d := d <| total_queue_count ::= λ n, u32 (n + 1) |> in
    let p := p <| priv_queue_list ::= cons kq |> in
    let '(d, p) := increment_queue_count d p kq in
    let p := p <| is_debug := true |> in
    (0, (execute_dynamic d).2, p).

Definition destroy_kernel_queue_cpsch (d : dqm) (kq : queue) (p : qpd) : dqm * qpd :=
  let p := p <| priv_queue_list ::= list_del kq |> in
  let '(d, p) := decrement_queue_count d p kq in
  let p := p <| is_debug := false |> in
  let d := (execute_queues_cpsch d KFD_UNMAP_QUEUES_FILTER_ALL_QUEUES 0
              USE_DEFAULT_GRACE_PERIOD).2 in
  (d <| total_queue_count ::= λ n, u32 (n - 1) |>, p).

Fixpoint evict_loop_cpsch (todo : list queue) (d : dqm) (p : qpd) (retval : Z)
    : Z * dqm * qpd * list queue :=
  match todo with
  | [] => (retval, d, p, [])
  | q :: todo =>
      let q := set_props (set_field is_evicted (λ _, true)) q in
      let '(retval, d, p, q) :=
        if negb (qactive q) then (retval, d, p, q)
        else
          let q := set_props (set_field is_active (λ _, false)) q in
          let '(d, p) := decrement_queue_count d p q in
          if enable_mes e then
            let '(err, d) := remove_queue_mes d q in
            (if nz err then err else retval, d, p, q)
          else (retval, d, p, q) in
      let '(retval, d, p, rest) := evict_loop_cpsch todo d p retval in
      (retval, d, p, q :: rest)
  end.

Definition evict_process_queues_cpsch (d : dqm) (p : qpd) : Z * dqm * qpd :=
  let old := evicted p in
  let p := p <| evicted := u32 (old + 1) |> in
  if 0 <? old then (0, d, p)
  else if negb (drm_priv p) then (0, d, p)
  else
    let '(retval, d, p, l) := evict_loop_cpsch (queues_list p) d p 0 in
    let p := p <| queues_list := l |> <| last_evict_timestamp := hw_jiffies h |> in
    if negb (enable_mes e) then
      let '(retval, d) :=
        execute_queues_cpsch d
          (if is_debug p then KFD_UNMAP_QUEUES_FILTER_ALL_QUEUES
           else KFD_UNMAP_QUEUES_FILTER_DYNAMIC_QUEUES) 0 USE_DEFAULT_GRACE_PERIOD in
      (retval, d, p)
    else (retval, d, p).

(** The loop of [restore_process_queues_cpsch]; the flag tells whether it was
    left by [goto out]. *)
Fixpoint restore_loop_cpsch (todo : list queue) (d : dqm) (p : qpd)
    : bool * Z * dqm * qpd * list queue :=
  match todo with
  | [] => (false, 0, d, p, [])
  | q :: todo =>
      let q := set_props (set_field is_evicted (λ _, false)) q in
      let '(out, retval, d, p, q) :=
        if negb (QUEUE_IS_ACTIVE (properties q)) then (false, 0, d, p, q)
        else
          let q := set_props (set_field is_active (λ _, true)) q in
          let '(d, p) := increment_queue_count d p q in
          if enable_mes e then
            let '(r, d) := add_queue_mes d q in (nz r, r, d, p, q)
          else (false, 0, d, p, q) in
      if out : bool then (true, retval, d, p, q :: todo)
      else
        let '(out, retval, d, p, rest) := restore_loop_cpsch todo d p in
        (out, retval, d, p, q :: rest)
  end.

Definition restore_process_queues_cpsch (d : dqm) (p : qpd) : Z * dqm * qpd :=
  if negb (nz (evicted p)) then (0, d, p)
  else if 1 <? evicted p then (0, d, p <| evicted ::= λ n, u32 (n - 1) |>)
  else if negb (drm_priv p) then (0, d, p <| evicted := 0 |>)
  else
    let p := p <| page_table_base := hw_page_dir h |> in
    let '(out, retval, d, p, l) := restore_loop_cpsch (queues_list p) d p in
    let p := p <| queues_list := l |> in
    if out : bool then (retval, d, p)
    else
      let '(retval, d) := if negb (enable_mes e) then execute_dynamic d else (retval, d) in
      (retval, d,
       p <| evict_duration_counter ::= λ c, c + u64 (hw_jiffies h - last_evict_timestamp p) |>
         <| evicted := 0 |>).

Definition suspend_single_queue (d : dqm) (p : qpd) (q : queue) : Z * dqm * qpd * queue :=
  if is_suspended (properties q) then (0, d, p, q)
  else if nz (Z.land (exception_status (properties q)) (ec_queue_new_mask e)) || is_being_destroyed (properties q)
  then (-EBUSY, d, p, q)
  else
    let q := set_props (set_field is_suspended (λ _, true)) q in
    if qactive q then
      let '(r, d) := if enable_mes e then remove_queue_mes d q else (0, d) in
      if nz r then (r, d, p, q)
      else
        let '(d, p) := decrement_queue_count d p q in
        (0, d, p, set_props (set_field is_active (λ _, false)) q)
    else (0, d, p, q).

Definition resume_single_queue (d : dqm) (p : qpd) (q : queue) : Z * dqm * qpd * queue :=
  if negb (is_suspended (properties q)) then (0, d, p, q)
  else
    let q := set_props (set_field is_suspended (λ _, false)) q in
    if QUEUE_IS_ACTIVE (properties q) then
      let '(r, d) := if enable_mes e then add_queue_mes d q else (0, d) in
      if nz r then (r, d, p, q)
      else
        let q := set_props (set_field is_active (λ _, true)) q in
        let '(d, p) := increment_queue_count d p q in
        (0, d, p, q)
    else (0, d, p, q).

(** Queue types that own a hardware slot under software scheduling. *)
Definition has_hw_slot (q : queue) : bool :=
  is_type (qtype q) KFD_QUEUE_TYPE_COMPUTE || is_sdma q.

(** [update_queue]; [no_hws] is [sched_policy == KFD_SCHED_POLICY_NO_HWS], and
    [update_mqd] recomputes [is_active] from the new properties. *)
Definition update_queue (no_hws : bool) (d : dqm) (p : qpd) (q : queue)
    : Z * dqm * qpd * queue :=
  let prev_active := qactive q in
  let '(out, retval, d) :=
    if negb no_hws then
      let '(r, d) :=
        if negb (enable_mes e) then
          unmap_queues_cpsch d KFD_UNMAP_QUEUES_FILTER_DYNAMIC_QUEUES 0
            USE_DEFAULT_GRACE_PERIOD false
        else if prev_active then remove_queue_mes d q else (0, d) in
      (nz r, r, d)
    else if prev_active && has_hw_slot q then
      if negb (sched_running d) then (true, 0, d)
      else
        let r := hw_destroy_mqd h (hw_log d) (q_addr q) in
        (nz r, r, emit (EvDestroyMqd (q_addr q) (pipe q) (hqd q)) d)
    else (false, 0, d) in
  if out : bool then (retval, d, p, q)
  else
    let d := emit (EvUpdateMqd (q_addr q)) d in
    let q := mqd_refresh q in
    let '(d, p, q) :=
      if qactive q && negb prev_active then
        let '(d, p) := increment_queue_count d p q in (d, p, q)
      else if negb (qactive q) && prev_active then
        let '(d, p) := decrement_queue_count d p q in (d, p, q)
      else if gws q && negb (is_gws (properties q)) then
        let '(d, p) := if qactive q
          then (d <| gws_queue_count ::= λ n, u32 (n + 1) |>, p <| mapped_gws_queue := true |>)
          else (d, p) in
        (d, p, set_props (set_field is_gws (λ _, true)) q)
      else if negb (gws q) && is_gws (properties q) then
        let '(d, p) := if qactive q
          then (d <| gws_queue_count ::= λ n, u32 (n - 1) |>, p <| mapped_gws_queue := false |>)
          else (d, p) in
        (d, p, set_props (set_field is_gws (λ _, false)) q)
      else (d, p, q) in
    let p := p <| queues_list ::= list_update q |> in
    let '(retval, d) :=
      if negb no_hws then
        if negb (enable_mes e) then map_queues_cpsch d
        else if qactive q then add_queue_mes d q else (retval, d)
      else if qactive q && has_hw_slot q then
        if negb (hw_same_mm h) then (-EFAULT, d)
        else (hw_load_mqd h (hw_log d) (q_addr q),
              emit (EvLoadMqd (q_addr q) (pipe q) (hqd q)) d)
      else (retval, d) in
    (retval, d, p, q).

(** ** Termination of a process and start and stop of the scheduler *)

Definition terminate_kernel_queues (l : list queue) (d : dqm) (p : qpd) : dqm * qpd :=
  foldl (λ '(d, p) kq,
      let p := p <| priv_queue_list ::= list_del kq |> in
      let '(d, p) := decrement_queue_count d p kq in
      (d <| total_queue_count ::= λ n, u32 (n - 1) |>, p <| is_debug := false |>))
    (d, p) l.

Definition terminate_user_queues (l : list queue) (d : dqm) (p : qpd) (retval : Z)
    : Z * dqm * qpd :=
  foldl (λ '(retval, d, p) q,
      let d := if is_sdma q then deallocate_sdma_queue e d q else d in
      let '(retval, d, p) :=
        if qactive q then
          let '(d, p) := decrement_queue_count d p q in
          if enable_mes e then let '(r, d) := remove_queue_mes d q in (r, d, p)
          else (retval, d, p)
        else (retval, d, p) in
      (retval, d <| total_queue_count ::= λ n, u32 (n - 1) |>, p))
    (retval, d, p) l.

Definition process_termination_cpsch (d : dqm) (p : qpd) (pid : Z) : Z * dqm * qpd :=
  let filter := if list_empty (priv_queue_list p) then KFD_UNMAP_QUEUES_FILTER_DYNAMIC_QUEUES
                else KFD_UNMAP_QUEUES_FILTER_ALL_QUEUES in
  let '(d, p) := terminate_kernel_queues (priv_queue_list p) d p in
  let '(retval, d, p) := terminate_user_queues (queues_list p) d p 0 in
  let d :=
    match remove_first pid (dqm_queues d) with
    | None => d
    | Some l => kfd_dec_compute_active
        (d <| dqm_queues := l |> <| processes_count ::= λ n, u32 (n - 1) |>)
    end in
  let '(retval, d) :=
    if negb (enable_mes e) then execute_queues_cpsch d filter 0 USE_DEFAULT_GRACE_PERIOD
    else (retval, d) in
  let '(d, p) :=
    if negb (is_hws_hang d) && (nz retval || reset_wavefronts p)
    then (emit EvResetWavefronts d, p <| reset_wavefronts := false |>) else (d, p) in
  let d := foldl (λ d q, emit (EvFreeMqd (q_addr q)) d) d (queues_list p) in
  (retval, d,
   p <| queue_count ::= λ n, u32 (n - Z.of_nat (length (queues_list p))) |>
     <| queues_list := [] |>).

Definition pre_reset (d : dqm) : dqm := d <| is_resetting := true |>.

(** [pm_ret] is the outcome of [pm_init], made on Hawaii only. *)
Definition start_nocpsch (pm_ret : Z) (d : dqm) : Z * dqm :=
  let r := if is_hawaii e then pm_ret else 0 in
  if nz r then (r, d) else (r, d <| sched_running := true |>).

Definition stop_nocpsch (d : dqm) : Z * dqm :=
  if negb (sched_running d) then (0, d) else (0, d <| sched_running := false |>).

Definition remove_all_queues_mes (d : dqm) (all : list queue) : Z * dqm :=
  (fix go (l : list queue) (d : dqm) :=
     match l with
     | [] => (0, d)
     | q :: l =>
         if qactive q then
           let '(r, d) := remove_queue_mes d q in if nz r then (r, d) else go l d
         else go l d
     end) all d.

(** [all] are the queues of the registered processes, in list order. *)
Definition stop_cpsch (d : dqm) (all : list queue) : Z * dqm :=
  if negb (sched_running d) then (0, d)
  else
    let d :=
      if negb (is_hws_hang d) then
        if negb (enable_mes e) then
          (unmap_queues_cpsch d KFD_UNMAP_QUEUES_FILTER_ALL_QUEUES 0
             USE_DEFAULT_GRACE_PERIOD false).2
        else (remove_all_queues_mes d all).2
      else d in
    let d := d <| sched_running := false |> in
    let d := if negb (enable_mes e) then emit EvReleaseIb d else d in
    (0, d).

End Ops.
