(* ===== verification/DqmCounts.v ===== *)
(** * The counters of the device queue manager

    [active_queue_count], [active_cp_queue_count], [gws_queue_count] and
    [total_queue_count] decide whether a runlist is sent and whether a queue may
    be created.  They are maintained incrementally by a dozen functions; this
    file shows that each of them moves the counters exactly as it moves the
    queues of the process, on every path, failures included. *)

From S2P Require Import Prelude DqmState DqmOps.

(** ** What the counters count *)

Definition load_active (p : qcm_process_device) : Z :=
  count qactive (queues_list p) + count (λ _, true) (priv_queue_list p).
Definition load_cp (p : qcm_process_device) : Z :=
  count (λ q, qactive q && counts_as_cp q) (queues_list p) + count counts_as_cp (priv_queue_list p).
Definition load_gws (p : qcm_process_device) : Z :=
  count (λ q, qactive q && is_gws (properties q)) (queues_list p)
  + count (λ q, is_gws (properties q)) (priv_queue_list p).
Definition load_total (p : qcm_process_device) : Z :=
  count (λ _, true) (queues_list p) + count (λ _, true) (priv_queue_list p).

(** The counters are [unsigned int]s. *)
Record widths (d : device_queue_manager) : Prop := {
  width_active : in_width 32 (active_queue_count d);
  width_cp : in_width 32 (active_cp_queue_count d);
  width_gws : in_width 32 (gws_queue_count d);
  width_total : in_width 32 (total_queue_count d);
}.

(** The counters moved by the given amounts; the scheduler is neither started nor
    stopped, and no process is registered or unregistered. *)
Record moved (d d' : device_queue_manager) (a c g t : Z) : Prop := {
  moved_active : eq32 (active_queue_count d') (active_queue_count d + a);
  moved_cp : eq32 (active_cp_queue_count d') (active_cp_queue_count d + c);
  moved_gws : eq32 (gws_queue_count d') (gws_queue_count d + g);
  moved_total : eq32 (total_queue_count d') (total_queue_count d + t);
  moved_sched : sched_running d' = sched_running d;
  moved_queues : dqm_queues d' = dqm_queues d;
  moved_widths : widths d → widths d';
}.

(** The counters moved as the queues of the process did. *)
Definition tracks (d : device_queue_manager) (p : qcm_process_device)
    (d' : device_queue_manager) (p' : qcm_process_device) : Prop :=
  moved d d' (load_active p' - load_active p) (load_cp p' - load_cp p)
    (load_gws p' - load_gws p) (load_total p' - load_total p).

Definition same_lists (p p' : qcm_process_device) : Prop :=
  queues_list p' = queues_list p ∧ priv_queue_list p' = priv_queue_list p.

Lemma moved_refl d : moved d d 0 0 0 0.
Proof. split; [apply eq32_eq; lia..|done|done|done]. Qed.

Lemma moved_trans d1 d2 d3 a c g t a' c' g' t' :
  moved d1 d2 a c g t → moved d2 d3 a' c' g' t' →
  moved d1 d3 (a + a') (c + c') (g + g') (t + t').
Proof.
  intros [A1 C1 G1 T1 S1 Q1 W1] [A2 C2 G2 T2 S2 Q2 W2].
  split; [rewrite A2, A1|rewrite C2, C1|rewrite G2, G1|rewrite T2, T1|congruence|congruence|auto];
    apply eq32_eq; lia.
Qed.

Lemma moved_eq d d' a c g t a' c' g' t' :
  moved d d' a c g t → a = a' → c = c' → g = g' → t = t' → moved d d' a' c' g' t'.
Proof. by intros ? -> -> -> ->. Qed.

Lemma tracks_trans d1 p1 d2 p2 d3 p3 :
  tracks d1 p1 d2 p2 → tracks d2 p2 d3 p3 → tracks d1 p1 d3 p3.
Proof. intros H1 H2. eapply moved_eq; [by eapply moved_trans| | | |]; lia. Qed.

Lemma tracks_moved d p d' p' a c g t :
  moved d d' a c g t →
  a = load_active p' - load_active p → c = load_cp p' - load_cp p →
  g = load_gws p' - load_gws p → t = load_total p' - load_total p → tracks d p d' p'.
Proof. by intros ? -> -> -> ->. Qed.

Lemma same_lists_loads p p' :
  same_lists p p' →
  load_active p' = load_active p ∧ load_cp p' = load_cp p ∧
  load_gws p' = load_gws p ∧ load_total p' = load_total p.
Proof. unfold load_active, load_cp, load_gws, load_total. by intros [-> ->]. Qed.

Lemma tracks_same d p d' p' : moved d d' 0 0 0 0 → same_lists p p' → tracks d p d' p'.
Proof.
  intros Hm (? & ? & ? & ?)%same_lists_loads. eapply tracks_moved; [done| | | |]; lia.
Qed.

(** ** Increment and decrement *)

Ltac solve_widths := intros []; split; simpl; solve [done | by apply wrap_in_width].
Ltac solve_moved := split; simpl; [rewrite ?eq32_u32; apply eq32_eq; lia..|done|done|solve_widths].

Lemma increment_moved d p q :
  moved d (increment_queue_count d p q).1 1 (b2z (counts_as_cp q)) (b2z (is_gws (properties q))) 0.
Proof.
  unfold increment_queue_count. destruct (counts_as_cp q), (is_gws (properties q)); solve_moved.
Qed.

Lemma decrement_moved d p q :
  moved d (decrement_queue_count d p q).1 (-1) (- b2z (counts_as_cp q))
    (- b2z (is_gws (properties q))) 0.
Proof.
  unfold decrement_queue_count. destruct (counts_as_cp q), (is_gws (properties q)); solve_moved.
Qed.

Lemma increment_lists d p q : same_lists p (increment_queue_count d p q).2.
Proof. unfold increment_queue_count. by destruct (is_gws _). Qed.
Lemma decrement_lists d p q : same_lists p (decrement_queue_count d p q).2.
Proof. unfold decrement_queue_count. by destruct (is_gws _). Qed.

(** ** Operations that leave the counters alone *)

Definition unmoved (d d' : device_queue_manager) : Prop := moved d d' 0 0 0 0.

Lemma unmoved_refl d : unmoved d d.
Proof. apply moved_refl. Qed.
Lemma unmoved_trans d1 d2 d3 : unmoved d1 d2 → unmoved d2 d3 → unmoved d1 d3.
Proof. intros H1 H2. exact (moved_trans _ _ _ _ _ _ _ _ _ _ _ H1 H2). Qed.

(** Updates of any other field. *)
Ltac unmoved_step := solve [split; simpl; [apply eq32_eq; lia..|done|done|solve_widths]].

Section Counts.
Context (e : dev_env) (h : hw_env).

Lemma unmoved_emit ev d d' : unmoved d d' → unmoved d (emit ev d').
Proof. intros [? ? ? ? ? ? Hw]. split; try done. intros []%Hw. by split. Qed.

Lemma unmoved_foldl (f : Z → hw_event) l d d' :
  unmoved d d' → unmoved d (foldl (λ d x, emit (f x) d) d' l).
Proof.
  revert d'. induction l as [|x l IH]; intros d' Hd; simpl; [done|].
  by apply IH, unmoved_emit.
Qed.

Lemma unmoved_set_pasid pasid v d d' :
  unmoved d d' → unmoved d (set_pasid_vmid_mapping e h d' pasid v).2.
Proof.
  unfold set_pasid_vmid_mapping. generalize (xccs e). intros l. revert d'.
  induction l as [|x l IH]; intros d' Hd; simpl; [done|].
  destruct (nz _); simpl; [by apply unmoved_emit|by apply IH, unmoved_emit].
Qed.

Lemma unmoved_vmid_pasid f d d' : unmoved d d' → unmoved d (d' <| vmid_pasid ::= f |>).
Proof. intros [? ? ? ? ? ? Hw]. split; try done. intros []%Hw. by split. Qed.

Ltac unmoved_log :=
  repeat first
    [ apply unmoved_emit | apply unmoved_vmid_pasid | apply unmoved_foldl | apply unmoved_set_pasid
    | match goal with |- unmoved _ (if ?b then _ else _) => destruct b end ];
  try unmoved_step.

Lemma unmoved_allocate_vmid d p q : unmoved d (allocate_vmid e h d p q).1.1.2.
Proof.
  unfold allocate_vmid, program_trap_handler_settings, program_sh_mem_settings.
  destruct (scan _ _ _) as [v|]; [|apply unmoved_refl]. cbv zeta. cbn [fst snd]. unmoved_log.
Qed.

Lemma unmoved_deallocate_vmid d p q : unmoved d (deallocate_vmid e h d p q).1.1.
Proof.
  unfold deallocate_vmid. cbv zeta. cbn [fst snd]. unmoved_log.
Qed.

Lemma allocate_vmid_lists d p q : same_lists p (allocate_vmid e h d p q).1.2.
Proof. unfold allocate_vmid. by destruct (scan _ _ _). Qed.

Lemma deallocate_vmid_lists d p q : same_lists p (deallocate_vmid e h d p q).1.2.
Proof. done. Qed.

Lemma unmoved_allocate_hqd d q : unmoved d (allocate_hqd e d q).1.2.
Proof.
  unfold allocate_hqd. destruct (hqd_loop _ _ _ _) as [[??]|]; [unmoved_step|apply unmoved_refl].
Qed.

Lemma unmoved_deallocate_hqd d q : unmoved d (deallocate_hqd d q).
Proof. unmoved_step. Qed.

Lemma unmoved_allocate_sdma d q r : unmoved d (allocate_sdma_queue e d q r).1.2.
Proof.
  unfold allocate_sdma_queue. destruct (qtype q); try apply unmoved_refl;
    destruct (take_sdma_id _ _ _) as [[??]?]; destruct (nz _);
    apply unmoved_refl || unmoved_step.
Qed.

Lemma unmoved_deallocate_sdma d q : unmoved d (deallocate_sdma_queue e d q).
Proof.
  unfold deallocate_sdma_queue. destruct (qtype q); try apply unmoved_refl;
    destruct (_ <=? _); apply unmoved_refl || unmoved_step.
Qed.

Lemma allocate_doorbell_lists p q r : same_lists p (allocate_doorbell e p q r).1.2.
Proof. unfold allocate_doorbell. by repeat case_match. Qed.

Lemma deallocate_doorbell_lists p q : same_lists p (deallocate_doorbell e p q).
Proof. unfold deallocate_doorbell. by case_match. Qed.

Lemma unmoved_hws_hang d : unmoved d (kfd_hws_hang d).
Proof. unfold kfd_hws_hang. simpl. destruct (negb _); unmoved_step. Qed.

Lemma unmoved_unmap d f fp g r : unmoved d (unmap_queues_cpsch h d f fp g r).2.
Proof.
  unfold unmap_queues_cpsch, kfd_hws_hang.
  destruct (g =? USE_DEFAULT_GRACE_PERIOD); simpl; repeat case_match; unmoved_step.
Qed.

Lemma unmoved_map d : unmoved d (map_queues_cpsch h d).2.
Proof. unfold map_queues_cpsch. simpl. repeat case_match; unmoved_step. Qed.

Lemma unmoved_execute d f fp g : unmoved d (execute_queues_cpsch h d f fp g).2.
Proof.
  unfold execute_queues_cpsch. destruct (is_hws_hang d); [apply unmoved_refl|].
  pose proof (unmoved_unmap d f fp g false) as Hu.
  destruct (unmap_queues_cpsch _ _ _ _ _ _) as [r d1]. simpl in Hu.
  destruct (nz r); simpl; [done|]. eapply unmoved_trans; [done|apply unmoved_map].
Qed.

Lemma unmoved_execute_dynamic d : unmoved d (execute_dynamic h d).2.
Proof. apply unmoved_execute. Qed.

Lemma unmoved_add_mes d q : unmoved d (add_queue_mes h d q).2.
Proof. unfold add_queue_mes, kfd_hws_hang. simpl. repeat case_match; unmoved_step. Qed.

Lemma unmoved_remove_mes d q : unmoved d (remove_queue_mes h d q).2.
Proof. unfold remove_queue_mes, kfd_hws_hang. simpl. repeat case_match; unmoved_step. Qed.
End Counts.

Create HintDb kcounts.
#[export] Hint Resolve unmoved_refl unmoved_allocate_vmid unmoved_deallocate_vmid
  unmoved_allocate_hqd unmoved_deallocate_hqd unmoved_allocate_sdma unmoved_deallocate_sdma
  unmoved_unmap unmoved_map unmoved_execute unmoved_execute_dynamic unmoved_add_mes
  unmoved_remove_mes allocate_vmid_lists deallocate_vmid_lists allocate_doorbell_lists
  deallocate_doorbell_lists increment_lists decrement_lists increment_moved decrement_moved
  : kcounts.

(** ** Queues in the lists of a process *)

Definition addrs (l : list queue) : list Z := q_addr <$> l.

Lemma list_del_fresh q l : q_addr q ∉ addrs l → list_del q l = l.
Proof.
  unfold list_del, addrs. induction l as [|x l IH]; [done|].
  rewrite fmap_cons, not_elem_of_cons. intros [Hx Hl].
  rewrite filter_cons_True by congruence. by rewrite IH.
Qed.

Lemma list_del_cons q l : q_addr q ∉ addrs l → list_del q (q :: l) = l.
Proof.
  intros H. unfold list_del. rewrite filter_cons_False by (intros Hn; by apply Hn).
  by apply list_del_fresh.
Qed.

Lemma list_update_cons q x l :
  list_update q (x :: l) = (if q_addr x =? q_addr q then q else x) :: list_update q l.
Proof. done. Qed.

Lemma list_update_fresh q l : q_addr q ∉ addrs l → list_update q l = l.
Proof.
  unfold list_update, addrs. induction l as [|x l IH]; [done|].
  rewrite !fmap_cons, not_elem_of_cons. intros [Hx Hl]. rewrite IH by done.
  by rewrite (proj2 (Z.eqb_neq _ _)) by congruence.
Qed.

Lemma addrs_list_update q l : addrs (list_update q l) = addrs l.
Proof.
  unfold list_update, addrs. induction l as [|x l IH]; [done|]. rewrite !fmap_cons, IH.
  by destruct (Z.eqb_spec (q_addr x) (q_addr q)) as [->|].
Qed.

Lemma addrs_list_del q l : NoDup (addrs l) → NoDup (addrs (list_del q l)).
Proof.
  unfold list_del, addrs. induction l as [|x l IH]; [done|].
  rewrite fmap_cons, NoDup_cons. intros [Hx Hl]. rewrite filter_cons.
  case_decide; [|by apply IH]. rewrite fmap_cons, NoDup_cons. split; [|by apply IH].
  rewrite list_elem_of_fmap. intros (y & Hy & Hin).
  apply list_elem_of_filter in Hin as [_ Hin]. apply Hx. rewrite list_elem_of_fmap. by exists y.
Qed.

Lemma count_list_del f q l :
  NoDup (addrs l) → q ∈ l → count f (list_del q l) = count f l - b2z (f q).
Proof.
  unfold addrs. induction l as [|x l IH]; [by rewrite elem_of_nil|].
  rewrite fmap_cons, NoDup_cons, elem_of_cons. intros [Hx Hl] [->|Hin].
  - rewrite list_del_cons by done. simpl. lia.
  - unfold list_del. rewrite filter_cons_True.
    + simpl. fold (list_del q l). rewrite IH by done. lia.
    + intros Heq. apply Hx. rewrite Heq. by apply list_elem_of_fmap_2.
Qed.

Lemma count_list_update f q0 q l :
  NoDup (addrs l) → q0 ∈ l → q_addr q = q_addr q0 →
  count f (list_update q l) = count f l - b2z (f q0) + b2z (f q).
Proof.
  unfold addrs. induction l as [|x l IH]; [by rewrite elem_of_nil|].
  rewrite fmap_cons, NoDup_cons, elem_of_cons. intros [Hx Hl] [->|Hin] Ha.
  - rewrite list_update_cons, list_update_fresh by (rewrite Ha; done).
    rewrite (proj2 (Z.eqb_eq _ _)) by done. simpl. lia.
  - rewrite list_update_cons. simpl. rewrite IH by done.
    rewrite (proj2 (Z.eqb_neq _ _)); [lia|].
    intros Heq. apply Hx. rewrite Heq, Ha. by apply list_elem_of_fmap_2.
Qed.

(** What a replaced, added or removed queue does to the four quantities. *)
Definition delta_cons (p p' : qcm_process_device) (q : queue) (s : Z) : Prop :=
  load_active p' = load_active p + s * b2z (qactive q) ∧
  load_cp p' = load_cp p + s * b2z (qactive q && counts_as_cp q) ∧
  load_gws p' = load_gws p + s * b2z (qactive q && is_gws (properties q)) ∧
  load_total p' = load_total p + s.

Ltac unfold_loads := unfold load_active, load_cp, load_gws, load_total.

Lemma delta_push p p' q :
  queues_list p' = q :: queues_list p → priv_queue_list p' = priv_queue_list p →
  delta_cons p p' q 1.
Proof. intros Hq Hp. unfold delta_cons. unfold_loads. rewrite Hq, Hp. simpl. lia. Qed.

Lemma delta_pop p p' q :
  NoDup (addrs (queues_list p)) → q ∈ queues_list p →
  queues_list p' = list_del q (queues_list p) → priv_queue_list p' = priv_queue_list p →
  delta_cons p p' q (-1).
Proof.
  intros Hnd Hin Hq Hp. unfold delta_cons. unfold_loads. rewrite Hq, Hp.
  rewrite !count_list_del by done. simpl. lia.
Qed.

Lemma load_update p p' q0 q :
  NoDup (addrs (queues_list p)) → q0 ∈ queues_list p → q_addr q = q_addr q0 →
  queues_list p' = list_update q (queues_list p) → priv_queue_list p' = priv_queue_list p →
  load_active p' = load_active p - b2z (qactive q0) + b2z (qactive q) ∧
  load_cp p' = load_cp p - b2z (qactive q0 && counts_as_cp q0) + b2z (qactive q && counts_as_cp q) ∧
  load_gws p' = load_gws p - b2z (qactive q0 && is_gws (properties q0))
                + b2z (qactive q && is_gws (properties q)) ∧
  load_total p' = load_total p.
Proof.
  intros Hnd Hin Ha Hq Hp. unfold_loads. rewrite Hq, Hp.
  rewrite !(count_list_update _ q0) by done. simpl. lia.
Qed.

(** What the allocators keep of a queue. *)
Definition keeps (q q' : queue) : Prop :=
  q_addr q' = q_addr q ∧ qtype q' = qtype q ∧
  queue_id (properties q') = queue_id (properties q).

Lemma keeps_refl q : keeps q q.
Proof. done. Qed.
Lemma keeps_trans q1 q2 q3 : keeps q1 q2 → keeps q2 q3 → keeps q1 q3.
Proof. intros (? & ? & ?) (? & ? & ?). split_and!; congruence. Qed.

(** Fields of the process that creation and destruction leave alone. *)
Definition same_rest (p p' : qcm_process_device) : Prop :=
  evicted p' = evicted p ∧ drm_priv p' = drm_priv p.

Lemma same_rest_trans p1 p2 p3 : same_rest p1 p2 → same_rest p2 p3 → same_rest p1 p3.
Proof. intros [? ?] [? ?]. split; congruence. Qed.

Lemma increment_rest d p q : same_rest p (increment_queue_count d p q).2.
Proof. unfold increment_queue_count. by destruct (is_gws _). Qed.
Lemma decrement_rest d p q : same_rest p (decrement_queue_count d p q).2.
Proof. unfold decrement_queue_count. by destruct (is_gws _). Qed.

Lemma allocate_vmid_keeps e h d p q :
  keeps q (allocate_vmid e h d p q).2 ∧ same_rest p (allocate_vmid e h d p q).1.2.
Proof. unfold allocate_vmid. by destruct (scan _ _ _). Qed.

Lemma allocate_hqd_keeps e d q : keeps q (allocate_hqd e d q).2.
Proof. unfold allocate_hqd. by destruct (hqd_loop _ _ _ _) as [[??]|]. Qed.

Lemma allocate_sdma_keeps e d q r : keeps q (allocate_sdma_queue e d q r).2.
Proof.
  unfold allocate_sdma_queue. destruct (qtype q) eqn:E; try done;
    destruct (take_sdma_id _ _ _) as [[??]?]; by destruct (nz _).
Qed.

Lemma allocate_doorbell_keeps e p q r :
  keeps q (allocate_doorbell e p q r).2 ∧ same_rest p (allocate_doorbell e p q r).1.2.
Proof. unfold allocate_doorbell. by repeat case_match. Qed.

Lemma deallocate_doorbell_rest e p q : same_rest p (deallocate_doorbell e p q).
Proof. unfold deallocate_doorbell. by case_match. Qed.

(** ** Creation of a queue *)

Section Create.
Context (e : dev_env) (h : hw_env).

(** A queue that is evicted or suspended is not active. *)
Definition idle (q : queue) : Prop :=
  is_evicted (properties q) || is_suspended (properties q) = true → qactive q = false.

(** Either nothing happened but log entries and an error code, or the queue was
    added and the counters moved with it; a queue created for an evicted process
    is marked evicted and inactive. *)
Definition create_outcome (d : device_queue_manager) (p : qcm_process_device) (q : queue)
    (res : Z * device_queue_manager * qcm_process_device * queue) : Prop :=
  let '(r, d', p', q') := res in
  keeps q q' ∧ same_rest p p' ∧ priv_queue_list p' = priv_queue_list p ∧
  (r ≠ 0 ∧ queues_list p' = queues_list p ∧ unmoved d d' ∨
   r = 0 ∧ queues_list p' = q' :: queues_list p ∧ tracks d p d' p' ∧
   (evicted p ≠ 0 → is_evicted (properties q') = true) ∧ idle q').

(** An intermediate state of the creation. *)
Record pending (d : device_queue_manager) (p : qcm_process_device) (q : queue)
    (d' : device_queue_manager) (p' : qcm_process_device) (q' : queue) : Prop := {
  pending_moved : unmoved d d';
  pending_lists : same_lists p p';
  pending_rest : same_rest p p';
  pending_keeps : keeps q q';
}.

Lemma pending_fail d p q d' p' q' r :
  r ≠ 0 → pending d p q d' p' q' → create_outcome d p q (r, d', p', q').
Proof. intros Hr [? [? ?] ? ?]. split_and!; [done..|]. by left. Qed.

Lemma pending_refl d p q : pending d p q d p q.
Proof. split; done || apply unmoved_refl. Qed.

Lemma pending_set_props f d p q d' p' q' :
  (∀ x, type (f x) = type x ∧ queue_id (f x) = queue_id x) → pending d p q d' p' q' →
  pending d p q d' p' (set_props f q').
Proof.
  intros Hf [? ? ? (? & ? & ?)]. split; [done..|].
  unfold keeps, qtype, set_props in *. simpl. by destruct (Hf (properties q')) as [-> ->].
Qed.

Lemma pending_emit ev d p q d' p' q' :
  pending d p q d' p' q' → pending d p q (emit ev d') p' q'.
Proof. intros []. split; [by apply unmoved_emit|done..]. Qed.

Lemma pending_allocate_vmid d p q :
  let '(_, d', p', q') := allocate_vmid e h d p q in pending d p q d' p' q'.
Proof.
  pose proof (unmoved_allocate_vmid e h d p q). pose proof (allocate_vmid_lists e h d p q).
  destruct (allocate_vmid_keeps e h d p q).
  destruct (allocate_vmid _ _ _ _ _) as [[[??]?]?]. by split.
Qed.

Lemma pending_deallocate_vmid d p q d' p' q' :
  pending d p q d' p' q' →
  let '(d', p', q') := deallocate_vmid e h d' p' q' in pending d p q d' p' q'.
Proof.
  intros [Hm Hl Hr Hk]. pose proof (unmoved_deallocate_vmid e h d' p' q').
  unfold deallocate_vmid in *. cbv zeta in *. split; try done. by eapply unmoved_trans.
Qed.

Lemma pending_deallocate_slot d p q d' p' q' :
  pending d p q d' p' q' →
  pending d p q (if is_type (qtype q') KFD_QUEUE_TYPE_COMPUTE then deallocate_hqd d' q'
                 else if is_sdma q' then deallocate_sdma_queue e d' q' else d') p' q'.
Proof.
  intros [Hm ? ? ?]. split; [|done..]. eapply unmoved_trans; [done|].
  destruct (is_type _ _); [apply unmoved_deallocate_hqd|].
  destruct (is_sdma _); [apply unmoved_deallocate_sdma|apply unmoved_refl].
Qed.

Lemma pending_deallocate_sdma d p q d' p' q' :
  pending d p q d' p' q' →
  pending d p q (if is_sdma q' then deallocate_sdma_queue e d' q' else d') p' q'.
Proof.
  intros [Hm ? ? ?]. split; [|done..]. eapply unmoved_trans; [done|].
  destruct (is_sdma _); [apply unmoved_deallocate_sdma|apply unmoved_refl].
Qed.

Lemma pending_deallocate_doorbell d p q d' p' q' x :
  pending d p q d' p' q' → pending d p q d' (deallocate_doorbell e p' x) q'.
Proof.
  intros [? [Hl1 Hl2] Hr ?]. destruct (deallocate_doorbell_lists e p' x) as [Hx1 Hx2].
  split; [done|by split; congruence| |done].
  eapply same_rest_trans; [done|apply deallocate_doorbell_rest].
Qed.

Lemma pending_allocate_doorbell d p q d' p' q' c :
  pending d p q d' p' q' →
  let '(_, p', q') := allocate_doorbell e p' q' c in pending d p q d' p' q'.
Proof.
  intros [? [Hl1 Hl2] Hr ?]. destruct (allocate_doorbell_lists e p' q' c) as [Hx1 Hx2].
  destruct (allocate_doorbell_keeps e p' q' c) as [Hk Hs].
  destruct (allocate_doorbell _ _ _ _) as [[??]?]; simpl in *.
  split; [done|by split; congruence|by eapply same_rest_trans|by eapply keeps_trans].
Qed.

Lemma pending_allocate_sdma d p q d' p' q' c :
  pending d p q d' p' q' →
  let '(_, d', q') := allocate_sdma_queue e d' q' c in pending d p q d' p' q'.
Proof.
  intros [? ? ? ?]. pose proof (unmoved_allocate_sdma e d' q' c).
  pose proof (allocate_sdma_keeps e d' q' c).
  destruct (allocate_sdma_queue _ _ _ _) as [[??]?]; simpl in *.
  split; [by eapply unmoved_trans|done|done|by eapply keeps_trans].
Qed.

Lemma pending_allocate_hqd d p q d' p' q' :
  pending d p q d' p' q' →
  let '(_, d', q') := allocate_hqd e d' q' in pending d p q d' p' q'.
Proof.
  intros [? ? ? ?]. pose proof (unmoved_allocate_hqd e d' q').
  pose proof (allocate_hqd_keeps e d' q').
  destruct (allocate_hqd _ _ _) as [[??]?]; simpl in *.
  split; [by eapply unmoved_trans|done|done|by eapply keeps_trans].
Qed.

(** The increment of an active queue, as part of the load. *)
Lemma increment_active d p q :
  let '(d', p') := if qactive q then increment_queue_count d p q else (d, p) in
  moved d d' (b2z (qactive q)) (b2z (qactive q && counts_as_cp q))
    (b2z (qactive q && is_gws (properties q))) 0 ∧ same_lists p p' ∧ same_rest p p'.
Proof.
  destruct (qactive q); simpl; [|by split; [apply moved_refl|]].
  pose proof (increment_moved d p q). pose proof (increment_lists d p q).
  pose proof (increment_rest d p q). by destruct (increment_queue_count d p q).
Qed.

Lemma decrement_active d p q :
  let '(d', p') := if qactive q then decrement_queue_count d p q else (d, p) in
  moved d d' (- b2z (qactive q)) (- b2z (qactive q && counts_as_cp q))
    (- b2z (qactive q && is_gws (properties q))) 0 ∧ same_lists p p' ∧ same_rest p p'.
Proof.
  destruct (qactive q); simpl; [|by split; [apply moved_refl|]].
  pose proof (decrement_moved d p q). pose proof (decrement_lists d p q).
  pose proof (decrement_rest d p q). by destruct (decrement_queue_count d p q).
Qed.

Lemma moved_inc_total d :
  moved d (d <| total_queue_count ::= λ n, u32 (n + 1) |>) 0 0 0 1.
Proof. solve_moved. Qed.
Lemma moved_dec_total d :
  moved d (d <| total_queue_count ::= λ n, u32 (n - 1) |>) 0 0 0 (-1).
Proof. solve_moved. Qed.

(** A pushed queue whose counters moved. *)
Lemma pushed_outcome d p q d' p' q' dm p1 d2 p2 :
  pending d p q d' p' q' →
  (evicted p ≠ 0 → is_evicted (properties q') = true) → idle q' →
  queues_list p1 = q' :: queues_list p' → priv_queue_list p1 = priv_queue_list p' →
  same_rest p' p1 →
  moved d' dm (b2z (qactive q')) (b2z (qactive q' && counts_as_cp q'))
    (b2z (qactive q' && is_gws (properties q'))) 0 →
  same_lists p1 p2 → same_rest p1 p2 → unmoved dm d2 →
  create_outcome d p q (0, d2 <| total_queue_count ::= λ n, u32 (n + 1) |>, p2, q').
Proof.
  intros [Hu [Hl1 Hl2] Hr Hk] Hev Hidle Hq Hp Hrest1 Hm [Hs1 Hs2] Hrest2 Hu2.
  split_and!; [done|destruct Hr, Hrest1, Hrest2; split; congruence|congruence|].
  right. split_and!; [done|congruence| |done..].
  destruct (delta_push p p2 q') as (Da & Dc & Dg & Dt); [congruence|congruence|].
  eapply tracks_moved.
  - eapply moved_trans; [exact Hu|]. eapply moved_trans; [exact Hm|].
    eapply moved_trans; [exact Hu2|]. apply moved_inc_total.
  - lia.
  - lia.
  - lia.
  - lia.
Qed.

Lemma fail_deallocate_vmid d p q r d' p' q' :
  r ≠ 0 → pending d p q d' p' q' →
  create_outcome d p q
    (if list_empty (queues_list p') then
       let '(d, p, q) := deallocate_vmid e h d' p' q' in (r, d, p, q)
     else (r, d', p', q')).
Proof.
  intros Hr Hp. destruct (list_empty _); [|by apply pending_fail].
  apply pending_deallocate_vmid in Hp. destruct (deallocate_vmid _ _ _ _ _) as [[??]?].
  by apply pending_fail.
Qed.

Lemma allocate_sdma_evicted d q c :
  is_evicted (properties (allocate_sdma_queue e d q c).2) = is_evicted (properties q).
Proof.
  unfold allocate_sdma_queue. destruct (qtype q); try done;
    destruct (take_sdma_id _ _ _) as [[??]?]; by destruct (nz _).
Qed.
Lemma allocate_hqd_evicted d q :
  is_evicted (properties (allocate_hqd e d q).2) = is_evicted (properties q).
Proof. unfold allocate_hqd. by destruct (hqd_loop _ _ _ _) as [[??]|]. Qed.
Lemma allocate_doorbell_evicted p q r :
  is_evicted (properties (allocate_doorbell e p q r).2) = is_evicted (properties q).
Proof. unfold allocate_doorbell. by repeat case_match. Qed.

(** The MQD manager leaves an evicted queue inactive. *)
Definition init_or_restore (qd : option criu_queue_data) (d : device_queue_manager) (q : queue)
    : device_queue_manager * queue :=
  match qd with
  | Some _ => (emit (EvRestoreMqd (q_addr q)) d, mqd_restored q)
  | None => (emit (EvInitMqd (q_addr q)) d, mqd_refresh q)
  end.

Lemma pending_init_or_restore d p q d' p' q' qd :
  pending d p q d' p' q' →
  let '(d', q') := init_or_restore qd d' q' in pending d p q d' p' q'.
Proof.
  intros H. destruct qd; simpl; apply pending_emit; by apply pending_set_props.
Qed.

Lemma init_or_restore_evicted qd d q :
  is_evicted (properties (init_or_restore qd d q).2) = is_evicted (properties q) ∧
  idle (init_or_restore qd d q).2.
Proof.
  destruct qd; simpl; split; try done. unfold idle, qactive; simpl. unfold QUEUE_IS_ACTIVE.
  intros [H|H]%orb_true_iff; rewrite H; simpl; [rewrite andb_false_r; done|apply andb_false_r].
Qed.

(** The slot of a queue: a hardware slot, an SDMA id or nothing. *)
Definition take_slot (d : device_queue_manager) (q : queue) (qd : option criu_queue_data)
    : Z * device_queue_manager * queue :=
  if is_type (qtype q) KFD_QUEUE_TYPE_COMPUTE then allocate_hqd e d q
  else if is_sdma q then
    let '(r, d, q) := allocate_sdma_queue e d q (criu_sdma_id <$> qd) in
    (r, if nz r then d else emit (EvInitSdmaVm (q_addr q)) d, q)
  else (0, d, q).

Lemma pending_take_slot d p q d' p' q' qd :
  pending d p q d' p' q' →
  let '(_, d'', q'') := take_slot d' q' qd in
  pending d p q d'' p' q'' ∧ is_evicted (properties q'') = is_evicted (properties q').
Proof.
  intros H. unfold take_slot. destruct (is_type _ _).
  - pose proof (allocate_hqd_evicted d' q'). apply pending_allocate_hqd in H.
    by destruct (allocate_hqd _ _ _) as [[??]?].
  - destruct (is_sdma q'); [|done].
    pose proof (allocate_sdma_evicted d' q' (criu_sdma_id <$> qd)).
    apply (pending_allocate_sdma _ _ _ _ _ _ (criu_sdma_id <$> qd)) in H.
    destruct (allocate_sdma_queue _ _ _ _) as [[r ?]?].
    split; [|done]. destruct (nz r); [done|by apply pending_emit].
Qed.

Lemma undo_hqd_outcome d p q r d' p' q' :
  r ≠ 0 → pending d p q d' p' q' → create_outcome d p q (undo_hqd_nocpsch e h r d' p' q').
Proof. intros. apply fail_deallocate_vmid; [done|]. by apply pending_deallocate_slot. Qed.

Lemma undo_doorbell_outcome d p q r d' p' q' :
  r ≠ 0 → pending d p q d' p' q' → create_outcome d p q (undo_doorbell_nocpsch e h r d' p' q').
Proof. intros. apply undo_hqd_outcome; [done|]. by apply pending_deallocate_doorbell. Qed.

(** The first section of a creation: it failed, or nothing that counts changed
    and the queue shows whether the process is evicted. *)
Definition begin_outcome (d : device_queue_manager) (p : qcm_process_device) (q : queue)
    (step : create_step) : Prop :=
  match step with
  | inl res => create_outcome d p q res ∧ res.1.1.1 ≠ 0
  | inr (d', p', q') => pending d p q d' p' q'
  end.

Lemma create_outcome_nz_intro (r : Z) d p q d' p' q' :
  r ≠ 0 → pending d p q d' p' q' →
  create_outcome d p q (r, d', p', q') ∧ (r, d', p', q').1.1.1 ≠ 0.
Proof. intros. split; [by apply pending_fail|done]. Qed.

Lemma undo_vmid_code r d p q : (undo_vmid_nocpsch e h r d p q).1.1.1 = r.
Proof.
  unfold undo_vmid_nocpsch. destruct (list_empty _); [|done].
  by destruct (deallocate_vmid _ _ _ _ _) as [[??]?].
Qed.

Lemma create_queue_nocpsch_begin_outcome d q p qd :
  begin_outcome d p q (create_queue_nocpsch_begin e h d q p qd) ∧
  ∀ d' p' q', create_queue_nocpsch_begin e h d q p qd = inr (d', p', q') →
    is_evicted (properties q') = nz (evicted p').
Proof.
  unfold create_queue_nocpsch_begin.
  destruct (_ <=? _). { split; [|done]. apply create_outcome_nz_intro; [done|apply pending_refl]. }
  assert (let '(r, d', p', q') := if list_empty (queues_list p) then allocate_vmid e h d p q
            else (0, d, p, q) in pending d p q d' p' q') as H1.
  { destruct (list_empty _); [apply pending_allocate_vmid|apply pending_refl]. }
  destruct (if list_empty (queues_list p) then _ else _) as [[[r1 d1] p1] q1].
  destruct (nz r1) eqn:Hr1; [bool_to_Prop; split; [by apply create_outcome_nz_intro|done]|].
  set (f := λ pr : queue_properties, _). set (q1' := set_props f q1). cbv zeta.
  assert (H1' : pending d p q d1 p1 q1') by (by apply pending_set_props).
  assert (Hev1 : is_evicted (properties q1') = nz (evicted p1)) by done.
  clearbody q1'. clear f H1 q1.
  fold (take_slot d1 q1' qd). apply (pending_take_slot _ _ _ _ _ _ qd) in H1'.
  destruct (take_slot d1 q1' qd) as [[r2 d2] q2]. destruct H1' as [H2 Hev2].
  destruct (nz r2) eqn:Hr2.
  { bool_to_Prop. split; [|done]. split; [by apply fail_deallocate_vmid|by rewrite undo_vmid_code]. }
  pose proof (allocate_doorbell_evicted p1 q2 (criu_doorbell_id <$> qd)) as Hev3.
  destruct (allocate_doorbell_keeps e p1 q2 (criu_doorbell_id <$> qd)) as [_ [Hev4 _]].
  apply (pending_allocate_doorbell _ _ _ _ _ _ (criu_doorbell_id <$> qd)) in H2.
  destruct (allocate_doorbell _ _ _ _) as [[r3 p3] q3]. simpl in Hev3, Hev4.
  destruct (nz r3) eqn:Hr3.
  { bool_to_Prop. split; [|done].
    split; [by apply undo_hqd_outcome|]. unfold undo_hqd_nocpsch. by rewrite undo_vmid_code. }
  split; [done|]. intros ??? [= <- <- <-]. congruence.
Qed.

Lemma create_queue_nocpsch_end_outcome d q p qd :
  (evicted p ≠ 0 → is_evicted (properties q) = true) →
  create_outcome d p q (create_queue_nocpsch_end e h d q p qd).
Proof.
  intros Hev. unfold create_queue_nocpsch_end. pose proof (pending_refl d p q) as H2.
  destruct (negb (hw_allocate_mqd _ _ _)); [by apply undo_doorbell_outcome|].
  fold (init_or_restore qd d q). destruct (init_or_restore_evicted qd d q) as [Hev4 Hina].
  apply (pending_init_or_restore _ _ _ _ _ _ qd) in H2.
  destruct (init_or_restore qd d q) as [d4 q4]. simpl in Hev4, Hina.
  assert (Hadd : ∀ d', pending d p q d' p q4 →
    create_outcome d p q
      (let p0 := p <| queues_list ::= cons q4 |> <| queue_count ::= λ n, u32 (n + 1) |> in
       let '(d0, p1) := if qactive q4 then increment_queue_count d' p0 q4 else (d', p0) in
       (0, d0 <| total_queue_count ::= λ n, u32 (n + 1) |>, p1, q4))).
  { intros d' Hp. cbv zeta. set (p0 := p <| _ ::= _ |> <| _ ::= _ |>).
    pose proof (increment_active d' p0 q4) as Hinc.
    destruct (if qactive q4 then _ else _) as [d5 p5]. destruct Hinc as (Hm & Hl & Hr).
    eapply (pushed_outcome _ _ _ _ p _ _ p0); [exact Hp| |done..|apply unmoved_refl].
    by rewrite Hev4. }
  destruct (qactive q4) eqn:Ha; [|by apply Hadd].
  destruct (negb (sched_running d4)); [by apply Hadd|].
  destruct (if negb (hw_same_mm h) then _ else _) as [r5 d5] eqn:E5.
  assert (pending d p q d5 p q4).
  { destruct (negb (hw_same_mm h)); simplify_eq; [done|by apply pending_emit]. }
  destruct (nz r5) eqn:Hr5; [|by apply Hadd].
  bool_to_Prop. apply undo_doorbell_outcome; [done|]. by apply pending_emit.
Qed.

(** The two sections one after the other. *)
Lemma pending_outcome d p q d1 p1 q1 res :
  pending d p q d1 p1 q1 → create_outcome d1 p1 q1 res → create_outcome d p q res.
Proof.
  destruct res as [[[r d2] p2] q2].
  intros [Hm [Hl1 Hl2] [He Hd] Hk] (Hk' & Hr' & Hp' & Hout).
  split_and!; [by eapply keeps_trans|by eapply same_rest_trans|congruence|].
  destruct Hout as [(? & Hl & ?)|(? & Hl & Ht & Hev & ?)]; [left|right].
  - split_and!; [done|congruence|by eapply unmoved_trans].
  - split_and!; [done|congruence| |by rewrite <- He|done].
    eapply tracks_trans; [|exact Ht]. by apply tracks_same.
Qed.

Lemma create_queue_nocpsch_outcome d q p qd :
  create_outcome d p q (create_queue_nocpsch e h d q p qd).
Proof.
  unfold create_queue_nocpsch.
  destruct (create_queue_nocpsch_begin_outcome d q p qd) as [Hb Hev].
  destruct (create_queue_nocpsch_begin e h d q p qd) as [res|[[d1 p1] q1]]; [apply Hb|].
  eapply pending_outcome; [exact Hb|]. apply create_queue_nocpsch_end_outcome.
  intros Hnz. rewrite (Hev _ _ _ eq_refl). by apply nz_true.
Qed.

Lemma fail_deallocate_sdma d p q r d' p' q' :
  r ≠ 0 → pending d p q d' p' q' →
  create_outcome d p q (r, if is_sdma q' then deallocate_sdma_queue e d' q' else d', p', q').
Proof. intros. apply pending_fail; [done|]. by apply pending_deallocate_sdma. Qed.

(** The submission of a new active queue: the runlist or the MES. *)
Lemma unmoved_submit d q :
  unmoved d (if negb (enable_mes e) then execute_dynamic h d else add_queue_mes h d q).2.
Proof.
  destruct (negb _); [apply unmoved_execute_dynamic|apply unmoved_add_mes].
Qed.

Lemma undo_doorbell_cpsch_outcome d p q r d' p' q' :
  r ≠ 0 → pending d p q d' p' q' → create_outcome d p q (undo_doorbell_cpsch e r d' p' q').
Proof. intros. apply fail_deallocate_sdma; [done|]. by apply pending_deallocate_doorbell. Qed.

Lemma create_queue_cpsch_begin_outcome d q p qd :
  begin_outcome d p q (create_queue_cpsch_begin e h d q p qd).
Proof.
  unfold create_queue_cpsch_begin, create_queue_cpsch_checked.
  destruct (_ <=? _). { apply create_outcome_nz_intro; [done|apply pending_refl]. }
  assert (let '(_, d', q') := if is_sdma q then allocate_sdma_queue e d q (criu_sdma_id <$> qd)
                              else (0, d, q) in pending d p q d' p q') as H1.
  { destruct (is_sdma q); [apply pending_allocate_sdma|]; apply pending_refl. }
  destruct (if is_sdma q then _ else _) as [[r1 d1] q1].
  destruct (nz r1) eqn:Hr1; [bool_to_Prop; by apply create_outcome_nz_intro|].
  apply (pending_allocate_doorbell _ _ _ _ _ _ (criu_doorbell_id <$> qd)) in H1.
  destruct (allocate_doorbell _ _ _ _) as [[r2 p2] q2].
  destruct (nz r2) eqn:Hr2; [bool_to_Prop; split; [by apply fail_deallocate_sdma|done]|]. cbv zeta.
  set (d2 := if is_sdma q2 then _ else _). set (q3 := set_props _ q2).
  assert (H2 : pending d p q d2 p2 q3).
  { apply pending_set_props; [done|]. subst d2. destruct (is_sdma q2); [by apply pending_emit|done]. }
  destruct (negb (hw_allocate_mqd _ _ _)); [|done].
  split; [by apply undo_doorbell_cpsch_outcome|done].
Qed.

Lemma create_queue_cpsch_end_outcome d q p qd :
  q_addr q ∉ addrs (queues_list p) →
  create_outcome d p q (create_queue_cpsch_end e h d q p qd).
Proof.
  intros Hfresh. unfold create_queue_cpsch_end. cbv zeta. set (q4 := set_props _ q).
  assert (H4 : pending d p q d p q4) by (apply pending_set_props; [done|apply pending_refl]).
  assert (Hev : is_evicted (properties q4) = nz (evicted p)) by done.
  clearbody q4.
  fold (init_or_restore qd d q4). destruct (init_or_restore_evicted qd d q4) as [Hev5 Hina].
  apply (pending_init_or_restore _ _ _ _ _ _ qd) in H4.
  destruct (init_or_restore qd d q4) as [d5 q5]. simpl in Hev5, Hina.
  set (p5 := p <| _ ::= _ |> <| _ ::= _ |>).
  assert (Hpush : queues_list p5 = q5 :: queues_list p) by done.
  assert (Hpriv : priv_queue_list p5 = priv_queue_list p) by done.
  assert (Hrest : same_rest p p5) by done. clearbody p5.
  assert (Hk : q_addr q5 = q_addr q) by apply H4.
  destruct (if qactive q5 then _ else _) as [[r6 d6] p6] eqn:E6.
  assert (∃ dm, moved d5 dm (b2z (qactive q5)) (b2z (qactive q5 && counts_as_cp q5))
            (b2z (qactive q5 && is_gws (properties q5))) 0 ∧ unmoved dm d6 ∧
            same_lists p5 p6 ∧ same_rest p5 p6) as (dm & Hm & Hu & Hl & Hr).
  { pose proof (increment_active d5 p5 q5) as Hinc. destruct (qactive q5).
    - destruct (increment_queue_count d5 p5 q5) as [dm pm]. destruct Hinc as (? & ? & ?).
      exists dm. pose proof (unmoved_submit dm q5) as Hs.
      destruct (if negb (enable_mes e) then _ else _) as [r d']. by simplify_eq.
    - simplify_eq. exists d6. split_and!; try done; apply Hinc || apply unmoved_refl. }
  destruct (nz r6) eqn:Hr6; bool_to_Prop.
  - set (p7 := p6 <| _ ::= _ |> <| _ ::= _ |>).
    pose proof (decrement_active d6 p7 q5) as Hdec.
    destruct (if qactive q5 then decrement_queue_count _ _ _ else _) as [d8 p8].
    destruct Hdec as (Hm8 & [Hl8 Hl8'] & Hr8). simpl in Hl8, Hl8'.
    apply undo_doorbell_cpsch_outcome; [done|]. apply pending_emit.
    destruct H4 as [Hu4 [_ Hl4] Hr4 Hk4]. destruct Hl as [Hl1 Hl2]. split; [| | |done].
    + eapply moved_eq.
      { eapply moved_trans; [exact Hu4|]. eapply moved_trans; [exact Hm|].
        eapply moved_trans; [exact Hu|]. exact Hm8. }
      all: lia.
    + split; [|congruence]. rewrite Hl8, Hl1, Hpush. rewrite list_del_cons; [done|].
      by rewrite Hk.
    + unfold same_rest in *. subst p7. simpl in *. intuition congruence.
  - rewrite Hr6. eapply (pushed_outcome _ _ _ _ p _ dm p5 d6 p6); try done.
    rewrite Hev5, Hev. intros Hnz. by apply nz_true.
Qed.

Lemma create_queue_cpsch_outcome d q p qd :
  q_addr q ∉ addrs (queues_list p) →
  create_outcome d p q (create_queue_cpsch e h d q p qd).
Proof.
  intros Hf. unfold create_queue_cpsch.
  pose proof (create_queue_cpsch_begin_outcome d q p qd) as Hb.
  destruct (create_queue_cpsch_begin e h d q p qd) as [res|[[d1 p1] q1]]; [apply Hb|].
  eapply pending_outcome; [exact Hb|]. apply create_queue_cpsch_end_outcome.
  destruct Hb as [_ [-> _] _ (-> & _)]. done.
Qed.
End Create.

(** ** Well-formed processes *)

Definition user_type (q : queue) : bool := has_hw_slot q.

(** The object of each queue is linked once, user queues have user types and are
    idle when stopped, and the queues of an evicted process are marked evicted.
    The hardware scheduler does not evict a process without a VM ([needs_vm]). *)
Record qpd_wf (needs_vm : bool) (p : qcm_process_device) : Prop := {
  wf_nodup : NoDup (addrs (queues_list p));
  wf_priv : NoDup (addrs (priv_queue_list p));
  wf_types : Forall (λ q, user_type q = true) (queues_list p);
  wf_idle : Forall idle (queues_list p);
  wf_evicted : evicted p ≠ 0 → (needs_vm = true → drm_priv p = true) →
    Forall (λ q, is_evicted (properties q) = true) (queues_list p);
  wf_width : in_width 32 (evicted p);
}.

(** What every operation does: the counters follow the queues and the process
    stays well-formed. *)
Definition sound (nv : bool) (d : device_queue_manager) (p : qcm_process_device)
    (d' : device_queue_manager) (p' : qcm_process_device) : Prop :=
  tracks d p d' p' ∧ qpd_wf nv p'.

Lemma sound_trans nv d1 p1 d2 p2 d3 p3 :
  sound nv d1 p1 d2 p2 → sound nv d2 p2 d3 p3 → sound nv d1 p1 d3 p3.
Proof. intros [? ?] [? ?]. split; [by eapply tracks_trans|done]. Qed.

Lemma wf_same nv p p' :
  qpd_wf nv p → same_lists p p' → same_rest p p' → qpd_wf nv p'.
Proof.
  intros [? ? ? ? ? ?] [Hl Hp] [He Hd].
  split; [by rewrite Hl|by rewrite Hp|by rewrite Hl|by rewrite Hl|by rewrite Hl, He, Hd|by rewrite He].
Qed.

Lemma sound_unmoved nv d p d' p' :
  qpd_wf nv p → unmoved d d' → same_lists p p' → same_rest p p' → sound nv d p d' p'.
Proof. intros. split; [by apply tracks_same|by eapply wf_same]. Qed.

Lemma wf_push nv p p' q :
  qpd_wf nv p → q_addr q ∉ addrs (queues_list p) → user_type q = true →
  (evicted p ≠ 0 → is_evicted (properties q) = true) → idle q →
  queues_list p' = q :: queues_list p → priv_queue_list p' = priv_queue_list p →
  same_rest p p' → qpd_wf nv p'.
Proof.
  intros [? ? ? ? ? ?] Hf Ht Hev Hi Hl Hp [He Hd]. split.
  - rewrite Hl. unfold addrs in *. simpl. by apply NoDup_cons.
  - by rewrite Hp.
  - rewrite Hl. by constructor.
  - rewrite Hl. by constructor.
  - rewrite Hl, He, Hd. constructor; auto.
  - by rewrite He.
Qed.

Lemma Forall_list_del (P : queue → Prop) q l : Forall P l → Forall P (list_del q l).
Proof.
  rewrite !Forall_forall. intros H x Hx. apply list_elem_of_filter in Hx as [_ Hx]. by apply H.
Qed.

Lemma wf_pop nv p p' q :
  qpd_wf nv p → queues_list p' = list_del q (queues_list p) →
  priv_queue_list p' = priv_queue_list p → same_rest p p' → qpd_wf nv p'.
Proof.
  intros [? ? ? ? ? ?] Hl Hp [He Hd]. split.
  - rewrite Hl. by apply addrs_list_del.
  - by rewrite Hp.
  - rewrite Hl. by apply Forall_list_del.
  - rewrite Hl. by apply Forall_list_del.
  - rewrite Hl, He, Hd. intros. apply Forall_list_del; auto.
  - by rewrite He.
Qed.

Lemma wf_update nv p p' q0 q :
  qpd_wf nv p → q0 ∈ queues_list p → keeps q0 q →
  is_evicted (properties q) = is_evicted (properties q0) →
  idle q →
  queues_list p' = list_update q (queues_list p) → priv_queue_list p' = priv_queue_list p →
  same_rest p p' → qpd_wf nv p'.
Proof.
  intros [? ? Ht ? Hev ?] Hin (Ha & Hty & _) He Hact Hl Hp [Hevp Hd].
  assert (Hall : ∀ P : queue → Prop, Forall P (queues_list p) → P q → Forall P (list_update q (queues_list p))).
  { intros P HP Hq. unfold list_update. apply Forall_fmap.
    eapply Forall_impl; [exact HP|]. intros x Hx. simpl. by destruct (_ =? _). }
  split.
  - by rewrite Hl, addrs_list_update.
  - by rewrite Hp.
  - rewrite Hl. apply Hall; [done|]. rewrite Forall_forall in Ht. specialize (Ht q0 Hin).
    unfold user_type, has_hw_slot, is_sdma in *. by rewrite Hty.
  - rewrite Hl. by apply Hall.
  - rewrite Hl, Hevp, Hd. intros Hnz Hv. specialize (Hev Hnz Hv). apply Hall; [done|].
    rewrite Forall_forall in Hev. rewrite He. by apply Hev.
  - by rewrite Hevp.
Qed.

(** A destroyed queue whose counters moved. *)
Lemma popped_sound nv d p q d' p' :
  qpd_wf nv p → q ∈ queues_list p →
  queues_list p' = list_del q (queues_list p) → priv_queue_list p' = priv_queue_list p →
  same_rest p p' →
  moved d d' (- b2z (qactive q)) (- b2z (qactive q && counts_as_cp q))
    (- b2z (qactive q && is_gws (properties q))) (-1) → sound nv d p d' p'.
Proof.
  intros Hwf Hin Hl Hp Hr Hm.
  destruct (delta_pop p p' q) as (Da & Dc & Dg & Dt); [apply (wf_nodup _ _ Hwf)|done..|].
  split; [eapply tracks_moved; [exact Hm|lia..]|by eapply wf_pop].
Qed.

Section Destroy.
Context (e : dev_env) (h : hw_env) (nv : bool).

Lemma create_sound d p q res :
  create_outcome d p q res → qpd_wf nv p → q_addr q ∉ addrs (queues_list p) →
  user_type q = true → sound nv d p res.1.1.2 res.1.2.
Proof.
  destruct res as [[[r d'] p'] q']. simpl.
  intros ((Ha & Ht & _) & Hr & Hp & [(_ & Hl & Hu)|(_ & Hl & Htr & Hev & Hi)]) Hwf Hf Hty.
  - by apply sound_unmoved.
  - split; [done|]. eapply (wf_push _ p _ q'); try done; [by rewrite Ha|].
    unfold user_type, has_hw_slot, is_sdma in *. by rewrite Ht.
Qed.

Lemma destroy_queue_nocpsch_locked_sound d p q :
  qpd_wf nv p → q ∈ queues_list p → sched_running d = true →
  let '(_, d', p', q') := destroy_queue_nocpsch_locked e h d p q in
  sound nv d p d' p' ∧ queues_list p' = list_del q (queues_list p) ∧ q_addr q' = q_addr q ∧
  sched_running d' = true.
Proof.
  intros Hwf Hin Hs. unfold destroy_queue_nocpsch_locked.
  assert (Hty : user_type q = true).
  { pose proof (wf_types _ _ Hwf) as Ht. rewrite Forall_forall in Ht. by apply Ht. }
  destruct (match qtype q with KFD_QUEUE_TYPE_COMPUTE => _ | _ => _ end) as [d1|] eqn:E1.
  2:{ unfold user_type, has_hw_slot, is_sdma in Hty. by destruct (qtype q). }
  assert (Hu1 : unmoved d d1).
  { destruct (qtype q); simplify_eq; apply unmoved_deallocate_hqd || apply unmoved_deallocate_sdma. }
  clear E1. cbv zeta. simpl sched_running. rewrite (moved_sched _ _ _ _ _ _ Hu1), Hs. cbn [negb].
  pose proof (moved_dec_total d1) as Ht1. set (d2 := d1 <| total_queue_count ::= _ |>) in *.
  set (ret := hw_destroy_mqd _ _ _).
  set (p1 := _ <| queues_list ::= _ |>).
  assert (Hp1 : queues_list p1 = list_del q (queues_list p) ∧
                priv_queue_list p1 = priv_queue_list p ∧ same_rest p p1).
  { destruct (deallocate_doorbell_lists e p q) as [Hl Hp].
    pose proof (deallocate_doorbell_rest e p q).
    subst p1. destruct (ret =? _); simpl; rewrite Hl, Hp; done. }
  clearbody p1 ret. destruct Hp1 as (Hl1 & Hp1 & Hr1).
  set (d3 := emit _ d2).
  assert (Hd3 : moved d d3 0 0 0 (-1)).
  { eapply moved_eq; [eapply moved_trans; [exact Hu1|]; eapply moved_trans; [exact Ht1|];
      by apply unmoved_emit, unmoved_refl|lia..]. }
  clearbody d3. clear Ht1 d2 Hu1 d1.
  destruct (if list_empty (queues_list p1) then _ else _) as [[d4 p4] q4] eqn:E4.
  assert (unmoved d3 d4 ∧ same_lists p1 p4 ∧ same_rest p1 p4 ∧
          qactive q4 = qactive q ∧ qtype q4 = qtype q ∧ q_addr q4 = q_addr q ∧
          is_gws (properties q4) = is_gws (properties q))
    as (Hu4 & [Hl4 Hp4] & Hr4 & Ha4 & Ht4 & Had & Hg4).
  { destruct (list_empty _); [|simplify_eq; split_and!; apply unmoved_refl || done].
    destruct (if reset_wavefronts p1 then _ else _) as [d5 p5] eqn:E5.
    assert (unmoved d3 d5 ∧ same_lists p1 p5 ∧ same_rest p1 p5) as (? & ? & ?).
    { destruct (reset_wavefronts p1); simplify_eq; split_and!; try done;
        [apply unmoved_emit|]; apply unmoved_refl. }
    pose proof (unmoved_deallocate_vmid e h d5 p5 q) as Hv. rewrite E4 in Hv. simpl in Hv.
    split; [by eapply unmoved_trans|]. unfold deallocate_vmid in E4. by simplify_eq. }
  set (p5 := p4 <| queue_count ::= _ |>).
  pose proof (decrement_active d4 p5 q4) as Hdec.
  destruct (if qactive q4 then _ else _) as [d6 p6]. destruct Hdec as (Hm & Hl6 & Hr6).
  assert (Hl : queues_list p6 = list_del q (queues_list p)).
  { destruct Hl6 as [-> _]. subst p5. simpl. congruence. }
  assert (Hm' : moved d d6 (- b2z (qactive q)) (- b2z (qactive q && counts_as_cp q))
            (- b2z (qactive q && is_gws (properties q))) (-1)).
  { unfold counts_as_cp in Hm. rewrite Ha4, Ht4, Hg4 in Hm.
    eapply moved_eq; [eapply moved_trans; [exact Hd3|]; eapply moved_trans; [exact Hu4|exact Hm]
      |unfold counts_as_cp; lia..]. }
  split_and!; [|done..|by rewrite (moved_sched _ _ _ _ _ _ Hm')].
  eapply popped_sound; try done.
  - destruct Hl6 as [_ ->]. subst p5. simpl. congruence.
  - unfold same_rest in *. subst p5. simpl in *. intuition congruence.
Qed.

Lemma sound_emit ev d p d' p' : sound nv d p d' p' → sound nv d p (emit ev d') p'.
Proof.
  intros [Ht ?]. split; [|done]. eapply moved_eq; [eapply moved_trans;
    [exact Ht|apply unmoved_emit, unmoved_refl]|lia..].
Qed.

Lemma destroy_queue_nocpsch_sound d p q :
  qpd_wf nv p → q ∈ queues_list p → sched_running d = true →
  sound nv d p (destroy_queue_nocpsch e h d p q).1.2 (destroy_queue_nocpsch e h d p q).2.
Proof.
  intros Hwf Hin Hs. unfold destroy_queue_nocpsch.
  pose proof (destroy_queue_nocpsch_locked_sound d p q Hwf Hin Hs) as H.
  destruct (destroy_queue_nocpsch_locked _ _ _ _ _) as [[[r d'] p'] q'].
  apply sound_emit. apply H.
Qed.

(** In place of the queue [q0] the list now shows [q]. *)
Lemma updated_sound d p d' p' q0 q :
  qpd_wf nv p → q0 ∈ queues_list p → keeps q0 q →
  is_evicted (properties q) = is_evicted (properties q0) →
  idle q →
  queues_list p' = list_update q (queues_list p) → priv_queue_list p' = priv_queue_list p →
  same_rest p p' →
  moved d d' (b2z (qactive q) - b2z (qactive q0))
    (b2z (qactive q && counts_as_cp q) - b2z (qactive q0 && counts_as_cp q0))
    (b2z (qactive q && is_gws (properties q)) - b2z (qactive q0 && is_gws (properties q0))) 0 →
  sound nv d p d' p'.
Proof.
  intros Hwf Hin Hk He Hact Hl Hp Hr Hm.
  destruct (load_update p p' q0 q) as (Da & Dc & Dg & Dt); [apply (wf_nodup _ _ Hwf)|done|apply Hk|done..|].
  split; [eapply tracks_moved; [exact Hm|lia..]|by eapply wf_update].
Qed.

Lemma list_update_elem q0 q l :
  q0 ∈ l → q_addr q = q_addr q0 → q ∈ list_update q l.
Proof.
  intros Hin Ha. unfold list_update. apply list_elem_of_fmap. exists q0.
  by rewrite Ha, Z.eqb_refl.
Qed.

(** What the other threads may have done while the caller slept. *)
Definition woken_sound (d : device_queue_manager) (p : qcm_process_device)
    (woken : option (device_queue_manager * qcm_process_device * queue)) : Prop :=
  match woken with
  | None => True
  | Some (d', p', q') => sound nv d p d' p' ∧ q' ∈ queues_list p'
  end.

Lemma wait_on_destroy_queue_sound woken d p q :
  qpd_wf nv p → q ∈ queues_list p → woken_sound d p woken →
  let '(r, d', p', q') := wait_on_destroy_queue woken d p q in
  sound nv d p d' p' ∧ q' ∈ queues_list p'.
Proof.
  intros Hwf Hin Hwk. unfold wait_on_destroy_queue.
  assert (sound nv d p d p) by (apply sound_unmoved; done || apply unmoved_refl).
  destruct (is_debug p); [done|]. cbv zeta. set (q' := set_props _ q).
  set (p' := p <| queues_list ::= _ |>).
  assert (sound nv d p d p' ∧ q' ∈ queues_list p').
  { split; [|by eapply list_update_elem].
    eapply (updated_sound d p d p' q q'); try done.
    { pose proof (wf_idle _ _ Hwf) as Hi. rewrite Forall_forall in Hi. exact (Hi q Hin). }
    eapply moved_eq; [apply moved_refl|unfold qactive, counts_as_cp, qtype; simpl; lia..]. }
  destruct (_ && _); [|done]. by destruct woken as [[[??]?]|].
Qed.

Lemma destroy_queue_cpsch_sound woken d p q :
  qpd_wf nv p → q ∈ queues_list p → woken_sound d p woken →
  sound nv d p (destroy_queue_cpsch e h woken d p q).1.1.2
    (destroy_queue_cpsch e h woken d p q).1.2.
Proof.
  intros Hwf Hin Hwk. unfold destroy_queue_cpsch.
  pose proof (wait_on_destroy_queue_sound woken d p q Hwf Hin Hwk) as Hw.
  destruct (wait_on_destroy_queue woken d p q) as [[[r1 d1] p1] q1]. destruct Hw as [Hs1 Hin1].
  destruct (nz r1); [done|]. destruct (is_debug p1); [done|]. cbv zeta.
  set (d2 := if is_sdma q1 then _ else _). set (p2 := _ <| queues_list ::= _ |> <| _ ::= _ |>).
  assert (Hu2 : unmoved d1 d2).
  { subst d2. destruct (is_sdma q1); [apply unmoved_deallocate_sdma|apply unmoved_refl]. }
  assert (Hp2 : queues_list p2 = list_del q1 (queues_list p1) ∧
                priv_queue_list p2 = priv_queue_list p1 ∧ same_rest p1 p2).
  { destruct (deallocate_doorbell_lists e p1 q1) as [Hl Hp].
    pose proof (deallocate_doorbell_rest e p1 q1). subst p2. simpl. by rewrite Hl, Hp. }
  clearbody p2 d2. destruct Hp2 as (Hl2 & Hp2 & Hr2).
  destruct (if qactive q1 then _ else _) as [[r6 d6] p6] eqn:E6.
  assert (∃ dm, moved d2 dm (- b2z (qactive q1)) (- b2z (qactive q1 && counts_as_cp q1))
            (- b2z (qactive q1 && is_gws (properties q1))) 0 ∧ unmoved dm d6 ∧
            same_lists p2 p6 ∧ same_rest p2 p6) as (dm & Hm & Hu & [Hl Hp] & Hr).
  { pose proof (decrement_active d2 p2 q1) as Hdec. destruct (qactive q1).
    - destruct (decrement_queue_count d2 p2 q1) as [dm pm]. destruct Hdec as (Hm & Hl & Hr).
      exists dm. destruct (negb (enable_mes e)).
      + pose proof (unmoved_execute_dynamic h dm) as Hu.
        destruct (execute_dynamic h dm) as [r d']. simplify_eq. split_and!; try done;
          destruct (r6 =? _); done.
      + pose proof (unmoved_remove_mes h dm q1) as Hu.
        destruct (remove_queue_mes h dm q1) as [r d']. by simplify_eq.
    - simplify_eq. exists d6. split_and!; try done; apply Hdec || apply unmoved_refl. }
  simpl. eapply sound_trans; [exact Hs1|].
  eapply popped_sound; [apply Hs1|done|congruence|congruence|by eapply same_rest_trans|].
  eapply moved_eq; [eapply moved_trans; [exact Hu2|]; eapply moved_trans; [exact Hm|];
    eapply moved_trans; [exact Hu|]; eapply moved_trans; [apply moved_dec_total|];
    by apply unmoved_emit, unmoved_emit, unmoved_refl|lia..].
Qed.

(** ** Update, suspension and resumption of a queue *)

Lemma increment_moved' d p q :
  let '(d', p') := increment_queue_count d p q in
  moved d d' 1 (b2z (counts_as_cp q)) (b2z (is_gws (properties q))) 0 ∧
  same_lists p p' ∧ same_rest p p'.
Proof.
  pose proof (increment_moved d p q). pose proof (increment_lists d p q).
  pose proof (increment_rest d p q). by destruct (increment_queue_count d p q).
Qed.

Lemma decrement_moved' d p q :
  let '(d', p') := decrement_queue_count d p q in
  moved d d' (-1) (- b2z (counts_as_cp q)) (- b2z (is_gws (properties q))) 0 ∧
  same_lists p p' ∧ same_rest p p'.
Proof.
  pose proof (decrement_moved d p q). pose proof (decrement_lists d p q).
  pose proof (decrement_rest d p q). by destruct (decrement_queue_count d p q).
Qed.

Lemma mqd_refresh_evicted q :
  is_evicted (properties (mqd_refresh q)) = is_evicted (properties q) ∧
  idle (mqd_refresh q).
Proof. apply (init_or_restore_evicted None dqm0 q). Qed.

Lemma gws_count_moved (b : bool) d p (s : Z) :
  let '(d', p') := if b
    then (d <| gws_queue_count ::= λ n, u32 (n + s) |>, p <| mapped_gws_queue := (0 <? s) |>)
    else (d, p) in
  moved d d' 0 0 (b2z b * s) 0 ∧ same_lists p p' ∧ same_rest p p'.
Proof. destruct b; simpl; split_and!; try done; solve_moved. Qed.

(** The [switch] of [update_queue] on what changed: activity or GWS. *)
Definition update_counts (prev_active : bool) (d : device_queue_manager)
    (p : qcm_process_device) (q : queue) : device_queue_manager * qcm_process_device * queue :=
  if qactive q && negb prev_active then
    let '(d, p) := increment_queue_count d p q in (d, p, q)
  else if negb (qactive q) && prev_active then
    let '(d, p) := decrement_queue_count d p q in (d, p, q)
  else if gws q && negb (is_gws (properties q)) then
    let '(d, p) := if qactive q
      then (d <| gws_queue_count ::= λ n, u32 (n + 1) |>, p <| mapped_gws_queue := true |>)
      else (d, p) in
    (d, p, set_props (set_field is_gws (λ _, true)) q)
  else if negb (gws q) && is_gws (properties q) then
    let '(d, p) := if qactive q
      then (d <| gws_queue_count ::= λ n, u32 (n - 1) |>, p <| mapped_gws_queue := false |>)
      else (d, p) in
    (d, p, set_props (set_field is_gws (λ _, false)) q)
  else (d, p, q).

Lemma update_counts_spec a d p q :
  let '(d', p', q') := update_counts a d p q in
  same_lists p p' ∧ same_rest p p' ∧ keeps q q' ∧ qactive q' = qactive q ∧
  is_evicted (properties q') = is_evicted (properties q) ∧
  is_suspended (properties q') = is_suspended (properties q) ∧
  moved d d' (b2z (qactive q) - b2z a)
    (b2z (qactive q && counts_as_cp q) - b2z (a && counts_as_cp q))
    (b2z (qactive q' && is_gws (properties q')) - b2z (a && is_gws (properties q))) 0.
Proof.
  unfold update_counts.
  destruct (qactive q) eqn:Hq, a; cbn [andb negb].
  3:{ pose proof (decrement_moved' d p q) as H. destruct (decrement_queue_count d p q).
      destruct H as (Hm & ? & ?). split_and!; try done. rewrite Hq. cbn [andb b2z].
      eapply moved_eq; [exact Hm|lia..]. }
  2:{ pose proof (increment_moved' d p q) as H. destruct (increment_queue_count d p q).
      destruct H as (Hm & ? & ?). split_and!; try done. rewrite Hq. cbn [andb b2z].
      eapply moved_eq; [exact Hm|lia..]. }
  all: destruct (gws q) eqn:Hg, (is_gws (properties q)) eqn:Hi; cbn [andb negb].
  all: unfold qactive in *; simpl; split_and!; try done; rewrite ?Hq, ?Hi; simpl.
  all: try (eapply moved_eq; [apply moved_refl|lia..]).
  all: try solve_moved.
Qed.

Lemma update_queue_sound no_hws d p q :
  qpd_wf nv p → q ∈ queues_list p →
  sound nv d p (update_queue e h no_hws d p q).1.1.2 (update_queue e h no_hws d p q).1.2.
Proof.
  intros Hwf Hin. unfold update_queue.
  destruct (if negb no_hws then _ else _) as [[out r1] d1] eqn:E1.
  assert (Hu1 : unmoved d d1).
  { destruct (negb no_hws).
    - destruct (negb (enable_mes e)).
      + pose proof (unmoved_unmap h d KFD_UNMAP_QUEUES_FILTER_DYNAMIC_QUEUES 0
          USE_DEFAULT_GRACE_PERIOD false) as Hu.
        destruct (unmap_queues_cpsch _ _ _ _ _ _) as [r d']. by simplify_eq.
      + destruct (qactive q); [|simplify_eq; apply unmoved_refl].
        pose proof (unmoved_remove_mes h d q) as Hu.
        destruct (remove_queue_mes _ _ _) as [r d']. by simplify_eq.
    - destruct (_ && _); [|simplify_eq; apply unmoved_refl].
      destruct (negb (sched_running d)); simplify_eq; [apply unmoved_refl|].
      by apply unmoved_emit, unmoved_refl. }
  destruct out; [by apply sound_unmoved|]. cbv zeta.
  set (d2 := emit _ d1). assert (Hu2 : unmoved d d2) by (by apply unmoved_emit).
  clearbody d2. clear E1 Hu1 d1. destruct (mqd_refresh_evicted q) as [Hev Hina].
  set (q2 := mqd_refresh q) in *.
  fold (update_counts (qactive q) d2 p q2).
  pose proof (update_counts_spec (qactive q) d2 p q2) as Hs.
  destruct (update_counts _ _ _ _) as [[d3 p3] q3].
  destruct Hs as ([Hl3 Hp3] & Hr3 & (Ha3 & Ht3 & Hid3) & Hq3 & He3 & Hs3 & Hm3).
  set (p4 := p3 <| _ ::= _ |>).
  match goal with |- context [let '(_, _) := ?x in _] => destruct x as [r5 d5] eqn:E5 end.
  assert (Hu5 : unmoved d3 d5).
  { destruct (negb no_hws).
    - destruct (negb (enable_mes e)).
      + pose proof (unmoved_map h d3) as Hu. by rewrite E5 in Hu.
      + destruct (qactive q3); [|simplify_eq; apply unmoved_refl].
        pose proof (unmoved_add_mes h d3 q3) as Hu. by rewrite E5 in Hu.
    - destruct (qactive q3 && has_hw_slot q3); [|simplify_eq; apply unmoved_refl].
      destruct (negb (hw_same_mm h)); simplify_eq; [apply unmoved_refl|].
      by apply unmoved_emit, unmoved_refl. }
  simpl. eapply (updated_sound d p d5 p4 q q3); try done.
  - unfold idle in *. rewrite Hq3, He3. intros Hx. apply Hina. by rewrite <- Hs3.
  - subst p4. simpl. by rewrite Hl3.
  - eapply moved_eq; [eapply moved_trans; [exact Hu2|]; eapply moved_trans; [exact Hm3|exact Hu5]|..].
    all: unfold counts_as_cp in *; rewrite ?Ht3, ?Hq3; subst q2; unfold qtype; simpl; lia.
Qed.

(** The object is mutated in place. *)
Definition in_place (p : qcm_process_device) (q : queue) : qcm_process_device :=
  p <| queues_list ::= list_update q |>.

Lemma idle_in p q : qpd_wf nv p → q ∈ queues_list p → idle q.
Proof. intros Hwf. pose proof (wf_idle _ _ Hwf) as H. rewrite Forall_forall in H. apply H. Qed.

(** A mutation that leaves the activity alone. *)
Lemma in_place_sound d p d' q q' :
  qpd_wf nv p → q ∈ queues_list p → unmoved d d' → keeps q q' → qactive q' = qactive q →
  is_evicted (properties q') = is_evicted (properties q) →
  is_gws (properties q') = is_gws (properties q) → idle q' → sound nv d p d' (in_place p q').
Proof.
  intros Hwf Hin Hu Hk Ha He Hg Hi. eapply (updated_sound d p d' _ q q'); try done.
  destruct Hk as (_ & Ht & _). eapply moved_eq; [exact Hu|unfold counts_as_cp; rewrite ?Ha, ?Hg, ?Ht; lia..].
Qed.

(** Without the MES, whose errors leave a suspended queue active. *)
Lemma suspend_single_queue_sound d p q :
  enable_mes e = false → qpd_wf nv p → q ∈ queues_list p →
  let '(_, d', p', q') := suspend_single_queue e h d p q in sound nv d p d' (in_place p' q').
Proof.
  intros Hmes Hwf Hin. pose proof (idle_in p q Hwf Hin) as Hidle. unfold suspend_single_queue.
  destruct (is_suspended _); [eapply in_place_sound; done || apply unmoved_refl|].
  destruct (_ || _); [eapply in_place_sound; done || apply unmoved_refl|]. cbv zeta.
  rewrite Hmes. simpl nz. set (q1 := set_props _ q). assert (qactive q1 = qactive q) by done.
  destruct (qactive q1) eqn:Ha1.
  2:{ eapply in_place_sound; try done; [apply unmoved_refl|]. intros _. congruence. }
  pose proof (decrement_moved' d p q1) as H'. destruct (decrement_queue_count d p q1) as [d2 p2].
  destruct H' as (Hm & [Hl Hp] & Hr).
  eapply (updated_sound d p d2 _ q (set_props (set_field is_active (λ _, false)) q1)); try done.
  - unfold in_place. simpl. by rewrite Hl.
  - unfold qactive, counts_as_cp, qtype in *. simpl in *. rewrite Ha1. simpl.
    eapply moved_eq; [exact Hm|lia..].
Qed.

Lemma resume_single_queue_sound d p q :
  enable_mes e = false → qpd_wf nv p → q ∈ queues_list p →
  let '(_, d', p', q') := resume_single_queue e h d p q in sound nv d p d' (in_place p' q').
Proof.
  intros Hmes Hwf Hin. pose proof (idle_in p q Hwf Hin) as Hidle. unfold resume_single_queue.
  destruct (is_suspended _) eqn:Hsus; simpl negb.
  2:{ eapply in_place_sound; done || apply unmoved_refl. }
  cbv zeta. rewrite Hmes. simpl nz. set (q1 := set_props _ q).
  unfold idle in Hidle. rewrite Hsus, orb_true_r in Hidle. specialize (Hidle eq_refl).
  destruct (QUEUE_IS_ACTIVE (properties q1)) eqn:Ha1.
  2:{ eapply in_place_sound; try done; [apply unmoved_refl|]. by intros _. }
  set (q2 := set_props _ q1). pose proof (increment_moved' d p q2) as H'.
  destruct (increment_queue_count d p q2) as [d2 p2]. destruct H' as (Hm & [Hl Hp] & Hr).
  eapply (updated_sound d p d2 _ q q2); try done.
  - unfold idle. subst q2 q1. simpl. rewrite orb_false_r. intros He.
    unfold QUEUE_IS_ACTIVE in Ha1. simpl in Ha1. rewrite He in Ha1. simpl in Ha1.
    by rewrite andb_false_r in Ha1.
  - unfold in_place. simpl. by rewrite Hl.
  - unfold qactive, counts_as_cp, qtype in *. simpl in *. rewrite Hidle. simpl.
    eapply moved_eq; [exact Hm|lia..].
Qed.
End Destroy.
