(* ===== verification/DqmProc.v ===== *)
(** * Eviction, restoration and termination of a whole process

    The operations of [kfd_device_queue_manager.c] that walk the queues of a
    process: the counters follow the queues ([DqmCounts.sound]), the process
    stays well-formed, and termination ends with no queue left. *)

From S2P Require Import Prelude DqmState DqmOps DqmCounts.

(** ** Walks over the queues *)

(** One iteration: the queue is rewritten in place, its [is_evicted] becomes [b]. *)
Definition step_outcome (b : bool) (d : device_queue_manager) (p : qcm_process_device) (q : queue)
    (d' : device_queue_manager) (p' : qcm_process_device) (q' : queue) : Prop :=
  moved d d' (b2z (qactive q') - b2z (qactive q))
    (b2z (qactive q' && counts_as_cp q') - b2z (qactive q && counts_as_cp q))
    (b2z (qactive q' && is_gws (properties q')) - b2z (qactive q && is_gws (properties q))) 0 ∧
  same_lists p p' ∧ same_rest p p' ∧ keeps q q' ∧ idle q' ∧
  is_evicted (properties q') = b.

(** A walk: [l] was rewritten to [l']. *)
Definition walk_outcome (b : bool) (d : device_queue_manager) (p : qcm_process_device)
    (l : list queue) (d' : device_queue_manager) (p' : qcm_process_device) (l' : list queue) : Prop :=
  moved d d' (count qactive l' - count qactive l)
    (count (λ q, qactive q && counts_as_cp q) l' - count (λ q, qactive q && counts_as_cp q) l)
    (count (λ q, qactive q && is_gws (properties q)) l'
     - count (λ q, qactive q && is_gws (properties q)) l) 0 ∧
  same_lists p p' ∧ same_rest p p' ∧ Forall2 keeps l l' ∧ Forall idle l' ∧
  Forall (λ q, is_evicted (properties q) = b) l'.

Lemma walk_nil b d p : walk_outcome b d p [] d p [].
Proof. split_and!; try done. apply moved_refl. Qed.

Lemma same_lists_trans p1 p2 p3 : same_lists p1 p2 → same_lists p2 p3 → same_lists p1 p3.
Proof. intros [? ?] [? ?]. split; congruence. Qed.

Lemma walk_cons b d p q d1 p1 q1 l d2 p2 l' :
  step_outcome b d p q d1 p1 q1 → walk_outcome b d1 p1 l d2 p2 l' →
  walk_outcome b d p (q :: l) d2 p2 (q1 :: l').
Proof.
  intros (Hm1 & Hl1 & Hr1 & Hk1 & Hi1 & He1) (Hm2 & Hl2 & Hr2 & Hk2 & Hi2 & He2).
  split_and!; [|by eapply same_lists_trans|by eapply same_rest_trans|by constructor..].
  simpl. eapply moved_eq; [eapply moved_trans; [exact Hm1|exact Hm2]|lia..].
Qed.

Section Walks.
Context (e : dev_env) (h : hw_env).

Lemma idle_evicted q : idle q → is_evicted (properties q) = true → qactive q = false.
Proof. unfold idle. intros Hi He. apply Hi. by rewrite He. Qed.

(** Marking a queue evicted. *)
Lemma evict_flag_step d p q :
  qactive q = false → step_outcome true d p q d p (set_props (set_field is_evicted (λ _, true)) q).
Proof.
  intros Ha. split_and!; try done; [|by intros _].
  unfold qactive in *; simpl; rewrite Ha; simpl. apply moved_refl.
Qed.

(** Marking it inactive too, with its decrement. *)
Lemma evict_decrement_step d p q d' :
  qactive q = true →
  let q' := set_props (set_field is_active (λ _, false))
              (set_props (set_field is_evicted (λ _, true)) q) in
  unmoved (decrement_queue_count d p q').1 d' →
  step_outcome true d p q d' (decrement_queue_count d p q').2 q'.
Proof.
  intros Ha q' Hu. split_and!; try done; try apply decrement_lists; try apply decrement_rest.
  pose proof (decrement_moved d p q') as Hm. unfold qactive, counts_as_cp, qtype in *.
  simpl in *. rewrite Ha. simpl. eapply moved_eq; [eapply moved_trans; [exact Hm|exact Hu]|lia..].
Qed.

Lemma evict_loop_nocpsch_walk l d p r :
  let '(_, d', p', l') := evict_loop_nocpsch h l d p r in walk_outcome true d p l d' p' l'.
Proof.
  revert d p r. induction l as [|q l IH]; intros d p r; cbn [evict_loop_nocpsch]; cbv zeta; [apply walk_nil|].
  set (q1 := set_props _ q). destruct (negb (qactive q1)) eqn:Ha.
  - specialize (IH d p r). destruct (evict_loop_nocpsch h l d p r) as [[[r2 d2] p2] l2].
    eapply walk_cons; [|exact IH]. apply evict_flag_step. by apply negb_true_iff in Ha.
  - apply negb_false_iff in Ha. set (q2 := set_props _ q1).
    pose proof (evict_decrement_step d p q) as Hs. cbv zeta in Hs; fold q1 q2 in Hs.
    destruct (decrement_queue_count d p q2) as [d1 p1]. cbn [fst snd] in Hs.
    destruct (negb (sched_running d1)).
    + specialize (IH d1 p1 r). destruct (evict_loop_nocpsch h l d1 p1 r) as [[[r2 d2] p2] l2].
      eapply walk_cons; [|exact IH]. apply Hs; [done|apply unmoved_refl].
    + match goal with |- context [evict_loop_nocpsch h l ?d0 p1 ?r0] =>
        specialize (IH d0 p1 r0); destruct (evict_loop_nocpsch h l d0 p1 r0) as [[[r2 d2] p2] l2] end.
      eapply walk_cons; [|exact IH]. apply Hs; [done|]. by apply unmoved_emit, unmoved_refl.
Qed.

Lemma evict_loop_cpsch_walk l d p r :
  let '(_, d', p', l') := evict_loop_cpsch e h l d p r in walk_outcome true d p l d' p' l'.
Proof.
  revert d p r. induction l as [|q l IH]; intros d p r; cbn [evict_loop_cpsch]; cbv zeta; [apply walk_nil|].
  set (q1 := set_props _ q). destruct (negb (qactive q1)) eqn:Ha.
  - specialize (IH d p r). destruct (evict_loop_cpsch e h l d p r) as [[[r2 d2] p2] l2].
    eapply walk_cons; [|exact IH]. apply evict_flag_step. by apply negb_true_iff in Ha.
  - apply negb_false_iff in Ha. set (q2 := set_props _ q1).
    pose proof (evict_decrement_step d p q) as Hs. cbv zeta in Hs; fold q1 q2 in Hs.
    destruct (decrement_queue_count d p q2) as [d1 p1]. cbn [fst snd] in Hs.
    destruct (enable_mes e).
    + pose proof (unmoved_remove_mes h d1 q2) as Hu.
      destruct (remove_queue_mes h d1 q2) as [r1 d1']. simpl in Hu.
      specialize (IH d1' p1 (if nz r1 then r1 else r)).
      destruct (evict_loop_cpsch e h l d1' p1 _) as [[[r2 d2] p2] l2].
      eapply walk_cons; [|exact IH]. by apply Hs.
    + specialize (IH d1 p1 r). destruct (evict_loop_cpsch e h l d1 p1 r) as [[[r2 d2] p2] l2].
      eapply walk_cons; [|exact IH]. apply Hs; [done|apply unmoved_refl].
Qed.

(** Clearing the mark, and activating the queue again. *)
Lemma restore_flag_step d p q :
  qactive q = false → step_outcome false d p q d p (set_props (set_field is_evicted (λ _, false)) q).
Proof.
  intros Ha. split_and!; try done; [|by intros _].
  unfold qactive in *; simpl; rewrite Ha; simpl. apply moved_refl.
Qed.

Lemma restore_increment_step d p q d' :
  qactive q = false →
  let q1 := set_props (set_field is_evicted (λ _, false)) q in
  let q2 := set_props (set_field is_active (λ _, true)) q1 in
  QUEUE_IS_ACTIVE (properties q1) = true →
  unmoved (increment_queue_count d p q2).1 d' →
  step_outcome false d p q d' (increment_queue_count d p q2).2 q2.
Proof.
  intros Ha q1 q2 Hq Hu. split_and!; try done; try apply increment_lists; try apply increment_rest.
  - pose proof (increment_moved d p q2) as Hm. unfold qactive, counts_as_cp, qtype in *.
    simpl in *. rewrite Ha. simpl. eapply moved_eq; [eapply moved_trans; [exact Hm|exact Hu]|lia..].
  - unfold idle, qactive. simpl. intros Hs. unfold QUEUE_IS_ACTIVE in Hq. simpl in Hq.
    rewrite Hs in Hq. simpl in Hq. by rewrite andb_false_r in Hq.
Qed.

Lemma restore_loop_nocpsch_walk l d p r :
  Forall (λ q, qactive q = false) l →
  let '(_, d', p', l') := restore_loop_nocpsch h l d p r in walk_outcome false d p l d' p' l'.
Proof.
  intros Hl. revert d p r. induction Hl as [|q l Ha Hl IH]; intros d p r;
    cbn [restore_loop_nocpsch]; cbv zeta; [apply walk_nil|].
  set (q1 := set_props _ q). destruct (negb (QUEUE_IS_ACTIVE (properties q1))) eqn:Hq.
  - specialize (IH d p r). destruct (restore_loop_nocpsch h l d p r) as [[[r2 d2] p2] l2].
    eapply walk_cons; [|exact IH]. by apply restore_flag_step.
  - apply negb_false_iff in Hq. set (q2 := set_props _ q1).
    pose proof (restore_increment_step d p q) as Hs. cbv zeta in Hs; fold q1 q2 in Hs.
    destruct (increment_queue_count d p q2) as [d1 p1]. cbn [fst snd] in Hs.
    destruct (negb (sched_running d1)).
    + specialize (IH d1 p1 r). destruct (restore_loop_nocpsch h l d1 p1 r) as [[[r2 d2] p2] l2].
      eapply walk_cons; [|exact IH]. apply Hs; [done..|apply unmoved_refl].
    + match goal with |- context [restore_loop_nocpsch h l ?d0 p1 ?r0] =>
        specialize (IH d0 p1 r0); destruct (restore_loop_nocpsch h l d0 p1 r0) as [[[r2 d2] p2] l2] end.
      eapply walk_cons; [|exact IH]. apply Hs; [done..|]. by apply unmoved_emit, unmoved_refl.
Qed.

Lemma restore_loop_cpsch_walk l d p :
  enable_mes e = false → Forall (λ q, qactive q = false) l →
  let '(out, _, d', p', l') := restore_loop_cpsch e h l d p in
  out = false ∧ walk_outcome false d p l d' p' l'.
Proof.
  intros Hmes Hl. revert d p. induction Hl as [|q l Ha Hl IH]; intros d p;
    cbn [restore_loop_cpsch]; cbv zeta;
    [split; [done|apply walk_nil]|].
  rewrite Hmes. set (q1 := set_props _ q).
  destruct (negb (QUEUE_IS_ACTIVE (properties q1))) eqn:Hq.
  - specialize (IH d p). destruct (restore_loop_cpsch e h l d p) as [[[[o2 r2] d2] p2] l2].
    destruct IH as [-> IH]. split; [done|].
    eapply walk_cons; [|exact IH]. by apply restore_flag_step.
  - apply negb_false_iff in Hq. set (q2 := set_props _ q1).
    pose proof (restore_increment_step d p q) as Hs. cbv zeta in Hs; fold q1 q2 in Hs.
    destruct (increment_queue_count d p q2) as [d1 p1]. cbn [fst snd] in Hs.
    specialize (IH d1 p1). destruct (restore_loop_cpsch e h l d1 p1) as [[[[o2 r2] d2] p2] l2].
    destruct IH as [-> IH]. split; [done|].
    eapply walk_cons; [|exact IH]. apply Hs; [done..|apply unmoved_refl].
Qed.
End Walks.

Lemma Forall2_keeps_addrs l l' : Forall2 keeps l l' → addrs l' = addrs l.
Proof.
  unfold addrs. induction 1 as [|q q' l l' (Ha & _) _ IH]; [done|]. by rewrite !fmap_cons, Ha, IH.
Qed.

Lemma Forall2_keeps_types l l' :
  Forall2 keeps l l' → Forall (λ q, user_type q = true) l → Forall (λ q, user_type q = true) l'.
Proof.
  induction 1 as [|q q' l l' (_ & Ht & _) _ IH]; [done|]. rewrite !Forall_cons. intros [Hq Hl].
  split; [|by apply IH]. unfold user_type, has_hw_slot, is_sdma in *. by rewrite Ht.
Qed.

Lemma Forall2_length_count (l l' : list queue) :
  Forall2 keeps l l' → count (λ _, true) l' = count (λ _, true) l.
Proof. induction 1; simpl; lia. Qed.

(** A walk that ended with the whole list replaced. *)
Lemma walk_sound nv b d p p0 d1 p1 l' d' p' :
  qpd_wf nv p → walk_outcome b d p0 (queues_list p) d1 p1 l' → same_lists p p0 →
  unmoved d1 d' → queues_list p' = l' → priv_queue_list p' = priv_queue_list p1 →
  (b = true ∨ evicted p' = 0) → in_width 32 (evicted p') → sound nv d p d' p'.
Proof.
  intros [Hnd Hpr Hty Hid Hev Hwi] (Hm & [_ Hp1] & _ & Hk & Hi & Hb) [_ Hp0] Hu Hl' Hp' Hc Hw.
  assert (Hp : priv_queue_list p' = priv_queue_list p) by congruence.
  split.
  - eapply tracks_moved; [eapply moved_trans; [exact Hm|exact Hu]|..];
      unfold_loads; rewrite Hl', Hp; [lia..|].
    rewrite (Forall2_length_count _ _ Hk). lia.
  - split.
    + rewrite Hl'. by rewrite (Forall2_keeps_addrs _ _ Hk).
    + by rewrite Hp.
    + rewrite Hl'. by eapply Forall2_keeps_types.
    + by rewrite Hl'.
    + rewrite Hl'. intros Hnz _. destruct Hc as [->|]; done.
    + done.
Qed.

(** Other counts of evictions for the same queues. *)
Lemma wf_evictions nv p p' :
  qpd_wf nv p → same_lists p p' → drm_priv p' = drm_priv p →
  in_width 32 (evicted p') →
  (evicted p' ≠ 0 → (nv = true → drm_priv p = true) → evicted p ≠ 0) → qpd_wf nv p'.
Proof.
  intros [? ? ? ? Hev ?] [Hl Hp] Hd Hw He.
  split; [by rewrite Hl|by rewrite Hp|by rewrite Hl|by rewrite Hl| |done].
  rewrite Hl, Hd. auto.
Qed.

Lemma evictions_sound nv d p d' p' :
  qpd_wf nv p → unmoved d d' → same_lists p p' → drm_priv p' = drm_priv p →
  in_width 32 (evicted p') →
  (evicted p' ≠ 0 → (nv = true → drm_priv p = true) → evicted p ≠ 0) → sound nv d p d' p'.
Proof. intros. split; [by apply tracks_same|by eapply wf_evictions]. Qed.

Section Process.
Context (e : dev_env) (h : hw_env).

Lemma evictions_succ p :
  in_width 32 (evicted p) → evicted p + 1 < 2 ^ 32 → in_width 32 (u32 (evicted p + 1)).
Proof. intros. by apply wrap_in_width. Qed.

(** A nested eviction only counts. *)
Lemma evict_again_sound nv d p :
  qpd_wf nv p → 0 < evicted p → sound nv d p d (p <| evicted := u32 (evicted p + 1) |>).
Proof.
  intros Hwf Hold. apply evictions_sound; try done; [apply unmoved_refl|by apply wrap_in_width|lia].
Qed.

Lemma evict_process_queues_nocpsch_sound nv d p :
  qpd_wf nv p →
  sound nv d p (evict_process_queues_nocpsch h d p).1.2 (evict_process_queues_nocpsch h d p).2.
Proof.
  intros Hwf. unfold evict_process_queues_nocpsch. cbv zeta.
  destruct (0 <? evicted p) eqn:Hold; bool_to_Prop; [by apply evict_again_sound|].
  set (p1 := p <| evicted := _ |> <| _ := _ |>).
  pose proof (evict_loop_nocpsch_walk h (queues_list p) d p1 0) as Hwalk.
  change (queues_list p1) with (queues_list p).
  destruct (evict_loop_nocpsch h _ d p1 0) as [[[r d2] p2] l2].
  eapply walk_sound; [done|exact Hwalk|done|apply unmoved_refl|done|done|by left|].
  destruct Hwalk as (_ & _ & [He _] & _). simpl. rewrite He. by apply wrap_in_width.
Qed.

Lemma evict_process_queues_cpsch_sound d p :
  qpd_wf true p →
  sound true d p (evict_process_queues_cpsch e h d p).1.2 (evict_process_queues_cpsch e h d p).2.
Proof.
  intros Hwf. unfold evict_process_queues_cpsch. cbv zeta.
  destruct (0 <? evicted p) eqn:Hold; bool_to_Prop; [by apply evict_again_sound|].
  set (p1 := p <| evicted := _ |>). change (drm_priv p1) with (drm_priv p).
  destruct (drm_priv p) eqn:Hvm; cbn [negb].
  2:{ apply evictions_sound; try done; [apply unmoved_refl|by apply wrap_in_width|].
      rewrite Hvm. intros _ Hc. by specialize (Hc eq_refl). }
  pose proof (evict_loop_cpsch_walk e h (queues_list p) d p1 0) as Hwalk.
  change (queues_list p1) with (queues_list p).
  destruct (evict_loop_cpsch e h _ d p1 0) as [[[r d2] p2] l2].
  assert (Hfin : ∀ d' p', unmoved d2 d' → queues_list p' = l2 →
    priv_queue_list p' = priv_queue_list p2 → evicted p' = evicted p2 → sound true d p d' p').
  { intros d' p' Hu Hl Hp He. eapply walk_sound; [done|exact Hwalk|done|done..|by left|].
    destruct Hwalk as (_ & _ & [He2 _] & _). rewrite He, He2. by apply wrap_in_width. }
  destruct (negb (enable_mes e)); [|by apply Hfin; [apply unmoved_refl|..]].
  match goal with |- context [execute_queues_cpsch h d2 ?f 0 ?g] =>
    pose proof (unmoved_execute h d2 f 0 g); destruct (execute_queues_cpsch h d2 f 0 g) end.
  by apply Hfin.
Qed.

(** One eviction less. *)
Lemma unevict_sound nv d p :
  qpd_wf nv p → 1 < evicted p → sound nv d p d (p <| evicted ::= λ n, u32 (n - 1) |>).
Proof.
  intros Hwf Hold. apply evictions_sound; try done; [apply unmoved_refl|by apply wrap_in_width|lia].
Qed.

Lemma evicted_inactive nv p :
  qpd_wf nv p → evicted p ≠ 0 → (nv = true → drm_priv p = true) →
  Forall (λ q, qactive q = false) (queues_list p).
Proof.
  intros Hwf He Hv. pose proof (wf_evicted _ _ Hwf He Hv) as Hf. pose proof (wf_idle _ _ Hwf) as Hi.
  rewrite Forall_forall in *. intros q Hq. apply idle_evicted; auto.
Qed.

Lemma restore_process_queues_nocpsch_sound d p :
  qpd_wf false p →
  sound false d p (restore_process_queues_nocpsch h d p).1.2
    (restore_process_queues_nocpsch h d p).2.
Proof.
  intros Hwf. unfold restore_process_queues_nocpsch. cbv zeta.
  destruct (nz (evicted p)) eqn:Hnz; cbn [negb]; bool_to_Prop.
  2:{ apply sound_unmoved; done || apply unmoved_refl. }
  destruct (1 <? evicted p) eqn:Hold; bool_to_Prop; [by apply unevict_sound|].
  set (p1 := p <| page_table_base := _ |>). set (d1 := if list_empty (queues_list p1) then _ else _).
  assert (Hd1 : unmoved d d1).
  { subst d1. destruct (list_empty _); [|apply unmoved_emit, unmoved_emit]; apply unmoved_refl. }
  clearbody d1.
  destruct (negb (hw_task_mm h)); [by apply sound_unmoved|].
  change (queues_list p1) with (queues_list p).
  pose proof (restore_loop_nocpsch_walk h (queues_list p) d1 p1 0
    (evicted_inactive false p Hwf Hnz ltac:(done))) as Hwalk.
  destruct (restore_loop_nocpsch h _ d1 p1 0) as [[[r d2] p2] l2].
  eapply sound_trans; [by apply (sound_unmoved false d p d1 p)|].
  eapply walk_sound; [done|exact Hwalk|done|apply unmoved_refl|done|done|by right|done].
Qed.

(** Without the MES: when the MES refuses a queue the loop is left with the
    process still evicted and some of its queues active. *)
Lemma restore_process_queues_cpsch_sound d p :
  enable_mes e = false → qpd_wf true p →
  sound true d p (restore_process_queues_cpsch e h d p).1.2
    (restore_process_queues_cpsch e h d p).2.
Proof.
  intros Hmes Hwf. unfold restore_process_queues_cpsch. cbv zeta.
  destruct (nz (evicted p)) eqn:Hnz; cbn [negb]; bool_to_Prop.
  2:{ apply sound_unmoved; done || apply unmoved_refl. }
  destruct (1 <? evicted p) eqn:Hold; bool_to_Prop; [by apply unevict_sound|].
  destruct (drm_priv p) eqn:Hvm; cbn [negb].
  2:{ apply evictions_sound; try done; [apply unmoved_refl]. }
  set (p1 := p <| page_table_base := _ |>).
  change (queues_list p1) with (queues_list p).
  pose proof (restore_loop_cpsch_walk e h (queues_list p) d p1 Hmes
    (evicted_inactive true p Hwf Hnz ltac:(done))) as Hwalk.
  destruct (restore_loop_cpsch e h _ d p1) as [[[[out r] d2] p2] l2].
  destruct Hwalk as [-> Hwalk]. rewrite Hmes. cbn [negb].
  pose proof (unmoved_execute_dynamic h d2) as Hu. destruct (execute_dynamic h d2) as [r3 d3].
  eapply walk_sound; [done|exact Hwalk|done|exact Hu|done|done|by right|done].
Qed.

(** Evictions and restorations rewrite the queues in place, and a restoration
    never evicts. *)
Lemma walk_addrs b d p l d' p' l' : walk_outcome b d p l d' p' l' → addrs l' = addrs l.
Proof. intros (_ & _ & _ & Hk & _). by apply Forall2_keeps_addrs. Qed.

Lemma evict_process_queues_nocpsch_addrs d p :
  addrs (queues_list (evict_process_queues_nocpsch h d p).2) = addrs (queues_list p).
Proof.
  unfold evict_process_queues_nocpsch. cbv zeta. destruct (0 <? evicted p); [done|].
  set (p1 := p <| evicted := _ |> <| _ := _ |>).
  pose proof (evict_loop_nocpsch_walk h (queues_list p1) d p1 0) as Hw.
  destruct (evict_loop_nocpsch h _ d p1 0) as [[[r d2] p2] l2]. by apply walk_addrs in Hw.
Qed.

Lemma evict_process_queues_cpsch_addrs d p :
  addrs (queues_list (evict_process_queues_cpsch e h d p).2) = addrs (queues_list p).
Proof.
  unfold evict_process_queues_cpsch. cbv zeta. destruct (0 <? evicted p); [done|].
  destruct (negb _); [done|]. set (p1 := p <| evicted := _ |>).
  pose proof (evict_loop_cpsch_walk e h (queues_list p1) d p1 0) as Hw.
  destruct (evict_loop_cpsch e h _ d p1 0) as [[[r d2] p2] l2]. apply walk_addrs in Hw.
  destruct (negb (enable_mes e)); [|done]. by destruct (execute_queues_cpsch _ _ _ _ _).
Qed.

Lemma restore_process_queues_nocpsch_addrs d p :
  qpd_wf false p →
  let p' := (restore_process_queues_nocpsch h d p).2 in
  addrs (queues_list p') = addrs (queues_list p) ∧ (evicted p' ≠ 0 → evicted p ≠ 0).
Proof.
  intros Hwf. unfold restore_process_queues_nocpsch. cbv zeta.
  destruct (nz (evicted p)) eqn:Hnz; cbn [negb]; bool_to_Prop; [|done].
  destruct (1 <? evicted p) eqn:Hold; [done|].
  set (p1 := p <| page_table_base := _ |>). set (d1 := if list_empty (queues_list p1) then _ else _).
  destruct (negb (hw_task_mm h)); [done|].
  pose proof (restore_loop_nocpsch_walk h (queues_list p) d1 p1 0
    (evicted_inactive false p Hwf Hnz ltac:(done))) as Hw.
  change (queues_list p1) with (queues_list p).
  destruct (restore_loop_nocpsch h _ d1 p1 0) as [[[r d2] p2] l2]. by apply walk_addrs in Hw.
Qed.

Lemma restore_process_queues_cpsch_addrs d p :
  enable_mes e = false → qpd_wf true p →
  let p' := (restore_process_queues_cpsch e h d p).2 in
  addrs (queues_list p') = addrs (queues_list p) ∧ (evicted p' ≠ 0 → evicted p ≠ 0).
Proof.
  intros Hmes Hwf. unfold restore_process_queues_cpsch. cbv zeta.
  destruct (nz (evicted p)) eqn:Hnz; cbn [negb]; bool_to_Prop; [|done].
  destruct (1 <? evicted p) eqn:Hold; bool_to_Prop; [done|].
  destruct (drm_priv p) eqn:Hvm; cbn [negb]; [|done].
  set (p1 := p <| page_table_base := _ |>). change (queues_list p1) with (queues_list p).
  pose proof (restore_loop_cpsch_walk e h (queues_list p) d p1 Hmes
    (evicted_inactive true p Hwf Hnz ltac:(done))) as Hw.
  destruct (restore_loop_cpsch e h _ d p1) as [[[[out r] d2] p2] l2].
  destruct Hw as [-> Hw]. apply walk_addrs in Hw. rewrite Hmes. cbn [negb].
  by destruct (execute_dynamic h d2).
Qed.

(** ** Kernel queues *)

Lemma create_kernel_queue_cpsch_sound nv d kq p :
  qpd_wf nv p → q_addr kq ∉ addrs (priv_queue_list p) →
  sound nv d p (create_kernel_queue_cpsch e h d kq p).1.2 (create_kernel_queue_cpsch e h d kq p).2.
Proof.
  intros Hwf Hf. unfold create_kernel_queue_cpsch.
  destruct (_ <=? _); [apply sound_unmoved; done || apply unmoved_refl|]. cbv zeta.
  pose proof (moved_inc_total d) as Ht. set (d1 := d <| total_queue_count ::= _ |>) in *.
  set (p1 := p <| priv_queue_list ::= _ |>).
  pose proof (increment_moved' d1 p1 kq) as Hi.
  destruct (increment_queue_count d1 p1 kq) as [d2 p2]. destruct Hi as (Hm & [Hl Hp] & [He Hd]).
  pose proof (unmoved_execute_dynamic h d2) as Hu. cbn [fst snd]. split.
  - eapply tracks_moved;
      [eapply moved_trans; [exact Ht|]; eapply moved_trans; [exact Hm|exact Hu]|..];
      unfold_loads; simpl; rewrite Hl, Hp; simpl; lia.
  - destruct Hwf as [? ? ? ? ? ?]. split; simpl; try (rewrite Hl; done); try done.
    + rewrite Hp. unfold addrs in *. simpl. by apply NoDup_cons.
    + rewrite Hl, He, Hd. done.
    + by rewrite He.
Qed.

Lemma destroy_kernel_queue_cpsch_sound nv d kq p :
  qpd_wf nv p → kq ∈ priv_queue_list p →
  sound nv d p (destroy_kernel_queue_cpsch h d kq p).1 (destroy_kernel_queue_cpsch h d kq p).2.
Proof.
  intros Hwf Hin. unfold destroy_kernel_queue_cpsch. cbv zeta.
  set (p1 := p <| priv_queue_list ::= _ |>).
  pose proof (decrement_moved' d p1 kq) as Hi.
  destruct (decrement_queue_count d p1 kq) as [d2 p2]. destruct Hi as (Hm & [Hl Hp] & [He Hd]).
  match goal with |- context [execute_queues_cpsch h d2 ?f 0 ?g] =>
    pose proof (unmoved_execute h d2 f 0 g) as Hu; destruct (execute_queues_cpsch h d2 f 0 g) as [r d3] end.
  cbn [fst snd] in *. pose proof (moved_dec_total d3) as Ht.
  pose proof (wf_priv _ _ Hwf) as Hnd. split.
  - eapply tracks_moved;
      [eapply moved_trans; [exact Hm|]; eapply moved_trans; [exact Hu|exact Ht]|..];
      unfold_loads; simpl; rewrite Hl, Hp; simpl; rewrite !count_list_del by done; simpl; lia.
  - destruct Hwf as [? ? ? ? ? ?]. split; simpl; try (rewrite Hl; done); try done.
    + rewrite Hp. by apply addrs_list_del.
    + rewrite Hl, He, Hd. done.
    + by rewrite He.
Qed.

(** ** Termination *)

Lemma list_del_head q l : NoDup (addrs (q :: l)) → list_del q (q :: l) = l.
Proof. unfold addrs. simpl. rewrite NoDup_cons. intros [? _]. by apply list_del_cons. Qed.

(** The loop ends after as many iterations as there are queues. *)
Lemma terminate_loop_nocpsch_total nv fuel d p r :
  qpd_wf nv p → sched_running d = true → (length (queues_list p) ≤ fuel)%nat →
  ∃ r' d' p', terminate_loop_nocpsch e h fuel d p r = Some (r', d', p') ∧
    sound nv d p d' p' ∧ queues_list p' = [].
Proof.
  revert d p r. induction fuel as [|fuel IH]; intros d p r Hwf Hs Hlen; cbn [terminate_loop_nocpsch].
  - destruct (queues_list p) eqn:El; [|simpl in Hlen; lia].
    exists r, d, p. split_and!; [done| |done]. apply sound_unmoved; done || apply unmoved_refl.
  - destruct (queues_list p) as [|q l] eqn:El.
    { exists r, d, p. split_and!; [done| |done]. apply sound_unmoved; done || apply unmoved_refl. }
    pose proof (destroy_queue_nocpsch_locked_sound e h nv d p q Hwf) as Hd.
    rewrite El in Hd. specialize (Hd ltac:(left) Hs).
    destruct (destroy_queue_nocpsch_locked e h d p q) as [[[r1 d1] p1] q1].
    destruct Hd as (Hsound & Hl & _ & Hs1).
    rewrite list_del_head in Hl by (rewrite <- El; apply (wf_nodup _ _ Hwf)).
    apply (sound_emit nv (EvFreeMqd (q_addr q1))) in Hsound.
    destruct (IH (emit (EvFreeMqd (q_addr q1)) d1) p1 (if nz r1 then r1 else r))
      as (r' & d' & p' & Heq & Hsound' & Hnil); [apply Hsound|done|rewrite Hl; simpl in Hlen; lia|].
    exists r', d', p'. split_and!; [done| |done]. by eapply sound_trans.
Qed.

(** Termination also unregisters the process: the start state is compared up to
    the list of registered processes. *)
Definition requeue (l : list Z) (d : device_queue_manager) : device_queue_manager :=
  d <| dqm_queues := l |>.

Lemma unmoved_unregister d (l : list Z) :
  unmoved (requeue l d)
    (kfd_dec_compute_active (d <| dqm_queues := l |> <| processes_count ::= λ n, u32 (n - 1) |>)).
Proof. unmoved_step. Qed.

Lemma moved_requeue l d d' a c g t :
  moved d d' a c g t → moved (requeue l d) (requeue l d') a c g t.
Proof. intros [? ? ? ? ? ? Hw]. split; try done. 
  intros [? ? ? ?]. destruct (Hw ltac:(by split)). by split.
Qed.

Lemma sound_requeue nv l d p d' p' :
  sound nv d p d' p' → sound nv (requeue l d) p (requeue l d') p'.
Proof. intros [Ht ?]. split; [by apply moved_requeue|done]. Qed.

Lemma requeue_same d : requeue (dqm_queues d) d = d.
Proof. by destruct d. Qed.

(** The list of processes after termination. *)
Definition unregistered (pid : Z) (l : list Z) : list Z := default l (remove_first pid l).

Lemma sound_unmoved_r nv d p d1 p1 d2 :
  sound nv d p d1 p1 → unmoved d1 d2 → sound nv d p d2 p1.
Proof.
  intros [Ht ?] Hu. split; [|done]. eapply moved_eq; [eapply moved_trans; [exact Ht|exact Hu]|lia..].
Qed.

Lemma process_termination_nocpsch_total nv d p pid :
  qpd_wf nv p → sched_running d = true →
  ∃ r' d' p', process_termination_nocpsch e h (length (queues_list p)) d p pid = Some (r', d', p') ∧
    sound nv (requeue (unregistered pid (dqm_queues d)) d) p d' p' ∧ queues_list p' = [].
Proof.
  intros Hwf Hs. unfold process_termination_nocpsch.
  destruct (terminate_loop_nocpsch_total nv (length (queues_list p)) d p 0 Hwf Hs (le_n _))
    as (r' & d' & p' & -> & Hsound & Hnil).
  pose proof (moved_queues _ _ _ _ _ _ (proj1 Hsound)) as Hq. unfold unregistered. rewrite <- Hq.
  destruct (remove_first pid (dqm_queues d')) as [l|]; simpl.
  - do 3 eexists. split; [reflexivity|]. split; [|done].
    eapply sound_unmoved_r; [by apply sound_requeue|apply unmoved_unregister].
  - rewrite Hq, requeue_same. by exists r', d', p'.
Qed.

Lemma terminate_kernel_queues_sound nv d p :
  qpd_wf nv p →
  let '(d', p') := terminate_kernel_queues (priv_queue_list p) d p in
  sound nv d p d' p' ∧ queues_list p' = queues_list p ∧ priv_queue_list p' = [] ∧
  sched_running d' = sched_running d.
Proof.
  remember (priv_queue_list p) as l eqn:El. intros Hwf. revert d p El Hwf.
  induction l as [|kq l IH]; intros d p El Hwf; unfold terminate_kernel_queues; cbn [foldl].
  - split_and!; try done. apply sound_unmoved; done || apply unmoved_refl.
  - pose proof (decrement_moved' d (p <| priv_queue_list ::= list_del kq |>) kq) as Hi.
    destruct (decrement_queue_count d _ kq) as [d1 p1].
    destruct Hi as (Hm & [Hl1 Hp1] & [He1 Hd1]). simpl in Hl1, Hp1, He1, Hd1.
    pose proof (moved_dec_total d1) as Ht.
    assert (Hnd : NoDup (addrs (kq :: l))) by (rewrite El; apply (wf_priv _ _ Hwf)).
    rewrite <- El, list_del_head in Hp1 by done.
    match goal with |- context [foldl _ (?d0, ?p0) l] =>
      assert (Hstep : sound nv d p d0 p0); [|specialize (IH d0 p0)] end.
    { split.
      - eapply tracks_moved; [eapply moved_trans; [exact Hm|exact Ht]|..];
          unfold_loads; simpl; rewrite Hl1, Hp1, <- El; simpl; lia.
      - destruct Hwf as [? ? ? ? ? ?]. split; simpl; try (rewrite Hl1; done).
        + rewrite Hp1. unfold addrs in *. simpl in Hnd. by apply NoDup_cons in Hnd as [_ ?].
        + rewrite Hl1, He1, Hd1. done.
        + by rewrite He1. }
    specialize (IH ltac:(simpl; congruence) ltac:(apply Hstep)).
    unfold terminate_kernel_queues in IH.
    match goal with |- context [foldl ?f ?x l] => destruct (foldl f x l) as [d2 p2] end.
    destruct IH as (Hs & Hl & Hp & Hr).
    split_and!; [by eapply sound_trans|rewrite Hl; simpl; congruence|done|].
    rewrite Hr. simpl. apply (moved_sched _ _ _ _ _ _ Hm).
Qed.

(** The walk over the user queues takes each of them off the counters; the lists
    themselves are emptied afterwards. *)
Lemma terminate_user_queues_moved l d p r :
  let '(_, d', p') := terminate_user_queues e h l d p r in
  moved d d' (- count qactive l) (- count (λ q, qactive q && counts_as_cp q) l)
    (- count (λ q, qactive q && is_gws (properties q)) l) (- count (λ _, true) l) ∧
  same_lists p p' ∧ same_rest p p'.
Proof.
  revert d p r. induction l as [|q l IH]; intros d p r; [split; [apply moved_refl|done]|].
  unfold terminate_user_queues in *. cbn [foldl].
  set (d1 := if is_sdma q then _ else _).
  assert (Hu1 : unmoved d d1).
  { subst d1. destruct (is_sdma q); [apply unmoved_deallocate_sdma|apply unmoved_refl]. }
  clearbody d1.
  destruct (if qactive q then _ else _) as [[r2 d2] p2] eqn:E2.
  assert (∃ dm, moved d1 dm (- b2z (qactive q)) (- b2z (qactive q && counts_as_cp q))
            (- b2z (qactive q && is_gws (properties q))) 0 ∧ unmoved dm d2 ∧
            same_lists p p2 ∧ same_rest p p2) as (dm & Hm & Hu & Hl & Hr).
  { pose proof (decrement_active d1 p q) as Hdec. destruct (qactive q).
    - destruct (decrement_queue_count d1 p q) as [dm pm]. destruct Hdec as (Hm & Hl & Hr).
      exists dm. destruct (enable_mes e).
      + pose proof (unmoved_remove_mes h dm q) as Hu.
        destruct (remove_queue_mes h dm q) as [r' d']. by simplify_eq.
      + simplify_eq. split_and!; try done. apply unmoved_refl.
    - simplify_eq. exists d2. split_and!; try done; apply Hdec || apply unmoved_refl. }
  pose proof (moved_dec_total d2) as Ht. set (d3 := d2 <| total_queue_count ::= _ |>) in *.
  specialize (IH d3 p2 r2).
  match goal with |- context [foldl ?f ?x l] => destruct (foldl f x l) as [[r4 d4] p4] end.
  destruct IH as (Hm4 & Hl4 & Hr4).
  split; [|split; [by eapply same_lists_trans|by eapply same_rest_trans]].
  simpl. eapply moved_eq; [eapply moved_trans; [exact Hu1|]; eapply moved_trans; [exact Hm|];
    eapply moved_trans; [exact Hu|]; eapply moved_trans; [exact Ht|exact Hm4]|lia..].
Qed.

Lemma unmoved_frees (l : list queue) d :
  unmoved d (foldl (λ d q, emit (EvFreeMqd (q_addr q)) d) d l).
Proof.
  revert d. induction l as [|q l IH]; intros d; simpl; [apply unmoved_refl|].
  eapply unmoved_trans; [|apply IH]. apply unmoved_emit, unmoved_refl.
Qed.

Lemma process_termination_cpsch_sound nv d p pid :
  qpd_wf nv p →
  let '(_, d', p') := process_termination_cpsch e h d p pid in
  sound nv (requeue (unregistered pid (dqm_queues d)) d) p d' p' ∧
  queues_list p' = [] ∧ priv_queue_list p' = [].
Proof.
  intros Hwf. unfold process_termination_cpsch. cbv zeta.
  pose proof (terminate_kernel_queues_sound nv d p Hwf) as Hk.
  destruct (terminate_kernel_queues _ d p) as [d1 p1]. destruct Hk as (Hs1 & Hl1 & Hp1 & _).
  pose proof (terminate_user_queues_moved (queues_list p1) d1 p1 0) as Hm.
  destruct (terminate_user_queues e h _ d1 p1 0) as [[r2 d2] p2].
  destruct Hm as (Hm2 & [Hl2 Hp2] & [He2 Hd2]).
  set (d3 := match remove_first pid (dqm_queues d2) with Some _ => _ | None => _ end).
  set (l := unregistered pid (dqm_queues d)).
  assert (Hq2 : dqm_queues d2 = dqm_queues d).
  { rewrite (moved_queues _ _ _ _ _ _ Hm2). apply (moved_queues _ _ _ _ _ _ (proj1 Hs1)). }
  assert (Hu3 : unmoved (requeue l d2) d3).
  { subst d3 l. unfold unregistered. rewrite <- Hq2.
    destruct (remove_first _ _); simpl; [apply unmoved_unregister|].
    rewrite requeue_same. apply unmoved_refl. }
  clearbody d3.
  destruct (if negb (enable_mes e) then _ else _) as [r4 d4] eqn:E4.
  assert (Hu4 : unmoved d3 d4).
  { destruct (negb (enable_mes e)); [|simplify_eq; apply unmoved_refl].
    match type of E4 with execute_queues_cpsch h d3 ?f 0 ?g = _ =>
      pose proof (unmoved_execute h d3 f 0 g) as Hu; by rewrite E4 in Hu end. }
  destruct (if negb (is_hws_hang d4) && _ then _ else _) as [d5 p5] eqn:E5.
  assert (unmoved d4 d5 ∧ same_lists p2 p5 ∧ same_rest p2 p5) as (Hu5 & [Hl5 Hp5] & [He5 Hd5]).
  { destruct (_ && _); simplify_eq; split_and!; try done; [apply unmoved_emit|]; apply unmoved_refl. }
  split_and!; [|done|simpl; congruence].
  eapply sound_trans; [by apply sound_requeue|]. destruct Hs1 as [_ Hwf1]. split.
  - eapply tracks_moved;
      [eapply moved_trans; [apply moved_requeue, Hm2|]; eapply moved_trans; [exact Hu3|];
       eapply moved_trans; [exact Hu4|]; eapply moved_trans; [exact Hu5|apply unmoved_frees]|..];
      unfold_loads; simpl; rewrite Hp5, Hp2, Hp1; simpl; lia.
  - split; simpl; try constructor.
    + rewrite Hp5, Hp2, Hp1. constructor.
    + rewrite He5, He2. apply (wf_width _ _ Hwf1).
    + rewrite He5, He2. apply (wf_width _ _ Hwf1).
Qed.
End Process.
