(* ===== verification/DqmSystem.v ===== *)
(** * The device queue manager behind its operation table

    [device_queue_manager_init] fills [dqm->ops] with the functions of one of
    the two schedulers, and the rest of the driver only calls through that
    table.  [Scheduler] states what the callers rely on; both tables are
    instances.  On top of the interface, whole histories of requests by any
    number of processes keep the counters equal to what the queues say. *)

From S2P Require Import Prelude DqmState DqmOps DqmCounts DqmProc.

Abbreviation dqm := device_queue_manager.
Abbreviation qpd := qcm_process_device.

(** ** The operation table *)

(** The members of [struct device_queue_manager_ops] that move queues; the
    creation is in two sections, between which other threads take the lock.
    [woken] is what the thread that destroys a suspended queue finds when it is
    woken; a table without kernel queues has [None]. *)
Record device_queue_manager_ops := mk_ops {
  ops_create_begin : dqm → queue → qpd → option criu_queue_data → create_step;
  ops_create_end : dqm → queue → qpd → option criu_queue_data → Z * dqm * qpd * queue;
  ops_destroy_queue : option (dqm * qpd * queue) → dqm → qpd → queue → Z * dqm * qpd;
  ops_update_queue : dqm → qpd → queue → Z * dqm * qpd * queue;
  ops_create_kernel_queue : option (dqm → queue → qpd → Z * dqm * qpd);
  ops_destroy_kernel_queue : option (dqm → queue → qpd → dqm * qpd);
  ops_process_termination : dqm → qpd → Z → option (Z * dqm * qpd);
  ops_evict_process_queues : dqm → qpd → Z * dqm * qpd;
  ops_restore_process_queues : dqm → qpd → Z * dqm * qpd;
}.

(** A creation that nobody interrupts. *)
Definition ops_create_queue (ops : device_queue_manager_ops) (d : dqm) (q : queue) (p : qpd)
    (qd : option criu_queue_data) : Z * dqm * qpd * queue :=
  match ops_create_begin ops d q p qd with
  | inl res => res
  | inr (d, p, q) => ops_create_end ops d q p qd
  end.

Definition cpsch_ops (e : dev_env) (h : hw_env) : device_queue_manager_ops := {|
  ops_create_begin := create_queue_cpsch_begin e h;
  ops_create_end := create_queue_cpsch_end e h;
  ops_destroy_queue := λ woken d p q, (destroy_queue_cpsch e h woken d p q).1;
  ops_update_queue := update_queue e h false;
  ops_create_kernel_queue := Some (create_kernel_queue_cpsch e h);
  ops_destroy_kernel_queue := Some (destroy_kernel_queue_cpsch h);
  ops_process_termination := λ d p pid, Some (process_termination_cpsch e h d p pid);
  ops_evict_process_queues := evict_process_queues_cpsch e h;
  ops_restore_process_queues := restore_process_queues_cpsch e h;
|}.

(** The loop of the termination is given as many iterations as there are queues. *)
Definition nocpsch_ops (e : dev_env) (h : hw_env) : device_queue_manager_ops := {|
  ops_create_begin := create_queue_nocpsch_begin e h;
  ops_create_end := create_queue_nocpsch_end e h;
  ops_destroy_queue := λ _ d p q, destroy_queue_nocpsch e h d p q;
  ops_update_queue := update_queue e h true;
  ops_create_kernel_queue := None;
  ops_destroy_kernel_queue := None;
  ops_process_termination := λ d p pid,
    process_termination_nocpsch e h (length (queues_list p)) d p pid;
  ops_evict_process_queues := evict_process_queues_nocpsch h;
  ops_restore_process_queues := restore_process_queues_nocpsch h;
|}.

(** A queue that is being created shows that its process is evicted.  A scheduler
    that looks at the process [late], when it links the queue, needs no more. *)
Definition flagged (late : bool) (p : qpd) (q : queue) : Prop :=
  late = false → evicted p ≠ 0 → is_evicted (properties q) = true.

(** What the callers of the table rely on: on a manager that is [ready], each
    operation is total and moves the counters as it moves the queues of the
    well-formed process it works on. *)
Class Scheduler (ops : device_queue_manager_ops) := {
  needs_vm : bool;
  late : bool;
  ready : dqm → Prop;
  ready_sched d d' : sched_running d' = sched_running d → ready d → ready d';
  create_begin_law d p q qd :
    ready d → qpd_wf needs_vm p → q_addr q ∉ addrs (queues_list p) → user_type q = true →
    match ops_create_begin ops d q p qd with
    | inl (_, d', p', _) => sound needs_vm d p d' p'
    | inr (d', p', q') => sound needs_vm d p d' p' ∧ keeps q q' ∧
        addrs (queues_list p') = addrs (queues_list p) ∧ flagged late p' q'
    end;
  create_end_law d p q qd :
    ready d → qpd_wf needs_vm p → q_addr q ∉ addrs (queues_list p) → user_type q = true →
    flagged late p q →
    let '(_, d', p', _) := ops_create_end ops d q p qd in sound needs_vm d p d' p';
  destroy_law woken d p q :
    ready d → qpd_wf needs_vm p → q ∈ queues_list p → woken_sound needs_vm d p woken →
    let '(_, d', p') := ops_destroy_queue ops woken d p q in sound needs_vm d p d' p';
  update_law d p q :
    ready d → qpd_wf needs_vm p → q ∈ queues_list p →
    let '(_, d', p', _) := ops_update_queue ops d p q in sound needs_vm d p d' p';
  create_kernel_law f d p kq :
    ops_create_kernel_queue ops = Some f →
    qpd_wf needs_vm p → q_addr kq ∉ addrs (priv_queue_list p) →
    let '(_, d', p') := f d kq p in sound needs_vm d p d' p';
  destroy_kernel_law f d p kq :
    ops_destroy_kernel_queue ops = Some f →
    qpd_wf needs_vm p → kq ∈ priv_queue_list p →
    let '(d', p') := f d kq p in sound needs_vm d p d' p';
  termination_law d p pid :
    ready d → qpd_wf needs_vm p →
    ∃ r d' p', ops_process_termination ops d p pid = Some (r, d', p') ∧
      sound needs_vm (requeue (unregistered pid (dqm_queues d)) d) p d' p' ∧ queues_list p' = [];
  evict_law d p :
    ready d → qpd_wf needs_vm p →
    let '(_, d', p') := ops_evict_process_queues ops d p in
    sound needs_vm d p d' p' ∧ addrs (queues_list p') = addrs (queues_list p);
  restore_law d p :
    ready d → qpd_wf needs_vm p →
    let '(_, d', p') := ops_restore_process_queues ops d p in
    sound needs_vm d p d' p' ∧ addrs (queues_list p') = addrs (queues_list p) ∧
    (evicted p' ≠ 0 → evicted p ≠ 0);
}.

(** Both sections, from their outcomes. *)
Lemma begin_sound nv lt d p q step :
  begin_outcome d p q step → qpd_wf nv p →
  q_addr q ∉ addrs (queues_list p) → user_type q = true →
  (∀ d' p' q', step = inr (d', p', q') → flagged lt p' q') →
  match step with
  | inl (_, d', p', _) => sound nv d p d' p'
  | inr (d', p', q') => sound nv d p d' p' ∧ keeps q q' ∧
      addrs (queues_list p') = addrs (queues_list p) ∧ flagged lt p' q'
  end.
Proof.
  intros Hb Hwf Hf Ht Hflag. destruct step as [[[[r d'] p'] q']|[[d' p'] q']].
  - destruct Hb as [Hb _]. by apply (create_sound nv d p q _ Hb Hwf Hf Ht).
  - destruct Hb as [? [Hl ?] ? ?]. split_and!; [by apply sound_unmoved|done|by rewrite Hl|].
    by apply (Hflag d').
Qed.

Lemma user_type_keeps q q' : keeps q q' → user_type q = true → user_type q' = true.
Proof. intros (_ & Ht & _). unfold user_type, has_hw_slot, is_sdma. by rewrite Ht. Qed.

(** The hardware scheduler with the runlist (not the MES). *)
#[refine] Instance cpsch_scheduler e h (Hmes : enable_mes e = false) : Scheduler (cpsch_ops e h) := {|
  needs_vm := true;
  late := true;
  ready := λ _, True;
|}.
Proof.
  - done.
  - intros d p q qd _ Hwf Hf Ht.
    by apply (begin_sound true true d p q _ (create_queue_cpsch_begin_outcome e h d q p qd)).
  - intros d p q qd _ Hwf Hf Ht _. cbn [cpsch_ops ops_create_end].
    pose proof (create_sound true d p q _ (create_queue_cpsch_end_outcome e h d q p qd Hf) Hwf Hf Ht) as H.
    by destruct (create_queue_cpsch_end _ _ _ _ _ _) as [[[??]?]?].
  - intros woken d p q _ Hwf Hin Hw. cbn [cpsch_ops ops_destroy_queue].
    pose proof (destroy_queue_cpsch_sound e h true woken d p q Hwf Hin Hw) as H.
    by destruct (destroy_queue_cpsch _ _ _ _ _ _) as [[[??]?]?].
  - intros d p q _ Hwf Hin. cbn [cpsch_ops ops_update_queue].
    pose proof (update_queue_sound e h true false d p q Hwf Hin) as H.
    by destruct (update_queue _ _ _ _ _ _) as [[[??]?]?].
  - intros f d p kq [= <-] Hwf Hf.
    pose proof (create_kernel_queue_cpsch_sound e h true d kq p Hwf Hf) as H.
    by destruct (create_kernel_queue_cpsch _ _ _ _ _) as [[??]?].
  - intros f d p kq [= <-] Hwf Hf.
    pose proof (destroy_kernel_queue_cpsch_sound h true d kq p Hwf Hf) as H.
    by destruct (destroy_kernel_queue_cpsch _ _ _ _) as [??].
  - intros d p pid _ Hwf. pose proof (process_termination_cpsch_sound e h true d p pid Hwf) as H.
    cbn [cpsch_ops ops_process_termination].
    destruct (process_termination_cpsch _ _ _ _ _) as [[r d'] p']. exists r, d', p'.
    split; [done|]. by destruct H as (? & ? & _).
  - intros d p _ Hwf. pose proof (evict_process_queues_cpsch_sound e h d p Hwf) as H.
    pose proof (evict_process_queues_cpsch_addrs e h d p).
    cbn [cpsch_ops ops_evict_process_queues].
    by destruct (evict_process_queues_cpsch _ _ _ _) as [[??]?].
  - intros d p _ Hwf. pose proof (restore_process_queues_cpsch_sound e h d p Hmes Hwf) as H.
    pose proof (restore_process_queues_cpsch_addrs e h d p Hmes Hwf).
    cbn [cpsch_ops ops_restore_process_queues].
    by destruct (restore_process_queues_cpsch _ _ _ _) as [[??]?].
Defined.

(** The software scheduler, while it runs: [destroy_queue_nocpsch_locked] leaves
    the queue in the list of a stopped manager. *)
#[refine] Instance nocpsch_scheduler e h : Scheduler (nocpsch_ops e h) := {|
  needs_vm := false;
  late := false;
  ready := λ d, sched_running d = true;
|}.
Proof.
  - congruence.
  - intros d p q qd _ Hwf Hf Ht.
    destruct (create_queue_nocpsch_begin_outcome e h d q p qd) as [Hb Hev].
    apply (begin_sound false false d p q _ Hb Hwf Hf Ht).
    intros d' p' q' E _ Hnz. rewrite (Hev _ _ _ E). by apply nz_true.
  - intros d p q qd _ Hwf Hf Ht Hfl. cbn [nocpsch_ops ops_create_end].
    pose proof (create_sound false d p q _
      (create_queue_nocpsch_end_outcome e h d q p qd (Hfl eq_refl)) Hwf Hf Ht) as H.
    by destruct (create_queue_nocpsch_end _ _ _ _ _ _) as [[[??]?]?].
  - intros woken d p q Hr Hwf Hin _. cbn [nocpsch_ops ops_destroy_queue].
    pose proof (destroy_queue_nocpsch_sound e h false d p q Hwf Hin Hr) as H.
    by destruct (destroy_queue_nocpsch _ _ _ _ _) as [[??]?].
  - intros d p q _ Hwf Hin. cbn [nocpsch_ops ops_update_queue].
    pose proof (update_queue_sound e h false true d p q Hwf Hin) as H.
    by destruct (update_queue _ _ _ _ _ _) as [[[??]?]?].
  - done.
  - done.
  - intros d p pid Hr Hwf. by apply process_termination_nocpsch_total.
  - intros d p _ Hwf. pose proof (evict_process_queues_nocpsch_sound h false d p Hwf) as H.
    pose proof (evict_process_queues_nocpsch_addrs h d p).
    cbn [nocpsch_ops ops_evict_process_queues].
    by destruct (evict_process_queues_nocpsch _ _ _) as [[??]?].
  - intros d p _ Hwf. pose proof (restore_process_queues_nocpsch_sound h d p Hwf) as H.
    pose proof (restore_process_queues_nocpsch_addrs h d p Hwf).
    cbn [nocpsch_ops ops_restore_process_queues].
    by destruct (restore_process_queues_nocpsch _ _ _) as [[??]?].
Defined.

(** The uninterrupted creation. *)
Lemma create_law `{Scheduler ops} d p q qd :
  ready d → qpd_wf needs_vm p → q_addr q ∉ addrs (queues_list p) → user_type q = true →
  let '(_, d', p', _) := ops_create_queue ops d q p qd in sound needs_vm d p d' p'.
Proof.
  intros Hr Hwf Hf Ht. unfold ops_create_queue.
  pose proof (create_begin_law d p q qd Hr Hwf Hf Ht) as Hb.
  destruct (ops_create_begin ops d q p qd) as [[[[r d'] p'] q']|[[d1 p1] q1]]; [done|].
  destruct Hb as ([Htr Hwf1] & Hk & Ha & Hfl).
  assert (Hr1 : ready d1) by (eapply ready_sched; [apply Htr|done]).
  pose proof (create_end_law d1 p1 q1 qd Hr1 Hwf1) as He. rewrite Ha in He.
  destruct (ops_create_end ops d1 q1 p1 qd) as [[[r d2] p2] q2].
  eapply sound_trans; [by split|]. apply He; [|by eapply user_type_keeps|done].
  by destruct Hk as (-> & _).
Qed.

(** ** Histories of requests *)

(** [creating]: the processes with a thread inside a creation, between its two
    sections, and the queue it creates.  The thread holds the mutex of the process. *)
Record system := mk_system {
  manager : dqm;
  procs : gmap Z qpd;
  creating : gmap Z (queue * option criu_queue_data);
}.
#[export] Instance eta_system : Eta system := λ s, mk_system (manager s) (procs s) (creating s).

(** What the processes, the debugger and the memory manager ask for.  Queues are
    named by the address of their object.  [ReqCreate] runs the first section of a
    creation and [ReqCreateEnd] the second. *)
Inductive request :=
  | ReqRegister (pid : Z) (p : qpd)
  | ReqCreate (pid : Z) (q : queue) (qd : option criu_queue_data)
  | ReqCreateEnd (pid : Z)
  | ReqDestroy (pid addr : Z) (woken : bool)
  | ReqUpdate (pid addr : Z) (address size percent : Z)
  | ReqSetGws (pid addr : Z) (g : bool)
  | ReqSuspend (pid addr : Z)
  | ReqResume (pid addr : Z)
  | ReqEvict (pid : Z)
  | ReqRestore (pid : Z)
  | ReqCreateKernel (pid : Z) (kq : queue)
  | ReqDestroyKernel (pid addr : Z)
  | ReqTerminate (pid : Z).

Definition find_queue (addr : Z) (l : list queue) : option queue :=
  snd <$> list_find (λ q, q_addr q = addr) l.

(** A process registers with no queue and not evicted. *)
Definition fresh_qpd (p : qpd) : bool :=
  list_empty (queues_list p) && list_empty (priv_queue_list p) && (evicted p =? 0).

(** Fields of the queue set by [pqm_update_queue_properties] and [pqm_set_gws]
    before they call [update_queue]. *)
Definition user_update (address size percent : Z) (q : queue) : queue :=
  set_props (λ pr, pr <| queue_address := address |> <| queue_size := size |>
                      <| queue_percent := percent |>) q.

Section System.
Context (e : dev_env) (h : hw_env) (ops : device_queue_manager_ops) {sched : Scheduler ops}.

Definition put (pid : Z) (r : dqm * qpd) (s : system) : system :=
  s <| manager := r.1 |> <| procs ::= <[pid := r.2]> |>.

(** Run [f] on the process [pid], or on its queue at [addr]. *)
Definition with_proc (pid : Z) (f : dqm → qpd → dqm * qpd) (s : system) : system :=
  match procs s !! pid with Some p => put pid (f (manager s) p) s | None => s end.
(** The caller takes the mutex of the process first: while a creation holds it the
    request waits, and comes later. *)
Definition with_mutex (pid : Z) (f : dqm → qpd → dqm * qpd) (s : system) : system :=
  match creating s !! pid with Some _ => s | None => with_proc pid f s end.
Definition with_queue (pid addr : Z) (f : dqm → qpd → queue → dqm * qpd) (s : system) : system :=
  with_mutex pid (λ d p,
    match find_queue addr (queues_list p) with Some q => f d p q | None => (d, p) end) s.

Definition handle (s : system) (r : request) : system :=
  match r with
  | ReqRegister pid p =>
      match procs s !! pid with
      | Some _ => s
      | None =>
          if negb (fresh_qpd p) then s
          else
            let '(ret, d, p) := register_process h (manager s) p pid in
            if nz ret then s <| manager := d |> else put pid (d, p) s
      end
  | ReqCreate pid q qd =>
      match creating s !! pid, procs s !! pid with
      | None, Some p =>
          if user_type q && negb (bool_decide (q_addr q ∈ addrs (queues_list p))) then
            match ops_create_begin ops (manager s) q p qd with
            | inl (_, d, p, _) => put pid (d, p) s
            | inr (d, p, q) => (put pid (d, p) s) <| creating ::= <[pid := (q, qd)]> |>
            end
          else s
      | _, _ => s
      end
  | ReqCreateEnd pid =>
      match creating s !! pid with
      | Some (q, qd) =>
          with_proc pid (λ d p, let '(_, d, p, _) := ops_create_end ops d q p qd in (d, p))
            (s <| creating ::= delete pid |>)
      | None => s
      end
  | ReqDestroy pid addr woken =>
      with_queue pid addr (λ d p q,
        let '(_, d, p) :=
          ops_destroy_queue ops (if woken then Some (d, p, q) else None) d p q in (d, p)) s
  | ReqUpdate pid addr a sz pc =>
      with_queue pid addr (λ d p q,
        let q := user_update a sz pc q in
        let '(_, d, p, _) := ops_update_queue ops d (in_place p q) q in (d, p)) s
  | ReqSetGws pid addr g =>
      with_queue pid addr (λ d p q,
        let q := q <| gws := g |> in
        let '(_, d, p, _) := ops_update_queue ops d (in_place p q) q in (d, p)) s
  | ReqSuspend pid addr =>
      with_queue pid addr (λ d p q,
        let '(_, d, p, q) := suspend_single_queue e h d p q in (d, in_place p q)) s
  | ReqResume pid addr =>
      with_queue pid addr (λ d p q,
        let '(_, d, p, q) := resume_single_queue e h d p q in (d, in_place p q)) s
  | ReqEvict pid =>
      with_proc pid (λ d p, let '(_, d, p) := ops_evict_process_queues ops d p in (d, p)) s
  | ReqRestore pid =>
      with_proc pid (λ d p, let '(_, d, p) := ops_restore_process_queues ops d p in (d, p)) s
  | ReqCreateKernel pid kq =>
      with_mutex pid (λ d p,
        match ops_create_kernel_queue ops with
        | Some f =>
            if bool_decide (q_addr kq ∈ addrs (priv_queue_list p)) then (d, p)
            else let '(_, d, p) := f d kq p in (d, p)
        | None => (d, p)
        end) s
  | ReqDestroyKernel pid addr =>
      with_mutex pid (λ d p,
        match ops_destroy_kernel_queue ops, find_queue addr (priv_queue_list p) with
        | Some f, Some kq => f d kq p
        | _, _ => (d, p)
        end) s
  | ReqTerminate pid =>
      with_mutex pid (λ d p,
        match ops_process_termination ops d p pid with
        | Some (_, d, p) => (d, p)
        | None => (d, p)
        end) s
  end.

(** The process is not evicted, from not being evicted, between the two sections of
    a creation. *)
Definition calm (s : system) (r : request) : bool :=
  match r with
  | ReqEvict pid =>
      match creating s !! pid, procs s !! pid with
      | Some _, Some p => nz (evicted p)
      | _, _ => true
      end
  | _ => true
  end.

Fixpoint calm_history (s : system) (l : list request) : bool :=
  match l with
  | [] => true
  | r :: l => calm s r && calm_history (handle s r) l
  end.

(** The queue in creation can be linked to the process. *)
Definition linkable (p : qpd) (q : queue) : Prop :=
  (q_addr q ∉ addrs (queues_list p)) ∧ user_type q = true ∧ flagged late p q.

(** The counters are what the queues of the processes say. *)
Record consistent (s : system) : Prop := {
  cons_widths : widths (manager s);
  cons_active : eq32 (active_queue_count (manager s)) (msum load_active (procs s));
  cons_cp : eq32 (active_cp_queue_count (manager s)) (msum load_cp (procs s));
  cons_gws : eq32 (gws_queue_count (manager s)) (msum load_gws (procs s));
  cons_total : eq32 (total_queue_count (manager s)) (msum load_total (procs s));
  cons_wf : map_Forall (λ _, qpd_wf needs_vm) (procs s);
  cons_ready : ready (manager s);
  cons_creating pid q qd : creating s !! pid = Some (q, qd) →
    ∃ p, procs s !! pid = Some p ∧ linkable p q;
}.

Lemma find_queue_Some addr l q : find_queue addr l = Some q → q ∈ l ∧ q_addr q = addr.
Proof.
  unfold find_queue. intros H. apply fmap_Some in H as ([i x] & Hf & ->).
  apply list_find_Some in Hf as (Hi & Ha & _). split; [|done]. by eapply list_elem_of_lookup_2.
Qed.

(** Registration aside. *)
Definition sound_upto (d : dqm) (p : qpd) (d' : dqm) (p' : qpd) : Prop :=
  ∃ l, sound needs_vm (requeue l d) p d' p'.

Lemma sound_sound_upto d p d' p' : sound needs_vm d p d' p' → sound_upto d p d' p'.
Proof. exists (dqm_queues d). by rewrite requeue_same. Qed.

Lemma consistent_put s pid p d' p' :
  consistent s → procs s !! pid = Some p → sound_upto (manager s) p d' p' →
  (∀ q qd, creating s !! pid = Some (q, qd) → linkable p' q) →
  consistent (put pid (d', p') s).
Proof.
  intros [Hw Ha Hc Hg Ht Hwf Hr Hcr] Hp [l [[Ma Mc Mg Mt Ms _ Mw] Hwf']] Hlk. simpl in *.
  split; simpl.
  - apply Mw. destruct Hw. by split.
  - rewrite (msum_update _ _ _ p) by done. rewrite Ma, Ha. apply eq32_eq. lia.
  - rewrite (msum_update _ _ _ p) by done. rewrite Mc, Hc. apply eq32_eq. lia.
  - rewrite (msum_update _ _ _ p) by done. rewrite Mg, Hg. apply eq32_eq. lia.
  - rewrite (msum_update _ _ _ p) by done. rewrite Mt, Ht. apply eq32_eq. lia.
  - by apply map_Forall_insert_2.
  - by eapply ready_sched.
  - intros pid' q qd Hq. destruct (decide (pid' = pid)) as [->|Hne].
    + exists p'. rewrite lookup_insert_eq. split; [done|]. by eapply Hlk.
    + rewrite lookup_insert_ne by done. by eapply Hcr.
Qed.

Lemma consistent_with_proc s pid f :
  consistent s →
  (∀ p, procs s !! pid = Some p → qpd_wf needs_vm p →
     sound_upto (manager s) p (f (manager s) p).1 (f (manager s) p).2 ∧
     ∀ q qd, creating s !! pid = Some (q, qd) → linkable p q → linkable (f (manager s) p).2 q) →
  consistent (with_proc pid f s).
Proof.
  intros Hc Hf. unfold with_proc. destruct (procs s !! pid) as [p|] eqn:Hp; [|done].
  pose proof (cons_wf s Hc pid p Hp) as Hwf. destruct (Hf p eq_refl Hwf) as [Hs Hl].
  destruct (f (manager s) p) as [d1 p1]. eapply consistent_put; [done..|].
  intros q qd Hq. destruct (cons_creating s Hc pid q qd Hq) as (p0 & ? & ?).
  simplify_eq. by eapply Hl.
Qed.

Lemma consistent_with_mutex s pid f :
  consistent s →
  (∀ p, qpd_wf needs_vm p → sound_upto (manager s) p (f (manager s) p).1 (f (manager s) p).2) →
  consistent (with_mutex pid f s).
Proof.
  intros Hc Hf. unfold with_mutex. destruct (creating s !! pid) eqn:Hn; [done|].
  apply consistent_with_proc; [done|]. intros p _ Hwf. split; [by apply Hf|]. congruence.
Qed.

Lemma sound_refl nv d p : qpd_wf nv p → sound nv d p d p.
Proof. intros. apply sound_unmoved; done || apply unmoved_refl. Qed.

Lemma consistent_with_queue s pid addr f :
  consistent s →
  (∀ p q, qpd_wf needs_vm p → q ∈ queues_list p →
     sound needs_vm (manager s) p (f (manager s) p q).1 (f (manager s) p q).2) →
  consistent (with_queue pid addr f s).
Proof.
  intros Hc Hf. apply consistent_with_mutex; [done|]. intros p Hwf. apply sound_sound_upto.
  destruct (find_queue addr (queues_list p)) as [q|] eqn:Hq; [|by apply sound_refl].
  apply find_queue_Some in Hq as [Hq _]. by apply Hf.
Qed.

(** The fields written before [update_queue] count for nothing. *)
Lemma update_after_write d p q q' :
  ready d → qpd_wf needs_vm p → q ∈ queues_list p → keeps q q' → qactive q' = qactive q →
  is_evicted (properties q') = is_evicted (properties q) →
  is_gws (properties q') = is_gws (properties q) → idle q' →
  let '(_, d', p', _) := ops_update_queue ops d (in_place p q') q' in sound needs_vm d p d' p'.
Proof.
  intros Hr Hwf Hin Hk Ha He Hg Hi.
  assert (Hs : sound needs_vm d p d (in_place p q')).
  { by apply (in_place_sound needs_vm d p d q q' Hwf Hin (unmoved_refl d)). }
  pose proof (update_law d (in_place p q') q' Hr) as Hu.
  destruct (ops_update_queue ops d (in_place p q') q') as [[[r d'] p'] q''].
  eapply sound_trans; [exact Hs|]. apply Hu; [apply Hs|].
  unfold in_place. simpl. eapply list_update_elem; [done|apply Hk].
Qed.

(** Leaving the second section: the process no longer creates. *)
Lemma consistent_created s pid :
  consistent s → consistent (s <| creating ::= delete pid |>).
Proof.
  intros [? ? ? ? ? ? ? Hcr]. split; try done. simpl. intros pid' q qd Hq.
  apply lookup_delete_Some in Hq as [_ Hq]. by eapply Hcr.
Qed.

Lemma consistent_creating s pid p q qd :
  consistent s → procs s !! pid = Some p → linkable p q →
  consistent (s <| creating ::= <[pid := (q, qd)]> |>).
Proof.
  intros [? ? ? ? ? ? ? Hcr] Hp Hl. split; try done. simpl. intros pid' q' qd'.
  rewrite lookup_insert_Some. intros [[<- [= <- <-]]|[_ Hq]]; [by exists p|].
  by eapply Hcr.
Qed.

Lemma register_consistent s pid p :
  consistent s → consistent (handle s (ReqRegister pid p)).
Proof.
  intros Hc. pose proof (cons_ready s Hc) as Hr. cbn [handle].
  destruct (procs s !! pid) eqn:Hp; [done|]. destruct (fresh_qpd p) eqn:Hf; simpl negb; [|done].
  unfold fresh_qpd in Hf. bool_to_Prop.
  destruct (queues_list p) eqn:Hl; [|done]. destruct (priv_queue_list p) eqn:Hpl; [|done].
  unfold register_process. destruct (negb (hw_zalloc h)).
  - simpl. destruct s; apply Hc.
  - cbn [nz]. destruct Hc as [Hw Ha Hcc Hg Ht Hwf _ Hcr].
    assert (Hz : ∀ f : qpd → Z, f (p <| page_table_base := hw_page_dir h |>) = 0 →
      msum f (<[pid := p <| page_table_base := hw_page_dir h |>]> (procs s)) = msum f (procs s)).
    { intros f Hf0. rewrite msum_insert_None by done. lia. }
    split; simpl; try (rewrite Hz; [done|unfold_loads; simpl; rewrite Hl, Hpl; done]).
    + destruct Hw; by split.
    + apply map_Forall_insert_2; [|done]. split; simpl; rewrite ?Hl, ?Hpl; try constructor; lia.
    + by eapply ready_sched; [|exact Hr].
    + intros pid' q qd Hq. destruct (Hcr pid' q qd Hq) as (p' & Hp' & ?). exists p'.
      split; [|done]. rewrite lookup_insert_ne; [done|]. congruence.
Qed.

Lemma create_consistent s pid q qd :
  consistent s → consistent (handle s (ReqCreate pid q qd)).
Proof.
  intros Hc. cbn [handle]. destruct (creating s !! pid) eqn:Hn; [done|].
  destruct (procs s !! pid) as [p|] eqn:Hp; [|done]. destruct (_ && _) eqn:Hg; [|done].
  bool_to_Prop. rewrite bool_decide_eq_false in *.
  pose proof (create_begin_law (manager s) p q qd (cons_ready s Hc) (cons_wf s Hc pid p Hp)) as Hl.
  destruct (ops_create_begin ops _ q p qd) as [[[[r d] p1] q1]|[[d p1] q1]].
  - eapply consistent_put; [done..| |congruence]. by apply sound_sound_upto, Hl.
  - destruct Hl as (Hs & Hk & Ha & Hfl); [done..|].
    eapply (consistent_creating _ _ p1).
    + eapply consistent_put; [done..| |congruence]. by apply sound_sound_upto.
    + simpl. apply lookup_insert_eq.
    + split_and!; [|by eapply user_type_keeps|done]. rewrite Ha. by destruct Hk as (-> & _).
Qed.

Lemma create_end_consistent s pid :
  consistent s → consistent (handle s (ReqCreateEnd pid)).
Proof.
  intros Hc. cbn [handle]. destruct (creating s !! pid) as [[q qd]|] eqn:Hq; [|done].
  destruct (cons_creating s Hc pid q qd Hq) as (p0 & Hp0 & Hf & Ht & Hfl).
  apply consistent_with_proc; [by apply consistent_created|]. simpl. intros p Hp Hwf. simplify_eq.
  split; [|by rewrite lookup_delete_eq].
  pose proof (create_end_law (manager s) p0 q qd (cons_ready s Hc) Hwf Hf Ht Hfl) as Hl.
  apply sound_sound_upto. by destruct (ops_create_end ops _ q p0 qd) as [[[??]?]?].
Qed.

Lemma evict_consistent s pid :
  late = true ∨ calm s (ReqEvict pid) = true →
  consistent s → consistent (handle s (ReqEvict pid)).
Proof.
  intros Hcalm Hc. apply consistent_with_proc; [done|]. intros p Hp Hwf.
  pose proof (evict_law (manager s) p (cons_ready s Hc) Hwf) as Hl.
  destruct (ops_evict_process_queues ops _ p) as [[r d'] p']. destruct Hl as [Hs Ha].
  split; [by apply sound_sound_upto|]. intros q qd Hq (? & ? & Hfl).
  split_and!; [by simpl; rewrite Ha|done|]. intros Hlate _. apply Hfl; [done|].
  destruct Hcalm as [Hcalm|Hcalm]; [congruence|]. simpl in Hcalm. rewrite Hq, Hp in Hcalm.
  by bool_to_Prop.
Qed.

Lemma restore_consistent s pid : consistent s → consistent (handle s (ReqRestore pid)).
Proof.
  intros Hc. apply consistent_with_proc; [done|]. intros p Hp Hwf.
  pose proof (restore_law (manager s) p (cons_ready s Hc) Hwf) as Hl.
  destruct (ops_restore_process_queues ops _ p) as [[r d'] p']. destruct Hl as (Hs & Ha & He).
  split; [by apply sound_sound_upto|]. intros q qd Hq (? & ? & Hfl).
  split_and!; [by simpl; rewrite Ha|done|]. intros Hlate Hnz. by apply Hfl, He.
Qed.

Lemma handle_consistent s r :
  enable_mes e = false → late = true ∨ calm s r = true → consistent s → consistent (handle s r).
Proof.
  intros Hmes Hcalm Hc. pose proof (cons_ready s Hc) as Hr.
  destruct r as [pid p|pid q qd|pid|pid addr w|pid addr a sz pc|pid addr g|pid addr|pid addr
                |pid|pid|pid kq|pid addr|pid];
    [by apply register_consistent|by apply create_consistent|by apply create_end_consistent| | | | |
     |by apply evict_consistent|by apply restore_consistent| | | ]; cbn [handle].
  - apply consistent_with_queue; [done|]. intros p q Hwf Hin.
    assert (Hw : woken_sound needs_vm (manager s) p (if w then Some (manager s, p, q) else None)).
    { destruct w; simpl; [|done]. split; [by apply sound_refl|done]. }
    pose proof (destroy_law _ (manager s) p q Hr Hwf Hin Hw) as Hl.
    by destruct (ops_destroy_queue ops _ _ p q) as [[??]?].
  - apply consistent_with_queue; [done|]. intros p q Hwf Hin.
    pose proof (update_after_write (manager s) p q (user_update a sz pc q) Hr Hwf Hin) as Hl.
    cbv zeta. destruct (ops_update_queue ops _ _ _) as [[[??]?]?]. apply Hl; try done.
    apply (idle_in needs_vm p q Hwf Hin).
  - apply consistent_with_queue; [done|]. intros p q Hwf Hin.
    pose proof (update_after_write (manager s) p q (q <| gws := g |>) Hr Hwf Hin) as Hl.
    cbv zeta. destruct (ops_update_queue ops _ _ _) as [[[??]?]?]. apply Hl; try done.
    apply (idle_in needs_vm p q Hwf Hin).
  - apply consistent_with_queue; [done|]. intros p q Hwf Hin.
    pose proof (suspend_single_queue_sound e h needs_vm (manager s) p q Hmes Hwf Hin) as Hl.
    by destruct (suspend_single_queue _ _ _ _ _) as [[[??]?]?].
  - apply consistent_with_queue; [done|]. intros p q Hwf Hin.
    pose proof (resume_single_queue_sound e h needs_vm (manager s) p q Hmes Hwf Hin) as Hl.
    by destruct (resume_single_queue _ _ _ _ _) as [[[??]?]?].
  - apply consistent_with_mutex; [done|]. intros p Hwf. apply sound_sound_upto.
    destruct (ops_create_kernel_queue ops) as [f|] eqn:Ef; [|by apply sound_refl].
    case_bool_decide as Hin; [by apply sound_refl|].
    pose proof (create_kernel_law f (manager s) p kq Ef Hwf Hin) as Hl.
    by destruct (f _ kq p) as [[??]?].
  - apply consistent_with_mutex; [done|]. intros p Hwf. apply sound_sound_upto.
    destruct (ops_destroy_kernel_queue ops) as [f|] eqn:Ef; [|by apply sound_refl].
    destruct (find_queue _ _) as [kq|] eqn:Hk; [|by apply sound_refl].
    apply find_queue_Some in Hk as [Hk _].
    pose proof (destroy_kernel_law f (manager s) p kq Ef Hwf Hk) as Hl.
    by destruct (f _ kq p) as [??].
  - apply consistent_with_mutex; [done|]. intros p Hwf.
    destruct (termination_law (manager s) p pid Hr Hwf) as (r & d' & p' & -> & [Ht ?] & _).
    by eexists.
Qed.

Lemma history_consistent s l :
  enable_mes e = false → late = true ∨ calm_history s l = true →
  consistent s → consistent (foldl handle s l).
Proof.
  intros Hmes. revert s. induction l as [|r l IH]; intros s Hcalm Hc; simpl; [done|].
  apply IH; [|apply handle_consistent; [done| |done]]; destruct Hcalm as [?|Hcalm]; auto;
    simpl in Hcalm; bool_to_Prop; auto.
Qed.

(** With no process, any ready manager with null counters is consistent. *)
Lemma initial_consistent d :
  active_queue_count d = 0 → active_cp_queue_count d = 0 → gws_queue_count d = 0 →
  total_queue_count d = 0 → ready d → consistent (mk_system d ∅ ∅).
Proof.
  intros Ha Hc Hg Ht Hr. split; simpl; rewrite ?msum_empty; try (by rewrite ?Ha, ?Hc, ?Hg, ?Ht).
  - split; by rewrite ?Ha, ?Hc, ?Hg, ?Ht.
Qed.
End System.

(** ** The properties *)

(** The four counters, as the queues of the registered processes say. *)
Definition counters_exact (s : system) : Prop :=
  active_queue_count (manager s) = u32 (msum load_active (procs s)) ∧
  active_cp_queue_count (manager s) = u32 (msum load_cp (procs s)) ∧
  gws_queue_count (manager s) = u32 (msum load_gws (procs s)) ∧
  total_queue_count (manager s) = u32 (msum load_total (procs s)).

Lemma consistent_exact ops (sched : Scheduler ops) s :
  consistent ops s → counters_exact s.
Proof.
  intros [[? ? ? ?] Ha Hc Hg Ht _ _ _]. unfold eq32 in *.
  split_and!; [rewrite <- Ha|rewrite <- Hc|rewrite <- Hg|rewrite <- Ht]; symmetry;
    by apply wrap_small.
Qed.

(** C3. Hardware scheduling with runlists, that is without the MES: after any
    history of requests by any processes (creations, failed or not, with what the
    other threads do between their two sections, updates, GWS changes, nested
    evictions and restores, suspensions, kernel queues, destructions, interrupted or
    not, terminations), the counters of the manager are exactly the numbers of
    active, active compute, active GWS and existing queues of all the processes.
    With the MES they are not ([restore_mes_refused_counts_twice]). *)
Theorem cpsch_counters_exact e h d l :
  enable_mes e = false → total_queue_count d = 0 →
  counters_exact
    (foldl (handle e h (cpsch_ops e h)) (mk_system (initialize_cpsch e d) ∅ ∅) l).
Proof.
  intros Hmes Ht. apply (consistent_exact _ (cpsch_scheduler e h Hmes)).
  apply history_consistent; [done|by left|]. by apply initial_consistent.
Qed.

(** C4. Software scheduling: the same for the manager once started, each request
    terminating, [process_termination_nocpsch] included, in the histories where no
    process begins to be evicted while one of its creations has dropped the lock to
    allocate the MQD; otherwise see [evicted_while_created_counts_twice]. *)
Theorem nocpsch_counters_exact e h d l :
  enable_mes e = false → is_hawaii e = false → total_queue_count d = 0 →
  let s := mk_system (start_nocpsch e 0 (initialize_nocpsch e true d).2).2 ∅ ∅ in
  calm_history e h (nocpsch_ops e h) s l = true →
  counters_exact (foldl (handle e h (nocpsch_ops e h)) s l).
Proof.
  intros Hmes Hh Ht s Hcalm. apply (consistent_exact _ (nocpsch_scheduler e h)).
  apply history_consistent; [done|by right|].
  apply initial_consistent; unfold start_nocpsch; rewrite Hh; by simpl.
Qed.

(** [create_queue_nocpsch] computes [is_evicted] before it drops the lock.  When the
    process is evicted then, its new queue is linked, loaded and counted as active
    although the process is evicted, and the restoration counts it again. *)
Theorem evicted_while_created_counts_twice :
  let s := foldl (handle env0 hw0 (nocpsch_ops env0 hw0))
             (mk_system (start_nocpsch env0 0 (initialize_nocpsch env0 true dqm_zero).2).2 ∅ ∅)
             [ ReqRegister 1 qpd0; ReqCreate 1 (queue0 KFD_QUEUE_TYPE_COMPUTE 100 0) None;
               ReqEvict 1; ReqCreateEnd 1; ReqRestore 1 ] in
  msum load_active (procs s) = 1 ∧ active_queue_count (manager s) = 2 ∧
  active_cp_queue_count (manager s) = 2.
Proof. by vm_compute. Qed.

(** C31. A process of a running manager is terminated in as many iterations as it
    has queues, whatever the hardware answers: the loop ends with no queue left
    and the counters moved by what the process held. *)
Theorem process_termination_nocpsch_terminates e h nv d p pid :
  qpd_wf nv p → sched_running d = true →
  ∃ r d' p', process_termination_nocpsch e h (length (queues_list p)) d p pid = Some (r, d', p') ∧
    queues_list p' = [] ∧ tracks (requeue (unregistered pid (dqm_queues d)) d) p d' p' ∧
    sched_running d' = true.
Proof.
  intros Hwf Hs.
  destruct (process_termination_nocpsch_total e h nv d p pid Hwf Hs)
    as (r & d' & p' & Heq & [Ht _] & Hnil).
  exists r, d', p'. split_and!; [done..|]. by rewrite (moved_sched _ _ _ _ _ _ Ht).
Qed.

Lemma destroy_locked_stopped e h d p q :
  sched_running d = false →
  let '(_, d', p', q') := destroy_queue_nocpsch_locked e h d p q in
  sched_running d' = false ∧ queues_list p' = queues_list p.
Proof.
  intros Hs. unfold destroy_queue_nocpsch_locked.
  assert (Hd : sched_running (deallocate_sdma_queue e d q) = false).
  { unfold deallocate_sdma_queue. destruct (qtype q); try done; by destruct (_ <=? _). }
  destruct (deallocate_doorbell_lists e p q) as [Hl _].
  destruct (qtype q); cbv zeta; simpl sched_running; rewrite ?Hs, ?Hd; simpl; by rewrite ?Hl.
Qed.

(** A stopped manager never finishes terminating a process that has a queue:
    [destroy_queue_nocpsch_locked] returns before it unlinks the queue, so the
    loop finds it again, and frees its MQD again, however long it runs. *)
Theorem process_termination_nocpsch_stopped e h fuel d p pid :
  sched_running d = false → queues_list p ≠ [] →
  process_termination_nocpsch e h fuel d p pid = None.
Proof.
  intros Hs Hq. unfold process_termination_nocpsch.
  assert (Hn : ∀ d p r, sched_running d = false → queues_list p ≠ [] →
    terminate_loop_nocpsch e h fuel d p r = None); [|by rewrite Hn].
  clear d p Hs Hq. induction fuel as [|fuel IH]; intros d p r Hs Hq; cbn [terminate_loop_nocpsch];
    destruct (queues_list p) as [|q l] eqn:El; try done.
  pose proof (destroy_locked_stopped e h d p q Hs) as Hd.
  destruct (destroy_queue_nocpsch_locked e h d p q) as [[[r1 d1] p1] q1]. destruct Hd as [Hs1 Hl1].
  apply IH; [done|]. by rewrite Hl1, El.
Qed.

(** What is in the log when the preemption is asked for: the grace period, when the
    caller gives one. *)
Definition grace_log (d : dqm) (g : Z) : list hw_event :=
  if g =? USE_DEFAULT_GRACE_PERIOD then hw_log d else EvGracePeriod g :: hw_log d.
(** The packets of the preemption can be submitted. *)
Definition asked (h : hw_env) (d : dqm) (g : Z) : bool :=
  ((g =? USE_DEFAULT_GRACE_PERIOD) || (hw_grace_period h (hw_log d) =? 0))
  && (hw_send_unmap h (grace_log d g) =? 0).
(** The log after them. *)
Definition preempt_log (d : dqm) (f fp g : Z) : list hw_event :=
  EvQueryStatus :: EvSendUnmap f fp false :: grace_log d g.
(** The firmware acknowledges: the fence is written in time, and the HIQ names no
    queue that did not respond. *)
Definition acknowledged (h : hw_env) (log : list hw_event) : bool :=
  (hw_fence_wait h log =? 0) && negb (hw_hiq_doorbell_id h log).

(** Outcome of the preemption of a running manager that is not hung. *)
Lemma unmap_outcome h d f fp g :
  sched_running d = true → is_resetting d = false → is_hws_hang d = false →
  active_runlist d = true →
  let '(r, d') := unmap_queues_cpsch h d f fp g false in
  active_queue_count d' = active_queue_count d ∧ processes_count d' = processes_count d ∧
  sched_running d' = true ∧
  (∃ l, hw_log d' = l ++ hw_log d ∧ EvSendRunlist ∉ l) ∧
  is_hws_hang d' = asked h d g && negb (acknowledged h (preempt_log d f fp g)) ∧
  (is_hws_hang d' = true → r ≠ 0 ∧ active_runlist d' = true ∧
     hw_log d' = EvScheduleReset :: preempt_log d f fp g) ∧
  (r = 0 → active_runlist d' = false ∧ asked h d g = true ∧
     acknowledged h (preempt_log d f fp g) = true ∧
     ∃ l, hw_log d' = l ++ preempt_log d f fp g ∧ EvSendRunlist ∉ l).
Proof.
  intros Hs Hr Hh Ha. unfold unmap_queues_cpsch. rewrite Hs, Hr, Hh, Ha. cbn [negb orb].
  assert (Hng : ∃ l, grace_log d g = l ++ hw_log d ∧ EvSendRunlist ∉ l).
  { unfold grace_log. destruct (g =? _); [by exists []; split; [|apply not_elem_of_nil]|].
    exists [EvGracePeriod g]. by rewrite list_elem_of_singleton. }
  assert (Hnew : ∀ l, forallb (λ x, match x with EvSendRunlist => false | _ => true end) l = true →
    EvSendRunlist ∉ l).
  { intros l Hf Hx. rewrite forallb_forall in Hf. by specialize (Hf _ (proj1 (list_elem_of_In _ _) Hx)). }
  assert (Happ : ∀ l, forallb (λ x, match x with EvSendRunlist => false | _ => true end) l = true →
    ∃ l', l ++ grace_log d g = l' ++ hw_log d ∧ EvSendRunlist ∉ l').
  { intros l Hf. destruct Hng as (l2 & -> & Hn2). exists (l ++ l2). rewrite app_assoc.
    split; [done|]. rewrite elem_of_app. intros [Hx|]; [|done]. by apply (Hnew l Hf). }
  unfold asked, acknowledged, preempt_log.
  destruct (if negb (g =? USE_DEFAULT_GRACE_PERIOD) then _ else _) as [r0 d0] eqn:E0.
  assert (H0 : hw_log d0 = grace_log d g ∧ is_hws_hang d0 = false ∧ is_resetting d0 = false ∧
    active_runlist d0 = true ∧ sched_running d0 = true ∧
    active_queue_count d0 = active_queue_count d ∧ processes_count d0 = processes_count d ∧
    (g =? USE_DEFAULT_GRACE_PERIOD) || (hw_grace_period h (hw_log d) =? 0) = negb (nz r0)).
  { unfold grace_log. destruct (g =? _); simpl in E0; injection E0 as <- <-; simpl.
    - by rewrite Hh, Hr, Ha, Hs.
    - rewrite Hh, Hr, Ha, Hs. unfold nz. by rewrite negb_involutive. }
  destruct H0 as (Hl0 & Hh0 & Hr0 & Ha0 & Hs0 & Hc0 & Hp0 & ->).
  destruct (nz r0) eqn:Er0; bool_to_Prop.
  { simpl. split_and!; try done; [|congruence]. rewrite Hl0. by apply (Happ []). }
  cbn [negb andb]. cbv zeta. rewrite Hl0.
  destruct (nz (hw_send_unmap h (grace_log d g))) eqn:E1; bool_to_Prop.
  { assert ((hw_send_unmap h (grace_log d g) =? 0) = false) as -> by (by apply Z.eqb_neq).
    simpl. rewrite Hl0. split_and!; try done; [|congruence]. by apply (Happ [_]). }
  rewrite E1. cbn [Z.eqb andb]. simpl hw_log. rewrite Hl0.
  set (log := EvQueryStatus :: EvSendUnmap f fp false :: grace_log d g).
  destruct (nz (hw_fence_wait h log)) eqn:E2; bool_to_Prop.
  { assert ((hw_fence_wait h log =? 0) = false) as -> by (by apply Z.eqb_neq).
    unfold kfd_hws_hang. simpl. rewrite Hr0. simpl. rewrite Hl0. fold log.
    split_and!; try done. by apply (Happ [_; _; _]). }
  rewrite E2. destruct (hw_hiq_doorbell_id h log).
  { unfold kfd_hws_hang. simpl. rewrite Hr0. simpl. rewrite Hl0. fold log.
    split_and!; try done. by apply (Happ [_; _; _]). }
  destruct (negb _); simpl; rewrite Hl0, ?Hh0; fold log; split_and!; try done.
  - by apply (Happ [_; _; _; _]).
  - intros _. split_and!; [done..|]. eexists [_; _]. split; [done|]. by apply Hnew.
  - by apply (Happ [_; _; _]).
  - intros _. split_and!; [done..|]. eexists [_]. split; [done|]. by apply Hnew.
Qed.


(** One restoration of a process with the single queue [q]. *)
Lemma restore_mes_single e h d p q :
  enable_mes e = true → queues_list p = [q] → evicted p = 1 → drm_priv p = true →
  is_hws_hang d = false → has_hw_slot q = true → qtype q ≠ KFD_QUEUE_TYPE_SDMA_XGMI →
  QUEUE_IS_ACTIVE ((properties q) <| is_evicted := false |>) = true →
  let '(r, d', p') := restore_process_queues_cpsch e h d p in
  r = hw_add_hw_queue h (hw_log d) (q_addr q) ∧
  (r ≠ 0 → evicted p' = 1 ∧ drm_priv p' = true ∧ is_hws_hang d' = true) ∧
  queues_list p' = [set_props (λ pr, pr <| is_evicted := false |> <| is_active := true |>) q] ∧
  priv_queue_list p' = priv_queue_list p ∧
  active_queue_count d' = u32 (active_queue_count d + 1).
Proof.
  intros Hmes Hq He Hd Hh Ht Hx Hact. unfold restore_process_queues_cpsch. rewrite He, Hd, Hmes.
  cbn [nz Z.eqb negb Z.ltb Z.compare Pos.compare Pos.compare_cont]. cbv zeta.
  simpl queues_list. rewrite Hq. cbn [restore_loop_cpsch]. rewrite Hmes.
  change (properties (set_props (set_field is_evicted (λ _, false)) q))
    with ((properties q) <| is_evicted := false |>). rewrite Hact. cbn [negb].
  set (q2 := set_props _ _). set (p1 := p <| _ := _ |>).
  assert (Hinc : ∃ d1 p2, increment_queue_count d p1 q2 = (d1, p2) ∧
    is_hws_hang d1 = false ∧ hw_log d1 = hw_log d ∧ is_resetting d1 = is_resetting d ∧
    active_queue_count d1 = u32 (active_queue_count d + 1) ∧ same_lists p p2 ∧ same_rest p p2).
  { unfold increment_queue_count. destruct (counts_as_cp q2), (is_gws (properties q2));
      do 2 eexists; split_and!; reflexivity || done. }
  destruct Hinc as (d1 & p2 & -> & Hh1 & Hl1 & Hr1 & Ha1 & [Hs1 Hs2] & [Hs3 Hs4]).
  unfold add_queue_mes. rewrite Hh1.
  rewrite bool_decide_eq_false_2.
  2:{ change (qtype q2) with (qtype q). unfold has_hw_slot, is_sdma in Ht. by destruct (qtype q). }
  rewrite Hl1. change (q_addr q2) with (q_addr q).
  destruct (nz (hw_add_hw_queue h (hw_log d) (q_addr q))) eqn:Er; bool_to_Prop; cbn [nz Z.eqb negb].
  - rewrite (proj2 (nz_true _) Er). simpl. split_and!; try done.
    + intros _. split_and!; [congruence|congruence|]. unfold kfd_hws_hang. simpl. by destruct (negb _).
    + unfold kfd_hws_hang. simpl. by destruct (negb _).
  - rewrite (proj2 (nz_false _) Er). simpl. by split_and!.
Qed.

(** Under the MES the counters drift.  When the MES refuses the queue of a
    process being restored, [restore_process_queues_cpsch] returns the error with
    the process still marked evicted but the queue marked active and counted; the
    next restoration, after the reset, counts the same queue a second time. *)
Theorem restore_mes_refused_counts_twice e h d p q :
  enable_mes e = true → queues_list p = [q] → evicted p = 1 → drm_priv p = true →
  is_hws_hang d = false → has_hw_slot q = true → qtype q ≠ KFD_QUEUE_TYPE_SDMA_XGMI →
  qactive q = false → QUEUE_IS_ACTIVE ((properties q) <| is_evicted := false |>) = true →
  hw_add_hw_queue h (hw_log d) (q_addr q) ≠ 0 →
  let '(r, d1, p1) := restore_process_queues_cpsch e h d p in
  let '(_, d2, p2) := restore_process_queues_cpsch e h (d1 <| is_hws_hang := false |>) p1 in
  r ≠ 0 ∧ evicted p1 = 1 ∧ is_hws_hang d1 = true ∧
  load_active p1 = load_active p + 1 ∧ load_active p2 = load_active p + 1 ∧
  active_queue_count d1 = u32 (active_queue_count d + 1) ∧
  active_queue_count d2 = u32 (active_queue_count d + 2).
Proof.
  intros Hmes Hq He Hd Hh Ht Hx Ha Hact Hadd.
  pose proof (restore_mes_single e h d p q Hmes Hq He Hd Hh Ht Hx Hact) as H1.
  destruct (restore_process_queues_cpsch e h d p) as [[r d1] p1].
  destruct H1 as (Hr & Hev & Hl & Hp & Hc). destruct Hev as (He1 & Hd1 & Hh1); [congruence|].
  set (q1 := set_props _ q) in Hl.
  pose proof (restore_mes_single e h (d1 <| is_hws_hang := false |>) p1 q1 Hmes Hl He1 Hd1 eq_refl
    Ht Hx Hact) as H2.
  destruct (restore_process_queues_cpsch e h _ p1) as [[r2 d2] p2].
  destruct H2 as (_ & _ & Hl2 & Hp2 & Hc2). simpl in Hc2.
  assert (qactive q1 = true) by done.
  unfold load_active. rewrite Hl, Hl2, Hp2, Hp, Hq. simpl. rewrite Ha. simpl.
  split_and!; try done; try lia; try congruence.
  rewrite Hc2, Hc. unfold wrap. rewrite Z.add_mod_idemp_l by lia. f_equal. lia.
Qed.

(** ** Concrete histories *)

(** Two processes: the first creates two compute queues and an SDMA queue, is
    evicted twice and restored twice, and stops one queue; the second creates a
    queue with GWS, a debugger's kernel queue comes and goes, and the first
    process is terminated.  The creations overlap with the other process' requests. *)
Definition history0 : list request :=
  [ ReqRegister 1 qpd0; ReqCreate 1 (queue0 KFD_QUEUE_TYPE_COMPUTE 100 0) None; ReqCreateEnd 1;
    ReqCreate 1 (queue0 KFD_QUEUE_TYPE_SDMA 101 1) None; ReqRegister 2 qpd0; ReqCreateEnd 1;
    ReqCreate 1 (queue0 KFD_QUEUE_TYPE_COMPUTE 102 2) None; ReqDestroy 1 100 false;
    ReqCreateEnd 1; ReqCreate 2 (queue0 KFD_QUEUE_TYPE_COMPUTE 200 0) None; ReqEvict 1;
    ReqCreateEnd 2; ReqSetGws 2 200 true;
    ReqEvict 1; ReqRestore 1; ReqRestore 1; ReqUpdate 1 100 65536 0 0;
    ReqCreateKernel 2 (queue0 KFD_QUEUE_TYPE_DIQ 300 7); ReqDestroyKernel 2 300;
    ReqSuspend 1 101; ReqResume 1 101; ReqDestroy 1 102 false ].

Lemma cpsch_counters_exact_witness :
  let s := foldl (handle env0 hw0 (cpsch_ops env0 hw0))
             (mk_system (initialize_cpsch env0 dqm_zero) ∅ ∅) history0 in
  counters_exact s ∧ active_queue_count (manager s) = 2 ∧ gws_queue_count (manager s) = 1
  ∧ total_queue_count (manager s) = 3.
Proof.
  split; [by apply cpsch_counters_exact|]. vm_compute. by split_and!.
Defined.

Lemma nocpsch_counters_exact_witness :
  let s := foldl (handle env0 hw0 (nocpsch_ops env0 hw0))
             (mk_system (start_nocpsch env0 0 (initialize_nocpsch env0 true dqm_zero).2).2 ∅ ∅)
             (history0 ++ [ReqTerminate 1]) in
  counters_exact s ∧ active_queue_count (manager s) = 1 ∧ total_queue_count (manager s) = 1.
Proof.
  split; [|by vm_compute]. apply nocpsch_counters_exact; by vm_compute.
Defined.

Definition qpd_two : qpd :=
  qpd0 <| queues_list := [queue0 KFD_QUEUE_TYPE_COMPUTE 100 0; queue0 KFD_QUEUE_TYPE_SDMA 101 1] |>.

Lemma qpd_two_wf : qpd_wf false qpd_two.
Proof.
  split; simpl; try by repeat constructor.
  apply (bool_decide_unpack _). by vm_compute.
Qed.

Lemma process_termination_nocpsch_terminates_witness :
  ∃ r d' p', process_termination_nocpsch env0 hw0 2 dqm0 qpd_two 1 = Some (r, d', p') ∧
    queues_list p' = [] ∧ tracks (requeue (unregistered 1 (dqm_queues dqm0)) dqm0) qpd_two d' p' ∧
    sched_running d' = true.
Proof.
  apply (process_termination_nocpsch_terminates env0 hw0 false dqm0 qpd_two 1);
    [apply qpd_two_wf|reflexivity].
Defined.

Lemma process_termination_nocpsch_stopped_witness :
  process_termination_nocpsch env0 hw0 1000 (stop_nocpsch dqm0).2 qpd_two 1 = None.
Proof. by apply process_termination_nocpsch_stopped. Defined.

Definition dqm_running : dqm :=
  dqm0 <| active_runlist := true |> <| active_queue_count := 3 |> <| processes_count := 1 |>.


Definition env_mes : dev_env :=
  mk_dev_env 4 8 0xfefefefe 2 1 false 8 3 0 (λ i, 256 + 16 * i) true 240 255 8 4096
    8 15 1 true true false true true false 4096 (2 ^ 29).
(** Firmware whose MES refuses queues. *)
Definition hw_refusing : hw_env :=
  mk_hw_env (λ _, 0) (λ _ _, true) (λ _ _, 0) (λ _ _, 0) true (λ _, 0) (λ _, 0) (λ _, 0)
    (λ _, 0) (λ _, false) (λ _ _, -ETIME) (λ _ _, 0) 4096 1000 true true.
Definition qpd_evicted : qpd :=
  qpd0 <| queues_list := [set_props (set_field is_evicted (λ _, true))
                            (queue0 KFD_QUEUE_TYPE_COMPUTE 100 0)] |> <| evicted := 1 |>.

Lemma restore_mes_refused_counts_twice_witness :
  let '(r, d1, p1) := restore_process_queues_cpsch env_mes hw_refusing dqm0 qpd_evicted in
  let '(_, d2, p2) :=
    restore_process_queues_cpsch env_mes hw_refusing (d1 <| is_hws_hang := false |>) p1 in
  r ≠ 0 ∧ evicted p1 = 1 ∧ is_hws_hang d1 = true ∧
  load_active p1 = load_active qpd_evicted + 1 ∧ load_active p2 = load_active qpd_evicted + 1 ∧
  active_queue_count d1 = u32 (active_queue_count dqm0 + 1) ∧
  active_queue_count d2 = u32 (active_queue_count dqm0 + 2).
Proof.
  apply (restore_mes_refused_counts_twice env_mes hw_refusing dqm0 qpd_evicted
    (set_props (set_field is_evicted (λ _, true)) (queue0 KFD_QUEUE_TYPE_COMPUTE 100 0)));
    vm_compute; congruence.
Defined.
