(* ===== verification/Mqd.v ===== *)
(** * Queue descriptors

    [kfd_mqd_manager.c]: the spread of a mask of compute units over the shader
    engines of a device, and the descriptors of the HIQ and of the SDMA queues in
    the buffer of [allocate_hiq_sdma_mqd]; with the callers of the first in
    [kfd_mqd_manager_v9.c].  The layout of the descriptors is not in the
    repository: of [v9_mqd] only the masks of the shader engines are here. *)

From S2P Require Import Prelude DqmState DqmAlloc.

(** ** Masks of compute units *)

Definition KFD_MAX_NUM_SE : Z := 8.
Definition KFD_MAX_NUM_SH_PER_SE : Z := 2.

Definition hweight32 (w : Z) : Z := bitmap_weight w 32.
Definition NUM_XCC (mask : Z) : Z := bitmap_weight mask 16.

(** What the function reads of the device; [cu_bitmap] is [cu_info->bitmap]. *)
Record cu_config := mk_cu_config {
  cu_gc_version : Z;
  cu_xcc_mask : Z;
  cu_number : Z;
  cu_num_nodes : Z;
  max_shader_engines : Z;
  max_sh_per_se : Z;
  cu_bitmap : list (list (list Z));
}.

Section CuMask.
Context (c : cu_config).

Definition wgp_mode_req : bool := IP_VERSION 10 0 0 <=? cu_gc_version c.
Definition cu_inc : Z := if wgp_mode_req then 2 else 1.
Definition en_mask : Z := if wgp_mode_req then 0x3 else 0x1.
Definition mask_inc : Z := cu_inc * NUM_XCC (cu_xcc_mask c).
Definition cu_bitmap_sh_mul : Z :=
  if (IP_VERSION 11 0 0 <=? cu_gc_version c) && (cu_gc_version c <? IP_VERSION 12 0 0) then 2 else 1.

(** The loop that counts; [None] when it reads outside of the bitmap. *)
Definition count_cus (xcc_inst : Z) : option (list (list Z)) :=
  rows ← cu_bitmap c !! Z.to_nat xcc_inst;
  mapM (λ se, row ← rows !! Z.to_nat (se `mod` 4);
          mapM (λ sh, hweight32 <$> row !! Z.to_nat (sh + se / 4 * cu_bitmap_sh_mul))
               (seqZ 0 (max_sh_per_se c)))
       (seqZ 0 (max_shader_engines c)).

Definition cus_of (cu_per_sh : list (list Z)) (se sh : Z) : Z :=
  default 0 (cu_per_sh !! Z.to_nat se ≫= λ row, row !! Z.to_nat sh).

(** The turns of the three nested loops: [cu], [sh] and [se]. *)
Definition cu_turns : list (Z * Z * Z) :=
  cu ← (λ k, k * cu_inc) <$> seqZ 0 (16 / cu_inc);
  sh ← seqZ 0 (max_sh_per_se c);
  se ← seqZ 0 (max_shader_engines c);
  [(cu, sh, se)].

(** [se_mask[se] |= v], [None] outside of the array. *)
Definition or_word (l : list Z) (se v : Z) : option (list Z) :=
  m ← l !! Z.to_nat se; Some (<[Z.to_nat se := Z.lor m v]> l).

(** The body of the loops, with their early return; [None] when an array is left. *)
Fixpoint map_cus (cu_per_sh : list (list Z)) (cu_mask : list Z) (cu_mask_count : Z)
    (turns : list (Z * Z * Z)) (i : Z) (se_mask : list Z) : option (list Z) :=
  match turns with
  | [] => Some se_mask
  | (cu, sh, se) :: turns =>
      if cu <? cus_of cu_per_sh se sh then
        w ← cu_mask !! Z.to_nat (i / 32);
        se_mask ← (if nz (Z.land w (u32 (Z.shiftl en_mask (i `mod` 32))))
                   then or_word se_mask se (u32 (Z.shiftl en_mask (cu + sh * 16))) else Some se_mask);
        if cu_mask_count <=? i + mask_inc then Some se_mask
        else map_cus cu_per_sh cu_mask cu_mask_count turns (i + mask_inc) se_mask
      else map_cus cu_per_sh cu_mask cu_mask_count turns i se_mask
  end.

Definition clamp_count (cu_mask_count : Z) : Z := Z.min cu_mask_count (cu_number c / cu_num_nodes c).

Definition mqd_symmetrically_map_cu_mask (cu_mask : list Z) (cu_mask_count : Z) (se_mask : list Z) (inst : Z)
    : option (list Z) :=
  if KFD_MAX_NUM_SE <? max_shader_engines c then Some se_mask
  else if KFD_MAX_NUM_SH_PER_SE <? max_sh_per_se c then Some se_mask
  else
    cu_per_sh ← count_cus (inst + ffs (cu_xcc_mask c) - 1);
    if Z.of_nat (length se_mask) <? max_shader_engines c then None
    else
      map_cus cu_per_sh cu_mask (clamp_count cu_mask_count) cu_turns inst
        (replicate (Z.to_nat (max_shader_engines c)) 0 ++ drop (Z.to_nat (max_shader_engines c)) se_mask).

(** [update_cu_mask] of GFX9: the masks of the shader engines of a descriptor, of
    which [minfo] has a new mask of compute units or none. *)
Definition update_cu_mask (masks : list Z) (minfo : option (list Z * Z)) (inst : Z) : option (list Z) :=
  match minfo with
  | None => Some masks
  | Some (cu_mask, cu_mask_count) =>
      se_mask ← mqd_symmetrically_map_cu_mask cu_mask cu_mask_count (replicate 8 0) inst;
      Some (if cu_gc_version c =? IP_VERSION 9 4 3 then take 4 se_mask ++ drop 4 masks else se_mask)
  end.

(** The updates of the masks by [update_mqd] and, for the descriptor of every XCC,
    by [update_mqd_v9_4_3]. *)
Fixpoint update_xccs (xcc : Z) (mqds : list (list Z)) (minfo : option (list Z * Z)) : option (list (list Z)) :=
  match mqds with
  | [] => Some []
  | m :: mqds =>
      m ← update_cu_mask m minfo xcc; mqds ← update_xccs (xcc + 1) mqds minfo; Some (m :: mqds)
  end.

End CuMask.

(** ** Descriptors of the HIQ and of the SDMA queues *)

(** [struct kfd_mem_obj] of a descriptor. *)
Record mqd_mem_obj := mk_mqd_mem_obj { gtt_mem : Z; gpu_addr : Z; cpu_ptr : Z }.

Definition at_offset (o : mqd_mem_obj) (offset : Z) : mqd_mem_obj :=
  mk_mqd_mem_obj (u64 (gtt_mem o + offset)) (u64 (gpu_addr o + offset)) (u64 (cpu_ptr o + offset)).

Section Slots.
Context (e : dev_env).
(** [mqd_size] of the managers of the HIQ and of SDMA queues. *)
Context (hiq_mqd_size sdma_mqd_size : Z).

Definition hiq_sdma_buffer_size : Z :=
  u32 (u32 (u32 (sdma_mqd_size * get_num_all_sdma_engines e) * num_sdma_queues_per_engine e)
       + u32 (hiq_mqd_size * NUM_XCC (xcc_mask e))).

Definition kfd_hiq_mqd_stride : Z := hiq_mqd_size.

(** The descriptor of the HIQ on an XCC of the partition; only the first owns memory. *)
Definition kfd_get_hiq_xcc_mqd (hiq_sdma_mqd : mqd_mem_obj) (virtual_xcc_id : Z) : mqd_mem_obj :=
  let offset := u64 (kfd_hiq_mqd_stride * virtual_xcc_id) in
  mk_mqd_mem_obj (if virtual_xcc_id =? 0 then gtt_mem hiq_sdma_mqd else 0)
    (u64 (gpu_addr hiq_sdma_mqd + offset)) (u64 (cpu_ptr hiq_sdma_mqd + offset)).

Definition allocate_hiq_mqd (alloc_ok : bool) (hiq_sdma_mqd : mqd_mem_obj) : option mqd_mem_obj :=
  if alloc_ok then Some hiq_sdma_mqd else None.

Definition sdma_mqd_offset (p : queue_properties) : Z :=
  u64 (u32 (u32 (u32 (sdma_engine_id p * num_sdma_queues_per_engine e) + sdma_queue_id p) * sdma_mqd_size)
       + u32 (hiq_mqd_size * NUM_XCC (xcc_mask e))).

Definition allocate_sdma_mqd (alloc_ok : bool) (hiq_sdma_mqd : mqd_mem_obj) (p : queue_properties)
    : option mqd_mem_obj :=
  if alloc_ok then Some (at_offset hiq_sdma_mqd (sdma_mqd_offset p)) else None.

End Slots.

(** ** Bits *)

Lemma nz_land_range w s n :
  0 ≤ s → 0 ≤ n → nz (Z.land w (Z.shiftl (Z.ones n) s)) = existsb (λ j, Z.testbit w j) (seqZ s n).
Proof.
  intros Hs Hn. change (Z.shiftl (Z.ones n) s) with (bitmap_range s n). destruct (existsb _ _) eqn:E.
  - apply existsb_exists in E as (j & Hj & Hb). apply list_elem_of_In, elem_of_seqZ in Hj.
    apply nz_true. intros H0. pose proof (f_equal (λ x, Z.testbit x j) H0) as Hj0. cbn beta in Hj0.
    rewrite Z.land_spec, Hb, Z.bits_0, bitmap_range_spec in Hj0 by done.
    by rewrite bool_decide_eq_true_2 in Hj0.
  - apply nz_false, Z.bits_inj'. intros j Hj. rewrite Z.land_spec, Z.bits_0, bitmap_range_spec by done.
    destruct (bool_decide (s ≤ j < s + n)) eqn:Ej; [|by rewrite andb_false_r]. apply bool_decide_eq_true in Ej.
    rewrite andb_true_r. destruct (Z.testbit w j) eqn:Hb; [|done].
    rewrite <- E. symmetry. apply existsb_exists. exists j. split; [|done]. by apply list_elem_of_In, elem_of_seqZ.
Qed.

Lemma range_in_width s n w : 0 ≤ s → 0 ≤ n → s + n ≤ w → in_width w (Z.shiftl (Z.ones n) s).
Proof.
  intros Hs Hn Hw. rewrite Z.ones_equiv, Z.shiftl_mul_pow2 by done. unfold in_width.
  assert (2 ^ (s + n) ≤ 2 ^ w) by (apply Z.pow_le_mono_r; lia).
  rewrite Z.pow_add_r in H by done. assert (0 < 2 ^ n) by (by apply Z.pow_pos_nonneg).
  assert (0 < 2 ^ s) by (by apply Z.pow_pos_nonneg). nia.
Qed.

Section CuMaskProof.
Context (c : cu_config).

(** Bit [j] of the mask of compute units, over its words. *)
Definition user_bit (cu_mask : list Z) (j : Z) : bool :=
  Z.testbit (default 0 (cu_mask !! Z.to_nat (j / 32))) (j `mod` 32).
(** Some bit of the mask for the unit, or the pair of units, at [i] is set. *)
Definition user_wants (cu_mask : list Z) (i : Z) : bool := existsb (user_bit cu_mask) (seqZ i (cu_inc c)).

(** The turns in which a compute unit is active, in the order of the loops. *)
Definition active_turns (cu_per_sh : list (list Z)) (turns : list (Z * Z * Z)) : list (Z * Z * Z) :=
  filter (λ '(cu, sh, se), cu < cus_of cu_per_sh se sh) turns.

Lemma cu_inc_cases : cu_inc c = 1 ∧ en_mask c = Z.ones 1 ∨ cu_inc c = 2 ∧ en_mask c = Z.ones 2.
Proof. unfold cu_inc, en_mask. destruct (wgp_mode_req c); auto. Qed.

Lemma word_wanted cu_mask i w :
  0 ≤ i → i `mod` cu_inc c = 0 → cu_mask !! Z.to_nat (i / 32) = Some w →
  nz (Z.land w (u32 (Z.shiftl (en_mask c) (i `mod` 32)))) = user_wants cu_mask i.
Proof.
  intros Hi Hm Hw. assert (He : en_mask c = Z.ones (cu_inc c)) by (destruct cu_inc_cases as [[-> ->] | [-> ->]]; done).
  assert (Hr : i `mod` 32 + cu_inc c ≤ 32).
  { destruct cu_inc_cases as [[Ei _] | [Ei _]]; rewrite Ei in *; Z.to_euclidean_division_equations; lia. }
  pose proof (Z.mod_pos_bound i 32). assert (0 ≤ cu_inc c) by (destruct cu_inc_cases as [[-> _] | [-> _]]; lia).
  rewrite He, wrap_small by (apply range_in_width; lia). rewrite nz_land_range by lia. unfold user_wants.
  apply eq_true_iff_eq. rewrite !existsb_exists. unfold user_bit.
  split; intros (j & Hj & Hb); apply list_elem_of_In, elem_of_seqZ in Hj.
  - exists (i + (j - i `mod` 32)). split; [apply list_elem_of_In, elem_of_seqZ; lia|].
    replace ((i + (j - i `mod` 32)) / 32) with (i / 32) by (Z.to_euclidean_division_equations; lia).
    replace ((i + (j - i `mod` 32)) `mod` 32) with j by (Z.to_euclidean_division_equations; lia). by rewrite Hw.
  - exists (i `mod` 32 + (j - i)). split; [apply list_elem_of_In, elem_of_seqZ; lia|].
    replace (j / 32) with (i / 32) in Hb by (Z.to_euclidean_division_equations; lia).
    replace (j `mod` 32) with (i `mod` 32 + (j - i)) in Hb by (Z.to_euclidean_division_equations; lia). by rewrite Hw in Hb.
Qed.

(** Bit [b] of the word of [se]. *)
Definition word_bit (l : list Z) (se b : Z) : bool := Z.testbit (default 0 (l !! Z.to_nat se)) b.

(** The bits of the unit, or pair of units, [cu] of the half of [sh]. *)
Definition turn_bit (cu sh b : Z) : Prop := cu + sh * 16 ≤ b < cu + sh * 16 + cu_inc c.

Lemma or_turn l cu sh se :
  0 ≤ cu → cu + cu_inc c ≤ 16 → 0 ≤ sh ≤ 1 → 0 ≤ se < Z.of_nat (length l) →
  ∃ l', or_word l se (u32 (Z.shiftl (en_mask c) (cu + sh * 16))) = Some l' ∧ length l' = length l ∧
    ∀ se' b, 0 ≤ se' → word_bit l' se' b = true ↔ word_bit l se' b = true ∨ se' = se ∧ turn_bit cu sh b.
Proof.
  intros Hcu Hle Hsh Hse. unfold or_word.
  assert (He : en_mask c = Z.ones (cu_inc c)) by (destruct cu_inc_cases as [[-> ->] | [-> ->]]; done).
  assert (0 ≤ cu_inc c) by (destruct cu_inc_cases as [[-> _] | [-> _]]; lia).
  rewrite He, wrap_small by (apply range_in_width; lia).
  change (Z.shiftl (Z.ones (cu_inc c)) (cu + sh * 16)) with (bitmap_range (cu + sh * 16) (cu_inc c)).
  destruct (lookup_lt_is_Some_2 l (Z.to_nat se)) as [m Hm]; [lia|]. rewrite Hm. cbn [mbind option_bind].
  eexists. split; [done|]. split; [apply length_insert|]. intros se' b Hse'. unfold word_bit, turn_bit.
  destruct (decide (se' = se)) as [->|Hne].
  - rewrite list_lookup_insert_eq by lia. rewrite Hm. cbn [from_option id].
    rewrite Z.lor_spec, bitmap_range_spec, orb_true_iff, bool_decide_eq_true by lia. tauto.
  - rewrite list_lookup_insert_ne by lia. tauto.
Qed.

Definition turn_ok (len : nat) (t : Z * Z * Z) : Prop :=
  let '(cu, sh, se) := t in 0 ≤ cu ∧ cu + cu_inc c ≤ 16 ∧ 0 ≤ sh ≤ 1 ∧ 0 ≤ se < Z.of_nat len.

(** The bit [b] of the word of [se] is set by the turn of the [k]-th active unit of
    [turns], which is reached with the bit [i + k * mask_inc] of the mask. *)
Definition set_by_turn (cu_per_sh : list (list Z)) (cu_mask : list Z) (count : Z) (turns : list (Z * Z * Z))
    (i se b : Z) : Prop :=
  ∃ (k : nat) cu sh, active_turns cu_per_sh turns !! k = Some (cu, sh, se)
    ∧ (k = 0%nat ∨ i + Z.of_nat k * mask_inc c < count)
    ∧ user_wants cu_mask (i + Z.of_nat k * mask_inc c) = true ∧ turn_bit cu sh b.

Context (Hxcc : 0 < NUM_XCC (cu_xcc_mask c)).

Lemma mask_inc_pos : 0 < mask_inc c ∧ mask_inc c `mod` cu_inc c = 0.
Proof.
  unfold mask_inc. destruct cu_inc_cases as [[-> _] | [-> _]]; (split; [lia|]); rewrite Z.mul_comm; by apply Z.mod_mul.
Qed.

Lemma set_by_turn_cons cu_per_sh cu_mask count cu sh se turns i se' b :
  cu < cus_of cu_per_sh se sh →
  set_by_turn cu_per_sh cu_mask count ((cu, sh, se) :: turns) i se' b ↔
  (se' = se ∧ user_wants cu_mask i = true ∧ turn_bit cu sh b)
  ∨ (i + mask_inc c < count ∧ set_by_turn cu_per_sh cu_mask count turns (i + mask_inc c) se' b).
Proof.
  intros Hact. pose proof mask_inc_pos as [Hinc _]. unfold set_by_turn, active_turns.
  rewrite filter_cons_True by done. split.
  - intros (k & cu' & sh' & Hk & Hc & Hu & Hb). destruct k as [|k]; simplify_eq/=.
    + left. by rewrite Z.add_0_r in Hu.
    + right. destruct Hc as [|Hc]; [done|].
      replace (i + Z.of_nat (S k) * mask_inc c) with (i + mask_inc c + Z.of_nat k * mask_inc c) in * by lia.
      split; [nia|]. exists k, cu', sh'. auto.
  - intros [(-> & Hu & Hb) | (Hlt & k & cu' & sh' & Hk & Hc & Hu & Hb)].
    + exists 0%nat, cu, sh. rewrite Z.add_0_r. auto.
    + exists (S k), cu', sh'.
      replace (i + Z.of_nat (S k) * mask_inc c) with (i + mask_inc c + Z.of_nat k * mask_inc c) by lia.
      split_and!; try done. right. destruct Hc as [->|]; lia.
Qed.

Lemma map_cus_spec cu_per_sh cu_mask count turns i se_mask :
  Forall (turn_ok (length se_mask)) turns → 0 ≤ i < 32 * Z.of_nat (length cu_mask) → i `mod` cu_inc c = 0 →
  count ≤ 32 * Z.of_nat (length cu_mask) →
  ∃ m, map_cus c cu_per_sh cu_mask count turns i se_mask = Some m ∧ length m = length se_mask ∧
    ∀ se b, 0 ≤ se → word_bit m se b = true ↔
      word_bit se_mask se b = true ∨ set_by_turn cu_per_sh cu_mask count turns i se b.
Proof.
  intros Ht Hi Hm Hc. revert i se_mask Ht Hi Hm.
  induction turns as [|[[cu sh] se] turns IH]; intros i se_mask Ht Hi Hm.
  { eexists. split; [done|]. split; [done|]. intros se b _. split; [by left|].
    intros [?|(k & ? & ? & Hk & _)]; done. }
  apply Forall_cons in Ht as [(Hcu & Hcu' & Hsh & Hse) Ht]. cbn [map_cus].
  destruct (Z.ltb_spec cu (cus_of cu_per_sh se sh)) as [Hact|Hact].
  2:{ destruct (IH i se_mask Ht Hi Hm) as (m & Hm' & Hl & Hb). exists m. split; [done|]. split; [done|].
      intros se' b Hse'. rewrite (Hb se' b Hse'). unfold set_by_turn, active_turns.
      rewrite (filter_cons_False _ (cu, sh, se)) by lia. done. }
  destruct (lookup_lt_is_Some_2 cu_mask (Z.to_nat (i / 32))) as [w Hw].
  { apply Nat2Z.inj_lt. rewrite Z2Nat.id by (apply Z.div_pos; lia). apply Z.div_lt_upper_bound; lia. }
  rewrite Hw. cbn [mbind option_bind]. rewrite (word_wanted cu_mask i w) by (done || lia).
  set (o := if user_wants cu_mask i then _ else _).
  assert (∃ l1, o = Some l1 ∧ length l1 = length se_mask ∧ ∀ se' b, 0 ≤ se' →
    word_bit l1 se' b = true ↔ word_bit se_mask se' b = true ∨ se' = se ∧ user_wants cu_mask i = true ∧ turn_bit cu sh b)
    as (l1 & -> & Hl1 & Hb1).
  { unfold o. destruct (user_wants cu_mask i).
    - destruct (or_turn se_mask cu sh se Hcu Hcu' Hsh Hse) as (l' & Hl' & Hlen & Hb). exists l'.
      split; [done|]. split; [done|]. intros se' b Hse'. rewrite (Hb se' b Hse'). tauto.
    - exists se_mask. split; [done|]. split; [done|]. intros. split; [by left|]. by intros [?|(_ & ? & _)]. }
  cbn [mbind option_bind]. pose proof mask_inc_pos as [Hinc Hdiv].
  destruct (Z.leb_spec count (i + mask_inc c)) as [Hend|Hend].
  - exists l1. split; [done|]. split; [done|]. intros se' b Hse'.
    rewrite (Hb1 se' b Hse'), set_by_turn_cons by done. split; [tauto|]. intros [?|[?|[? _]]]; [tauto..|lia].
  - destruct (IH (i + mask_inc c) l1) as (m & Hm' & Hl & Hb); [by rewrite Hl1|lia| |].
    { rewrite Z.add_mod, Hm, Hdiv; [done|]. destruct cu_inc_cases as [[-> _] | [-> _]]; done. }
    exists m. split; [done|]. split; [congruence|]. intros se' b Hse'.
    rewrite (Hb se' b Hse'), (Hb1 se' b Hse'), set_by_turn_cons by done. tauto.
Qed.

End CuMaskProof.

Lemma cu_turns_ok c len :
  max_shader_engines c ≤ Z.of_nat len → max_sh_per_se c ≤ 2 → Forall (turn_ok c len) (cu_turns c).
Proof.
  intros Hse Hsh. apply Forall_forall. intros [[cu sh] se]. unfold cu_turns.
  intros Hin. apply list_elem_of_bind in Hin as (cu' & Hin & Hcu). apply list_elem_of_bind in Hin as (sh' & Hin & Hsh').
  apply list_elem_of_bind in Hin as (se' & Hin & Hse'). apply list_elem_of_singleton in Hin. simplify_eq.
  apply list_elem_of_fmap in Hcu as (k & -> & Hk). rewrite elem_of_seqZ in *.
  unfold turn_ok. destruct (cu_inc_cases c) as [[Hi _] | [Hi _]]; rewrite Hi in *;
    [change (16 / 1) with 16 in Hk|change (16 / 2) with 8 in Hk]; lia.
Qed.

(** ** The order of the units *)

Lemma filter_agree {A} (P Q : A → Prop) `{∀ x, Decision (P x)} `{∀ x, Decision (Q x)} (l : list A) :
  (∀ x, x ∈ l → P x ↔ Q x) → filter P l = filter Q l.
Proof.
  induction l as [|x l IH]; intros Hl; [done|]. rewrite !filter_cons, IH by (intros y Hy; apply Hl; by right).
  specialize (Hl x (list_elem_of_here _ _)). destruct (decide (P x)), (decide (Q x)); tauto.
Qed.

Lemma filter_out {A} (P : A → Prop) `{∀ x, Decision (P x)} (l : list A) :
  (∀ x, x ∈ l → ¬ P x) → filter P l = [].
Proof.
  induction l as [|x l IH]; intros Hl; [done|].
  rewrite filter_cons_False by (apply Hl; left). apply IH. intros y Hy. apply Hl. by right.
Qed.

(** Lists in strict order: the place of an element of the list, filtered, is the
    number of elements of the filter below it. *)
Section Ordered.
Context {A : Type} (R : relation A) `{∀ x y, Decision (R x y)} (P : A → Prop) `{∀ x, Decision (P x)}.
Context (Hirr : ∀ x, ¬ R x x) (Hasym : ∀ x y, R x y → ¬ R y x).

Lemma sorted_rank l k x :
  StronglySorted R l → filter P l !! k = Some x → length (filter (λ y, P y ∧ R y x) l) = k.
Proof.
  revert k. induction l as [|y l IH]; intros k Hs Hk; [done|].
  apply StronglySorted_cons in Hs as [Hy Hs]. rewrite Forall_forall in Hy.
  rewrite filter_cons in Hk. destruct (decide (P y)) as [HP|HP].
  - destruct k as [|k]; simpl in Hk.
    + injection Hk as ->. rewrite filter_cons_False by (intros [_ Hx]; by apply Hirr in Hx).
      assert (filter (λ y, P y ∧ R y x) l = []) as ->; [|done].
      apply filter_out. intros z Hz [_ Hzx]. by apply (Hasym x z); [apply Hy|].
    + assert (Hx : x ∈ l) by (by eapply list_elem_of_filter, list_elem_of_lookup_2).
      rewrite filter_cons_True by (split; [done|by apply Hy]). simpl. f_equal. by apply IH.
  - rewrite filter_cons_False by tauto. by apply IH.
Qed.
End Ordered.

Lemma sorted_bind {A B} (RA : relation A) (RB : relation B) (f : A → list B) l :
  StronglySorted RA l → (∀ a, StronglySorted RB (f a)) →
  (∀ a a' b b', RA a a' → b ∈ f a → b' ∈ f a' → RB b b') → StronglySorted RB (l ≫= f).
Proof.
  intros Hl Hf Hr. induction l as [|a l IH]; [constructor|].
  apply StronglySorted_cons in Hl as [Ha Hl]. rewrite bind_cons. specialize (IH Hl). specialize (Hf a).
  assert (Hlt : ∀ b b', b ∈ f a → b' ∈ l ≫= f → RB b b').
  { intros b b' Hb (a' & Hb' & Ha')%list_elem_of_bind. rewrite Forall_forall in Ha.
    by apply (Hr a a'); [apply Ha|..]. }
  clear Ha Hr Hl. induction (f a) as [|b l' IH']; [done|].
  apply StronglySorted_cons in Hf as [Hb Hf]. simpl. apply StronglySorted_cons. split.
  - rewrite Forall_app. split; [done|]. apply Forall_forall. intros b' Hb'. apply Hlt; [left|done].
  - apply IH'; [done|]. intros b1 b' Hb1 Hb'. apply Hlt; [by right|done].
Qed.

Lemma sorted_seqZ m n : StronglySorted Z.lt (seqZ m n).
Proof.
  assert (Hk : ∀ k m, StronglySorted Z.lt (seqZ m (Z.of_nat k))).
  { intros k. induction k as [|k IH]; intros m'; [constructor|].
    rewrite seqZ_cons by lia. replace (Z.pred (Z.of_nat (S k))) with (Z.of_nat k) by lia.
    apply StronglySorted_cons. split; [|apply IH]. apply Forall_forall. intros x Hx%elem_of_seqZ. lia. }
  destruct (Z.le_gt_cases 0 n); [rewrite <- (Z2Nat.id n) by done; apply Hk|].
  rewrite seqZ_nil by lia. constructor.
Qed.

Section Units.
Context (c : cu_config).

(** The units [(cu, sh, se)] of an XCC: all of them (the even ones when they go in
    pairs), and those that are active, [cu] being below the number of bits set in the
    bitmap's word for the shader array.  The bitmap has four engines in a row. *)
Definition all_units : list (Z * Z * Z) :=
  se ← seqZ 0 (max_shader_engines c);
  sh ← seqZ 0 (max_sh_per_se c);
  cu ← filter (λ cu, cu `mod` cu_inc c = 0) (seqZ 0 16);
  [(cu, sh, se)].
Definition active_cus (xcc_inst se sh : Z) : Z :=
  hweight32 (default 0 (cu_bitmap c !! Z.to_nat xcc_inst ≫= λ rows, rows !! Z.to_nat (se `mod` 4)
                        ≫= λ row, row !! Z.to_nat (sh + se / 4 * cu_bitmap_sh_mul c))).
Definition unit_active (xcc_inst : Z) (u : Z * Z * Z) : bool :=
  let '(cu, sh, se) := u in cu <? active_cus xcc_inst se sh.

(** One unit of every array before the next ones of any, the first arrays of all
    engines before the second ones. *)
Definition unit_before (u v : Z * Z * Z) : Prop :=
  let '(cu, sh, se) := u in let '(cu', sh', se') := v in
  cu < cu' ∨ cu = cu' ∧ (sh < sh' ∨ sh = sh' ∧ se < se').
#[export] Instance unit_before_dec u v : Decision (unit_before u v).
Proof. destruct u as [[??]?], v as [[??]?]. apply _. Defined.

(** How many active units are before [u]. *)
Definition unit_rank (xcc_inst : Z) (u : Z * Z * Z) : Z :=
  Z.of_nat (length (filter (λ v, unit_active xcc_inst v = true ∧ unit_before v u) all_units)).

Lemma elem_of_cu_steps cu :
  cu ∈ (λ k, k * cu_inc c) <$> seqZ 0 (16 / cu_inc c) ↔ 0 ≤ cu < 16 ∧ cu `mod` cu_inc c = 0.
Proof.
  rewrite list_elem_of_fmap. destruct (cu_inc_cases c) as [[-> _]|[-> _]].
  - change (16 / 1) with 16. rewrite Z.mod_1_r. split; [intros (k & -> & ?%elem_of_seqZ); lia|].
    intros [? _]. exists cu. rewrite elem_of_seqZ. lia.
  - change (16 / 2) with 8. split.
    + intros (k & -> & ?%elem_of_seqZ). rewrite Z.mod_mul by done. lia.
    + intros [? Hm]. exists (cu / 2). rewrite elem_of_seqZ. Z.to_euclidean_division_equations. lia.
Qed.

Lemma elem_of_cu_turns cu sh se :
  (cu, sh, se) ∈ cu_turns c ↔ (0 ≤ cu < 16 ∧ cu `mod` cu_inc c = 0) ∧
    0 ≤ sh < max_sh_per_se c ∧ 0 ≤ se < max_shader_engines c.
Proof.
  unfold cu_turns. rewrite list_elem_of_bind. setoid_rewrite list_elem_of_bind.
  setoid_rewrite list_elem_of_bind. setoid_rewrite list_elem_of_singleton.
  setoid_rewrite elem_of_cu_steps. setoid_rewrite elem_of_seqZ. split.
  - intros (? & (? & (? & [= <- <- <-] & ?) & ?) & ?). lia.
  - intros (? & ? & ?). exists cu. split; [|done]. exists sh. split; [|lia]. exists se. split; [done|lia].
Qed.

Lemma elem_of_all_units u : u ∈ all_units ↔ u ∈ cu_turns c.
Proof.
  destruct u as [[cu sh] se]. rewrite elem_of_cu_turns. unfold all_units. rewrite list_elem_of_bind.
  setoid_rewrite list_elem_of_bind. setoid_rewrite list_elem_of_bind. setoid_rewrite list_elem_of_singleton.
  setoid_rewrite list_elem_of_filter. setoid_rewrite elem_of_seqZ. split.
  - intros (? & (? & (? & [= <- <- <-] & ?) & ?) & ?). lia.
  - intros (? & ? & ?). exists se. split; [|lia]. exists sh. split; [|lia]. exists cu. split; [done|lia].
Qed.

Lemma unit_before_irrefl u : ¬ unit_before u u.
Proof. destruct u as [[??]?]. simpl. lia. Qed.
Lemma unit_before_asym u v : unit_before u v → ¬ unit_before v u.
Proof. destruct u as [[??]?], v as [[??]?]. simpl. lia. Qed.

Lemma cu_turns_sorted : StronglySorted unit_before (cu_turns c).
Proof.
  unfold cu_turns. apply (sorted_bind Z.lt).
  - apply (StronglySorted_fmap _ Z.lt); [|apply sorted_seqZ].
    intros x y Hxy. destruct (cu_inc_cases c) as [[-> _]|[-> _]]; lia.
  - intros cu. apply (sorted_bind Z.lt); [apply sorted_seqZ| |].
    + intros sh. apply (sorted_bind Z.lt); [apply sorted_seqZ| |].
      * intros se. apply StronglySorted_cons. split; constructor.
      * intros se se' u v Hlt ->%list_elem_of_singleton ->%list_elem_of_singleton. simpl. lia.
    + intros sh sh' u v Hlt (? & ->%list_elem_of_singleton & _)%list_elem_of_bind
        (? & ->%list_elem_of_singleton & _)%list_elem_of_bind. simpl. lia.
  - intros cu cu' u v Hlt (? & (? & ->%list_elem_of_singleton & _)%list_elem_of_bind & _)%list_elem_of_bind
      (? & (? & ->%list_elem_of_singleton & _)%list_elem_of_bind & _)%list_elem_of_bind. simpl. lia.
Qed.

Lemma sorted_NoDup {A} (R : relation A) (l : list A) :
  (∀ x, ¬ R x x) → StronglySorted R l → NoDup l.
Proof.
  intros Hirr Hs. induction Hs as [|x l _ IH Hx]; constructor; [|done].
  intros Hin. rewrite Forall_forall in Hx. by apply (Hirr x), Hx.
Qed.

Lemma all_units_NoDup : NoDup all_units.
Proof.
  set (R := λ u v : Z * Z * Z, let '(cu, sh, se) := u in let '(cu', sh', se') := v in
    se < se' ∨ se = se' ∧ (sh < sh' ∨ sh = sh' ∧ cu < cu')).
  apply (sorted_NoDup R). { intros [[??]?]. simpl. lia. }
  unfold all_units. apply (sorted_bind Z.lt); [apply sorted_seqZ| |].
  - intros se. apply (sorted_bind Z.lt); [apply sorted_seqZ| |].
    + intros sh. apply (sorted_bind Z.lt); [apply StronglySorted_filter, sorted_seqZ| |].
      * intros cu. apply StronglySorted_cons. split; constructor.
      * intros cu cu' u v Hlt ->%list_elem_of_singleton ->%list_elem_of_singleton. simpl. lia.
    + intros sh sh' u v Hlt (? & ->%list_elem_of_singleton & _)%list_elem_of_bind
        (? & ->%list_elem_of_singleton & _)%list_elem_of_bind. simpl. lia.
  - intros se se' u v Hlt (? & (? & ->%list_elem_of_singleton & _)%list_elem_of_bind & _)%list_elem_of_bind
      (? & (? & ->%list_elem_of_singleton & _)%list_elem_of_bind & _)%list_elem_of_bind. simpl. lia.
Qed.

Lemma units_permutation : cu_turns c ≡ₚ all_units.
Proof.
  apply NoDup_Permutation.
  - apply (sorted_NoDup unit_before); [apply unit_before_irrefl|apply cu_turns_sorted].
  - apply all_units_NoDup.
  - intros u. by rewrite elem_of_all_units.
Qed.

Lemma count_cus_active xcc_inst cu_per_sh se sh :
  count_cus c xcc_inst = Some cu_per_sh →
  0 ≤ sh < max_sh_per_se c → 0 ≤ se < max_shader_engines c →
  cus_of cu_per_sh se sh = active_cus xcc_inst se sh.
Proof.
  unfold count_cus, cus_of, active_cus. intros H Hsh Hse.
  destruct (cu_bitmap c !! Z.to_nat xcc_inst) as [rows|]; [|done]. cbn [mbind option_bind] in *.
  apply mapM_Some_1 in H.
  assert (Hlook : ∀ n k, 0 ≤ k < n → seqZ 0 n !! Z.to_nat k = Some k).
  { intros n k Hk. rewrite lookup_seqZ. split; lia. }
  destruct (Forall2_lookup_l _ _ _ _ _ H (Hlook _ se Hse)) as (l & Hl & Hrow). rewrite Hl. cbn [mbind option_bind].
  destruct (rows !! Z.to_nat (se `mod` 4)) as [row|]; [|done]. cbn [mbind option_bind] in *.
  apply mapM_Some_1 in Hrow.
  destruct (Forall2_lookup_l _ _ _ _ _ Hrow (Hlook _ sh Hsh)) as (w & Hw & Hb). rewrite Hw.
  destruct (row !! _); [|done]. simpl in *. congruence.
Qed.

(** The active turns are the active units, each at its rank. *)
Lemma active_turn_rank xcc_inst cu_per_sh u :
  count_cus c xcc_inst = Some cu_per_sh → ∀ k : nat,
  active_turns cu_per_sh (cu_turns c) !! k = Some u ↔
  u ∈ all_units ∧ unit_active xcc_inst u = true ∧ unit_rank xcc_inst u = Z.of_nat k.
Proof.
  intros Hc.
  assert (Hact : active_turns cu_per_sh (cu_turns c) = filter (λ u, unit_active xcc_inst u = true) (cu_turns c)).
  { unfold active_turns. apply filter_agree. intros [[cu sh] se] Hu%elem_of_cu_turns.
    unfold unit_active. rewrite Z.ltb_lt, (count_cus_active xcc_inst cu_per_sh se sh) by (done || lia). done. }
  assert (Hrank : ∀ k, active_turns cu_per_sh (cu_turns c) !! k = Some u → unit_rank xcc_inst u = Z.of_nat k).
  { intros k Hk. rewrite Hact in Hk. unfold unit_rank. f_equal. rewrite <- units_permutation.
    by apply (sorted_rank unit_before _ unit_before_irrefl unit_before_asym _ _ _ cu_turns_sorted). }
  intros k. split.
  - intros Hk. split_and!; [| |by apply Hrank]; rewrite Hact in Hk;
      apply list_elem_of_lookup_2, list_elem_of_filter in Hk as [??]; [by apply elem_of_all_units|done].
  - intros (Hu & Ha & Hr). apply elem_of_all_units in Hu.
    assert (Hin : u ∈ active_turns cu_per_sh (cu_turns c)) by (rewrite Hact; by apply list_elem_of_filter).
    apply list_elem_of_lookup in Hin as [k' Hk']. pose proof (Hrank k' Hk'). by assert (k' = k) as -> by lia.
Qed.
End Units.

(** ** Bounds of the descriptors in their buffer *)

Section SlotsProof.
Context (e : dev_env) (hiq_mqd_size sdma_mqd_size : Z).

(** The descriptors of a buffer below 4 GB, on a device with SDMA engines. *)
Record mqd_env_ok : Prop := {
  ok_instances : 0 ≤ sdma_num_instances e < 2 ^ 32;
  ok_nodes : 0 < num_nodes e;
  ok_per_engine : 0 ≤ num_sdma_queues_per_engine e;
  ok_hiq : 0 ≤ hiq_mqd_size;
  ok_sdma : 0 < sdma_mqd_size;
  ok_total : sdma_mqd_size * (sdma_num_instances e `quot` num_nodes e) * num_sdma_queues_per_engine e
             + hiq_mqd_size * NUM_XCC (xcc_mask e) < 2 ^ 32;
}.

(** The engine and the queue of an SDMA queue are those of its id. *)
Definition sdma_fields (q : queue) : Prop :=
  let p := properties q in
  match qtype q with
  | KFD_QUEUE_TYPE_SDMA =>
      sdma_engine_id p = sdma_id q `mod` kfd_get_num_sdma_engines e
      ∧ sdma_queue_id p = sdma_id q / kfd_get_num_sdma_engines e
  | KFD_QUEUE_TYPE_SDMA_XGMI =>
      sdma_engine_id p = u32 (kfd_get_num_sdma_engines e + sdma_id q `mod` kfd_get_num_xgmi_sdma_engines e)
      ∧ sdma_queue_id p = sdma_id q / kfd_get_num_xgmi_sdma_engines e
  | _ => False
  end.

Lemma sdma_fields_step s s' : sdma_step e s s' → Forall sdma_fields s.2 → Forall sdma_fields s'.2.
Proof.
  intros [d live q restore r d' q' Hq Ha|d l1 q l2]; cbn [snd]; intros Hf.
  - destruct (nz r) eqn:Hr; [done|]. apply Forall_cons. split; [|done].
    unfold allocate_sdma_queue in Ha. unfold is_sdma, is_type in Hq. unfold sdma_fields, qtype in *.
    destruct (type (properties q)) eqn:Et; try discriminate Hq;
      destruct (take_sdma_id _ _ restore) as [[r0 bm] id], (nz r0) eqn:E0; simplify_eq; cbn in *; rewrite ?Et; try done;
      congruence.
  - apply Forall_app in Hf as [? Hf]. apply Forall_cons in Hf as [_ Hf]. by apply Forall_app.
Qed.

Abbreviation N := (kfd_get_num_sdma_engines e).
Abbreviation X := (kfd_get_num_xgmi_sdma_engines e).
Abbreviation Q := (num_sdma_queues_per_engine e).

Lemma engines_split :
  mqd_env_ok → 0 ≤ N ∧ 0 ≤ X ∧ N + X = sdma_num_instances e `quot` num_nodes e ∧ N + X < 2 ^ 32
    ∧ get_num_all_sdma_engines e = N + X.
Proof.
  intros [Hi Hn _ _ _ _].
  assert (0 ≤ sdma_num_instances e `quot` num_nodes e ≤ sdma_num_instances e).
  { rewrite Z.quot_div_nonneg by lia. split; [apply Z.div_pos; lia|]. apply Z.div_le_upper_bound; nia. }
  assert (0 ≤ N ≤ sdma_num_instances e `quot` num_nodes e).
  { unfold kfd_get_num_sdma_engines. destruct (xgmi_supported e); cbn [negb]; lia. }
  unfold get_num_all_sdma_engines, kfd_get_num_xgmi_sdma_engines.
  rewrite !wrap_small by (unfold in_width; rewrite ?wrap_small; unfold in_width; lia).
  split_and!; lia.
Qed.

Lemma slots_bound :
  mqd_env_ok → 0 ≤ (N + X) * Q ∧ 0 ≤ hiq_mqd_size * NUM_XCC (xcc_mask e)
    ∧ (N + X) * Q * sdma_mqd_size + hiq_mqd_size * NUM_XCC (xcc_mask e) < 2 ^ 32.
Proof.
  intros Hok. destruct (engines_split Hok) as (HN & HX & Hsum & _). destruct Hok as [_ _ HQ Hh _ Ht].
  rewrite <- Hsum in Ht. assert (0 ≤ NUM_XCC (xcc_mask e)) by (unfold NUM_XCC, bitmap_weight; lia).
  split_and!; nia.
Qed.

(** The engine and the queue of a queue whose id the device has. *)
Lemma sdma_place q :
  mqd_env_ok → sdma_fields q →
  (qtype q = KFD_QUEUE_TYPE_SDMA → 0 ≤ sdma_id q < get_num_sdma_queues e) →
  (qtype q = KFD_QUEUE_TYPE_SDMA_XGMI → 0 ≤ sdma_id q < get_num_xgmi_sdma_queues e) →
  let en := sdma_engine_id (properties q) in
  let qu := sdma_queue_id (properties q) in
  0 ≤ qu < Q ∧ (qtype q = KFD_QUEUE_TYPE_SDMA ∧ 0 ≤ en < N ∧ sdma_id q = N * qu + en
                ∨ qtype q = KFD_QUEUE_TYPE_SDMA_XGMI ∧ N ≤ en < N + X ∧ sdma_id q = X * qu + (en - N)).
Proof.
  intros Hok Hf Hs Hx. destruct (engines_split Hok) as (HN & HX & _ & H32 & _).
  destruct (slots_bound Hok) as (HS & HH & Hb). pose proof (ok_sdma Hok) as Hsz. pose proof (ok_per_engine Hok) as HQ.
  unfold get_num_sdma_queues, get_num_xgmi_sdma_queues in *.
  rewrite wrap_small in Hs by (unfold in_width; nia). rewrite wrap_small in Hx by (unfold in_width; nia).
  unfold sdma_fields in Hf. cbv zeta in *. destruct (qtype q); try done; destruct Hf as [-> ->].
  - specialize (Hs eq_refl). assert (0 < N) by nia. pose proof (Z.mod_pos_bound (sdma_id q) N).
    split; [split; [apply Z.div_pos; lia|apply Z.div_lt_upper_bound; lia]|]. left.
    split_and!; [done|lia|lia|by apply Z.div_mod; lia].
  - specialize (Hx eq_refl). assert (0 < X) by nia. pose proof (Z.mod_pos_bound (sdma_id q) X).
    rewrite wrap_small by (unfold in_width; lia).
    split; [split; [apply Z.div_pos; lia|apply Z.div_lt_upper_bound; lia]|]. right.
    split_and!; [done|lia|lia|]. rewrite Z.add_simpl_l. by apply Z.div_mod; lia.
Qed.

(** The number of the descriptor of a queue. *)
Definition sdma_slot (p : queue_properties) : Z := sdma_engine_id p * Q + sdma_queue_id p.

Lemma sdma_mqd_offset_slot p :
  mqd_env_ok → 0 ≤ sdma_engine_id p → 0 ≤ sdma_queue_id p → sdma_slot p < (N + X) * Q →
  sdma_mqd_offset e hiq_mqd_size sdma_mqd_size p = sdma_slot p * sdma_mqd_size + hiq_mqd_size * NUM_XCC (xcc_mask e).
Proof.
  intros Hok He Hq Hlt. destruct (slots_bound Hok) as (HS & HH & Hb). pose proof (ok_sdma Hok) as Hsz.
  pose proof (ok_per_engine Hok) as HQ. unfold sdma_mqd_offset, sdma_slot in *.
  rewrite (wrap_small 32 (sdma_engine_id p * Q)) by (unfold in_width; nia).
  rewrite (wrap_small 32 (sdma_engine_id p * Q + _)) by (unfold in_width; nia).
  rewrite (wrap_small 32 (_ * sdma_mqd_size)) by (unfold in_width; nia).
  rewrite (wrap_small 32 (hiq_mqd_size * _)) by (unfold in_width; nia).
  apply wrap_small. unfold in_width. nia.
Qed.

Lemma buffer_size :
  mqd_env_ok → hiq_sdma_buffer_size e hiq_mqd_size sdma_mqd_size
               = (N + X) * Q * sdma_mqd_size + hiq_mqd_size * NUM_XCC (xcc_mask e).
Proof.
  intros Hok. destruct (engines_split Hok) as (HN & HX & _ & H32 & Hall). destruct (slots_bound Hok) as (HS & HH & Hb).
  pose proof (ok_sdma Hok) as Hsz. pose proof (ok_per_engine Hok) as HQ.
  unfold hiq_sdma_buffer_size. rewrite Hall.
  replace (u32 (u32 (sdma_mqd_size * (N + X)) * Q)) with ((N + X) * Q * sdma_mqd_size).
  - rewrite (wrap_small 32 (hiq_mqd_size * _)) by (unfold in_width; nia). apply wrap_small. unfold in_width. nia.
  - unfold wrap. rewrite Z.mul_mod_idemp_l by done. rewrite Z.mod_small by nia. ring.
Qed.

(** The SDMA queues of the device after a history of creations and destructions. *)
Record sdma_live (live : list queue) : Prop := {
  live_fields : Forall sdma_fields live;
  live_sdma_ids : NoDup (sdma_id <$> filter (λ q, qtype q = KFD_QUEUE_TYPE_SDMA) live);
  live_xgmi_ids : NoDup (sdma_id <$> filter (λ q, qtype q = KFD_QUEUE_TYPE_SDMA_XGMI) live);
  live_sdma_range q : q ∈ live → qtype q = KFD_QUEUE_TYPE_SDMA → 0 ≤ sdma_id q < get_num_sdma_queues e;
  live_xgmi_range q : q ∈ live → qtype q = KFD_QUEUE_TYPE_SDMA_XGMI → 0 ≤ sdma_id q < get_num_xgmi_sdma_queues e;
}.

Lemma rtc_sdma_live d0 d live :
  sdma_env_ok e → rtc (sdma_step e) (init_sdma_bitmaps e d0, []) (d, live) → sdma_live live.
Proof.
  intros Henv Hr.
  assert (H : ∀ s s', rtc (sdma_step e) s s' → sdma_inv e s → Forall sdma_fields s.2 →
    sdma_inv e s' ∧ Forall sdma_fields s'.2).
  { induction 1 as [|s1 s2 s3 Hst _ IH]; intros Hs Hf; [done|].
    apply IH; [by eapply sdma_inv_step|by eapply sdma_fields_step]. }
  destruct (H _ _ Hr (sdma_inv_init e d0) (Forall_nil_2 _)) as [[Hs Hx] Hf]. cbn [fst snd] in *.
  split; [done|apply (pool_nodup _ _ _ Hs)|apply (pool_nodup _ _ _ Hx)|..]; intros q Hq Ht.
  - apply (sdma_all_range e Henv), (pool_used _ _ _ Hs), list_elem_of_fmap. exists q. split; [done|].
    by apply list_elem_of_filter.
  - apply (xgmi_all_range e Henv), (pool_used _ _ _ Hx), list_elem_of_fmap. exists q. split; [done|].
    by apply list_elem_of_filter.
Qed.

Lemma live_slot live q :
  mqd_env_ok → sdma_live live → q ∈ live →
  0 ≤ sdma_slot (properties q) < (N + X) * Q
  ∧ sdma_mqd_offset e hiq_mqd_size sdma_mqd_size (properties q)
    = sdma_slot (properties q) * sdma_mqd_size + hiq_mqd_size * NUM_XCC (xcc_mask e).
Proof.
  intros Hok [Hf _ _ Hs Hx] Hq. rewrite Forall_forall in Hf.
  destruct (sdma_place q Hok (Hf q Hq) (Hs q Hq) (Hx q Hq)) as [Hqu Hp].
  destruct (engines_split Hok) as (HN & HX & _).
  assert (He : 0 ≤ sdma_engine_id (properties q) < N + X) by (destruct Hp as [(_ & ? & _) | (_ & ? & _)]; lia).
  assert (Hslot : 0 ≤ sdma_slot (properties q) < (N + X) * Q) by (unfold sdma_slot; nia).
  split; [done|]. apply sdma_mqd_offset_slot; [done|lia|lia|tauto].
Qed.

Lemma live_slots_distinct live i j q q' :
  mqd_env_ok → sdma_live live → live !! i = Some q → live !! j = Some q' → i ≠ j →
  sdma_slot (properties q) ≠ sdma_slot (properties q').
Proof.
  intros Hok [Hf Hns Hnx Hs Hx] Hi Hj Hij Heq. apply Hij. rewrite Forall_forall in Hf.
  pose proof (list_elem_of_lookup_2 _ _ _ Hi) as Hq. pose proof (list_elem_of_lookup_2 _ _ _ Hj) as Hq'.
  destruct (sdma_place q Hok (Hf q Hq) (Hs q Hq) (Hx q Hq)) as [Hqu Hp].
  destruct (sdma_place q' Hok (Hf q' Hq') (Hs q' Hq') (Hx q' Hq')) as [Hqu' Hp'].
  assert (sdma_engine_id (properties q) = sdma_engine_id (properties q')
    ∧ sdma_queue_id (properties q) = sdma_queue_id (properties q')) as [He Hqq].
  { unfold sdma_slot in Heq. rewrite !(Z.mul_comm _ Q) in Heq. by apply (Z.div_mod_unique Q); lia. }
  destruct Hp as [(Ht & Hen & Hid) | (Ht & Hen & Hid)], Hp' as [(Ht' & Hen' & Hid') | (Ht' & Hen' & Hid')]; try lia.
  - eapply (NoDup_filter_lookup sdma_id); [exact Hns|done..|]. congruence.
  - eapply (NoDup_filter_lookup sdma_id); [exact Hnx|done..|]. congruence.
Qed.
End SlotsProof.

(** ** Properties *)

(** C27. The spread of a mask of compute units.  The function leaves no array, and
    sets in the words of the shader engines exactly these bits: the unit [cu] of the
    array [sh] of the engine [se] (a pair of units from GFX10 on), if it is active, is
    enabled when the mask wants it at the place [inst + rank * stride].  Its rank is the
    number of active units before it, in the order that takes one unit of every array
    before the second ones, the first arrays of all engines before their second ones,
    and the engines in turn; the stride is the number of XCCs, twice that for pairs.
    The place has to be below the size of the mask and the number of units of a node,
    except for the first unit. *)
Theorem cu_mask_distribution (c : cu_config) (cu_mask : list Z) (cu_mask_count inst : Z) (se_mask : list Z)
    (Hse : max_shader_engines c ≤ KFD_MAX_NUM_SE) (Hsh : max_sh_per_se c ≤ KFD_MAX_NUM_SH_PER_SE)
    (Hxcc : 0 < NUM_XCC (cu_xcc_mask c)) (Hlen : max_shader_engines c ≤ Z.of_nat (length se_mask))
    (Hcount : cu_mask_count ≤ 32 * Z.of_nat (length cu_mask))
    (Hinst : 0 ≤ inst < 32 * Z.of_nat (length cu_mask)) (Hwgp : inst `mod` cu_inc c = 0)
    (Hbitmap : is_Some (count_cus c (inst + ffs (cu_xcc_mask c) - 1))) :
  let xcc_inst := inst + ffs (cu_xcc_mask c) - 1 in
  let step := if IP_VERSION 10 0 0 <=? cu_gc_version c then 2 else 1 in
  let place u := inst + unit_rank c xcc_inst u * (step * NUM_XCC (cu_xcc_mask c)) in
  ∃ m, mqd_symmetrically_map_cu_mask c cu_mask cu_mask_count se_mask inst = Some m ∧
    length m = length se_mask ∧
    ∀ se b, 0 ≤ se < max_shader_engines c → 0 ≤ b →
      Z.testbit (default 0 (m !! Z.to_nat se)) b = true ↔
      ∃ cu sh, let u := (cu, sh, se) in
        u ∈ all_units c ∧ unit_active c xcc_inst u = true ∧ cu + sh * 16 ≤ b < cu + sh * 16 + step ∧
        (unit_rank c xcc_inst u = 0 ∨ place u < Z.min cu_mask_count (cu_number c / cu_num_nodes c)) ∧
        ∃ j, place u ≤ j < place u + step ∧ user_bit cu_mask j = true.
Proof.
  intros xcc_inst step place. destruct Hbitmap as [cu_per_sh Hbitmap]. fold xcc_inst in Hbitmap.
  unfold mqd_symmetrically_map_cu_mask, KFD_MAX_NUM_SE, KFD_MAX_NUM_SH_PER_SE in *.
  rewrite !(proj2 (Z.ltb_ge _ _)) by done. fold xcc_inst. rewrite Hbitmap. cbn [mbind option_bind].
  set (se0 := replicate _ 0 ++ _). set (n := Z.to_nat (max_shader_engines c)) in *.
  assert (Hl : length se0 = length se_mask).
  { unfold se0. rewrite length_app, length_replicate, length_drop. lia. }
  destruct (map_cus_spec c Hxcc cu_per_sh cu_mask (clamp_count c cu_mask_count) (cu_turns c) inst se0)
    as (m & -> & Hm & Hb); try done.
  { apply cu_turns_ok; [by rewrite Hl|done]. }
  { unfold clamp_count. lia. }
  exists m. split; [done|]. split; [congruence|]. intros se b Hse' _.
  pose proof (Hb se b ltac:(lia)) as Hb'. unfold word_bit at 1 in Hb'. rewrite Hb'. clear Hb Hb'.
  assert (word_bit se0 se b = false) as ->.
  { unfold word_bit, se0. rewrite lookup_app_l by (rewrite length_replicate; lia).
    rewrite lookup_replicate_2 by lia. cbn. by rewrite Z.testbit_0_l. }
  assert (Hturns := λ u, active_turn_rank c xcc_inst cu_per_sh u Hbitmap).
  assert (Hwant : ∀ i, user_wants c cu_mask i = true ↔ ∃ j, i ≤ j < i + step ∧ user_bit cu_mask j = true).
  { intros i. unfold user_wants. rewrite existsb_exists. setoid_rewrite <- list_elem_of_In.
    by setoid_rewrite elem_of_seqZ. }
  unfold set_by_turn, turn_bit. split.
  - intros [|(k & cu & sh & Hk & Hplace & Hu & Hbit)]; [done|]. apply Hturns in Hk as (Hin & Ha & Hr).
    exists cu, sh. unfold place. rewrite Hr.
    refine (conj Hin (conj Ha (conj Hbit (conj _ (proj1 (Hwant _) Hu))))).
    destruct Hplace as [->|Hlt]; [by left|by right].
  - intros (cu & sh & Hin & Ha & Hbit & Hplace & Hu). right. exists (Z.to_nat (unit_rank c xcc_inst (cu, sh, se))), cu, sh.
    assert (Hpos : 0 ≤ unit_rank c xcc_inst (cu, sh, se)) by (unfold unit_rank; lia).
    rewrite (Hturns (cu, sh, se)), Z2Nat.id by done.
    refine (conj (conj Hin (conj Ha eq_refl)) (conj _ (conj (proj2 (Hwant _) Hu) Hbit))).
    destruct Hplace as [H0|Hlt]; [left; by rewrite H0|by right].
Qed.

(** Descriptors do not overlap.  Whatever SDMA queues of both kinds were created
    (freshly or with an id to restore) and destroyed since [init_sdma_bitmaps], the
    descriptor of every live one lies in the buffer of [allocate_hiq_sdma_mqd],
    behind the descriptors of the HIQ on all XCCs, and apart from those of the
    other live queues. *)
Theorem sdma_mqds_disjoint (e : dev_env) (hiq_mqd_size sdma_mqd_size : Z) (d0 d : device_queue_manager)
    (live : list queue) (Henv : sdma_env_ok e) (Hok : mqd_env_ok e hiq_mqd_size sdma_mqd_size)
    (Hr : rtc (sdma_step e) (init_sdma_bitmaps e d0, []) (d, live)) :
  let off q := sdma_mqd_offset e hiq_mqd_size sdma_mqd_size (properties q) in
  ∀ i q, live !! i = Some q →
    (∀ xcc, 0 ≤ xcc < NUM_XCC (xcc_mask e) → (xcc + 1) * kfd_hiq_mqd_stride hiq_mqd_size ≤ off q) ∧
    off q + sdma_mqd_size ≤ hiq_sdma_buffer_size e hiq_mqd_size sdma_mqd_size ∧
    ∀ j q', live !! j = Some q' → i ≠ j → off q + sdma_mqd_size ≤ off q' ∨ off q' + sdma_mqd_size ≤ off q.
Proof.
  intros off i q Hi.
  pose proof (rtc_sdma_live e d0 d live Henv Hr) as Hlive. pose proof (list_elem_of_lookup_2 _ _ _ Hi) as Hq.
  destruct (live_slot e _ _ live q Hok Hlive Hq) as [Hslot Hoff]. fold (off q) in Hoff.
  pose proof (ok_sdma _ _ _ Hok) as Hsz. pose proof (ok_hiq _ _ _ Hok) as Hh. split; [|split].
  - intros xcc Hxcc. unfold kfd_hiq_mqd_stride. rewrite Hoff. nia.
  - rewrite buffer_size by done. nia.
  - intros j q' Hj Hij.
    destruct (live_slot e _ _ live q' Hok Hlive (list_elem_of_lookup_2 _ _ _ Hj)) as [Hslot' Hoff'].
    fold (off q') in Hoff'. rewrite Hoff, Hoff'.
    pose proof (live_slots_distinct e _ _ live i j q q' Hok Hlive Hi Hj Hij). nia.
Qed.

(** ** Witnesses *)

(** Two shader engines with three and two active units, two words of mask. *)
Definition demo_cus : cu_config := mk_cu_config (IP_VERSION 9 0 0) 1 5 1 2 1 [[[7; 0; 0; 0]; [3; 0; 0; 0]; [0; 0; 0; 0]; [0; 0; 0; 0]]].

(** The third bit of the mask is for the second unit of the first engine, the fourth
    for that of the second engine. *)
Lemma cu_mask_distribution_witness :
  mqd_symmetrically_map_cu_mask demo_cus [0x1d; 0] 64 (replicate 8 0) 0 = Some [7; 2; 0; 0; 0; 0; 0; 0] ∧
  unit_rank demo_cus 0 (1, 0, 0) = 2 ∧ unit_rank demo_cus 0 (1, 0, 1) = 3 ∧
  ∃ m, mqd_symmetrically_map_cu_mask demo_cus [0x1d; 0] 64 (replicate 8 0) 0 = Some m ∧ length m = 8%nat.
Proof.
  split; [vm_compute; reflexivity|]. split; [vm_compute; reflexivity|]. split; [vm_compute; reflexivity|].
  destruct (cu_mask_distribution demo_cus [0x1d; 0] 64 0 (replicate 8 0)) as (m & Hm & Hl & _);
    [vm_compute; congruence..|vm_compute; split; congruence|reflexivity|by eexists|].
  exists m. by split.
Defined.

(** An SDMA queue of each kind, the first restored, on a device with two engines of each. *)
Definition xgmi_env : dev_env :=
  mk_dev_env 4 8 0xfefefefe 4 1 true 8 3 0 (λ i, 256 + 16 * i) true 240 255 8 4096
    8 15 1 true false false true true false 4096 (2 ^ 29).
Definition sdma_created (d : device_queue_manager) (t : kfd_queue_type) (restore : option Z)
    : Z * device_queue_manager * queue := allocate_sdma_queue xgmi_env d (queue0 t 1 0) restore.
Definition sdma_d0 : device_queue_manager := init_sdma_bitmaps xgmi_env dqm0.
Definition sdma_r1 : Z * device_queue_manager * queue := sdma_created sdma_d0 KFD_QUEUE_TYPE_SDMA (Some 7).
Definition sdma_r2 : Z * device_queue_manager * queue := sdma_created sdma_r1.1.2 KFD_QUEUE_TYPE_SDMA_XGMI None.

Lemma sdma_mqds_disjoint_witness :
  sdma_mqd_offset xgmi_env 512 128 (properties sdma_r1.2) = 512 + 11 * 128 ∧
  sdma_mqd_offset xgmi_env 512 128 (properties sdma_r2.2) = 512 + 16 * 128 ∧
  (∀ xcc, 0 ≤ xcc < 1 → (xcc + 1) * 512 ≤ sdma_mqd_offset xgmi_env 512 128 (properties sdma_r2.2)) ∧
  sdma_mqd_offset xgmi_env 512 128 (properties sdma_r2.2) + 128 ≤ hiq_sdma_buffer_size xgmi_env 512 128.
Proof.
  split; [vm_compute; reflexivity|]. split; [vm_compute; reflexivity|].
  destruct (sdma_mqds_disjoint xgmi_env 512 128 dqm0 sdma_r2.1.2 [sdma_r2.2; sdma_r1.2]) with
    (i := 0%nat) (q := sdma_r2.2) as (Hhiq & Hend & _).
  - split; vm_compute; congruence.
  - split; vm_compute; try split; congruence.
  - eapply rtc_l; [|eapply rtc_l; [|apply rtc_refl]].
    + exact (sdma_step_create xgmi_env sdma_d0 [] (queue0 KFD_QUEUE_TYPE_SDMA 1 0) (Some 7) 0 sdma_r1.1.2 sdma_r1.2
               eq_refl eq_refl).
    + exact (sdma_step_create xgmi_env sdma_r1.1.2 [sdma_r1.2] (queue0 KFD_QUEUE_TYPE_SDMA_XGMI 1 0) None 0
               sdma_r2.1.2 sdma_r2.2 eq_refl eq_refl).
  - reflexivity.
  - by split.
Defined.
