(* ===== verification/Pqm.v ===== *)
(** * Queues of a process

    [kfd_process_queue_manager.c] on one device: the process' table of queues
    ([struct process_queue_manager]: the list of nodes and the bitmap of queue
    ids), on top of the device queue manager's operation table.  A function that
    would follow a null pointer gives [None].

    A node and the device queue manager point to the same [struct queue]; the
    object is read where it is linked ([live]).  A creation at the manager is one
    step here, without the gap in which software scheduling gives the lock back
    (DqmSystem has it). *)

From S2P Require Import Prelude DqmState DqmOps DqmCounts DqmProc DqmSystem.

(** ** Data *)

Record process_queue_node := mk_pqn {
  pqn_q : option queue;
  pqn_kq : option queue;
}.
#[export] Instance eta_pqn : Eta process_queue_node := λ n, mk_pqn (pqn_q n) (pqn_kq n).

(** The tables of the process together with its device's manager. *)
Record pqm_state := mk_pqm {
  pqm_queues : list process_queue_node;
  queue_slot_bitmap : Z;
  num_gws : Z;
  proc_ctx : bool;                 (* pdd->proc_ctx_cpu_ptr *)
  already_dequeued : bool;
  pd : dqm;
  pp : qpd;
}.
#[export] Instance eta_pqm : Eta pqm_state := λ s,
  mk_pqm (pqm_queues s) (queue_slot_bitmap s) (num_gws s) (proc_ctx s)
    (already_dequeued s) (pd s) (pp s).

(** Device constants, and answers of the memory manager and the hardware. *)
Record pqm_env := mk_pqm_env {
  pqm_pid : Z;
  is_9_4_3 : bool;
  gc_10_or_later : bool;
  max_no_of_hqd : Z;
  no_oversubscription : bool;
  vmid_num_kfd : Z;
  gws_size : Z;
  alloc_proc_ctx : Z;
  alloc_pqn : bool;
  alloc_queue : Z;
  alloc_gang_ctx : Z;
  alloc_kernel_queue : bool;
  drain_interrupts : Z;
  gws_call : Z;                    (* amdgpu_amdkfd_{add,remove}_gws *)
}.

(** What [kfd_ioctl_create_queue] or a CRIU restore asks for. *)
Record create_args := mk_create_args {
  ca_properties : queue_properties;
  ca_addr : Z;                     (* address of the new object *)
  ca_pasid : Z;
  ca_restore : option (Z * criu_queue_data);
}.

Section Pqm.
Context (e : dev_env) (h : hw_env) (pe : pqm_env) (ops : device_queue_manager_ops).

Definition node_qids (n : process_queue_node) : list Z :=
  match pqn_q n with Some q => [queue_id (properties q)] | None => [] end
  ++ match pqn_kq n with Some q => [queue_id (properties q)] | None => [] end.

Definition get_queue_by_qid (s : pqm_state) (qid : Z) : option process_queue_node :=
  snd <$> list_find (λ n, qid ∈ node_qids n) (pqm_queues s).

Definition assign_queue_slot_by_qid (s : pqm_state) (qid : Z) : Z * pqm_state :=
  if KFD_MAX_NUM_OF_QUEUES_PER_PROCESS <=? qid then (-EINVAL, s)
  else if test_bit qid (queue_slot_bitmap s)
  then (-ENOSPC, s <| queue_slot_bitmap ::= set_bit qid |>)
  else (0, s <| queue_slot_bitmap ::= set_bit qid |>).

Definition find_available_queue_slot (s : pqm_state) : Z * Z * pqm_state :=
  let found := find_first_zero_bit (queue_slot_bitmap s) KFD_MAX_NUM_OF_QUEUES_PER_PROCESS in
  if KFD_MAX_NUM_OF_QUEUES_PER_PROCESS <=? found then (-ENOMEM, 0, s)
  else (0, found, s <| queue_slot_bitmap ::= set_bit found |>).

(** The object the node points to. *)
Definition live (s : pqm_state) (q : queue) : queue :=
  default q (find_queue (q_addr q) (queues_list (pp s))).

Definition kfd_process_dequeue_from_device (s : pqm_state) : option pqm_state :=
  if already_dequeued s then Some s
  else
    '(_, d, p) ← ops_process_termination ops (pd s) (pp s) (pqm_pid pe);
    Some (s <| pd := d |> <| pp := p |> <| already_dequeued := true |>).

Definition init_user_queue (a : create_args) (qid : Z) : Z * option queue :=
  let pr := (ca_properties a) <| exception_status := ec_queue_new_mask e |>
              <| vmid_of_queue := 0 |> <| queue_id := qid |> in
  if nz (alloc_queue pe) then (alloc_queue pe, None)
  else
    let q := mk_queue (ca_addr a) pr 0 0 0 0 false (ca_pasid a) in
    if enable_mes e && nz (alloc_gang_ctx pe) then (alloc_gang_ctx pe, None) else (0, Some q).

Definition no_queues (p : qpd) : bool :=
  list_empty (queues_list p) && list_empty (priv_queue_list p).

Definition register (s : pqm_state) : pqm_state :=
  let '(_, d, p) := register_process h (pd s) (pp s) (pqm_pid pe) in s <| pd := d |> <| pp := p |>.
Definition unregister (s : pqm_state) : pqm_state :=
  s <| pd := (unregister_process (pd s) (pqm_pid pe)).2 |>.

(** [err_allocate_pqn] of [pqm_create_queue]; freeing the objects shows nowhere. *)
Definition err_allocate_pqn (retval qid : Z) (s : pqm_state) : Z * Z * pqm_state :=
  let s := s <| queue_slot_bitmap ::= clear_bit qid |> in
  (retval, qid, if no_queues (pp s) then unregister s else s).

(** The [switch] on the type: the node to insert, or an error. *)
Definition create_by_type (s : pqm_state) (a : create_args) (qid : Z)
    : option (Z * option process_queue_node * pqm_state) :=
  let user_queue s :=
    match init_user_queue a qid with
    | (_, Some q) =>
        let '(r, d, p, q) := ops_create_queue ops (pd s) q (pp s) (snd <$> ca_restore a) in
        Some (r, Some (mk_pqn (Some q) None), s <| pd := d |> <| pp := p |>)
    | (r, None) => Some (r, None, s)
    end in
  match type (ca_properties a) with
  | KFD_QUEUE_TYPE_SDMA | KFD_QUEUE_TYPE_SDMA_XGMI => user_queue s
  | KFD_QUEUE_TYPE_COMPUTE =>
      if no_oversubscription pe
         && ((vmid_num_kfd pe <=? processes_count (pd s))
             || (get_cp_queues_num e <=? active_queue_count (pd s)))
      then Some (-EPERM, None, s) else user_queue s
  | KFD_QUEUE_TYPE_DIQ =>
      if negb (alloc_kernel_queue pe) then Some (-ENOMEM, None, s)
      else
        let kq := mk_queue (ca_addr a) ((ca_properties a) <| queue_id := qid |>) 0 0 0 0 false
                    (ca_pasid a) in
        let node := Some (mk_pqn None (Some kq)) in
        if nz (drain_interrupts pe) then Some (drain_interrupts pe, node, s)
        else
          f ← ops_create_kernel_queue ops;
          let '(r, d, p) := f (pd s) kq (pp s) in
          Some (r, node, s <| pd := d |> <| pp := p |>)
  | KFD_QUEUE_TYPE_HIQ => Some (-EINVAL, None, s)
  end.

Definition max_queues (s : pqm_state) (a : create_args) : Z :=
  let m := if is_9_4_3 pe then 255 else 127 in
  if is_debug (pp s) || is_type (type (ca_properties a)) KFD_QUEUE_TYPE_DIQ
  then max_no_of_hqd pe / 2 else m.

(** The code and the queue id, which a failed search leaves at 0. *)
Definition pqm_create_queue (s : pqm_state) (a : create_args) : option (Z * Z * pqm_state) :=
  if max_queues s a <=? queue_count (pp s) then Some (-ENOSPC, 0, s)
  else
    let '(retval, qid, s) :=
      match ca_restore a with
      | Some (id, _) => let '(r, s) := assign_queue_slot_by_qid s id in (r, id, s)
      | None => find_available_queue_slot s
      end in
    if nz retval then Some (retval, qid, s)
    else
      let s := if no_queues (pp s) then register s else s in
      let needs_ctx := negb (proc_ctx s) && enable_mes e in
      if needs_ctx && nz (alloc_proc_ctx pe) then Some (alloc_proc_ctx pe, qid, s)
      else
        let s := if needs_ctx then s <| proc_ctx := true |> else s in
        if negb (alloc_pqn pe) then Some (err_allocate_pqn (-ENOMEM) qid s)
        else
          '(retval, node, s) ← create_by_type s a qid;
          if nz retval then Some (err_allocate_pqn retval qid s)
          else Some (retval, qid,
                 match node with Some n => s <| pqm_queues ::= cons n |> | None => s end).

(** Offset in the doorbell page of the process, returned to the caller. *)
Definition doorbell_offset_in_process (q : queue) : Z :=
  u32 ((doorbell_off (properties q)
        - amdgpu_doorbell_index_on_bar (proc_doorbells_offset e) 0 (doorbell_size e)) * 4).

(** A GWS handle is given back with the queue that holds it. *)
Definition pqm_clean_queue_resource (s : pqm_state) (q : queue) : pqm_state :=
  if gws q then s <| num_gws := 0 |> else s.

Definition remove_node (qid : Z) (l : list process_queue_node) : list process_queue_node :=
  match list_find (λ n, qid ∈ node_qids n) l with Some (i, _) => delete i l | None => l end.

(** [woken]: the other threads let the waiting caller go on. *)
Definition pqm_destroy_queue (woken : bool) (s : pqm_state) (qid : Z) : option (Z * pqm_state) :=
  match get_queue_by_qid s qid with
  | None => Some (-EINVAL, s)
  | Some n =>
      let finish retval s :=
        let s := s <| pqm_queues ::= remove_node qid |> <| queue_slot_bitmap ::= clear_bit qid |> in
        Some (retval, if no_queues (pp s) then unregister s else s) in
      if bool_decide (pqn_q n = None ∧ pqn_kq n = None) then Some (-ENODEV, s)
      else
        s ← match pqn_kq n with
            | Some kq =>
                f ← ops_destroy_kernel_queue ops;
                let '(d, p) := f (pd s) kq (pp s) in
                Some (s <| pd := d |> <| pp := p |>)
            | None => Some s
            end;
        match pqn_q n with
        | None => finish 0 s
        | Some q =>
            let q := live s q in
            let w := if woken then Some (pd s, pp s, q) else None in
            let '(retval, d, p) := ops_destroy_queue ops w (pd s) (pp s) q in
            let s := s <| pd := d |> <| pp := p |> in
            if nz retval && negb (retval =? -ETIME) && negb (retval =? -EIO)
            then Some (retval, s)
            else finish retval (pqm_clean_queue_resource s q)
        end
  end.

(** The node's object is rewritten and [dqm->ops.update_queue] called on it. *)
Definition update_node (s : pqm_state) (q : queue) : Z * pqm_state :=
  let p := in_place (pp s) q in
  let '(r, d, p, q) := ops_update_queue ops (pd s) p q in
  (r, s <| pd := d |> <| pp := p |>).

Definition pqm_update_queue_properties (s : pqm_state) (qid : Z) (a size percent : Z)
    : option (Z * pqm_state) :=
  match get_queue_by_qid s qid with
  | None => Some (-EFAULT, s)
  | Some n =>
      q ← pqn_q n;
      Some (update_node s (user_update a size percent (live s q)))
  end.

Definition pqm_set_gws (s : pqm_state) (qid : Z) (g : bool) : option (Z * pqm_state) :=
  match get_queue_by_qid s qid with
  | None => Some (-EINVAL, s)
  | Some n =>
      match pqn_q n with
      | None => Some (-ENODEV, s)
      | Some q =>
          if g && nz (num_gws s) then Some (-EBUSY, s)
          else if negb g && negb (nz (num_gws s)) then Some (-EINVAL, s)
          else if negb (is_9_4_3 pe) && negb (enable_mes e) && nz (gws_call pe)
          then Some (gws_call pe, s)
          else
            let s := s <| num_gws := if g then gws_size pe else 0 |> in
            Some (update_node s (set_field gws (λ _, g) (live s q)))
      end
  end.

(** [cu_mask.ptr] and [cu_mask.count] of the update, 32 bits a word. *)
Definition cu_pair (mask : list Z) (i : Z) : Z :=
  Z.land (Z.shiftr (default 0 (mask !! Z.to_nat (i / 32))) (i `mod` 32)) 3.

(** The [for] loop over the pairs, from [i]. *)
Fixpoint cu_pairs_ok (n : nat) (mask : list Z) (count i : Z) : bool :=
  match n with
  | O => true
  | S n =>
      if count <=? i then true
      else
        let pair := cu_pair mask i in
        if nz pair && negb (pair =? 3) then false else cu_pairs_ok n mask count (i + 2)
  end.

(** [mask] is [None] for an update without a CU mask. *)
Definition pqm_update_mqd (s : pqm_state) (qid : Z) (mask : option (list Z * Z))
    : option (Z * pqm_state) :=
  match get_queue_by_qid s qid with
  | None => Some (-EFAULT, s)
  | Some n =>
      q ← pqn_q n;
      let q := live s q in
      if is_dbg_wa (properties q) && bool_decide (mask ≠ None) then Some (-EBUSY, s)
      else if match mask with
              | Some (m, c) => gc_10_or_later pe && negb (cu_pairs_ok (Z.to_nat c) m c 0)
              | None => false
              end then Some (-EINVAL, s)
      else
        let '(r, d, p, _) := ops_update_queue ops (pd s) (pp s) q in
        Some (r, s <| pd := d |> <| pp := p |>)
  end.

Definition pqm_get_kernel_queue (s : pqm_state) (qid : Z) : option queue :=
  n ← get_queue_by_qid s qid; pqn_kq n.
Definition pqm_get_user_queue (s : pqm_state) (qid : Z) : option queue :=
  n ← get_queue_by_qid s qid; live s <$> pqn_q n.

Definition pqm_init (d : dqm) (p : qpd) : pqm_state := mk_pqm [] 0 0 false false d p.

(** The nodes are freed, the bitmap and the list with them. *)
Definition pqm_uninit (s : pqm_state) : pqm_state :=
  let s := foldl (λ s n, match pqn_q n with
                         | Some q => pqm_clean_queue_resource s (live s q)
                         | None => s end) s (pqm_queues s) in
  s <| pqm_queues := [] |> <| queue_slot_bitmap := 0 |>.

End Pqm.

(** ** What the process relies on *)

(** The codes after which [pqm_destroy_queue] takes the queue for destroyed. *)
Definition destroyed_code (r : Z) : bool := (r =? 0) || (r =? -ETIME) || (r =? -EIO).

(** Besides the counters, the operation table tells the process truthfully
    whether the queue is linked: a failed creation leaves the list as it was, and
    destruction unlinks the queue exactly when it returns a [destroyed_code]. *)
Class Linker (ops : device_queue_manager_ops) `{Scheduler ops} := {
  create_links d p q qd :
    ready d → q_addr q ∉ addrs (queues_list p) →
    let '(r, d', p', q') := ops_create_queue ops d q p qd in
    keeps q q' ∧ priv_queue_list p' = priv_queue_list p ∧ dqm_queues d' = dqm_queues d ∧
    queues_list p' = if nz r then queues_list p else q' :: queues_list p;
  destroy_links w d p q :
    ready d → qpd_wf needs_vm p → q ∈ queues_list p → w = None ∨ w = Some (d, p, q) →
    let '(r, d', p') := ops_destroy_queue ops w d p q in
    priv_queue_list p' = priv_queue_list p ∧ dqm_queues d' = dqm_queues d ∧
    addrs (queues_list p') =
      addrs (if destroyed_code r then list_del q (queues_list p) else queues_list p);
  update_links d p q :
    ready d → qpd_wf needs_vm p → q ∈ queues_list p →
    let '(_, d', p', q') := ops_update_queue ops d p q in
    priv_queue_list p' = priv_queue_list p ∧ dqm_queues d' = dqm_queues d ∧
    addrs (queues_list p') = addrs (queues_list p);
  create_kernel_links f d p kq :
    ops_create_kernel_queue ops = Some f →
    let '(r, d', p') := f d kq p in
    queues_list p' = queues_list p ∧ dqm_queues d' = dqm_queues d ∧
    priv_queue_list p' = if nz r then priv_queue_list p else kq :: priv_queue_list p;
  destroy_kernel_links f d p kq :
    ops_destroy_kernel_queue ops = Some f →
    let '(d', p') := f d kq p in
    queues_list p' = queues_list p ∧ dqm_queues d' = dqm_queues d ∧
    priv_queue_list p' = list_del kq (priv_queue_list p);
}.

(** The hardware and the firmware fail in no other way than by not answering, and there is
    always room in the ring of the HIQ ([kq_acquire_packet_buffer] gives -ENOMEM when
    there is none). *)
Record timeouts_only (h : hw_env) : Prop := {
  to_grace l : destroyed_code (hw_grace_period h l) = true;
  to_unmap l : destroyed_code (hw_send_unmap h l) = true;
  to_runlist l : destroyed_code (hw_send_runlist h l) = true;
  to_fence l : destroyed_code (hw_fence_wait h l) = true;
  to_mqd l q : destroyed_code (hw_destroy_mqd h l q) = true;
}.

Section Links.
Context (e : dev_env) (h : hw_env).

Lemma execute_code d f fp g :
  timeouts_only h → destroyed_code (execute_queues_cpsch h d f fp g).1 = true.
Proof.
  intros []. unfold execute_queues_cpsch. destruct (is_hws_hang d); [done|].
  destruct (unmap_queues_cpsch h d f fp g false) as [r1 d1] eqn:Eu.
  assert (destroyed_code r1 = true).
  { revert Eu. unfold unmap_queues_cpsch.
    destruct (g =? USE_DEFAULT_GRACE_PERIOD); cbn [negb]; repeat case_match; intros; simplify_eq; auto. }
  destruct (nz r1); [done|]. unfold map_queues_cpsch. repeat case_match; simpl; auto.
Qed.

(** Either the caller was refused before anything happened, or the queue is
    unlinked, whatever the code. *)
Lemma destroy_queue_cpsch_result w d p q :
  enable_mes e = false → w = None ∨ w = Some (d, p, q) →
  let '(r, d', p', q') := destroy_queue_cpsch e h w d p q in
  priv_queue_list p' = priv_queue_list p ∧
  (destroyed_code r = false ∧ addrs (queues_list p') = addrs (queues_list p) ∧
     (is_debug p = true ∨ debug_trap_enabled p = true) ∨
   addrs (queues_list p') = addrs (list_del q (queues_list p)) ∧
     (timeouts_only h → destroyed_code r = true)).
Proof.
  intros Hmes Hw. unfold destroy_queue_cpsch.
  assert (Hwait : let '(r, d', p', q') := wait_on_destroy_queue w d p q in
    priv_queue_list p' = priv_queue_list p ∧ q_addr q' = q_addr q ∧ is_debug p' = is_debug p ∧
    (r = 0 ∨ r = -ERESTARTSYS ∧ debug_trap_enabled p = true) ∧
    (queues_list p' = queues_list p ∨ ∃ x, queues_list p' = list_update x (queues_list p))).
  { unfold wait_on_destroy_queue. destruct (is_debug p) eqn:Hdb; [split_and!; try done; by left|].
    cbv zeta. change (debug_trap_enabled (p <| queues_list ::= _ |>)) with (debug_trap_enabled p).
    destruct (debug_trap_enabled p) eqn:Et; cbn [andb].
    - destruct (is_suspended _); [destruct Hw as [->| ->]|]; split_and!; simpl; eauto.
    - split_and!; simpl; eauto. }
  destruct (wait_on_destroy_queue w d p q) as [[[r1 d1] p1] q1].
  destruct Hwait as (Hp1 & Ha1 & Hdb & Hr1 & Hl1).
  assert (Haddr1 : addrs (queues_list p1) = addrs (queues_list p)).
  { destruct Hl1 as [->|[x ->]]; [done|by rewrite addrs_list_update]. }
  destruct (nz r1) eqn:Er1; bool_to_Prop.
  { destruct Hr1 as [?|[-> ?]]; [done|]. split; [done|]. left. by split_and!; [|rewrite Haddr1|right]. }
  destruct (is_debug p1) eqn:Hdb1.
  { split; [done|]. left. split_and!; [done|done|left; congruence]. }
  cbv zeta. set (p2 := _ <| queues_list ::= _ |> <| _ ::= _ |>).
  assert (Hdel : ∀ l l', addrs l = addrs l' → q_addr q1 = q_addr q →
    addrs (list_del q1 l) = addrs (list_del q l')).
  { clear. intros l l' Hl Hq. unfold addrs, list_del in *. rewrite Hq. revert l' Hl.
    induction l as [|x l IH]; intros [|y l'] Hl; try done. injection Hl as Hx Hl.
    rewrite !filter_cons, Hx. case_decide; rewrite ?fmap_cons, ?Hx, (IH l'); done. }
  assert (Hp2 : addrs (queues_list p2) = addrs (list_del q (queues_list p)) ∧
                priv_queue_list p2 = priv_queue_list p).
  { destruct (deallocate_doorbell_lists e p1 q1) as [Hl Hp]. subst p2. simpl. rewrite Hl, Hp.
    split; [by apply Hdel|done]. }
  clearbody p2. destruct Hp2 as [Hl2 Hp2]. subst r1.
  destruct (qactive q1).
  - match goal with |- context [decrement_queue_count ?d2 p2 q1] =>
      destruct (decrement_lists d2 p2 q1) as [Hl3 Hp3];
      destruct (decrement_queue_count d2 p2 q1) as [d3 p3] end.
    simpl in Hl3, Hp3. rewrite Hmes. cbn [negb].
    pose proof (execute_code d3 KFD_UNMAP_QUEUES_FILTER_DYNAMIC_QUEUES 0
      USE_DEFAULT_GRACE_PERIOD) as Hc. unfold execute_dynamic.
    destruct (execute_queues_cpsch _ _ _ _ _) as [r4 d4]. simpl in Hc.
    destruct (r4 =? -ETIME); simpl; rewrite Hl3, Hp3; (split; [done|]); right; by split.
  - simpl. split; [done|]. by right.
Qed.

Lemma destroy_queue_cpsch_links w d p q :
  timeouts_only h → enable_mes e = false → w = None ∨ w = Some (d, p, q) →
  let '(r, d', p', q') := destroy_queue_cpsch e h w d p q in
  priv_queue_list p' = priv_queue_list p ∧
  addrs (queues_list p') =
    addrs (if destroyed_code r then list_del q (queues_list p) else queues_list p).
Proof.
  intros Hto Hmes Hw. pose proof (destroy_queue_cpsch_result w d p q Hmes Hw) as H.
  destruct (destroy_queue_cpsch _ _ _ _ _ _) as [[[r d'] p'] q'].
  destruct H as (Hp & [(-> & Hl & _)|(Hl & Hc)]); [done|]. by rewrite (Hc Hto).
Qed.

Lemma update_queue_links no_hws d p q :
  let '(_, d', p', _) := update_queue e h no_hws d p q in
  priv_queue_list p' = priv_queue_list p ∧ addrs (queues_list p') = addrs (queues_list p).
Proof.
  unfold update_queue. destruct (if negb no_hws then _ else _) as [[out r1] d1].
  destruct out; [done|]. cbv zeta.
  match goal with |- context [if qactive ?q2 && negb _ then _ else _] =>
    fold (update_counts (qactive q) (emit (EvUpdateMqd (q_addr q)) d1) p q2);
    pose proof (update_counts_spec (qactive q) (emit (EvUpdateMqd (q_addr q)) d1) p q2) as Hs;
    destruct (update_counts (qactive q) (emit (EvUpdateMqd (q_addr q)) d1) p q2) as [[d3 p3] q3] end.
  destruct Hs as ([Hl3 Hp3] & _).
  match goal with |- context [if negb no_hws then ?a else ?b] =>
    destruct (if negb no_hws then a else b) as [r5 d5] end.
  simpl. rewrite addrs_list_update. by rewrite Hl3, Hp3.
Qed.

Lemma destroy_queue_nocpsch_priv d p q :
  priv_queue_list (destroy_queue_nocpsch e h d p q).2 = priv_queue_list p.
Proof.
  unfold destroy_queue_nocpsch, destroy_queue_nocpsch_locked.
  destruct (match qtype q with KFD_QUEUE_TYPE_COMPUTE => _ | _ => _ end); [|done]. cbv zeta.
  destruct (deallocate_doorbell_lists e p q) as [_ Hp].
  destruct (negb _); [done|].
  set (p1 := _ <| queues_list ::= _ |>).
  assert (Hp1 : priv_queue_list p1 = priv_queue_list p).
  { subst p1. by destruct (_ =? _). }
  clearbody p1.
  destruct (if list_empty (queues_list p1) then _ else _) as [[d4 p4] q4] eqn:E4.
  assert (priv_queue_list p4 = priv_queue_list p1).
  { destruct (list_empty _); [|by simplify_eq]. destruct (reset_wavefronts p1);
      unfold deallocate_vmid in E4; by simplify_eq. }
  match goal with |- context [if qactive q4 then decrement_queue_count ?dd ?p5 q4 else _] =>
    pose proof (decrement_active dd p5 q4) as Hdec;
    destruct (if qactive q4 then _ else _) as [d6 p6]; destruct Hdec as (_ & [_ Hl6] & _) end.
  simpl in *. congruence.
Qed.

Lemma create_outcome_links d p q res :
  create_outcome d p q res →
  let '(r, d', p', q') := res in
  keeps q q' ∧ priv_queue_list p' = priv_queue_list p ∧ dqm_queues d' = dqm_queues d ∧
  queues_list p' = if nz r then queues_list p else q' :: queues_list p.
Proof.
  destruct res as [[[r d'] p'] q'].
  intros (Hk & _ & Hp & [(Hr & Hl & Hm)|(Hr & Hl & Hm & _)]); split_and!; try done;
    try (apply (moved_queues _ _ _ _ _ _ Hm)).
  - by rewrite (proj2 (nz_true r) Hr).
  - by rewrite (proj2 (nz_false r) Hr).
Qed.

#[export] Instance cpsch_linker (Hmes : enable_mes e = false) (Hto : timeouts_only h) :
  @Linker (cpsch_ops e h) (cpsch_scheduler e h Hmes).
Proof.
  split.
  - intros d p q qd _ Hf. apply create_outcome_links, create_queue_cpsch_outcome, Hf.
  - intros w d p q _ Hwf Hin Hw. cbn [cpsch_ops ops_destroy_queue].
    pose proof (destroy_queue_cpsch_links w d p q Hto Hmes Hw) as Hl.
    assert (Hws : woken_sound true d p w).
    { destruct Hw as [->| ->]; [done|]. split; [by apply sound_refl|done]. }
    pose proof (destroy_queue_cpsch_sound e h true w d p q Hwf Hin Hws) as [Hm _].
    destruct (destroy_queue_cpsch _ _ _ _ _ _) as [[[r d'] p'] q']. destruct Hl.
    split_and!; [done|by apply (moved_queues _ _ _ _ _ _ Hm)|done].
  - intros d p q _ Hwf Hin. cbn [cpsch_ops ops_update_queue].
    pose proof (update_queue_links false d p q) as Hl.
    pose proof (update_queue_sound e h true false d p q Hwf Hin) as [Hm _].
    destruct (update_queue _ _ _ _ _ _) as [[[r d'] p'] q']. destruct Hl.
    split_and!; [done|by apply (moved_queues _ _ _ _ _ _ Hm)|done].
  - intros f d p kq [= <-]. unfold create_kernel_queue_cpsch. destruct (_ <=? _); [done|]. cbv zeta.
    match goal with |- context [increment_queue_count ?d1 ?p1 kq] =>
      pose proof (increment_moved' d1 p1 kq) as Hi;
      destruct (increment_queue_count d1 p1 kq) as [d2 p2] end.
    destruct Hi as (Hm & [Hl Hp] & _). simpl in *. split_and!; try done.
    rewrite (moved_queues _ _ _ _ _ _ (unmoved_execute_dynamic h d2)).
    by rewrite (moved_queues _ _ _ _ _ _ Hm).
  - intros f d p kq [= <-]. unfold destroy_kernel_queue_cpsch. cbv zeta.
    match goal with |- context [decrement_queue_count ?d1 ?p1 kq] =>
      pose proof (decrement_moved' d1 p1 kq) as Hi;
      destruct (decrement_queue_count d1 p1 kq) as [d2 p2] end.
    destruct Hi as (Hm & [Hl Hp] & _). simpl in *. split_and!; try done.
    rewrite (moved_queues _ _ _ _ _ _ (unmoved_execute h d2 _ _ _)).
    by rewrite (moved_queues _ _ _ _ _ _ Hm).
Qed.

#[export] Instance nocpsch_linker (Hto : timeouts_only h) :
  @Linker (nocpsch_ops e h) (nocpsch_scheduler e h).
Proof.
  split.
  - intros d p q qd _ Hf. apply create_outcome_links, create_queue_nocpsch_outcome.
  - intros w d p q Hr Hwf Hin Hw. cbn [nocpsch_ops ops_destroy_queue].
    pose proof (destroy_queue_nocpsch_priv d p q) as Hp.
    pose proof (destroy_queue_nocpsch_locked_sound e h false d p q Hwf Hin Hr) as Hs.
    unfold destroy_queue_nocpsch in *.
    destruct (destroy_queue_nocpsch_locked e h d p q) as [[[r d'] p'] q'] eqn:E.
    destruct Hs as ([Hm _] & Hl & _). simpl in Hp. split_and!; [done| |].
    + simpl. apply (moved_queues _ _ _ _ _ _ Hm).
    + assert (destroyed_code r = true) as ->; [|by rewrite Hl].
      assert (Hty : user_type q = true).
      { pose proof (wf_types _ _ Hwf) as Ht. rewrite Forall_forall in Ht. by apply Ht. }
      revert E. unfold destroy_queue_nocpsch_locked.
      destruct (match qtype q with KFD_QUEUE_TYPE_COMPUTE => _ | _ => _ end) eqn:Ed.
      2:{ unfold user_type, has_hw_slot, is_sdma in Hty. by destruct (qtype q). }
      cbv zeta. destruct (negb _); [intros; by simplify_eq|].
      repeat match goal with |- context [let '(_, _) := ?x in _] => destruct x end.
      intros [= <- _ _ _]. by destruct Hto.
  - intros d p q _ Hwf Hin. cbn [nocpsch_ops ops_update_queue].
    pose proof (update_queue_links true d p q) as Hl.
    pose proof (update_queue_sound e h false true d p q Hwf Hin) as [Hm _].
    destruct (update_queue _ _ _ _ _ _) as [[[r d'] p'] q']. destruct Hl.
    split_and!; [done|by apply (moved_queues _ _ _ _ _ _ Hm)|done].
  - done.
  - done.
Qed.
End Links.

(** ** The tables of the process agree *)

Definition qids (l : list process_queue_node) : list Z := l ≫= node_qids.
Definition user_addrs (l : list process_queue_node) : list Z :=
  l ≫= λ n, option_list (q_addr <$> pqn_q n).
Definition kernel_queues (l : list process_queue_node) : list queue :=
  l ≫= λ n, option_list (pqn_kq n).

Definition one_queue (n : process_queue_node) : Prop :=
  is_Some (pqn_q n) ∧ pqn_kq n = None ∨ pqn_q n = None ∧ is_Some (pqn_kq n).

(** Times the process is in the list of registered processes. *)
Definition registrations (pid : Z) (d : dqm) : Z := count (λ x, x =? pid) (dqm_queues d).

Lemma remove_first_count pid l :
  match remove_first pid l with
  | Some l' => count (λ x, x =? pid) l' = count (λ x, x =? pid) l - 1
  | None => count (λ x, x =? pid) l = 0
  end.
Proof.
  induction l as [|x l IH]; simpl; [done|]. destruct (x =? pid) eqn:E; simpl; [lia|].
  destruct (remove_first pid l) as [l'|]; simpl; [|lia]. rewrite E. simpl. lia.
Qed.

Lemma bool_decide_cons (i x : Z) l :
  bool_decide (i ∈ x :: l) = (x =? i) || bool_decide (i ∈ l).
Proof.
  destruct (Z.eqb_spec x i) as [->|]; simpl; [apply bool_decide_eq_true; left|].
  apply bool_decide_ext. rewrite elem_of_cons. naive_solver.
Qed.

Lemma list_del_perm q l : NoDup (addrs l) → q ∈ l → l ≡ₚ q :: list_del q l.
Proof.
  unfold addrs. induction l as [|x l IH]; [by rewrite elem_of_nil|].
  rewrite fmap_cons, NoDup_cons, elem_of_cons. intros [Hx Hl] [->|Hin].
  - by rewrite list_del_cons.
  - unfold list_del. rewrite filter_cons_True.
    + fold (list_del q l). rewrite IH at 1 by done. apply Permutation_swap.
    + intros Heq. apply Hx. rewrite Heq. by apply list_elem_of_fmap_2.
Qed.

Lemma addrs_list_del_perm q l :
  NoDup (addrs l) → q ∈ l → addrs l ≡ₚ q_addr q :: addrs (list_del q l).
Proof. intros Hnd Hin. unfold addrs. rewrite (list_del_perm q l Hnd Hin) at 1. done. Qed.

(** The node the lookup finds is the one that is removed. *)
Lemma get_queue_split s qid n :
  get_queue_by_qid s qid = Some n →
  ∃ l1 l2, pqm_queues s = l1 ++ n :: l2 ∧ remove_node qid (pqm_queues s) = l1 ++ l2 ∧
    qid ∈ node_qids n.
Proof.
  unfold get_queue_by_qid, remove_node. intros Hg. apply fmap_Some in Hg as ([i x] & Hf & ->).
  rewrite Hf. apply list_find_Some in Hf as (Hi & Hq & _). simpl.
  exists (take i (pqm_queues s)), (drop (S i) (pqm_queues s)). split_and!; [|by apply delete_take_drop|done].
  symmetry. by apply take_drop_middle.
Qed.

Lemma bind_split {A} (f : process_queue_node → list A) l1 n l2 :
  (l1 ++ n :: l2) ≫= f ≡ₚ f n ++ ((l1 ++ l2) ≫= f).
Proof. rewrite !bind_app, bind_cons, !app_assoc. f_equiv. by rewrite (Permutation_app_comm (f n)). Qed.

Section Tables.
Context (e : dev_env) (h : hw_env) (pe : pqm_env) (ops : device_queue_manager_ops).
Context `{Linker ops}.
Context (Hmes : enable_mes e = false) (Hzalloc : hw_zalloc h = true).

(** [extra] is the id of a queue under creation. *)
Record tables (extra : list Z) (registered : bool) (s : pqm_state) : Prop := {
  tb_nodes : Forall one_queue (pqm_queues s);
  tb_slots i : Z.testbit (queue_slot_bitmap s) i = bool_decide (i ∈ extra ++ qids (pqm_queues s));
  tb_nodup : NoDup (extra ++ qids (pqm_queues s));
  tb_range : Forall (λ i, 0 ≤ i < KFD_MAX_NUM_OF_QUEUES_PER_PROCESS) (extra ++ qids (pqm_queues s));
  tb_users : user_addrs (pqm_queues s) ≡ₚ addrs (queues_list (pp s));
  tb_kernels : kernel_queues (pqm_queues s) ≡ₚ priv_queue_list (pp s);
  tb_qpd : qpd_wf needs_vm (pp s);
  tb_ready : ready (pd s);
  tb_registered : registrations (pqm_pid pe) (pd s) = b2z registered;
}.

(** Between calls: ids, linked queues and registration correspond. *)
Definition pqm_wf (s : pqm_state) : Prop := tables [] (negb (no_queues (pp s))) s.

Lemma find_slot_spec s :
  pqm_wf s →
  let '(r, qid, s') := find_available_queue_slot s in
  if nz r then s' = s else tables [qid] (negb (no_queues (pp s))) s' ∧ pp s' = pp s.
Proof.
  intros [? Hb Hnd Hr ? ? ? ? ?]. unfold find_available_queue_slot, find_first_zero_bit.
  destruct (find_next_zero_bit_spec (queue_slot_bitmap s) KFD_MAX_NUM_OF_QUEUES_PER_PROCESS 0)
    as (H1 & _ & H3); [done|]. set (f := find_next_zero_bit _ _ _) in *.
  destruct (_ <=? f) eqn:E; bool_to_Prop; simpl; [done|]. split; [|done].
  specialize (H3 ltac:(lia)). rewrite Hb, bool_decide_eq_false in H3. simpl in H3.
  split; simpl; try done.
  - intros i. rewrite set_bit_spec, Hb by lia. symmetry. apply bool_decide_cons.
  - by constructor.
  - constructor; [lia|done].
Qed.

Lemma assign_slot_spec s qid :
  pqm_wf s → 0 ≤ qid →
  let '(r, s') := assign_queue_slot_by_qid s qid in
  (if nz r then pqm_wf s' else tables [qid] (negb (no_queues (pp s))) s') ∧ pp s' = pp s.
Proof.
  intros Hwf Hq. pose proof Hwf as [? Hb Hnd Hr ? ? ? ? ?]. unfold assign_queue_slot_by_qid.
  destruct (_ <=? qid) eqn:E; bool_to_Prop; [done|]. unfold test_bit.
  assert (Hb' : ∀ i, Z.testbit (set_bit qid (queue_slot_bitmap s)) i
    = bool_decide (i ∈ qid :: qids (pqm_queues s))).
  { intros i. rewrite set_bit_spec, Hb by lia. symmetry. apply bool_decide_cons. }
  destruct (Z.testbit _ qid) eqn:Et; rewrite Hb in Et; simpl; (split; [|done]); split; simpl; try done.
  - intros i. rewrite Hb', bool_decide_cons. simpl in *.
    destruct (Z.eqb_spec qid i) as [<-|]; simpl; by rewrite ?Et.
  - constructor; [|done]. by apply bool_decide_eq_false in Et.
  - constructor; [lia|done].
Qed.

(** Changes of the manager and the process that keep the links. *)
Lemma tables_relink extra b s d p :
  tables extra b s → sound needs_vm (pd s) (pp s) d p →
  addrs (queues_list p) = addrs (queues_list (pp s)) →
  priv_queue_list p = priv_queue_list (pp s) →
  dqm_queues d = dqm_queues (pd s) → tables extra b (s <| pd := d |> <| pp := p |>).
Proof.
  intros [? ? ? ? Hu Hk ? Hr Hreg] [Hm Hwf] Hl Hp Hq. split; simpl; try done.
  - by rewrite Hl.
  - by rewrite Hp.
  - eapply ready_sched; [|exact Hr]. apply (moved_sched _ _ _ _ _ _ Hm).
  - unfold registrations. by rewrite Hq.
Qed.

Lemma register_spec qid s :
  tables [qid] (negb (no_queues (pp s))) s → 
  tables [qid] true (if no_queues (pp s) then register h pe s else s).
Proof.
  intros Ht. destruct (no_queues (pp s)) eqn:En; [|done].
  destruct Ht as [? ? ? ? ? ? Hwf Hr Hreg]. unfold register, register_process. rewrite Hzalloc.
  split; simpl; try done.
  - eapply wf_same; [exact Hwf|done..].
  - by eapply ready_sched; [|exact Hr].
  - unfold registrations in *. simpl. rewrite Z.eqb_refl. simpl in *. lia.
Qed.

Lemma unregister_spec s :
  tables [] true s → tables [] (negb (no_queues (pp s))) (if no_queues (pp s) then unregister pe s else s).
Proof.
  intros Ht. destruct (no_queues (pp s)) eqn:En; [|done].
  destruct Ht as [? ? ? ? ? ? ? Hr Hreg]. unfold unregister, unregister_process, registrations in *.
  pose proof (remove_first_count (pqm_pid pe) (dqm_queues (pd s))) as Hc.
  destruct (remove_first _ _) as [l|]; [|simpl in Hreg; lia].
  split; simpl; try done; [by eapply ready_sched; [|exact Hr]|].
  unfold registrations. simpl in *. lia.
Qed.

Lemma unregister_wf s :
  tables [] true s → pqm_wf (if no_queues (pp s) then unregister pe s else s).
Proof.
  intros Ht. apply unregister_spec in Ht. unfold pqm_wf.
  destruct (no_queues (pp s)) eqn:En; [|by rewrite En].
  change (no_queues (pp (unregister pe s))) with (no_queues (pp s)). by rewrite En.
Qed.

Lemma err_allocate_pqn_spec r qid s :
  tables [qid] true s → pqm_wf (err_allocate_pqn pe r qid s).2.
Proof.
  intros [? Hb Hnd Hr ? ? ? ? ?]. unfold err_allocate_pqn.
  assert (Ht : tables [] true (s <| queue_slot_bitmap ::= clear_bit qid |>)).
  { apply NoDup_cons in Hnd as [Hn Hnd]. apply Forall_cons in Hr as [_ Hr].
    split; simpl; try done. intros i. rewrite clear_bit_spec, Hb. simpl. rewrite bool_decide_cons.
    destruct (Z.eqb_spec qid i) as [<-|]; simpl; rewrite ?andb_false_r, ?andb_true_r; [|done].
    symmetry. by apply bool_decide_eq_false. }
  by apply unregister_wf in Ht.
Qed.

(** A created queue and its node. *)
Lemma tables_push qid s d p q :
  tables [qid] true s → sound needs_vm (pd s) (pp s) d p → dqm_queues d = dqm_queues (pd s) →
  queues_list p = q :: queues_list (pp s) → priv_queue_list p = priv_queue_list (pp s) →
  queue_id (properties q) = qid →
  pqm_wf (s <| pd := d |> <| pp := p |> <| pqm_queues ::= cons (mk_pqn (Some q) None) |>).
Proof.
  intros [? ? ? ? Hu Hk ? Hr Hreg] [Hm Hwf] Hq Hl Hp Hid. unfold pqm_wf, no_queues. simpl.
  rewrite Hl. simpl. split; simpl; try (rewrite Hid; done); try done.
  - constructor; [|done]. left. by eexists.
  - rewrite Hl. simpl. by constructor.
  - by rewrite Hp.
  - eapply ready_sched; [|exact Hr]. apply (moved_sched _ _ _ _ _ _ Hm).
  - unfold registrations. by rewrite Hq.
Qed.

Lemma tables_push_kernel qid s d p kq :
  tables [qid] true s → sound needs_vm (pd s) (pp s) d p → dqm_queues d = dqm_queues (pd s) →
  priv_queue_list p = kq :: priv_queue_list (pp s) → queues_list p = queues_list (pp s) →
  queue_id (properties kq) = qid →
  pqm_wf (s <| pd := d |> <| pp := p |> <| pqm_queues ::= cons (mk_pqn None (Some kq)) |>).
Proof.
  intros [? ? ? ? Hu Hk ? Hr Hreg] [Hm Hwf] Hq Hl Hp Hid. unfold pqm_wf, no_queues. simpl.
  rewrite Hl. simpl. rewrite andb_false_r. split; simpl; try (rewrite Hid; done); try done.
  - constructor; [|done]. right. by split; [|eexists].
  - by rewrite Hp.
  - rewrite Hl. simpl. by constructor.
  - eapply ready_sched; [|exact Hr]. apply (moved_sched _ _ _ _ _ _ Hm).
  - unfold registrations. by rewrite Hq.
Qed.

(** The object is new. *)
Definition fresh_args (s : pqm_state) (a : create_args) : Prop :=
  ca_addr a ∉ addrs (queues_list (pp s)) ∧ ca_addr a ∉ addrs (priv_queue_list (pp s)).

(** Either an error that leaves the links alone, or a node to insert. *)
Definition by_type_outcome (qid : Z)
    (res : option (Z * option process_queue_node * pqm_state)) : Prop :=
  match res with
  | None => True
  | Some (r, node, s) =>
      if nz r then tables [qid] true s
      else ∃ n, node = Some n ∧ pqm_wf (s <| pqm_queues ::= cons n |>)
  end.

Lemma user_queue_outcome s a qid :
  tables [qid] true s → fresh_args s a →
  user_type (mk_queue 0 (ca_properties a) 0 0 0 0 false 0) = true →
  by_type_outcome qid
    match init_user_queue e pe a qid with
    | (_, Some q) =>
        let '(r, d, p, q) := ops_create_queue ops (pd s) q (pp s) (snd <$> ca_restore a) in
        Some (r, Some (mk_pqn (Some q) None), s <| pd := d |> <| pp := p |>)
    | (r, None) => Some (r, None, s)
    end.
Proof.
  intros Ht [Hf _] Hty. unfold init_user_queue. rewrite Hmes. cbn [andb].
  destruct (nz (alloc_queue pe)) eqn:Ea; [simpl; by rewrite Ea|].
  set (q := mk_queue _ _ _ _ _ _ _ _).
  assert (Hty' : user_type q = true) by done.
  pose proof Ht as [_ _ _ _ _ _ Hwf Hr _].
  pose proof (create_law (pd s) (pp s) q (snd <$> ca_restore a) Hr Hwf Hf Hty') as Hs.
  pose proof (create_links (pd s) (pp s) q (snd <$> ca_restore a) Hr Hf) as Hl.
  destruct (ops_create_queue ops (pd s) q (pp s) (snd <$> ca_restore a)) as [[[r d] p] q'].
  destruct Hl as ((_ & _ & Hid) & Hp & Hq & Hl). simpl.
  destruct (nz r).
  - apply tables_relink; by rewrite ?Hl, ?Hp.
  - eexists. split; [done|]. by apply (tables_push qid).
Qed.

Lemma create_by_type_outcome s a qid :
  tables [qid] true s → fresh_args s a → by_type_outcome qid (create_by_type e pe ops s a qid).
Proof.
  intros Ht Hf. unfold create_by_type.
  assert (Hu := user_queue_outcome s a qid Ht Hf).
  destruct (type (ca_properties a)) eqn:Ety; try (by apply Hu; unfold user_type, has_hw_slot, is_sdma, qtype; simpl; rewrite Ety).
  - destruct (_ && _); [done|]. apply Hu. unfold user_type, has_hw_slot, is_sdma, qtype. simpl. by rewrite Ety.
  - done.
  - destruct (negb (alloc_kernel_queue pe)); [done|]. cbv zeta.
    destruct (nz (drain_interrupts pe)) eqn:Ed; [simpl; by rewrite Ed|].
    destruct (ops_create_kernel_queue ops) as [f|] eqn:Ef; [|done]. cbn [mbind option_bind].
    set (kq := mk_queue _ _ _ _ _ _ _ _).
    pose proof Ht as [_ _ _ _ _ _ Hwf Hr _].
    pose proof (create_kernel_law f (pd s) (pp s) kq Ef Hwf (proj2 Hf)) as Hs.
    pose proof (create_kernel_links f (pd s) (pp s) kq Ef) as Hl.
    destruct (f (pd s) kq (pp s)) as [[r d] p]. destruct Hl as (Hl & Hq & Hp). simpl.
    destruct (nz r).
    + apply tables_relink; by rewrite ?Hl, ?Hp.
    + eexists. split; [done|]. by apply (tables_push_kernel qid).
Qed.

Lemma pqm_create_queue_wf s a :
  pqm_wf s → fresh_args s a → (∀ id c, ca_restore a = Some (id, c) → 0 ≤ id) →
  match pqm_create_queue e h pe ops s a with Some (_, _, s') => pqm_wf s' | None => True end.
Proof.
  intros Hwf Hf Hid. unfold pqm_create_queue. destruct (_ <=? _); [done|].
  destruct (match ca_restore a with Some _ => _ | None => _ end) as [[r qid] s1] eqn:Es.
  assert (H1 : (if nz r then pqm_wf s1 else tables [qid] (negb (no_queues (pp s))) s1) ∧ pp s1 = pp s).
  { destruct (ca_restore a) as [[id c]|].
    - pose proof (assign_slot_spec s id Hwf (Hid id c eq_refl)) as Ha.
      destruct (assign_queue_slot_by_qid s id). by simplify_eq.
    - pose proof (find_slot_spec s Hwf) as Ha. rewrite Es in Ha. destruct (nz r); [by subst|done]. }
  destruct (nz r); [by destruct H1|]. destruct H1 as [H1 Hp1]. rewrite <- Hp1 in H1.
  apply register_spec in H1. cbv zeta. rewrite Hmes, andb_false_r. cbn [andb].
  set (s2 := if no_queues (pp s1) then _ else _) in *.
  assert (Hf2 : fresh_args s2 a).
  { subst s2. unfold fresh_args, register, register_process in *. rewrite Hzalloc.
    destruct (no_queues (pp s1)); simpl; by rewrite Hp1. }
  clearbody s2. destruct (negb (alloc_pqn pe)).
  { pose proof (err_allocate_pqn_spec (-ENOMEM) qid s2 H1) as He.
    by destruct (err_allocate_pqn _ _ _ _) as [[??]?]. }
  pose proof (create_by_type_outcome s2 a qid H1 Hf2) as Ho.
  destruct (create_by_type e pe ops s2 a qid) as [[[r3 node] s3]|]; [|done].
  cbn [mbind option_bind]. simpl in Ho. destruct (nz r3).
  - pose proof (err_allocate_pqn_spec r3 qid s3 Ho) as He.
    by destruct (err_allocate_pqn _ _ _ _) as [[??]?].
  - by destruct Ho as (n & -> & Hw).
Qed.

(** A destroyed queue and its node. *)
Lemma tables_remove b qid s s' l1 n l2 :
  tables [] b s → pqm_queues s = l1 ++ n :: l2 → node_qids n = [qid] →
  pqm_queues s' = l1 ++ l2 → queue_slot_bitmap s' = clear_bit qid (queue_slot_bitmap s) →
  addrs (queues_list (pp s)) ≡ₚ option_list (q_addr <$> pqn_q n) ++ addrs (queues_list (pp s')) →
  priv_queue_list (pp s) ≡ₚ option_list (pqn_kq n) ++ priv_queue_list (pp s') →
  qpd_wf needs_vm (pp s') → ready (pd s') → dqm_queues (pd s') = dqm_queues (pd s) →
  tables [] b s'.
Proof.
  intros [Hn Hb Hnd Hr Hu Hk _ _ Hreg] Hs Hid Hs' Hbm Hl Hp Hwf Hrd Hq. simpl in *.
  assert (Hqids : qids (pqm_queues s) ≡ₚ qid :: qids (pqm_queues s')).
  { unfold qids. rewrite Hs, Hs', bind_split, Hid. done. }
  assert (Hfresh : qid ∉ qids (pqm_queues s') ∧ NoDup (qids (pqm_queues s'))).
  { rewrite Hqids, NoDup_cons in Hnd. done. }
  split; simpl; try done.
  - rewrite Hs'. rewrite Hs in Hn. apply Forall_app in Hn as [? Hn].
    apply Forall_cons in Hn as [_ ?]. by apply Forall_app.
  - intros i. rewrite Hbm, clear_bit_spec, Hb.
    rewrite (bool_decide_ext _ (i ∈ qid :: qids (pqm_queues s'))) by (by rewrite Hqids).
    rewrite bool_decide_cons.
    destruct (Z.eqb_spec qid i) as [<-|]; simpl; rewrite ?andb_false_r, ?andb_true_r; [|done].
    symmetry. apply bool_decide_eq_false, Hfresh.
  - apply Hfresh.
  - rewrite Hqids, Forall_cons in Hr. apply Hr.
  - apply (Permutation_app_inv_l (option_list (q_addr <$> pqn_q n))). rewrite <- Hl, <- Hu.
    unfold user_addrs. by rewrite Hs, Hs', bind_split.
  - apply (Permutation_app_inv_l (option_list (pqn_kq n))). rewrite <- Hp, <- Hk.
    unfold kernel_queues. by rewrite Hs, Hs', bind_split.
  - unfold registrations. by rewrite Hq.
Qed.

Lemma find_queue_elem addr l : addr ∈ addrs l → ∃ q, find_queue addr l = Some q.
Proof.
  intros Hin. unfold addrs in Hin. apply list_elem_of_fmap in Hin as (q & -> & Hq).
  destruct (list_find_elem_of (λ x, q_addr x = q_addr q) l q Hq eq_refl) as [[i x] Hf].
  exists x. unfold find_queue. by rewrite Hf.
Qed.

(** The object of a node is linked. *)
Lemma live_linked extra b s n q :
  tables extra b s → n ∈ pqm_queues s → pqn_q n = Some q →
  live s q ∈ queues_list (pp s) ∧ q_addr (live s q) = q_addr q.
Proof.
  intros Ht Hn Hq.
  assert (Hin : q_addr q ∈ addrs (queues_list (pp s))).
  { rewrite <- (tb_users _ _ _ Ht). unfold user_addrs. apply list_elem_of_bind. exists n.
    rewrite Hq. simpl. split; [|done]. by rewrite list_elem_of_singleton. }
  apply find_queue_elem in Hin as [x Hx]. unfold live. rewrite Hx. simpl.
  by apply find_queue_Some in Hx.
Qed.

Lemma no_queues_false p a :
  a ∈ addrs (queues_list p) ∨ a ∈ addrs (priv_queue_list p) → no_queues p = false.
Proof.
  unfold no_queues. destruct (queues_list p), (priv_queue_list p); try done.
  intros [Hx|Hx]; by apply not_elem_of_nil in Hx.
Qed.

Lemma pqm_destroy_queue_wf woken s qid :
  pqm_wf s →
  match pqm_destroy_queue pe ops woken s qid with Some (_, s') => pqm_wf s' | None => True end.
Proof.
  intros Hwf. unfold pqm_destroy_queue. destruct (get_queue_by_qid s qid) as [n|] eqn:Eg; [|done].
  apply get_queue_split in Eg as (l1 & l2 & Hs & Hrm & Hid). cbv zeta.
  assert (Hn : n ∈ pqm_queues s) by (rewrite Hs, elem_of_app; right; left).
  assert (Hone : one_queue n).
  { pose proof (tb_nodes _ _ _ Hwf) as Hf. rewrite Forall_forall in Hf. by apply Hf. }
  pose proof Hwf as [_ _ _ _ Hu Hk Hq Hr _].
  destruct Hone as [[[q Eq] Ek]|[Eq [kq Ek]]].
  - rewrite Eq, Ek. rewrite bool_decide_eq_false_2 by (intros [? _]; done). cbn [mbind option_bind].
    destruct (live_linked _ _ s n q Hwf Hn Eq) as [Hlive Ha].
    set (q' := live s q) in *. set (w := if woken then _ else None).
    assert (Hw : w = None ∨ w = Some (pd s, pp s, q')) by (subst w; destruct woken; auto).
    assert (Hws : woken_sound needs_vm (pd s) (pp s) w).
    { destruct Hw as [->| ->]; [done|]. split; [by apply sound_refl|done]. }
    pose proof (destroy_law w (pd s) (pp s) q' Hr Hq Hlive Hws) as Hsd.
    pose proof (destroy_links w (pd s) (pp s) q' Hr Hq Hlive Hw) as Hl.
    destruct (ops_destroy_queue ops w (pd s) (pp s) q') as [[r d] p].
    destruct Hl as (Hp & Hdq & Hl). destruct Hsd as [Hm Hwf'].
    assert (Hready : ready d) by (eapply ready_sched; [apply (moved_sched _ _ _ _ _ _ Hm)|done]).
    destruct (nz r && negb (r =? -ETIME) && negb (r =? -EIO)) eqn:Ec.
    + assert (destroyed_code r = false) as Hd.
      { unfold destroyed_code, nz in *. bool_to_Prop. by rewrite !(proj2 (Z.eqb_neq _ _)). }
      rewrite Hd in Hl. unfold pqm_wf. simpl.
      assert (Hnq : no_queues p = no_queues (pp s)).
      { rewrite !(no_queues_false _ (q_addr q)); [done|left..].
        - rewrite <- Ha. by apply list_elem_of_fmap_2.
        - rewrite Hl, <- Ha. by apply list_elem_of_fmap_2. }
      rewrite Hnq. apply tables_relink; [exact Hwf|done|done|by rewrite Hp|done].
    + assert (destroyed_code r = true) as Hd.
      { unfold destroyed_code, nz in *. destruct (r =? 0), (r =? -ETIME), (r =? -EIO); done. }
      rewrite Hd in Hl.
      assert (Htrue : tables [] true s).
      { unfold pqm_wf in Hwf. rewrite (no_queues_false _ (q_addr q)) in Hwf; [done|left].
        rewrite <- Ha. by apply list_elem_of_fmap_2. }
      set (s1 := pqm_clean_queue_resource _ _). set (s2 := s1 <| _ ::= _ |> <| _ ::= _ |>).
      assert (Hs2 : pp s2 = p ∧ pd s2 = d ∧ pqm_queues s2 = remove_node qid (pqm_queues s) ∧
                    queue_slot_bitmap s2 = clear_bit qid (queue_slot_bitmap s)).
      { subst s2 s1. unfold pqm_clean_queue_resource. by destruct (gws q'). }
      clearbody s2. destruct Hs2 as (Hpp & Hpd & Hqs & Hbm).
      assert (Ht2 : tables [] true s2).
      { eapply (tables_remove true qid s s2 l1 n l2); rewrite ?Hpp, ?Hpd, ?Hqs; try done.
        - unfold node_qids in *. rewrite Eq, Ek in *. simpl in *.
          apply list_elem_of_singleton in Hid. by rewrite Hid.
        - rewrite Eq. simpl. rewrite Hl, <- Ha.
          apply addrs_list_del_perm; [apply (wf_nodup _ _ Hq)|done].
        - rewrite Ek. simpl. by rewrite Hp. }
      by apply unregister_wf.
  - rewrite Eq, Ek. rewrite bool_decide_eq_false_2 by (intros [_ ?]; done).
    destruct (ops_destroy_kernel_queue ops) as [f|] eqn:Ef; [|done]. cbn [mbind option_bind].
    assert (Hin : kq ∈ priv_queue_list (pp s)).
    { rewrite <- Hk. unfold kernel_queues. apply list_elem_of_bind. exists n.
      rewrite Ek. simpl. split; [|done]. by rewrite list_elem_of_singleton. }
    pose proof (destroy_kernel_law f (pd s) (pp s) kq Ef Hq Hin) as Hsd.
    pose proof (destroy_kernel_links f (pd s) (pp s) kq Ef) as Hl.
    destruct (f (pd s) kq (pp s)) as [d p]. destruct Hl as (Hl & Hdq & Hp). destruct Hsd as [Hm Hwf'].
    assert (Hready : ready d) by (eapply ready_sched; [apply (moved_sched _ _ _ _ _ _ Hm)|done]).
    assert (Htrue : tables [] true s).
    { unfold pqm_wf in Hwf. rewrite (no_queues_false _ (q_addr kq)) in Hwf; [done|right].
      by apply list_elem_of_fmap_2. }
    set (s2 := s <| pd := d |> <| pp := p |> <| pqm_queues ::= remove_node qid |>
                 <| queue_slot_bitmap ::= clear_bit qid |>).
    assert (Ht2 : tables [] true s2).
    { eapply (tables_remove true qid s s2 l1 n l2); try done.
      - unfold node_qids in *. rewrite Eq, Ek in *. simpl in *.
        apply list_elem_of_singleton in Hid. by rewrite Hid.
      - rewrite Eq. simpl. by rewrite Hl.
      - rewrite Ek. simpl. rewrite Hp. apply list_del_perm; [apply (wf_priv _ _ Hq)|done]. }
    by apply unregister_wf.
Qed.

(** Updates keep the links. *)
Lemma update_node_wf s n q q' :
  pqm_wf s → n ∈ pqm_queues s → pqn_q n = Some q → keeps (live s q) q' →
  qactive q' = qactive (live s q) →
  is_evicted (properties q') = is_evicted (properties (live s q)) →
  is_gws (properties q') = is_gws (properties (live s q)) → idle q' →
  pqm_wf (update_node ops s q').2.
Proof.
  intros Hwf Hn Hq Hk Ha He Hg Hi. unfold update_node. cbv zeta.
  destruct (live_linked _ _ s n q Hwf Hn Hq) as [Hl _].
  pose proof Hwf as [_ _ _ _ _ _ Hqpd Hr _].
  pose proof (update_after_write ops (pd s) (pp s) (live s q) q' Hr Hqpd Hl Hk Ha He Hg Hi) as Hs.
  assert (Hs0 : sound needs_vm (pd s) (pp s) (pd s) (in_place (pp s) q')).
  { by apply (in_place_sound needs_vm _ (pp s) _ (live s q) q' Hqpd Hl (unmoved_refl _)). }
  assert (Hin : q' ∈ queues_list (in_place (pp s) q')).
  { unfold in_place. simpl. eapply list_update_elem; [done|apply Hk]. }
  pose proof (update_links (pd s) (in_place (pp s) q') q' Hr (proj2 Hs0) Hin) as Hul.
  destruct (ops_update_queue ops (pd s) (in_place (pp s) q') q') as [[[r d] p] q''].
  destruct Hul as (Hp & Hd & Hadr). simpl in *. rewrite addrs_list_update in Hadr.
  assert (no_queues p = no_queues (pp s)) as Hnq.
  { rewrite !(no_queues_false _ (q_addr (live s q))); [done|left..].
    - by apply list_elem_of_fmap_2.
    - rewrite Hadr. by apply list_elem_of_fmap_2. }
  unfold pqm_wf. simpl. rewrite Hnq. by apply tables_relink.
Qed.

Lemma node_found s qid n :
  get_queue_by_qid s qid = Some n → n ∈ pqm_queues s.
Proof.
  intros Hg. apply get_queue_split in Hg as (l1 & l2 & -> & _). rewrite elem_of_app. right. left.
Qed.

Lemma pqm_update_queue_properties_wf s qid a sz pc :
  pqm_wf s →
  match pqm_update_queue_properties ops s qid a sz pc with Some (_, s') => pqm_wf s' | None => True end.
Proof.
  intros Hwf. unfold pqm_update_queue_properties.
  destruct (get_queue_by_qid s qid) as [n|] eqn:Eg; [|done]. apply node_found in Eg.
  destruct (pqn_q n) as [q|] eqn:Eq; [|done]. cbn [mbind option_bind].
  destruct (live_linked _ _ s n q Hwf Eg Eq) as [Hl _].
  pose proof (update_node_wf s n q (user_update a sz pc (live s q)) Hwf Eg Eq) as Hu.
  destruct (update_node _ _ _) as [r s']. apply Hu; try done.
  by apply (idle_in needs_vm (pp s) (live s q) (tb_qpd _ _ _ Hwf)).
Qed.

Lemma pqm_set_gws_wf s qid g :
  pqm_wf s →
  match pqm_set_gws e pe ops s qid g with Some (_, s') => pqm_wf s' | None => True end.
Proof.
  intros Hwf. unfold pqm_set_gws.
  destruct (get_queue_by_qid s qid) as [n|] eqn:Eg; [|done]. apply node_found in Eg.
  destruct (pqn_q n) as [q|] eqn:Eq; [|done].
  do 2 (destruct (_ && _); [done|]). destruct (_ && nz (gws_call pe)); [done|].
  set (s1 := s <| num_gws := _ |>).
  assert (Hwf1 : pqm_wf s1) by (destruct Hwf; by split).
  destruct (live_linked _ _ s n q Hwf Eg Eq) as [Hl _].
  pose proof (update_node_wf s1 n q (set_field gws (λ _, g) (live s1 q)) Hwf1 Eg Eq) as Hu.
  destruct (update_node _ _ _) as [r s']. apply Hu; try done.
  by apply (idle_in needs_vm (pp s) (live s q) (tb_qpd _ _ _ Hwf)).
Qed.
End Tables.

(** ** Histories of calls *)

Inductive pqm_request :=
  | PqmCreate (a : create_args)
  | PqmDestroy (qid : Z) (woken : bool)
  | PqmUpdate (qid a size percent : Z)
  | PqmSetGws (qid : Z) (g : bool).

Section Calls.
Context (e : dev_env) (h : hw_env) (pe : pqm_env) (ops : device_queue_manager_ops).

(** New objects have new addresses, restored ids are unsigned. *)
Definition call_ok (s : pqm_state) (a : create_args) : bool :=
  bool_decide (ca_addr a ∉ addrs (queues_list (pp s)))
  && bool_decide (ca_addr a ∉ addrs (priv_queue_list (pp s)))
  && match ca_restore a with Some (id, _) => 0 <=? id | None => true end.

Definition pqm_call (s : pqm_state) (r : pqm_request) : pqm_state :=
  match r with
  | PqmCreate a =>
      if call_ok s a then
        match pqm_create_queue e h pe ops s a with Some (_, _, s) => s | None => s end
      else s
  | PqmDestroy qid w => match pqm_destroy_queue pe ops w s qid with Some (_, s) => s | None => s end
  | PqmUpdate qid a sz pc =>
      match pqm_update_queue_properties ops s qid a sz pc with Some (_, s) => s | None => s end
  | PqmSetGws qid g => match pqm_set_gws e pe ops s qid g with Some (_, s) => s | None => s end
  end.

Lemma pqm_call_wf `{Linker ops} s r :
  enable_mes e = false → hw_zalloc h = true → pqm_wf pe ops s → pqm_wf pe ops (pqm_call s r).
Proof.
  intros Hmes Hz Hwf. destruct r as [a|qid w|qid a sz pc|qid g]; cbn [pqm_call].
  - destruct (call_ok s a) eqn:Ec; [|done]. unfold call_ok in Ec. bool_to_Prop.
    rewrite bool_decide_eq_true in *.
    pose proof (pqm_create_queue_wf e h pe ops Hmes Hz s a Hwf ltac:(by split)) as Hc.
    destruct (pqm_create_queue _ _ _ _ _ _) as [[[??]?]|]; [|done]. apply Hc.
    intros id c Hr. rewrite Hr in *. by bool_to_Prop.
  - pose proof (pqm_destroy_queue_wf pe ops w s qid Hwf) as Hc.
    by destruct (pqm_destroy_queue _ _ _ _ _) as [[??]|].
  - pose proof (pqm_update_queue_properties_wf pe ops s qid a sz pc Hwf) as Hc.
    by destruct (pqm_update_queue_properties _ _ _ _ _ _) as [[??]|].
  - pose proof (pqm_set_gws_wf e pe ops s qid g Hwf) as Hc.
    by destruct (pqm_set_gws _ _ _ _ _ _) as [[??]|].
Qed.

Lemma pqm_calls_wf `{Linker ops} s l :
  enable_mes e = false → hw_zalloc h = true → pqm_wf pe ops s → pqm_wf pe ops (foldl pqm_call s l).
Proof.
  intros Hmes Hz. revert s. induction l as [|r l IH]; intros s Hwf; simpl; [done|].
  by apply IH, pqm_call_wf.
Qed.
End Calls.

(** ** The properties *)

(** Without the MES, and while a runlist that cannot be replaced fails with a timeout
    ([timeouts_only]; a ring without room gives -ENOMEM, and then
    [pqm_destroy_queue_dangling]), whatever calls a process makes, in any order, its
    tables agree: queue ids are distinct, below 1024, and the bitmap marks just
    them; the nodes are exactly the queues linked at the device queue manager;
    and the process is registered there, once, exactly while it has a queue.
    Proved against the scheduler's interface. *)
Theorem pqm_tables_agree e h pe ops `{Hlink : Linker ops} d p l :
  enable_mes e = false → hw_zalloc h = true → ready d → fresh_qpd p = true →
  registrations (pqm_pid pe) d = 0 →
  let s := foldl (pqm_call e h pe ops) (pqm_init d p) l in
  NoDup (qids (pqm_queues s)) ∧
  Forall (λ i, 0 ≤ i < KFD_MAX_NUM_OF_QUEUES_PER_PROCESS) (qids (pqm_queues s)) ∧
  (∀ i, Z.testbit (queue_slot_bitmap s) i = bool_decide (i ∈ qids (pqm_queues s))) ∧
  user_addrs (pqm_queues s) ≡ₚ addrs (queues_list (pp s)) ∧
  kernel_queues (pqm_queues s) ≡ₚ priv_queue_list (pp s) ∧
  registrations (pqm_pid pe) (pd s) = b2z (negb (no_queues (pp s))).
Proof.
  intros Hmes Hz Hr Hf Hreg s.
  assert (Hwf : pqm_wf pe ops s).
  { apply pqm_calls_wf; [done..|]. unfold fresh_qpd in Hf. bool_to_Prop.
    destruct (queues_list p) eqn:El, (priv_queue_list p) eqn:Ep; try done.
    unfold pqm_wf, no_queues. simpl. rewrite El, Ep. simpl.
    split; simpl; rewrite ?El, ?Ep; try done; try constructor; simpl; rewrite ?El, ?Ep;
      try constructor; try lia.
    intros i. by rewrite Z.bits_0. }
  by destruct Hwf.
Qed.

(** Bit [i] of the CU mask. *)
Definition mask_bit (mask : list Z) (i : Z) : bool :=
  Z.testbit (default 0 (mask !! Z.to_nat (i / 32))) (i `mod` 32).

Lemma land_3_bits x : Z.land x 3 = b2z (Z.testbit x 0) + 2 * b2z (Z.testbit x 1).
Proof.
  change 3 with (Z.ones 2). rewrite Z.land_ones by lia.
  rewrite Z.bit0_odd, (Z.testbit_odd x 1), Z.shiftr_div_pow2 by lia. change (2 ^ 1) with 2.
  change (2 ^ 2) with 4.
  pose proof (Zmod_odd x) as H0. pose proof (Zmod_odd (x / 2)) as H1.
  destruct (Z.odd x), (Z.odd (x / 2)); cbn [b2z]; cbv iota in H0, H1;
    Z.to_euclidean_division_equations; lia.
Qed.

Lemma cu_pair_bits mask k :
  0 ≤ k → let pair := cu_pair mask (2 * k) in
  nz pair && negb (pair =? 3) = false ↔ mask_bit mask (2 * k) = mask_bit mask (2 * k + 1).
Proof.
  intros Hk. unfold cu_pair, mask_bit.
  assert ((2 * k + 1) / 32 = 2 * k / 32 ∧ (2 * k + 1) `mod` 32 = (2 * k) `mod` 32 + 1) as [-> ->].
  { split; [symmetry; apply (Z.div_unique _ _ _ ((2 * k) `mod` 32 + 1))
           |symmetry; apply (Z.mod_unique _ _ (2 * k / 32))];
    Z.to_euclidean_division_equations; lia. }
  assert (0 ≤ (2 * k) `mod` 32) by (apply Z.mod_pos_bound; lia). set (j := (2 * k) `mod` 32) in *.
  set (w := default 0 _).
  replace (Z.testbit w j) with (Z.testbit (Z.shiftr w j) 0) by (by rewrite Z.shiftr_spec, Z.add_0_l).
  replace (Z.testbit w (j + 1)) with (Z.testbit (Z.shiftr w j) 1)
    by (by rewrite Z.shiftr_spec, Z.add_comm).
  rewrite land_3_bits. by destruct (Z.testbit _ 0), (Z.testbit _ 1).
Qed.

Lemma cu_pairs_ok_spec n mask c k :
  0 ≤ k → c ≤ 2 * k + 2 * Z.of_nat n →
  cu_pairs_ok n mask c (2 * k) = true ↔
  ∀ j, k ≤ j → 2 * j < c → mask_bit mask (2 * j) = mask_bit mask (2 * j + 1).
Proof.
  revert k. induction n as [|n IH]; intros k Hk Hc; cbn [cu_pairs_ok]; [split; [lia|done]|].
  destruct (c <=? 2 * k) eqn:Ec; bool_to_Prop; [split; [lia|done]|].
  pose proof (cu_pair_bits mask k Hk) as Hp. cbv zeta in *.
  replace (2 * k + 2) with (2 * (k + 1)) by lia.
  destruct (_ && _) eqn:Ep.
  - split; [done|]. intros Hall. exfalso. by specialize (proj2 Hp (Hall k ltac:(lia) ltac:(lia))).
  - rewrite IH by lia. split.
    + intros Hall j Hj Hlt. destruct (decide (j = k)) as [->|]; [by apply Hp|]. apply Hall; lia.
    + intros Hall j Hj Hlt. apply Hall; lia.
Qed.

(** On the chips whose compute units come in pairs (GFX10 and later) a CU
    mask is refused with [-EINVAL], changing nothing, exactly when it enables one
    unit of some pair and not the other; a queue under the debugger's workaround
    takes no mask at all. *)
Theorem pqm_update_mqd_cu_mask pe ops s qid n q mask c :
  get_queue_by_qid s qid = Some n → pqn_q n = Some q →
  (is_dbg_wa (properties (live s q)) = true →
     pqm_update_mqd pe ops s qid (Some (mask, c)) = Some (-EBUSY, s)) ∧
  (is_dbg_wa (properties (live s q)) = false → gc_10_or_later pe = true →
   (∃ k, 0 ≤ k ∧ 2 * k < c ∧ mask_bit mask (2 * k) ≠ mask_bit mask (2 * k + 1)) →
     pqm_update_mqd pe ops s qid (Some (mask, c)) = Some (-EINVAL, s)) ∧
  (is_dbg_wa (properties (live s q)) = false →
   (∀ k, 0 ≤ k → 2 * k < c → mask_bit mask (2 * k) = mask_bit mask (2 * k + 1)) →
     pqm_update_mqd pe ops s qid (Some (mask, c)) =
       let '(r, d, p, _) := ops_update_queue ops (pd s) (pp s) (live s q) in
       Some (r, s <| pd := d |> <| pp := p |>)).
Proof.
  intros Hg Hq. unfold pqm_update_mqd. rewrite Hg, Hq. cbn [mbind option_bind]. cbv zeta.
  rewrite bool_decide_eq_true_2 by done.
  pose proof (cu_pairs_ok_spec (Z.to_nat c) mask c 0 ltac:(done) ltac:(lia)) as Hs.
  rewrite Z.mul_0_r in Hs. split_and!.
  - by intros ->.
  - intros -> Hgc (k & Hk & Hlt & Hne). rewrite Hgc. cbn [andb].
    destruct (cu_pairs_ok _ _ _ _); [|done]. exfalso. by apply Hne, (proj1 Hs eq_refl).
  - intros -> Hall. cbn [andb]. rewrite (proj2 Hs Hall). by rewrite andb_false_r.
Qed.

(** When the context buffer of the first queue under the MES cannot be
    allocated, [pqm_create_queue] returns without undoing: the id it took stays
    marked with no queue to free it, and the process stays registered with no
    queue. *)
Theorem pqm_create_queue_leaks_slot e h pe ops s a :
  enable_mes e = true → hw_zalloc h = true → proc_ctx s = false → nz (alloc_proc_ctx pe) = true →
  no_queues (pp s) = true → queue_count (pp s) < max_queues pe s a →
  ca_restore a = None → queue_slot_bitmap s = 0 →
  ∃ s', pqm_create_queue e h pe ops s a = Some (alloc_proc_ctx pe, 0, s') ∧
    pqm_queues s' = pqm_queues s ∧ Z.testbit (queue_slot_bitmap s') 0 = true ∧
    no_queues (pp s') = true ∧
    registrations (pqm_pid pe) (pd s') = registrations (pqm_pid pe) (pd s) + 1.
Proof.
  intros Hmes Hz Hctx Ha Hn Hc Hr Hb. unfold pqm_create_queue. rewrite Ha.
  destruct (_ <=? _) eqn:E; bool_to_Prop; [lia|]. rewrite Hr. unfold find_available_queue_slot.
  rewrite Hb. change (find_first_zero_bit 0 KFD_MAX_NUM_OF_QUEUES_PER_PROCESS) with 0.
  simpl. rewrite Hn. unfold register, register_process. rewrite Hz. simpl. rewrite Hctx, Hmes.
  simpl. eexists. split; [reflexivity|].
  unfold registrations. simpl. rewrite Z.eqb_refl, Hb. split_and!; try done. simpl. lia.
Qed.

(** When preemption fails otherwise than by a timeout, [pqm_destroy_queue]
    keeps the node of a queue that the device queue manager has already unlinked
    and whose MQD is freed. *)
Theorem pqm_destroy_queue_dangling e h pe woken s qid n q :
  enable_mes e = false → get_queue_by_qid s qid = Some n → pqn_q n = Some q → pqn_kq n = None →
  is_debug (pp s) = false → debug_trap_enabled (pp s) = false →
  NoDup (addrs (queues_list (pp s))) → q_addr q ∈ addrs (queues_list (pp s)) →
  match pqm_destroy_queue pe (cpsch_ops e h) woken s qid with
  | Some (r, s') =>
      destroyed_code r = false →
      get_queue_by_qid s' qid = Some n ∧ q_addr q ∉ addrs (queues_list (pp s'))
  | None => False
  end.
Proof.
  intros Hmes Hg Hq Hk Hdb Hdt Hnd Hin. unfold pqm_destroy_queue. rewrite Hg, Hq, Hk. cbv zeta.
  rewrite bool_decide_eq_false_2 by (intros [? _]; done). cbn [mbind option_bind].
  assert (Hl : live s q ∈ queues_list (pp s) ∧ q_addr (live s q) = q_addr q).
  { unfold live. apply find_queue_elem in Hin as [x Hx]. rewrite Hx. by apply find_queue_Some in Hx. }
  set (q' := live s q) in *. set (w := if woken then _ else None).
  assert (Hw : w = None ∨ w = Some (pd s, pp s, q')) by (subst w; destruct woken; auto).
  cbn [cpsch_ops ops_destroy_queue].
  pose proof (destroy_queue_cpsch_result e h w (pd s) (pp s) q' Hmes Hw) as Hres.
  destruct (destroy_queue_cpsch _ _ _ _ _ _) as [[[r d] p] q'']. cbn [fst].
  destruct Hres as (_ & [(_ & _ & [?|?])|(Hdel & _)]); [congruence|congruence|].
  destruct (_ && _) eqn:Ec.
  - intros _. split; [exact Hg|]. simpl. rewrite Hdel. destruct Hl as [Hl <-].
    intros Hx. pose proof (addrs_list_del_perm q' _ Hnd Hl) as Hperm.
    rewrite Hperm in Hnd. by apply NoDup_cons in Hnd as [? _].
  - intros Hd. exfalso. unfold destroyed_code, nz in *.
    destruct (r =? 0), (r =? -ETIME), (r =? -EIO); done.
Qed.

(** ** Concrete calls *)

Definition pe0 : pqm_env :=
  mk_pqm_env 33 false true 32 false 8 64 0 true 0 0 true 0 0.

Definition args0 (t : kfd_queue_type) (addr : Z) : create_args :=
  mk_create_args (props0 t 0) addr 33 None.

Lemma hw0_timeouts_only : timeouts_only hw0.
Proof. by split. Qed.

(** Two queues and the debugger's, one destroyed, its id used again. *)
Definition calls0 : list pqm_request :=
  [ PqmCreate (args0 KFD_QUEUE_TYPE_COMPUTE 100); PqmCreate (args0 KFD_QUEUE_TYPE_SDMA 101);
    PqmSetGws 0 true; PqmCreate (args0 KFD_QUEUE_TYPE_DIQ 102); PqmDestroy 2 false;
    PqmDestroy 0 false; PqmUpdate 1 4096 65536 50; PqmCreate (args0 KFD_QUEUE_TYPE_COMPUTE 103) ].

Lemma pqm_tables_agree_witness :
  let s := foldl (pqm_call env0 hw0 pe0 (cpsch_ops env0 hw0))
             (pqm_init (initialize_cpsch env0 dqm_zero) qpd0) calls0 in
  qids (pqm_queues s) = [0; 1] ∧ user_addrs (pqm_queues s) = [103; 101] ∧
  user_addrs (pqm_queues s) ≡ₚ addrs (queues_list (pp s)) ∧
  registrations 33 (pd s) = b2z (negb (no_queues (pp s))).
Proof.
  pose proof (@pqm_tables_agree env0 hw0 pe0 (cpsch_ops env0 hw0) (cpsch_scheduler env0 hw0 eq_refl)
    (cpsch_linker env0 hw0 eq_refl hw0_timeouts_only) (initialize_cpsch env0 dqm_zero) qpd0 calls0
    eq_refl eq_refl I eq_refl eq_refl) as (_ & _ & _ & Hu & _ & Hr).
  split_and!; [vm_compute; reflexivity|vm_compute; reflexivity|exact Hu|exact Hr].
Defined.

(** A process with one compute queue, and the same under the MES. *)
Definition pqm_one : pqm_state :=
  foldl (pqm_call env0 hw0 pe0 (cpsch_ops env0 hw0))
    (pqm_init (initialize_cpsch env0 dqm_zero) qpd0) [PqmCreate (args0 KFD_QUEUE_TYPE_COMPUTE 100)].

Lemma pqm_update_mqd_cu_mask_witness :
  pqm_update_mqd pe0 (cpsch_ops env0 hw0) pqm_one 0 (Some ([0xf4], 32)) = Some (-EINVAL, pqm_one) ∧
  is_Some (pqm_update_mqd pe0 (cpsch_ops env0 hw0) pqm_one 0 (Some ([0xfc], 32))).
Proof.
  destruct (get_queue_by_qid pqm_one 0) as [n|] eqn:Eg; [|by vm_compute in Eg].
  destruct (pqn_q n) as [q|] eqn:Eq; [|vm_compute in Eg; by simplify_eq].
  assert (Hd : is_dbg_wa (properties (live pqm_one q)) = false).
  { vm_compute in Eg. simplify_eq. simpl in Eq. simplify_eq. by vm_compute. }
  split.
  - apply (pqm_update_mqd_cu_mask pe0 (cpsch_ops env0 hw0) pqm_one 0 n q [0xf4] 32 Eg Eq);
      [exact Hd|reflexivity|].
    exists 1. split_and!; [lia|lia|by vm_compute].
  - vm_compute. by eexists.
Defined.

Definition pe_no_ctx : pqm_env :=
  mk_pqm_env 33 false true 32 false 8 64 (-ENOMEM) true 0 0 true 0 0.

Lemma pqm_create_queue_leaks_slot_witness :
  ∃ s', pqm_create_queue env_mes hw0 pe_no_ctx (cpsch_ops env_mes hw0) (pqm_init dqm0 qpd0)
          (args0 KFD_QUEUE_TYPE_COMPUTE 100) = Some (-ENOMEM, 0, s') ∧
    pqm_queues s' = [] ∧ Z.testbit (queue_slot_bitmap s') 0 = true ∧ no_queues (pp s') = true ∧
    registrations 33 (pd s') = 1.
Proof.
  apply (pqm_create_queue_leaks_slot env_mes hw0 pe_no_ctx (cpsch_ops env_mes hw0)
    (pqm_init dqm0 qpd0) (args0 KFD_QUEUE_TYPE_COMPUTE 100)); by vm_compute.
Defined.

(** Firmware that takes no more packets. *)
Definition hw_full : hw_env :=
  mk_hw_env (λ _, 0) (λ _ _, true) (λ _ _, 0) (λ _ _, 0) true (λ _, 0) (λ _, -ENOMEM) (λ _, 0)
    (λ _, 0) (λ _, false) (λ _ _, 0) (λ _ _, 0) 4096 1000 true true.

Lemma pqm_destroy_queue_dangling_witness :
  ∃ n s', pqm_destroy_queue pe0 (cpsch_ops env0 hw_full) false pqm_one 0 = Some (-ENOMEM, s') ∧
    get_queue_by_qid s' 0 = Some n ∧ 100 ∉ addrs (queues_list (pp s')).
Proof.
  destruct (get_queue_by_qid pqm_one 0) as [n|] eqn:Eg; [|by vm_compute in Eg].
  destruct (pqn_q n) as [q|] eqn:Eq; [|vm_compute in Eg; by simplify_eq].
  assert (Ha : q_addr q = 100 ∧ pqn_kq n = None).
  { vm_compute in Eg. simplify_eq. simpl in *. by simplify_eq. }
  destruct Ha as [Ha Hk].
  pose proof (pqm_destroy_queue_dangling env0 hw_full pe0 false pqm_one 0 n q eq_refl Eg Eq Hk) as H.
  assert (Hr : fst <$> pqm_destroy_queue pe0 (cpsch_ops env0 hw_full) false pqm_one 0 = Some (-ENOMEM))
    by (vm_compute; reflexivity).
  destruct (pqm_destroy_queue _ _ _ _ _) as [[r s']|]; [|done]. simpl in Hr. injection Hr as ->.
  exists n, s'. split; [done|]. rewrite <- Ha.
  apply H; [vm_compute; reflexivity|vm_compute; reflexivity| | |reflexivity].
  - apply (bool_decide_unpack _). by vm_compute.
  - rewrite Ha. apply (bool_decide_unpack _). by vm_compute.
Defined.
