(* ===== verification/Doorbell.v ===== *)
(** * Doorbell pages

    [kfd_doorbell.c]: the kernel's doorbell page, whose 32-bit slots are handed
    to kernel queues, and the doorbell pages of a process.  Doorbell addresses
    are offsets in 32-bit words from [doorbell_kernel_ptr]; buffer objects and
    bitmaps are allocated by the environment. *)

From S2P Require Import Prelude DqmState.

Definition PAGE_SIZE : Z := 4096.
Definition PAGE_SHIFT : Z := 12.
Definition roundup (x y : Z) : Z := (x + (y - 1)) / y * y.

(** The fields of [struct kfd_dev] the file uses. *)
Record kfd_doorbells := mk_kfd_doorbells {
  kernel_bitmap : option Z;      (* doorbell_bitmap, NULL before init *)
  kernel_page : bool;            (* the doorbell BO is allocated *)
  kernel_bo_offset : Z;
}.
#[export] Instance eta_kfd_doorbells : Eta kfd_doorbells := λ k,
  mk_kfd_doorbells (kernel_bitmap k) (kernel_page k) (kernel_bo_offset k).

(** The fields of a process' [qpd]. *)
Record process_doorbells := mk_process_doorbells {
  pd_bitmap : option Z;
  pd_bo : option Z;              (* offset of proc_doorbells on the BAR *)
}.
#[export] Instance eta_process_doorbells : Eta process_doorbells := λ p,
  mk_process_doorbells (pd_bitmap p) (pd_bo p).

(** Outcomes of [bitmap_zalloc] and [amdgpu_bo_create_kernel], the place of a
    new BO, and the slice the MES asks for. *)
Record doorbell_env := mk_doorbell_env {
  alloc_bitmap : bool;
  create_bo : Z;
  bo_offset : Z;
  mes_slice : Z;
  bar_base : Z;
}.

Section Doorbell.
Context (e : dev_env) (de : doorbell_env).

Definition kfd_doorbell_process_slice : Z :=
  if negb (enable_mes e)
  then roundup (doorbell_size e * KFD_MAX_NUM_OF_QUEUES_PER_PROCESS) PAGE_SIZE
  else mes_slice de.

(** The freed bitmap of a failed initialisation stays in the structure. *)
Definition kfd_doorbell_init (k : kfd_doorbells) : Z * kfd_doorbells :=
  if negb (alloc_bitmap de) then (-ENOMEM, k <| kernel_bitmap := None |>)
  else if nz (create_bo de) then (create_bo de, k <| kernel_bitmap := Some 0 |>)
  else (0, k <| kernel_bitmap := Some 0 |> <| kernel_page := true |>
             <| kernel_bo_offset := bo_offset de |>).

Definition kfd_doorbell_fini (k : kfd_doorbells) : kfd_doorbells := k <| kernel_page := false |>.

(** [bm] is the kernel's bitmap of [PAGE_SIZE / sizeof(u32)] bits; the result is
    the doorbell offset and the address, or [None] for NULL. *)
Definition kfd_get_kernel_doorbell (k : kfd_doorbells) (bm : Z)
    : option (Z * Z) * kfd_doorbells :=
  let inx := find_first_zero_bit bm (PAGE_SIZE / 4) in
  let k := k <| kernel_bitmap := Some (set_bit inx bm) |> in
  if KFD_MAX_NUM_OF_QUEUES_PER_PROCESS <=? inx then (None, k)
  else
    (Some (amdgpu_doorbell_index_on_bar (kernel_bo_offset k) inx (doorbell_size e), u32 (inx * 2)), k).

Definition kfd_release_kernel_doorbell (k : kfd_doorbells) (bm db_addr : Z) : kfd_doorbells :=
  let inx := u32 db_addr / 2 in
  k <| kernel_bitmap := Some (clear_bit inx bm) |>.

Definition kfd_alloc_process_doorbells (p : process_doorbells) : Z * process_doorbells :=
  if negb (alloc_bitmap de) then (-ENOMEM, p <| pd_bitmap := None |>)
  else
    let p := p <| pd_bitmap := Some (init_doorbell_bitmap e 0) |> in
    if nz (create_bo de) then (create_bo de, p <| pd_bitmap := None |>)
    else (0, p <| pd_bo := Some (bo_offset de) |>).

Definition kfd_free_process_doorbells (p : process_doorbells) : process_doorbells :=
  p <| pd_bitmap := None |> <| pd_bo := None |>.

(** Physical address of the first doorbell, 0 on failure. *)
Definition kfd_get_process_doorbells (p : process_doorbells) : Z * process_doorbells :=
  let '(r, p) := match pd_bo p with
                 | None => kfd_alloc_process_doorbells p
                 | Some _ => (0, p)
                 end in
  match pd_bo p with
  | Some off => if nz r then (0, p)
                else (u64 (bar_base de + amdgpu_doorbell_index_on_bar off 0 (doorbell_size e) * 4), p)
  | None => (0, p)
  end.

(** [remap] is [io_remap_pfn_range] of a page frame number. *)
Definition kfd_doorbell_mmap (remap : Z → Z) (vm_start vm_end : Z) (p : option process_doorbells)
    : Z * option process_doorbells :=
  if negb (u64 (vm_end - vm_start) =? kfd_doorbell_process_slice) then (-EINVAL, p)
  else
    match p with
    | None => (-EINVAL, p)
    | Some p =>
        let '(address, p) := kfd_get_process_doorbells p in
        if negb (nz address) then (-ENOMEM, Some p)
        else (remap (Z.shiftr address PAGE_SHIFT), Some p)
    end.

(** ** Kernel doorbells *)

Lemma u32_double inx : 0 ≤ inx < 1024 → u32 (inx * 2) = inx * 2.
Proof. intros. apply wrap_small. unfold in_width. lia. Qed.

Lemma get_kernel_doorbell_cases k bm :
  let inx := find_first_zero_bit bm (PAGE_SIZE / 4) in
  (inx < 1024 ∧ 0 ≤ inx ∧ Z.testbit bm inx = false ∧ (∀ j, 0 ≤ j < inx → Z.testbit bm j = true) ∧
   kfd_get_kernel_doorbell k bm =
     (Some (amdgpu_doorbell_index_on_bar (kernel_bo_offset k) inx (doorbell_size e), inx * 2),
      k <| kernel_bitmap := Some (set_bit inx bm) |>)) ∨
  (inx = 1024 ∧ (∀ j, 0 ≤ j < 1024 → Z.testbit bm j = true) ∧
   kfd_get_kernel_doorbell k bm = (None, k <| kernel_bitmap := Some (set_bit 1024 bm) |>)).
Proof.
  cbv zeta. unfold kfd_get_kernel_doorbell.
  destruct (find_next_zero_bit_spec bm (PAGE_SIZE / 4) 0) as (Hr & Hone & Hz); [done|].
  fold (find_first_zero_bit bm (PAGE_SIZE / 4)) in *.
  change (PAGE_SIZE / 4) with 1024 in *. set (inx := find_first_zero_bit bm 1024) in *.
  change KFD_MAX_NUM_OF_QUEUES_PER_PROCESS with 1024.
  destruct (1024 <=? inx) eqn:E; bool_to_Prop.
  - right. assert (inx = 1024) as Hi by lia. rewrite Hi in *. by split_and!.
  - left. split_and!; try lia; try done; [apply Hz; lia|]. rewrite u32_double by lia. done.
Qed.

(** A kernel doorbell is the lowest free one, its slot is taken by nobody
    else, and giving it back restores the bitmap. *)
Theorem kernel_doorbell_roundtrip k bm off addr k' :
  in_width 1024 bm → kfd_get_kernel_doorbell k bm = (Some (off, addr), k') →
  ∃ inx bm', addr = 2 * inx ∧ 0 ≤ inx < 1024 ∧ kernel_bitmap k' = Some bm' ∧
    Z.testbit bm inx = false ∧ (∀ j, 0 ≤ j < inx → Z.testbit bm j = true) ∧
    (∀ j, Z.testbit bm' j = (inx =? j) || Z.testbit bm j) ∧ in_width 1024 bm' ∧
    kernel_bitmap (kfd_release_kernel_doorbell k' bm' addr) = Some bm.
Proof.
  intros Hw Hg. pose proof (get_kernel_doorbell_cases k bm) as Hc. cbv zeta in Hc.
  set (inx := find_first_zero_bit bm (PAGE_SIZE / 4)) in *.
  destruct Hc as [(Hlt & Hge & Hz & Hone & Heq)|(_ & _ & Heq)]; rewrite Heq in Hg; simplify_eq.
  exists inx, (set_bit inx bm). split_and!; try done; try lia.
  - intros j. by apply set_bit_spec.
  - by apply in_width_setbit.
  - unfold kfd_release_kernel_doorbell. simpl. f_equal.
    rewrite wrap_small by (unfold in_width; lia). rewrite Z.div_mul by done. by apply clear_set_bit.
Qed.

(** The page has 1024 words but a kernel doorbell takes two, so that from
    the 513th on [kfd_get_kernel_doorbell] returns an address outside of the
    page; and once all 1024 slots are marked it sets a bit past the end of the
    bitmap before it returns NULL. *)
Theorem kernel_doorbell_overrun k bm :
  (Z.land bm (Z.ones 512) = Z.ones 512 → ∀ off addr k',
     kfd_get_kernel_doorbell k bm = (Some (off, addr), k') → PAGE_SIZE ≤ 4 * addr) ∧
  (bm = Z.ones 1024 → ∃ bm', kernel_bitmap (kfd_get_kernel_doorbell k bm).2 = Some bm' ∧
     (kfd_get_kernel_doorbell k bm).1 = None ∧ ¬ in_width 1024 bm').
Proof.
  pose proof (get_kernel_doorbell_cases k bm) as Hc. cbv zeta in Hc.
  set (inx := find_first_zero_bit bm (PAGE_SIZE / 4)) in *. split.
  - intros Hfull off addr k' Hg.
    destruct Hc as [(Hlt & Hge & Hz & Hone & Heq)|(_ & _ & Heq)]; rewrite Heq in Hg; simplify_eq.
    assert (512 ≤ inx); [|unfold PAGE_SIZE; lia].
    destruct (decide (512 ≤ inx)); [done|]. exfalso.
    apply (f_equal (λ z, Z.testbit z inx)) in Hfull.
    rewrite Z.land_spec, Hz, Z.ones_spec_low in Hfull by lia. done.
  - intros Hfull. destruct Hc as [(Hlt & Hge & Hz & _ & _)|(_ & _ & Heq)].
    + exfalso. rewrite Hfull, Z.ones_spec_low in Hz by lia. done.
    + rewrite Heq. exists (set_bit 1024 bm). split_and!; try done.
      intros Hw. rewrite in_width_bits in Hw by lia. specialize (Hw 1024 ltac:(lia)).
      by rewrite set_bit_spec in Hw by lia.
Qed.

(** The doorbell slice of a process is a whole number of pages that holds
    one doorbell for each of its 1024 queues; a mapping is made only for exactly
    that size, and then maps the page of the process' own doorbells. *)
Theorem kfd_doorbell_mmap_spec remap vm_start vm_end p off :
  enable_mes e = false → 0 < doorbell_size e → pd_bo p = Some off →
  PAGE_SIZE * (kfd_doorbell_process_slice / PAGE_SIZE) = kfd_doorbell_process_slice ∧
  doorbell_size e * 1024 ≤ kfd_doorbell_process_slice < doorbell_size e * 1024 + PAGE_SIZE ∧
  kfd_doorbell_mmap remap vm_start vm_end (Some p) =
    (if u64 (vm_end - vm_start) =? kfd_doorbell_process_slice then
       let address := u64 (bar_base de + amdgpu_doorbell_index_on_bar off 0 (doorbell_size e) * 4) in
       if address =? 0 then -ENOMEM else remap (Z.shiftr address 12)
     else -EINVAL, Some p).
Proof.
  intros Hmes Hsz Hbo. unfold kfd_doorbell_mmap, kfd_get_process_doorbells.
  unfold kfd_doorbell_process_slice. rewrite Hmes, Hbo. cbn [negb].
  unfold roundup. change KFD_MAX_NUM_OF_QUEUES_PER_PROCESS with 1024.
  set (x := (doorbell_size e * 1024 + (PAGE_SIZE - 1)) / PAGE_SIZE).
  assert (Hx : doorbell_size e * 1024 ≤ x * PAGE_SIZE < doorbell_size e * 1024 + PAGE_SIZE).
  { subst x. unfold PAGE_SIZE in *. Z.to_euclidean_division_equations. lia. }
  split_and!; try lia.
  - rewrite Z.div_mul by done. apply Z.mul_comm.
  - destruct (u64 _ =? _); [|done]. cbn [negb nz]. rewrite Hbo. cbn [nz Z.eqb negb].
    unfold nz. destruct (_ =? 0); done.
Qed.

End Doorbell.

Definition de0 : doorbell_env := mk_doorbell_env true 0 8192 8192 0x100000.
Definition kernel0 : kfd_doorbells := mk_kfd_doorbells (Some 5) true 4096.

Lemma kernel_doorbell_roundtrip_witness :
  ∃ inx bm', 2 = 2 * inx ∧ 0 ≤ inx < 1024 ∧ kernel_bitmap (kernel0 <| kernel_bitmap := Some 7 |>) = Some bm' ∧
    Z.testbit 5 inx = false ∧ (∀ j, 0 ≤ j < inx → Z.testbit 5 j = true) ∧
    (∀ j, Z.testbit bm' j = (inx =? j) || Z.testbit 5 j) ∧ in_width 1024 bm' ∧
    kernel_bitmap (kfd_release_kernel_doorbell (kernel0 <| kernel_bitmap := Some 7 |>) bm' 2) = Some 5.
Proof.
  apply (kernel_doorbell_roundtrip env0 kernel0 5 1026 2).
  - split; [lia|]. apply (Z.lt_trans _ (2 ^ 3)); [done|]. apply Z.pow_lt_mono_r; lia.
  - reflexivity.
Defined.

Lemma kfd_doorbell_mmap_spec_witness :
  kfd_doorbell_mmap env0 de0 (λ pfn, - pfn) 0x10000 0x12000 (Some (mk_process_doorbells (Some 0) (Some 4096)))
  = (- 0x101, Some (mk_process_doorbells (Some 0) (Some 4096))).
Proof.
  pose proof (kfd_doorbell_mmap_spec env0 de0 (λ pfn, - pfn) 0x10000 0x12000
    (mk_process_doorbells (Some 0) (Some 4096)) 4096 eq_refl eq_refl eq_refl) as (_ & _ & H).
  exact H.
Defined.
