(* ===== verification/KernelQueue.v ===== *)
(** * Kernel queues

    [kfd_kernel_queue.c]: the ring the driver writes PM4 packets to, which the
    hardware reads, and the memory and doorbell a kernel queue takes from the
    sub-allocator and the doorbell page.  A write outside of the ring is the
    outcome [None]. *)

From S2P Require Import Prelude GttSa DqmState Doorbell.
Import GttSa.

(** ** Data *)

Definition PM4_COUNT_ZERO : Z := Z.shiftl (Z.shiftl 1 15 - 1) 16.
Definition IT_NOP : Z := 0x10.
Definition PM4_TYPE_3 : Z := 3.
Definition KFD_KERNEL_QUEUE_SIZE : Z := 2048.
Definition KFD_CIK_HIQ_PIPE : Z := 4.
Definition KFD_CIK_HIQ_QUEUE : Z := 0.

(** The header packet of [kq_initialize]: opcode in bits 8-15, type in 30-31. *)
Definition nop_u32all : Z :=
  Z.lor (Z.lor (Z.shiftl IT_NOP 8) (Z.shiftl PM4_TYPE_3 30)) PM4_COUNT_ZERO.

(** [rptr_kernel] is the word the hardware writes, [wptr_kernel] the 64-bit
    contents of the write pointer, [pq] the dwords of the ring, [doorbells] the
    values written to the doorbell, latest first. *)
Record kernel_queue := mk_kernel_queue {
  kq_type : kfd_queue_type;
  queue_size : Z;
  nop_packet : Z;
  pending_wptr : Z;
  pending_wptr64 : Z;
  rptr_kernel : Z;
  wptr_kernel : Z;
  pq : list Z;
  doorbells : list Z;
  kq_doorbell : Z;                 (* properties.doorbell_ptr *)
  kq_pipe : Z;
  kq_queue : Z;
  pq_mem : option kfd_mem_obj;
  eop_mem : option kfd_mem_obj;
  rptr_mem : option kfd_mem_obj;
  wptr_mem : option kfd_mem_obj;
  fence_mem_obj : option kfd_mem_obj;
}.
#[export] Instance eta_kernel_queue : Eta kernel_queue := λ k,
  mk_kernel_queue (kq_type k) (queue_size k) (nop_packet k) (pending_wptr k) (pending_wptr64 k)
    (rptr_kernel k) (wptr_kernel k) (pq k) (doorbells k) (kq_doorbell k) (kq_pipe k) (kq_queue k)
    (pq_mem k) (eop_mem k) (rptr_mem k) (wptr_mem k) (fence_mem_obj k).

(** ** The ring *)

(** [queue_address[i] = v]. *)
Definition write_dword (k : kernel_queue) (i v : Z) : option kernel_queue :=
  if (0 <=? i) && (i <? Z.of_nat (length (pq k))) then Some (k <| pq ::= <[Z.to_nat i := v]> |>)
  else None.

(** [while (wptr > 0)]: the rest of the ring is filled with nops. *)
Fixpoint fill_nops (fuel : nat) (k : kernel_queue) (queue_size_dwords wptr wptr64 : Z)
    : option (kernel_queue * Z * Z) :=
  if 0 <? wptr then
    match fuel with
    | O => None
    | S fuel =>
        k ← write_dword k wptr (nop_packet k);
        fill_nops fuel k queue_size_dwords (u32 ((wptr + 1) `mod` queue_size_dwords)) (u64 (wptr64 + 1))
    end
  else Some (k, wptr, wptr64).

(** The code, and the index in the ring of [*buffer_ptr] when it is 0. *)
Definition kq_acquire_packet_buffer (k : kernel_queue) (packet_size_in_dwords : Z)
    : option (Z * Z * kernel_queue) :=
  let rptr := rptr_kernel k in
  let wptr := pending_wptr k in
  let queue_size_dwords := queue_size k / 4 in
  let available_size := u64 (rptr + queue_size_dwords - 1 - wptr) `mod` queue_size_dwords in
  if available_size <? packet_size_in_dwords then Some (-ENOMEM, 0, k)
  else
    let acquire k wptr wptr64 :=
      Some (0, wptr, k <| pending_wptr := u32 (wptr + packet_size_in_dwords) |>
                       <| pending_wptr64 := u64 (wptr64 + packet_size_in_dwords) |>) in
    if queue_size_dwords <=? u64 (wptr + packet_size_in_dwords) then
      if rptr <=? packet_size_in_dwords then Some (-ENOMEM, 0, k)
      else
        '(k, wptr, wptr64) ← fill_nops (Z.to_nat queue_size_dwords) k queue_size_dwords wptr
                               (pending_wptr64 k);
        acquire k wptr wptr64
    else acquire k wptr (pending_wptr64 k).

(** The dwords a caller writes to the buffer it acquired. *)
Fixpoint write_packet (k : kernel_queue) (i : Z) (packet : list Z) : option kernel_queue :=
  match packet with
  | [] => Some k
  | v :: packet => k ← write_dword k i v; write_packet k (i + 1) packet
  end.

Section Ring.
Context (e : dev_env).

Definition kq_submit_packet (k : kernel_queue) : kernel_queue :=
  if doorbell_size e =? 8 then
    k <| wptr_kernel := pending_wptr64 k |> <| doorbells ::= cons (pending_wptr64 k) |>
  else
    k <| wptr_kernel := wptr_kernel k - u32 (wptr_kernel k) + pending_wptr k |>
      <| doorbells ::= cons (pending_wptr k) |>.

Definition kq_rollback_packet (k : kernel_queue) : kernel_queue :=
  if doorbell_size e =? 8 then
    k <| pending_wptr64 := wptr_kernel k |>
      <| pending_wptr := u32 (wptr_kernel k) `mod` (queue_size k / 4) |>
  else k <| pending_wptr := u32 (wptr_kernel k) |>.

(** How every client uses the ring: the packet is built in the buffer, and
    submitted, or given up when building it failed. *)
Definition send_packet (k : kernel_queue) (packet : list Z) (built : bool)
    : option (Z * kernel_queue) :=
  '(r, i, k) ← kq_acquire_packet_buffer k (Z.of_nat (length packet));
  if nz r then Some (r, k)
  else
    k ← write_packet k i packet;
    Some (0, if built then kq_submit_packet k else kq_rollback_packet k).

(** The position up to which the hardware may read. *)
Definition submitted_wptr (k : kernel_queue) : Z := u32 (wptr_kernel k) `mod` (queue_size k / 4).

(** The hardware reads [n] dwords, if so many are submitted. *)
Definition consume (k : kernel_queue) (n : Z) : option (list Z * kernel_queue) :=
  let q := queue_size k / 4 in
  if (0 <=? n) && (n <=? (submitted_wptr k - rptr_kernel k) `mod` q) then
    Some ((λ i, pq k !!! Z.to_nat ((rptr_kernel k + i) `mod` q)) <$> seqZ 0 n,
          k <| rptr_kernel := (rptr_kernel k + n) `mod` q |>)
  else None.

(** ** Reading the ring *)

Definition slots (k : kernel_queue) : Z := queue_size k / 4.

(** [n] dwords from position [s]. *)
Definition slice (k : kernel_queue) (s n : Z) : list Z :=
  (λ i, pq k !!! Z.to_nat ((s + i) `mod` slots k)) <$> seqZ 0 n.

Definition used (k : kernel_queue) : Z := (pending_wptr k - rptr_kernel k) `mod` slots k.

(** The dwords not read yet, those of a packet being built included. *)
Definition unread (k : kernel_queue) : list Z := slice k (rptr_kernel k) (used k).

(** Sizes and positions of a ring. *)
Record ring_wf (k : kernel_queue) : Prop := {
  ring_bits : ∃ b, 1 ≤ b ≤ 29 ∧ queue_size k = 4 * 2 ^ b;
  ring_length : Z.of_nat (length (pq k)) = slots k;
  ring_rptr : 0 ≤ rptr_kernel k < slots k;
  ring_pending : 0 ≤ pending_wptr k < slots k;
  ring_pending64 : in_width 64 (pending_wptr64 k) ∧
    (doorbell_size e = 8 → pending_wptr64 k `mod` slots k = pending_wptr k);
}.

(** A ring with no packet being built. *)
Record idle_wf (k : kernel_queue) : Prop := {
  idle_ring : ring_wf k;
  idle_width : in_width 64 (wptr_kernel k);
  idle_wptr : if doorbell_size e =? 8 then wptr_kernel k = pending_wptr64 k
              else u32 (wptr_kernel k) = pending_wptr k;
}.

Lemma slots_pow k : ring_wf k → ∃ b, 1 ≤ b ≤ 29 ∧ slots k = 2 ^ b.
Proof.
  intros [(b & Hb & Hq) _ _ _ _]. exists b. split; [done|]. unfold slots. rewrite Hq.
  rewrite Z.mul_comm, Z.div_mul by done. done.
Qed.

Lemma slots_range k : ring_wf k → 2 ≤ slots k ≤ 2 ^ 29.
Proof.
  intros Hk. destruct (slots_pow k Hk) as (b & Hb & ->).
  split; [apply (Z.pow_le_mono_r 2 1 b); lia|apply Z.pow_le_mono_r; lia].
Qed.

(** The ring divides the widths of the counters. *)
Lemma wrap_mod_slots k w x : ring_wf k → 29 ≤ w → wrap w x `mod` slots k = x `mod` slots k.
Proof.
  intros Hk Hw. destruct (slots_pow k Hk) as (b & Hb & ->). unfold wrap.
  replace (2 ^ w) with (2 ^ b * 2 ^ (w - b)) by (rewrite <- Z.pow_add_r by lia; f_equal; lia).
  rewrite Z.rem_mul_r by (apply Z.pow_nonzero || apply Z.pow_pos_nonneg; lia).
  rewrite (Z.mul_comm (2 ^ b)), Z.mod_add by (apply Z.pow_nonzero; lia). apply Zmod_mod.
Qed.

Lemma slice_app k s a b :
  0 ≤ a → 0 ≤ b → slice k s (a + b) = slice k s a ++ slice k (s + a) b.
Proof.
  intros Ha Hb. unfold slice. rewrite seqZ_app, fmap_app by done. f_equal.
  apply list_eq. intros i. rewrite !list_lookup_fmap.
  destruct (decide (Z.of_nat i < b)).
  - rewrite !lookup_seqZ_lt by lia. simpl. do 4 f_equal. lia.
  - rewrite !lookup_seqZ_ge by lia. done.
Qed.

(** ** Appending to the ring *)

Lemma used_range k : ring_wf k → 0 ≤ used k < slots k.
Proof. intros Hk. pose proof (slots_range k Hk). apply Z.mod_pos_bound. lia. Qed.

Lemma read_pos k i :
  ring_wf k → (rptr_kernel k + used k + i) `mod` slots k = (pending_wptr k + i) `mod` slots k.
Proof.
  intros Hk. pose proof (slots_range k Hk). unfold used.
  rewrite <- (Zplus_mod_idemp_l (_ + _) i), Zplus_mod_idemp_r, Zplus_mod_idemp_l. f_equal. lia.
Qed.

(** Positions before the write pointer differ from those after it. *)
Lemma pos_disjoint k i j :
  ring_wf k → 0 ≤ i < used k → 0 ≤ j → used k + j < slots k →
  (rptr_kernel k + i) `mod` slots k ≠ (pending_wptr k + j) `mod` slots k.
Proof.
  intros Hk Hi Hj Hd E. pose proof (slots_range k Hk). rewrite <- read_pos in E by done.
  assert (Hx : (used k + j - i) `mod` slots k = 0).
  { replace (used k + j - i) with ((rptr_kernel k + used k + j) - (rptr_kernel k + i)) by lia.
    rewrite Zminus_mod, E, Z.sub_diag. apply Z.mod_0_l. lia. }
  rewrite Z.mod_small in Hx by lia. lia.
Qed.

(** [data] written at the write pointer, which advances. *)
Definition append (k : kernel_queue) (data : list Z) : kernel_queue :=
  k <| pq ::= list_inserts (Z.to_nat (pending_wptr k)) data |>
    <| pending_wptr := (pending_wptr k + Z.of_nat (length data)) `mod` slots k |>
    <| pending_wptr64 := u64 (pending_wptr64 k + Z.of_nat (length data)) |>.

Lemma append_wf k data : ring_wf k → ring_wf (append k data).
Proof.
  intros Hk. pose proof (slots_range k Hk) as Hs. pose proof Hk as [Hb Hl Hr Hp [Hw H64]].
  split; try done.
  - simpl. by rewrite length_inserts.
  - change (0 ≤ (pending_wptr k + Z.of_nat (length data)) `mod` slots k < slots k).
    apply Z.mod_pos_bound. lia.
  - split; [apply wrap_in_width; lia|]. intros H8. change (slots (append k data)) with (slots k).
    change (u64 (pending_wptr64 k + Z.of_nat (length data)) `mod` slots k =
      (pending_wptr k + Z.of_nat (length data)) `mod` slots k).
    rewrite wrap_mod_slots by (done || lia). rewrite <- (H64 H8). by rewrite Zplus_mod_idemp_l.
Qed.

Lemma append_spec k data :
  ring_wf k → pending_wptr k + Z.of_nat (length data) ≤ slots k →
  used k + Z.of_nat (length data) < slots k →
  used (append k data) = used k + Z.of_nat (length data) ∧ unread (append k data) = unread k ++ data.
Proof.
  intros Hk Hfit Hroom. pose proof (slots_range k Hk) as Hs. pose proof (used_range k Hk) as Hu.
  pose proof Hk as [_ Hl Hr Hp _]. set (n := Z.of_nat (length data)) in *.
  assert (Hused : used (append k data) = used k + n).
  { change (used (append k data)) with
      (((pending_wptr k + n) `mod` slots k - rptr_kernel k) `mod` slots k).
    rewrite Zminus_mod_idemp_l.
    replace (pending_wptr k + n - rptr_kernel k) with (pending_wptr k - rptr_kernel k + n) by lia.
    rewrite <- Zplus_mod_idemp_l. fold (used k). apply Z.mod_small. lia. }
  split; [done|]. unfold unread at 1. rewrite Hused, slice_app by lia. f_equal.
  - apply list_eq. intros i. unfold unread, slice. rewrite !list_lookup_fmap.
    destruct (decide (Z.of_nat i < used k)); [|by rewrite !lookup_seqZ_ge by lia].
    rewrite !lookup_seqZ_lt by lia. simpl. f_equal.
    assert (Hd : ∀ j, 0 ≤ j < n → (rptr_kernel k + (0 + Z.of_nat i)) `mod` slots k ≠ pending_wptr k + j).
    { intros j Hj E. apply (pos_disjoint k (0 + Z.of_nat i) j); [done|lia|lia|lia|].
      rewrite E. symmetry. apply Z.mod_small. lia. }
    pose proof (Z.mod_pos_bound (rptr_kernel k + (0 + Z.of_nat i)) (slots k) ltac:(lia)) as Hm.
    change (slots (append k data)) with (slots k).
    set (x := (rptr_kernel k + (0 + Z.of_nat i)) `mod` slots k) in *.
    simpl.
    destruct (decide (Z.to_nat x < Z.to_nat (pending_wptr k))%nat).
    + by apply list_lookup_total_inserts_lt.
    + apply list_lookup_total_inserts_ge.
      destruct (decide (Z.to_nat (pending_wptr k) + length data ≤ Z.to_nat x)%nat); [done|].
      exfalso. apply (Hd (x - pending_wptr k)); lia.
  - apply list_eq. intros i. unfold slice. rewrite list_lookup_fmap.
    destruct (decide (Z.of_nat i < n)).
    2:{ rewrite lookup_seqZ_ge by lia. symmetry. apply lookup_ge_None_2. lia. }
    rewrite lookup_seqZ_lt by lia. cbn [fmap option_fmap option_map].
    destruct (lookup_lt_is_Some_2 data i) as [v Hv]; [lia|]. rewrite Hv. f_equal.
    change (slots (append k data)) with (slots k). change (rptr_kernel (append k data)) with (rptr_kernel k).
    rewrite read_pos, Z.mod_small by (done || lia).
    apply list_lookup_total_correct. simpl.
    replace (Z.to_nat (pending_wptr k + (0 + Z.of_nat i))) with (Z.to_nat (pending_wptr k) + i)%nat by lia.
    rewrite list_lookup_inserts; [|lia|lia]. rewrite <- Hv. f_equal. lia.
Qed.

(** ** The operations *)

Lemma used_cases k :
  ring_wf k → used k = if rptr_kernel k <=? pending_wptr k then pending_wptr k - rptr_kernel k
                       else pending_wptr k - rptr_kernel k + slots k.
Proof.
  intros Hk. pose proof (slots_range k Hk). pose proof Hk as [_ _ Hr Hp _]. unfold used.
  destruct (_ <=? _) eqn:E; bool_to_Prop; [apply Z.mod_small; lia|].
  rewrite <- (Z.mod_add _ 1) by lia. rewrite Z.mul_1_l. apply Z.mod_small. lia.
Qed.

(** Free dwords: one is never used, so that a full ring differs from an empty one. *)
Lemma available_spec k :
  ring_wf k →
  u64 (rptr_kernel k + slots k - 1 - pending_wptr k) `mod` slots k = slots k - 1 - used k.
Proof.
  intros Hk. pose proof (slots_range k Hk). pose proof Hk as [_ _ Hr Hp _].
  rewrite wrap_small by (unfold in_width; lia). rewrite (used_cases k Hk).
  destruct (_ <=? _) eqn:E; bool_to_Prop.
  - rewrite Z.mod_small by lia. lia.
  - rewrite <- (Z.mod_add _ (-1)) by lia. rewrite Z.mod_small by lia. lia.
Qed.

Lemma list_inserts_S {A} (i : nat) (x : A) (l t : list A) :
  list_inserts i (x :: l) t = list_inserts (S i) l (<[i := x]> t).
Proof. simpl. apply list_insert_inserts_lt. lia. Qed.

Lemma write_dword_spec k i v :
  0 ≤ i < Z.of_nat (length (pq k)) → write_dword k i v = Some (k <| pq ::= <[Z.to_nat i := v]> |>).
Proof.
  intros Hi. unfold write_dword. rewrite (proj2 (Z.leb_le _ _)) by lia.
  by rewrite (proj2 (Z.ltb_lt _ _)) by lia.
Qed.

Lemma write_packet_spec data k i :
  0 ≤ i → i + Z.of_nat (length data) ≤ Z.of_nat (length (pq k)) →
  write_packet k i data = Some (k <| pq ::= list_inserts (Z.to_nat i) data |>).
Proof.
  revert k i. induction data as [|v data IH]; intros k i Hi Hl; [by destruct k|].
  cbn [write_packet length] in *. rewrite write_dword_spec by lia. cbn [mbind option_bind].
  rewrite IH; [|lia|simpl; rewrite length_insert; lia].
  replace (Z.to_nat (i + 1)) with (S (Z.to_nat i)) by lia.
  destruct k. cbn -[list_inserts insert]. by rewrite <- list_inserts_S.
Qed.

Lemma fill_nops_spec m fuel k q w w64 :
  Z.of_nat (length (pq k)) = q → q < 2 ^ 32 → 0 < w → w + Z.of_nat m = q → (m ≤ fuel)%nat →
  (0 < m)%nat →
  fill_nops fuel k q w w64 =
  Some (k <| pq ::= list_inserts (Z.to_nat w) (replicate m (nop_packet k)) |>, 0, u64 (w64 + Z.of_nat m)).
Proof.
  revert fuel k w w64. induction m as [|m IH]; intros fuel k w w64 Hl Hq Hw Hm Hf H0; [lia|].
  destruct fuel as [|fuel]; [lia|]. cbn [fill_nops].
  rewrite (proj2 (Z.ltb_lt 0 w)) by lia. rewrite write_dword_spec by lia. cbn [mbind option_bind].
  set (k1 := k <| pq ::= _ |>). destruct m as [|m].
  - assert (u32 ((w + 1) `mod` q) = 0) as ->.
    { replace (w + 1) with q by lia. by rewrite Z.mod_same by lia. }
    by destruct fuel.
  - assert (u32 ((w + 1) `mod` q) = w + 1) as ->.
    { rewrite (Z.mod_small (w + 1) q) by lia. apply wrap_small. unfold in_width. lia. }
    rewrite (IH fuel k1); try lia; [|unfold k1; simpl; rewrite length_insert; lia].
    replace (Z.to_nat (w + 1)) with (S (Z.to_nat w)) by lia.
    change (nop_packet k1) with (nop_packet k). f_equal. f_equal; [f_equal|].
    + unfold k1. destruct k. cbn -[list_inserts replicate insert]. by rewrite <- list_inserts_S.
    + unfold wrap. rewrite Zplus_mod_idemp_l. f_equal. lia.
Qed.

(** The nops before a packet of [n] dwords. *)
Definition pads (k : kernel_queue) (n : Z) : list Z :=
  if slots k <=? pending_wptr k + n
  then replicate (Z.to_nat (slots k - pending_wptr k)) (nop_packet k) else [].

(** There is room, in the case of a roll back at the beginning of the ring. *)
Definition fits (k : kernel_queue) (n : Z) : bool :=
  (n <=? slots k - 1 - used k) && ((pending_wptr k + n <? slots k) || (n <? rptr_kernel k)).

Lemma append_nil k : ring_wf k → append k [] = k.
Proof.
  intros Hk. pose proof (slots_range k Hk). pose proof Hk as [_ _ _ Hp [Hw _]]. destruct k.
  unfold append. cbn -[list_inserts slots Z.modulo wrap]. unfold list_inserts. f_equal.
  - rewrite Z.add_0_r. by apply Z.mod_small.
  - rewrite Z.add_0_r. by apply wrap_small.
Qed.

Lemma fits_pads k n :
  ring_wf k → 0 ≤ n → fits k n = true →
  let m := Z.of_nat (length (pads k n)) in
  pending_wptr k + m ≤ slots k ∧ used k + m < slots k ∧
  pending_wptr (append k (pads k n)) + n < slots k ∧ used k + m + n < slots k.
Proof.
  intros Hk Hn Hf. pose proof (slots_range k Hk). pose proof Hk as [_ _ Hr Hp _].
  pose proof (used_cases k Hk) as Hu. unfold fits in Hf. apply andb_true_iff in Hf as [H1 H2].
  change (pending_wptr (append k (pads k n))) with
    ((pending_wptr k + Z.of_nat (length (pads k n))) `mod` slots k).
  cbv zeta. unfold pads. destruct (slots k <=? pending_wptr k + n) eqn:E; bool_to_Prop.
  - rewrite length_replicate, Z2Nat.id by lia. rewrite (proj2 (Z.ltb_ge _ _)) in H2 by lia.
    apply Z.ltb_lt in H2. destruct (rptr_kernel k <=? pending_wptr k) eqn:Er; bool_to_Prop; [|lia].
    replace (pending_wptr k + (slots k - pending_wptr k)) with (slots k) by lia.
    rewrite Z.mod_same by lia. split_and!; lia.
  - simpl length. rewrite Z.add_0_r, Z.mod_small by lia. split_and!; lia.
Qed.

Lemma acquire_spec k n :
  ring_wf k → 0 ≤ n < 2 ^ 31 →
  kq_acquire_packet_buffer k n =
  if fits k n then
    let k1 := append k (pads k n) in
    Some (0, pending_wptr k1, k1 <| pending_wptr := pending_wptr k1 + n |>
                                 <| pending_wptr64 := u64 (pending_wptr64 k1 + n) |>)
  else Some (-ENOMEM, 0, k).
Proof.
  intros Hk Hn. pose proof (slots_range k Hk). pose proof Hk as [_ Hl Hr Hp _].
  pose proof (fits_pads k n Hk ltac:(lia)) as Hfp. revert Hfp. cbv zeta.
  unfold kq_acquire_packet_buffer. fold (slots k). rewrite available_spec by done. unfold fits.
  destruct (Z.ltb_spec (slots k - 1 - used k) n) as [Hlt|Hge]; [by rewrite (proj2 (Z.leb_gt _ _)) by lia|].
  rewrite (proj2 (Z.leb_le _ _)) by lia. rewrite (wrap_small 64) by (unfold in_width; lia).
  unfold pads. destruct (Z.leb_spec (slots k) (pending_wptr k + n)) as [Hroll|Hroll].
  - rewrite (proj2 (Z.ltb_ge _ _)) by lia. destruct (Z.leb_spec (rptr_kernel k) n) as [Hle|Hle].
    + by rewrite (proj2 (Z.ltb_ge _ _)) by lia.
    + rewrite (proj2 (Z.ltb_lt _ _)) by lia. intros Hfp. specialize (Hfp eq_refl).
      rewrite (fill_nops_spec (Z.to_nat (slots k - pending_wptr k))) by lia.
      cbn [mbind option_bind]. destruct Hfp as (_ & _ & Hfit & _).
      assert (H0 : pending_wptr (append k (replicate (Z.to_nat (slots k - pending_wptr k)) (nop_packet k))) = 0).
      { unfold append. cbn -[list_inserts slots Z.modulo]. rewrite length_replicate, Z2Nat.id by lia.
        replace (_ + _) with (slots k) by lia. by apply Z.mod_same; lia. }
      rewrite H0 in *. f_equal. f_equal. destruct k. cbn -[list_inserts slots replicate wrap Z.modulo] in *.
      rewrite length_replicate. f_equal. apply wrap_small. unfold in_width. lia.
  - rewrite (proj2 (Z.ltb_lt _ _)) by lia. intros _. cbn [orb andb]. rewrite append_nil by done.
    rewrite (wrap_small 32) by (unfold in_width; lia). done.
Qed.

(** Acquiring a buffer and filling it. *)
Lemma acquire_write_spec k data :
  ring_wf k → Z.of_nat (length data) < 2 ^ 31 → fits k (Z.of_nat (length data)) = true →
  ∃ i k1, kq_acquire_packet_buffer k (Z.of_nat (length data)) = Some (0, i, k1) ∧
    write_packet k1 i data = Some (append (append k (pads k (Z.of_nat (length data)))) data).
Proof.
  intros Hk Hn Hf. pose proof (slots_range k Hk).
  destruct (fits_pads k (Z.of_nat (length data)) Hk ltac:(lia) Hf) as (H1 & H2 & H3 & H4).
  rewrite acquire_spec, Hf by (done || lia). cbv zeta.
  set (k0 := append k (pads k (Z.of_nat (length data)))) in *.
  assert (Hk0 : ring_wf k0) by by apply append_wf. pose proof Hk0 as [_ Hl0 _ Hp0 _].
  change (slots k0) with (slots k) in *.
  eexists _, _. split; [done|]. rewrite write_packet_spec; [|lia|change (pending_wptr k0 + Z.of_nat (length data) ≤ Z.of_nat (length (pq k0))); lia]. f_equal.
  rewrite <- (Z.mod_small (pending_wptr k0 + Z.of_nat (length data)) (slots k)) by lia.
  change (slots k) with (slots k0). generalize k0. intros k'. by destruct k'.
Qed.

Lemma append_append_spec k data :
  ring_wf k → fits k (Z.of_nat (length data)) = true →
  let p := pads k (Z.of_nat (length data)) in
  let k2 := append (append k p) data in
  ring_wf k2 ∧ used k2 = used k + Z.of_nat (length (p ++ data)) ∧ unread k2 = unread k ++ p ++ data.
Proof.
  intros Hk Hf. cbv zeta.
  destruct (fits_pads k (Z.of_nat (length data)) Hk ltac:(lia) Hf) as (H1 & H2 & H3 & H4).
  set (p := pads k _) in *. destruct (append_spec k p Hk H1 H2) as [U1 R1].
  pose proof (append_wf k p Hk) as Hk1. set (k1 := append k p) in *.
  change (slots k) with (slots k1) in *.
  destruct (append_spec k1 data Hk1 ltac:(lia) ltac:(lia)) as [U2 R2].
  split_and!; [by apply append_wf|rewrite U2, U1, length_app; lia|]. by rewrite R2, R1, (assoc_L (++)).
Qed.

Lemma length_slice k s n : 0 ≤ n → Z.of_nat (length (slice k s n)) = n.
Proof. intros Hn. unfold slice. rewrite length_fmap, length_seqZ. lia. Qed.

Lemma idle_submitted k : idle_wf k → submitted_wptr k = pending_wptr k.
Proof.
  intros [Hk Hw Hi]. unfold submitted_wptr. fold (slots k).
  pose proof Hk as [_ _ _ Hp [_ H64]]. destruct (doorbell_size e =? 8) eqn:E; bool_to_Prop.
  - rewrite wrap_mod_slots, Hi by (done || lia). by apply H64.
  - rewrite Hi. by apply Z.mod_small.
Qed.

Lemma submit_spec k :
  ring_wf k → in_width 64 (wptr_kernel k) →
  idle_wf (kq_submit_packet k) ∧ unread (kq_submit_packet k) = unread k.
Proof.
  intros Hk Hw. pose proof (slots_range k Hk). pose proof Hk as [Hb Hl Hr Hp H64].
  unfold kq_submit_packet. split; [|by destruct (doorbell_size e =? 8)].
  split; destruct (doorbell_size e =? 8) eqn:E; bool_to_Prop; try done.
  - by apply H64.
  - simpl. unfold in_width in *. unfold wrap. Z.to_euclidean_division_equations. lia.
  - simpl. unfold wrap. rewrite <- (Z.mod_small (pending_wptr k) (2 ^ 32)) at 2 by lia.
    rewrite Zplus_mod, Zminus_mod, Zmod_mod, Z.sub_diag, Z.mod_0_l, Z.add_0_l, Zmod_mod by done. done.
Qed.

(** Giving a packet up restores the positions. *)
Lemma rollback_spec k data1 data2 :
  idle_wf k → let k2 := append (append k data1) data2 in
  ring_wf k2 → unread k2 = unread k ++ data1 ++ data2 →
  idle_wf (kq_rollback_packet k2) ∧ unread (kq_rollback_packet k2) = unread k.
Proof.
  intros Hidle. pose proof (idle_submitted k Hidle) as Hsub.
  pose proof Hidle as [Hk Hw Hi]. pose proof Hk as [Hb Hl Hr Hp [Hw64 H64]]. cbv zeta.
  set (k2 := append _ data2). intros Hk2 Hun.
  assert (Hpend : pending_wptr (kq_rollback_packet k2) = pending_wptr k).
  { unfold kq_rollback_packet. destruct (doorbell_size e =? 8) eqn:E; simpl; [exact Hsub|exact Hi]. }
  assert (Hsame : slots (kq_rollback_packet k2) = slots k ∧ rptr_kernel (kq_rollback_packet k2) = rptr_kernel k
    ∧ wptr_kernel (kq_rollback_packet k2) = wptr_kernel k ∧ pq (kq_rollback_packet k2) = pq k2
    ∧ queue_size (kq_rollback_packet k2) = queue_size k).
  { unfold kq_rollback_packet. by destruct (doorbell_size e =? 8). }
  destruct Hsame as (E1 & E2 & E3 & E4 & E5).
  assert (H64' : pending_wptr64 (kq_rollback_packet k2) =
    if doorbell_size e =? 8 then pending_wptr64 k else pending_wptr64 k2).
  { unfold kq_rollback_packet. destruct (doorbell_size e =? 8) eqn:E; [exact Hi|done]. }
  split.
  - split; [split|by rewrite E3|]; rewrite ?E1, ?E2, ?E4, ?E5, ?Hpend, ?E3; try done.
    + apply Hk2.
    + rewrite H64'. destruct (doorbell_size e =? 8) eqn:E; bool_to_Prop; [done|].
      split; [apply Hk2|done].
    + rewrite H64'. by destruct (doorbell_size e =? 8).
  - unfold unread at 1. unfold used. rewrite Hpend, E2, E1. fold (used k).
    assert (Hsl : ∀ s n, slice (kq_rollback_packet k2) s n = slice k2 s n).
    { intros s n. unfold slice. by rewrite E1, E4. }
    rewrite Hsl. pose proof (used_range k Hk) as Hu.
    assert (Hu2 : used k2 = used k + Z.of_nat (length (data1 ++ data2))).
    { apply (f_equal length) in Hun. unfold unread in Hun. rewrite length_app in Hun.
      pose proof (used_range k2 Hk2). pose proof (length_slice k2 (rptr_kernel k2) (used k2) ltac:(lia)).
      pose proof (length_slice k (rptr_kernel k) (used k) ltac:(lia)). lia. }
    unfold unread at 1 in Hun. rewrite Hu2, slice_app in Hun by lia.
    apply app_inj_1 in Hun as [Hun _]; [exact Hun|].
    pose proof (length_slice k2 (rptr_kernel k2) (used k) ltac:(lia)) as L1.
    pose proof (length_slice k (rptr_kernel k) (used k) ltac:(lia)) as L2. unfold unread. lia.
Qed.

Lemma send_packet_spec k packet built :
  idle_wf k → Z.of_nat (length packet) < 2 ^ 31 →
  ∃ k', send_packet k packet built = Some (if fits k (Z.of_nat (length packet)) then 0 else -ENOMEM, k') ∧
    idle_wf k' ∧
    (fits k (Z.of_nat (length packet)) = false → k' = k) ∧
    (fits k (Z.of_nat (length packet)) = true → nop_packet k' = nop_packet k ∧
       unread k' = if built then unread k ++ pads k (Z.of_nat (length packet)) ++ packet else unread k).
Proof.
  intros Hidle Hlen. pose proof Hidle as [Hk Hw Hi]. unfold send_packet.
  destruct (fits k (Z.of_nat (length packet))) eqn:Hf.
  - destruct (acquire_write_spec k packet Hk Hlen Hf) as (i & k1 & -> & Hwr). cbn [mbind option_bind].
    change (nz 0) with false. cbv iota. rewrite Hwr. cbn [mbind option_bind].
    destruct (append_append_spec k packet Hk Hf) as (Hk2 & _ & Hun).
    set (k2 := append _ packet) in *. eexists. split; [done|]. destruct built.
    + destruct (submit_spec k2 Hk2 Hw) as [Hs Hu].
      split_and!; [done|done|]. intros _. rewrite Hu. split; [|done].
      unfold kq_submit_packet. by destruct (doorbell_size e =? 8).
    + destruct (rollback_spec k _ packet Hidle Hk2 Hun) as [Hs Hu]. fold k2 in Hs, Hu.
      split_and!; [done|done|]. intros _. split; [|done].
      unfold kq_rollback_packet. by destruct (doorbell_size e =? 8).
  - rewrite acquire_spec, Hf by (done || lia). cbn [mbind option_bind].
    change (nz (-ENOMEM)) with true. by exists k.
Qed.

Lemma consume_spec k n out k' :
  idle_wf k → consume k n = Some (out, k') →
  idle_wf k' ∧ nop_packet k' = nop_packet k ∧ unread k = out ++ unread k'.
Proof.
  intros Hidle. pose proof (idle_submitted k Hidle) as Hsub. pose proof Hidle as [Hk Hw Hi].
  pose proof Hk as [Hb Hl Hr Hp H64]. pose proof (slots_range k Hk) as Hs.
  unfold consume. fold (slots k). rewrite Hsub. fold (used k).
  destruct (_ && _) eqn:E; [|done]. apply andb_true_iff in E as [E1 E2]. bool_to_Prop.
  intros Heq. apply (inj Some), pair_eq in Heq as [<- <-].
  set (k' := k <| rptr_kernel := (rptr_kernel k + n) `mod` slots k |>).
  assert (Hk' : ring_wf k').
  { split; try done. change (0 ≤ (rptr_kernel k + n) `mod` slots k < slots k).
    apply Z.mod_pos_bound. lia. }
  assert (Hu : used k' = used k - n).
  { change (used k') with ((pending_wptr k - (rptr_kernel k + n) `mod` slots k) `mod` slots k).
    rewrite Zminus_mod_idemp_r. pose proof (used_range k Hk). rewrite Z.sub_add_distr.
    rewrite <- Zminus_mod_idemp_l. fold (used k). apply Z.mod_small. lia. }
  split; [by split|]. split; [done|]. unfold unread. rewrite Hu.
  replace (used k) with (n + (used k - n)) at 1 by lia. rewrite slice_app by lia.
  f_equal. unfold slice. apply list_fmap_ext. intros i x _. simpl.
  by rewrite Zplus_mod_idemp_l.
Qed.

(** ** Histories *)

Inductive kq_event :=
  | Send (packet : list Z) (built : bool)
  | Consume (n : Z).

(** The queue, the packets sent and the dwords the hardware has read. *)
Fixpoint kq_run (k : kernel_queue) (l : list kq_event) : option (kernel_queue * list (list Z) * list Z) :=
  match l with
  | [] => Some (k, [], [])
  | Send packet built :: l =>
      '(r, k) ← send_packet k packet built;
      '(k, sent, read) ← kq_run k l;
      Some (k, if built && negb (nz r) then packet :: sent else sent, read)
  | Consume n :: l =>
      '(out, k) ← consume k n;
      '(k, sent, read) ← kq_run k l;
      Some (k, sent, out ++ read)
  end.

(** A ring cleared by [kq_initialize]. *)
Definition empty_ring (k : kernel_queue) (b : Z) : Prop :=
  queue_size k = 4 * 2 ^ b ∧ Z.of_nat (length (pq k)) = 2 ^ b ∧
  rptr_kernel k = 0 ∧ wptr_kernel k = 0 ∧ pending_wptr k = 0 ∧ pending_wptr64 k = 0.

Lemma empty_ring_idle k b : 1 ≤ b ≤ 29 → empty_ring k b → idle_wf k ∧ unread k = [].
Proof.
  intros Hb (Hq & Hl & Hr & Hw & Hp & Hp64).
  assert (Hs : slots k = 2 ^ b) by (unfold slots; rewrite Hq, Z.mul_comm; by apply Z.div_mul).
  assert (0 < 2 ^ b) by lia. split.
  - split; [split|by rewrite Hw|rewrite Hw, Hp, Hp64; by destruct (_ =? 8)].
    + by exists b.
    + by rewrite Hs.
    + rewrite Hs, Hr. lia.
    + rewrite Hs, Hp. lia.
    + rewrite Hp64, Hp. split; [done|]. intros _. by apply Z.mod_0_l; lia.
  - unfold unread, used. rewrite Hp, Hr. by rewrite Z.mod_0_l by lia.
Qed.

Definition padded (nop : Z) (m : nat) (packet : list Z) : list Z := replicate m nop ++ packet.

Lemma kq_run_stream l k k' sent read :
  idle_wf k → Forall (λ ev, match ev with Send p _ => Z.of_nat (length p) < 2 ^ 31 | _ => True end) l →
  kq_run k l = Some (k', sent, read) →
  idle_wf k' ∧ ∃ ms, length ms = length sent ∧
    read ++ unread k' = unread k ++ concat (zip_with (padded (nop_packet k)) ms sent).
Proof.
  revert k sent read. induction l as [|[packet built|n] l IH]; intros k sent read Hk Hl; cbn [kq_run].
  - intros [= <- <- <-]. split; [done|]. exists []. split; [done|]. simpl. by rewrite app_nil_r.
  - apply Forall_cons in Hl as [Hlen Hl].
    destruct (send_packet_spec k packet built Hk Hlen) as (k1 & -> & Hk1 & Hno & Hyes).
    cbn [mbind option_bind]. destruct (kq_run k1 l) as [[[k2 sent2] read2]|] eqn:E; [|done].
    cbn [mbind option_bind]. intros [= -> <- <-].
    destruct (IH k1 sent2 read2 Hk1 Hl E) as (Hk2 & ms & Hms & Hrd). split; [done|].
    destruct (fits k _) eqn:Hf.
    + destruct (Hyes eq_refl) as [Hn Hu]. rewrite Hn in Hrd. change (nz 0) with false. destruct built; cbn [andb negb].
      * exists (length (pads k (Z.of_nat (length packet))) :: ms). split; [simpl; lia|].
        rewrite Hrd, Hu. simpl. unfold padded at 2. rewrite <- !(assoc_L (++)). do 2 f_equal.
        unfold pads. by destruct (_ <=? _); rewrite ?length_replicate.
      * exists ms. split; [done|]. by rewrite Hrd, Hu.
    + change (nz (-ENOMEM)) with true. rewrite andb_false_r. rewrite (Hno eq_refl) in Hrd.
      by exists ms.
  - apply Forall_cons in Hl as [_ Hl]. destruct (consume k n) as [[out k1]|] eqn:Ec; [|done].
    cbn [mbind option_bind]. destruct (consume_spec k n out k1 Hk Ec) as (Hk1 & Hn & Hu).
    destruct (kq_run k1 l) as [[[k2 sent2] read2]|] eqn:E; [|done].
    cbn [mbind option_bind]. intros [= -> <- <-].
    destruct (IH k1 sent2 read2 Hk1 Hl E) as (Hk2 & ms & Hms & Hrd). split; [done|].
    exists ms. split; [done|]. rewrite <- (assoc_L (++)), Hrd, Hu, Hn. by rewrite (assoc_L (++)).
Qed.

(** C28. A kernel queue is a queue.  After any history of packets sent, packets given
    up while they were built, and reads by the hardware, starting from the
    cleared ring, what was read followed by what is submitted and unread is the
    sequence of the packets sent, each whole, in order, after nops at a roll
    back.  Sending the next packet completes, never writes outside of the ring,
    and fails with -ENOMEM, changing nothing, exactly when there is no room. *)
Theorem kernel_queue_fifo (k0 : kernel_queue) (b : Z) (l : list kq_event) (k : kernel_queue)
    (sent : list (list Z)) (read : list Z) (Hb : 1 ≤ b ≤ 29) (Hempty : empty_ring k0 b)
    (Hl : Forall (λ ev, match ev with Send p _ => Z.of_nat (length p) < 2 ^ 31 | _ => True end) l)
    (Hrun : kq_run k0 l = Some (k, sent, read)) :
  (∃ ms, length ms = length sent ∧
     read ++ unread k = concat (zip_with (padded (nop_packet k0)) ms sent)) ∧
  ∀ packet built, Z.of_nat (length packet) < 2 ^ 31 →
    ∃ k', send_packet k packet built =
            Some (if fits k (Z.of_nat (length packet)) then 0 else -ENOMEM, k') ∧
          (fits k (Z.of_nat (length packet)) = false → k' = k).
Proof.
  destruct (empty_ring_idle k0 b Hb Hempty) as [Hk0 Hu0].
  destruct (kq_run_stream l k0 k sent read Hk0 Hl Hrun) as (Hk & ms & Hms & Hrd).
  split; [exists ms; by rewrite Hrd, Hu0|]. intros packet built Hlen.
  destruct (send_packet_spec k packet built Hk Hlen) as (k' & Hs & _ & Hno & _). by exists k'.
Qed.
End Ring.

(** A ring of eight dwords: the second packet does not fit behind the first, and
    goes to the beginning once there is room. *)
Definition small_ring : kernel_queue :=
  mk_kernel_queue KFD_QUEUE_TYPE_HIQ 32 nop_u32all 0 0 0 0 (replicate 8 0) [] 0 0 0 None None None None None.
Definition ring_history : list kq_event :=
  [Send [1; 2; 3; 4; 5] true; Send [6; 7] false; Consume 5; Send [8; 9; 10] true; Consume 4].

Lemma kernel_queue_fifo_witness :
  ∃ k, kq_run env0 small_ring ring_history =
    Some (k, [[1; 2; 3; 4; 5]; [8; 9; 10]], [1; 2; 3; 4; 5; nop_u32all; nop_u32all; nop_u32all; 8]) ∧
  ∃ k', send_packet env0 k [11; 12] true = Some (if fits k 2 then 0 else -ENOMEM, k').
Proof.
  set (o := kq_run env0 small_ring ring_history). vm_compute in o.
  match eval unfold o in o with Some (?k, _, _) => exists k end. split; [reflexivity|].
  match goal with |- context [send_packet env0 ?k _ _] => set (k1 := k) end.
  destruct (kernel_queue_fifo env0 small_ring 3 ring_history k1 [[1; 2; 3; 4; 5]; [8; 9; 10]]
    [1; 2; 3; 4; 5; nop_u32all; nop_u32all; nop_u32all; 8]) as [_ H].
  - lia.
  - by repeat split.
  - repeat constructor.
  - vm_compute. reflexivity.
  - destruct (H [11; 12] true) as (k' & Hk' & _); [reflexivity|]. exists k'. exact Hk'.
Defined.

(** ** Initialisation *)

(** What a kernel queue is made of: the sub-allocator and the doorbells. *)
Record kq_device := mk_kq_device { kq_gtt : kfd_dev; kq_doorbells : kfd_doorbells }.
#[export] Instance eta_kq_device : Eta kq_device := λ s, mk_kq_device (kq_gtt s) (kq_doorbells s).

(** [kq_kzalloc] is whether memory is found for the [i]-th object asked for. *)
Record kq_env := mk_kq_env {
  kq_has_mqd_mgr : bool;
  kq_wants_eop : bool;             (* asic_type > CHIP_MULLINS *)
  kq_kzalloc : nat → bool;
  kq_init_queue : Z;
  kq_allocate_mqd : bool;
}.

Section Init.
Context (e : dev_env) (ke : kq_env).

(** [kfd_gtt_sa_allocate] for the [i]-th object; [None] never happens. *)
Definition sa_allocate (i : nat) (s : kq_device) (size : Z)
    : option (Z * kq_device * option kfd_mem_obj) :=
  '(r, g, m) ← kfd_gtt_sa_allocate (kq_kzalloc ke i) (kq_gtt s) size;
  Some (r, s <| kq_gtt := g |>, m).
Definition sa_free (s : kq_device) (m : option kfd_mem_obj) : kq_device :=
  s <| kq_gtt ::= λ g, (kfd_gtt_sa_free g m).2 |>.
Definition release_doorbell (s : kq_device) (db : Z) : kq_device :=
  match kernel_bitmap (kq_doorbells s) with
  | Some bm => s <| kq_doorbells ::= λ k, kfd_release_kernel_doorbell k bm db |>
  | None => s
  end.

(** The error labels of [kq_initialize], each going on with the next. *)
Definition err_pq_allocate_vidmem (s : kq_device) (k : kernel_queue) : kq_device :=
  release_doorbell s (kq_doorbell k).
Definition err_eop_allocate_vidmem (s : kq_device) (k : kernel_queue) : kq_device :=
  err_pq_allocate_vidmem (sa_free s (pq_mem k)) k.
Definition err_rptr_allocate_vidmem (s : kq_device) (k : kernel_queue) : kq_device :=
  err_eop_allocate_vidmem (sa_free s (eop_mem k)) k.
Definition err_wptr_allocate_vidmem (s : kq_device) (k : kernel_queue) : kq_device :=
  err_rptr_allocate_vidmem (sa_free s (rptr_mem k)) k.
Definition err_init_queue (s : kq_device) (k : kernel_queue) : kq_device :=
  err_wptr_allocate_vidmem (sa_free s (wptr_mem k)) k.

(** A structure from [kzalloc]. *)
Definition kq_zero (type : kfd_queue_type) : kernel_queue :=
  mk_kernel_queue type 0 0 0 0 0 0 [] [] 0 0 0 None None None None None.

(** Whether it succeeded, the device and the queue.  A null doorbell bitmap is
    followed by [kfd_get_kernel_doorbell]: the result [None]. *)
Definition kq_initialize (s : kq_device) (type : kfd_queue_type) (size : Z)
    : option (bool * kq_device * kernel_queue) :=
  let k := kq_zero type in
  if negb (is_type type KFD_QUEUE_TYPE_DIQ) && negb (is_type type KFD_QUEUE_TYPE_HIQ)
  then Some (false, s, k)
  else
    let k := k <| nop_packet := nop_u32all |> in
    if negb (kq_has_mqd_mgr ke) then Some (false, s, k)
    else
      bm ← kernel_bitmap (kq_doorbells s);
      let '(db, ds) := kfd_get_kernel_doorbell e (kq_doorbells s) bm in
      let s := s <| kq_doorbells := ds |> in
      match db with
      | None => Some (false, s, k)
      | Some (_, addr) =>
          let k := k <| kq_doorbell := addr |> in
          '(r, s, m) ← sa_allocate 0 s size;
          if nz r then Some (false, err_pq_allocate_vidmem s k, k)
          else
            let k := k <| pq_mem := m |> in
            '(r, s, m) ← (if kq_wants_eop ke then sa_allocate 1 s PAGE_SIZE else Some (0, s, None));
            if nz r then Some (false, err_eop_allocate_vidmem s k, k)
            else
              let k := k <| eop_mem := m |> in
              '(r, s, m) ← sa_allocate 2 s 4;
              if nz r then Some (false, err_rptr_allocate_vidmem s k, k)
              else
                let k := k <| rptr_mem := m |> in
                '(r, s, m) ← sa_allocate 3 s (doorbell_size e);
                if nz r then Some (false, err_wptr_allocate_vidmem s k, k)
                else
                  let k := k <| wptr_mem := m |>
                             <| pq := replicate (Z.to_nat (size / 4)) 0 |>
                             <| rptr_kernel := 0 |> <| wptr_kernel := 0 |>
                             <| queue_size := size |> in
                  if nz (kq_init_queue ke) then Some (false, err_init_queue s k, k)
                  else if negb (kq_allocate_mqd ke) then Some (false, err_init_queue s k, k)
                  else if is_type type KFD_QUEUE_TYPE_HIQ then
                    Some (true, s, k <| kq_pipe := KFD_CIK_HIQ_PIPE |> <| kq_queue := KFD_CIK_HIQ_QUEUE |>)
                  else
                    '(r, s, m) ← sa_allocate 4 s 4;
                    if nz r then Some (false, err_init_queue s k, k)
                    else Some (true, s, k <| fence_mem_obj := m |>)
      end.

Definition kq_uninitialize (s : kq_device) (k : kernel_queue) : kq_device :=
  let s := if is_type (kq_type k) KFD_QUEUE_TYPE_DIQ then sa_free s (fence_mem_obj k) else s in
  let s := sa_free (sa_free s (rptr_mem k)) (wptr_mem k) in
  let s := sa_free (sa_free s (eop_mem k)) (pq_mem k) in
  release_doorbell s (kq_doorbell k).

(** [kernel_queue_init] and [kernel_queue_uninit], freeing the structure aside. *)
Definition kernel_queue_init (alloc : bool) (s : kq_device) (type : kfd_queue_type)
    : option (option kernel_queue * kq_device) :=
  if negb alloc then Some (None, s)
  else
    '(ok, s, k) ← kq_initialize s type KFD_KERNEL_QUEUE_SIZE;
    Some (if (ok : bool) then Some k else None, s).
Definition kernel_queue_uninit (s : kq_device) (k : kernel_queue) : kq_device := kq_uninitialize s k.

(** ** Nothing is lost *)

(** [g'] is [g] after the objects [ms] were allocated, latest first. *)
Inductive took (g : kfd_dev) : list kfd_mem_obj → kfd_dev → Prop :=
  | took_nil : took g [] g
  | took_cons ms g1 m n :
      took g ms g1 → 1 ≤ n → 0 ≤ range_start m → range_end m = range_start m + n - 1 →
      run_free (gtt_sa_bitmap g1) (range_start m) n →
      took g (m :: ms) (g1 <| gtt_sa_bitmap ::= λ bm, bitmap_set bm (range_start m) n |>).

Definition covered (ms : list kfd_mem_obj) (i : Z) : Prop :=
  ∃ m, m ∈ ms ∧ range_start m ≤ i ≤ range_end m.

(** The bits of the objects were clear before and are set after. *)
Lemma took_bits g ms g' :
  took g ms g' →
  g' = g <| gtt_sa_bitmap := gtt_sa_bitmap g' |> ∧
  (∀ m, m ∈ ms → 0 ≤ range_start m ≤ range_end m) ∧
  (∀ i, covered ms i → Z.testbit (gtt_sa_bitmap g) i = false) ∧
  (∀ i, ¬ covered ms i → Z.testbit (gtt_sa_bitmap g') i = Z.testbit (gtt_sa_bitmap g) i).
Proof.
  induction 1 as [|ms g1 m n Ht (E & Hr & H1 & H2) Hn H0 He Hf].
  - split_and!; [by destruct g|by intros m ?%not_elem_of_nil| |done].
    intros i (m & ?%not_elem_of_nil & _). done.
  - split_and!.
    + rewrite E. by destruct g.
    + intros m' [->|Hm']%elem_of_cons; [lia|by apply Hr].
    + intros i (m' & [->|Hm']%elem_of_cons & Hi); [|apply H1; by exists m'].
      destruct (Z.testbit (gtt_sa_bitmap g) i) eqn:Eb; [|done].
      assert (Hnc : ¬ covered ms i) by (intros Hc; rewrite (H1 i Hc) in Eb; done).
      rewrite <- Eb, <- (H2 i Hnc). apply Hf. lia.
    + intros i Hi. change (gtt_sa_bitmap (g1 <| gtt_sa_bitmap ::= _ |>)) with
        (bitmap_set (gtt_sa_bitmap g1) (range_start m) n).
      rewrite bitmap_set_spec by lia. rewrite bool_decide_eq_false_2, orb_false_r.
      * apply H2. intros (m' & Hm' & Hc). apply Hi. exists m'. split; [by right|done].
      * intros Hc. apply Hi. exists m. split; [by left|lia].
Qed.

(** Freeing the objects in any order, null ones among them. *)
Lemma free_all ms' s i :
  (∀ m, Some m ∈ ms' → 0 ≤ range_start m ≤ range_end m) →
  let s' := foldl sa_free s ms' in
  kq_doorbells s' = kq_doorbells s ∧
  kq_gtt s' = (kq_gtt s) <| gtt_sa_bitmap := gtt_sa_bitmap (kq_gtt s') |> ∧
  (Z.testbit (gtt_sa_bitmap (kq_gtt s')) i = true ↔
   Z.testbit (gtt_sa_bitmap (kq_gtt s)) i = true ∧ ¬ covered (omap id ms') i).
Proof.
  revert s. induction ms' as [|[m|] ms' IH]; intros s Hr; cbn [foldl omap list_omap id].
  - split_and!; [done|by destruct s as [[] ?]|]. split; [|tauto]. intros Hb. split; [done|].
    intros (m & ?%not_elem_of_nil & _). done.
  - destruct (IH (sa_free s (Some m))) as (E1 & E2 & E3); [intros m' Hm'; apply Hr; by right|].
    cbv zeta in *. split_and!; [by rewrite E1|rewrite E2; by destruct s as [[] ?]|].
    rewrite E3. destruct (Hr m ltac:(by left)) as [H0 Hle].
    change (gtt_sa_bitmap (kq_gtt (sa_free s (Some m)))) with
      (bitmap_clear (gtt_sa_bitmap (kq_gtt s)) (range_start m) (range_end m - range_start m + 1)).
    rewrite bitmap_clear_spec, andb_true_iff, negb_true_iff, bool_decide_eq_false by lia. split.
    + intros [[Hb Hn] Hc]. split; [done|]. intros (m' & [->|Hm']%elem_of_cons & Hi); [lia|].
      apply Hc. by exists m'.
    + intros [Hb Hc]. split_and!; [done| |].
      * intros Hi. apply Hc. exists m. split; [by left|lia].
      * intros (m' & Hm' & Hi). apply Hc. exists m'. split; [by right|done].
  - apply (IH (sa_free s None)). intros m' Hm'. apply Hr. by right.
Qed.

Lemma release_got s bm off addr ds :
  kernel_bitmap (kq_doorbells s) = Some bm →
  kfd_get_kernel_doorbell e (kq_doorbells s) bm = (Some (off, addr), ds) →
  release_doorbell (s <| kq_doorbells := ds |>) addr = s.
Proof.
  intros Hbm Hg. destruct (get_kernel_doorbell_cases e (kq_doorbells s) bm)
    as [(Hlt & Hge & Hz & _ & Heq)|(_ & _ & Heq)]; rewrite Heq in Hg; simplify_eq.
  unfold release_doorbell, kfd_release_kernel_doorbell. cbn -[set_bit clear_bit find_first_zero_bit].
  rewrite wrap_small by (unfold in_width; lia). rewrite Z.div_mul, clear_set_bit by done.
  destruct s as [g k]. destruct k. simpl in *. by subst.
Qed.

(** Freeing what was taken and giving the doorbell back restores the device. *)
Lemma undo s bm off addr ds ms g ms' :
  kernel_bitmap (kq_doorbells s) = Some bm →
  kfd_get_kernel_doorbell e (kq_doorbells s) bm = (Some (off, addr), ds) →
  took (kq_gtt s) ms g → omap id ms' ≡ₚ ms →
  release_doorbell (foldl sa_free (mk_kq_device g ds) ms') addr = s.
Proof.
  intros Hbm Hg Ht Hp. destruct (took_bits _ _ _ Ht) as (E & Hr & H1 & H2).
  assert (Hr' : ∀ m, Some m ∈ ms' → 0 ≤ range_start m ≤ range_end m).
  { intros m Hm. apply Hr. rewrite <- Hp. apply list_elem_of_omap. by exists (Some m). }
  assert (Hs : foldl sa_free (mk_kq_device g ds) ms' = s <| kq_doorbells := ds |>);
    [|rewrite Hs; by eapply release_got].
  destruct (free_all ms' (mk_kq_device g ds) 0 Hr') as (D1 & D2 & _). cbv zeta in *.
  set (s' := foldl sa_free _ ms') in *. simpl in D1, D2.
  assert (Hb : gtt_sa_bitmap (kq_gtt s') = gtt_sa_bitmap (kq_gtt s)).
  { apply Z.bits_inj'. intros i _. apply eq_true_iff_eq.
    destruct (free_all ms' (mk_kq_device g ds) i Hr') as (_ & _ & D3). fold s' in D3. rewrite D3.
    assert (Hc : covered (omap id ms') i ↔ covered ms i)
      by (unfold covered; setoid_rewrite Hp; done).
    rewrite Hc. simpl. split.
    - intros [Hb Hn]. by rewrite <- (H2 i Hn).
    - intros Hb. assert (Hn : ¬ covered ms i) by (intros Hn; rewrite (H1 i Hn) in Hb; done).
      split; [by rewrite (H2 i Hn)|done]. }
  rewrite Hb, E in D2. destruct s' as [g' d']. simpl in *. subst. destruct s as [[] ?]. reflexivity.
Qed.

Lemma allocate_cases z g size :
  wf g → 0 ≤ size < 2 ^ 32 →
  (∃ r, r ≠ 0 ∧ kfd_gtt_sa_allocate z g size = Some (r, g, None)) ∨
  (∃ m n, 1 ≤ n ∧ 0 ≤ range_start m ∧ range_end m = range_start m + n - 1 ∧
     run_free (gtt_sa_bitmap g) (range_start m) n ∧
     kfd_gtt_sa_allocate z g size =
       Some (0, g <| gtt_sa_bitmap ::= λ bm, bitmap_set bm (range_start m) n |>, Some m)).
Proof.
  intros Hwf Hs. destruct z.
  - rewrite allocate_spec by done. pose proof (spec_allocate_cases g size Hwf Hs) as Hc.
    destruct Hc as [[r Hr]|(a & n & x & y & Hn & Ha & _ & Hf & Hr)].
    + left. exists r. split; [|by rewrite Hr]. unfold spec_allocate in Hr.
      destruct (size =? 0); [by simplify_eq|]. by destruct (first_fit _ _ _); simplify_eq.
    + right. exists (mk_mem_obj a (a + n - 1) x y), n. split_and!; [done..|by rewrite Hr].
  - left. unfold kfd_gtt_sa_allocate. cbn [negb].
    destruct (size =? 0); [by exists (-EINVAL)|]. destruct (_ <? size); by exists (-ENOMEM).
Qed.

Lemma sa_allocate_took i s ms g0 size :
  wf g0 → took g0 ms (kq_gtt s) → 0 ≤ size < 2 ^ 32 →
  (∃ r, nz r = true ∧ sa_allocate i s size = Some (r, s, None)) ∨
  (∃ m g, took g0 (m :: ms) g ∧ sa_allocate i s size = Some (0, mk_kq_device g (kq_doorbells s), Some m)).
Proof.
  intros Hwf Ht Hs. assert (Hwf1 : wf (kq_gtt s)).
  { destruct (took_bits _ _ _ Ht) as (E & _). rewrite E. by destruct g0. }
  unfold sa_allocate.
  destruct (allocate_cases (kq_kzalloc ke i) (kq_gtt s) size Hwf1 Hs)
    as [(r & Hr & ->)|(m & n & Hn & Ha & He & Hf & ->)]; cbn [mbind option_bind].
  - left. exists r. split; [by apply nz_true|]. by destruct s.
  - right. eexists m, _. split; [exact (took_cons g0 ms _ m n Ht Hn Ha He Hf)|]. by destruct s.
Qed.

(** The outcome of [kq_initialize], given what it starts from. *)
Definition init_outcome (s : kq_device) (type : kfd_queue_type)
    (r : option (bool * kq_device * kernel_queue)) : Prop :=
  ∃ ok s' k, r = Some (ok, s', k) ∧
    if (ok : bool) then
      kq_uninitialize s' k = s ∧ empty_ring k 9 ∧ kq_type k = type ∧ nop_packet k = nop_u32all
    else s' = s.

Lemma init_failed s type s' k : s' = s → init_outcome s type (Some (false, s', k)).
Proof. intros. by exists false, s', k. Qed.

Lemma kq_initialize_outcome s type bm :
  wf (kq_gtt s) → kernel_bitmap (kq_doorbells s) = Some bm → 
  (∃ i, 0 ≤ i < 1024 ∧ Z.testbit bm i = false) → 0 ≤ doorbell_size e < 2 ^ 32 →
  init_outcome s type (kq_initialize s type KFD_KERNEL_QUEUE_SIZE).
Proof.
  intros Hwf Hbm (i & Hi & Hfree) Hdb. unfold kq_initialize. cbv zeta.
  destruct (_ && _) eqn:Ety; [by apply init_failed|].
  destruct (kq_has_mqd_mgr ke); [|by apply init_failed]. cbn [negb]. cbv iota.
  rewrite Hbm. cbn [mbind option_bind].
  destruct (kfd_get_kernel_doorbell e (kq_doorbells s) bm) as [[[off addr]|] ds] eqn:Eg.
  2:{ exfalso. destruct (get_kernel_doorbell_cases e (kq_doorbells s) bm)
        as [(_ & _ & _ & _ & Heq)|(_ & Hall & _)]; [by rewrite Heq in Eg|].
      rewrite Hall in Hfree by done. done. }
  assert (Hu : ∀ ms g ms', took (kq_gtt s) ms g → omap id ms' ≡ₚ ms →
    release_doorbell (foldl sa_free (mk_kq_device g ds) ms') addr = s)
    by (intros; by eapply undo).
  change (s <| kq_doorbells := ds |>) with (mk_kq_device (kq_gtt s) ds).
  destruct (sa_allocate_took 0 (mk_kq_device (kq_gtt s) ds) [] _ KFD_KERNEL_QUEUE_SIZE Hwf (took_nil _))
    as [(r & Hr & ->)|(m1 & g1 & T1 & ->)]; [done| |]; cbn [mbind option_bind].
  { rewrite Hr. apply init_failed. by apply (Hu [] (kq_gtt s) []); [constructor|]. }
  change (nz 0) with false. cbv iota. cbn [kq_doorbells].
  assert (∃ r m2 g2, (if kq_wants_eop ke then sa_allocate 1 (mk_kq_device g1 ds) PAGE_SIZE
      else Some (0, mk_kq_device g1 ds, None)) = Some (r, mk_kq_device g2 ds, m2) ∧
    took (kq_gtt s) (omap id [m2; Some m1]) g2 ∧ (nz r = true → m2 = None))
    as (r2 & m2 & g2 & -> & T2 & H2).
  { destruct (kq_wants_eop ke); [|by exists 0, None, g1].
    destruct (sa_allocate_took 1 (mk_kq_device g1 ds) [m1] _ PAGE_SIZE Hwf T1)
      as [(r & Hr & ->)|(m & g & T & ->)]; [done|by exists r, None, g1|by exists 0, (Some m), g]. }
  cbn [mbind option_bind]. destruct (nz r2).
  { apply init_failed. rewrite (H2 eq_refl) in T2. by apply (Hu _ g2 [Some m1] T2). }
  destruct (sa_allocate_took 2 (mk_kq_device g2 ds) _ _ 4 Hwf T2)
    as [(r & Hr & ->)|(m3 & g3 & T3 & ->)]; [done| |]; cbn [mbind option_bind].
  { rewrite Hr. apply init_failed. by apply (Hu _ g2 [m2; Some m1] T2). }
  change (nz 0) with false. cbv iota. cbn [kq_doorbells].
  destruct (sa_allocate_took 3 (mk_kq_device g3 ds) _ _ (doorbell_size e) Hwf T3)
    as [(r & Hr & ->)|(m4 & g4 & T4 & ->)]; [done| |]; cbn [mbind option_bind].
  { rewrite Hr. apply init_failed. by apply (Hu _ g3 [Some m3; m2; Some m1] T3). }
  change (nz 0) with false. cbv iota. cbn [kq_doorbells].
  pose proof (Hu _ g4 [Some m4; Some m3; m2; Some m1] T4 ltac:(done)) as Hu4.
  destruct (nz (kq_init_queue ke)); [by apply init_failed|].
  destruct (kq_allocate_mqd ke); [|by apply init_failed]. cbn [negb]. cbv iota.
  destruct (is_type type KFD_QUEUE_TYPE_HIQ) eqn:Eh.
  - eexists true, _, _. split; [reflexivity|]. split_and!; [|by repeat split|done|done].
    assert (is_type type KFD_QUEUE_TYPE_DIQ = false) as Ed.
    { unfold is_type in *. apply bool_decide_eq_true in Eh. by rewrite Eh. }
    unfold kq_uninitialize. simpl kq_type. rewrite Ed.
    apply (Hu _ g4 [Some m3; Some m4; m2; Some m1] T4).
    destruct m2; simpl; apply Permutation_swap.
  - destruct (sa_allocate_took 4 (mk_kq_device g4 ds) _ _ 4 Hwf T4)
      as [(r & Hr & ->)|(m5 & g5 & T5 & ->)]; [done| |]; cbn [mbind option_bind].
    { rewrite Hr. by apply init_failed. }
    change (nz 0) with false. cbv iota. eexists true, _, _. split; [reflexivity|].
    split_and!; [|by repeat split|done|done].
    assert (is_type type KFD_QUEUE_TYPE_DIQ = true) as Ed.
    { apply andb_false_iff in Ety as [H|H]; apply negb_false_iff in H; congruence. }
    unfold kq_uninitialize. simpl kq_type. rewrite Ed.
    apply (Hu _ g5 [Some m5; Some m3; Some m4; m2; Some m1] T5).
    destruct m2; simpl; constructor; apply Permutation_swap.
Qed.

(** [kernel_queue_init] is all or nothing: whichever of its allocations fails,
    the sub-allocator and the doorbells of the device are as before; when it
    succeeds the ring is empty, of 512 dwords, and [kernel_queue_uninit] gives
    everything back.  A doorbell has to be free, the case in which
    [kfd_get_kernel_doorbell] itself changes nothing else. *)
Theorem kernel_queue_init_uninit (alloc : bool) (s : kq_device) (type : kfd_queue_type) (bm : Z)
    (Hwf : wf (kq_gtt s)) (Hbm : kernel_bitmap (kq_doorbells s) = Some bm)
    (Hfree : ∃ i, 0 ≤ i < 1024 ∧ Z.testbit bm i = false) (Hdb : 0 ≤ doorbell_size e < 2 ^ 32) :
  ∃ r s', kernel_queue_init alloc s type = Some (r, s') ∧
    match r with
    | None => s' = s
    | Some k => kernel_queue_uninit s' k = s ∧ empty_ring k 9 ∧ kq_type k = type ∧
                nop_packet k = nop_u32all
    end.
Proof.
  unfold kernel_queue_init. destruct alloc; [|by exists None, s].
  destruct (kq_initialize_outcome s type bm Hwf Hbm Hfree Hdb) as (ok & s' & k & E & H).
  cbn [negb]. rewrite E. cbn [mbind option_bind]. destruct ok; eexists _, s'; (split; [done|exact H]).
Qed.
End Init.

Definition kq_env0 : kq_env := mk_kq_env true true (λ i, negb (i =? 3)%nat) 0 true.
Definition kq_device0 : kq_device := mk_kq_device (dev0 <| gtt_sa_num_of_chunks := 64 |>) kernel0.

(** The fourth allocation fails and three objects are given back. *)
Lemma kernel_queue_init_uninit_witness :
  kernel_queue_init env0 kq_env0 true kq_device0 KFD_QUEUE_TYPE_HIQ = Some (None, kq_device0).
Proof.
  destruct (kernel_queue_init_uninit env0 kq_env0 true kq_device0 KFD_QUEUE_TYPE_HIQ 5)
    as (r & s' & E & H).
  - vm_compute. by repeat split.
  - reflexivity.
  - exists 1. split; [lia|reflexivity].
  - vm_compute. split; [discriminate|reflexivity].
  - rewrite E. assert (r = None) as -> by (vm_compute in E; congruence). by rewrite H.
Defined.
