(* ===== verification/Pm4.v ===== *)
(** * PM4 packets

    Bit fields, the type 3 header and the packets of [kfd_packet_manager_v9.c],
    with the layouts of [kfd_pm4_headers_ai.h]; and a reader of a stream of
    packets, which goes from header to header as the hardware does. *)

From S2P Require Import Prelude GttSa DqmState DqmOps Doorbell KernelQueue.

(** ** Bit fields *)

(** The values of the fields of one word, lowest bits first; an assignment to a
    bit field keeps the low bits of the value. *)
Fixpoint pack (fields : list (Z * Z)) : Z :=
  match fields with
  | [] => 0
  | (w, v) :: fields => v `mod` 2 ^ w + 2 ^ w * pack fields
  end.

Fixpoint unpack (widths : list Z) (z : Z) : list Z :=
  match widths with
  | [] => []
  | w :: widths => z `mod` 2 ^ w :: unpack widths (z / 2 ^ w)
  end.

Lemma unpack_pack fields :
  Forall (λ f, 0 ≤ f.1) fields →
  unpack (fst <$> fields) (pack fields) = (λ f, f.2 `mod` 2 ^ f.1) <$> fields.
Proof.
  induction 1 as [|[w v] fields Hw Hfs IH]; [done|]. cbn [fmap list_fmap unpack pack fst snd] in *.
  assert (Hp : 0 < 2 ^ w) by (by apply Z.pow_pos_nonneg).
  pose proof (Z.mod_pos_bound v (2 ^ w) Hp) as Hv.
  rewrite (Z.mul_comm (2 ^ w) (pack fields)), Z.mod_add, Z.mod_mod by lia. f_equal.
  rewrite Z.div_add, Z.div_small by lia. by rewrite Z.add_0_l.
Qed.

Lemma pack_width fields :
  Forall (λ f, 0 ≤ f.1) fields → in_width (foldr Z.add 0 (fst <$> fields)) (pack fields) ∧
    0 ≤ foldr Z.add 0 (fst <$> fields).
Proof.
  induction 1 as [|[w v] fields Hw Hfs [IH Hn]]; [done|]. cbn [fmap list_fmap foldr pack fst snd] in *.
  assert (Hp : 0 < 2 ^ w) by (by apply Z.pow_pos_nonneg).
  pose proof (Z.mod_pos_bound v (2 ^ w) Hp) as Hv. unfold in_width in *. split; [|lia].
  rewrite Z.pow_add_r by lia. nia.
Qed.

(** ** Headers *)

Definition IT_SET_RESOURCES : Z := 0xA0.
Definition IT_MAP_PROCESS : Z := 0xA1.
Definition IT_MAP_QUEUES : Z := 0xA2.
Definition IT_UNMAP_QUEUES : Z := 0xA3.
Definition IT_QUERY_STATUS : Z := 0xA4.
Definition IT_RUN_LIST : Z := 0xA5.
Definition IT_WRITE_DATA : Z := 0x37.

(** [union PM4_MES_TYPE_3_HEADER]. *)
Definition header_layout : list Z := [8; 8; 14; 2].

Definition pm_build_pm4_header (opcode packet_size : Z) : Z :=
  pack (zip header_layout [0; opcode; u32 (packet_size / 4 - 2); PM4_TYPE_3]).

(** What the hardware makes of a header: the number of dwords that follow it.  A
    nop with all bits of the count set is one dword long. *)
Definition body_length (header : Z) : option nat :=
  match unpack header_layout header with
  | [_; opcode; count; type] =>
      if negb (type =? PM4_TYPE_3) then None
      else if (opcode =? IT_NOP) && (count =? 0x3fff) then Some O
      else Some (Z.to_nat (count + 1))
  | _ => None
  end.

(** The packets of a stream, nops left out. *)
Fixpoint parse_pm4 (fuel : nat) (stream : list Z) : option (list (list Z)) :=
  match fuel, stream with
  | _, [] => Some []
  | O, _ => None
  | S fuel, header :: rest =>
      n ← body_length header;
      if (length rest <? n)%nat then None
      else
        packets ← parse_pm4 fuel (drop n rest);
        Some (if header =? nop_u32all then packets else (header :: take n rest) :: packets)
  end.

(** A packet whose header announces its length, and that is no filler. *)
Definition well_formed (packet : list Z) : Prop :=
  match packet with
  | [] => False
  | header :: body => body_length header = Some (length body) ∧ header ≠ nop_u32all
  end.

Lemma well_formed_short packet : well_formed packet → Z.of_nat (length packet) ≤ 2 ^ 14 + 1.
Proof.
  destruct packet as [|header body]; [done|]. intros [Hl _]. unfold body_length in Hl.
  cbn [unpack header_layout] in Hl. destruct (negb _); [done|].
  destruct (_ && _); injection Hl as Hl; [simpl; lia|].
  pose proof (Z.mod_pos_bound (header / 2 ^ 8 / 2 ^ 8) (2 ^ 14) ltac:(done)). simpl length. lia.
Qed.

Lemma parse_nop fuel stream :
  parse_pm4 (S fuel) (nop_u32all :: stream) = parse_pm4 fuel stream.
Proof.
  cbn [parse_pm4]. change (body_length nop_u32all) with (Some 0%nat). cbn [mbind option_bind].
  rewrite drop_0, Z.eqb_refl. simpl. by destruct (parse_pm4 fuel stream).
Qed.

Lemma parse_packet fuel packet stream :
  well_formed packet →
  parse_pm4 (S fuel) (packet ++ stream) = (cons packet) <$> parse_pm4 fuel stream.
Proof.
  destruct packet as [|header body]; [done|]. intros [Hl Hn]. cbn [app parse_pm4]. rewrite Hl.
  cbn [mbind option_bind]. rewrite (proj2 (Nat.ltb_ge _ _)) by (rewrite length_app; lia).
  rewrite drop_app_length, take_app_length. rewrite (proj2 (Z.eqb_neq _ _)) by done.
  by destruct (parse_pm4 fuel stream).
Qed.

(** The reader recovers the packets whatever filler is between them. *)
Lemma parse_padded ms packets fuel :
  length ms = length packets → Forall well_formed packets →
  (length (concat (zip_with (padded nop_u32all) ms packets)) ≤ fuel)%nat →
  parse_pm4 fuel (concat (zip_with (padded nop_u32all) ms packets)) = Some packets.
Proof.
  revert packets fuel. induction ms as [|m ms IH]; intros [|packet packets] fuel Hl Hw Hf;
    try done; [by destruct fuel|].
  apply Forall_cons in Hw as [Hp Hw]. simpl in Hl, Hf. cbn [zip_with concat].
  unfold padded at 1. unfold padded at 1 in Hf. rewrite !length_app, length_replicate in Hf.
  revert fuel Hf. induction m as [|m IHm]; intros fuel Hf.
  - cbn [replicate app]. destruct packet as [|header body] eqn:E; [done|]. rewrite <- E in *.
    destruct fuel as [|fuel]; [rewrite E in Hf; simpl in Hf; lia|]. rewrite parse_packet by done.
    rewrite IH; [done|lia|done|]. rewrite E in Hf. simpl in Hf. lia.
  - destruct fuel as [|fuel]; [lia|]. cbn [replicate app]. rewrite parse_nop. apply IHm. lia.
Qed.

Lemma padded_none (packets : list (list Z)) :
  concat (zip_with (padded nop_u32all) (replicate (length packets) 0%nat) packets) = concat packets.
Proof. induction packets as [|p l IH]; [done|]. simpl. by rewrite IH. Qed.

Lemma parse_concat packets :
  Forall well_formed packets →
  parse_pm4 (length (concat packets)) (concat packets) = Some packets.
Proof.
  intros Hw. rewrite <- padded_none at 2. apply parse_padded; [by rewrite length_replicate|done|].
  by rewrite padded_none.
Qed.

(** ** The packets of [kfd_packet_manager_v9.c] *)

Definition lower_32_bits (x : Z) : Z := u32 x.
Definition upper_32_bits (x : Z) : Z := u32 (Z.shiftr x 32).

(** What the packets say of a process besides its [qpd]. *)
Record process_desc := mk_process_desc {
  pr_qpd : qcm_process_device;
  pr_pasid : Z;
  gds_size : Z;
  qpd_num_gws : Z;
  num_oac : Z;
  sh_mem_config : Z;
  sh_mem_bases : Z;
  gds_context_area : Z;
  runtime_enabled : bool;          (* runtime_state is DEBUG_RUNTIME_STATE_ENABLED *)
}.

(** Constants of the device; the members of [struct queue] only packets use; and
    [build_grace_period_packet_info] of the graphics driver. *)
Record pm_env := mk_pm_env {
  trap_debug_vmid : Z;
  max_proc_per_quantum : Z;
  pm_use_ext_eng : bool;
  SQ_SHADER_TBA_HI__TRAP_EN__SHIFT : Z;
  queue_preemption_timeout_ms : Z;
  gart_mqd_addr : queue → Z;
  write_ptr : queue → Z;
  wait_times : Z;
  build_grace_period : Z → Z → Z * Z;
}.

Record scheduling_resources := mk_resources {
  vmid_mask : Z; queue_mask : Z; gws_mask : Z; oac_mask : Z;
  gds_heap_base : Z; gds_heap_size : Z }.

Section Packets.
Context (pe : pm_env).

Definition pm_map_process_v9 (p : process_desc) : Z * list Z :=
  let q := pr_qpd p in
  let debug := nz (trap_debug_vmid pe) && debug_trap_enabled q && runtime_enabled p in
  let tba := Z.shiftr (tba_addr q) 8 in
  let tma := Z.shiftr (tma_addr q) 8 in
  let trap := nz (tba_addr q) in
  (0,
   [pm_build_pm4_header IT_MAP_PROCESS 64;
    pack [(16, pr_pasid p); (2, 0); (4, if debug then trap_debug_vmid pe else 0);
          (1, b2z debug); (1, 0); (1, b2z (is_debug q)); (7, 10)];
    lower_32_bits (page_table_base q); upper_32_bits (page_table_base q);
    u32 (sh_mem_bases p); u32 (sh_mem_config p);
    if trap then lower_32_bits tba else 0;
    if trap then u32 (Z.lor (upper_32_bits tba) (Z.shiftl 1 (SQ_SHADER_TBA_HI__TRAP_EN__SHIFT pe))) else 0;
    if trap then lower_32_bits tma else 0;
    if trap then upper_32_bits tma else 0;
    0;
    lower_32_bits (gds_context_area p); upper_32_bits (gds_context_area p);
    pack [(7, if mapped_gws_queue q then qpd_num_gws p else 0); (1, 1); (4, num_oac p);
          (4, Z.land (Z.shiftr (gds_size p) 6) 0xF); (6, Z.land (gds_size p) 0x3F);
          (10, if is_debug q then 0 else queue_count q)];
    0; 0]).

Definition pm_runlist_v9 (processes_count ib ib_size_in_dwords : Z) (chain : bool) : Z * list Z :=
  let concurrent_proc_cnt := Z.min processes_count (max_proc_per_quantum pe) in
  (0,
   [pm_build_pm4_header IT_RUN_LIST 16;
    lower_32_bits ib; upper_32_bits ib;
    pack [(20, ib_size_in_dwords); (1, b2z chain); (1, 0); (1, b2z chain); (1, 1);
          (4, concurrent_proc_cnt); (4, 0)]]).

Definition KFD_UNMAP_LATENCY_MS : Z :=
  Z.shiftr (queue_preemption_timeout_ms pe - queue_preemption_timeout_ms pe `quot` 10) 1.

Definition pm_set_resources_v9 (r : scheduling_resources) : Z * list Z :=
  (0,
   [pm_build_pm4_header IT_SET_RESOURCES 32;
    pack [(16, vmid_mask r); (8, KFD_UNMAP_LATENCY_MS `quot` 100); (5, 0); (3, 1)];
    lower_32_bits (queue_mask r); upper_32_bits (queue_mask r);
    lower_32_bits (gws_mask r); upper_32_bits (gws_mask r);
    pack [(16, oac_mask r); (16, 0)];
    pack [(10, gds_heap_base r); (1, 0); (10, gds_heap_size r); (11, 0)]]).

(** [extended_engine_sel], [queue_type] and [engine_sel] of [pm_map_queues_v9]. *)
Definition map_queues_sel (q : queue) (is_static : bool) : Z * Z * Z :=
  match type (properties q) with
  | KFD_QUEUE_TYPE_DIQ => (0, 1, 0)
  | KFD_QUEUE_TYPE_SDMA | KFD_QUEUE_TYPE_SDMA_XGMI =>
      let id := sdma_engine_id (properties q) in
      if (id <? 2) && negb (pm_use_ext_eng pe) then (0, 0, id + 2)
      else (if 8 <=? id then 2 else 1, 0, id `mod` 8)
  | _ => (0, if is_static then 2 else 0, 0)
  end.

(** The buffer of a failed construction holds what was written so far. *)
Definition pm_map_queues_v9 (q : queue) (is_static : bool) : Z * list Z :=
  let '(ext, queue_type, engine_sel) := map_queues_sel q is_static in
  let bitfields2 :=
    pack [(2, 0); (2, ext); (2, 1); (6, 0); (1, b2z (is_gws (properties q))); (8, 0);
          (3, queue_type); (2, 0); (3, engine_sel); (3, 1)] in
  if is_type (type (properties q)) KFD_QUEUE_TYPE_HIQ
  then (-EINVAL,
        [pm_build_pm4_header IT_MAP_QUEUES 28;
         pack [(2, 0); (2, 0); (2, 1); (6, 0); (1, b2z (is_gws (properties q))); (8, 0);
               (3, 0); (2, 0); (3, 0); (3, 1)]; 0; 0; 0; 0; 0])
  else
    (0,
     [pm_build_pm4_header IT_MAP_QUEUES 28; bitfields2;
      pack [(1, 0); (1, 0); (26, doorbell_off (properties q)); (4, 0)];
      lower_32_bits (gart_mqd_addr pe q); upper_32_bits (gart_mqd_addr pe q);
      lower_32_bits (write_ptr pe q); upper_32_bits (write_ptr pe q)]).

(** The filters are those of [unmap_queues_cpsch]. *)
Definition pm_unmap_queues_v9 (filter filter_param : Z) (reset : bool) : Z * list Z :=
  let bitfields2 queue_sel :=
    pack [(2, b2z reset); (2, b2z (pm_use_ext_eng pe)); (2, queue_sel); (20, 0); (3, 0); (3, 0)] in
  let packet queue_sel pasid :=
    [pm_build_pm4_header IT_UNMAP_QUEUES 24; bitfields2 queue_sel; pack [(16, pasid); (16, 0)];
     0; 0; 0] in
  if filter =? KFD_UNMAP_QUEUES_FILTER_BY_PASID then (0, packet 1 filter_param)
  else if filter =? KFD_UNMAP_QUEUES_FILTER_ALL_QUEUES then (0, packet 2 0)
  else if filter =? KFD_UNMAP_QUEUES_FILTER_DYNAMIC_QUEUES then (0, packet 3 0)
  else (-EINVAL, packet 0 0).

Definition pm_query_status_v9 (fence_address fence_value : Z) : Z * list Z :=
  (0,
   [pm_build_pm4_header IT_QUERY_STATUS 28;
    pack [(28, 0); (2, 0); (2, 2)]; 0;
    lower_32_bits fence_address; upper_32_bits fence_address;
    lower_32_bits fence_value; upper_32_bits fence_value]).

Definition pm_set_grace_period_v9 (grace_period : Z) : Z * list Z :=
  let '(reg_offset, reg_data) := build_grace_period pe (wait_times pe) grace_period in
  let reg_data := if grace_period =? USE_DEFAULT_GRACE_PERIOD then wait_times pe else reg_data in
  (0,
   [pm_build_pm4_header IT_WRITE_DATA 20;
    pack [(8, 0); (4, 0); (4, 0); (1, 1); (2, 0); (1, 0); (1, 0); (4, 0); (2, 0); (5, 0)];
    pack [(18, reg_offset); (14, 0)]; 0; u32 reg_data]).

(** ** The function table *)

Record packet_manager_funcs := mk_pmf {
  pmf_map_process : process_desc → Z * list Z;
  pmf_runlist : Z → Z → Z → bool → Z * list Z;
  pmf_set_resources : scheduling_resources → Z * list Z;
  pmf_map_queues : queue → bool → Z * list Z;
  pmf_unmap_queues : Z → Z → bool → Z * list Z;
  pmf_set_grace_period : Z → Z * list Z;
  pmf_query_status : Z → Z → Z * list Z;
  map_process_size : Z;
  runlist_size : Z;
  set_resources_size : Z;
  map_queues_size : Z;
  unmap_queues_size : Z;
  set_grace_period_size : Z;
  query_status_size : Z;
}.

Definition kfd_v9_pm_funcs : packet_manager_funcs := {|
  pmf_map_process := pm_map_process_v9;
  pmf_runlist := pm_runlist_v9;
  pmf_set_resources := pm_set_resources_v9;
  pmf_map_queues := pm_map_queues_v9;
  pmf_unmap_queues := pm_unmap_queues_v9;
  pmf_set_grace_period := pm_set_grace_period_v9;
  pmf_query_status := pm_query_status_v9;
  map_process_size := 64;
  runlist_size := 16;
  set_resources_size := 32;
  map_queues_size := 28;
  unmap_queues_size := 24;
  set_grace_period_size := 20;
  query_status_size := 28;
|}.

End Packets.

(** What the packet manager relies on: a builder fills exactly its size with one
    packet, and fails only for the queues and filters named. *)
Definition packet_of (size : Z) (r : Z * list Z) : Prop :=
  well_formed r.2 ∧ 4 * Z.of_nat (length r.2) = size.

Class PacketFuncs (f : packet_manager_funcs) := {
  map_process_law p : packet_of (map_process_size f) (pmf_map_process f p) ∧ (pmf_map_process f p).1 = 0;
  runlist_law n ib size chain :
    packet_of (runlist_size f) (pmf_runlist f n ib size chain) ∧ (pmf_runlist f n ib size chain).1 = 0;
  set_resources_law r :
    packet_of (set_resources_size f) (pmf_set_resources f r) ∧ (pmf_set_resources f r).1 = 0;
  map_queues_law q s :
    packet_of (map_queues_size f) (pmf_map_queues f q s) ∧
    (type (properties q) ≠ KFD_QUEUE_TYPE_HIQ → (pmf_map_queues f q s).1 = 0);
  unmap_queues_law filter x reset :
    packet_of (unmap_queues_size f) (pmf_unmap_queues f filter x reset);
  grace_period_law g :
    set_grace_period_size f ≠ 0 → packet_of (set_grace_period_size f) (pmf_set_grace_period f g);
  query_status_law a v :
    packet_of (query_status_size f) (pmf_query_status f a v) ∧ (pmf_query_status f a v).1 = 0;
}.

(** The headers of the packets announce their lengths. *)
Ltac packet := split; [split; [reflexivity|vm_compute; discriminate]|reflexivity].

#[export] Instance v9_packets pe : PacketFuncs (kfd_v9_pm_funcs pe).
Proof.
  split.
  - intros p. split; [packet|done].
  - intros n ib size chain. split; [packet|done].
  - intros r. split; [packet|done].
  - intros q s. cbn [kfd_v9_pm_funcs pmf_map_queues map_queues_size]. unfold pm_map_queues_v9.
    destruct (map_queues_sel pe q s) as [[??]?].
    destruct (is_type _ _) eqn:E; (split; [packet|]); [|done].
    unfold is_type in E. by apply bool_decide_eq_true in E.
  - intros filter x reset. cbn [kfd_v9_pm_funcs pmf_unmap_queues]. unfold pm_unmap_queues_v9.
    repeat destruct (_ =? _); packet.
  - intros g _. cbn [kfd_v9_pm_funcs pmf_set_grace_period]. unfold pm_set_grace_period_v9.
    destruct (build_grace_period _ _ _); packet.
  - intros a v. split; [packet|done].
Defined.
