(* ===== verification/PacketManager.v ===== *)
(** * Packet manager

    [kfd_packet_manager.c]: the run list, an indirect buffer with the packets of
    all processes and their queues, and the packets sent through the HIQ.  The
    buffer of the run list comes from the sub-allocator; a write outside of it
    is the outcome [None]. *)

From S2P Require Import Prelude GttSa DqmState DqmOps DqmCounts Doorbell KernelQueue Pm4.
Import GttSa.

Abbreviation dqm := device_queue_manager.

Record packet_manager := mk_pm {
  priv_queue : kernel_queue;
  allocated : bool;
  ib_buffer_obj : option kfd_mem_obj;
  ib_size_bytes : Z;
  is_over_subscription : bool;
  ib_contents : list Z;            (* the dwords of the buffer *)
  pm_gtt : kfd_dev;
}.
#[export] Instance eta_pm : Eta packet_manager := λ p,
  mk_pm (priv_queue p) (allocated p) (ib_buffer_obj p) (ib_size_bytes p) (is_over_subscription p)
    (ib_contents p) (pm_gtt p).

Section PacketManager.
Context (e : dev_env) (pe : pm_env) (f : packet_manager_funcs).

(** ** The run list *)

Definition inc_wptr (wptr increment_bytes : Z) : Z := u32 (wptr + increment_bytes / 4).

(** Size of the buffer and oversubscription. *)
Definition pm_calc_rlib_size (d : dqm) : Z * bool :=
  let max_proc := if 1 <? max_proc_per_quantum pe then max_proc_per_quantum pe else 1 in
  let over_subscription :=
    (max_proc <? processes_count d) || (get_cp_queues_num e <? active_cp_queue_count d)
    || (1 <? gws_queue_count d) in
  let rlib_size := u32 (processes_count d * map_process_size f + active_queue_count d * map_queues_size f) in
  (if over_subscription then u32 (rlib_size + runlist_size f) else rlib_size, over_subscription).

(** The code, and on success the size and oversubscription. *)
Definition pm_allocate_runlist_ib (kzalloc : bool) (pm : packet_manager) (d : dqm)
    : option (Z * packet_manager * Z * bool) :=
  if allocated pm then Some (-EINVAL, pm, 0, false)
  else
    let '(size, over) := pm_calc_rlib_size d in
    '(r, g, m) ← kfd_gtt_sa_allocate kzalloc (pm_gtt pm) size;
    if nz r then Some (r, pm <| pm_gtt := g |>, size, over)
    else Some (0, pm <| pm_gtt := g |> <| ib_buffer_obj := m |> <| allocated := true |>
                     <| ib_contents := replicate (Z.to_nat (size / 4)) 0 |>, size, over).

Definition pm_release_ib (pm : packet_manager) : packet_manager :=
  if allocated pm then
    pm <| pm_gtt ::= λ g, (kfd_gtt_sa_free g (ib_buffer_obj pm)).2 |> <| allocated := false |>
  else pm.

(** A packet is built at [&rl_buffer[rl_wptr]]. *)
Definition write_ib (buf : list Z) (rl_wptr : Z) (packet : list Z) : option (list Z) :=
  if rl_wptr + Z.of_nat (length packet) <=? Z.of_nat (length buf)
  then Some (list_inserts (Z.to_nat rl_wptr) packet buf) else None.

(** The two inner loops: the active queues of a list are mapped.  An error of the
    builder leaves the loop. *)
Fixpoint map_queue_list (l : list queue) (is_debug : bool) (buf : list Z) (rl_wptr : Z)
    : option (Z * list Z * Z) :=
  match l with
  | [] => Some (0, buf, rl_wptr)
  | q :: l =>
      if negb (is_active (properties q)) then map_queue_list l is_debug buf rl_wptr
      else
        let '(retval, packet) := pmf_map_queues f q is_debug in
        buf ← write_ib buf rl_wptr packet;
        if nz retval then Some (retval, buf, rl_wptr)
        else map_queue_list l is_debug buf (inc_wptr rl_wptr (map_queues_size f))
  end.

(** The loop over the processes; the flag tells that the limit was met. *)
Fixpoint map_process_list (l : list process_desc) (processes_count processes_mapped : Z)
    (buf : list Z) (rl_wptr : Z) : option (bool * Z * list Z * Z) :=
  match l with
  | [] => Some (false, 0, buf, rl_wptr)
  | p :: l =>
      if processes_count <=? processes_mapped then Some (true, -ENOMEM, buf, rl_wptr)
      else
        let '(retval, packet) := pmf_map_process f p in
        buf ← write_ib buf rl_wptr packet;
        if nz retval then Some (false, retval, buf, rl_wptr)
        else
          let rl_wptr := inc_wptr rl_wptr (map_process_size f) in
          '(retval, buf, rl_wptr) ←
            map_queue_list (priv_queue_list (pr_qpd p)) (is_debug (pr_qpd p)) buf rl_wptr;
          if nz retval then Some (false, retval, buf, rl_wptr)
          else
            '(retval, buf, rl_wptr) ←
              map_queue_list (queues_list (pr_qpd p)) (is_debug (pr_qpd p)) buf rl_wptr;
            if nz retval then Some (false, retval, buf, rl_wptr)
            else map_process_list l processes_count (processes_mapped + 1) buf rl_wptr
  end.

Definition ib_gpu_addr (pm : packet_manager) : Z :=
  match ib_buffer_obj pm with Some m => gpu_addr m | None => 0 end.

(** [procs] are the processes of [dqm->queues].  The code and the size. *)
Definition pm_create_runlist_ib (kzalloc : bool) (pm : packet_manager) (d : dqm)
    (procs : list process_desc) : option (Z * packet_manager * Z) :=
  '(retval, pm, size, over) ← pm_allocate_runlist_ib kzalloc pm d;
  if nz retval then Some (retval, pm, 0)
  else
    let pm := pm <| ib_size_bytes := size |> in
    '(limit, retval, buf, rl_wptr) ← map_process_list procs (processes_count d) 0 (ib_contents pm) 0;
    let pm := pm <| ib_contents := buf |> in
    if (limit : bool) then Some (retval, pm_release_ib pm, size)
    else if nz retval then Some (retval, pm, size)
    else
      '(retval, buf) ←
        (if over then
           let '(r, packet) := pmf_runlist f (processes_count d) (ib_gpu_addr pm) (size / 4) true in
           buf ← write_ib buf rl_wptr packet; Some (r, buf)
         else Some (retval, buf));
      Some (retval, pm <| ib_contents := buf |> <| is_over_subscription := over |>, size).

(** ** Packets sent through the HIQ *)

(** The common body of [pm_send_set_resources], [pm_send_query_status],
    [pm_update_grace_period] and [pm_send_unmap_queue]. *)
Definition pm_send (pm : packet_manager) (size : Z) (built : Z * list Z)
    : option (Z * packet_manager) :=
  '(r, i, k) ← kq_acquire_packet_buffer (priv_queue pm) (size / 4);
  if nz r then Some (-ENOMEM, pm)
  else
    k ← write_packet k i built.2;
    Some (built.1, pm <| priv_queue := if nz built.1 then kq_rollback_packet e k
                                       else kq_submit_packet e k |>).

Definition pm_send_set_resources (pm : packet_manager) (res : scheduling_resources) :=
  pm_send pm (set_resources_size f) (pmf_set_resources f res).
Definition pm_send_query_status (pm : packet_manager) (fence_address fence_value : Z) :=
  if fence_address =? 0 then Some (-EFAULT, pm)
  else pm_send pm (query_status_size f) (pmf_query_status f fence_address fence_value).
Definition pm_update_grace_period (pm : packet_manager) (grace_period : Z) :=
  if nz (set_grace_period_size f)
  then pm_send pm (set_grace_period_size f) (pmf_set_grace_period f grace_period)
  else Some (0, pm).
Definition pm_send_unmap_queue (pm : packet_manager) (filter filter_param : Z) (reset : bool) :=
  pm_send pm (unmap_queues_size f) (pmf_unmap_queues f filter filter_param reset).

Definition pm_send_runlist (kzalloc : bool) (pm : packet_manager) (d : dqm)
    (procs : list process_desc) : option (Z * packet_manager) :=
  '(retval, pm, size) ← pm_create_runlist_ib kzalloc pm d procs;
  if nz retval then Some (retval, pm_release_ib pm)
  else
    '(retval, pm) ← pm_send pm (runlist_size f)
        (pmf_runlist f (processes_count d) (ib_gpu_addr pm) (size / 4) false);
    Some (retval, if nz retval then pm_release_ib pm else pm).

(** [pm_init] for a chip whose table is [f]; the result of [kernel_queue_init] is
    given. *)
Definition pm_init (known_chip : bool) (kq : option kernel_queue) (g : kfd_dev)
    : Z * option packet_manager :=
  if negb known_chip then (-EINVAL, None)
  else match kq with
       | None => (-ENOMEM, None)
       | Some k => (0, Some (mk_pm k false None 0 false [] g))
       end.


(** ** What the run list says *)

Context {laws : PacketFuncs f}.

Definition queue_packets (l : list queue) (is_debug : bool) : list (list Z) :=
  (λ q, (pmf_map_queues f q is_debug).2) <$> filter (λ q, is_active (properties q) = true) l.

(** The packets of a process: the process, its kernel queues, its user queues. *)
Definition process_packets (p : process_desc) : list (list Z) :=
  (pmf_map_process f p).2 :: queue_packets (priv_queue_list (pr_qpd p)) (is_debug (pr_qpd p))
  ++ queue_packets (queues_list (pr_qpd p)) (is_debug (pr_qpd p)).

Definition active_queues (p : process_desc) : Z :=
  count qactive (priv_queue_list (pr_qpd p)) + count qactive (queues_list (pr_qpd p)).
Definition total_active (procs : list process_desc) : Z := foldr (λ p n, active_queues p + n) 0 procs.

Definition no_hiq (p : process_desc) : Prop :=
  Forall (λ q, type (properties q) ≠ KFD_QUEUE_TYPE_HIQ)
    (priv_queue_list (pr_qpd p) ++ queues_list (pr_qpd p)).

Definition dwords (l : list (list Z)) : Z := Z.of_nat (length (concat l)).

(** Sizes of packets, in dwords. *)
Definition map_process_dwords : Z := map_process_size f / 4.
Definition map_queues_dwords : Z := map_queues_size f / 4.

Lemma packet_dwords size (r : Z * list Z) : packet_of size r → size / 4 = Z.of_nat (length (snd r)) ∧ size = 4 * (size / 4).
Proof. intros [_ <-]. rewrite Z.mul_comm, Z.div_mul by done. lia. Qed.

Lemma dwords_app l1 l2 : dwords (l1 ++ l2) = dwords l1 + dwords l2.
Proof. unfold dwords. rewrite concat_app, length_app. lia. Qed.

Lemma dwords_cons x l : dwords (x :: l) = Z.of_nat (length x) + dwords l.
Proof. unfold dwords. simpl. rewrite length_app. lia. Qed.

Lemma queue_packets_dwords l dbg : dwords (queue_packets l dbg) = map_queues_dwords * count qactive l.
Proof.
  induction l as [|q l IH]; [unfold dwords; simpl; lia|]. unfold queue_packets.
  rewrite filter_cons. cbn [count foldr]. unfold qactive at 1.
  destruct (map_queues_law q dbg) as [[_ Hl] _].
  destruct (is_active (properties q)) eqn:E; cbn [b2z].
  - rewrite decide_True by done. cbn [fmap list_fmap]. rewrite dwords_cons. fold (queue_packets l dbg).
    rewrite IH. unfold map_queues_dwords. rewrite <- Hl, (Z.mul_comm 4), Z.div_mul by done. unfold count. lia.
  - rewrite decide_False by congruence. fold (queue_packets l dbg). rewrite IH. unfold count. lia.
Qed.

Lemma process_packets_dwords p :
  dwords (process_packets p) = map_process_dwords + map_queues_dwords * active_queues p.
Proof.
  unfold process_packets. rewrite dwords_cons, dwords_app, !queue_packets_dwords.
  destruct (map_process_law p) as [H _]. apply packet_dwords in H as [<- _].
  unfold active_queues, map_process_dwords. lia.
Qed.

Lemma runlist_dwords procs :
  dwords (procs ≫= process_packets)
  = map_process_dwords * Z.of_nat (length procs) + map_queues_dwords * total_active procs.
Proof.
  induction procs as [|p procs IH]; [unfold dwords; simpl; lia|].
  rewrite bind_cons, dwords_app, IH, process_packets_dwords. cbn [length total_active foldr].
  fold (total_active procs). lia.
Qed.

(** ** Building it *)

Lemma write_ib_spec pre m packet :
  (length packet ≤ m)%nat →
  write_ib (pre ++ replicate m 0) (Z.of_nat (length pre)) packet =
  Some ((pre ++ packet) ++ replicate (m - length packet) 0).
Proof.
  intros Hm. unfold write_ib. rewrite length_app, length_replicate.
  rewrite (proj2 (Z.leb_le _ _)) by lia. f_equal. rewrite Nat2Z.id, <- (assoc_L (++)).
  rewrite <- (Nat.add_0_r (length pre)), list_inserts_app_r. f_equal.
  replace m with (length packet + (m - length packet))%nat at 1 by lia.
  rewrite replicate_add. apply list_inserts_0_r. by rewrite length_replicate.
Qed.

Lemma inc_wptr_spec (pre packet : list Z) size :
  size / 4 = Z.of_nat (length packet) → Z.of_nat (length (pre ++ packet)) < 2 ^ 32 →
  inc_wptr (Z.of_nat (length pre)) size = Z.of_nat (length (pre ++ packet)).
Proof.
  intros Hs Hw. unfold inc_wptr. rewrite Hs. rewrite length_app in *.
  rewrite wrap_small by (unfold in_width; lia). lia.
Qed.

Lemma map_queue_list_spec l dbg pre m :
  Forall (λ q, type (properties q) ≠ KFD_QUEUE_TYPE_HIQ) l →
  dwords (queue_packets l dbg) ≤ Z.of_nat m → Z.of_nat (length pre + m) < 2 ^ 32 →
  map_queue_list l dbg (pre ++ replicate m 0) (Z.of_nat (length pre)) =
  let out := pre ++ concat (queue_packets l dbg) in
  Some (0, out ++ replicate (length pre + m - length out) 0, Z.of_nat (length out)).
Proof.
  revert pre m. induction l as [|q l IH]; intros pre m Hl Hm Hw; cbn [map_queue_list].
  - cbv zeta. simpl. rewrite app_nil_r. by replace (length pre + m - length pre)%nat with m by lia.
  - apply Forall_cons in Hl as [Hq Hl]. destruct (map_queues_law q dbg) as [Hp Hr].
    specialize (Hr Hq). apply packet_dwords in Hp as [Hp _].
    unfold queue_packets in *. rewrite filter_cons in *.
    destruct (is_active (properties q)) eqn:E; cbn [negb].
    2:{ rewrite decide_False in * by congruence. by apply IH. }
    rewrite decide_True in * by done. cbn [fmap list_fmap concat] in *.
    destruct (pmf_map_queues f q dbg) as [r packet]. cbn [fst snd] in *. subst r.
    rewrite dwords_cons in Hm.
    assert (Hd : 0 ≤ dwords (queue_packets l dbg)) by (unfold dwords; lia).
    unfold queue_packets in Hd. rewrite write_ib_spec by lia. cbn [mbind option_bind].
    change (nz 0) with false. cbv iota.
    rewrite (inc_wptr_spec pre packet) by (try done; rewrite length_app; lia).
    rewrite IH; [|done|lia|rewrite length_app; lia]. cbv zeta.
    rewrite <- !(assoc_L (++)).
    match goal with |- Some (_, _ ++ _ ++ _ ++ replicate ?a _, _) = Some (_, _ ++ _ ++ _ ++ replicate ?b _, _) =>
      replace a with b by (rewrite !length_app; lia) end. done.
Qed.

Lemma map_process_list_spec l pc mapped pre m :
  Forall no_hiq l → mapped + Z.of_nat (length l) ≤ pc →
  dwords (l ≫= process_packets) ≤ Z.of_nat m → Z.of_nat (length pre + m) < 2 ^ 32 →
  map_process_list l pc mapped (pre ++ replicate m 0) (Z.of_nat (length pre)) =
  let out := pre ++ concat (l ≫= process_packets) in
  Some (false, 0, out ++ replicate (length pre + m - length out) 0, Z.of_nat (length out)).
Proof.
  revert mapped pre m. induction l as [|p l IH]; intros mapped pre m Hl Hpc Hm Hw;
    cbn [map_process_list].
  - cbv zeta. simpl. rewrite app_nil_r. by replace (length pre + m - length pre)%nat with m by lia.
  - apply Forall_cons in Hl as [Hp Hl]. unfold no_hiq in Hp. apply Forall_app in Hp as [Hk Hu].
    cbn [length] in Hpc. rewrite (proj2 (Z.leb_gt _ _)) by lia.
    rewrite bind_cons, dwords_app in Hm. rewrite bind_cons, concat_app.
    unfold process_packets in *. rewrite dwords_cons, dwords_app in Hm. cbn [concat].
    destruct (map_process_law p) as [Hpk Hr]. apply packet_dwords in Hpk as [Hpk _].
    destruct (pmf_map_process f p) as [r packet]. cbn [fst snd] in *. subst r.
    set (A := queue_packets (priv_queue_list (pr_qpd p)) _) in *.
    set (B := queue_packets (queues_list (pr_qpd p)) _) in *.
    assert (0 ≤ dwords A ∧ 0 ≤ dwords B ∧ 0 ≤ dwords (l ≫= process_packets)) as (HA & HB & HC)
      by (unfold dwords; lia).
    unfold process_packets in HC. fold (dwords A) in *.
    rewrite write_ib_spec by lia. cbn [mbind option_bind]. change (nz 0) with false. cbv iota.
    rewrite (inc_wptr_spec pre packet) by (try done; rewrite length_app; lia).
    rewrite map_queue_list_spec; [|done|fold A; lia|rewrite length_app; lia]. fold A. cbv zeta.
    cbn [mbind option_bind]. change (nz 0) with false. cbv iota.
    assert (EA : Z.of_nat (length (concat A)) = dwords A) by done.
    assert (EB : Z.of_nat (length (concat B)) = dwords B) by done.
    rewrite map_queue_list_spec; [|done|fold B; rewrite !length_app; lia|rewrite !length_app; lia].
    fold B. cbv zeta. cbn [mbind option_bind]. change (nz 0) with false. cbv iota.
    rewrite IH; [|done|lia|rewrite !length_app; lia|rewrite !length_app; lia]. cbv zeta.
    rewrite concat_app, <- !(assoc_L (++)).
    match goal with |- Some (_, _ ++ _ ++ _ ++ _ ++ _ ++ replicate ?a _, _)
        = Some (_, _ ++ _ ++ _ ++ _ ++ _ ++ replicate ?b _, _) =>
      replace a with b by (rewrite !length_app; lia) end. done.
Qed.

Lemma queue_packets_well_formed l dbg : Forall well_formed (queue_packets l dbg).
Proof.
  apply Forall_fmap, Forall_forall. intros q _. by destruct (map_queues_law q dbg) as [[? _] _].
Qed.

Lemma runlist_well_formed procs : Forall well_formed (procs ≫= process_packets).
Proof.
  induction procs as [|p procs IH]; [constructor|]. rewrite bind_cons. apply Forall_app. split; [|done].
  constructor; [by destruct (map_process_law p) as [[? _] _]|].
  apply Forall_app. split; apply queue_packets_well_formed.
Qed.

(** The packet that chains an oversubscribed run list to itself. *)
Definition chain_packets (pm : packet_manager) (d : dqm) : list (list Z) :=
  let '(size, over) := pm_calc_rlib_size d in
  if over then [(pmf_runlist f (processes_count d) (ib_gpu_addr pm) (size / 4) true).2] else [].

Lemma sizes_positive :
  0 ≤ map_process_dwords ∧ 0 ≤ map_queues_dwords ∧ 0 ≤ runlist_size f ∧
  map_process_size f = 4 * map_process_dwords ∧ map_queues_size f = 4 * map_queues_dwords ∧
  runlist_size f = 4 * (runlist_size f / 4).
Proof.
  destruct (map_process_law (mk_process_desc (mk_qpd [] [] 0 0 false 0 false false 0 0 0 0 false 0 0 false)
    0 0 0 0 0 0 0 false)) as [H1 _].
  destruct (map_queues_law (mk_queue 0 (mk_props KFD_QUEUE_TYPE_HIQ 0 0 0 0 0 false false false false false
    false 0 0 0 0 0 0) 0 0 0 0 false 0) false) as [H2 _].
  destruct (runlist_law 0 0 0 false) as [H3 _].
  apply packet_dwords in H1 as [H1 H1'], H2 as [H2 H2'], H3 as [H3 H3'].
  unfold map_process_dwords, map_queues_dwords. lia.
Qed.

(** The size computed from the counters is that of the packets. *)
Lemma rlib_size_exact d procs pm :
  processes_count d = Z.of_nat (length procs) → active_queue_count d = total_active procs →
  4 * dwords (procs ≫= process_packets) + runlist_size f < 2 ^ 32 →
  (pm_calc_rlib_size d).1 = 4 * dwords ((procs ≫= process_packets) ++ chain_packets pm d).
Proof.
  intros Hp Ha Hw. destruct sizes_positive as (P1 & P2 & P3 & P4 & P5 & P6).
  rewrite dwords_app, runlist_dwords in *. unfold chain_packets, pm_calc_rlib_size in *.
  set (over := _ || _). rewrite Hp, Ha, P4, P5.
  assert (0 ≤ total_active procs).
  { clear. induction procs as [|p l IH]; [done|]. cbn [total_active foldr]. fold (total_active l).
    unfold active_queues. pose proof (count_nonneg qactive (priv_queue_list (pr_qpd p))).
    pose proof (count_nonneg qactive (queues_list (pr_qpd p))). lia. }
  set (x := map_process_dwords * Z.of_nat (length procs) + map_queues_dwords * total_active procs) in *.
  assert (0 ≤ x) by nia.
  replace (Z.of_nat (length procs) * (4 * map_process_dwords) + total_active procs * (4 * map_queues_dwords))
    with (4 * x) by lia.
  rewrite (wrap_small 32 (4 * x)) by (unfold in_width; lia). destruct over; cbn [fst].
  - rewrite wrap_small by (unfold in_width; lia). rewrite dwords_cons.
    destruct (runlist_law (processes_count d) (ib_gpu_addr pm) (u32 (4 * x + runlist_size f) / 4) true) as [H3 _].
    rewrite (wrap_small 32 (4 * x + runlist_size f)) in H3 by (unfold in_width; lia).
    apply packet_dwords in H3 as [H3 _]. rewrite Hp in H3.
    change (dwords []) with 0. lia.
  - change (dwords []) with 0. lia.
Qed.

(** What follows for the buffer, whatever its address. *)
Lemma rlib_size_facts d procs size over pm :
  processes_count d = Z.of_nat (length procs) → active_queue_count d = total_active procs →
  4 * dwords (procs ≫= process_packets) + runlist_size f < 2 ^ 32 → pm_calc_rlib_size d = (size, over) →
  0 ≤ size < 2 ^ 32 ∧ size = 4 * (size / 4) ∧ 0 ≤ dwords (procs ≫= process_packets) ∧ 0 ≤ dwords (chain_packets pm d)
  ∧ size / 4 = dwords (procs ≫= process_packets) + dwords (chain_packets pm d).
Proof.
  intros Hp Ha Hw Ec. pose proof (rlib_size_exact d procs pm Hp Ha Hw) as Hexact. rewrite Ec in Hexact.
  cbn [fst] in Hexact. pose proof sizes_positive as (_ & _ & P3 & _).
  assert (Hchain : 0 ≤ dwords (chain_packets pm d) ∧ 4 * dwords (chain_packets pm d) ≤ runlist_size f).
  { unfold chain_packets. rewrite Ec. destruct over; [|by change (dwords []) with 0].
    rewrite dwords_cons. change (dwords []) with 0.
    destruct (runlist_law (processes_count d) (ib_gpu_addr pm) (size / 4) true) as [[_ H] _]. lia. }
  assert (Hb : 0 ≤ dwords (procs ≫= process_packets)) by (unfold dwords; lia).
  assert (Hd : size / 4 = dwords (procs ≫= process_packets) + dwords (chain_packets pm d)).
  { rewrite Hexact, dwords_app, Z.mul_comm. by apply Z.div_mul. }
  rewrite dwords_app in Hexact. split_and!; lia.
Qed.

Lemma allocate_runlist_ib_spec kzalloc pm d size over :
  wf (pm_gtt pm) → allocated pm = false → pm_calc_rlib_size d = (size, over) → 0 ≤ size < 2 ^ 32 →
  (∃ r, nz r = true ∧ pm_allocate_runlist_ib kzalloc pm d = Some (r, pm, size, over)) ∨
  (∃ pm', pm_allocate_runlist_ib kzalloc pm d = Some (0, pm', size, over) ∧
     ib_contents pm' = replicate (Z.to_nat (size / 4)) 0 ∧ allocated pm' = true).
Proof.
  intros Hwf Hal Hc Hs. unfold pm_allocate_runlist_ib. rewrite Hal, Hc.
  destruct (allocate_cases kzalloc (pm_gtt pm) size Hwf Hs)
    as [(r & Hr & ->)|(m & n & _ & _ & _ & _ & ->)]; cbn [mbind option_bind].
  - left. exists r. rewrite (proj2 (nz_true r) Hr). split; [done|]. by destruct pm.
  - right. by eexists.
Qed.

(** C29. The run list is complete and fits.  When the counters of the queue manager
    agree with the processes and their queues, the buffer allocated from the
    counters is exactly as large as the packets written to it: nothing is
    written outside, and what the hardware reads in it, going from header to
    header, is a packet for each process followed by one for each of its active
    kernel and user queues, in order, and the chaining packet when the run list
    is oversubscribed.  Only the allocation of the buffer can fail, and then
    nothing changes. *)
Theorem runlist_complete (kzalloc : bool) (pm : packet_manager) (d : dqm) (procs : list process_desc)
    (Hwf : wf (pm_gtt pm)) (Hal : allocated pm = false)
    (Hprocs : processes_count d = Z.of_nat (length procs))
    (Hactive : active_queue_count d = total_active procs)
    (Htypes : Forall no_hiq procs)
    (Hsize : 4 * dwords (procs ≫= process_packets) + runlist_size f < 2 ^ 32) :
  ∃ r pm' size, pm_create_runlist_ib kzalloc pm d procs = Some (r, pm', size) ∧
    if nz r then pm' = pm
    else allocated pm' = true ∧ size = 4 * Z.of_nat (length (ib_contents pm')) ∧
      parse_pm4 (length (ib_contents pm')) (ib_contents pm') =
        Some ((procs ≫= process_packets) ++ chain_packets pm' d).
Proof.
  destruct (pm_calc_rlib_size d) as [size over] eqn:Ec.
  pose proof (λ pm, rlib_size_facts d procs size over pm Hprocs Hactive Hsize Ec) as Hfacts.
  set (body := procs ≫= process_packets) in *. destruct (Hfacts pm) as (Hs & H4 & Hb & Hcp & Hdp).
  unfold pm_create_runlist_ib.
  destruct (allocate_runlist_ib_spec kzalloc pm d size over Hwf Hal Ec Hs)
    as [(r & Hr & ->)|(pm1 & -> & Hib & Hal1)]; cbn [mbind option_bind].
  { exists r, pm, 0. by rewrite Hr. }
  change (nz 0) with false. cbv iota zeta.
  change (ib_contents (pm1 <| ib_size_bytes := size |>)) with (ib_contents pm1). rewrite Hib.
  pose proof (map_process_list_spec procs (processes_count d) 0 [] (Z.to_nat (size / 4)) Htypes) as Hmap.
  fold body in Hmap. cbn [length app] in Hmap. change (Z.of_nat 0) with 0 in Hmap.
  rewrite Hmap by lia. clear Hmap. cbv zeta. cbn [mbind option_bind]. change (nz 0) with false. cbv iota.
  assert (Ebody : Z.of_nat (length (concat body)) = dwords body) by done.
  set (pm2 := _ <| ib_contents := _ |>).
  destruct (Hfacts pm2) as (_ & _ & _ & _ & Hd2). unfold chain_packets in Hd2. rewrite Ec in Hd2.
  pose proof (runlist_well_formed procs) as Hw. fold body in Hw.
  destruct over.
  - destruct (runlist_law (processes_count d) (ib_gpu_addr pm2) (size / 4) true) as [[Hw3 _] Hr3].
    destruct (pmf_runlist f _ _ _ true) as [r3 packet] eqn:E3. cbn [fst snd] in *. subst r3.
    rewrite dwords_cons in Hd2. change (dwords []) with 0 in Hd2.
    rewrite write_ib_spec by lia. cbn [mbind option_bind].
    replace (_ - length packet)%nat with 0%nat by lia. rewrite app_nil_r.
    eexists 0, _, size. split; [reflexivity|]. change (nz 0) with false. cbv iota.
    split; [exact Hal1|].
    change (ib_contents (_ <| is_over_subscription := true |>)) with (concat body ++ packet).
    split; [rewrite length_app; lia|].
    assert (Ech : chain_packets (pm2 <| ib_contents := concat body ++ packet |> <| is_over_subscription := true |>) d
      = [packet]).
    { unfold chain_packets. rewrite Ec.
      change (ib_gpu_addr (_ <| is_over_subscription := true |>)) with (ib_gpu_addr pm2). by rewrite E3. }
    rewrite Ech. replace (concat body ++ packet) with (concat (body ++ [packet]))
      by (rewrite concat_app; simpl; by rewrite app_nil_r).
    apply parse_concat. apply Forall_app. by split; [|constructor].
  - change (dwords []) with 0 in Hd2. replace (_ - length (concat body))%nat with 0%nat in * by lia.
    eexists 0, _, size. split; [reflexivity|]. change (nz 0) with false. cbv iota.
    split; [exact Hal1|].
    change (ib_contents (_ <| is_over_subscription := false |>)) with (concat body ++ []).
    rewrite app_nil_r. split; [lia|]. unfold chain_packets at 1. rewrite Ec, app_nil_r.
    by apply parse_concat.
Qed.

(** ** What the hardware reads from the HIQ *)

Inductive hiq_request :=
  | SendSetResources (r : scheduling_resources)
  | SendQueryStatus (fence_address fence_value : Z)
  | UpdateGracePeriod (grace_period : Z)
  | SendUnmapQueue (filter filter_param : Z) (reset : bool)
  | SendRunlist (kzalloc : bool) (d : dqm) (procs : list process_desc)
  | ReleaseIb.

Definition pm_call (pm : packet_manager) (r : hiq_request) : option (Z * packet_manager) :=
  match r with
  | SendSetResources res => pm_send_set_resources pm res
  | SendQueryStatus a v => pm_send_query_status pm a v
  | UpdateGracePeriod g => pm_update_grace_period pm g
  | SendUnmapQueue x y reset => pm_send_unmap_queue pm x y reset
  | SendRunlist kzalloc d procs => pm_send_runlist kzalloc pm d procs
  | ReleaseIb => Some (0, pm_release_ib pm)
  end.

(** The packet of a call that succeeded, with the manager after it. *)
Definition call_packet (pm : packet_manager) (r : hiq_request) : list (list Z) :=
  match r with
  | SendSetResources res => [(pmf_set_resources f res).2]
  | SendQueryStatus a v => [(pmf_query_status f a v).2]
  | UpdateGracePeriod g => if nz (set_grace_period_size f) then [(pmf_set_grace_period f g).2] else []
  | SendUnmapQueue x y reset => [(pmf_unmap_queues f x y reset).2]
  | SendRunlist _ d _ =>
      [(pmf_runlist f (processes_count d) (ib_gpu_addr pm) (ib_size_bytes pm / 4) false).2]
  | ReleaseIb => []
  end.

(** Calls of the driver, and reads of the hardware. *)
Fixpoint pm_run (pm : packet_manager) (l : list (hiq_request + Z))
    : option (packet_manager * list (list Z) * list Z) :=
  match l with
  | [] => Some (pm, [], [])
  | inl r :: l =>
      '(ret, pm) ← pm_call pm r;
      '(pm', sent, read) ← pm_run pm l;
      Some (pm', (if nz ret then [] else call_packet pm r) ++ sent, read)
  | inr n :: l =>
      '(out, k) ← consume (priv_queue pm) n;
      '(pm', sent, read) ← pm_run (pm <| priv_queue := k |>) l;
      Some (pm', sent, out ++ read)
  end.

(** The ring after some packets were sent. *)
Definition hiq_grew (k k' : kernel_queue) (packets : list (list Z)) : Prop :=
  idle_wf e k' ∧ nop_packet k' = nop_packet k ∧
  ∃ ms, length ms = length packets ∧
    unread k' = unread k ++ concat (zip_with (padded (nop_packet k)) ms packets).

Lemma hiq_grew_refl k : idle_wf e k → hiq_grew k k [].
Proof. intros Hk. split_and!; try done. exists []. split; [done|]. simpl. by rewrite app_nil_r. Qed.

(** Sending is all or nothing. *)
Lemma pm_send_spec pm size built :
  idle_wf e (priv_queue pm) → packet_of size built →
  ∃ ret pm', pm_send pm size built = Some (ret, pm') ∧
    pm' = pm <| priv_queue := priv_queue pm' |> ∧
    hiq_grew (priv_queue pm) (priv_queue pm') (if nz ret then [] else [built.2]).
Proof.
  intros Hk Hp. destruct (packet_dwords size built Hp) as [Hd Hd4].
  pose proof (well_formed_short _ (proj1 Hp)) as Hs.
  pose proof (idle_ring _ _ Hk) as Hr. pose proof (idle_width _ _ Hk) as Hw. unfold pm_send. rewrite Hd.
  destruct (fits (priv_queue pm) (Z.of_nat (length built.2))) eqn:Hf.
  - destruct (acquire_write_spec e (priv_queue pm) built.2 Hr ltac:(lia) Hf) as (i & k1 & -> & Hwr).
    cbn [mbind option_bind]. change (nz 0) with false. cbv iota. rewrite Hwr. cbn [mbind option_bind].
    destruct (append_append_spec e (priv_queue pm) built.2 Hr Hf) as (Hk2 & _ & Hun).
    set (k2 := append _ built.2) in *. eexists _, _. split; [done|]. split; [by destruct pm|].
    cbn [priv_queue set_field]. destruct (nz built.1).
    + destruct (rollback_spec e (priv_queue pm) _ built.2 Hk Hk2 Hun) as [Hi Hu]. fold k2 in Hi, Hu.
      split_and!; [exact Hi|unfold kq_rollback_packet; simpl; by destruct (doorbell_size e =? 8)|].
      exists []. split; [done|]. simpl. by rewrite app_nil_r.
    + destruct (submit_spec e k2 Hk2 Hw) as [Hi Hu].
      split_and!; [exact Hi|unfold kq_submit_packet; simpl; by destruct (doorbell_size e =? 8)|].
      exists [length (pads (priv_queue pm) (Z.of_nat (length built.2)))]. split; [done|].
      change (unread (kq_submit_packet e k2) = unread (priv_queue pm) ++ concat (zip_with
        (padded (nop_packet (priv_queue pm))) [length (pads (priv_queue pm) (Z.of_nat (length built.2)))] [built.2])).
      rewrite Hu, Hun. simpl. rewrite app_nil_r. unfold padded. do 2 f_equal.
      unfold pads. by destruct (_ <=? _); rewrite ?length_replicate.
  - rewrite (acquire_spec e) by (done || lia). rewrite Hf. cbn [mbind option_bind].
    eexists _, pm. split; [done|]. split; [by destruct pm|]. by apply hiq_grew_refl.
Qed.

Lemma release_ib_queue pm : priv_queue (pm_release_ib pm) = priv_queue pm.
Proof. unfold pm_release_ib. by destruct (allocated pm). Qed.

Lemma create_runlist_queue kzalloc pm d procs r pm' size :
  pm_create_runlist_ib kzalloc pm d procs = Some (r, pm', size) →
  priv_queue pm' = priv_queue pm ∧ (r = 0 → ib_size_bytes pm' = size).
Proof.
  unfold pm_create_runlist_ib, pm_allocate_runlist_ib. destruct (allocated pm).
  { cbn [mbind option_bind]. change (nz (-EINVAL)) with true. intros [= <- <- <-]. by split. }
  destruct (pm_calc_rlib_size d) as [sz over].
  destruct (kfd_gtt_sa_allocate kzalloc (pm_gtt pm) sz) as [[[r0 g] m]|]; [|done].
  cbn [mbind option_bind]. destruct (nz r0) eqn:E0; cbn [mbind option_bind].
  { rewrite E0. intros [= <- <- <-]. split; [done|]. intros ->. done. }
  change (nz 0) with false. cbv iota zeta.
  destruct (map_process_list _ _ _ _ _) as [[[[limit r1] buf] w]|]; [|done]. cbn [mbind option_bind].
  destruct limit.
  { intros [= <- <- <-]. rewrite release_ib_queue. split; [done|]. intros _.
    unfold pm_release_ib. by simpl. }
  destruct (nz r1); [intros [= <- <- <-]; by split|].
  destruct (if over then _ else _) as [[r2 buf2]|]; [|done]. cbn [mbind option_bind].
  intros [= <- <- <-]. by split.
Qed.

Lemma pm_call_spec pm r ret pm1 :
  idle_wf e (priv_queue pm) → pm_call pm r = Some (ret, pm1) →
  hiq_grew (priv_queue pm) (priv_queue pm1) (if nz ret then [] else call_packet pm1 r) ∧
  Forall well_formed (call_packet pm1 r).
Proof.
  intros Hk. destruct r as [res|a v|g|x y reset|kz d procs|]; cbn [pm_call call_packet].
  - destruct (set_resources_law res) as [Hp _]. unfold pm_send_set_resources.
    destruct (pm_send_spec pm _ _ Hk Hp) as (r & pm' & -> & _ & Hg). intros [= <- <-].
    split; [done|]. constructor; [apply Hp|done].
  - destruct (query_status_law a v) as [Hp _]. unfold pm_send_query_status.
    destruct (a =? 0).
    + intros [= <- <-]. split; [by apply hiq_grew_refl|]. constructor; [apply Hp|done].
    + destruct (pm_send_spec pm _ _ Hk Hp) as (r & pm' & -> & _ & Hg). intros [= <- <-].
      split; [done|]. constructor; [apply Hp|done].
  - unfold pm_update_grace_period. destruct (nz (set_grace_period_size f)) eqn:E.
    + pose proof (grace_period_law g (proj1 (nz_true _) E)) as Hp.
      destruct (pm_send_spec pm _ _ Hk Hp) as (r & pm' & -> & _ & Hg). intros [= <- <-].
      split; [done|]. constructor; [apply Hp|done].
    + intros [= <- <-]. split; [by apply hiq_grew_refl|done].
  - pose proof (unmap_queues_law x y reset) as Hp. unfold pm_send_unmap_queue.
    destruct (pm_send_spec pm _ _ Hk Hp) as (r & pm' & -> & _ & Hg). intros [= <- <-].
    split; [done|]. constructor; [apply Hp|done].
  - intros Hc. split.
    2:{ constructor; [|done]. by destruct (runlist_law (processes_count d) (ib_gpu_addr pm1)
          (ib_size_bytes pm1 / 4) false) as [[? _] _]. }
    revert Hc. unfold pm_send_runlist.
    destruct (pm_create_runlist_ib kz pm d procs) as [[[r2 pm2] size]|] eqn:Ec; [|done].
    cbn [mbind option_bind]. destruct (create_runlist_queue _ _ _ _ _ _ _ Ec) as [Hq Hsz].
    destruct (nz r2) eqn:E2.
    { intros [= <- <-]. rewrite E2, release_ib_queue, Hq. by apply hiq_grew_refl. }
    destruct (runlist_law (processes_count d) (ib_gpu_addr pm2) (size / 4) false) as [Hp _].
    destruct (pm_send_spec pm2 _ _ ltac:(by rewrite Hq) Hp) as (r3 & pm3 & -> & E3 & Hg).
    cbn [mbind option_bind]. intros [= <- <-]. rewrite Hq in Hg. destruct (nz r3) eqn:Er3.
    + by rewrite release_ib_queue.
    + rewrite E3.
      change (ib_gpu_addr (pm2 <| priv_queue := _ |>)) with (ib_gpu_addr pm2).
      change (ib_size_bytes (pm2 <| priv_queue := _ |>)) with (ib_size_bytes pm2).
      by rewrite (Hsz (proj1 (nz_false _) E2)).
  - intros [= <- <-]. rewrite release_ib_queue. split; [by apply hiq_grew_refl|done].
Qed.

Lemma zip_padded_app nop ms1 (l1 : list (list Z)) ms2 l2 :
  length ms1 = length l1 →
  concat (zip_with (padded nop) (ms1 ++ ms2) (l1 ++ l2)) =
  concat (zip_with (padded nop) ms1 l1) ++ concat (zip_with (padded nop) ms2 l2).
Proof. intros Hl. by rewrite zip_with_app, concat_app. Qed.

Lemma pm_run_stream l pm pm' sent read :
  idle_wf e (priv_queue pm) → pm_run pm l = Some (pm', sent, read) →
  Forall well_formed sent ∧ ∃ ms, length ms = length sent ∧
    read ++ unread (priv_queue pm') =
      unread (priv_queue pm) ++ concat (zip_with (padded (nop_packet (priv_queue pm))) ms sent).
Proof.
  revert pm sent read. induction l as [|[r|n] l IH]; intros pm sent read Hk; cbn [pm_run].
  - intros [= <- <- <-]. split; [done|]. exists []. split; [done|]. simpl. by rewrite app_nil_r.
  - destruct (pm_call pm r) as [[ret pm1]|] eqn:Ec; [|done]. cbn [mbind option_bind].
    destruct (pm_call_spec pm r ret pm1 Hk Ec) as [(Hk1 & Hn & ms1 & Hl1 & Hu) Hw].
    destruct (pm_run pm1 l) as [[[pm2 sent2] read2]|] eqn:E; [|done].
    cbn [mbind option_bind]. intros [= -> <- <-].
    destruct (IH pm1 sent2 read2 Hk1 E) as (Hw2 & ms2 & Hl2 & Hrd). split.
    + apply Forall_app. split; [|done]. by destruct (nz ret).
    + exists (ms1 ++ ms2). split; [rewrite !length_app; lia|].
      rewrite Hrd, Hu, Hn, zip_padded_app by done. by rewrite (assoc_L (++)).
  - destruct (consume (priv_queue pm) n) as [[out k]|] eqn:Ec; [|done]. cbn [mbind option_bind].
    destruct (consume_spec e (priv_queue pm) n out k Hk Ec) as (Hk1 & Hn & Hu).
    set (pm1 := pm <| priv_queue := k |>). change k with (priv_queue pm1) in Hk1, Hn, Hu.
    destruct (pm_run pm1 l) as [[[pm2 sent2] read2]|] eqn:E; [|done].
    cbn [mbind option_bind]. intros [= -> <- <-].
    destruct (IH pm1 sent2 read2 Hk1 E) as (Hw2 & ms & Hl & Hrd). split; [done|].
    exists ms. split; [done|]. rewrite <- (assoc_L (++)), Hrd, Hu, Hn.
    by rewrite (assoc_L (++)).
Qed.

(** C30. The hardware reads the packets the driver sent.  In any history of calls of
    the packet manager and reads of the hardware, on a cleared HIQ, what was
    read followed by what waits in the ring, taken header by header with the
    fillers dropped, is the list of the packets of the calls that returned 0, in
    order.  A call that failed has left no trace in the ring. *)
Theorem hiq_stream_parses (pm : packet_manager) (b : Z) (l : list (hiq_request + Z))
    (pm' : packet_manager) (sent : list (list Z)) (read : list Z)
    (Hb : 1 ≤ b ≤ 29) (Hempty : empty_ring (priv_queue pm) b)
    (Hnop : nop_packet (priv_queue pm) = nop_u32all)
    (Hrun : pm_run pm l = Some (pm', sent, read)) :
  parse_pm4 (length (read ++ unread (priv_queue pm'))) (read ++ unread (priv_queue pm')) = Some sent.
Proof.
  destruct (empty_ring_idle e _ b Hb Hempty) as [Hk Hu].
  destruct (pm_run_stream l pm pm' sent read Hk Hrun) as (Hw & ms & Hl & Hrd).
  rewrite Hrd, Hu, Hnop. by apply parse_padded.
Qed.
End PacketManager.

(** ** Concrete run lists *)

Definition pm_env0 : pm_env :=
  mk_pm_env 0 8 false 31 9000 (λ q, 0x1000 + q_addr q) (λ q, 0x2000 + q_addr q) 0x1234 (λ _ g, (5, g)).

(** Two processes, the second with an active and an evicted queue. *)
Definition active_queue (addr : Z) (t : kfd_queue_type) (active : bool) : queue :=
  mk_queue addr (mk_props t addr 4096 4096 100 8 (negb active) false false active false false 0 1 0 0 0 0)
    0 0 0 0 false 32769.
Definition process (l : list queue) : process_desc :=
  mk_process_desc (mk_qpd l [] (Z.of_nat (length l)) 8 false 0 false false 0xabc000 0 0 0 true 0 0 false)
    32769 0 0 0 0 0 0 false.
Definition procs0 : list process_desc :=
  [process []; process [active_queue 1 KFD_QUEUE_TYPE_COMPUTE true; active_queue 2 KFD_QUEUE_TYPE_SDMA false]].
Definition dqm_of (processes active : Z) : device_queue_manager :=
  mk_dqm [1; 2] processes active 1 0 2 0 [] 0 0 [] false false false true 0 [].
Definition pm0 : packet_manager :=
  mk_pm (small_ring <| queue_size := 128 |> <| pq := replicate 32 0 |>) false None 0 false []
    (dev0 <| gtt_sa_num_of_chunks := 64 |>).

Lemma runlist_complete_witness :
  ∃ r pm' size, pm_create_runlist_ib env0 pm_env0 (kfd_v9_pm_funcs pm_env0) true pm0 (dqm_of 2 1) procs0
    = Some (r, pm', size) ∧ r = 0 ∧ size = 4 * Z.of_nat (length (ib_contents pm')).
Proof.
  destruct (runlist_complete env0 pm_env0 (kfd_v9_pm_funcs pm_env0) true pm0 (dqm_of 2 1) procs0)
    as (r & pm' & size & E & H).
  - vm_compute. by repeat split.
  - reflexivity.
  - reflexivity.
  - vm_compute. reflexivity.
  - repeat constructor; discriminate.
  - vm_compute. reflexivity.
  - assert (r = 0) as -> by (vm_compute in E; congruence).
    exists 0, pm', size. split; [exact E|]. split; [reflexivity|]. exact (proj1 (proj2 H)).
Defined.

(** A history in which the fourth packet goes to the beginning of the ring. *)
Definition hiq_history : list (hiq_request + Z) :=
  [inl (SendSetResources (mk_resources 0xff00 1 0 0 0 0)); inl (SendRunlist true (dqm_of 2 1) procs0);
   inl (SendUnmapQueue 1 0 false); inr 18; inl (SendQueryStatus 0x8000 1);
   inl (SendUnmapQueue 9 0 false); inl (SendQueryStatus 0x8000 2); inr 7].

Lemma hiq_stream_parses_witness :
  ∃ pm' sent read, pm_run env0 pm_env0 (kfd_v9_pm_funcs pm_env0) pm0 hiq_history = Some (pm', sent, read) ∧
    length sent = 5%nat ∧
    parse_pm4 (length (read ++ unread (priv_queue pm'))) (read ++ unread (priv_queue pm')) = Some sent.
Proof.
  set (o := pm_run env0 pm_env0 (kfd_v9_pm_funcs pm_env0) pm0 hiq_history). vm_compute in o.
  match eval unfold o in o with Some (?a, ?b, ?c) => exists a, b, c end.
  split; [reflexivity|]. split; [reflexivity|].
  apply (hiq_stream_parses env0 pm_env0 (kfd_v9_pm_funcs pm_env0) pm0 5 hiq_history).
  - lia.
  - by repeat split.
  - reflexivity.
  - vm_compute. reflexivity.
Defined.
