(* ===== verification/Events.v ===== *)
(** * Events of a process

    [kfd_events.c]: creation and destruction of events, signalling from the CPU
    and from interrupts through the signal page, and waiting.  Events are heap
    objects: a freed event is absent from the heap, and following a pointer to
    it is the outcome [None].  A wait is split at its points of preemption:
    [wait_begin] (under [event_mutex]), any number of [wait_poll], and [wait_end]
    (under [event_mutex] again).

    [KFD_SIGNAL_EVENT_LIMIT] and the error codes given to user mode come from the
    kernel's UAPI headers and are parameters; the IDR is the kernel's library. *)

From S2P Require Import Prelude.

(** ** Data *)

Definition KFD_FIRST_NONSIGNAL_EVENT_ID : Z := 2 ^ 30.
Definition KFD_LAST_NONSIGNAL_EVENT_ID : Z := 2 ^ 31 - 1.
Definition UNSIGNALED_EVENT_SLOT : Z := 2 ^ 64 - 1.
Definition KFD_EVENT_TIMEOUT_IMMEDIATE : Z := 0.
Definition KFD_EVENT_TIMEOUT_INFINITE : Z := 0xffffffff.
Definition KFD_EVENT_TYPE_SIGNAL : Z := 0.
Definition KFD_EVENT_TYPE_HW_EXCEPTION : Z := 3.
Definition KFD_EVENT_TYPE_DEBUG : Z := 5.
Definition KFD_EVENT_TYPE_MEMORY : Z := 8.

Inductive wait_result_t :=
  | KFD_IOC_WAIT_RESULT_COMPLETE | KFD_IOC_WAIT_RESULT_TIMEOUT | KFD_IOC_WAIT_RESULT_FAIL.
#[export] Instance wait_result_eq_dec : EqDecision wait_result_t.
Proof. solve_decision. Defined.

Record memory_exception := mk_memory_exception {
  me_gpu_id : Z; me_va : Z; me_not_present : bool; me_no_execute : bool;
  me_read_only : bool; me_imprecise : bool; me_error_type : Z }.
Record hw_exception := mk_hw_exception {
  he_gpu_id : Z; he_memory_lost : bool; he_reset_cause : Z }.
(** The anonymous union of [struct kfd_event]. *)
Inductive event_payload :=
  | NoPayload | MemoryPayload (m : memory_exception) | HwPayload (x : hw_exception).

(** A waiter is named by its wait and its index in the array of the wait. *)
Record kfd_event := mk_event {
  event_id : Z;
  event_age : Z;
  signaled : bool;
  auto_reset : bool;
  ev_type : Z;
  wq : list (Z * nat);
  payload : event_payload;
}.
#[export] Instance eta_event : Eta kfd_event := λ v,
  mk_event (event_id v) (event_age v) (signaled v) (auto_reset v) (ev_type v) (wq v) (payload v).

Record kfd_event_waiter := mk_waiter {
  w_event : option Z;             (* address of the event, NULL when destroyed *)
  activated : bool;
  event_age_enabled : bool;
}.
#[export] Instance eta_waiter : Eta kfd_event_waiter := λ w,
  mk_waiter (w_event w) (activated w) (event_age_enabled w).

(** A wait in progress; [asleep] while its task is in [schedule_timeout]. *)
Record wait_call := mk_wait {
  waiters : list kfd_event_waiter;
  wait_all : bool;
  asleep : bool;
}.
#[export] Instance eta_wait : Eta wait_call := λ w, mk_wait (waiters w) (wait_all w) (asleep w).

(** The signal page is the map of the slots written; the others hold
    [UNSIGNALED_EVENT_SLOT].  Id 0 is in the IDR with a null pointer. *)
Record process := mk_process {
  heap : gmap Z kfd_event;
  next_addr : Z;
  event_idr : gmap Z (option Z);
  signal_page : option (gmap Z Z);
  signal_mapped_size : Z;
  signal_event_count : Z;
  signal_event_limit_reached : bool;
  waits : gmap Z wait_call;
}.
#[export] Instance eta_process : Eta process := λ p,
  mk_process (heap p) (next_addr p) (event_idr p) (signal_page p) (signal_mapped_size p)
    (signal_event_count p) (signal_event_limit_reached p) (waits p).

(** ** The IDR *)

(** [idr_alloc(idr, ptr, start, end)]: the lowest free id of the range; at most
    [size idr] of them are taken. *)
Definition idr_alloc (m : gmap Z (option Z)) (start end_ : Z) : Z + Z :=
  if start <? 0 then inr (-EINVAL)
  else
    let max := if 0 <? end_ then end_ else 2 ^ 31 in
    match scan (λ i, bool_decide (m !! i = None)) start
            (Z.to_nat (Z.min (max - start) (Z.of_nat (size m) + 1))) with
    | Some id => inl id
    | None => inr (-ENOSPC)
    end.

Definition idr_find (p : process) (id : Z) : option Z := mjoin (event_idr p !! id).

Definition id_le (x y : Z * option Z) : Prop := x.1 ≤ y.1.
#[export] Instance id_le_dec x y : Decision (id_le x y).
Proof. unfold id_le. apply _. Defined.

(** [idr_for_each_entry] from [from]: ids in increasing order, null entries skipped. *)
Definition idr_entries (p : process) (from : Z) : list (Z * Z) :=
  omap (λ '(id, a), if from <=? id then pair id <$> a else None)
    (merge_sort id_le (map_to_list (event_idr p))).

Section Events.
Context (KFD_SIGNAL_EVENT_LIMIT : Z).
(** Whether memory is found for an event and for a signal page. *)
Context (alloc_event alloc_page : bool).
Context (KFD_HW_EXCEPTION_GPU_HANG KFD_HW_EXCEPTION_ECC : Z).
Context (KFD_MEM_ERR_SRAM_ECC KFD_MEM_ERR_POISON_CONSUMED : Z).

(** ** Creation *)

Definition page_slot (p : process) (id : Z) : Z :=
  default UNSIGNALED_EVENT_SLOT (signal_page p ≫= λ s, s !! id).

Definition write_slot (p : process) (id v : Z) : process :=
  p <| signal_page ::= fmap <[id := v]> |>.

Definition allocate_signal_page (p : process) : option process :=
  if alloc_page then Some (p <| signal_page := Some ∅ |>) else None.

Definition allocate_event_notification_slot (p : process) (addr : Z) (ev : kfd_event)
    (restore_id : option Z) : Z * process * kfd_event :=
  match (match signal_page p with
         | Some _ => Some p
         | None => (λ p, p <| signal_mapped_size := 256 * 8 |>) <$> allocate_signal_page p
         end) with
  | None => (-ENOMEM, p, ev)
  | Some p =>
      let r := match restore_id with
               | Some id => idr_alloc (event_idr p) (s32 id) (s32 (id + 1))
               | None => idr_alloc (event_idr p) 0 (s32 (signal_mapped_size p / 8))
               end in
      match r with
      | inr err => (err, p, ev)
      | inl id =>
          (0, write_slot (p <| event_idr ::= <[id := Some addr]> |>) id UNSIGNALED_EVENT_SLOT,
           ev <| event_id := id |>)
      end
  end.

Definition create_signal_event (p : process) (addr : Z) (ev : kfd_event)
    (restore_id : option Z) : Z * process * kfd_event :=
  if nz (signal_mapped_size p) && (signal_event_count p =? signal_mapped_size p / 8)
  then (-ENOSPC, p <| signal_event_limit_reached := true |>, ev)
  else
    let '(ret, p, ev) := allocate_event_notification_slot p addr ev restore_id in
    if nz ret then (ret, p, ev)
    else (0, p <| signal_event_count ::= λ n, u64 (n + 1) |>, ev).

Definition create_other_event (p : process) (addr : Z) (ev : kfd_event) (restore_id : option Z)
    : Z * process * kfd_event :=
  let r := match restore_id with
           | Some id => idr_alloc (event_idr p) (s32 id) (s32 (id + 1))
           | None => idr_alloc (event_idr p) KFD_FIRST_NONSIGNAL_EVENT_ID
                       (s32 (u32 KFD_LAST_NONSIGNAL_EVENT_ID + 1))
           end in
  match r with
  | inr err => (err, p, ev)
  | inl id => (0, p <| event_idr ::= <[id := Some addr]> |>, ev <| event_id := id |>)
  end.

(** The allocation of id 0 in the empty IDR finding memory. *)
Definition kfd_event_init_process : process :=
  mk_process ∅ 1 {[ 0 := None ]} None 0 1 false ∅.

Definition is_signal_type (t : Z) : bool :=
  (t =? KFD_EVENT_TYPE_SIGNAL) || (t =? KFD_EVENT_TYPE_DEBUG).

(** [kzalloc] gives a new address; a failed creation frees the event again. *)
Definition kfd_event_create (p : process) (type : Z) (reset : bool) : Z * process * Z :=
  if negb alloc_event then (-ENOMEM, p, 0) else
  let addr := next_addr p in
  let ev := mk_event 0 0 false reset type [] NoPayload in
  let p := p <| next_addr ::= Z.succ |> in
  let '(ret, p, ev) := if is_signal_type type then create_signal_event p addr ev None
                       else create_other_event p addr ev None in
  if nz ret then (ret, p, 0)
  else (0, p <| heap ::= <[addr := ev <| event_age := 1 |>]> |>, event_id ev).

(** The private data of a checkpointed event. *)
Record event_priv := mk_event_priv {
  ep_id : Z; ep_auto_reset : bool; ep_type : Z; ep_signaled : bool; ep_payload : event_payload }.

(** The data copied from the user, or the error of the copy or of the mapping of
    the event page.  A type the [switch] does not know gives 0. *)
Definition kfd_criu_restore_event (p : process) (data : Z + event_priv) : Z * process :=
  if negb alloc_event then (-ENOMEM, p) else
  match data with
  | inl err => (err, p)
  | inr v =>
  let addr := next_addr p in
  let ev := mk_event 0 0 (ep_signaled v) (ep_auto_reset v) (ep_type v) [] NoPayload in
  let p := p <| next_addr ::= Z.succ |> in
  let '(ret, p, ev) :=
    if is_signal_type (ep_type v) then create_signal_event p addr ev (Some (ep_id v))
    else if (ep_type v =? KFD_EVENT_TYPE_MEMORY) || (ep_type v =? KFD_EVENT_TYPE_HW_EXCEPTION)
    then create_other_event p addr (ev <| payload := ep_payload v |>) (Some (ep_id v))
    else (0, p, ev) in
  if nz ret then (ret, p) else (0, p <| heap ::= <[addr := ev]> |>)
  end.

Definition kfd_get_num_events (p : process) : Z := u32 (Z.of_nat (length (idr_entries p 0))).

(** The records [kfd_criu_checkpoint_events] writes. *)
Definition kfd_criu_checkpoint_events (p : process) : option (list event_priv) :=
  mapM (λ '(_, a), (λ v, mk_event_priv (event_id v) (auto_reset v) (ev_type v) (signaled v)
     (if (ev_type v =? KFD_EVENT_TYPE_MEMORY) || (ev_type v =? KFD_EVENT_TYPE_HW_EXCEPTION)
      then payload v else NoPayload)) <$> heap p !! a) (idr_entries p 0).

(** A page given by user mode; [size] is the size of its buffer. *)
Definition kfd_event_page_set (p : process) (size : Z) : Z * process :=
  match signal_page p with
  | Some _ => (-EBUSY, p)
  | None =>
      if negb alloc_page then (-ENOMEM, p)
      else (0, p <| signal_page := Some ∅ |> <| signal_mapped_size := size |>)
  end.

(** [get_order]: the least power of two pages that holds [size] bytes. *)
Definition get_order (size : Z) : Z := Z.log2_up ((size + 4095) / 4096).

(** The area has [size] bytes and [ret] is the answer of [remap_pfn_range]; the
    address at which user mode sees the page is not kept. *)
Definition kfd_event_mmap (p : process) (size ret : Z) : Z * process :=
  if get_order (KFD_SIGNAL_EVENT_LIMIT * 8) <? get_order size then (-EINVAL, p)
  else
    match signal_page p with
    | None => (-EINVAL, p)
    | Some _ => (ret, if nz ret then p else p <| signal_mapped_size := size |>)
    end.

(** ** Waiters and their queues *)

Definition waiter_of (p : process) (w : Z * nat) : option kfd_event_waiter :=
  c ← waits p !! w.1; waiters c !! w.2.

Definition set_waiter (f : kfd_event_waiter → kfd_event_waiter) (w : Z * nat) (p : process)
    : process :=
  p <| waits ::= alter (λ c, c <| waiters ::= alter f w.2 |>) w.1 |>.

(** [wake_up_all] of entries whose function is [autoremove_wake_function]: a
    sleeping task is woken and its entry removed, the entry of a running task
    stays. *)
Fixpoint wake_up_all (l : list (Z * nat)) (p : process) : list (Z * nat) * process :=
  match l with
  | [] => ([], p)
  | w :: l =>
      match waits p !! w.1 with
      | Some c =>
          if asleep c then wake_up_all l (p <| waits ::= <[w.1 := c <| asleep := false |>]> |>)
          else let '(rest, p) := wake_up_all l p in (w :: rest, p)
      | None => let '(rest, p) := wake_up_all l p in (w :: rest, p)
      end
  end.

(** Increment of [event_age], which never comes back to 0 or 1. *)
Definition next_age (a : Z) : Z := if u64 (a + 1) =? 0 then 2 else u64 (a + 1).

(** [set_event] on the event at [a]. *)
Definition set_event (p : process) (a : Z) : option process :=
  ev ← heap p !! a;
  let ev := ev <| signaled := negb (auto_reset ev) || bool_decide (wq ev = []) |>
               <| event_age ::= next_age |> in
  let p := foldr (set_waiter (set_field activated (λ _, true))) p (wq ev) in
  let '(rest, p) := wake_up_all (wq ev) p in
  Some (p <| heap ::= <[a := ev <| wq := rest |>]> |>).

Definition reset_event (p : process) (a : Z) : option process :=
  ev ← heap p !! a; Some (p <| heap ::= <[a := ev <| signaled := false |>]> |>).

(** ** Destruction *)

Definition destroy_event (p : process) (a : Z) : option process :=
  ev ← heap p !! a;
  let p := foldr (set_waiter (set_field w_event (λ _, None))) p (wq ev) in
  let '(_, p) := wake_up_all (wq ev) p in
  let p := if is_signal_type (ev_type ev) then p <| signal_event_count ::= λ n, u64 (n - 1) |> else p in
  Some (p <| event_idr ::= delete (event_id ev) |> <| heap ::= delete a |>).

Definition kfd_event_destroy (p : process) (id : Z) : option (Z * process) :=
  match idr_find p id with
  | Some a => pair 0 <$> destroy_event p a
  | None => Some (-EINVAL, p)
  end.

Definition destroy_events (p : process) : option process :=
  foldl (λ o '(_, a), p ← o; destroy_event p a) (Some p) (idr_entries p 0).

(** ** Signalling *)

Definition event_can_be_gpu_signaled (ev : kfd_event) : bool := is_signal_type (ev_type ev).
Definition event_can_be_cpu_signaled (ev : kfd_event) : bool := ev_type ev =? KFD_EVENT_TYPE_SIGNAL.

(** [kfd_set_event] and [kfd_reset_event]. *)
Definition cpu_signal (f : process → Z → option process) (p : process) (id : Z)
    : option (Z * process) :=
  match idr_find p id with
  | None => Some (-EINVAL, p)
  | Some a =>
      ev ← heap p !! a;
      if event_can_be_cpu_signaled ev then pair 0 <$> f p a else Some (-EINVAL, p)
  end.
Definition kfd_set_event : process → Z → option (Z * process) := cpu_signal set_event.
Definition kfd_reset_event : process → Z → option (Z * process) := cpu_signal reset_event.

Definition acknowledge_signal (p : process) (ev : kfd_event) : process :=
  write_slot p (event_id ev) UNSIGNALED_EVENT_SLOT.

Definition set_event_from_interrupt (p : process) (a : option Z) : option process :=
  match a with
  | None => Some p
  | Some a =>
      ev ← heap p !! a;
      if event_can_be_gpu_signaled ev then set_event (acknowledge_signal p ev) a else Some p
  end.

(** The search of [lookup_signaled_event_by_partial_id], by steps of [2^bits]. *)
Fixpoint lookup_partial (n : nat) (p : process) (id step : Z) : option Z :=
  match n with
  | O => None
  | S n =>
      if KFD_SIGNAL_EVENT_LIMIT <=? id then None
      else if page_slot p id =? UNSIGNALED_EVENT_SLOT then lookup_partial n p (id + step) step
      else match idr_find p id with
           | Some a => Some a
           | None => lookup_partial n p (id + step) step
           end
  end.

Definition lookup_signaled_event_by_partial_id (p : process) (id bits : Z) : option Z :=
  if bool_decide (signal_page p = None) || (KFD_SIGNAL_EVENT_LIMIT <=? id) then None
  else if (31 <? bits) || (KFD_SIGNAL_EVENT_LIMIT <=? u32 (2 ^ bits)) then
    if page_slot p id =? UNSIGNALED_EVENT_SLOT then None else idr_find p id
  else lookup_partial (Z.to_nat KFD_SIGNAL_EVENT_LIMIT) p id (2 ^ bits).

(** One id of the exhaustive searches. *)
Definition signal_if_set (o : option process) (id : Z) : option process :=
  p ← o;
  if page_slot p id =? UNSIGNALED_EVENT_SLOT then Some p
  else set_event_from_interrupt p (idr_find p id).

(** Over the IDR, and over the slots. *)
Definition signal_by_idr (p : process) : option process :=
  foldl signal_if_set (Some p)
    (filter (λ id, id < KFD_SIGNAL_EVENT_LIMIT) (fst <$> idr_entries p 0)).
Definition signal_by_slots (p : process) : option process :=
  foldl signal_if_set (Some p) (seqZ 1 (KFD_SIGNAL_EVENT_LIMIT - 1)).

Definition kfd_signal_event_interrupt (p : process) (partial_id valid_id_bits : Z)
    : option process :=
  match (if nz valid_id_bits then lookup_signaled_event_by_partial_id p partial_id valid_id_bits
         else None) with
  | Some a => set_event_from_interrupt p (Some a)
  | None =>
      match signal_page p with
      | None => Some p
      | Some _ =>
          if signal_event_count p <? KFD_SIGNAL_EVENT_LIMIT / 64 then signal_by_idr p
          else signal_by_slots p
      end
  end.

(** The events of a type are given their data and signalled. *)
Definition signal_payload (f : kfd_event → option event_payload) (p : process) : option process :=
  foldl (λ o '(_, a),
      p ← o; ev ← heap p !! a;
      match f ev with
      | None => Some p
      | Some d => set_event (p <| heap ::= <[a := ev <| payload := d |>]> |>) a
      end) (Some p) (idr_entries p KFD_FIRST_NONSIGNAL_EVENT_ID).

(** [struct kfd_vm_fault_info] of older chips. *)
Record kfd_vm_fault_info := mk_vm_fault_info {
  page_addr : Z; prot_valid : bool; prot_exec : bool; prot_write : bool }.

(** [user_gpu_id] is the answer of [kfd_process_get_user_gpu_id]. *)
Definition kfd_signal_vm_fault_event (p : process) (user_gpu_id : Z)
    (info : option kfd_vm_fault_info) (data : option memory_exception) : option process :=
  if user_gpu_id =? -EINVAL then Some p
  else
    let m := match data, info with
             | Some d, _ => d
             | None, Some i =>
                 mk_memory_exception user_gpu_id (u64 (Z.shiftl (page_addr i) 12)) (prot_valid i)
                   (prot_exec i) (prot_write i) false 0
             | None, None => mk_memory_exception user_gpu_id 0 false false false true 0
             end in
    signal_payload (λ ev, if ev_type ev =? KFD_EVENT_TYPE_MEMORY then Some (MemoryPayload m) else None) p.

(** Whether the process gets SIGSEGV, and whether no event of the type was found,
    in which case it gets SIGTERM or a message is printed. *)
Definition lookup_events_by_type_and_signal (p : process) (type : Z)
    (data : option memory_exception) : option (bool * bool * process) :=
  p' ← signal_payload (λ ev,
    if ev_type ev =? type then
      Some (match data with
            | Some m => if ev_type ev =? KFD_EVENT_TYPE_MEMORY then MemoryPayload m else payload ev
            | None => payload ev end)
    else None) p;
  Some (type =? KFD_EVENT_TYPE_MEMORY,
        forallb (λ '(_, a), match heap p !! a with
                            | Some ev => negb (ev_type ev =? type) | None => true end)
          (idr_entries p KFD_FIRST_NONSIGNAL_EVENT_ID), p').

Definition kfd_signal_hw_exception_event (p : process) : option (bool * bool * process) :=
  lookup_events_by_type_and_signal p KFD_EVENT_TYPE_HW_EXCEPTION None.

(** [kfd_signal_reset_event] for one process. *)
Definition kfd_signal_reset_event (p : process) (user_gpu_id : Z) (sram_ecc_flag : bool)
    : option process :=
  let reset_cause := if sram_ecc_flag then KFD_HW_EXCEPTION_ECC else KFD_HW_EXCEPTION_GPU_HANG in
  if user_gpu_id =? -EINVAL then Some p
  else signal_payload (λ ev,
    if ev_type ev =? KFD_EVENT_TYPE_HW_EXCEPTION
    then Some (HwPayload (mk_hw_exception user_gpu_id true reset_cause))
    else if (ev_type ev =? KFD_EVENT_TYPE_MEMORY) && (reset_cause =? KFD_HW_EXCEPTION_ECC)
    then Some (MemoryPayload
           (mk_memory_exception user_gpu_id 0 false false false true KFD_MEM_ERR_SRAM_ECC))
    else None) p.

Definition kfd_signal_poison_consumed_event (p : process) (gpu_id : Z) : option process :=
  if gpu_id =? -EINVAL then Some p
  else signal_payload (λ ev,
    if ev_type ev =? KFD_EVENT_TYPE_HW_EXCEPTION
    then Some (HwPayload (mk_hw_exception gpu_id true KFD_HW_EXCEPTION_ECC))
    else if ev_type ev =? KFD_EVENT_TYPE_MEMORY
    then Some (MemoryPayload
           (mk_memory_exception gpu_id 0 false false false true KFD_MEM_ERR_POISON_CONSUMED))
    else None) p.

(** ** Waiting *)

(** What user mode asks to wait for: an event and the age it has seen; [None]
    when the copy from user memory faults. *)
Record kfd_event_data := mk_event_data { ed_event_id : Z; ed_last_event_age : Z }.

(** [init_event_waiter] for the waiter [w]; the array of the wait gets a new entry. *)
Definition init_event_waiter (p : process) (w : Z * nat) (x : kfd_event_data)
    : option (Z * process * kfd_event_waiter) :=
  match idr_find p (ed_event_id x) with
  | None => Some (-EINVAL, p, mk_waiter None false false)
  | Some a =>
      ev ← heap p !! a;
      let act := signaled ev in
      let aged := (ev_type ev =? KFD_EVENT_TYPE_SIGNAL) && nz (ed_last_event_age x) in
      let act := act || aged && negb (event_age ev =? ed_last_event_age x) in
      let ev := ev <| signaled := signaled ev && negb (auto_reset ev) |>
                   <| wq ::= λ q, if act then q else w :: q |> in
      Some (0, p <| heap ::= <[a := ev]> |>, mk_waiter (Some a) act aged)
  end.

Fixpoint test_event_condition_from (all : bool) (l : list kfd_event_waiter) (activated_count : Z)
    (num_events : Z) : wait_result_t :=
  match l with
  | [] => if activated_count =? num_events then KFD_IOC_WAIT_RESULT_COMPLETE
          else KFD_IOC_WAIT_RESULT_TIMEOUT
  | w :: l =>
      match w_event w with
      | None => KFD_IOC_WAIT_RESULT_FAIL
      | Some _ =>
          if activated w then
            if negb all then KFD_IOC_WAIT_RESULT_COMPLETE
            else test_event_condition_from all l (u32 (activated_count + 1)) num_events
          else test_event_condition_from all l activated_count num_events
      end
  end.
Definition test_event_condition (all : bool) (l : list kfd_event_waiter) : wait_result_t :=
  test_event_condition_from all l 0 (Z.of_nat (length l)).

(** What is copied to the user for each activated event. *)
Inductive copied := CopyPayload (d : event_payload) | CopyAge (age : Z).

(** [last] is the pending copy: [size] and [src] are not cleared for an event
    without data.  The result of [copy_to_user] is [fault]. *)
Fixpoint copy_signaled_event_data (fault : bool) (p : process) (l : list kfd_event_waiter)
    (last : option copied) : option (Z * list (option copied)) :=
  match l with
  | [] => Some (0, [])
  | w :: l =>
      match w_event w with
      | None => Some (-EINVAL, [])
      | Some a =>
          ev ← heap p !! a;
          if activated w then
            let last :=
              if (ev_type ev =? KFD_EVENT_TYPE_MEMORY) || (ev_type ev =? KFD_EVENT_TYPE_HW_EXCEPTION)
              then Some (CopyPayload (payload ev))
              else if (ev_type ev =? KFD_EVENT_TYPE_SIGNAL) && event_age_enabled w
              then Some (CopyAge (event_age ev))
              else last in
            if bool_decide (last ≠ None) && fault then Some (-EFAULT, [])
            else
              '(r, out) ← copy_signaled_event_data fault p l last; Some (r, last :: out)
          else
            '(r, out) ← copy_signaled_event_data fault p l last; Some (r, None :: out)
      end
  end.

Definition remove_wait_queue (w : Z * nat) (p : process) (a : Z) : option process :=
  ev ← heap p !! a;
  Some (p <| heap ::= <[a := ev <| wq ::= filter (λ x, x ≠ w) |>]> |>).

(** [free_waiters] for the [n] waiters of the wait [k] from index [i]. *)
Fixpoint free_waiters (k : Z) (i n : nat) (undo : bool) (p : process) : option process :=
  match n with
  | O => Some p
  | S n =>
      w ← waiter_of p (k, i);
      match w_event w with
      | None => free_waiters k (S i) n undo p
      | Some a =>
          p ← remove_wait_queue (k, i) p a;
          ev ← heap p !! a;
          p ← (if undo && activated w && auto_reset ev then set_event p a else Some p);
          free_waiters k (S i) n undo p
      end
  end.

(** The initialisation loop of [kfd_wait_on_events]; the entries not reached
    keep a null event.  [None] in the list is a faulting copy. *)
Fixpoint init_waiters (p : process) (k : Z) (i : nat) (l : list (option kfd_event_data))
    : option (Z * process * list kfd_event_waiter) :=
  match l with
  | [] => Some (0, p, [])
  | x :: l' =>
      let unset := replicate (length l) (mk_waiter None false false) in
      match x with
      | None => Some (-EFAULT, p, unset)
      | Some x =>
          '(r, p, w) ← init_event_waiter p (k, i) x;
          if nz r then Some (r, p, unset)
          else '(r, p, ws) ← init_waiters p k (S i) l'; Some (r, p, w :: ws)
      end
  end.

(** Return code and result handed to the user. *)
Definition wait_return (ret : Z) (res : wait_result_t) : Z * wait_result_t :=
  if nz ret then (ret, KFD_IOC_WAIT_RESULT_FAIL)
  else if bool_decide (res = KFD_IOC_WAIT_RESULT_FAIL) then (-EIO, res) else (ret, res).

(** [out_unlock]: the waiters are taken off the queues and freed. *)
Definition out_unlock (k : Z) (ret : Z) (res : wait_result_t) (c : wait_call)
    (p : process) : option ((Z * wait_result_t) * process) :=
  p ← free_waiters k 0 (length (waiters c)) (ret =? -ERESTARTSYS) p;
  Some (wait_return ret res, p <| waits ::= delete k |>).

(** First critical section of [kfd_wait_on_events]: either it returns at once or
    the wait [k] goes on. *)
Definition wait_begin (alloc_ok fault : bool) (p : process) (k : Z)
    (l : list (option kfd_event_data)) (all : bool)
    : option (option (Z * wait_result_t) * process) :=
  if negb alloc_ok then Some (Some (-ENOMEM, KFD_IOC_WAIT_RESULT_FAIL), p)
  else
    '(r, p, ws) ← init_waiters p k 0 l;
    let c := mk_wait ws all false in
    let p := p <| waits ::= <[k := c]> |> in
    let finish ret res :=
      '(out, p) ← out_unlock k ret res c p; Some (Some out, p) in
    if nz r then finish r KFD_IOC_WAIT_RESULT_FAIL
    else
      match test_event_condition all ws with
      | KFD_IOC_WAIT_RESULT_COMPLETE =>
          '(r, _) ← copy_signaled_event_data fault p ws None;
          finish r KFD_IOC_WAIT_RESULT_COMPLETE
      | KFD_IOC_WAIT_RESULT_FAIL => finish 0 KFD_IOC_WAIT_RESULT_FAIL
      | KFD_IOC_WAIT_RESULT_TIMEOUT => Some (None, p)
      end.

(** One turn of the loop, not interrupted by a signal: the result, or sleep. *)
Definition wait_poll (p : process) (k : Z) (expired : bool)
    : option (option wait_result_t * process) :=
  c ← waits p !! k;
  let res := test_event_condition (wait_all c) (waiters c) in
  if negb (bool_decide (res = KFD_IOC_WAIT_RESULT_TIMEOUT)) || expired then Some (Some res, p)
  else Some (None, p <| waits ::= <[k := c <| asleep := true |>]> |>).

(** Last critical section: [ret] is 0 or the code of the interruption. *)
Definition wait_end (fault : bool) (p : process) (k : Z) (ret : Z) (res : wait_result_t)
    : option ((Z * wait_result_t) * process) :=
  c ← waits p !! k;
  ret ← (if negb (nz ret) && bool_decide (res = KFD_IOC_WAIT_RESULT_COMPLETE)
         then fst <$> copy_signaled_event_data fault p (waiters c) None else Some ret);
  out_unlock k ret res c p.

(** Milliseconds to jiffies; [MAX_SCHEDULE_TIMEOUT] is the largest [long]. *)
Definition user_timeout_to_jiffies (msecs_to_jiffies : Z → Z) (user_timeout_ms : Z) : Z :=
  if user_timeout_ms =? KFD_EVENT_TIMEOUT_IMMEDIATE then 0
  else if user_timeout_ms =? KFD_EVENT_TIMEOUT_INFINITE then 2 ^ 63 - 1
  else msecs_to_jiffies (Z.min user_timeout_ms 0x7fffffff) + 1.

End Events.
