(* ===== verification/EventsProof.v ===== *)
(** * Correctness of the events of a process

    The IDR and the heap agree through any history, so that no operation but the
    end of a wait can follow a pointer to a freed event; the two exhaustive
    searches of an interrupt are the same; and what auto-reset events do. *)

From S2P Require Import Prelude Events.

(** ** States that differ in signalling only *)

Definition key (ev : kfd_event) : Z * Z := (event_id ev, ev_type ev).

Record sim (p p' : process) : Prop := {
  sim_idr : event_idr p' = event_idr p;
  sim_next : next_addr p' = next_addr p;
  sim_mapped : signal_mapped_size p' = signal_mapped_size p;
  sim_count : signal_event_count p' = signal_event_count p;
  sim_page : signal_page p' = None ↔ signal_page p = None;
  sim_heap : key <$> heap p' = key <$> heap p;
}.

Lemma sim_refl p : sim p p.
Proof. by split. Qed.

Lemma sim_trans p1 p2 p3 : sim p1 p2 → sim p2 p3 → sim p1 p3.
Proof. intros [] []. split; congruence || tauto. Qed.

Lemma sim_event p p' a ev :
  sim p p' → heap p !! a = Some ev → ∃ ev', heap p' !! a = Some ev' ∧ key ev' = key ev.
Proof.
  intros Hs Ha. pose proof (f_equal (λ m, m !! a) (sim_heap _ _ Hs)) as H. simpl in H.
  rewrite !lookup_fmap, Ha in H. simpl in H. apply fmap_Some in H as (ev' & ? & ?). by exists ev'.
Qed.

Lemma sim_put p a ev ev' :
  heap p !! a = Some ev → key ev' = key ev → sim p (p <| heap ::= <[a := ev']> |>).
Proof.
  intros Ha Hk. split; simpl; try done. rewrite fmap_insert, Hk. apply insert_id.
  by rewrite lookup_fmap, Ha.
Qed.

Lemma sim_waits p f : sim p (p <| waits ::= f |>).
Proof. by split. Qed.

Lemma sim_write_slot p id v : sim p (write_slot p id v).
Proof. split; simpl; try done. by destruct (signal_page p). Qed.

Lemma sim_set_waiters f l p : sim p (foldr (set_waiter f) p l).
Proof. induction l; simpl; [apply sim_refl|]. eapply sim_trans; [done|apply sim_waits]. Qed.

Lemma heap_set_waiters f l p : heap (foldr (set_waiter f) p l) = heap p.
Proof. by induction l. Qed.

Lemma wake_up_all_sim l p :
  sim p (wake_up_all l p).2 ∧ heap (wake_up_all l p).2 = heap p.
Proof.
  revert p. induction l as [|w l IH]; intros p; cbn [wake_up_all]; [split; [apply sim_refl|done]|].
  destruct (waits p !! w.1) as [c|]; [destruct (asleep c)|].
  - destruct (IH (p <| waits ::= <[w.1 := c <| asleep := false |>]> |>)) as [Hs Hh].
    split; [eapply sim_trans; [apply sim_waits|exact Hs]|exact Hh].
  - destruct (IH p) as [Hs Hh]. by destruct (wake_up_all l p).
  - destruct (IH p) as [Hs Hh]. by destruct (wake_up_all l p).
Qed.

Lemma set_event_sim p a ev :
  heap p !! a = Some ev → ∃ p', set_event p a = Some p' ∧ sim p p'.
Proof.
  intros Ha. unfold set_event. rewrite Ha. cbn [mbind option_bind]. cbv zeta. simpl wq.
  set (p1 := foldr _ p (wq ev)).
  assert (Hs1 : sim p p1) by apply sim_set_waiters.
  assert (Hh1 : heap p1 = heap p) by apply heap_set_waiters. clearbody p1.
  destruct (wake_up_all_sim (wq ev) p1) as [Hs2 Hh2].
  destruct (wake_up_all (wq ev) p1) as [rest p2]. simpl in *.
  eexists. split; [done|]. eapply sim_trans; [exact Hs1|]. eapply sim_trans; [exact Hs2|].
  apply (sim_put _ _ ev); [by rewrite Hh2, Hh1|done].
Qed.

(** ** What becomes of the waiters of a queue *)

(** The task of the wait [k], if there is one, is not asleep. *)
Definition awake (p : process) (k : Z) : Prop := ∀ c, waits p !! k = Some c → asleep c = false.

Lemma waiter_of_set_waiter f w p w' :
  waiter_of (set_waiter f w p) w' = if decide (w = w') then f <$> waiter_of p w' else waiter_of p w'.
Proof.
  destruct w as [k i], w' as [k' i']. unfold waiter_of, set_waiter. simpl.
  destruct (decide (k = k')) as [<-|Hk].
  - rewrite lookup_alter_eq. destruct (waits p !! k) as [c|]; simpl; [|by destruct (decide _)].
    destruct (decide (i = i')) as [<-|Hi].
    + rewrite list_lookup_alter_eq. by rewrite decide_True.
    + rewrite list_lookup_alter_ne by done. rewrite decide_False; congruence.
  - rewrite lookup_alter_ne by done. rewrite decide_False; congruence.
Qed.

Lemma waiter_of_set_waiters f l p w :
  (∀ x, f (f x) = f x) →
  waiter_of (foldr (set_waiter f) p l) w =
  if decide (w ∈ l) then f <$> waiter_of p w else waiter_of p w.
Proof.
  intros Hf. induction l as [|w0 l IH]; cbn [foldr]; [by rewrite decide_False by apply not_elem_of_nil|].
  rewrite waiter_of_set_waiter, IH. destruct (decide (w0 = w)) as [->|Hne].
  - rewrite (decide_True (P := w ∈ w :: l)) by left. destruct (decide (w ∈ l)); [|done].
    destruct (waiter_of p w); simpl; [by rewrite Hf|done].
  - destruct (decide (w ∈ l)) as [Hin|Hin]; [rewrite decide_True by (by right); done|].
    rewrite decide_False; [done|]. rewrite elem_of_cons. naive_solver.
Qed.

Lemma waiter_of_awaken p k c w :
  waits p !! k = Some c →
  waiter_of (p <| waits ::= <[k := c <| asleep := false |>]> |>) w = waiter_of p w.
Proof.
  intros Hc. unfold waiter_of. simpl. destruct (decide (k = w.1)) as [<-|].
  - by rewrite lookup_insert_eq, Hc.
  - by rewrite lookup_insert_ne.
Qed.

(** Waking changes no waiter, wakes the task of every entry and adds no entry. *)
Lemma wake_up_all_spec l p :
  let r := wake_up_all l p in
  (∀ w, waiter_of r.2 w = waiter_of p w) ∧ (∀ w, w ∈ l → awake r.2 w.1) ∧ r.1 ⊆ l ∧
  (∀ k, awake p k → awake r.2 k).
Proof.
  revert p. induction l as [|w l IH]; intros p; cbn [wake_up_all].
  { cbn. split_and!; try done. by intros w ?%not_elem_of_nil. }
  destruct (waits p !! w.1) as [c|] eqn:Hc; [destruct (asleep c) eqn:Ha|].
  - set (p1 := p <| waits ::= _ |>). destruct (IH p1) as (H1 & H2 & H3 & H4).
    assert (Haw : ∀ k, awake p k ∨ k = w.1 → awake p1 k).
    { intros k Hk x. unfold p1. simpl. rewrite lookup_insert_Some.
      intros [[_ <-]|[Hne Hx]]; [done|]. destruct Hk as [Hk|]; [by apply Hk|congruence]. }
    cbn zeta. split_and!.
    + intros w'. rewrite H1. by apply waiter_of_awaken.
    + intros w' [->|Hw']%elem_of_cons; [apply H4, Haw; by right|by apply H2].
    + set_solver.
    + intros k Hk. apply H4, Haw. by left.
  - destruct (IH p) as (H1 & H2 & H3 & H4). destruct (wake_up_all l p) as [rest q].
    cbn [fst snd] in *. cbn zeta. split_and!; try done.
    + intros w' [->|Hw']%elem_of_cons; [apply H4; intros x Hx; congruence|by apply H2].
    + set_solver.
  - destruct (IH p) as (H1 & H2 & H3 & H4). destruct (wake_up_all l p) as [rest q].
    cbn [fst snd] in *. cbn zeta. split_and!; try done.
    + intros w' [->|Hw']%elem_of_cons; [apply H4; intros x Hx; congruence|by apply H2].
    + set_solver.
Qed.

(** The events of the waiters are not changed by a signal. *)
Definition same_events (p p' : process) : Prop :=
  ∀ w, w_event <$> waiter_of p' w = w_event <$> waiter_of p w.

Lemma set_event_same_events p a p' : set_event p a = Some p' → same_events p p'.
Proof.
  unfold set_event. destruct (heap p !! a) as [ev|]; [|done]. cbn [mbind option_bind]. cbv zeta.
  set (ev1 := ev <| signaled := _ |> <| event_age ::= next_age |>).
  change (wq ev1) with (wq ev). set (p1 := foldr _ p (wq ev)).
  destruct (wake_up_all_spec (wq ev) p1) as (H1 & _).
  destruct (wake_up_all (wq ev) p1) as [rest p2]. cbn [snd] in H1. intros [= <-] w.
  change (w_event <$> waiter_of p2 w = w_event <$> waiter_of p w). rewrite H1. unfold p1.
  rewrite waiter_of_set_waiters by done. destruct (decide _); [|done]. by destruct (waiter_of p w).
Qed.

(** ** Agreement of the IDR and the heap *)

Section Limit.
Context (LIMIT : Z) (alloc_event alloc_page : bool).
Context (Hlimit : 256 ≤ LIMIT < 2 ^ 30).

(** Number of signal and debug events of a set of events. *)
Definition signal_events (h : gmap Z (Z * Z)) : Z := msum (λ k, b2z (is_signal_type k.2)) h.

Lemma signal_events_nonneg h : 0 ≤ signal_events h.
Proof. apply msum_nonneg. intros k. by destruct (is_signal_type k.2). Qed.

(** Signal ids index the slots of the page, the others are in the upper half. *)
Definition id_ok (k : Z * Z) : Prop :=
  if is_signal_type k.2 then 0 < k.1 < LIMIT
  else KFD_FIRST_NONSIGNAL_EVENT_ID ≤ k.1 < 2 ^ 31.

Record ev_wf (p : process) : Prop := {
  wf_null : event_idr p !! 0 = Some None;
  wf_nonnull id : event_idr p !! id = Some None → id = 0;
  wf_idr id a : event_idr p !! id = Some (Some a) →
    ∃ ev, heap p !! a = Some ev ∧ event_id ev = id;
  wf_heap a ev : heap p !! a = Some ev → event_idr p !! event_id ev = Some (Some a);
  wf_fresh a : is_Some (heap p !! a) → a < next_addr p;
  wf_ids a ev : heap p !! a = Some ev → id_ok (key ev);
  wf_count : signal_event_count p = 1 + signal_events (key <$> heap p);
  wf_mapped : signal_mapped_size p = 0 ∨ 8 ≤ signal_mapped_size p ≤ LIMIT * 8;
  wf_page : signal_page p = None ↔ signal_mapped_size p = 0;
}.

Lemma wf_sim p p' : ev_wf p → sim p p' → ev_wf p'.
Proof.
  intros [Hn Hnn Hi Hh Hf Hid Hc Hm Hp] Hs.
  assert (Hback : ∀ a ev', heap p' !! a = Some ev' → ∃ ev, heap p !! a = Some ev ∧ key ev' = key ev).
  { intros a ev' Ha. pose proof (f_equal (λ m, m !! a) (sim_heap _ _ Hs)) as H. simpl in H.
    rewrite !lookup_fmap, Ha in H. simpl in H. symmetry in H. apply fmap_Some in H as (ev & ? & ?).
    by exists ev. }
  pose proof Hs as [Ei En Em Ec Ep Eh]. split; rewrite ?Ei, ?En, ?Em, ?Ec, ?Eh, ?Ep; try done.
  - intros id a Ha. destruct (Hi id a Ha) as (ev & He & <-).
    destruct (sim_event p p' a ev Hs He) as (ev' & He' & Hk). exists ev'. split; [done|].
    by injection Hk.
  - intros a ev' Ha. destruct (Hback a ev' Ha) as (ev & He & Hk).
    injection Hk as -> _. by apply Hh.
  - intros a [ev' Ha]. destruct (Hback a ev' Ha) as (ev & He & _). apply Hf. by eexists.
  - intros a ev' Ha. destruct (Hback a ev' Ha) as (ev & He & ->). by apply (Hid a).
Qed.

Lemma init_wf : ev_wf kfd_event_init_process.
Proof.
  split; simpl; try done; try lia.
  - intros id H. by apply lookup_singleton_Some in H as [? _].
  - intros id a H. by apply lookup_singleton_Some in H as [? ?].
  - intros a [? H]. done.
Qed.

Lemma idr_find_Some p id a :
  ev_wf p → idr_find p id = Some a → event_idr p !! id = Some (Some a) ∧
  ∃ ev, heap p !! a = Some ev ∧ event_id ev = id.
Proof.
  intros Hwf Hf. unfold idr_find in Hf. destruct (event_idr p !! id) as [[x|]|] eqn:E; try done.
  simpl in Hf. simplify_eq. split; [done|]. by apply (wf_idr p Hwf).
Qed.

Lemma wf_fresh_None p a : ev_wf p → next_addr p ≤ a → heap p !! a = None.
Proof.
  intros Hwf Ha. destruct (heap p !! a) eqn:E; [|done].
  assert (a < next_addr p) by (apply (wf_fresh p Hwf); by eexists). lia.
Qed.

(** ** Creation *)

Lemma idr_alloc_spec m s t id :
  idr_alloc m s t = inl id → 0 ≤ s ∧ s ≤ id ∧ id < (if 0 <? t then t else 2 ^ 31) ∧ m !! id = None.
Proof.
  unfold idr_alloc. destruct (s <? 0) eqn:E; bool_to_Prop; [done|]. cbv zeta.
  destruct (scan _ _ _) as [i|] eqn:Es; [|done]. intros [= ->].
  apply scan_Some in Es as (Hi & Hn & _). apply bool_decide_eq_true in Hn.
  set (mx := if 0 <? t then t else 2 ^ 31) in *. split_and!; [done|lia|lia|done].
Qed.

Lemma idr_alloc_exact m id : 0 ≤ id → m !! id = None → idr_alloc m id (id + 1) = inl id.
Proof.
  intros H0 Hm. unfold idr_alloc. rewrite (proj2 (Z.ltb_ge _ _)) by lia.
  rewrite (proj2 (Z.ltb_lt _ _)) by lia. cbv zeta.
  replace (Z.to_nat _) with 1%nat by lia. simpl. by rewrite bool_decide_eq_true_2.
Qed.

Lemma idr_alloc_err m s t r : idr_alloc m s t = inr r → r ≠ 0.
Proof. unfold idr_alloc. destruct (s <? 0); [by intros [= <-]|]. cbv zeta. destruct (scan _ _ _); [done|by intros [= <-]]. Qed.

(** There are fewer signal and debug events than slots, for each has an id of its own. *)
Lemma count_bound p : ev_wf p → 1 ≤ signal_event_count p ≤ LIMIT.
Proof.
  intros Hwf. rewrite (wf_count p Hwf). pose proof (signal_events_nonneg (key <$> heap p)). split; [lia|].
  assert (Hsize : ∀ m : gmap Z kfd_event, msum (λ ev, b2z (is_signal_type (ev_type ev))) m
    = Z.of_nat (size (filter (λ x : Z * kfd_event, is_signal_type (ev_type x.2) = true) m))).
  { intros m. induction m as [|a ev m Ha IH] using map_ind; [by rewrite msum_empty, map_filter_empty, map_size_empty|].
    rewrite msum_insert_None, IH by done. destruct (is_signal_type (ev_type ev)) eqn:Et.
    - rewrite map_filter_insert_True by done. rewrite map_size_insert_None; [simpl b2z; lia|].
      apply map_lookup_filter_None. by left.
    - rewrite map_filter_insert_False by (simpl; congruence). rewrite delete_id by done. simpl. lia. }
  unfold signal_events. rewrite msum_fmap. unfold key at 1. simpl. rewrite Hsize.
  set (fm := filter _ (heap p)). set (l := (λ x : Z * kfd_event, event_id x.2) <$> map_to_list fm).
  assert (Hin : ∀ x, x ∈ map_to_list fm → heap p !! x.1 = Some x.2 ∧ is_signal_type (ev_type x.2) = true).
  { intros [a ev] Hx. apply elem_of_map_to_list in Hx. by apply map_lookup_filter_Some in Hx. }
  assert (Hle : (length l ≤ length (seqZ 1 (LIMIT - 1)))%nat).
  { apply submseteq_length, NoDup_submseteq.
    - apply NoDup_fmap_2_strong; [|apply NoDup_map_to_list].
      intros [a ev] [b v] Ha Hb E. apply Hin in Ha as [Ha _], Hb as [Hb _]. simpl in *.
      pose proof (wf_heap p Hwf a ev Ha) as H1. pose proof (wf_heap p Hwf b v Hb) as H2. congruence.
    - intros id (x & -> & Hx)%list_elem_of_fmap. apply Hin in Hx as [Hx Ht].
      pose proof (wf_ids p Hwf _ _ Hx) as Hid. unfold id_ok, key in Hid. simpl in Hid. rewrite Ht in Hid.
      apply elem_of_seqZ. lia. }
  unfold l in Hle. rewrite length_fmap, length_map_to_list, length_seqZ in Hle. lia.
Qed.

(** Adding an event under a free id. *)
Lemma wf_add p p' a ev :
  ev_wf p → heap p !! a = None → a < next_addr p' → next_addr p ≤ next_addr p' →
  event_idr p !! event_id ev = None →
  id_ok (key ev) →
  event_idr p' = <[event_id ev := Some a]> (event_idr p) →
  heap p' = <[a := ev]> (heap p) →
  signal_event_count p' = signal_event_count p + b2z (is_signal_type (ev_type ev)) →
  signal_mapped_size p' = 0 ∨ 8 ≤ signal_mapped_size p' ≤ LIMIT * 8 →
  (signal_page p' = None ↔ signal_mapped_size p' = 0) → ev_wf p'.
Proof.
  intros [Hn Hnn Hi Hh Hf Hid Hc Hm Hp] Hfa Ha Hna Hfree Hok Ei Eh Ec Hm' Hp'.
  split; rewrite ?Ei, ?Eh, ?Ec; try done.
  - rewrite lookup_insert_ne; [done|]. intros E0. rewrite E0 in Hfree. congruence.
  - intros id Hx. apply lookup_insert_Some in Hx as [[_ ?]|[_ ?]]; [done|auto].
  - intros id x Hx. apply lookup_insert_Some in Hx as [[<- [= <-]]|[Hne Hx]].
    + exists ev. by rewrite lookup_insert_eq.
    + destruct (Hi id x Hx) as (v & Hv & <-). exists v. rewrite lookup_insert_ne by congruence. done.
  - intros x v Hx. apply lookup_insert_Some in Hx as [[<- <-]|[Hne Hx]]; [by rewrite lookup_insert_eq|].
    rewrite lookup_insert_ne; [by apply Hh|]. intros E0. rewrite E0, (Hh x v Hx) in Hfree. done.
  - intros x [v Hx]. apply lookup_insert_Some in Hx as [[<- _]|[_ Hx]]; [lia|].
    assert (x < next_addr p) by (apply Hf; by eexists). lia.
  - intros x v Hx. apply lookup_insert_Some in Hx as [[_ <-]|[_ Hx]]; [done|by eapply Hid].
  - rewrite fmap_insert. unfold signal_events in *.
    rewrite msum_insert_None by (by rewrite lookup_fmap, Hfa). rewrite Hc. simpl. lia.
Qed.

Lemma wf_skip_addr p : ev_wf p → ev_wf (p <| next_addr ::= Z.succ |>).
Proof. intros [Hn Hnn Hi Hh Hf Hid Hc Hm Hp]. split; simpl; try done. intros a Ha. specialize (Hf a Ha). lia. Qed.

Lemma wf_map_page p size pg :
  ev_wf p → 8 ≤ size ≤ LIMIT * 8 →
  ev_wf (p <| signal_page := Some pg |> <| signal_mapped_size := size |>).
Proof.
  intros [Hn Hnn Hi Hh Hf Hid Hc _ _] Hs. split; simpl; try done; [by right|]. split; [done|lia].
Qed.

(** The page is there once a slot is asked for, unless memory runs out. *)
Lemma ensure_page p p1 :
  ev_wf p →
  match signal_page p with
  | Some _ => Some p
  | None => (λ p, p <| signal_mapped_size := 256 * 8 |>) <$> allocate_signal_page alloc_page p
  end = Some p1 →
  ev_wf p1 ∧ event_idr p1 = event_idr p ∧ next_addr p1 = next_addr p ∧ heap p1 = heap p ∧
  8 ≤ signal_mapped_size p1 ≤ LIMIT * 8.
Proof.
  intros Hwf Hp1. destruct (signal_page p) eqn:E.
  - simplify_eq. split_and!; try done; destruct (wf_mapped p1 Hwf) as [H0|?]; try lia;
      apply (wf_page p1 Hwf) in H0; congruence.
  - unfold allocate_signal_page in Hp1. destruct alloc_page; [|done]. injection Hp1 as <-.
    split; [apply wf_map_page; [done|lia]|]. simpl. split_and!; done || lia.
Qed.

(** The id a restored event asks for is one that its type could have been given. *)
Definition restore_ok (type : Z) (rid : option Z) : Prop :=
  match rid with Some id => id_ok (id, type) | None => True end.

(** The event that a creation gave an id can be put in the heap. *)
Definition created (p : process) (addr : Z) (ev : kfd_event) (res : Z * process * kfd_event) : Prop :=
  let '(ret, p', ev') := res in
  if nz ret then ev_wf p'
  else ∀ v, event_id v = event_id ev' → ev_type v = ev_type ev → ev_wf (p' <| heap ::= <[addr := v]> |>).

Lemma create_signal_wf p addr ev rid :
  ev_wf p → heap p !! addr = None → addr < next_addr p → is_signal_type (ev_type ev) = true →
  restore_ok (ev_type ev) rid → created p addr ev (create_signal_event alloc_page p addr ev rid).
Proof.
  intros Hwf Hfa Ha Et Hrid. unfold create_signal_event.
  destruct (_ && _); [destruct Hwf; by split|]. unfold allocate_event_notification_slot.
  destruct (match signal_page p with Some _ => _ | None => _ end) as [p1|] eqn:Ep1; [|done].
  apply ensure_page in Ep1 as (Hwf1 & Ei & En & Eh & Hm1); [|done].
  assert (Hq : 1 ≤ signal_mapped_size p1 / 8 ≤ LIMIT).
  { split; [apply Z.div_le_lower_bound|apply Z.div_le_upper_bound]; lia. }
  set (o := match rid with Some id => _ | None => _ end).
  destruct o as [id|err] eqn:Ea; subst o.
  2:{ assert (err ≠ 0) by (destruct rid; by apply idr_alloc_err in Ea).
      unfold created. rewrite !(proj2 (nz_true err)) by done. done. }
  assert (0 ≤ id < LIMIT ∧ event_idr p1 !! id = None) as [Hid Hfree].
  { destruct rid as [id'|]; apply idr_alloc_spec in Ea as (_ & Hge & Hlt & Hfree); (split; [|done]).
    - unfold restore_ok, id_ok in Hrid. simpl in Hrid. rewrite Et in Hrid.
      rewrite s32_small in Hge by lia. rewrite s32_small in Hlt by lia.
      rewrite (proj2 (Z.ltb_lt _ _)) in Hlt by lia. lia.
    - rewrite s32_small in Hlt by lia. rewrite (proj2 (Z.ltb_lt _ _)) in Hlt by lia. lia. }
  assert (id ≠ 0) by (intros ->; rewrite (wf_null p1 Hwf1) in Hfree; done).
  unfold created. cbn [nz Z.eqb negb fst snd]. intros v Hv Ht. simpl in Hv. pose proof (count_bound p1 Hwf1).
  eapply (wf_add p1 _ addr v); try done; simpl.
  - by rewrite Eh.
  - by rewrite En.
  - by rewrite Hv.
  - unfold id_ok, key. simpl. rewrite Ht, Et. lia.
  - by rewrite Hv.
  - rewrite Ht, Et. simpl. apply wrap_small. unfold in_width. lia.
  - by right.
  - rewrite <- (wf_page p1 Hwf1). by destruct (signal_page p1).
Qed.

Lemma create_other_wf p addr ev rid :
  ev_wf p → heap p !! addr = None → addr < next_addr p → is_signal_type (ev_type ev) = false →
  restore_ok (ev_type ev) rid → created p addr ev (create_other_event p addr ev rid).
Proof.
  intros Hwf Hfa Ha Et Hrid. unfold create_other_event.
  set (o := match rid with Some id => _ | None => _ end).
  destruct o as [id|err] eqn:Ea; subst o.
  2:{ assert (err ≠ 0) by (destruct rid; by apply idr_alloc_err in Ea).
      unfold created. rewrite !(proj2 (nz_true err)) by done. done. }
  assert (KFD_FIRST_NONSIGNAL_EVENT_ID ≤ id < 2 ^ 31 ∧ event_idr p !! id = None) as [Hid Hfree].
  { destruct rid as [id'|]; apply idr_alloc_spec in Ea as (_ & Hge & Hlt & Hfree); (split; [|done]).
    - unfold restore_ok, id_ok, KFD_FIRST_NONSIGNAL_EVENT_ID in *. simpl in Hrid. rewrite Et in Hrid.
      rewrite s32_small in Hge by lia. split; [lia|].
      destruct (decide (id' = 2 ^ 31 - 1)) as [->|].
      + change (s32 (2 ^ 31 - 1 + 1)) with (- 2 ^ 31) in Hlt.
        change (0 <? - 2 ^ 31) with false in Hlt. exact Hlt.
      + rewrite s32_small in Hlt by lia. rewrite (proj2 (Z.ltb_lt _ _)) in Hlt by lia. lia.
    - change (s32 (u32 KFD_LAST_NONSIGNAL_EVENT_ID + 1)) with (- 2 ^ 31) in Hlt.
      change (0 <? - 2 ^ 31) with false in Hlt. cbv iota in Hlt. done. }
  unfold created. cbn [nz Z.eqb negb]. cbn [fst snd]. intros v Hv Ht. simpl in Hv.
  eapply (wf_add p _ addr v); try done; simpl.
  - by rewrite Hv.
  - unfold id_ok, key. simpl. by rewrite Ht, Et, Hv.
  - by rewrite Hv.
  - rewrite Ht, Et. simpl. lia.
  - apply (wf_mapped p Hwf).
  - apply (wf_page p Hwf).
Qed.

Lemma kfd_event_create_wf p type r :
  ev_wf p → ev_wf (kfd_event_create alloc_event alloc_page p type r).1.2.
Proof.
  intros Hwf. unfold kfd_event_create. destruct alloc_event; [|done]. cbn [negb]. cbv iota zeta.
  set (p0 := p <| next_addr ::= Z.succ |>). set (ev := mk_event 0 0 false r type [] NoPayload).
  assert (Hwf0 : ev_wf p0) by (by apply wf_skip_addr).
  pose proof (wf_fresh_None p (next_addr p) Hwf (Z.le_refl _)) as Hfa.
  assert (Hc : created p0 (next_addr p) ev (if is_signal_type type then create_signal_event alloc_page p0 (next_addr p) ev None
             else create_other_event p0 (next_addr p) ev None)).
  { destruct (is_signal_type type) eqn:Et; [apply create_signal_wf|apply create_other_wf]; try done; simpl; lia. }
  destruct (if is_signal_type type then _ else _) as [[ret p1] ev1] eqn:E. unfold created in Hc.
  destruct (nz ret) eqn:Er; [done|]. apply Hc; [done|].
  assert (ev_type ev1 = type) as <-; [|done].
  revert E. unfold create_signal_event, create_other_event, allocate_event_notification_slot.
  repeat case_match; intros; by simplify_eq.
Qed.

(** A record that the driver could have written: of a type it restores, with an id
    that this type can have. *)
Definition priv_ok (v : event_priv) : Prop :=
  id_ok (ep_id v, ep_type v) ∧
  (is_signal_type (ep_type v) = true ∨ ep_type v = KFD_EVENT_TYPE_MEMORY ∨ ep_type v = KFD_EVENT_TYPE_HW_EXCEPTION).

Lemma kfd_criu_restore_event_wf p data :
  ev_wf p → match data with inr v => priv_ok v | inl _ => True end →
  ev_wf (kfd_criu_restore_event alloc_event alloc_page p data).2.
Proof.
  intros Hwf Hok. unfold kfd_criu_restore_event. destruct alloc_event; [|done]. cbn [negb].
  destruct data as [err|v]; [done|]. cbv iota zeta. destruct Hok as [Hid Hty].
  set (p0 := p <| next_addr ::= Z.succ |>).
  set (ev := mk_event 0 0 (ep_signaled v) (ep_auto_reset v) (ep_type v) [] NoPayload).
  assert (Hwf0 : ev_wf p0) by (by apply wf_skip_addr).
  pose proof (wf_fresh_None p (next_addr p) Hwf (Z.le_refl _)) as Hfa.
  set (res := if is_signal_type (ep_type v) then _ else _).
  assert (Hres : ∃ ev0, ev_type ev0 = ep_type v ∧ created p0 (next_addr p) ev0 res ∧ ev_type res.2 = ep_type v).
  { unfold res. destruct (is_signal_type (ep_type v)) eqn:Et.
    - exists ev. split; [done|]. split; [apply create_signal_wf; try done; simpl; lia|].
      unfold create_signal_event, allocate_event_notification_slot. by repeat case_match; simplify_eq.
    - assert ((ep_type v =? KFD_EVENT_TYPE_MEMORY) || (ep_type v =? KFD_EVENT_TYPE_HW_EXCEPTION) = true) as ->.
      { apply orb_true_iff. rewrite !Z.eqb_eq. destruct Hty as [?|?]; [congruence|done]. }
      exists (ev <| payload := ep_payload v |>). split; [done|].
      split; [apply create_other_wf; try done; simpl; lia|].
      unfold create_other_event. by repeat case_match; simplify_eq. }
  destruct Hres as (ev0 & Ht0 & Hc & Ht). clearbody res. destruct res as [[ret p1] ev1]. unfold created in Hc.
  destruct (nz ret); [done|]. simpl in *. apply Hc; [done|congruence].
Qed.

(** The page is a power of two of pages long, as [KFD_SIGNAL_EVENT_LIMIT] has it. *)
Lemma get_order_le size :
  (∃ k, 0 ≤ k ∧ LIMIT * 8 = 4096 * 2 ^ k) → 0 < size → size `mod` 4096 = 0 →
  get_order size ≤ get_order (LIMIT * 8) → size ≤ LIMIT * 8.
Proof.
  intros (k & Hk & ->) Hs Hm Ho. unfold get_order in Ho.
  assert (Hdiv : ∀ n, (4096 * n + 4095) / 4096 = n).
  { intros n. Z.to_euclidean_division_equations. lia. }
  rewrite Hdiv, Z.log2_up_pow2 in Ho by done.
  assert (E : size = 4096 * (size / 4096)) by (Z.to_euclidean_division_equations; lia).
  rewrite E, Hdiv in Ho. rewrite E. apply Z.mul_le_mono_nonneg_l; [done|].
  apply Z.log2_up_le_pow2; [|done]. Z.to_euclidean_division_equations; lia.
Qed.

Lemma kfd_event_mmap_wf p size ret :
  (∃ k, 0 ≤ k ∧ LIMIT * 8 = 4096 * 2 ^ k) → ev_wf p → 0 < size → size `mod` 4096 = 0 →
  ev_wf (kfd_event_mmap LIMIT p size ret).2.
Proof.
  intros Hpow Hwf Hs Hm. unfold kfd_event_mmap.
  destruct (Z.ltb_spec (get_order (LIMIT * 8)) (get_order size)) as [|Ho]; [done|].
  destruct (signal_page p) as [pg|] eqn:Ep; [|done]. destruct (nz ret); [done|]. cbn [snd].
  assert (p <| signal_mapped_size := size |> = p <| signal_page := Some pg |> <| signal_mapped_size := size |>) as ->.
  { destruct p. simpl in *. by rewrite Ep. }
  apply wf_map_page; [done|]. split; [Z.to_euclidean_division_equations; lia|by apply get_order_le].
Qed.

(** ** Destruction *)

Lemma destroy_event_wf p a ev :
  ev_wf p → heap p !! a = Some ev →
  ∃ p', destroy_event p a = Some p' ∧ ev_wf p' ∧
    event_idr p' = delete (event_id ev) (event_idr p) ∧ heap p' = delete a (heap p).
Proof.
  intros Hwf Ha. unfold destroy_event. rewrite Ha. cbn [mbind option_bind].
  set (p1 := foldr _ p (wq ev)).
  assert (Hs1 : sim p p1) by apply sim_set_waiters.
  assert (Hh1 : heap p1 = heap p) by apply heap_set_waiters. clearbody p1.
  destruct (wake_up_all_sim (wq ev) p1) as [Hs2 Hh2].
  destruct (wake_up_all (wq ev) p1) as [rest p2]. cbn [snd] in *.
  pose proof (sim_trans _ _ _ Hs1 Hs2) as Hs. rewrite Hh1 in Hh2. clear Hs1 Hs2 Hh1.
  pose proof (wf_sim p p2 Hwf Hs) as Hwf2. eexists. split; [done|].
  assert (Hi2 : event_idr p2 = event_idr p) by apply (sim_idr _ _ Hs).
  rewrite <- Hh2 in Ha. rewrite <- Hh2, <- Hi2. clear Hs Hh2 Hi2 Hwf p p1 rest.
  pose proof Hwf2 as [Hn Hnn Hi Hh Hf Hid Hc Hm Hp]. specialize (Hid a ev Ha) as Hk.
  assert (Hdel : signal_events (delete a (key <$> heap p2)) =
    signal_events (key <$> heap p2) - b2z (is_signal_type (ev_type ev))).
  { unfold signal_events. by rewrite (msum_delete _ _ _ (key ev)) by (by rewrite lookup_fmap, Ha). }
  pose proof (signal_events_nonneg (delete a (key <$> heap p2))) as Hpos.
  set (p3 := if is_signal_type (ev_type ev) then _ else p2).
  assert (H3 : event_idr p3 = event_idr p2 ∧ heap p3 = heap p2 ∧ next_addr p3 = next_addr p2 ∧
    signal_mapped_size p3 = signal_mapped_size p2 ∧ signal_page p3 = signal_page p2 ∧
    signal_event_count p3 = 1 + signal_events (delete a (key <$> heap p2))).
  { subst p3. rewrite Hdel. destruct (is_signal_type (ev_type ev)); simpl in *;
      split_and!; try done; [|lia]. pose proof (count_bound p2 Hwf2).
    rewrite wrap_small; [lia|]. unfold in_width. lia. }
  destruct H3 as (E1 & E2 & E3 & E4 & E5 & E6). clearbody p3.
  split; [|split; simpl; by rewrite ?E1, ?E2].
  assert (Hne0 : event_id ev ≠ 0) by (intros E0; specialize (Hh a ev Ha); rewrite E0 in Hh; congruence).
  split; simpl; rewrite ?E1, ?E2, ?E3, ?E4, ?E5, ?E6; try done.
  - by rewrite lookup_delete_ne.
  - intros id Hx. apply lookup_delete_Some in Hx as [_ Hx]. by apply Hnn.
  - intros id x Hx. apply lookup_delete_Some in Hx as [Hne Hx].
    destruct (Hi id x Hx) as (v & Hv & <-). exists v. rewrite lookup_delete_ne; [done|].
    intros ->. congruence.
  - intros x v Hx. apply lookup_delete_Some in Hx as [Hne Hx]. rewrite lookup_delete_ne; [by apply Hh|].
    intros E0. pose proof (Hh a ev Ha) as H1. rewrite E0, (Hh x v Hx) in H1. congruence.
  - intros x [v Hx]. apply lookup_delete_Some in Hx as [_ Hx]. apply Hf. by eexists.
  - intros x v Hx. apply lookup_delete_Some in Hx as [_ Hx]. by apply (Hid x).
  - by rewrite fmap_delete.
Qed.

Lemma kfd_event_destroy_wf p id :
  ev_wf p → ∃ r p', kfd_event_destroy p id = Some (r, p') ∧ ev_wf p'.
Proof.
  intros Hwf. unfold kfd_event_destroy. destruct (idr_find p id) as [a|] eqn:E; [|by eexists _, _].
  apply idr_find_Some in E as (_ & ev & Ha & _); [|done].
  destruct (destroy_event_wf p a ev Hwf Ha) as (p' & -> & ? & _). by eexists _, _.
Qed.

(** ** Signalling *)

Definition alive (p : process) (a : Z) : Prop := is_Some (heap p !! a).

Lemma sim_alive p p' a : sim p p' → alive p a → alive p' a.
Proof. intros Hs [ev Ha]. destruct (sim_event p p' a ev Hs Ha) as (ev' & H & _). by eexists. Qed.

Lemma idr_find_alive p id a : ev_wf p → idr_find p id = Some a → alive p a.
Proof. intros Hwf H. apply idr_find_Some in H as (_ & ev & Ha & _); [|done]. by eexists. Qed.

Lemma set_event_alive p a : alive p a → ∃ p', set_event p a = Some p' ∧ sim p p'.
Proof. intros [ev Ha]. by apply (set_event_sim p a ev). Qed.

Lemma reset_event_sim p a : alive p a → ∃ p', reset_event p a = Some p' ∧ sim p p'.
Proof.
  intros [ev Ha]. unfold reset_event. rewrite Ha. eexists. split; [done|]. by apply (sim_put p a ev).
Qed.

Lemma cpu_signal_sim f p id :
  (∀ a, alive p a → ∃ p', f p a = Some p' ∧ sim p p') → ev_wf p →
  ∃ r p', cpu_signal f p id = Some (r, p') ∧ sim p p'.
Proof.
  intros Hf Hwf. unfold cpu_signal. destruct (idr_find p id) as [a|] eqn:E.
  2:{ eexists _, _. split; [done|apply sim_refl]. }
  pose proof (idr_find_alive p id a Hwf E) as Ha. destruct (Hf a Ha) as (p' & Hp' & Hs).
  destruct Ha as [ev ->]. cbn [mbind option_bind].
  destruct (event_can_be_cpu_signaled ev); rewrite ?Hp'; eexists _, _; (split; [done|]); by try apply sim_refl.
Qed.

Lemma set_event_from_interrupt_sim p o :
  (∀ a, o = Some a → alive p a) → ∃ p', set_event_from_interrupt p o = Some p' ∧ sim p p'.
Proof.
  intros Ho. destruct o as [a|]; simpl; [|eexists; split; [done|apply sim_refl]].
  destruct (Ho a eq_refl) as [ev Ha]. rewrite Ha. cbn [mbind option_bind].
  destruct (event_can_be_gpu_signaled ev); [|eexists; split; [done|apply sim_refl]].
  destruct (set_event_sim (acknowledge_signal p ev) a ev) as (p' & -> & Hs); [done|].
  eexists. split; [done|]. eapply sim_trans; [apply sim_write_slot|exact Hs].
Qed.

(** A loop over events that only signals. *)
Lemma foldl_sim {X} (P : process → X → Prop) (f : process → X → option process) l p :
  (∀ q x, P q x → ∃ q', f q x = Some q' ∧ sim q q') →
  (∀ q q' x, sim q q' → P q x → P q' x) → Forall (P p) l →
  ∃ p', foldl (λ o x, q ← o; f q x) (Some p) l = Some p' ∧ sim p p'.
Proof.
  intros Hf HP. revert p. induction l as [|x l IH]; intros p Hl; simpl.
  - eexists. split; [done|apply sim_refl].
  - apply Forall_cons in Hl as [Hx Hl]. destruct (Hf p x Hx) as (q & -> & Hs).
    destruct (IH q) as (p' & -> & Hs'); [eapply Forall_impl; [exact Hl|]; eauto|].
    eexists. split; [done|]. by eapply sim_trans.
Qed.

Lemma signal_if_set_sim p ids :
  ev_wf p → ∃ p', foldl signal_if_set (Some p) ids = Some p' ∧ sim p p'.
Proof.
  intros Hwf.
  apply (foldl_sim (λ q _, ev_wf q) (λ q id, if page_slot q id =? UNSIGNALED_EVENT_SLOT then Some q
    else set_event_from_interrupt q (idr_find q id))).
  - intros q id Hq. destruct (_ =? _); [eexists; split; [done|apply sim_refl]|].
    apply set_event_from_interrupt_sim. intros a. by apply idr_find_alive.
  - intros q q' _ Hs Hq. by apply (wf_sim q).
  - by apply Forall_forall.
Qed.

Lemma lookup_partial_find n p id step a :
  lookup_partial LIMIT n p id step = Some a → ∃ id', idr_find p id' = Some a.
Proof.
  revert id. induction n as [|n IH]; intros id; simpl; [done|].
  destruct (LIMIT <=? id); [done|]. destruct (_ =? _); [apply IH|].
  destruct (idr_find p id) eqn:E; [|apply IH]. intros [= <-]. by eexists.
Qed.

Lemma kfd_signal_event_interrupt_sim p pid bits :
  ev_wf p → ∃ p', kfd_signal_event_interrupt LIMIT p pid bits = Some p' ∧ sim p p'.
Proof.
  intros Hwf. unfold kfd_signal_event_interrupt.
  destruct (if nz bits then _ else None) as [a|] eqn:E.
  - apply set_event_from_interrupt_sim. intros ? [= <-].
    assert (∃ id, idr_find p id = Some a) as [id Hid]; [|by apply (idr_find_alive p id)].
    destruct (nz bits); [|done]. unfold lookup_signaled_event_by_partial_id in E.
    destruct (_ || _); [done|]. destruct (_ || _).
    + destruct (_ =? _); [done|]. by eexists.
    + by apply lookup_partial_find in E.
  - destruct (signal_page p); [|eexists; split; [done|apply sim_refl]].
    destruct (_ <? _); by apply signal_if_set_sim.
Qed.

Lemma elem_of_idr_entries p from id a :
  (id, a) ∈ idr_entries p from ↔ from ≤ id ∧ event_idr p !! id = Some (Some a).
Proof.
  unfold idr_entries. rewrite list_elem_of_omap. split.
  - intros ([i [b|]] & Hin & Hx); simpl in Hx; [|by destruct (from <=? i)].
    destruct (from <=? i) eqn:Ei; simplify_eq/=. bool_to_Prop. split; [done|].
    rewrite merge_sort_Permutation in Hin. by apply elem_of_map_to_list.
  - intros [Hf Hi]. exists (id, Some a). rewrite merge_sort_Permutation. split.
    + by apply elem_of_map_to_list.
    + simpl. by rewrite (proj2 (Z.leb_le _ _)).
Qed.

Lemma idr_entries_alive p from : ev_wf p → Forall (λ x, alive p x.2) (idr_entries p from).
Proof.
  intros Hwf. apply Forall_forall. intros [id a] Hx. apply elem_of_idr_entries in Hx as [_ Hx].
  destruct (wf_idr p Hwf id a Hx) as (ev & Ha & _). by eexists.
Qed.

Lemma signal_payload_sim f p : ev_wf p → ∃ p', signal_payload f p = Some p' ∧ sim p p'.
Proof.
  intros Hwf. unfold signal_payload.
  set (g := λ q (x : Z * Z), ev ← heap q !! x.2;
    match f ev with
    | None => Some q
    | Some d => set_event (q <| heap ::= <[x.2 := ev <| payload := d |>]> |>) x.2
    end).
  destruct (foldl_sim (λ q x, alive q x.2) g (idr_entries p KFD_FIRST_NONSIGNAL_EVENT_ID) p)
    as (p' & Hp' & Hs).
  - intros q [id a] [ev Ha]. unfold g. simpl in Ha. cbn [snd]. rewrite Ha. cbn [mbind option_bind].
    destruct (f ev) as [d|]; [|eexists; split; [done|apply sim_refl]].
    set (q1 := q <| heap ::= _ |>).
    destruct (set_event_alive q1 a) as (q' & Hq' & Hs);
      [eexists; apply lookup_insert_eq|]. exists q'. split; [done|].
    eapply sim_trans; [by apply (sim_put q a ev (ev <| payload := d |>))|exact Hs].
  - intros q q' x. apply sim_alive.
  - by apply idr_entries_alive.
  - exists p'. split; [|done]. rewrite <- Hp'. clear. generalize (Some p).
    induction (idr_entries p _) as [|[id a] l IH]; intros o; [done|]. simpl. apply IH.
Qed.

(** ** Waiting *)

Definition live_waiters (p : process) (ws : list kfd_event_waiter) : Prop :=
  Forall (λ w, ∀ a, w_event w = Some a → alive p a) ws.

Lemma sim_live_waiters p p' ws : sim p p' → live_waiters p ws → live_waiters p' ws.
Proof.
  intros Hs Hl. eapply Forall_impl; [exact Hl|]. intros w Hw a Ha. by apply (sim_alive p), Hw.
Qed.

Lemma live_waiters_unset p n : live_waiters p (replicate n (mk_waiter None false false)).
Proof. by apply Forall_replicate. Qed.

Lemma init_event_waiter_sim p w x :
  ev_wf p → ∃ r p' wt, init_event_waiter p w x = Some (r, p', wt) ∧ sim p p' ∧
    (∀ a, w_event wt = Some a → alive p' a).
Proof.
  intros Hwf. unfold init_event_waiter. destruct (idr_find p _) as [a|] eqn:E.
  2:{ eexists _, _, _. split; [done|]. split; [apply sim_refl|done]. }
  apply idr_find_alive in E as [ev Ha]; [|done]. rewrite Ha. cbn [mbind option_bind].
  eexists _, _, _. split; [done|]. cbv zeta.
  match goal with |- sim _ (_ <| heap ::= <[_ := ?v]> |>) ∧ _ =>
    pose proof (sim_put p a ev v Ha eq_refl) as Hs end.
  split; [exact Hs|]. intros ? [= <-]. eapply sim_alive; [exact Hs|by eexists].
Qed.

Lemma init_waiters_sim p k i l :
  ev_wf p → ∃ r p' ws, init_waiters p k i l = Some (r, p', ws) ∧ sim p p' ∧ live_waiters p' ws.
Proof.
  revert p i. induction l as [|[x|] l IH]; intros p i Hwf; cbn [init_waiters].
  - eexists _, _, _. split; [done|]. split; [apply sim_refl|by constructor].
  - destruct (init_event_waiter_sim p (k, i) x Hwf) as (r & p1 & wt & -> & Hs & Hwt).
    cbn [mbind option_bind]. destruct (nz r).
    { eexists _, _, _. split; [done|]. split; [done|apply live_waiters_unset]. }
    destruct (IH p1 (S i)) as (r2 & p2 & ws & -> & Hs2 & Hws); [by apply (wf_sim p)|].
    cbn [mbind option_bind]. eexists _, _, _. split; [done|].
    split; [by eapply sim_trans|]. constructor; [|done]. intros a Ha. by apply (sim_alive p1), Hwt.
  - eexists _, _, _. split; [done|]. split; [apply sim_refl|apply live_waiters_unset].
Qed.

(** The waiters of the wait [k] from [i] to [i + n] are there and their events alive. *)
Definition wait_live (p : process) (k : Z) (i n : nat) : Prop :=
  ∀ j, (i ≤ j < i + n)%nat → ∃ w, waiter_of p (k, j) = Some w ∧
    ∀ a, w_event w = Some a → alive p a.

Lemma wait_live_step p p' k i n :
  sim p p' → same_events p p' → wait_live p k i (S n) → wait_live p' k (S i) n.
Proof.
  intros Hs He Hl j Hj. destruct (Hl j) as (w & Hw & Ha); [lia|].
  pose proof (He (k, j)) as E. rewrite Hw in E. simpl in E. apply fmap_Some in E as (w' & Hw' & E).
  exists w'. split; [done|]. intros a. rewrite <- E. intros H. by apply (sim_alive p), Ha.
Qed.

Lemma live_wait_live p k c :
  waits p !! k = Some c → live_waiters p (waiters c) → wait_live p k 0 (length (waiters c)).
Proof.
  intros Hc Hl j Hj. destruct (lookup_lt_is_Some_2 (waiters c) j) as [w Hw]; [lia|].
  exists w. split; [unfold waiter_of; simpl; by rewrite Hc|].
  by apply (proj1 (Forall_lookup _ _) Hl j w).
Qed.

Lemma free_waiters_sim k i n undo p :
  wait_live p k i n → ∃ p', free_waiters k i n undo p = Some p' ∧ sim p p'.
Proof.
  revert p i. induction n as [|n IH]; intros p i Hl; cbn [free_waiters];
    [eexists; split; [done|apply sim_refl]|].
  destruct (Hl i) as (w & -> & Hw); [lia|]. cbn [mbind option_bind].
  destruct (w_event w) as [a|].
  2:{ apply IH. intros j Hj. apply Hl. lia. }
  destruct (Hw a eq_refl) as [ev Ha]. unfold remove_wait_queue. rewrite Ha. cbn [mbind option_bind].
  set (ev1 := ev <| wq ::= _ |>). set (p1 := p <| heap ::= _ |>).
  assert (Hs1 : sim p p1) by by apply (sim_put p a ev ev1).
  assert (H1 : heap p1 !! a = Some ev1) by apply lookup_insert_eq.
  rewrite H1. cbn [mbind option_bind].
  assert (∃ p2, (if undo && activated w && auto_reset ev1 then set_event p1 a else Some p1) = Some p2
     ∧ sim p1 p2 ∧ same_events p1 p2) as (p2 & -> & Hs2 & He2).
  { destruct (_ && _); [|eexists; split; [done|split; [apply sim_refl|done]]].
    destruct (set_event_sim p1 a ev1 H1) as (p2 & Hp2 & Hs2). exists p2.
    by split_and!; [| |by eapply set_event_same_events]. }
  cbn [mbind option_bind]. pose proof (sim_trans _ _ _ Hs1 Hs2) as Hs.
  destruct (IH p2 (S i)) as (p' & -> & Hs').
  { apply (wait_live_step p); [done|exact He2|done]. }
  eexists. split; [done|]. by eapply sim_trans.
Qed.

(** Whatever the waiters, when it completes it has only signalled. *)
Lemma set_event_Some_sim p a p' : set_event p a = Some p' → sim p p'.
Proof.
  intros Hp. destruct (heap p !! a) as [ev|] eqn:Ha; [|unfold set_event in Hp; by rewrite Ha in Hp].
  destruct (set_event_sim p a ev Ha) as (q & Hq & Hs). rewrite Hp in Hq. by simplify_eq.
Qed.

Lemma free_waiters_Some_sim k i n undo p p' : free_waiters k i n undo p = Some p' → sim p p'.
Proof.
  revert p i. induction n as [|n IH]; intros p i; cbn [free_waiters];
    [intros [= <-]; apply sim_refl|].
  destruct (waiter_of p (k, i)) as [w|]; [|done]. cbn [mbind option_bind].
  destruct (w_event w) as [a|]; [|apply IH]. unfold remove_wait_queue.
  destruct (heap p !! a) as [ev|] eqn:Ha; [|done]. cbn [mbind option_bind].
  set (ev1 := ev <| wq ::= _ |>). set (p1 := p <| heap ::= _ |>).
  assert (Hs1 : sim p p1) by by apply (sim_put p a ev ev1).
  destruct (heap p1 !! a) as [ev2|]; [|done]. cbn [mbind option_bind].
  destruct (if undo && _ && _ then _ else _) as [p2|] eqn:E2; [|done]. cbn [mbind option_bind].
  intros Hp. apply IH in Hp. eapply sim_trans; [exact Hs1|]. eapply sim_trans; [|exact Hp].
  destruct (undo && _ && _); [by eapply set_event_Some_sim|]. injection E2 as <-. apply sim_refl.
Qed.

Lemma sim_freed p p' a : sim p p' → heap p !! a = None → heap p' !! a = None.
Proof.
  intros Hs Ha. pose proof (f_equal (λ m, m !! a) (sim_heap _ _ Hs)) as H. simpl in H.
  rewrite !lookup_fmap, Ha in H. by apply fmap_None in H.
Qed.

(** Some waiter whose event was freed: its pointer is followed. *)
Lemma free_waiters_freed k i n undo p j a :
  (i ≤ j < i + n)%nat → waiter_of p (k, j) ≫= w_event = Some a → heap p !! a = None →
  free_waiters k i n undo p = None.
Proof.
  revert p i. induction n as [|n IH]; intros p i Hj Hw Ha; [lia|]. cbn [free_waiters].
  destruct (decide (i = j)) as [->|Hne].
  - destruct (waiter_of p (k, j)) as [w|]; [|done]. cbn [mbind option_bind] in *. rewrite Hw.
    unfold remove_wait_queue. by rewrite Ha.
  - destruct (waiter_of p (k, i)) as [w0|]; [|done]. cbn [mbind option_bind].
    destruct (w_event w0) as [b|]; [|apply IH; [lia|done|done]]. unfold remove_wait_queue.
    destruct (heap p !! b) as [ev|] eqn:Hb; [|done]. cbn [mbind option_bind].
    set (ev1 := ev <| wq ::= _ |>). set (p1 := p <| heap ::= _ |>).
    assert (Hs1 : sim p p1) by by apply (sim_put p b ev ev1).
    destruct (heap p1 !! b) as [ev2|]; [|done]. cbn [mbind option_bind].
    destruct (if undo && _ && _ then _ else _) as [p2|] eqn:E2; [|done]. cbn [mbind option_bind].
    assert (Hs2 : sim p1 p2 ∧ same_events p1 p2).
    { destruct (undo && _ && _); [split; [by eapply set_event_Some_sim|by eapply set_event_same_events]|].
      injection E2 as <-. split; [apply sim_refl|done]. }
    destruct Hs2 as [Hs2 He2]. apply IH; [lia| |by eapply sim_freed, sim_freed].
    pose proof (He2 (k, j)) as E. change (waiter_of p1 (k, j)) with (waiter_of p (k, j)) in E.
    destruct (waiter_of p (k, j)), (waiter_of p2 (k, j)); simplify_eq/=; congruence.
Qed.

Lemma copy_signaled_event_data_live fault p l last :
  live_waiters p l → ∃ r out, copy_signaled_event_data fault p l last = Some (r, out).
Proof.
  revert last. induction l as [|w l IH]; intros last Hl; cbn [copy_signaled_event_data];
    [by eexists _, _|].
  apply Forall_cons in Hl as [Hw Hl]. destruct (w_event w) as [a|]; [|by eexists _, _].
  destruct (Hw a eq_refl) as [ev ->]. cbn [mbind option_bind]. cbv zeta.
  destruct (activated w); [destruct (_ && fault); [by eexists _, _|]|];
    match goal with |- context [copy_signaled_event_data _ _ _ ?x] =>
      destruct (IH x Hl) as (r & out & ->) end; by eexists _, _.
Qed.

Lemma out_unlock_sim k ret res c p :
  waits p !! k = Some c → live_waiters p (waiters c) →
  ∃ out p', out_unlock k ret res c p = Some (out, p') ∧ sim p p'.
Proof.
  intros Hc Hl. unfold out_unlock.
  destruct (free_waiters_sim k 0 _ (ret =? -ERESTARTSYS) p (live_wait_live p k c Hc Hl)) as (p' & -> & Hs).
  eexists _, _. split; [done|]. eapply sim_trans; [exact Hs|apply sim_waits].
Qed.

Lemma wait_begin_sim alloc_ok fault p k l all :
  ev_wf p → ∃ out p', wait_begin alloc_ok fault p k l all = Some (out, p') ∧ sim p p'.
Proof.
  intros Hwf. unfold wait_begin. destruct alloc_ok; simpl negb; cbv iota.
  2:{ eexists _, _. split; [done|apply sim_refl]. }
  destruct (init_waiters_sim p k 0 l Hwf) as (r & p1 & ws & -> & Hs & Hws). cbn [mbind option_bind].
  set (c := mk_wait ws all false). cbv zeta. set (p2 := p1 <| waits ::= <[k := c]> |>).
  assert (Hs2 : sim p p2) by (eapply sim_trans; [exact Hs|apply sim_waits]).
  assert (Hws2 : live_waiters p2 (waiters c)) by exact Hws.
  assert (Hfin : ∀ ret res, ∃ out p', (x ← out_unlock k ret res c p2;
     let '(out, p) := x in Some (Some out, p)) = Some (out, p') ∧ sim p p').
  { intros ret res. destruct (out_unlock_sim k ret res c p2) as (out & p' & -> & Hs');
      [apply lookup_insert_eq|done|]. eexists _, _. split; [done|]. by eapply sim_trans. }
  destruct (nz r); [apply Hfin|]. destruct (test_event_condition all ws).
  - destruct (copy_signaled_event_data_live fault p2 ws None Hws2) as (r2 & out & ->). apply Hfin.
  - by eexists _, _.
  - apply Hfin.
Qed.

Lemma wait_end_sim fault p k ret res c :
  waits p !! k = Some c → live_waiters p (waiters c) →
  ∃ out p', wait_end fault p k ret res = Some (out, p') ∧ sim p p'.
Proof.
  intros Hc Hl. unfold wait_end. rewrite Hc. cbn [mbind option_bind].
  destruct (_ && _); [|by apply out_unlock_sim].
  destruct (copy_signaled_event_data_live fault p (waiters c) None Hl) as (r & out & ->).
  by apply out_unlock_sim.
Qed.

Lemma wait_end_Some_sim fault p k ret res out p' :
  wait_end fault p k ret res = Some (out, p') → sim p p'.
Proof.
  unfold wait_end. destruct (waits p !! k) as [c|]; [|done]. cbn [mbind option_bind].
  destruct (if negb (nz ret) && _ then _ else _) as [r|]; [|done]. cbn [mbind option_bind]. unfold out_unlock.
  destruct (free_waiters _ _ _ _ _) as [q|] eqn:Eq; [|done]. cbn [mbind option_bind]. intros [= _ <-].
  apply free_waiters_Some_sim in Eq. eapply sim_trans; [exact Eq|apply sim_waits].
Qed.

Lemma wait_poll_sim p k expired out p' : wait_poll p k expired = Some (out, p') → sim p p'.
Proof.
  unfold wait_poll. destruct (waits p !! k); [|done]. cbn [mbind option_bind].
  destruct (_ || _); intros [= <- <-]; [apply sim_refl|apply sim_waits].
Qed.
End Limit.
