(* ===== verification/EventsSystem.v ===== *)
(** * Events of a process: histories and properties

    Requests to [kfd_events.c] as a sequence of steps, and what holds of any
    history of them from [kfd_event_init_process]. *)

From S2P Require Import Prelude Events EventsProof.

(** ** Requests *)

Inductive ev_request :=
  | Create (type : Z) (reset : bool)
  | Destroy (id : Z)
  | SetEvent (id : Z)
  | ResetEvent (id : Z)
  | PageSet (size : Z)
  | Restore (data : Z + event_priv)
  | Mmap (size ret : Z)
  | Interrupt (partial_id valid_id_bits : Z)
  | VmFault (gpu_id : Z) (info : option kfd_vm_fault_info) (data : option memory_exception)
  | HwException
  | GpuReset (gpu_id : Z) (sram_ecc : bool)
  | PoisonConsumed (gpu_id : Z)
  | WaitBegin (k : Z) (alloc_ok fault : bool) (l : list (option kfd_event_data)) (all : bool)
  | WaitPoll (k : Z) (expired : bool)
  | WaitEnd (k : Z) (fault : bool) (ret : Z) (res : wait_result_t).

Section System.
Context (LIMIT : Z) (alloc_event alloc_page : bool) (HANG ECC SRAM_ECC POISON : Z).

(** A wait is begun under a new name only; the others go on with one in progress. *)
Definition ev_step (p : process) (r : ev_request) : option process :=
  match r with
  | Create type reset => Some (kfd_event_create alloc_event alloc_page p type reset).1.2
  | Destroy id => snd <$> kfd_event_destroy p id
  | SetEvent id => snd <$> kfd_set_event p id
  | ResetEvent id => snd <$> kfd_reset_event p id
  | PageSet size => Some (kfd_event_page_set alloc_page p size).2
  | Restore data => Some (kfd_criu_restore_event alloc_event alloc_page p data).2
  | Mmap size ret => Some (kfd_event_mmap LIMIT p size ret).2
  | Interrupt partial_id bits => kfd_signal_event_interrupt LIMIT p partial_id bits
  | VmFault gpu info data => kfd_signal_vm_fault_event p gpu info data
  | HwException => snd <$> kfd_signal_hw_exception_event p
  | GpuReset gpu ecc => kfd_signal_reset_event HANG ECC SRAM_ECC p gpu ecc
  | PoisonConsumed gpu => kfd_signal_poison_consumed_event ECC POISON p gpu
  | WaitBegin k alloc_ok fault l all =>
      if bool_decide (is_Some (waits p !! k)) then Some p
      else snd <$> wait_begin alloc_ok fault p k l all
  | WaitPoll k expired =>
      if bool_decide (is_Some (waits p !! k)) then snd <$> wait_poll p k expired else Some p
  | WaitEnd k fault ret res =>
      if bool_decide (is_Some (waits p !! k)) then snd <$> wait_end fault p k ret res else Some p
  end.

Definition ev_steps (p : process) (l : list ev_request) : option process :=
  foldl (λ o r, p ← o; ev_step p r) (Some p) l.

(** An event page given by user mode is as large as the driver's own or smaller; an
    area of memory has whole pages; a record to restore is one the driver could have
    written. *)
Definition ev_request_ok (r : ev_request) : Prop :=
  match r with
  | PageSet size => 8 ≤ size ≤ LIMIT * 8
  | Mmap size _ => 0 < size ∧ size `mod` 4096 = 0
  | Restore (inr v) => priv_ok LIMIT v
  | _ => True
  end.

(** The events of the wait that a request ends are allocated. *)
Definition waited_alive (p : process) (r : ev_request) : Prop :=
  match r with
  | WaitEnd k _ _ _ => ∀ c, waits p !! k = Some c → live_waiters p (waiters c)
  | _ => True
  end.

Context (Hlimit : 256 ≤ LIMIT < 2 ^ 30) (Hpow : ∃ k, 0 ≤ k ∧ LIMIT * 8 = 4096 * 2 ^ k).

Lemma kfd_event_page_set_wf p size :
  ev_wf LIMIT p → 8 ≤ size ≤ LIMIT * 8 → ev_wf LIMIT (kfd_event_page_set alloc_page p size).2.
Proof.
  intros Hwf Hs. unfold kfd_event_page_set. destruct (signal_page p) eqn:E; [done|].
  destruct alloc_page; [|done]. by apply wf_map_page.
Qed.

(** Every request but the end of a wait completes. *)
Lemma ev_step_spec p r :
  ev_wf LIMIT p → ev_request_ok r → waited_alive p r →
  ∃ p', ev_step p r = Some p' ∧ ev_wf LIMIT p'.
Proof.
  intros Hwf Hpg Hal.
  assert (Hsim : ∀ o, (∃ p', o = Some p' ∧ sim p p') → ∃ p', o = Some p' ∧ ev_wf LIMIT p').
  { intros o (p' & -> & Hs). exists p'. split; [done|]. by apply (wf_sim LIMIT p). }
  assert (Hpair : ∀ X (o : option (X * process)),
    (∃ x p', o = Some (x, p') ∧ sim p p') → ∃ p', snd <$> o = Some p' ∧ ev_wf LIMIT p').
  { intros X o (x & p' & -> & Hs). exists p'. split; [done|]. by apply (wf_sim LIMIT p). }
  destruct r; cbn [ev_step ev_request_ok waited_alive] in *.
  - eexists. split; [done|]. by apply kfd_event_create_wf.
  - destruct (kfd_event_destroy_wf LIMIT Hlimit p id Hwf) as (r & p' & -> & H). by eexists.
  - apply Hpair, (cpu_signal_sim LIMIT); [|done]. intros a. apply set_event_alive.
  - apply Hpair, (cpu_signal_sim LIMIT); [|done]. intros a. apply reset_event_sim.
  - eexists. split; [done|]. by apply kfd_event_page_set_wf.
  - eexists. split; [done|]. apply kfd_criu_restore_event_wf; [done..|]. by destruct data.
  - eexists. split; [done|]. destruct Hpg. by apply kfd_event_mmap_wf.
  - by apply Hsim, kfd_signal_event_interrupt_sim.
  - apply Hsim. unfold kfd_signal_vm_fault_event.
    destruct (_ =? _); [eexists; split; [done|apply sim_refl]|by apply (signal_payload_sim LIMIT)].
  - apply Hpair. unfold kfd_signal_hw_exception_event, lookup_events_by_type_and_signal.
    match goal with |- context [signal_payload ?f p] =>
      destruct (signal_payload_sim LIMIT f p Hwf) as (p' & -> & Hs) end. by eexists _, _.
  - apply Hsim. unfold kfd_signal_reset_event.
    destruct (_ =? _); [eexists; split; [done|apply sim_refl]|by apply (signal_payload_sim LIMIT)].
  - apply Hsim. unfold kfd_signal_poison_consumed_event.
    destruct (_ =? _); [eexists; split; [done|apply sim_refl]|by apply (signal_payload_sim LIMIT)].
  - destruct (bool_decide _); [by eexists|]. by apply Hpair, (wait_begin_sim LIMIT).
  - destruct (bool_decide (is_Some (waits p !! k))) eqn:E; [|by eexists].
    apply bool_decide_eq_true in E as [c Hc]. apply Hpair.
    destruct (wait_poll p k expired) as [[out p']|] eqn:Ep.
    + eexists _, _. split; [done|]. by eapply wait_poll_sim.
    + unfold wait_poll in Ep. rewrite Hc in Ep. cbn [mbind option_bind] in Ep. by destruct (_ || _).
  - destruct (bool_decide (is_Some (waits p !! k))) eqn:E; [|by eexists].
    apply bool_decide_eq_true in E as [c Hc]. by apply Hpair, (wait_end_sim _ _ _ _ _ c), Hal.
Qed.

Lemma ev_step_wf p r p' :
  ev_wf LIMIT p → ev_request_ok r → ev_step p r = Some p' → ev_wf LIMIT p'.
Proof.
  intros Hwf Hpg Hp. destruct r; try (by destruct (ev_step_spec p _ Hwf Hpg I) as (? & ? & ?); simplify_eq).
  cbn [ev_step] in Hp. destruct (bool_decide _); [|by simplify_eq].
  destruct (wait_end _ _ _ _ _) as [[out q]|] eqn:E; [|done]. injection Hp as <-.
  apply (wf_sim LIMIT p); [done|]. by eapply wait_end_Some_sim.
Qed.

Lemma ev_steps_None l : foldl (λ o r, p ← o; ev_step p r) None l = None.
Proof. by induction l. Qed.

Lemma ev_steps_wf p l p' :
  ev_wf LIMIT p → Forall ev_request_ok l → ev_steps p l = Some p' → ev_wf LIMIT p'.
Proof.
  revert p. induction l as [|r l IH]; intros p Hwf Hl; unfold ev_steps; simpl; [by intros [= <-]|].
  apply Forall_cons in Hl as [Hr Hl]. destruct (ev_step p r) as [q|] eqn:E; [|by rewrite ev_steps_None].
  apply IH; [by eapply ev_step_wf|done].
Qed.

(** ** Destruction of all events *)

Lemma NoDup_fst_omap_entries p from : NoDup (fst <$> idr_entries p from).
Proof.
  unfold idr_entries.
  assert (H : NoDup (fst <$> merge_sort id_le (map_to_list (event_idr p)))).
  { rewrite merge_sort_Permutation. apply NoDup_fst_map_to_list. }
  induction (merge_sort _ _) as [|[id a] l IH]; [constructor|].
  cbn [fmap list_fmap fst] in H. apply NoDup_cons in H as [Hn H]. cbn [omap list_omap].
  assert (Hsub : ∀ x, x ∈ fst <$> omap (λ '(id, a), if from <=? id then pair id <$> a else None) l →
                      x ∈ fst <$> l).
  { intros x Hx. apply list_elem_of_fmap in Hx as ([y b] & -> & Hy).
    apply list_elem_of_omap in Hy as ([i [c|]] & Hi & Hc); simpl in Hc; destruct (from <=? i); simplify_eq/=.
    apply list_elem_of_fmap. by eexists (_, Some _). }
  destruct (from <=? id), a as [a|]; simpl; auto. apply NoDup_cons. split; [|auto].
  intros Hx. by apply Hn, Hsub.
Qed.

Lemma destroy_all l p :
  ev_wf LIMIT p → NoDup (fst <$> l) → Forall (λ x, event_idr p !! x.1 = Some (Some x.2)) l →
  ∃ p', foldl (λ o '(_, a), p ← o; destroy_event p a) (Some p) l = Some p' ∧ ev_wf LIMIT p' ∧
    event_idr p' = foldl (λ m x, delete x m) (event_idr p) (fst <$> l).
Proof.
  revert p. induction l as [|[id a] l IH]; intros p Hwf Hnd Hl; simpl; [by eexists|].
  apply NoDup_cons in Hnd as [Hn Hnd]. apply Forall_cons in Hl as [Ha Hl]. simpl in Ha.
  destruct (wf_idr LIMIT p Hwf id a Ha) as (ev & Hev & Hid).
  destruct (destroy_event_wf LIMIT Hlimit p a ev Hwf Hev) as (q & -> & Hq & Ei & _).
  rewrite Hid in Ei. destruct (IH q Hq Hnd) as (p' & -> & Hp' & Ep').
  - rewrite Forall_forall in Hl |- *. intros [x b] Hx. specialize (Hl _ Hx). simpl in *.
    rewrite Ei, lookup_delete_ne; [done|]. intros ->. apply Hn. apply list_elem_of_fmap.
    by exists (x, b).
  - exists p'. by rewrite Ep', Ei.
Qed.

Lemma lookup_foldl_delete (ids : list Z) (m : gmap Z (option Z)) i x :
  foldl (λ m x, delete x m) m ids !! i = Some x ↔ i ∉ ids ∧ m !! i = Some x.
Proof.
  revert m. induction ids as [|j ids IH]; intros m; simpl.
  - split; [intros; split; [by apply not_elem_of_nil|done]|tauto].
  - rewrite IH, lookup_delete_Some, not_elem_of_cons. naive_solver.
Qed.

Lemma destroy_events_spec p :
  ev_wf LIMIT p → ∃ p', destroy_events p = Some p' ∧ heap p' = ∅ ∧
    event_idr p' = {[ 0 := None ]} ∧ signal_event_count p' = 1.
Proof.
  intros Hwf. destruct (destroy_all (idr_entries p 0) p Hwf) as (p' & Hp' & Hwf' & Ei).
  - apply NoDup_fst_omap_entries.
  - apply Forall_forall. intros [id a] Hx. by apply elem_of_idr_entries in Hx as [_ Hx].
  - exists p'. split; [done|].
    assert (Hidr : event_idr p' = {[ 0 := None ]}).
    { apply map_eq. intros id. apply option_eq. intros x. rewrite lookup_singleton_Some. split.
      - rewrite Ei, lookup_foldl_delete. intros [Hn Hx]. destruct x as [a|].
        + destruct Hn. apply list_elem_of_fmap. exists (id, a). split; [done|].
          apply elem_of_idr_entries. split; [|done].
          destruct (wf_idr LIMIT p Hwf id a Hx) as (ev & Ha & <-).
          pose proof (wf_ids LIMIT p Hwf a ev Ha) as Hk. unfold id_ok, KFD_FIRST_NONSIGNAL_EVENT_ID in Hk.
          simpl in Hk. destruct (is_signal_type _); lia.
        + by rewrite (wf_nonnull LIMIT p Hwf id Hx).
      - intros [<- <-]. apply (wf_null LIMIT p' Hwf'). }
    assert (Hh : heap p' = ∅).
    { apply map_eq. intros a. rewrite lookup_empty. destruct (heap p' !! a) as [ev|] eqn:E; [|done].
      apply (wf_heap LIMIT p' Hwf') in E. rewrite Hidr in E.
      by apply lookup_singleton_Some in E as [_ ?]. }
    split_and!; try done. rewrite (wf_count LIMIT p' Hwf'), Hh. reflexivity.
Qed.

(** ** The exhaustive searches *)

Lemma signal_if_set_find p ids :
  ev_wf LIMIT p →
  foldl signal_if_set (Some p) ids =
  foldl signal_if_set (Some p) (filter (λ id, is_Some (idr_find p id)) ids).
Proof.
  revert p. induction ids as [|id ids IH]; intros p Hwf; [done|].
  rewrite filter_cons. destruct (decide _) as [Hs|Hs].
  - cbn [foldl]. destruct (signal_if_set_sim LIMIT p [id] Hwf) as (q & Hq & Hs').
    cbn [foldl] in Hq. rewrite Hq, (IH q) by by apply (wf_sim LIMIT p). f_equal.
    apply list_filter_iff. intros x. unfold idr_find. by rewrite (sim_idr _ _ Hs').
  - apply eq_None_not_Some in Hs. cbn [foldl].
    assert (signal_if_set (Some p) id = Some p) as ->; [|by apply IH].
    unfold signal_if_set. cbn [mbind option_bind]. rewrite Hs. by destruct (_ =? _).
Qed.

#[local] Instance id_le_total : Total id_le.
Proof. intros x y. unfold id_le. lia. Qed.
#[local] Instance id_le_trans : Transitive id_le.
Proof. intros x y z. unfold id_le. lia. Qed.

Lemma idr_entries_sorted p from : StronglySorted Z.le (fst <$> idr_entries p from).
Proof.
  apply (StronglySorted_fmap _ (λ x y, x.1 ≤ y.1)); [done|].
  apply (StronglySorted_omap id_le); [|apply StronglySorted_merge_sort; apply _].
  intros [i x] [j y] [i' x'] [j' y'] Hle Hx Hy. unfold id_le in Hle.
  destruct (from <=? i), (from <=? j), x, y; by simplify_eq/=.
Qed.

Lemma idr_ids_seqZ p :
  ev_wf LIMIT p →
  filter (λ id, id < LIMIT) (fst <$> idr_entries p 0) =
  filter (λ id, is_Some (idr_find p id)) (seqZ 1 (LIMIT - 1)).
Proof.
  intros Hwf. apply (StronglySorted_unique Z.le).
  - apply StronglySorted_filter, idr_entries_sorted.
  - apply StronglySorted_filter, StronglySorted_seqZ.
  - apply NoDup_Permutation; [apply NoDup_filter, NoDup_fst_omap_entries|apply NoDup_filter, NoDup_seqZ|].
    intros id. rewrite !list_elem_of_filter, elem_of_seqZ. unfold idr_find. split.
    + intros [Hlt Hin]. apply list_elem_of_fmap in Hin as ([x a] & -> & Hx).
      apply elem_of_idr_entries in Hx as [H0 Hx]. simpl in *. rewrite Hx. split; [by eexists|].
      assert (x ≠ 0) by (intros ->; rewrite (wf_null LIMIT p Hwf) in Hx; done). lia.
    + intros [[a Ha] Hr]. destruct (event_idr p !! id) as [[b|]|] eqn:E; try done.
      split; [lia|]. apply list_elem_of_fmap. exists (id, b). split; [done|].
      apply elem_of_idr_entries. split; [lia|done].
Qed.

End System.

(** ** One event *)

Lemma init_event_waiter_unaged p w id a ev :
  idr_find p id = Some a → heap p !! a = Some ev →
  init_event_waiter p w (mk_event_data id 0) =
  Some (0, p <| heap ::= <[a := ev <| signaled := signaled ev && negb (auto_reset ev) |>
          <| wq ::= λ q, if signaled ev then q else w :: q |>]> |>, mk_waiter (Some a) (signaled ev) false).
Proof.
  intros Hi Ha. unfold init_event_waiter. simpl ed_event_id. rewrite Hi, Ha.
  cbn [mbind option_bind]. cbv zeta. simpl ed_last_event_age. change (nz 0) with false.
  by rewrite andb_false_r, orb_false_r.
Qed.

Lemma set_event_no_waiter p a ev :
  heap p !! a = Some ev → wq ev = [] →
  ∃ ev', set_event p a = Some (p <| heap ::= <[a := ev']> |>) ∧ signaled ev' = true ∧
    auto_reset ev' = auto_reset ev ∧ wq ev' = [].
Proof.
  intros Ha Hq. unfold set_event. rewrite Ha. cbn [mbind option_bind]. cbv zeta. simpl wq. rewrite Hq.
  cbn [wake_up_all foldr]. eexists. split; [done|]. simpl. by rewrite orb_true_r.
Qed.

(** ** Properties *)

(** C32. Consistency of the events of a process.  After any history of requests
    from [kfd_event_init_process], waits, mappings of the event page and restorations
    included (of event pages no larger than the driver's own and of records that the
    driver could have written), an id of the IDR names the allocated event that has
    this id and every allocated event is named by its id; signal and debug events
    have ids below the limit, within the driver's page, and the others ids of the
    upper range; [signal_event_count] is one more than the number of signal and debug
    events and at most the limit.  Any next request completes, that is, follows no
    pointer to a freed event, where the end of a wait needs the events of that wait
    to be allocated; and the destruction of all events completes and leaves none
    allocated. *)
Theorem events_consistent (LIMIT : Z) (alloc_event alloc_page : bool) (HANG ECC SRAM_ECC POISON : Z)
    (Hlimit : 256 ≤ LIMIT < 2 ^ 30) (Hpow : ∃ k, 0 ≤ k ∧ LIMIT * 8 = 4096 * 2 ^ k)
    (l : list ev_request) (p : process) (Hl : Forall (ev_request_ok LIMIT) l)
    (Hp : ev_steps LIMIT alloc_event alloc_page HANG ECC SRAM_ECC POISON kfd_event_init_process l = Some p) :
  (∀ id a, idr_find p id = Some a ↔ ∃ ev, heap p !! a = Some ev ∧ event_id ev = id) ∧
  (∀ a ev, heap p !! a = Some ev →
     if is_signal_type (ev_type ev) then 0 < event_id ev < LIMIT
     else KFD_FIRST_NONSIGNAL_EVENT_ID ≤ event_id ev ≤ KFD_LAST_NONSIGNAL_EVENT_ID) ∧
  signal_event_count p = 1 + msum (λ ev, b2z (is_signal_type (ev_type ev))) (heap p) ∧
  signal_event_count p ≤ LIMIT ∧
  (∀ r, ev_request_ok LIMIT r → waited_alive p r →
     is_Some (ev_step LIMIT alloc_event alloc_page HANG ECC SRAM_ECC POISON p r)) ∧
  (∃ p', destroy_events p = Some p' ∧ heap p' = ∅ ∧ event_idr p' = {[ 0 := None ]} ∧
     signal_event_count p' = 1).
Proof.
  assert (Hwf : ev_wf LIMIT p) by (eapply ev_steps_wf; [done|done|apply init_wf; done|done|done]).
  split_and!.
  - intros id a. split.
    + intros Hf. by apply (idr_find_Some LIMIT) in Hf as [_ ?].
    + intros (ev & Ha & <-). unfold idr_find. by rewrite (wf_heap LIMIT p Hwf a ev Ha).
  - intros a ev Ha. pose proof (wf_ids LIMIT p Hwf a ev Ha) as H. unfold id_ok in H. simpl in H.
    unfold KFD_LAST_NONSIGNAL_EVENT_ID. destruct (is_signal_type _); lia.
  - rewrite (wf_count LIMIT p Hwf). unfold signal_events. by rewrite msum_fmap.
  - by apply (count_bound LIMIT).
  - intros r Hr Hal. destruct (ev_step_spec LIMIT alloc_event alloc_page HANG ECC SRAM_ECC POISON Hlimit Hpow p r)
      as (p' & -> & _); done.
  - by apply (destroy_events_spec LIMIT).
Qed.

(** The exhaustive search of [kfd_signal_event_interrupt] over the IDR and the
    one over the slots of the signal page signal the same events and reach the
    same state, so that the choice between them by [signal_event_count] is one
    of speed only. *)
Theorem exhaustive_searches_agree (LIMIT : Z) (p : process) (Hlimit : 256 ≤ LIMIT < 2 ^ 30)
    (Hwf : ev_wf LIMIT p) :
  signal_by_idr LIMIT p = signal_by_slots LIMIT p ∧ is_Some (signal_by_idr LIMIT p).
Proof.
  split.
  - unfold signal_by_idr, signal_by_slots. rewrite (idr_ids_seqZ LIMIT) by done.
    symmetry. by apply (signal_if_set_find LIMIT).
  - destruct (signal_if_set_sim LIMIT p
      (filter (λ id, id < LIMIT) (fst <$> idr_entries p 0)) Hwf) as (p' & Hp' & _).
    exists p'. exact Hp'.
Qed.

(** C33. [set_event] activates every waiter in the queue of the event and wakes its
    task, changes no other waiter, and leaves the event signalled unless it is
    auto-reset and had waiters; the age of the event grows and is neither 0 nor 1. *)
Theorem set_event_spec (p : process) (a : Z) (ev : kfd_event) (Ha : heap p !! a = Some ev)
    (Hage : 1 ≤ event_age ev < 2 ^ 64) :
  ∃ p' ev', set_event p a = Some p' ∧ heap p' = <[a := ev']> (heap p) ∧
    signaled ev' = (negb (auto_reset ev) || bool_decide (wq ev = [])) ∧
    event_age ev' = (if event_age ev =? 2 ^ 64 - 1 then 2 else event_age ev + 1) ∧
    2 ≤ event_age ev' < 2 ^ 64 ∧ wq ev' ⊆ wq ev ∧
    (∀ w, w ∈ wq ev → awake p' w.1) ∧
    (∀ w, waiter_of p' w =
       if decide (w ∈ wq ev) then set_field activated (λ _, true) <$> waiter_of p w
       else waiter_of p w).
Proof.
  unfold set_event. rewrite Ha. cbn [mbind option_bind]. cbv zeta.
  set (ev1 := ev <| signaled := _ |> <| event_age ::= next_age |>).
  change (wq ev1) with (wq ev). set (p1 := foldr _ p (wq ev)).
  assert (Hh : heap p1 = heap p) by apply heap_set_waiters.
  assert (Hw : ∀ w, waiter_of p1 w = if decide (w ∈ wq ev)
    then set_field activated (λ _, true) <$> waiter_of p w else waiter_of p w)
    by (intros w; by apply waiter_of_set_waiters).
  destruct (wake_up_all_spec (wq ev) p1) as (H1 & H2 & H3 & _).
  destruct (wake_up_all_sim (wq ev) p1) as [_ Hh2].
  destruct (wake_up_all (wq ev) p1) as [rest p2]. cbn [fst snd] in *.
  assert (Hn : next_age (event_age ev) = if event_age ev =? 2 ^ 64 - 1 then 2 else event_age ev + 1).
  { unfold next_age. destruct (event_age ev =? 2 ^ 64 - 1) eqn:E; bool_to_Prop; [by rewrite E|].
    rewrite (wrap_small 64) by (unfold in_width; lia). destruct (_ =? 0) eqn:E0; bool_to_Prop; lia. }
  eexists _, _. split; [done|]. split_and!.
  - simpl. by rewrite Hh2, Hh.
  - done.
  - exact Hn.
  - change (2 ≤ next_age (event_age ev)). rewrite Hn. destruct (_ =? _) eqn:E; bool_to_Prop; lia.
  - change (next_age (event_age ev) < 2 ^ 64). rewrite Hn. destruct (_ =? _) eqn:E; bool_to_Prop; lia.
  - exact H3.
  - intros w Hin. by apply H2.
  - intros w. rewrite <- Hw, <- H1. done.
Qed.

(** One signal of an auto-reset event nobody waits for is received by one
    wait: of two waiters that start after it, the first is activated at once and
    the second is not and joins the queue of the event. *)
Theorem auto_reset_one_wait (p : process) (id a : Z) (ev : kfd_event) (w1 w2 : Z * nat)
    (Hid : idr_find p id = Some a) (Ha : heap p !! a = Some ev) (Hauto : auto_reset ev = true)
    (Hwq : wq ev = []) :
  ∃ p1 p2 p3 v1 v2 ev', set_event p a = Some p1 ∧
    init_event_waiter p1 w1 (mk_event_data id 0) = Some (0, p2, v1) ∧ activated v1 = true ∧
    init_event_waiter p2 w2 (mk_event_data id 0) = Some (0, p3, v2) ∧ activated v2 = false ∧
    heap p3 !! a = Some ev' ∧ wq ev' = [w2] ∧ signaled ev' = false.
Proof.
  destruct (set_event_no_waiter p a ev Ha Hwq) as (ev1 & -> & Hs & Hr & Hq).
  assert (Hi : ∀ h, idr_find (p <| heap ::= h |>) id = Some a) by done.
  do 3 eexists. do 3 eexists. split; [done|]. rewrite Hauto in Hr.
  split; [apply init_event_waiter_unaged; [done|apply lookup_insert_eq]|]. split; [done|].
  split; [apply init_event_waiter_unaged; [done|apply lookup_insert_eq]|].
  split; [simpl; by rewrite Hr, andb_false_r|]. split; [apply lookup_insert_eq|].
  simpl. by rewrite Hs, Hr, Hq.
Qed.

(** A use after free.  An event of a wait that was activated when the wait
    began, or has been since its task woke up, is not linked to its waiter through
    the queue any more.  If it is destroyed before the end of the wait, the
    waiter keeps its pointer: the end of the wait follows the pointer to the
    freed event, whatever its result. *)
Theorem destroyed_event_use_after_free (p : process) (k : Z) (i : nat) (w : kfd_event_waiter)
    (id a : Z) (ev : kfd_event) (Hw : waiter_of p (k, i) = Some w) (Hwa : w_event w = Some a)
    (Hid : idr_find p id = Some a) (Ha : heap p !! a = Some ev) (Hq : (k, i) ∉ wq ev) :
  ∃ p', kfd_event_destroy p id = Some (0, p') ∧
    ∀ fault ret res, wait_end fault p' k ret res = None.
Proof.
  unfold kfd_event_destroy, destroy_event. rewrite Hid, Ha. cbn [mbind option_bind].
  set (p1 := foldr _ p (wq ev)).
  assert (Hw1 : waiter_of p1 (k, i) = Some w).
  { unfold p1. rewrite waiter_of_set_waiters by done. by rewrite decide_False. }
  destruct (wake_up_all_spec (wq ev) p1) as (H1 & _).
  destruct (wake_up_all (wq ev) p1) as [rest p2]. cbn [snd] in H1. rewrite <- H1 in Hw1.
  cbv zeta. eexists. split; [done|]. intros fault ret res. unfold wait_end.
  set (q := _ <| heap ::= _ |>).
  assert (Hqa : heap q !! a = None) by (apply lookup_delete_eq).
  assert (Hqw : waiter_of q (k, i) = Some w) by (unfold q; by destruct (is_signal_type _)).
  assert (Hqe : waiter_of q (k, i) ≫= w_event = Some a) by (by rewrite Hqw).
  unfold waiter_of in Hqw. cbn [fst snd] in Hqw. destruct (waits q !! k) as [c|]; [|done].
  cbn [mbind option_bind] in *. destruct (if negb (nz ret) && _ then _ else _); [|done].
  cbn [mbind option_bind]. unfold out_unlock. rewrite (free_waiters_freed k 0 _ _ q i a); [done| |done|done].
  split; [lia|]. apply lookup_lt_Some in Hqw. lia.
Qed.

(** A restored event can have an id outside the signal page: the id comes from
    the checkpoint and is compared with nothing, the event is created and its
    slot is written past the end of the page. *)
Theorem criu_restore_event_outside_page (alloc_page : bool) (p : process) (v : event_priv)
    (slots : gmap Z Z) (Hpage : signal_page p = Some slots)
    (Hroom : signal_event_count p < signal_mapped_size p / 8)
    (Hmapped : 0 < signal_mapped_size p)
    (Htype : is_signal_type (ep_type v) = true)
    (Hid : signal_mapped_size p / 8 ≤ ep_id v < 2 ^ 31 - 1)
    (Hfree : event_idr p !! ep_id v = None) :
  ∃ p', kfd_criu_restore_event true alloc_page p (inr v) = (0, p') ∧
    event_idr p' !! ep_id v = Some (Some (next_addr p)) ∧
    signal_page p' = Some (<[ep_id v := UNSIGNALED_EVENT_SLOT]> slots).
Proof.
  assert (Hn : 0 ≤ signal_mapped_size p / 8) by (apply Z.div_pos; lia).
  assert (Halloc : idr_alloc (event_idr p) (s32 (ep_id v)) (s32 (ep_id v + 1)) = inl (ep_id v))
    by (rewrite !s32_small by lia; by apply idr_alloc_exact; [lia|]).
  unfold kfd_criu_restore_event. cbn [negb]. cbv iota zeta. rewrite Htype. unfold create_signal_event.
  simpl signal_mapped_size. simpl signal_event_count.
  rewrite (proj2 (Z.eqb_neq _ _)) by lia. rewrite andb_false_r.
  unfold allocate_event_notification_slot. simpl signal_page. rewrite Hpage. simpl event_idr.
  rewrite Halloc. eexists. split; [reflexivity|]. simpl. rewrite Hpage.
  split; [apply lookup_insert_eq|done].
Qed.

(** A wait refused with -EINVAL because of a later id consumes the signal of
    the auto-reset events before it: the event was signalled, nobody received the
    signal, and it is no longer signalled. *)
Theorem failed_wait_consumes_signal (p : process) (k id a bad age : Z) (ev : kfd_event)
    (fault all : bool) (Hid : idr_find p id = Some a) (Ha : heap p !! a = Some ev)
    (Hauto : auto_reset ev = true) (Hs : signaled ev = true) (Hbad : idr_find p bad = None) :
  ∃ p' ev', wait_begin true fault p k [Some (mk_event_data id 0); Some (mk_event_data bad age)] all
      = Some (Some (-EINVAL, KFD_IOC_WAIT_RESULT_FAIL), p') ∧
    heap p' !! a = Some ev' ∧ signaled ev' = false.
Proof.
  set (ev1 := ev <| signaled := false |>). set (p1 := p <| heap ::= <[a := ev1]> |>).
  assert (Hinit : init_waiters p k 0 [Some (mk_event_data id 0); Some (mk_event_data bad age)] =
    Some (-EINVAL, p1, [mk_waiter (Some a) true false; mk_waiter None false false])).
  { cbn [init_waiters]. rewrite (init_event_waiter_unaged p (k, 0%nat) id a ev) by done.
    cbn [mbind option_bind]. change (nz 0) with false. cbv iota. rewrite Hs, Hauto.
    unfold init_event_waiter. change (idr_find (p <| heap ::= _ |>) _) with (idr_find p bad).
    by rewrite Hbad. }
  unfold wait_begin. cbn [negb]. cbv iota. rewrite Hinit. cbn [mbind option_bind].
  change (nz (-EINVAL)) with true. cbv iota zeta.
  set (c := mk_wait _ all false). set (p2 := p1 <| waits ::= <[k := c]> |>).
  set (ev2 := ev1 <| wq ::= filter (λ x, x ≠ (k, 0%nat)) |>). set (p3 := p2 <| heap ::= <[a := ev2]> |>).
  assert (Hk : waits p2 !! k = Some c) by apply lookup_insert_eq.
  assert (Hfree : free_waiters k 0 2 (-EINVAL =? -ERESTARTSYS) p2 = Some p3).
  { cbn [free_waiters].
    assert (waiter_of p2 (k, 0%nat) = Some (mk_waiter (Some a) true false)) as ->
      by (unfold waiter_of; cbn [fst snd]; by rewrite Hk).
    cbn [mbind option_bind w_event activated]. unfold remove_wait_queue.
    rewrite (lookup_insert_eq (heap p) a ev1 : heap p2 !! a = Some ev1).
    cbn [mbind option_bind]. change (p2 <| heap ::= _ |>) with p3.
    rewrite (lookup_insert_eq (heap p2) a ev2 : heap p3 !! a = Some ev2).
    change (-EINVAL =? -ERESTARTSYS) with false. cbn [andb mbind option_bind].
    assert (waiter_of p3 (k, 1%nat) = Some (mk_waiter None false false)) as ->; [|done].
    unfold waiter_of. cbn [fst snd]. change (waits p3) with (waits p2). by rewrite Hk. }
  unfold out_unlock. change (length (waiters c)) with 2%nat. rewrite Hfree. cbn [mbind option_bind].
  eexists _, ev2. split; [reflexivity|]. split; [apply lookup_insert_eq|done].
Qed.

(** ** Concrete executions *)

(** Two signal events, the first auto-reset, one for memory exceptions and a restored
    one; the page is mapped with half of its size; a wait for both signal events that
    is woken by the interrupt of the first. *)
Definition event_history : list ev_request :=
  [Create KFD_EVENT_TYPE_SIGNAL true; Create KFD_EVENT_TYPE_SIGNAL false;
   Mmap 16384 0; Create KFD_EVENT_TYPE_MEMORY false;
   WaitBegin 7 true false [Some (mk_event_data 1 0); Some (mk_event_data 2 0)] true;
   WaitPoll 7 false; Interrupt 1 8; SetEvent 1;
   Restore (inr (mk_event_priv 9 false KFD_EVENT_TYPE_SIGNAL true NoPayload))].
Definition event_state : process :=
  default kfd_event_init_process
    (ev_steps 4096 true true 1 2 3 4 kfd_event_init_process event_history).

Lemma events_consistent_witness :
  ev_steps 4096 true true 1 2 3 4 kfd_event_init_process event_history = Some event_state ∧
  signal_mapped_size event_state = 16384 ∧ signal_event_count event_state = 4 ∧
  signal_event_count event_state =
    1 + msum (λ ev, b2z (is_signal_type (ev_type ev))) (heap event_state).
Proof.
  assert (H : ev_steps 4096 true true 1 2 3 4 kfd_event_init_process event_history = Some event_state)
    by (vm_compute; reflexivity).
  split; [exact H|]. split; [vm_compute; reflexivity|]. split; [vm_compute; reflexivity|].
  refine (proj1 (proj2 (proj2 (events_consistent 4096 true true 1 2 3 4 _ _ event_history event_state _ H)))).
  - lia.
  - exists 3. split; [lia|vm_compute; reflexivity].
  - repeat constructor.
Defined.

Lemma exhaustive_searches_agree_witness :
  signal_by_idr 4096 kfd_event_init_process = signal_by_slots 4096 kfd_event_init_process.
Proof.
  apply (exhaustive_searches_agree 4096 kfd_event_init_process); [lia|apply init_wf; lia].
Defined.

(** The state before the last signal, with one waiter in the queue of the event. *)
Definition waiting_state : process :=
  default kfd_event_init_process
    (ev_steps 4096 true true 1 2 3 4 kfd_event_init_process (take 6 event_history)).
Definition waited_event : kfd_event :=
  default (mk_event 0 0 false false 0 [] NoPayload) (heap waiting_state !! 1).

Lemma set_event_spec_witness :
  wq waited_event = [(7, 0%nat)] ∧
  ∃ p' ev', set_event waiting_state 1 = Some p' ∧ heap p' = <[1 := ev']> (heap waiting_state) ∧
    signaled ev' = false.
Proof.
  split; [vm_compute; reflexivity|].
  destruct (set_event_spec waiting_state 1 waited_event) as (p' & ev' & H1 & H2 & H3 & _);
    [vm_compute; reflexivity|vm_compute; split; [discriminate|reflexivity]|].
  exists p', ev'. split; [exact H1|]. split; [exact H2|]. rewrite H3. vm_compute. reflexivity.
Defined.

(** One auto-reset event. *)
Definition one_event : process := (kfd_event_create true true kfd_event_init_process 0 true).1.2.
Definition new_event : kfd_event := mk_event 1 1 false true 0 [] NoPayload.

Lemma auto_reset_one_wait_witness :
  ∃ p1 p2 v1, set_event one_event 1 = Some p1 ∧
    init_event_waiter p1 (1, 0%nat) (mk_event_data 1 0) = Some (0, p2, v1) ∧ activated v1 = true.
Proof.
  destruct (auto_reset_one_wait one_event 1 1 new_event (1, 0%nat) (2, 0%nat))
    as (p1 & p2 & p3 & v1 & v2 & ev' & H1 & H2 & H3 & _); [vm_compute; reflexivity..|].
  exists p1, p2, v1. split; [exact H1|]. split; [exact H2|exact H3].
Defined.

(** The wait for both events went on after its task was woken by the first one. *)
Lemma destroyed_event_use_after_free_witness :
  ∃ p', kfd_event_destroy event_state 1 = Some (0, p') ∧
    wait_end false p' 7 0 KFD_IOC_WAIT_RESULT_COMPLETE = None.
Proof.
  destruct (destroyed_event_use_after_free event_state 7 0 (mk_waiter (Some 1) true false) 1 1
    (default waited_event (heap event_state !! 1))) as (p' & H1 & H2).
  - vm_compute. reflexivity.
  - reflexivity.
  - vm_compute. reflexivity.
  - vm_compute. reflexivity.
  - vm_compute. inversion 1.
  - exists p'. split; [exact H1|apply H2].
Defined.

Definition restored (id : Z) : event_priv := mk_event_priv id true 0 false NoPayload.

Lemma criu_restore_event_outside_page_witness :
  ∃ p', kfd_criu_restore_event true true one_event (inr (restored 100000)) = (0, p') ∧
    signal_page p' ≠ None.
Proof.
  destruct (criu_restore_event_outside_page true one_event (restored 100000)
    (default ∅ (signal_page one_event))) as (p' & H1 & _ & H3).
  - vm_compute. reflexivity.
  - vm_compute. reflexivity.
  - vm_compute. reflexivity.
  - vm_compute. reflexivity.
  - vm_compute. split; [discriminate|reflexivity].
  - vm_compute. reflexivity.
  - exists p'. split; [exact H1|]. rewrite H3. discriminate.
Defined.

Lemma failed_wait_consumes_signal_witness :
  ∃ p1 p' ev', set_event one_event 1 = Some p1 ∧
    wait_begin true false p1 5 [Some (mk_event_data 1 0); Some (mk_event_data 9 0)] true
      = Some (Some (-EINVAL, KFD_IOC_WAIT_RESULT_FAIL), p') ∧
    heap p' !! 1 = Some ev' ∧ signaled ev' = false.
Proof.
  set (p1 := default one_event (set_event one_event 1)).
  destruct (failed_wait_consumes_signal p1 5 1 1 9 0 (mk_event 1 2 true true 0 [] NoPayload) false true)
    as (p' & ev' & H1 & H2 & H3); [vm_compute; reflexivity..|].
  exists p1, p', ev'. split; [vm_compute; reflexivity|]. split; [exact H1|]. split; [exact H2|exact H3].
Defined.
