(* ===== verification/Debug.v ===== *)
(** * Debugger support

    [kfd_debug.c]: the exceptions a debugger is told about, which are recorded on
    the queue, the device or the process they concern, and the address watch
    points of a device, which its processes share.

    Queues are objects: the nodes of the process queue manager and the queue lists
    of the devices hold their addresses.  Following the address of a freed queue,
    a shift by a count outside of the word and an index outside of an array are
    the outcome [None].  The exception codes and masks are those of the UAPI
    header, which is not in the repository: they are parameters. *)

From S2P Require Import Prelude DqmState Events.

(** ** Data *)

(** The fields of [struct kfd_process_device] the debugger uses; [pdd_dev] is the
    id of the node it belongs to. *)
Record kfd_process_device := mk_pdd {
  pdd_dev : Z;
  user_gpu_id : Z;
  pdd_queues_list : list Z;
  pdd_exception_status : Z;
  vm_fault_exc_data : option memory_exception;
  vm_fault_exc_data_size : Z;
  watch_points : list Z;
  alloc_watch_ids : Z;
}.
#[export] Instance eta_pdd : Eta kfd_process_device := λ d,
  mk_pdd (pdd_dev d) (user_gpu_id d) (pdd_queues_list d) (pdd_exception_status d)
    (vm_fault_exc_data d) (vm_fault_exc_data_size d) (watch_points d) (alloc_watch_ids d).

Inductive runtime_state_t :=
  | DEBUG_RUNTIME_STATE_DISABLED | DEBUG_RUNTIME_STATE_ENABLED
  | DEBUG_RUNTIME_STATE_ENABLED_BUSY | DEBUG_RUNTIME_STATE_ENABLED_ERROR.
#[export] Instance runtime_state_eq_dec : EqDecision runtime_state_t.
Proof. solve_decision. Defined.

(** What the debugger's functions ask of others: a byte for the debugger (from
    the work queue or at once), an eviction by [kfd_dqm_evict_pasid], an error
    code put in the save area of a queue for the runtime, an [up] of
    [runtime_enable_sema]. *)
Inductive dbg_action :=
  | NotifyDebugger (use_worker : bool)
  | EvictPasid (dev : Z)
  | RuntimeError (queue_id reason : Z)
  | RuntimeEnable.

(** [dbg_queues] are the queues by address, with the node they run on. *)
Record kfd_process := mk_kfd_process {
  p_pasid : Z;
  p_events : Events.process;
  dbg_queues : gmap Z (Z * queue);
  pqm_nodes : list (option Z);
  pdds : list kfd_process_device;
  dbg_trap_enabled : bool;
  exception_enable_mask : Z;
  p_exception_status : Z;
  runtime_state : runtime_state_t;
  irq_drain_is_open : bool;
  poison : bool;
  dbg_actions : list dbg_action;    (* latest first *)
}.
#[export] Instance eta_kfd_process : Eta kfd_process := λ p,
  mk_kfd_process (p_pasid p) (p_events p) (dbg_queues p) (pqm_nodes p) (pdds p)
    (dbg_trap_enabled p) (exception_enable_mask p) (p_exception_status p) (runtime_state p)
    (irq_drain_is_open p) (poison p) (dbg_actions p).

Definition act (a : dbg_action) (p : kfd_process) : kfd_process := p <| dbg_actions ::= cons a |>.

(** [&= ~mask]. *)
Definition clear_mask (mask status : Z) : Z := Z.ldiff status mask.

Definition q_status (q : Z * queue) : Z := exception_status (properties q.2).
Definition set_q_status (f : Z → Z) (q : Z * queue) : Z * queue :=
  (q.1, set_props (set_field exception_status f) q.2).

Section Debug.
(** Bits of the exceptions of queues, devices and processes, and three of them. *)
Context (KFD_EC_MASK_QUEUE KFD_EC_MASK_DEVICE KFD_EC_MASK_PROCESS : Z).
Context (EC_QUEUE_NEW EC_DEVICE_MEMORY_VIOLATION EC_PROCESS_RUNTIME : Z).

Definition KFD_EC_MASK (ecode : Z) : Z := Z.shiftl 1 (ecode - 1).

(** ** Reading and raising exceptions *)

(** The loop over the queues: the first with a subscribed exception. *)
Fixpoint query_queues (l : list (option Z)) (p : kfd_process) (exception_clear_mask : Z)
    : option (option (Z * Z * Z) * kfd_process) :=
  match l with
  | [] => Some (None, p)
  | None :: l => query_queues l p exception_clear_mask
  | Some a :: l =>
      q ← dbg_queues p !! a;
      if nz (Z.land (exception_enable_mask p) (q_status q)) then
        Some (Some (q_status q, queue_id (properties q.2), q.1),
              p <| dbg_queues ::= <[a := set_q_status (clear_mask exception_clear_mask) q]> |>)
      else query_queues l p exception_clear_mask
  end.

(** The loop over the devices from index [i] on. *)
Fixpoint query_pdds (i : nat) (l : list kfd_process_device) (p : kfd_process) (exception_clear_mask : Z)
    : option (Z * Z) * kfd_process :=
  match l with
  | [] => (None, p)
  | d :: l =>
      if nz (Z.land (exception_enable_mask p) (pdd_exception_status d)) then
        (Some (pdd_exception_status d, pdd_dev d),
         p <| pdds ::= <[i := d <| pdd_exception_status ::= clear_mask exception_clear_mask |>]> |>)
      else query_pdds (S i) l p exception_clear_mask
  end.

(** The code, the status, and the ids of the queue and of the device. *)
Definition kfd_dbg_ev_query_debug_event (p : kfd_process) (exception_clear_mask : Z)
    : option (Z * (Z * Z * Z) * kfd_process) :=
  if negb (dbg_trap_enabled p) then Some (-ENODATA, (0, 0, 0), p)
  else
    let out status ids p := Some (if nz status then 0 else -EAGAIN, (status, ids.1, ids.2), p) in
    '(found, p) ← query_queues (pqm_nodes p) p exception_clear_mask;
    match found with
    | Some (status, qid, gpu) => out status (qid, gpu) p
    | None =>
        match query_pdds 0 (pdds p) p exception_clear_mask with
        | (Some (status, gpu), p) => out status (0, gpu) p
        | (None, p) =>
            if nz (Z.land (exception_enable_mask p) (p_exception_status p)) then
              out (p_exception_status p) (0, 0)
                (p <| p_exception_status ::= clear_mask exception_clear_mask |>)
            else out 0 (0, 0) p
        end
    end.

(** Data of an exception with its size; [alloc_ok]: [kmemdup] finds memory. *)
Definition save_exc_data (alloc_ok : bool) (data : option memory_exception)
    (d : kfd_process_device) : kfd_process_device :=
  match vm_fault_exc_data d with
  | None => if alloc_ok then d <| vm_fault_exc_data := data |> else d
  | Some _ => d
  end.

(** The loop over the devices: the first of node [dev]. *)
Fixpoint raise_pdds (l : list kfd_process_device) (dev event_mask : Z) (alloc_ok : bool)
    (data : option memory_exception) : list kfd_process_device :=
  match l with
  | [] => []
  | d :: l =>
      if pdd_dev d =? dev then
        let d := d <| pdd_exception_status ::= λ s, Z.lor s (Z.land event_mask KFD_EC_MASK_DEVICE) |> in
        (if nz (Z.land event_mask (KFD_EC_MASK EC_DEVICE_MEMORY_VIOLATION))
         then save_exc_data alloc_ok data d else d) :: l
      else d :: raise_pdds l dev event_mask alloc_ok data
  end.

(** The loop over the queues: the first of node [dev] with the id. *)
Fixpoint raise_queues (l : list (option Z)) (p : kfd_process) (dev source_id event_mask : Z)
    : option kfd_process :=
  match l with
  | [] => Some p
  | None :: l => raise_queues l p dev source_id event_mask
  | Some a :: l =>
      q ← dbg_queues p !! a;
      let target_id := if nz (Z.land event_mask (KFD_EC_MASK EC_QUEUE_NEW))
                       then queue_id (properties q.2) else doorbell_id q.2 in
      if negb (q.1 =? dev) || negb (u32 target_id =? source_id)
      then raise_queues l p dev source_id event_mask
      else Some (p <| dbg_queues ::= <[a := set_q_status (λ s, Z.lor s event_mask) q]> |>)
  end.

Definition kfd_dbg_ev_raise (event_mask : Z) (p : kfd_process) (dev source_id : Z) (use_worker : bool)
    (alloc_ok : bool) (exception_data : option memory_exception) : option (bool * kfd_process) :=
  if negb (dbg_trap_enabled p) then Some (false, p)
  else
    p ← (if nz (Z.land event_mask KFD_EC_MASK_DEVICE) then
           Some (p <| pdds ::= λ l, raise_pdds l dev event_mask alloc_ok exception_data |>)
         else if nz (Z.land event_mask KFD_EC_MASK_PROCESS) then
           Some (p <| p_exception_status ::= λ s, Z.lor s (Z.land event_mask KFD_EC_MASK_PROCESS) |>)
         else raise_queues (pqm_nodes p) p dev source_id event_mask);
    Some (if nz (Z.land (exception_enable_mask p) event_mask)
          then (true, act (NotifyDebugger use_worker) p) else (false, p)).

(** [kfd_dbg_set_enabled_debug_exception_mask]; the statuses of all sources. *)
Fixpoint found_queues (l : list (option Z)) (p : kfd_process) : option Z :=
  match l with
  | [] => Some 0
  | None :: l => found_queues l p
  | Some a :: l => q ← dbg_queues p !! a; s ← found_queues l p; Some (Z.lor (q_status q) s)
  end.
Definition kfd_dbg_set_enabled_debug_exception_mask (p : kfd_process) (exception_set_mask : Z)
    : option kfd_process :=
  q ← found_queues (pqm_nodes p) p;
  let found_mask := foldr (λ d, Z.lor (pdd_exception_status d))
                      (Z.lor (p_exception_status p) q) (pdds p) in
  let p := if nz (Z.land exception_set_mask found_mask) then act (NotifyDebugger false) p else p in
  Some (p <| exception_enable_mask := exception_set_mask |>).

(** [kfd_dbg_clean_exception_status], after the drain of each device. *)
Fixpoint clean_queues (l : list (option Z)) (p : kfd_process) : option kfd_process :=
  match l with
  | [] => Some p
  | None :: l => clean_queues l p
  | Some a :: l =>
      q ← dbg_queues p !! a;
      clean_queues l (p <| dbg_queues ::= <[a := set_q_status (λ _, 0) q]> |>)
  end.
Definition kfd_dbg_clean_exception_status (p : kfd_process) : option kfd_process :=
  p ← clean_queues (pqm_nodes p) (p <| pdds ::= fmap (set_field pdd_exception_status (λ _, 0)) |>);
  Some (p <| p_exception_status := 0 |>).

(** ** Exceptions from interrupts, and for the runtime *)

Definition kfd_process_get_user_gpu_id (p : kfd_process) (actual_gpu_id : Z) : Z :=
  if actual_gpu_id =? 0 then 0
  else match list_find (λ d, pdd_dev d = actual_gpu_id) (pdds p) with
       | Some (_, d) => user_gpu_id d
       | None => -EINVAL
       end.

(** [pqm_get_user_queue]: the queue with the id, of the nodes that have one. *)
Fixpoint pqm_find (f : Z * queue → bool) (l : list (option Z)) (p : kfd_process)
    : option (option (Z * queue)) :=
  match l with
  | [] => Some None
  | None :: l => pqm_find f l p
  | Some a :: l => q ← dbg_queues p !! a; if f q then Some (Some q) else pqm_find f l p
  end.

(** [kfd_send_exception_to_runtime] with its worker: the error code goes to the
    save area of the queue and the event named there ([err_event_id]) is set;
    [has_mm]: the process still has its memory. *)
Context (has_mm : bool) (err_event_id : Z → Z).
Definition kfd_send_exception_to_runtime (p : kfd_process) (qid error_reason : Z)
    : option (Z * kfd_process) :=
  if negb has_mm then Some (0, p)
  else
    q ← pqm_find (λ q, queue_id (properties q.2) =? qid) (pqm_nodes p) p;
    match q with
    | None => Some (0, p)
    | Some _ =>
        '(_, ev) ← kfd_set_event (p_events p) (err_event_id qid);
        Some (0, act (RuntimeError qid error_reason) (p <| p_events := ev |>))
    end.

Definition vm_fault (dev : Z) (data : option memory_exception) (p : kfd_process) : option kfd_process :=
  ev ← kfd_signal_vm_fault_event (p_events p) (kfd_process_get_user_gpu_id p dev) None data;
  Some (act (EvictPasid dev) p <| p_events := ev |>).

(** For the process of the PASID of the interrupt. *)
Definition kfd_set_dbg_ev_from_interrupt (p : kfd_process) (dev doorbell : Z) (trap_mask : Z)
    (alloc_ok : bool) (exception_data : option memory_exception) : option (bool * kfd_process) :=
  '(raised, p) ← kfd_dbg_ev_raise trap_mask p dev doorbell true alloc_ok exception_data;
  if (raised : bool) then Some (true, p)
  else if nz (Z.land trap_mask KFD_EC_MASK_QUEUE)
          && bool_decide (runtime_state p = DEBUG_RUNTIME_STATE_ENABLED) then
    q ← pqm_find (λ q, (q.1 =? dev) && (doorbell_id q.2 =? doorbell)) (pqm_nodes p) p;
    match q with
    | Some q =>
        '(_, p) ← kfd_send_exception_to_runtime p (queue_id (properties q.2)) trap_mask;
        Some (true, p)
    | None => Some (false, p)
    end
  else if nz (Z.land trap_mask (KFD_EC_MASK EC_DEVICE_MEMORY_VIOLATION)) then
    pair true <$> vm_fault dev exception_data p
  else Some (false, p).

Definition kfd_dbg_send_exception_to_runtime (p : kfd_process) (dev_id qid error_reason : Z)
    : option (Z * kfd_process) :=
  let violation := KFD_EC_MASK EC_DEVICE_MEMORY_VIOLATION in
  let rest p error_reason :=
    let runtime := KFD_EC_MASK EC_PROCESS_RUNTIME in
    let '(error_reason, p) :=
      if nz (Z.land error_reason runtime) then (clear_mask runtime error_reason, act RuntimeEnable p)
      else (error_reason, p) in
    if nz error_reason then kfd_send_exception_to_runtime p qid error_reason else Some (0, p) in
  if nz (Z.land error_reason violation) then
    match list_find (λ d, pdd_dev d = dev_id) (pdds p) with
    | None => Some (-ENODEV, p)
    | Some (_, d) =>
        p ← vm_fault (pdd_dev d) (vm_fault_exc_data d) p;
        rest p (clear_mask violation error_reason)
    end
  else rest p error_reason.

(** ** One exception on request *)

(** The kinds of exceptions, [KFD_DBG_EC_TYPE_IS_QUEUE] and the like. *)
Context (is_queue is_device is_process : Z → bool).

Definition has_ec (status exception_code : Z) : bool :=
  nz (Z.land status (KFD_EC_MASK exception_code)).

(** The first queue of the devices with the id. *)
Fixpoint find_queue (l : list Z) (p : kfd_process) (source_id : Z) : option (option (Z * (Z * queue))) :=
  match l with
  | [] => Some None
  | a :: l => q ← dbg_queues p !! a;
              if queue_id (properties q.2) =? source_id then Some (Some (a, q)) else find_queue l p source_id
  end.

(** [fault]: the copy to the user fails; [runtime_info_size]: the size of
    [struct kfd_runtime_info].  The code, the size given back (the caller's when
    there is an error), the number of bytes copied and the process. *)
Definition kfd_dbg_trap_query_exception_info (fault : bool) (runtime_info_size : Z) (p : kfd_process)
    (source_id exception_code : Z) (clear_exception : bool) (info_size : Z)
    : option (Z * Z * Z * kfd_process) :=
  let err r := Some (r, info_size, 0, p) in
  let clear := if clear_exception then clear_mask (KFD_EC_MASK exception_code) else id in
  if is_queue exception_code then
    f ← find_queue (concat (pdd_queues_list <$> pdds p)) p source_id;
    match f with
    | None => err (-EINVAL)
    | Some (a, q) =>
        if negb (has_ec (q_status q) exception_code) then err (-ENODATA)
        else Some (0, 0, 0, p <| dbg_queues ::= <[a := set_q_status clear q]> |>)
    end
  else if is_device exception_code then
    match list_find (λ d, pdd_dev d = source_id) (pdds p) with
    | None => err (-EINVAL)
    | Some (i, d) =>
        if negb (has_ec (pdd_exception_status d) exception_code) then err (-ENODATA)
        else if exception_code =? EC_DEVICE_MEMORY_VIOLATION then
          let size := vm_fault_exc_data_size d in
          if fault then err (-EFAULT)
          else
            let d := if clear_exception
                     then d <| vm_fault_exc_data := None |> <| vm_fault_exc_data_size := 0 |> else d in
            Some (0, u32 size, Z.min info_size size,
                  p <| pdds ::= <[i := d <| pdd_exception_status ::= clear |>]> |>)
        else Some (0, 0, 0, p <| pdds ::= <[i := d <| pdd_exception_status ::= clear |>]> |>)
    end
  else if is_process exception_code then
    if negb (has_ec (p_exception_status p) exception_code) then err (-ENODATA)
    else
      let p' := p <| p_exception_status ::= clear |> in
      if exception_code =? EC_PROCESS_RUNTIME then
        if fault then err (-EFAULT)
        else Some (0, runtime_info_size, Z.min info_size runtime_info_size, p')
      else Some (0, 0, 0, p')
  else err (-EINVAL).

End Debug.

(** ** Address watch points *)

Definition MAX_WATCH_ADDRESSES : Z := 4.

(** [(word >> i) & 0x1] and [0x1 << i] on 32-bit words. *)
Definition shift_bit (word i : Z) : option bool :=
  if (0 <=? i) && (i <? 32) then Some (Z.testbit word i) else None.

(** The code, the watch point found ([-1] when none is), the ids in use on the
    device and those of the process. *)
Definition kfd_dbg_get_dev_watch_id (dev_ids pdd_ids : Z) : Z * Z * Z * Z :=
  match scan (λ i, negb (Z.testbit dev_ids i)) 0 (Z.to_nat MAX_WATCH_ADDRESSES) with
  | Some i => (0, i, set_bit i dev_ids, set_bit i pdd_ids)
  | None => (-ENOMEM, -1, dev_ids, pdd_ids)
  end.

Definition kfd_dbg_clear_dev_watch_id (dev_ids pdd_ids watch_id : Z) : option (Z * Z) :=
  owned ← shift_bit pdd_ids watch_id;
  Some (if owned : bool then (clear_bit watch_id dev_ids, clear_bit watch_id pdd_ids)
        else (dev_ids, pdd_ids)).

(** [watch_id] is an [int]. *)
Definition kfd_dbg_owns_dev_watch_id (pdd_ids watch_id : Z) : option bool :=
  if watch_id <? MAX_WATCH_ADDRESSES then shift_bit pdd_ids watch_id else Some false.

(** Answers of the queue manager: of [debug_lock_and_unmap] (0 under MES, where
    it is not called), and of [debug_map_and_unlock] or [kfd_dbg_set_mes_debug_mode]. *)
Definition kfd_dbg_trap_clear_dev_address_watch (unmap map reg : Z) (dev_ids : Z)
    (d : kfd_process_device) (watch_id : Z) : option (Z * Z * kfd_process_device) :=
  owned ← kfd_dbg_owns_dev_watch_id (alloc_watch_ids d) (s32 watch_id);
  if negb owned then Some (-EINVAL, dev_ids, d)
  else if nz unmap then Some (unmap, dev_ids, d)
  else if Z.of_nat (length (watch_points d)) <=? watch_id then None
  else
    '(dev_ids, ids) ← kfd_dbg_clear_dev_watch_id dev_ids (alloc_watch_ids d) (s32 watch_id);
    Some (map, dev_ids, d <| watch_points ::= <[Z.to_nat watch_id := reg]> |>
                          <| alloc_watch_ids := ids |>).

(** [has_xcc]: the device has a compute partition to program. *)
Definition kfd_dbg_trap_set_dev_address_watch (has_xcc : bool) (unmap map reg : Z) (dev_ids : Z)
    (d : kfd_process_device) : option (Z * Z * Z * kfd_process_device) :=
  let '(r, watch_id, dev_ids, ids) := kfd_dbg_get_dev_watch_id dev_ids (alloc_watch_ids d) in
  let d := d <| alloc_watch_ids := ids |> in
  if nz r then Some (r, watch_id, dev_ids, d)
  else if nz unmap then
    '(dev_ids, ids) ← kfd_dbg_clear_dev_watch_id dev_ids ids watch_id;
    Some (unmap, watch_id, dev_ids, d <| alloc_watch_ids := ids |>)
  else if has_xcc && (Z.of_nat (length (watch_points d)) <=? watch_id) then None
  else
    let d := if has_xcc then d <| watch_points ::= <[Z.to_nat watch_id := reg]> |> else d in
    if nz map then
      '(dev_ids, ids) ← kfd_dbg_clear_dev_watch_id dev_ids ids watch_id;
      Some (0, watch_id, dev_ids, d <| alloc_watch_ids := ids |>)
    else Some (0, watch_id, dev_ids, d).

(** [kfd_dbg_clear_process_address_watch] on one device; answers are ignored. *)
Definition kfd_dbg_clear_process_address_watch (answers : Z → Z * Z * Z) (dev_ids : Z)
    (d : kfd_process_device) : option (Z * kfd_process_device) :=
  foldl (λ o j, '(dev_ids, d) ← o;
      let '(unmap, map, reg) := answers j in
      '(_, dev_ids, d) ← kfd_dbg_trap_clear_dev_address_watch unmap map reg dev_ids d j;
      Some (dev_ids, d))
    (Some (dev_ids, d)) (seqZ 0 MAX_WATCH_ADDRESSES).
