(* ===== verification/DebugProof.v ===== *)
(** * What the debugger's functions promise

    Reading events until there are none reports each source with a subscribed
    exception once; the watch points of a device are never shared. *)

From S2P Require Import Prelude DqmState Events Debug.

(** ** Reading the events *)

Section Query.
Context (mask : Z).

(** What a source has to report. *)
Definition queue_report (p : kfd_process) (a : Z) : option (Z * Z * Z) :=
  q ← dbg_queues p !! a;
  if nz (Z.land (exception_enable_mask p) (q_status q))
  then Some (q_status q, queue_id (properties q.2), q.1) else None.
Definition queue_reports (p : kfd_process) (l : list (option Z)) : list (Z * Z * Z) :=
  omap (λ o, o ≫= queue_report p) l.
Definition pdd_reports (enable : Z) (l : list kfd_process_device) : list (Z * Z * Z) :=
  omap (λ d, if nz (Z.land enable (pdd_exception_status d))
             then Some (pdd_exception_status d, 0, pdd_dev d) else None) l.
Definition process_reports (enable status : Z) : list (Z * Z * Z) :=
  if nz (Z.land enable status) then [(status, 0, 0)] else [].

(** The queues in the order of the process queue manager, the devices, the process. *)
Definition reports (p : kfd_process) : list (Z * Z * Z) :=
  queue_reports p (pqm_nodes p) ++ pdd_reports (exception_enable_mask p) (pdds p)
  ++ process_reports (exception_enable_mask p) (p_exception_status p).

(** Events are read until there are none, at most [n]. *)
Fixpoint query_all (n : nat) (p : kfd_process) : option (list (Z * Z * Z) * kfd_process) :=
  match n with
  | O => Some ([], p)
  | S n =>
      '(r, report, p) ← kfd_dbg_ev_query_debug_event p mask;
      if nz r then Some ([], p)
      else '(l, p) ← query_all n p; Some (report :: l, p)
  end.

(** The nodes point to distinct queues that exist. *)
Record queues_live (p : kfd_process) : Prop := {
  live_nodes : ∀ a, Some a ∈ pqm_nodes p → is_Some (dbg_queues p !! a);
  live_distinct : NoDup (omap id (pqm_nodes p));
}.

Lemma land_clear_covered enable status :
  Z.ldiff enable mask = 0 → Z.land enable (clear_mask mask status) = 0.
Proof.
  intros He. apply Z.bits_inj'. intros i Hi.
  assert (Hb : Z.testbit (Z.ldiff enable mask) i = false) by by rewrite He, Z.bits_0.
  unfold clear_mask. rewrite Z.land_spec, Z.ldiff_spec, Z.bits_0 in *.
  destruct (Z.testbit enable i), (Z.testbit mask i), (Z.testbit status i); done.
Qed.

Lemma nz_land_l a b : nz (Z.land a b) = true → nz b = true.
Proof. rewrite !nz_true. intros H ->. by rewrite Z.land_0_r in H. Qed.

Lemma queue_report_cleared p a q f b :
  queue_report (p <| dbg_queues ::= <[a := set_q_status f q]> |>) b =
  if decide (a = b) then
    if nz (Z.land (exception_enable_mask p) (f (q_status q)))
    then Some (f (q_status q), queue_id (properties q.2), q.1) else None
  else queue_report p b.
Proof.
  unfold queue_report. cbn. destruct (decide (a = b)) as [->|].
  - by rewrite lookup_insert_eq.
  - by rewrite lookup_insert_ne.
Qed.

Lemma queue_reports_cons p a l :
  queue_reports p (Some a :: l) =
  match queue_report p a with Some x => x :: queue_reports p l | None => queue_reports p l end.
Proof. unfold queue_reports. simpl. by destruct (queue_report p a). Qed.

Lemma queue_reports_other p a q f l :
  a ∉ omap id l → queue_reports (p <| dbg_queues ::= <[a := set_q_status f q]> |>) l = queue_reports p l.
Proof.
  intros Ha. induction l as [|[b|] l IH]; [done| |by apply IH].
  cbn in Ha. apply not_elem_of_cons in Ha as [Hne Ha].
  by rewrite !queue_reports_cons, queue_report_cleared, decide_False, IH.
Qed.

Lemma query_queues_spec l p :
  (∀ a, Some a ∈ l → is_Some (dbg_queues p !! a)) → NoDup (omap id l) →
  Z.ldiff (exception_enable_mask p) mask = 0 →
  (queue_reports p l = [] ∧ query_queues l p mask = Some (None, p))
  ∨ ∃ st qid gpu rest a q, queue_reports p l = (st, qid, gpu) :: rest ∧ nz st = true
      ∧ let p' := p <| dbg_queues ::= <[a := set_q_status (clear_mask mask) q]> |> in
        query_queues l p mask = Some (Some (st, qid, gpu), p') ∧ queue_reports p' l = rest
        ∧ dbg_queues p !! a = Some q.
Proof.
  intros Hl Hd He. induction l as [|[a|] l IH]; [by left| |].
  2:{ apply IH; [|done]. intros a Ha. apply Hl. by right. }
  cbn in Hd. apply NoDup_cons in Hd as [Ha Hd].
  destruct (Hl a) as [q Hq]; [by left|]. rewrite queue_reports_cons.
  assert (Hqr : queue_report p a = if nz (Z.land (exception_enable_mask p) (q_status q))
    then Some (q_status q, queue_id (properties q.2), q.1) else None)
    by (unfold queue_report; by rewrite Hq).
  rewrite Hqr. cbn [query_queues]. rewrite Hq. cbn [mbind option_bind]. destruct (nz (Z.land (exception_enable_mask p) (q_status q))) eqn:E.
  - right. eexists _, _, _, _, a, q. split; [done|]. split; [by eapply nz_land_l|].
    split_and!; [done| |done]. rewrite queue_reports_cons, queue_report_cleared, decide_True by done.
    rewrite land_clear_covered by done. by apply (queue_reports_other p a q).
  - destruct IH as [[Hr ->] | (st & qid & gpu & rest & b & q' & Hr & Hst & -> & Hr' & Hb)]; try done.
    { intros b Hb. apply Hl. by right. }
    + by left.
    + right. eexists st, qid, gpu, rest, b, q'. split_and!; try done.
      rewrite queue_reports_cons, queue_report_cleared. destruct (decide (b = a)) as [->|].
      * rewrite land_clear_covered by done. exact Hr'.
      * rewrite Hqr. exact Hr'.
Qed.

Lemma query_pdds_spec i l p :
  Z.ldiff (exception_enable_mask p) mask = 0 →
  (pdd_reports (exception_enable_mask p) l = [] ∧ query_pdds i l p mask = (None, p))
  ∨ ∃ st gpu rest l1 d l2, l = l1 ++ d :: l2
      ∧ pdd_reports (exception_enable_mask p) l = (st, 0, gpu) :: rest ∧ nz st = true
      ∧ query_pdds i l p mask = (Some (st, gpu), p <| pdds ::=
          <[(i + length l1)%nat := d <| pdd_exception_status ::= clear_mask mask |>]> |>)
      ∧ pdd_reports (exception_enable_mask p)
          (l1 ++ d <| pdd_exception_status ::= clear_mask mask |> :: l2) = rest.
Proof.
  intros He. revert i. induction l as [|d l IH]; intros i; [by left|].
  unfold pdd_reports. cbn. destruct (nz (Z.land (exception_enable_mask p) (pdd_exception_status d))) eqn:E.
  - right. eexists _, _, _, [], d, l. split; [done|]. split; [done|]. split; [by eapply nz_land_l|].
    rewrite Nat.add_0_r. split; [done|]. cbn. by rewrite land_clear_covered.
  - destruct (IH (S i)) as [[Hr ->] | (st & gpu & rest & l1 & d' & l2 & -> & Hr & Hst & -> & Hr')].
    + by left.
    + right. exists st, gpu, rest, (d :: l1), d', l2. split_and!; try done.
      * cbn [length]. by replace (i + S (length l1))%nat with (S i + length l1)%nat by lia.
      * cbn. rewrite E. exact Hr'.
Qed.
Lemma live_update p a q f :
  queues_live p → dbg_queues p !! a = Some q →
  queues_live (p <| dbg_queues ::= <[a := set_q_status f q]> |>).
Proof.
  intros [Hl Hd] Ha. split; [|done]. cbn. intros b Hb. destruct (decide (a = b)) as [->|].
  - rewrite lookup_insert_eq. eauto.
  - rewrite lookup_insert_ne by done. by apply Hl.
Qed.

Lemma query_step p :
  queues_live p → dbg_trap_enabled p = true → Z.ldiff (exception_enable_mask p) mask = 0 →
  match reports p with
  | [] => kfd_dbg_ev_query_debug_event p mask = Some (-EAGAIN, (0, 0, 0), p)
  | r :: rest => ∃ p', kfd_dbg_ev_query_debug_event p mask = Some (0, r, p') ∧ queues_live p'
      ∧ dbg_trap_enabled p' = true ∧ Z.ldiff (exception_enable_mask p') mask = 0 ∧ reports p' = rest
  end.
Proof.
  intros Hlive Ht He. pose proof Hlive as [Hl Hd].
  unfold reports, kfd_dbg_ev_query_debug_event. rewrite Ht. cbn [negb].
  destruct (query_queues_spec (pqm_nodes p) p Hl Hd He)
    as [[Hq ->] | (st & qid & gpu & rest & a & q & -> & Hst & -> & Hr & Ha)];
    [rewrite Hq|]; cbn [mbind option_bind app].
  2:{ rewrite Hst. eexists. split_and!; [done|by apply live_update|done|done|].
      f_equal. exact Hr. }
  destruct (query_pdds_spec 0 (pdds p) p He)
    as [[Hd0 ->] | (st & gpu & rest & l1 & d & l2 & Hp & -> & Hst & -> & Hr)];
    [rewrite Hd0|]; cbn [app].
  2:{ rewrite Hst. eexists. split_and!; [done|by destruct Hlive|done|done|].
      change (queue_reports p (pqm_nodes p) ++ pdd_reports (exception_enable_mask p)
        (<[length l1 := d <| pdd_exception_status ::= clear_mask mask |>]> (pdds p)) ++
        process_reports (exception_enable_mask p) (p_exception_status p) =
        rest ++ process_reports (exception_enable_mask p) (p_exception_status p)).
      rewrite Hq, Hp, insert_app_r_alt, Nat.sub_diag by done. by rewrite <- Hr. }
  unfold process_reports. destruct (nz (Z.land _ _)) eqn:E; [|done].
  rewrite (nz_land_l _ _ E). eexists. split_and!; [done|by destruct Hlive|done|done|].
  change (queue_reports p (pqm_nodes p) ++ pdd_reports (exception_enable_mask p) (pdds p) ++
    process_reports (exception_enable_mask p) (clear_mask mask (p_exception_status p)) = []).
  rewrite Hq, Hd0. unfold process_reports. by rewrite land_clear_covered.
Qed.

Lemma query_all_spec n p :
  queues_live p → dbg_trap_enabled p = true → Z.ldiff (exception_enable_mask p) mask = 0 →
  (length (reports p) ≤ n)%nat →
  ∃ p', query_all n p = Some (reports p, p') ∧ reports p' = []
    ∧ kfd_dbg_ev_query_debug_event p' mask = Some (-EAGAIN, (0, 0, 0), p').
Proof.
  revert p. induction n as [|n IH]; intros p Hl Ht He Hn; pose proof (query_step p Hl Ht He) as Hs.
  - destruct (reports p) eqn:Hr; [|cbn in Hn; lia]. exists p. by rewrite Hr.
  - cbn [query_all]. destruct (reports p) as [|r rest] eqn:Hr.
    + rewrite Hs. exists p. by rewrite Hr.
    + destruct Hs as (p1 & -> & Hl1 & Ht1 & He1 & Hr1). cbn [mbind option_bind].
      change (nz 0) with false. cbv iota.
      destruct (IH p1 Hl1 Ht1 He1) as (p' & -> & Hr' & Hq'); [rewrite Hr1; cbn in Hn; lia|].
      cbn. exists p'. by rewrite Hr1.
Qed.
End Query.

(** ** Watch points *)

Section Watch.
Context (Hmax : 0 ≤ MAX_WATCH_ADDRESSES ≤ 4).

(** Requests of the debugged processes of a device, the [i]-th of which is meant;
    the answers of the queue manager are given. *)
Inductive watch_request :=
  | SetWatch (i : nat) (has_xcc : bool) (unmap map reg : Z)
  | ClearWatch (i : nat) (watch_id : Z) (unmap map reg : Z).

(** Ids in use on the device, and what the processes have of it. *)
Definition watch_step (s : Z * list kfd_process_device) (r : watch_request)
    : option (Z * list kfd_process_device) :=
  match r with
  | SetWatch i has_xcc unmap map reg =>
      match s.2 !! i with
      | None => Some s
      | Some d =>
          '(_, _, ids, d) ← kfd_dbg_trap_set_dev_address_watch has_xcc unmap map reg s.1 d;
          Some (ids, <[i := d]> s.2)
      end
  | ClearWatch i id unmap map reg =>
      match s.2 !! i with
      | None => Some s
      | Some d =>
          '(_, ids, d) ← kfd_dbg_trap_clear_dev_address_watch unmap map reg s.1 d id;
          Some (ids, <[i := d]> s.2)
      end
  end.
Definition watch_run (s : Z * list kfd_process_device) (l : list watch_request) :=
  foldl (λ o r, s ← o; watch_step s r) (Some s) l.

(** An id is in use on the device exactly when one process owns it, and one only. *)
Record watch_ok (s : Z * list kfd_process_device) : Prop := {
  watch_lengths : Forall (λ d, length (watch_points d) = 4%nat) s.2;
  watch_owned : ∀ b, 0 ≤ b → Z.testbit s.1 b = true ↔ ∃ i d, s.2 !! i = Some d ∧ Z.testbit (alloc_watch_ids d) b = true;
  watch_once : ∀ b i j d d', s.2 !! i = Some d → s.2 !! j = Some d' →
    Z.testbit (alloc_watch_ids d) b = true → Z.testbit (alloc_watch_ids d') b = true → i = j;
  watch_bound : ∀ b, Z.testbit s.1 b = true → b < MAX_WATCH_ADDRESSES;
}.

Lemma watch_ok_put dev dev' l i d d' :
  watch_ok (dev, l) → l !! i = Some d → length (watch_points d') = 4%nat →
  (∀ b, 0 ≤ b → Z.testbit (alloc_watch_ids d') b = true →
     Z.testbit (alloc_watch_ids d) b = true ∨ Z.testbit dev b = false) →
  (∀ b, 0 ≤ b → Z.testbit dev' b = true ↔
     Z.testbit (alloc_watch_ids d') b = true
     ∨ Z.testbit dev b = true ∧ Z.testbit (alloc_watch_ids d) b = false) →
  (∀ b, Z.testbit dev' b = true → b < MAX_WATCH_ADDRESSES) →
  watch_ok (dev', <[i := d']> l).
Proof.
  intros [H4 Ho H1 Hb] Hi Hlen Hnew Hdev Hbound. pose proof (lookup_lt_Some _ _ _ Hi) as Hlt.
  assert (Hself : ∀ b, Z.testbit (alloc_watch_ids d) b = true → Z.testbit dev b = true).
  { intros b Hb'. destruct (decide (0 ≤ b)); [|by rewrite Z.testbit_neg_r in Hb' by lia].
    apply Ho; [done|]. eauto. }
  assert (Hcross : ∀ b j e, j ≠ i → l !! j = Some e →
    Z.testbit (alloc_watch_ids d') b = true → Z.testbit (alloc_watch_ids e) b = true → False).
  { intros b j e Hne Hj Hd He. destruct (decide (0 ≤ b)); [|by rewrite Z.testbit_neg_r in Hd by lia].
    destruct (Hnew b) as [Hd0 | Hd0]; [done|done| |].
    - apply Hne. by eapply (H1 b).
    - assert (Z.testbit dev b = true) by (apply Ho; eauto). congruence. }
  split; cbn [fst snd] in *.
  - by apply Forall_insert.
  - intros b Hb0. rewrite Hdev by done. split.
    + intros [Hd | [Hd Hn]]; [exists i, d'; by rewrite list_lookup_insert_eq|].
      apply Ho in Hd as (j & e & Hj & He); [|done]. exists j, e.
      rewrite list_lookup_insert_ne; [done|]. intros ->. simplify_eq/=. congruence.
    + intros (j & e & Hj & He). destruct (decide (i = j)) as [->|Hne].
      * rewrite list_lookup_insert_eq in Hj by done. simplify_eq. by left.
      * rewrite list_lookup_insert_ne in Hj by done. right. split; [apply Ho; eauto|].
        apply not_true_iff_false. intros Hd. apply Hne. exact (H1 b _ _ _ _ Hi Hj Hd He).
  - intros b j1 j2 e1 e2 Hj1 Hj2 He1 He2.
    destruct (decide (j1 = i)) as [->|N1], (decide (j2 = i)) as [->|N2]; try done;
      rewrite ?list_lookup_insert_eq in Hj1 by done; rewrite ?list_lookup_insert_eq in Hj2 by done;
      rewrite ?list_lookup_insert_ne in Hj1 by done; rewrite ?list_lookup_insert_ne in Hj2 by done;
      simplify_eq; [exfalso; by eapply (Hcross b j2 e2)|exfalso; by eapply (Hcross b j1 e1)|by eapply (H1 b)].
  - done.
Qed.

Lemma watch_ok_set dev l i d d' b :
  watch_ok (dev, l) → l !! i = Some d → length (watch_points d') = 4%nat →
  alloc_watch_ids d' = set_bit b (alloc_watch_ids d) →
  0 ≤ b < MAX_WATCH_ADDRESSES → Z.testbit dev b = false → watch_ok (set_bit b dev, <[i := d']> l).
Proof.
  intros Hok Hi Hlen Ha Hb Hf. pose proof Hok as [_ _ _ Hbd].
  eapply watch_ok_put; try done; rewrite ?Ha; unfold set_bit; intros c; rewrite ?Z.setbit_eqb by lia.
  - destruct (Z.eqb_spec b c) as [->|]; cbn; auto.
  - intros Hc. destruct (Z.eqb_spec b c) as [->|]; cbn; [tauto|].
    split; [|intros [Hd|[? _]]; [|done]].
    + destruct (Z.testbit (alloc_watch_ids d) c); auto.
    + pose proof Hok as [_ Ho _ _]. apply Ho; [done|]. eauto.
  - destruct (Z.eqb_spec b c) as [->|]; cbn; [lia|apply Hbd].
Qed.

Lemma watch_ok_clear dev l i d d' b :
  watch_ok (dev, l) → l !! i = Some d → length (watch_points d') = 4%nat →
  alloc_watch_ids d' = clear_bit b (alloc_watch_ids d) →
  0 ≤ b → Z.testbit (alloc_watch_ids d) b = true → watch_ok (clear_bit b dev, <[i := d']> l).
Proof.
  intros Hok Hi Hlen Ha Hb Hf. pose proof Hok as [_ Ho _ Hbd].
  eapply watch_ok_put; try done; rewrite ?Ha; unfold clear_bit; intros c; rewrite ?Z.clearbit_eqb by lia.
  - intros _ [Hc _]%andb_true_iff. auto.
  - intros Hc. destruct (Z.eqb_spec b c) as [->|]; cbn; rewrite ?andb_true_r, ?andb_false_r.
    + rewrite Hf. split; [done|intros [?|[_ ?]]; done].
    + split; [destruct (Z.testbit (alloc_watch_ids d) c); auto|].
      intros [Hd|[? _]]; [|done]. apply Ho; [done|]. eauto.
  - intros [Hc _]%andb_true_iff. by apply Hbd.
Qed.

Lemma watch_ok_same dev l i d d' :
  watch_ok (dev, l) → l !! i = Some d → length (watch_points d') = 4%nat →
  alloc_watch_ids d' = alloc_watch_ids d → watch_ok (dev, <[i := d']> l).
Proof.
  intros Hok Hi Hlen Ha. pose proof Hok as [_ Ho _ Hbd].
  eapply watch_ok_put; try done; rewrite ?Ha; [auto|].
  intros c Hc. split.
  - destruct (Z.testbit (alloc_watch_ids d) c); auto.
  - intros [Hd|[? _]]; [|done]. apply Ho; [done|]. eauto.
Qed.

(** [s32] of an id below 2^31 is the id. *)
Definition watch_request_ok (r : watch_request) : Prop :=
  match r with SetWatch _ _ _ _ _ => True | ClearWatch _ id _ _ _ => 0 ≤ id < 2 ^ 31 end.

Lemma shift_bit_small w i : 0 ≤ i < 32 → shift_bit w i = Some (Z.testbit w i).
Proof.
  intros Hi. unfold shift_bit. rewrite (proj2 (Z.leb_le _ _)), (proj2 (Z.ltb_lt _ _)) by lia. done.
Qed.

Lemma get_dev_watch_id_spec dev ids :
  (∃ b, 0 ≤ b < MAX_WATCH_ADDRESSES ∧ Z.testbit dev b = false
    ∧ kfd_dbg_get_dev_watch_id dev ids = (0, b, set_bit b dev, set_bit b ids))
  ∨ (∀ b, 0 ≤ b < MAX_WATCH_ADDRESSES → Z.testbit dev b = true)
    ∧ kfd_dbg_get_dev_watch_id dev ids = (-ENOMEM, -1, dev, ids).
Proof.
  unfold kfd_dbg_get_dev_watch_id. destruct (scan _ _ _) as [b|] eqn:E.
  - apply scan_Some in E as (Hb & Hf & _). left. exists b. split; [lia|]. by apply negb_true_iff in Hf.
  - right. split; [|done]. intros b Hb. apply negb_false_iff. apply (scan_None _ _ _ E b). lia.
Qed.

(** [kfd_dbg_clear_dev_watch_id] of an id the process owns. *)
Lemma clear_dev_watch_id_owned dev ids b :
  0 ≤ b < MAX_WATCH_ADDRESSES → Z.testbit ids b = true →
  kfd_dbg_clear_dev_watch_id dev ids b = Some (clear_bit b dev, clear_bit b ids).
Proof.
  intros Hb Hi. unfold kfd_dbg_clear_dev_watch_id. rewrite shift_bit_small by lia. cbn. by rewrite Hi.
Qed.

Lemma set_step dev l i d has_xcc unmap map reg :
  watch_ok (dev, l) → l !! i = Some d →
  ∃ r id dev' d', kfd_dbg_trap_set_dev_address_watch has_xcc unmap map reg dev d
      = Some (r, id, dev', d') ∧ watch_ok (dev', <[i := d']> l).
Proof.
  intros Hok Hi. pose proof Hok as [H4 Ho _ _].
  assert (Hlen : length (watch_points d) = 4%nat) by (eapply Forall_lookup_1 in H4; done).
  unfold kfd_dbg_trap_set_dev_address_watch.
  destruct (get_dev_watch_id_spec dev (alloc_watch_ids d)) as [(b & Hb & Hf & ->) | [_ ->]].
  2:{ change (nz (-ENOMEM)) with true. cbv iota. eexists _, _, _, _. split; [done|].
      by apply (watch_ok_same dev l i d). }
  change (nz 0) with false. cbv iota.
  assert (Hfd : Z.testbit (alloc_watch_ids d) b = false).
  { apply not_true_iff_false. intros Hd. assert (Z.testbit dev b = true) by (apply Ho; [lia|eauto]). congruence. }
  assert (Hclear : kfd_dbg_clear_dev_watch_id (set_bit b dev) (set_bit b (alloc_watch_ids d)) b
    = Some (dev, alloc_watch_ids d)).
  { rewrite clear_dev_watch_id_owned by (done || unfold set_bit; rewrite ?Z.setbit_eqb, ?Z.eqb_refl by lia; done).
    by rewrite !clear_set_bit by (done || lia). }
  rewrite Hclear. cbn [mbind option_bind].
  change (watch_points (d <| alloc_watch_ids := _ |>)) with (watch_points d). rewrite Hlen.
  rewrite (proj2 (Z.leb_gt _ b)) by lia. rewrite andb_false_r.
  destruct (nz unmap), has_xcc, (nz map); eexists _, _, _, _; (split; [done|]);
    first [ by apply (watch_ok_same dev l i d); cbn; rewrite ?length_insert
          | by apply (watch_ok_set dev l i d _ b); cbn; rewrite ?length_insert ].
Qed.

Lemma clear_step dev l i d unmap map reg id :
  watch_ok (dev, l) → l !! i = Some d → 0 ≤ id < 2 ^ 31 →
  ∃ r dev' d', kfd_dbg_trap_clear_dev_address_watch unmap map reg dev d id
      = Some (r, dev', d') ∧ watch_ok (dev', <[i := d']> l).
Proof.
  intros Hok Hi Hid. pose proof Hok as [H4 Ho _ _].
  assert (Hlen : length (watch_points d) = 4%nat) by (eapply Forall_lookup_1 in H4; done).
  assert (Hsame : watch_ok (dev, <[i := d]> l)) by by apply (watch_ok_same dev l i d).
  unfold kfd_dbg_trap_clear_dev_address_watch, kfd_dbg_owns_dev_watch_id.
  rewrite s32_small by lia. destruct (Z.ltb_spec id MAX_WATCH_ADDRESSES); [|by eexists _, _, _].
  rewrite shift_bit_small by lia. cbn [mbind option_bind].
  destruct (Z.testbit (alloc_watch_ids d) id) eqn:Hown; cbn [negb]; [|by eexists _, _, _].
  destruct (nz unmap); [by eexists _, _, _|]. rewrite Hlen, (proj2 (Z.leb_gt _ id)) by lia.
  rewrite clear_dev_watch_id_owned by (done || lia). cbn [mbind option_bind]. eexists _, _, _. split; [done|].
  apply (watch_ok_clear dev l i d _ id); try done; [|lia]. cbn. by rewrite length_insert.
Qed.

Lemma watch_run_ok l s :
  watch_ok s → Forall watch_request_ok l → ∃ s', watch_run s l = Some s' ∧ watch_ok s'.
Proof.
  revert s. induction l as [|r l IH]; intros [dev ds] Hs Hl; [by eexists|].
  apply Forall_cons in Hl as [Hr Hl]. unfold watch_run. cbn [foldl mbind option_bind].
  assert (∃ s1, watch_step (dev, ds) r = Some s1 ∧ watch_ok s1) as (s1 & -> & Hs1); [|by apply IH].
  destruct r as [i has_xcc unmap map reg|i id unmap map reg]; cbn; (destruct (ds !! i) as [d|] eqn:Hi; [|by eexists]).
  - destruct (set_step dev ds i d has_xcc unmap map reg Hs Hi) as (r & id & dev' & d' & -> & Hok). by eexists.
  - destruct (clear_step dev ds i d unmap map reg id Hs Hi Hr) as (r & dev' & d' & -> & Hok). by eexists.
Qed.

Lemma watch_ok_init ds :
  Forall (λ d, length (watch_points d) = 4%nat ∧ alloc_watch_ids d = 0) ds → watch_ok (0, ds).
Proof.
  intros Hds. split; cbn [fst snd].
  - eapply Forall_impl; [done|]. by intros d [? _].
  - intros b Hb. rewrite Z.bits_0. split; [done|]. intros (i & d & Hi & Hd).
    eapply Forall_lookup_1 in Hds as [_ Hz]; [|done]. by rewrite Hz, Z.bits_0 in Hd.
  - intros b i j d d' Hi _ Hd _. eapply Forall_lookup_1 in Hds as [_ Hz]; [|done]. by rewrite Hz, Z.bits_0 in Hd.
  - intros b. by rewrite Z.bits_0.
Qed.
End Watch.

(** ** The data of a memory violation *)

Lemma has_ec_raised status DEVICE code :
  nz (Z.land (KFD_EC_MASK code) DEVICE) = true → 1 ≤ code →
  has_ec (Z.lor status (Z.land (KFD_EC_MASK code) DEVICE)) code = true.
Proof.
  intros Hbit Hc. unfold has_ec. rewrite nz_true in *. intros H0. apply Hbit. apply Z.bits_inj'. intros i Hi.
  pose proof (f_equal (λ x, Z.testbit x i) H0) as Hb. cbv beta in Hb.
  rewrite !Z.land_spec, Z.lor_spec, Z.land_spec, Z.bits_0 in *.
  destruct (Z.testbit (KFD_EC_MASK code) i), (Z.testbit DEVICE i), (Z.testbit status i); done.
Qed.

Lemma raise_violation DEVICE PROCESS NEW VIOLATION p d ds src use_worker data :
  nz (Z.land (KFD_EC_MASK VIOLATION) DEVICE) = true → dbg_trap_enabled p = true →
  pdds p = d :: ds → vm_fault_exc_data d = None →
  ∃ r p1, kfd_dbg_ev_raise DEVICE PROCESS NEW VIOLATION (KFD_EC_MASK VIOLATION) p (pdd_dev d) src
      use_worker true (Some data) = Some (r, p1)
    ∧ pdds p1 = d <| pdd_exception_status ::= λ s, Z.lor s (Z.land (KFD_EC_MASK VIOLATION) DEVICE) |>
                  <| vm_fault_exc_data := Some data |> :: ds.
Proof.
  intros Hbit Ht Hp Hdata. assert (Hnz : nz (KFD_EC_MASK VIOLATION) = true)
    by (apply (nz_land_l DEVICE); by rewrite Z.land_comm).
  assert (Hr : raise_pdds DEVICE VIOLATION (pdds p) (pdd_dev d) (KFD_EC_MASK VIOLATION) true (Some data)
    = d <| pdd_exception_status ::= λ s, Z.lor s (Z.land (KFD_EC_MASK VIOLATION) DEVICE) |>
        <| vm_fault_exc_data := Some data |> :: ds).
  { rewrite Hp. cbn [raise_pdds]. rewrite Z.eqb_refl, Z.land_diag, Hnz. unfold save_exc_data.
    change (vm_fault_exc_data (d <| pdd_exception_status ::= _ |>)) with (vm_fault_exc_data d).
    by rewrite Hdata. }
  unfold kfd_dbg_ev_raise. rewrite Ht, Hbit. cbn [negb mbind option_bind].
  destruct (nz (Z.land (exception_enable_mask _) _)); eexists _, _; (split; [reflexivity|exact Hr]).
Qed.

(** ** Properties *)

(** C34. Reading events with a mask that clears every subscribed exception reports
    each queue, device and process that has one exactly once, in this order, each
    with its whole status; then there are none left and the next read is -EAGAIN. *)
Theorem debug_events_drained (mask : Z) (p : kfd_process) (Hlive : queues_live p)
    (Htrap : dbg_trap_enabled p = true) (Hmask : Z.ldiff (exception_enable_mask p) mask = 0)
    (n : nat) (Hn : (length (reports p) ≤ n)%nat) :
  ∃ p', query_all mask n p = Some (reports p, p') ∧ reports p' = []
    ∧ kfd_dbg_ev_query_debug_event p' mask = Some (-EAGAIN, (0, 0, 0), p').
Proof. by apply query_all_spec. Qed.

Lemma watch_max : 0 ≤ MAX_WATCH_ADDRESSES ≤ 4.
Proof. done. Qed.

(** Whatever the debugged processes of a device ask for and the queue manager answers,
    as long as the ids they clear are those of watch points ([watch_request_ok]; the
    ioctl does not see to it, [watch_id_not_checked]), no request goes wrong, a watch point is in use on the device exactly
    when one process owns it, and never two; a process gets the lowest free watch
    point, and -ENOMEM exactly when all are in use. *)
Theorem watch_points_exclusive (ds : list kfd_process_device)
    (Hds : Forall (λ d, length (watch_points d) = 4%nat ∧ alloc_watch_ids d = 0) ds)
    (l : list watch_request) (Hl : Forall watch_request_ok l) :
  ∃ s, watch_run (0, ds) l = Some s
    ∧ (∀ b, 0 ≤ b → Z.testbit s.1 b = true ↔
         ∃ i d, s.2 !! i = Some d ∧ Z.testbit (alloc_watch_ids d) b = true)
    ∧ (∀ b i j d d', s.2 !! i = Some d → s.2 !! j = Some d' →
         Z.testbit (alloc_watch_ids d) b = true → Z.testbit (alloc_watch_ids d') b = true → i = j)
    ∧ ∀ i d reg, s.2 !! i = Some d →
        (∃ b, 0 ≤ b < MAX_WATCH_ADDRESSES ∧ Z.testbit s.1 b = false
           ∧ (∀ c, 0 ≤ c < b → Z.testbit s.1 c = true)
           ∧ kfd_dbg_trap_set_dev_address_watch true 0 0 reg s.1 d
             = Some (0, b, set_bit b s.1,
                     d <| alloc_watch_ids ::= set_bit b |> <| watch_points ::= <[Z.to_nat b := reg]> |>))
        ∨ (∀ b, 0 ≤ b < MAX_WATCH_ADDRESSES → Z.testbit s.1 b = true)
           ∧ kfd_dbg_trap_set_dev_address_watch true 0 0 reg s.1 d
             = Some (-ENOMEM, -1, s.1, d).
Proof.
  pose proof watch_max as Hmax. destruct (watch_run_ok watch_max l _ (watch_ok_init _ Hds) Hl) as (s & Hrun & Hok).
  exists s. pose proof Hok as [H4 Ho H1 _]. split_and!; try done. intros i d reg Hi.
  assert (Hlen : length (watch_points d) = 4%nat) by (eapply Forall_lookup_1 in H4; done).
  unfold kfd_dbg_trap_set_dev_address_watch, kfd_dbg_get_dev_watch_id.
  destruct (scan _ _ _) as [b|] eqn:E.
  - apply scan_Some in E as (Hb & Hf & Hlow). left. exists b. apply negb_true_iff in Hf.
    split_and!; [lia|lia|done| |].
    + intros c Hc. apply negb_false_iff. by apply Hlow.
    + change (nz 0) with false. cbv iota.
      change (watch_points (d <| alloc_watch_ids := _ |>)) with (watch_points d).
      rewrite Hlen, (proj2 (Z.leb_gt _ b)) by lia. done.
  - right. split; [|by destruct d]. intros b Hb. apply negb_false_iff. apply (scan_None _ _ _ E b). lia.
Qed.

(** The id of a watch point to clear is not checked below 2^31: as an [int] it
    is negative, passes the comparison, and the word is shifted by it. *)
Theorem watch_id_not_checked (unmap map reg dev_ids : Z) (d : kfd_process_device) (watch_id : Z)
    (Hid : 2 ^ 31 ≤ watch_id < 2 ^ 32) :
  kfd_dbg_trap_clear_dev_address_watch unmap map reg dev_ids d watch_id = None.
Proof.
  pose proof watch_max. unfold kfd_dbg_trap_clear_dev_address_watch, kfd_dbg_owns_dev_watch_id, shift_bit.
  assert (s32 watch_id < 0).
  { unfold s32, wrap. rewrite <- (Z.mod_unique (watch_id + 2 ^ 31) (2 ^ 32) 1 (watch_id - 2 ^ 31)); lia. }
  rewrite (proj2 (Z.ltb_lt _ MAX_WATCH_ADDRESSES)), (proj2 (Z.leb_gt 0 _)) by lia. done.
Qed.

(** The data of a memory violation is saved without its size: a debugger that
    asks for it gets no byte of it, and clearing the exception drops it. *)
Theorem memory_violation_info_lost (QUEUE DEVICE PROCESS NEW VIOLATION RUNTIME : Z)
    (is_queue is_device is_process : Z → bool)
    (Hbit : nz (Z.land (KFD_EC_MASK VIOLATION) DEVICE) = true)
    (Hpos : 1 ≤ VIOLATION ≤ 64) (Hq : is_queue VIOLATION = false) (Hd : is_device VIOLATION = true)
    (p : kfd_process) (d : kfd_process_device) (ds : list kfd_process_device)
    (Htrap : dbg_trap_enabled p = true) (Hp : pdds p = d :: ds) (Hdata : vm_fault_exc_data d = None)
    (Hsize : vm_fault_exc_data_size d = 0) (Hstatus : 0 ≤ pdd_exception_status d)
    (src rsize info_size : Z) (use_worker : bool) (data : memory_exception) (Hinfo : 0 ≤ info_size) :
  ∃ r p1 p2, kfd_dbg_ev_raise DEVICE PROCESS NEW VIOLATION (KFD_EC_MASK VIOLATION) p (pdd_dev d) src
               use_worker true (Some data) = Some (r, p1)
    ∧ (∃ d1, pdds p1 = d1 :: ds ∧ vm_fault_exc_data d1 = Some data)
    ∧ kfd_dbg_trap_query_exception_info VIOLATION RUNTIME is_queue is_device is_process
        false rsize p1 (pdd_dev d) VIOLATION true info_size = Some (0, 0, 0, p2)
    ∧ ∃ d2, pdds p2 = d2 :: ds ∧ vm_fault_exc_data d2 = None.
Proof.
  destruct (raise_violation DEVICE PROCESS NEW VIOLATION p d ds src use_worker data Hbit Htrap Hp Hdata)
    as (r & p1 & Hr & Hp1).
  eexists r, p1, _. split; [done|]. split; [rewrite Hp1; by eexists|].
  unfold kfd_dbg_trap_query_exception_info. rewrite Hq, Hd, Hp1. cbn [list_find].
  rewrite decide_True by done. cbn -[KFD_EC_MASK has_ec Z.min u32].
  rewrite has_ec_raised by (done || lia). cbn -[KFD_EC_MASK Z.min u32]. rewrite Z.eqb_refl, Hsize.
  rewrite Z.min_r by done. split; [done|]. cbn. rewrite Hp1. by eexists.
Qed.

(** ** Witnesses *)

Definition sample_queue (id db status : Z) : Z * queue :=
  (7, mk_queue id (mk_props KFD_QUEUE_TYPE_COMPUTE id 4096 4096 100 0 false false false true false false
                     0 0 0 0 0 status) 0 0 0 db false 5).
Definition sample_pdd (dev status : Z) : kfd_process_device :=
  mk_pdd dev dev [] status None 0 [0; 0; 0; 0] 0.
(** Exceptions on a queue, on the second device and on the process; a queue of the
    kernel and a queue with an exception nobody asked for. *)
Definition sample_process : kfd_process :=
  mk_kfd_process 5 kfd_event_init_process
    (<[100 := sample_queue 0 8 0x6]> (<[200 := sample_queue 1 9 0x10]> ∅))
    [Some 100; None; Some 200] [sample_pdd 7 0; sample_pdd 9 0x8] true 0xe 0x5
    DEBUG_RUNTIME_STATE_ENABLED false false [].

Lemma sample_live : queues_live sample_process.
Proof.
  split.
  - intros a Ha. cbn in Ha. rewrite !elem_of_cons, elem_of_nil in Ha.
    destruct Ha as [[= ->] | [? | [[= ->] | []]]]; [by eexists|done|by eexists].
  - by apply (bool_decide_unpack _).
Defined.

Lemma debug_events_drained_witness :
  reports sample_process = [(0x6, 0, 7); (0x8, 0, 9); (0x5, 0, 0)]
  ∧ ∃ p', query_all 0xf 4 sample_process = Some (reports sample_process, p') ∧ reports p' = []
    ∧ kfd_dbg_ev_query_debug_event p' 0xf = Some (-EAGAIN, (0, 0, 0), p').
Proof.
  split; [reflexivity|].
  apply (debug_events_drained 0xf sample_process sample_live eq_refl eq_refl 4). apply le_S, le_n.
Defined.

Definition sample_watches : list watch_request :=
  [SetWatch 0 true 0 0 1; SetWatch 1 true 0 0 2; ClearWatch 0 1 0 0 0; ClearWatch 0 0 0 0 0].

Lemma watch_points_exclusive_witness :
  ∃ s, watch_run (0, [sample_pdd 7 0; sample_pdd 9 0]) sample_watches = Some s ∧ s.1 = 2.
Proof.
  destruct (watch_points_exclusive [sample_pdd 7 0; sample_pdd 9 0]
    ltac:(repeat constructor) sample_watches ltac:(repeat constructor; cbn; lia)) as (s & Hs & _).
  exists s. split; [exact Hs|]. vm_compute in Hs. injection Hs as <-. reflexivity.
Defined.

Lemma watch_id_not_checked_witness :
  kfd_dbg_trap_clear_dev_address_watch 0 0 0 1 ((sample_pdd 7 0) <| alloc_watch_ids := 1 |>) (2 ^ 31) = None.
Proof. apply watch_id_not_checked; lia. Defined.

Lemma memory_violation_info_lost_witness :
  ∃ r p1 p2, kfd_dbg_ev_raise 0x10 0x20 2 5 (KFD_EC_MASK 5) sample_process 7 0 false true
      (Some (mk_memory_exception 7 4096 true false false false 0)) = Some (r, p1)
    ∧ (∃ d1, pdds p1 = d1 :: [sample_pdd 9 0x8]
         ∧ vm_fault_exc_data d1 = Some (mk_memory_exception 7 4096 true false false false 0))
    ∧ kfd_dbg_trap_query_exception_info 5 6 (λ _, false) (λ _, true) (λ _, false)
        false 16 p1 7 5 true 64 = Some (0, 0, 0, p2)
    ∧ ∃ d2, pdds p2 = d2 :: [sample_pdd 9 0x8] ∧ vm_fault_exc_data d2 = None.
Proof.
  apply (memory_violation_info_lost 1 0x10 0x20 2 5 6 (λ _, false) (λ _, true) (λ _, false)
    eq_refl ltac:(lia) eq_refl eq_refl sample_process (sample_pdd 7 0) [sample_pdd 9 0x8]
    eq_refl eq_refl eq_refl eq_refl ltac:(cbn; lia) 0 16 64 false); lia.
Defined.
