(* ===== verification/Interrupt.v ===== *)
(** * Interrupts on their way to the work queue

    [kfd_interrupt.c] and [kgd2kfd_interrupt]: the interrupt handler copies the
    entries a node wants to the fifo of the node and queues [interrupt_work]; a
    worker takes them out in the loop of [interrupt_wq].  The handler and the
    workers interleave: a step is one interrupt or one turn of one worker.

    What to do with an entry is the interrupt class of the device, over a state
    [D] of the rest of the driver.  The fifo is the kernel's kfifo, counted in
    dwords as entries are whole dwords.  Using the work queue after it was
    destroyed is the outcome [None]. *)

From S2P Require Import Prelude.

(** ** The fifo *)

Definition KFD_IH_NUM_ENTRIES : Z := 8192.
Definition KFD_MAX_RING_ENTRY_SIZE : Z := 8.

(** [kfifo_in] copies what fits, [kfifo_out] what there is. *)
Definition kfifo_in (size : Z) (fifo data : list Z) : Z * list Z :=
  let n := Z.min (Z.of_nat (length data)) (size - Z.of_nat (length fifo)) in
  (n, fifo ++ take (Z.to_nat n) data).
Definition kfifo_out (fifo : list Z) (n : Z) : Z * list Z * list Z :=
  let n := Z.min n (Z.of_nat (length fifo)) in
  (n, take (Z.to_nat n) fifo, drop (Z.to_nat n) fifo).

(** ** Nodes *)

(** [work_pending] when [interrupt_work] is queued, [work_running] while a worker
    is in the loop of [interrupt_wq]. *)
Record kfd_node := mk_node {
  ih_fifo : list Z;
  fifo_size : Z;
  interrupts_active : bool;
  work_pending : bool;
  work_running : bool;
}.
#[export] Instance eta_node : Eta kfd_node := λ n,
  mk_node (ih_fifo n) (fifo_size n) (interrupts_active n) (work_pending n) (work_running n).

(** [struct kfd_event_interrupt_class].  [interrupt_isr] gets the buffer of the
    patched entry ([None] before it is patched) and gives it back; [interrupt_wq]
    changes the state, [None] when it follows a dangling pointer. *)
Record kfd_event_interrupt_class (D : Type) := mk_class {
  interrupt_isr : nat → D → list Z → option (list Z) → bool * option (list Z);
  class_interrupt_wq : nat → list Z → D → option D;
}.
Arguments interrupt_isr {D}.
Arguments class_interrupt_wq {D}.

Record kfd_dev (D : Type) := mk_kfd {
  init_complete : bool;
  ih_wq : bool;                     (* the work queue exists *)
  nodes : list (option kfd_node);
  sys : D;
}.
Arguments mk_kfd {D}.
Arguments init_complete {D}.
Arguments ih_wq {D}.
Arguments nodes {D}.
Arguments sys {D}.
#[export] Instance eta_kfd {D} : Eta (kfd_dev D) := λ k,
  mk_kfd (init_complete k) (ih_wq k) (nodes k) (sys k).

Section Interrupts.
Context {D : Type} (class : kfd_event_interrupt_class D).
(** [ih_ring_entry_size], in dwords. *)
Context (entry_size : Z).

(** [fifo_ok] and [wq_ok]: memory is found for the fifo and for the work queue. *)
Definition kfd_interrupt_init (fifo_ok wq_ok : bool) (k : kfd_dev D) : Z * kfd_dev D * option kfd_node :=
  if negb fifo_ok then (-ENOMEM, k, None)
  else if negb (ih_wq k) && negb wq_ok then (-ENOMEM, k, None)
  else (0, k <| ih_wq := true |>,
        Some (mk_node [] (2 ^ Z.log2_up (KFD_IH_NUM_ENTRIES * entry_size)) true false false)).

Definition kfd_interrupt_exit (n : kfd_node) : kfd_node :=
  n <| interrupts_active := false |> <| ih_fifo := [] |>.

Definition enqueue_ih_ring_entry (n : kfd_node) (ih_ring_entry : list Z) : bool * kfd_node :=
  let '(count, fifo) := kfifo_in (fifo_size n) (ih_fifo n) (take (Z.to_nat entry_size) ih_ring_entry) in
  (count =? entry_size, n <| ih_fifo := fifo |>).

Definition dequeue_ih_ring_entry (n : kfd_node) : option (list Z) * kfd_node :=
  let '(count, e, fifo) := kfifo_out (ih_fifo n) entry_size in
  (if count =? entry_size then Some e else None, n <| ih_fifo := fifo |>).

Definition interrupt_is_wanted (i : nat) (σ : D) (e : list Z) (patched : option (list Z))
    : bool * option (list Z) := interrupt_isr class i σ e patched.

(** [queue_work(ih_wq, interrupt_work)]. *)
Definition queue_work (wq : bool) (n : kfd_node) : option kfd_node :=
  if wq then Some (n <| work_pending := true |>) else None.

(** The [for] loop of [kgd2kfd_interrupt] from node [i] on: the nodes, and which
    entry was put in the fifo of which node.  [is_patched] and the patched entry
    are not reset from one node to the next. *)
Fixpoint interrupt_loop (wq : bool) (σ : D) (i : nat) (l : list (option kfd_node)) (e : list Z)
    (patched : option (list Z)) : option (list (option kfd_node) * option (nat * list Z)) :=
  match l with
  | [] => Some ([], None)
  | None :: l => Some (None :: l, None)
  | Some n :: l =>
      let '(wanted, patched') :=
        if interrupts_active n then interrupt_is_wanted i σ e patched else (false, patched) in
      let entry := default e patched' in
      let '(taken, n) := if wanted then enqueue_ih_ring_entry n entry else (false, n) in
      if taken then
        n ← queue_work wq n;
        Some (Some n :: l, Some (i, take (Z.to_nat entry_size) entry))
      else
        '(l, accepted) ← interrupt_loop wq σ (S i) l e patched';
        Some (Some n :: l, accepted)
  end.

Definition kgd2kfd_interrupt (k : kfd_dev D) (ih_ring_entry : list Z)
    : option (kfd_dev D * option (nat * list Z)) :=
  if negb (init_complete k) then Some (k, None)
  else if KFD_MAX_RING_ENTRY_SIZE <? entry_size then Some (k, None)
  else
    '(l, accepted) ← interrupt_loop (ih_wq k) (sys k) O (nodes k) ih_ring_entry None;
    Some (k <| nodes := l |>, accepted).

(** A turn of the worker of node [i]: it starts [interrupt_work] when it is
    queued, or does one iteration of the loop of [interrupt_wq], which ends it
    when the fifo is empty or when its second is over ([expired]).  With the
    state, the entry that was handled. *)
Definition interrupt_wq (k : kfd_dev D) (i : nat) (expired : bool)
    : option (kfd_dev D * option (nat * list Z)) :=
  match nodes k !! i with
  | Some (Some n) =>
      let put (n : kfd_node) : kfd_dev D := k <| nodes := <[i := Some n]> (nodes k) |> in
      if work_running n then
        match dequeue_ih_ring_entry n with
        | (None, n) => Some (put (n <| work_running := false |>), None)
        | (Some e, n) =>
            σ ← class_interrupt_wq class i e (sys k);
            n ← (if expired then queue_work (ih_wq k) (n <| work_running := false |>) else Some n);
            Some ((put n) <| sys := σ |>, Some (i, e))
        end
      else if work_pending n then
        Some (put (n <| work_pending := false |>
                     <| work_running := entry_size <=? KFD_MAX_RING_ENTRY_SIZE |>), None)
      else Some (k, None)
  | _ => Some (k, None)
  end.

(** Start of [kfd_cleanup_nodes]: [flush_workqueue] waits until no worker has
    anything to do ([None] while one has), then the queue is destroyed. *)
Definition node_idle (o : option kfd_node) : bool :=
  match o with Some n => negb (work_pending n || work_running n) | None => true end.
Definition cleanup_flush (k : kfd_dev D) : option (kfd_dev D) :=
  if forallb node_idle (nodes k) then Some (k <| ih_wq := false |>) else None.

(** Its loop for one node: the fifo is freed, then the node. *)
Definition cleanup_node (k : kfd_dev D) (i : nat) : kfd_dev D :=
  k <| nodes ::= alter (λ _, None) i |>.

(** ** Histories *)

Inductive irq_label :=
  | Interrupt (e : list Z)
  | Work (i : nat) (expired : bool).

Definition irq_step (k : kfd_dev D) (a : irq_label)
    : option (kfd_dev D * option (nat * list Z) * option (nat * list Z)) :=
  match a with
  | Interrupt e => '(k, acc) ← kgd2kfd_interrupt k e; Some (k, acc, None)
  | Work i expired => '(k, handled) ← interrupt_wq k i expired; Some (k, None, handled)
  end.

(** The entry of a step, if any, and the entries of a node. *)
Definition log_of (o : option (nat * list Z)) : list (nat * list Z) :=
  match o with Some x => [x] | None => [] end.
Definition of_node (i : nat) (l : list (nat * list Z)) : list (list Z) :=
  omap (λ '(j, e), if decide (i = j) then Some e else None) l.

(** The state after a history, and the entries accepted and handled, with their nodes. *)
Fixpoint irq_run (k : kfd_dev D) (l : list irq_label)
    : option (kfd_dev D * list (nat * list Z) * list (nat * list Z)) :=
  match l with
  | [] => Some (k, [], [])
  | a :: l =>
      '(k, acc, handled) ← irq_step k a;
      '(k, accs, all_handled) ← irq_run k l;
      Some (k, log_of acc ++ accs, log_of handled ++ all_handled)
  end.

(** The entries of the first [t] steps of an infinite history. *)
Definition upto (f : nat → option (nat * list Z)) (t : nat) : list (nat * list Z) :=
  concat ((λ u, log_of (f u)) <$> seq 0 t).

(** A device with [m] nodes after kfd_interrupt_init for each. *)
Definition kfd_started (m : nat) (σ : D) : kfd_dev D :=
  mk_kfd true true (replicate m (kfd_interrupt_init true true (mk_kfd false false [] σ)).2) σ.

(** An entry read from the interrupt ring is complete. *)
Definition label_ok (a : irq_label) : Prop :=
  match a with Interrupt e => entry_size ≤ Z.of_nat (length e) | Work _ _ => True end.

End Interrupts.
