(* ===== verification/InterruptProof.v ===== *)
(** * The interrupt path keeps every accepted entry

    The fifo of a node holds whole entries, in order; whenever it is not empty
    the worker is queued or running; and a worker that is scheduled again and
    again handles every entry the interrupt handler accepted. *)

From S2P Require Import Prelude Interrupt.

(** What the interrupt path needs of the class of a device: a patched entry is as
    long as the entry.  [v9_class_ok] in [IntSystem] discharges it. *)
Class InterruptClass {D} (class : kfd_event_interrupt_class D) : Prop := {
  isr_patched : ∀ i σ e patched,
    (interrupt_isr class i σ e patched).2 = patched
    ∨ ∃ p, (interrupt_isr class i σ e patched).2 = Some p ∧ length p = length e;
}.

Section Fifo.
Context {D : Type} (class : kfd_event_interrupt_class D) `{!InterruptClass class}.
Context (entry_size : Z) (Hsize : entry_size = 4 ∨ entry_size = 8).

(** The fifo of [n] is the entries [q]; a worker is on its way when there are any. *)
Record node_ok (n : kfd_node) (q : list (list Z)) : Prop := {
  node_fifo : ih_fifo n = concat q;
  node_entries : Forall (λ e, Z.of_nat (length e) = entry_size) q;
  node_count : Z.of_nat (length q) ≤ KFD_IH_NUM_ENTRIES;
  node_size : fifo_size n = KFD_IH_NUM_ENTRIES * entry_size;
  node_work : q ≠ [] → work_pending n = true ∨ work_running n = true;
}.

(** Every node is there, with the entries [q i] in its fifo. *)
Record kfd_inv (k : kfd_dev D) (q : nat → list (list Z)) : Prop := {
  inv_init : init_complete k = true;
  inv_wq : ih_wq k = true;
  inv_nodes : ∀ i o, nodes k !! i = Some o → ∃ n, o = Some n ∧ node_ok n (q i);
}.

Lemma length_concat_entries (q : list (list Z)) :
  Forall (λ e, Z.of_nat (length e) = entry_size) q →
  Z.of_nat (length (concat q)) = entry_size * Z.of_nat (length q).
Proof. induction 1 as [|e q He _ IH]; [simpl; lia|]. cbn [concat length]. rewrite length_app. nia. Qed.

Lemma kfd_interrupt_init_ok (k k' : kfd_dev D) n :
  kfd_interrupt_init entry_size true true k = (0, k', Some n) → node_ok n [] ∧ interrupts_active n = true.
Proof.
  unfold kfd_interrupt_init. cbn [negb]. rewrite andb_false_r.
  intros [= <- <-]. split; [|done]. split; try done. simpl. destruct Hsize as [-> | ->]; reflexivity.
Qed.

Lemma enqueue_ok n q e :
  node_ok n q → entry_size ≤ Z.of_nat (length e) →
  enqueue_ih_ring_entry entry_size n e =
  if Z.of_nat (length q) <? KFD_IH_NUM_ENTRIES
  then (true, n <| ih_fifo := concat (q ++ [take (Z.to_nat entry_size) e]) |>) else (false, n).
Proof.
  intros [Hf He Hc Hs Hw] Hlen. unfold enqueue_ih_ring_entry, kfifo_in.
  rewrite Hs, Hf, length_concat_entries, length_take, concat_app by done. cbn [concat].
  rewrite app_nil_r. destruct (Z.ltb_spec (Z.of_nat (length q)) KFD_IH_NUM_ENTRIES).
  - rewrite Z.min_l by nia. rewrite (proj2 (Z.eqb_eq _ _)) by lia. rewrite take_take.
    replace (_ `min` _)%nat with (Z.to_nat entry_size) by lia. done.
  - replace (KFD_IH_NUM_ENTRIES * entry_size - _) with 0 by nia. rewrite Z.min_r by lia.
    rewrite (proj2 (Z.eqb_neq _ _)) by lia. cbn [Z.to_nat take]. rewrite app_nil_r, <- Hf.
    by destruct n.
Qed.

Lemma dequeue_ok n q :
  node_ok n q →
  dequeue_ih_ring_entry entry_size n =
  match q with [] => (None, n) | e :: q => (Some e, n <| ih_fifo := concat q |>) end.
Proof.
  intros [Hf He Hc Hs Hw]. unfold dequeue_ih_ring_entry, kfifo_out. rewrite Hf.
  rewrite length_concat_entries by done. destruct q as [|e q].
  - cbn [length]. rewrite Z.min_r by lia. rewrite (proj2 (Z.eqb_neq _ _)) by lia. f_equal.
    destruct n; cbn in *; subst; rewrite drop_nil; done.
  - apply Forall_cons in He as [He _]. rewrite Z.min_l by (cbn [length]; nia).
    rewrite Z.eqb_refl. cbn [concat]. rewrite take_app_length', drop_app_length' by lia. done.
Qed.

(** Where [kgd2kfd_interrupt] puts an entry. *)
Definition put_node (k : kfd_dev D) (i : nat) (n : kfd_node) : kfd_dev D :=
  k <| nodes := <[i := Some n]> (nodes k) |>.

(** Why an active node does not take an entry. *)
Definition refused (σ : D) (i : nat) (e : list Z) (q : list (list Z)) : Prop :=
  (∃ p, (interrupt_isr class i σ e p).1 = false) ∨ Z.of_nat (length q) = KFD_IH_NUM_ENTRIES.

(** The outcome of the loop over the nodes [l], the first of which is node [i]:
    every active node refuses, or one takes the entry, patched if its handler did so. *)
Definition loop_outcome (σ : D) (i : nat) (l : list (option kfd_node)) (q : nat → list (list Z))
    (e : list Z) (r : option (list (option kfd_node) * option (nat * list Z))) : Prop :=
  (r = Some (l, None)
     ∧ ∀ j n, l !! j = Some (Some n) → interrupts_active n = true → refused σ (i + j) e (q (i + j)%nat))
  ∨ ∃ j n p e', l !! j = Some (Some n) ∧ interrupts_active n = true
     ∧ (interrupt_isr class (i + j) σ e p).1 = true
     ∧ e' = take (Z.to_nat entry_size) (default e (interrupt_isr class (i + j) σ e p).2)
     ∧ Z.of_nat (length e') = entry_size ∧ Z.of_nat (length (q (i + j)%nat)) < KFD_IH_NUM_ENTRIES
     ∧ r = Some
         (<[j := Some (n <| ih_fifo := concat (q (i + j)%nat ++ [e']) |> <| work_pending := true |>)]> l,
          Some ((i + j)%nat, e')).

Lemma loop_outcome_cons σ i n l q e r :
  (interrupts_active n = true → refused σ i e (q i)) → loop_outcome σ (S i) l q e r →
  loop_outcome σ i (Some n :: l) q e ('(l, accepted) ← r; Some (Some n :: l, accepted)).
Proof.
  intros Href [[-> Hwhy] | (j & m & p & e' & Hj & Ha & Hw & He & Hc & Hle & ->)].
  - left. split; [done|]. intros [|j] m Hj Ha; [rewrite Nat.add_0_r; by apply Href; simplify_eq/=|].
    replace (i + S j)%nat with (S i + j)%nat by lia. by apply (Hwhy j m).
  - right. exists (S j), m, p, e'. replace (i + S j)%nat with (S i + j)%nat by lia. by split_and!.
Qed.

Lemma interrupt_loop_spec σ l i (q : nat → list (list Z)) e patched :
  (∀ j o, l !! j = Some o → ∃ n, o = Some n ∧ node_ok n (q (i + j)%nat)) →
  entry_size ≤ Z.of_nat (length e) →
  (∀ p, patched = Some p → length p = length e) →
  loop_outcome σ i l q e (interrupt_loop class entry_size true σ i l e patched).
Proof.
  revert i patched. induction l as [|o l IH]; intros i patched Hl Hlen Hp; [left; by split|].
  destruct (Hl 0%nat o eq_refl) as (n & -> & Hn). rewrite Nat.add_0_r in Hn.
  assert (Hskip : ∀ patched', (∀ p, patched' = Some p → length p = length e) →
    loop_outcome σ (S i) l q e (interrupt_loop class entry_size true σ (S i) l e patched')).
  { intros patched' Hp'. apply IH; [|done|done]. intros j o Hj.
    destruct (Hl (S j) o Hj) as (m & -> & Hm). exists m. split; [done|].
    by replace (S i + j)%nat with (i + S j)%nat by lia. }
  cbn [interrupt_loop]. unfold interrupt_is_wanted.
  destruct (interrupts_active n) eqn:Hact;
    [|apply loop_outcome_cons; [by rewrite Hact|by apply Hskip]].
  pose proof (isr_patched i σ e patched) as Hi.
  destruct (interrupt_isr class i σ e patched) as [wanted patched'] eqn:Ew. cbn [snd] in Hi.
  assert (Hp' : ∀ p, patched' = Some p → length p = length e).
  { destruct Hi as [-> | (p & -> & ?)]; [done|]. by intros ? [= <-]. }
  destruct wanted; [|apply loop_outcome_cons; [|by apply Hskip];
    intros _; left; exists patched; by rewrite Ew].
  assert (Hd : entry_size ≤ Z.of_nat (length (default e patched'))).
  { destruct patched' as [p|]; [|done]. simpl. by rewrite (Hp' p). }
  rewrite (enqueue_ok n (q i)) by done. destruct (Z.ltb_spec (Z.of_nat (length (q i))) KFD_IH_NUM_ENTRIES).
  - right. exists 0%nat, n, patched, (take (Z.to_nat entry_size) (default e patched')).
    rewrite Nat.add_0_r, Ew. split_and!; try done. rewrite length_take. lia.
  - apply loop_outcome_cons; [|by apply Hskip]. intros _. right. destruct Hn. lia.
Qed.

(** ** Steps *)

Definition upd (i : nat) (v : list (list Z)) (q : nat → list (list Z)) (j : nat) : list (list Z) :=
  if decide (i = j) then v else q j.

Lemma inv_put k q i n v :
  kfd_inv k q → (i < length (nodes k))%nat → node_ok n v → kfd_inv (put_node k i n) (upd i v q).
Proof.
  intros [H1 H2 Hn] Hi Hok. split; [done|done|]. intros j o. unfold put_node, upd. cbn.
  destruct (decide (i = j)) as [->|].
  - rewrite list_lookup_insert_eq by done. intros [= <-]. by exists n.
  - rewrite list_lookup_insert_ne by done. apply Hn.
Qed.

Lemma inv_sys k q σ : kfd_inv k q → kfd_inv (k <| sys := σ |>) q.
Proof. intros [H1 H2 Hn]. by split. Qed.

(** An interrupt: nothing changes, or one node gets one more entry. *)
Lemma interrupt_step k q e :
  kfd_inv k q → entry_size ≤ Z.of_nat (length e) →
  (kgd2kfd_interrupt class entry_size k e = Some (k, None)
     ∧ ∀ i n, nodes k !! i = Some (Some n) → interrupts_active n = true → refused (sys k) i e (q i))
  ∨ ∃ i n p e', nodes k !! i = Some (Some n)
     ∧ (interrupt_isr class i (sys k) e p).1 = true
     ∧ e' = take (Z.to_nat entry_size) (default e (interrupt_isr class i (sys k) e p).2)
     ∧ kgd2kfd_interrupt class entry_size k e
       = Some (put_node k i (n <| ih_fifo := concat (q i ++ [e']) |> <| work_pending := true |>), Some (i, e'))
     ∧ node_ok (n <| ih_fifo := concat (q i ++ [e']) |> <| work_pending := true |>) (q i ++ [e']).
Proof.
  intros Hk He. pose proof Hk as [H1 H2 Hn]. unfold kgd2kfd_interrupt. rewrite H1, H2. cbn [negb].
  rewrite (proj2 (Z.ltb_ge _ _)) by (unfold KFD_MAX_RING_ENTRY_SIZE; lia).
  destruct (interrupt_loop_spec (sys k) (nodes k) 0 q e None) as [[-> Hw] | (i & n & p & e' & Hi & Ha & Hw & -> & Hl & Hc & ->)].
  - done.
  - done.
  - done.
  - left. split; [by destruct k|done].
  - cbn [Nat.add] in *. right. eexists i, n, p, _. destruct (Hn i _ Hi) as (n' & [= <-] & Hok). split_and!; try done.
    destruct Hok. split; try done; simpl; [|rewrite length_app; simpl; lia|auto].
    apply Forall_app. split; [done|]. by apply Forall_singleton.
Qed.

(** A turn of a worker: it handles the oldest entry, or changes its own state. *)
Lemma worker_step k q i expired k' h :
  kfd_inv k q → interrupt_wq class entry_size k i expired = Some (k', h) →
  (h = None ∧ kfd_inv k' q ∧
     (k' = k ∧ (∀ n, nodes k !! i = Some (Some n) → q i = []) ∨ ∃ n n', nodes k !! i = Some (Some n) ∧ k' = put_node k i n' ∧
        (q i ≠ [] → work_running n = false ∧ work_running n' = true)))
  ∨ ∃ n n' σ e es, nodes k !! i = Some (Some n) ∧ work_running n = true ∧ q i = e :: es ∧ h = Some (i, e)
     ∧ class_interrupt_wq class i e (sys k) = Some σ
     ∧ k' = (put_node k i n') <| sys := σ |> ∧ kfd_inv k' (upd i es q).
Proof.
  intros Hk. pose proof Hk as [H1 H2 Hn]. unfold interrupt_wq.
  destruct (nodes k !! i) as [[n|]|] eqn:Hi;
    [|intros [= <- <-]; left; (split; [done|]); (split; [done|]); left; split; [done|congruence]..].
  destruct (Hn i _ Hi) as (? & [= <-] & Hok). apply lookup_lt_Some in Hi as Hlt.
  assert (Hsame : ∀ n', node_ok n' (q i) → kfd_inv (put_node k i n') q).
  { intros n' Hn'. destruct (inv_put k q i n' (q i) Hk Hlt Hn') as [? ? H]. split; [done|done|].
    intros j o Hj. destruct (H j o Hj) as (m & -> & Hm). exists m. split; [done|].
    unfold upd in Hm. by destruct (decide (i = j)) as [->|]. }
  destruct (work_running n) eqn:Hr.
  - rewrite (dequeue_ok n (q i)) by done. destruct (q i) as [|e es] eqn:Hq.
    + intros [= <- <-]. left. split; [done|]. split; [apply Hsame; by destruct Hok|].
      right. by eexists _, _.
    + cbn. destruct (class_interrupt_wq class i e (sys k)) as [σ|] eqn:Hw; [|done]. cbn.
      rewrite H2. intros Hs. right.
      assert (∃ n', h = Some (i, e) ∧ k' = (put_node k i n') <| sys := σ |> ∧ node_ok n' es) as (n' & -> & -> & Hn').
      { destruct Hok as [Hf He Hc Hsz Hwk]. apply Forall_cons in He as [_ He]. cbn [length] in Hc.
        destruct expired; simplify_option_eq; eexists;
          (split_and!; [done|unfold put_node; cbn; by rewrite H2|]); split; simpl; auto; lia. }
      exists n, n', σ, e, es. split_and!; try done; [unfold put_node; cbn; by rewrite H2|].
      apply (inv_sys (put_node k i n') _ σ). by apply inv_put.
  - destruct (work_pending n) eqn:Hp; intros [= <- <-]; left; (split; [done|]);
      [|split; [done|]; left; split; [done|]; intros ? [= <-]; destruct Hok as [_ _ _ _ Hwk];
        destruct (q i); [done|]; destruct Hwk; congruence].
    rewrite (proj2 (Z.leb_le _ _)) by (unfold KFD_MAX_RING_ENTRY_SIZE; lia).
    split; [apply Hsame; destruct Hok; split; auto|]. right. by eexists n, _.
Qed.
(** ** Histories *)

Lemma of_node_app i l1 l2 : of_node i (l1 ++ l2) = of_node i l1 ++ of_node i l2.
Proof. apply omap_app. Qed.

Lemma of_node_one i j e : of_node i [(j, e)] = if decide (i = j) then [e] else [].
Proof. unfold of_node. simpl. by destruct (decide (i = j)). Qed.

Lemma started_inv m σ : kfd_inv (kfd_started entry_size m σ) (λ _, []).
Proof.
  split; [done|done|]. intros i o Hi. apply lookup_replicate in Hi as [-> _].
  eexists. split; [done|]. by eapply (kfd_interrupt_init_ok (mk_kfd false false [] σ)).
Qed.

Lemma irq_step_inv k q a k' acc h :
  kfd_inv k q → label_ok entry_size a → irq_step class entry_size k a = Some (k', acc, h) →
  length (nodes k') = length (nodes k) ∧
  ∃ q', kfd_inv k' q' ∧
    ∀ i, q i ++ of_node i (log_of acc) = of_node i (log_of h) ++ q' i.
Proof.
  intros Hk Ha. destruct a as [e|i expired]; cbn [irq_step label_ok] in *.
  - destruct (interrupt_step k q e Hk Ha) as [[-> _] | (i & n & p & e' & Hi & _ & _ & -> & Hok)].
    + intros [= <- <- <-]. split; [done|]. exists q. split; [done|]. intros i. by rewrite app_nil_r.
    + intros [= <- <- <-]. split; [apply length_insert|].
      exists (upd i (q i ++ [e']) q). split; [apply inv_put; try done; by eapply lookup_lt_Some|].
      intros j. cbn [log_of]. rewrite of_node_one. unfold upd.
      destruct (decide (j = i)), (decide (i = j)); simplify_eq/=; auto using app_nil_r.
  - destruct (interrupt_wq class entry_size k i expired) as [[k1 h1]|] eqn:Hw; [|done].
    intros [= <- <- <-]. destruct (worker_step k q i expired k1 h1 Hk Hw)
      as [(-> & Hk' & Hsame) | (n & n' & σ & e & es & Hi & _ & Hq & -> & _ & -> & Hk')].
    + split; [destruct Hsame as [[-> _] | (n & n' & _ & -> & _)]; [done|apply length_insert]|].
      exists q. split; [done|]. intros j. by rewrite app_nil_r.
    + split; [apply length_insert|]. exists (upd i es q). split; [done|]. intros j. cbn [log_of].
      rewrite of_node_one, app_nil_r. unfold upd.
      destruct (decide (j = i)), (decide (i = j)); simplify_eq/=; done.
Qed.

Lemma irq_run_inv l k q k' accs hs :
  kfd_inv k q → Forall (label_ok entry_size) l → irq_run class entry_size k l = Some (k', accs, hs) →
  length (nodes k') = length (nodes k) ∧
  ∃ q', kfd_inv k' q' ∧ ∀ i, q i ++ of_node i accs = of_node i hs ++ q' i.
Proof.
  revert k q accs hs. induction l as [|a l IH]; intros k q accs hs Hk Hl Hrun; cbn [irq_run] in Hrun.
  - simplify_eq. split; [done|]. exists q. split; [done|]. intros i. by rewrite app_nil_r.
  - apply Forall_cons in Hl as [Ha Hl].
    destruct (irq_step class entry_size k a) as [[[k1 acc] h]|] eqn:Hs; [|done].
    cbn [mbind option_bind] in Hrun.
    destruct (irq_run class entry_size k1 l) as [[[k2 accs'] hs']|] eqn:Hr; [|done].
    cbn [mbind option_bind] in Hrun. simplify_eq.
    destruct (irq_step_inv k q a k1 acc h Hk Ha Hs) as (L1 & q1 & Hk1 & E1).
    destruct (IH k1 q1 accs' hs' Hk1 Hl Hr) as (L2 & q2 & Hk2 & E2).
    split; [congruence|]. exists q2. split; [done|]. intros i.
    rewrite !of_node_app, (assoc_L (++)), E1, <- !(assoc_L (++)). by rewrite E2.
Qed.

(** ** Progress *)

(** [e] waits in the fifo of node [i] behind [n] entries; [d] is the number of
    turns of the worker that handle it, at most. *)
Definition waiting (k : kfd_dev D) (i : nat) (e : list Z) (d : nat) : Prop :=
  ∃ q pre post n, kfd_inv k q ∧ q i = pre ++ e :: post ∧ nodes k !! i = Some (Some n)
    ∧ d = (2 * length pre + if work_running n then 0 else 1)%nat.

Lemma waiting_step k i e d a k' acc h :
  waiting k i e d → label_ok entry_size a → irq_step class entry_size k a = Some (k', acc, h) →
  h = Some (i, e) ∨ ∃ d', waiting k' i e d' ∧ (d' ≤ d)%nat ∧ (∀ x, a = Work i x → (d' < d)%nat).
Proof.
  intros (q & pre & post & n & Hk & Hq & Hi & ->) Ha.
  destruct a as [e1|j expired]; cbn [irq_step label_ok] in *.
  - destruct (interrupt_step k q e1 Hk Ha) as [[-> _] | (j & m & p & e' & Hj & _ & _ & -> & Hok)];
      intros [= <- <- <-]; right.
    + eexists. split; [by exists q, pre, post, n|]. by split.
    + pose proof (inv_put k q j _ _ Hk (lookup_lt_Some _ _ _ Hj) Hok) as Hk'.
      exists (2 * length pre + if work_running n then 0 else 1)%nat.
      split; [|by split]. destruct (decide (j = i)) as [->|Hne].
      * rewrite Hi in Hj. simplify_eq. eexists _, pre, (post ++ [e']), _. split; [exact Hk'|].
        unfold upd, put_node. rewrite decide_True, Hq by done. cbn.
        rewrite list_lookup_insert_eq by by eapply lookup_lt_Some. split_and!; [|done|done].
        by rewrite <- (assoc_L (++)).
      * eexists _, pre, post, n. split; [exact Hk'|].
        unfold upd, put_node. rewrite decide_False by done. cbn.
        by rewrite list_lookup_insert_ne by done.
  - destruct (interrupt_wq class entry_size k j expired) as [[k1 h1]|] eqn:Hw; [|done].
    intros [= <- <- <-]. destruct (worker_step k q j expired k1 h1 Hk Hw)
      as [(-> & Hk' & Hsame) | (m & m' & σ & e1 & es & Hj & Hr & Hq1 & -> & _ & -> & Hk')].
    + right. destruct Hsame as [[-> Hempty] | (m & m' & Hj & -> & Hstart)].
      * eexists. split; [by exists q, pre, post, n|]. split; [done|]. intros x [= -> ->].
        rewrite (Hempty n Hi) in Hq. by destruct pre.
      * destruct (decide (j = i)) as [->|Hne].
        -- rewrite Hi in Hj. simplify_eq. destruct Hstart as [Hr Hr']; [by rewrite Hq; destruct pre|].
           rewrite Hr. exists (2 * length pre + 0)%nat. split; [|split; [lia|intros; lia]].
           exists q, pre, post, m'. split_and!; [done|done| |by rewrite Hr'].
           unfold put_node. cbn. apply list_lookup_insert_eq. by eapply lookup_lt_Some.
        -- eexists. split; [exists q, pre, post, n|split; [done|congruence]].
           split_and!; [done|done| |done]. unfold put_node. cbn. by rewrite list_lookup_insert_ne.
    + destruct (decide (j = i)) as [->|Hne].
      * rewrite Hi in Hj. simplify_eq. rewrite Hr. rewrite Hq1 in Hq.
        destruct pre as [|e0 pre]; simplify_eq/=; [by left|]. right.
        exists (2 * length pre + if work_running m' then 0 else 1)%nat.
        split; [|destruct (work_running m'); split; intros; lia].
        exists (upd i (pre ++ e :: post) q), pre, post, m'. split_and!; [done| | |done].
        -- unfold upd. by rewrite decide_True.
        -- unfold put_node. cbn. apply list_lookup_insert_eq. by eapply lookup_lt_Some.
      * right. eexists. split; [eexists _, pre, post, n|split; [done|congruence]].
        split_and!; [exact Hk'| | |done].
        -- unfold upd. by rewrite decide_False.
        -- unfold put_node. cbn. by rewrite list_lookup_insert_ne.
Qed.

(** Until the worker of node [i] has its turn, the entry waits or is handled. *)
Lemma waiting_until (st : nat → kfd_dev D) lab acc hs i e u t d :
  (∀ t, irq_step class entry_size (st t) (lab t) = Some (st (S t), acc t, hs t)) →
  (∀ t, label_ok entry_size (lab t)) →
  waiting (st t) i e d →
  (∃ v, (t ≤ v)%nat ∧ hs v = Some (i, e)) ∨ ∃ d', waiting (st (u + t)%nat) i e d' ∧ (d' ≤ d)%nat.
Proof.
  intros Hst Hlab. revert t d. induction u as [|u IH]; intros t d Hw; [by right; exists d|].
  destruct (waiting_step _ i e d _ _ _ _ Hw (Hlab t) (Hst t)) as [Hh | (d1 & Hw1 & Hd1 & _)];
    [left; by exists t|].
  destruct (IH (S t) d1 Hw1) as [(v & Hv & Hh) | (d2 & Hw2 & Hd2)]; [left; exists v; split; [lia|done]|].
  right. exists d2. replace (S u + t)%nat with (u + S t)%nat by lia. split; [done|lia].
Qed.

Lemma waiting_handled (st : nat → kfd_dev D) lab acc hs i e t d :
  (∀ t, irq_step class entry_size (st t) (lab t) = Some (st (S t), acc t, hs t)) →
  (∀ t, label_ok entry_size (lab t)) →
  (∀ t, ∃ u x, (t ≤ u)%nat ∧ lab u = Work i x) →
  waiting (st t) i e d → ∃ v, (t ≤ v)%nat ∧ hs v = Some (i, e).
Proof.
  intros Hst Hlab Hfair. revert t. induction d as [d IH] using lt_wf_ind. intros t Hw.
  destruct (Hfair t) as (u & x & Hu & Hx).
  destruct (waiting_until st lab acc hs i e (u - t) t d Hst Hlab Hw) as [? | (d1 & Hw1 & Hd1)]; [done|].
  replace (u - t + t)%nat with u in Hw1 by lia.
  destruct (waiting_step _ i e d1 _ _ _ _ Hw1 (Hlab u) (Hst u)) as [Hh | (d2 & Hw2 & _ & Hd2)];
    [by exists u|].
  specialize (Hd2 x Hx). destruct (IH d2 ltac:(lia) (S u) Hw2) as (v & Hv & Hh). exists v. split; [lia|done].
Qed.

Lemma upto_S f t : upto f (S t) = upto f t ++ log_of (f t).
Proof. unfold upto. rewrite seq_S, fmap_app, concat_app. cbn. by rewrite app_nil_r. Qed.

Lemma upto_prefix i f t v : (t ≤ v)%nat → of_node i (upto f t) `prefix_of` of_node i (upto f v).
Proof.
  intros Hle. replace v with (v - t + t)%nat by lia. induction (v - t)%nat as [|d IH]; [done|].
  cbn [Nat.add]. rewrite upto_S, of_node_app. by apply prefix_app_r.
Qed.

(** The queue of every node of an infinite history, at any time. *)
Lemma upto_inv (st : nat → kfd_dev D) lab acc hs t :
  kfd_inv (st 0%nat) (λ _, []) →
  (∀ t, irq_step class entry_size (st t) (lab t) = Some (st (S t), acc t, hs t)) →
  (∀ t, label_ok entry_size (lab t)) →
  length (nodes (st t)) = length (nodes (st 0%nat)) ∧
  ∃ q, kfd_inv (st t) q ∧ ∀ i, of_node i (upto acc t) = of_node i (upto hs t) ++ q i.
Proof.
  intros H0 Hst Hlab. induction t as [|t (Hlen & q & Hk & Hq)]; [split; [done|]; by exists (λ _, [])|].
  destruct (irq_step_inv _ q _ _ _ _ Hk (Hlab t) (Hst t)) as (Hlen' & q' & Hk' & Hq').
  split; [congruence|]. exists q'. split; [done|]. intros i.
  rewrite !upto_S, !of_node_app, Hq, <- !(assoc_L (++)). by rewrite Hq'.
Qed.

(** Any number of the accepted entries is handled in time. *)
Lemma enough_handled (st : nat → kfd_dev D) lab acc hs i t N :
  kfd_inv (st 0%nat) (λ _, []) → (i < length (nodes (st 0%nat)))%nat →
  (∀ t, irq_step class entry_size (st t) (lab t) = Some (st (S t), acc t, hs t)) →
  (∀ t, label_ok entry_size (lab t)) →
  (∀ t, ∃ u x, (t ≤ u)%nat ∧ lab u = Work i x) →
  (N ≤ length (of_node i (upto acc t)))%nat →
  ∃ v, (t ≤ v)%nat ∧ (N ≤ length (of_node i (upto hs v)))%nat.
Proof.
  intros H0 Hi Hst Hlab Hfair. remember (N - length (of_node i (upto hs t)))%nat as d eqn:Hd.
  revert t Hd. induction d as [d IH] using lt_wf_ind. intros t Hd HN.
  destruct d as [|d]; [exists t; split; [done|lia]|].
  destruct (upto_inv st lab acc hs t H0 Hst Hlab) as (Hlen & q & Hk & Hq).
  specialize (Hq i). pose proof (f_equal length Hq) as Hl. rewrite length_app in Hl.
  destruct (q i) as [|e es] eqn:Eq; [simpl in Hl; lia|].
  destruct (lookup_lt_is_Some_2 (nodes (st t)) i) as [o Ho]; [by rewrite Hlen|].
  destruct (inv_nodes _ _ Hk i o Ho) as (n & -> & _).
  destruct (waiting_handled st lab acc hs i e t _ Hst Hlab Hfair
              ltac:(exists q, [], es, n; by split_and!)) as (v & Hv & Hh).
  pose proof (prefix_length _ _ (upto_prefix i hs t v Hv)) as Hmono.
  pose proof (prefix_length _ _ (upto_prefix i acc t (S v) ltac:(lia))) as Hmono'.
  assert (length (of_node i (upto hs (S v))) = S (length (of_node i (upto hs v)))) as HS.
  { rewrite upto_S, of_node_app, length_app, Hh. cbn [log_of].
    rewrite of_node_one, decide_True by done. simpl. lia. }
  destruct (IH (N - length (of_node i (upto hs (S v))))%nat ltac:(lia) (S v) eq_refl ltac:(lia)) as (w & Hw & HN').
  exists w. split; [lia|done].
Qed.

End Fifo.
