(* ===== verification/IntV9.v ===== *)
(** * Interrupts of GFX9 devices

    [kfd_int_process_v9.c]: which entries of the interrupt ring a node wants, and
    what the worker does with them, for the processes of the device; and the drain
    of a process' interrupts ([kfd_process_drain_interrupts] with the functions of
    amdgpu_ih.c and amdgpu_amdkfd.c it calls).

    The client ids of soc15_ih_clientid.h are not in the repository: [client_of]
    tells which client an id is.  Eviction and page retirement are the queue
    manager's and the RAS code's; they answer here. *)

From S2P Require Import Prelude DqmState Events Debug Interrupt InterruptProof.

(** ** Entries *)

Definition SOC15_INTSRC_CP_END_OF_PIPE : Z := 181.
Definition SOC15_INTSRC_CP_BAD_OPCODE : Z := 183.
Definition SOC15_INTSRC_SQ_INTERRUPT_MSG : Z := 239.
Definition SOC15_INTSRC_SDMA_TRAP : Z := 224.
Definition SOC15_INTSRC_SDMA_ECC : Z := 220.

Definition dword (e : list Z) (i : nat) : Z := default 0 (e !! i).
(** [x >> shift & mask] *)
Definition bits (x shift mask : Z) : Z := Z.land (Z.shiftr x shift) mask.

Definition SOC15_CLIENT_ID_FROM_IH_ENTRY (e : list Z) : Z := Z.land (dword e 0) 0xff.
Definition SOC15_SOURCE_ID_FROM_IH_ENTRY (e : list Z) : Z := bits (dword e 0) 8 0xff.
Definition SOC15_RING_ID_FROM_IH_ENTRY (e : list Z) : Z := bits (dword e 0) 16 0xff.
Definition SOC15_VMID_FROM_IH_ENTRY (e : list Z) : Z := bits (dword e 0) 24 0xf.
Definition SOC15_PASID_FROM_IH_ENTRY (e : list Z) : Z := Z.land (dword e 3) 0xffff.
Definition SOC15_NODEID_FROM_IH_ENTRY (e : list Z) : Z := bits (dword e 3) 16 0xff.
Definition SOC15_CONTEXT_ID0_FROM_IH_ENTRY (e : list Z) : Z := dword e 4.
Definition SOC15_CONTEXT_ID1_FROM_IH_ENTRY (e : list Z) : Z := dword e 5.

Definition KFD_IRQ_FENCE_CLIENTID : Z := 0xff.
Definition KFD_IRQ_FENCE_SOURCEID : Z := 0xff.
Definition KFD_IRQ_IS_FENCE (client source : Z) : bool :=
  (client =? KFD_IRQ_FENCE_CLIENTID) && (source =? KFD_IRQ_FENCE_SOURCEID).

(** The 24 bits of data of an SQ interrupt, and their parts for the debugger. *)
Definition KFD_CONTEXT_ID_GET_SQ_INT_DATA (ctx0 ctx1 : Z) : Z :=
  Z.lor (Z.lor (Z.land ctx0 0xfff) (Z.land (Z.shiftr ctx0 16) 0xf000))
        (Z.land (u32 (Z.shiftl ctx1 16)) 0xff0000).
Definition SQ_INTERRUPT_WORD_WAVE_CTXID__PRIV_MASK : Z := 0x2000.
Definition sq_encoding (ctx0 : Z) : Z := bits ctx0 26 3.
Definition KFD_SQ_INT_DATA__ERR_TYPE (sq_int_data : Z) : Z := bits sq_int_data 20 0xf.
Definition KFD_DEBUG_DOORBELL_ID (sq_int_data : Z) : Z := Z.land sq_int_data 0x3ff.
Definition KFD_DEBUG_TRAP_CODE (sq_int_data : Z) : Z := Z.shiftr (Z.land sq_int_data 0x07fc00) 10.
Definition KFD_DEBUG_CP_BAD_OP_ECODE (ctxid0 : Z) : Z := Z.shiftr (Z.land ctxid0 0x3fffc00) 10.

Definition SQ_INTERRUPT_WORD_ENCODING_AUTO : Z := 0.
Definition SQ_INTERRUPT_WORD_ENCODING_INST : Z := 1.
Definition SQ_INTERRUPT_WORD_ENCODING_ERROR : Z := 2.
Definition SQ_INTERRUPT_ERROR_TYPE_ILLEGAL_INST : Z := 1.
Definition SQ_INTERRUPT_ERROR_TYPE_MEMVIOL : Z := 2.

(** ** The device and its processes *)

Inductive ih_client :=
  | GRBM_CP | SDMA (i : Z) | VMC | VMC1 | UTCL2 | SE_SH (i : Z) | OtherClient.
#[export] Instance ih_client_eq_dec : EqDecision ih_client.
Proof. solve_decision. Defined.

(** [procs] are the processes by PASID; [retired] the calls of
    [amdgpu_amdkfd_ras_poison_consumption_handler], latest first. *)
Record irq_sys := mk_irq_sys {
  procs : gmap Z kfd_process;
  dqm_vmid_pasid : list Z;
  retired : list bool;
}.
#[export] Instance eta_irq_sys : Eta irq_sys := λ σ,
  mk_irq_sys (procs σ) (dqm_vmid_pasid σ) (retired σ).

(** Constants of the device and, by index, of its nodes; and answers of others. *)
Record irq_env := mk_irq_env {
  client_of : Z → ih_client;
  gc_version : Z;
  mec_fw_version : Z;
  sched_no_hws : bool;
  no_queue_eviction_on_vm_fault : bool;
  vm_first_kfd : nat → Z;
  vm_last_kfd : nat → Z;
  node_gpu_id : nat → Z;
  node_interrupt_bitmap : nat → Z;
  node_vmid_bitmap : nat → Z;
  utcl2_poison : bool;             (* amdgpu_amdkfd_ras_query_utcl2_poison_status *)
  evict_answer : Z;                (* kfd_dqm_evict_pasid *)
  exc_data_alloc : bool;           (* kmemdup of the data of a fault *)
  has_mm : bool;
  err_event_id : Z → Z;
}.

Section V9.
Context (env : irq_env).
Context (KFD_SIGNAL_EVENT_LIMIT KFD_HW_EXCEPTION_ECC KFD_MEM_ERR_POISON_CONSUMED : Z).
Context (KFD_EC_MASK_QUEUE KFD_EC_MASK_DEVICE KFD_EC_MASK_PROCESS : Z).
Context (EC_QUEUE_NEW EC_DEVICE_MEMORY_VIOLATION : Z) (ec_is_packet : Z → bool).

Definition context_id_expected : bool :=
  let v := gc_version env in
  if v =? IP_VERSION 9 0 1 then 0x817a <=? mec_fw_version env
  else if (v =? IP_VERSION 9 1 0) || (v =? IP_VERSION 9 2 1) || (v =? IP_VERSION 9 2 2)
          || (v =? IP_VERSION 9 3 0) || (v =? IP_VERSION 9 4 0) then 0x17a <=? mec_fw_version env
  else IP_VERSION 9 4 1 <=? v.

Definition client_cared_for (c : ih_client) : bool :=
  match c with
  | GRBM_CP | VMC | VMC1 | UTCL2 => true
  | SDMA i => (0 <=? i) && (i <=? 7)
  | SE_SH i => (0 <=? i) && (i <=? 3)
  | OtherClient => false
  end.

(** Without HWS the entry may have no PASID; it is patched with the PASID of the VMID. *)
Definition patch_pasid (σ : irq_sys) (e : list Z) (patched : option (list Z)) : Z * option (list Z) :=
  if (SOC15_PASID_FROM_IH_ENTRY e =? 0) && sched_no_hws env then
    let pasid := default 0 (dqm_vmid_pasid σ !! Z.to_nat (SOC15_VMID_FROM_IH_ENTRY e)) in
    (pasid, Some (<[3%nat := Z.lor (Z.ldiff (dword e 3) 0xffff) pasid]> e))
  else (SOC15_PASID_FROM_IH_ENTRY e, patched).

Definition event_interrupt_isr_v9 (i : nat) (σ : irq_sys) (e : list Z) (patched : option (list Z))
    : bool * option (list Z) :=
  let source_id := SOC15_SOURCE_ID_FROM_IH_ENTRY e in
  let client_id := SOC15_CLIENT_ID_FROM_IH_ENTRY e in
  let client := client_of env client_id in
  let vmid := SOC15_VMID_FROM_IH_ENTRY e in
  let fence := KFD_IRQ_IS_FENCE client_id source_id in
  if negb fence && ((vmid <? vm_first_kfd env i) || (vm_last_kfd env i <? vmid)) then (false, patched)
  else if negb (client_cared_for client) && negb fence then (false, patched)
  else
    let '(pasid, patched) := patch_pasid σ e patched in
    if pasid =? 0 then (false, patched)
    else if (source_id =? SOC15_INTSRC_CP_END_OF_PIPE)
            && (SOC15_CONTEXT_ID0_FROM_IH_ENTRY e =? 0) && context_id_expected then (false, patched)
    else
      ((source_id =? SOC15_INTSRC_CP_END_OF_PIPE) || (source_id =? SOC15_INTSRC_SDMA_TRAP)
       || (source_id =? SOC15_INTSRC_SDMA_ECC) || (source_id =? SOC15_INTSRC_SQ_INTERRUPT_MSG)
       || (source_id =? SOC15_INTSRC_CP_BAD_OPCODE) || fence
       || (bool_decide (client = VMC) || bool_decide (client = VMC1) || bool_decide (client = UTCL2))
          && negb (no_queue_eviction_on_vm_fault env), patched).

(** C leaves [1 << n] undefined from [n = 32] on; here it is no bit of the bitmap. *)
Definition kfd_irq_is_from_node (i : nat) (node_id vmid : Z) : bool :=
  nz (Z.land (node_interrupt_bitmap env i) (Z.shiftl 1 node_id))
  && nz (Z.land (node_vmid_bitmap env i) (Z.shiftl 1 vmid)).

Definition event_interrupt_isr_v9_4_3 (i : nat) (σ : irq_sys) (e : list Z) (patched : option (list Z))
    : bool * option (list Z) :=
  if kfd_irq_is_from_node i (SOC15_NODEID_FROM_IH_ENTRY e) (SOC15_VMID_FROM_IH_ENTRY e)
  then event_interrupt_isr_v9 i σ e patched else (false, patched).

(** ** The worker *)

(** [f] on the process of a PASID, found by [kfd_lookup_process_by_pasid]. *)
Definition with_process (pasid : Z) (f : kfd_process → option kfd_process) (σ : irq_sys) : option irq_sys :=
  match procs σ !! pasid with
  | None => Some σ
  | Some p => p ← f p; Some (σ <| procs ::= <[pasid := p]> |>)
  end.

Definition on_events (f : Events.process → option Events.process) (p : kfd_process) : option kfd_process :=
  ev ← f (p_events p); Some (p <| p_events := ev |>).

Definition signal_event (pasid partial_id valid_id_bits : Z) : irq_sys → option irq_sys :=
  with_process pasid (on_events (λ ev,
    kfd_signal_event_interrupt KFD_SIGNAL_EVENT_LIMIT ev partial_id valid_id_bits)).

Definition is_gfx_client (c : ih_client) : bool :=
  match c with SE_SH i => (0 <=? i) && (i <=? 3) | UTCL2 => true | _ => false end.

Definition event_interrupt_poison_consumption_v9 (i : nat) (pasid : Z) (client : ih_client) (σ : irq_sys)
    : option irq_sys :=
  match procs σ !! pasid with
  | None => Some σ
  | Some p =>
      if poison p then Some σ
      else
        let p := p <| poison := true |> in
        let '(ret, p) :=
          if is_gfx_client client then (evict_answer env, act (EvictPasid (node_gpu_id env i)) p)
          else (-EINVAL, p) in
        p ← on_events (λ ev, kfd_signal_poison_consumed_event KFD_HW_EXCEPTION_ECC
              KFD_MEM_ERR_POISON_CONSUMED ev (kfd_process_get_user_gpu_id p (node_gpu_id env i))) p;
        Some (σ <| procs ::= <[pasid := p]> |> <| retired ::= cons (nz ret) |>)
  end.

(** [kfd_set_dbg_ev_from_interrupt], false when there is no process. *)
Definition set_dbg_ev (i : nat) (pasid doorbell trap_mask : Z) (data : option memory_exception)
    (σ : irq_sys) : option (bool * irq_sys) :=
  match procs σ !! pasid with
  | None => Some (false, σ)
  | Some p =>
      '(r, p) ← kfd_set_dbg_ev_from_interrupt KFD_EC_MASK_QUEUE KFD_EC_MASK_DEVICE KFD_EC_MASK_PROCESS
                  EC_QUEUE_NEW EC_DEVICE_MEMORY_VIOLATION (has_mm env) (err_event_id env)
                  p (node_gpu_id env i) doorbell trap_mask (exc_data_alloc env) data;
      Some (r, σ <| procs ::= <[pasid := p]> |>)
  end.

Definition kfd_process_close_interrupt_drain (pasid : Z) : irq_sys → option irq_sys :=
  with_process pasid (λ p, Some (p <| irq_drain_is_open := false |>)).

(** The data of a VM fault. *)
Definition fault_data (i : nat) (e : list Z) : memory_exception :=
  let page_addr := Z.lor (dword e 4) (Z.shiftl (Z.land (dword e 5) 0xf) 32) in
  let ring_id := SOC15_RING_ID_FROM_IH_ENTRY e in
  mk_memory_exception (node_gpu_id env i) (u64 (Z.shiftl page_addr 12))
    (nz (Z.land ring_id 0x08)) false (nz (Z.land ring_id 0x20)) false 0.

(** The branch of SQ interrupts. *)
Definition sq_interrupt (i : nat) (e : list Z) (pasid : Z) (client : ih_client) (σ : irq_sys)
    : option irq_sys :=
  let context_id0 := SOC15_CONTEXT_ID0_FROM_IH_ENTRY e in
  let sq_int_data := KFD_CONTEXT_ID_GET_SQ_INT_DATA context_id0 (SOC15_CONTEXT_ID1_FROM_IH_ENTRY e) in
  let encoding := sq_encoding context_id0 in
  if encoding =? SQ_INTERRUPT_WORD_ENCODING_INST then
    if nz (Z.land context_id0 SQ_INTERRUPT_WORD_WAVE_CTXID__PRIV_MASK) then
      '(r, σ) ← set_dbg_ev i pasid (KFD_DEBUG_DOORBELL_ID sq_int_data) (KFD_DEBUG_TRAP_CODE sq_int_data) None σ;
      if (r : bool) then Some σ else signal_event pasid sq_int_data 24 σ
    else signal_event pasid sq_int_data 24 σ
  else if encoding =? SQ_INTERRUPT_WORD_ENCODING_ERROR then
    let sq_intr_err := KFD_SQ_INT_DATA__ERR_TYPE sq_int_data in
    if negb (sq_intr_err =? SQ_INTERRUPT_ERROR_TYPE_ILLEGAL_INST)
       && negb (sq_intr_err =? SQ_INTERRUPT_ERROR_TYPE_MEMVIOL)
    then event_interrupt_poison_consumption_v9 i pasid client σ
    else signal_event pasid sq_int_data 24 σ
  else signal_event pasid sq_int_data 24 σ.

Definition event_interrupt_wq_v9 (i : nat) (e : list Z) (σ : irq_sys) : option irq_sys :=
  let source_id := SOC15_SOURCE_ID_FROM_IH_ENTRY e in
  let client_id := SOC15_CLIENT_ID_FROM_IH_ENTRY e in
  let client := client_of env client_id in
  let pasid := SOC15_PASID_FROM_IH_ENTRY e in
  let context_id0 := SOC15_CONTEXT_ID0_FROM_IH_ENTRY e in
  let gfx :=
    if source_id =? SOC15_INTSRC_CP_END_OF_PIPE then signal_event pasid context_id0 32 σ
    else if source_id =? SOC15_INTSRC_SQ_INTERRUPT_MSG then sq_interrupt i e pasid client σ
    else
      let ecode := KFD_DEBUG_CP_BAD_OP_ECODE context_id0 in
      if (source_id =? SOC15_INTSRC_CP_BAD_OPCODE) && ec_is_packet ecode then
        snd <$> set_dbg_ev i pasid (KFD_DEBUG_DOORBELL_ID context_id0) (KFD_EC_MASK ecode) None σ
      else Some σ in
  let fault :=
    if bool_decide (client = UTCL2) && utcl2_poison env
    then event_interrupt_poison_consumption_v9 i pasid client σ
    else snd <$> set_dbg_ev i pasid (u32 (-1)) (KFD_EC_MASK EC_DEVICE_MEMORY_VIOLATION)
                   (Some (fault_data i e)) σ in
  let other :=
    if KFD_IRQ_IS_FENCE client_id source_id then kfd_process_close_interrupt_drain pasid σ else Some σ in
  match client with
  | GRBM_CP => gfx
  | SE_SH n => if (0 <=? n) && (n <=? 3) then gfx else other
  | SDMA n =>
      if (0 <=? n) && (n <=? 7) then
        if source_id =? SOC15_INTSRC_SDMA_TRAP then signal_event pasid (Z.land context_id0 0xfffffff) 28 σ
        else if source_id =? SOC15_INTSRC_SDMA_ECC
        then event_interrupt_poison_consumption_v9 i pasid client σ
        else Some σ
      else other
  | VMC | VMC1 | UTCL2 => fault
  | OtherClient => other
  end.

Definition event_interrupt_class_v9 : kfd_event_interrupt_class irq_sys :=
  mk_class _ event_interrupt_isr_v9 event_interrupt_wq_v9.
Definition event_interrupt_class_v9_4_3 : kfd_event_interrupt_class irq_sys :=
  mk_class _ event_interrupt_isr_v9_4_3 event_interrupt_wq_v9.

(** ** Draining the interrupts of a process *)

(** [wait] is the answer of [wait_event_interruptible_timeout]: 0 when the time is
    over, the time left (at least 1) when the ring was processed up to the
    checkpoint, or [-ERESTARTSYS]. *)
Definition amdgpu_ih_wait_on_checkpoint_process_ts (ih_ready : bool) (wait : Z) : Z :=
  if negb ih_ready then -ENODEV else wait.

Context (class : kfd_event_interrupt_class irq_sys).

(** The fence goes where an entry of the interrupt ring goes. *)
Definition amdgpu_amdkfd_send_close_event_drain_irq (ih_ready : bool) (wait : Z)
    (k : kfd_dev irq_sys) (payload : list Z) : option (Z * kfd_dev irq_sys) :=
  let ret := amdgpu_ih_wait_on_checkpoint_process_ts ih_ready wait in
  if nz ret then Some (ret, k)
  else '(k, _) ← kgd2kfd_interrupt class KFD_MAX_RING_ENTRY_SIZE k payload; Some (0, k).

Definition irq_drain_fence (i : nat) (pasid : Z) : list Z :=
  let d3 := if gc_version env =? IP_VERSION 9 4 3
            then Z.lor pasid (Z.shiftl (u8 (ffs (node_interrupt_bitmap env i) - 1)) 16) else pasid in
  [Z.lor (Z.shiftl KFD_IRQ_FENCE_SOURCEID 8) KFD_IRQ_FENCE_CLIENTID; 0; 0; d3; 0; 0; 0; 0].

Definition set_drain (b : bool) (pasid : Z) (k : kfd_dev irq_sys) : kfd_dev irq_sys :=
  k <| sys ::= set_field procs (alter (set_field irq_drain_is_open (λ _, b)) pasid) |>.

(** Until the wait for the fence: the code when it returns without waiting. *)
Definition kfd_process_drain_interrupts (ih_ready : bool) (wait : Z) (i : nat) (pasid : Z)
    (k : kfd_dev irq_sys) : option (option Z * kfd_dev irq_sys) :=
  if gc_version env <? IP_VERSION 9 0 1 then Some (Some 0, k)
  else
    let k := set_drain true pasid k in
    '(r, k) ← amdgpu_amdkfd_send_close_event_drain_irq ih_ready wait k (irq_drain_fence i pasid);
    if nz r then Some (Some 0, set_drain false pasid k) else Some (None, k).

(** End of the wait: the drain was closed, or a signal interrupted it ([r]). *)
Definition drain_wait (r pasid : Z) (k : kfd_dev irq_sys) : Z * kfd_dev irq_sys :=
  (r, if nz r then set_drain false pasid k else k).

End V9.
