(* ===== verification/IntSystem.v ===== *)
(** * Interrupts: properties

    No accepted interrupt is lost or left behind, an event signalled by an
    interrupt is set, and what the drain of interrupts does not wait for. *)

From S2P Require Import Prelude DqmState Events EventsProof Debug Interrupt InterruptProof IntV9.

(** ** The GFX9 classes *)

Section Classes.
Context (env : irq_env) (LIMIT ECC POISON QUEUE DEVICE PROCESS NEW VIOLATION : Z) (ec_is_packet : Z → bool).

Lemma patch_pasid_length σ e patched :
  (patch_pasid env σ e patched).2 = patched
  ∨ ∃ p, (patch_pasid env σ e patched).2 = Some p ∧ length p = length e.
Proof.
  unfold patch_pasid. destruct (_ && sched_no_hws env); cbn [snd]; [right|by left].
  eexists. split; [done|apply length_insert].
Qed.

Lemma isr_v9_patched i σ e patched :
  (event_interrupt_isr_v9 env i σ e patched).2 = patched
  ∨ ∃ p, (event_interrupt_isr_v9 env i σ e patched).2 = Some p ∧ length p = length e.
Proof.
  pose proof (patch_pasid_length σ e patched) as H. unfold event_interrupt_isr_v9. cbv zeta.
  match goal with |- context [if ?b then _ else _] => destruct b end; [by left|].
  match goal with |- context [if ?b then _ else _] => destruct b end; [by left|].
  destruct (patch_pasid env σ e patched) as [pasid patched']. cbn [snd] in H.
  destruct (pasid =? 0); [done|].
  match goal with |- context [if ?b then _ else _] => destruct b end; exact H.
Qed.

#[export] Instance v9_class_ok :
  InterruptClass (event_interrupt_class_v9 env LIMIT ECC POISON QUEUE DEVICE PROCESS NEW VIOLATION ec_is_packet).
Proof. split. apply isr_v9_patched. Qed.

#[export] Instance v9_4_3_class_ok :
  InterruptClass (event_interrupt_class_v9_4_3 env LIMIT ECC POISON QUEUE DEVICE PROCESS NEW VIOLATION ec_is_packet).
Proof.
  split. intros i σ e patched. cbn. unfold event_interrupt_isr_v9_4_3.
  destruct (kfd_irq_is_from_node _ _ _ _); [apply isr_v9_patched|by left].
Qed.
End Classes.

(** ** Bits of entries *)

(** The context words of a message of a wave, in the layout the code documents:
    bits 0-11, 12-15 and 16-23 of the data in bits 0-11 and 28-31 of the first word
    and 0-7 of the second, the encoding in bits 26-27, coordinates of the wave
    ([sh] in bit 12, [wave] in bits 14-25), and bit 13 clear. *)
Definition wave_context_id0 (data sh wave : Z) : Z :=
  data `mod` 2 ^ 12 + sh * 2 ^ 12 + wave * 2 ^ 14 + SQ_INTERRUPT_WORD_ENCODING_INST * 2 ^ 26
  + (data / 2 ^ 12) `mod` 2 ^ 4 * 2 ^ 28.
Definition wave_context_id1 (data : Z) : Z := data / 2 ^ 16.

Ltac pow_values :=
  repeat match goal with
  | |- context [2 ^ ?n] => let v := eval vm_compute in (2 ^ n) in change (2 ^ n) with v
  | H : context [2 ^ ?n] |- _ => let v := eval vm_compute in (2 ^ n) in change (2 ^ n) with v in H
  end.
Ltac div_lia := pow_values; Z.to_euclidean_division_equations; lia.

(** The fields of a word [x] with [a] in its low 12 bits, [s] and [w] above, and [b] on top. *)
Lemma wave_fields a s w b x :
  0 ≤ a < 2 ^ 12 → 0 ≤ s ≤ 1 → 0 ≤ w < 2 ^ 12 → 0 ≤ b < 2 ^ 4 →
  x = a + s * 2 ^ 12 + w * 2 ^ 14 + SQ_INTERRUPT_WORD_ENCODING_INST * 2 ^ 26 + b * 2 ^ 28 →
  x `mod` 2 ^ 12 = a ∧ (x / 2 ^ 28) `mod` 2 ^ 4 = b
  ∧ (x / 2 ^ 26) `mod` 2 ^ 2 = SQ_INTERRUPT_WORD_ENCODING_INST ∧ (x / 2 ^ 13) `mod` 2 ^ 1 = 0.
Proof.
  unfold SQ_INTERRUPT_WORD_ENCODING_INST. intros Ha Hs Hw Hb Hx. split_and!; div_lia.
Qed.

Lemma data_fields data :
  0 ≤ data < 2 ^ 24 →
  (0 ≤ data `mod` 2 ^ 12 < 2 ^ 12) ∧ (0 ≤ (data / 2 ^ 12) `mod` 2 ^ 4 < 2 ^ 4)
  ∧ (0 ≤ data / 2 ^ 16 < 2 ^ 8)
  ∧ data = data `mod` 2 ^ 12 + (data / 2 ^ 12) `mod` 2 ^ 4 * 2 ^ 12 + data / 2 ^ 16 * 2 ^ 16.
Proof. intros Hd. split_and!; div_lia. Qed.

Lemma sq_int_data_wave data sh wave :
  0 ≤ data < 2 ^ 24 → 0 ≤ sh ≤ 1 → 0 ≤ wave < 2 ^ 12 →
  KFD_CONTEXT_ID_GET_SQ_INT_DATA (wave_context_id0 data sh wave) (wave_context_id1 data) = data.
Proof.
  intros Hd Hs Hw. unfold KFD_CONTEXT_ID_GET_SQ_INT_DATA, wave_context_id0, wave_context_id1.
  change 0xfff with (Z.shiftl (Z.ones 12) 0). change 0xf000 with (Z.shiftl (Z.ones 4) 12).
  change 0xff0000 with (Z.shiftl (Z.ones 8) 16). rewrite !land_field by done.
  rewrite Z.shiftr_div_pow2, Z.shiftl_mul_pow2, Z.div_div by done. unfold wrap.
  pose proof (data_fields data Hd) as (Ha & Hb & Hc & Hdata).
  edestruct (wave_fields _ sh wave _ _ Ha Hs Hw Hb eq_refl) as (E1 & E2 & _).
  change (2 ^ 0) with 1. rewrite Z.div_1_r, Z.mul_1_r, E1. change (2 ^ 16 * 2 ^ 12) with (2 ^ 28). rewrite E2.
  rewrite (Z.mod_small (data / _ * _)) by (pow_values; lia). rewrite Z.div_mul, (Z.mod_small (data / 2 ^ 16)) by done.
  rewrite (lor_add _ ((data / 2 ^ 12) `mod` 2 ^ 4)) by (done || lia).
  rewrite lor_add; [done|done| |lia]. pow_values. lia.
Qed.

Lemma wave_encoding data sh wave :
  0 ≤ data < 2 ^ 24 → 0 ≤ sh ≤ 1 → 0 ≤ wave < 2 ^ 12 →
  sq_encoding (wave_context_id0 data sh wave) = SQ_INTERRUPT_WORD_ENCODING_INST
  ∧ nz (Z.land (wave_context_id0 data sh wave) SQ_INTERRUPT_WORD_WAVE_CTXID__PRIV_MASK) = false.
Proof.
  intros Hd Hs Hw. unfold sq_encoding, bits, SQ_INTERRUPT_WORD_WAVE_CTXID__PRIV_MASK.
  change 3 with (Z.shiftl (Z.ones 2) 0). change 0x2000 with (Z.shiftl (Z.ones 1) 13).
  rewrite !land_field, Z.shiftr_div_pow2 by done. change (2 ^ 0) with 1. rewrite Z.div_1_r, Z.mul_1_r.
  pose proof (data_fields data Hd) as (Ha & Hb & _).
  edestruct (wave_fields _ sh wave _ _ Ha Hs Hw Hb eq_refl) as (_ & _ & E3 & E4).
  unfold wave_context_id0. split; [done|]. by rewrite E4.
Qed.

(** ** Signals *)

Section Signals.
Context (LIMIT : Z).

Lemma lookup_exact p id bits a :
  (31 < bits ∨ bits ≤ 31 ∧ LIMIT ≤ u32 (2 ^ bits)) → id < LIMIT →
  page_slot p id ≠ UNSIGNALED_EVENT_SLOT → idr_find p id = Some a →
  lookup_signaled_event_by_partial_id LIMIT p id bits = Some a.
Proof.
  intros Hbits Hid Hslot Ha. unfold lookup_signaled_event_by_partial_id.
  rewrite bool_decide_eq_false_2 by (intros Hn; unfold page_slot in Hslot; by rewrite Hn in Hslot).
  rewrite (proj2 (Z.leb_gt _ _)) by done. cbn [orb].
  replace ((31 <? bits) || (LIMIT <=? u32 (2 ^ bits))) with true.
  - by rewrite (proj2 (Z.eqb_neq _ _)).
  - symmetry. apply orb_true_iff. rewrite Z.ltb_lt, Z.leb_le. tauto.
Qed.

Lemma page_set_waiters f l p : signal_page (foldr (set_waiter f) p l) = signal_page p.
Proof. by induction l. Qed.

Lemma page_wake_up_all l p : signal_page (wake_up_all l p).2 = signal_page p.
Proof.
  revert p. induction l as [|w l IH]; intros p; [done|]. cbn [wake_up_all].
  destruct (waits p !! w.1) as [c|]; [destruct (asleep c); [by rewrite IH|]|];
    specialize (IH p); by destruct (wake_up_all l p).
Qed.

(** The state in which the event at [a] was set: the other events and the signal
    page are as they were, and so are the waiters of the other events. *)
Lemma set_event_latched p a ev :
  heap p !! a = Some ev →
  ∃ p' ev', set_event p a = Some p' ∧ signal_page p' = signal_page p ∧
    event_idr p' = event_idr p ∧ heap p' = <[a := ev']> (heap p) ∧
    signaled ev' = (negb (auto_reset ev) || bool_decide (wq ev = [])) ∧
    (∀ w, w ∈ wq ev → awake p' w.1) ∧
    (∀ w, waiter_of p' w = if decide (w ∈ wq ev) then set_field activated (λ _, true) <$> waiter_of p w
                           else waiter_of p w).
Proof.
  intros Ha. unfold set_event. rewrite Ha. cbn [mbind option_bind]. cbv zeta.
  set (ev1 := ev <| signaled := _ |> <| event_age ::= next_age |>).
  change (wq ev1) with (wq ev). set (p1 := foldr _ p (wq ev)).
  assert (Hh : heap p1 = heap p) by apply heap_set_waiters.
  assert (Hi : event_idr p1 = event_idr p) by (unfold p1; clear; by induction (wq ev)).
  assert (Hw : ∀ w, waiter_of p1 w = if decide (w ∈ wq ev)
    then set_field activated (λ _, true) <$> waiter_of p w else waiter_of p w)
    by (intros w; by apply waiter_of_set_waiters).
  pose proof (page_wake_up_all (wq ev) p1) as Hp. unfold p1 in Hp at 2. rewrite page_set_waiters in Hp.
  destruct (wake_up_all_spec (wq ev) p1) as (H1 & H2 & _).
  destruct (wake_up_all_sim (wq ev) p1) as [Hs Hh2]. apply sim_idr in Hs.
  destruct (wake_up_all (wq ev) p1) as [rest p2]. cbn [fst snd] in *.
  eexists _, _. split_and!; [done|exact Hp|by simpl; rewrite Hs|by simpl; rewrite Hh2, Hh|done| |].
  - intros w Hin. by apply H2.
  - intros w. rewrite <- Hw, <- H1. done.
Qed.

Lemma signal_exact p id n a ev :
  (n = 24 ∨ n = 28 ∨ n = 32) → LIMIT ≤ 2 ^ 24 → id < LIMIT →
  page_slot p id ≠ UNSIGNALED_EVENT_SLOT → idr_find p id = Some a → heap p !! a = Some ev →
  event_can_be_gpu_signaled ev = true →
  kfd_signal_event_interrupt LIMIT p id n = set_event (acknowledge_signal p ev) a.
Proof.
  intros Hn HL Hid Hslot Ha Hev Hg. unfold kfd_signal_event_interrupt.
  replace (nz n) with true by (by destruct Hn as [-> | [-> | ->]]).
  rewrite (lookup_exact p id n a); try done.
  - cbn [set_event_from_interrupt]. rewrite Hev. cbn [mbind option_bind]. by rewrite Hg.
  - destruct Hn as [-> | [-> | ->]]; [right|right|left; lia]; (split; [lia|]);
      change (u32 (2 ^ 24)) with (2 ^ 24); change (u32 (2 ^ 28)) with (2 ^ 28); lia.
Qed.
End Signals.

Section SignalEntries.
Context (env : irq_env) (LIMIT ECC POISON QUEUE DEVICE PROCESS NEW VIOLATION : Z) (ec_is_packet : Z → bool).

(** The entry [e] carries the id of an event in all the bits its source has. *)
Definition gfx_client (c : ih_client) : bool :=
  match c with GRBM_CP => true | SE_SH n => (0 <=? n) && (n <=? 3) | _ => false end.
Definition sdma_client (c : ih_client) : bool :=
  match c with SDMA n => (0 <=? n) && (n <=? 7) | _ => false end.
Definition signal_entry (e : list Z) (id : Z) : Prop :=
  let client := client_of env (SOC15_CLIENT_ID_FROM_IH_ENTRY e) in
  let source := SOC15_SOURCE_ID_FROM_IH_ENTRY e in
  let context_id0 := SOC15_CONTEXT_ID0_FROM_IH_ENTRY e in
  (gfx_client client = true ∧ source = SOC15_INTSRC_CP_END_OF_PIPE ∧ context_id0 = id)
  ∨ (gfx_client client = true ∧ source = SOC15_INTSRC_SQ_INTERRUPT_MSG
     ∧ ∃ sh wave, 0 ≤ sh ≤ 1 ∧ 0 ≤ wave < 2 ^ 12 ∧ context_id0 = wave_context_id0 id sh wave
         ∧ SOC15_CONTEXT_ID1_FROM_IH_ENTRY e = wave_context_id1 id)
  ∨ (sdma_client client = true ∧ source = SOC15_INTSRC_SDMA_TRAP ∧ Z.land context_id0 0xfffffff = id).

Lemma signal_entry_source e id :
  signal_entry e id →
  client_cared_for (client_of env (SOC15_CLIENT_ID_FROM_IH_ENTRY e)) = true
  ∧ (SOC15_SOURCE_ID_FROM_IH_ENTRY e = SOC15_INTSRC_CP_END_OF_PIPE ∧ SOC15_CONTEXT_ID0_FROM_IH_ENTRY e = id
     ∨ SOC15_SOURCE_ID_FROM_IH_ENTRY e = SOC15_INTSRC_SQ_INTERRUPT_MSG
     ∨ SOC15_SOURCE_ID_FROM_IH_ENTRY e = SOC15_INTSRC_SDMA_TRAP).
Proof.
  unfold signal_entry. intros [(Hc & -> & ->) | [(Hc & -> & _) | (Hc & -> & _)]];
    (split; [by destruct (client_of env _)|tauto]).
Qed.

Lemma isr_wants_signal i σ e id patched :
  signal_entry e id → id ≠ 0 → SOC15_PASID_FROM_IH_ENTRY e ≠ 0 →
  vm_first_kfd env i ≤ SOC15_VMID_FROM_IH_ENTRY e ≤ vm_last_kfd env i →
  event_interrupt_isr_v9 env i σ e patched = (true, patched).
Proof.
  intros He Hid Hp Hv. apply signal_entry_source in He as [Hc Hs].
  unfold event_interrupt_isr_v9, patch_pasid, KFD_IRQ_IS_FENCE. cbv zeta. rewrite Hc.
  rewrite !(proj2 (Z.ltb_ge _ _)), (proj2 (Z.eqb_neq (SOC15_PASID_FROM_IH_ENTRY e) 0)) by lia.
  cbn [andb orb negb]. rewrite andb_false_r.
  destruct Hs as [[-> ->] | [-> | ->]]; cbn [andb orb Z.eqb Pos.eqb]; rewrite ?andb_false_r; cbn;
    rewrite ?(proj2 (Z.eqb_neq id 0)), ?(proj2 (Z.eqb_neq (SOC15_PASID_FROM_IH_ENTRY e) 0)) by done;
    cbn; by rewrite ?orb_true_r.
Qed.

Lemma wq_signals i e id σ :
  signal_entry e id → 0 ≤ id < 2 ^ 24 →
  ∃ n, (n = 24 ∨ n = 28 ∨ n = 32)
    ∧ event_interrupt_wq_v9 env LIMIT ECC POISON QUEUE DEVICE PROCESS NEW VIOLATION ec_is_packet i e σ
      = signal_event LIMIT (SOC15_PASID_FROM_IH_ENTRY e) id n σ.
Proof.
  intros [(Hc & Hs & Hid) | [(Hc & Hs & sh & wave & Hsh & Hw & H0 & H1) | (Hc & Hs & Hid)]] Hr;
    unfold event_interrupt_wq_v9; cbv zeta.
  - exists 32. split; [auto|]. rewrite Hs, Hid, Z.eqb_refl. by destruct (client_of env _); simplify_eq/=; rewrite ?Hc.
  - exists 24. split; [auto|]. rewrite Hs.
    assert (sq_interrupt env LIMIT ECC POISON QUEUE DEVICE PROCESS NEW VIOLATION i e
              (SOC15_PASID_FROM_IH_ENTRY e) (client_of env (SOC15_CLIENT_ID_FROM_IH_ENTRY e)) σ
            = signal_event LIMIT (SOC15_PASID_FROM_IH_ENTRY e) id 24 σ) as ->.
    { unfold sq_interrupt. cbv zeta. rewrite H0, H1, sq_int_data_wave by done.
      by destruct (wave_encoding id sh wave Hr Hsh Hw) as [-> ->]. }
    by destruct (client_of env _); simplify_eq/=; rewrite ?Hc.
  - exists 28. split; [auto|]. rewrite Hs, Hid. by destruct (client_of env _); simplify_eq/=; rewrite ?Hc.
Qed.
End SignalEntries.

(** ** Claims *)

(** C17. No accepted interrupt is lost, and each is handled once, in order.  After
    any history of interrupts and turns of workers on a started device, the
    entries the handler accepted for a node are those its worker handled followed
    by those in its fifo, which are whole and at most 8192; while there are any,
    the worker of the node is queued or running.  A further entry is dropped only
    when every active node refuses it: it does not want it or its fifo is full. *)
Theorem interrupts_fifo {D} (class : kfd_event_interrupt_class D) `{!InterruptClass class} (entry_size : Z)
    (Hsize : entry_size = 4 ∨ entry_size = 8) (m : nat) (σ : D) (l : list irq_label) (k : kfd_dev D)
    (accs hs : list (nat * list Z)) (Hl : Forall (label_ok entry_size) l)
    (Hrun : irq_run class entry_size (kfd_started entry_size m σ) l = Some (k, accs, hs)) :
  (∀ i, (i < m)%nat → ∃ n queued, nodes k !! i = Some (Some n) ∧
     of_node i accs = of_node i hs ++ queued ∧ ih_fifo n = concat queued ∧
     Forall (λ e, Z.of_nat (length e) = entry_size) queued ∧ Z.of_nat (length queued) ≤ KFD_IH_NUM_ENTRIES ∧
     (queued ≠ [] → work_pending n = true ∨ work_running n = true)) ∧
  (∀ e, entry_size ≤ Z.of_nat (length e) → ∃ k' acc, kgd2kfd_interrupt class entry_size k e = Some (k', acc) ∧
     (acc = None → k' = k ∧ ∀ i n, nodes k !! i = Some (Some n) → interrupts_active n = true →
        (∃ patched, (interrupt_isr class i (sys k) e patched).1 = false)
        ∨ Z.of_nat (length (ih_fifo n)) = KFD_IH_NUM_ENTRIES * entry_size)).
Proof.
  destruct (irq_run_inv class entry_size Hsize l _ _ _ _ _ (started_inv entry_size Hsize m σ) Hl Hrun)
    as (Hlen & q & Hk & Hq).
  split.
  - intros i Hi. destruct (lookup_lt_is_Some_2 (nodes k) i) as [o Ho].
    { rewrite Hlen. cbn. by rewrite length_replicate. }
    destruct (inv_nodes _ _ _ Hk i o Ho) as (n & -> & [Hf He Hc _ Hw]).
    exists n, (q i). by split_and!; [|apply Hq|..].
  - intros e He. destruct (interrupt_step class entry_size Hsize k q e Hk He)
      as [[-> Hwhy] | (i & n & p & e' & _ & _ & _ & -> & _)]; eexists _, _; (split; [done|]); [|done].
    intros _. split; [done|]. intros i n Hi Ha. destruct (Hwhy i n Hi Ha) as [? | Hfull]; [by left|right].
    destruct (inv_nodes _ _ _ Hk i _ Hi) as (? & [= <-] & [Hf He' _ _ _]).
    rewrite Hf, (length_concat_entries entry_size) by done. lia.
Qed.

(** C18. Every accepted interrupt is handled.  On a started device, in any infinite
    history in which the worker of a node has its turn again and again, whatever
    interrupts and other workers do meanwhile, all the entries accepted for the
    node up to any time have been handled, in their order, at a later time. *)
Theorem interrupts_eventually_handled {D} (class : kfd_event_interrupt_class D) `{!InterruptClass class}
    (entry_size : Z) (Hsize : entry_size = 4 ∨ entry_size = 8) (m : nat) (σ : D) (i : nat) (Hi : (i < m)%nat)
    (st : nat → kfd_dev D) (lab : nat → irq_label) (acc hs : nat → option (nat * list Z))
    (H0 : st 0%nat = kfd_started entry_size m σ)
    (Hst : ∀ t, irq_step class entry_size (st t) (lab t) = Some (st (S t), acc t, hs t))
    (Hlab : ∀ t, label_ok entry_size (lab t))
    (Hfair : ∀ t, ∃ u expired, (t ≤ u)%nat ∧ lab u = Work i expired) (t : nat) :
  ∃ v, (t ≤ v)%nat ∧ of_node i (upto acc t) `prefix_of` of_node i (upto hs v).
Proof.
  pose proof (started_inv entry_size Hsize m σ) as Hk0. rewrite <- H0 in Hk0.
  destruct (enough_handled class entry_size Hsize st lab acc hs i t (length (of_node i (upto acc t))))
    as (v & Hv & HN); try done; [rewrite H0; cbn; by rewrite length_replicate|].
  exists v. split; [done|].
  destruct (upto_inv class entry_size Hsize st lab acc hs v Hk0 Hst Hlab) as (_ & q & _ & Hq).
  pose proof (upto_prefix i acc t v Hv) as Hp.
  destruct (prefix_weak_total (of_node i (upto acc t)) (of_node i (upto hs v)) (of_node i (upto acc v)))
    as [? | Hback]; [done|rewrite Hq; by apply prefix_app_r|done|].
  by rewrite (prefix_length_eq _ _ Hback).
Qed.


(** C19. A signal reaches its event and no other.  An entry of the end of a pipe, of a
    wave or of an SDMA engine that carries the id of an event in the bits its source
    has (32, 24 spread over two words, 28), for a process with that event and a node
    whose VMIDs include that of the entry, is wanted by the interrupt handler,
    whatever was patched before.  The worker then frees the slot of that event in the
    signal page, and no other slot; it sets that event (signalled unless it is
    auto-reset and has waiters), activates the waiters in its queue and wakes their
    tasks; every other event and every other waiter is as it was. *)
Theorem signal_interrupt_reaches_event (env : irq_env)
    (LIMIT ECC POISON QUEUE DEVICE PROCESS NEW VIOLATION : Z) (ec_is_packet : Z → bool)
    (i : nat) (σ : irq_sys) (e : list Z) (patched : option (list Z)) (p : kfd_process) (id a : Z) (ev : kfd_event)
    (Hlimit : LIMIT ≤ 2 ^ 24) (Hid : 0 ≤ id < LIMIT) (He : signal_entry env e id)
    (Hvmid : vm_first_kfd env i ≤ SOC15_VMID_FROM_IH_ENTRY e ≤ vm_last_kfd env i)
    (Hpasid : SOC15_PASID_FROM_IH_ENTRY e ≠ 0) (Hp : procs σ !! SOC15_PASID_FROM_IH_ENTRY e = Some p)
    (Hwf : ev_wf LIMIT (p_events p)) (Hslot : page_slot (p_events p) id ≠ UNSIGNALED_EVENT_SLOT)
    (Ha : idr_find (p_events p) id = Some a) (Hev : heap (p_events p) !! a = Some ev)
    (Hgpu : event_can_be_gpu_signaled ev = true) :
  event_interrupt_isr_v9 env i σ e patched = (true, patched) ∧
  ∃ p' ev', event_interrupt_wq_v9 env LIMIT ECC POISON QUEUE DEVICE PROCESS NEW VIOLATION ec_is_packet i e σ
      = Some (σ <| procs ::= <[SOC15_PASID_FROM_IH_ENTRY e := p <| p_events := p' |>]> |>) ∧
    page_slot p' id = UNSIGNALED_EVENT_SLOT ∧
    (∀ id', id' ≠ id → page_slot p' id' = page_slot (p_events p) id') ∧
    event_idr p' = event_idr (p_events p) ∧ heap p' = <[a := ev']> (heap (p_events p)) ∧
    signaled ev' = (negb (auto_reset ev) || bool_decide (wq ev = [])) ∧
    (∀ w, w ∈ wq ev → awake p' w.1) ∧
    (∀ w, waiter_of p' w =
       if decide (w ∈ wq ev) then set_field activated (λ _, true) <$> waiter_of (p_events p) w
       else waiter_of (p_events p) w).
Proof.
  destruct (idr_find_Some LIMIT _ _ _ Hwf Ha) as (Hin & ev1 & Hev1 & Hid1). rewrite Hev in Hev1. simplify_eq.
  split.
  { eapply isr_wants_signal; try done. intros H0. rewrite H0 in *. by rewrite (wf_null _ _ Hwf) in Hin. }
  destruct (wq_signals env LIMIT ECC POISON QUEUE DEVICE PROCESS NEW VIOLATION ec_is_packet i e _ σ He)
    as (n & Hn & ->); [lia|].
  unfold signal_event, with_process, on_events. rewrite Hp.
  rewrite (signal_exact LIMIT _ (event_id ev1) n a ev1) by (done || lia).
  destruct (set_event_latched (acknowledge_signal (p_events p) ev1) a ev1)
    as (p' & ev' & -> & Hpage & Hidr & Hh & Hsig & Hawake & Hwaiters); [done|].
  exists p', ev'. split_and!; try done; unfold page_slot; rewrite Hpage;
    unfold acknowledge_signal, write_slot; cbn; destruct (signal_page (p_events p)) as [m|]; try done; cbn.
  - by rewrite lookup_insert_eq.
  - intros id' Hne. by rewrite lookup_insert_ne.
Qed.

(** The fence of a drain has VMID 0, and a node of a GFX9.4.3 device whose VMIDs do
    not include 0 does not want it. *)
Theorem drain_fence_rejected_9_4_3 (env : irq_env) (i j : nat) (pasid : Z) (σ : irq_sys)
    (patched : option (list Z)) (Hvmid : Z.testbit (node_vmid_bitmap env i) 0 = false) :
  event_interrupt_isr_v9_4_3 env i σ (irq_drain_fence env j pasid) patched = (false, patched).
Proof.
  unfold event_interrupt_isr_v9_4_3, kfd_irq_is_from_node.
  change (SOC15_VMID_FROM_IH_ENTRY (irq_drain_fence env j pasid)) with 0.
  replace (Z.land (node_vmid_bitmap env i) (Z.shiftl 1 0)) with 0; [by rewrite andb_false_r|].
  symmetry. apply Z.bits_inj'. intros x Hx. rewrite Z.bits_0, Z.land_spec. change (Z.shiftl 1 0) with (2 ^ 0).
  destruct (decide (x = 0)) as [->|]; [by rewrite Hvmid|]. rewrite Z.pow2_bits_false by lia. apply andb_false_r.
Qed.

Lemma set_drain_twice b b' pasid k : set_drain b pasid (set_drain b' pasid k) = set_drain b pasid k.
Proof.
  unfold set_drain. destruct k as [ic wq ns σ], σ as [ps vp rt]. cbn. f_equal. f_equal.
  apply map_eq. intros x.
  destruct (decide (pasid = x)) as [->|]; [|by rewrite !lookup_alter_ne].
  rewrite !lookup_alter_eq. by destruct (ps !! x) as [[]|].
Qed.

(** A drain that need not wait for the ring does not wait for the worker.  When
    the ring of the device was processed up to the checkpoint in time, the drain of
    the interrupts of a process sends no fence and returns 0 at once, with the
    fifos and the workers of all nodes as they were; the fence is sent when that
    wait ran out of time. *)
Theorem drain_fence_not_sent (env : irq_env) (class : kfd_event_interrupt_class irq_sys) (i : nat) (pasid : Z)
    (k : kfd_dev irq_sys) (wait : Z) (Hsoc15 : IP_VERSION 9 0 1 ≤ gc_version env) :
  (0 < wait → kfd_process_drain_interrupts env class true wait i pasid k = Some (Some 0, set_drain false pasid k)
     ∧ nodes (set_drain false pasid k) = nodes k) ∧
  (∀ k' acc, kgd2kfd_interrupt class KFD_MAX_RING_ENTRY_SIZE (set_drain true pasid k) (irq_drain_fence env i pasid)
       = Some (k', acc) →
     kfd_process_drain_interrupts env class true 0 i pasid k = Some (None, k')).
Proof.
  unfold kfd_process_drain_interrupts, amdgpu_amdkfd_send_close_event_drain_irq, amdgpu_ih_wait_on_checkpoint_process_ts.
  rewrite (proj2 (Z.ltb_ge _ _)) by done. cbn [negb]. cbv zeta. split.
  - intros Hwait. rewrite (proj2 (nz_true wait)) by lia. cbn [mbind option_bind].
    rewrite (proj2 (nz_true wait)) by lia. by rewrite set_drain_twice.
  - intros k' acc Hk. change (nz 0) with false. cbv iota. by rewrite Hk.
Qed.

(** ** Witnesses *)

Definition demo_client (id : Z) : ih_client :=
  if id =? 20 then GRBM_CP else if id =? 10 then SE_SH 0 else if id =? 8 then SDMA 0
  else if id =? 27 then UTCL2 else OtherClient.
Definition demo_env (gc : Z) : irq_env :=
  mk_irq_env demo_client gc 0x817a false false (λ _, 8) (λ _, 15) (λ _, 100) (λ _, 1) (λ _, 0xff00)
    false 0 true true (λ _, 0).
Definition demo_v9 (gc : Z) : kfd_event_interrupt_class irq_sys :=
  event_interrupt_class_v9 (demo_env gc) 4096 1 2 3 4 5 6 7 (λ _, false).

(** A process with PASID 0x8001 whose event 1 the device signals. *)
Definition signalled_events : Events.process :=
  write_slot (kfd_event_create true true kfd_event_init_process 0 true).1.2 1 0.
Definition demo_process : kfd_process :=
  mk_kfd_process 0x8001 signalled_events ∅ [] [] false 0 0 DEBUG_RUNTIME_STATE_DISABLED false false [].
Definition demo_sys : irq_sys := mk_irq_sys {[0x8001 := demo_process]} [] [].

(** A message of a wave that carries event 1, for VMID 9. *)
Definition demo_entry : list Z :=
  [Z.lor (Z.lor 10 (Z.shiftl 239 8)) (Z.shiftl 9 24); 0; 0; 0x8001; wave_context_id0 1 1 77; wave_context_id1 1; 0; 0].

Lemma signalled_events_wf : ev_wf 4096 signalled_events.
Proof.
  apply (wf_sim 4096 (kfd_event_create true true kfd_event_init_process 0 true).1.2), sim_write_slot.
  apply kfd_event_create_wf; [lia|]. apply init_wf.
Qed.

Lemma signal_interrupt_reaches_event_witness :
  ∃ p' ev', event_interrupt_wq_v9 (demo_env (IP_VERSION 9 4 0)) 4096 1 2 3 4 5 6 7 (λ _, false) 0 demo_entry demo_sys
      = Some (demo_sys <| procs ::= <[0x8001 := demo_process <| p_events := p' |>]> |>) ∧
    page_slot p' 1 = UNSIGNALED_EVENT_SLOT ∧ heap p' = {[1 := ev']} ∧ signaled ev' = true.
Proof.
  destruct (signal_interrupt_reaches_event (demo_env (IP_VERSION 9 4 0)) 4096 1 2 3 4 5 6 7 (λ _, false)
           0 demo_sys demo_entry None demo_process 1 1 (mk_event 1 1 false true 0 [] NoPayload))
    as (_ & p' & ev' & Hw & Hslot & _ & _ & Hh & Hs & _); try done.
  - right; left. split_and!; [done..|]. by exists 1, 77.
  - apply signalled_events_wf.
  - exists p', ev'. split_and!; [exact Hw|exact Hslot| |exact Hs]. rewrite Hh. vm_compute. reflexivity.
Defined.

Definition demo_history : list irq_label :=
  [Interrupt demo_entry; Work 0 false; Interrupt [0; 0; 0; 0; 0; 0; 0; 0]; Interrupt demo_entry; Work 0 false].

Lemma interrupts_fifo_witness :
  ∃ k, irq_run (demo_v9 (IP_VERSION 9 4 0)) 8 (kfd_started 8 1 demo_sys) demo_history
       = Some (k, [(0%nat, demo_entry); (0%nat, demo_entry)], [(0%nat, demo_entry)]) ∧
    ∃ n queued, nodes k !! 0%nat = Some (Some n) ∧ [demo_entry; demo_entry] = [demo_entry] ++ queued
      ∧ ih_fifo n = concat queued.
Proof.
  eexists. split; [vm_compute; reflexivity|].
  destruct (interrupts_fifo (demo_v9 (IP_VERSION 9 4 0)) 8 (or_intror eq_refl) 1 demo_sys demo_history _
    [(0%nat, demo_entry); (0%nat, demo_entry)] [(0%nat, demo_entry)]
    ltac:(repeat constructor; done) ltac:(vm_compute; reflexivity)) as [H _].
  destruct (H 0%nat) as (n & queued & Hn & Hq & Hf & _); [lia|]. by exists n, queued.
Defined.

(** One interrupt, then turns of the worker for ever. *)
Definition live_label (t : nat) : irq_label :=
  match t with O => Interrupt demo_entry | S _ => Work 0 false end.
Definition live_step (t : nat) (k : kfd_dev irq_sys)
    : option (kfd_dev irq_sys * option (nat * list Z) * option (nat * list Z)) :=
  irq_step (demo_v9 (IP_VERSION 9 4 0)) 8 k (live_label t).
Fixpoint live_state (t : nat) : kfd_dev irq_sys :=
  match t with
  | O => kfd_started 8 1 demo_sys
  | S t => default (live_state t) (fst ∘ fst <$> live_step t (live_state t))
  end.
Definition live_acc (t : nat) : option (nat * list Z) := live_step t (live_state t) ≫= λ r, r.1.2.
Definition live_handled (t : nat) : option (nat * list Z) := live_step t (live_state t) ≫= snd.

(** From the fourth step on the worker has nothing to do. *)
Lemma live_idle t : live_state (4 + t) = live_state 4.
Proof.
  induction t as [|t IH]; [done|]. change (4 + S t)%nat with (S (4 + t)).
  cbn [live_state]. fold (live_state (4 + t)). rewrite IH. change (4 + t)%nat with (S (3 + t)).
  unfold live_step, live_label. vm_compute. reflexivity.
Qed.

Lemma live_steps t : live_step t (live_state t) = Some (live_state (S t), live_acc t, live_handled t).
Proof.
  assert (is_Some (live_step t (live_state t))) as [[[k a] h] Hs].
  { destruct t as [|[|[|[|t]]]]; [vm_compute; by eexists..|].
    change (S (S (S (S t)))) with (4 + t)%nat. rewrite live_idle. change (4 + t)%nat with (S (3 + t)).
    unfold live_step, live_label. vm_compute. by eexists. }
  unfold live_acc, live_handled. cbn [live_state]. by rewrite Hs.
Qed.

Lemma interrupts_eventually_handled_witness :
  ∃ v, [demo_entry] `prefix_of` of_node 0 (upto live_handled v).
Proof.
  destruct (interrupts_eventually_handled (demo_v9 (IP_VERSION 9 4 0)) 8 (or_intror eq_refl) 1 demo_sys 0
    ltac:(lia) live_state live_label live_acc live_handled eq_refl live_steps) with (t := 1%nat) as (v & _ & Hv).
  - intros [|t]; [cbn; lia|exact I].
  - intros t. exists (S t), false. split; [lia|done].
  - exists v. exact Hv.
Defined.

(** A drain that returns with an entry of the process in the fifo. *)
Definition drain_state : kfd_dev irq_sys :=
  match kgd2kfd_interrupt (demo_v9 (IP_VERSION 9 4 0)) 8 (kfd_started 8 1 demo_sys) demo_entry with
  | Some (k, _) => k
  | None => kfd_started 8 1 demo_sys
  end.

Lemma drain_fence_not_sent_witness :
  IP_VERSION 9 0 1 ≤ IP_VERSION 9 4 0 ∧
  (ih_fifo <$> mjoin (nodes drain_state !! 0%nat)) = Some demo_entry ∧
  kfd_process_drain_interrupts (demo_env (IP_VERSION 9 4 0)) (demo_v9 (IP_VERSION 9 4 0)) true 250 0 0x8001 drain_state
  = Some (Some 0, set_drain false 0x8001 drain_state) ∧
  nodes (set_drain false 0x8001 drain_state) = nodes drain_state.
Proof.
  split; [done|]. split; [vm_compute; reflexivity|].
  apply (drain_fence_not_sent (demo_env (IP_VERSION 9 4 0)) (demo_v9 (IP_VERSION 9 4 0)) 0 0x8001 drain_state 250);
    [done|lia].
Defined.

Lemma drain_fence_rejected_9_4_3_witness :
  event_interrupt_isr_v9_4_3 (demo_env (IP_VERSION 9 4 3)) 0 demo_sys
    (irq_drain_fence (demo_env (IP_VERSION 9 4 3)) 0 0x8001) None = (false, None).
Proof. by apply drain_fence_rejected_9_4_3. Defined.
