(* ===== verification/Eeprom.v ===== *)
(** * Transfers to the EEPROM

    [amdgpu_eeprom.c]: reads and writes of any size over an I2C adapter, cut at
    the limits of the adapter and, for writes, at the pages of the device.
    [i2c_transfer] is a parameter with the state [D] of what is behind the bus.
    [EepromDevice] says what the driver relies on: a device that stores what a
    write within a page sends it and gives a read what is stored.  Against it
    [amdgpu_eeprom_read] and [amdgpu_eeprom_write] are shown to be the read and
    the write of a flat memory, whole or in part.  [ram] is such a device. *)

From S2P Require Import Prelude.

Definition EEPROM_PAGE_BITS : Z := 8.
Definition EEPROM_PAGE_SIZE : Z := Z.shiftl 1 EEPROM_PAGE_BITS.
Definition EEPROM_PAGE_MASK : Z := EEPROM_PAGE_SIZE - 1.
Definition EEPROM_OFFSET_SIZE : Z := 2.

Definition MAKE_I2C_ADDR (aa : Z) : Z :=
  Z.lor (Z.shiftl 0xA 3) (Z.land (Z.shiftr aa 16) 0xF).

(** ** The bus *)

Definition I2C_M_RD : Z := 1.

(** [struct i2c_msg]. *)
Record i2c_msg := mk_msg {
  msg_addr : Z;
  msg_flags : Z;
  msg_len : Z;
  msg_buf : list Z;
}.

Record i2c_adapter_quirks := mk_quirks { max_read_len : Z; max_write_len : Z }.

(** [i2c_transfer] with two messages: the number of messages done or a negative
    error, and the buffer of the second message afterwards. *)
Record i2c_adapter (D : Type) := mk_adapter {
  quirks : option i2c_adapter_quirks;
  i2c_transfer : D → i2c_msg → i2c_msg → D * Z * list Z;
}.
Arguments mk_adapter {D}.
Arguments quirks {D}.
Arguments i2c_transfer {D}.

(** ** Operations *)

(** Element [i] of an array. *)
Definition byte_at (p : list Z) (i : Z) : Z := default 0 (p !! Z.to_nat i).
(** [len] elements from [pos]. *)
Definition bytes (p : list Z) (pos len : Z) : list Z :=
  take (Z.to_nat len) (drop (Z.to_nat pos) p).

Section Transfer.
Context {D : Type} (i2c_adap : i2c_adapter D).

(** The two messages of one transfer, of [len] bytes at [pos] of the buffer. *)
Definition xfer_msgs (eeprom_addr : Z) (p : list Z) (pos len : Z) (read : bool) : i2c_msg * i2c_msg :=
  let a := MAKE_I2C_ADDR eeprom_addr in
  (mk_msg a 0 EEPROM_OFFSET_SIZE
     [Z.land (Z.shiftr eeprom_addr 8) 0xff; Z.land eeprom_addr 0xff],
   mk_msg a (if read then I2C_M_RD else 0) len (bytes p pos len)).

(** The loop of [__amdgpu_eeprom_xfer]: the buffer [p] starts at the caller's
    [eeprom_buf] and [pos] is how far that has moved. *)
Fixpoint xfer_loop (fuel : nat) (st : D) (eeprom_addr : Z) (p : list Z) (pos buf_size r : Z)
    (read : bool) : D * list Z * Z * Z :=
  match fuel with
  | O => (st, p, pos, r)
  | S fuel =>
      if buf_size <=? 0 then (st, p, pos, r) else
      let len :=
        if read then buf_size
        else Z.min (EEPROM_PAGE_SIZE - Z.land eeprom_addr EEPROM_PAGE_MASK) buf_size in
      let '(m0, m1) := xfer_msgs eeprom_addr p pos len read in
      let '(st, r, data) := i2c_transfer i2c_adap st m0 m1 in
      let p := if read then list_inserts (Z.to_nat pos) data p else p in
      if negb (r =? 2) then (st, p, pos, r)
      else xfer_loop fuel st (u32 (eeprom_addr + len)) p (pos + len) (u16 (buf_size - len)) r read
  end.

(** [buf_size] is a [u16]; the buffer argument starts at [pos] of [p]. *)
Definition __amdgpu_eeprom_xfer (st : D) (eeprom_addr : Z) (p : list Z) (pos buf_size : Z)
    (read : bool) : D * list Z * Z :=
  let buf_size := u16 buf_size in
  let '(st, p, pos', r) := xfer_loop (Z.to_nat buf_size) st eeprom_addr p pos buf_size 0 read in
  (st, p, if r <? 0 then r else pos' - pos).

(** The loop of [amdgpu_eeprom_xfer] over parts of [limit] bytes. *)
Fixpoint parts_loop (fuel : nat) (st : D) (eeprom_addr : Z) (p : list Z) (pos buf_size limit res : Z)
    (read : bool) : D * list Z * Z :=
  match fuel with
  | O => (st, p, res)
  | S fuel =>
      if buf_size <=? 0 then (st, p, res) else
      let ps := Z.min limit buf_size in
      let '(st, p, r) := __amdgpu_eeprom_xfer st eeprom_addr p pos ps read in
      if r <? 0 then (st, p, r)
      else parts_loop fuel st (u32 (eeprom_addr + ps)) p (pos + ps) (buf_size - ps) limit (res + r) read
  end.

Definition amdgpu_eeprom_xfer (st : D) (eeprom_addr : Z) (p : list Z) (buf_size : Z) (read : bool)
    : D * list Z * Z :=
  let limit :=
    match quirks i2c_adap with
    | None => 0
    | Some q => if read then max_read_len q else max_write_len q
    end in
  if limit =? 0 then __amdgpu_eeprom_xfer st eeprom_addr p 0 buf_size read
  else if limit <=? EEPROM_OFFSET_SIZE then (st, p, -EINVAL)
  else
    let limit := limit - EEPROM_OFFSET_SIZE in
    parts_loop (Z.to_nat buf_size) st eeprom_addr p 0 buf_size limit 0 read.

Definition amdgpu_eeprom_read (st : D) (eeprom_addr : Z) (eeprom_buf : list Z) (nbytes : Z)
    : D * list Z * Z :=
  amdgpu_eeprom_xfer st eeprom_addr eeprom_buf nbytes true.

Definition amdgpu_eeprom_write (st : D) (eeprom_addr : Z) (eeprom_buf : list Z) (nbytes : Z) : D * Z :=
  let '(st, _, r) := amdgpu_eeprom_xfer st eeprom_addr eeprom_buf nbytes false in (st, r).
End Transfer.

(** ** The device behind the bus *)

(** The memory address the two messages carry. *)
Definition msg_maddr (m0 : i2c_msg) : Z :=
  Z.land (msg_addr m0) 0xF * 2 ^ 16 + byte_at (msg_buf m0) 0 * 2 ^ 8 + byte_at (msg_buf m0) 1.

(** The memory from [a] on. *)
Definition mem_range (m : Z → Z) (a n : Z) : list Z := m <$> seqZ a n.

(** An address phase to the EEPROM, and a second message to the same device. *)
Definition to_eeprom (m0 m1 : i2c_msg) : Prop :=
  msg_addr m0 = MAKE_I2C_ADDR (msg_maddr m0) ∧ msg_addr m1 = msg_addr m0 ∧
  msg_flags m0 = 0 ∧ msg_len m0 = EEPROM_OFFSET_SIZE ∧ 0 < msg_len m1 ∧
  length (msg_buf m1) = Z.to_nat (msg_len m1).

(** What the data sheets quoted in [amdgpu_eeprom.c] promise.  The parts have
    2 Mbit and a page of 256 bytes; a write that stays in a page is stored when
    both messages are done, and one that is not done changes no other bytes; a
    read within a part is sequenced out. *)
Class EepromDevice {D : Type} (A : i2c_adapter D) (mem : D → Z → Z) : Prop := {
  device_write : ∀ s m0 m1 s' r b,
    i2c_transfer A s m0 m1 = (s', r, b) → to_eeprom m0 m1 → msg_flags m1 = 0 →
    msg_maddr m0 `mod` 256 + msg_len m1 ≤ 256 →
    (∀ x, ¬ msg_maddr m0 ≤ x < msg_maddr m0 + msg_len m1 → mem s' x = mem s x) ∧
    (r = 2 → ∀ i, 0 ≤ i < msg_len m1 → mem s' (msg_maddr m0 + i) = byte_at (msg_buf m1) i);
  device_read : ∀ s m0 m1 s' r b,
    i2c_transfer A s m0 m1 = (s', r, b) → to_eeprom m0 m1 → msg_flags m1 = I2C_M_RD →
    msg_maddr m0 `mod` 2 ^ 18 + msg_len m1 ≤ 2 ^ 18 →
    (∀ x, mem s' x = mem s x) ∧ length b = Z.to_nat (msg_len m1) ∧
    (r = 2 → b = mem_range (mem s) (msg_maddr m0) (msg_len m1));
}.

(** A bus on which every transfer is done. *)
Class ReliableBus {D : Type} (A : i2c_adapter D) : Prop :=
  reliable s m0 m1 : (i2c_transfer A s m0 m1).1.2 = 2.

(** The sizes an adapter takes: up to 65535 bytes without a limit of its own,
    otherwise any, provided the limit leaves room for the address. *)
Definition size_ok {D} (A : i2c_adapter D) (read : bool) (n : Z) : Prop :=
  match quirks A with
  | None => n < 2 ^ 16
  | Some q => let limit := if read then max_read_len q else max_write_len q in
      (limit = 0 ∧ n < 2 ^ 16) ∨ (2 < limit < 2 ^ 16)
  end.

(** ** Addresses and buffers *)

Lemma land_ff z : Z.land z 0xff = z `mod` 2 ^ 8.
Proof. change 0xff with (Z.ones 8). by rewrite Z.land_ones. Qed.

(** The low bits of an EEPROM slave address are the top bits of the address. *)
Lemma i2c_addr_low a : Z.land (MAKE_I2C_ADDR a) 0xF = (Z.shiftr a 16) `mod` 2 ^ 4.
Proof.
  unfold MAKE_I2C_ADDR. rewrite Z.land_lor_distr_l. change (Z.land (Z.shiftl 0xA 3) 0xF) with 0.
  rewrite Z.lor_0_l, <- Z.land_assoc, Z.land_diag. change 0xF with (Z.ones 4). by rewrite Z.land_ones.
Qed.

Lemma xfer_msgs_maddr a p pos len read :
  0 ≤ a < 2 ^ 19 → msg_maddr (xfer_msgs a p pos len read).1 = a.
Proof.
  intros Ha. unfold msg_maddr, xfer_msgs. cbn [fst msg_addr msg_buf]. rewrite i2c_addr_low.
  unfold byte_at. simpl. rewrite !land_ff, !Z.shiftr_div_pow2 by lia.
  rewrite (Z.mod_small (a / 2 ^ 16)) by (split; [apply Z.div_pos; lia|apply Z.div_lt_upper_bound; lia]).
  change (2 ^ 16) with (2 ^ 8 * 2 ^ 8). rewrite <- Z.div_div by lia.
  pose proof (Z.div_mod a (2 ^ 8) ltac:(lia)). pose proof (Z.div_mod (a / 2 ^ 8) (2 ^ 8) ltac:(lia)). lia.
Qed.

Lemma length_bytes p pos len :
  0 ≤ pos → 0 ≤ len → pos + len ≤ Z.of_nat (length p) → length (bytes p pos len) = Z.to_nat len.
Proof. intros. unfold bytes. rewrite length_take, length_drop. lia. Qed.

Lemma byte_at_bytes p pos len i :
  0 ≤ pos → 0 ≤ i < len → byte_at (bytes p pos len) i = byte_at p (pos + i).
Proof.
  intros. unfold byte_at, bytes. rewrite lookup_take_lt, lookup_drop by lia. do 2 f_equal. lia.
Qed.

Lemma xfer_msgs_eeprom a p pos len read :
  0 ≤ a < 2 ^ 19 → 0 < len → 0 ≤ pos → pos + len ≤ Z.of_nat (length p) →
  to_eeprom (xfer_msgs a p pos len read).1 (xfer_msgs a p pos len read).2.
Proof.
  intros. unfold to_eeprom. rewrite xfer_msgs_maddr by done. simpl.
  rewrite length_bytes by lia. done.
Qed.

Lemma byte_at_mem_range m a n i : 0 ≤ i < n → byte_at (mem_range m a n) i = m (a + i).
Proof.
  intros. unfold byte_at, mem_range. rewrite list_lookup_fmap, lookup_seqZ_lt by lia. simpl. f_equal. lia.
Qed.

Lemma length_mem_range m a n : length (mem_range m a n) = Z.to_nat n.
Proof. unfold mem_range. by rewrite length_fmap, length_seqZ. Qed.

(** A buffer with [data] put at [pos]. *)
Lemma byte_at_inserts data p pos i :
  0 ≤ pos → pos + Z.of_nat (length data) ≤ Z.of_nat (length p) → 0 ≤ i →
  byte_at (list_inserts (Z.to_nat pos) data p) i =
  if decide (pos ≤ i < pos + Z.of_nat (length data)) then byte_at data (i - pos) else byte_at p i.
Proof.
  intros. unfold byte_at. destruct (decide _).
  - rewrite list_lookup_inserts by lia. do 2 f_equal. lia.
  - destruct (decide (i < pos)); [by rewrite list_lookup_inserts_lt by lia|].
    by rewrite list_lookup_inserts_ge by lia.
Qed.

(** Buffers are equal when their bytes are. *)
Lemma byte_at_ext p q :
  length p = length q → (∀ i, 0 ≤ i < Z.of_nat (length p) → byte_at p i = byte_at q i) → p = q.
Proof.
  intros Hl H. apply list_eq_same_length with (length p); [done|done|].
  intros i x y Hi Hx Hy. specialize (H (Z.of_nat i) ltac:(lia)). unfold byte_at in H.
  rewrite Nat2Z.id, Hx, Hy in H. done.
Qed.

(** ** Reads and writes as those of a flat memory *)

Section Spec.
Context {D : Type} (A : i2c_adapter D) (mem : D → Z → Z) `{!EepromDevice A mem}.

(** What is left of a write of the [n] bytes at [pos] of [p], after [k] of them. *)
Definition written (st st' : D) (a : Z) (p : list Z) (pos n k : Z) : Prop :=
  0 ≤ k ≤ n ∧
  (∀ x, ¬ a ≤ x < a + n → mem st' x = mem st x) ∧
  (∀ i, 0 ≤ i < k → mem st' (a + i) = byte_at p (pos + i)).

Lemma written_cons st st1 st2 a p pos n l k :
  0 ≤ l → l + n ≤ n + l →
  written st st1 a p pos l l → written st1 st2 (a + l) p (pos + l) n k →
  written st st2 a p pos (l + n) (l + k).
Proof.
  intros Hl _ (_ & Ho1 & Hw1) (Hk & Ho2 & Hw2). split_and!; [lia|lia| |].
  - intros x Hx. rewrite Ho2 by lia. apply Ho1. lia.
  - intros i Hi. destruct (decide (i < l)).
    + rewrite Ho2 by lia. apply Hw1. lia.
    + replace (a + i) with (a + l + (i - l)) by lia. rewrite Hw2 by lia. f_equal. lia.
Qed.

(** One transfer of a write. *)
Lemma write_once st a p pos len st' r b :
  0 ≤ a → a + len ≤ 2 ^ 19 → 0 < len → a `mod` 256 + len ≤ 256 →
  0 ≤ pos → pos + len ≤ Z.of_nat (length p) →
  i2c_transfer A st (xfer_msgs a p pos len false).1 (xfer_msgs a p pos len false).2 = (st', r, b) →
  written st st' a p pos len (if r =? 2 then len else 0).
Proof.
  intros Ha Ha' Hl Hpage Hp Hp' E.
  assert (Hm : msg_maddr (xfer_msgs a p pos len false).1 = a) by (apply xfer_msgs_maddr; lia).
  apply device_write in E as [Ho Hw]; [| |done|]; [| |by rewrite Hm].
  2: { apply xfer_msgs_eeprom; lia. }
  rewrite Hm in Ho, Hw. simpl in Ho, Hw. split_and!; [branch|branch|done|].
  destruct (Z.eqb_spec r 2) as [->|]; [|lia].
  intros i Hi. rewrite Hw by done. by apply byte_at_bytes.
Qed.

Lemma page_len a n :
  0 < n → let len := Z.min (EEPROM_PAGE_SIZE - Z.land a EEPROM_PAGE_MASK) n in
  0 < len ≤ n ∧ a `mod` 256 + len ≤ 256.
Proof.
  intros Hn. change EEPROM_PAGE_MASK with (Z.ones 8). rewrite Z.land_ones by lia.
  change EEPROM_PAGE_SIZE with 256. change (2 ^ 8) with 256.
  pose proof (Z.mod_pos_bound a 256 ltac:(lia)). simpl. lia.
Qed.

Lemma write_loop fuel st a p pos n r st' p' pos' r' :
  0 ≤ a → a + n ≤ 2 ^ 19 → 0 ≤ n < 2 ^ 16 → (Z.to_nat n ≤ fuel)%nat →
  0 ≤ pos → pos + n ≤ Z.of_nat (length p) → 0 ≤ r →
  xfer_loop A fuel st a p pos n r false = (st', p', pos', r') →
  p' = p ∧ written st st' a p pos n (pos' - pos) ∧ (r' < 0 → pos' - pos < n) ∧
  (ReliableBus A → pos' - pos = n ∧ 0 ≤ r').
Proof.
  revert st a pos n r. induction fuel as [|fuel IH]; intros st a pos n r Ha Ha' Hn Hf Hp Hp' Hr H.
  - simplify_eq/=. split_and!; [done| |lia|lia]. split_and!; [lia|lia|done|lia].
  - cbn [xfer_loop] in H. destruct (Z.leb_spec n 0).
    { simplify_eq/=. split_and!; [done| |lia|lia]. split_and!; [lia|lia|done|lia]. }
    pose proof (page_len a n ltac:(lia)) as Hlen. simpl in Hlen. revert H Hlen.
    generalize (Z.min (EEPROM_PAGE_SIZE - Z.land a EEPROM_PAGE_MASK) n) as len.
    intros len H [Hlen Hpage]. rewrite (surjective_pairing (xfer_msgs _ _ _ _ _)) in H.
    destruct (i2c_transfer A _ _ _) as [[st1 r1] b] eqn:E.
    assert (H1 : written st st1 a p pos len (if r1 =? 2 then len else 0)) by (eapply write_once; [..|exact E]; lia).
    destruct (Z.eqb_spec r1 2) as [->|Hr1]; simpl in H.
    + rewrite (wrap_small 32), (wrap_small 16) in H by (unfold in_width; lia).
      apply IH in H as (Hpp & H2 & H3 & H4); [|lia..].
      split_and!; [done| |lia|intros ?; specialize (H4 _); lia].
      replace n with (len + (n - len)) by lia. replace (pos' - pos) with (len + (pos' - (pos + len))) by lia.
      eapply written_cons; [lia|lia|exact H1|exact H2].
    + simplify_eq. split_and!; [done| |lia|].
      * destruct H1 as (_ & Ho & _). split_and!; [lia|lia| |lia]. intros x Hx. apply Ho. lia.
      * intros Hrel. pose proof (reliable st (xfer_msgs a p' pos' len false).1
          (xfer_msgs a p' pos' len false).2) as H5. rewrite E in H5. done.
Qed.

(** The outcome of a write of [n] bytes with result [r]: nothing outside is
    changed; with [r = n] all is stored. *)
Definition write_outcome (st st' : D) (a : Z) (p : list Z) (pos n r : Z) : Prop :=
  r ≤ n ∧ (∀ x, ¬ a ≤ x < a + n → mem st' x = mem st x) ∧
  (r = n → ∀ i, 0 ≤ i < n → mem st' (a + i) = byte_at p (pos + i)) ∧
  (ReliableBus A → r = n).

Lemma __eeprom_write_outcome st a p pos n st' p' r :
  0 ≤ a → a + n ≤ 2 ^ 19 → 0 ≤ n < 2 ^ 16 → 0 ≤ pos → pos + n ≤ Z.of_nat (length p) →
  __amdgpu_eeprom_xfer A st a p pos n false = (st', p', r) →
  p' = p ∧ write_outcome st st' a p pos n r.
Proof.
  intros Ha Ha' Hn Hp Hp'. unfold __amdgpu_eeprom_xfer. rewrite wrap_small by done.
  destruct (xfer_loop _ _ _ _ _ _ _ _ _) as [[[st1 p1] pos1] r1] eqn:E. intros [= -> <- <-].
  apply write_loop in E as (Hpp & (Hk & Ho & Hw) & Hneg & Hrel); [|lia..].
  split; [done|]. split_and!; [branch|done| |].
  - intros Hr i Hi. apply Hw. revert Hr. branch.
  - intros ?. specialize (Hrel _). branch.
Qed.

Lemma write_parts fuel st a p pos n limit res st' p' r :
  0 ≤ a → a + n ≤ 2 ^ 19 → 0 ≤ n → (Z.to_nat n ≤ fuel)%nat → 0 < limit < 2 ^ 16 →
  0 ≤ pos → pos + n ≤ Z.of_nat (length p) → 0 ≤ res →
  parts_loop A fuel st a p pos n limit res false = (st', p', r) →
  write_outcome st st' a p pos n (r - res).
Proof.
  revert st a pos n res. induction fuel as [|fuel IH];
    intros st a pos n res Ha Ha' Hn Hf Hlim Hp Hp' Hres H; cbn [parts_loop] in H.
  { simplify_eq. split_and!; [lia|done|lia|lia]. }
  destruct (Z.leb_spec n 0).
  { simplify_eq. split_and!; [lia|done|lia|lia]. }
  set (ps := Z.min limit n) in *. assert (Hps : 0 < ps ≤ n ∧ ps < 2 ^ 16) by lia. clearbody ps.
  destruct (__amdgpu_eeprom_xfer _ _ _ _ _ _ _) as [[st1 p1] r1] eqn:E.
  apply __eeprom_write_outcome in E as [-> (Hle1 & Ho1 & Hw1 & Hrel1)]; [|lia..].
  destruct (Z.ltb_spec r1 0).
  { simplify_eq. split_and!; [lia|intros x Hx; apply Ho1; lia|lia|].
    intros ?. specialize (Hrel1 _). lia. }
  rewrite wrap_small in H by (unfold in_width; lia).
  apply IH in H as (Hle2 & Ho2 & Hw2 & Hrel2); [|lia..].
  split_and!; [lia| | |].
  - intros x Hx. rewrite Ho2 by lia. apply Ho1. lia.
  - intros Hr i Hi. destruct (decide (i < ps)).
    + rewrite Ho2 by lia. apply Hw1; lia.
    + replace (a + i) with (a + ps + (i - ps)) by lia. rewrite Hw2 by lia. f_equal. lia.
  - intros ?. specialize (Hrel1 _). specialize (Hrel2 _). lia.
Qed.

(** The outcome of a read of [n] bytes to [pos] of the buffer. *)
Definition read_outcome (st st' : D) (a : Z) (p p' : list Z) (pos n r : Z) : Prop :=
  r ≤ n ∧ length p' = length p ∧ (∀ x, mem st' x = mem st x) ∧
  (∀ i, 0 ≤ i < pos → byte_at p' i = byte_at p i) ∧
  (r = n → ∀ i, 0 ≤ i < n → byte_at p' (pos + i) = mem st (a + i)) ∧
  (ReliableBus A → r = n).

(** The range is in one part of the device. *)
Definition in_part (a n : Z) : Prop := a `mod` 2 ^ 18 + n ≤ 2 ^ 18.

Lemma in_part_tail a n k : 0 ≤ k ≤ n → in_part a n → in_part (a + k) (n - k).
Proof.
  intros Hk Hn. unfold in_part in *. pose proof (Z.mod_pos_bound a (2 ^ 18) ltac:(lia)).
  pose proof (Z.mod_pos_bound (a + k) (2 ^ 18) ltac:(lia)).
  destruct (decide (k = n)) as [->|]; [lia|].
  rewrite <- Z.add_mod_idemp_l, Z.mod_small by lia. lia.
Qed.

Lemma in_part_prefix a n k : k ≤ n → in_part a n → in_part a k.
Proof. unfold in_part. lia. Qed.

Lemma __eeprom_read_outcome st a p pos n st' p' r :
  0 ≤ a → a + n ≤ 2 ^ 19 → in_part a n → 0 ≤ n < 2 ^ 16 → 0 ≤ pos → pos + n ≤ Z.of_nat (length p) →
  __amdgpu_eeprom_xfer A st a p pos n true = (st', p', r) →
  read_outcome st st' a p p' pos n r.
Proof.
  intros Ha Ha' Hpart Hn Hp Hp'. unfold __amdgpu_eeprom_xfer. rewrite wrap_small by done.
  destruct (decide (n = 0)) as [->|].
  { simpl. intros [= <- <- <-]. replace (pos - pos) with 0 by lia. split_and!; try done; lia. }
  destruct (Z.to_nat n) as [|fuel] eqn:Ef; [lia|]. cbn [xfer_loop].
  destruct (Z.leb_spec n 0); [lia|]. rewrite (surjective_pairing (xfer_msgs _ _ _ _ _)).
  destruct (i2c_transfer A _ _ _) as [[st1 r1] b] eqn:E.
  assert (Hr1 : ReliableBus A → r1 = 2) by (intros Hrel; pose proof (Hrel st (xfer_msgs a p pos n true).1 (xfer_msgs a p pos n true).2) as H1;
      by rewrite E in H1).
  pose proof (xfer_msgs_maddr a p pos n true ltac:(lia)) as Hm.
  apply device_read in E as (Hmem & Hb & Hd); [|apply xfer_msgs_eeprom; lia|done|rewrite Hm; exact Hpart].
  rewrite Hm in Hd. simpl in Hb, Hd.
  assert (Hk : ∀ i, 0 ≤ i < pos → byte_at (list_inserts (Z.to_nat pos) b p) i = byte_at p i)
    by (intros i Hi; rewrite byte_at_inserts by lia; rewrite decide_False by lia; done).
  destruct (Z.eqb_spec r1 2) as [->|Hne]; simpl; intros H1.
  - rewrite (wrap_small 16) in H1 by (unfold in_width; lia).
    assert (H2 : (st', p', r) = (st1, list_inserts (Z.to_nat pos) b p, n)).
    { rewrite <- H1. destruct fuel as [|fuel]; cbn [xfer_loop].
      - simpl. do 2 f_equal. lia.
      - destruct (Z.leb_spec (n - n) 0); [|lia]. simpl. do 2 f_equal. lia. }
    simplify_eq. split_and!; try done; [by rewrite length_inserts|].
    intros _ i Hi. rewrite byte_at_inserts by lia. rewrite decide_True by lia.
    rewrite Hd by done. rewrite byte_at_mem_range by lia. f_equal. lia.
  - simplify_eq. split_and!; try done; [branch|by rewrite length_inserts|branch|].
    intros Hrel. by destruct Hne; apply Hr1.
Qed.

Lemma read_parts fuel st a p pos n limit res st' p' r :
  0 ≤ a → a + n ≤ 2 ^ 19 → in_part a n → 0 ≤ n → (Z.to_nat n ≤ fuel)%nat → 0 < limit < 2 ^ 16 →
  0 ≤ pos → pos + n ≤ Z.of_nat (length p) → 0 ≤ res →
  parts_loop A fuel st a p pos n limit res true = (st', p', r) →
  read_outcome st st' a p p' pos n (r - res).
Proof.
  revert st a p pos n res. induction fuel as [|fuel IH];
    intros st a p pos n res Ha Ha' Hpart Hn Hf Hlim Hp Hp' Hres H; cbn [parts_loop] in H.
  { simplify_eq. split_and!; try done; lia. }
  destruct (Z.leb_spec n 0).
  { simplify_eq. split_and!; try done; lia. }
  set (ps := Z.min limit n) in *. assert (Hps : 0 < ps ≤ n ∧ ps < 2 ^ 16) by lia. clearbody ps.
  destruct (__amdgpu_eeprom_xfer _ _ _ _ _ _ _) as [[st1 p1] r1] eqn:E.
  apply __eeprom_read_outcome in E as (Hle1 & Hl1 & Hm1 & Hk1 & Hr1 & Hrel1);
    [|lia|lia|by apply in_part_prefix with n; [lia|]|lia..].
  destruct (Z.ltb_spec r1 0).
  { simplify_eq. split_and!; try done; [lia|lia|]. intros ?. specialize (Hrel1 _). lia. }
  rewrite wrap_small in H by (unfold in_width; lia).
  apply IH in H as (Hle2 & Hl2 & Hm2 & Hk2 & Hr2 & Hrel2);
    [|lia|lia|by apply in_part_tail; [lia|]|lia..].
  split_and!; [lia|by rewrite Hl2|intros x; by rewrite Hm2| | |].
  - intros i Hi. rewrite Hk2 by lia. by apply Hk1.
  - intros Hr i Hi. destruct (decide (i < ps)).
    + rewrite Hk2 by lia. apply Hr1; lia.
    + replace (pos + i) with (pos + ps + (i - ps)) by lia. rewrite Hr2 by lia. rewrite Hm1. f_equal. lia.
  - intros ?. specialize (Hrel1 _). specialize (Hrel2 _). lia.
Qed.

(** [amdgpu_eeprom_write] and [amdgpu_eeprom_read], for the sizes the adapter
    takes. *)
Lemma eeprom_write_outcome st a p n st' r :
  size_ok A false n → 0 ≤ a → a + n ≤ 2 ^ 19 → 0 ≤ n ≤ Z.of_nat (length p) →
  amdgpu_eeprom_write A st a p n = (st', r) → write_outcome st st' a p 0 n r.
Proof.
  unfold size_ok, amdgpu_eeprom_write, amdgpu_eeprom_xfer. intros Hok Ha Ha' Hn H.
  assert (Hone : n < 2 ^ 16 → (let '(st, _, r) := __amdgpu_eeprom_xfer A st a p 0 n false in (st, r)) = (st', r) →
    write_outcome st st' a p 0 n r).
  { intros Hlt Hx. destruct (__amdgpu_eeprom_xfer _ _ _ _ _ _ _) as [[st1 p1] r1] eqn:E. simplify_eq.
    by apply __eeprom_write_outcome in E as [_ ?]; [|lia..]. }
  destruct (quirks A) as [q|]; [|by apply Hone].
  cbv beta iota zeta in H, Hok. destruct Hok as [[Hz Hlt]|Hlim]; [rewrite Hz in H; by apply Hone|].
  unfold EEPROM_OFFSET_SIZE in H.
  branch_in H. branch_in H.
  destruct (parts_loop _ _ _ _ _ _ _ _ _ _) as [[st1 p1] r1] eqn:E. simplify_eq.
  apply write_parts in E; [|lia..]. by rewrite Z.sub_0_r in E.
Qed.

Lemma eeprom_read_outcome st a p n st' p' r :
  size_ok A true n → 0 ≤ a → a + n ≤ 2 ^ 19 → in_part a n → 0 ≤ n ≤ Z.of_nat (length p) →
  amdgpu_eeprom_read A st a p n = (st', p', r) → read_outcome st st' a p p' 0 n r.
Proof.
  unfold size_ok, amdgpu_eeprom_read, amdgpu_eeprom_xfer. intros Hok Ha Ha' Hpart Hn H.
  assert (Hone : n < 2 ^ 16 → __amdgpu_eeprom_xfer A st a p 0 n true = (st', p', r) →
    read_outcome st st' a p p' 0 n r).
  { intros Hlt Hx. by apply __eeprom_read_outcome in Hx; [|lia|lia|done|lia..]. }
  destruct (quirks A) as [q|]; [|by apply Hone].
  cbv beta iota zeta in H, Hok. destruct Hok as [[Hz Hlt]|Hlim]; [rewrite Hz in H; by apply Hone|].
  unfold EEPROM_OFFSET_SIZE in H.
  branch_in H. branch_in H. apply read_parts in H; [|lia|lia|done|lia..]. by rewrite Z.sub_0_r in H.
Qed.
End Spec.

(** ** A device for concrete runs

    The cells that were written, the others erased.  As the data sheets say, the
    address counter stays in the page on a write and in the part on a read.  The
    bus has no limit of its own when [limit] is 0. *)

Abbreviation ram := (gmap Z Z).
Definition ram_byte (s : ram) (x : Z) : Z := default 255 (s !! x).
Definition roll (size a i : Z) : Z := a - a `mod` size + (a + i) `mod` size.

Fixpoint ram_store (s : ram) (a i : Z) (d : list Z) : ram :=
  match d with
  | [] => s
  | x :: d => ram_store (<[roll 256 a i := x]> s) a (i + 1) d
  end.

Definition ram_transfer (s : ram) (m0 m1 : i2c_msg) : ram * Z * list Z :=
  let a := msg_maddr m0 in
  if msg_flags m1 =? I2C_M_RD
  then (s, 2, (λ i, ram_byte s (roll (2 ^ 18) a i)) <$> seqZ 0 (msg_len m1))
  else (ram_store s a 0 (msg_buf m1), 2, msg_buf m1).

Definition ram_adapter (limit : Z) : i2c_adapter ram :=
  mk_adapter (if limit =? 0 then None else Some (mk_quirks limit limit)) ram_transfer.

Lemma roll_small size a i : 0 < size → 0 ≤ i → a `mod` size + i < size → roll size a i = a + i.
Proof.
  intros Hs Hi H. unfold roll. pose proof (Z.mod_pos_bound a size Hs).
  rewrite <- Z.add_mod_idemp_l, (Z.mod_small (_ + _)) by lia. lia.
Qed.

Lemma ram_store_byte s a i d x :
  0 ≤ i → a `mod` 256 + i + Z.of_nat (length d) ≤ 256 →
  ram_byte (ram_store s a i d) x =
  if decide (a + i ≤ x < a + i + Z.of_nat (length d)) then byte_at d (x - (a + i)) else ram_byte s x.
Proof.
  revert s i. induction d as [|y d IH]; intros s i Hi H; cbn [ram_store length].
  { by rewrite decide_False by lia. }
  cbn [length] in H. rewrite IH by lia. rewrite roll_small by lia.
  destruct (decide (x = a + i)) as [->|Hne].
  - rewrite decide_False, decide_True by lia. unfold ram_byte. rewrite lookup_insert_eq.
    by replace (a + i - (a + i)) with 0 by lia.
  - destruct (decide (a + (i + 1) ≤ _ < _)).
    + rewrite decide_True by lia. unfold byte_at.
      replace (Z.to_nat (x - (a + i))) with (S (Z.to_nat (x - (a + (i + 1))))) by lia. done.
    + rewrite decide_False by lia. unfold ram_byte. by rewrite lookup_insert_ne by done.
Qed.

#[export] Instance ram_device limit : EepromDevice (ram_adapter limit) ram_byte.
Proof.
  split; intros s m0 m1 s' r b H (_ & _ & _ & _ & Hpos & Hl) Hf Hp; simpl in H; unfold ram_transfer in H;
    rewrite Hf in H; simpl in H; simplify_eq.
  - split.
    + intros x Hx. rewrite ram_store_byte by lia. by rewrite decide_False by lia.
    + intros _ i Hi. rewrite ram_store_byte by lia. rewrite decide_True by lia. f_equal. lia.
  - split_and!; [done|by rewrite length_fmap, length_seqZ|]. intros _.
    apply byte_at_ext; [by rewrite length_mem_range, length_fmap, length_seqZ|].
    intros i Hi. rewrite length_fmap, length_seqZ in Hi. rewrite byte_at_mem_range by lia.
    unfold byte_at. rewrite list_lookup_fmap, lookup_seqZ_lt by lia. simpl.
    rewrite roll_small by lia. f_equal. lia.
Qed.

#[export] Instance ram_reliable limit : ReliableBus (ram_adapter limit).
Proof. intros s m0 m1. simpl. unfold ram_transfer. by destruct (_ =? _). Qed.

(** ** Properties *)

(** C25. Transfers are the reads and writes of a flat memory.  For any size below
    64 KiB, or any size when the adapter limits its messages (from 64 KiB on without
    limits [eeprom_size_truncated] holds), and any range in one part of the device, a
    write that reports
    all its bytes has stored exactly them, a read that reports all its bytes has
    returned what is stored and changed nothing, whatever happens no byte outside
    the range is changed, and on a bus without errors all bytes are done. *)
Theorem eeprom_flat_memory {D} (A : i2c_adapter D) (mem : D → Z → Z) st a p :
  let n := Z.of_nat (length p) in
  EepromDevice A mem → size_ok A true n → size_ok A false n →
  0 ≤ a → a + n ≤ 2 ^ 19 → in_part a n →
  (let '(st', r) := amdgpu_eeprom_write A st a p n in
   (∀ x, ¬ a ≤ x < a + n → mem st' x = mem st x) ∧ r ≤ n ∧
   (r = n → mem_range (mem st') a n = p) ∧ (ReliableBus A → r = n)) ∧
  (let '(st', p', r) := amdgpu_eeprom_read A st a p n in
   (∀ x, mem st' x = mem st x) ∧ r ≤ n ∧
   (r = n → p' = mem_range (mem st) a n) ∧ (ReliableBus A → r = n)).
Proof.
  intros n Hdev Hr Hw Ha Ha' Hpart. split.
  - destruct (amdgpu_eeprom_write _ _ _ _ _) as [st' r] eqn:E.
    apply (eeprom_write_outcome A mem) in E as (Hle & Ho & Hd & Hrel); [|done|lia..].
    split_and!; [done|done| |done]. intros Hrn. apply byte_at_ext; [by rewrite length_mem_range; unfold n; lia|].
    intros i Hi. rewrite length_mem_range in Hi. rewrite byte_at_mem_range, Hd by lia. done.
  - destruct (amdgpu_eeprom_read _ _ _ _ _) as [[st' p'] r] eqn:E.
    apply (eeprom_read_outcome A mem) in E as (Hle & Hl & Hm & _ & Hd & Hrel); [|done|lia|lia|done|lia..].
    split_and!; [done|done| |done]. intros Hrn. apply byte_at_ext; [by rewrite length_mem_range; unfold n; lia|].
    intros i Hi. rewrite Hl in Hi. rewrite byte_at_mem_range by lia. by apply Hd.
Qed.

(** Two writes across a page, through an adapter that takes 100 bytes at once. *)
Lemma eeprom_flat_memory_witness :
  let p := seqZ 1 300 in let A := ram_adapter 102 in
  (amdgpu_eeprom_write A ∅ 200 p 300).2 = 300 ∧
  mem_range (ram_byte (amdgpu_eeprom_write A ∅ 200 p 300).1) 200 300 = p.
Proof.
  cbv zeta. pose proof (eeprom_flat_memory (ram_adapter 102) ram_byte ∅ 200 (seqZ 1 300) _) as H.
  rewrite length_seqZ in H. change (Z.of_nat (Z.to_nat 300)) with 300 in H.
  destruct H as [H _]; [right; simpl; lia|right; simpl; lia|lia|lia|by vm_compute|].
  destruct (amdgpu_eeprom_write _ _ _ _ _) as [st' r]. destruct H as (_ & _ & Hr & Hrel).
  specialize (Hrel _). split; [done|by apply Hr].
Defined.

(** Without any law of the device, no more bytes are reported than asked for. *)
Lemma xfer_loop_pos {D} (A : i2c_adapter D) fuel st a p pos n r read st' p' pos' r' :
  0 ≤ n < 2 ^ 16 → xfer_loop A fuel st a p pos n r read = (st', p', pos', r') → pos' ≤ pos + n.
Proof.
  revert st a p pos n r. induction fuel as [|fuel IH]; intros st a p pos n r Hn H; cbn [xfer_loop] in H.
  { simplify_eq. lia. }
  destruct (Z.leb_spec n 0); [simplify_eq; lia|].
  pose proof (page_len a n ltac:(lia)) as Hlen. simpl in Hlen. revert H Hlen.
  generalize (Z.min (EEPROM_PAGE_SIZE - Z.land a EEPROM_PAGE_MASK) n) as len. intros len H [Hlen _].
  assert (Hl : 0 < (if read then n else len) ≤ n) by (destruct read; lia). revert H Hl.
  generalize (if read then n else len) as l. intros l H Hl.
  rewrite (surjective_pairing (xfer_msgs _ _ _ _ _)) in H.
  destruct (i2c_transfer A _ _ _) as [[st1 r1] b]. branch_in H; [simplify_eq; lia|].
  rewrite (wrap_small 16) in H by (unfold in_width; lia). apply IH in H; lia.
Qed.

(** C38. Without limits of the adapter the size of a transfer is cut to 16 bits.
    For [n] from 2^16 on the transfer is the one of [n mod 2^16] bytes, and never
    reports [n]: callers, who compare with [n], see a short transfer whatever the
    device does. *)
Theorem eeprom_size_truncated {D} (A : i2c_adapter D) st a p n read :
  quirks A = None → 2 ^ 16 ≤ n →
  amdgpu_eeprom_xfer A st a p n read = amdgpu_eeprom_xfer A st a p (n `mod` 2 ^ 16) read ∧
  (amdgpu_eeprom_xfer A st a p n read).2 < n.
Proof.
  intros Hq Hn. pose proof (Z.mod_pos_bound n (2 ^ 16) ltac:(lia)) as Hm.
  unfold amdgpu_eeprom_xfer, __amdgpu_eeprom_xfer. rewrite Hq, Z.eqb_refl.
  change (n `mod` 2 ^ 16) with (u16 n). rewrite wrap_wrap by lia. split; [done|].
  destruct (xfer_loop _ _ _ _ _ _ _ _ _) as [[[st1 p1] pos1] r1] eqn:E. simpl.
  apply xfer_loop_pos in E; [|exact Hm]. unfold wrap in E. branch.
Qed.

Lemma eeprom_size_truncated_witness :
  (amdgpu_eeprom_xfer (ram_adapter 0) ∅ 0 [] (2 ^ 16) true).2 = 0 ∧
  (amdgpu_eeprom_xfer (ram_adapter 0) ∅ 0 [] (2 ^ 16) true).2 < 2 ^ 16.
Proof. split; [reflexivity|]. apply (eeprom_size_truncated (ram_adapter 0)); [done|lia]. Defined.
