(* ===== verification/RasEeprom.v ===== *)
(** * The bad page table of the RAS EEPROM

    [amdgpu_ras_eeprom.c]: the table of retired pages a device keeps in its
    EEPROM, a header, from version 2.1 on information about the health of the
    device, and a ring of records of 24 bytes.  The control structure is in
    [struct amdgpu_ras], the state of all operations here, together with the bus
    and what is told to the power management firmware. *)

From Stdlib Require Import String.
From S2P Require Import Prelude Eeprom.
#[local] Open Scope Z_scope.
#[local] Open Scope list_scope.

(** ** Layout *)

Definition EEPROM_I2C_MADDR_0 : Z := 0x0.
Definition EEPROM_I2C_MADDR_4 : Z := 0x40000.
Definition RAS_TABLE_HEADER_SIZE : Z := 20.
Definition RAS_TABLE_RECORD_SIZE : Z := 24.
Definition RAS_TABLE_HDR_VAL : Z := 0x414d4452.
Definition RAS_TABLE_HDR_BAD : Z := 0x42414447.
Definition RAS_TBL_SIZE_BYTES : Z := 256 * 1024.
Definition RAS_HDR_START : Z := 0.
Definition RAS_RECORD_START : Z := RAS_HDR_START + RAS_TABLE_HEADER_SIZE.
Definition RAS_MAX_RECORD_COUNT : Z :=
  (RAS_TBL_SIZE_BYTES - RAS_TABLE_HEADER_SIZE) / RAS_TABLE_RECORD_SIZE.
Definition RAS_TABLE_V2_1_INFO_SIZE : Z := 256.
Definition RAS_TABLE_V2_1_INFO_START : Z := RAS_TABLE_HEADER_SIZE.
Definition RAS_RECORD_START_V2_1 : Z :=
  RAS_HDR_START + RAS_TABLE_HEADER_SIZE + RAS_TABLE_V2_1_INFO_SIZE.
Definition RAS_MAX_RECORD_COUNT_V2_1 : Z :=
  (RAS_TBL_SIZE_BYTES - RAS_TABLE_HEADER_SIZE - RAS_TABLE_V2_1_INFO_SIZE) / RAS_TABLE_RECORD_SIZE.
Definition RAS_TABLE_VER_V1 : Z := 0x00010000.
Definition RAS_TABLE_VER_V2_1 : Z := 0x00021000.
Definition GPU_HEALTH_USABLE : Z := 0.
Definition GPU_RETIRED__ECC_REACH_THRESHOLD : Z := 2.

(** ** Data *)

Record amdgpu_ras_eeprom_table_header := mk_header {
  header : Z; version : Z; first_rec_offset : Z; tbl_size : Z; checksum : Z }.
#[export] Instance eta_header : Eta amdgpu_ras_eeprom_table_header := λ h,
  mk_header (header h) (version h) (first_rec_offset h) (tbl_size h) (checksum h).

Record amdgpu_ras_eeprom_table_ras_info := mk_ras_info {
  rma_status : Z; health_percent : Z; ecc_page_threshold : Z; padding : list Z }.
#[export] Instance eta_ras_info : Eta amdgpu_ras_eeprom_table_ras_info := λ i,
  mk_ras_info (rma_status i) (health_percent i) (ecc_page_threshold i) (padding i).

Record amdgpu_ras_eeprom_control := mk_control {
  tbl_hdr : amdgpu_ras_eeprom_table_header;
  tbl_rai : amdgpu_ras_eeprom_table_ras_info;
  i2c_address : Z;
  ras_header_offset : Z;
  ras_info_offset : Z;
  ras_record_offset : Z;
  ras_num_recs : Z;
  ras_fri : Z;
  ras_max_record_count : Z;
  bad_channel_bitmap : Z;
}.
#[export] Instance eta_control : Eta amdgpu_ras_eeprom_control := λ c,
  mk_control (tbl_hdr c) (tbl_rai c) (i2c_address c) (ras_header_offset c) (ras_info_offset c)
    (ras_record_offset c) (ras_num_recs c) (ras_fri c) (ras_max_record_count c) (bad_channel_bitmap c).

(** The control structure of a new device is zero. *)
Definition control_zero : amdgpu_ras_eeprom_control :=
  mk_control (mk_header 0 0 0 0 0) (mk_ras_info 0 0 0 (replicate 63 0)) 0 0 0 0 0 0 0 0.

(** [rec_offset] is [offset], the union with [address], and [bank] the one with
    [cu]. *)
Record eeprom_table_record := mk_record {
  rec_offset : Z; retired_page : Z; ts : Z; err_type : Z; bank : Z; mem_channel : Z; mcumc_id : Z }.
Definition record_zero : eeprom_table_record := mk_record 0 0 0 0 0 0 0.

(** [bps_space] is the number of records [bps] has room for; [bps] lists those
    that were stored. *)
Record ras_err_handler_data := mk_eh_data {
  bps : list eeprom_table_record; bps_space : Z; count : Z; space_left : Z }.
#[export] Instance eta_eh_data : Eta ras_err_handler_data := λ d,
  mk_eh_data (bps d) (bps_space d) (count d) (space_left d).

(** What is sent to the power management firmware. *)
Inductive dpm_msg :=
  | hbm_bad_pages_num (n : Z)
  | hbm_bad_channel_flag (bitmap : Z).

Record amdgpu_ras (D : Type) := mk_ras {
  bus : D;                               (* behind adev->pm.ras_eeprom_i2c_bus *)
  eeprom_control : amdgpu_ras_eeprom_control;
  eh_data : option ras_err_handler_data;
  bad_page_cnt_threshold : Z;
  update_channel_flag : bool;
  dpm_log : list dpm_msg;
}.
Arguments mk_ras {D}.
Arguments bus {D}.
Arguments eeprom_control {D}.
Arguments eh_data {D}.
Arguments bad_page_cnt_threshold {D}.
Arguments update_channel_flag {D}.
Arguments dpm_log {D}.
#[export] Instance eta_ras {D} : Eta (amdgpu_ras D) := λ c,
  mk_ras (bus c) (eeprom_control c) (eh_data c) (bad_page_cnt_threshold c)
    (update_channel_flag c) (dpm_log c).

(** Where memory is allocated. *)
Inductive alloc_site :=
  | write_info_buf | append_buf | update_buf | read_buf | verify_buf | read_info_buf
  | load_bps | eh_data_bps | eh_data_alloc.

(** The device and the module parameters.  [ras_rom_addr] is the answer of
    [amdgpu_atomfirmware_ras_rom_addr], [set_version] the hook of the memory
    controller, [umc.ras->set_eeprom_table_version]. *)
Record ras_env := mk_ras_env {
  mp1_version : Z;
  is_app_apu : bool;
  is_vega20 : bool;
  vbios_pn : string;
  ras_rom_addr : option Z;
  i2c_ready : bool;
  set_version : option (amdgpu_ras_eeprom_table_header → amdgpu_ras_eeprom_table_header);
  amdgpu_bad_page_threshold : Z;
  mc_vram_size : Z;
  ras_enabled : bool;
  is_sriov_vf : bool;
  pending_reset : bool;
  retire_unit : Z;
  umc_ras_feature : bool;                (* BIT(AMDGPU_RAS_BLOCK__UMC) of features *)
  alloc_ok : alloc_site → bool;
}.

(** [umc_v8_10.c]. *)
Definition umc_v8_10_set_eeprom_table_version (hdr : amdgpu_ras_eeprom_table_header)
    : amdgpu_ras_eeprom_table_header := hdr <| version := RAS_TABLE_VER_V2_1 |>.

(** ** Bytes *)

(** The bytes of a little-endian number, and the number of some bytes. *)
Fixpoint le_bytes (n : nat) (z : Z) : list Z :=
  match n with O => [] | S n => u8 z :: le_bytes n (Z.shiftr z 8) end.
Fixpoint le_value (l : list Z) : Z :=
  match l with [] => 0 | b :: l => b + le_value l * 2 ^ 8 end.

(** [csum += *pp] over a buffer, in a [u8]. *)
Definition byte_sum (l : list Z) : Z := fold_left (λ csum b, u8 (csum + b)) l 0.

Definition __encode_table_header_to_buf (hdr : amdgpu_ras_eeprom_table_header) : list Z :=
  le_bytes 4 (header hdr) ++ le_bytes 4 (version hdr) ++ le_bytes 4 (first_rec_offset hdr) ++
  le_bytes 4 (tbl_size hdr) ++ le_bytes 4 (checksum hdr).

Definition __decode_table_header_from_buf (buf : list Z) : amdgpu_ras_eeprom_table_header :=
  let word i := le_value (bytes buf (4 * i) 4) in
  mk_header (word 0) (word 1) (word 2) (word 3) (word 4).

Definition __encode_table_ras_info_to_buf (rai : amdgpu_ras_eeprom_table_ras_info) (buf : list Z) : list Z :=
  let tmp := Z.lor (Z.lor (Z.land (rma_status rai) 0xFF)
                          (Z.land (u32 (Z.shiftl (health_percent rai) 8)) 0xFF00))
                   (Z.land (u32 (Z.shiftl (ecc_page_threshold rai) 16)) 0xFFFF0000) in
  list_inserts 0 (le_bytes 4 tmp) buf.

Definition __decode_table_ras_info_from_buf (rai : amdgpu_ras_eeprom_table_ras_info) (buf : list Z)
    : amdgpu_ras_eeprom_table_ras_info :=
  let tmp := le_value (bytes buf 0 4) in
  rai <| rma_status := Z.land tmp 0xFF |> <| health_percent := Z.land (Z.shiftr tmp 8) 0xFF |>
      <| ecc_page_threshold := Z.land (Z.shiftr tmp 16) 0xFFFF |>.

Definition __encode_table_record_to_buf (record : eeprom_table_record) : list Z :=
  [u8 (err_type record)] ++ [u8 (bank record)] ++ take 8 (le_bytes 8 (ts record)) ++
  take 6 (le_bytes 8 (Z.land (rec_offset record) 0xffffffffffff)) ++
  [u8 (mem_channel record)] ++ [u8 (mcumc_id record)] ++
  take 6 (le_bytes 8 (Z.land (retired_page record) 0xffffffffffff)).

(** [tmp] keeps its upper bytes from one [memcpy] to the next. *)
Definition __decode_table_record_from_buf (buf : list Z) : eeprom_table_record :=
  let tmp := bytes buf 2 8 in
  let ts := le_value tmp in
  let tmp := bytes buf 10 6 ++ drop 6 tmp in
  let offset := Z.land (le_value tmp) 0xffffffffffff in
  let tmp := bytes buf 18 6 ++ drop 6 tmp in
  mk_record offset (Z.land (le_value tmp) 0xffffffffffff) ts
    (byte_at buf 0) (byte_at buf 1) (byte_at buf 16) (byte_at buf 17).

(** Bytes of the structures in memory; their sum does not depend on the order. *)
Definition __calc_hdr_byte_sum (control : amdgpu_ras_eeprom_control) : Z :=
  let h := tbl_hdr control in
  byte_sum (le_bytes 4 (header h) ++ le_bytes 4 (version h) ++ le_bytes 4 (first_rec_offset h) ++
            le_bytes 4 (tbl_size h)).

Definition __calc_ras_info_byte_sum (control : amdgpu_ras_eeprom_control) : Z :=
  let i := tbl_rai control in
  byte_sum ([u8 (rma_status i)] ++ [u8 (health_percent i)] ++ le_bytes 2 (ecc_page_threshold i) ++
            concat (le_bytes 4 <$> padding i)).

(** ** Indices *)

Definition RAS_INDEX_TO_OFFSET (control : amdgpu_ras_eeprom_control) (n : Z) : Z :=
  u32 (ras_record_offset control + n * RAS_TABLE_RECORD_SIZE).
Definition RAS_OFFSET_TO_INDEX (control : amdgpu_ras_eeprom_control) (o : Z) : Z :=
  u32 (o - ras_record_offset control) / RAS_TABLE_RECORD_SIZE.
Definition RAS_NUM_RECS (hdr : amdgpu_ras_eeprom_table_header) : Z :=
  u32 (tbl_size hdr - RAS_TABLE_HEADER_SIZE) / RAS_TABLE_RECORD_SIZE.
Definition RAS_NUM_RECS_V2_1 (hdr : amdgpu_ras_eeprom_table_header) : Z :=
  u32 (tbl_size hdr - RAS_TABLE_HEADER_SIZE - RAS_TABLE_V2_1_INFO_SIZE) / RAS_TABLE_RECORD_SIZE.

(** What callers make of the number of bytes done: 0, [-EIO] for a short
    transfer, or the error. *)
Definition io_result (res size : Z) : Z :=
  if res <? 0 then res else if res <? size then -EIO else 0.

(** ** Operations *)

Section Ops.
Context {D : Type} (A : i2c_adapter D) (env : ras_env).
Abbreviation ras := (amdgpu_ras D).

(** [con->eeprom_control] and [con->eeprom_control.tbl_hdr] changed. *)
Definition set_control (f : amdgpu_ras_eeprom_control → amdgpu_ras_eeprom_control) (con : ras) : ras :=
  con <| eeprom_control := f (eeprom_control con) |>.
Definition set_hdr (f : amdgpu_ras_eeprom_table_header → amdgpu_ras_eeprom_table_header) : ras → ras :=
  set_control (λ c, c <| tbl_hdr := f (tbl_hdr c) |>).
Definition set_rai (f : amdgpu_ras_eeprom_table_ras_info → amdgpu_ras_eeprom_table_ras_info) : ras → ras :=
  set_control (λ c, c <| tbl_rai := f (tbl_rai c) |>).
Definition dpm_send (m : dpm_msg) (con : ras) : ras := con <| dpm_log := dpm_log con ++ [m] |>.

(** [amdgpu_eeprom_write] and [amdgpu_eeprom_read] at an offset of the table. *)
Definition table_write (con : ras) (off : Z) (buf : list Z) (n : Z) : ras * Z :=
  let '(st, res) :=
    amdgpu_eeprom_write A (bus con) (u32 (i2c_address (eeprom_control con) + off)) buf n in
  (con <| bus := st |>, res).
Definition table_read (con : ras) (off : Z) (buf : list Z) (n : Z) : ras * list Z * Z :=
  let '(st, buf, res) :=
    amdgpu_eeprom_read A (bus con) (u32 (i2c_address (eeprom_control con) + off)) buf n in
  (con <| bus := st |>, buf, res).

Definition __is_ras_eeprom_supported : bool :=
  let v := mp1_version env in
  if (v =? IP_VERSION 11 0 2) || (v =? IP_VERSION 11 0 7) || (v =? IP_VERSION 13 0 0) ||
     (v =? IP_VERSION 13 0 2) || (v =? IP_VERSION 13 0 10) then true
  else if v =? IP_VERSION 13 0 6 then negb (is_app_apu env)
  else false.

Definition strnstr (s pat : string) : bool :=
  match index 0 pat s with Some _ => true | None => false end.

(** The EEPROM address of the table. *)
Definition __get_eeprom_i2c_addr : option Z :=
  match ras_rom_addr env with
  | Some i2c_addr => Some (Z.shiftl (Z.shiftr (Z.land i2c_addr 0x0F) 1) 16)
  | None =>
      let v := mp1_version env in
      let pn := vbios_pn env in
      if v =? IP_VERSION 11 0 2 then
        if is_vega20 env then Some EEPROM_I2C_MADDR_0
        else if strnstr pn "D342" then Some EEPROM_I2C_MADDR_0
        else Some EEPROM_I2C_MADDR_4
      else if v =? IP_VERSION 11 0 7 then Some EEPROM_I2C_MADDR_0
      else if v =? IP_VERSION 13 0 2 then
        if strnstr pn "D673" then Some EEPROM_I2C_MADDR_4 else Some EEPROM_I2C_MADDR_0
      else if v =? IP_VERSION 13 0 0 then
        if strnstr pn "D707" then Some EEPROM_I2C_MADDR_0 else Some EEPROM_I2C_MADDR_4
      else if (v =? IP_VERSION 13 0 6) || (v =? IP_VERSION 13 0 10) then Some EEPROM_I2C_MADDR_4
      else None
  end.

Definition __write_table_header (con : ras) : ras * Z :=
  let c := eeprom_control con in
  let buf := __encode_table_header_to_buf (tbl_hdr c) in
  let '(con, res) := table_write con (ras_header_offset c) buf RAS_TABLE_HEADER_SIZE in
  (con, io_result res RAS_TABLE_HEADER_SIZE).

Definition __write_table_ras_info (con : ras) : ras * Z :=
  let c := eeprom_control con in
  if negb (alloc_ok env write_info_buf) then (con, -ENOMEM) else
  let buf := __encode_table_ras_info_to_buf (tbl_rai c) (replicate 256 0) in
  let '(con, res) := table_write con (ras_info_offset c) buf RAS_TABLE_V2_1_INFO_SIZE in
  (con, io_result res RAS_TABLE_V2_1_INFO_SIZE).

(** Stores the header, and the RAS info with versions that have one. *)
Definition write_tables (con : ras) : ras * Z :=
  let '(con, res) := __write_table_header con in
  if (res =? 0) && (RAS_TABLE_VER_V1 <? version (tbl_hdr (eeprom_control con)))
  then __write_table_ras_info con else (con, res).

Definition amdgpu_ras_eeprom_correct_header_tag (con : ras) (hdr_tag : Z) : ras * Z :=
  let hdr := tbl_hdr (eeprom_control con) in
  let csum := u8 (- checksum hdr) in
  let csum := u8 (csum - foldr Z.add 0 (le_bytes 4 (header hdr))) in
  let csum := u8 (csum + foldr Z.add 0 (le_bytes 4 hdr_tag)) in
  let csum := u8 (- csum) in
  let con := set_hdr (λ h, h <| header := hdr_tag |> <| checksum := csum |>) con in
  __write_table_header con.

Definition amdgpu_ras_eeprom_reset_table (con : ras) : ras * Z :=
  let con := set_hdr (λ h, h <| header := RAS_TABLE_HDR_VAL |>) con in
  let con := set_hdr (λ h, match set_version env with
                           | Some f => f h
                           | None => h <| version := RAS_TABLE_VER_V1 |>
                           end) con in
  let v2_1 := version (tbl_hdr (eeprom_control con)) =? RAS_TABLE_VER_V2_1 in
  let con :=
    if v2_1 then
      set_rai (λ i, i <| rma_status := GPU_HEALTH_USABLE |> <| health_percent := 100 |>
                      <| ecc_page_threshold := u16 (bad_page_cnt_threshold con) |>)
        (set_hdr (λ h, h <| first_rec_offset := RAS_RECORD_START_V2_1 |>
                         <| tbl_size := RAS_TABLE_HEADER_SIZE + RAS_TABLE_V2_1_INFO_SIZE |>) con)
    else
      set_hdr (λ h, h <| first_rec_offset := RAS_RECORD_START |>
                      <| tbl_size := RAS_TABLE_HEADER_SIZE |>) con in
  let csum := __calc_hdr_byte_sum (eeprom_control con) in
  let csum := if v2_1 then u8 (csum + __calc_ras_info_byte_sum (eeprom_control con)) else csum in
  let con := set_hdr (λ h, h <| checksum := u8 (- csum) |>) con in
  let '(con, res) := write_tables con in
  let con := set_control (λ c, c <| ras_num_recs := 0 |> <| ras_fri := 0 |>) con in
  let con := dpm_send (hbm_bad_pages_num 0) con in
  let con := set_control (λ c, c <| bad_channel_bitmap := 0 |>) con in
  let con := dpm_send (hbm_bad_channel_flag 0) con in
  (con <| update_channel_flag := false |>, res).

Definition amdgpu_ras_eeprom_check_err_threshold (con : ras) : bool :=
  if negb __is_ras_eeprom_supported || (amdgpu_bad_page_threshold env =? 0) then false
  else if negb (umc_ras_feature env) then false
  else if header (tbl_hdr (eeprom_control con)) =? RAS_TABLE_HDR_BAD
  then negb (amdgpu_bad_page_threshold env =? -1)
  else false.

Definition __amdgpu_ras_eeprom_write (con : ras) (buf : list Z) (fri num : Z) : ras * Z :=
  let buf_size := u32 (num * RAS_TABLE_RECORD_SIZE) in
  let '(con, res) := table_write con (RAS_INDEX_TO_OFFSET (eeprom_control con) fri) buf buf_size in
  (con, io_result res buf_size).

(** The bitmap of channels with bad pages, for one record. *)
Definition update_bad_channel (con : ras) (r : eeprom_table_record) : ras :=
  let bm := bad_channel_bitmap (eeprom_control con) in
  if (mem_channel r <? 32) && (Z.land bm (Z.shiftl 1 (mem_channel r)) =? 0) then
    (set_control (λ c, c <| bad_channel_bitmap := Z.lor bm (Z.shiftl 1 (mem_channel r)) |>) con)
      <| update_channel_flag := true |>
  else con.

Definition set_fri (fri : Z) : ras → ras := set_control (λ c, c <| ras_fri := fri |>).

(** [buf + g0 * RAS_TABLE_RECORD_SIZE]. *)
Definition buf_from (buf : list Z) (g0 : Z) : list Z := drop (Z.to_nat (g0 * RAS_TABLE_RECORD_SIZE)) buf.

(** The writes of [amdgpu_ras_eeprom_append_table], in its three cases: the
    result and the last index written, [None] for [goto Out].  The first case
    goes on whatever the result. *)
Definition append_write (con : ras) (buf : list Z) (num : Z) : ras * Z * option Z :=
  let c := eeprom_control con in
  let N := ras_max_record_count c in
  let a := u32 (ras_fri c + ras_num_recs c) in
  let b := u32 (a + num - 1) in
  if b <? N then
    let '(con, res) := __amdgpu_ras_eeprom_write con buf a num in (con, res, Some b)
  else if a <? N then
    let g0 := N - a in
    let g1 := b `mod` N + 1 in
    let '(con, res) := __amdgpu_ras_eeprom_write con buf a g0 in
    if nz res then (con, res, None) else
    let '(con, res) := __amdgpu_ras_eeprom_write con (buf_from buf g0) 0 g1 in
    if nz res then (con, res, None) else
    (if ras_fri c <? g1 then set_fri (g1 `mod` N) con else con, res, Some b)
  else
    let a := a `mod` N in
    let b := b `mod` N in
    if a <=? b then
      let '(con, res) := __amdgpu_ras_eeprom_write con buf a num in
      if nz res then (con, res, None) else
      (if ras_fri c <=? b then set_fri ((b + 1) `mod` N) con else con, res, Some b)
    else
      let g0 := N - a in
      let g1 := b + 1 in
      let '(con, res) := __amdgpu_ras_eeprom_write con buf a g0 in
      if nz res then (con, res, None) else
      let '(con, res) := __amdgpu_ras_eeprom_write con (buf_from buf g0) 0 g1 in
      if nz res then (con, res, None) else
      (set_fri (g1 `mod` N) con, res, Some b).

(** [ras_num_recs] from the last index written. *)
Definition count_to (b : Z) (c : amdgpu_ras_eeprom_control) : amdgpu_ras_eeprom_control :=
  c <| ras_num_recs :=
    u32 (1 + u32 (ras_max_record_count c + b - ras_fri c) `mod` ras_max_record_count c) |>.

Definition amdgpu_ras_eeprom_append_table (con : ras) (record : list eeprom_table_record) (num : Z)
    : ras * Z :=
  if negb (alloc_ok env append_buf) then (con, -ENOMEM) else
  let buf := concat (__encode_table_record_to_buf <$> record) in
  let con := fold_left update_bad_channel record con in
  match append_write con buf num with
  | (con, res, Some b) => (set_control (count_to b) con, res)
  | (con, res, None) => (con, res)
  end.

(** The steps of [amdgpu_ras_eeprom_update_header]: the tag of a table at its
    threshold, the health of the device, and the checksum over the records in
    [buf]. *)
Definition is_v2_1 (con : ras) : bool := version (tbl_hdr (eeprom_control con)) =? RAS_TABLE_VER_V2_1.

Definition mark_bad (con : ras) : ras :=
  if negb (amdgpu_bad_page_threshold env =? 0) &&
     (bad_page_cnt_threshold con <=? ras_num_recs (eeprom_control con)) then
    let con' := set_hdr (λ h, h <| header := RAS_TABLE_HDR_BAD |>) con in
    if is_v2_1 con then
      set_rai (λ i, i <| rma_status := GPU_RETIRED__ECC_REACH_THRESHOLD |> <| health_percent := 0 |>) con'
    else con'
  else con.

Definition set_table_size (con : ras) : ras :=
  let size := u32 (RAS_TABLE_HEADER_SIZE + (if is_v2_1 con then RAS_TABLE_V2_1_INFO_SIZE else 0) +
                   ras_num_recs (eeprom_control con) * RAS_TABLE_RECORD_SIZE) in
  set_hdr (λ h, h <| tbl_size := size |> <| checksum := 0 |>) con.

Definition update_health (con : ras) : ras :=
  let num := ras_num_recs (eeprom_control con) in
  let thr := bad_page_cnt_threshold con in
  if negb (amdgpu_bad_page_threshold env =? 0) && is_v2_1 con && (num <? thr) then
    set_rai (λ i, i <| health_percent := u8 (u32 ((thr - num) * 100) / thr) |>) con
  else con.

Definition update_checksum (buf : list Z) (con : ras) : ras :=
  let csum := byte_sum buf in
  let csum := u8 (csum + __calc_hdr_byte_sum (eeprom_control con)) in
  let csum :=
    if is_v2_1 con then u8 (csum + __calc_ras_info_byte_sum (eeprom_control con)) else csum in
  set_hdr (λ h, h <| checksum := u8 (- csum) |>) con.

Definition amdgpu_ras_eeprom_update_header (con : ras) : ras * Z :=
  let con := set_table_size (mark_bad con) in
  let c := eeprom_control con in
  let buf_size := u32 (ras_num_recs c * RAS_TABLE_RECORD_SIZE) in
  if negb (alloc_ok env update_buf) then (con, -ENOMEM) else
  let '(con, buf, res) := table_read con (ras_record_offset c) (replicate (Z.to_nat buf_size) 0) buf_size in
  let res := io_result res buf_size in
  if nz res then (con, res) else
  write_tables (update_checksum buf (update_health con)).

Definition amdgpu_ras_eeprom_append (con : ras) (record : list eeprom_table_record) (num : Z) : ras * Z :=
  if negb __is_ras_eeprom_supported then (con, 0)
  else if num =? 0 then (con, -EINVAL)
  else if ras_max_record_count (eeprom_control con) <? num then (con, -EINVAL)
  else
    let '(con, res) := amdgpu_ras_eeprom_append_table con record num in
    if nz res then (con, res) else amdgpu_ras_eeprom_update_header con.

(** Reads to [pos] of the buffer. *)
Definition __amdgpu_ras_eeprom_read (con : ras) (buf : list Z) (pos fri num : Z) : ras * list Z * Z :=
  let buf_size := u32 (num * RAS_TABLE_RECORD_SIZE) in
  let '(con, part, res) := table_read con (RAS_INDEX_TO_OFFSET (eeprom_control con) fri)
                             (drop (Z.to_nat pos) buf) buf_size in
  (con, take (Z.to_nat pos) buf ++ part, io_result res buf_size).

(** The records of a buffer. *)
Fixpoint decode_records (n : nat) (buf : list Z) : list eeprom_table_record :=
  match n with
  | O => []
  | S n => __decode_table_record_from_buf buf :: decode_records n (drop 24 buf)
  end.

(** With the result, the records read. *)
Definition amdgpu_ras_eeprom_read (con : ras) (num : Z) : ras * list eeprom_table_record * Z :=
  if negb __is_ras_eeprom_supported then (con, [], 0)
  else if num =? 0 then (con, [], -EINVAL)
  else if ras_num_recs (eeprom_control con) <? num then (con, [], -EINVAL)
  else if negb (alloc_ok env read_buf) then (con, [], -ENOMEM)
  else
    let c := eeprom_control con in
    let N := ras_max_record_count c in
    let buf := replicate (Z.to_nat (num * RAS_TABLE_RECORD_SIZE)) 0 in
    let g0 := u32 (ras_fri c + num - 1) in
    let '(g0, g1) := if g0 <? N then (num, 0) else (N - ras_fri c, g0 `mod` N + 1) in
    let '(con, buf, res) := __amdgpu_ras_eeprom_read con buf 0 (ras_fri c) g0 in
    if nz res then (con, [], res) else
    let '(con, buf, res) :=
      if nz g1 then __amdgpu_ras_eeprom_read con buf (g0 * RAS_TABLE_RECORD_SIZE) 0 g1
      else (con, buf, 0) in
    if nz res then (con, [], res) else
    let records := decode_records (Z.to_nat num) buf in
    (fold_left update_bad_channel records con, records, 0).

Definition amdgpu_ras_eeprom_max_record_count (con : ras) : Z :=
  if version (tbl_hdr (eeprom_control con)) =? RAS_TABLE_VER_V2_1
  then RAS_MAX_RECORD_COUNT_V2_1 else RAS_MAX_RECORD_COUNT.

(** 0 when the bytes of the table add up to 0. *)
Definition __verify_ras_table_checksum (con : ras) : ras * Z :=
  let c := eeprom_control con in
  let buf_size := s32 (u32 (RAS_TABLE_HEADER_SIZE +
    (if version (tbl_hdr c) =? RAS_TABLE_VER_V2_1 then RAS_TABLE_V2_1_INFO_SIZE else 0) +
    ras_num_recs c * RAS_TABLE_RECORD_SIZE)) in
  if negb (alloc_ok env verify_buf) then (con, -ENOMEM) else
  let '(con, buf, res) := table_read con (ras_header_offset c) (replicate (Z.to_nat buf_size) 0)
                            (u32 buf_size) in
  if res <? buf_size then (con, if 0 <=? res then -EIO else res)
  else (con, byte_sum buf).

Definition __read_table_ras_info (con : ras) : ras * Z :=
  if negb (alloc_ok env read_info_buf) then (con, -ENOMEM) else
  let '(con, buf, res) := table_read con (ras_info_offset (eeprom_control con)) (replicate 256 0)
                            RAS_TABLE_V2_1_INFO_SIZE in
  if res <? RAS_TABLE_V2_1_INFO_SIZE then (con, if 0 <=? res then -EIO else res)
  else (set_rai (λ i, __decode_table_ras_info_from_buf i buf) con, 0).

(** The place of the table and the counts, from the header that was read. *)
Definition init_layout (c : amdgpu_ras_eeprom_control) : amdgpu_ras_eeprom_control :=
  let hdr := tbl_hdr c in
  let c :=
    if version hdr =? RAS_TABLE_VER_V2_1 then
      c <| ras_num_recs := RAS_NUM_RECS_V2_1 hdr |> <| ras_record_offset := RAS_RECORD_START_V2_1 |>
        <| ras_max_record_count := RAS_MAX_RECORD_COUNT_V2_1 |>
    else
      c <| ras_num_recs := RAS_NUM_RECS hdr |> <| ras_record_offset := RAS_RECORD_START |>
        <| ras_max_record_count := RAS_MAX_RECORD_COUNT |> in
  c <| ras_fri := RAS_OFFSET_TO_INDEX c (first_rec_offset hdr) |>.

(** The RAS info of a table that has one. *)
Definition init_read_info (con : ras) : ras * Z :=
  if version (tbl_hdr (eeprom_control con)) =? RAS_TABLE_VER_V2_1
  then __read_table_ras_info con else (con, 0).

(** The result and [*exceed_err_limit]. *)
Definition amdgpu_ras_eeprom_init (con : ras) : ras * Z * bool :=
  if negb __is_ras_eeprom_supported then (con, 0, false)
  else if negb (i2c_ready env) then (con, -ENOENT, false)
  else
  match __get_eeprom_i2c_addr with
  | None => (con, -EINVAL, false)
  | Some addr =>
      let con := set_control (λ c, c <| i2c_address := addr |> <| ras_header_offset := RAS_HDR_START |>
                                     <| ras_info_offset := RAS_TABLE_V2_1_INFO_START |>) con in
      let '(con, buf, res) := table_read con RAS_HDR_START (replicate 20 0) RAS_TABLE_HEADER_SIZE in
      if res <? RAS_TABLE_HEADER_SIZE then (con, if 0 <=? res then -EIO else res, false) else
      let con := set_control (λ c, init_layout (c <| tbl_hdr := __decode_table_header_from_buf buf |>)) con in
      let tag := header (tbl_hdr (eeprom_control con)) in
      let ret (con : ras) (res : Z) (exceed : bool) := (con, if res <? 0 then res else 0, exceed) in
      if tag =? RAS_TABLE_HDR_VAL then
        let '(con, res) := init_read_info con in
        if nz res then (con, res, false) else
        let '(con, res) := __verify_ras_table_checksum con in ret con res false
      else if (tag =? RAS_TABLE_HDR_BAD) && negb (amdgpu_bad_page_threshold env =? 0) then
        let '(con, res) := init_read_info con in
        if nz res then (con, res, false) else
        let '(con, res) := __verify_ras_table_checksum con in
        if ras_num_recs (eeprom_control con) <? bad_page_cnt_threshold con then
          let '(con, res) := amdgpu_ras_eeprom_correct_header_tag con RAS_TABLE_HDR_VAL in ret con res false
        else if amdgpu_bad_page_threshold env =? -1 then ret con 0 false
        else ret con res true
      else
        let '(con, res) := amdgpu_ras_eeprom_reset_table con in ret con res false
  end.
End Ops.
