(* ===== verification/RasCodec.v ===== *)
(** * The bad page table: codecs

    Little-endian bytes, checksums, and the encodings of records, of the header and
    of the RAS info. *)

From S2P Require Import Prelude Eeprom RasEeprom.

(** ** Little-endian bytes *)

Lemma length_le_bytes n z : length (le_bytes n z) = n.
Proof. revert z. induction n; intros; simpl; [done|by f_equal]. Qed.

Lemma le_bytes_width n z : Forall (in_width 8) (le_bytes n z).
Proof. revert z. induction n; intros; simpl; constructor; [by apply wrap_in_width|done]. Qed.

Lemma le_value_le_bytes n z : le_value (le_bytes n z) = wrap (8 * Z.of_nat n) z.
Proof.
  revert z. unfold wrap. induction n as [|n IH]; intros z; [by rewrite Z.mod_1_r|].
  simpl le_bytes. simpl le_value. rewrite IH. unfold wrap. rewrite Z.shiftr_div_pow2 by lia.
  replace (8 * Z.of_nat (S n)) with (8 + 8 * Z.of_nat n) by lia.
  rewrite Z.pow_add_r, Z.rem_mul_r by lia. lia.
Qed.

Lemma le_bytes_le_value l : Forall (in_width 8) l → le_bytes (length l) (le_value l) = l.
Proof.
  induction 1 as [|b l Hb Hl IH]; simpl; [done|]. unfold wrap. f_equal.
  - rewrite Z.mod_add by lia. by apply Z.mod_small.
  - rewrite Z.shiftr_div_pow2, Z.div_add, Z.div_small by (try exact Hb; lia). done.
Qed.

Lemma le_value_app l1 l2 :
  le_value (l1 ++ l2) = le_value l1 + le_value l2 * 2 ^ (8 * Z.of_nat (length l1)).
Proof.
  induction l1 as [|b l IH]; simpl; [lia|]. rewrite IH.
  replace (8 * Z.of_nat (S (length l))) with (8 + 8 * Z.of_nat (length l)) by lia.
  rewrite Z.pow_add_r by lia. lia.
Qed.

Lemma le_value_bound l : Forall (in_width 8) l → 0 ≤ le_value l < 2 ^ (8 * Z.of_nat (length l)).
Proof.
  intros Hl. rewrite <- (le_bytes_le_value l Hl), le_value_le_bytes, length_le_bytes.
  apply wrap_in_width. lia.
Qed.

Lemma le_bytes_wrap n z : le_bytes n (wrap (8 * Z.of_nat n) z) = le_bytes n z.
Proof.
  rewrite <- le_value_le_bytes. rewrite <- (length_le_bytes n z) at 1.
  apply le_bytes_le_value, le_bytes_width.
Qed.

Lemma take_le_bytes k n z : (k ≤ n)%nat → take k (le_bytes n z) = le_bytes k z.
Proof.
  revert n z. induction k as [|k IH]; intros [|n] z H; simpl; [done|done|lia|]. f_equal. apply IH. lia.
Qed.

(** Only the bytes of the value, not of what follows. *)
Lemma land48_low l1 l2 :
  Forall (in_width 8) l1 → length l1 = 6%nat → Z.land (le_value (l1 ++ l2)) 0xffffffffffff = le_value l1.
Proof.
  intros Hl Hn. change 0xffffffffffff with (Z.ones 48). rewrite Z.land_ones by lia.
  rewrite le_value_app, Hn. change (8 * Z.of_nat 6) with 48. rewrite Z.mod_add by lia.
  apply Z.mod_small. pose proof (le_value_bound l1 Hl) as Hb. rewrite Hn in Hb. exact Hb.
Qed.

(** ** Checksums *)

Lemma byte_sum_from c l : fold_left (λ csum b, u8 (csum + b)) l (u8 c) = u8 (c + foldr Z.add 0 l).
Proof.
  revert c. induction l as [|b l IH]; intros c; simpl; [by rewrite Z.add_0_r|].
  replace (u8 (u8 c + b)) with (u8 (c + b)) by (unfold wrap; by rewrite Z.add_mod_idemp_l).
  rewrite IH. f_equal. lia.
Qed.

Lemma byte_sum_eq l : byte_sum l = u8 (foldr Z.add 0 l).
Proof. exact (byte_sum_from 0 l). Qed.

Lemma sum_app l1 l2 : foldr Z.add 0 (l1 ++ l2) = foldr Z.add 0 l1 + foldr Z.add 0 l2.
Proof. induction l1; simpl; lia. Qed.

Lemma sum_zeros n : foldr Z.add 0 (replicate n 0) = 0.
Proof. induction n; simpl; lia. Qed.

Lemma u8_add a b : u8 (u8 a + b) = u8 (a + b).
Proof. unfold wrap. by rewrite Z.add_mod_idemp_l. Qed.

Lemma byte_sum_app l1 l2 : byte_sum (l1 ++ l2) = u8 (byte_sum l1 + byte_sum l2).
Proof. rewrite !byte_sum_eq, sum_app, u8_add. unfold wrap. by rewrite Z.add_mod_idemp_r. Qed.

(** ** Records *)

Definition record_ok (r : eeprom_table_record) : Prop :=
  in_width 48 (rec_offset r) ∧ in_width 48 (retired_page r) ∧ in_width 64 (ts r) ∧
  in_width 8 (err_type r) ∧ in_width 8 (bank r) ∧ in_width 8 (mem_channel r) ∧ in_width 8 (mcumc_id r).

(** A record as the 24 bytes keep it. *)
Definition record_stored (r : eeprom_table_record) : eeprom_table_record :=
  mk_record (wrap 48 (rec_offset r)) (wrap 48 (retired_page r)) (u64 (ts r)) (u8 (err_type r))
    (u8 (bank r)) (u8 (mem_channel r)) (u8 (mcumc_id r)).

Lemma record_stored_id r : record_ok r → record_stored r = r.
Proof.
  intros (? & ? & ? & ? & ? & ? & ?). unfold record_stored. rewrite !wrap_small by done. by destruct r.
Qed.

Lemma encode_eq r :
  __encode_table_record_to_buf r =
  [u8 (err_type r)] ++ [u8 (bank r)] ++ le_bytes 8 (ts r) ++ le_bytes 6 (rec_offset r) ++
  [u8 (mem_channel r)] ++ [u8 (mcumc_id r)] ++ le_bytes 6 (retired_page r).
Proof.
  unfold __encode_table_record_to_buf. change 0xffffffffffff with (Z.ones 48).
  rewrite !Z.land_ones by lia. rewrite !take_le_bytes by lia.
  assert (H : ∀ z, le_bytes 6 (z `mod` 2 ^ 48) = le_bytes 6 z) by exact (le_bytes_wrap 6). by rewrite !H.
Qed.

Lemma length_encode r : length (__encode_table_record_to_buf r) = 24%nat.
Proof. rewrite encode_eq. by rewrite !length_app, !length_le_bytes. Qed.

Lemma encode_width r : Forall (in_width 8) (__encode_table_record_to_buf r).
Proof.
  rewrite encode_eq.
  rewrite !Forall_app. split_and!; try apply le_bytes_width; (apply Forall_singleton, wrap_in_width; lia).
Qed.

Lemma bytes_split (p l q : list Z) pos n :
  length p = Z.to_nat pos → length l = Z.to_nat n → bytes (p ++ l ++ q) pos n = l.
Proof. intros Hp Hl. unfold bytes. rewrite drop_app_length' by done. by apply take_app_length'. Qed.

Lemma Forall_bytes (P : Z → Prop) b i n : Forall P b → Forall P (bytes b i n).
Proof. intros H. by apply Forall_take, Forall_drop. Qed.

Lemma byte_at_width b i : Forall (in_width 8) b → in_width 8 (byte_at b i).
Proof.
  intros H. unfold byte_at. destruct (b !! Z.to_nat i) as [x|] eqn:E; simpl; [|by split].
  by eapply Forall_lookup_1.
Qed.

Lemma decode_encode r :
  __decode_table_record_from_buf (__encode_table_record_to_buf r) = record_stored r.
Proof.
  rewrite encode_eq. unfold __decode_table_record_from_buf, record_stored.
  set (T := le_bytes 8 (ts r)). set (O := le_bytes 6 (rec_offset r)). set (P := le_bytes 6 (retired_page r)).
  assert (HT : bytes ([u8 (err_type r)] ++ [u8 (bank r)] ++ T ++ O ++ [u8 (mem_channel r)] ++
    [u8 (mcumc_id r)] ++ P) 2 8 = T) by (by apply (bytes_split [_; _])).
  assert (HO : bytes ([u8 (err_type r)] ++ [u8 (bank r)] ++ T ++ O ++ [u8 (mem_channel r)] ++
    [u8 (mcumc_id r)] ++ P) 10 6 = O) by (by apply (bytes_split ([_; _] ++ T))).
  assert (HP : bytes ([u8 (err_type r)] ++ [u8 (bank r)] ++ T ++ O ++ [u8 (mem_channel r)] ++
    [u8 (mcumc_id r)] ++ P) 18 6 = P) by reflexivity.
  rewrite HT, HO, HP. rewrite !land48_low by (done || apply le_bytes_width).
  unfold T, O, P. rewrite !le_value_le_bytes. done.
Qed.

Lemma encode_decode b :
  Forall (in_width 8) b → length b = 24%nat →
  __encode_table_record_to_buf (__decode_table_record_from_buf b) = b.
Proof.
  intros Hb Hl. rewrite encode_eq. unfold __decode_table_record_from_buf.
  cbn [rec_offset retired_page ts err_type bank mem_channel mcumc_id].
  assert (H : ∀ i n, (Z.to_nat i + n ≤ 24)%nat → length (bytes b i (Z.of_nat n)) = n
    ∧ le_bytes n (le_value (bytes b i (Z.of_nat n))) = bytes b i (Z.of_nat n)).
  { intros i n Hi. assert (Hn : length (bytes b i (Z.of_nat n)) = n)
      by (unfold bytes; rewrite length_take, length_drop; lia).
    split; [done|]. rewrite <- Hn at 1. apply le_bytes_le_value. by apply Forall_bytes. }
  assert (Hu : ∀ i, 0 ≤ i < 24 → u8 (byte_at b i) = byte_at b i).
  { intros i Hi. apply wrap_small. by apply byte_at_width. }
  rewrite !land48_low by (apply Forall_bytes, Hb || apply (H _ 6%nat); lia). rewrite !Hu by lia.
  assert (H2 : le_bytes 8 (le_value (bytes b 2 8)) = bytes b 2 8) by (apply (H 2 8%nat); lia).
  assert (H10 : le_bytes 6 (le_value (bytes b 10 6)) = bytes b 10 6) by (apply (H 10 6%nat); lia).
  assert (H18 : le_bytes 6 (le_value (bytes b 18 6)) = bytes b 18 6) by (apply (H 18 6%nat); lia).
  rewrite H2, H10, H18.
  clear - Hl. do 24 (destruct b as [|? b]; [done|]). by destruct b.
Qed.

(** ** Header and RAS info *)

Definition header_width (h : amdgpu_ras_eeprom_table_header) : Prop :=
  in_width 32 (header h) ∧ in_width 32 (version h) ∧ in_width 32 (first_rec_offset h) ∧
  in_width 32 (tbl_size h) ∧ in_width 32 (checksum h).

Definition info_width (i : amdgpu_ras_eeprom_table_ras_info) : Prop :=
  in_width 8 (rma_status i) ∧ in_width 8 (health_percent i) ∧ in_width 16 (ecc_page_threshold i) ∧
  padding i = replicate 63 0.

Lemma length_encode_header h : length (__encode_table_header_to_buf h) = 20%nat.
Proof. unfold __encode_table_header_to_buf. by rewrite !length_app, !length_le_bytes. Qed.

Lemma header_roundtrip h :
  header_width h → __decode_table_header_from_buf (__encode_table_header_to_buf h) = h.
Proof.
  intros (H0 & H1 & H2 & H3 & H4). unfold __decode_table_header_from_buf, __encode_table_header_to_buf.
  set (W0 := le_bytes 4 (header h)). set (W1 := le_bytes 4 (version h)).
  set (W2 := le_bytes 4 (first_rec_offset h)). set (W3 := le_bytes 4 (tbl_size h)).
  set (W4 := le_bytes 4 (checksum h)).
  assert (E0 : bytes (W0 ++ W1 ++ W2 ++ W3 ++ W4) (4 * 0) 4 = W0) by reflexivity.
  assert (E1 : bytes (W0 ++ W1 ++ W2 ++ W3 ++ W4) (4 * 1) 4 = W1) by reflexivity.
  assert (E2 : bytes (W0 ++ W1 ++ W2 ++ W3 ++ W4) (4 * 2) 4 = W2) by reflexivity.
  assert (E3 : bytes (W0 ++ W1 ++ W2 ++ W3 ++ W4) (4 * 3) 4 = W3) by reflexivity.
  assert (E4 : bytes (W0 ++ W1 ++ W2 ++ W3 ++ W4) (4 * 4) 4 = W4) by reflexivity.
  rewrite E0, E1, E2, E3, E4. unfold W0, W1, W2, W3, W4. rewrite !le_value_le_bytes.
  change (8 * Z.of_nat 4) with 32. rewrite !wrap_small by done. by destruct h.
Qed.

(** The stored info is the structure in memory. *)
Lemma encode_info_eq i :
  info_width i →
  __encode_table_ras_info_to_buf i (replicate 256 0) =
  [u8 (rma_status i)] ++ [u8 (health_percent i)] ++ le_bytes 2 (ecc_page_threshold i) ++
  concat (le_bytes 4 <$> padding i).
Proof.
  intros (Hr & Hh & Ht & ->). unfold __encode_table_ras_info_to_buf.
  set (tmp := Z.lor _ _).
  assert (Htmp : tmp = le_value ([u8 (rma_status i)] ++ [u8 (health_percent i)] ++
                                 le_bytes 2 (ecc_page_threshold i))).
  { unfold tmp. rewrite !le_value_app, le_value_le_bytes. simpl. rewrite !wrap_small; try done.
    2,3: unfold in_width in *; rewrite Z.shiftl_mul_pow2 by lia; lia.
    change 65280 with (Z.shiftl (Z.ones 8) 8). change 4294901760 with (Z.shiftl (Z.ones 16) 16).
    change 255 with (Z.ones 8). rewrite !land_field, !Z.shiftl_mul_pow2, !Z.div_mul, Z.land_ones by lia.
    rewrite !Z.mod_small by done. unfold in_width in *. rewrite (lor_add (rma_status i)) by lia.
    rewrite lor_add by lia. change (8 * Z.of_nat 1) with 8. lia. }
  rewrite Htmp. change 4%nat with (length ([u8 (rma_status i)] ++ [u8 (health_percent i)] ++
    le_bytes 2 (ecc_page_threshold i))).
  rewrite le_bytes_le_value; [reflexivity|]. rewrite !Forall_app.
  split_and!; try apply le_bytes_width; (apply Forall_singleton, wrap_in_width; lia).
Qed.

Lemma info_roundtrip i i0 :
  info_width i → padding i0 = replicate 63 0 →
  __decode_table_ras_info_from_buf i0 (__encode_table_ras_info_to_buf i (replicate 256 0)) = i.
Proof.
  intros Hi Hp. rewrite encode_info_eq by done. destruct Hi as (Hr & Hh & Ht & Hpad).
  unfold __decode_table_ras_info_from_buf.
  set (tmp := le_value _).
  assert (Htmp : tmp = rma_status i + (health_percent i + ecc_page_threshold i * 2 ^ 8) * 2 ^ 8).
  { unfold tmp. change (bytes _ 0 4) with ([u8 (rma_status i)] ++ [u8 (health_percent i)] ++
      le_bytes 2 (ecc_page_threshold i)). rewrite !le_value_app, le_value_le_bytes. simpl.
    rewrite !wrap_small by done. change (8 * Z.of_nat 1) with 8. lia. }
  rewrite Htmp. change 0xFFFF with (Z.ones 16). change 0xFF with (Z.ones 8).
  unfold in_width in *. rewrite !Z.land_ones, !Z.shiftr_div_pow2 by lia.
  destruct i as [r h t p], i0 as [r0 h0 t0 p0]. simpl in *. subst.
  f_equal; Z.to_euclidean_division_equations; lia.
Qed.

(** ** Properties *)

(** C36. The codecs of the table.  Decoding a record gives what its 24 bytes hold
    of it (offset and page modulo 2^48, the other fields at their width), which is
    the record itself when its fields have their widths; encoding what was decoded
    from 24 bytes gives these bytes; header and RAS info come back whole. *)
Theorem record_roundtrip :
  (∀ r, __decode_table_record_from_buf (__encode_table_record_to_buf r) = record_stored r) ∧
  (∀ r, record_ok r → record_stored r = r) ∧
  (∀ b, Forall (in_width 8) b → length b = 24%nat →
        __encode_table_record_to_buf (__decode_table_record_from_buf b) = b) ∧
  (∀ h, header_width h → __decode_table_header_from_buf (__encode_table_header_to_buf h) = h) ∧
  (∀ i i0, info_width i → padding i0 = replicate 63 0 →
        __decode_table_ras_info_from_buf i0 (__encode_table_ras_info_to_buf i (replicate 256 0)) = i).
Proof.
  split_and!; [exact decode_encode|exact record_stored_id|exact encode_decode|exact header_roundtrip|
    exact info_roundtrip].
Qed.

Lemma record_roundtrip_witness :
  let r := mk_record 4096 9 77 1 2 3 4 in
  record_ok r ∧ __decode_table_record_from_buf (__encode_table_record_to_buf r) = r.
Proof.
  destruct record_roundtrip as (Hdec & Hid & _). cbv zeta. split; [repeat split; simpl; lia|].
  rewrite Hdec. apply Hid. repeat split; simpl; lia.
Defined.
