(* ===== verification/RasEepromProof.v ===== *)
(** * The bad page table: the ring and its operations

    What the operations do to the bytes of the table, for any device of the class
    [EepromDevice]: the ring of records as a list, what an append does to it, and
    the checksum. *)

From S2P Require Import Prelude Eeprom RasEeprom RasCodec.

(** ** Transfers of the table *)

(** The adapter takes transfers of [n] bytes. *)
Definition sizes_ok {D} (A : i2c_adapter D) (n : Z) : Prop := ∀ read, size_ok A read n.

Lemma sizes_ok_le {D} (A : i2c_adapter D) n m : m ≤ n → sizes_ok A n → sizes_ok A m.
Proof.
  intros Hle Hn read. specialize (Hn read). unfold size_ok in *.
  destruct (quirks A); [|lia]. destruct Hn as [[? ?]|?]; [left; lia|by right].
Qed.

Lemma io_result_zero res n : res ≤ n → io_result res n = 0 → res = n.
Proof. unfold io_result. intros H. branch. branch. unfold EIO. lia. Qed.

Lemma io_result_done n : 0 ≤ n → io_result n n = 0.
Proof. unfold io_result. intros H. branch. branch. Qed.

Section Table.
Context {D : Type} (A : i2c_adapter D) (mem : D → Z → Z) `{!EepromDevice A mem}.
Abbreviation ras := (amdgpu_ras D).

(** A byte of the table, and [n] of them from an offset. *)
Definition cell (con : ras) (o : Z) : Z := mem (bus con) (i2c_address (eeprom_control con) + o).
Definition stored (con : ras) (off n : Z) : list Z := mem_range (cell con) off n.

(** Where the table is, and what fits in its part of the device. *)
Definition placed (con : ras) : Prop :=
  i2c_address (eeprom_control con) = EEPROM_I2C_MADDR_0 ∨ i2c_address (eeprom_control con) = EEPROM_I2C_MADDR_4.

(** The effect of a write of [n] bytes of [buf] at [off]. *)
Definition wrote (con con' : ras) (off n : Z) (buf : list Z) (res : Z) : Prop :=
  con' = (con <| bus := bus con' |>) ∧
  (∀ o, ¬ off ≤ o < off + n → cell con' o = cell con o) ∧
  (res = 0 → ∀ i, 0 ≤ i < n → cell con' (off + i) = byte_at buf i) ∧
  (ReliableBus A → res = 0).

Lemma placed_bounds con off n :
  placed con → 0 ≤ off → 0 ≤ n → off + n ≤ 2 ^ 18 →
  let a := i2c_address (eeprom_control con) in
  u32 (a + off) = a + off ∧ 0 ≤ a + off ∧ a + off + n ≤ 2 ^ 19 ∧ in_part (a + off) n.
Proof.
  unfold placed, EEPROM_I2C_MADDR_0, EEPROM_I2C_MADDR_4. intros [H|H] Ho Hn Hle; rewrite H; simpl;
    (split_and!; [apply wrap_small; unfold in_width; lia|lia|lia|]); unfold in_part.
  - destruct (decide (off = 2 ^ 18)) as [->|]; [by replace n with 0 by lia|]. rewrite Z.mod_small; lia.
  - destruct (decide (off = 2 ^ 18)) as [->|]; [by replace n with 0 by lia|].
    replace (262144 + off) with (off + 1 * 2 ^ 18) by lia. rewrite Z.mod_add, Z.mod_small; lia.
Qed.

Lemma table_write_spec con off buf n con' r :
  placed con → sizes_ok A n → 0 ≤ off → 0 ≤ n ≤ Z.of_nat (length buf) → off + n ≤ 2 ^ 18 →
  table_write A con off buf n = (con', r) → wrote con con' off n buf (io_result r n).
Proof.
  intros Hpl Hsz Ho Hn Hle. unfold table_write.
  pose proof (placed_bounds con off n Hpl Ho ltac:(lia) Hle) as (-> & Ha & Ha' & _).
  destruct (amdgpu_eeprom_write _ _ _ _ _) as [st res] eqn:E. intros [= <- <-].
  apply (eeprom_write_outcome A mem) in E as (Hr & Hout & Hin & Hrel); [|apply Hsz|lia..].
  split_and!; [done| | |].
  - intros o Hno. unfold cell; simpl. apply Hout. lia.
  - intros H i Hi. apply io_result_zero in H; [|done]. unfold cell; simpl.
    rewrite Z.add_assoc. rewrite Hin by done. done.
  - intros Hb. rewrite (Hrel Hb). apply io_result_done. lia.
Qed.

(** The effect of a read of [n] bytes at [off] to the start of [buf']. *)
Definition fetched (con con' : ras) (off n : Z) (buf' : list Z) (res : Z) : Prop :=
  con' = (con <| bus := bus con' |>) ∧ (∀ o, cell con' o = cell con o) ∧
  (res = 0 → take (Z.to_nat n) buf' = stored con off n) ∧ (ReliableBus A → res = 0).

Lemma table_read_prefix con off buf n con' buf' r :
  placed con → sizes_ok A n → 0 ≤ off → 0 ≤ n ≤ Z.of_nat (length buf) → off + n ≤ 2 ^ 18 →
  table_read A con off buf n = (con', buf', r) →
  fetched con con' off n buf' (io_result r n) ∧ r ≤ n ∧ length buf' = length buf.
Proof.
  intros Hpl Hsz Ho Hn Hle. unfold table_read.
  pose proof (placed_bounds con off n Hpl Ho ltac:(lia) Hle) as (-> & Ha & Ha' & Hpart).
  destruct (amdgpu_eeprom_read _ _ _ _ _) as [[st p'] res] eqn:E. intros [= <- <- <-].
  apply (eeprom_read_outcome A mem) in E as (Hr & Hl & Hm & _ & Hin & Hrel); [|apply Hsz|lia|lia|done|lia].
  split; [|done]. split_and!; [done|intros o; apply Hm| |].
  - intros H. apply io_result_zero in H; [|done]. apply byte_at_ext.
    { unfold stored. rewrite length_mem_range, length_take. lia. }
    intros i Hi. rewrite length_take in Hi. unfold stored. rewrite byte_at_mem_range by lia. unfold cell.
    rewrite Z.add_assoc. unfold byte_at. rewrite lookup_take_lt by lia. apply Hin; lia.
  - intros Hb. rewrite (Hrel Hb). apply io_result_done. lia.
Qed.

Lemma table_read_spec con off buf n con' buf' r :
  placed con → sizes_ok A n → 0 ≤ off → n = Z.of_nat (length buf) → off + n ≤ 2 ^ 18 →
  table_read A con off buf n = (con', buf', r) →
  con' = con <| bus := bus con' |> ∧ (∀ o, cell con' o = cell con o) ∧
  (io_result r n = 0 → buf' = stored con off n) ∧ (ReliableBus A → io_result r n = 0).
Proof.
  intros Hpl Hsz Ho Hn Hle E. apply table_read_prefix in E as [(Hc & Hcell & Hbuf & Hrel) [_ Hl]]; [|done|done|lia..].
  split_and!; [done|done| |done]. intros Hr. rewrite <- (Hbuf Hr). symmetry. apply take_ge. lia.
Qed.

(** ** The ring *)

Record ring_ok (con : ras) : Prop := {
  ring_placed : placed con;
  ring_hdr_off : ras_header_offset (eeprom_control con) = RAS_HDR_START;
  ring_info_off : ras_info_offset (eeprom_control con) = RAS_TABLE_V2_1_INFO_START;
  ring_version :
    (version (tbl_hdr (eeprom_control con)) = RAS_TABLE_VER_V1 ∧
     ras_record_offset (eeprom_control con) = RAS_RECORD_START) ∨
    (version (tbl_hdr (eeprom_control con)) = RAS_TABLE_VER_V2_1 ∧
     ras_record_offset (eeprom_control con) = RAS_RECORD_START_V2_1);
  ring_max : 0 < ras_max_record_count (eeprom_control con) ∧
    ras_record_offset (eeprom_control con) + 24 * ras_max_record_count (eeprom_control con) ≤ 2 ^ 18;
  ring_num : 0 ≤ ras_num_recs (eeprom_control con) ≤ ras_max_record_count (eeprom_control con);
  ring_fri : 0 ≤ ras_fri (eeprom_control con) < ras_max_record_count (eeprom_control con);
  ring_full : ras_fri (eeprom_control con) = 0 ∨
    ras_num_recs (eeprom_control con) = ras_max_record_count (eeprom_control con);
}.

(** The bytes of record [i] of the ring, and of the records in their order. *)
Definition slot (con : ras) (i : Z) : list Z :=
  stored con (ras_record_offset (eeprom_control con) + 24 * i) 24.
Definition table (con : ras) : list (list Z) :=
  let c := eeprom_control con in
  (λ k, slot con ((ras_fri c + k) `mod` ras_max_record_count c)) <$> seqZ 0 (ras_num_recs c).

Lemma length_slot con i : length (slot con i) = 24%nat.
Proof. apply length_mem_range. Qed.

(** The first [k] records of a buffer at consecutive indices from [i]. *)
Lemma write_records_spec con buf i k con' res :
  ring_ok con → sizes_ok A (24 * k) → 0 ≤ i → 0 ≤ k → i + k ≤ ras_max_record_count (eeprom_control con) →
  24 * k ≤ Z.of_nat (length buf) →
  __amdgpu_ras_eeprom_write A con buf i k = (con', res) →
  wrote con con' (ras_record_offset (eeprom_control con) + 24 * i) (24 * k) buf res.
Proof.
  intros Hok Hsz Hi Hk Hik Hb. destruct (ring_max _ Hok) as [HN Hmax].
  assert (Hro : 0 ≤ ras_record_offset (eeprom_control con)).
  { destruct (ring_version _ Hok) as [[_ ->]|[_ ->]]; by unfold RAS_RECORD_START. }
  unfold __amdgpu_ras_eeprom_write, RAS_INDEX_TO_OFFSET, RAS_TABLE_RECORD_SIZE.
  rewrite (wrap_small 32 (k * 24)), (wrap_small 32 (_ + _)) by (unfold in_width; lia).
  destruct (table_write _ _ _ _ _) as [con1 r] eqn:E. intros [= <- <-].
  replace (k * 24) with (24 * k) in * by lia. replace (i * 24) with (24 * i) in * by lia.
  apply table_write_spec in E; [done|apply Hok|done|lia..].
Qed.

(** A range whose bytes are known. *)
Lemma stored_eq con off n l :
  length l = Z.to_nat n → (∀ i, 0 ≤ i < n → cell con (off + i) = byte_at l i) → stored con off n = l.
Proof.
  intros Hl H. apply byte_at_ext; unfold stored; rewrite length_mem_range; [done|].
  intros i Hi. rewrite byte_at_mem_range by lia. apply H. lia.
Qed.

Lemma stored_same con con' off n :
  (∀ i, 0 ≤ i < n → cell con' (off + i) = cell con (off + i)) → stored con' off n = stored con off n.
Proof.
  intros H. apply stored_eq; unfold stored; [apply length_mem_range|]. intros i Hi.
  by rewrite byte_at_mem_range, H by done.
Qed.

Lemma stored_app con off n1 n2 :
  0 ≤ n1 → 0 ≤ n2 → stored con off (n1 + n2) = stored con off n1 ++ stored con (off + n1) n2.
Proof.
  intros H1 H2. unfold stored, mem_range. by rewrite seqZ_app, fmap_app.
Qed.

Lemma wrote_slot con con' i k buf res j :
  wrote con con' (ras_record_offset (eeprom_control con) + 24 * i) (24 * k) buf res →
  0 ≤ i → 24 * k ≤ Z.of_nat (length buf) →
  (i ≤ j < i + k → res = 0 → slot con' j = bytes buf (24 * (j - i)) 24) ∧
  (¬ i ≤ j < i + k → slot con' j = slot con j).
Proof.
  intros (Hc & Hout & Hin & _) Hi Hb.
  assert (Hro : ras_record_offset (eeprom_control con') = ras_record_offset (eeprom_control con))
    by (by rewrite Hc). unfold slot. rewrite Hro. split.
  - intros Hj Hr. apply stored_eq; [apply length_bytes; lia|]. intros x Hx.
    rewrite byte_at_bytes by lia.
    replace (_ + 24 * j + x) with (ras_record_offset (eeprom_control con) + 24 * i + (24 * (j - i) + x)) by lia.
    apply Hin; [done|lia].
  - intros Hj. apply stored_same. intros x Hx. apply Hout. lia.
Qed.

(** [num] records of [buf] are in the ring from index [s] on. *)
Definition ring_wrote (con con' : ras) (s num : Z) (buf : list Z) : Prop :=
  let N := ras_max_record_count (eeprom_control con) in
  ∀ i, 0 ≤ i < N →
    slot con' i = if decide ((i - s) `mod` N < num) then bytes buf (24 * ((i - s) `mod` N)) 24 else slot con i.

(** Index [i] as seen from [s]. *)
Lemma ring_dist N s i :
  0 ≤ s < N → 0 ≤ i < N → (i - s) `mod` N = if decide (s ≤ i) then i - s else i - s + N.
Proof.
  intros Hs Hi. destruct (decide _); [apply Z.mod_small; lia|].
  rewrite <- (Z.mod_add _ 1) by lia. rewrite Z.mod_small; lia.
Qed.

Lemma ring_wrote_once con con' s num buf :
  0 ≤ s → s + num ≤ ras_max_record_count (eeprom_control con) → 0 < num → 24 * num ≤ Z.of_nat (length buf) →
  wrote con con' (ras_record_offset (eeprom_control con) + 24 * s) (24 * num) buf 0 →
  ring_wrote con con' s num buf.
Proof.
  intros Hs Hle Hnum Hb Hw i Hi. pose proof (wrote_slot _ _ _ _ _ _ i Hw Hs Hb) as [H1 H2].
  rewrite ring_dist by lia. destruct (decide (s ≤ i)).
  - destruct (decide _); [apply H1; lia|apply H2; lia].
  - rewrite decide_False by lia. apply H2. lia.
Qed.

Lemma ring_wrote_twice con con1 con' s num buf :
  let g0 := ras_max_record_count (eeprom_control con) - s in
  0 ≤ s < ras_max_record_count (eeprom_control con) → num ≤ ras_max_record_count (eeprom_control con) →
  g0 ≤ num → 24 * num ≤ Z.of_nat (length buf) →
  wrote con con1 (ras_record_offset (eeprom_control con) + 24 * s) (24 * g0) buf 0 →
  wrote con1 con' (ras_record_offset (eeprom_control con) + 24 * 0) (24 * (num - g0)) (buf_from buf g0) 0 →
  ring_wrote con con' s num buf.
Proof.
  intros g0 Hs Hnum Hg Hb Hw1 Hw2 i Hi.
  assert (Hc : eeprom_control con1 = eeprom_control con) by (destruct Hw1 as [-> _]; done).
  pose proof (wrote_slot _ _ _ _ _ _ i Hw1 ltac:(lia) ltac:(lia)) as [H1 H1'].
  rewrite <- Hc in Hw2.
  assert (Hl : Z.of_nat (length (buf_from buf g0)) = Z.of_nat (length buf) - 24 * g0).
  { unfold buf_from, RAS_TABLE_RECORD_SIZE. rewrite length_drop. lia. }
  pose proof (wrote_slot _ _ _ _ _ _ i Hw2 ltac:(lia) ltac:(lia)) as [H2 H2'].
  rewrite ring_dist by lia. destruct (decide (s ≤ i)).
  - rewrite H2' by lia. rewrite decide_True by lia. apply H1; lia.
  - destruct (decide _).
    + rewrite H2 by lia. apply byte_at_ext; [rewrite !length_bytes by lia; done|].
      intros x Hx. rewrite length_bytes in Hx by lia. rewrite !byte_at_bytes by lia.
      unfold byte_at, buf_from, RAS_TABLE_RECORD_SIZE. rewrite lookup_drop. do 2 f_equal. lia.
    + rewrite H2' by lia. apply H1'. lia.
Qed.

(** What stays the same when records are written. *)
Definition outside_ring (con con' : ras) : Prop :=
  ∀ o, ¬ ras_record_offset (eeprom_control con) ≤ o <
         ras_record_offset (eeprom_control con) + 24 * ras_max_record_count (eeprom_control con) →
    cell con' o = cell con o.

(** The number of records the ring forgets. *)
Definition overrun (con : ras) (num : Z) : Z :=
  Z.max 0 (ras_num_recs (eeprom_control con) + num - ras_max_record_count (eeprom_control con)).

Definition append_done (con con' : ras) (num : Z) (buf : list Z) (b : Z) : Prop :=
  let c := eeprom_control con in
  let N := ras_max_record_count c in
  let fri := (ras_fri c + overrun con num) `mod` N in
  con' = set_fri fri (con <| bus := bus con' |>) ∧
  ring_wrote con con' ((ras_fri c + ras_num_recs c) `mod` N) num buf ∧
  u32 (1 + u32 (N + b - fri) `mod` N) = Z.min N (ras_num_recs c + num).

(** The count that the last index gives. *)
Lemma count_small N b fri n :
  0 < N → N ≤ 2 ^ 18 → 0 ≤ b < 2 * N → 0 ≤ fri < N → (b - fri - (n - 1)) `mod` N = 0 → 0 < n ≤ N →
  u32 (1 + u32 (N + b - fri) `mod` N) = n.
Proof.
  intros HN HN' Hb Hf Hm Hn. rewrite (wrap_small 32 (N + b - fri)) by (unfold in_width; lia).
  apply Z.mod_divide in Hm as [q Hq]; [|lia].
  replace (N + b - fri) with (n - 1 + (q + 1) * N) by lia. rewrite Z.mod_add, Z.mod_small by lia.
  replace (1 + (n - 1)) with n by lia. apply wrap_small. unfold in_width. lia.
Qed.

Lemma set_fri_id (con : ras) (st : D) :
  con <| bus := st |> = set_fri (ras_fri (eeprom_control con)) (con <| bus := st |>).
Proof. by destruct con as [? [] ? ? ? ?]. Qed.

Lemma ring_ok_control con con' :
  eeprom_control con' = eeprom_control con → ring_ok con → ring_ok con'.
Proof. intros Hc [????????]. split; unfold placed in *; by rewrite Hc. Qed.

Lemma record_offset_cases con :
  ring_ok con →
  (version (tbl_hdr (eeprom_control con)) = RAS_TABLE_VER_V1 ∧ ras_record_offset (eeprom_control con) = 20) ∨
  (version (tbl_hdr (eeprom_control con)) = RAS_TABLE_VER_V2_1 ∧ ras_record_offset (eeprom_control con) = 276).
Proof. intros Hok. exact (ring_version _ Hok). Qed.

Lemma record_offset_nonneg con : ring_ok con → 0 ≤ ras_record_offset (eeprom_control con).
Proof. intros Hok. destruct (ring_version _ Hok) as [[_ ->]|[_ ->]]; by unfold RAS_RECORD_START. Qed.

Lemma wrote_outside con con' off n buf res :
  wrote con con' off n buf res → ras_record_offset (eeprom_control con) ≤ off →
  off + n ≤ ras_record_offset (eeprom_control con) + 24 * ras_max_record_count (eeprom_control con) →
  outside_ring con con'.
Proof. intros (_ & Hout & _) H1 H2 o Ho. apply Hout. lia. Qed.

(** The records written in one go, and in two. *)
Lemma write_once_spec con buf s num con1 res :
  ring_ok con → sizes_ok A (24 * num) → 0 < num → 24 * num ≤ Z.of_nat (length buf) →
  0 ≤ s → s + num ≤ ras_max_record_count (eeprom_control con) →
  __amdgpu_ras_eeprom_write A con buf s num = (con1, res) →
  outside_ring con con1 ∧ (ReliableBus A → res = 0) ∧
  (res = 0 → con1 = con <| bus := bus con1 |> ∧ ring_wrote con con1 s num buf).
Proof.
  intros Hok Hsz Hnum Hb Hs Hle E. apply write_records_spec in E; [|done|done|lia..].
  split_and!; [eapply wrote_outside; [exact E|lia..]|apply E|].
  intros ->. split; [apply E|]. by apply ring_wrote_once.
Qed.

Lemma write_twice_spec con buf s num con1 r1 con2 r2 :
  let g0 := ras_max_record_count (eeprom_control con) - s in
  ring_ok con → sizes_ok A (24 * num) → num ≤ ras_max_record_count (eeprom_control con) →
  24 * num ≤ Z.of_nat (length buf) →
  0 ≤ s < ras_max_record_count (eeprom_control con) → g0 ≤ num →
  __amdgpu_ras_eeprom_write A con buf s g0 = (con1, r1) →
  __amdgpu_ras_eeprom_write A con1 (buf_from buf g0) 0 (num - g0) = (con2, r2) →
  outside_ring con con1 ∧ (ReliableBus A → r1 = 0) ∧
  outside_ring con con2 ∧ (ReliableBus A → r2 = 0) ∧
  (r1 = 0 → r2 = 0 → con2 = con <| bus := bus con2 |> ∧ ring_wrote con con2 s num buf).
Proof.
  intros g0 Hok Hsz Hnum Hb Hs Hg E1 E2. unfold g0 in *.
  apply write_records_spec in E1; [|done|eapply sizes_ok_le; [|exact Hsz]; lia|lia..].
  assert (Hc : eeprom_control con1 = eeprom_control con) by (destruct E1 as [-> _]; done).
  assert (Hl : Z.of_nat (length (buf_from buf g0)) = Z.of_nat (length buf) - 24 * g0).
  { unfold buf_from, RAS_TABLE_RECORD_SIZE. rewrite length_drop. lia. }
  unfold g0 in Hl.
  apply write_records_spec in E2; [|by apply ring_ok_control with con|eapply sizes_ok_le; [|exact Hsz]; lia|
    lia|lia|rewrite Hc; lia|lia].
  rewrite Hc in E2. pose proof E1 as Hout1. apply wrote_outside in Hout1; [|lia..].
  pose proof E2 as Hout2. rewrite <- Hc in Hout2. apply wrote_outside in Hout2; [|lia|rewrite Hc; lia].
  split_and!; [done|apply E1| |apply E2|].
  - intros o Ho. rewrite Hout2 by (by rewrite Hc). by apply Hout1.
  - intros -> ->. split.
    + destruct E1 as [H1 _], E2 as [H2 _]. rewrite H2, H1. done.
    + eapply ring_wrote_twice; [lia..|exact E1|exact E2].
Qed.

Lemma append_twice con buf s num fri (b : Z) con' res (ob : option Z) :
  let g0 := ras_max_record_count (eeprom_control con) - s in
  ring_ok con → sizes_ok A (24 * num) → num ≤ ras_max_record_count (eeprom_control con) →
  24 * num ≤ Z.of_nat (length buf) →
  0 ≤ s < ras_max_record_count (eeprom_control con) → g0 ≤ num →
  (let '(con1, r1) := __amdgpu_ras_eeprom_write A con buf s g0 in
   if nz r1 then (con1, r1, None) else
   let '(con2, r2) := __amdgpu_ras_eeprom_write A con1 (buf_from buf g0) 0 (num - g0) in
   if nz r2 then (con2, r2, None) else (set_fri fri con2, r2, Some b)) = (con', res, ob) →
  outside_ring con con' ∧ (ReliableBus A → res = 0) ∧
  (res = 0 → ob = Some b ∧ con' = set_fri fri (con <| bus := bus con' |>) ∧ ring_wrote con con' s num buf).
Proof.
  intros g0 Hok Hsz Hnum Hb Hs Hg H. unfold g0 in *.
  destruct (__amdgpu_ras_eeprom_write A con buf s _) as [con1 r1] eqn:E1.
  destruct (__amdgpu_ras_eeprom_write A con1 _ 0 _) as [con2 r2] eqn:E2.
  eapply write_twice_spec in E2 as (Ho1 & Hrel1 & Ho2 & Hrel2 & Hw); [|done|done|done|done|done|done|exact E1].
  destruct (nz r1) eqn:En1.
  { simplify_eq. apply nz_true in En1. split_and!; [done|done|done]. }
  destruct (nz r2) eqn:En2.
  { simplify_eq. apply nz_true in En2. split_and!; [done|done|done]. }
  apply nz_false in En1, En2. simplify_eq. split_and!; [done|done|]. intros _.
  destruct (Hw eq_refl eq_refl) as [Hc Hring]. split_and!; [done| |done]. exact (f_equal (set_fri fri) Hc).
Qed.

Lemma append_write_spec con buf num con' res ob :
  ring_ok con → 0 < num ≤ ras_max_record_count (eeprom_control con) →
  24 * num ≤ Z.of_nat (length buf) → sizes_ok A (24 * num) →
  append_write A con buf num = (con', res, ob) →
  outside_ring con con' ∧ (ReliableBus A → res = 0) ∧
  (res = 0 → ∃ b, ob = Some b ∧ append_done con con' num buf b).
Proof.
  intros Hok Hnum Hb Hsz. destruct (ring_max _ Hok) as [HN Hmax]. pose proof (ring_num _ Hok) as Hn.
  pose proof (ring_fri _ Hok) as Hf. pose proof (ring_full _ Hok) as Hfull.
  pose proof (record_offset_nonneg _ Hok) as Hro.
  unfold append_write, append_done, overrun. cbv zeta.
  pose proof (write_once_spec con buf) as Honce. pose proof (write_twice_spec con buf) as Htwice. cbv zeta in Htwice.
  pose proof (λ st, set_fri_id con st) as Hid.
  set (c := eeprom_control con) in *. set (N := ras_max_record_count c) in *. set (n := ras_num_recs c) in *.
  set (f := ras_fri c) in *.
  rewrite (wrap_small 32 (f + n)), (wrap_small 32 (_ - 1)) by (unfold in_width; lia).
  destruct (Z.ltb_spec (f + n + num - 1) N) as [H1|H1].
  { (* no wrap *)
    destruct (__amdgpu_ras_eeprom_write A con buf (f + n) num) as [con1 r1] eqn:E. intros [= <- <- <-].
    apply Honce in E as (Ho & Hrel & Hw); [|done|done|lia..]. split_and!; [done|done|].
    intros Hr. destruct (Hw Hr) as [Hc Hring]. eexists. split; [done|].
    assert (f = 0) as Hf0 by lia. rewrite Z.max_l, Z.add_0_r, (Z.mod_small f), (Z.mod_small (f + n)) by lia.
    split_and!; [by rewrite <- Hid|done|]. apply count_small; [lia..| |lia].
    rewrite Z.min_r by lia. replace (_ - _) with 0 by lia. done. }
  destruct (Z.ltb_spec (f + n) N) as [H2|H2].
  { (* the ring fills up *)
    assert (f = 0) as Hf0 by lia.
    replace ((f + n + num - 1) `mod` N + 1) with (num - (N - (f + n)))
      by (rewrite <- (Z.mod_add _ (-1)) by lia; rewrite Z.mod_small; lia).
    destruct (Z.ltb_spec f (num - (N - (f + n)))) as [_|]; [|lia].
    intros H. apply append_twice in H as (Ho & Hrel & Hw); [|done|done|fold c; fold N; lia..].
    split_and!; [done|done|]. intros Hr. destruct (Hw Hr) as (-> & Hc & Hring). eexists. split; [done|].
    rewrite (Z.mod_small (f + n)) by lia. fold N in Hc.
    replace (f + Z.max 0 (n + num - N)) with (num - (N - (f + n))) by lia.
    split_and!; [done|done|]. rewrite (Z.mod_small (num - _)) by lia.
    apply count_small; [lia..| |lia].
    rewrite Z.min_l by lia. replace (_ - _) with 0 by lia. done. }
  (* the ring is full *)
  assert (n = N) as Hfn by lia.
  replace ((f + n) `mod` N) with f by (rewrite Hfn, <- (Z.mod_add _ (-1)) by lia; rewrite Z.mod_small; lia).
  assert (Hb' : (f + n + num - 1) `mod` N = if decide (f + num ≤ N) then f + num - 1 else f + num - 1 - N).
  { destruct (decide _).
    - rewrite <- (Z.mod_add _ (-1)) by lia. rewrite Z.mod_small; lia.
    - rewrite <- (Z.mod_add _ (-2)) by lia. rewrite Z.mod_small; lia. }
  rewrite Hb'. replace (f + Z.max 0 (n + num - N)) with (f + num) by lia. destruct (decide _) as [Hl|Hl].
  - destruct (Z.leb_spec f (f + num - 1)) as [_|]; [|lia].
    destruct (__amdgpu_ras_eeprom_write A con buf f num) as [con1 r1] eqn:E.
    apply Honce in E as (Ho & Hrel & Hw); [|done|done|lia..].
    destruct (nz r1) eqn:En1; intros [= <- <- <-].
    { apply nz_true in En1. by split_and!. }
    apply nz_false in En1. split_and!; [done|done|]. intros _. destruct (Hw En1) as [Hc Hring].
    eexists. split; [done|]. replace (f + num - 1 + 1) with (f + num) by lia. split_and!; [|done|].
    + exact (f_equal (set_fri _) Hc).
    + apply count_small; [lia|lia|lia|by apply Z.mod_pos_bound| |lia]. rewrite Z.min_l by lia.
      destruct (decide (f + num = N)) as [->|].
      * rewrite Z.mod_same by lia. by replace (_ - _) with 0 by lia.
      * rewrite (Z.mod_small (f + num)) by lia. replace (_ - _) with (-1 * N) by lia. apply Z.mod_mul. lia.
  - destruct (Z.leb_spec f (f + num - 1 - N)) as [|_]; [lia|].
    replace (f + num - 1 - N + 1) with (num - (N - f)) by lia.
    intros H. apply append_twice in H as (Ho & Hrel & Hw); [|done|done|fold c; fold N; lia..].
    split_and!; [done|done|]. intros Hr. destruct (Hw Hr) as (-> & Hc & Hring). eexists. split; [done|].
    fold N in Hc. rewrite <- (Z.mod_add (f + num) (-1)) by lia.
    replace (f + num + -1 * N) with (num - (N - f)) by lia. split_and!; [done|done|].
    rewrite (Z.mod_small (num - _)) by lia. apply count_small; [lia..| |lia].
    rewrite Z.min_l by lia. replace (_ - _) with (-1 * N) by lia. apply Z.mod_mul. lia.
Qed.

(** ** The table as a list *)

Lemma length_concat_encode recs :
  length (concat (__encode_table_record_to_buf <$> recs)) = (24 * length recs)%nat.
Proof.
  induction recs as [|r recs IH]; [done|]. cbn [fmap list_fmap concat length].
  rewrite length_app, length_encode. change (concat (list_fmap _ _ _ recs)) with
    (concat (__encode_table_record_to_buf <$> recs)). rewrite IH. lia.
Qed.

Lemma bytes_concat (l : list (list Z)) j x :
  Forall (λ b, length b = 24%nat) l → l !! j = Some x → bytes (concat l) (24 * Z.of_nat j) 24 = x.
Proof.
  intros Hl. revert j. induction Hl as [|y l Hy Hl IH]; intros j Hj; [done|].
  destruct j as [|j]; simpl in Hj; simplify_eq; cbn [concat].
  - exact (bytes_split [] x (concat l) 0 24 eq_refl Hy).
  - rewrite <- (IH j Hj). unfold bytes. f_equal.
    replace (Z.to_nat (24 * Z.of_nat (S j))) with (length y + Z.to_nat (24 * Z.of_nat j))%nat by lia.
    by rewrite drop_app_add.
Qed.

Lemma encodes_24 recs : Forall (λ b, length b = 24%nat) (__encode_table_record_to_buf <$> recs).
Proof. apply Forall_fmap, Forall_true. intros r. apply length_encode. Qed.

Lemma lookup_table con k :
  0 ≤ k < ras_num_recs (eeprom_control con) →
  table con !! Z.to_nat k =
  Some (slot con ((ras_fri (eeprom_control con) + k) `mod` ras_max_record_count (eeprom_control con))).
Proof.
  intros Hk. unfold table. rewrite list_lookup_fmap, lookup_seqZ_lt by lia. simpl. do 4 f_equal. lia.
Qed.

Lemma length_table con : length (table con) = Z.to_nat (ras_num_recs (eeprom_control con)).
Proof. unfold table. by rewrite length_fmap, length_seqZ. Qed.

(** The ring after an append is the last records of the old ones and the new. *)
Lemma append_done_table con con1 recs b con' :
  let num := Z.of_nat (length recs) in
  let buf := concat (__encode_table_record_to_buf <$> recs) in
  ring_ok con → 0 < num ≤ ras_max_record_count (eeprom_control con) →
  append_done con con1 num buf b → con' = set_control (count_to b) con1 →
  ring_ok con' ∧
  table con' = drop (Z.to_nat (overrun con num)) (table con ++ (__encode_table_record_to_buf <$> recs)).
Proof.
  intros num buf Hok Hnum (Hc & Hring & Hcount) ->. cbv zeta in *.
  destruct (ring_max _ Hok) as [HN Hmax]. pose proof (ring_num _ Hok) as Hn.
  pose proof (ring_fri _ Hok) as Hf. pose proof (ring_full _ Hok) as Hfull.
  set (fri := (ras_fri _ + overrun con num) `mod` _) in *.
  assert (Hctl : eeprom_control (set_control (count_to b) con1) =
    (eeprom_control con) <| ras_fri := fri |>
      <| ras_num_recs := ras_num_recs (eeprom_control con) + num - overrun con num |>).
  { rewrite Hc. destruct con as [? [] ? ? ? ?]. simpl in *. unfold count_to. simpl. rewrite Hcount.
    f_equal. unfold overrun. simpl. lia. }
  assert (Hslot : ∀ i, slot (set_control (count_to b) con1) i = slot con1 i) by done.
  set (con' := set_control (count_to b) con1) in *. clearbody con'.
  assert (Hd : overrun con num = Z.max 0 (ras_num_recs (eeprom_control con) + num -
    ras_max_record_count (eeprom_control con))) by done. unfold ring_wrote in Hring. clear Hc Hcount.
  set (d := overrun con num) in *. clearbody d.
  set (c := eeprom_control con) in *. set (N := ras_max_record_count c) in *.
  set (n := ras_num_recs c) in *. set (f := ras_fri c) in *.
  assert (Hfri : 0 ≤ fri < N) by (by apply Z.mod_pos_bound). split.
  { destruct Hok. split; unfold placed in *; rewrite Hctl; simpl; try done; fold c N n f; [lia|].
    destruct (decide (d = 0)) as [->|]; [|lia]. left. unfold fri. rewrite Z.mod_small; lia. }
  apply list_eq_same_length with (length (table con')); [|done|].
  { rewrite length_drop, length_app, !length_table, length_fmap, Hctl. simpl. fold c N n. lia. }
  intros i x y Hi Hx Hy. rewrite length_table, Hctl in Hi. simpl in Hi. fold n in Hi.
  assert (Hk : ∃ k, i = Z.to_nat k ∧ 0 ≤ k < n + num - d) by (exists (Z.of_nat i); lia).
  destruct Hk as (k & -> & Hk). rewrite lookup_table in Hx by (rewrite Hctl; simpl; fold n; lia).
  rewrite Hctl in Hx. simpl in Hx. fold N in Hx. injection Hx as <-.
  rewrite lookup_drop in Hy. rewrite Hslot, Hring by (by apply Z.mod_pos_bound).
  assert (Hix : (fri + k) `mod` N = (f + (d + k)) `mod` N).
  { unfold fri. rewrite Z.add_mod_idemp_l by lia. f_equal. lia. }
  assert (Hdist : ((fri + k) `mod` N - (f + n) `mod` N) `mod` N =
                  if decide (d + k < n) then d + k - n + N else d + k - n).
  { rewrite Hix, <- Zminus_mod. replace (f + (d + k) - (f + n)) with (d + k - n) by lia.
    destruct (decide _); [|apply Z.mod_small; lia]. rewrite <- (Z.mod_add _ 1) by lia.
    destruct (decide (d + k - n + N = N)); [lia|]. rewrite Z.mod_small; lia. }
  rewrite Hdist. destruct (decide (d + k < n)).
  - rewrite decide_False by lia. rewrite lookup_app_l in Hy by (rewrite length_table; fold c n; lia).
    replace (Z.to_nat d + Z.to_nat k)%nat with (Z.to_nat (d + k)) in Hy by lia.
    rewrite lookup_table in Hy by (fold c n; lia). injection Hy as <-. by rewrite Hix.
  - rewrite decide_True by lia. rewrite lookup_app_r in Hy by (rewrite length_table; fold c n; lia).
    rewrite length_table in Hy. fold c n in Hy.
    replace (d + k - n) with (Z.of_nat (Z.to_nat d + Z.to_nat k - Z.to_nat n)) by lia.
    by apply bytes_concat; [apply encodes_24|].
Qed.

(** ** The header *)

Context (env : ras_env).

(** Widths of the fields of the control structure. *)
Definition widths_ok (con : ras) : Prop :=
  header_width (tbl_hdr (eeprom_control con)) ∧ info_width (tbl_rai (eeprom_control con)).

(** The device holds the header, and the RAS info when there is one, with the
    size of the table and a checksum that makes its bytes add up to 0. *)
Record header_ok (con : ras) : Prop := {
  hdr_stored : stored con 0 20 = __encode_table_header_to_buf (tbl_hdr (eeprom_control con));
  info_stored : version (tbl_hdr (eeprom_control con)) = RAS_TABLE_VER_V2_1 →
    stored con 20 256 = __encode_table_ras_info_to_buf (tbl_rai (eeprom_control con)) (replicate 256 0);
  hdr_size : tbl_size (tbl_hdr (eeprom_control con)) =
    ras_record_offset (eeprom_control con) + 24 * ras_num_recs (eeprom_control con);
  hdr_sum : byte_sum (stored con 0 (ras_record_offset (eeprom_control con) +
                                    24 * ras_num_recs (eeprom_control con))) = 0;
}.

Lemma length_encode_info i : length (__encode_table_ras_info_to_buf i (replicate 256 0)) = 256%nat.
Proof. unfold __encode_table_ras_info_to_buf. by rewrite length_inserts, length_replicate. Qed.

(** Bytes below the records only. *)
Definition below_ring (con con' : ras) : Prop :=
  ∀ o, ras_record_offset (eeprom_control con) ≤ o → cell con' o = cell con o.

Lemma write_tables_spec con con' res :
  ring_ok con → sizes_ok A 256 → write_tables A env con = (con', res) →
  con' = con <| bus := bus con' |> ∧ below_ring con con' ∧
  (ReliableBus A → alloc_ok env write_info_buf = true → res = 0) ∧
  (res = 0 →
   stored con' 0 20 = __encode_table_header_to_buf (tbl_hdr (eeprom_control con)) ∧
   (version (tbl_hdr (eeprom_control con)) = RAS_TABLE_VER_V2_1 →
    stored con' 20 256 = __encode_table_ras_info_to_buf (tbl_rai (eeprom_control con)) (replicate 256 0))).
Proof.
  intros Hok Hsz. unfold write_tables, __write_table_header.
  rewrite (ring_hdr_off _ Hok). unfold RAS_HDR_START, RAS_TABLE_HEADER_SIZE.
  destruct (table_write _ _ _ _ _) as [con1 r1] eqn:E.
  apply table_write_spec in E as (Hc1 & Ho1 & Hw1 & Hrel1); [|apply Hok|eapply sizes_ok_le; [|done]; lia|lia|
    rewrite length_encode_header; lia|lia].
  assert (Hs1 : io_result r1 20 = 0 →
    stored con1 0 20 = __encode_table_header_to_buf (tbl_hdr (eeprom_control con))).
  { intros Hr. apply stored_eq; [by rewrite length_encode_header|]. intros i Hi. by apply Hw1. }
  assert (Hec : eeprom_control con1 = eeprom_control con) by (by rewrite Hc1). rewrite Hec.
  generalize dependent (io_result r1 20). clear r1. intros r1 Hw1 Hrel1 Hs1.
  destruct (record_offset_cases _ Hok) as [[Hv Hro]|[Hv Hro]]; rewrite Hv.
  - rewrite andb_false_r. intros [= <- <-]. split_and!; [done| |intros; by apply Hrel1|].
    + intros o Ho. apply Ho1. lia.
    + intros Hr. split; [by apply Hs1|done].
  - rewrite andb_true_r.
    destruct (Z.eqb_spec r1 0) as [->|Hne].
    2: { intros [= <- <-]. split_and!; [done|intros o Ho; apply Ho1; lia|intros; by apply Hrel1|done]. }
    unfold __write_table_ras_info. destruct (alloc_ok env write_info_buf); simpl.
    2: { intros [= <- <-]. split_and!; [done|intros o Ho; apply Ho1; lia|done|done]. }
    rewrite Hec, (ring_info_off _ Hok). unfold RAS_TABLE_V2_1_INFO_START, RAS_TABLE_HEADER_SIZE, RAS_TABLE_V2_1_INFO_SIZE.
    destruct (table_write _ con1 _ _ _) as [con2 r2] eqn:E.
    assert (Hpl : placed con1) by (unfold placed; rewrite Hec; apply Hok).
    apply table_write_spec in E as (Hc2 & Ho2 & Hw2 & Hrel2); [|done|done|lia|rewrite length_encode_info; lia|lia].
    intros [= <- <-]. split_and!; [by rewrite Hc2, Hc1| |intros; by apply Hrel2|].
    + intros o Ho. rewrite Ho2 by lia. apply Ho1. lia.
    + intros Hr. split; [|intros _; apply stored_eq; [by rewrite length_encode_info|]; intros i Hi; by apply Hw2].
      rewrite <- Hs1 by done. apply stored_same. intros i Hi. apply Ho2. lia.
Qed.

(** The checksum the code computes closes the sum. *)
Lemma sum_checksum x : foldr Z.add 0 (le_bytes 4 (u8 x)) = u8 x.
Proof.
  pose proof (wrap_in_width 8 x ltac:(lia)) as Hx. revert Hx. generalize (u8 x) as y. intros y Hy.
  change (le_bytes 4 y) with ([u8 y] ++ le_bytes 3 (Z.shiftr y 8)).
  rewrite Z.shiftr_div_pow2, Z.div_small by (exact Hy || lia).
  rewrite wrap_small, sum_app by done. change (foldr Z.add 0 (le_bytes 3 0)) with 0. simpl. lia.
Qed.

Lemma close_sum s t : u8 t = u8 s → u8 (s + u8 (- u8 t)) = 0.
Proof.
  unfold wrap. intros H. rewrite Z.add_mod_idemp_r, H by lia.
  replace (s + - (s `mod` 2 ^ 8)) with (s - s `mod` 2 ^ 8) by lia.
  by rewrite Zminus_mod_idemp_r, Z.sub_diag.
Qed.

Lemma sum_header (c : amdgpu_ras_eeprom_control) x :
  checksum (tbl_hdr c) = u8 x →
  foldr Z.add 0 (__encode_table_header_to_buf (tbl_hdr c)) =
  foldr Z.add 0 (le_bytes 4 (header (tbl_hdr c)) ++ le_bytes 4 (version (tbl_hdr c)) ++
    le_bytes 4 (first_rec_offset (tbl_hdr c)) ++ le_bytes 4 (tbl_size (tbl_hdr c))) + u8 x.
Proof.
  intros H. unfold __encode_table_header_to_buf. rewrite H, !sum_app, sum_checksum. lia.
Qed.

Lemma checksum_v1 (c : amdgpu_ras_eeprom_control) buf :
  checksum (tbl_hdr c) = u8 (- u8 (byte_sum buf + __calc_hdr_byte_sum c)) →
  byte_sum (__encode_table_header_to_buf (tbl_hdr c) ++ buf) = 0.
Proof.
  intros H. rewrite byte_sum_eq, sum_app, (sum_header _ _ H).
  rewrite (Z.add_comm _ (foldr Z.add 0 buf)), Z.add_assoc. apply close_sum.
  unfold __calc_hdr_byte_sum. rewrite !byte_sum_eq. unfold wrap. by rewrite <- Z.add_mod by lia.
Qed.

Lemma checksum_v2_1 (c : amdgpu_ras_eeprom_control) buf :
  info_width (tbl_rai c) →
  checksum (tbl_hdr c) = u8 (- u8 (u8 (byte_sum buf + __calc_hdr_byte_sum c) + __calc_ras_info_byte_sum c)) →
  byte_sum (__encode_table_header_to_buf (tbl_hdr c) ++
    __encode_table_ras_info_to_buf (tbl_rai c) (replicate 256 0) ++ buf) = 0.
Proof.
  intros Hi H.
  assert (Hinfo : __calc_ras_info_byte_sum c =
    u8 (foldr Z.add 0 (__encode_table_ras_info_to_buf (tbl_rai c) (replicate 256 0)))).
  { rewrite encode_info_eq by done. apply byte_sum_eq. }
  rewrite Hinfo in H. clear Hinfo. revert H.
  generalize (__encode_table_ras_info_to_buf (tbl_rai c) (replicate 256 0)) as info. intros info H. rewrite byte_sum_eq, !sum_app, (sum_header _ _ H).
  rewrite <- Z.add_assoc, (Z.add_comm (u8 _)), Z.add_assoc. apply close_sum.
  unfold __calc_hdr_byte_sum. rewrite !byte_sum_eq. unfold wrap.
  rewrite <- (Z.add_mod (foldr Z.add 0 buf)), <- Z.add_mod by lia. f_equal. lia.
Qed.

(** ** Changes of the header only *)

Record kin (con con' : ras) : Prop := {
  kin_frame : con' = con <| bus := bus con' |> <| eeprom_control := eeprom_control con' |>;
  kin_control : eeprom_control con' =
    (eeprom_control con) <| tbl_hdr := tbl_hdr (eeprom_control con') |>
                         <| tbl_rai := tbl_rai (eeprom_control con') |>;
  kin_version : version (tbl_hdr (eeprom_control con')) = version (tbl_hdr (eeprom_control con));
  kin_first : first_rec_offset (tbl_hdr (eeprom_control con')) =
    first_rec_offset (tbl_hdr (eeprom_control con));
}.

Lemma kin_refl con : kin con con.
Proof. destruct con as [? [] ? ? ? ?]. by split. Qed.

Lemma kin_trans con1 con2 con3 : kin con1 con2 → kin con2 con3 → kin con1 con3.
Proof.
  intros [F1 C1 V1 W1] [F2 C2 V2 W2]. split; [..|congruence|congruence].
  - rewrite F2, F1. done.
  - rewrite C2, C1. done.
Qed.

Lemma kin_bus con con' : con' = con <| bus := bus con' |> → kin con con'.
Proof. intros ->. destruct con as [? [] ? ? ? ?]. by split. Qed.

Lemma kin_set_hdr f con :
  (∀ h, version (f h) = version h ∧ first_rec_offset (f h) = first_rec_offset h) → kin con (set_hdr f con).
Proof. intros H. destruct con as [? [] ? ? ? ?]. split; simpl; [done..|apply H|apply H]. Qed.

Lemma kin_set_rai f con : kin con (set_rai f con).
Proof. destruct con as [? [] ? ? ? ?]. by split. Qed.

Lemma kin_ring_ok con con' : kin con con' → ring_ok con → ring_ok con'.
Proof.
  intros [F C V W] [H1 H2 H3 H4 H5 H6 H7 H8].
  split; unfold placed in *; rewrite ?V; rewrite C; done.
Qed.

Lemma widths_set_hdr f con :
  (∀ h, header_width h → header_width (f h)) → widths_ok con → widths_ok (set_hdr f con).
Proof. intros H [Hh Hi]. split; [by apply H|done]. Qed.

Lemma widths_set_rai f con :
  (∀ i, info_width i → info_width (f i)) → widths_ok con → widths_ok (set_rai f con).
Proof. intros H [Hh Hi]. split; [done|by apply H]. Qed.

Lemma kin_cell con con' : kin con con' → bus con' = bus con → ∀ o, cell con' o = cell con o.
Proof. intros [F C V W] Hb o. unfold cell. by rewrite Hb, C. Qed.

Lemma mark_bad_spec con :
  widths_ok con → kin con (mark_bad env con) ∧ widths_ok (mark_bad env con) ∧ bus (mark_bad env con) = bus con.
Proof.
  intros H. unfold mark_bad. destruct (_ && _); [|split_and!; [apply kin_refl|done|done]].
  assert (Hk : kin con (set_hdr (λ h, h <| header := RAS_TABLE_HDR_BAD |>) con)) by (by apply kin_set_hdr).
  assert (H1 : widths_ok (set_hdr (λ h, h <| header := RAS_TABLE_HDR_BAD |>) con)).
  { apply widths_set_hdr; [|done]. intros h (? & ? & ? & ? & ?). done. }
  destruct (is_v2_1 con); [|done]. split_and!; [| |done].
  - eapply kin_trans; [exact Hk|apply kin_set_rai].
  - apply widths_set_rai; [|done]. intros i (? & ? & ? & ?). done.
Qed.

Lemma set_table_size_spec con :
  ring_ok con → widths_ok con →
  kin con (set_table_size con) ∧ widths_ok (set_table_size con) ∧
  tbl_size (tbl_hdr (eeprom_control (set_table_size con))) =
    ras_record_offset (eeprom_control con) + 24 * ras_num_recs (eeprom_control con).
Proof.
  intros Hok Hw. pose proof (ring_max _ Hok). pose proof (ring_num _ Hok).
  split_and!; [by apply kin_set_hdr| |].
  - apply widths_set_hdr; [|done]. intros h (? & ? & ? & ? & ?). split_and!; try done.
    by apply wrap_in_width.
  - unfold set_table_size, is_v2_1. simpl. unfold RAS_TABLE_HEADER_SIZE, RAS_TABLE_V2_1_INFO_SIZE, RAS_TABLE_RECORD_SIZE.
    destruct (record_offset_cases _ Hok) as [[Hv Hro]|[Hv Hro]]; rewrite Hv, Hro; simpl; rewrite wrap_small by (unfold in_width; lia); lia.
Qed.

Lemma update_health_spec con :
  widths_ok con →
  kin con (update_health env con) ∧ widths_ok (update_health env con) ∧
  bus (update_health env con) = bus con ∧
  tbl_hdr (eeprom_control (update_health env con)) = tbl_hdr (eeprom_control con).
Proof.
  intros H. unfold update_health. destruct (_ && _); [|split_and!; [apply kin_refl|done|done|done]].
  split_and!; [apply kin_set_rai| |done|done].
  apply widths_set_rai; [|done]. intros i (? & ? & ? & ?). split_and!; try done. by apply wrap_in_width.
Qed.

Lemma update_checksum_spec buf (con : ras) :
  let c := eeprom_control (update_checksum buf con) in
  checksum (tbl_hdr c) = u8 (- (if is_v2_1 con then
    u8 (u8 (byte_sum buf + __calc_hdr_byte_sum c) + __calc_ras_info_byte_sum c)
    else u8 (byte_sum buf + __calc_hdr_byte_sum c))).
Proof.
  cbv zeta. assert (Hh : __calc_hdr_byte_sum (eeprom_control (update_checksum buf con)) =
    __calc_hdr_byte_sum (eeprom_control con)) by (unfold __calc_hdr_byte_sum; f_equal).
  assert (Hi : __calc_ras_info_byte_sum (eeprom_control (update_checksum buf con)) =
    __calc_ras_info_byte_sum (eeprom_control con)) by (unfold __calc_ras_info_byte_sum; f_equal).
  rewrite Hh, Hi. unfold update_checksum. destruct (is_v2_1 con); reflexivity.
Qed.

Lemma update_header_spec con con' res :
  ring_ok con → widths_ok con →
  sizes_ok A (256 + 24 * ras_num_recs (eeprom_control con)) →
  amdgpu_ras_eeprom_update_header A env con = (con', res) →
  kin con con' ∧ below_ring con con' ∧
  (ReliableBus A → (∀ site, alloc_ok env site = true) → res = 0) ∧
  (res = 0 → header_ok con' ∧ widths_ok con').
Proof.
  intros Hok Hw Hsz. unfold amdgpu_ras_eeprom_update_header.
  destruct (mark_bad_spec con Hw) as (Hk1 & Hw1 & Hb1).
  destruct (set_table_size_spec (mark_bad env con)) as (Hk2 & Hw2 & Hsize);
    [by apply (kin_ring_ok con)|done|].
  rewrite (kin_control _ _ Hk1) in Hsize. cbn [ras_record_offset ras_num_recs set_field] in Hsize.
  assert (Hb2 : bus (set_table_size (mark_bad env con)) = bus con) by done.
  pose proof (kin_trans _ _ _ Hk1 Hk2) as Hk.
  generalize dependent (set_table_size (mark_bad env con)). intros con2 Hk2 Hw2 Hsize Hb2 Hk.
  set (ro := ras_record_offset (eeprom_control con)) in *.
  assert (Hro2 : ras_record_offset (eeprom_control con2) = ro) by (rewrite (kin_control _ _ Hk); done).
  assert (Hn2 : ras_num_recs (eeprom_control con2) = ras_num_recs (eeprom_control con))
    by (rewrite (kin_control _ _ Hk); done).
  cbv zeta. rewrite Hro2, Hn2. pose proof (ring_max _ Hok) as Hmax. pose proof (ring_num _ Hok) as Hnum. fold ro in Hmax.
  pose proof (record_offset_nonneg _ Hok) as Hro0. fold ro in Hro0.
  set (n := ras_num_recs (eeprom_control con)) in *.
  unfold RAS_TABLE_RECORD_SIZE. rewrite (wrap_small 32 (n * 24)) by (unfold in_width; lia).
  destruct (alloc_ok env update_buf) eqn:Ea; simpl negb; cbv iota.
  2: { intros [= <- <-]. split_and!; [done|intros o _; by apply kin_cell| |done].
       intros _ Hal. by rewrite Hal in Ea. }
  destruct (table_read _ con2 _ _ _) as [[con3 buf] r] eqn:E.
  pose proof (kin_ring_ok _ _ Hk Hok) as Hok2.
  apply table_read_spec in E as (Hc3 & Hcell3 & Hbuf & Hrel3);
    [|apply Hok2|eapply sizes_ok_le; [|done]; lia|done|rewrite length_replicate; lia|lia].
  generalize dependent (io_result r (n * 24)). clear r. intros r Hbuf Hrel3.
  pose proof (kin_bus _ _ Hc3) as Hk3.
  destruct (nz r) eqn:En.
  { apply nz_true in En. intros [= <- <-]. split_and!; [by eapply kin_trans| | |done].
    - intros o _. rewrite Hcell3. by apply kin_cell.
    - intros Hrel. by rewrite Hrel3 in En. }
  apply nz_false in En. subst r. specialize (Hbuf eq_refl).
  assert (Hw3 : widths_ok con3) by (rewrite Hc3; exact Hw2).
  destruct (update_health_spec con3 Hw3) as (Hk4 & Hw4 & Hb4 & Hh4).
  set (con4 := update_health env con3) in *. clearbody con4.
  pose proof (kin_trans _ _ _ (kin_trans _ _ _ Hk Hk3) Hk4) as Hk04.
  assert (Hk5 : kin con4 (update_checksum buf con4)) by (by apply kin_set_hdr).
  assert (Hw5 : widths_ok (update_checksum buf con4)).
  { apply widths_set_hdr; [|done]. intros h (? & ? & ? & ? & ?). split_and!; try done.
    unfold in_width. pose proof (wrap_in_width 8 (- (if is_v2_1 con4 then
      u8 (u8 (byte_sum buf + __calc_hdr_byte_sum (eeprom_control con4)) + __calc_ras_info_byte_sum (eeprom_control con4))
      else u8 (byte_sum buf + __calc_hdr_byte_sum (eeprom_control con4)))) ltac:(lia)) as Hx.
    unfold in_width in Hx. simpl. lia. }
  intros Hwt. pose proof (kin_trans _ _ _ Hk04 Hk5) as Hk05.
  pose proof (kin_ring_ok _ _ Hk05 Hok) as Hok5.
  assert (Hcell5 : ∀ o, cell (update_checksum buf con4) o = cell con o).
  { intros o. rewrite (kin_cell _ _ Hk5 eq_refl), (kin_cell _ _ Hk4 Hb4), Hcell3. by apply kin_cell. }
  pose proof (update_checksum_spec buf con4) as Hcs. cbv zeta in Hcs.
  assert (Hsize5 : tbl_size (tbl_hdr (eeprom_control (update_checksum buf con4))) = ro + 24 * n).
  { simpl. rewrite Hh4, Hc3. exact Hsize. }
  set (con5 := update_checksum buf con4) in *. clearbody con5.
  apply write_tables_spec in Hwt as (Hc' & Hbel & Hrel & Hst); [|done|eapply sizes_ok_le; [|done]; lia].
  assert (He : eeprom_control con' = eeprom_control con5) by (by rewrite Hc').
  assert (Hro5 : ras_record_offset (eeprom_control con5) = ro) by (rewrite (kin_control _ _ Hk05); done).
  assert (Hn5 : ras_num_recs (eeprom_control con5) = n) by (rewrite (kin_control _ _ Hk05); done).
  assert (Hbel' : ∀ o, ro ≤ o → cell con' o = cell con o).
  { intros o Ho. rewrite Hbel by lia. apply Hcell5. }
  split_and!; [eapply kin_trans; [exact Hk05|by apply kin_bus]|exact Hbel'|intros; by apply Hrel|].
  intros Hr. destruct (Hst Hr) as [Hs1 Hs2].
  assert (Hbuf' : buf = stored con' ro (24 * n)).
  { rewrite Hbuf, Z.mul_comm. symmetry. apply stored_same. intros i Hi. rewrite Hbel' by lia.
    symmetry. by apply kin_cell. }
  split; [|destruct Hw5; split; by rewrite He].
  split; rewrite He, ?Hro5, ?Hn5; [done|done|done|].
  assert (Hv5 : is_v2_1 con4 = (version (tbl_hdr (eeprom_control con5)) =? RAS_TABLE_VER_V2_1)).
  { unfold is_v2_1. by rewrite <- (kin_version _ _ Hk5). }
  rewrite Hv5 in Hcs. pose proof (record_offset_cases _ Hok5) as [[Hv Hro']|[Hv Hro']];
    rewrite Hv in Hcs; simpl in Hcs; rewrite Hro5 in Hro'; rewrite Hro' in *.
  - rewrite stored_app by lia. rewrite Hs1, Z.add_0_l, <- Hbuf'. by apply checksum_v1.
  - change (276 + 24 * n) with (20 + 256 + 24 * n). rewrite !stored_app by lia.
    rewrite Hs1, !Z.add_0_l, Hs2 by done. change (20 + 256) with 276. rewrite <- Hbuf', <- app_assoc.
    apply checksum_v2_1; [apply Hw5|done].
Qed.

Lemma kin_table con con' : kin con con' → below_ring con con' → ring_ok con → table con' = table con.
Proof.
  intros Hk Hb Hok. unfold table, slot. rewrite (kin_control _ _ Hk). cbn [ras_fri ras_max_record_count ras_num_recs ras_record_offset set_field].
  apply list_fmap_ext. intros i k Hik. apply stored_same. intros j Hj. apply Hb.
  pose proof (ring_max _ Hok).
  pose proof (Z.mod_pos_bound (ras_fri (eeprom_control con) + k) (ras_max_record_count (eeprom_control con)) ltac:(lia)).
  lia.
Qed.

(** ** Appending *)

(** The bitmap of channels and its flag are all that [update_bad_channel] changes. *)
Lemma update_bad_channels recs (con : ras) :
  ∃ bm fl, fold_left update_bad_channel recs con =
    con <| eeprom_control := (eeprom_control con) <| bad_channel_bitmap := bm |> |>
        <| update_channel_flag := fl |>.
Proof.
  revert con. induction recs as [|r recs IH]; intros con; simpl.
  { exists (bad_channel_bitmap (eeprom_control con)), (update_channel_flag con). by destruct con as [? [] ? ? ? ?]. }
  destruct (IH (update_bad_channel con r)) as (bm & fl & ->). exists bm.
  unfold update_bad_channel. destruct (_ && _); by exists fl.
Qed.

Lemma with_channels_ok con bm fl :
  let con0 := con <| eeprom_control := (eeprom_control con) <| bad_channel_bitmap := bm |> |>
                  <| update_channel_flag := fl |> in
  (ring_ok con → ring_ok con0) ∧ (widths_ok con → widths_ok con0) ∧ table con0 = table con.
Proof. split_and!; [|done|done]. intros []. by split. Qed.

(** The control structure and the rest of the state after an append. *)
Record appended (con con' : ras) (num : Z) : Prop := {
  app_frame : eh_data con' = eh_data con ∧ bad_page_cnt_threshold con' = bad_page_cnt_threshold con;
  app_first : first_rec_offset (tbl_hdr (eeprom_control con')) = first_rec_offset (tbl_hdr (eeprom_control con));
  app_version : version (tbl_hdr (eeprom_control con')) = version (tbl_hdr (eeprom_control con));
  app_place : i2c_address (eeprom_control con') = i2c_address (eeprom_control con) ∧
    ras_record_offset (eeprom_control con') = ras_record_offset (eeprom_control con) ∧
    ras_max_record_count (eeprom_control con') = ras_max_record_count (eeprom_control con);
  app_count : ras_num_recs (eeprom_control con') =
    Z.min (ras_max_record_count (eeprom_control con)) (ras_num_recs (eeprom_control con) + num);
  app_fri : ras_fri (eeprom_control con') =
    (ras_fri (eeprom_control con) + overrun con num) `mod` ras_max_record_count (eeprom_control con);
}.

Lemma append_table_spec con recs con' res :
  let num := Z.of_nat (length recs) in
  ring_ok con → widths_ok con → 0 < num ≤ ras_max_record_count (eeprom_control con) →
  sizes_ok A (24 * num) → alloc_ok env append_buf = true →
  amdgpu_ras_eeprom_append_table A env con recs num = (con', res) →
  (ReliableBus A → res = 0) ∧
  (res = 0 → ring_ok con' ∧ widths_ok con' ∧ appended con con' num ∧
    table con' = drop (Z.to_nat (overrun con num)) (table con ++ (__encode_table_record_to_buf <$> recs))).
Proof.
  intros num Hok Hw Hnum Hsz Ha. unfold amdgpu_ras_eeprom_append_table. rewrite Ha. simpl negb. cbv iota zeta.
  destruct (update_bad_channels recs con) as (bm & fl & ->).
  destruct (with_channels_ok con bm fl) as (Hok0 & Hw0 & Ht). specialize (Hok0 Hok). specialize (Hw0 Hw).
  set (con0 := con <| eeprom_control := _ |> <| update_channel_flag := fl |>) in *.
  destruct (append_write A con0 _ num) as [[con1 r] ob] eqn:E.
  apply append_write_spec in E as (_ & Hrel & Hdone); [|done|done|rewrite length_concat_encode; lia|done].
  intros H. split; [destruct ob; by simplify_eq|].
  intros Hr. assert (Hr' : r = 0) by (destruct ob; by simplify_eq). destruct (Hdone Hr') as (b & -> & Hd).
  injection H as <- <-. pose proof (append_done_table con0 con1 recs b _ Hok0 Hnum Hd eq_refl) as [Hok' Htab].
  unfold append_done in Hd. cbv zeta in Hd.
  split_and!; [done| | |by rewrite Htab, Ht].
  - destruct Hd as [-> _]. exact Hw0.
  - destruct Hd as (Hc1 & _ & Hcount). rewrite Hc1. split; [done..| |done]. simpl. exact Hcount.
Qed.

Lemma eeprom_append_spec con recs con' res :
  let num := Z.of_nat (length recs) in
  let N := ras_max_record_count (eeprom_control con) in
  ring_ok con → widths_ok con → __is_ras_eeprom_supported env = true → 0 < num ≤ N →
  sizes_ok A (256 + 24 * Z.min N (ras_num_recs (eeprom_control con) + num)) →
  amdgpu_ras_eeprom_append A env con recs num = (con', res) →
  (ReliableBus A → (∀ site, alloc_ok env site = true) → res = 0) ∧
  (res = 0 → ring_ok con' ∧ widths_ok con' ∧ header_ok con' ∧ appended con con' num ∧
    table con' = drop (Z.to_nat (overrun con num)) (table con ++ (__encode_table_record_to_buf <$> recs))).
Proof.
  intros num N Hok Hw Hsup Hnum Hsz. unfold amdgpu_ras_eeprom_append. rewrite Hsup. simpl negb. cbv iota.
  destruct (Z.eqb_spec num 0); [lia|]. fold N. destruct (Z.ltb_spec N num); [lia|].
  pose proof (ring_num _ Hok) as Hn. fold N in Hn.
  destruct (alloc_ok env append_buf) eqn:Ea.
  2: { unfold amdgpu_ras_eeprom_append_table. rewrite Ea. simpl. intros [= <- <-]. split; [|done].
       intros _ Hall. by rewrite Hall in Ea. }
  destruct (amdgpu_ras_eeprom_append_table A env con recs num) as [con1 r1] eqn:E1.
  apply append_table_spec in E1 as [Hrel1 H1]; [|done|done|done|eapply sizes_ok_le; [|exact Hsz]; lia|done].
  destruct (nz r1) eqn:En.
  { apply nz_true in En. intros [= <- <-]. split; [|done]. intros Hr _. by rewrite Hrel1 in En. }
  apply nz_false in En. destruct (H1 En) as (Hok1 & Hw1 & Happ & Htab).
  intros E2. apply update_header_spec in E2 as (Hk & Hb & Hrel2 & Hres2);
    [|done|done|rewrite (app_count _ _ _ Happ); done].
  split; [done|]. intros Hr. destruct (Hres2 Hr) as [Hh2 Hw2].
  split_and!; [by eapply kin_ring_ok|done|done| |by rewrite (kin_table con1)].
  destruct Happ as [[A1 A2] A3 A4 (A5 & A6 & A7) A8 A9].
  destruct Hk as [F C V W]. split; [rewrite F; done|by rewrite W|by rewrite V|rewrite C; done|by rewrite C|by rewrite C].
Qed.
End Table.
