(* ===== verification/RasSystem.v ===== *)
(** * The bad page table: properties

    Reading, loading the driver anew on what was stored, and the properties of the
    table. *)

From S2P Require Import Prelude Eeprom RasEeprom RasCodec RasEepromProof.

Section Reading.
Context {D : Type} (A : i2c_adapter D) (mem : D → Z → Z) `{!EepromDevice A mem} (env : ras_env).
Abbreviation ras := (amdgpu_ras D).
Abbreviation cell := (cell mem).
Abbreviation stored := (stored mem).
Abbreviation slot := (slot mem).
Abbreviation table := (table mem).

(** ** Records of a range *)

Lemma decode_prefix x l :
  length x = 24%nat → __decode_table_record_from_buf (x ++ l) = __decode_table_record_from_buf x.
Proof. intros H. do 24 (destruct x as [|? x]; [done|]). by destruct x. Qed.

Lemma decode_records_concat l :
  Forall (λ b, length b = 24%nat) l →
  decode_records (length l) (concat l) = __decode_table_record_from_buf <$> l.
Proof.
  induction 1 as [|x l Hx Hl IH]; [done|]. cbn [length concat decode_records fmap list_fmap].
  rewrite decode_prefix by done. f_equal. rewrite drop_app_length' by done. exact IH.
Qed.

(** Consecutive records. *)
Lemma stored_slots (con : ras) i k :
  stored con (ras_record_offset (eeprom_control con) + 24 * i) (24 * Z.of_nat k) =
  concat (slot con <$> seqZ i (Z.of_nat k)).
Proof.
  revert i. induction k as [|k IH]; intros i; [done|].
  replace (24 * Z.of_nat (S k)) with (24 + 24 * Z.of_nat k) by lia. rewrite stored_app by lia.
  rewrite seqZ_cons by lia. rewrite fmap_cons. cbn [concat]. f_equal.
  replace (_ + 24 * i + 24) with (ras_record_offset (eeprom_control con) + 24 * (i + 1)) by lia.
  rewrite IH. do 3 f_equal; lia.
Qed.

(** The first records of the ring, as one range or as two. *)
Lemma take_table (con : ras) num :
  0 ≤ num ≤ ras_num_recs (eeprom_control con) →
  take (Z.to_nat num) (table con) =
  (λ k, slot con ((ras_fri (eeprom_control con) + k) `mod` ras_max_record_count (eeprom_control con)))
    <$> seqZ 0 num.
Proof.
  intros Hn. unfold RasEepromProof.table.
  replace (ras_num_recs (eeprom_control con)) with (num + (ras_num_recs (eeprom_control con) - num)) by lia.
  rewrite seqZ_app, fmap_app by lia. apply take_app_length'. by rewrite length_fmap, length_seqZ.
Qed.

Lemma slots_stored_range (con : ras) start n off :
  let N := ras_max_record_count (eeprom_control con) in
  0 ≤ start → (∀ k, start ≤ k < start + n →
    (ras_fri (eeprom_control con) + k) `mod` N = off + (k - start)) →
  (λ k, slot con ((ras_fri (eeprom_control con) + k) `mod` N)) <$> seqZ start n = slot con <$> seqZ off n.
Proof.
  intros N Hs H. apply list_eq. intros i. rewrite !list_lookup_fmap.
  destruct (decide (Z.of_nat i < n)).
  - rewrite !lookup_seqZ_lt by lia. simpl. do 2 f_equal. rewrite H by lia. lia.
  - rewrite !lookup_seqZ_ge by lia. done.
Qed.

Lemma read_records_spec (con : ras) buf pos i k con' buf' res :
  ring_ok con → sizes_ok A (24 * k) → 0 ≤ i → 0 ≤ k → i + k ≤ ras_max_record_count (eeprom_control con) →
  0 ≤ pos → pos + 24 * k ≤ Z.of_nat (length buf) →
  __amdgpu_ras_eeprom_read A con buf pos i k = (con', buf', res) →
  con' = con <| bus := bus con' |> ∧ (∀ o, cell con' o = cell con o) ∧ length buf' = length buf ∧
  (ReliableBus A → res = 0) ∧
  (res = 0 → take (Z.to_nat (pos + 24 * k)) buf' =
             take (Z.to_nat pos) buf ++ concat (slot con <$> seqZ i k)).
Proof.
  intros Hok Hsz Hi Hk Hik Hp Hb. destruct (ring_max _ Hok) as [HN Hmax].
  pose proof (record_offset_nonneg _ Hok) as Hro.
  unfold __amdgpu_ras_eeprom_read, RAS_INDEX_TO_OFFSET, RAS_TABLE_RECORD_SIZE.
  rewrite (wrap_small 32 (k * 24)), (wrap_small 32 (_ + _)) by (unfold in_width; lia).
  destruct (table_read _ _ _ _ _) as [[con1 part] r] eqn:E. intros [= <- <- <-].
  apply (table_read_prefix A mem) in E as [(Hc & Hcell & Hbuf & Hrel) [_ Hl]];
    [|apply Hok|by rewrite Z.mul_comm|lia|rewrite length_drop; lia|lia].
  rewrite length_drop in Hl.
  split_and!; [done|done|rewrite length_app, length_take; lia|done|].
  intros Hr. specialize (Hbuf Hr).
  replace (Z.to_nat (pos + 24 * k)) with (length (take (Z.to_nat pos) buf) + Z.to_nat (k * 24))%nat
    by (rewrite length_take; lia).
  rewrite take_app_add, Hbuf. f_equal.
  pose proof (stored_slots con i (Z.to_nat k)) as Hs. rewrite Z2Nat.id in Hs by done. rewrite <- Hs. f_equal; lia.
Qed.

(** Records decoded from a buffer that holds slots. *)
Lemma decode_slots (con : ras) l :
  decode_records (length l) (concat (slot con <$> l)) = __decode_table_record_from_buf <$> (slot con <$> l).
Proof.
  rewrite <- (length_fmap (slot con)). apply decode_records_concat.
  apply Forall_fmap, Forall_true. intros k. apply length_slot.
Qed.

(** A state that differs in the bus and the channels only. *)
Definition only_read (con con' : ras) : Prop :=
  ∃ bm fl, con' = con <| bus := bus con' |>
    <| eeprom_control := (eeprom_control con) <| bad_channel_bitmap := bm |> |> <| update_channel_flag := fl |>.

Lemma only_read_bus (con con' : ras) : con' = con <| bus := bus con' |> → only_read con con'.
Proof.
  intros H. exists (bad_channel_bitmap (eeprom_control con)), (update_channel_flag con).
  rewrite H at 1. by destruct con as [? [] ? ? ? ?].
Qed.

Lemma only_read_channels (con con1 : ras) recs :
  con1 = con <| bus := bus con1 |> → only_read con (fold_left update_bad_channel recs con1).
Proof.
  intros H. destruct (update_bad_channels recs con1) as (bm & fl & E). exists bm, fl. rewrite E. simpl.
  by rewrite H.
Qed.

(** The two reads, of [g0] records from [ras_fri] and of [g1] from the start. *)
Lemma read_parts_spec (con con' : ras) (num g0 g1 : Z) recs res :
  let c := eeprom_control con in
  let buf := replicate (Z.to_nat (num * RAS_TABLE_RECORD_SIZE)) 0 in
  ring_ok con → sizes_ok A (24 * num) → 0 < g0 → 0 ≤ g1 → num = g0 + g1 →
  ras_fri c + g0 ≤ ras_max_record_count c → g1 ≤ ras_max_record_count c →
  (let '(con, buf, res) := __amdgpu_ras_eeprom_read A con buf 0 (ras_fri c) g0 in
   if nz res then (con, [], res) else
   let '(con, buf, res) :=
     if nz g1 then __amdgpu_ras_eeprom_read A con buf (g0 * RAS_TABLE_RECORD_SIZE) 0 g1
     else (con, buf, 0) in
   if nz res then (con, [], res) else
   let records := decode_records (Z.to_nat num) buf in
   (fold_left update_bad_channel records con, records, 0)) = (con', recs, res) →
  (ReliableBus A → res = 0) ∧ only_read con con' ∧ (∀ o, cell con' o = cell con o) ∧
  (res = 0 → recs = __decode_table_record_from_buf <$> (slot con <$> (seqZ (ras_fri c) g0 ++ seqZ 0 g1))).
Proof.
  intros c buf Hok Hsz Hg0 Hg1 -> Hfit Hfit1. pose proof (ring_fri _ Hok) as Hf. fold c in Hf.
  assert (Hlb : Z.of_nat (length buf) = 24 * (g0 + g1)).
  { unfold buf, RAS_TABLE_RECORD_SIZE. rewrite length_replicate. lia. }
  assert (Hch : ∀ l (k : ras) o, cell (fold_left update_bad_channel l k) o = cell k o).
  { intros l k o. destruct (update_bad_channels l k) as (bm & fl & ->). done. }
  destruct (__amdgpu_ras_eeprom_read A con buf 0 _ _) as [[con1 buf1] r1] eqn:E1.
  apply read_records_spec in E1 as (Hc1 & Hcell1 & Hl1 & Hrel1 & Hbuf1);
    [|done|eapply sizes_ok_le; [|exact Hsz]; lia|fold c; lia..].
  destruct (nz r1) eqn:En1.
  { apply nz_true in En1. intros [= <- <- <-]. split_and!; [done|by apply only_read_bus|done|done]. }
  apply nz_false in En1. specialize (Hbuf1 En1). rewrite Z.add_0_l in Hbuf1.
  destruct (nz g1) eqn:Eg1.
  - apply nz_true in Eg1.
    assert (Hok1 : ring_ok con1) by (apply ring_ok_control with con; [by rewrite Hc1|done]).
    destruct (__amdgpu_ras_eeprom_read A con1 buf1 _ 0 _) as [[con2 buf2] r2] eqn:E2.
    unfold RAS_TABLE_RECORD_SIZE in E2. rewrite Z.mul_comm in E2.
    apply read_records_spec in E2 as (Hc2 & Hcell2 & Hl2 & Hrel2 & Hbuf2);
      [|done|eapply sizes_ok_le; [|exact Hsz]; lia|lia|lia| |lia|lia].
    2: { rewrite Hc1. simpl. fold c. lia. }
    assert (Hc : con2 = con <| bus := bus con2 |>) by (by rewrite Hc2, Hc1).
    destruct (nz r2) eqn:En2.
    { apply nz_true in En2. intros [= <- <- <-].
      split_and!; [done|by apply only_read_bus|intros o; by rewrite Hcell2|done]. }
    apply nz_false in En2. specialize (Hbuf2 En2). intros [= <- <- <-].
    split_and!; [done|by apply only_read_channels|intros o; by rewrite Hch, Hcell2|]. intros _.
    rewrite take_ge in Hbuf2 by lia. rewrite Hbuf2, Hbuf1. simpl app.
    assert (Hs : slot con1 <$> seqZ 0 g1 = slot con <$> seqZ 0 g1).
    { apply list_fmap_ext. intros i x _. unfold RasEepromProof.slot. rewrite Hc1 at 2. simpl.
      apply stored_same. intros j _. apply Hcell1. }
    rewrite Hs, <- concat_app, <- fmap_app.
    replace (Z.to_nat (g0 + g1)) with (length (seqZ (ras_fri c) g0 ++ seqZ 0 g1))
      by (rewrite length_app, !length_seqZ; lia).
    apply decode_slots.
  - apply nz_false in Eg1. subst g1. simpl (nz 0). cbv iota. intros [= <- <- <-].
    split_and!; [done|by apply only_read_channels|intros o; by rewrite Hch|]. intros _.
    rewrite take_ge in Hbuf1 by lia. rewrite Hbuf1. simpl app. rewrite app_nil_r.
    replace (Z.to_nat (g0 + 0)) with (length (seqZ (ras_fri c) g0)) by (rewrite length_seqZ; lia).
    apply decode_slots.
Qed.

Lemma read_spec (con con' : ras) num recs res :
  ring_ok con → __is_ras_eeprom_supported env = true → 0 < num ≤ ras_num_recs (eeprom_control con) →
  sizes_ok A (24 * num) → amdgpu_ras_eeprom_read A env con num = (con', recs, res) →
  (ReliableBus A → alloc_ok env read_buf = true → res = 0) ∧ only_read con con' ∧
  (∀ o, cell con' o = cell con o) ∧
  (res = 0 → recs = __decode_table_record_from_buf <$> take (Z.to_nat num) (table con)).
Proof.
  intros Hok Hsup Hnum Hsz. unfold amdgpu_ras_eeprom_read. rewrite Hsup. simpl negb. cbv iota.
  destruct (Z.eqb_spec num 0); [lia|]. destruct (Z.ltb_spec (ras_num_recs (eeprom_control con)) num); [lia|].
  destruct (alloc_ok env read_buf); simpl negb; cbv iota zeta.
  2: { intros [= <- <- <-]. split_and!; [done|by apply only_read_bus; destruct con|done|done]. }
  destruct (ring_max _ Hok) as [HN Hmax]. pose proof (ring_num _ Hok) as Hn. pose proof (ring_fri _ Hok) as Hf.
  pose proof (record_offset_nonneg _ Hok) as Hro.
  pose proof (take_table con num ltac:(lia)) as Htake. pose proof (slots_stored_range con) as Hrange. cbv zeta in Hrange.
  pose proof (read_parts_spec con con' num) as Hparts. cbv zeta in Hparts.
  set (c := eeprom_control con) in *. set (N := ras_max_record_count c) in *. set (f := ras_fri c) in *.
  rewrite (wrap_small 32) by (unfold in_width; lia).
  destruct (Z.ltb_spec (f + num - 1) N) as [H1|H1]; intros E.
  - apply Hparts in E as (Hrel & Ho & Hcell & Hrecs); [|done|done|lia..].
    split_and!; [intros; by apply Hrel|done|done|]. intros Hr. rewrite (Hrecs Hr). f_equal. rewrite Htake. simpl. rewrite app_nil_r.
    symmetry. apply Hrange; [lia|]. intros k Hk. rewrite Z.mod_small; lia.
  - replace ((f + num - 1) `mod` N + 1) with (num - (N - f)) in E
      by (rewrite <- (Z.mod_add _ (-1)) by lia; rewrite Z.mod_small; lia).
    apply Hparts in E as (Hrel & Ho & Hcell & Hrecs); [|done|done|lia..].
    split_and!; [intros; by apply Hrel|done|done|]. intros Hr. rewrite (Hrecs Hr). f_equal. rewrite Htake.
    replace num with (N - f + (num - (N - f))) at 2 by lia. rewrite seqZ_app, !fmap_app by lia. f_equal.
    + symmetry. apply Hrange; [lia|]. intros k Hk. rewrite Z.mod_small; lia.
    + symmetry. apply Hrange; [lia|]. intros k Hk. rewrite <- (Z.mod_add _ (-1)) by lia. rewrite Z.mod_small; lia.
Qed.

(** ** Loading the driver anew *)

(** The same bytes behind two buses. *)
Definition same_mem (st st' : D) : Prop := ∀ x, mem st' x = mem st x.

Lemma table_read_reliable `{!ReliableBus A} (con : ras) off buf n :
  placed con → sizes_ok A n → 0 ≤ off → n = Z.of_nat (length buf) → off + n ≤ 2 ^ 18 →
  ∃ st, same_mem (bus con) st ∧ table_read A con off buf n = (con <| bus := st |>, stored con off n, n).
Proof.
  intros Hpl Hsz Ho Hn Hle. destruct (table_read A con off buf n) as [[con' buf'] r] eqn:E.
  pose proof E as E'. apply (table_read_prefix A mem) in E' as [(_ & _ & _ & Hrel) [Hr _]]; [|done|done|lia..].
  specialize (Hrel _). apply io_result_zero in Hrel; [|done]. subst r.
  apply (table_read_spec A mem) in E as (Hc & Hcell & Hbuf & _); [|done|done|lia..].
  rewrite Hbuf by (apply io_result_done; lia). exists (bus con'). rewrite <- Hc. split; [|done].
  intros x. specialize (Hcell (x - i2c_address (eeprom_control con))). unfold RasEepromProof.cell in Hcell.
  rewrite Hc in Hcell at 2. simpl in Hcell. by replace (_ + (x - _)) with x in Hcell by lia.
Qed.

(** What [amdgpu_ras_eeprom_init] finds: a table in order, at the place it looks. *)
Record on_device (con con0 : ras) : Prop := {
  dev_bus : bus con0 = bus con;
  dev_ring : ring_ok con;
  dev_widths : widths_ok con;
  dev_header : header_ok mem con;
  dev_first : first_rec_offset (tbl_hdr (eeprom_control con)) = ras_record_offset (eeprom_control con);
  dev_padding : padding (tbl_rai (eeprom_control con0)) = replicate 63 0;
  dev_sizes : sizes_ok A (276 + 24 * ras_num_recs (eeprom_control con));
  dev_supported : __is_ras_eeprom_supported env = true;
  dev_ready : i2c_ready env = true;
  dev_addr : __get_eeprom_i2c_addr env = Some (i2c_address (eeprom_control con));
  dev_alloc : ∀ site, alloc_ok env site = true;
}.

(** The state after the header was read. *)
Definition loaded (con con1 : ras) : Prop :=
  same_mem (bus con) (bus con1) ∧
  tbl_hdr (eeprom_control con1) = tbl_hdr (eeprom_control con) ∧
  i2c_address (eeprom_control con1) = i2c_address (eeprom_control con) ∧
  ras_header_offset (eeprom_control con1) = RAS_HDR_START ∧
  ras_info_offset (eeprom_control con1) = RAS_TABLE_V2_1_INFO_START ∧
  ras_record_offset (eeprom_control con1) = ras_record_offset (eeprom_control con) ∧
  ras_num_recs (eeprom_control con1) = ras_num_recs (eeprom_control con) ∧
  ras_fri (eeprom_control con1) = 0 ∧
  ras_max_record_count (eeprom_control con1) =
    (2 ^ 18 - ras_record_offset (eeprom_control con)) / 24 ∧
  padding (tbl_rai (eeprom_control con1)) = replicate 63 0.

Lemma init_layout_spec (con : ras) c :
  ring_ok con → widths_ok con → header_ok mem con →
  first_rec_offset (tbl_hdr (eeprom_control con)) = ras_record_offset (eeprom_control con) →
  tbl_hdr c = tbl_hdr (eeprom_control con) →
  init_layout c = c <| ras_num_recs := ras_num_recs (eeprom_control con) |>
    <| ras_record_offset := ras_record_offset (eeprom_control con) |>
    <| ras_max_record_count := (2 ^ 18 - ras_record_offset (eeprom_control con)) / 24 |>
    <| ras_fri := 0 |>.
Proof.
  intros Hok [Hw _] Hh Hf Hc. pose proof (ring_num _ Hok). pose proof (ring_max _ Hok).
  unfold init_layout, RAS_OFFSET_TO_INDEX, RAS_NUM_RECS, RAS_NUM_RECS_V2_1. rewrite Hc, Hf, (hdr_size _ _ Hh).
  unfold RAS_TABLE_HEADER_SIZE, RAS_TABLE_V2_1_INFO_SIZE, RAS_TABLE_RECORD_SIZE.
  destruct (record_offset_cases _ Hok) as [[Hv Hro]|[Hv Hro]]; rewrite Hv, Hro in *; simpl;
    rewrite wrap_small by (unfold in_width; lia).
  - replace (20 + _ - 20) with (ras_num_recs (eeprom_control con) * 24) by lia. by rewrite Z.div_mul by lia.
  - replace (276 + _ - 20 - 256) with (ras_num_recs (eeprom_control con) * 24) by lia. by rewrite Z.div_mul by lia.
Qed.

(** The table as the new driver has it. *)
Record reloaded (con con1 : ras) : Prop := {
  rel_ring : ring_ok con1;
  rel_place : i2c_address (eeprom_control con1) = i2c_address (eeprom_control con) ∧
    ras_record_offset (eeprom_control con1) = ras_record_offset (eeprom_control con);
  rel_count : ras_num_recs (eeprom_control con1) = ras_num_recs (eeprom_control con);
  rel_fri : ras_fri (eeprom_control con1) = 0;
  rel_version : version (tbl_hdr (eeprom_control con1)) = version (tbl_hdr (eeprom_control con));
  rel_cells : ∀ o, ras_record_offset (eeprom_control con) ≤ o → cell con1 o = cell con o;
}.

Lemma loaded_cells con con1 : loaded con con1 → ∀ o, cell con1 o = cell con o.
Proof. intros (Hm & _ & Ha & _) o. unfold RasEepromProof.cell. by rewrite Ha, Hm. Qed.

Lemma loaded_placed con con1 : ring_ok con → loaded con con1 → placed con1.
Proof. intros Hok (_ & _ & Ha & _). unfold placed. rewrite Ha. apply Hok. Qed.

Lemma max_count (con : ras) :
  ring_ok con → let N := (2 ^ 18 - ras_record_offset (eeprom_control con)) / 24 in
  ras_max_record_count (eeprom_control con) ≤ N ∧ ras_record_offset (eeprom_control con) + 24 * N ≤ 2 ^ 18.
Proof.
  intros Hok. pose proof (ring_max _ Hok). pose proof (Z.mul_div_le (2 ^ 18 - ras_record_offset (eeprom_control con)) 24).
  cbv zeta. split; [apply Z.div_le_lower_bound; lia|lia].
Qed.

Lemma loaded_ring_ok con con1 : ring_ok con → loaded con con1 → ring_ok con1.
Proof.
  intros Hok (Hm & Hh & Ha & H1 & H2 & H3 & H4 & H5 & H6 & _). pose proof (max_count con Hok) as Hmax. cbv zeta in Hmax.
  pose proof (ring_max _ Hok). pose proof (ring_num _ Hok). pose proof (record_offset_nonneg _ Hok).
  split; unfold placed; rewrite ?Ha, ?H1, ?H2, ?H3, ?H4, ?H5, ?H6, ?Hh; try apply Hok; try done; [lia|lia|lia|by left].
Qed.

Lemma loaded_reloaded con con1 : ring_ok con → loaded con con1 → reloaded con con1.
Proof.
  intros Hok Hl. pose proof (loaded_ring_ok _ _ Hok Hl) as Hok1. pose proof (loaded_cells _ _ Hl) as Hc.
  destruct Hl as (Hm & Hh & Ha & H1 & H2 & H3 & H4 & H5 & H6 & _). split; try done. by rewrite Hh.
Qed.

Lemma loaded_bus con con1 st : loaded con con1 → same_mem (bus con1) st → loaded con (con1 <| bus := st |>).
Proof.
  intros (Hm & H) Hs. split; [|exact H]. intros x. simpl. by rewrite Hs, Hm.
Qed.

Section Init.
Context `{!ReliableBus A} (con con0 : ras) (Hdev : on_device con con0).

Lemma stored_loaded con1 off n : loaded con con1 → stored con1 off n = stored con off n.
Proof. intros Hl. apply stored_same. intros i _. by apply loaded_cells. Qed.

Lemma init_read_info_spec con1 :
  loaded con con1 → ∃ con2, init_read_info A env con1 = (con2, 0) ∧ loaded con con2.
Proof.
  intros Hl. pose proof (dev_ring _ _ Hdev) as Hok. unfold init_read_info, __read_table_ras_info.
  assert (Hh : tbl_hdr (eeprom_control con1) = tbl_hdr (eeprom_control con)) by apply Hl. rewrite Hh.
  destruct (Z.eqb_spec (version (tbl_hdr (eeprom_control con))) RAS_TABLE_VER_V2_1) as [Hv|]; [|by exists con1].
  rewrite (dev_alloc _ _ Hdev). simpl negb. cbv iota.
  assert (Hi : ras_info_offset (eeprom_control con1) = 20) by apply Hl. rewrite Hi.
  destruct (table_read_reliable con1 20 (replicate 256 0) 256) as (st & Hst & E); try done.
  { by apply loaded_placed with con. }
  { eapply sizes_ok_le; [|apply (dev_sizes _ _ Hdev)]. pose proof (ring_num _ Hok). lia. }
  unfold RAS_TABLE_V2_1_INFO_SIZE. rewrite E. simpl Z.ltb. cbv iota. eexists. split; [done|].
  rewrite (stored_loaded con1 _ _ Hl), (info_stored _ _ (dev_header _ _ Hdev)) by done.
  pose proof (loaded_bus _ _ _ Hl Hst) as Hl2.
  destruct Hl2 as (M & H1 & H2 & H3 & H4 & H5 & H6 & H7 & H8 & H9). split_and!; try done.
Qed.

Lemma verify_spec con1 :
  loaded con con1 →
  ∃ st, same_mem (bus con1) st ∧ __verify_ras_table_checksum A env con1 = (con1 <| bus := st |>, 0).
Proof.
  intros Hl. pose proof (dev_ring _ _ Hdev) as Hok. unfold __verify_ras_table_checksum.
  pose proof (ring_num _ Hok) as Hn. pose proof (ring_max _ Hok) as Hmax.
  assert (Hh : tbl_hdr (eeprom_control con1) = tbl_hdr (eeprom_control con)) by apply Hl.
  assert (Hnum : ras_num_recs (eeprom_control con1) = ras_num_recs (eeprom_control con)) by apply Hl.
  assert (H0 : ras_header_offset (eeprom_control con1) = 0) by apply Hl.
  rewrite Hh, Hnum, H0.
  assert (Hsz : s32 (u32 (RAS_TABLE_HEADER_SIZE +
     (if version (tbl_hdr (eeprom_control con)) =? RAS_TABLE_VER_V2_1 then RAS_TABLE_V2_1_INFO_SIZE else 0) +
     ras_num_recs (eeprom_control con) * RAS_TABLE_RECORD_SIZE)) =
    ras_record_offset (eeprom_control con) + 24 * ras_num_recs (eeprom_control con)).
  { unfold RAS_TABLE_HEADER_SIZE, RAS_TABLE_V2_1_INFO_SIZE, RAS_TABLE_RECORD_SIZE.
    destruct (record_offset_cases _ Hok) as [[Hv Hro]|[Hv Hro]]; rewrite Hv, Hro in *; simpl (_ =? _);
      cbv iota; rewrite wrap_small, s32_small by (unfold in_width; lia); lia. }
  rewrite Hsz. 
  set (size := ras_record_offset (eeprom_control con) + 24 * ras_num_recs (eeprom_control con)).
  assert (Hsize : 0 ≤ size ≤ 2 ^ 18 ∧ size ≤ 276 + 24 * ras_num_recs (eeprom_control con)).
  { unfold size. destruct (record_offset_cases _ Hok) as [[_ Hro]|[_ Hro]]; lia. }
  rewrite (dev_alloc _ _ Hdev), (wrap_small 32) by (unfold in_width; lia). simpl negb. cbv iota.
  destruct (table_read_reliable con1 0 (replicate (Z.to_nat size) 0) size) as (st & Hst & E).
  { by apply loaded_placed with con. }
  { eapply sizes_ok_le; [|apply (dev_sizes _ _ Hdev)]. lia. }
  { done. } { rewrite length_replicate. lia. } { lia. }
  rewrite E. destruct (Z.ltb_spec size size); [lia|]. exists st. split; [done|]. f_equal.
  rewrite (stored_loaded con1 _ _ Hl). apply (hdr_sum _ _ (dev_header _ _ Hdev)).
Qed.

(** The new tag is written over the old one, below the records. *)
Lemma correct_tag_spec con1 t :
  loaded con con1 →
  ∃ con2, amdgpu_ras_eeprom_correct_header_tag A con1 t = (con2, 0) ∧ reloaded con con2.
Proof.
  intros Hl. pose proof (dev_ring _ _ Hdev) as Hok. pose proof (ring_num _ Hok) as Hn.
  unfold amdgpu_ras_eeprom_correct_header_tag. cbv zeta.
  set (csum := u8 (- _)). set (con1' := set_hdr _ con1). unfold __write_table_header.
  assert (Hh0 : ras_header_offset (eeprom_control con1') = 0) by (unfold con1'; simpl; apply Hl). rewrite Hh0.
  destruct (table_write A con1' 0 _ _) as [con2 r] eqn:E.
  assert (Hpl : placed con1') by (apply (loaded_placed con con1 Hok Hl)).
  apply (table_write_spec A mem) in E as (Hc & Ho & _ & Hrel); [|done| |lia| |done].
  2: { eapply sizes_ok_le; [|apply (dev_sizes _ _ Hdev)]. unfold RAS_TABLE_HEADER_SIZE. lia. }
  2: { rewrite length_encode_header. unfold RAS_TABLE_HEADER_SIZE. lia. }
  exists con2. split; [by rewrite (Hrel _)|].
  destruct (loaded_reloaded _ _ Hok Hl) as [R1 R2 R3 R4 R5 R6].
  assert (Hk : kin con1 con2).
  { apply kin_trans with con1'; [by apply kin_set_hdr|by apply kin_bus]. }
  split.
  - by apply (kin_ring_ok con1).
  - rewrite (kin_control _ _ Hk). exact R2.
  - rewrite (kin_control _ _ Hk). exact R3.
  - rewrite (kin_control _ _ Hk). exact R4.
  - by rewrite (kin_version _ _ Hk).
  - intros o Hro. rewrite Ho; [by apply (R6 o)|]. unfold RAS_TABLE_HEADER_SIZE.
    destruct (record_offset_cases _ Hok) as [[_ H]|[_ H]]; lia.
Qed.

Lemma init_spec :
  header (tbl_hdr (eeprom_control con)) = RAS_TABLE_HDR_VAL ∨
  (header (tbl_hdr (eeprom_control con)) = RAS_TABLE_HDR_BAD ∧ amdgpu_bad_page_threshold env ≠ 0) →
  ∃ con1 exceed, amdgpu_ras_eeprom_init A env con0 = (con1, 0, exceed) ∧ reloaded con con1 ∧
    (amdgpu_bad_page_threshold env = -1 → exceed = false).
Proof.
  intros Htag. pose proof (dev_ring _ _ Hdev) as Hok. pose proof (ring_num _ Hok) as Hn.
  unfold amdgpu_ras_eeprom_init.
  rewrite (dev_supported _ _ Hdev), (dev_ready _ _ Hdev), (dev_addr _ _ Hdev). simpl negb. cbv iota.
  set (cona := set_control _ con0).
  assert (Hcell : ∀ o, cell cona o = cell con o) by (intros o; unfold RasEepromProof.cell; simpl; by rewrite (dev_bus _ _ Hdev)).
  destruct (table_read_reliable cona RAS_HDR_START (replicate 20 0) RAS_TABLE_HEADER_SIZE) as (st & Hst & E); try done.
  { apply Hok. }
  { eapply sizes_ok_le; [|apply (dev_sizes _ _ Hdev)]. unfold RAS_TABLE_HEADER_SIZE. lia. }
  rewrite E. simpl (_ <? _). cbv iota.
  assert (E0 : stored cona RAS_HDR_START RAS_TABLE_HEADER_SIZE =
    __encode_table_header_to_buf (tbl_hdr (eeprom_control con))).
  { etransitivity; [apply stored_same; intros; apply Hcell|exact (hdr_stored _ _ (dev_header _ _ Hdev))]. }
  rewrite E0, header_roundtrip by apply (dev_widths _ _ Hdev).
  set (conb := set_control _ _).
  assert (Hl : loaded con conb).
  { unfold conb, set_control. rewrite (init_layout_spec con); [|done|apply Hdev|apply Hdev|apply Hdev|done].
    split_and!; try done; [|apply Hdev].
    intros x. simpl. rewrite Hst. unfold cona. simpl. by rewrite (dev_bus _ _ Hdev). }
  clearbody conb.
  assert (Hh : tbl_hdr (eeprom_control conb) = tbl_hdr (eeprom_control con)) by apply Hl. rewrite Hh.
  destruct (init_read_info_spec conb Hl) as (con2 & E2 & Hl2). rewrite E2. simpl nz. cbv iota.
  destruct (verify_spec con2 Hl2) as (st' & Hst' & E3). rewrite E3.
  pose proof (loaded_bus _ _ _ Hl2 Hst') as Hl3. pose proof (loaded_reloaded _ _ Hok Hl3) as Hr3.
  set (con3 := con2 <| bus := st' |>) in *. clearbody con3.
  destruct Htag as [->|[-> Hthr]]; simpl.
  { by eexists _, _; split_and!. }
  destruct (Z.eqb_spec (amdgpu_bad_page_threshold env) 0); [done|]. simpl.
  destruct (_ <? _).
  - destruct (correct_tag_spec _ RAS_TABLE_HDR_VAL Hl3) as (con4 & E4 & Hr4). rewrite E4. by eexists _, _; split_and!.
  - destruct (Z.eqb_spec (amdgpu_bad_page_threshold env) (-1)); by eexists _, _; split_and!.
Qed.
End Init.
End Reading.

(** ** Control structure and transfers, whatever the device *)

Section Tags.
Context {D : Type} (A : i2c_adapter D) (env : ras_env).
Abbreviation ras := (amdgpu_ras D).

Lemma table_write_control (con con' : ras) off buf n r :
  table_write A con off buf n = (con', r) → eeprom_control con' = eeprom_control con ∧ eh_data con' = eh_data con.
Proof. unfold table_write. destruct (amdgpu_eeprom_write _ _ _ _ _). by intros [= <- <-]. Qed.

Lemma table_read_control (con con' : ras) off buf n buf' r :
  table_read A con off buf n = (con', buf', r) → eeprom_control con' = eeprom_control con ∧ eh_data con' = eh_data con.
Proof. unfold table_read. destruct (amdgpu_eeprom_read _ _ _ _ _) as [[? ?] ?]. by intros [= <- <- <-]. Qed.

Lemma write_tables_control (con con' : ras) res :
  write_tables A env con = (con', res) → eeprom_control con' = eeprom_control con ∧ eh_data con' = eh_data con.
Proof.
  unfold write_tables, __write_table_header, __write_table_ras_info.
  destruct (table_write A con _ _ _) as [con1 r1] eqn:E1. apply table_write_control in E1 as [H1 H1'].
  destruct (_ && _); [|by intros [= <- <-]]. destruct (negb _); [by intros [= <- <-]|].
  destruct (table_write A con1 _ _ _) as [con2 r2] eqn:E2. apply table_write_control in E2 as [H2 H2'].
  intros [= <- <-]. by rewrite H2, H1, H2', H1'.
Qed.

(** The same place, layout and version. *)
Definition same_layout (c c' : amdgpu_ras_eeprom_control) : Prop :=
  i2c_address c' = i2c_address c ∧ ras_header_offset c' = ras_header_offset c ∧
  ras_info_offset c' = ras_info_offset c ∧ ras_record_offset c' = ras_record_offset c ∧
  ras_max_record_count c' = ras_max_record_count c ∧ version (tbl_hdr c') = version (tbl_hdr c).

Lemma same_layout_trans c1 c2 c3 : same_layout c1 c2 → same_layout c2 c3 → same_layout c1 c3.
Proof. unfold same_layout. intros (?&?&?&?&?&?) (?&?&?&?&?&?). split_and!; congruence. Qed.

(** The tag, the number of records and the layout after the header was updated. *)
Lemma update_header_control (con con' : ras) res :
  amdgpu_ras_eeprom_update_header A env con = (con', res) →
  (header (tbl_hdr (eeprom_control con')) = header (tbl_hdr (eeprom_control con)) ∨
   (header (tbl_hdr (eeprom_control con')) = RAS_TABLE_HDR_BAD ∧ amdgpu_bad_page_threshold env ≠ 0)) ∧
  ras_num_recs (eeprom_control con') = ras_num_recs (eeprom_control con) ∧
  same_layout (eeprom_control con) (eeprom_control con') ∧
  eh_data con' = eh_data con.
Proof.
  unfold amdgpu_ras_eeprom_update_header.
  assert (H1 : let c1 := set_table_size (mark_bad env con) in
    (header (tbl_hdr (eeprom_control c1)) = header (tbl_hdr (eeprom_control con)) ∨
     (header (tbl_hdr (eeprom_control c1)) = RAS_TABLE_HDR_BAD ∧ amdgpu_bad_page_threshold env ≠ 0)) ∧
    ras_num_recs (eeprom_control c1) = ras_num_recs (eeprom_control con) ∧
    same_layout (eeprom_control con) (eeprom_control c1) ∧ eh_data c1 = eh_data con).
  { unfold mark_bad. destruct (negb (amdgpu_bad_page_threshold env =? 0) && _) eqn:Eb; [|by split; [left|]].
    bool_to_Prop. destruct (is_v2_1 con); (split; [by right|done]). }
  generalize dependent (set_table_size (mark_bad env con)). intros con1 H1.
  destruct (negb _); [by intros [= <- <-]|].
  destruct (table_read A con1 _ _ _) as [[con2 buf] r] eqn:E. apply table_read_control in E as [Hc2 He2].
  cbv zeta in H1. rewrite <- Hc2, <- He2 in H1.
  destruct (nz _); [by intros [= <- <-]|].
  intros Hw. apply write_tables_control in Hw as [-> ->].
  assert (Hh : tbl_hdr (eeprom_control (update_health env con2)) = tbl_hdr (eeprom_control con2) ∧
    ras_num_recs (eeprom_control (update_health env con2)) = ras_num_recs (eeprom_control con2) ∧
    same_layout (eeprom_control con2) (eeprom_control (update_health env con2)) ∧
    eh_data (update_health env con2) = eh_data con2) by (unfold update_health; by destruct (_ && _)).
  destruct Hh as (Hh1 & Hh2 & Hh3 & Hh4), H1 as (H1 & H2 & H3 & H4). 
  split; [simpl; by rewrite Hh1|]. split; [simpl; by rewrite Hh2|]. split; [|simpl; by rewrite Hh4].
  eapply same_layout_trans; [exact H3|]. eapply same_layout_trans; [exact Hh3|]. by split_and!.
Qed.

Lemma write_records_control (con con' : ras) buf i k res :
  __amdgpu_ras_eeprom_write A con buf i k = (con', res) →
  eeprom_control con' = eeprom_control con ∧ eh_data con' = eh_data con.
Proof.
  unfold __amdgpu_ras_eeprom_write. destruct (table_write A con _ _ _) as [con1 r1] eqn:E1.
  intros [= <- <-]. by apply table_write_control in E1.
Qed.

(** Apart from the place of the first record, writing records changes nothing. *)
Lemma append_write_control (con con' : ras) buf num res ob :
  append_write A con buf num = (con', res, ob) →
  (∃ fri, eeprom_control con' = (eeprom_control con) <| ras_fri := fri |>) ∧ eh_data con' = eh_data con ∧
  (let c := eeprom_control con in
   u32 (u32 (ras_fri c + ras_num_recs c) + num - 1) < ras_max_record_count c →
   ras_fri (eeprom_control con') = ras_fri c ∧ ob = Some (u32 (u32 (ras_fri c + ras_num_recs c) + num - 1))).
Proof.
  assert (Hid : ∀ c, ∃ fri, c = c <| ras_fri := fri |>).
  { intros c. exists (ras_fri c). by destruct c. }
  assert (Hset : ∀ (c1 : ras) (x : Z), eeprom_control c1 = eeprom_control con →
    ∃ fri, eeprom_control (set_fri x c1) = (eeprom_control con) <| ras_fri := fri |>).
  { intros c1 x H. exists x. simpl. by rewrite H. }
  assert (Hkeep : ∀ (c1 : ras), eeprom_control c1 = eeprom_control con →
    ∃ fri, eeprom_control c1 = (eeprom_control con) <| ras_fri := fri |>) by (intros c1 ->; apply Hid).
  unfold append_write. cbv zeta. set (c := eeprom_control con) in *.
  destruct (Z.ltb_spec (u32 (u32 (ras_fri c + ras_num_recs c) + num - 1)) (ras_max_record_count c)).
  { destruct (__amdgpu_ras_eeprom_write A con _ _ _) as [con1 r1] eqn:E1. intros [= <- <- <-].
    apply write_records_control in E1 as [H1 H1']. split_and!; [by apply Hkeep|done|]. intros _. by rewrite H1. }
  intros E. split; [|split; [|lia]]; revert E;
    repeat first [ match goal with |- context [__amdgpu_ras_eeprom_write A ?k ?b ?i ?n] =>
      let E := fresh "E" in destruct (__amdgpu_ras_eeprom_write A k b i n) as [? ?] eqn:E;
      apply write_records_control in E as [? ?] end
    | match goal with |- context [if ?b then _ else _] => destruct b end ];
    intros [= <- <- <-]; subst c; first [apply Hset; congruence | apply Hkeep; congruence | simpl; congruence].
Qed.

(** What an append can have done to the tag, and that it counts its records when
    they fit behind the others, whether they were written or not. *)
Lemma append_control (con con' : ras) recs num res :
  amdgpu_ras_eeprom_append A env con recs num = (con', res) →
  (header (tbl_hdr (eeprom_control con')) = header (tbl_hdr (eeprom_control con)) ∨
   (header (tbl_hdr (eeprom_control con')) = RAS_TABLE_HDR_BAD ∧ amdgpu_bad_page_threshold env ≠ 0)) ∧
  same_layout (eeprom_control con) (eeprom_control con') ∧
  eh_data con' = eh_data con ∧
  (let c := eeprom_control con in
   __is_ras_eeprom_supported env = true → alloc_ok env append_buf = true →
   ras_fri c = 0 → 0 ≤ ras_num_recs c → 0 < num → ras_num_recs c + num ≤ ras_max_record_count c →
   ras_max_record_count c ≤ 2 ^ 18 → ras_num_recs (eeprom_control con') = ras_num_recs c + num).
Proof.
  unfold amdgpu_ras_eeprom_append. cbv zeta.
  destruct (__is_ras_eeprom_supported env); simpl negb; cbv iota; [|intros [= <- <-]; by split; [left|]].
  destruct (Z.eqb_spec num 0); [intros [= <- <-]; split; [by left|split_and!; [done|done|lia]]|].
  destruct (Z.ltb_spec (ras_max_record_count (eeprom_control con)) num).
  { intros [= <- <-]; split; [by left|split_and!; [done|done|lia]]. }
  unfold amdgpu_ras_eeprom_append_table.
  destruct (alloc_ok env append_buf); simpl negb; cbv iota.
  2: { simpl. intros [= <- <-]. by split; [left|]. }
  destruct (update_bad_channels recs con) as (bm & fl & ->).
  set (con0 := con <| eeprom_control := _ |> <| update_channel_flag := fl |>).
  destruct (append_write A con0 _ num) as [[con1 r] ob] eqn:E.
  apply append_write_control in E as ((fri & Hc1) & He1 & Hno). cbv zeta in Hno.
  set (con2 := match ob with Some b => _ | None => _ end). assert (H2 :
    header (tbl_hdr (eeprom_control con2.1)) = header (tbl_hdr (eeprom_control con)) ∧
    same_layout (eeprom_control con) (eeprom_control con2.1) ∧ eh_data con2.1 = eh_data con ∧
    (ras_fri (eeprom_control con) = 0 → 0 ≤ ras_num_recs (eeprom_control con) → 0 < num →
     ras_num_recs (eeprom_control con) + num ≤ ras_max_record_count (eeprom_control con) →
     ras_max_record_count (eeprom_control con) ≤ 2 ^ 18 →
     ras_num_recs (eeprom_control con2.1) = ras_num_recs (eeprom_control con) + num)).
  { split_and!.
    - unfold con2. destruct ob; simpl; by rewrite Hc1.
    - unfold con2, same_layout. destruct ob; simpl; by rewrite Hc1.
    - unfold con2. destruct ob; simpl; by rewrite He1.
    - intros Hf Hn Hnum Hle HN. unfold con0 in Hno. simpl in Hno. rewrite Hf, Z.add_0_l in Hno.
      rewrite !(wrap_small 32) in Hno by (rewrite ?wrap_small; unfold in_width; lia).
      destruct Hno as [Hf1 ->]; [lia|]. simpl in Hf1. unfold con2. simpl. rewrite Hf1, Hc1. simpl.
      apply count_small; [lia|lia|lia|lia| |lia]. by replace (_ - _) with 0 by lia. }
  clearbody con2. destruct con2 as [con2 r2]. simpl in H2. destruct H2 as (H2 & H3 & H4 & H5).
  destruct (nz r2); [intros [= <- <-]; split_and!; [by left|done|done|done]|].
  intros Hu. apply update_header_control in Hu as (U1 & U2 & U3 & U4).
  split_and!; [|by eapply same_layout_trans|congruence|intros; rewrite U2; by apply H5].
  rewrite H2 in U1. exact U1.
Qed.

(** Loading the table leaves the list in memory alone. *)
Lemma init_eh_data (con con' : ras) res exceed :
  amdgpu_ras_eeprom_init A env con = (con', res, exceed) → eh_data con' = eh_data con.
Proof.
  unfold amdgpu_ras_eeprom_init. destruct (negb _); [by intros [= <- _ _]|]. destruct (negb _); [by intros [= <- _ _]|].
  destruct (__get_eeprom_i2c_addr env) as [a|]; [|by intros [= <- _ _]]. cbv zeta.
  destruct (table_read A _ _ _ _) as [[con1 buf] r] eqn:E. apply table_read_control in E as [_ H1]. cbn in H1.
  destruct (_ <? _); [by intros [= <- _ _]|].
  set (con2 := set_control _ con1). assert (H2 : eh_data con2 = eh_data con) by (by rewrite <- H1).
  clearbody con2.
  assert (Hinfo : ∀ (c c' : ras) r, init_read_info A env c = (c', r) → eh_data c' = eh_data c).
  { intros c c' r'. unfold init_read_info, __read_table_ras_info. destruct (_ =? _); [|by intros [= <- _]].
    destruct (negb _); [by intros [= <- _]|]. destruct (table_read A _ _ _ _) as [[c1 b] r1] eqn:E.
    apply table_read_control in E as [_ H3]. destruct (_ <? _); by intros [= <- _]. }
  assert (Hver : ∀ (c c' : ras) r, __verify_ras_table_checksum A env c = (c', r) → eh_data c' = eh_data c).
  { intros c c' r'. unfold __verify_ras_table_checksum. destruct (negb _); [by intros [= <- _]|].
    destruct (table_read A _ _ _ _) as [[c1 b] r1] eqn:E. apply table_read_control in E as [_ H3].
    destruct (_ <? _); by intros [= <- _]. }
  assert (Htag : ∀ (c c' : ras) t r, amdgpu_ras_eeprom_correct_header_tag A c t = (c', r) → eh_data c' = eh_data c).
  { intros c c' t r'. unfold amdgpu_ras_eeprom_correct_header_tag, __write_table_header. cbv zeta.
    destruct (table_write A _ _ _ _) as [c1 r1] eqn:E. apply table_write_control in E as [_ H3]. by intros [= <- _]. }
  assert (Hreset : ∀ (c c' : ras) r, amdgpu_ras_eeprom_reset_table A env c = (c', r) → eh_data c' = eh_data c).
  { intros c c' r'. unfold amdgpu_ras_eeprom_reset_table. cbv zeta.
    destruct (write_tables A env _) as [c1 r1] eqn:E. apply write_tables_control in E as [_ H3].
    intros [= <- _]. cbn. rewrite H3. by destruct (_ =? _). }
  destruct (_ =? _); [|destruct (_ && _)].
  - destruct (init_read_info A env con2) as [c3 r3] eqn:E3. apply Hinfo in E3.
    destruct (nz r3); [intros [= <- _ _]; congruence|].
    destruct (__verify_ras_table_checksum A env c3) as [c4 r4] eqn:E4. apply Hver in E4. intros [= <- _ _]. congruence.
  - destruct (init_read_info A env con2) as [c3 r3] eqn:E3. apply Hinfo in E3.
    destruct (nz r3); [intros [= <- _ _]; congruence|].
    destruct (__verify_ras_table_checksum A env c3) as [c4 r4] eqn:E4. apply Hver in E4.
    destruct (_ <? _); [|destruct (_ =? _); intros [= <- _ _]; congruence].
    destruct (amdgpu_ras_eeprom_correct_header_tag A c4 _) as [c5 r5] eqn:E5. apply Htag in E5. intros [= <- _ _]. congruence.
  - destruct (amdgpu_ras_eeprom_reset_table A env con2) as [c3 r3] eqn:E3. apply Hreset in E3. intros [= <- _ _]. congruence.
Qed.
End Tags.

(** ** A new table *)

Section Reset.
Context {D : Type} (A : i2c_adapter D) (mem : D → Z → Z) (env : ras_env) `{!EepromDevice A mem}.
Abbreviation ras := (amdgpu_ras D).

(** The RAS info goes to its place last. *)
Lemma write_tables_info (con con' : ras) :
  placed con → sizes_ok A 256 → ras_info_offset (eeprom_control con) = 20 →
  version (tbl_hdr (eeprom_control con)) = RAS_TABLE_VER_V2_1 →
  write_tables A env con = (con', 0) →
  stored mem con' 20 256 = __encode_table_ras_info_to_buf (tbl_rai (eeprom_control con)) (replicate 256 0).
Proof.
  intros Hpl Hsz Hi Hv. unfold write_tables, __write_table_header.
  destruct (table_write A con _ _ _) as [con1 r1] eqn:E1. apply table_write_control in E1 as [H1 _]. rewrite H1, Hv.
  rewrite andb_true_r. destruct (Z.eqb_spec (io_result r1 RAS_TABLE_HEADER_SIZE) 0) as [|Hne]; [|by intros [= _ ?]].
  unfold __write_table_ras_info. destruct (negb _); [done|]. rewrite H1, Hi.
  destruct (table_write A con1 _ _ _) as [con2 r2] eqn:E2.
  assert (Hpl1 : placed con1) by (unfold placed; by rewrite H1).
  apply (table_write_spec A mem) in E2 as (_ & _ & Hw & _); [|done|done|done|rewrite length_encode_info; done|done].
  intros [= <- Hr]. apply stored_eq; [by rewrite length_encode_info|]. intros j Hj. by apply Hw.
Qed.

(** Bytes of the RAS info that are reserved. *)
Lemma reserved_zero i j :
  4 ≤ j < 256 → byte_at (__encode_table_ras_info_to_buf i (replicate 256 0)) j = 0.
Proof.
  intros Hj. unfold __encode_table_ras_info_to_buf. change 0%nat with (Z.to_nat 0).
  rewrite byte_at_inserts by (rewrite ?length_le_bytes, ?length_replicate; lia).
  rewrite length_le_bytes, decide_False by lia. unfold byte_at. by rewrite lookup_replicate_2 by lia.
Qed.

(** After a successful update of the header of a V2.1 table. *)
Lemma update_header_info (con con' : ras) :
  placed con → sizes_ok A 256 → ras_info_offset (eeprom_control con) = 20 →
  version (tbl_hdr (eeprom_control con)) = RAS_TABLE_VER_V2_1 →
  amdgpu_ras_eeprom_update_header A env con = (con', 0) →
  ∃ i, stored mem con' 20 256 = __encode_table_ras_info_to_buf i (replicate 256 0).
Proof.
  intros Hpl Hsz Hi Hv. unfold amdgpu_ras_eeprom_update_header.
  assert (H1 : same_layout (eeprom_control con) (eeprom_control (set_table_size (mark_bad env con)))).
  { unfold mark_bad. destruct (_ && _); [|by split_and!]. by destruct (is_v2_1 con); split_and!. }
  generalize dependent (set_table_size (mark_bad env con)). intros con1 H1.
  destruct (negb _); [done|].
  destruct (table_read A con1 _ _ _) as [[con2 buf] r] eqn:E. apply table_read_control in E as [Hc2 _].
  rewrite <- Hc2 in H1. destruct (nz _) eqn:En; [intros [= _ Hr]; by rewrite Hr in En|].
  assert (Hh : same_layout (eeprom_control con2) (eeprom_control (update_checksum buf (update_health env con2))))
    by (unfold update_health, same_layout; by destruct (_ && _)).
  generalize dependent (update_checksum buf (update_health env con2)). intros con3 Hh Hw.
  pose proof (same_layout_trans _ _ _ H1 Hh) as (L1 & L2 & L3 & L4 & L5 & L6).
  apply write_tables_info in Hw; [by eexists|unfold placed; by rewrite L1|done|by rewrite L3|by rewrite L6].
Qed.

Lemma append_info (con con' : ras) recs num :
  placed con → sizes_ok A 256 → ras_info_offset (eeprom_control con) = 20 →
  version (tbl_hdr (eeprom_control con)) = RAS_TABLE_VER_V2_1 →
  __is_ras_eeprom_supported env = true →
  amdgpu_ras_eeprom_append A env con recs num = (con', 0) →
  ∃ i, stored mem con' 20 256 = __encode_table_ras_info_to_buf i (replicate 256 0).
Proof.
  intros Hpl Hsz Hi Hv Hsup. unfold amdgpu_ras_eeprom_append. rewrite Hsup. simpl negb. cbv iota.
  destruct (_ =? _); [done|]. destruct (_ <? _); [done|]. unfold amdgpu_ras_eeprom_append_table.
  destruct (negb _); [done|]. destruct (update_bad_channels recs con) as (bm & fl & ->).
  set (con0 := con <| eeprom_control := _ |> <| update_channel_flag := fl |>).
  destruct (append_write A con0 _ num) as [[con1 r] ob] eqn:E. apply append_write_control in E as ((fri & Hc1) & _ & _).
  set (con2 := match ob with Some b => _ | None => _ end).
  assert (H2 : same_layout (eeprom_control con) (eeprom_control con2.1))
    by (unfold con2, same_layout; destruct ob; simpl; by rewrite Hc1).
  clearbody con2. destruct con2 as [con2 r2]. destruct H2 as (L1 & L2 & L3 & L4 & L5 & L6). simpl in *.
  destruct (nz r2) eqn:En; [intros [= _ Hr]; by rewrite Hr in En|].
  apply update_header_info; [unfold placed; by rewrite L1|done|by rewrite L3|by rewrite L6].
Qed.

(** A reset on a bus without errors. *)
Definition has_hook : bool := match set_version env with Some _ => true | None => false end.
Definition known_hook : Prop :=
  set_version env = None ∨ set_version env = Some umc_v8_10_set_eeprom_table_version.

Lemma write_tables_reliable `{!ReliableBus A} (con : ras) :
  placed con → sizes_ok A 256 → ras_header_offset (eeprom_control con) = 0 →
  ras_info_offset (eeprom_control con) = 20 → (∀ site, alloc_ok env site = true) →
  ∃ con', write_tables A env con = (con', 0) ∧
    stored mem con' 0 20 = __encode_table_header_to_buf (tbl_hdr (eeprom_control con)).
Proof.
  intros Hpl Hsz H0 Hi Hal. unfold write_tables, __write_table_header. rewrite H0.
  destruct (table_write A con _ _ _) as [con1 r1] eqn:E1. pose proof E1 as E1'. apply table_write_control in E1' as [H1 _].
  apply (table_write_spec A mem) in E1 as (_ & _ & Hw1 & Hrel1);
    [|done|eapply sizes_ok_le; [|done]; done|done|rewrite length_encode_header; done|done].
  specialize (Hrel1 _). rewrite Hrel1, H1.
  assert (Hs : stored mem con1 0 20 = __encode_table_header_to_buf (tbl_hdr (eeprom_control con))).
  { apply stored_eq; [by rewrite length_encode_header|]. intros j Hj. by apply Hw1. }
  destruct (_ && _); [|by eexists]. unfold __write_table_ras_info. rewrite Hal, H1, Hi. simpl negb. cbv iota.
  destruct (table_write A con1 _ _ _) as [con2 r2] eqn:E2.
  apply (table_write_spec A mem) in E2 as (_ & Ho & _ & Hrel2);
    [|unfold placed; by rewrite H1|done|done|rewrite length_encode_info; done|done].
  exists con2. split; [by rewrite (Hrel2 _)|]. rewrite <- Hs. apply stored_same. intros j Hj.
  apply Ho. unfold RAS_TABLE_V2_1_INFO_SIZE. lia.
Qed.

Lemma reset_spec `{!ReliableBus A} (con : ras) :
  placed con → sizes_ok A 256 → ras_header_offset (eeprom_control con) = 0 →
  ras_info_offset (eeprom_control con) = 20 → (∀ site, alloc_ok env site = true) → known_hook →
  ∃ con', amdgpu_ras_eeprom_reset_table A env con = (con', 0) ∧
    stored mem con' 0 20 = __encode_table_header_to_buf (tbl_hdr (eeprom_control con')) ∧
    header_width (tbl_hdr (eeprom_control con')) ∧
    header (tbl_hdr (eeprom_control con')) = RAS_TABLE_HDR_VAL ∧
    (if has_hook
     then version (tbl_hdr (eeprom_control con')) = RAS_TABLE_VER_V2_1 ∧ tbl_size (tbl_hdr (eeprom_control con')) = 276
     else version (tbl_hdr (eeprom_control con')) = RAS_TABLE_VER_V1 ∧ tbl_size (tbl_hdr (eeprom_control con')) = 20) ∧
    ras_num_recs (eeprom_control con') = 0 ∧ ras_fri (eeprom_control con') = 0 ∧
    i2c_address (eeprom_control con') = i2c_address (eeprom_control con) ∧
    ras_info_offset (eeprom_control con') = 20 ∧
    ras_record_offset (eeprom_control con') = ras_record_offset (eeprom_control con) ∧
    ras_max_record_count (eeprom_control con') = ras_max_record_count (eeprom_control con).
Proof.
  intros Hpl Hsz H0 Hi Hal Hhook. unfold amdgpu_ras_eeprom_reset_table. cbv zeta.
  set (con1 := set_hdr (λ h, h <| checksum := _ |>) _).
  assert (Hcon1 : placed con1 ∧ ras_header_offset (eeprom_control con1) = 0 ∧
    ras_info_offset (eeprom_control con1) = 20 ∧ i2c_address (eeprom_control con1) = i2c_address (eeprom_control con) ∧
    ras_record_offset (eeprom_control con1) = ras_record_offset (eeprom_control con) ∧
    ras_max_record_count (eeprom_control con1) = ras_max_record_count (eeprom_control con) ∧
    header_width (tbl_hdr (eeprom_control con1)) ∧
    header (tbl_hdr (eeprom_control con1)) = RAS_TABLE_HDR_VAL ∧
    (if has_hook
     then version (tbl_hdr (eeprom_control con1)) = RAS_TABLE_VER_V2_1 ∧ tbl_size (tbl_hdr (eeprom_control con1)) = 276
     else version (tbl_hdr (eeprom_control con1)) = RAS_TABLE_VER_V1 ∧ tbl_size (tbl_hdr (eeprom_control con1)) = 20)).
  { unfold con1, has_hook. generalize (λ x, wrap_in_width 8 x ltac:(lia)). intros Hw.
    assert (Hw' : ∀ x, in_width 32 (u8 x)) by (intros x; specialize (Hw x); unfold in_width in *; lia).
    destruct Hhook as [->| ->]; (do 6 (split; [done|]); split; [|done]);
      (do 4 (split; [done|]); apply Hw'). }
  clearbody con1. destruct Hcon1 as (C1 & C2 & C3 & C4 & C5 & C6 & Cw & C7 & C8).
  destruct (write_tables_reliable con1 C1 Hsz C2 C3 Hal) as (con2 & E2 & Hs2). rewrite E2.
  apply write_tables_control in E2 as [Hc2 _]. eexists. split; [done|].
  split; [|simpl; rewrite Hc2; split_and!; done].
  transitivity (stored mem con2 0 20); [done|]. rewrite Hs2. simpl. by rewrite Hc2.
Qed.

(** A driver that looks for a table at [a]. *)
Record probes (a : Z) : Prop := {
  probe_supported : __is_ras_eeprom_supported env = true;
  probe_ready : i2c_ready env = true;
  probe_addr : __get_eeprom_i2c_addr env = Some a;
  probe_place : a = EEPROM_I2C_MADDR_0 ∨ a = EEPROM_I2C_MADDR_4;
  probe_sizes : sizes_ok A 256;
  probe_alloc : ∀ site, alloc_ok env site = true;
  probe_hook : known_hook;
}.

(** The header at [a]. *)
Definition header_at (st : D) (a : Z) : amdgpu_ras_eeprom_table_header :=
  __decode_table_header_from_buf (mem_range (mem st) a 20).

Lemma mem_range_shift (m : Z → Z) a n : mem_range (λ o, m (a + o)) 0 n = mem_range m a n.
Proof.
  apply list_eq. intros i. unfold mem_range. rewrite !list_lookup_fmap.
  destruct (decide (Z.of_nat i < n)); [rewrite !lookup_seqZ_lt by lia|by rewrite !lookup_seqZ_ge by lia].
  simpl. by do 2 f_equal.
Qed.

Lemma init_layout_place c :
  i2c_address (init_layout c) = i2c_address c ∧ ras_header_offset (init_layout c) = ras_header_offset c ∧
  ras_info_offset (init_layout c) = ras_info_offset c ∧ tbl_hdr (init_layout c) = tbl_hdr c ∧
  ras_record_offset (init_layout c) =
    (if version (tbl_hdr c) =? RAS_TABLE_VER_V2_1 then RAS_RECORD_START_V2_1 else RAS_RECORD_START).
Proof. unfold init_layout. destruct (_ =? _); (do 4 (split; [reflexivity|]); reflexivity). Qed.

Lemma init_resets `{!ReliableBus A} (con0 : ras) a :
  probes a → header (header_at (bus con0) a) ≠ RAS_TABLE_HDR_VAL →
  (header (header_at (bus con0) a) ≠ RAS_TABLE_HDR_BAD ∨ amdgpu_bad_page_threshold env = 0) →
  ∃ con1, amdgpu_ras_eeprom_init A env con0 = (con1, 0, false) ∧
    placed con1 ∧ i2c_address (eeprom_control con1) = a ∧ ras_info_offset (eeprom_control con1) = 20 ∧
    ras_num_recs (eeprom_control con1) = 0 ∧
    header_at (bus con1) a = tbl_hdr (eeprom_control con1) ∧
    header (tbl_hdr (eeprom_control con1)) = RAS_TABLE_HDR_VAL ∧
    (if has_hook
     then version (tbl_hdr (eeprom_control con1)) = RAS_TABLE_VER_V2_1 ∧ tbl_size (tbl_hdr (eeprom_control con1)) = 276
     else version (tbl_hdr (eeprom_control con1)) = RAS_TABLE_VER_V1 ∧ tbl_size (tbl_hdr (eeprom_control con1)) = 20) ∧
    ras_record_offset (eeprom_control con1) =
      (if version (header_at (bus con0) a) =? RAS_TABLE_VER_V2_1 then RAS_RECORD_START_V2_1 else RAS_RECORD_START).
Proof.
  intros [P1 P2 P3 P4 P5 P6 P7] Hval Hbad. unfold amdgpu_ras_eeprom_init. rewrite P1, P2, P3. simpl negb. cbv iota.
  set (cona := set_control _ con0).
  destruct (table_read_reliable A mem cona RAS_HDR_START (replicate 20 0) RAS_TABLE_HEADER_SIZE) as (st & Hst & E); try done.
  rewrite E. simpl (_ <? _). cbv iota.
  assert (E0 : stored mem cona RAS_HDR_START RAS_TABLE_HEADER_SIZE = mem_range (mem (bus con0)) a 20).
  { unfold stored, cell. apply (mem_range_shift (mem (bus con0))). }
  rewrite E0. fold (header_at (bus con0) a). generalize dependent (header_at (bus con0) a). intros hdr Hval Hbad.
  set (conb := set_control _ _).
  assert (Hb : placed conb ∧ i2c_address (eeprom_control conb) = a ∧ ras_header_offset (eeprom_control conb) = 0 ∧
    ras_info_offset (eeprom_control conb) = 20 ∧ tbl_hdr (eeprom_control conb) = hdr ∧
    ras_record_offset (eeprom_control conb) =
      (if version hdr =? RAS_TABLE_VER_V2_1 then RAS_RECORD_START_V2_1 else RAS_RECORD_START)).
  { destruct (init_layout_place ((eeprom_control (cona <| bus := st |>)) <| tbl_hdr := hdr |>)) as (L1 & L2 & L3 & L4 & L5).
    assert (La : i2c_address (eeprom_control conb) = a) by exact L1.
    split; [unfold placed; rewrite La; exact P4|]. split; [exact La|]. split; [exact L2|].
    split; [exact L3|]. split; [exact L4|exact L5]. }
  clearbody conb. destruct Hb as (B1 & B2 & B3 & B4 & B5 & B6). rewrite B5.
  destruct (Z.eqb_spec (header hdr) RAS_TABLE_HDR_VAL); [done|].
  assert (Hb2 : (header hdr =? RAS_TABLE_HDR_BAD) && negb (amdgpu_bad_page_threshold env =? 0) = false).
  { destruct Hbad as [Hne|Hz]; [by rewrite (proj2 (Z.eqb_neq _ _) Hne)|by rewrite Hz, andb_false_r]. }
  rewrite Hb2. destruct (reset_spec conb B1 P5 B3 B4 P6 P7) as (con1 & -> & R1 & Rw & R2 & R3 & R4 & R5 & R6 & R7 & R8 & R9).
  exists con1. split_and!; try done; [unfold placed; by rewrite R6|by rewrite R6| |by rewrite R8].
  unfold header_at. rewrite <- (header_roundtrip _ Rw), <- R1. f_equal.
  unfold stored, cell. rewrite R6, B2. symmetry. apply (mem_range_shift (mem (bus con1))).
Qed.

(** A new table of version 2.1 loses its records.  When the device holds no
    table yet and the memory controller asks for version 2.1, the driver keeps the
    record offset of version 1 it derived from what it read, so the RAS info is
    written over the records: after any successful append the records 1 to 9 of the
    device are zero, whatever was appended. *)
Theorem ras_new_v2_1_loses_records `{!ReliableBus A} (con0 : ras) a recs :
  probes a → header (header_at (bus con0) a) ≠ RAS_TABLE_HDR_VAL →
  header (header_at (bus con0) a) ≠ RAS_TABLE_HDR_BAD →
  version (header_at (bus con0) a) ≠ RAS_TABLE_VER_V2_1 → has_hook = true →
  ∃ con1, amdgpu_ras_eeprom_init A env con0 = (con1, 0, false) ∧
    version (tbl_hdr (eeprom_control con1)) = RAS_TABLE_VER_V2_1 ∧
    ras_record_offset (eeprom_control con1) = RAS_RECORD_START ∧
    ∀ con2, amdgpu_ras_eeprom_append A env con1 recs (Z.of_nat (length recs)) = (con2, 0) →
      ∀ i, 1 ≤ i < 10 → slot mem con2 i = replicate 24 0.
Proof.
  intros Hp Hval Hbad Hv Hhook.
  destruct (init_resets con0 a Hp Hval (or_introl Hbad)) as (con1 & Hi & I1 & I2 & I3 & I4 & I5 & I6 & I7 & I8).
  rewrite (proj2 (Z.eqb_neq _ _) Hv) in I8. rewrite Hhook in I7. destruct I7 as [I7 _].
  exists con1. split_and!; [done|done|done|]. intros con2 Ha i Hi'. destruct Hp as [P1 P2 P3 P4 P5 P6 P7].
  pose proof Ha as Hc. apply append_control in Hc as (_ & (L1 & _ & _ & L4 & _) & _).
  apply append_info in Ha as [info Hinfo]; [|done..].
  unfold slot. apply stored_eq; [done|]. intros j Hj. rewrite L4, I8. unfold RAS_RECORD_START, RAS_HDR_START, RAS_TABLE_HEADER_SIZE.
  replace (0 + 20 + 24 * i + j) with (20 + (24 * i + j)) by lia.
  rewrite <- (byte_at_mem_range (cell mem con2) 20 256) by lia.
  change (mem_range (cell mem con2) 20 256) with (stored mem con2 20 256). rewrite Hinfo, reserved_zero by lia.
  unfold byte_at. by rewrite lookup_replicate_2 by lia.
Qed.

(** Loading the driver with bad page retirement disabled erases a table that
    reached its threshold: with [amdgpu_bad_page_threshold] 0 a table with the tag
    of a bad device is taken for none, and the header on the device becomes that of
    an empty table. *)
Theorem ras_disabled_erases_bad_table `{!ReliableBus A} (con0 : ras) a :
  probes a → header (header_at (bus con0) a) = RAS_TABLE_HDR_BAD → amdgpu_bad_page_threshold env = 0 →
  ∃ con1, amdgpu_ras_eeprom_init A env con0 = (con1, 0, false) ∧
    ras_num_recs (eeprom_control con1) = 0 ∧
    header (header_at (bus con1) a) = RAS_TABLE_HDR_VAL ∧
    (if has_hook then RAS_NUM_RECS_V2_1 else RAS_NUM_RECS) (header_at (bus con1) a) = 0.
Proof.
  intros Hp Hbad Hthr.
  destruct (init_resets con0 a Hp) as (con1 & Hi & I1 & I2 & I3 & I4 & I5 & I6 & I7 & I8).
  { by rewrite Hbad. } { by right. }
  exists con1. rewrite I5. split_and!; [done|done|done|].
  unfold RAS_NUM_RECS, RAS_NUM_RECS_V2_1. destruct has_hook; destruct I7 as [_ ->]; done.
Qed.
End Reset.


(** ** Properties *)

Section Properties.
Context {D : Type} (A : i2c_adapter D) (mem : D → Z → Z) (env : ras_env).
Abbreviation ras := (amdgpu_ras D).

(** C20. An append refines "add to a list that keeps its last N entries".  If it
    reports success the records in the ring, oldest first, are the last N of the
    old ones followed by the new, the device holds the header that describes them
    with bytes that add up to 0, and the ring is well formed; on a bus without
    errors and with memory it succeeds.  No records, or more than N, are refused
    without any change. *)
Theorem ras_append_keeps_last (con : ras) recs :
  let num := Z.of_nat (length recs) in
  let N := ras_max_record_count (eeprom_control con) in
  let '(con', res) := amdgpu_ras_eeprom_append A env con recs num in
  EepromDevice A mem → __is_ras_eeprom_supported env = true →
  (num = 0 ∨ N < num → con' = con ∧ res = -EINVAL) ∧
  (ring_ok con → widths_ok con → 0 < num ≤ N →
   sizes_ok A (256 + 24 * Z.min N (ras_num_recs (eeprom_control con) + num)) →
   (ReliableBus A → (∀ site, alloc_ok env site = true) → res = 0) ∧
   (res = 0 →
    let new := table mem con ++ (__encode_table_record_to_buf <$> recs) in
    table mem con' = drop (length new - Z.to_nat N) new ∧
    ring_ok con' ∧ widths_ok con' ∧ header_ok mem con')).
Proof.
  intros num N. destruct (amdgpu_ras_eeprom_append A env con recs num) as [con' res] eqn:E.
  intros Hdev Hsup. split.
  - intros Hnum. revert E. unfold amdgpu_ras_eeprom_append. rewrite Hsup. simpl negb. cbv iota. fold N.
    destruct (Z.eqb_spec num 0); [by intros [= <- <-]|]. destruct (Z.ltb_spec N num); [by intros [= <- <-]|lia].
  - intros Hok Hw Hnum Hsz. apply (eeprom_append_spec A mem env) in E as [Hrel Hres]; [|done..].
    split; [done|]. intros Hr. destruct (Hres Hr) as (Hok' & Hw' & Hh & _ & Ht).
    split_and!; [|done|done|done]. rewrite Ht. f_equal. pose proof (ring_num _ Hok).
    rewrite length_app, length_table, length_fmap. unfold overrun. fold N. lia.
Qed.

(** A read returns the oldest records.  For [num] up to the number of records
    it gives, when it succeeds, the first [num] of the ring decoded, and changes
    neither the table nor its place in it; on a bus without errors it succeeds. *)
Theorem ras_read_oldest (con : ras) num :
  let '(con', recs, res) := amdgpu_ras_eeprom_read A env con num in
  EepromDevice A mem → __is_ras_eeprom_supported env = true → ring_ok con →
  (num = 0 ∨ ras_num_recs (eeprom_control con) < num → con' = con ∧ recs = [] ∧ res = -EINVAL) ∧
  (0 < num ≤ ras_num_recs (eeprom_control con) → sizes_ok A (24 * num) →
   (ReliableBus A → alloc_ok env read_buf = true → res = 0) ∧
   (res = 0 → recs = __decode_table_record_from_buf <$> take (Z.to_nat num) (table mem con)) ∧
   table mem con' = table mem con ∧ ring_ok con').
Proof.
  destruct (amdgpu_ras_eeprom_read A env con num) as [[con' recs] res] eqn:E.
  intros Hdev Hsup Hok. split.
  - intros Hnum. revert E. unfold amdgpu_ras_eeprom_read. rewrite Hsup. simpl negb. cbv iota.
    destruct (Z.eqb_spec num 0); [by intros [= <- <- <-]|].
    destruct (Z.ltb_spec (ras_num_recs (eeprom_control con)) num); [by intros [= <- <- <-]|lia].
  - intros Hnum Hsz. apply (read_spec A mem env) in E as (Hrel & (bm & fl & Hc) & Hcell & Hrecs); [|done..].
    split_and!; [done|done| |].
    + unfold table, slot. rewrite Hc. simpl. apply list_fmap_ext. intros i k _.
      apply stored_same. intros j _. rewrite <- (Hcell (ras_record_offset (eeprom_control con) + 24 * _ + j)).
      unfold cell. by rewrite Hc.
    + rewrite Hc. destruct Hok. by split.
Qed.

(** A table in use, about to get [recs], and a driver that looks for it. *)
Record in_use (con : ras) (recs : list eeprom_table_record) : Prop := {
  use_ring : ring_ok con;
  use_widths : widths_ok con;
  use_first : first_rec_offset (tbl_hdr (eeprom_control con)) = ras_record_offset (eeprom_control con);
  use_tag : header (tbl_hdr (eeprom_control con)) = RAS_TABLE_HDR_VAL ∨
    (header (tbl_hdr (eeprom_control con)) = RAS_TABLE_HDR_BAD ∧ amdgpu_bad_page_threshold env ≠ 0);
  use_num : 0 < Z.of_nat (length recs) ≤ ras_max_record_count (eeprom_control con);
  use_sizes : sizes_ok A (276 + 24 * Z.min (ras_max_record_count (eeprom_control con))
    (ras_num_recs (eeprom_control con) + Z.of_nat (length recs)));
}.

Record finds_table (con : ras) : Prop := {
  find_supported : __is_ras_eeprom_supported env = true;
  find_ready : i2c_ready env = true;
  find_addr : __get_eeprom_i2c_addr env = Some (i2c_address (eeprom_control con));
  find_alloc : ∀ site, alloc_ok env site = true;
}.

Context `{!EepromDevice A mem} `{!ReliableBus A}.

(** The state of the device after an append, as a new driver needs it. *)
Lemma append_on_device (con con' con0 : ras) recs res :
  in_use con recs → finds_table con → bus con0 = bus con' →
  padding (tbl_rai (eeprom_control con0)) = replicate 63 0 →
  amdgpu_ras_eeprom_append A env con recs (Z.of_nat (length recs)) = (con', res) →
  res = 0 ∧ on_device A mem env con' con0 ∧ appended con con' (Z.of_nat (length recs)) ∧
  table mem con' = drop (Z.to_nat (overrun con (Z.of_nat (length recs))))
                     (table mem con ++ (__encode_table_record_to_buf <$> recs)) ∧
  (header (tbl_hdr (eeprom_control con')) = RAS_TABLE_HDR_VAL ∨
   (header (tbl_hdr (eeprom_control con')) = RAS_TABLE_HDR_BAD ∧ amdgpu_bad_page_threshold env ≠ 0)).
Proof.
  intros [H1 H2 H3 H4 H5 H6] [F1 F2 F3 F4] Hbus Hpad E. pose proof E as E'.
  apply append_control in E' as (Htag & _). apply (eeprom_append_spec A mem env) in E as [Hrel Hres]; [|done..|].
  2: { eapply sizes_ok_le; [|exact H6]. lia. }
  specialize (Hrel _ F4). destruct (Hres Hrel) as (Hok' & Hw' & Hh & Happ & Ht).
  destruct Happ as [Ap1 Ap2 Ap3 (Ap4 & Ap5 & Ap6) Ap7 Ap8].
  split_and!; [done| |done|done|].
  - split; try done; [by rewrite Ap2, Ap5|by rewrite Ap7|by rewrite Ap4].
  - destruct Htag as [->|?]; [done|by right].
Qed.

Lemma reloaded_slot (con con1 : ras) i :
  ring_ok con → reloaded mem con con1 → 0 ≤ i → slot mem con1 i = slot mem con i.
Proof.
  intros Hok Hr Hi. unfold slot. destruct (rel_place _ _ _ Hr) as [_ ->].
  apply stored_same. intros j Hj. apply (rel_cells _ _ _ Hr). lia.
Qed.

(** The table of a new driver is in the order of the indices. *)
Lemma reloaded_table (con con1 : ras) :
  ring_ok con → reloaded mem con con1 →
  table mem con1 = slot mem con <$> seqZ 0 (ras_num_recs (eeprom_control con)).
Proof.
  intros Hok Hr. pose proof (rel_ring _ _ _ Hr) as Hok1. pose proof (ring_num _ Hok1) as Hn1.
  pose proof (ring_num _ Hok). unfold table. rewrite (rel_fri _ _ _ Hr), (rel_count _ _ _ Hr) in *.
  apply list_fmap_ext. intros i k Hk. apply lookup_seqZ in Hk as [-> Hk]. rewrite Z.add_0_l, Z.mod_small by lia.
  apply reloaded_slot; [done|done|lia].
Qed.

(** The ring turned so that index 0 is first. *)
Lemma ring_rotation (con : ras) :
  ring_ok con → ras_fri (eeprom_control con) ≠ 0 →
  let k := Z.to_nat (ras_max_record_count (eeprom_control con) - ras_fri (eeprom_control con)) in
  slot mem con <$> seqZ 0 (ras_num_recs (eeprom_control con)) =
  drop k (table mem con) ++ take k (table mem con).
Proof.
  intros Hok Hf. cbv zeta. pose proof (ring_fri _ Hok) as Hfri. pose proof (ring_num _ Hok).
  destruct (ring_full _ Hok) as [|Hfull]; [done|]. unfold table. rewrite Hfull.
  pose proof (slots_stored_range mem con) as Hrange. cbv zeta in Hrange.
  set (N := ras_max_record_count (eeprom_control con)) in *. set (f := ras_fri (eeprom_control con)) in *.
  assert (Hseq : seqZ 0 N = seqZ 0 (N - f) ++ seqZ (0 + (N - f)) f) by (rewrite <- seqZ_app by lia; f_equal; lia).
  assert (Hrot : (λ k, slot mem con ((f + k) `mod` N)) <$> seqZ 0 N =
    (slot mem con <$> seqZ f (N - f)) ++ (slot mem con <$> seqZ 0 f)).
  { rewrite Hseq, fmap_app. f_equal; apply Hrange; try lia; intros k Hk.
    - rewrite Z.mod_small; lia.
    - rewrite <- (Z.mod_add _ (-1)) by lia. rewrite Z.mod_small; lia. }
  rewrite Hrot, drop_app_length', take_app_length' by (by rewrite length_fmap, length_seqZ).
  rewrite <- fmap_app. f_equal. replace N with (f + (N - f)) at 1 by lia. by rewrite seqZ_app by lia.
Qed.

(** C26. What was appended is found again.  On a device without errors that holds a
    table for this driver, when the ring starts at its first record and has room for
    the new ones (after a wrap the order is lost, [ras_wrap_loses_order]), an append
    followed by loading the driver anew, with whatever control structure it starts
    from, and a read of all records gives the records that were there and the new
    ones, in their order, with the fields as the table keeps them. *)
Theorem ras_append_reload (con con0 : ras) recs :
  let num := Z.of_nat (length recs) in
  let '(con', res) := amdgpu_ras_eeprom_append A env con recs num in
  in_use con recs → finds_table con → bus con0 = bus con' →
  padding (tbl_rai (eeprom_control con0)) = replicate 63 0 →
  ras_fri (eeprom_control con) = 0 →
  ras_num_recs (eeprom_control con) + num ≤ ras_max_record_count (eeprom_control con) →
  res = 0 ∧ ∃ con1 exceed con2,
  amdgpu_ras_eeprom_init A env con0 = (con1, 0, exceed) ∧
  ras_num_recs (eeprom_control con1) = ras_num_recs (eeprom_control con) + num ∧
  amdgpu_ras_eeprom_read A env con1 (ras_num_recs (eeprom_control con1)) =
    (con2, (__decode_table_record_from_buf <$> table mem con) ++ (record_stored <$> recs), 0).
Proof.
  intros num. destruct (amdgpu_ras_eeprom_append A env con recs num) as [con' res] eqn:E.
  intros Huse Hfind Hbus Hpad Hf Hle. pose proof Huse as [U1 _ _ _ U5 U6]. pose proof Hfind as [F1 F2 F3 F4].
  destruct (append_on_device _ _ _ _ _ Huse Hfind Hbus Hpad E) as (-> & Hdev & Happ & Ht & Htag).
  fold num in Happ, Ht. assert (Hov : overrun con num = 0) by (unfold overrun; lia).
  rewrite Hov in Ht. change (Z.to_nat 0) with 0%nat in Ht. rewrite drop_0 in Ht. split; [done|].
  destruct (init_spec A mem env con' con0 Hdev Htag) as (con1 & ex & Hinit & Hr & _).
  pose proof (dev_ring _ _ _ _ _ Hdev) as Hok'. pose proof (ring_num _ U1) as Hn.
  assert (Hcount : ras_num_recs (eeprom_control con1) = ras_num_recs (eeprom_control con) + num).
  { rewrite (rel_count _ _ _ Hr), (app_count _ _ _ Happ). lia. }
  destruct (amdgpu_ras_eeprom_read A env con1 (ras_num_recs (eeprom_control con1))) as [[con2 l] r2] eqn:Er.
  exists con1, ex, con2. split_and!; [done|done|].
  pose proof Er as Er'. apply (read_spec A mem env) in Er' as (Hrel2 & _ & _ & Hl);
    [|apply (rel_ring _ _ _ Hr)|done|rewrite Hcount; lia|rewrite Hcount; eapply sizes_ok_le; [|exact U6]; lia].
  specialize (Hrel2 _ (F4 _)). rewrite Er, (Hl Hrel2), Hrel2. do 2 f_equal.
  rewrite take_ge by (rewrite length_table; lia). rewrite (reloaded_table _ _ Hok' Hr).
  assert (Htab : slot mem con' <$> seqZ 0 (ras_num_recs (eeprom_control con')) = table mem con').
  { pose proof (app_fri _ _ _ Happ) as Hf'. rewrite Hf, Hov, Z.mod_0_l in Hf' by lia.
    pose proof (ring_num _ Hok'). pose proof (ring_max _ Hok').
    unfold table. rewrite Hf'. apply list_fmap_ext. intros i k Hk. apply lookup_seqZ in Hk as [-> Hk].
    by rewrite Z.add_0_l, Z.mod_small by lia. }
  rewrite Htab, Ht, fmap_app. f_equal. rewrite <- list_fmap_compose. apply list_fmap_ext.
  intros i r _. apply decode_encode.
Qed.

(** After the ring has wrapped the driver finds it in another order.  The header
    keeps the offset of index 0 as the place of the first record, so that a driver
    loaded anew has the old ring turned by the position of its first record: the
    oldest record is not the first, and not the one the next append overwrites. *)
Theorem ras_wrap_loses_order (con con0 : ras) recs :
  let num := Z.of_nat (length recs) in
  let N := ras_max_record_count (eeprom_control con) in
  let '(con', res) := amdgpu_ras_eeprom_append A env con recs num in
  in_use con recs → finds_table con → bus con0 = bus con' →
  padding (tbl_rai (eeprom_control con0)) = replicate 63 0 →
  let fri := (ras_fri (eeprom_control con) + overrun con num) `mod` N in
  fri ≠ 0 →
  ras_fri (eeprom_control con') = fri ∧
  ∃ con1 exceed, amdgpu_ras_eeprom_init A env con0 = (con1, 0, exceed) ∧
    ras_fri (eeprom_control con1) = 0 ∧
    table mem con1 = drop (Z.to_nat (N - fri)) (table mem con') ++ take (Z.to_nat (N - fri)) (table mem con').
Proof.
  intros num N. destruct (amdgpu_ras_eeprom_append A env con recs num) as [con' res] eqn:E.
  intros Huse Hfind Hbus Hpad fri Hfri.
  destruct (append_on_device _ _ _ _ _ Huse Hfind Hbus Hpad E) as (-> & Hdev & Happ & Ht & Htag).
  fold num in Happ. pose proof (app_fri _ _ _ Happ) as Hf'. fold N fri in Hf'. split; [done|].
  destruct (init_spec A mem env con' con0 Hdev Htag) as (con1 & ex & Hinit & Hr & _).
  exists con1, ex. split_and!; [done|apply (rel_fri _ _ _ Hr)|].
  pose proof (dev_ring _ _ _ _ _ Hdev) as Hok'. rewrite (reloaded_table _ _ Hok' Hr), ring_rotation by (done || by rewrite Hf').
  cbv zeta. destruct (app_place _ _ _ Happ) as (_ & _ & HN). by rewrite HN, Hf'.
Qed.
End Properties.

(** ** Concrete tables *)

(** A device of the kind of Sienna Cichlid with a table of room for [N] records, on
    a bus that takes 100 bytes of data at once. *)
Definition sample_bus : i2c_adapter ram := ram_adapter 102.
Definition sample_env (threshold : Z)
    (hook : option (amdgpu_ras_eeprom_table_header → amdgpu_ras_eeprom_table_header)) : ras_env :=
  mk_ras_env (IP_VERSION 11 0 7) false false String.EmptyString None true hook threshold (2 ^ 34)
    true false false 1 true (λ _, true).
Definition sample_con (N num : Z) : amdgpu_ras ram :=
  mk_ras ∅ (mk_control (mk_header RAS_TABLE_HDR_VAL RAS_TABLE_VER_V1 20 20 0)
    (mk_ras_info 0 0 0 (replicate 63 0)) 0 0 20 20 num 0 N 0) None 100 false [].
Definition fresh_con (st : ram) : amdgpu_ras ram := mk_ras st control_zero None 100 false [].
Definition sample_record (k : Z) : eeprom_table_record := mk_record (k * 4096) k 7 1 2 3 4.

Lemma sample_sizes n : sizes_ok sample_bus n.
Proof. intros read. right. by destruct read. Qed.

Lemma sample_ring N num : 0 < N < 100 → 0 ≤ num ≤ N → ring_ok (sample_con N num).
Proof. intros HN Hn. split; simpl; try lia; [by left|done|done|by left]. Qed.

Lemma sample_widths N num : widths_ok (sample_con N num).
Proof. done. Qed.

Lemma sample_supported threshold hook : __is_ras_eeprom_supported (sample_env threshold hook) = true.
Proof. reflexivity. Qed.

Lemma sample_in_use N num recs :
  0 < N < 100 → 0 ≤ num ≤ N → 0 < Z.of_nat (length recs) ≤ N →
  in_use sample_bus (sample_env (-1) None) (sample_con N num) recs.
Proof.
  intros HN Hn Hr. split; [by apply sample_ring|done|done|by left|done|apply sample_sizes].
Qed.

Lemma sample_finds N num : finds_table (sample_env (-1) None) (sample_con N num).
Proof. by split. Qed.

Lemma sample_probes threshold hook :
  hook = None ∨ hook = Some umc_v8_10_set_eeprom_table_version →
  probes sample_bus (sample_env threshold hook) 0.
Proof. intros H. split; try done; [by left|apply sample_sizes]. Qed.

Lemma ras_append_keeps_last_witness :
  (amdgpu_ras_eeprom_append sample_bus (sample_env (-1) None) (sample_con 3 2)
     [sample_record 1; sample_record 2] 2).2 = 0 ∧
  table ram_byte (amdgpu_ras_eeprom_append sample_bus (sample_env (-1) None) (sample_con 3 2)
     [sample_record 1; sample_record 2] 2).1 =
  [replicate 24 255; __encode_table_record_to_buf (sample_record 1);
   __encode_table_record_to_buf (sample_record 2)].
Proof.
  pose proof (ras_append_keeps_last sample_bus ram_byte (sample_env (-1) None) (sample_con 3 2)
    [sample_record 1; sample_record 2]) as H. cbv zeta in H. change (Z.of_nat (length [sample_record 1; sample_record 2])) with 2 in H.
  destruct (amdgpu_ras_eeprom_append _ _ _ _ _) as [con' res].
  destruct (H (ram_device 102) (sample_supported _ _)) as [_ H'].
  destruct H' as [Hrel Hres]; [by apply sample_ring|done|done|apply sample_sizes|].
  specialize (Hrel (ram_reliable 102) (λ _, eq_refl)). destruct (Hres Hrel) as [Ht _]. cbn [fst snd].
  split; [done|]. rewrite Ht. by vm_compute.
Defined.

Lemma ras_read_oldest_witness :
  (amdgpu_ras_eeprom_read sample_bus (sample_env (-1) None) (sample_con 3 2) 1).2 = 0 ∧
  (amdgpu_ras_eeprom_read sample_bus (sample_env (-1) None) (sample_con 3 2) 1).1.2 =
  [__decode_table_record_from_buf (replicate 24 255)].
Proof.
  pose proof (ras_read_oldest sample_bus ram_byte (sample_env (-1) None) (sample_con 3 2) 1) as H.
  destruct (amdgpu_ras_eeprom_read _ _ _ _) as [[con' recs] res].
  destruct (H (ram_device 102) (sample_supported _ _)) as [_ H']; [by apply sample_ring|].
  destruct H' as (Hrel & Hres & _); [done|apply sample_sizes|].
  specialize (Hrel (ram_reliable 102) eq_refl). cbn [fst snd]. split; [done|].
  rewrite (Hres Hrel). by vm_compute.
Defined.

Lemma ras_append_reload_witness :
  let env := sample_env (-1) None in
  let recs := [sample_record 1; sample_record 2] in
  let con' := (amdgpu_ras_eeprom_append sample_bus env (sample_con 3 0) recs 2).1 in
  ∃ con1 exceed con2, amdgpu_ras_eeprom_init sample_bus env (fresh_con (bus con')) = (con1, 0, exceed) ∧
    amdgpu_ras_eeprom_read sample_bus env con1 (ras_num_recs (eeprom_control con1)) = (con2, recs, 0).
Proof.
  cbv zeta.
  pose proof (ras_append_reload sample_bus ram_byte (sample_env (-1) None) (sample_con 3 0)
    (fresh_con (bus (amdgpu_ras_eeprom_append sample_bus (sample_env (-1) None) (sample_con 3 0)
      [sample_record 1; sample_record 2] 2).1)) [sample_record 1; sample_record 2]) as H.
  cbv zeta in H. change (Z.of_nat (length [sample_record 1; sample_record 2])) with 2 in H.
  destruct (amdgpu_ras_eeprom_append _ _ _ _ _) as [con' res].
  destruct H as (_ & con1 & ex & con2 & H1 & _ & H2); [by apply sample_in_use|apply sample_finds|done..|].
  exists con1, ex, con2. by split.
Defined.

Lemma ras_wrap_loses_order_witness :
  let env := sample_env (-1) None in
  let con' := (amdgpu_ras_eeprom_append sample_bus env (sample_con 3 2) [sample_record 1; sample_record 2] 2).1 in
  ∃ con1 exceed, amdgpu_ras_eeprom_init sample_bus env (fresh_con (bus con')) = (con1, 0, exceed) ∧
    table ram_byte con1 = drop 2 (table ram_byte con') ++ take 2 (table ram_byte con').
Proof.
  cbv zeta.
  pose proof (ras_wrap_loses_order sample_bus ram_byte (sample_env (-1) None) (sample_con 3 2)
    (fresh_con (bus (amdgpu_ras_eeprom_append sample_bus (sample_env (-1) None) (sample_con 3 2)
      [sample_record 1; sample_record 2] 2).1)) [sample_record 1; sample_record 2]) as H.
  cbv zeta in H. change (Z.of_nat (length [sample_record 1; sample_record 2])) with 2 in H.
  destruct (amdgpu_ras_eeprom_append _ _ _ _ _) as [con' res].
  destruct H as (_ & con1 & ex & H1 & _ & H2); [by apply sample_in_use|apply sample_finds|done..|].
  by exists con1, ex.
Defined.

Lemma ras_new_v2_1_loses_records_witness :
  let env := sample_env (-1) (Some umc_v8_10_set_eeprom_table_version) in
  let con1 := (amdgpu_ras_eeprom_init sample_bus env (fresh_con ∅)).1.1 in
  let con2 := (amdgpu_ras_eeprom_append sample_bus env con1 [sample_record 1; sample_record 2] 2).1 in
  (amdgpu_ras_eeprom_append sample_bus env con1 [sample_record 1; sample_record 2] 2).2 = 0 ∧
  slot ram_byte con2 1 = replicate 24 0.
Proof.
  cbv zeta.
  assert (E0 : (amdgpu_ras_eeprom_append sample_bus (sample_env (-1) (Some umc_v8_10_set_eeprom_table_version))
    (amdgpu_ras_eeprom_init sample_bus (sample_env (-1) (Some umc_v8_10_set_eeprom_table_version)) (fresh_con ∅)).1.1
    [sample_record 1; sample_record 2] 2).2 = 0) by (by vm_compute).
  destruct (ras_new_v2_1_loses_records sample_bus ram_byte
    (sample_env (-1) (Some umc_v8_10_set_eeprom_table_version)) (fresh_con ∅) 0
    [sample_record 1; sample_record 2]) as (con1 & Hi & _ & _ & H);
    [by apply sample_probes; right|by vm_compute..|].
  change (Z.of_nat (length [sample_record 1; sample_record 2])) with 2 in H.
  rewrite Hi in E0 |- *. cbn [fst] in E0 |- *. clear Hi.
  destruct (amdgpu_ras_eeprom_append _ _ con1 _ _) as [con2 res] eqn:Ea. cbn [fst snd] in *. subst res.
  split; [done|]. apply (H con2 eq_refl 1). lia.
Defined.

(** The device holds the header of a bad device with one record. *)
Definition bad_device : ram :=
  ram_store ∅ 0 0 (__encode_table_header_to_buf (mk_header RAS_TABLE_HDR_BAD RAS_TABLE_VER_V1 20 44 0)).

Lemma ras_disabled_erases_bad_table_witness :
  let env := sample_env 0 None in
  header (header_at ram_byte bad_device 0) = RAS_TABLE_HDR_BAD ∧
  ∃ con1, amdgpu_ras_eeprom_init sample_bus env (fresh_con bad_device) = (con1, 0, false) ∧
    ras_num_recs (eeprom_control con1) = 0 ∧ RAS_NUM_RECS (header_at ram_byte (bus con1) 0) = 0.
Proof.
  cbv zeta. split; [by vm_compute|].
  destruct (ras_disabled_erases_bad_table sample_bus ram_byte (sample_env 0 None) (fresh_con bad_device) 0)
    as (con1 & H1 & H2 & _ & H3); [by apply sample_probes; left|by vm_compute|done|].
  exists con1. by split_and!.
Defined.
