(* ===== verification/Ras.v ===== *)
(** * Bad pages

    [amdgpu_ras.c]: the list of retired pages of a device, in memory, and how it is
    kept in step with the table of the EEPROM: [amdgpu_ras_add_bad_pages] takes new
    pages in, [amdgpu_ras_save_bad_pages] appends those the table lacks, and
    [amdgpu_ras_recovery_init] loads the table with the driver.  Writing past the
    end of the array of records is the outcome [None]. *)

From S2P Require Import Prelude Eeprom RasEeprom.

Definition AMDGPU_GPU_PAGE_SHIFT : Z := 12.
Definition RAS_UMC_INJECT_ADDR_LIMIT : Z := Z.shiftl 1 52.
Definition RAS_BAD_PAGE_COVER : Z := 100 * 1024 * 1024.

Section Ras.
Context {D : Type} (A : i2c_adapter D) (env : ras_env).
Abbreviation ras := (amdgpu_ras D).

Definition set_eh_data (data : option ras_err_handler_data) (con : ras) : ras := con <| eh_data := data |>.

Definition amdgpu_ras_check_bad_page_unlock (data : ras_err_handler_data) (addr : Z) : Z :=
  if ((mc_vram_size env <=? addr) && nz (mc_vram_size env)) || (RAS_UMC_INJECT_ADDR_LIMIT <=? addr)
  then -EINVAL
  else
    let addr := Z.shiftr addr AMDGPU_GPU_PAGE_SHIFT in
    if existsb (λ r, addr =? retired_page r) (take (Z.to_nat (count data)) (bps data)) then 1 else 0.

Definition amdgpu_ras_check_bad_page (con : ras) (addr : Z) : Z :=
  match eh_data con with
  | None => 0
  | Some data => amdgpu_ras_check_bad_page_unlock data addr
  end.

(** [ALIGN(x, a)] for a power of two [a]. *)
Definition ALIGN (x a : Z) : Z := u32 (Z.land (x + (a - 1)) (Z.lnot (a - 1))).

Definition amdgpu_ras_realloc_eh_data_space (data : ras_err_handler_data) (pages : Z)
    : ras_err_handler_data * Z :=
  let old_space := u32 (count data + space_left data) in
  let new_space := u32 (old_space + pages) in
  let align_space := ALIGN new_space 512 in
  if negb (alloc_ok env eh_data_bps) then (data, -ENOMEM)
  else (data <| bps := take (Z.to_nat (count data)) (bps data) |> <| bps_space := align_space |>
             <| space_left := s32 (space_left data + (align_space - old_space)) |>, 0).

(** [memcpy(&data->bps[data->count], &bps[i], ...)] and the counts. *)
Definition store_bad_page (data : ras_err_handler_data) (r : eeprom_table_record)
    : option ras_err_handler_data :=
  if count data <? bps_space data then
    Some (data <| bps := take (Z.to_nat (count data)) (bps data) ++ [r] |>
               <| count := count data + 1 |> <| space_left := space_left data - 1 |>)
  else None.

(** The loop of [amdgpu_ras_add_bad_pages]. *)
Fixpoint add_loop (data : ras_err_handler_data) (pages : list eeprom_table_record)
    : option (ras_err_handler_data * Z) :=
  match pages with
  | [] => Some (data, 0)
  | r :: pages =>
      if nz (amdgpu_ras_check_bad_page_unlock data (u64 (Z.shiftl (retired_page r) AMDGPU_GPU_PAGE_SHIFT)))
      then add_loop data pages
      else
        let '(data, err) :=
          if negb (nz (space_left data)) then amdgpu_ras_realloc_eh_data_space data 256 else (data, 0) in
        if nz err then Some (data, -ENOMEM) else
        data ← store_bad_page data r;
        add_loop data pages
  end.

Definition amdgpu_ras_add_bad_pages (con : ras) (pages : list eeprom_table_record) : option (ras * Z) :=
  match eh_data con, pages with
  | None, _ | _, [] => Some (con, 0)
  | Some data, _ =>
      '(data, ret) ← add_loop data pages;
      Some (set_eh_data (Some data) con, ret)
  end.

(** With the result, [*new_cnt]. *)
Definition amdgpu_ras_save_bad_pages (con : ras) : ras * Z * Z :=
  match eh_data con with
  | None => (con, 0, 0)
  | Some data =>
      let num_recs := ras_num_recs (eeprom_control con) in
      let save_count := s32 (count data - num_recs) in
      let new_cnt := u32 save_count / retire_unit env in
      if 0 <? save_count then
        let pages := take (Z.to_nat save_count) (drop (Z.to_nat num_recs) (bps data)) in
        let '(con, res) := amdgpu_ras_eeprom_append A env con pages save_count in
        if nz res then (con, -EIO, new_cnt) else (con, 0, new_cnt)
      else (con, 0, new_cnt)
  end.

(** The records read are zero where [amdgpu_ras_eeprom_read] left them alone. *)
Definition amdgpu_ras_load_bad_pages (con : ras) : option (ras * Z) :=
  let num := ras_num_recs (eeprom_control con) in
  if (num =? 0) || (amdgpu_bad_page_threshold env =? 0) then Some (con, 0)
  else if negb (alloc_ok env load_bps) then Some (con, -ENOMEM)
  else
    let '(con, records, ret) := amdgpu_ras_eeprom_read A env con num in
    if nz ret then Some (con, ret)
    else amdgpu_ras_add_bad_pages con
           (take (Z.to_nat num) (records ++ replicate (Z.to_nat num) record_zero)).

Definition amdgpu_ras_validate_threshold (con : ras) (max_count : Z) : ras :=
  con <| bad_page_cnt_threshold :=
    if amdgpu_bad_page_threshold env <? 0
    then Z.min (u32 (mc_vram_size env / RAS_BAD_PAGE_COVER)) max_count
    else Z.min max_count (amdgpu_bad_page_threshold env) |>.

(** [free:] of [amdgpu_ras_recovery_init]. *)
Definition recovery_free (con : ras) (exc_err_limit : bool) : ras * Z :=
  (set_eh_data None con, if exc_err_limit then -EINVAL else 0).

Definition amdgpu_ras_recovery_init (con : ras) : option (ras * Z) :=
  if is_sriov_vf env then Some (con, 0)
  else if negb (ras_enabled env) then Some (con, 0)
  else if negb (alloc_ok env eh_data_alloc) then Some (set_eh_data None con, 0)
  else
    let con := set_eh_data (Some (mk_eh_data [] 0 0 0)) con in
    let con := set_control (λ c, c <| bad_channel_bitmap := 0 |>) con in
    let con := amdgpu_ras_validate_threshold con (amdgpu_ras_eeprom_max_record_count con) in
    if pending_reset env then Some (con, 0) else
    let '(con, ret, exc_err_limit) := amdgpu_ras_eeprom_init A env con in
    if exc_err_limit || nz ret then Some (recovery_free con exc_err_limit)
    else if nz (ras_num_recs (eeprom_control con)) then
      '(con, ret) ← amdgpu_ras_load_bad_pages con;
      if nz ret then Some (recovery_free con exc_err_limit) else
      let con := dpm_send (hbm_bad_pages_num (ras_num_recs (eeprom_control con))) con in
      if update_channel_flag con then
        Some ((dpm_send (hbm_bad_channel_flag (bad_channel_bitmap (eeprom_control con))) con)
                <| update_channel_flag := false |>, 0)
      else Some (con, 0)
    else Some (con, 0).
End Ras.
