(* ===== verification/RasProof.v ===== *)
(** * Bad pages: the list in memory and the table

    What [amdgpu_ras_add_bad_pages] takes in, that it stays in its array, and that
    saved pages are there again when the driver is loaded anew. *)

From S2P Require Import Prelude Eeprom RasEeprom RasCodec RasEepromProof RasSystem Ras.

Section Pages.
Context (env : ras_env).

(** ** The list of pages *)

(** The list in memory: distinct pages, and room for what is left. *)
Record data_ok (data : ras_err_handler_data) : Prop := {
  data_count : count data = Z.of_nat (length (bps data));
  data_left : 0 ≤ space_left data;
  data_space : bps_space data = count data + space_left data;
  data_bound : bps_space data ≤ 2 ^ 30;
  data_distinct : NoDup (retired_page <$> bps data);
}.

(** A page of the memory of the device. *)
Definition page_valid (p : Z) : bool :=
  negb (((mc_vram_size env <=? p * 4096) && nz (mc_vram_size env)) || (2 ^ 52 <=? p * 4096)).

(** What one page adds to the list. *)
Definition insert_page (l : list eeprom_table_record) (r : eeprom_table_record) : list eeprom_table_record :=
  if page_valid (retired_page r) && negb (existsb (λ x, retired_page r =? retired_page x) l)
  then l ++ [r] else l.

Lemma existsb_page l p : existsb (λ x, p =? retired_page x) l = true ↔ p ∈ (retired_page <$> l).
Proof.
  rewrite existsb_exists, list_elem_of_fmap. split.
  - intros (x & Hx & Heq). exists x. bool_to_Prop. by rewrite <- list_elem_of_In in Hx.
  - intros (x & -> & Hx). exists x. split; [by apply list_elem_of_In|]. apply Z.eqb_refl.
Qed.

Lemma insert_page_distinct l r : NoDup (retired_page <$> l) → NoDup (retired_page <$> insert_page l r).
Proof.
  intros H. unfold insert_page. destruct (_ && _) eqn:E; [|done]. apply andb_true_iff in E as [_ E].
  apply negb_true_iff in E. rewrite fmap_app. apply NoDup_app. split_and!; [done| |apply NoDup_singleton].
  intros p Hp Hr. apply list_elem_of_singleton in Hr as ->. apply existsb_page in Hp. congruence.
Qed.

(** The check of a page, as the list sees it. *)
Lemma check_page data r :
  data_ok data → in_width 48 (retired_page r) →
  nz (amdgpu_ras_check_bad_page_unlock env data (u64 (Z.shiftl (retired_page r) AMDGPU_GPU_PAGE_SHIFT))) =
  negb (page_valid (retired_page r) && negb (existsb (λ x, retired_page r =? retired_page x) (bps data))).
Proof.
  intros Hd Hw. unfold in_width in Hw. unfold amdgpu_ras_check_bad_page_unlock, page_valid, AMDGPU_GPU_PAGE_SHIFT.
  rewrite Z.shiftl_mul_pow2, wrap_small by (unfold in_width; lia).
  change (2 ^ 12) with 4096. change RAS_UMC_INJECT_ADDR_LIMIT with (2 ^ 52).
  destruct (((_ <=? _) && _) || _); [done|]. rewrite Z.shiftr_div_pow2 by lia. change (2 ^ 12) with 4096.
  rewrite Z.div_mul, take_ge by (try (rewrite (data_count _ Hd)); lia).
  by destruct (existsb _ _).
Qed.

Lemma align_spec x : 0 ≤ x → x + 511 < 2 ^ 32 → x ≤ ALIGN x 512 ≤ x + 511.
Proof.
  intros Hx Hb. unfold ALIGN. change (512 - 1) with (Z.ones 9). rewrite <- Z.ldiff_land.
  assert (H : Z.ldiff (x + Z.ones 9) (Z.ones 9) = (x + 511) / 512 * 512).
  { rewrite Z.ldiff_ones_r, Z.shiftl_mul_pow2, Z.shiftr_div_pow2 by lia. done. }
  rewrite H. pose proof (Z.div_mod (x + 511) 512 ltac:(lia)). pose proof (Z.mod_pos_bound (x + 511) 512 ltac:(lia)).
  rewrite wrap_small by (unfold in_width; lia). lia.
Qed.

(** Room for at least one more record. *)
Lemma realloc_spec data :
  data_ok data → space_left data = 0 → count data + 1024 ≤ 2 ^ 30 → alloc_ok env eh_data_bps = true →
  ∃ data', amdgpu_ras_realloc_eh_data_space env data 256 = (data', 0) ∧ data_ok data' ∧
    bps data' = bps data ∧ count data' = count data ∧ 0 < space_left data' .
Proof.
  intros [Hc Hl Hs Hb Hd] H0 Hle Hal. unfold amdgpu_ras_realloc_eh_data_space. rewrite H0, Z.add_0_r, Hal.
  rewrite (wrap_small 32 (count data)), (wrap_small 32 (_ + 256)) by (unfold in_width; lia).
  pose proof (align_spec (count data + 256) ltac:(lia) ltac:(lia)) as Ha. simpl negb. cbv iota zeta.
  rewrite Z.add_0_l, s32_small by lia. eexists. split; [done|]. rewrite take_ge by lia.
  split; [split; simpl; try done; lia|]. simpl. split_and!; [done|done|lia].
Qed.

Lemma store_spec data r :
  data_ok data → 0 < space_left data → retired_page r ∉ (retired_page <$> bps data) →
  ∃ data', store_bad_page data r = Some data' ∧ data_ok data' ∧ bps data' = bps data ++ [r] ∧
    count data' = count data + 1.
Proof.
  intros [Hc Hl Hs Hb Hd] Hp Hr. unfold store_bad_page. destruct (Z.ltb_spec (count data) (bps_space data)); [|lia].
  eexists. split; [done|]. rewrite take_ge by lia. split; [|done]. split; simpl; try lia.
  - rewrite length_app. simpl. lia.
  - rewrite fmap_app. apply NoDup_app. split_and!; [done| |apply NoDup_singleton].
    intros p Hp' Hr'. apply list_elem_of_singleton in Hr' as ->. done.
Qed.

(** The loop never writes past the array; it inserts all pages or, when memory
    runs out, the first of them. *)
Lemma add_loop_spec data pages :
  data_ok data → Forall (λ r, in_width 48 (retired_page r)) pages →
  count data + Z.of_nat (length pages) + 1024 ≤ 2 ^ 30 →
  ∃ data' ret, add_loop env data pages = Some (data', ret) ∧ data_ok data' ∧
    (alloc_ok env eh_data_bps = true → ret = 0) ∧
    (ret = 0 → bps data' = fold_left insert_page pages (bps data)) ∧
    ∃ n, bps data' = fold_left insert_page (take n pages) (bps data).
Proof.
  revert data. induction pages as [|r pages IH]; intros data Hd Hw Hb; cbn [add_loop].
  { exists data, 0. split_and!; try done. by exists 0%nat. }
  apply Forall_cons in Hw as [Hr Hw]. cbn [length] in Hb. rewrite check_page by done.
  assert (Hins : insert_page (bps data) r =
    if page_valid (retired_page r) && negb (existsb (λ x, retired_page r =? retired_page x) (bps data))
    then bps data ++ [r] else bps data) by done.
  destruct (page_valid _ && _) eqn:E; simpl negb; cbv iota.
  2: { destruct (IH data Hd Hw ltac:(lia)) as (data' & ret & E1 & Hd' & Ha & Hres & n & Hn).
       exists data', ret. cbn [fold_left]. rewrite Hins. split_and!; try done. exists (S n). cbn [take fold_left]. by rewrite Hins. }
  apply andb_true_iff in E as [_ E]. apply negb_true_iff in E.
  assert (Hnew : retired_page r ∉ (retired_page <$> bps data)) by (intros H; apply existsb_page in H; congruence).
  assert (Hstep : ∀ data1, data_ok data1 → bps data1 = bps data → count data1 = count data → 0 < space_left data1 →
    ∃ data' ret, (data ← store_bad_page data1 r; add_loop env data pages) = Some (data', ret) ∧ data_ok data' ∧
      (alloc_ok env eh_data_bps = true → ret = 0) ∧
      (ret = 0 → bps data' = fold_left insert_page (r :: pages) (bps data)) ∧
      ∃ n, bps data' = fold_left insert_page (take n (r :: pages)) (bps data)).
  { intros data1 Hd1 Hb1 Hc1 Hs1. destruct (store_spec data1 r Hd1 Hs1) as (data2 & E2 & Hd2 & Hb2 & Hc2); [by rewrite Hb1|].
    rewrite E2. simpl. destruct (IH data2 Hd2 Hw ltac:(lia)) as (data' & ret & E1 & Hd' & Ha & Hres & n & Hn).
    rewrite Hb1 in Hb2. exists data', ret. cbn [fold_left]. rewrite Hins, <- Hb2. split_and!; try done.
    exists (S n). cbn [take fold_left]. by rewrite Hins, <- Hb2. }
  destruct (nz (space_left data)) eqn:Es; simpl negb; cbv iota.
  - apply nz_true in Es. simpl nz. cbv iota. apply Hstep; try done. pose proof (data_left _ Hd). lia.
  - apply nz_false in Es. destruct (alloc_ok env eh_data_bps) eqn:Ea.
    + destruct (realloc_spec data Hd Es ltac:(lia) Ea) as (data1 & E1 & Hd1 & Hb1 & Hc1 & Hs1).
      rewrite E1. simpl nz. cbv iota. destruct (Hstep data1 Hd1 Hb1 Hc1 Hs1) as (data' & ret & ? & ? & Hal & ? & ?).
      exists data', ret. split_and!; done.
    + assert (E1 : amdgpu_ras_realloc_eh_data_space env data 256 = (data, -ENOMEM))
        by (unfold amdgpu_ras_realloc_eh_data_space; by rewrite Ea).
      rewrite E1. simpl nz. cbv iota. exists data, (-ENOMEM). split_and!; try done. by exists 0%nat.
Qed.

(** Distinct valid pages are all inserted. *)
Lemma insert_all l0 l :
  Forall (λ r, page_valid (retired_page r) = true) l → NoDup (retired_page <$> (l0 ++ l)) →
  fold_left insert_page l l0 = l0 ++ l.
Proof.
  revert l0. induction l as [|r l IH]; intros l0 Hv Hd; simpl; [by rewrite app_nil_r|].
  apply Forall_cons in Hv as [Hr Hv].
  assert (Hin : existsb (λ x, retired_page r =? retired_page x) l0 = false).
  { apply not_true_iff_false. rewrite existsb_page. intros H. rewrite fmap_app, fmap_cons in Hd.
    apply NoDup_app in Hd as (_ & Hx & _). by apply (Hx (retired_page r)); [|left]. }
  unfold insert_page at 2. rewrite Hr, Hin. simpl. rewrite IH; [by rewrite <- app_assoc|done|by rewrite <- app_assoc].
Qed.
End Pages.

(** ** Properties *)

Section Properties.
Context {D : Type} (A : i2c_adapter D) (mem : D → Z → Z) (env : ras_env).
Abbreviation ras := (amdgpu_ras D).

(** C35. New bad pages are taken in once.  [amdgpu_ras_add_bad_pages] never writes
    past its array, leaves a list of distinct pages and touches nothing else; when
    it reports success the list has gained, in order, the pages of the device's
    memory it lacked; without memory it reports [-ENOMEM] and has taken the first of
    them. *)
Theorem ras_add_bad_pages (con : ras) data pages :
  eh_data con = Some data → data_ok data → Forall (λ r, in_width 48 (retired_page r)) pages →
  count data + Z.of_nat (length pages) + 1024 ≤ 2 ^ 30 →
  ∃ data' ret, amdgpu_ras_add_bad_pages env con pages = Some (set_eh_data (Some data') con, ret) ∧
    data_ok data' ∧ (alloc_ok env eh_data_bps = true → ret = 0) ∧
    (ret = 0 → bps data' = fold_left (insert_page env) pages (bps data)) ∧
    ∃ n, bps data' = fold_left (insert_page env) (take n pages) (bps data).
Proof.
  intros He Hd Hw Hb. unfold amdgpu_ras_add_bad_pages. rewrite He. destruct pages as [|r pages].
  - exists data, 0. split_and!; try done; [|by exists 0%nat]. unfold set_eh_data. rewrite <- He. by destruct con.
  - destruct (add_loop_spec env data (r :: pages) Hd Hw Hb) as (data' & ret & E & Hd' & Ha & Hres & Hn).
    exists data', ret. by rewrite E.
Qed.

(** A failed save is not retried.  When new pages fit behind those in the table,
    saving them counts them as stored whether the EEPROM took them or not: whatever
    the first call reports, the next one writes nothing and reports success. *)
Theorem ras_failed_save_not_retried (con : ras) data :
  let c := eeprom_control con in
  eh_data con = Some data → __is_ras_eeprom_supported env = true → alloc_ok env append_buf = true →
  ras_fri c = 0 → 0 ≤ ras_num_recs c < count data → count data ≤ ras_max_record_count c →
  ras_max_record_count c ≤ 2 ^ 18 →
  let '(con', res, _) := amdgpu_ras_save_bad_pages A env con in
  amdgpu_ras_save_bad_pages A env con' = (con', 0, 0).
Proof.
  cbv zeta. intros He Hsup Hal Hf Hn Hc HN. unfold amdgpu_ras_save_bad_pages. rewrite He.
  rewrite s32_small by lia. destruct (Z.ltb_spec 0 (count data - ras_num_recs (eeprom_control con))); [|lia].
  destruct (amdgpu_ras_eeprom_append A env con _ _) as [con' res] eqn:E.
  apply append_control in E as (_ & _ & He' & Hnum). cbv zeta in Hnum.
  assert (Hnum' : ras_num_recs (eeprom_control con') = count data) by (rewrite Hnum; done || lia).
  assert (Hagain : amdgpu_ras_save_bad_pages A env con' = (con', 0, 0)).
  { unfold amdgpu_ras_save_bad_pages. rewrite He', He, Hnum', Z.sub_diag. simpl. by rewrite Zdiv_0_l. }
  unfold amdgpu_ras_save_bad_pages in Hagain. by destruct (nz res).
Qed.

(** An empty list gets the records of the table, whole. *)
Lemma load_fresh_list (con : ras) (l : list eeprom_table_record) :
  EepromDevice A mem → ReliableBus A → (∀ site, alloc_ok env site = true) →
  __is_ras_eeprom_supported env = true → amdgpu_bad_page_threshold env ≠ 0 →
  ring_ok con → sizes_ok A (24 * Z.of_nat (length l)) →
  eh_data con = Some (mk_eh_data [] 0 0 0) → ras_num_recs (eeprom_control con) = Z.of_nat (length l) →
  0 < Z.of_nat (length l) ≤ 2 ^ 20 → table mem con = __encode_table_record_to_buf <$> l →
  Forall (λ r, record_ok r ∧ page_valid env (retired_page r) = true) l → NoDup (retired_page <$> l) →
  ∃ con1 data1, amdgpu_ras_load_bad_pages A env con = Some (con1, 0) ∧
    eh_data con1 = Some data1 ∧ bps data1 = l.
Proof.
  intros Hdev Hrel Hal Hsup Hthr Hok Hsz Heh Hnum Hlen Ht Hrec Hnd.
  unfold amdgpu_ras_load_bad_pages. rewrite Hnum, Hal, (proj2 (Z.eqb_neq _ _) Hthr), (proj2 (Z.eqb_neq _ 0)) by lia.
  simpl orb. simpl negb. cbv iota. destruct (amdgpu_ras_eeprom_read A env con _) as [[con3 recs] r3] eqn:Er.
  apply (read_spec A mem env) in Er as (Hrel3 & (bm & fl & Hc3) & _ & Hrecs); [|done..|lia|done].
  specialize (Hrecs (Hrel3 _ (Hal _))). rewrite (Hrel3 _ (Hal _)). simpl nz. cbv iota.
  rewrite Ht, take_ge, <- list_fmap_compose in Hrecs by (rewrite length_fmap; lia).
  assert (Hrecs' : recs = l).
  { rewrite Hrecs. etransitivity; [|apply list_fmap_id]. apply list_fmap_ext. intros i r Hi. simpl.
    rewrite decode_encode. apply record_stored_id. by apply (Forall_lookup_1 _ _ _ _ Hrec Hi). }
  rewrite Hrecs', take_app_length' by lia.
  assert (Heh3 : eh_data con3 = Some (mk_eh_data [] 0 0 0)) by (rewrite Hc3; exact Heh).
  destruct (add_loop_spec env (mk_eh_data [] 0 0 0) l) as (data1 & ret & Eadd & Hd1 & Ha1 & Hres1 & _).
  { split; simpl; try lia. constructor. }
  { eapply Forall_impl; [exact Hrec|]. intros r [(_ & ? & _) _]. done. }
  { simpl count. lia. }
  specialize (Ha1 (Hal _)). specialize (Hres1 Ha1). rewrite insert_all in Hres1; [|by eapply Forall_impl; [exact Hrec|]; intros r [_ ?]|done].
  unfold amdgpu_ras_add_bad_pages. rewrite Heh3. destruct l as [|r0 l]; [simpl in Hlen; lia|].
  rewrite Eadd, Ha1. by eexists _, data1.
Qed.

(** Pages that were saved are there after a reload.  On a device without errors, when
    the table starts at the first record of its ring, holds the first pages of the
    list and has room for the rest, saving the list and loading the driver anew on the
    same device, with the default threshold, gives the same list: the same records in
    the same order. *)
Theorem ras_saved_pages_survive (con con0 : ras) data :
  let c := eeprom_control con in
  let num := ras_num_recs c in
  let '(con', res, _) := amdgpu_ras_save_bad_pages A env con in
  EepromDevice A mem → ReliableBus A →
  eh_data con = Some data → data_ok data →
  Forall (λ r, record_ok r ∧ page_valid env (retired_page r) = true) (bps data) →
  table mem con = __encode_table_record_to_buf <$> take (Z.to_nat num) (bps data) →
  num < count data ≤ ras_max_record_count c → ras_fri c = 0 →
  in_use A env con (drop (Z.to_nat num) (bps data)) → finds_table env con →
  amdgpu_bad_page_threshold env = -1 → ras_enabled env = true → is_sriov_vf env = false →
  pending_reset env = false →
  bus con0 = bus con' → padding (tbl_rai (eeprom_control con0)) = replicate 63 0 →
  res = 0 ∧ table mem con' = __encode_table_record_to_buf <$> bps data ∧
  ∃ con1 data1, amdgpu_ras_recovery_init A env con0 = Some (con1, 0) ∧
    eh_data con1 = Some data1 ∧ bps data1 = bps data.
Proof.
  cbv zeta. destruct (amdgpu_ras_save_bad_pages A env con) as [[con' res] new] eqn:Es.
  intros Hdev Hrel He Hd Hrec Htab Hnum Hf Huse Hfind Hthr Hen Hsr Hpr Hbus Hpad.
  pose proof Huse as [U1 _ _ _ U5 U6]. pose proof (ring_num _ U1) as Hn. pose proof (ring_max _ U1) as HN.
  pose proof (record_offset_nonneg _ U1) as Hro. pose proof (data_count _ Hd) as Hc.
  set (n := ras_num_recs (eeprom_control con)) in *. set (new_recs := drop (Z.to_nat n) (bps data)) in *.
  assert (Hlen : Z.of_nat (length new_recs) = count data - n) by (unfold new_recs; rewrite length_drop; lia).
  (* the save *)
  unfold amdgpu_ras_save_bad_pages in Es. rewrite He in Es. fold n in Es. rewrite s32_small in Es by lia.
  destruct (Z.ltb_spec 0 (count data - n)) as [_|]; [|lia]. fold new_recs in Es.
  rewrite take_ge in Es by lia. rewrite <- Hlen in Es.
  destruct (amdgpu_ras_eeprom_append A env con new_recs _) as [con1 r1] eqn:E.
  set (conA := set_control (λ c, c <| bad_channel_bitmap := 0 |>) (set_eh_data (Some (mk_eh_data [] 0 0 0)) con0)).
  set (con0' := amdgpu_ras_validate_threshold env conA (amdgpu_ras_eeprom_max_record_count conA)).
  assert (Hb1 : bus con1 = bus con') by (destruct (nz r1); by simplify_eq).
  destruct (append_on_device A mem env con con1 con0' new_recs r1 Huse Hfind) as (Hr1 & Hdevice & Happ & Ht & Htag);
    [by rewrite Hb1|done|done|].
  subst r1. injection Es as <- <- _. rewrite Hlen in Happ, Ht. split; [done|].
  assert (Hov : overrun con (count data - n) = 0) by (unfold overrun; fold n; lia).
  assert (Hcnt : ras_num_recs (eeprom_control con1) = count data).
  { rewrite (app_count _ _ _ Happ). fold n. lia. }
  assert (Ht1 : table mem con1 = __encode_table_record_to_buf <$> bps data).
  { rewrite Ht, Hov. change (Z.to_nat 0) with 0%nat. rewrite drop_0, Htab, <- fmap_app. unfold new_recs. by rewrite take_drop. }
  split; [done|].
  (* the new driver *)
  destruct (init_spec A mem env con1 con0' Hdevice Htag) as (con2 & ex & Hinit & Hr & Hex).
  rewrite (Hex Hthr) in Hinit. pose proof (init_eh_data A env _ _ _ _ Hinit) as Heh. simpl in Heh.
  pose proof (rel_count _ _ _ Hr) as Hcnt2. rewrite Hcnt in Hcnt2. pose proof (dev_ring _ _ _ _ _ Hdevice) as Hok1.
  assert (Ht2 : table mem con2 = __encode_table_record_to_buf <$> bps data).
  { rewrite (reloaded_table mem _ _ Hok1 Hr), <- Ht1. pose proof (app_fri _ _ _ Happ) as Hf'.
    rewrite Hf, Hov, Z.mod_0_l in Hf' by lia. pose proof (ring_num _ Hok1). pose proof (ring_max _ Hok1).
    unfold table. rewrite Hf'. apply list_fmap_ext. intros i k Hk. apply lookup_seqZ in Hk as [-> Hk].
    by rewrite Z.add_0_l, Z.mod_small by lia. }
  unfold amdgpu_ras_recovery_init. rewrite Hsr, Hen, (find_alloc _ _ Hfind), Hpr. simpl negb. cbv iota zeta.
  fold conA. fold con0'. rewrite Hinit. simpl orb. cbv iota. rewrite Hcnt2.
  assert (Hnz : nz (count data) = true) by (apply nz_true; lia). rewrite Hnz.
  destruct (load_fresh_list con2 (bps data)) as (con3 & data1 & Eload & Heh3 & Hl);
    [done|done|apply Hfind|apply Hfind|lia|apply (rel_ring _ _ _ Hr)| |done|lia|lia|done|done|apply (data_distinct _ Hd)|].
  { eapply sizes_ok_le; [|exact U6]. lia. }
  rewrite Eload. simpl. destruct (update_channel_flag con3); eexists _, data1; done.
Qed.
End Properties.

(** ** Concrete lists *)

Definition sample_data : ras_err_handler_data := mk_eh_data [sample_record 1; sample_record 2] 512 2 510.

Lemma sample_data_ok : data_ok sample_data.
Proof.
  split; simpl; try lia. apply (bool_decide_unpack _). by vm_compute.
Qed.

Lemma ras_add_bad_pages_witness :
  ∃ data' con', amdgpu_ras_add_bad_pages (sample_env (-1) None)
      (set_eh_data (Some sample_data) (sample_con 3 0)) [sample_record 2; sample_record 3] = Some (con', 0) ∧
    eh_data con' = Some data' ∧ bps data' = [sample_record 1; sample_record 2; sample_record 3].
Proof.
  destruct (ras_add_bad_pages (sample_env (-1) None) (set_eh_data (Some sample_data) (sample_con 3 0))
    sample_data [sample_record 2; sample_record 3]) as (data' & ret & E & _ & Ha & Hb & _).
  - done.
  - exact sample_data_ok.
  - by repeat constructor.
  - done.
  - specialize (Ha eq_refl). subst ret. eexists data', _. split; [exact E|]. split; [done|]. by rewrite (Hb eq_refl).
Defined.

(** A bus nothing answers on. *)
Definition dead_bus : i2c_adapter unit := mk_adapter None (λ s _ m, (s, -EIO, msg_buf m)).
Definition dead_con : amdgpu_ras unit :=
  mk_ras () (eeprom_control (sample_con 3 0)) (Some sample_data) 100 false [].

Lemma ras_failed_save_not_retried_witness :
  let r := amdgpu_ras_save_bad_pages dead_bus (sample_env (-1) None) dead_con in
  r.1.2 = -EIO ∧ amdgpu_ras_save_bad_pages dead_bus (sample_env (-1) None) r.1.1 = (r.1.1, 0, 0).
Proof.
  cbv zeta. assert (H1 : (amdgpu_ras_save_bad_pages dead_bus (sample_env (-1) None) dead_con).1.2 = -EIO)
    by (by vm_compute).
  pose proof (ras_failed_save_not_retried dead_bus (sample_env (-1) None) dead_con sample_data) as H.
  cbv zeta in H. destruct (amdgpu_ras_save_bad_pages dead_bus (sample_env (-1) None) dead_con) as [[con' res] new].
  split; [exact H1|]. cbn [fst]. apply H; done.
Defined.

Lemma ras_saved_pages_survive_witness :
  let env := sample_env (-1) None in
  let con' := (amdgpu_ras_save_bad_pages sample_bus env (set_eh_data (Some sample_data) (sample_con 3 0))).1.1 in
  ∃ con1 data1, amdgpu_ras_recovery_init sample_bus env (fresh_con (bus con')) = Some (con1, 0) ∧
    eh_data con1 = Some data1 ∧ bps data1 = bps sample_data.
Proof.
  cbv zeta.
  pose proof (ras_saved_pages_survive sample_bus ram_byte (sample_env (-1) None)
    (set_eh_data (Some sample_data) (sample_con 3 0))
    (fresh_con (bus (amdgpu_ras_save_bad_pages sample_bus (sample_env (-1) None)
      (set_eh_data (Some sample_data) (sample_con 3 0))).1.1)) sample_data) as H.
  cbv zeta in H. destruct (amdgpu_ras_save_bad_pages _ _ _) as [[con' res] new].
  destruct H as (_ & _ & H); [exact (ram_device 102)|exact (ram_reliable 102)|done|exact sample_data_ok| | | |
    done| | |done..|exact H].
  - by repeat constructor.
  - done.
  - done.
  - destruct (sample_in_use 3 0 [sample_record 1; sample_record 2]) as [[] ? ? ? ? ?]; [lia..|simpl; lia|].
    split; try done.
  - by split.
Defined.
