(* ===== verification/IhRing.v ===== *)
(** * Interrupt rings

    [amdgpu_ih.c] and the ring functions of [vega10_ih.c]: the ring the hardware
    writes interrupt vectors of 8 dwords to, the software ring vectors are
    delegated to, and the write-back slots behind their shadow pointers
    ([amdgpu_device_wb_get] of [amdgpu_device.c]).  Pointers count bytes.  What the
    hardware does with a ring is [ih_hw_write]: it stores a vector at its write
    pointer, moves on, and raises [RB_OVERFLOW] when it meets the read pointer it
    was told.  The place of that bit comes from a register header that is not in
    the repository. *)

From S2P Require Import Prelude.

Definition AMDGPU_IH_MAX_NUM_IVS : nat := 32.

(** ** Write-back slots *)

Record amdgpu_wb := mk_wb { wb_gpu_addr : Z; num_wb : Z; used : Z }.
#[export] Instance eta_wb : Eta amdgpu_wb := λ w, mk_wb (wb_gpu_addr w) (num_wb w) (used w).

(** The slot as an offset in dwords; [None] is [-EINVAL]. *)
Definition amdgpu_device_wb_get (w : amdgpu_wb) : amdgpu_wb * option Z :=
  let offset := find_first_zero_bit (used w) (num_wb w) in
  if offset <? num_wb w
  then (w <| used := set_bit offset (used w) |>, Some (u32 (Z.shiftl offset 3)))
  else (w, None).

Definition amdgpu_device_wb_free (w : amdgpu_wb) (wb : Z) : amdgpu_wb :=
  let wb := Z.shiftr wb 3 in
  if wb <? num_wb w then w <| used := clear_bit wb (used w) |> else w.

(** ** Rings *)

Inductive ring_id := IH | IH1 | IH2 | IH_SOFT.
#[export] Instance ring_id_eq_dec : EqDecision ring_id.
Proof. solve_decision. Defined.

(** [ring] is [None] for a null pointer and else the dwords before the shadows;
    [wptr_cpu] and [rptr_cpu] are the values of the shadows.  The last three fields
    are the hardware's: its registers, and how many of the next doorbell writes it
    will miss. *)
Record amdgpu_ih_ring := mk_ih {
  ring_size : Z;
  ptr_mask : Z;
  use_bus_addr : bool;
  use_doorbell : bool;
  ring : option (list Z);
  gpu_addr : Z;
  wptr_addr : Z;
  rptr_addr : Z;
  wptr_cpu : Z;
  rptr_cpu : Z;
  enabled : bool;
  rptr : Z;
  processed_timestamp : Z;
  ih_rb_wptr : Z;
  ih_rb_rptr : Z;
  doorbells_lost : nat;
}.
#[export] Instance eta_ih : Eta amdgpu_ih_ring := λ i,
  mk_ih (ring_size i) (ptr_mask i) (use_bus_addr i) (use_doorbell i) (ring i) (gpu_addr i)
    (wptr_addr i) (rptr_addr i) (wptr_cpu i) (rptr_cpu i) (enabled i) (rptr i)
    (processed_timestamp i) (ih_rb_wptr i) (ih_rb_rptr i) (doorbells_lost i).

Definition order_base_2 (n : Z) : Z := if n <=? 1 then 0 else Z.log2_up n.

(** [dma] and [bo]: the address of the memory found for the ring, in each case.
    Coherent memory is zero; [wb] is what the memory of the slots holds. *)
Definition amdgpu_ih_ring_init (dma bo : option Z) (wb : Z → Z) (w : amdgpu_wb)
    (ih : amdgpu_ih_ring) (size : Z) (bus : bool) : amdgpu_wb * amdgpu_ih_ring * Z :=
  let rb_bufsz := order_base_2 (size / 4) in
  let size := Z.shiftl 1 rb_bufsz * 4 in
  let ih := ih <| ring_size := size |> <| ptr_mask := size - 1 |> <| rptr := 0 |>
              <| use_bus_addr := bus |> in
  if bus then
    match ring ih, dma with
    | Some _, _ => (w, ih, 0)
    | None, None => (w, ih, -ENOMEM)
    | None, Some dma_addr =>
        (w, ih <| ring := Some (replicate (Z.to_nat (size / 4)) 0) |> <| gpu_addr := dma_addr |>
              <| wptr_addr := dma_addr + size |> <| wptr_cpu := 0 |>
              <| rptr_addr := dma_addr + size + 4 |> <| rptr_cpu := 0 |>, 0)
    end
  else
    let '(w1, wptr_offs) := amdgpu_device_wb_get w in
    match wptr_offs with
    | None => (w1, ih, -EINVAL)
    | Some wptr_offs =>
        let '(w2, rptr_offs) := amdgpu_device_wb_get w1 in
        match rptr_offs with
        | None => (amdgpu_device_wb_free w2 wptr_offs, ih, -EINVAL)
        | Some rptr_offs =>
            match bo with
            | None =>
                (amdgpu_device_wb_free (amdgpu_device_wb_free w2 rptr_offs) wptr_offs, ih, -ENOMEM)
            | Some addr =>
                (w2, ih <| ring := Some (replicate (Z.to_nat (size / 4)) 0) |> <| gpu_addr := addr |>
                       <| wptr_addr := wb_gpu_addr w2 + wptr_offs * 4 |> <| wptr_cpu := wb wptr_offs |>
                       <| rptr_addr := wb_gpu_addr w2 + rptr_offs * 4 |> <| rptr_cpu := wb rptr_offs |>, 0)
            end
        end
    end.

(** [amdgpu_bo_free_kernel] also clears [gpu_addr]. *)
Definition amdgpu_ih_ring_fini (w : amdgpu_wb) (ih : amdgpu_ih_ring) : amdgpu_wb * amdgpu_ih_ring :=
  match ring ih with
  | None => (w, ih)
  | Some _ =>
      if use_bus_addr ih then (w, ih <| ring := None |>)
      else
        let ih := ih <| ring := None |> <| gpu_addr := 0 |> in
        let w := amdgpu_device_wb_free w (u32 (u64 (wptr_addr ih - gpu_addr ih) / 4)) in
        let w := amdgpu_device_wb_free w (u32 (u64 (rptr_addr ih - gpu_addr ih) / 4)) in
        (w, ih)
  end.

(** Dword [i] of the ring. *)
Definition ring_dword (ih : amdgpu_ih_ring) (i : Z) : Z := default 0 (default [] (ring ih) !! Z.to_nat i).
(** Eight dwords from index [i]. *)
Definition ring_iv (ih : amdgpu_ih_ring) (i : Z) : list Z :=
  (λ k, ring_dword ih (i + k)) <$> seqZ 0 8.
Definition ring_store (ih : amdgpu_ih_ring) (i : Z) (iv : list Z) : amdgpu_ih_ring :=
  ih <| ring ::= fmap (list_inserts (Z.to_nat i) iv) |>.

Definition amdgpu_ih_ring_write (ih : amdgpu_ih_ring) (iv : list Z) (num_dw : Z) : amdgpu_ih_ring :=
  let wptr := Z.shiftr (wptr_cpu ih) 2 in
  let ih := ring_store ih wptr (take (Z.to_nat num_dw) iv) in
  let wptr := Z.land (u32 (Z.shiftl (wptr + num_dw) 2)) (ptr_mask ih) in
  if negb (wptr =? rptr ih) then ih <| wptr_cpu := wptr |> else ih.

(** The sign of a 48-bit difference of time stamps. *)
Definition amdgpu_ih_ts_after (t1 t2 : Z) : bool :=
  let s64 z := u64 (z + 2 ^ 63) - 2 ^ 63 in
  0 <? s64 (s64 (u64 (Z.shiftl t2 16)) - s64 (u64 (Z.shiftl t1 16))).

(** ** Vectors *)

Record amdgpu_iv_entry := mk_entry {
  client_id : Z;
  src_id : Z;
  ring_id_of : Z;
  vmid : Z;
  vmid_src : Z;
  timestamp : Z;
  timestamp_src : Z;
  pasid : Z;
  node_id : Z;
  src_data : list Z;
}.

(** The fields of a vector. *)
Definition decode_iv (dw : list Z) : amdgpu_iv_entry :=
  let dw i := default 0 (dw !! i) in
  {| client_id := Z.land (dw 0%nat) 0xff;
     src_id := Z.land (Z.shiftr (dw 0%nat) 8) 0xff;
     ring_id_of := Z.land (Z.shiftr (dw 0%nat) 16) 0xff;
     vmid := Z.land (Z.shiftr (dw 0%nat) 24) 0xf;
     vmid_src := Z.shiftr (dw 0%nat) 31;
     timestamp := Z.lor (dw 1%nat) (Z.shiftl (Z.land (dw 2%nat) 0xffff) 32);
     timestamp_src := Z.shiftr (dw 2%nat) 31;
     pasid := Z.land (dw 3%nat) 0xffff;
     node_id := Z.land (Z.shiftr (dw 3%nat) 16) 0xff;
     src_data := [dw 4%nat; dw 5%nat; dw 6%nat; dw 7%nat] |}.

Definition amdgpu_ih_decode_iv_helper (ih : amdgpu_ih_ring) : amdgpu_iv_entry * amdgpu_ih_ring :=
  let ring_index := Z.shiftr (rptr ih) 2 in
  (decode_iv (ring_iv ih ring_index), ih <| rptr := u32 (rptr ih + 32) |>).

Definition amdgpu_ih_decode_iv_ts_helper (ih : amdgpu_ih_ring) (rptr offset : Z) : Z :=
  let iv_size := 32 in
  let rptr := u32 (rptr + iv_size * offset) in
  let ring_index := Z.shiftr (Z.land rptr (ptr_mask ih)) 2 in
  let dw1 := ring_dword ih (ring_index + 1) in
  let dw2 := ring_dword ih (ring_index + 2) in
  Z.lor dw1 (Z.shiftl (Z.land dw2 0xffff) 32).

(** ** The functions of a generation *)

(** [struct amdgpu_ih_funcs]. *)
Record amdgpu_ih_funcs := mk_ih_funcs {
  get_wptr : ring_id → amdgpu_ih_ring → Z * amdgpu_ih_ring;
  decode_iv_at : amdgpu_ih_ring → amdgpu_iv_entry * amdgpu_ih_ring;
  decode_iv_ts : amdgpu_ih_ring → Z → Z → Z;
  set_rptr : ring_id → amdgpu_ih_ring → amdgpu_ih_ring;
}.

Section Vega10.
(** [IH_RB_WPTR__RB_OVERFLOW__SHIFT], and whether the device is a virtual
    function. *)
Context (RB_OVERFLOW : Z) (is_sriov_vf : bool).

Definition MAX_REARM_RETRY : nat := 10.

(** The hardware's answer to [WPTR_OVERFLOW_CLEAR], set and unset again. *)
Definition hw_overflow_clear (ih : amdgpu_ih_ring) : amdgpu_ih_ring :=
  ih <| ih_rb_wptr ::= clear_bit RB_OVERFLOW |>.

Definition vega10_ih_get_wptr (id : ring_id) (ih : amdgpu_ih_ring) : Z * amdgpu_ih_ring :=
  let out (wptr : Z) (ih : amdgpu_ih_ring) := (Z.land wptr (ptr_mask ih), ih) in
  let shadow := match id with IH | IH_SOFT => true | _ => false end in
  if shadow && negb (test_bit RB_OVERFLOW (wptr_cpu ih)) then out (wptr_cpu ih) ih
  else
    let wptr := ih_rb_wptr ih in
    if negb (test_bit RB_OVERFLOW wptr) then out wptr ih
    else
      let wptr := clear_bit RB_OVERFLOW wptr in
      let tmp := Z.land (u32 (wptr + 32)) (ptr_mask ih) in
      out wptr (hw_overflow_clear (ih <| rptr := tmp |>)).

(** [WDOORBELL32]: the hardware takes the read pointer unless it misses the write. *)
Definition wdoorbell (ih : amdgpu_ih_ring) : amdgpu_ih_ring :=
  match doorbells_lost ih with
  | O => ih <| ih_rb_rptr := rptr ih |>
  | S n => ih <| doorbells_lost := n |>
  end.

Fixpoint rearm_loop (i : nat) (ih : amdgpu_ih_ring) : amdgpu_ih_ring :=
  match i with
  | O => ih
  | S i =>
      let v := ih_rb_rptr ih in
      if (v <? ring_size ih) && negb (v =? rptr ih) then rearm_loop i (wdoorbell ih) else ih
  end.

Definition vega10_ih_irq_rearm (ih : amdgpu_ih_ring) : amdgpu_ih_ring := rearm_loop MAX_REARM_RETRY ih.

Definition vega10_ih_set_rptr (id : ring_id) (ih : amdgpu_ih_ring) : amdgpu_ih_ring :=
  match id with
  | IH_SOFT => ih
  | _ =>
      if use_doorbell ih then
        let ih := wdoorbell (ih <| rptr_cpu := rptr ih |>) in
        if is_sriov_vf then vega10_ih_irq_rearm ih else ih
      else ih <| ih_rb_rptr := rptr ih |>
  end.

(** [psp_ok]: the PSP programs [IH_RB_CNTL] for a virtual function.  The fields of
    that register other than the enabling of the ring are not state here. *)
Definition vega10_ih_toggle_ring_interrupts (psp_ok enable : bool) (ih : amdgpu_ih_ring)
    : amdgpu_ih_ring * Z :=
  if is_sriov_vf && negb psp_ok then (ih, -ETIMEDOUT)
  else if enable then (ih <| enabled := true |>, 0)
  else (ih <| ih_rb_rptr := 0 |> <| ih_rb_wptr := 0 |> <| enabled := false |> <| rptr := 0 |>, 0).

Definition vega10_ih_enable_ring (psp_ok : bool) (ih : amdgpu_ih_ring) : amdgpu_ih_ring * Z :=
  if is_sriov_vf && negb psp_ok then (ih, -ETIMEDOUT)
  else (ih <| ih_rb_wptr := 0 |> <| ih_rb_rptr := 0 |>, 0).

Definition vega10_ih_funcs : amdgpu_ih_funcs :=
  mk_ih_funcs vega10_ih_get_wptr amdgpu_ih_decode_iv_helper amdgpu_ih_decode_iv_ts_helper
    vega10_ih_set_rptr.

(** ** The hardware *)

(** Its write pointer, and whether it has flagged an overflow. *)
Definition hw_pos (ih : amdgpu_ih_ring) : Z := clear_bit RB_OVERFLOW (ih_rb_wptr ih).
Definition hw_overflow (ih : amdgpu_ih_ring) : bool := test_bit RB_OVERFLOW (ih_rb_wptr ih).

(** It stores a vector.  Ring 0 has its pointer written back. *)
Definition ih_hw_write (id : ring_id) (iv : list Z) (ih : amdgpu_ih_ring) : amdgpu_ih_ring :=
  let next := Z.land (hw_pos ih + 32) (ptr_mask ih) in
  let wptr :=
    if hw_overflow ih || (next =? ih_rb_rptr ih) then set_bit RB_OVERFLOW next else next in
  let ih := ring_store ih (Z.shiftr (hw_pos ih) 2) iv in
  let ih := ih <| ih_rb_wptr := wptr |> in
  if decide (id = IH) then ih <| wptr_cpu := wptr |> else ih.
End Vega10.
