(* ===== verification/Irq.v ===== *)
(** * Interrupt sources

    [amdgpu_irq.c] and [amdgpu_ih_process]: the table of sources, the handler that
    walks a ring and gives each vector to its source and, unless the source has
    handled it, to the compute driver, and the counts behind the enabling of
    interrupt types.  What a source does is its [irq_src_funcs]; [S] is the state
    of the rest of the graphics driver and [K] that of the compute driver behind
    [kgd2kfd_interrupt].  The hardware may write vectors between any two turns of
    the handler ([ih_turn]). *)

From S2P Require Import Prelude Interrupt IhRing.

Definition AMDGPU_MAX_IRQ_SRC_ID : Z := 0x100.
Definition AMDGPU_IRQ_CLIENTID_LEGACY : Z := 0.
Definition IRQ_NONE : Z := 0.
Definition IRQ_HANDLED : Z := 1.

(** ** State *)

Record amdgpu_irq_src := mk_src { num_types : Z; enabled_types : option (list Z) }.
#[export] Instance eta_src : Eta amdgpu_irq_src := λ s, mk_src (num_types s) (enabled_types s).

(** Sources are objects with an identity; [client] is the table of [sources]
    arrays, with the sources that are not null. *)
Record amdgpu_device (S K : Type) := mk_adev {
  ih : amdgpu_ih_ring;
  ih1 : amdgpu_ih_ring;
  ih2 : amdgpu_ih_ring;
  ih_soft : amdgpu_ih_ring;
  ih1_work : bool;
  ih2_work : bool;
  ih_soft_work : bool;
  installed : bool;
  shutdown : bool;
  client : gmap Z (gmap Z nat);
  srcs : gmap nat amdgpu_irq_src;
  virq : gset Z;
  kfd : option (kfd_dev K);
  rest : S;
}.
Arguments mk_adev {S K}.
Arguments ih {S K}.
Arguments ih1 {S K}.
Arguments ih2 {S K}.
Arguments ih_soft {S K}.
Arguments ih1_work {S K}.
Arguments ih2_work {S K}.
Arguments ih_soft_work {S K}.
Arguments installed {S K}.
Arguments shutdown {S K}.
Arguments client {S K}.
Arguments srcs {S K}.
Arguments virq {S K}.
Arguments kfd {S K}.
Arguments rest {S K}.
#[export] Instance eta_adev {S K} : Eta (amdgpu_device S K) := λ a,
  mk_adev (ih a) (ih1 a) (ih2 a) (ih_soft a) (ih1_work a) (ih2_work a) (ih_soft_work a)
    (installed a) (shutdown a) (client a) (srcs a) (virq a) (kfd a) (rest a).

(** [struct amdgpu_irq_src_funcs]: [set] for a type and a state, [process] for the
    ring the vector came from, its fields and its dwords. *)
Record irq_src_funcs (S K : Type) := mk_src_funcs {
  set_state : option (amdgpu_device S K → Z → bool → amdgpu_device S K * Z);
  process : amdgpu_device S K → ring_id → amdgpu_iv_entry → list Z → amdgpu_device S K * Z;
}.
Arguments mk_src_funcs {S K}.
Arguments set_state {S K}.
Arguments process {S K}.

Section Irq.
Context {S K : Type}.
Abbreviation adev := (amdgpu_device S K).

Definition get_ih (id : ring_id) (a : adev) : amdgpu_ih_ring :=
  match id with IH => ih a | IH1 => ih1 a | IH2 => ih2 a | IH_SOFT => ih_soft a end.
Definition set_ih (id : ring_id) (r : amdgpu_ih_ring) (a : adev) : adev :=
  match id with
  | IH => a <| ih := r |>
  | IH1 => a <| ih1 := r |>
  | IH2 => a <| ih2 := r |>
  | IH_SOFT => a <| ih_soft := r |>
  end.

(** The functions of each source ([None] when [funcs] is null), the interrupt of
    another driver behind [virq], the functions of the generation, the compute
    driver's class and entry size, and [SOC15_IH_CLIENTID_MAX]. *)
Context (funcs : nat → option (irq_src_funcs S K)).
Context (generic_handle_domain_irq : Z → S → S).
Context (ih_funcs : amdgpu_ih_funcs).
Context (class : kfd_event_interrupt_class K) (entry_size : Z).
Context (AMDGPU_IRQ_CLIENTID_MAX : Z).
(** Memory for a table of sources and for the counts of a source. *)
Context (sources_ok types_ok : bool).

(** ** Sources *)

(** [kcalloc] of the [sources] of a client that has none. *)
Definition client_sources (a : adev) (client_id : Z) : option adev :=
  match client a !! client_id with
  | Some _ => Some a
  | None => if sources_ok then Some (a <| client ::= <[client_id := ∅]> |>) else None
  end.

Definition amdgpu_irq_add_id (a : adev) (client_id src_id : Z) (source : nat) : adev * Z :=
  if AMDGPU_IRQ_CLIENTID_MAX <=? client_id then (a, -EINVAL)
  else if AMDGPU_MAX_IRQ_SRC_ID <=? src_id then (a, -EINVAL)
  else
    match funcs source, srcs a !! source with
    | Some _, Some src =>
        match client_sources a client_id with
        | None => (a, -ENOMEM)
        | Some a =>
            match default ∅ (client a !! client_id) !! src_id with
            | Some _ => (a, -EINVAL)
            | None =>
                let no_types := match enabled_types src with None => true | Some _ => false end in
                if nz (num_types src) && no_types && negb types_ok then (a, -ENOMEM) else
                let types := Some (replicate (Z.to_nat (num_types src)) 0) in
                let a := if nz (num_types src) && no_types
                         then a <| srcs ::= <[source := src <| enabled_types := types |>]> |> else a in
                (a <| client ::= alter (<[src_id := source]>) client_id |>, 0)
            end
        end
    | _, _ => (a, -EINVAL)
    end.

(** The sources of the tables, client by client. *)
Definition all_sources (a : adev) : list nat :=
  concat ((λ '(_, sources), (map_to_list sources).*2) <$> map_to_list (client a)).

(** The [set] of a source. *)
Definition src_set (source : nat) : option (adev → Z → bool → adev * Z) :=
  f ← funcs source; set_state f.

Definition amdgpu_irq_enabled (a : adev) (source : nat) (type : Z) : bool :=
  match srcs a !! source with
  | None => false
  | Some src =>
      if negb (installed a) then false
      else if num_types src <=? type then false
      else match enabled_types src, src_set source with
           | Some types, Some _ => nz (default 0 (types !! Z.to_nat type))
           | _, _ => false
           end
  end.

(** With [-EINVAL] where the code would call a null [set]; its callers check. *)
Definition amdgpu_irq_update (a : adev) (source : nat) (type : Z) : adev * Z :=
  match src_set source with
  | None => (a, -EINVAL)
  | Some set => set a type (amdgpu_irq_enabled a source type)
  end.

(** [atomic_add_return] on a count. *)
Definition add_count (a : adev) (source : nat) (type d : Z) : adev * Z :=
  match srcs a !! source with
  | Some src =>
      let types := default [] (enabled_types src) in
      let n := s32 (default 0 (types !! Z.to_nat type) + d) in
      (a <| srcs ::= <[source := src <| enabled_types := Some (<[Z.to_nat type := n]> types) |>]> |>, n)
  | None => (a, 0)
  end.

(** The checks [amdgpu_irq_get] and [amdgpu_irq_put] share. *)
Definition type_checks (a : adev) (source : nat) (type : Z) : Z :=
  match srcs a !! source with
  | None => -EINVAL
  | Some src =>
      if negb (installed a) then -ENOENT
      else if num_types src <=? type then -EINVAL
      else match enabled_types src, src_set source with
           | Some _, Some _ => 0
           | _, _ => -EINVAL
           end
  end.

Definition amdgpu_irq_get (a : adev) (source : nat) (type : Z) : adev * Z :=
  let r := type_checks a source type in
  if nz r then (a, r) else
  let '(a, n) := add_count a source type 1 in
  if n =? 1 then amdgpu_irq_update a source type else (a, 0).

Definition amdgpu_irq_put (a : adev) (source : nat) (type : Z) : adev * Z :=
  let r := type_checks a source type in
  if nz r then (a, r)
  else if negb (amdgpu_irq_enabled a source type) then (a, -EINVAL)
  else
    let '(a, n) := add_count a source type (-1) in
    if n =? 0 then amdgpu_irq_update a source type else (a, 0).

(** The loops over all sources and their types: the state is set to disabled, or
    to what the counts say. *)
Definition each_type (f : adev → nat → Z → adev) (a : adev) : adev :=
  foldl (λ a source,
    match srcs a !! source, src_set source with
    | Some src, Some _ => foldl (λ a k, f a source k) a (seqZ 0 (num_types src))
    | _, _ => a
    end) a (all_sources a).

Definition amdgpu_irq_disable_all : adev → adev :=
  each_type (λ a source k,
    match src_set source with Some set => (set a k false).1 | None => a end).

(** [amdgpu_restore_msix], which writes PCI configuration, is left out. *)
Definition amdgpu_irq_gpu_reset_resume_helper : adev → adev :=
  each_type (λ a source k, (amdgpu_irq_update a source k).1).

Definition amdgpu_irq_fini_sw (a : adev) : adev :=
  let a := foldl (λ a source,
    a <| srcs ::= alter (λ src, src <| enabled_types := None |>) source |>) a (all_sources a) in
  a <| client := ∅ |>.

(** ** Dispatch *)

(** The work queue of the compute driver may be gone ([None]). *)
Definition amdgpu_amdkfd_interrupt (a : adev) (iv : list Z) : option adev :=
  match kfd a with
  | None => Some a
  | Some k => '(k, _) ← kgd2kfd_interrupt class entry_size k iv; Some (a <| kfd := Some k |>)
  end.

(** The source's part of [amdgpu_irq_dispatch], and whether it handled the vector. *)
Definition dispatch_source (a : adev) (id : ring_id) (entry : amdgpu_iv_entry) (iv : list Z)
    : adev * bool :=
  let client_id := client_id entry in
  let src_id := src_id entry in
  if AMDGPU_IRQ_CLIENTID_MAX <=? client_id then (a, false)
  else if AMDGPU_MAX_IRQ_SRC_ID <=? src_id then (a, false)
  else if (client_id =? AMDGPU_IRQ_CLIENTID_LEGACY) && bool_decide (src_id ∈ virq a)
  then (a <| rest ::= generic_handle_domain_irq src_id |>, false)
  else
    match client a !! client_id with
    | None => (a, false)
    | Some sources =>
        match f ← sources !! src_id; funcs f with
        | Some f =>
            let '(a, r) := process f a id entry iv in
            (a, 0 <? r)
        | None => (a, false)
        end
    end.

Definition amdgpu_irq_dispatch (id : ring_id) (a : adev) : option adev :=
  let r := get_ih id a in
  let iv := ring_iv r (Z.shiftr (rptr r) 2) in
  let '(entry, r) := decode_iv_at ih_funcs r in
  let a := set_ih id r a in
  let '(a, handled) := dispatch_source a id entry iv in
  a ← (if handled then Some a else amdgpu_amdkfd_interrupt a iv);
  let r := get_ih id a in
  Some (if amdgpu_ih_ts_after (processed_timestamp r) (timestamp entry)
        then set_ih id (r <| processed_timestamp := timestamp entry |>) a else a).

(** [entry->iv_entry] with [num_dw] dwords goes to the software ring. *)
Definition amdgpu_irq_delegate (a : adev) (iv : list Z) (num_dw : Z) : adev :=
  a <| ih_soft ::= λ r, amdgpu_ih_ring_write r iv num_dw |> <| ih_soft_work := true |>.

(** The source of the vectors that say another ring has some. *)
Definition vega10_ih_self_irq (a : adev) (entry : amdgpu_iv_entry) : adev * Z :=
  (if ring_id_of entry =? 1 then a <| ih1_work := true |>
   else if ring_id_of entry =? 2 then a <| ih2_work := true |> else a, 0).

(** [vega10_ih_toggle_interrupts] and the loop of [vega10_ih_irq_init]: an operation on
    the hardware's rings that exist, one after the other until one fails. *)
Fixpoint each_ring (f : amdgpu_ih_ring → amdgpu_ih_ring * Z) (l : list ring_id) (a : adev) : adev * Z :=
  match l with
  | [] => (a, 0)
  | id :: l =>
      if nz (ring_size (get_ih id a)) then
        let '(r, ret) := f (get_ih id a) in
        let a := set_ih id r a in
        if nz ret then (a, ret) else each_ring f l a
      else each_ring f l a
  end.

Definition vega10_ih_toggle_interrupts (vf psp_ok enable : bool) : adev → adev * Z :=
  each_ring (vega10_ih_toggle_ring_interrupts vf psp_ok enable) [IH; IH1; IH2].

Definition vega10_ih_irq_init (vf psp_ok : bool) (a : adev) : adev * Z :=
  let '(a, ret) := vega10_ih_toggle_interrupts vf psp_ok false a in
  if nz ret then (a, ret) else
  let '(a, ret) := each_ring (vega10_ih_enable_ring vf psp_ok) [IH; IH1; IH2] a in
  if nz ret then (a, ret) else
  let '(a, ret) := vega10_ih_toggle_interrupts vf psp_ok true a in
  if nz ret then (a, ret) else
  (if nz (ring_size (ih_soft a)) then a <| ih_soft ::= λ r, r <| enabled := true |> |> else a, 0).

(** ** The handler *)

(** Where [amdgpu_ih_process] is: not running, or in its loop with [wptr] and
    [count]. *)
Inductive handler := HIdle | HLoop (wptr : Z) (count : nat).

(** A turn: the start, one dispatch, or the end of the loop, which starts it again
    when the hardware wrote more.  With the state, the vector that was
    dispatched. *)
Definition ih_turn (id : ring_id) (a : adev) (h : handler) : option (adev * handler * option (list Z)) :=
  let r := get_ih id a in
  match h with
  | HIdle =>
      if negb (enabled r) || shutdown a then Some (a, HIdle, None)
      else
        let '(wptr, r) := get_wptr ih_funcs id r in
        Some (set_ih id r a, HLoop wptr AMDGPU_IH_MAX_NUM_IVS, None)
  | HLoop wptr count =>
      if negb (rptr r =? wptr) && negb (bool_decide (pred count = 0%nat)) then
        let iv := ring_iv r (Z.shiftr (rptr r) 2) in
        a ← amdgpu_irq_dispatch id a;
        let r := get_ih id a in
        Some (set_ih id (r <| rptr := Z.land (rptr r) (ptr_mask r) |>) a, HLoop wptr (pred count), Some iv)
      else
        let r := set_rptr ih_funcs id r in
        let '(wptr, r) := get_wptr ih_funcs id r in
        Some (set_ih id r a, if negb (wptr =? rptr r) then HLoop wptr AMDGPU_IH_MAX_NUM_IVS else HIdle, None)
  end.

(** Turns until the handler is done: the device and the vectors dispatched, or
    [None] when a turn has no outcome or the fuel is used up. *)
Fixpoint ih_turns (fuel : nat) (id : ring_id) (a : adev) (h : handler) : option (adev * list (list Z)) :=
  match fuel with
  | O => None
  | Datatypes.S fuel =>
      '(a, h, iv) ← ih_turn id a h;
      let log := match iv with Some iv => [iv] | None => [] end in
      match h with
      | HIdle => Some (a, log)
      | _ => '(a, l) ← ih_turns fuel id a h; Some (a, log ++ l)
      end
  end.

Definition amdgpu_ih_process (fuel : nat) (id : ring_id) (a : adev) : option (adev * list (list Z) * Z) :=
  if negb (enabled (get_ih id a)) || shutdown a then Some (a, [], IRQ_NONE)
  else '(a, l) ← ih_turns fuel id a HIdle; Some (a, l, IRQ_HANDLED).

(** The interrupt handler, and the work items of the other rings, which clear
    their flag when they start. *)
Definition amdgpu_irq_handler (ras_fatal : S → S) (fuel : nat) (a : adev) : option (adev * Z) :=
  '(a, _, ret) ← amdgpu_ih_process fuel IH a;
  Some (a <| rest ::= ras_fatal |>, ret).
Definition amdgpu_irq_handle_ih1 (fuel : nat) (a : adev) : option adev :=
  '(a, _, _) ← amdgpu_ih_process fuel IH1 (a <| ih1_work := false |>); Some a.
Definition amdgpu_irq_handle_ih2 (fuel : nat) (a : adev) : option adev :=
  '(a, _, _) ← amdgpu_ih_process fuel IH2 (a <| ih2_work := false |>); Some a.
Definition amdgpu_irq_handle_ih_soft (fuel : nat) (a : adev) : option adev :=
  '(a, _, _) ← amdgpu_ih_process fuel IH_SOFT (a <| ih_soft_work := false |>); Some a.

(** ** Histories of one ring *)

Context (RB_OVERFLOW : Z).

Inductive ih_label :=
  | Write (iv : list Z)     (* by the hardware *)
  | Turn.                   (* of the handler *)

(** With the state: the vector written or dispatched, and whether a write found the
    ring full. *)
Definition ih_step (id : ring_id) (a : adev) (h : handler) (l : ih_label)
    : option (adev * handler * list (list Z) * list (list Z) * bool) :=
  match l with
  | Write iv =>
      let r := get_ih id a in
      Some (set_ih id (ih_hw_write RB_OVERFLOW id iv r) a, h, [iv], [],
            hw_overflow RB_OVERFLOW r || (Z.land (hw_pos RB_OVERFLOW r + 32) (ptr_mask r) =? ih_rb_rptr r))
  | Turn =>
      '(a, h, iv) ← ih_turn id a h;
      Some (a, h, [], match iv with Some iv => [iv] | None => [] end, false)
  end.

(** The vectors written and dispatched in a history, and whether it had an
    overflow. *)
Fixpoint ih_run (id : ring_id) (a : adev) (h : handler) (l : list ih_label)
    : option (adev * handler * list (list Z) * list (list Z) * bool) :=
  match l with
  | [] => Some (a, h, [], [], false)
  | x :: l =>
      '(a, h, w, d, o) ← ih_step id a h x;
      '(a, h, ws, ds, os) ← ih_run id a h l;
      Some (a, h, w ++ ws, d ++ ds, o || os)
  end.
End Irq.
