(* ===== verification/IhProof.v ===== *)
(** * Interrupt rings: proofs

    [IhFuncs] is what the handler relies on from the functions of a generation, with
    [vega10_ih_funcs] as an instance, and [Sources] what it relies on from the
    sources of the vectors.  The invariant [ring_ok] ties a ring to the list of the
    vectors the hardware has written, of which it holds the last [N]. *)

From S2P Require Import Prelude Interrupt IhRing Irq.
#[local] Open Scope Z_scope.
#[local] Open Scope list_scope.

(** ** The functions of a generation *)

(** The shadow of ring 0 is the register, or has an overflow that was cleared
    since. *)
Definition shadow_ok (RB_OVERFLOW : Z) (id : ring_id) (r : amdgpu_ih_ring) : Prop :=
  id = IH → clear_bit RB_OVERFLOW (wptr_cpu r) = hw_pos RB_OVERFLOW r ∧
            (test_bit RB_OVERFLOW (wptr_cpu r) = false → hw_overflow RB_OVERFLOW r = false).

Class IhFuncs (RB_OVERFLOW : Z) (F : amdgpu_ih_funcs) : Prop := {
  funcs_decode r :
    decode_iv_at F r = (decode_iv (ring_iv r (Z.shiftr (rptr r) 2)), r <| rptr := u32 (rptr r + 32) |>);
  funcs_get_wptr id r : id ≠ IH_SOFT → shadow_ok RB_OVERFLOW id r →
    get_wptr F id r =
    (Z.land (hw_pos RB_OVERFLOW r) (ptr_mask r),
     if hw_overflow RB_OVERFLOW r
     then r <| rptr := Z.land (u32 (hw_pos RB_OVERFLOW r + 32)) (ptr_mask r) |>
            <| ih_rb_wptr := hw_pos RB_OVERFLOW r |>
     else r);
  funcs_set_rptr id r : ∃ cpu hw lost,
    set_rptr F id r = r <| rptr_cpu := cpu |> <| ih_rb_rptr := hw |> <| doorbells_lost := lost |> ∧
    (hw = ih_rb_rptr r ∨ hw = rptr r) ∧ (id ≠ IH_SOFT → doorbells_lost r = O → hw = rptr r ∧ lost = O);
}.

Lemma if_negb {X} (b : bool) (x y : X) : (if negb b then x else y) = if b then y else x.
Proof. by destruct b. Qed.

Lemma clear_bit_id b z : test_bit b z = false → clear_bit b z = z.
Proof.
  unfold test_bit. intros H. apply Z.bits_inj'. intros j Hj. rewrite clear_bit_spec.
  destruct (Z.eqb_spec b j) as [->|]; simpl; [by rewrite H|by rewrite andb_true_r].
Qed.

Lemma rearm_loop_spec n r : ∃ hw lost,
  rearm_loop n r = r <| ih_rb_rptr := hw |> <| doorbells_lost := lost |> ∧
  (hw = ih_rb_rptr r ∨ hw = rptr r) ∧
  (ih_rb_rptr r = rptr r → hw = rptr r ∧ lost = doorbells_lost r).
Proof.
  revert r. induction n as [|n IH]; intros r; simpl.
  { exists (ih_rb_rptr r), (doorbells_lost r). split_and!; [by destruct r|by left|done]. }
  destruct (_ && _) eqn:Ec.
  2: { exists (ih_rb_rptr r), (doorbells_lost r). split_and!; [by destruct r|by left|done]. }
  unfold wdoorbell. destruct (doorbells_lost r) as [|k] eqn:E.
  - destruct (IH (r <| ih_rb_rptr := rptr r |>)) as (hw & lost & -> & Hhw & Heq). simpl in *.
    exists hw, lost. destruct Heq as [-> ->]; [done|]. split_and!; [done|by right|done].
  - apply andb_true_iff in Ec as [_ Ec]. apply negb_true_iff, Z.eqb_neq in Ec.
    destruct (IH (r <| doorbells_lost := k |>)) as (hw & lost & -> & Hhw & Heq). simpl in *.
    exists hw, lost. done.
Qed.

Lemma wdoorbell_spec r : ∃ hw lost,
  wdoorbell r = r <| ih_rb_rptr := hw |> <| doorbells_lost := lost |> ∧
  (hw = ih_rb_rptr r ∨ hw = rptr r) ∧ (doorbells_lost r = O → hw = rptr r ∧ lost = O).
Proof.
  unfold wdoorbell. destruct (doorbells_lost r) as [|k] eqn:E.
  - exists (rptr r), O. split_and!; [by destruct r; simpl in *; subst|by right|done].
  - exists (ih_rb_rptr r), k. split_and!; [by destruct r|by left|done].
Qed.

Lemma vega10_set_rptr_spec vf id r : ∃ cpu hw lost,
  vega10_ih_set_rptr vf id r = r <| rptr_cpu := cpu |> <| ih_rb_rptr := hw |> <| doorbells_lost := lost |> ∧
  (hw = ih_rb_rptr r ∨ hw = rptr r) ∧ (id ≠ IH_SOFT → doorbells_lost r = O → hw = rptr r ∧ lost = O).
Proof.
  unfold vega10_ih_set_rptr. destruct (decide (id = IH_SOFT)) as [->|Hid].
  { exists (rptr_cpu r), (ih_rb_rptr r), (doorbells_lost r). split_and!; [by destruct r|by left|done]. }
  assert (Hring : ∃ cpu hw lost,
    (if use_doorbell r
     then let r := wdoorbell (r <| rptr_cpu := rptr r |>) in if vf then vega10_ih_irq_rearm r else r
     else r <| ih_rb_rptr := rptr r |>)
    = r <| rptr_cpu := cpu |> <| ih_rb_rptr := hw |> <| doorbells_lost := lost |> ∧
    (hw = ih_rb_rptr r ∨ hw = rptr r) ∧ (doorbells_lost r = O → hw = rptr r ∧ lost = O)).
  2: { destruct Hring as (cpu & hw & lost & Heq & ? & ?). exists cpu, hw, lost. by destruct id. }
  destruct (use_doorbell r); cbv zeta.
  2: { exists (rptr_cpu r), (rptr r), (doorbells_lost r). split_and!; [by destruct r|by right|done]. }
  destruct (wdoorbell_spec (r <| rptr_cpu := rptr r |>)) as (hw & lost & -> & Hhw & Hz). simpl in Hhw, Hz.
  destruct vf; [|by exists (rptr r), hw, lost].
  destruct (rearm_loop_spec MAX_REARM_RETRY (r <| rptr_cpu := rptr r |> <| ih_rb_rptr := hw |> <| doorbells_lost := lost |>))
    as (hw' & lost' & E & Hhw' & Heq). unfold vega10_ih_irq_rearm. rewrite E. simpl in Hhw', Heq.
  exists (rptr r), hw', lost'. split_and!; [done| |].
  - destruct Hhw' as [->| ->]; [done|by right].
  - intros Hl. destruct (Hz Hl) as [-> ->]. by apply Heq.
Qed.

#[export] Instance vega10_funcs RB_OVERFLOW vf : IhFuncs RB_OVERFLOW (vega10_ih_funcs RB_OVERFLOW vf).
Proof.
  split; [done| |intros id r; apply vega10_set_rptr_spec].
  intros id r Hid Hs. change (get_wptr _ id r) with (vega10_ih_get_wptr RB_OVERFLOW id r). unfold vega10_ih_get_wptr.
  assert (Hreg : ∀ b : bool, (b = true → test_bit RB_OVERFLOW (wptr_cpu r) = false ∧ id = IH) →
    (if b then (Z.land (wptr_cpu r) (ptr_mask r), r)
     else if negb (test_bit RB_OVERFLOW (ih_rb_wptr r)) then (Z.land (ih_rb_wptr r) (ptr_mask r), r)
     else (Z.land (clear_bit RB_OVERFLOW (ih_rb_wptr r)) (ptr_mask r),
           hw_overflow_clear RB_OVERFLOW
             (r <| rptr := Z.land (u32 (clear_bit RB_OVERFLOW (ih_rb_wptr r) + 32)) (ptr_mask r) |>)))
    = (Z.land (hw_pos RB_OVERFLOW r) (ptr_mask r),
       if hw_overflow RB_OVERFLOW r
       then r <| rptr := Z.land (u32 (hw_pos RB_OVERFLOW r + 32)) (ptr_mask r) |>
              <| ih_rb_wptr := hw_pos RB_OVERFLOW r |>
       else r)).
  { intros [] Hb.
    - destruct (Hb eq_refl) as [E Hih]. destruct (Hs Hih) as [Hp Ho]. by rewrite (Ho E), <- Hp, clear_bit_id.
    - unfold hw_overflow, hw_pos. destruct (test_bit RB_OVERFLOW (ih_rb_wptr r)) eqn:E; simpl; [done|].
      by rewrite clear_bit_id. }
  etransitivity; [|apply (Hreg ((match id with IH | IH_SOFT => true | _ => false end) && negb (test_bit RB_OVERFLOW (wptr_cpu r))))].
  - by destruct id; simpl; [destruct (negb _)|..].
  - intros Hb. destruct id; simpl in Hb; [|done..]. split; [by apply negb_true_iff|done].
Qed.

Lemma pointer_index x : Z.shiftr (32 * x) 2 = 8 * x.
Proof. rewrite Z.shiftr_div_pow2 by lia. change (2 ^ 2) with 4. replace (32 * x) with (8 * x * 4) by lia. by rewrite Z.div_mul. Qed.

(** Two of [N] consecutive numbers that agree modulo [N] are equal. *)
Lemma mod_apart N a b : 0 < N → a ≤ b < a + N → a `mod` N = b `mod` N → a = b.
Proof.
  intros HN Hab Heq. pose proof (Z.div_mod a N ltac:(lia)). pose proof (Z.div_mod b N ltac:(lia)).
  pose proof (Z.div_le_mono a b N HN ltac:(lia)). assert (b / N - a / N < 1) by nia.
  assert (b / N = a / N) as Hq by lia. rewrite Hq in *. lia.
Qed.

(** ** Memory of a ring *)

Section Ring.
Context (RB_OVERFLOW : Z) (Hbit : 0 ≤ RB_OVERFLOW < 5).
Context (id : ring_id).

(** The ring of [N] vectors after the vectors of [W] were written to it. *)
Record ring_ok (N : Z) (r : amdgpu_ih_ring) (W : list (list Z)) : Prop := {
  rk_pow : ∃ m, 0 < m ≤ 26 ∧ N = 2 ^ m;
  rk_mask : ptr_mask r = 32 * N - 1;
  rk_mem : ∃ mem, ring r = Some mem ∧ Z.of_nat (length mem) = 8 * N;
  rk_pos : hw_pos RB_OVERFLOW r = 32 * (Z.of_nat (length W) `mod` N);
  rk_held : ∀ j, 0 ≤ j → Z.of_nat (length W) - N ≤ j < Z.of_nat (length W) →
    W !! Z.to_nat j = Some (ring_iv r (8 * (j `mod` N)));
  rk_shadow : shadow_ok RB_OVERFLOW id r;
}.

Lemma ring_bounds N r W : ring_ok N r W → 2 ≤ N ≤ 2 ^ 26.
Proof.
  intros [(m & Hm & ->) _ _ _ _ _]. split; [|apply Z.pow_le_mono_r; lia].
  change 2 with (2 ^ 1) at 1. apply Z.pow_le_mono_r; lia.
Qed.

(** Masking a pointer is taking it modulo the size of the ring. *)
Lemma mask_pointer N r W x : ring_ok N r W → Z.land (32 * x) (ptr_mask r) = 32 * (x `mod` N).
Proof.
  intros [(m & Hm & ->) -> _ _ _ _]. replace (32 * 2 ^ m - 1) with (Z.ones (5 + m)).
  2: { rewrite Z.ones_equiv, Z.pow_add_r by lia. lia. }
  rewrite Z.land_ones, Z.pow_add_r by lia. change (2 ^ 5) with 32. by rewrite Z.mul_mod_distr_l by lia.
Qed.

(** The overflow flag does not disturb a pointer. *)
Lemma pointer_bit x : test_bit RB_OVERFLOW (32 * x) = false.
Proof.
  unfold test_bit. replace (32 * x) with (x * 2 ^ 5) by lia. by rewrite Z.mul_pow2_bits_low by lia.
Qed.
Lemma pointer_clear x : clear_bit RB_OVERFLOW (32 * x) = 32 * x.
Proof. apply clear_bit_id, pointer_bit. Qed.
Lemma pointer_clear_set x : clear_bit RB_OVERFLOW (set_bit RB_OVERFLOW (32 * x)) = 32 * x.
Proof. apply clear_set_bit; [lia|apply pointer_bit]. Qed.

Lemma store_dword r mem i iv k :
  ring r = Some mem → 0 ≤ i → 0 ≤ k → i + Z.of_nat (length iv) ≤ Z.of_nat (length mem) →
  ring_dword (ring_store r i iv) k =
  if bool_decide (i ≤ k < i + Z.of_nat (length iv)) then default 0 (iv !! Z.to_nat (k - i)) else ring_dword r k.
Proof.
  intros Hr Hi Hk Hl. unfold ring_dword, ring_store. simpl. rewrite Hr. simpl.
  case_bool_decide as Hin.
  - rewrite list_lookup_inserts by lia. do 2 f_equal. lia.
  - destruct (decide (k < i)); [rewrite list_lookup_inserts_lt by lia; done|].
    rewrite list_lookup_inserts_ge by lia. done.
Qed.

Lemma store_iv_same r mem i iv :
  ring r = Some mem → 0 ≤ i → length iv = 8%nat → i + 8 ≤ Z.of_nat (length mem) →
  ring_iv (ring_store r i iv) i = iv.
Proof.
  intros Hr Hi Hl Hm. apply list_eq. intros k. unfold ring_iv. rewrite list_lookup_fmap.
  destruct (decide (k < 8)%nat) as [Hk|Hk].
  - rewrite lookup_seqZ_lt by lia. simpl. rewrite (store_dword r mem) by (done || lia).
    rewrite bool_decide_true by lia. replace (Z.to_nat _) with k by lia.
    destruct (lookup_lt_is_Some_2 iv k ltac:(lia)) as [x ->]. done.
  - rewrite lookup_seqZ_ge by lia. symmetry. apply lookup_ge_None. lia.
Qed.

Lemma store_iv_other r mem i j iv :
  ring r = Some mem → 0 ≤ i → 0 ≤ j → length iv = 8%nat → i + 8 ≤ Z.of_nat (length mem) →
  (j + 8 ≤ i ∨ i + 8 ≤ j) → ring_iv (ring_store r i iv) j = ring_iv r j.
Proof.
  intros Hr Hi Hj Hl Hm Hd. unfold ring_iv. apply list_fmap_ext. intros k z Hz.
  apply lookup_seqZ in Hz as [-> Hz]. rewrite (store_dword r mem) by (done || lia). by rewrite bool_decide_false by lia.
Qed.

Lemma hw_write_ok N r W iv :
  ring_ok N r W → length iv = 8%nat → ring_ok N (ih_hw_write RB_OVERFLOW id iv r) (W ++ [iv]).
Proof.
  intros Hok Hiv. pose proof (ring_bounds _ _ _ Hok) as HN. pose proof Hok as [Hpow Hmask (mem & Hmem & Hlm) Hpos Hheld Hsh].
  pose proof (Z.mod_pos_bound (Z.of_nat (length W)) N ltac:(lia)) as Hm.
  set (n := Z.of_nat (length W)) in *.
  assert (Hnext : Z.land (hw_pos RB_OVERFLOW r + 32) (ptr_mask r) = 32 * ((n + 1) `mod` N)).
  { rewrite Hpos. replace (32 * (n `mod` N) + 32) with (32 * (n `mod` N + 1)) by lia.
    rewrite (mask_pointer _ _ _ _ Hok), Z.add_mod_idemp_l by lia. done. }
  assert (Hlen : Z.of_nat (length (W ++ [iv])) = n + 1) by (rewrite length_app; simpl; lia).
  set (r1 := ring_store r (8 * (n `mod` N)) iv).
  assert (Hring : ring (ih_hw_write RB_OVERFLOW id iv r) = ring r1).
  { unfold ih_hw_write. rewrite Hpos, pointer_index. fold r1. by destruct (decide (id = IH)). }
  assert (Hreg : ih_rb_wptr (ih_hw_write RB_OVERFLOW id iv r) =
    if hw_overflow RB_OVERFLOW r || (32 * ((n + 1) `mod` N) =? ih_rb_rptr r)
    then set_bit RB_OVERFLOW (32 * ((n + 1) `mod` N)) else 32 * ((n + 1) `mod` N)).
  { unfold ih_hw_write. rewrite Hnext. by destruct (decide (id = IH)). }
  assert (Hpos' : hw_pos RB_OVERFLOW (ih_hw_write RB_OVERFLOW id iv r) = 32 * ((n + 1) `mod` N)).
  { unfold hw_pos. rewrite Hreg. destruct (_ || _); [apply pointer_clear_set|apply pointer_clear]. }
  split.
  - done.
  - unfold ih_hw_write. by destruct (decide (id = IH)).
  - rewrite Hring. unfold r1, ring_store. simpl. rewrite Hmem. simpl. eexists. split; [done|]. by rewrite length_inserts.
  - by rewrite Hpos', Hlen.
  - rewrite Hlen. intros j Hj0 Hj.
    assert (Hsame : ∀ i, ring_iv (ih_hw_write RB_OVERFLOW id iv r) i = ring_iv r1 i)
      by (intros i; unfold ring_iv, ring_dword; by rewrite Hring).
    rewrite Hsame.
    destruct (decide (j = n)) as [->|Hne].
    + unfold r1. rewrite (store_iv_same r mem) by (done || lia). unfold n. rewrite Nat2Z.id.
      rewrite lookup_app_r by lia. by rewrite Nat.sub_diag.
    + rewrite lookup_app_l by lia. rewrite Hheld by lia. f_equal. unfold r1. symmetry.
      pose proof (Z.mod_pos_bound j N ltac:(lia)). assert (j `mod` N ≠ n `mod` N).
      { intros E. apply mod_apart in E; lia. }
      apply (store_iv_other r mem); [done|lia..].
  - intros Hid. unfold hw_overflow. rewrite Hpos'. unfold ih_hw_write. rewrite Hnext.
    rewrite decide_True by done. simpl. split; [|done].
    destruct (_ || _); [apply pointer_clear_set|apply pointer_clear].
Qed.
End Ring.

(** ** The handler *)

Lemma kgd2kfd_total {K} (class : kfd_event_interrupt_class K) n (k : kfd_dev K) e :
  ih_wq k = true → ∃ k' acc, kgd2kfd_interrupt class n k e = Some (k', acc) ∧ ih_wq k' = true.
Proof.
  intros Hwq. unfold kgd2kfd_interrupt. destruct (init_complete k); [|by exists k, None]. simpl negb. cbv iota.
  destruct (_ <? _); [by exists k, None|]. rewrite Hwq.
  assert (Hloop : ∀ l i p, ∃ l' acc, interrupt_loop class n true (sys k) i l e p = Some (l', acc)).
  { induction l as [|[m|] l IH]; intros i p; cbn [interrupt_loop]; [by eexists _, _| |by eexists _, _].
    destruct (if interrupts_active m then _ else _) as [wanted p'].
    destruct (if wanted then _ else _) as [[] m']; simpl; [by eexists _, _|].
    destruct (IH (Datatypes.S i) p') as (l' & acc & ->). by eexists _, _. }
  destruct (Hloop (nodes k) O None) as (l' & acc & ->). simpl. by eexists _, _.
Qed.

Lemma irq_run_app {K} (class : kfd_event_interrupt_class K) n (k k1 : kfd_dev K) l1 l2 acc1 done1 :
  irq_run class n k l1 = Some (k1, acc1, done1) →
  irq_run class n k (l1 ++ l2) = '(k2, acc2, done2) ← irq_run class n k1 l2; Some (k2, acc1 ++ acc2, done1 ++ done2).
Proof.
  revert k acc1 done1. induction l1 as [|x l1 IH]; intros k acc1 done1 H; simpl in H.
  - injection H as <- <- <-. simpl. by destruct (irq_run _ _ _ _) as [[[? ?] ?]|].
  - simpl. destruct (irq_step class n k x) as [[[kx ax] dx]|]; [|done]. simpl in *.
    destruct (irq_run class n kx l1) as [[[k1' acc1'] done1']|] eqn:E; [|done]. simpl in H. injection H as <- <- <-.
    rewrite (IH _ _ _ E). destruct (irq_run class n k1' l2) as [[[? ?] ?]|]; simpl; [|done]. by rewrite !app_assoc.
Qed.

Section Handler.
Context {S K : Type} (funcs : nat → option (irq_src_funcs S K)) (virq_irq : Z → S → S).
Context (F : amdgpu_ih_funcs) (class : kfd_event_interrupt_class K) (entry_size CLIENTID_MAX : Z).
Context (RB_OVERFLOW : Z) (Hbit : 0 ≤ RB_OVERFLOW < 5) `{!IhFuncs RB_OVERFLOW F}.
Context (id : ring_id) (Hid : id ≠ IH_SOFT).
Abbreviation adev := (amdgpu_device S K).
Abbreviation dispatch := (amdgpu_irq_dispatch funcs virq_irq F class entry_size CLIENTID_MAX id).
Abbreviation turn := (ih_turn funcs virq_irq F class entry_size CLIENTID_MAX id).
Abbreviation turns := (ih_turns funcs virq_irq F class entry_size CLIENTID_MAX).

(** With the tables of sources fixed, whether a source takes a vector for itself
    depends on the vector, and sources leave the ring they are called from, the
    compute driver and the tables alone. *)
Context (tbl : gmap Z (gmap Z nat)) (vq : gset Z) (handled : list Z → bool).
Definition tables (a : adev) : Prop := client a = tbl ∧ virq a = vq.

Class Sources : Prop :=
  sources_spec (a : adev) iv : tables a →
    ∃ a', dispatch_source funcs virq_irq CLIENTID_MAX a id (decode_iv iv) iv = (a', handled iv) ∧
      get_ih id a' = get_ih id a ∧ kfd a' = kfd a ∧ tables a'.
Context `{!Sources}.

(** The compute driver, which still has its work queue, took the vectors of [l] no
    source took. *)
Definition kfd_live (a : adev) : Prop := match kfd a with Some k => ih_wq k = true | None => True end.
Definition offered (l : list (list Z)) : list irq_label :=
  Interrupt <$> filter (λ iv, handled iv = false) l.
Definition fed (a a' : adev) (l : list (list Z)) : Prop :=
  match kfd a with
  | None => kfd a' = None
  | Some k => ∃ k' accs, irq_run class entry_size k (offered l) = Some (k', accs, []) ∧ kfd a' = Some k'
  end.

Lemma fed_nil a : fed a a [].
Proof. unfold fed. destruct (kfd a) as [k|]; [|done]. by exists k, []. Qed.

Lemma fed_app a b c l1 l2 : fed a b l1 → fed b c l2 → fed a c (l1 ++ l2).
Proof.
  unfold fed, offered. destruct (kfd a) as [k|].
  - intros (k1 & acc1 & H1 & ->) (k2 & acc2 & H2 & ->). exists k2, (acc1 ++ acc2).
    rewrite filter_app, fmap_app, (irq_run_app _ _ _ _ _ _ _ _ H1), H2. done.
  - intros ->. done.
Qed.

Lemma get_set_ih r (a : adev) : get_ih id (set_ih id r a) = r.
Proof. by destruct id. Qed.
Lemma kfd_set_ih i r (a : adev) : kfd (set_ih i r a) = kfd a.
Proof. by destruct i. Qed.
Lemma tables_set_ih i r (a : adev) : tables (set_ih i r a) ↔ tables a.
Proof. by destruct i. Qed.
Lemma live_set_ih i r (a : adev) : kfd_live (set_ih i r a) ↔ kfd_live a.
Proof. by destruct i. Qed.
Lemma fed_set_ih i r (a b : adev) l : fed a b l → fed a (set_ih i r b) l.
Proof. by destruct i. Qed.
Lemma set_set_ih r r' (a : adev) : set_ih id r (set_ih id r' a) = set_ih id r a.
Proof. by destruct id. Qed.

(** One dispatch. *)
Lemma dispatch_spec a :
  kfd_live a → tables a →
  ∃ a' t, dispatch a = Some a' ∧
    get_ih id a' = (get_ih id a) <| rptr := u32 (rptr (get_ih id a) + 32) |> <| processed_timestamp := t |> ∧
    kfd_live a' ∧ tables a' ∧ fed a a' [ring_iv (get_ih id a) (Z.shiftr (rptr (get_ih id a)) 2)].
Proof.
  intros Hl Ht. unfold amdgpu_irq_dispatch. rewrite funcs_decode. set (r := get_ih id a).
  set (iv := ring_iv r (Z.shiftr (rptr r) 2)). set (r1 := r <| rptr := u32 (rptr r + 32) |>).
  destruct (sources_spec (set_ih id r1 a) iv) as (a1 & -> & Hr1 & Hk1 & Ht1); [by apply tables_set_ih|].
  rewrite get_set_ih in Hr1. rewrite kfd_set_ih in Hk1.
  assert (Hkfd : ∃ a2, (if handled iv then Some a1 else amdgpu_amdkfd_interrupt class entry_size a1 iv) = Some a2 ∧
    get_ih id a2 = r1 ∧ tables a2 ∧ kfd_live a2 ∧ fed a a2 [iv]).
  { unfold fed, offered, kfd_live in *. rewrite filter_cons, filter_nil. destruct (handled iv) eqn:Eh.
    - exists a1. rewrite decide_False by done. rewrite Hk1. split_and!; [done..|].
      destruct (kfd a) as [k|]; [|done]. by exists k, [].
    - rewrite decide_True by done. unfold amdgpu_amdkfd_interrupt. rewrite Hk1.
      destruct (kfd a) as [k|] eqn:Ek; [|exists a1; rewrite Hk1; done].
      destruct (kgd2kfd_total class entry_size k iv Hl) as (k' & acc & E & Hwq). rewrite E. simpl.
      eexists. split; [done|]. split_and!; [by destruct id|done|done|].
      exists k', (log_of acc). rewrite E. simpl. by rewrite app_nil_r. }
  destruct Hkfd as (a2 & -> & Hr2 & Ht2 & Hl2 & Hf2). simpl. rewrite Hr2.
  destruct (amdgpu_ih_ts_after _ _).
  - eexists _, _. split; [done|]. rewrite get_set_ih, live_set_ih, tables_set_ih.
    split_and!; [done..|]. by apply fed_set_ih.
  - exists a2, (processed_timestamp r). split_and!; [done| |done..]. rewrite Hr2. unfold r1. by destruct r.
Qed.

(** ** Turns *)

(** The ring holds [W]; the next vector to dispatch is number [k]. *)
Record walk_ok (N : Z) (a : adev) (W : list (list Z)) (k : Z) : Prop := {
  wk_ring : ring_ok RB_OVERFLOW id N (get_ih id a) W;
  wk_rptr : rptr (get_ih id a) = 32 * (k `mod` N);
  wk_range : 0 ≤ k ≤ Z.of_nat (length W);
  wk_room : Z.of_nat (length W) - k < N;
  wk_tables : tables a;
  wk_live : kfd_live a;
}.

Lemma ring_ok_same N r r' W :
  ring_ok RB_OVERFLOW id N r W → ring r' = ring r → ptr_mask r' = ptr_mask r →
  ih_rb_wptr r' = ih_rb_wptr r → wptr_cpu r' = wptr_cpu r → ring_ok RB_OVERFLOW id N r' W.
Proof.
  intros [H1 H2 H3 H4 H5 H6] Hr Hm Hw Hc. split; unfold shadow_ok, hw_pos, hw_overflow in *; rewrite ?Hr, ?Hm, ?Hw, ?Hc; try done.
  intros j Hj0 Hj. rewrite H5 by done. unfold ring_iv, ring_dword. by rewrite Hr.
Qed.

Lemma u32_pointer N r W k : ring_ok RB_OVERFLOW id N r W → u32 (32 * (k `mod` N) + 32) = 32 * (k `mod` N + 1).
Proof.
  intros Hok. pose proof (ring_bounds _ _ _ _ _ Hok). pose proof (Z.mod_pos_bound k N ltac:(lia)).
  rewrite wrap_small; unfold in_width; lia.
Qed.

Lemma pointer_neq N a b : 0 < N → a ≤ b < a + N → (32 * (a `mod` N) =? 32 * (b `mod` N)) = (a =? b).
Proof.
  intros HN Hab. destruct (Z.eqb_spec a b) as [->|Hne]; [by rewrite Z.eqb_refl|].
  apply Z.eqb_neq. intros E. apply Hne. apply (mod_apart N); [done..|lia].
Qed.

(** What a turn leaves of the hardware's fields. *)
Definition same_hw (r r' : amdgpu_ih_ring) : Prop :=
  ih_rb_wptr r' = ih_rb_wptr r ∧ ih_rb_rptr r' = ih_rb_rptr r ∧ doorbells_lost r' = doorbells_lost r.

Lemma dispatch_turn N a W k m c :
  walk_ok N a W k → k < m ≤ Z.of_nat (length W) → pred c ≠ O →
  ∃ a' iv, turn a (HLoop (32 * (m `mod` N)) c) = Some (a', HLoop (32 * (m `mod` N)) (pred c), Some iv) ∧
    W !! Z.to_nat k = Some iv ∧ walk_ok N a' W (k + 1) ∧ fed a a' [iv] ∧ same_hw (get_ih id a) (get_ih id a').
Proof.
  intros [H1 H2 H3 H4 H5 H6] Hkm Hc. pose proof (ring_bounds _ _ _ _ _ H1) as HN.
  cbn [ih_turn]. rewrite H2, (pointer_neq N) by lia. rewrite (proj2 (Z.eqb_neq k m)) by lia.
  rewrite bool_decide_false by done. simpl negb. cbv iota. simpl andb. cbv iota.
  destruct (dispatch_spec a H6 H5) as (a' & t & -> & Hr & Hl & Ht & Hf). simpl.
  rewrite H2, pointer_index in *.
  eexists _, _. split; [done|]. rewrite (rk_held _ _ _ _ _ H1) by lia. rewrite Hr.
  split_and!; [done| |by apply fed_set_ih|by rewrite get_set_ih].
  split; rewrite ?get_set_ih, ?live_set_ih, ?tables_set_ih; try done; [|simpl|lia..].
  - by apply (ring_ok_same _ _ _ _ H1).
  - rewrite (u32_pointer _ _ _ _ H1). rewrite (mask_pointer _ _ _ _ _ _ H1), Z.add_mod_idemp_l by lia. done.
Qed.

(** The end of the loop, on a ring without overflow. *)
Lemma end_turn N a W k m c :
  walk_ok N a W k → k ≤ m ≤ Z.of_nat (length W) → hw_overflow RB_OVERFLOW (get_ih id a) = false →
  k = m ∨ pred c = O →
  ∃ a', turn a (HLoop (32 * (m `mod` N)) c) =
    Some (a', if k =? Z.of_nat (length W) then HIdle
              else HLoop (32 * (Z.of_nat (length W) `mod` N)) AMDGPU_IH_MAX_NUM_IVS, None) ∧
    walk_ok N a' W k ∧ fed a a' [] ∧ ih_rb_wptr (get_ih id a') = ih_rb_wptr (get_ih id a) ∧
    (ih_rb_rptr (get_ih id a') = ih_rb_rptr (get_ih id a) ∨ ih_rb_rptr (get_ih id a') = 32 * (k `mod` N)) ∧
    (doorbells_lost (get_ih id a) = O →
     ih_rb_rptr (get_ih id a') = 32 * (k `mod` N) ∧ doorbells_lost (get_ih id a') = O).
Proof.
  intros [H1 H2 H3 H4 H5 H6] Hkm Hov Hend. pose proof (ring_bounds _ _ _ _ _ H1) as HN.
  cbn [ih_turn]. rewrite H2, (pointer_neq N) by lia.
  assert (Hcond : negb (k =? m) && negb (bool_decide (pred c = 0%nat)) = false).
  { destruct Hend as [->| ->]; [by rewrite Z.eqb_refl|]. rewrite bool_decide_true by done. apply andb_false_r. }
  rewrite Hcond. destruct (funcs_set_rptr id (get_ih id a)) as (cpu & hw & lost & E & Hhw & Hz). rewrite E.
  set (r1 := _ <| doorbells_lost := lost |>).
  assert (Hr1 : ring_ok RB_OVERFLOW id N r1 W) by (by apply (ring_ok_same _ _ _ _ H1)).
  assert (Hov1 : hw_overflow RB_OVERFLOW r1 = false) by done.
  rewrite funcs_get_wptr by (done || apply (rk_shadow _ _ _ _ _ Hr1)).
  rewrite Hov1, (rk_pos _ _ _ _ _ Hr1), (mask_pointer _ _ _ _ _ _ Hr1), Z.mod_mod by lia.
  change (rptr r1) with (rptr (get_ih id a)). rewrite H2. rewrite (Z.eqb_sym (32 * _)), (pointer_neq N) by lia.
  rewrite if_negb. eexists. split; [done|]. rewrite get_set_ih.
  split_and!; [|apply fed_set_ih, fed_nil|done|by rewrite <- H2|by rewrite <- H2; intros; apply Hz].
  split; rewrite ?get_set_ih, ?live_set_ih, ?tables_set_ih; done.
Qed.

(** The start of the handler: after an overflow the reading moves to the oldest
    vector of the last [N - 1]. *)
Definition start_at (N : Z) (r : amdgpu_ih_ring) (W : list (list Z)) (k : Z) : Z :=
  if hw_overflow RB_OVERFLOW r then Z.of_nat (length W) + 1 - N else k.

Lemma start_turn N a W k :
  ring_ok RB_OVERFLOW id N (get_ih id a) W → tables a → kfd_live a →
  enabled (get_ih id a) = true → shutdown a = false →
  (if hw_overflow RB_OVERFLOW (get_ih id a) then N ≤ Z.of_nat (length W)
   else rptr (get_ih id a) = 32 * (k `mod` N) ∧ 0 ≤ k ≤ Z.of_nat (length W) ∧ Z.of_nat (length W) - k < N) →
  ∃ a', turn a HIdle = Some (a', HLoop (32 * (Z.of_nat (length W) `mod` N)) AMDGPU_IH_MAX_NUM_IVS, None) ∧
    walk_ok N a' W (start_at N (get_ih id a) W k) ∧ fed a a' [] ∧
    hw_overflow RB_OVERFLOW (get_ih id a') = false ∧ ih_rb_rptr (get_ih id a') = ih_rb_rptr (get_ih id a) ∧
    doorbells_lost (get_ih id a') = doorbells_lost (get_ih id a).
Proof.
  intros H1 Ht Hl Hen Hsh Hov. pose proof (ring_bounds _ _ _ _ _ H1) as HN. cbn [ih_turn]. rewrite Hen, Hsh. simpl.
  rewrite funcs_get_wptr by (done || apply (rk_shadow _ _ _ _ _ H1)).
  rewrite (rk_pos _ _ _ _ _ H1), (mask_pointer _ _ _ _ _ _ H1), Z.mod_mod by lia.
  eexists. split; [done|]. rewrite get_set_ih. unfold start_at.
  destruct (hw_overflow RB_OVERFLOW (get_ih id a)) eqn:Eo.
  - split_and!; [|apply fed_set_ih, fed_nil|apply pointer_bit; lia|done..].
    split; rewrite ?get_set_ih, ?live_set_ih, ?tables_set_ih; try done; [| |lia..].
    + destruct H1 as [P1 P2 P3 P4 P5 P6]. split; try done.
      * simpl. unfold hw_pos. simpl. by apply pointer_clear.
      * intros E. destruct (P6 E) as [Q1 Q2]. unfold hw_overflow, hw_pos. simpl. rewrite Q1, P4.
        split; [by rewrite pointer_clear|intros _; by apply pointer_bit].
    + simpl. rewrite (u32_pointer _ _ _ _ H1), (mask_pointer _ _ _ _ _ _ H1), Z.add_mod_idemp_l by lia.
      f_equal. replace (Z.of_nat (length W) + 1) with (Z.of_nat (length W) + 1 - N + 1 * N) at 1 by lia.
      by rewrite Z.mod_add by lia.
  - destruct Hov as (? & ? & ?). split_and!; [|apply fed_set_ih, fed_nil|done..].
    split; rewrite ?get_set_ih, ?live_set_ih, ?tables_set_ih; done.
Qed.

(** ** Uninterrupted runs *)

Lemma drop_next {X} (l : list X) k x :
  0 ≤ k → l !! Z.to_nat k = Some x → drop (Z.to_nat k) l = x :: drop (Z.to_nat (k + 1)) l.
Proof. intros Hk Hx. rewrite (drop_S _ _ _ Hx). do 2 f_equal. lia. Qed.

Lemma drain_loop fuel N a W k c :
  walk_ok N a W k → hw_overflow RB_OVERFLOW (get_ih id a) = false →
  2 * (Z.of_nat (length W) - k) + (if decide (pred c = O) then 1 else 0) < Z.of_nat fuel →
  ∃ a', turns fuel id a (HLoop (32 * (Z.of_nat (length W) `mod` N)) c) = Some (a', drop (Z.to_nat k) W) ∧
    walk_ok N a' W (Z.of_nat (length W)) ∧ fed a a' (drop (Z.to_nat k) W) ∧
    hw_overflow RB_OVERFLOW (get_ih id a') = false ∧
    (doorbells_lost (get_ih id a) = O →
     ih_rb_rptr (get_ih id a') = 32 * (Z.of_nat (length W) `mod` N) ∧ doorbells_lost (get_ih id a') = O).
Proof.
  revert a k c. induction fuel as [|fuel IH]; intros a k c Hw Hov Hf.
  { pose proof (wk_range _ _ _ _ Hw). destruct (decide _); lia. }
  pose proof (wk_range _ _ _ _ Hw) as Hk. cbn [ih_turns].
  destruct (decide (k < Z.of_nat (length W) ∧ pred c ≠ O)) as [[Hlt Hc]|Hend].
  - destruct (dispatch_turn N a W k (Z.of_nat (length W)) c) as (a1 & iv & -> & Hiv & Hw1 & Hf1 & Hh1 & Hh2 & Hh3); [done|lia|done|].
    simpl. destruct (IH a1 (k + 1) (pred c) Hw1) as (a' & -> & Hw' & Hf' & Ho' & Hd').
    { unfold hw_overflow in *. by rewrite Hh1. }
    { rewrite decide_False in Hf by done. destruct (decide _); lia. }
    simpl. exists a'. rewrite (drop_next W k iv) by (done || lia). split_and!; [done|done| |done|by rewrite <- Hh3].
    change (iv :: drop (Z.to_nat (k + 1)) W) with ([iv] ++ drop (Z.to_nat (k + 1)) W). by apply (fed_app _ a1).
  - destruct (end_turn N a W k (Z.of_nat (length W)) c) as (a1 & -> & Hw1 & Hf1 & Hh1 & Hh2 & Hh3); [done|lia|done|lia|].
    simpl. destruct (Z.eqb_spec k (Z.of_nat (length W))) as [->|Hne].
    + exists a1. rewrite Nat2Z.id, drop_all. split_and!; try done. unfold hw_overflow in *. by rewrite Hh1.
    + assert (pred c = O) as Hc by lia. rewrite decide_True in Hf by done.
      destruct (IH a1 k AMDGPU_IH_MAX_NUM_IVS Hw1) as (a' & -> & Hw' & Hf' & Ho' & Hd').
      { unfold hw_overflow in *. by rewrite Hh1. }
      { rewrite decide_False by done. lia. }
      simpl. exists a'. split_and!; [done|done|by apply (fed_app _ a1 _ [])|done|].
      intros Hl. apply Hd'. by apply Hh3.
Qed.

(** A run of the handler that no write interrupts. *)
Lemma process_spec fuel N a W k :
  ring_ok RB_OVERFLOW id N (get_ih id a) W → tables a → kfd_live a →
  enabled (get_ih id a) = true → shutdown a = false →
  (if hw_overflow RB_OVERFLOW (get_ih id a) then N ≤ Z.of_nat (length W)
   else rptr (get_ih id a) = 32 * (k `mod` N) ∧ 0 ≤ k ≤ Z.of_nat (length W) ∧ Z.of_nat (length W) - k < N) →
  2 * N < Z.of_nat fuel →
  let todo := drop (Z.to_nat (start_at N (get_ih id a) W k)) W in
  ∃ a', amdgpu_ih_process funcs virq_irq F class entry_size CLIENTID_MAX fuel id a = Some (a', todo, IRQ_HANDLED) ∧
    walk_ok N a' W (Z.of_nat (length W)) ∧ fed a a' todo ∧ hw_overflow RB_OVERFLOW (get_ih id a') = false ∧
    (doorbells_lost (get_ih id a) = O → ih_rb_rptr (get_ih id a') = 32 * (Z.of_nat (length W) `mod` N)).
Proof.
  intros Hok Ht Hl Hen Hsh Hst Hf. cbv zeta. unfold amdgpu_ih_process. rewrite Hen, Hsh. simpl.
  destruct fuel as [|fuel]; [pose proof (ring_bounds _ _ _ _ _ Hok); lia|]. cbn [ih_turns].
  destruct (start_turn N a W k Hok Ht Hl Hen Hsh Hst) as (a1 & -> & Hw1 & Hf1 & Ho1 & Hh1 & Hl1). simpl.
  pose proof (wk_room _ _ _ _ Hw1). 
  destruct (drain_loop fuel N a1 W (start_at N (get_ih id a) W k) AMDGPU_IH_MAX_NUM_IVS Hw1 Ho1)
    as (a' & -> & Hw' & Hf' & Ho' & Hd').
  { rewrite decide_False by done. lia. }
  simpl. exists a'. split_and!; [done|done|by apply (fed_app _ a1 _ [])|done|].
  rewrite <- Hl1. intros E. by apply Hd'.
Qed.

(** ** Histories *)

Abbreviation run := (ih_run funcs virq_irq F class entry_size CLIENTID_MAX RB_OVERFLOW id).

(** Between steps: [W] was written and the first [k] vectors were dispatched. *)
Definition run_ok (N : Z) (a : adev) (h : handler) (W : list (list Z)) (k : Z) : Prop :=
  walk_ok N a W k ∧ hw_overflow RB_OVERFLOW (get_ih id a) = false ∧
  (∃ kh, 0 ≤ kh ≤ k ∧ Z.of_nat (length W) - kh < N ∧ ih_rb_rptr (get_ih id a) = 32 * (kh `mod` N)) ∧
  match h with
  | HIdle => True
  | HLoop w c => ∃ m, k ≤ m ≤ Z.of_nat (length W) ∧ w = 32 * (m `mod` N)
  end.

Lemma write_step N a h W k iv a' h' w d o :
  run_ok N a h W k → length iv = 8%nat →
  ih_step funcs virq_irq F class entry_size CLIENTID_MAX RB_OVERFLOW id a h (Write iv) = Some (a', h', w, d, o) →
  w = [iv] ∧ d = [] ∧ (o = false → run_ok N a' h' (W ++ [iv]) k).
Proof.
  intros (Hw & Hov & (kh & Hkh & Hroom & Hhw) & Hh) Hiv E. injection E as <- <- <- <- <-.
  split_and!; [done..|]. intros Ho. pose proof Hw as [H1 H2 H3 H4 H5 H6]. pose proof (ring_bounds _ _ _ _ _ H1) as HN.
  apply orb_false_iff in Ho as [_ Ho].
  assert (Hlen : Z.of_nat (length (W ++ [iv])) = Z.of_nat (length W) + 1) by (rewrite length_app; simpl; lia).
  assert (Hnext : Z.land (hw_pos RB_OVERFLOW (get_ih id a) + 32) (ptr_mask (get_ih id a))
                  = 32 * ((Z.of_nat (length W) + 1) `mod` N)).
  { rewrite (rk_pos _ _ _ _ _ H1). replace (32 * _ + 32) with (32 * (Z.of_nat (length W) `mod` N + 1)) by lia.
    rewrite (mask_pointer _ _ _ _ _ _ H1), Z.add_mod_idemp_l by lia. done. }
  rewrite Hnext, Hhw in Ho. apply Z.eqb_neq in Ho.
  assert (Hne : Z.of_nat (length W) + 1 - kh ≠ N).
  { intros E. apply Ho. f_equal. replace (Z.of_nat (length W) + 1) with (kh + 1 * N) by lia. by rewrite Z.mod_add by lia. }
  set (r := get_ih id a) in *. assert (Hfields : rptr (ih_hw_write RB_OVERFLOW id iv r) = rptr r ∧
    ih_rb_rptr (ih_hw_write RB_OVERFLOW id iv r) = ih_rb_rptr r).
  { unfold ih_hw_write. by destruct (decide _). }
  destruct Hfields as [Hf1 Hf2].
  assert (Hreg : hw_overflow RB_OVERFLOW (ih_hw_write RB_OVERFLOW id iv r) = false).
  { unfold hw_overflow, ih_hw_write. rewrite Hov, Hnext, Hhw, (proj2 (Z.eqb_neq _ _) Ho). simpl.
    destruct (decide _); by apply pointer_bit. }
  unfold run_ok. rewrite get_set_ih, Hlen. split_and!; [|done| |].
  - split; rewrite ?get_set_ih, ?tables_set_ih, ?live_set_ih, ?Hlen; try done; [by apply hw_write_ok|by rewrite Hf1|lia..].
  - exists kh. rewrite Hf2. split_and!; [lia..|done].
  - destruct h as [|w c]; [done|]. destruct Hh as (m & ? & ?). exists m. split; [lia|done].
Qed.
Lemma turn_step N a h W k a' h' w d o :
  run_ok N a h W k →
  ih_step funcs virq_irq F class entry_size CLIENTID_MAX RB_OVERFLOW id a h Turn = Some (a', h', w, d, o) →
  w = [] ∧ o = false ∧ d = take (length d) (drop (Z.to_nat k) W) ∧ fed a a' d ∧
  run_ok N a' h' W (k + Z.of_nat (length d)).
Proof.
  intros Hrun. pose proof Hrun as (Hw & Hov & (kh & Hkh & Hroom & Hhw) & Hh). pose proof (wk_range _ _ _ _ Hw) as Hk.
  unfold ih_step. destruct h as [|w0 c].
  - destruct (negb (enabled (get_ih id a)) || shutdown a) eqn:Eon.
    { cbn [ih_turn]. rewrite Eon. simpl. intros [= <- <- <- <- <-]. simpl. rewrite Z.add_0_r. split_and!; [done..|apply fed_nil|done]. }
    apply orb_false_iff in Eon as [Hen%negb_false_iff Hsh].
    destruct (start_turn N a W k (wk_ring _ _ _ _ Hw) (wk_tables _ _ _ _ Hw) (wk_live _ _ _ _ Hw) Hen Hsh) as (a1 & -> & Hw1 & Hf1 & Ho1 & Hh1 & Hl1).
    { rewrite Hov. split; [apply (wk_rptr _ _ _ _ Hw)|]. split; [lia|apply (wk_room _ _ _ _ Hw)]. }
    simpl. intros [= <- <- <- <- <-]. unfold start_at in Hw1. rewrite Hov in Hw1. simpl. rewrite Z.add_0_r.
    split_and!; [done..|split_and!]; [done|done|by exists kh; rewrite Hh1|].
    exists (Z.of_nat (length W)). split; [lia|done].
  - destruct Hh as (m & Hm & ->). destruct (decide (k < m ∧ pred c ≠ O)) as [[Hlt Hc]|Hend].
    + destruct (dispatch_turn N a W k m c Hw) as (a1 & iv & -> & Hiv & Hw1 & Hf1 & Hh1 & Hh2 & Hh3); [lia|done|].
      simpl. intros [= <- <- <- <- <-]. rewrite (drop_next W k iv) by (done || lia). simpl.
      change (Z.of_nat 1) with 1. split_and!; [done..|split_and!]; [done| | |exists m; split; [lia|done]].
      * unfold hw_overflow in *. by rewrite Hh1.
      * exists kh. rewrite Hh2. split_and!; [lia..|done].
    + destruct (end_turn N a W k m c Hw) as (a1 & -> & Hw1 & Hf1 & Hh1 & Hh2 & Hh3); [lia|done|lia|].
      simpl. intros [= <- <- <- <- <-]. simpl. rewrite Z.add_0_r. split_and!; [done..|split_and!]; [done| | |].
      * unfold hw_overflow in *. by rewrite Hh1.
      * destruct Hh2 as [Hh2|Hh2]; [by exists kh; rewrite Hh2|]. exists k. pose proof (wk_room _ _ _ _ Hw). split_and!; [lia..|done].
      * destruct (_ =? _); [done|]. exists (Z.of_nat (length W)). split; [lia|done].
Qed.

Lemma turn_total a h :
  kfd_live a → tables a → ∃ a' h' iv, turn a h = Some (a', h', iv) ∧ kfd_live a' ∧ tables a'.
Proof.
  intros Hl Ht. destruct h as [|w c]; cbn [ih_turn].
  - destruct (_ || _); [by eexists _, _, _|]. destruct (get_wptr F id (get_ih id a)) as [w r].
    eexists _, _, _. by rewrite live_set_ih, tables_set_ih.
  - destruct (_ && _).
    + destruct (dispatch_spec a Hl Ht) as (a' & t & -> & _ & Hl' & Ht' & _). simpl.
      eexists _, _, _. by rewrite live_set_ih, tables_set_ih.
    + destruct (get_wptr F id _) as [w' r]. eexists _, _, _. by rewrite live_set_ih, tables_set_ih.
Qed.

Definition label_wf (l : ih_label) : Prop :=
  match l with Write iv => length iv = 8%nat | Turn => True end.

Lemma run_total labels a h :
  kfd_live a → tables a → ∃ res, run a h labels = Some res.
Proof.
  revert a h. induction labels as [|x labels IH]; intros a h Hl Ht; cbn [ih_run]; [by eexists|].
  assert (Hstep : ∃ a' h' w d o, ih_step funcs virq_irq F class entry_size CLIENTID_MAX RB_OVERFLOW id a h x
    = Some (a', h', w, d, o) ∧ kfd_live a' ∧ tables a').
  { destruct x as [iv|]; cbn [ih_step].
    - eexists _, _, _, _, _. by rewrite live_set_ih, tables_set_ih.
    - destruct (turn_total a h Hl Ht) as (a' & h' & iv & -> & ? & ?). by eexists _, _, _, _, _. }
  destruct Hstep as (a' & h' & w & d & o & -> & Hl' & Ht'). simpl.
  destruct (IH a' h' Hl' Ht') as [[[[[a2 h2] ws] ds] os] ->]. by eexists.
Qed.

Lemma run_spec N labels a h W k a' h' ws ds :
  run_ok N a h W k → Forall label_wf labels →
  run a h labels = Some (a', h', ws, ds, false) →
  run_ok N a' h' (W ++ ws) (k + Z.of_nat (length ds)) ∧ fed a a' ds ∧
  ds = take (length ds) (drop (Z.to_nat k) (W ++ ws)).
Proof.
  revert a h W k ws ds. induction labels as [|x labels IH]; intros a h W k ws ds Hok Hwf; cbn [ih_run].
  { intros [= <- <- <- <-]. rewrite app_nil_r. simpl. rewrite Z.add_0_r. split_and!; [done|apply fed_nil|done]. }
  apply Forall_cons in Hwf as [Hx Hwf].
  destruct (ih_step _ _ _ _ _ _ _ _ _ _ _) as [[[[[a1 h1] w] d] o]|] eqn:Es; [|done]. simpl.
  destruct (run a1 h1 labels) as [[[[[a2 h2] ws2] ds2] os]|] eqn:Er; [|done]. simpl.
  intros [= <- <- <- <- Ho]. apply orb_false_iff in Ho as [-> ->].
  pose proof (wk_range _ _ _ _ (proj1 Hok)) as Hk.
  destruct x as [iv|].
  - destruct (write_step _ _ _ _ _ _ _ _ _ _ _ Hok Hx Es) as (-> & -> & Hok1).
    assert (fed a a1 []) as Hf1. { injection Es as <- _ _. apply fed_set_ih, fed_nil. }
    destruct (IH _ _ _ _ _ _ (Hok1 eq_refl) Hwf Er) as (Hok2 & Hf2 & Hd).
    rewrite <- app_assoc in Hok2, Hd. simpl in *. split_and!; [done|by apply (fed_app _ a1 _ [])|done].
  - destruct (turn_step _ _ _ _ _ _ _ _ _ _ Hok Es) as (-> & _ & Hd1 & Hf1 & Hok1).
    destruct (IH _ _ _ _ _ _ Hok1 Hwf Er) as (Hok2 & Hf2 & Hd2).
    simpl. rewrite length_app. split_and!.
    + by replace (k + Z.of_nat (length d + length ds2)) with (k + Z.of_nat (length d) + Z.of_nat (length ds2)) by lia.
    + by apply (fed_app _ a1).
    + assert (Hlen : (length d ≤ length W - Z.to_nat k)%nat).
      { rewrite <- length_drop. rewrite Hd1 at 1. rewrite length_take. lia. }
      assert (Hd1' : d = take (length d) (drop (Z.to_nat k) (W ++ ws2))).
      { rewrite drop_app_le, take_app_le by (rewrite ?length_drop; lia). done. }
      rewrite <- take_take_drop, <- Hd1', drop_drop. f_equal. rewrite Hd2 at 1. do 2 f_equal. lia.
Qed.
End Handler.
