(* ===== verification/IhSystem.v ===== *)
(** * Interrupt rings: properties

    The ring of a Vega device from its initialisation on, with any sources of
    interrupts of the class [Sources]: what the hardware writes and the handler
    dispatches, and what reaches the compute driver. *)

From S2P Require Import Prelude Interrupt IhRing Irq IhProof.
#[local] Open Scope Z_scope.
#[local] Open Scope list_scope.

Section System.
Context {S K : Type} (funcs : nat → option (irq_src_funcs S K)) (virq_irq : Z → S → S).
Context (class : kfd_event_interrupt_class K) (entry_size CLIENTID_MAX : Z).
Context (RB_OVERFLOW : Z) (vf psp_ok : bool).
Context (id : ring_id) (tbl : gmap Z (gmap Z nat)) (vq : gset Z) (handled : list Z → bool).
Abbreviation adev := (amdgpu_device S K).
Abbreviation F := (vega10_ih_funcs RB_OVERFLOW vf).
Abbreviation SourcesOk := (Sources funcs virq_irq CLIENTID_MAX id tbl vq handled).

(** ** Initialisation *)

Lemma each_ring_spec f l (a : adev) :
  NoDup l → (∀ r, (f r).2 = 0) →
  ∃ a', each_ring f l a = (a', 0) ∧
    (∀ i, get_ih i a' = if decide (i ∈ l ∧ ring_size (get_ih i a) ≠ 0) then (f (get_ih i a)).1 else get_ih i a) ∧
    kfd a' = kfd a ∧ client a' = client a ∧ virq a' = virq a ∧ shutdown a' = shutdown a.
Proof.
  intros Hnd Hf. revert a. induction Hnd as [|i l Hi Hnd IH]; intros a; cbn [each_ring].
  { by exists a. }
  destruct (nz (ring_size (get_ih i a))) eqn:En.
  - apply nz_true in En. destruct (f (get_ih i a)) as [r ret] eqn:Ef. pose proof (Hf (get_ih i a)) as Hret.
    rewrite Ef in Hret. simpl in Hret. subst ret. simpl.
    destruct (IH (set_ih i r a)) as (a' & -> & Hget & ? & ? & ? & ?). exists a'.
    split_and!; [done| |by destruct i..]. intros j. rewrite Hget. destruct (decide (j = i)) as [->|Hne].
    + rewrite decide_False by (by intros [? _]). rewrite decide_True by (split; [by left|done]). rewrite Ef. by destruct i.
    + assert (Hj : get_ih j (set_ih i r a) = get_ih j a) by (by destruct i, j). rewrite Hj.
      destruct (decide (j ∈ l ∧ _)) as [[??]|Hn]; [rewrite decide_True by (split; [by right|done]); done|].
      rewrite decide_False; [done|]. intros [Hin ?]. apply elem_of_cons in Hin as [|]; [done|by apply Hn].
  - apply nz_false in En. destruct (IH a) as (a' & -> & Hget & ? & ? & ? & ?). exists a'. split_and!; try done.
    intros j. rewrite Hget. destruct (decide (j ∈ l ∧ _)) as [[??]|Hn]; [rewrite decide_True by (split; [by right|done]); done|].
    rewrite decide_False; [done|]. intros [Hin ?]. apply elem_of_cons in Hin as [->|]; [done|by apply Hn].
Qed.

(** The ring of [vega10_ih_irq_init]. *)
Definition restarted (r : amdgpu_ih_ring) : amdgpu_ih_ring :=
  r <| ih_rb_rptr := 0 |> <| ih_rb_wptr := 0 |> <| rptr := 0 |> <| enabled := true |>.

Lemma irq_init_ring (a a1 : adev) :
  id ≠ IH_SOFT → ring_size (get_ih id a) ≠ 0 → vega10_ih_irq_init vf psp_ok a = (a1, 0) →
  get_ih id a1 = restarted (get_ih id a) ∧ kfd a1 = kfd a ∧ client a1 = client a ∧ virq a1 = virq a ∧
  shutdown a1 = shutdown a.
Proof.
  intros Hid Hsize. unfold vega10_ih_irq_init, vega10_ih_toggle_interrupts.
  destruct (vf && negb psp_ok) eqn:Eps.
  { (* the first ring that exists fails *)
    assert (Hfail : ∀ l (b : adev), id ∈ l → ring_size (get_ih id b) ≠ 0 →
      (each_ring (vega10_ih_toggle_ring_interrupts vf psp_ok false) l b).2 ≠ 0).
    { induction l as [|i l IH]; intros b Hin Hb; [by apply elem_of_nil in Hin|]. cbn [each_ring].
      destruct (nz (ring_size (get_ih i b))) eqn:En.
      - unfold vega10_ih_toggle_ring_interrupts at 1. rewrite Eps. done.
      - apply IH; [|done]. apply elem_of_cons in Hin as [->|]; [apply nz_false in En; done|done]. }
    specialize (Hfail [IH; IH1; IH2] a). destruct (each_ring _ _ a) as [b ret]. simpl in Hfail.
    intros E. assert (ret ≠ 0) as Hret by (apply Hfail; [destruct id; set_solver|done]).
    rewrite (proj2 (nz_true ret) Hret) in E. by injection E as _ ->. }
  assert (Hnd : NoDup [IH; IH1; IH2]) by (repeat constructor; set_solver).
  assert (Hin : id ∈ [IH; IH1; IH2]) by (destruct id; set_solver).
  destruct (each_ring_spec (vega10_ih_toggle_ring_interrupts vf psp_ok false) _ a Hnd) as (b & -> & Hb & B1 & B2 & B3 & B4).
  { intros r. unfold vega10_ih_toggle_ring_interrupts. by rewrite Eps. }
  change (nz 0) with false. cbv iota. destruct (each_ring_spec (vega10_ih_enable_ring vf psp_ok) _ b Hnd) as (c & -> & Hc & C1 & C2 & C3 & C4).
  { intros r. unfold vega10_ih_enable_ring. by rewrite Eps. }
  change (nz 0) with false. cbv iota. destruct (each_ring_spec (vega10_ih_toggle_ring_interrupts vf psp_ok true) _ c Hnd) as (d & -> & Hd & D1 & D2 & D3 & D4).
  { intros r. unfold vega10_ih_toggle_ring_interrupts. by rewrite Eps. }
  change (nz 0) with false. cbv iota. intros [= <-].
  assert (Hget : get_ih id d = restarted (get_ih id a)).
  { unfold vega10_ih_toggle_ring_interrupts, vega10_ih_enable_ring in *. rewrite Eps in *.
    specialize (Hb id). specialize (Hc id). specialize (Hd id).
    destruct (get_ih id a). rewrite decide_True in Hb by done. simpl in Hb. rewrite Hb in Hc.
    rewrite decide_True in Hc by done. simpl in Hc. rewrite Hc in Hd. rewrite decide_True in Hd by done.
    simpl in Hd. exact Hd. }
  destruct (nz _); [|by rewrite D1, D2, D3, D4, C1, C2, C3, C4].
  simpl. rewrite D1, D2, D3, D4, C1, C2, C3, C4. split_and!; try done. by destruct id.
Qed.

(** A device with a new ring of [size] bytes, after [vega10_ih_irq_init]. *)
Record started (size : Z) (a1 : adev) : Prop := {
  st_id : id ≠ IH_SOFT;
  st_bit : 0 ≤ RB_OVERFLOW < 5;
  st_size : 64 ≤ size ≤ 2 ^ 31;
  st_init : ∃ dma wb w r0 a0,
    ring r0 = None ∧ get_ih id a0 = (amdgpu_ih_ring_init (Some dma) None wb w r0 size true).1.2 ∧
    tables tbl vq a0 ∧ kfd_live a0 ∧ vega10_ih_irq_init vf psp_ok a0 = (a1, 0) ∧ shutdown a0 = false;
}.

(** The number of vectors the ring has room for. *)
Definition slots (size : Z) : Z := 2 ^ (Z.log2_up (size / 4) - 3).

Lemma started_ok size a1 :
  started size a1 →
  run_ok RB_OVERFLOW id tbl vq (slots size) a1 HIdle [] 0 ∧
  enabled (get_ih id a1) = true ∧ shutdown a1 = false ∧ ih_rb_rptr (get_ih id a1) = 0.
Proof.
  intros [Hid Hbit Hsize (dma & wb & w & r0 & a0 & Hnone & Hr & [Ht1 Ht2] & Hl & Hinit & Hsh)].
  assert (Hq : 16 ≤ size / 4 ≤ 2 ^ 29).
  { split; [apply Z.div_le_lower_bound; lia|apply Z.div_le_upper_bound; lia]. }
  pose proof (Z.log2_up_le_mono (2 ^ 4) (size / 4) ltac:(lia)) as Hlow.
  pose proof (Z.log2_up_le_mono (size / 4) (2 ^ 29) ltac:(lia)) as Hhigh.
  rewrite Z.log2_up_pow2 in Hlow, Hhigh by lia.
  assert (Hbytes : Z.shiftl 1 (order_base_2 (size / 4)) * 4 = 32 * slots size).
  { unfold order_base_2, slots. rewrite (proj2 (Z.leb_gt _ _)) by lia. rewrite Z.shiftl_mul_pow2, Z.mul_1_l by lia.
    replace (Z.log2_up (size / 4)) with (3 + (Z.log2_up (size / 4) - 3)) at 1 by lia. rewrite Z.pow_add_r by lia. lia. }
  assert (HN : 2 ≤ slots size) by (unfold slots; change 2 with (2 ^ 1) at 1; apply Z.pow_le_mono_r; lia).
  unfold amdgpu_ih_ring_init in Hr. cbv zeta in Hr. rewrite Hbytes in Hr. simpl in Hr. rewrite Hnone in Hr. simpl in Hr.
  destruct (irq_init_ring a0 a1 Hid) as (Hr1 & Hk & Hc & Hv & Hs1); [rewrite Hr; simpl; lia|done|].
  rewrite Hr in Hr1. rewrite Hr1, Hs1. split_and!; [|done..].
  assert (Hzero : clear_bit RB_OVERFLOW 0 = 0) by (apply clear_bit_id; unfold test_bit; by rewrite Z.testbit_0_l).
  unfold run_ok. rewrite Hr1. split_and!; [|unfold hw_overflow, test_bit; simpl; by rewrite Z.testbit_0_l| |done].
  - split; rewrite ?Hr1; try (simpl; lia).
    + split.
      * exists (Z.log2_up (size / 4) - 3). split; [lia|done].
      * done.
      * simpl. eexists. split; [done|]. rewrite length_replicate, Z.mul_comm. change 32 with (8 * 4).
        replace (slots size * (8 * 4)) with (8 * slots size * 4) by lia. rewrite Z.div_mul by done. lia.
      * simpl. unfold hw_pos. simpl. rewrite Z.mod_0_l by lia. done.
      * simpl. lia.
      * intros _. split; [reflexivity|]. intros _. apply Z.testbit_0_l.
    + simpl. rewrite Z.mod_0_l by lia. done.
    + split; congruence.
    + unfold kfd_live in *. by rewrite Hk.
  - exists 0. simpl. rewrite Z.mod_0_l by lia. lia.
Qed.
(** ** Writes the handler does not interrupt *)

Definition writes (a : adev) (ws : list (list Z)) : adev :=
  foldl (λ a iv, set_ih id (ih_hw_write RB_OVERFLOW id iv (get_ih id a)) a) a ws.

Lemma writes_spec size a ws :
  started size a → Forall (λ iv, length iv = 8%nat) ws →
  let a1 := writes a ws in
  ring_ok RB_OVERFLOW id (slots size) (get_ih id a1) ws ∧
  hw_overflow RB_OVERFLOW (get_ih id a1) = (slots size <=? Z.of_nat (length ws)) ∧
  ih_rb_rptr (get_ih id a1) = 0 ∧ rptr (get_ih id a1) = 0 ∧ enabled (get_ih id a1) = true ∧
  shutdown a1 = false ∧ tables tbl vq a1 ∧ kfd_live a1 ∧ kfd a1 = kfd a.
Proof.
  intros Hst. destruct (started_ok _ _ Hst) as ((Hw & Hov & _ & _) & Hen & Hsh & Hhw).
  pose proof (st_bit _ _ Hst) as Hbit. pose proof (ring_bounds _ _ _ _ _ (wk_ring _ _ _ _ _ _ _ _ Hw)) as HN.
  induction ws as [|iv ws IH] using rev_ind; intros Hwf; cbv zeta.
  - destruct Hw as [H1 H2 _ _ H5 H6]. rewrite Z.mod_0_l in H2 by lia. split_and!; try done.
    simpl. rewrite Hov. symmetry. apply Z.leb_gt. lia.
  - apply Forall_app in Hwf as [Hwf Hiv]. rewrite Forall_singleton in Hiv.
    specialize (IH Hwf). cbv zeta in IH. unfold writes in *. rewrite foldl_app. cbn [foldl].
    set (a1 := foldl _ a ws) in *. destruct IH as (I1 & I2 & I3 & I4 & I5 & I6 & I7 & I8 & I9).
    rewrite get_set_ih, live_set_ih, kfd_set_ih by apply (st_id _ _ Hst). set (r := get_ih id a1) in *.
    split_and!; [by apply hw_write_ok| | | | | |by apply tables_set_ih|done..].
    2-4: unfold ih_hw_write; by destruct (decide _).
    2: by destruct id.
    assert (Hnext : Z.land (hw_pos RB_OVERFLOW r + 32) (ptr_mask r) = 32 * ((Z.of_nat (length ws) + 1) `mod` slots size)).
    { rewrite (rk_pos _ _ _ _ _ I1). replace (32 * _ + 32) with (32 * (Z.of_nat (length ws) `mod` slots size + 1)) by lia.
      rewrite (mask_pointer _ _ _ _ _ _ I1), Z.add_mod_idemp_l by lia. done. }
    assert (Hreg : hw_overflow RB_OVERFLOW (ih_hw_write RB_OVERFLOW id iv r) =
      hw_overflow RB_OVERFLOW r || (32 * ((Z.of_nat (length ws) + 1) `mod` slots size) =? 0)).
    { unfold hw_overflow at 1, ih_hw_write. rewrite Hnext, I3. destruct (_ || _); destruct (decide _); simpl;
      solve [by apply pointer_bit|unfold test_bit; rewrite set_bit_spec by lia; by rewrite Z.eqb_refl]. }
    rewrite Hreg, I2, length_app. cbn [length]. rewrite Nat2Z.inj_add. change (Z.of_nat 1) with 1.
    destruct (Z.leb_spec (slots size) (Z.of_nat (length ws))); simpl; [symmetry; apply Z.leb_le; lia|].
    destruct (decide (Z.of_nat (length ws) + 1 = slots size)) as [->|Hne].
    + rewrite Z.mod_same by lia. by rewrite Z.leb_refl.
    + rewrite Z.mod_small by lia. rewrite (proj2 (Z.leb_gt _ _)) by lia. apply Z.eqb_neq. lia.
Qed.

(** ** Properties *)

(** C16. The interrupt ring is a queue.  From its initialisation on, whatever the
    interleaving of the hardware's writes with the turns of the handler, the
    handler never gets stuck, and as long as no write finds the ring full the
    vectors dispatched are the first of those written, in order and each once, with
    fewer than the capacity outstanding; the compute driver has then been given, in
    this order, exactly those that no source took. *)
Theorem ih_ring_fifo size a labels :
  SourcesOk → started size a → Forall label_wf labels →
  ∃ a' h ws ds overflow,
    ih_run funcs virq_irq F class entry_size CLIENTID_MAX RB_OVERFLOW id a HIdle labels
      = Some (a', h, ws, ds, overflow) ∧
    (overflow = false →
     ds = take (length ds) ws ∧ Z.of_nat (length ws) < Z.of_nat (length ds) + slots size ∧
     fed class entry_size handled a a' ds).
Proof.
  intros Hsrc Hst Hwf. destruct (started_ok _ _ Hst) as (Hok & _). pose proof (st_bit _ _ Hst) as Hbit.
  destruct Hst as [Hid _ _ _].
  destruct (run_total funcs virq_irq F class entry_size CLIENTID_MAX RB_OVERFLOW id Hid tbl vq handled labels a HIdle)
    as [[[[[a' h] ws] ds] o] E]; [apply (wk_live _ _ _ _ _ _ _ _ (proj1 Hok))|apply (wk_tables _ _ _ _ _ _ _ _ (proj1 Hok))|].
  exists a', h, ws, ds, o. split; [done|]. intros ->.
  destruct (run_spec funcs virq_irq F class entry_size CLIENTID_MAX RB_OVERFLOW Hbit id Hid tbl vq handled
    _ _ _ _ _ _ _ _ _ _ Hok Hwf E) as ((Hw & _) & Hf & Hd).
  simpl in *. split_and!; [done| |done]. pose proof (wk_room _ _ _ _ _ _ _ _ Hw). lia.
Qed.

(** C37. After an overflow the newest vectors are handled.  When the hardware has
    written any number of vectors to a new ring, one call of the handler ends,
    within a number of turns bounded by the capacity [N], has dispatched the last
    [N - 1] of them in order (all of them when there are fewer), has given the
    compute driver those no source took, and leaves the ring empty and the overflow
    cleared. *)
Theorem ih_overflow_keeps_last size a ws fuel :
  SourcesOk → started size a → Forall (λ iv, length iv = 8%nat) ws → 2 * slots size < Z.of_nat fuel →
  let a1 := writes a ws in
  let todo := drop (length ws - Z.to_nat (slots size - 1)) ws in
  ∃ a2, amdgpu_ih_process funcs virq_irq F class entry_size CLIENTID_MAX fuel id a1
      = Some (a2, todo, IRQ_HANDLED) ∧
    fed class entry_size handled a a2 todo ∧
    rptr (get_ih id a2) = hw_pos RB_OVERFLOW (get_ih id a2) ∧ hw_overflow RB_OVERFLOW (get_ih id a2) = false.
Proof.
  intros Hsrc Hst Hwf Hf. cbv zeta. destruct (writes_spec _ _ _ Hst Hwf) as (W1 & W2 & W3 & W4 & W5 & W6 & W7 & W8 & W9).
  pose proof (st_bit _ _ Hst) as Hbit. pose proof (ring_bounds _ _ _ _ _ W1) as HN.
  destruct (process_spec funcs virq_irq F class entry_size CLIENTID_MAX RB_OVERFLOW Hbit id (st_id _ _ Hst) tbl vq handled
    fuel (slots size) (writes a ws) ws 0 W1 W7 W8 W5 W6) as (a2 & E & Hw & Hfed & Ho & _); [|done|].
  { rewrite W2. destruct (Z.leb_spec (slots size) (Z.of_nat (length ws))); [done|]. rewrite W4, Z.mod_0_l by lia. lia. }
  assert (Htodo : Z.to_nat (start_at RB_OVERFLOW (slots size) (get_ih id (writes a ws)) ws 0)
    = (length ws - Z.to_nat (slots size - 1))%nat).
  { unfold start_at. rewrite W2. destruct (Z.leb_spec (slots size) (Z.of_nat (length ws))); lia. }
  cbv zeta in E, Hfed. rewrite Htodo in E, Hfed.
  exists a2. split_and!; [done| | |done].
  - unfold fed in *. by rewrite W9 in Hfed.
  - by rewrite (wk_rptr _ _ _ _ _ _ _ _ Hw), (rk_pos _ _ _ _ _ (wk_ring _ _ _ _ _ _ _ _ Hw)).
Qed.
End System.

(** ** A device *)

(** One source, of vectors 7 of client 5, which counts them; the compute driver
    wants all others. *)
Module Demo.
Definition counting : irq_src_funcs nat unit :=
  mk_src_funcs None (λ a _ _ _, (a <| rest ::= Datatypes.S |>, 1)).
Definition funcs (source : nat) : option (irq_src_funcs nat unit) :=
  match source with O => Some counting | _ => None end.
Definition wanted : kfd_event_interrupt_class unit :=
  mk_class unit (λ _ _ _ patched, (true, patched)) (λ _ _ s, Some s).
Definition tbl : gmap Z (gmap Z nat) := {[5 := {[7 := 0%nat]}]}.
Definition handled (iv : list Z) : bool := (client_id (decode_iv iv) =? 5) && (src_id (decode_iv iv) =? 7).
Definition no_ring : amdgpu_ih_ring := mk_ih 0 0 false true None 0 0 0 0 0 false 0 0 0 0 O.
Definition board : amdgpu_device nat unit :=
  mk_adev (amdgpu_ih_ring_init (Some 4096) None (λ _, 0) (mk_wb 0 256 0) no_ring 128 true).1.2 no_ring no_ring
    no_ring false false false true false tbl {[0%nat := mk_src 1 (Some [0])]} ∅ (Some (kfd_started 8 1 tt)) 0%nat.
Definition running : amdgpu_device nat unit := (vega10_ih_irq_init false true board).1.
Definition vec (client src data : Z) : list Z := [client + 256 * src; 0; 0; 0; data; 0; 0; 0].
Abbreviation run := (ih_run funcs (λ _ s, s) (vega10_ih_funcs 0 false) wanted 8 32 0 IH running HIdle).

Lemma sources : Sources funcs (λ _ s, s) 32 IH tbl ∅ handled.
Proof.
  intros a iv [Ht Hv]. unfold dispatch_source, handled.
  pose proof (Z.land_ones (default 0 (iv !! 0%nat)) 8 ltac:(lia)) as Hc.
  set (e := decode_iv iv).
  destruct (Z.leb_spec 32 (client_id e)) as [Hle|Hlt].
  { rewrite (proj2 (Z.eqb_neq (client_id e) 5)) by lia. by exists a. }
  destruct (Z.leb_spec AMDGPU_MAX_IRQ_SRC_ID (src_id e)) as [Hle|Hlt'].
  { unfold AMDGPU_MAX_IRQ_SRC_ID in Hle. rewrite (proj2 (Z.eqb_neq (src_id e) 7)), andb_false_r by lia. by exists a. }
  rewrite Hv, bool_decide_false, andb_false_r by set_solver. rewrite Ht. unfold tbl.
  destruct (Z.eqb_spec (client_id e) 5) as [->|Hne].
  - rewrite lookup_singleton_eq. destruct (Z.eqb_spec (src_id e) 7) as [->|Hne].
    + rewrite lookup_singleton_eq. simpl. by eexists.
    + rewrite lookup_singleton_ne by done. simpl. by exists a.
  - rewrite lookup_singleton_ne by done. by exists a.
Qed.

Lemma ready : started 0 false true IH tbl ∅ 128 running.
Proof.
  split; [done|lia|lia|].
  exists 4096, (λ _, 0), (mk_wb 0 256 0), no_ring, board.
  split; [reflexivity|]. split; [reflexivity|]. split; [split; reflexivity|]. split; [reflexivity|].
  split; [|reflexivity]. vm_compute. reflexivity.
Qed.
End Demo.

(** Three vectors, the handler between them. *)
Definition demo_labels : list ih_label :=
  [Write (Demo.vec 5 7 1); Turn; Write (Demo.vec 9 1 2); Turn; Turn; Turn; Write (Demo.vec 5 7 3); Turn].

Definition counts {A B C} (x : option (A * B * list C * bool)) : option (bool * nat) :=
  match x with Some (_, ds, o) => Some (o, length ds) | None => None end.

Lemma counts_of {A B C} (x : option (A * B * list C * bool)) y z ds o o' n :
  x = Some (y, z, ds, o) → counts x = Some (o', n) → o = o' ∧ length ds = n.
Proof. intros ->. simpl. by intros [= -> ->]. Qed.

Lemma ih_ring_fifo_witness : ∃ a' h ws ds,
  ih_run Demo.funcs (λ _ s, s) (vega10_ih_funcs 0 false) Demo.wanted 8 32 0 IH Demo.running HIdle demo_labels
    = Some (a', h, ws, ds, false) ∧
  length ds = 2%nat ∧ ds = take (length ds) ws ∧ fed Demo.wanted 8 Demo.handled Demo.running a' ds.
Proof.
  destruct (ih_ring_fifo Demo.funcs (λ _ s, s) Demo.wanted 8 32 0 false true IH Demo.tbl ∅ Demo.handled 128 Demo.running
    demo_labels Demo.sources Demo.ready ltac:(repeat constructor)) as (a' & h & ws & ds & o & E & H).
  assert (Ho : o = false ∧ length ds = 2%nat) by (apply (counts_of _ _ _ _ _ _ _ E); vm_compute; reflexivity).
  destruct Ho as [-> Hn]. destruct (H eq_refl) as (Hd & _ & Hf).
  exists a', h, ws, ds. split; [exact E|]. split; [exact Hn|]. split; [exact Hd|exact Hf].
Defined.

(** Six vectors in a ring with room for three. *)
Definition demo_writes : list (list Z) := (λ n, Demo.vec 5 7 n) <$> seqZ 0 6.

Lemma ih_overflow_keeps_last_witness : ∃ a2,
  amdgpu_ih_process Demo.funcs (λ _ s, s) (vega10_ih_funcs 0 false) Demo.wanted 8 32 10 IH
    (writes 0 IH Demo.running demo_writes) = Some (a2, drop 3 demo_writes, IRQ_HANDLED).
Proof.
  destruct (ih_overflow_keeps_last Demo.funcs (λ _ s, s) Demo.wanted 8 32 0 false true IH Demo.tbl ∅ Demo.handled 128
    Demo.running demo_writes 10 Demo.sources Demo.ready ltac:(repeat constructor)) as (a2 & E & _).
  - vm_compute. reflexivity.
  - exists a2. exact E.
Defined.

(** ** Write-back slots of a ring *)

Lemma wb_get_spec w w' offs : 0 ≤ num_wb w ≤ 2 ^ 20 → amdgpu_device_wb_get w = (w', Some offs) →
  ∃ i, offs = 8 * i ∧ 0 ≤ i < num_wb w ∧ test_bit i (used w) = false ∧ w' = w <| used := set_bit i (used w) |>.
Proof.
  intros Hn. unfold amdgpu_device_wb_get, find_first_zero_bit.
  destruct (find_next_zero_bit_spec (used w) (num_wb w) 0) as (Hr & _ & Hz); [lia|].
  destruct (Z.ltb_spec (find_next_zero_bit (used w) (num_wb w) 0) (num_wb w)) as [Hlt|]; [|done].
  intros [= <- <-]. eexists. split; [|split; [split; [apply Hr|exact Hlt]|split; [by apply Hz|done]]].
  rewrite Z.shiftl_mul_pow2 by lia. rewrite wrap_small; [lia|unfold in_width; lia].
Qed.

(** A slot number beyond the table is ignored. *)
Lemma wb_free_outside w x : 8 * num_wb w ≤ x → amdgpu_device_wb_free w x = w.
Proof.
  intros Hx. unfold amdgpu_device_wb_free. rewrite (proj2 (Z.ltb_ge _ _)); [done|].
  rewrite Z.shiftr_div_pow2 by lia. apply Z.div_le_lower_bound; lia.
Qed.

(** A ring in video memory never gives its write-back slots back.
    [amdgpu_ih_ring_fini] computes the slots from the shadow pointers less the address
    of the ring, which it has just cleared: with the table of slots at an address past
    its own size (and below 16 GB), both numbers are beyond the table, and the two
    slots [amdgpu_ih_ring_init] took stay in use. *)
Theorem ih_ring_fini_leaks (addr : Z) (mem : Z → Z) (w w1 : amdgpu_wb) (r r1 : amdgpu_ih_ring) (size : Z)
    (Hnum : 0 ≤ num_wb w ≤ 2 ^ 20) (Hlow : 32 * num_wb w ≤ wb_gpu_addr w)
    (Hhigh : wb_gpu_addr w + 32 * num_wb w ≤ 2 ^ 34) :
  amdgpu_ih_ring_init None (Some addr) mem w r size false = (w1, r1, 0) →
  ∃ i j, i ≠ j ∧ test_bit i (used w) = false ∧ test_bit j (used w) = false ∧
    let '(w2, _) := amdgpu_ih_ring_fini w1 r1 in test_bit i (used w2) = true ∧ test_bit j (used w2) = true.
Proof.
  unfold amdgpu_ih_ring_init. cbv zeta.
  destruct (amdgpu_device_wb_get w) as [wa [wo|]] eqn:Ew; [|done].
  destruct (amdgpu_device_wb_get wa) as [wb [ro|]] eqn:Er; [|done].
  apply wb_get_spec in Ew as (i & -> & Hi & Hfi & ->); [|done].
  apply wb_get_spec in Er as (j & -> & Hj & Hfj & ->); [|done]. simpl in Hj, Hfj.
  intros [= <- <-]. exists i, j.
  assert (Hij : i ≠ j).
  { intros ->. unfold test_bit in Hfj. rewrite set_bit_spec, Z.eqb_refl in Hfj by lia. done. }
  assert (Hfar : ∀ k, 0 ≤ k < num_wb w → 8 * num_wb w ≤ u32 (u64 (wb_gpu_addr w + 8 * k * 4 - 0) / 4)).
  { intros k Hk. rewrite (wrap_small 64) by (unfold in_width; lia).
    replace (wb_gpu_addr w + 8 * k * 4 - 0) with (wb_gpu_addr w + 8 * k * 4) by lia.
    rewrite wrap_small; [apply Z.div_le_lower_bound; lia|].
    split; [apply Z.div_pos; lia|apply Z.div_lt_upper_bound; lia]. }
  split; [done|]. split; [done|]. split.
  { unfold test_bit in *. rewrite set_bit_spec in Hfj by lia. by apply orb_false_iff in Hfj as [_ ?]. }
  unfold amdgpu_ih_ring_fini. simpl.
  rewrite (wb_free_outside _ (u32 (u64 (wb_gpu_addr w + 8 * i * 4 - 0) / 4))) by (by apply Hfar).
  rewrite (wb_free_outside _ (u32 (u64 (wb_gpu_addr w + 8 * j * 4 - 0) / 4))) by (by apply Hfar).
  simpl. unfold test_bit. rewrite !set_bit_spec by lia. rewrite !Z.eqb_refl. by rewrite orb_true_r.
Qed.

Lemma ih_ring_fini_leaks_witness :
  let '(w1, r1, _) := amdgpu_ih_ring_init None (Some 8192) (λ _, 0) (mk_wb 0x100000 256 0)
                        (mk_ih 0 0 false true None 0 0 0 0 0 false 0 0 0 0 O) 128 false in
  ∃ i j, i ≠ j ∧ test_bit i 0 = false ∧ test_bit j 0 = false ∧
    let '(w2, _) := amdgpu_ih_ring_fini w1 r1 in test_bit i (used w2) = true ∧ test_bit j (used w2) = true.
Proof.
  eapply (ih_ring_fini_leaks 8192 (λ _, 0) (mk_wb 0x100000 256 0) _ (mk_ih 0 0 false true None 0 0 0 0 0 false 0 0 0 0 O) _ 128);
    [simpl; lia|simpl; lia|simpl; lia|reflexivity].
Defined.
