(* ===== verification/GmcFault.v ===== *)
(** * The filter of page faults

    [amdgpu_gmc_filter_faults] and [amdgpu_gmc_filter_faults_remove] of
    [amdgpu_gmc.c]: a fault that is retried raises the same interrupt again and
    again; the filter lets the first one through.  It keeps the last 256 faults in
    a ring, found through chains that start in a hash table.  The kernel's
    [hash_64] is a parameter.  So is the width in which the compiler shifts a
    bit-field of 48 bits: 48 with GCC, which keeps the width of the field, 64 when
    its declared type is taken. *)

From S2P Require Import Prelude IhRing.

Definition AMDGPU_GMC_FAULT_RING_ORDER : Z := 8.
Definition AMDGPU_GMC_FAULT_RING_SIZE : Z := Z.shiftl 1 AMDGPU_GMC_FAULT_RING_ORDER.
Definition AMDGPU_GMC_FAULT_HASH_ORDER : Z := 8.
Definition AMDGPU_GMC_FAULT_HASH_SIZE : Z := Z.shiftl 1 AMDGPU_GMC_FAULT_HASH_ORDER.
Definition AMDGPU_GMC_FAULT_TIMEOUT : Z := 5000.

(** ** State *)

Record amdgpu_gmc_fault := mk_fault { timestamp : Z; next : Z; key : Z; timestamp_expiry : Z }.
#[export] Instance eta_fault : Eta amdgpu_gmc_fault := λ f,
  mk_fault (timestamp f) (next f) (key f) (timestamp_expiry f).
Definition fault_zero : amdgpu_gmc_fault := mk_fault 0 0 0 0.

(** [fault_hash] has the field [idx] of each entry. *)
Record amdgpu_gmc := mk_gmc { fault_ring : list amdgpu_gmc_fault; fault_hash : list Z; last_fault : Z }.
#[export] Instance eta_gmc : Eta amdgpu_gmc := λ g, mk_gmc (fault_ring g) (fault_hash g) (last_fault g).

(** The structure of a new device is zero. *)
Definition gmc_zero : amdgpu_gmc := mk_gmc (replicate 256 fault_zero) (replicate 256 0) 0.

Definition fault_at (g : amdgpu_gmc) (i : Z) : amdgpu_gmc_fault :=
  default fault_zero (fault_ring g !! Z.to_nat i).
Definition idx (g : amdgpu_gmc) (h : Z) : Z := default 0 (fault_hash g !! Z.to_nat h).

(** ** Operations *)

Definition amdgpu_gmc_fault_key (addr pasid : Z) : Z := Z.lor (u64 (Z.shiftl addr 4)) pasid.

Section Filter.
Context (hash_64 : Z → Z → Z) (field_width : Z).

(** [amdgpu_ih_ts_after] when the first time stamp is the bit-field
    [timestamp_expiry]. *)
Definition ts_after_field (t1 t2 : Z) : bool :=
  let s64 z := u64 (z + 2 ^ 63) - 2 ^ 63 in
  0 <? s64 (s64 (u64 (Z.shiftl t2 16)) - s64 (wrap field_width (Z.shiftl t1 16))).

(** The loops over a chain from slot [i]: the slot with the key, or none.
    [amdgpu_gmc_filter_faults] stops at a fault older than [stamp],
    [amdgpu_gmc_filter_faults_remove] does not ([stamp] is 0). *)
Fixpoint chase (fuel : nat) (g : amdgpu_gmc) (i stamp k : Z) : option (option Z) :=
  match fuel with
  | O => None
  | S fuel =>
      let fault := fault_at g i in
      if timestamp fault <? stamp then Some None
      else if key fault =? k then Some (Some i)
      else if timestamp fault <=? timestamp (fault_at g (next fault)) then Some None
      else chase fuel g (next fault) stamp k
  end.

Definition chase_fuel : nat := 257.

(** The fault goes to the slot of the oldest one, whose [timestamp_expiry] stays. *)
Definition add_fault (g : amdgpu_gmc) (k hash ts : Z) : amdgpu_gmc :=
  let i := last_fault g in
  let fault := (fault_at g i) <| key := k |> <| timestamp := wrap 48 ts |> <| next := idx g hash |> in
  g <| fault_ring ::= <[Z.to_nat i := fault]> |>
    <| fault_hash ::= <[Z.to_nat hash := i]> |>
    <| last_fault := wrap AMDGPU_GMC_FAULT_RING_ORDER (i + 1) |>.

(** A fault of a ring with this [processed_timestamp]; true when it is filtered. *)
Definition amdgpu_gmc_filter_faults (g : amdgpu_gmc) (processed_timestamp addr pasid ts : Z)
    : option (amdgpu_gmc * bool) :=
  let k := amdgpu_gmc_fault_key addr pasid in
  if amdgpu_ih_ts_after ts processed_timestamp then Some (g, true) else
  let stamp := Z.max ts (AMDGPU_GMC_FAULT_TIMEOUT + 1) - AMDGPU_GMC_FAULT_TIMEOUT in
  if stamp <=? timestamp (fault_at g (last_fault g)) then Some (g, true) else
  let hash := hash_64 k AMDGPU_GMC_FAULT_HASH_ORDER in
  found ← chase chase_fuel g (idx g hash) stamp k;
  let filtered :=
    match found with
    | None => false
    | Some i =>
        let e := timestamp_expiry (fault_at g i) in
        negb (nz e && ts_after_field e ts)
    end in
  Some (if filtered then (g, true) else (add_fault g k hash ts, false)).

(** The second half of [amdgpu_gmc_filter_faults_remove]. *)
Definition expire_fault (g : amdgpu_gmc) (addr pasid last_ts : Z) : option amdgpu_gmc :=
  let k := amdgpu_gmc_fault_key addr pasid in
  let hash := hash_64 k AMDGPU_GMC_FAULT_HASH_ORDER in
  found ← chase chase_fuel g (idx g hash) 0 k;
  Some (match found with
        | None => g
        | Some i =>
            g <| fault_ring ::= alter (λ f, f <| timestamp_expiry := wrap 48 last_ts |>) (Z.to_nat i) |>
        end).

(** [ih1] is the ring faults are taken from; its functions may move its read
    pointer. *)
Definition amdgpu_gmc_filter_faults_remove (F : amdgpu_ih_funcs) (retry_cam_enabled : bool)
    (g : amdgpu_gmc) (ih1 : amdgpu_ih_ring) (addr pasid : Z) : option (amdgpu_gmc * amdgpu_ih_ring) :=
  if retry_cam_enabled then Some (g, ih1) else
  let '(last_wptr, ih1) := get_wptr F IH1 ih1 in
  let last_ts := decode_iv_ts F ih1 last_wptr (-1) in
  g ← expire_fault g addr pasid last_ts;
  Some (g, ih1).

(** ** Histories *)

Inductive fault_op :=
  | Fault (processed_timestamp addr pasid ts : Z)
  | Remove (addr pasid last_ts : Z).

(** The state after a history, and what the filter said of each fault. *)
Fixpoint fault_run (g : amdgpu_gmc) (ops : list fault_op) : option (amdgpu_gmc * list bool) :=
  match ops with
  | [] => Some (g, [])
  | Fault processed addr pasid ts :: ops =>
      '(g, b) ← amdgpu_gmc_filter_faults g processed addr pasid ts;
      '(g, bs) ← fault_run g ops;
      Some (g, b :: bs)
  | Remove addr pasid last_ts :: ops =>
      g ← expire_fault g addr pasid last_ts;
      fault_run g ops
  end.

(** ** Reference *)

(** The faults let through, newest first, by address and process. *)
Record seen := mk_seen { who : Z * Z; seen_ts : Z; expiry : Z }.
#[export] Instance eta_seen : Eta seen := λ s, mk_seen (who s) (seen_ts s) (expiry s).

(** The newest of the last 256 with its position. *)
Definition find_seen (log : list seen) (w : Z * Z) : option (nat * seen) :=
  list_find (λ s, who s = w) (take 256 log).

(** The fault that the next one replaces. *)
Definition oldest (log : list seen) : seen := default (mk_seen (0, 0) 0 0) (log !! 255%nat).

(** A fault is filtered when it is stale, when the last 256 are all recent, or when
    it was seen recently and has not been dealt with since. *)
Definition ref_filter (log : list seen) (processed addr pasid ts : Z) : list seen * bool :=
  let stamp := Z.max ts (AMDGPU_GMC_FAULT_TIMEOUT + 1) - AMDGPU_GMC_FAULT_TIMEOUT in
  let known :=
    match find_seen log (addr, pasid) with
    | Some (_, s) => (stamp <=? seen_ts s) && negb (nz (expiry s) && ts_after_field (expiry s) ts)
    | None => false
    end in
  if amdgpu_ih_ts_after ts processed || (stamp <=? seen_ts (oldest log)) || known then (log, true)
  else (mk_seen (addr, pasid) ts (expiry (oldest log)) :: log, false).

Definition ref_remove (log : list seen) (addr pasid last_ts : Z) : list seen :=
  match find_seen log (addr, pasid) with
  | Some (i, _) => alter (λ s, s <| expiry := wrap 48 last_ts |>) i log
  | None => log
  end.

Fixpoint ref_run (log : list seen) (ops : list fault_op) : list seen * list bool :=
  match ops with
  | [] => (log, [])
  | Fault processed addr pasid ts :: ops =>
      let '(log, b) := ref_filter log processed addr pasid ts in
      let '(log, bs) := ref_run log ops in
      (log, b :: bs)
  | Remove addr pasid last_ts :: ops => ref_run (ref_remove log addr pasid last_ts) ops
  end.
End Filter.
