(* ===== verification/GmcFaultProof.v ===== *)
(** * The filter of page faults: proofs

    The invariant [filter_ok] ties the ring and the chains of the filter to the list
    of the faults let through, newest first: position [i] of the list is in slot
    [pos i], and each slot leads to the next older fault of its bucket for as long as
    that is among the last 256.  It holds while time stamps increase strictly. *)

From S2P Require Import Prelude IhRing GmcFault.
#[local] Open Scope Z_scope.
#[local] Open Scope list_scope.

(** ** Keys *)

Definition page_of (w : Z * Z) : Prop := w.1 `mod` 4096 = 0 ∧ in_width 48 w.1 ∧ 0 < w.2 < 2 ^ 16.

(** A history after time [now]: the time stamps of 48 bits increase, addresses are
    those of pages and processes have a number. *)
Definition page_ok (w : Z * Z) : bool :=
  (w.1 `mod` 4096 =? 0) && (0 <=? w.1) && (w.1 <? 2 ^ 48) && (0 <? w.2) && (w.2 <? 2 ^ 16).

Fixpoint good (now : Z) (ops : list fault_op) : bool :=
  match ops with
  | [] => true
  | Fault _ addr pasid ts :: ops =>
      page_ok (addr, pasid) && (now <? ts) && (ts <? 2 ^ 48) && good ts ops
  | Remove addr pasid _ :: ops => page_ok (addr, pasid) && good now ops
  end.

Lemma page_ok_spec w : page_ok w = true → page_of w.
Proof. unfold page_ok, page_of, in_width. rewrite !andb_true_iff. lia. Qed.

Definition key_of (w : Z * Z) : Z := amdgpu_gmc_fault_key w.1 w.2.

Lemma key_of_sum w : page_of w → key_of w = w.1 * 16 + w.2.
Proof.
  destruct w as [a p]. unfold page_of, key_of, amdgpu_gmc_fault_key, in_width. simpl.
  intros [Hq [Ha Hp]]. apply Z.mod_divide in Hq as [q ->]; [|done].
  rewrite Z.shiftl_mul_pow2 by lia. rewrite (wrap_small 64) by (unfold in_width; lia).
  rewrite Z.lor_comm. replace (q * 4096 * 2 ^ 4) with (q * 2 ^ 16) by lia.
  rewrite lor_add; lia.
Qed.

Lemma key_of_inj w w' : page_of w → page_of w' → key_of w = key_of w' → w = w'.
Proof.
  intros H H'. rewrite !key_of_sum by done. destruct w as [a p], w' as [a' p'].
  destruct H as [Ha [_ Hp]], H' as [Ha' [_ Hp']]. simpl in *. apply Z.mod_divide in Ha as [q ->]; [|done].
  apply Z.mod_divide in Ha' as [q' ->]; [|done]. intros. assert (q = q') as -> by lia. f_equal. lia.
Qed.

Lemma key_of_nonzero w : page_of w → key_of w ≠ 0.
Proof. intros H. rewrite key_of_sum by done. unfold page_of, in_width in H. lia. Qed.

(** ** Bounds of a counting argument *)

(** The number of slots with an older fault. *)
Definition older (l : list amdgpu_gmc_fault) (t : Z) : nat :=
  length (filter (λ f, timestamp f < t) l).

Lemma older_mono l t t' : t ≤ t' → (older l t ≤ older l t')%nat.
Proof.
  intros Ht. unfold older. induction l as [|f l IH]; [done|].
  rewrite !filter_cons. repeat case_decide; simpl; lia.
Qed.

Lemma older_lt l f t : f ∈ l → timestamp f < t → (older l (timestamp f) < older l t)%nat.
Proof.
  intros Hf Ht. unfold older. induction l as [|g l IH]; [by apply elem_of_nil in Hf|].
  rewrite !filter_cons. apply elem_of_cons in Hf as [->|Hf].
  - rewrite decide_False, decide_True by lia. simpl.
    pose proof (older_mono l (timestamp g) t). unfold older in *. lia.
  - specialize (IH Hf). repeat case_decide; simpl; lia.
Qed.

Lemma older_length l t : (older l t ≤ length l)%nat.
Proof. apply length_filter. Qed.

(** ** The loops over a chain *)

(** What the fields of the arrays can hold. *)
Record gmc_wf (g : amdgpu_gmc) : Prop := {
  wf_ring : length (fault_ring g) = 256%nat;
  wf_hash : length (fault_hash g) = 256%nat;
  wf_last : 0 ≤ last_fault g < 256;
  wf_next x : 0 ≤ next (fault_at g x) < 256;
  wf_idx h : 0 ≤ idx g h < 256;
}.

Lemma fault_at_in g x : gmc_wf g → 0 ≤ x < 256 → fault_at g x ∈ fault_ring g.
Proof.
  intros Hg Hx. unfold fault_at.
  destruct (lookup_lt_is_Some_2 (fault_ring g) (Z.to_nat x)) as [f Hf]; [rewrite (wf_ring g Hg); lia|].
  rewrite Hf. by eapply list_elem_of_lookup_2.
Qed.

(** The loop ends, in a slot with the key or in none. *)
Lemma chase_total fuel g x stamp k : gmc_wf g → 0 ≤ x < 256 →
  (older (fault_ring g) (timestamp (fault_at g x)) < fuel)%nat →
  ∃ r, chase fuel g x stamp k = Some r ∧
       ∀ y, r = Some y → 0 ≤ y < 256 ∧ key (fault_at g y) = k ∧ stamp ≤ timestamp (fault_at g y).
Proof.
  intros Hg. revert x. induction fuel as [|fuel IH]; intros x Hx Hfuel; [lia|]. simpl.
  destruct (Z.ltb_spec (timestamp (fault_at g x)) stamp); [by exists None|].
  destruct (Z.eqb_spec (key (fault_at g x)) k); [by exists (Some x); split; [done|intros y [= <-]]|].
  destruct (Z.leb_spec (timestamp (fault_at g x)) (timestamp (fault_at g (next (fault_at g x)))))
    as [|Hlt]; [by exists None|].
  pose proof (wf_next g Hg x) as Hn. apply IH; [done|].
  pose proof (older_lt _ _ _ (fault_at_in g _ Hg Hn) Hlt). lia.
Qed.

Lemma chase_fuel_total g x stamp k : gmc_wf g → 0 ≤ x < 256 →
  ∃ r, chase chase_fuel g x stamp k = Some r ∧
       ∀ y, r = Some y → 0 ≤ y < 256 ∧ key (fault_at g y) = k ∧ stamp ≤ timestamp (fault_at g y).
Proof.
  intros Hg Hx. apply chase_total; [done|done|].
  pose proof (older_length (fault_ring g) (timestamp (fault_at g x))). rewrite (wf_ring g Hg) in *.
  unfold chase_fuel. lia.
Qed.

(** ** The invariant *)

Section Filter.
Context (hash_64 : Z → Z → Z) (field_width : Z).

Definition bucket (w : Z * Z) : Z := hash_64 (key_of w) AMDGPU_GMC_FAULT_HASH_ORDER.

(** The slot of position [i] of the list. *)
Definition pos (g : amdgpu_gmc) (i : nat) : Z := (last_fault g - 1 - Z.of_nat i) `mod` 256.

(** The newest fault of bucket [h] from position [i] on is at position [j]. *)
Definition first_of (log : list seen) (h : Z) (i j : nat) : Prop :=
  (i ≤ j < 256)%nat ∧ (∃ s, log !! j = Some s ∧ bucket (who s) = h) ∧
  ∀ m s, (i ≤ m < j)%nat → log !! m = Some s → bucket (who s) ≠ h.

Definition slot_ok (f : amdgpu_gmc_fault) (s : option seen) : Prop :=
  match s with
  | Some s => key f = key_of (who s) ∧ timestamp f = seen_ts s ∧ timestamp_expiry f = expiry s
  | None => key f = 0 ∧ timestamp f = 0 ∧ timestamp_expiry f = 0
  end.

Record filter_ok (g : amdgpu_gmc) (log : list seen) : Prop := {
  ok_wf : gmc_wf g;
  ok_slot i : (i < 256)%nat → slot_ok (fault_at g (pos g i)) (log !! i);
  ok_sorted i j s s' : (i < j)%nat → log !! i = Some s → log !! j = Some s' → seen_ts s' < seen_ts s;
  ok_seen i s : log !! i = Some s → page_of (who s) ∧ 0 < seen_ts s < 2 ^ 48;
  ok_head h j : first_of log h 0 j → idx g h = pos g j;
  ok_next i j s : log !! i = Some s → first_of log (bucket (who s)) (S i) j →
    next (fault_at g (pos g i)) = pos g j;
}.

Lemma pos_range g i : 0 ≤ pos g i < 256.
Proof. unfold pos. apply Z.mod_pos_bound. lia. Qed.

Lemma first_of_exists log h i j s : (i ≤ j < 256)%nat → log !! j = Some s → bucket (who s) = h →
  ∃ m, (i ≤ m ≤ j)%nat ∧ first_of log h i m.
Proof.
  intros Hij Hj Hh. remember (j - i)%nat as d eqn:Hd. revert i Hij Hd.
  induction d as [|d IH]; intros i Hij Hd.
  - exists j. assert (i = j) as -> by lia. split; [lia|]. split; [lia|]. split; [by eauto|]. lia.
  - destruct (lookup_lt_is_Some_2 log i) as [t Ht].
    { apply lookup_lt_Some in Hj. lia. }
    destruct (decide (bucket (who t) = h)) as [Ht'|Ht'].
    + exists i. split; [lia|]. split; [lia|]. split; [by eauto|]. lia.
    + destruct (IH (S i)) as (m & Hm & Hr & Hs & Hall); [lia|lia|].
      exists m. split; [lia|]. split; [lia|]. split; [done|].
      intros m' s' Hm' Hs'. destruct (decide (m' = i)) as [->|]; [by simplify_eq|].
      apply (Hall m'); [lia|done].
Qed.

(** The loop from a position reaches the newest fault with the key. *)
Lemma chase_reaches g log w stamp j s : filter_ok g log → page_of w →
  (j < 256)%nat → log !! j = Some s → who s = w → stamp ≤ seen_ts s →
  (∀ m t, (m < j)%nat → log !! m = Some t → who t ≠ w) →
  ∀ d i fuel t, (i + d = j)%nat → (d < fuel)%nat → log !! i = Some t → bucket (who t) = bucket w →
  chase fuel g (pos g i) stamp (key_of w) = Some (Some (pos g j)).
Proof.
  intros Hok Hw Hj Hs Hwho Hstamp Hnew d.
  induction d as [d IH] using (well_founded_induction lt_wf). intros i fuel t Hij Hfuel Ht Hb.
  destruct fuel as [|fuel]; [lia|]. simpl.
  pose proof (ok_slot g log Hok i ltac:(lia)) as Hslot. rewrite Ht in Hslot.
  destruct Hslot as (Hkey & Hts & _). rewrite Hkey, Hts.
  destruct (decide (i = j)) as [->|Hne].
  - assert (t = s) as -> by congruence. rewrite Hwho, Z.eqb_refl.
    by rewrite (proj2 (Z.ltb_ge _ _)) by lia.
  - pose proof (ok_sorted g log Hok i j t s ltac:(lia) Ht Hs) as Hlt.
    rewrite (proj2 (Z.ltb_ge _ _)) by lia.
    rewrite (proj2 (Z.eqb_neq _ _)); cycle 1.
    { intros Heq. apply key_of_inj in Heq; [|by apply (ok_seen g log Hok i t)|done].
      by apply (Hnew i t); [lia| |]. }
    destruct (first_of_exists log (bucket w) (S i) j s) as (m & Hm & Hfirst); [lia|done|by rewrite Hwho|].
    pose proof Hfirst as (_ & (u & Hu & Hbu) & _).
    rewrite (ok_next g log Hok i m t Ht) by by rewrite Hb.
    pose proof (ok_slot g log Hok m ltac:(lia)) as Hslot. rewrite Hu in Hslot.
    destruct Hslot as (_ & -> & _).
    pose proof (ok_sorted g log Hok i m t u ltac:(lia) Ht Hu).
    rewrite (proj2 (Z.leb_gt _ _)) by lia.
    eapply (IH (j - m)%nat); [lia|lia|lia|exact Hu|done].
Qed.

Lemma find_seen_Some log w j s : find_seen log w = Some (j, s) →
  (j < 256)%nat ∧ log !! j = Some s ∧ who s = w ∧ ∀ m t, (m < j)%nat → log !! m = Some t → who t ≠ w.
Proof.
  unfold find_seen. rewrite list_find_Some. intros (Hj & Hw & Hall).
  apply lookup_take_Some in Hj as [Hj Hlt]. split; [lia|]. split; [done|]. split; [done|].
  intros m t Hm Ht. apply (Hall m); [|done]. apply lookup_take_Some. split; [done|lia].
Qed.

Lemma find_seen_first log w i t : (i < 256)%nat → log !! i = Some t → who t = w →
  ∃ j s, find_seen log w = Some (j, s) ∧ (j ≤ i)%nat.
Proof.
  intros Hi Ht Hw. destruct (find_seen log w) as [[j s]|] eqn:E.
  - exists j, s. split; [done|]. apply find_seen_Some in E as (_ & _ & _ & Hall).
    destruct (decide (j ≤ i)%nat); [done|]. exfalso. by apply (Hall i t); [lia| |].
  - exfalso. unfold find_seen in E. rewrite list_find_None, Forall_lookup in E.
    apply (E i t); [|done]. apply lookup_take_Some. split; [done|lia].
Qed.

(** Each slot is that of a position. *)
Lemma pos_surj g x : 0 ≤ last_fault g < 256 → 0 ≤ x < 256 →
  ∃ i, (i < 256)%nat ∧ x = pos g i.
Proof.
  intros Hl Hx. exists (Z.to_nat ((last_fault g - 1 - x) `mod` 256)).
  pose proof (Z.mod_pos_bound (last_fault g - 1 - x) 256). split; [lia|].
  unfold pos. rewrite Z2Nat.id by lia.
  pose proof (Z.div_mod (last_fault g - 1 - x) 256).
  apply (Z.mod_unique _ _ ((last_fault g - 1 - x) / 256)); lia.
Qed.

Lemma pos_inj g i j : (i < 256)%nat → (j < 256)%nat → pos g i = pos g j → i = j.
Proof. unfold pos. intros. Z.to_euclidean_division_equations. lia. Qed.

Lemma chase_spec g log w stamp : filter_ok g log → page_of w →
  chase chase_fuel g (idx g (bucket w)) stamp (key_of w) =
  Some (match find_seen log w with
        | Some (j, s) => if stamp <=? seen_ts s then Some (pos g j) else None
        | None => None
        end).
Proof.
  intros Hok Hw. pose proof (ok_wf g log Hok) as Hwf.
  destruct (chase_fuel_total g (idx g (bucket w)) stamp (key_of w) Hwf (wf_idx g Hwf _)) as (r & Hr & Hin).
  assert (Hslot : ∀ y, r = Some y → ∃ j s, find_seen log w = Some (j, s) ∧ stamp ≤ seen_ts s).
  { intros y ->. destruct (Hin y eq_refl) as (Hy & Hk & Hts).
    destruct (pos_surj g y (wf_last g Hwf) Hy) as (i & Hi & ->).
    pose proof (ok_slot g log Hok i Hi) as Hs. unfold slot_ok in Hs.
    destruct (log !! i) as [t|] eqn:Ht; [|pose proof (key_of_nonzero w Hw); lia].
    destruct Hs as (Hs & Hst & _). rewrite Hs in Hk. rewrite Hst in Hts.
    apply key_of_inj in Hk; [|by apply (ok_seen g log Hok i t)|done].
    destruct (find_seen_first log w i t) as (j & s & Hf & Hj); [done|done|done|].
    exists j, s. split; [done|]. apply find_seen_Some in Hf as (_ & Hs' & _ & _).
    destruct (decide (i = j)) as [->|]; [by simplify_eq|].
    pose proof (ok_sorted g log Hok j i s t ltac:(lia) Hs' Ht). lia. }
  destruct (find_seen log w) as [[j s]|] eqn:E.
  - destruct (Z.leb_spec stamp (seen_ts s)) as [Hle|Hgt].
    + apply find_seen_Some in E as (Hj & Hs & Hwho & Hall).
      destruct (first_of_exists log (bucket w) 0 j s) as (m & Hm & Hfirst); [lia|done|by rewrite Hwho|].
      pose proof Hfirst as (_ & (t & Ht & Hb) & _).
      rewrite (ok_head g log Hok _ _ Hfirst).
      eapply (chase_reaches g log w stamp j s); [done..|by instantiate (1 := (j - m)%nat); lia|
        unfold chase_fuel; lia|done|done].
    + rewrite Hr. destruct r as [y|]; [|done].
      destruct (Hslot y eq_refl) as (j' & s' & [= <- <-] & ?). lia.
  - rewrite Hr. destruct r as [y|]; [|done]. by destruct (Hslot y eq_refl) as (? & ? & ? & ?).
Qed.

(** ** A new fault *)

Lemma fault_at_add g k h ts x : gmc_wf g →
  fault_at (add_fault g k h ts) x =
  if decide (Z.to_nat x = Z.to_nat (last_fault g))
  then mk_fault (wrap 48 ts) (idx g h) k (timestamp_expiry (fault_at g (last_fault g)))
  else fault_at g x.
Proof.
  intros Hg. pose proof (wf_ring g Hg). pose proof (wf_last g Hg).
  unfold fault_at at 1, add_fault. simpl.
  case_decide as Hx.
  - rewrite Hx, list_lookup_insert_eq by lia. done.
  - by rewrite list_lookup_insert_ne by done.
Qed.

Lemma idx_add g k h ts y : gmc_wf g → 0 ≤ h < 256 →
  idx (add_fault g k h ts) y = if decide (Z.to_nat y = Z.to_nat h) then last_fault g else idx g y.
Proof.
  intros Hg Hh. pose proof (wf_hash g Hg). unfold idx at 1, add_fault. simpl.
  case_decide as Hx.
  - rewrite Hx, list_lookup_insert_eq by lia. done.
  - by rewrite list_lookup_insert_ne by done.
Qed.

Lemma add_fault_wf g k h ts : gmc_wf g → 0 ≤ h < 256 → gmc_wf (add_fault g k h ts).
Proof.
  intros Hg Hh. pose proof (wf_last g Hg). split.
  - simpl. rewrite length_insert. apply Hg.
  - simpl. rewrite length_insert. apply Hg.
  - simpl. apply Z.mod_pos_bound. done.
  - intros x. rewrite fault_at_add by done. case_decide; [apply (wf_idx g Hg)|apply (wf_next g Hg)].
  - intros y. rewrite idx_add by done. case_decide; [done|apply (wf_idx g Hg)].
Qed.

Lemma pos_add_0 g k h ts : 0 ≤ last_fault g < 256 → pos (add_fault g k h ts) 0 = last_fault g.
Proof.
  intros Hg. unfold pos, add_fault, wrap, AMDGPU_GMC_FAULT_RING_ORDER. simpl last_fault.
  change (2 ^ 8) with 256. Z.to_euclidean_division_equations. lia.
Qed.

Lemma pos_add_S g k h ts i : 0 ≤ last_fault g < 256 → pos (add_fault g k h ts) (S i) = pos g i.
Proof.
  intros Hg. unfold pos, add_fault, wrap, AMDGPU_GMC_FAULT_RING_ORDER. simpl last_fault.
  change (2 ^ 8) with 256. rewrite Nat2Z.inj_succ. Z.to_euclidean_division_equations. lia.
Qed.

Lemma pos_last g i : 0 ≤ last_fault g < 256 → (i < 256)%nat → pos g i = last_fault g ↔ i = 255%nat.
Proof. intros. unfold pos. Z.to_euclidean_division_equations. lia. Qed.

Lemma first_of_cons s log h i j :
  first_of (s :: log) h (S i) j → ∃ j', j = S j' ∧ (j' < 255)%nat ∧ first_of log h i j'.
Proof.
  intros (Hr & (t & Ht & Hb) & Hall). destruct j as [|j]; [lia|]. exists j.
  split; [done|]. split; [lia|]. split; [lia|]. split; [by exists t|].
  intros m u Hm Hu. apply (Hall (S m)); [lia|done].
Qed.

Lemma oldest_slot g log : filter_ok g log →
  timestamp (fault_at g (last_fault g)) = seen_ts (oldest log) ∧
  timestamp_expiry (fault_at g (last_fault g)) = expiry (oldest log).
Proof.
  intros Hok. pose proof (wf_last g (ok_wf g log Hok)) as Hl.
  pose proof (ok_slot g log Hok 255 ltac:(lia)) as Hs.
  rewrite (proj2 (pos_last g 255 Hl ltac:(lia)) eq_refl) in Hs.
  unfold oldest. destruct (log !! 255%nat); simpl in *; tauto.
Qed.

Hypothesis hash_range : ∀ k, 0 ≤ hash_64 k AMDGPU_GMC_FAULT_HASH_ORDER < 256.

Lemma add_fault_ok g log w ts : filter_ok g log → page_of w → 0 < ts < 2 ^ 48 →
  (∀ i s, log !! i = Some s → seen_ts s < ts) →
  filter_ok (add_fault g (key_of w) (bucket w) ts) (mk_seen w ts (expiry (oldest log)) :: log).
Proof.
  intros Hok Hw Hts Hnew. pose proof (ok_wf g log Hok) as Hwf. pose proof (wf_last g Hwf) as Hl.
  assert (Hother : ∀ i, (i < 255)%nat → Z.to_nat (pos g i) ≠ Z.to_nat (last_fault g)).
  { intros i Hi Heq. pose proof (pos_range g i).
    assert (pos g i = last_fault g) as Hp by lia. apply pos_last in Hp; lia. }
  split.
  - apply add_fault_wf; [done|apply hash_range].
  - intros [|i] Hi; rewrite fault_at_add by done.
    + rewrite pos_add_0, decide_True by done. simpl. split; [done|].
      rewrite wrap_small by (unfold in_width; lia). split; [done|]. by apply oldest_slot.
    + rewrite pos_add_S, decide_False by (done || (apply Hother; lia)).
      simpl. apply (ok_slot g log Hok). lia.
  - intros [|i] [|j] s s' Hij; simpl; [lia| |lia|].
    + intros [= <-] Hs'. by apply (Hnew j).
    + apply (ok_sorted g log Hok). lia.
  - intros [|i] s; simpl; [by intros [= <-]|apply (ok_seen g log Hok)].
  - intros h [|j] Hf; rewrite idx_add by (done || apply hash_range).
    + destruct Hf as (_ & (s & [= <-] & Hb) & _). simpl in Hb. rewrite decide_True by (by rewrite Hb).
      by rewrite pos_add_0.
    + destruct Hf as (Hr & (s & Hs & Hb) & Hall).
      pose proof (Hall 0%nat _ ltac:(lia) eq_refl) as Hne. simpl in Hne.
      pose proof (hash_range (key_of w)). pose proof (hash_range (key_of (who s))).
      unfold bucket in *. rewrite decide_False by lia.
      rewrite pos_add_S by done. apply (ok_head g log Hok). split; [lia|]. split; [by exists s|].
      intros m t Hm Ht. apply (Hall (S m)); [lia|done].
  - intros i j s Hs Hf. apply first_of_cons in Hf as (j' & -> & Hj' & Hf).
    rewrite pos_add_S by done. rewrite fault_at_add by done. destruct i as [|i].
    + rewrite pos_add_0, decide_True by done. simpl in Hs |- *. injection Hs as <-.
      by apply (ok_head g log Hok).
    + pose proof Hf as (? & _). rewrite pos_add_S, decide_False by (done || (apply Hother; lia)).
      by apply (ok_next g log Hok i j' s).
Qed.

(** ** A fault dealt with *)

Definition expire_at (g : amdgpu_gmc) (x e : Z) : amdgpu_gmc :=
  g <| fault_ring ::= alter (λ f, f <| timestamp_expiry := e |>) (Z.to_nat x) |>.

Lemma fault_at_expire g x e y : gmc_wf g → 0 ≤ x < 256 →
  fault_at (expire_at g x e) y =
  if decide (Z.to_nat y = Z.to_nat x) then (fault_at g y) <| timestamp_expiry := e |> else fault_at g y.
Proof.
  intros Hg Hx. pose proof (wf_ring g Hg). unfold fault_at, expire_at. simpl. case_decide as Hy.
  - rewrite Hy, list_lookup_alter_eq.
    destruct (lookup_lt_is_Some_2 (fault_ring g) (Z.to_nat x)) as [f ->]; [lia|done].
  - by rewrite list_lookup_alter_ne.
Qed.

Lemma expire_fault_wf g x e : gmc_wf g → 0 ≤ x < 256 → gmc_wf (expire_at g x e).
Proof.
  intros Hg Hx. split; [..|intros y; rewrite fault_at_expire by done; case_decide; apply (wf_next g Hg)|];
    simpl; rewrite ?length_alter; apply Hg.
Qed.

Lemma first_of_who log log' h i j :
  (∀ m, who <$> log !! m = who <$> log' !! m) → first_of log h i j → first_of log' h i j.
Proof.
  intros Heq (Hr & (s & Hs & Hb) & Hall). split; [done|].
  assert (Hsame : ∀ m t', log' !! m = Some t' → ∃ t, log !! m = Some t ∧ who t = who t').
  { intros m t' Ht'. specialize (Heq m). rewrite Ht' in Heq.
    destruct (log !! m) as [t|]; simplify_eq/=. by exists t. }
  split.
  - specialize (Heq j). rewrite Hs in Heq. destruct (log' !! j) as [s'|]; simplify_eq/=.
    exists s'. split; [done|]. congruence.
  - intros m t' Hm Ht'. destruct (Hsame m t' Ht') as (t & Ht & <-). by apply (Hall m).
Qed.

Lemma expire_ok g log j s e : filter_ok g log → (j < 256)%nat → log !! j = Some s →
  filter_ok (expire_at g (pos g j) e) (alter (λ s, s <| expiry := e |>) j log).
Proof.
  intros Hok Hj Hs. pose proof (ok_wf g log Hok) as Hwf. pose proof (pos_range g j) as Hp.
  assert (Hwho : ∀ m, who <$> alter (λ s, s <| expiry := e |>) j log !! m = who <$> log !! m).
  { intros m. destruct (decide (m = j)) as [->|]; [|by rewrite list_lookup_alter_ne].
    rewrite list_lookup_alter_eq, Hs. done. }
  assert (Hback : ∀ m t, alter (λ s, s <| expiry := e |>) j log !! m = Some t →
            ∃ t', log !! m = Some t' ∧ who t' = who t ∧ seen_ts t' = seen_ts t).
  { intros m t. destruct (decide (m = j)) as [->|]; [|rewrite list_lookup_alter_ne by done; eauto].
    rewrite list_lookup_alter_eq, Hs. intros [= <-]. eauto. }
  assert (Hnext : ∀ y, next (fault_at (expire_at g (pos g j) e) y) = next (fault_at g y)).
  { intros y. rewrite fault_at_expire by done. by case_decide. }
  split.
  - by apply expire_fault_wf.
  - intros i Hi. change (pos (expire_at g (pos g j) e) i) with (pos g i).
    pose proof (ok_slot g log Hok i Hi) as Hsl. rewrite fault_at_expire by done.
    pose proof (pos_range g i). destruct (decide (i = j)) as [->|Hne].
    + rewrite decide_True by done. rewrite list_lookup_alter_eq, Hs in *. simpl in *. tauto.
    + rewrite decide_False, list_lookup_alter_ne; [done|done|].
      intros Heq. apply Hne, (pos_inj g); [done|done|lia].
  - intros i k t t' Hik Ht Ht'. apply Hback in Ht as (u & Hu & _ & <-).
    apply Hback in Ht' as (u' & Hu' & _ & <-). by apply (ok_sorted g log Hok i k).
  - intros i t Ht. apply Hback in Ht as (u & Hu & <- & <-). by apply (ok_seen g log Hok i).
  - intros h k Hf. apply (ok_head g log Hok). by eapply first_of_who.
  - intros i k t Ht Hf. apply Hback in Ht as (u & Hu & Hw & _). rewrite <- Hw in Hf. rewrite Hnext.
    apply (ok_next g log Hok i k u Hu). by eapply first_of_who.
Qed.

(** ** Histories *)

Lemma gmc_zero_ok : filter_ok gmc_zero [].
Proof.
  assert (Hz : ∀ x, fault_at gmc_zero x = fault_zero).
  { intros x. unfold fault_at. change (fault_ring gmc_zero) with (replicate 256 fault_zero).
    destruct (_ !! _) as [f|] eqn:E; [|done]. by apply lookup_replicate in E as [-> _]. }
  assert (Hi : ∀ h, idx gmc_zero h = 0).
  { intros x. unfold idx. change (fault_hash gmc_zero) with (replicate 256 0).
    destruct (_ !! _) as [z|] eqn:E; [|done]. by apply lookup_replicate in E as [-> _]. }
  split; [split|..]; try (intros *; rewrite ?Hz, ?Hi; done).
  by intros h j (_ & (? & ? & _) & _).
Qed.

Definition newest (log : list seen) (now : Z) : Prop := ∀ i s, log !! i = Some s → seen_ts s ≤ now.

Lemma filter_spec g log p addr pasid ts : filter_ok g log → page_of (addr, pasid) →
  0 < ts < 2 ^ 48 → (∀ i s, log !! i = Some s → seen_ts s < ts) →
  ∃ g' log' b,
    amdgpu_gmc_filter_faults hash_64 field_width g p addr pasid ts = Some (g', b) ∧
    ref_filter field_width log p addr pasid ts = (log', b) ∧
    filter_ok g' log' ∧ newest log' ts.
Proof.
  intros Hok Hw Hts Hnew. unfold amdgpu_gmc_filter_faults, ref_filter.
  assert (Hnow : newest log ts) by (intros i s Hs; specialize (Hnew i s Hs); lia).
  destruct (amdgpu_ih_ts_after ts p); [by exists g, log, true|].
  destruct (oldest_slot g log Hok) as [-> _].
  set (stamp := Z.max ts (AMDGPU_GMC_FAULT_TIMEOUT + 1) - AMDGPU_GMC_FAULT_TIMEOUT).
  destruct (stamp <=? seen_ts (oldest log)); [by exists g, log, true|].
  change (amdgpu_gmc_fault_key addr pasid) with (key_of (addr, pasid)).
  change (hash_64 (key_of (addr, pasid)) AMDGPU_GMC_FAULT_HASH_ORDER) with (bucket (addr, pasid)).
  rewrite (chase_spec g log (addr, pasid) stamp Hok Hw). cbn [mbind option_bind].
  assert (Hadd : newest (mk_seen (addr, pasid) ts (expiry (oldest log)) :: log) ts).
  { intros [|i] s; simpl; [intros [= <-]; simpl; lia|apply Hnow]. }
  pose proof (add_fault_ok g log (addr, pasid) ts Hok Hw Hts Hnew) as Hok'.
  destruct (find_seen log (addr, pasid)) as [[j s]|] eqn:E; [|by eexists _, _, false].
  destruct (stamp <=? seen_ts s); [|by eexists _, _, false].
  apply find_seen_Some in E as (Hj & Hs & _). pose proof (ok_slot g log Hok j Hj) as Hslot.
  rewrite Hs in Hslot. destruct Hslot as (_ & _ & ->). cbn [andb orb].
  destruct (negb (nz (expiry s) && ts_after_field field_width (expiry s) ts));
    [by exists g, log, true|by eexists _, _, false].
Qed.

Lemma remove_spec g log addr pasid e : filter_ok g log → page_of (addr, pasid) →
  ∃ g', expire_fault hash_64 g addr pasid e = Some g' ∧ filter_ok g' (ref_remove log addr pasid e).
Proof.
  intros Hok Hw. unfold expire_fault, ref_remove.
  change (amdgpu_gmc_fault_key addr pasid) with (key_of (addr, pasid)).
  change (hash_64 (key_of (addr, pasid)) AMDGPU_GMC_FAULT_HASH_ORDER) with (bucket (addr, pasid)).
  rewrite (chase_spec g log (addr, pasid) 0 Hok Hw). cbn [mbind option_bind].
  destruct (find_seen log (addr, pasid)) as [[j s]|] eqn:E; [|by exists g].
  apply find_seen_Some in E as (Hj & Hs & _). rewrite (proj2 (Z.leb_le _ _)) by
    (pose proof (ok_seen g log Hok j s Hs); lia).
  eexists. split; [done|]. by apply (expire_ok g log j s).
Qed.

Lemma newest_remove log addr pasid e now : newest log now → newest (ref_remove log addr pasid e) now.
Proof.
  intros Hn. unfold ref_remove. destruct (find_seen _ _) as [[j s]|]; [|done].
  intros i t Ht. destruct (decide (i = j)) as [->|].
  - rewrite list_lookup_alter_eq in Ht. destruct (log !! j) eqn:E; simplify_eq/=. by eapply Hn.
  - rewrite list_lookup_alter_ne in Ht by done. by eapply Hn.
Qed.

Lemma history_spec ops ops' : ∀ g log now, filter_ok g log → newest log now → 0 ≤ now →
  good now (ops ++ ops') = true →
  ∃ g' log' now', fault_run hash_64 field_width g ops = Some (g', (ref_run field_width log ops).2) ∧
    filter_ok g' log' ∧ newest log' now' ∧ 0 ≤ now' ∧ good now' ops' = true.
Proof.
  induction ops as [|[p addr pasid ts|addr pasid e] ops IH]; intros g log now Hok Hn Hnow Hgood.
  - by exists g, log, now.
  - simpl in Hgood. rewrite !andb_true_iff in Hgood. destruct Hgood as [[[Hw Ht1] Ht2] Hgood].
    apply page_ok_spec in Hw. cbn [fault_run ref_run].
    destruct (filter_spec g log p addr pasid ts Hok Hw) as (g' & log' & b & -> & -> & Hok' & Hn'); [lia| |].
    { intros i s Hs. specialize (Hn i s Hs). lia. }
    cbn [mbind option_bind].
    destruct (IH g' log' ts Hok' Hn') as (g2 & log2 & now2 & Hg2 & Hrest); [lia|done|].
    rewrite Hg2. cbn [mbind option_bind]. destruct (ref_run field_width log' ops). by exists g2, log2, now2.
  - simpl in Hgood. rewrite andb_true_iff in Hgood. destruct Hgood as [Hw Hgood].
    apply page_ok_spec in Hw. cbn [fault_run ref_run].
    destruct (remove_spec g log addr pasid e Hok Hw) as (g' & -> & Hok'). cbn [mbind option_bind].
    apply (IH g' _ now Hok'); [by apply newest_remove|done|done].
Qed.

Lemma from_zero ops ops' : good 0 (ops ++ ops') = true →
  ∃ g' log' now', fault_run hash_64 field_width gmc_zero ops = Some (g', (ref_run field_width [] ops).2) ∧
    filter_ok g' log' ∧ newest log' now' ∧ 0 ≤ now' ∧ good now' ops' = true.
Proof. intros. apply (history_spec ops ops' gmc_zero [] 0); [apply gmc_zero_ok|by intros i s|done|done]. Qed.

Lemma from_zero_nil ops : good 0 ops = true →
  ∃ g' log', fault_run hash_64 field_width gmc_zero ops = Some (g', (ref_run field_width [] ops).2) ∧
    filter_ok g' log'.
Proof.
  intros H. destruct (from_zero ops []) as (g & log & now & ? & ? & _); [by rewrite app_nil_r|]. by exists g, log.
Qed.

(** The list after a fault that is let through. *)
Lemma ref_filter_false log p addr pasid ts log' : ref_filter field_width log p addr pasid ts = (log', false) →
  log' = mk_seen (addr, pasid) ts (expiry (oldest log)) :: log.
Proof. unfold ref_filter. destruct (_ || _ || _); congruence. Qed.
End Filter.

(** ** Properties *)

(** The filter decides as a list of the last 256 faults would, as long as every fault
    has a later time stamp than the one before (of two faults of a bucket in one tick
    the older is not found again): for any such history of faults of pages, and of
    faults dealt with, the loops over the chains end and each fault is filtered exactly
    when it is stale, when the last 256 are all recent, or when the newest fault of its
    page is recent and the expiry of its slot, which a new fault does not clear
    ([gmc_stale_expiry]), is before it. *)
Theorem gmc_filter_exact (hash_64 : Z → Z → Z) (field_width : Z) (ops : list fault_op)
    (Hhash : ∀ k, 0 ≤ hash_64 k AMDGPU_GMC_FAULT_HASH_ORDER < 256) (Hgood : good 0 ops = true) :
  ∃ g, fault_run hash_64 field_width gmc_zero ops = Some (g, (ref_run field_width [] ops).2).
Proof.
  destruct (from_zero_nil hash_64 field_width Hhash ops Hgood) as (g & _ & Hg & _). by exists g.
Qed.

(** Three pages in one bucket. *)
Definition low_hash (k n : Z) : Z := (k / 65536) `mod` 2.
Definition some_faults : list fault_op :=
  [Fault 0 4096 7 100; Fault 0 8192 7 200; Fault 0 12288 7 300; Fault 0 4096 7 400;
   Remove 4096 7 450; Fault 0 4096 7 500; Fault 0 12288 7 5301].

Lemma gmc_filter_exact_witness : ∃ g,
  fault_run low_hash 48 gmc_zero some_faults = Some (g, [false; false; false; true; false; false]).
Proof.
  destruct (gmc_filter_exact low_hash 48 some_faults) as [g Hg].
  - intros k. unfold low_hash. pose proof (Z.mod_pos_bound (k / 65536) 2 eq_refl). lia.
  - reflexivity.
  - exists g. exact Hg.
Defined.

(** Once all slots hold faults that are not older than [T], nothing is let through. *)
Lemma blocked_step hash_64 fw g T ops (Hhash : ∀ k, 0 ≤ hash_64 k AMDGPU_GMC_FAULT_HASH_ORDER < 256) :
  gmc_wf g → 1 ≤ T → (∀ x, 0 ≤ x < 256 → T ≤ timestamp (fault_at g x)) →
  Forall (λ op, match op with Fault _ _ _ ts => ts ≤ T + 5000 | Remove _ _ _ => True end) ops →
  ∃ g' bs, fault_run hash_64 fw g ops = Some (g', bs) ∧ Forall (λ b, b = true) bs.
Proof.
  intros Hg HT Hall Hops. revert g Hg Hall. induction Hops as [|op ops Hop _ IH]; intros g Hg Hall.
  { by exists g, []. }
  destruct op as [p addr pasid ts|addr pasid e]; cbn [fault_run].
  - assert (amdgpu_gmc_filter_faults hash_64 fw g p addr pasid ts = Some (g, true)) as ->.
    { unfold amdgpu_gmc_filter_faults. destruct (amdgpu_ih_ts_after ts p); [done|].
      pose proof (Hall _ (wf_last g Hg)). unfold AMDGPU_GMC_FAULT_TIMEOUT.
      by rewrite (proj2 (Z.leb_le _ _)) by lia. }
    cbn [mbind option_bind]. destruct (IH g Hg Hall) as (g' & bs & -> & Hbs).
    cbn [mbind option_bind]. exists g', (true :: bs). auto.
  - unfold expire_fault.
    destruct (chase_fuel_total g (idx g (hash_64 (amdgpu_gmc_fault_key addr pasid) AMDGPU_GMC_FAULT_HASH_ORDER)) 0
      (amdgpu_gmc_fault_key addr pasid) Hg (wf_idx g Hg _)) as (r & -> & Hr).
    cbn [mbind option_bind]. destruct r as [y|]; [|by apply IH].
    destruct (Hr y eq_refl) as (Hy & _).
    apply (IH (expire_at g y (wrap 48 e))); [by apply expire_fault_wf|].
    intros x Hx. rewrite fault_at_expire by done. case_decide; by apply Hall.
Qed.

(** C39. The filter compares time stamps as numbers, though the clock has 48 bits:
    once 256 faults with time stamps from [T] on were let through, every later fault
    with a time stamp up to [T + 5000] is filtered, whatever its page, and so is each
    fault after the clock wraps, until it is back at [T]. *)
Theorem gmc_filter_blocked_after_wrap (hash_64 : Z → Z → Z) (field_width T : Z) (pre ops : list fault_op)
    (g : amdgpu_gmc) (bs : list bool)
    (Hhash : ∀ k, 0 ≤ hash_64 k AMDGPU_GMC_FAULT_HASH_ORDER < 256) (Hgood : good 0 pre = true)
    (Hpre : fault_run hash_64 field_width gmc_zero pre = Some (g, bs)) (HT : 1 ≤ T)
    (Hfull : ∀ x, 0 ≤ x < 256 → T ≤ timestamp (fault_at g x))
    (Hlater : Forall (λ op, match op with Fault _ _ _ ts => ts ≤ T + 5000 | Remove _ _ _ => True end) ops) :
  ∃ g' bs', fault_run hash_64 field_width g ops = Some (g', bs') ∧ Forall (λ b, b = true) bs'.
Proof.
  destruct (from_zero_nil hash_64 field_width Hhash pre Hgood) as (g0 & log & Hg & Hok).
  rewrite Hg in Hpre. injection Hpre as -> _. apply ok_wf in Hok.
  by apply (blocked_step hash_64 field_width g T).
Qed.

(** 256 pages, each at the end of a period of the clock. *)
Definition many_faults (t n : Z) : list fault_op :=
  map (λ i, Fault t (4096 * i) 7 (t + 100 * i)) (seqZ 1 n).
Definition before_wrap : list fault_op := many_faults (2 ^ 47) 256.
Definition state_after (fw : Z) (ops : list fault_op) : amdgpu_gmc :=
  match fault_run low_hash fw gmc_zero ops with Some (g, _) => g | None => gmc_zero end.
Definition said_of (fw : Z) (ops : list fault_op) : list bool :=
  match fault_run low_hash fw gmc_zero ops with Some (_, bs) => bs | None => [] end.

Lemma low_hash_range k : 0 ≤ low_hash k AMDGPU_GMC_FAULT_HASH_ORDER < 256.
Proof. unfold low_hash. pose proof (Z.mod_pos_bound (k / 65536) 2 eq_refl). lia. Qed.

Lemma slots_from (g : amdgpu_gmc) T :
  forallb (λ f, T <=? timestamp f) (fault_ring g) && (length (fault_ring g) =? 256)%nat = true →
  ∀ x, 0 ≤ x < 256 → T ≤ timestamp (fault_at g x).
Proof.
  rewrite andb_true_iff, forallb_forall, Nat.eqb_eq. intros [H Hlen] x Hx. unfold fault_at.
  destruct (lookup_lt_is_Some_2 (fault_ring g) (Z.to_nat x)) as [f Hf]; [lia|]. rewrite Hf.
  apply Z.leb_le, H, list_elem_of_In. by eapply list_elem_of_lookup_2.
Qed.

Lemma gmc_filter_blocked_after_wrap_witness :
  good 0 before_wrap = true ∧ ∃ g' bs',
  fault_run low_hash 48 (state_after 48 before_wrap) [Fault 0 4096 9 1000; Fault 0 8192 9 90000] =
    Some (g', bs') ∧ Forall (λ b, b = true) bs'.
Proof.
  split; [vm_compute; reflexivity|].
  apply (gmc_filter_blocked_after_wrap low_hash 48 (2 ^ 47) before_wrap _ _ (said_of 48 before_wrap)).
  - exact low_hash_range.
  - vm_compute. reflexivity.
  - vm_compute. reflexivity.
  - lia.
  - apply slots_from. vm_compute. reflexivity.
  - repeat constructor; lia.
Defined.

(** A slot that is used again keeps the time at which its former fault was dealt
    with: a fault let through into such a slot is let through a second time, though
    it is recent and nobody dealt with it. *)
Theorem gmc_stale_expiry (hash_64 : Z → Z → Z) (field_width : Z) (pre : list fault_op)
    (g g1 : amdgpu_gmc) (bs : list bool) (p addr pasid ts p' ts' : Z)
    (Hhash : ∀ k, 0 ≤ hash_64 k AMDGPU_GMC_FAULT_HASH_ORDER < 256)
    (Hgood : good 0 (pre ++ [Fault p addr pasid ts; Fault p' addr pasid ts']) = true)
    (Hpre : fault_run hash_64 field_width gmc_zero pre = Some (g, bs))
    (Hfirst : amdgpu_gmc_filter_faults hash_64 field_width g p addr pasid ts = Some (g1, false))
    (Hkept : timestamp_expiry (fault_at g (last_fault g)) ≠ 0)
    (Hafter : ts_after_field field_width (timestamp_expiry (fault_at g (last_fault g))) ts' = true)
    (Hfresh : amdgpu_ih_ts_after ts' p' = false)
    (Hroom : timestamp (fault_at g1 (last_fault g1)) < Z.max ts' 5001 - 5000) :
  ∃ g2, amdgpu_gmc_filter_faults hash_64 field_width g1 p' addr pasid ts' = Some (g2, false).
Proof.
  destruct (from_zero hash_64 field_width Hhash pre _ Hgood) as (g0 & log & now & Hg & Hok & Hn & Hnow & Hrest).
  rewrite Hg in Hpre. injection Hpre as -> _.
  cbn [good] in Hrest. rewrite !andb_true_iff in Hrest.
  destruct Hrest as [[[Hw Ht1] Ht2] [[[_ Ht3] Ht4] _]]. apply page_ok_spec in Hw.
  destruct (filter_spec hash_64 field_width Hhash g log p addr pasid ts Hok Hw)
    as (g' & log' & b & Hf & Hr & Hok' & Hn'); [lia|intros i s Hs; specialize (Hn i s Hs); lia|].
  rewrite Hfirst in Hf. injection Hf as <- <-. apply ref_filter_false in Hr.
  destruct (filter_spec hash_64 field_width Hhash g1 log' p' addr pasid ts' Hok' Hw)
    as (g2 & log2 & b & Hf & Hr2 & _ & _); [lia|intros i s Hs; specialize (Hn' i s Hs); lia|].
  exists g2. rewrite Hf. do 2 f_equal. unfold ref_filter in Hr2.
  destruct (oldest_slot hash_64 g log Hok) as [_ He]. destruct (oldest_slot hash_64 g1 log' Hok') as [Ho _].
  rewrite He in Hkept, Hafter. rewrite Ho in Hroom.
  assert (find_seen log' (addr, pasid) = Some (0%nat, mk_seen (addr, pasid) ts (expiry (oldest log)))) as Hseen.
  { rewrite Hr. unfold find_seen. simpl. by rewrite decide_True. }
  rewrite Hfresh, Hseen in Hr2. cbn [expiry seen_ts] in Hr2.
  rewrite (proj2 (nz_true _) Hkept), Hafter, andb_false_r in Hr2.
  unfold AMDGPU_GMC_FAULT_TIMEOUT in Hr2. change (5000 + 1) with 5001 in Hr2.
  rewrite (proj2 (Z.leb_gt _ _)) in Hr2 by lia. cbn in Hr2. congruence.
Qed.

(** The first of 256 faults is dealt with, and its slot used again. *)
Definition one_removed : list fault_op :=
  Fault 0 4096 7 100 :: Remove 4096 7 150 :: many_faults 1000 255.

Lemma gmc_stale_expiry_witness : ∃ g2,
  amdgpu_gmc_filter_faults low_hash 48
    (add_fault (state_after 48 one_removed) (amdgpu_gmc_fault_key 8192 9) 0 90000) 0 8192 9 90001 =
    Some (g2, false).
Proof.
  apply (gmc_stale_expiry low_hash 48 one_removed (state_after 48 one_removed) _ (said_of 48 one_removed)
    0 8192 9 90000 0 90001).
  - exact low_hash_range.
  - vm_compute. reflexivity.
  - vm_compute. reflexivity.
  - vm_compute. reflexivity.
  - vm_compute. discriminate.
  - vm_compute. reflexivity.
  - vm_compute. reflexivity.
  - vm_compute. reflexivity.
Defined.
