(* ===== verification/IrqProof.v ===== *)
(** * Interrupt sources: counts

    [IrqSet] is what most sources promise of their [set]: it succeeds and turns the type
    it is given on or off, and nothing else.  Under it the invariant [irq_ok] says that
    the hardware raises the types with a positive count.

    Not all sources of the repository keep that promise:
    [gfx_v9_0_set_cp_ecc_error_state] has two types and turns both on or off whichever
    it is given, and [gmc_v9_0_vm_fault_interrupt_state] leaves the graphics hub alone in
    the s0ix state.  For these the theorems below say nothing. *)

From S2P Require Import Prelude Interrupt IhRing Irq.
#[local] Open Scope Z_scope.
#[local] Open Scope list_scope.

Section Counts.
Context {S K : Type} (funcs : nat → option (irq_src_funcs S K)).
Abbreviation adev := (amdgpu_device S K).
Abbreviation get := (amdgpu_irq_get funcs).
Abbreviation put := (amdgpu_irq_put funcs).
Abbreviation checks := (type_checks funcs).

(** The count of a type, and the types that can be turned on. *)
Definition counted (a : adev) (s : nat) (t : Z) : Z :=
  match srcs a !! s with
  | Some src => default 0 (default [] (enabled_types src) !! Z.to_nat t)
  | None => 0
  end.
Definition usable (a : adev) (s : nat) (t : Z) : Prop := checks a s t = 0 ∧ 0 ≤ t.

(** As many counts as types, in the width of a count. *)
Record counts_ok (a : adev) : Prop := {
  co_length s src ts : srcs a !! s = Some src → enabled_types src = Some ts → Z.of_nat (length ts) = num_types src;
  co_range s t : 0 ≤ counted a s t < 2 ^ 31;
}.

Lemma usable_inv a s t : usable a s t → counts_ok a →
  ∃ src ts set, srcs a !! s = Some src ∧ enabled_types src = Some ts ∧ src_set funcs s = Some set ∧
    installed a = true ∧ 0 ≤ t < num_types src ∧ (Z.to_nat t < length ts)%nat.
Proof.
  intros [H Ht] Hco. unfold type_checks in H. destruct (srcs a !! s) as [src|] eqn:Es; [|done].
  destruct (installed a) eqn:Ei; [|done]. simpl in H. destruct (Z.leb_spec (num_types src) t); [done|].
  destruct (enabled_types src) as [ts|] eqn:Et; [|done]. destruct (src_set funcs s) as [set|] eqn:Ef; [|done].
  exists src, ts, set. pose proof (co_length a Hco s src ts Es Et). split_and!; (done || lia).
Qed.

Lemma enabled_counted a s t : usable a s t → counts_ok a → amdgpu_irq_enabled funcs a s t = nz (counted a s t).
Proof.
  intros Hu Hco. destruct (usable_inv a s t Hu Hco) as (src & ts & set & Es & Et & Ef & Ei & Ht & _).
  unfold amdgpu_irq_enabled, counted. rewrite Es, Et, Ei, Ef. simpl.
  by rewrite (proj2 (Z.leb_gt _ _)) by lia.
Qed.

(** [add_count] changes one count and nothing else. *)
Lemma add_count_spec a s t d : usable a s t → counts_ok a → 0 ≤ counted a s t + d < 2 ^ 31 →
  ∃ m, add_count a s t d = (a <| srcs := m |>, counted a s t + d) ∧
    counts_ok (a <| srcs := m |>) ∧
    (∀ s' t', 0 ≤ t' → counted (a <| srcs := m |>) s' t' =
       counted a s' t' + (if decide (s' = s ∧ t' = t) then d else 0)) ∧
    (∀ s' t', checks (a <| srcs := m |>) s' t' = checks a s' t').
Proof.
  intros Hu Hco Hd. destruct (usable_inv a s t Hu Hco) as (src & ts & set & Es & Et & Ef & Ei & Ht & Hl).
  unfold add_count. rewrite Es, Et. simpl default.
  assert (Hc : counted a s t = default 0 (ts !! Z.to_nat t)) by (unfold counted; by rewrite Es, Et).
  rewrite <- Hc, s32_small by lia.
  set (src' := src <| enabled_types := Some (<[Z.to_nat t:=counted a s t + d]> ts) |>).
  assert (Hcount : ∀ s' n, counted (a <| srcs := <[s := src']> (srcs a) |>) s' n =
    if decide (s' = s ∧ Z.to_nat n = Z.to_nat t) then counted a s t + d else counted a s' n).
  { intros s' n. unfold counted at 1. simpl. destruct (decide (s' = s)) as [->|Hs].
    - rewrite lookup_insert_eq. simpl. destruct (decide (Z.to_nat n = Z.to_nat t)) as [->|Hn].
      + rewrite list_lookup_insert_eq by done. by rewrite decide_True.
      + rewrite list_lookup_insert_ne by done. rewrite decide_False by tauto. unfold counted. by rewrite Es, Et.
    - rewrite lookup_insert_ne by done. rewrite decide_False by tauto. done. }
  exists (<[s := src']> (srcs a)). split_and!.
  - done.
  - split.
    + intros s' q ts'. simpl. destruct (decide (s' = s)) as [->|Hs].
      * rewrite lookup_insert_eq. intros Hq Hts. injection Hq as <-. injection Hts as <-.
        rewrite length_insert. exact (co_length a Hco s src ts Es Et).
      * rewrite lookup_insert_ne by done. apply (co_length a Hco).
    + intros s' n. rewrite Hcount. case_decide; [done|apply (co_range a Hco)].
  - intros s' t' Ht'. rewrite Hcount. destruct (decide (s' = s ∧ t' = t)) as [[-> ->]|Hn].
    + by rewrite decide_True.
    + rewrite decide_False; [lia|]. intros [-> ?]. apply Hn. split; [done|lia].
  - intros s' t'. unfold type_checks. simpl. destruct (decide (s' = s)) as [->|Hs].
    + rewrite lookup_insert_eq, Es. simpl. by rewrite Et.
    + by rewrite lookup_insert_ne by done.
Qed.

(** ** The hardware *)

(** [hw]: the types the hardware raises. *)
Context (hw : S → nat → Z → bool).

Class IrqSet : Prop :=
  irq_set_spec s set (a : adev) t st : src_set funcs s = Some set →
    ∃ r, set a t st = (a <| rest := r |>, 0) ∧
      ∀ s' t', hw r s' t' = if decide (s' = s ∧ t' = t) then st else hw (rest a) s' t'.
Context `{!IrqSet}.

Record irq_ok (a : adev) : Prop := {
  io_counts : counts_ok a;
  io_hw s t : usable a s t → hw (rest a) s t = (0 <? counted a s t);
}.

Lemma counts_ok_rest (a : adev) r : counts_ok a → counts_ok (a <| rest := r |>).
Proof. intros [H1 H2]. split; [exact H1|exact H2]. Qed.

(** The hardware after [amdgpu_irq_update] raises the type if its count is not 0. *)
Lemma update_spec a s t : usable a s t → counts_ok a →
  ∃ r, amdgpu_irq_update funcs a s t = (a <| rest := r |>, 0) ∧
    ∀ s' t', hw r s' t' = if decide (s' = s ∧ t' = t) then 0 <? counted a s t else hw (rest a) s' t'.
Proof.
  intros Hu Hco. destruct (usable_inv a s t Hu Hco) as (src & ts & set & _ & _ & Hf & _).
  unfold amdgpu_irq_update. rewrite (enabled_counted a s t Hu Hco), Hf.
  destruct (irq_set_spec s set a t (nz (counted a s t)) Hf) as (r & -> & Hr). exists r. split; [done|].
  intros s' t'. rewrite Hr. case_decide; [|done]. pose proof (co_range a Hco s t).
  unfold nz. destruct (Z.eqb_spec (counted a s t) 0), (Z.ltb_spec 0 (counted a s t)); simpl; (done || lia).
Qed.

(** What a call does to the counts: by [d] for the type of a call that succeeds. *)
Definition moved (a a' : adev) (s : nat) (t d : Z) : Prop :=
  irq_ok a' ∧ (∀ s' t', checks a' s' t' = checks a s' t') ∧
  ∀ s' t', 0 ≤ t' → counted a' s' t' = counted a s' t' + (if decide (s' = s ∧ t' = t) then d else 0).

Lemma call_moved_refl a s t : irq_ok a → moved a a s t 0.
Proof. intros Hok. split; [done|]. split; [done|]. intros. case_decide; lia. Qed.

(** A count that stays positive, or that the hardware is told of. *)
Lemma counted_move a s t d a1 n : usable a s t → irq_ok a → 0 ≤ counted a s t + d < 2 ^ 31 →
  add_count a s t d = (a1, n) → n = counted a s t + d ∧
  (∀ r, (∀ s' t', hw r s' t' = if decide (s' = s ∧ t' = t) then 0 <? n else hw (rest a) s' t') →
    moved a (a1 <| rest := r |>) s t d) ∧
  rest a1 = rest a ∧ usable a1 s t ∧ counts_ok a1 ∧ counted a1 s t = n.
Proof.
  intros Hu [Hco Hhw] Hd E. destruct (add_count_spec a s t d Hu Hco Hd) as (m & E' & Hco1 & Hcnt & Hchk).
  rewrite E' in E. injection E as <- <-. split; [done|].
  assert (Hst : counted (a <| srcs := m |>) s t = counted a s t + d).
  { rewrite Hcnt by apply Hu. by rewrite decide_True. }
  split_and!; [|done|split; [rewrite Hchk; apply Hu|apply Hu]|done|done].
  intros r Hr. split_and!; [|exact Hchk|exact Hcnt].
  split; [by apply counts_ok_rest|]. intros s' t' Hu'.
  change (hw r s' t' = (0 <? counted (a <| srcs := m |>) s' t')). rewrite Hr, Hcnt by apply Hu'.
  case_decide as Hst'; [destruct Hst' as [-> ->]; done|]. rewrite Z.add_0_r. apply Hhw.
  destruct Hu' as [Hu1 Hu2]. split; [|done]. rewrite <- Hu1. symmetry. exact (Hchk s' t').
Qed.

Lemma get_spec a s t : irq_ok a → 0 ≤ t → counted a s t + 1 < 2 ^ 31 →
  ∃ a', get a s t = (a', checks a s t) ∧ moved a a' s t (if nz (checks a s t) then 0 else 1).
Proof.
  intros Hok Ht Hmax. unfold amdgpu_irq_get.
  destruct (nz (checks a s t)) eqn:Ec; [exists a; split; [done|by apply call_moved_refl]|].
  apply nz_false in Ec. assert (Hu : usable a s t) by done. rewrite Ec.
  destruct (add_count a s t 1) as [a1 n] eqn:E.
  pose proof (co_range a (io_counts a Hok) s t) as Hrange.
  destruct (counted_move a s t 1 a1 n Hu Hok ltac:(lia) E) as (-> & Hm & Hrest & Hu1 & Hco1 & Hn).
  destruct (Z.eqb_spec (counted a s t + 1) 1) as [H1|H1].
  - destruct (update_spec a1 s t Hu1 Hco1) as (r & -> & Hr). eexists. split; [done|].
    apply Hm. intros s' t'. by rewrite Hr, Hn, Hrest.
  - exists a1. split; [done|]. replace a1 with (a1 <| rest := rest a1 |>) by by destruct a1.
    apply Hm. intros s' t'. rewrite Hrest. case_decide as Heq; [destruct Heq as [-> ->]|done].
    rewrite (io_hw a Hok s t Hu). destruct (Z.ltb_spec 0 (counted a s t)), (Z.ltb_spec 0 (counted a s t + 1)); lia.
Qed.

Lemma put_spec a s t : irq_ok a → 0 ≤ t →
  let r := if nz (checks a s t) then checks a s t else if counted a s t =? 0 then -EINVAL else 0 in
  ∃ a', put a s t = (a', r) ∧ moved a a' s t (if nz r then 0 else -1).
Proof.
  intros Hok Ht. unfold amdgpu_irq_put.
  destruct (nz (checks a s t)) eqn:Ec; cbv zeta; [exists a; rewrite Ec; split; [done|by apply call_moved_refl]|].
  apply nz_false in Ec. assert (Hu : usable a s t) by done.
  pose proof (io_counts a Hok) as Hco. rewrite (enabled_counted a s t Hu Hco). unfold nz at 1. rewrite negb_involutive.
  destruct (Z.eqb_spec (counted a s t) 0) as [H0|H0]; [exists a; split; [done|by apply call_moved_refl]|].
  destruct (add_count a s t (-1)) as [a1 n] eqn:E.
  pose proof (co_range a Hco s t) as Hrange.
  destruct (counted_move a s t (-1) a1 n Hu Hok ltac:(lia) E) as (-> & Hm & Hrest & Hu1 & Hco1 & Hn).
  change (nz 0) with false. cbv iota.
  destruct (Z.eqb_spec (counted a s t + -1) 0) as [H1|H1].
  - destruct (update_spec a1 s t Hu1 Hco1) as (r & -> & Hr). eexists. split; [done|].
    apply Hm. intros s' t'. by rewrite Hr, Hn, Hrest.
  - exists a1. split; [done|]. replace a1 with (a1 <| rest := rest a1 |>) by by destruct a1.
    apply Hm. intros s' t'. rewrite Hrest. case_decide as Heq; [destruct Heq as [-> ->]|done].
    rewrite (io_hw a Hok s t Hu).
    destruct (Z.ltb_spec 0 (counted a s t)), (Z.ltb_spec 0 (counted a s t + -1)); lia.
Qed.

(** ** Histories *)

Inductive irq_call := Get (s : nat) (t : Z) | Put (s : nat) (t : Z).

(** The results of the calls. *)
Fixpoint irq_calls (a : adev) (l : list irq_call) : adev * list Z :=
  match l with
  | [] => (a, [])
  | c :: l =>
      let '(a, r) := match c with Get s t => get a s t | Put s t => put a s t end in
      let '(a, rs) := irq_calls a l in
      (a, r :: rs)
  end.

(** The gets of a type that succeeded, less the puts. *)
Fixpoint balance (s : nat) (t : Z) (l : list irq_call) (rs : list Z) : Z :=
  match l, rs with
  | c :: l, r :: rs =>
      (if nz r then 0
       else match c with
            | Get s' t' => if decide (s = s' ∧ t = t') then 1 else 0
            | Put s' t' => if decide (s = s' ∧ t = t') then -1 else 0
            end) + balance s t l rs
  | _, _ => 0
  end.
Definition call_type (c : irq_call) : Z := match c with Get _ t | Put _ t => t end.

Lemma irq_calls_spec l : ∀ a, irq_ok a → Forall (λ c, 0 ≤ call_type c) l →
  (∀ s t, 0 ≤ t → counted a s t + Z.of_nat (length l) < 2 ^ 31) →
  ∃ a' rs, irq_calls a l = (a', rs) ∧ irq_ok a' ∧ (∀ s t, checks a' s t = checks a s t) ∧
    ∀ s t, 0 ≤ t → counted a' s t = counted a s t + balance s t l rs.
Proof.
  induction l as [|c l IH]; intros a Hok Hl Hmax.
  { exists a, []. split_and!; try done. intros. simpl. lia. }
  apply Forall_cons in Hl as [Hc Hl]. cbn [irq_calls].
  assert (Hstep : ∃ a' r, (match c with Get s t => get a s t | Put s t => put a s t end) = (a', r) ∧
    irq_ok a' ∧ (∀ s t, checks a' s t = checks a s t) ∧
    ∀ s t, 0 ≤ t → counted a' s t = counted a s t + balance s t [c] [r]).
  { assert (Hmoved : ∀ a' s t d, moved a a' s t d → irq_ok a' ∧ (∀ s t, checks a' s t = checks a s t) ∧
      ∀ s' t', 0 ≤ t' → counted a' s' t' = counted a s' t' + (if decide (s' = s ∧ t' = t) then d else 0)) by done.
    destruct c as [s t|s t]; simpl in Hc.
    - destruct (get_spec a s t Hok Hc) as (a' & -> & Hm).
      { specialize (Hmax s t Hc). simpl in Hmax. lia. }
      destruct (Hmoved _ _ _ _ Hm) as (H1 & H2 & H3). exists a', (checks a s t). split_and!; [done..|].
      intros s' t' Ht'. rewrite H3 by done. simpl. destruct (nz _), (decide _); lia.
    - destruct (put_spec a s t Hok Hc) as (a' & -> & Hm).
      destruct (Hmoved _ _ _ _ Hm) as (H1 & H2 & H3). eexists a', _. split_and!; [done..|].
      intros s' t' Ht'. rewrite H3 by done. cbn [balance]. destruct (nz _), (decide _); lia. }
  destruct Hstep as (a1 & r & -> & Hok1 & Hchk & Hcnt).
  destruct (IH a1 Hok1 Hl) as (a2 & rs & -> & Hok2 & Hchk2 & Hcnt2).
  { intros s t Ht. rewrite Hcnt by done. specialize (Hmax s t Ht).
    assert (balance s t [c] [r] ≤ 1).
    { simpl. destruct (nz r); [lia|]. destruct c; case_decide; lia. }
    simpl length in Hmax. lia. }
  exists a2, (r :: rs). split_and!; [done|done|intros s t; by rewrite Hchk2|].
  intros s t Ht. rewrite Hcnt2, Hcnt by done. simpl. lia.
Qed.
(** ** All sources at once *)

Definition touched (a : adev) (s : nat) (t : Z) : bool :=
  match srcs a !! s, src_set funcs s with
  | Some src, Some _ => (0 <=? t) && (t <? num_types src)
  | _, _ => false
  end.

Lemma usable_touched a s t : counts_ok a → usable a s t → touched a s t = true.
Proof.
  intros Hco Hu. destruct (usable_inv a s t Hu Hco) as (src & ts & set & Es & _ & Ef & _ & Ht & _).
  unfold touched. rewrite Es, Ef. apply andb_true_iff. lia.
Qed.

Lemma set_rest (a : adev) r r' : a <| rest := r |> <| rest := r' |> = a <| rest := r' |>.
Proof. done. Qed.

(** A loop that sets types to what [b] says. *)
Lemma each_type_spec (f : adev → nat → Z → adev) (b : nat → Z → bool) (a : adev) :
  (∀ r s t, touched a s t = true → ∃ r', f (a <| rest := r |>) s t = a <| rest := r' |> ∧
     ∀ s' t', hw r' s' t' = if decide (s' = s ∧ t' = t) then b s t else hw r s' t') →
  ∃ r, each_type funcs f a = a <| rest := r |> ∧
    ∀ s t, hw r s t = if decide (s ∈ all_sources a ∧ touched a s t = true) then b s t else hw (rest a) s t.
Proof.
  intros Hf. unfold each_type.
  assert (Hinner : ∀ s ks r, Forall (λ k, touched a s k = true) ks →
    ∃ r', foldl (λ a k, f a s k) (a <| rest := r |>) ks = a <| rest := r' |> ∧
      ∀ s' t', hw r' s' t' = if decide (s' = s ∧ t' ∈ ks) then b s t' else hw r s' t').
  { intros s ks. induction ks as [|k ks IH]; intros r Hks; cbn [foldl].
    { exists r. split; [done|]. intros. rewrite decide_False; [done|]. set_solver. }
    apply Forall_cons in Hks as [Hk Hks]. destruct (Hf r s k Hk) as (r1 & -> & H1).
    destruct (IH r1 Hks) as (r2 & -> & H2). exists r2. split; [done|]. intros s' t'. rewrite H2, H1.
    repeat case_decide; try done; try set_solver. }
  assert (Houter : ∀ l r, ∃ r',
    foldl (λ a source, match srcs a !! source, src_set funcs source with
      | Some src, Some _ => foldl (λ a k, f a source k) a (seqZ 0 (num_types src)) | _, _ => a end)
      (a <| rest := r |>) l = a <| rest := r' |> ∧
    ∀ s t, hw r' s t = if decide (s ∈ l ∧ touched a s t = true) then b s t else hw r s t).
  { induction l as [|s l IH]; intros r; cbn [foldl].
    { exists r. split; [done|]. intros. rewrite decide_False; [done|]. set_solver. }
    assert (Hs : ∃ r1, match srcs a !! s, src_set funcs s with
      | Some src, Some _ => foldl (λ a k, f a s k) (a <| rest := r |>) (seqZ 0 (num_types src))
      | _, _ => a <| rest := r |> end = a <| rest := r1 |> ∧
      ∀ s' t', hw r1 s' t' = if decide (s' = s ∧ touched a s t' = true) then b s t' else hw r s' t').
    { assert (Hno : (∀ t', touched a s t' = false) → ∀ s' t',
        hw r s' t' = if decide (s' = s ∧ touched a s t' = true) then b s t' else hw r s' t').
      { intros Hn s' t'. rewrite decide_False; [done|]. rewrite Hn. by intros [_ ?]. }
      destruct (srcs a !! s) as [src|] eqn:Es; [|exists r; split; [done|apply Hno; intros; unfold touched; by rewrite Es]].
      destruct (src_set funcs s) as [set|] eqn:Ef;
        [|exists r; split; [done|apply Hno; intros; unfold touched; by rewrite Es, Ef]].
      assert (Ht : ∀ t, touched a s t = true ↔ 0 ≤ t < num_types src).
      { intros t. unfold touched. rewrite Es, Ef, andb_true_iff. lia. }
      destruct (Hinner s (seqZ 0 (num_types src)) r) as (r1 & E1 & H1).
      { apply Forall_forall. intros k Hk. apply elem_of_seqZ in Hk. apply Ht. lia. }
      exists r1. split; [exact E1|]. intros s' t'. rewrite H1. apply decide_ext.
      rewrite elem_of_seqZ, Ht. split; intros [??]; split; (done || lia). }
    destruct Hs as (r1 & E1 & H1). change (srcs (a <| rest := r |>)) with (srcs a). rewrite E1.
    destruct (IH r1) as (r2 & E2 & H2). exists r2. split; [exact E2|]. intros s' t'. rewrite H2, H1.
    repeat case_decide; try done; destruct_and?; subst; try set_solver. }
  destruct (Houter (all_sources a) (rest a)) as (r & E & Hr). exists r. split; [|exact Hr].
  rewrite <- E. by replace (a <| rest := rest a |>) with a by by destruct a.
Qed.

Lemma touched_set a s t : touched a s t = true → ∃ set, src_set funcs s = Some set.
Proof. unfold touched. destruct (srcs a !! s), (src_set funcs s); [eauto|done..]. Qed.

Lemma disable_all_spec a : ∃ r, amdgpu_irq_disable_all funcs a = a <| rest := r |> ∧
  ∀ s t, hw r s t = if decide (s ∈ all_sources a ∧ touched a s t = true) then false else hw (rest a) s t.
Proof.
  apply (each_type_spec _ (λ _ _, false)). intros r s t Ht. destruct (touched_set a s t Ht) as [set Hs]. rewrite Hs.
  destruct (irq_set_spec s set (a <| rest := r |>) t false Hs) as (r' & -> & Hr). by exists r'.
Qed.

Lemma resume_spec a : ∃ r, amdgpu_irq_gpu_reset_resume_helper funcs a = a <| rest := r |> ∧
  ∀ s t, hw r s t = if decide (s ∈ all_sources a ∧ touched a s t = true)
                    then amdgpu_irq_enabled funcs a s t else hw (rest a) s t.
Proof.
  apply (each_type_spec _ (amdgpu_irq_enabled funcs a)). intros r s t Ht.
  destruct (touched_set a s t Ht) as [set Hs]. unfold amdgpu_irq_update. rewrite Hs.
  destruct (irq_set_spec s set (a <| rest := r |>) t (amdgpu_irq_enabled funcs (a <| rest := r |>) s t) Hs)
    as (r' & -> & Hr). by exists r'.
Qed.

(** ** Properties *)

(** Interrupt types of sources that keep [IrqSet] are reference counted.  Starting with
    no count and nothing raised, whatever calls of [amdgpu_irq_get] and [amdgpu_irq_put] are made (fewer
    than the width of a count allows), the count of each type is the number of gets
    that succeeded less the puts, the hardware raises exactly the types with a
    positive count, and a put is refused exactly when there is nothing to put. *)
Theorem irq_refcount (a : adev) (l : list irq_call)
    (Hco : counts_ok a) (Hzero : ∀ s t, 0 ≤ t → counted a s t = 0)
    (Hoff : ∀ s t, usable a s t → hw (rest a) s t = false)
    (Hl : Forall (λ c, 0 ≤ call_type c) l) (Hmany : Z.of_nat (length l) < 2 ^ 31) :
  ∃ a' rs, irq_calls a l = (a', rs) ∧ ∀ s t, usable a s t →
    0 ≤ balance s t l rs ∧ counted a' s t = balance s t l rs ∧
    hw (rest a') s t = (0 <? balance s t l rs) ∧
    (put a' s t).2 = (if balance s t l rs =? 0 then -EINVAL else 0).
Proof.
  assert (Hok : irq_ok a).
  { split; [done|]. intros s t Hu. rewrite Hoff by done. rewrite Hzero by apply Hu. done. }
  destruct (irq_calls_spec l a Hok Hl) as (a' & rs & E & Hok' & Hchk & Hcnt).
  { intros s t Ht. rewrite Hzero by done. lia. }
  exists a', rs. split; [done|]. intros s t Hu.
  assert (Hu' : usable a' s t) by (split; [rewrite Hchk; apply Hu|apply Hu]).
  pose proof (Hcnt s t (proj2 Hu)) as Hc. rewrite Hzero, Z.add_0_l in Hc by apply Hu.
  pose proof (co_range a' (io_counts a' Hok') s t). rewrite <- Hc. split_and!; [lia|done|by apply io_hw|].
  destruct (put_spec a' s t Hok' (proj2 Hu)) as (a2 & -> & _). cbn [snd]. by rewrite (proj1 Hu').
Qed.

(** Turning all interrupts off and resuming after a reset restores what was on.
    With the counts and the hardware in step, [amdgpu_irq_disable_all] turns off every
    type of every source in the tables, and whatever state the reset leaves the
    hardware in, [amdgpu_irq_gpu_reset_resume_helper] then brings it back to what it
    was, the counts untouched. *)
Theorem irq_reset_restores (a : adev) (lost : S) (Hok : irq_ok a) :
  let off := amdgpu_irq_disable_all funcs a in
  let back := amdgpu_irq_gpu_reset_resume_helper funcs (off <| rest := lost |>) in
  srcs back = srcs a ∧ client back = client a ∧
  ∀ s t, s ∈ all_sources a → usable a s t →
    hw (rest off) s t = false ∧ hw (rest back) s t = hw (rest a) s t.
Proof.
  cbv zeta. destruct (disable_all_spec a) as (r & -> & Hr).
  destruct (resume_spec (a <| rest := r |> <| rest := lost |>)) as (r' & -> & Hr').
  split; [done|]. split; [done|]. intros s t Hs Hu.
  pose proof (usable_touched a s t (io_counts a Hok) Hu) as Ht. split.
  - change (hw r s t = false). rewrite Hr. by rewrite decide_True.
  - change (hw r' s t = hw (rest a) s t). rewrite Hr'. rewrite decide_True by (split; [exact Hs|exact Ht]).
    change (amdgpu_irq_enabled funcs (a <| rest := r |> <| rest := lost |>) s t) with (amdgpu_irq_enabled funcs a s t).
    rewrite (enabled_counted a s t Hu (io_counts a Hok)), (io_hw a Hok s t Hu).
    pose proof (co_range a (io_counts a Hok) s t). unfold nz.
    destruct (Z.eqb_spec (counted a s t) 0), (Z.ltb_spec 0 (counted a s t)); simpl; (done || lia).
Qed.
End Counts.

(** ** A device with two sources *)

(** The hardware raises the types of a set; source 1 has two types. *)
Module Demo.
Definition hardware (r : gset (nat * Z)) (s : nat) (t : Z) : bool := bool_decide ((s, t) ∈ r).
Definition program (s : nat) (a : amdgpu_device (gset (nat * Z)) unit) (t : Z) (on : bool) :=
  (a <| rest := if on then {[(s, t)]} ∪ rest a else rest a ∖ {[(s, t)]} |>, 0).
Definition funcs (s : nat) : option (irq_src_funcs (gset (nat * Z)) unit) :=
  match s with
  | 0%nat | 1%nat => Some (mk_src_funcs (Some (program s)) (λ a _ _ _, (a, 0)))
  | _ => None
  end.
#[global] Instance hardware_set : IrqSet funcs hardware.
Proof.
  intros s set a t st Hs. assert (set = program s) as ->.
  { destruct s as [|[|s]]; unfold src_set in Hs; simpl in Hs; congruence. }
  unfold program. eexists. split; [done|]. intros s' t'. unfold hardware. cbn [rest].
  destruct st; repeat case_decide; try apply bool_decide_ext; set_solver.
Qed.

Definition no_ring : amdgpu_ih_ring := mk_ih 0 0 false true None 0 0 0 0 0 false 0 0 0 0 O.
(** As [amdgpu_irq_add_id] leaves it. *)
Definition board (on : gset (nat * Z)) (c : Z) : amdgpu_device (gset (nat * Z)) unit :=
  mk_adev no_ring no_ring no_ring no_ring false false false true false
    {[0 := {[7 := 0%nat; 8 := 1%nat]}]} {[0%nat := mk_src 1 (Some [0]); 1%nat := mk_src 2 (Some [0; c])]} ∅ None on.

Lemma board_counted on c s t : counted (board on c) s t = if decide (s = 1%nat ∧ Z.to_nat t = 1%nat) then c else 0.
Proof.
  unfold counted, board. cbn [srcs]. destruct (decide _) as [[-> Ht]|Hn].
  - rewrite lookup_insert_ne, lookup_singleton_eq by done. cbn [enabled_types default]. by rewrite Ht.
  - destruct s as [|[|s]].
    + rewrite lookup_insert_eq. cbn [enabled_types default]. by destruct (Z.to_nat t).
    + rewrite lookup_insert_ne, lookup_singleton_eq by done. cbn [enabled_types default].
      destruct (Z.to_nat t) as [|[|n]]; [done| |done]. by destruct Hn.
    + by rewrite lookup_insert_ne, lookup_singleton_ne by done.
Qed.

Lemma board_ok on c : 0 ≤ c < 2 ^ 31 → counts_ok (board on c).
Proof.
  intros Hc. split.
  - intros s src ts. unfold board. cbn [srcs]. destruct s as [|[|s]].
    + rewrite lookup_insert_eq. by intros [= <-] [= <-].
    + rewrite lookup_insert_ne, lookup_singleton_eq by done. by intros [= <-] [= <-].
    + by rewrite lookup_insert_ne, lookup_singleton_ne by done.
  - intros s t. rewrite board_counted. case_decide; lia.
Qed.
End Demo.

Lemma irq_refcount_witness : ∃ a' rs,
  irq_calls Demo.funcs (Demo.board ∅ 0) [Put 1 1; Get 1 1; Get 1 1; Put 1 1; Get 0 5] = (a', rs) ∧
  rs = [-EINVAL; 0; 0; 0; -EINVAL] ∧ Demo.hardware (rest a') 1 1 = true ∧ Demo.hardware (rest a') 0 0 = false.
Proof.
  destruct (irq_refcount Demo.funcs Demo.hardware (Demo.board ∅ 0)
    [Put 1 1; Get 1 1; Get 1 1; Put 1 1; Get 0 5]) as (a' & rs & E & H).
  - by apply Demo.board_ok.
  - intros s t _. rewrite Demo.board_counted. by case_decide.
  - intros s t _. reflexivity.
  - repeat constructor; simpl; lia.
  - simpl. lia.
  - exists a', rs. split; [exact E|].
    assert (Hrs : rs = [-EINVAL; 0; 0; 0; -EINVAL]) by (apply (f_equal snd) in E; by vm_compute in E).
    subst rs. split; [reflexivity|].
    destruct (H 1%nat 1) as (_ & _ & H11 & _); [split; [reflexivity|lia]|].
    destruct (H 0%nat 0) as (_ & _ & H00 & _); [split; [reflexivity|lia]|].
    split; [exact H11|exact H00].
Defined.

Lemma irq_reset_restores_witness :
  let a := Demo.board {[(1%nat, 1)]} 3 in
  let back := amdgpu_irq_gpu_reset_resume_helper Demo.funcs ((amdgpu_irq_disable_all Demo.funcs a) <| rest := {[(0%nat, 0)]} |>) in
  Demo.hardware (rest back) 1 1 = true ∧ Demo.hardware (rest back) 0 0 = false.
Proof.
  cbv zeta.
  assert (Hok : irq_ok Demo.funcs Demo.hardware (Demo.board {[(1%nat, 1)]} 3)).
  { split; [by apply Demo.board_ok|]. intros s t Hu. rewrite Demo.board_counted. unfold Demo.hardware.
    pose proof (proj2 Hu). cbn [rest Demo.board].
    case_decide as Heq; [destruct Heq as [-> Ht]; assert (t = 1) as -> by lia; reflexivity|].
    apply bool_decide_eq_false. intros Hin. apply elem_of_singleton in Hin as [= -> ->]. by apply Heq. }
  destruct (irq_reset_restores Demo.funcs Demo.hardware (Demo.board {[(1%nat, 1)]} 3) {[(0%nat, 0)]} Hok)
    as (_ & _ & H).
  assert (Hall : all_sources (Demo.board {[(1%nat, 1)]} 3) = [0; 1]%nat) by (vm_compute; reflexivity).
  destruct (H 1%nat 1) as (_ & ->); [rewrite Hall; repeat constructor|split; [reflexivity|lia]|].
  destruct (H 0%nat 0) as (_ & ->); [rewrite Hall; repeat constructor|split; [reflexivity|lia]|].
  split; reflexivity.
Defined.

(** A get that fails leaves its count.  When the [set] of a source fails for the
    first user of a type, [amdgpu_irq_get] gives the error, but the next get finds the
    count at 1, succeeds without trying again, and leaves the type off. *)
Theorem irq_get_error_sticks {S K} (funcs : nat → option (irq_src_funcs S K)) (a : amdgpu_device S K)
    (s : nat) (t r : Z) (set : amdgpu_device S K → Z → bool → amdgpu_device S K * Z)
    (Hco : counts_ok a) (Hu : usable funcs a s t) (Hzero : counted a s t = 0)
    (Hset : src_set funcs s = Some set) (Hfails : ∀ b, set b t true = (b, r)) :
  ∃ a1 a2, amdgpu_irq_get funcs a s t = (a1, r) ∧ amdgpu_irq_get funcs a1 s t = (a2, 0) ∧
    rest a2 = rest a ∧ counted a2 s t = 2.
Proof.
  destruct (add_count_spec funcs a s t 1 Hu Hco) as (m & E1 & Hco1 & Hcnt1 & Hchk1); [lia|].
  set (a1 := a <| srcs := m |>) in *.
  assert (Hc1 : counted a1 s t = 1) by (rewrite Hcnt1 by apply Hu; rewrite decide_True by done; lia).
  assert (Hu1 : usable funcs a1 s t) by (split; [rewrite Hchk1; apply Hu|apply Hu]).
  destruct (add_count_spec funcs a1 s t 1 Hu1 Hco1) as (m' & E2 & Hco2 & Hcnt2 & _); [lia|].
  exists a1, (a1 <| srcs := m' |>). split_and!.
  - unfold amdgpu_irq_get. rewrite (proj1 Hu), E1, Hzero. cbn. unfold amdgpu_irq_update. rewrite Hset.
    rewrite (enabled_counted funcs a1 s t Hu1 Hco1), Hc1. apply Hfails.
  - unfold amdgpu_irq_get. by rewrite (proj1 Hu1), E2, Hc1.
  - done.
  - rewrite Hcnt2 by apply Hu. rewrite decide_True by done. lia.
Qed.

Lemma irq_get_error_sticks_witness :
  let funcs (s : nat) : option (irq_src_funcs (gset (nat * Z)) unit) :=
    Some (mk_src_funcs (Some (λ a _ _, (a, -ETIMEDOUT))) (λ a _ _ _, (a, 0))) in
  ∃ a1 a2, amdgpu_irq_get funcs (Demo.board ∅ 0) 1 1 = (a1, -ETIMEDOUT) ∧ amdgpu_irq_get funcs a1 1 1 = (a2, 0) ∧
    rest a2 = ∅ ∧ counted a2 1 1 = 2.
Proof.
  cbv zeta. apply (irq_get_error_sticks _ (Demo.board ∅ 0) 1%nat 1 (-ETIMEDOUT) (λ a _ _, (a, -ETIMEDOUT))).
  - by apply Demo.board_ok.
  - split; [reflexivity|lia].
  - by rewrite Demo.board_counted.
  - reflexivity.
  - intros b. reflexivity.
Defined.
