(* ===== verification/Svm.v ===== *)
(** * Shared virtual memory

    The ranges of [kfd_svm.c]: a process' address space, in pages, is covered by
    ranges with attributes, physical addresses for each GPU and a place in video
    memory.  Setting attributes clones and splits ranges in a transaction
    ([svm_range_add], the first half of [svm_range_set_attr]); an unmapping by the CPU
    splits them at once and leaves the tables to deferred work.

    Ranges are objects: [ranges] is the heap, lists hold their identities, and
    following a pointer to no object is [None].  The interval tree is the list of its
    nodes by start; an iteration gives the next that overlaps.  Migration, validation
    and mapping, the second half of [svm_range_set_attr], and the page tables of the GPUs
    are left out.  The constants of the user interface header, which is not in the
    repository, are parameters. *)

From S2P Require Import Prelude.

Definition MAX_GPU_INSTANCE : Z := 64.
Definition PAGE_SHIFT : Z := 12.
Definition SVM_RANGE_VRAM_DOMAIN : Z := 1.
Definition EADDRINUSE : Z := 98.

(** ** State *)

Inductive svm_work_list_ops :=
  | SVM_OP_NULL
  | SVM_OP_UNMAP_RANGE
  | SVM_OP_UPDATE_RANGE_NOTIFIER
  | SVM_OP_UPDATE_RANGE_NOTIFIER_AND_MAP
  | SVM_OP_ADD_RANGE
  | SVM_OP_ADD_RANGE_AND_MAP.
#[export] Instance svm_op_eq_dec : EqDecision svm_work_list_ops.
Proof. solve_decision. Defined.

(** [it_node] and [notifier] are the pages from which and to which they reach, 0 and 0
    before they are set; [dma_addr] has an entry for each GPU. *)
Record svm_range := mk_range {
  start : Z;
  last : Z;
  npages : Z;
  vram_pages : Z;
  dma_addr : list (option (list Z));
  ttm_res : option nat;
  offset : Z;
  svm_bo : option nat;
  flags : Z;
  preferred_loc : Z;
  prefetch_loc : Z;
  actual_loc : Z;
  granularity : Z;
  bitmap_access : Z;
  bitmap_aip : Z;
  mapped_to_gpu : bool;
  it_node : Z * Z;
  notifier : Z * Z;
  work_op : svm_work_list_ops;
  child_list : list nat;
}.
#[export] Instance eta_range : Eta svm_range := λ r,
  mk_range (start r) (last r) (npages r) (vram_pages r) (dma_addr r) (ttm_res r) (offset r) (svm_bo r)
    (flags r) (preferred_loc r) (prefetch_loc r) (actual_loc r) (granularity r) (bitmap_access r)
    (bitmap_aip r) (mapped_to_gpu r) (it_node r) (notifier r) (work_op r) (child_list r).

Record svm_range_bo := mk_bo { kref : Z; range_list : list nat }.
#[export] Instance eta_bo : Eta svm_range_bo := λ b, mk_bo (kref b) (range_list b).

(** [range_ids] is the [list] of the C structure.  [svm_next] is the next identity and
    [asked] counts the requests for memory. *)
Record svm_range_list := mk_svms {
  ranges : gmap nat svm_range;
  bos : gmap nat svm_range_bo;
  range_ids : list nat;
  objects : list nat;
  deferred_range_list : list nat;
  bitmap_supported : Z;
  xnack_enabled : bool;
  system_mem_used : Z;
  svm_next : nat;
  asked : nat;
}.
#[export] Instance eta_svms : Eta svm_range_list := λ s,
  mk_svms (ranges s) (bos s) (range_ids s) (objects s) (deferred_range_list s) (bitmap_supported s)
    (xnack_enabled s) (system_mem_used s) (svm_next s) (asked s).

Inductive svm_attr_type :=
  | ATTR_PREFERRED_LOC | ATTR_PREFETCH_LOC | ATTR_ACCESS | ATTR_ACCESS_IN_PLACE | ATTR_NO_ACCESS
  | ATTR_SET_FLAGS | ATTR_CLR_FLAGS | ATTR_GRANULARITY | ATTR_OTHER.
Record svm_attribute := mk_attr { attr_type : svm_attr_type; value : Z }.
#[export] Instance eta_attr : Eta svm_attribute := λ a, mk_attr (attr_type a) (value a).

Section Svm.
(** [KFD_IOCTL_SVM_LOCATION_SYSMEM], [_UNDEFINED], [KFD_IOCTL_SVM_FLAG_HOST_ACCESS] and
    [_COHERENT]. *)
Context (LOCATION_SYSMEM LOCATION_UNDEFINED FLAG_HOST_ACCESS FLAG_COHERENT : Z).
(** The answers of the memory allocator, the limits of memory, the longest range that
    is made, and the GPUs of the process by their ids ([None] for a null pdd). *)
Context (mem_ok : nat → bool) (no_system_mem_limit : bool) (max_system_mem_limit : Z).
Context (max_svm_range_pages : Z) (pdds : list (option Z)).

(** ** Attributes *)

Definition kfd_process_gpuidx_from_gpuid (gpu_id : Z) : Z :=
  match list_find (λ p, p = Some gpu_id) pdds with
  | Some (i, _) => Z.of_nat i
  | None => -EINVAL
  end.

Definition check_one (supported : Z) (a : svm_attribute) : Z :=
  let val := value a in
  let of_gpu := kfd_process_gpuidx_from_gpuid val in
  let idx :=
    match attr_type a with
    | ATTR_PREFERRED_LOC =>
        Some (if negb (val =? LOCATION_SYSMEM) && negb (val =? LOCATION_UNDEFINED) then of_gpu else MAX_GPU_INSTANCE)
    | ATTR_PREFETCH_LOC => Some (if negb (val =? LOCATION_SYSMEM) then of_gpu else MAX_GPU_INSTANCE)
    | ATTR_ACCESS | ATTR_ACCESS_IN_PLACE | ATTR_NO_ACCESS => Some of_gpu
    | ATTR_SET_FLAGS | ATTR_CLR_FLAGS | ATTR_GRANULARITY => Some MAX_GPU_INSTANCE
    | ATTR_OTHER => None
    end in
  match idx with
  | None => -EINVAL
  | Some gpuidx =>
      if gpuidx <? 0 then -EINVAL
      else if (gpuidx <? MAX_GPU_INSTANCE) && negb (test_bit gpuidx supported) then -EINVAL
      else 0
  end.

Fixpoint svm_range_check_attr (supported : Z) (attrs : list svm_attribute) : Z :=
  match attrs with
  | [] => 0
  | a :: attrs => if nz (check_one supported a) then check_one supported a
                  else svm_range_check_attr supported attrs
  end.

(** The range with an attribute, and whether mappings are to be updated. *)
Definition apply_one (xnack : bool) (r : svm_range) (a : svm_attribute) : svm_range * bool :=
  let v := value a in
  let gpuidx := kfd_process_gpuidx_from_gpuid v in
  match attr_type a with
  | ATTR_PREFERRED_LOC => (r <| preferred_loc := v |>, false)
  | ATTR_PREFETCH_LOC => (r <| prefetch_loc := v |>, false)
  | ATTR_NO_ACCESS =>
      (r <| bitmap_access ::= clear_bit gpuidx |> <| bitmap_aip ::= clear_bit gpuidx |>, negb xnack)
  | ATTR_ACCESS =>
      (r <| bitmap_access ::= set_bit gpuidx |> <| bitmap_aip ::= clear_bit gpuidx |>, negb xnack)
  | ATTR_ACCESS_IN_PLACE =>
      (r <| bitmap_access ::= clear_bit gpuidx |> <| bitmap_aip ::= set_bit gpuidx |>, negb xnack)
  | ATTR_SET_FLAGS => (r <| flags ::= λ f, Z.lor f v |>, true)
  | ATTR_CLR_FLAGS => (r <| flags ::= λ f, Z.ldiff f v |>, true)
  | ATTR_GRANULARITY => (r <| granularity := Z.min v 0x3f |>, false)
  | ATTR_OTHER => (r, false)
  end.

Fixpoint svm_range_apply_attrs (xnack : bool) (r : svm_range) (attrs : list svm_attribute)
    (update_mapping : bool) : svm_range * bool :=
  match attrs with
  | [] => (r, update_mapping)
  | a :: attrs =>
      let '(r, u) := apply_one xnack r a in
      svm_range_apply_attrs xnack r attrs (update_mapping || u)
  end.

Definition same_one (r : svm_range) (a : svm_attribute) : bool :=
  let v := value a in
  let gpuidx := kfd_process_gpuidx_from_gpuid v in
  match attr_type a with
  | ATTR_PREFERRED_LOC => preferred_loc r =? v
  | ATTR_PREFETCH_LOC => false
  | ATTR_NO_ACCESS => negb (test_bit gpuidx (bitmap_access r) || test_bit gpuidx (bitmap_aip r))
  | ATTR_ACCESS => test_bit gpuidx (bitmap_access r)
  | ATTR_ACCESS_IN_PLACE => test_bit gpuidx (bitmap_aip r)
  | ATTR_SET_FLAGS => Z.land (flags r) v =? v
  | ATTR_CLR_FLAGS => Z.land (flags r) v =? 0
  | ATTR_GRANULARITY => granularity r =? v
  | ATTR_OTHER => true
  end.

Definition svm_range_is_same_attrs (r : svm_range) (attrs : list svm_attribute) : bool :=
  forallb (same_one r) attrs.

(** ** Memory *)

Definition get_range (σ : svm_range_list) (id : nat) : option svm_range := ranges σ !! id.
Definition put_range (σ : svm_range_list) (id : nat) (r : svm_range) : svm_range_list :=
  σ <| ranges ::= <[id := r]> |>.
Definition list_del_id (id : nat) (l : list nat) : list nat := filter (λ j, j ≠ id) l.

(** A request for memory. *)
Definition svm_alloc (σ : svm_range_list) : svm_range_list * bool := (σ <| asked ::= S |>, mem_ok (asked σ)).

(** For [KFD_IOC_ALLOC_MEM_FLAGS_USERPTR] and no device, which asks for system memory
    only: the limits of TTM and of video memory are within bounds already. *)
Definition amdgpu_amdkfd_reserve_mem_limit (σ : svm_range_list) (size : Z) : svm_range_list * Z :=
  if (max_system_mem_limit <? system_mem_used σ + size) && negb no_system_mem_limit
  then (σ, -ENOMEM)
  else (σ <| system_mem_used ::= λ u, u + size |>, 0).
Definition amdgpu_amdkfd_unreserve_mem_limit (σ : svm_range_list) (size : Z) : svm_range_list :=
  σ <| system_mem_used ::= λ u, u - size |>.

Definition svm_range_set_default_attributes (r : svm_range) : svm_range :=
  r <| preferred_loc := LOCATION_UNDEFINED |> <| prefetch_loc := LOCATION_UNDEFINED |>
    <| granularity := 9 |> <| flags := Z.lor FLAG_HOST_ACCESS FLAG_COHERENT |>.

Definition range_zero : svm_range :=
  mk_range 0 0 0 0 ((λ _, None) <$> pdds) None 0 None 0 0 0 0 0 0 0 false (0, 0) (0, 0) SVM_OP_NULL [].

Definition svm_range_new (σ : svm_range_list) (start' last' : Z) (update_mem_usage : bool)
    : svm_range_list * option nat :=
  let size := last' - start' + 1 in
  let '(σ, ok) := svm_alloc σ in
  if negb ok then (σ, None) else
  let '(σ, r) := if negb (xnack_enabled σ) && update_mem_usage
                 then amdgpu_amdkfd_reserve_mem_limit σ (Z.shiftl size PAGE_SHIFT) else (σ, 0) in
  if nz r then (σ, None) else
  let prange := range_zero <| npages := size |> <| start := start' |> <| last := last' |>
                  <| bitmap_access := if xnack_enabled σ then bitmap_supported σ else 0 |> in
  let id := svm_next σ in
  (put_range (σ <| svm_next ::= S |>) id (svm_range_set_default_attributes prange), Some id).

(** Video memory: a reference to a buffer object shared by the ranges of its list. *)
Definition svm_range_bo_ref (σ : svm_range_list) (bo : nat) (id : nat) : option svm_range_list :=
  b ← bos σ !! bo;
  Some (σ <| bos ::= <[bo := b <| kref ::= Z.succ |> <| range_list ::= cons id |>]> |>).

(** The last reference takes the object away from the ranges of its list. *)
Fixpoint bo_release_ranges (σ : svm_range_list) (l : list nat) : option svm_range_list :=
  match l with
  | [] => Some σ
  | id :: l => r ← get_range σ id; bo_release_ranges (put_range σ id (r <| svm_bo := None |>)) l
  end.
Definition svm_range_bo_unref (σ : svm_range_list) (bo : option nat) : option svm_range_list :=
  match bo with
  | None => Some σ
  | Some bo =>
      b ← bos σ !! bo;
      if kref b =? 1 then σ ← bo_release_ranges σ (range_list b); Some (σ <| bos ::= delete bo |>)
      else Some (σ <| bos ::= <[bo := b <| kref ::= Z.pred |>]> |>)
  end.
Definition svm_range_vram_node_free (σ : svm_range_list) (id : nat) : option svm_range_list :=
  r ← get_range σ id;
  match ttm_res r with
  | None => Some σ
  | Some _ => svm_range_bo_unref (put_range σ id (r <| ttm_res := None |>)) (svm_bo r)
  end.

Definition range_size (r : svm_range) : Z := Z.shiftl (last r - start r + 1) PAGE_SHIFT.

Definition svm_range_free (σ : svm_range_list) (id : nat) (do_unmap : bool) : option svm_range_list :=
  r ← get_range σ id;
  σ ← svm_range_vram_node_free σ id;
  let σ := if do_unmap && negb (xnack_enabled σ) then amdgpu_amdkfd_unreserve_mem_limit σ (range_size r) else σ in
  Some (σ <| ranges ::= delete id |>).

(** ** Splitting *)

Definition is_vram (a : Z) : bool := nz (Z.land a SVM_RANGE_VRAM_DOMAIN).
Definition svm_range_copy_array (src : list Z) (num_elements offset : Z) : list Z :=
  take (Z.to_nat num_elements) (drop (Z.to_nat offset) src).

(** [svm_range_split_array] for each GPU: the arrays of the new range and of the old one,
    with the number of pages of the new one in video memory ([None] when nobody asks). *)
Fixpoint split_arrays (σ : svm_range_list) (arrays : list (option (list Z)))
    (old_start old_n new_start new_n : Z) (vram : option Z)
    : svm_range_list * list (option (list Z)) * list (option (list Z)) * option Z * Z :=
  match arrays with
  | [] => (σ, [], [], vram, 0)
  | None :: rest =>
      let '(σ, news, olds, vram, r) := split_arrays σ rest old_start old_n new_start new_n vram in
      (σ, None :: news, None :: olds, vram, r)
  | Some pold :: rest =>
      let '(σ, ok) := svm_alloc σ in
      if negb ok then (σ, (λ _, None) <$> arrays, arrays, vram, -ENOMEM) else
      let new := svm_range_copy_array pold new_n (new_start - old_start) in
      let vram := (λ _, Z.of_nat (length (filter (λ a, is_vram a = true) new))) <$> vram in
      let '(σ, ok) := svm_alloc σ in
      if negb ok then (σ, (λ _, None) <$> arrays, arrays, vram, -ENOMEM) else
      let old := svm_range_copy_array pold old_n (if new_start =? old_start then new_n else 0) in
      let '(σ, news, olds, vram, r) := split_arrays σ rest old_start old_n new_start new_n vram in
      (σ, Some new :: news, Some old :: olds, vram, r)
  end.

Definition svm_range_split_pages (σ : svm_range_list) (new old : nat) (start' last' : Z)
    : option (svm_range_list * Z) :=
  n ← get_range σ new; o ← get_range σ old;
  let '(σ, news, olds, vram, r) :=
    split_arrays σ (dma_addr o) (start o) (last' - start' + 1) (start n) (npages n)
      (if nz (actual_loc o) then Some (vram_pages n) else None) in
  let n := n <| dma_addr := news |> <| vram_pages := default (vram_pages n) vram |> in
  let o := o <| dma_addr := olds |> in
  let o := if nz r then o
           else if nz (actual_loc o) then o <| vram_pages ::= λ v, v - vram_pages n |> else o in
  Some (put_range (put_range σ new n) old o, r).

Definition svm_range_split_nodes (σ : svm_range_list) (new old : nat) (start' last' : Z)
    : option svm_range_list :=
  n ← get_range σ new; o ← get_range σ old; bo ← svm_bo o;
  let '(n_off, o_off) :=
    if start n =? start o then (offset o, offset o + npages n)
    else (offset o + (last' - start' + 1), offset o) in
  let σ := put_range σ old (o <| offset := o_off |>) in
  let σ := put_range σ new (n <| offset := n_off |> <| svm_bo := Some bo |> <| ttm_res := ttm_res o |>) in
  svm_range_bo_ref σ bo new.

Definition copy_attrs (from to : svm_range) : svm_range :=
  to <| flags := flags from |> <| preferred_loc := preferred_loc from |>
     <| prefetch_loc := prefetch_loc from |> <| actual_loc := actual_loc from |>
     <| granularity := granularity from |> <| mapped_to_gpu := mapped_to_gpu from |>
     <| bitmap_access := bitmap_access from |> <| bitmap_aip := bitmap_aip from |>.

Definition svm_range_split_adjust (σ : svm_range_list) (new old : nat) (start' last' : Z)
    : option (svm_range_list * Z) :=
  n ← get_range σ new; o ← get_range σ old;
  if (start n <? start o) || (last o <? last n) then Some (σ, -EINVAL) else
  '(σ, r) ← svm_range_split_pages σ new old start' last';
  if nz r then Some (σ, r) else
  let vram := nz (actual_loc o) && bool_decide (is_Some (ttm_res o)) in
  σ ← (if vram then svm_range_split_nodes σ new old start' last' else Some σ);
  n ← get_range σ new; o ← get_range σ old;
  let o := o <| npages := last' - start' + 1 |> <| start := start' |> <| last := last' |> in
  Some (put_range (put_range σ old o) new (copy_attrs o n), 0).

(** The new range is what [start', last'] leaves of the old one; [new0] is what the
    pointer for it held before. *)
Definition svm_range_split (σ : svm_range_list) (id : nat) (start' last' : Z) (new0 : option nat)
    : option (svm_range_list * Z * option nat) :=
  prange ← get_range σ id;
  let old_start := start prange in
  let old_last := last prange in
  if negb (old_start =? start') && negb (old_last =? last') then Some (σ, -EINVAL, new0)
  else if (start' <? old_start) || (old_last <? last') then Some (σ, -EINVAL, new0)
  else
    let '(σ, new) := if old_start =? start' then svm_range_new σ (last' + 1) old_last false
                     else svm_range_new σ old_start (start' - 1) false in
    match new with
    | None => Some (σ, -ENOMEM, None)
    | Some new =>
        '(σ, r) ← svm_range_split_adjust σ new id start' last';
        if nz r then σ ← svm_range_free σ new false; Some (σ, r, None)
        else Some (σ, 0, Some new)
    end.

(** ** Adding *)

Definition align_down (x a : Z) : Z := Z.ldiff x (a - 1).
Definition align_up (x a : Z) : Z := Z.ldiff (x + (a - 1)) (a - 1).
Definition is_aligned (x a : Z) : bool := Z.land x (a - 1) =? 0.

(** The lists of [svm_range_add]. *)
Record add_lists := mk_lists {
  update_list : list nat; insert_list : list nat; remove_list : list nat;
  remap_list : list nat; new_list : list nat }.
#[export] Instance eta_lists : Eta add_lists := λ l,
  mk_lists (update_list l) (insert_list l) (remove_list l) (remap_list l) (new_list l).

Definition svm_range_split_tail (σ : svm_range_list) (ls : add_lists) (id : nat) (new_last : Z)
    : option (svm_range_list * add_lists * Z) :=
  prange ← get_range σ id;
  let last_align_down := align_down (last prange) 512 in
  let start_align := align_up (start prange) 512 in
  let huge_page_mapping := start_align <? last_align_down in
  '(σ, r, tail) ← svm_range_split σ id (start prange) new_last None;
  if nz r then Some (σ, ls, r) else
  tail ← tail; t ← get_range σ tail;
  let ls := ls <| insert_list ::= cons tail |> in
  Some (σ, if huge_page_mapping && (start_align <? start t) && (start t <? last_align_down)
              && negb (is_aligned (start t) 512)
           then ls <| remap_list ::= cons tail |> else ls, 0).

Definition svm_range_split_head (σ : svm_range_list) (ls : add_lists) (id : nat) (new_start : Z)
    : option (svm_range_list * add_lists * Z) :=
  prange ← get_range σ id;
  let last_align_down := align_down (last prange) 512 in
  let start_align := align_up (start prange) 512 in
  let huge_page_mapping := start_align <? last_align_down in
  '(σ, r, head) ← svm_range_split σ id new_start (last prange) None;
  if nz r then Some (σ, ls, r) else
  head ← head; h ← get_range σ head;
  let ls := ls <| insert_list ::= cons head |> in
  Some (σ, if huge_page_mapping && (start_align <? last h + 1) && (last h + 1 <? last_align_down)
              && negb (is_aligned (last h) 512)
           then ls <| remap_list ::= cons head |> else ls, 0).

(** [svm_range_copy_dma_addrs]: the copies, or none when memory runs out. *)
Fixpoint copy_dma_addrs (σ : svm_range_list) (arrays : list (option (list Z))) (n : Z)
    : svm_range_list * option (list (option (list Z))) :=
  match arrays with
  | [] => (σ, Some [])
  | None :: rest =>
      let '(σ, l) := copy_dma_addrs σ rest n in (σ, cons None <$> l)
  | Some src :: rest =>
      let '(σ, ok) := svm_alloc σ in
      if negb ok then (σ, None)
      else let '(σ, l) := copy_dma_addrs σ rest n in (σ, cons (Some (svm_range_copy_array src n 0)) <$> l)
  end.

Definition svm_range_clone (σ : svm_range_list) (old : nat) : option (svm_range_list * option nat) :=
  o ← get_range σ old;
  let '(σ, new) := svm_range_new σ (start o) (last o) false in
  match new with
  | None => Some (σ, None)
  | Some new =>
      let '(σ, arrays) := copy_dma_addrs σ (dma_addr o) (npages o) in
      match arrays with
      | None => σ ← svm_range_free σ new false; Some (σ, None)
      | Some arrays =>
          n ← get_range σ new;
          let n := (copy_attrs o (n <| dma_addr := arrays |>)) <| vram_pages := vram_pages o |> in
          match svm_bo o with
          | None => Some (put_range σ new n, Some new)
          | Some bo =>
              σ ← svm_range_bo_ref σ bo new;
              Some (put_range σ new (n <| ttm_res := ttm_res o |> <| offset := offset o |> <| svm_bo := Some bo |>),
                    Some new)
          end
      end
  end.

(** Ranges that end at multiples of the longest range. *)
Fixpoint split_new_loop (fuel : nat) (σ : svm_range_list) (ls : add_lists) (start' last' max_pages : Z)
    : option (svm_range_list * add_lists * Z) :=
  if last' <? start' then Some (σ, ls, 0) else
  match fuel with
  | O => None
  | S fuel =>
      let l := Z.min last' (align_down (start' + max_pages) max_pages - 1) in
      let '(σ, prange) := svm_range_new σ start' l true in
      match prange with
      | None => Some (σ, ls, -ENOMEM)
      | Some prange =>
          split_new_loop fuel σ (ls <| new_list ::= cons prange |> <| update_list ::= cons prange |>)
            (l + 1) last' max_pages
      end
  end.
Definition svm_range_split_new (σ : svm_range_list) (ls : add_lists) (start' last' : Z)
    : option (svm_range_list * add_lists * Z) :=
  split_new_loop (Z.to_nat (last' - start' + 1)) σ ls start' last' max_svm_range_pages.

(** A node of the tree that overlaps a window. *)
Definition overlaps (r : svm_range) (start' last' : Z) : bool :=
  ((it_node r).1 <=? last') && (start' <=? (it_node r).2).

(** The body of the loop of [svm_range_add] for a node: the part of it that is in the
    request, then the pages before it. *)
Definition update_node (attrs : list svm_attribute) (σ : svm_range_list) (ls : add_lists) (node : nat)
    (start' last' : Z) : option (svm_range_list * add_lists * Z) :=
  prange ← get_range σ node;
  let '(node_start, node_last) := it_node prange in
  if svm_range_is_same_attrs prange attrs && mapped_to_gpu prange then Some (σ, ls, 0)
  else if (node_start <? start') || (last' <? node_last) then
    '(σ, clone) ← svm_range_clone σ node;
    match clone with
    | None => Some (σ, ls, -ENOMEM)
    | Some clone =>
        let ls := ls <| remove_list ::= cons node |> <| insert_list ::= cons clone |>
                     <| update_list ::= cons clone |> in
        '(σ, ls, r) ← (if node_start <? start' then svm_range_split_head σ ls clone start'
                       else Some (σ, ls, 0));
        if nz r then Some (σ, ls, r)
        else if last' <? node_last then svm_range_split_tail σ ls clone last' else Some (σ, ls, 0)
    end
  else Some (σ, ls <| update_list ::= cons node |>, 0).

Definition add_node (attrs : list svm_attribute) (σ : svm_range_list) (ls : add_lists) (node : nat)
    (start' last' : Z) : option (svm_range_list * add_lists * Z) :=
  prange ← get_range σ node;
  let node_start := (it_node prange).1 in
  '(σ, ls, r) ← update_node attrs σ ls node start' last';
  if nz r then Some (σ, ls, r)
  else if start' <? node_start then svm_range_split_new σ ls start' (node_start - 1)
  else Some (σ, ls, 0).

(** The nodes from one on, each the next that overlaps [window, last'] when the one
    before it was looked at; then the pages after the last one. *)
Fixpoint add_nodes (attrs : list svm_attribute) (nodes : list nat) (σ : svm_range_list) (ls : add_lists)
    (window start' last' : Z) : option (svm_range_list * add_lists * Z) :=
  match nodes with
  | [] => if start' <=? last' then svm_range_split_new σ ls start' last' else Some (σ, ls, 0)
  | node :: nodes =>
      prange ← get_range σ node;
      if overlaps prange window last' then
        '(σ, ls, r) ← add_node attrs σ ls node start' last';
        if nz r then Some (σ, ls, r)
        else add_nodes attrs nodes σ ls start' (Z.min (it_node prange).2 last' + 1) last'
      else add_nodes attrs nodes σ ls window start' last'
  end.

Fixpoint free_all (σ : svm_range_list) (l : list nat) (do_unmap : bool) : option svm_range_list :=
  match l with
  | [] => Some σ
  | id :: l => σ ← svm_range_free σ id do_unmap; free_all σ l do_unmap
  end.

Definition svm_range_add (σ : svm_range_list) (start' size : Z) (attrs : list svm_attribute)
    : option (svm_range_list * add_lists * Z) :=
  let last' := start' + size - 1 in
  '(σ, ls, r) ← add_nodes attrs (objects σ) σ (mk_lists [] [] [] [] []) start' start' last';
  if nz r then
    σ ← free_all σ (insert_list ls) false;
    σ ← free_all σ (new_list ls) true;
    Some (σ, ls, r)
  else Some (σ, ls <| insert_list := new_list ls ++ insert_list ls |>, 0).

(** ** Tables *)

Definition it_start (σ : svm_range_list) (id : nat) : Z := default 0 ((λ r, (it_node r).1) <$> get_range σ id).

(** A node goes behind those that do not start after it. *)
Fixpoint insert_node (σ : svm_range_list) (id : nat) (l : list nat) : list nat :=
  match l with
  | [] => [id]
  | j :: l => if it_start σ id <? it_start σ j then id :: j :: l else j :: insert_node σ id l
  end.
Definition interval_tree_insert (σ : svm_range_list) (id : nat) : svm_range_list :=
  σ <| objects ::= insert_node σ id |>.
Definition interval_tree_remove (σ : svm_range_list) (id : nat) : svm_range_list :=
  σ <| objects ::= list_del_id id |>.

Definition svm_range_add_notifier_locked (σ : svm_range_list) (id : nat) : option svm_range_list :=
  r ← get_range σ id;
  Some (put_range σ id (r <| notifier := (start r, start r + npages r - 1) |>)).

Definition svm_range_add_to_svms (σ : svm_range_list) (id : nat) : option svm_range_list :=
  r ← get_range σ id;
  let σ := σ <| range_ids ::= λ l, list_del_id id l ++ [id] |> in
  let σ := put_range σ id (r <| it_node := (start r, last r) |>) in
  Some (interval_tree_insert σ id).

Definition svm_range_unlink (σ : svm_range_list) (id : nat) : option svm_range_list :=
  r ← get_range σ id;
  σ ← (match svm_bo r with
       | None => Some σ
       | Some bo => b ← bos σ !! bo; Some (σ <| bos ::= <[bo := b <| range_list ::= list_del_id id |>]> |>)
       end);
  let σ := σ <| range_ids ::= list_del_id id |> in
  Some (if nz (it_node r).1 && nz (it_node r).2 then interval_tree_remove σ id else σ).

Fixpoint each_id (f : svm_range_list → nat → option svm_range_list) (σ : svm_range_list) (l : list nat)
    : option svm_range_list :=
  match l with
  | [] => Some σ
  | id :: l => σ ← f σ id; each_id f σ l
  end.

(** ** Deferred work *)

Definition svm_range_update_notifier_and_interval_tree (σ : svm_range_list) (id : nat)
    : option svm_range_list :=
  r ← get_range σ id;
  let '(start', last') := notifier r in
  if (start r =? start') && (last r =? last') then Some σ else
  let σ := if nz start' && nz last' then interval_tree_remove σ id else σ in
  let σ := put_range σ id (r <| it_node := (start r, last r) |>) in
  svm_range_add_notifier_locked (interval_tree_insert σ id) id.

Definition svm_range_handle_list_op (σ : svm_range_list) (id : nat) : option svm_range_list :=
  r ← get_range σ id;
  match work_op r with
  | SVM_OP_NULL => Some σ
  | SVM_OP_UNMAP_RANGE => σ ← svm_range_unlink σ id; svm_range_free σ id true
  | SVM_OP_UPDATE_RANGE_NOTIFIER | SVM_OP_UPDATE_RANGE_NOTIFIER_AND_MAP =>
      svm_range_update_notifier_and_interval_tree σ id
  | SVM_OP_ADD_RANGE | SVM_OP_ADD_RANGE_AND_MAP =>
      σ ← svm_range_add_to_svms σ id; svm_range_add_notifier_locked σ id
  end.

(** The children of a range, taken off its list one by one. *)
Fixpoint handle_children (σ : svm_range_list) (id : nat) (children : list nat) : option svm_range_list :=
  match children with
  | [] => Some σ
  | child :: children =>
      r ← get_range σ id;
      σ ← svm_range_handle_list_op (put_range σ id (r <| child_list := children |>)) child;
      handle_children σ id children
  end.

Definition deferred_range (σ : svm_range_list) (id : nat) : option svm_range_list :=
  r ← get_range σ id;
  let σ := σ <| deferred_range_list ::= list_del_id id |> in
  σ ← handle_children σ id (child_list r);
  svm_range_handle_list_op σ id.

Fixpoint deferred_loop (fuel : nat) (σ : svm_range_list) : option svm_range_list :=
  match deferred_range_list σ with
  | [] => Some σ
  | id :: _ =>
      match fuel with
      | O => None
      | S fuel => σ ← deferred_range σ id; deferred_loop fuel σ
      end
  end.
Definition svm_range_deferred_list_work (σ : svm_range_list) : option svm_range_list :=
  deferred_loop (length (deferred_range_list σ)) σ.

(** [mm_live]: the address space has users left. *)
Definition svm_range_add_list_work (mm_live : bool) (σ : svm_range_list) (id : nat) (op : svm_work_list_ops)
    : option svm_range_list :=
  r ← get_range σ id;
  if bool_decide (id ∈ deferred_range_list σ) then
    if bool_decide (op ≠ SVM_OP_NULL) && bool_decide (work_op r ≠ SVM_OP_UNMAP_RANGE)
    then Some (put_range σ id (r <| work_op := op |>)) else Some σ
  else if mm_live then
    Some ((put_range σ id (r <| work_op := op |>)) <| deferred_range_list ::= λ l, l ++ [id] |>)
  else Some σ.

(** ** Unmapping *)

Definition svm_range_add_child (σ : svm_range_list) (prange : nat) (pchild : option nat)
    (op : svm_work_list_ops) : option svm_range_list :=
  child ← pchild; c ← get_range σ child;
  let σ := put_range σ child (c <| work_op := op |>) in
  p ← get_range σ prange;
  Some (put_range σ prange (p <| child_list ::= λ l, l ++ [child] |>)).

Definition svm_range_unmap_split (σ : svm_range_list) (parent prange : nat) (start' last' : Z)
    : option svm_range_list :=
  r ← get_range σ prange;
  if bool_decide (work_op r = SVM_OP_UNMAP_RANGE) then Some σ
  else if (last r <? start') || (last' <? start r) then Some σ
  else
    let this := Some prange in
    '(σ, tail) ← (if start r <? start'
                  then '(σ, _, tail) ← svm_range_split σ prange (start r) (start' - 1) this; Some (σ, tail)
                  else Some (σ, this));
    t_id ← tail; t ← get_range σ t_id;
    '(σ, head) ← (if last' <? last t
                  then '(σ, _, head) ← svm_range_split σ t_id (last' + 1) (last t) this; Some (σ, head)
                  else Some (σ, this));
    if bool_decide (head ≠ this) && bool_decide (tail ≠ this) then
      σ ← svm_range_add_child σ parent head SVM_OP_UNMAP_RANGE;
      svm_range_add_child σ parent tail SVM_OP_ADD_RANGE
    else if bool_decide (tail ≠ this) then svm_range_add_child σ parent tail SVM_OP_UNMAP_RANGE
    else if bool_decide (head ≠ this) then svm_range_add_child σ parent head SVM_OP_UNMAP_RANGE
    else if bool_decide (parent ≠ prange) then
      r ← get_range σ prange; Some (put_range σ prange (r <| work_op := SVM_OP_UNMAP_RANGE |>))
    else Some σ.

(** The flag that [svm_range_unmap_from_gpus] keeps; the page tables of the GPUs, and its
    result that the callers drop, are left out. *)
Definition svm_range_unmap_from_gpus (σ : svm_range_list) (prange : nat) (start' last' : Z)
    : option svm_range_list :=
  r ← get_range σ prange;
  if negb (mapped_to_gpu r) then Some σ
  else if (start r =? start') && (last r =? last')
  then Some (put_range σ prange (r <| mapped_to_gpu := false |>)) else Some σ.

(** The part of a range that is in the window is unmapped from the GPUs, if there is one. *)
Definition unmap_window (σ : svm_range_list) (prange : nat) (start' last' : Z) : option svm_range_list :=
  r ← get_range σ prange;
  let s := Z.max start' (start r) in
  let l := Z.min last' (last r) in
  if s <=? l then svm_range_unmap_from_gpus σ prange s l else Some σ.

(** The loop over the children from the [n]th on, some of which it adds itself. *)
Fixpoint unmap_children (fuel n : nat) (σ : svm_range_list) (prange : nat) (start' last' : Z)
    : option svm_range_list :=
  p ← get_range σ prange;
  match child_list p !! n with
  | None => Some σ
  | Some child =>
      match fuel with
      | O => None
      | S fuel =>
          σ ← unmap_window σ child start' last';
          σ ← svm_range_unmap_split σ prange child start' last';
          unmap_children fuel (S n) σ prange start' last'
      end
  end.

Definition svm_range_unmap_from_cpu (mm_live : bool) (σ : svm_range_list) (id : nat) (start' last' : Z)
    : option svm_range_list :=
  r ← get_range σ id;
  let unmap_parent := (start' <=? start r) && (last r <=? last') in
  σ ← unmap_children (3 * length (child_list r)) 0 σ id start' last';
  σ ← unmap_window σ id start' last';
  σ ← svm_range_unmap_split σ id id start' last';
  svm_range_add_list_work mm_live σ id (if unmap_parent then SVM_OP_UNMAP_RANGE else SVM_OP_UPDATE_RANGE_NOTIFIER).

(** [svm_range_cpu_invalidate_pagetables] for an unmapping of these pages. *)
Definition invalidate_unmap (mm_live : bool) (start' last' : Z) (σ : svm_range_list) (id : nat)
    : option svm_range_list :=
  r ← get_range σ id;
  let '(n_start, n_last) := notifier r in
  svm_range_unmap_from_cpu mm_live σ id (Z.max n_start start') (Z.min n_last last').

(** ** Requests *)

Fixpoint apply_all (attrs : list svm_attribute) (σ : svm_range_list) (l : list nat) (update_mapping : bool)
    : option (svm_range_list * bool) :=
  match l with
  | [] => Some (σ, update_mapping)
  | id :: l =>
      r ← get_range σ id;
      let '(r, update_mapping) := svm_range_apply_attrs (xnack_enabled σ) r attrs update_mapping in
      apply_all attrs (put_range σ id r) l update_mapping
  end.

Definition no_lists : add_lists := mk_lists [] [] [] [] [].

(** [svm_range_set_attr] until the lock of the address space is downgraded, with the
    lists it goes on with.  [valid] is the result of [svm_range_is_valid]. *)
Definition svm_range_set_attr (valid : Z) (σ : svm_range_list) (start' size : Z) (attrs : list svm_attribute)
    : option (svm_range_list * add_lists * bool * Z) :=
  let r := svm_range_check_attr (bitmap_supported σ) attrs in
  if nz r then Some (σ, no_lists, false, r) else
  σ ← svm_range_deferred_list_work σ;
  if nz valid then Some (σ, no_lists, false, valid) else
  '(σ, ls, r) ← svm_range_add σ start' size attrs;
  if nz r then Some (σ, no_lists, false, r) else
  σ ← each_id (λ σ id, σ ← svm_range_add_to_svms σ id; svm_range_add_notifier_locked σ id) σ (insert_list ls);
  '(σ, update_mapping) ← apply_all attrs σ (update_list ls) false;
  let update_mapping := update_mapping || (negb (xnack_enabled σ) && negb (bool_decide (remap_list ls = []))) in
  σ ← each_id (λ σ id, σ ← svm_range_unlink σ id; svm_range_free σ id false) σ (remove_list ls);
  Some (σ, ls, update_mapping, 0).

(** The range of a page, or a child of it that is not in the tables yet, with the range
    in the tables. *)
Fixpoint iter_first (σ : svm_range_list) (nodes : list nat) (start' last' : Z) : option nat :=
  match nodes with
  | [] => None
  | id :: nodes =>
      match get_range σ id with
      | Some r => if overlaps r start' last' then Some id else iter_first σ nodes start' last'
      | None => iter_first σ nodes start' last'
      end
  end.
Definition contains (σ : svm_range_list) (addr : Z) (id : nat) : bool :=
  match get_range σ id with Some r => (start r <=? addr) && (addr <=? last r) | None => false end.
Definition svm_range_from_addr (σ : svm_range_list) (addr : Z) : option (nat * nat) :=
  node ← iter_first σ (objects σ) addr addr;
  r ← get_range σ node;
  if contains σ addr node then Some (node, node)
  else match list_find (λ c, contains σ addr c = true) (child_list r) with
       | Some (_, c) => Some (c, node)
       | None => None
       end.

(** ** Reading attributes *)

(** What [svm_range_get_attr] has gathered. *)
Record gathered := mk_gathered {
  g_location : Z; get_preferred_loc : bool;
  g_prefetch_loc : Z; get_prefetch_loc : bool;
  g_access : Z; g_aip : Z; flags_and : Z; flags_or : Z; g_granularity : Z }.
#[export] Instance eta_gathered : Eta gathered := λ g,
  mk_gathered (g_location g) (get_preferred_loc g) (g_prefetch_loc g) (get_prefetch_loc g)
    (g_access g) (g_aip g) (flags_and g) (flags_or g) (g_granularity g).

Definition gettable (t : svm_attr_type) : bool :=
  match t with ATTR_ACCESS_IN_PLACE | ATTR_NO_ACCESS | ATTR_OTHER => false | _ => true end.
Definition asks (t : svm_attr_type) (attrs : list svm_attribute) : bool :=
  existsb (λ a, match attr_type a, t with
                | ATTR_PREFERRED_LOC, ATTR_PREFERRED_LOC | ATTR_PREFETCH_LOC, ATTR_PREFETCH_LOC
                | ATTR_ACCESS, ATTR_ACCESS | ATTR_GRANULARITY, ATTR_GRANULARITY => true
                | (ATTR_SET_FLAGS | ATTR_CLR_FLAGS), ATTR_SET_FLAGS => true
                | _, _ => false
                end) attrs.

(** One location: of all ranges, or none when they differ. *)
Definition gather_loc (loc : Z) (get : bool) (of_range : Z) : Z * bool :=
  if negb get then (loc, get)
  else if (of_range =? LOCATION_UNDEFINED) || (negb (loc =? LOCATION_UNDEFINED) && negb (loc =? of_range))
  then (LOCATION_UNDEFINED, false) else (of_range, true).

Definition gather (attrs : list svm_attribute) (g : gathered) (r : svm_range) : gathered :=
  let '(loc, get) := gather_loc (g_location g) (get_preferred_loc g) (preferred_loc r) in
  let g := g <| g_location := loc |> <| get_preferred_loc := get |> in
  let '(loc, get) := gather_loc (g_prefetch_loc g) (get_prefetch_loc g) (prefetch_loc r) in
  let g := g <| g_prefetch_loc := loc |> <| get_prefetch_loc := get |> in
  let g := if asks ATTR_ACCESS attrs
           then g <| g_access ::= λ b, Z.land b (bitmap_access r) |> <| g_aip ::= λ b, Z.land b (bitmap_aip r) |>
           else g in
  let g := if asks ATTR_SET_FLAGS attrs
           then g <| flags_and ::= λ f, Z.land f (flags r) |> <| flags_or ::= λ f, Z.lor f (flags r) |> else g in
  if asks ATTR_GRANULARITY attrs && (granularity r <? g_granularity g)
  then g <| g_granularity := granularity r |> else g.

(** The ranges whose nodes overlap, in order. *)
Definition overlapping (σ : svm_range_list) (start' last' : Z) : list svm_range :=
  filter (λ r, overlaps r start' last' = true) (omap (get_range σ) (objects σ)).

Fixpoint fill_values (g : gathered) (attrs : list svm_attribute) : list svm_attribute * Z :=
  match attrs with
  | [] => ([], 0)
  | a :: attrs =>
      let next a := let '(l, r) := fill_values g attrs in (a :: l, r) in
      match attr_type a with
      | ATTR_PREFERRED_LOC => next (a <| value := g_location g |>)
      | ATTR_PREFETCH_LOC => next (a <| value := g_prefetch_loc g |>)
      | ATTR_ACCESS =>
          let gpuidx := kfd_process_gpuidx_from_gpuid (value a) in
          if gpuidx <? 0 then (a :: attrs, -EINVAL)
          else next (a <| attr_type := if test_bit gpuidx (g_access g) then ATTR_ACCESS
                                       else if test_bit gpuidx (g_aip g) then ATTR_ACCESS_IN_PLACE
                                       else ATTR_NO_ACCESS |>)
      | ATTR_SET_FLAGS => next (a <| value := flags_and g |>)
      | ATTR_CLR_FLAGS => next (a <| value := u32 (Z.lnot (flags_or g)) |>)
      | ATTR_GRANULARITY => next (a <| value := g_granularity g |>)
      | _ => next a
      end
  end.

(** Deferred work was flushed; [valid] is as for [svm_range_set_attr]. *)
Definition svm_range_get_attr (valid : Z) (σ : svm_range_list) (start' size : Z) (attrs : list svm_attribute)
    : list svm_attribute * Z :=
  let last' := start' + size - 1 in
  if nz valid then (attrs, valid)
  else if negb (forallb (λ a, gettable (attr_type a)) attrs) then (attrs, -EINVAL)
  else
    let g := mk_gathered LOCATION_UNDEFINED (asks ATTR_PREFERRED_LOC attrs)
               LOCATION_UNDEFINED (asks ATTR_PREFETCH_LOC attrs) 0 0 0xffffffff 0 0xff in
    let g :=
      match overlapping σ start' last' with
      | [] =>
          let d := svm_range_set_default_attributes range_zero in
          g <| g_location := preferred_loc d |> <| g_prefetch_loc := prefetch_loc d |>
            <| g_granularity := granularity d |> <| flags_and := flags d |> <| flags_or := flags d |>
            <| g_access := if xnack_enabled σ then bitmap_supported σ else 0 |> <| g_aip := 0 |>
      | rs =>
          foldl (gather attrs) (g <| g_access := bitmap_supported σ |> <| g_aip := bitmap_supported σ |>) rs
      end in
    fill_values g attrs.

(** ** Life of a process *)

Definition svm_range_list_init (supported : Z) (xnack : bool) (mem_used : Z) : svm_range_list :=
  mk_svms ∅ ∅ [] [] [] supported xnack mem_used O O.

Definition svm_range_list_fini (σ : svm_range_list) : option svm_range_list :=
  σ ← svm_range_deferred_list_work σ;
  each_id (λ σ id, σ ← svm_range_unlink σ id; svm_range_free σ id true) σ (range_ids σ).

(** The sizes of a range and its children, those of the children first. *)
Definition sizes_of (σ : svm_range_list) (id : nat) : option (list Z) :=
  r ← get_range σ id;
  cs ← mapM (get_range σ) (child_list r);
  Some ((range_size <$> cs) ++ [range_size r]).

Fixpoint reserve_sizes (σ : svm_range_list) (l : list Z) (reserved : Z) : svm_range_list * Z * Z :=
  match l with
  | [] => (σ, reserved, 0)
  | size :: l =>
      let '(σ, r) := amdgpu_amdkfd_reserve_mem_limit σ size in
      if nz r then (σ, reserved, r) else reserve_sizes σ l (reserved + size)
  end.

Definition svm_range_switch_xnack_reserve_mem (σ : svm_range_list) (xnack : bool)
    : option (svm_range_list * Z) :=
  sizes ← mapM (sizes_of σ) (range_ids σ);
  if xnack then
    let σ := foldl amdgpu_amdkfd_unreserve_mem_limit σ (concat sizes) in
    Some (σ <| xnack_enabled := xnack |>, 0)
  else
    let '(σ, reserved, r) := reserve_sizes σ (concat sizes) 0 in
    Some (if nz r then amdgpu_amdkfd_unreserve_mem_limit σ reserved else σ <| xnack_enabled := xnack |>, r).
End Svm.
