(* ===== verification/SvmProof.v ===== *)
(** * Shared virtual memory: pages and splits

    [page r x] is the range [r] cut down to page [x]: its attributes, the physical
    address for each GPU and the place in video memory.  Splitting and cloning keep
    every page; attributes are applied page by page. *)

From S2P Require Import Prelude Svm.
#[local] Open Scope Z_scope.
#[local] Open Scope list_scope.

(** ** Pages *)

Definition in_vram (r : svm_range) : bool := nz (actual_loc r) && bool_decide (is_Some (ttm_res r)).
(** An array is there for a GPU or not. *)
Definition slices (n off : Z) (arrays : list (option (list Z))) : list (option (list Z)) :=
  map (option_map (λ a, svm_range_copy_array a n off)) arrays.
Definition page_arrays (r : svm_range) (x : Z) : list (option (list Z)) := slices 1 (x - start r) (dma_addr r).
Definition page (r : svm_range) (x : Z) : svm_range :=
  mk_range x x 1 0 (page_arrays r x)
    (if in_vram r then ttm_res r else None) (if in_vram r then offset r + (x - start r) else 0)
    (if in_vram r then svm_bo r else None)
    (flags r) (preferred_loc r) (prefetch_loc r) (actual_loc r) (granularity r) (bitmap_access r)
    (bitmap_aip r) (mapped_to_gpu r) (0, 0) (0, 0) SVM_OP_NULL [].

Definition covers (r : svm_range) (x : Z) : Prop := start r ≤ x ≤ last r.
#[export] Instance covers_dec r x : Decision (covers r x).
Proof. unfold covers. apply _. Defined.

(** The attributes of a range, with where it is and whether GPUs map it. *)
Definition attrs_of (r : svm_range) :=
  (flags r, preferred_loc r, prefetch_loc r, actual_loc r, granularity r, mapped_to_gpu r, bitmap_access r, bitmap_aip r).
Lemma attrs_of_inv r r' : attrs_of r = attrs_of r' →
  flags r = flags r' ∧ preferred_loc r = preferred_loc r' ∧ prefetch_loc r = prefetch_loc r' ∧
  actual_loc r = actual_loc r' ∧ granularity r = granularity r' ∧ mapped_to_gpu r = mapped_to_gpu r' ∧
  bitmap_access r = bitmap_access r' ∧ bitmap_aip r = bitmap_aip r'.
Proof. intros [= ? ? ? ? ? ? ? ?]. by split_and!. Qed.
Lemma attrs_of_copy r q : attrs_of (copy_attrs r q) = attrs_of r.
Proof. done. Qed.

(** What every range satisfies. *)
Record range_ok (r : svm_range) : Prop := {
  rg_bounds : 0 < start r ≤ last r;
  rg_npages : npages r = last r - start r + 1;
  rg_arrays : Forall (λ a, ∀ l, a = Some l → Z.of_nat (length l) = npages r) (dma_addr r);
  rg_granularity : granularity r ≤ 0x3f;
  rg_exclusive i : test_bit i (bitmap_access r) = true → test_bit i (bitmap_aip r) = false;
  rg_vram : in_vram r = true → is_Some (svm_bo r);
}.

Section Proof.
Context (LOCATION_SYSMEM LOCATION_UNDEFINED FLAG_HOST_ACCESS FLAG_COHERENT : Z).
Context (mem_ok : nat → bool) (no_system_mem_limit : bool) (max_system_mem_limit : Z).
Context (max_svm_range_pages : Z) (pdds : list (option Z)).
Abbreviation apply_attrs := (svm_range_apply_attrs pdds).
Abbreviation same_attrs := (svm_range_is_same_attrs pdds).

(** ** Attributes *)

Lemma apply_attrs_cons xnack r a attrs u :
  (apply_attrs xnack r (a :: attrs) u).1 =
  (apply_attrs xnack (apply_one pdds xnack r a).1 attrs (u || (apply_one pdds xnack r a).2)).1.
Proof. simpl. by destruct (apply_one pdds xnack r a). Qed.

(** Whether mappings are updated makes no difference to the range. *)
Lemma apply_attrs_flag xnack r attrs u u' :
  (apply_attrs xnack r attrs u).1 = (apply_attrs xnack r attrs u').1.
Proof.
  revert r u u'. induction attrs as [|a attrs IH]; intros; [done|]. rewrite !apply_attrs_cons. apply IH.
Qed.

Definition applied (xnack : bool) (attrs : list svm_attribute) (r : svm_range) : svm_range :=
  (apply_attrs xnack r attrs false).1.

Lemma applied_cons xnack a attrs r :
  applied xnack (a :: attrs) r = applied xnack attrs (apply_one pdds xnack r a).1.
Proof. unfold applied. rewrite apply_attrs_cons. apply apply_attrs_flag. Qed.

(** A property of ranges that every single attribute keeps. *)
Lemma applied_ind (P : svm_range → svm_range → Prop) xnack attrs :
  (∀ r r' a, P r r' → P (apply_one pdds xnack r a).1 (apply_one pdds xnack r' a).1) →
  ∀ r r', P r r' → P (applied xnack attrs r) (applied xnack attrs r').
Proof.
  intros Hone. induction attrs as [|a attrs IH]; intros r r' H; [done|]. rewrite !applied_cons. by apply IH, Hone.
Qed.

(** All fields but the attributes. *)
Definition same_shape (r r' : svm_range) : Prop :=
  start r' = start r ∧ last r' = last r ∧ npages r' = npages r ∧ dma_addr r' = dma_addr r ∧
  ttm_res r' = ttm_res r ∧ offset r' = offset r ∧ svm_bo r' = svm_bo r ∧ actual_loc r' = actual_loc r ∧
  mapped_to_gpu r' = mapped_to_gpu r ∧ it_node r' = it_node r ∧ notifier r' = notifier r ∧
  work_op r' = work_op r ∧ child_list r' = child_list r.

Lemma apply_one_shape xnack r a : same_shape r (apply_one pdds xnack r a).1.
Proof. unfold apply_one. destruct r, a as [[] v]; by repeat split. Qed.

Lemma applied_shape xnack attrs r : same_shape r (applied xnack attrs r).
Proof.
  revert r. induction attrs as [|a attrs IH]; intros r; [by repeat split|]. rewrite applied_cons.
  pose proof (apply_one_shape xnack r a) as H1. specialize (IH (apply_one pdds xnack r a).1).
  unfold same_shape in *. naive_solver congruence.
Qed.

Lemma page_applied xnack attrs r x : page (applied xnack attrs r) x = applied xnack attrs (page r x).
Proof.
  apply (applied_ind (λ r r', page r x = r')); [|done]. clear r. intros r r' a <-.
  unfold apply_one. destruct r, a as [[] v]; reflexivity.
Qed.

Lemma bit_set_id i z : test_bit i z = true → set_bit i z = z.
Proof.
  unfold test_bit. intros H. assert (0 ≤ i) by (destruct (decide (0 ≤ i)); [done|rewrite Z.testbit_neg_r in H by lia; done]).
  apply Z.bits_inj'. intros j Hj. rewrite set_bit_spec by done. destruct (Z.eqb_spec i j) as [->|]; [by rewrite H|done].
Qed.
Lemma bit_clear_id i z : test_bit i z = false → clear_bit i z = z.
Proof.
  unfold test_bit. intros H. apply Z.bits_inj'. intros j Hj. rewrite clear_bit_spec.
  destruct (Z.eqb_spec i j) as [->|]; [by rewrite H|by rewrite andb_true_r].
Qed.
Lemma flags_set_id f v : Z.land f v = v → Z.lor f v = f.
Proof.
  intros H. apply Z.bits_inj'. intros j Hj. apply (f_equal (λ z, Z.testbit z j)) in H.
  rewrite Z.land_spec in H. rewrite Z.lor_spec. destruct (Z.testbit f j), (Z.testbit v j); simpl in *; congruence.
Qed.
Lemma flags_clear_id f v : Z.land f v = 0 → Z.ldiff f v = f.
Proof.
  intros H. apply Z.bits_inj'. intros j Hj. apply (f_equal (λ z, Z.testbit z j)) in H.
  rewrite Z.land_spec, Z.bits_0 in H. rewrite Z.ldiff_spec. destruct (Z.testbit f j), (Z.testbit v j); simpl in *; congruence.
Qed.

(** Nothing is to do for a range whose attributes are the same. *)
Lemma same_attrs_applied xnack attrs r : range_ok r → same_attrs r attrs = true → applied xnack attrs r = r.
Proof.
  intros Hok. induction attrs as [|a attrs IH]; [done|].
  change (same_attrs r (a :: attrs)) with (same_one pdds r a && same_attrs r attrs). rewrite andb_true_iff. intros [Ha Hs].
  rewrite applied_cons. assert ((apply_one pdds xnack r a).1 = r) as ->; [|by apply IH].
  pose proof (rg_granularity r Hok) as Hg. pose proof (rg_exclusive r Hok) as Hx. clear IH Hs Hok.
  unfold same_one in Ha. unfold apply_one. destruct r, a as [[] v]; simpl in *; try done.
  - by apply Z.eqb_eq in Ha as ->.
  - by rewrite (bit_set_id _ _ Ha), (bit_clear_id _ _ (Hx _ Ha)).
  - rewrite (bit_set_id _ _ Ha), bit_clear_id; [done|].
    destruct (test_bit _ bitmap_access) eqn:E; [|done]. apply Hx in E. congruence.
  - apply negb_true_iff, orb_false_iff in Ha as [Ha1 Ha2]. by rewrite !bit_clear_id.
  - apply Z.eqb_eq in Ha. by rewrite flags_set_id.
  - apply Z.eqb_eq in Ha. by rewrite flags_clear_id.
  - apply Z.eqb_eq in Ha as ->. by rewrite Z.min_l.
Qed.

Lemma test_set_bit g z i : 0 ≤ i → test_bit i (set_bit g z) = ((0 <=? g) && (g =? i)) || test_bit i z.
Proof.
  intros Hi. unfold test_bit. destruct (Z.leb_spec 0 g); simpl; [by apply set_bit_spec|].
  unfold set_bit, Z.setbit. rewrite <- (Z.opp_involutive g), Z.shiftl_opp_r.
  rewrite Z.shiftr_div_pow2, Z.div_small, Z.lor_0_r by lia || (split; [lia|apply Z.pow_gt_1; lia]). done.
Qed.

(** The two masks after one attribute. *)
Lemma access_exclusive g z w i :
  (test_bit i z = true → test_bit i w = false) →
  (test_bit i (set_bit g z) = true → test_bit i (clear_bit g w) = false) ∧
  (test_bit i (clear_bit g z) = true → test_bit i (set_bit g w) = false) ∧
  (test_bit i (clear_bit g z) = true → test_bit i (clear_bit g w) = false).
Proof.
  intros H. destruct (decide (0 ≤ i)) as [Hi|Hi].
  - rewrite !test_set_bit by done. unfold test_bit in *. rewrite !clear_bit_spec.
    destruct (0 <=? g), (g =? i), (Z.testbit z i), (Z.testbit w i); simpl in *; naive_solver.
  - unfold test_bit. rewrite !Z.testbit_neg_r by lia. done.
Qed.

Lemma apply_one_ok xnack r a : range_ok r → range_ok (apply_one pdds xnack r a).1.
Proof.
  intros [H1 H2 H3 H4 H5 H6]. unfold apply_one. destruct a as [[] v]; split; try done;
    try (simpl; lia); simpl; intros i; 
    first [apply H5|by destruct (access_exclusive (kfd_process_gpuidx_from_gpuid pdds v) _ _ i (H5 i)) as (?&?&?)].
Qed.

Lemma applied_ok xnack attrs r : range_ok r → range_ok (applied xnack attrs r).
Proof.
  revert r. induction attrs as [|a attrs IH]; intros r Hok; [done|]. rewrite applied_cons. by apply IH, apply_one_ok.
Qed.
(** ** New ranges *)

Abbreviation range_new := (svm_range_new LOCATION_UNDEFINED FLAG_HOST_ACCESS FLAG_COHERENT mem_ok
  no_system_mem_limit max_system_mem_limit pdds).
Abbreviation split := (svm_range_split LOCATION_UNDEFINED FLAG_HOST_ACCESS FLAG_COHERENT mem_ok
  no_system_mem_limit max_system_mem_limit pdds).

Definition new_range (xnack : bool) (supported s l : Z) : svm_range :=
  svm_range_set_default_attributes LOCATION_UNDEFINED FLAG_HOST_ACCESS FLAG_COHERENT
    ((range_zero pdds) <| npages := l - s + 1 |> <| start := s |> <| last := l |>
       <| bitmap_access := if xnack then supported else 0 |>).

(** Nothing but objects, memory accounts and requests differ. *)
Definition same_tables (σ σ' : svm_range_list) : Prop :=
  range_ids σ' = range_ids σ ∧ objects σ' = objects σ ∧ deferred_range_list σ' = deferred_range_list σ ∧
  bitmap_supported σ' = bitmap_supported σ ∧ xnack_enabled σ' = xnack_enabled σ.

#[global] Instance same_tables_refl : Reflexive same_tables.
Proof. by intros σ. Qed.
#[global] Instance same_tables_trans : Transitive same_tables.
Proof. intros a b c (?&?&?&?&?) (?&?&?&?&?). unfold same_tables. split_and!; congruence. Qed.

Lemma new_range_ok xnack supported s l : 0 < s ≤ l → range_ok (new_range xnack supported s l).
Proof.
  intros Hs. split; simpl; try done; try lia.
  - apply Forall_forall. intros a Ha l' ->. by apply list_elem_of_fmap in Ha as (? & ? & _).
  - intros i. unfold test_bit. by rewrite Z.testbit_0_l.
Qed.

(** The charge for the memory of a range. *)
Definition charge (σ : svm_range_list) (size : Z) : Z := if xnack_enabled σ then 0 else Z.shiftl size PAGE_SHIFT.

Lemma new_spec σ s l u σ' o : range_new σ s l u = (σ', o) →
  same_tables σ σ' ∧ bos σ' = bos σ ∧
  match o with
  | Some id => id = svm_next σ ∧ ranges σ' = <[svm_next σ := new_range (xnack_enabled σ) (bitmap_supported σ) s l]> (ranges σ) ∧
      svm_next σ' = S (svm_next σ) ∧
      system_mem_used σ' = system_mem_used σ + (if u then charge σ (l - s + 1) else 0)
  | None => ranges σ' = ranges σ ∧ svm_next σ' = svm_next σ ∧ system_mem_used σ' = system_mem_used σ ∧
      (mem_ok (asked σ) = true → u = true ∧ no_system_mem_limit = false)
  end.
Proof.
  unfold svm_range_new, svm_alloc, amdgpu_amdkfd_reserve_mem_limit, charge. cbv zeta.
  destruct (mem_ok (asked σ)) eqn:Em; simpl; [|by intros [= <- <-]].
  destruct (xnack_enabled σ) eqn:Ex, u; simpl; try (intros [= <- <-]; simpl; rewrite ?Ex; by repeat split; try lia).
  destruct (_ <? _), no_system_mem_limit; simpl; intros [= <- <-]; simpl; rewrite ?Ex; by repeat split.
Qed.

(** ** Splits *)

Lemma copy_copy a n d k : 0 ≤ d → 0 ≤ k < n →
  svm_range_copy_array (svm_range_copy_array a n d) 1 k = svm_range_copy_array a 1 (d + k).
Proof.
  intros Hd Hk. unfold svm_range_copy_array. rewrite skipn_firstn_comm, drop_drop, take_take.
  f_equal; [lia|]. f_equal. lia.
Qed.

Lemma copy_length a n d : 0 ≤ d → 0 ≤ n → d + n ≤ Z.of_nat (length a) →
  Z.of_nat (length (svm_range_copy_array a n d)) = n.
Proof. intros. unfold svm_range_copy_array. rewrite length_take, length_drop. lia. Qed.

Lemma slices_slices arrays n d k : 0 ≤ d → 0 ≤ k < n → slices 1 k (slices n d arrays) = slices 1 (d + k) arrays.
Proof.
  intros Hd Hk. unfold slices. rewrite map_map. apply map_ext. intros [a|]; [|done]. simpl.
  f_equal. by apply copy_copy.
Qed.

Lemma slices_lengths arrays n d m : 0 ≤ d → 0 ≤ n → d + n ≤ m →
  Forall (λ a, ∀ l, a = Some l → Z.of_nat (length l) = m) arrays →
  Forall (λ a, ∀ l, a = Some l → Z.of_nat (length l) = n) (slices n d arrays).
Proof.
  intros Hd Hn Hm. unfold slices. rewrite !Forall_forall. intros Hall a Ha l ->.
  apply list_elem_of_In, in_map_iff in Ha as ([b|] & Hb & Hin); [|done]. injection Hb as <-.
  apply copy_length; [done|done|]. apply list_elem_of_In in Hin. by rewrite (Hall _ Hin b).
Qed.

(** Only requests are made by the copies. *)
Definition only_asked (σ σ' : svm_range_list) : Prop := ∃ k, σ' = σ <| asked := k |>.

Lemma split_arrays_spec arrays os on ns nn : ∀ σ vram,
  ∃ σ' news olds vram' rc, split_arrays mem_ok σ arrays os on ns nn vram = (σ', news, olds, vram', rc) ∧
    only_asked σ σ' ∧ (rc = 0 ∨ rc = -ENOMEM ∧ ¬ ∀ n, mem_ok n = true) ∧
    (rc = 0 → news = slices nn (ns - os) arrays ∧ olds = slices on (if ns =? os then nn else 0) arrays).
Proof.
  induction arrays as [|[a|] arrays IH]; intros σ vram; cbn [split_arrays].
  - eexists _, _, _, _, _. split; [done|]. split; [by exists (asked σ); destruct σ|]. split; [by left|done].
  - unfold svm_alloc. destruct (mem_ok (asked σ)) eqn:E1; simpl.
    2: { eexists _, _, _, _, _. split; [done|]. split; [by eexists|]. split; [|done]. right. split; [done|].
         intros Hall. by rewrite Hall in E1. }
    destruct (mem_ok (S (asked σ))) eqn:E2; simpl.
    2: { eexists _, _, _, _, _. split; [done|]. split; [by eexists|]. split; [|done]. right. split; [done|].
         intros Hall. by rewrite Hall in E2. }
    match goal with |- context [split_arrays _ ?s arrays _ _ _ _ ?v] =>
      destruct (IH s v) as (σ' & news & olds & vram' & rc & -> & [k ->] & Hrc & Hz) end.
    eexists _, _, _, _, _. split; [done|]. split; [by eexists|]. split; [done|].
    intros Hr. destruct (Hz Hr) as [-> ->]. done.
  - destruct (IH σ vram) as (σ' & news & olds & vram' & rc & -> & Hσ & Hrc & Hz).
    eexists _, _, _, _, _. split; [done|]. split; [done|]. split; [done|]. intros Hr. by destruct (Hz Hr) as [-> ->].
Qed.
(** Two ranges agree on a page. *)
Lemma page_eq r r' x :
  page_arrays r x = page_arrays r' x → in_vram r = in_vram r' →
  (in_vram r = true → ttm_res r = ttm_res r' ∧ offset r - start r = offset r' - start r' ∧ svm_bo r = svm_bo r') →
  attrs_of r = attrs_of r' → page r x = page r' x.
Proof.
  intros Ha Hv Hin Hattr. apply attrs_of_inv in Hattr as (?&?&?&?&?&?&?&?).
  unfold page. rewrite Ha, <- Hv. destruct (in_vram r).
  - destruct Hin as (-> & ? & ->); [done|]. f_equal; (congruence || lia).
  - f_equal; congruence.
Qed.

(** What a split leaves of [r]: [o] for [s', l'] and [n] for the rest. *)
Record split_of (r o n : svm_range) (s' l' : Z) : Prop := {
  sp_o_ok : range_ok o;
  sp_n_ok : range_ok n;
  sp_o : start o = s' ∧ last o = l';
  sp_n : if start r =? s' then start n = l' + 1 ∧ last n = last r else start n = start r ∧ last n = s' - 1;
  sp_page_o x : covers o x → page o x = page r x;
  sp_page_n x : covers n x → page n x = page r x;
  sp_o_links : it_node o = it_node r ∧ notifier o = notifier r ∧ work_op o = work_op r ∧
    child_list o = child_list r ∧ mapped_to_gpu o = mapped_to_gpu r ∧ svm_bo o = svm_bo r ∧ ttm_res o = ttm_res r;
  sp_n_links : it_node n = (0, 0) ∧ notifier n = (0, 0) ∧ work_op n = SVM_OP_NULL ∧ child_list n = [] ∧
    mapped_to_gpu n = mapped_to_gpu r ∧ (in_vram r = false → svm_bo n = None ∧ ttm_res n = None);
}.

Definition split_ok (r : svm_range) (s' l' : Z) : Prop :=
  s' ≤ l' ∧ (start r = s' ∧ l' < last r ∨ start r < s' ∧ l' = last r).
(** The heap. *)
Lemma get_put_eq σ i r : get_range (put_range σ i r) i = Some r.
Proof. apply lookup_insert_eq. Qed.
Lemma get_put_ne σ i j r : i ≠ j → get_range (put_range σ i r) j = get_range σ j.
Proof. apply lookup_insert_ne. Qed.

(** Two objects of the heap have changed, the others have not. *)
Definition two_changed (σ σ' : svm_range_list) (i j : nat) : Prop :=
  ∀ k, k ≠ i → k ≠ j → get_range σ' k = get_range σ k.

Lemma in_vram_no_bo r : in_vram r = false → in_vram r = true → False.
Proof. congruence. Qed.

Section Adjust.
Context (r : svm_range) (s' l' : Z) (Hok : range_ok r) (Hs : split_ok r s' l').
Let ns := if start r =? s' then l' + 1 else start r.
Let nl := if start r =? s' then last r else s' - 1.

Lemma split_new_bounds : 0 < ns ≤ nl ∧ start r ≤ ns ∧ nl ≤ last r ∧ 0 < s' ≤ l' ∧ start r ≤ s' ∧ l' ≤ last r.
Proof.
  pose proof (rg_bounds r Hok). unfold ns, nl. destruct Hs as [? Hc]. destruct (Z.eqb_spec (start r) s'); lia.
Qed.

(** The ranges at the end of [svm_range_split_adjust], for any number of pages in video
    memory. *)
Lemma split_of_parts o n :
  start o = s' → last o = l' → npages o = l' - s' + 1 →
  dma_addr o = slices (l' - s' + 1) (if ns =? start r then nl - ns + 1 else 0) (dma_addr r) →
  dma_addr n = slices (nl - ns + 1) (ns - start r) (dma_addr r) →
  start n = ns → last n = nl → npages n = nl - ns + 1 →
  attrs_of o = attrs_of r → attrs_of n = attrs_of r →
  it_node o = it_node r ∧ notifier o = notifier r ∧ work_op o = work_op r ∧ child_list o = child_list r ∧
    svm_bo o = svm_bo r ∧ ttm_res o = ttm_res r →
  it_node n = (0, 0) ∧ notifier n = (0, 0) ∧ work_op n = SVM_OP_NULL ∧ child_list n = [] →
  (if in_vram r
   then offset n = offset r + (ns - start r) ∧ offset o = offset r + (s' - start r) ∧
        svm_bo n = svm_bo r ∧ ttm_res n = ttm_res r
   else offset o = offset r ∧ svm_bo n = None ∧ ttm_res n = None) →
  split_of r o n s' l'.
Proof.
  intros Ho1 Ho2 Ho3 Hod Hnd Hn1 Hn2 Hn3 Hoa Hna Hol Hnl Hv.
  pose proof split_new_bounds as Hb.
  assert (Hof : (if ns =? start r then nl - ns + 1 else 0) = s' - start r).
  { unfold ns, nl in *. destruct Hs as [? Hc]. destruct (Z.eqb_spec (start r) s').
    - rewrite (proj2 (Z.eqb_neq _ _)) by lia. lia.
    - rewrite Z.eqb_refl. lia. }
  rewrite Hof in Hod.
  destruct (attrs_of_inv _ _ Hoa) as (_ & _ & _ & Hoact & Ho4 & Ho7 & Ho5 & Ho6).
  destruct (attrs_of_inv _ _ Hna) as (_ & _ & _ & Hnact & Hn4 & Hn7 & Hn5 & Hn6).
  assert (Hov : in_vram o = in_vram r).
  { unfold in_vram. destruct Hol as (_ & _ & _ & _ & _ & ->). by rewrite Hoact. }
  assert (Hnv : in_vram n = in_vram r).
  { unfold in_vram in *. rewrite Hnact. destruct (nz (actual_loc r)); [|done]. simpl in *.
    destruct (bool_decide _) eqn:E; destruct Hv as (?&?); destruct_and?; [|by rewrite bool_decide_false by (by intros [? ?]; congruence)].
    by replace (ttm_res n) with (ttm_res r). }
  pose proof (rg_npages r Hok) as Hnp.
  destruct Hok as [_ _ Harr Hgr Hex Hvr].
  split.
  - split.
    + lia.
    + lia.
    + rewrite Hod, Ho3. eapply slices_lengths; [| | |exact Harr]; lia.
    + lia.
    + intros i. rewrite Ho5, Ho6. apply Hex.
    + rewrite Hov. intros Hin. destruct Hol as (_ & _ & _ & _ & -> & _). by apply Hvr.
  - split.
    + lia.
    + lia.
    + rewrite Hnd, Hn3. eapply slices_lengths; [| | |exact Harr]; lia.
    + lia.
    + intros i. rewrite Hn5, Hn6. apply Hex.
    + rewrite Hnv. intros Hin. rewrite Hin in Hv. destruct Hv as (_ & _ & -> & _). by apply Hvr.
  - done.
  - unfold ns, nl in *. by destruct (start r =? s').
  - intros x Hx. unfold covers in Hx. apply page_eq; [|done| |done].
    + unfold page_arrays. rewrite Hod, slices_slices by lia. f_equal. lia.
    + rewrite Hov. intros Hin. rewrite Hin in Hv. destruct Hol as (_ & _ & _ & _ & -> & ->). split_and!; [done|lia|done].
  - intros x Hx. unfold covers in Hx. apply page_eq; [|done| |done].
    + unfold page_arrays. rewrite Hnd, slices_slices by lia. f_equal. lia.
    + rewrite Hnv. intros Hin. rewrite Hin in Hv. destruct Hv as (? & _ & -> & ->). split_and!; [done|lia|done].
  - destruct Hol as (?&?&?&?&?&?). by split_and!.
  - destruct Hnl as (?&?&?&?). split_and!; try done. intros Hin. rewrite Hin in Hv. by destruct Hv as (_ & ? & ?).
Qed.
End Adjust.
(** What does not change when only objects do. *)
Definition same_but_ranges (σ σ' : svm_range_list) : Prop :=
  same_tables σ σ' ∧ svm_next σ' = svm_next σ ∧ system_mem_used σ' = system_mem_used σ.

(** Video memory objects are not lost, and stay as they are where nobody refers to one. *)
Definition bos_kept (r : svm_range) (σ σ' : svm_range_list) : Prop :=
  (in_vram r = false → bos σ' = bos σ) ∧ ∀ b, is_Some (bos σ !! b) → is_Some (bos σ' !! b).

(** Other arrays and another number of pages in video memory. *)
Definition with_pages (r : svm_range) (a : list (option (list Z))) (v : Z) : svm_range :=
  r <| dma_addr := a |> <| vram_pages := v |>.

(** The last assignments of [svm_range_split_adjust]. *)
Definition adjusted (r : svm_range) (σ σ' : svm_range_list) (id new : nat) (s' l' : Z) (rc : Z) : Prop :=
  ∃ o n, same_but_ranges σ σ' ∧ two_changed σ σ' id new ∧ get_range σ' id = Some o ∧ get_range σ' new = Some n ∧
    (rc = 0 ∧ split_of r o n s' l' ∧ bos_kept r σ σ' ∨
     rc = -ENOMEM ∧ (¬ ∀ k, mem_ok k = true) ∧ bos σ' = bos σ ∧ ttm_res n = None ∧ ∃ a v, o = with_pages r a v).

Lemma adjust_end (r o2 n2 : svm_range) (σ σ2 : svm_range_list) id new s' l' :
  let ns := if start r =? s' then l' + 1 else start r in
  let nl := if start r =? s' then last r else s' - 1 in
  new ≠ id → range_ok r → split_ok r s' l' →
  same_but_ranges σ σ2 → two_changed σ σ2 id new → bos_kept r σ σ2 →
  attrs_of o2 = attrs_of r →
  it_node o2 = it_node r ∧ notifier o2 = notifier r ∧ work_op o2 = work_op r ∧ child_list o2 = child_list r ∧
    svm_bo o2 = svm_bo r ∧ ttm_res o2 = ttm_res r →
  dma_addr o2 = slices (l' - s' + 1) (if ns =? start r then nl - ns + 1 else 0) (dma_addr r) →
  start n2 = ns ∧ last n2 = nl ∧ npages n2 = nl - ns + 1 ∧ dma_addr n2 = slices (nl - ns + 1) (ns - start r) (dma_addr r) →
  it_node n2 = (0, 0) ∧ notifier n2 = (0, 0) ∧ work_op n2 = SVM_OP_NULL ∧ child_list n2 = [] →
  (if in_vram r
   then offset n2 = offset r + (ns - start r) ∧ offset o2 = offset r + (s' - start r) ∧
        svm_bo n2 = svm_bo r ∧ ttm_res n2 = ttm_res r
   else offset o2 = offset r ∧ svm_bo n2 = None ∧ ttm_res n2 = None) →
  let o := o2 <| npages := l' - s' + 1 |> <| start := s' |> <| last := l' |> in
  adjusted r σ (put_range (put_range σ2 id o) new (copy_attrs o n2)) id new s' l' 0.
Proof.
  intros ns nl Hne Hok Hs F1 F2 F3 Ha Hl Hd (N1 & N2 & N3 & N4) Hnl Hv. cbv zeta.
  eexists _, _. split; [exact F1|]. split.
  { intros j Hj1 Hj2. unfold get_range, put_range. cbn [ranges set_field]. simpl.
    rewrite !lookup_insert_ne by done. by apply F2. }
  unfold get_range, put_range. simpl. rewrite lookup_insert_ne, !lookup_insert_eq by done.
  split; [reflexivity|]. split; [reflexivity|]. left. split; [done|]. split; [|exact F3].
  apply (split_of_parts r s' l' Hok Hs); try done.
Qed.

Lemma split_pages_spec σ new id n r s' l' :
  get_range σ new = Some n → get_range σ id = Some r →
  ∃ σ1 an vn ao vo rc,
    svm_range_split_pages mem_ok σ new id s' l' =
      Some (put_range (put_range σ1 new (with_pages n an vn)) id (with_pages r ao vo), rc) ∧
    only_asked σ σ1 ∧ (rc = 0 ∨ rc = -ENOMEM ∧ ¬ ∀ k, mem_ok k = true) ∧
    (rc = 0 → an = slices (npages n) (start n - start r) (dma_addr r) ∧
              ao = slices (l' - s' + 1) (if start n =? start r then npages n else 0) (dma_addr r)).
Proof.
  intros Hn Hr. unfold svm_range_split_pages. rewrite Hn, Hr. cbn [mbind option_bind].
  match goal with |- context [split_arrays _ σ ?a ?os ?on ?ns ?nn ?v] =>
    destruct (split_arrays_spec a os on ns nn σ v) as (σ1 & news & olds & vram & rc & -> & Hσ & Hrc & Hz) end.
  exists σ1, news, (default (vram_pages n) vram), olds,
    (if nz rc then vram_pages r
     else if nz (actual_loc r) then vram_pages r - default (vram_pages n) vram else vram_pages r), rc.
  split; [|done]. destruct r. unfold with_pages. cbn. by destruct (nz rc), (nz actual_loc).
Qed.

Lemma adjust_spec σ new id r xnack supported s' l' :
  let ns := if start r =? s' then l' + 1 else start r in
  let nl := if start r =? s' then last r else s' - 1 in
  new ≠ id → get_range σ id = Some r → get_range σ new = Some (new_range xnack supported ns nl) →
  range_ok r → split_ok r s' l' →
  (in_vram r = true → ∃ b, svm_bo r = Some b ∧ is_Some (bos σ !! b)) →
  ∃ σ' rc, svm_range_split_adjust mem_ok σ new id s' l' = Some (σ', rc) ∧ adjusted r σ σ' id new s' l' rc.
Proof.
  intros ns nl Hne Hid Hnew Hok Hs Hv.
  pose proof (split_new_bounds r s' l' Hok Hs) as Hb. cbv zeta in Hb. fold ns nl in Hb.
  unfold svm_range_split_adjust. rewrite Hnew, Hid. cbn [mbind option_bind].
  change (start (new_range _ _ ns nl)) with ns. change (last (new_range _ _ ns nl)) with nl.
  rewrite (proj2 (Z.ltb_ge ns _)), (proj2 (Z.ltb_ge _ nl)) by lia. cbn [orb].
  destruct (split_pages_spec σ new id _ r s' l' Hnew Hid) as (σ1 & an & vn & ao & vo & rc & -> & [k ->] & Hrc & Hz).
  set (n0 := new_range xnack supported ns nl) in *. cbn [mbind option_bind].
  destruct Hrc as [->|[-> Hno]].
  2: { eexists _, _. split; [reflexivity|]. eexists _, _. split; [by repeat split|]. split.
    { intros j Hj1 Hj2. by rewrite !get_put_ne by done. }
    rewrite get_put_eq, get_put_ne, get_put_eq by done.
    split; [reflexivity|]. split; [reflexivity|]. right. split_and!; try done. by eexists _, _. }
  destruct (Hz eq_refl) as [-> ->]. clear Hz. change (nz 0) with false. cbv iota.
  change (start n0) with ns. change (npages n0) with (nl - ns + 1).
  set (o1 := with_pages r _ vo). set (n1 := with_pages n0 _ vn). fold (in_vram r). destruct (in_vram r) eqn:Ev.
  - destruct (Hv eq_refl) as (b & Hb1 & [bo Hb2]). unfold svm_range_split_nodes.
    rewrite (get_put_ne _ id new), !get_put_eq by done. cbn [mbind option_bind].
    change (svm_bo o1) with (svm_bo r). rewrite Hb1. cbn [mbind option_bind].
    change (start n1) with ns. change (start o1) with (start r). change (offset o1) with (offset r).
    change (npages n1) with (nl - ns + 1).
    assert (Hoffs : (if ns =? start r then (offset r, offset r + (nl - ns + 1)) else (offset r + (l' - s' + 1), offset r)) =
      (offset r + (ns - start r), offset r + (s' - start r))).
    { unfold ns, nl. destruct Hs as [? Hc]. destruct (Z.eqb_spec (start r) s').
      - rewrite (proj2 (Z.eqb_neq _ _)) by lia. f_equal; lia.
      - rewrite Z.eqb_refl. f_equal; lia. }
    rewrite Hoffs. unfold svm_range_bo_ref.
    match goal with |- context [put_range (put_range ?s id ?o) new ?n] => set (o2 := o); set (n2 := n); set (σ2 := put_range (put_range s id o2) new n2) end.
    change (bos σ2) with (bos σ). rewrite Hb2. cbn [mbind option_bind].
    match goal with |- context [get_range ?s new] => set (σ3 := s) end.
    cbn [mbind option_bind].
    assert (Hn2 : get_range σ3 new = Some n2) by apply get_put_eq.
    assert (Ho2 : get_range σ3 id = Some o2).
    { change (get_range σ3 id) with (get_range σ2 id). unfold σ2. by rewrite get_put_ne, get_put_eq by done. }
    rewrite Hn2, Ho2. cbn [mbind option_bind].
    eexists _, _. split; [reflexivity|]. apply adjust_end; try done.
    + intros j Hj1 Hj2. change (get_range σ3 j) with (get_range σ2 j). unfold σ2. by rewrite !get_put_ne by done.
    + split; [congruence|]. intros b'. change (bos σ3) with (<[b := bo <| kref ::= Z.succ |> <| range_list ::= cons new |>]> (bos σ)).
      destruct (decide (b = b')) as [<-|]; [by rewrite lookup_insert_eq|by rewrite lookup_insert_ne].
    + rewrite Ev. split_and!; try done.
  - cbn [mbind option_bind]. rewrite (get_put_ne _ id new), !get_put_eq by done. cbn [mbind option_bind].
    eexists _, _. split; [reflexivity|]. apply adjust_end; try done.
    + intros j Hj1 Hj2. by rewrite !get_put_ne by done.
    + rewrite Ev. by split_and!.
Qed.

(** A split takes a piece off a range, or fails for lack of memory and leaves all other
    ranges as they were. *)
Definition split_done (σ σ' : svm_range_list) (id : nat) (r : svm_range) (s' l' rc : Z) (new : option nat) : Prop :=
  same_tables σ σ' ∧ system_mem_used σ' = system_mem_used σ ∧ (svm_next σ ≤ svm_next σ')%nat ∧
  two_changed σ σ' id (svm_next σ) ∧
  (rc = 0 ∧ new = Some (svm_next σ) ∧ svm_next σ' = S (svm_next σ) ∧
     (∃ o n, get_range σ' id = Some o ∧ get_range σ' (svm_next σ) = Some n ∧ split_of r o n s' l') ∧ bos_kept r σ σ' ∨
   rc = -ENOMEM ∧ new = None ∧ (¬ ∀ k, mem_ok k = true) ∧ bos σ' = bos σ ∧ get_range σ' (svm_next σ) = None ∧
     ∃ a v, get_range σ' id = Some (with_pages r a v)).

Lemma free_no_vram σ id r : get_range σ id = Some r → ttm_res r = None →
  svm_range_free σ id false = Some (σ <| ranges ::= delete id |>).
Proof.
  intros Hr Ht. unfold svm_range_free, svm_range_vram_node_free. rewrite Hr. cbn [mbind option_bind]. by rewrite Ht.
Qed.

Lemma split_spec σ id r s' l' new0 :
  get_range σ id = Some r → get_range σ (svm_next σ) = None → range_ok r → split_ok r s' l' →
  (in_vram r = true → ∃ b, svm_bo r = Some b ∧ is_Some (bos σ !! b)) →
  ∃ σ' rc new, split σ id s' l' new0 = Some (σ', rc, new) ∧ split_done σ σ' id r s' l' rc new.
Proof.
  intros Hr Hfresh Hok Hs Hv. assert (Hne : svm_next σ ≠ id) by congruence.
  pose proof (rg_bounds r Hok) as Hb. unfold svm_range_split. rewrite Hr. cbn [mbind option_bind].
  set (ns := if start r =? s' then l' + 1 else start r). set (nl := if start r =? s' then last r else s' - 1).
  assert (negb (start r =? s') && negb (last r =? l') = false) as ->.
  { destruct Hs as [? Hc]. destruct (Z.eqb_spec (start r) s'), (Z.eqb_spec (last r) l'); lia || done. }
  assert ((s' <? start r) || (last r <? l') = false) as ->.
  { destruct Hs as [? Hc]. rewrite !(proj2 (Z.ltb_ge _ _)) by lia. done. }
  match goal with |- context [match ?e with (_, _) => _ end] => assert (e = range_new σ ns nl false) as -> end.
  { unfold ns, nl. by destruct (start r =? s'). }
  destruct (range_new σ ns nl false) as [σ1 [new|]] eqn:En.
  2: { apply new_spec in En as (Ht & Hbo & Hra & Hnx & Hmem & Hno). eexists _, _, _. split; [reflexivity|].
    assert (Hget : ∀ k, get_range σ1 k = get_range σ k) by (intros k; unfold get_range; by rewrite Hra).
    split_and!; [done|done|by rewrite Hnx|by intros k ? ?|]. right. rewrite !Hget. split_and!; try done.
    - intros Hall. by destruct (Hno (Hall _)).
    - exists (dma_addr r), (vram_pages r). rewrite Hr. by destruct r. }
  apply new_spec in En as (Ht & Hbo & -> & Hra & Hnx & Hmem).
  destruct (adjust_spec σ1 (svm_next σ) id r (xnack_enabled σ) (bitmap_supported σ) s' l') as (σ2 & rc & -> & o & n & (Ht2 & Hn2 & Hm2) & Hch & Ho & Hn & Hrc); try done.
  { unfold get_range. by rewrite Hra, lookup_insert_ne. }
  { unfold get_range. by rewrite Hra, lookup_insert_eq. }
  { by rewrite Hbo. }
  assert (Hk : ∀ k, k ≠ id → k ≠ svm_next σ → get_range σ2 k = get_range σ k).
  { intros k H1 H2. rewrite Hch by done. unfold get_range. by rewrite Hra, lookup_insert_ne. }
  assert (Ht' : same_tables σ σ2) by by transitivity σ1. cbn [mbind option_bind].
  destruct Hrc as [(-> & Hsp & Hkept)|(-> & Hno & Hbos & Htt & Hwp)].
  - eexists _, _, _. split; [reflexivity|]. split_and!; [done|lia|lia|done|]. left. split_and!; try done.
    + by rewrite Hn2.
    + by eexists _, _.
    + unfold bos_kept in *. by rewrite <- Hbo.
  - change (nz (-ENOMEM)) with true. cbv iota. rewrite (free_no_vram _ _ n) by done. cbn [mbind option_bind].
    eexists _, _, _. split; [reflexivity|]. split_and!; [done|simpl; lia|simpl; lia| |].
    + intros k H1 H2. unfold get_range. simpl. rewrite lookup_delete_ne by done. by apply Hk.
    + right. split_and!; try done; [by simpl; rewrite Hbos| |].
      * apply lookup_delete_eq.
      * destruct Hwp as (a & v & ->). exists a, v. rewrite <- Ho. by apply lookup_delete_ne.
Qed.
End Proof.
