(* ===== verification/SvmAdd.v ===== *)
(** * Shared virtual memory: the transaction of [svm_range_add]

    [svm_range_add] clones, splits and makes ranges until every page of the request has
    one that only the request changes.  Until [svm_range_set_attr] commits, the
    ranges that were there stay as they are: [ext] says which objects are new.  The
    ranges that will be in the tables are a [chain], sorted and disjoint; [pages] reads
    the page of an address from it. *)

From S2P Require Import Prelude Svm SvmProof.
#[local] Open Scope Z_scope.
#[local] Open Scope list_scope.

(** ** New objects *)

Definition fresh (σ : svm_range_list) : Prop := ∀ k, (svm_next σ ≤ k)%nat → get_range σ k = None.
(** In system memory, with no piece of it waiting for work. *)
Definition plain_range (r : svm_range) : Prop :=
  ttm_res r = None ∧ svm_bo r = None ∧ child_list r = [] ∧ work_op r ≠ SVM_OP_UNMAP_RANGE.
Definition plain (σ : svm_range_list) : Prop := ∀ k r, get_range σ k = Some r → plain_range r.

(** [σ'] has the objects of [σ] and [N] besides. *)
Record ext (σ σ' : svm_range_list) (N : list nat) : Prop := {
  ex_tables : same_tables σ σ';
  ex_bos : bos σ' = bos σ;
  ex_next : (svm_next σ ≤ svm_next σ')%nat;
  ex_old k : (k < svm_next σ)%nat → get_range σ' k = get_range σ k;
  ex_new k : (svm_next σ ≤ k)%nat → is_Some (get_range σ' k) ↔ k ∈ N;
  ex_nodup : NoDup N;
  ex_ids k : k ∈ N → (svm_next σ ≤ k < svm_next σ')%nat;
  ex_plain k r : k ∈ N → get_range σ' k = Some r → plain_range r;
}.

Lemma fresh_lt σ k r : fresh σ → get_range σ k = Some r → (k < svm_next σ)%nat.
Proof. intros Hf Hk. destruct (decide (svm_next σ ≤ k)%nat) as [H|]; [|lia]. rewrite Hf in Hk by done. done. Qed.

Lemma ext_refl σ : fresh σ → ext σ σ [].
Proof.
  intros Hf. split; try done.
  - intros k Hk. rewrite Hf by done. split; [intros []; done|by intros ?%not_elem_of_nil].
  - apply NoDup_nil_2.
  - by intros k ?%not_elem_of_nil.
  - by intros k r ?%not_elem_of_nil.
Qed.

Lemma ext_fresh σ σ' N : fresh σ → ext σ σ' N → fresh σ'.
Proof.
  intros Hf E k Hk. destruct (get_range σ' k) eqn:Eg; [|done]. pose proof (ex_next _ _ _ E).
  assert (k ∈ N) as Hin by (apply (ex_new _ _ _ E); [lia|by eexists]).
  apply (ex_ids _ _ _ E) in Hin. lia.
Qed.

Lemma ext_lookup σ σ' N k r : fresh σ → ext σ σ' N → get_range σ k = Some r → get_range σ' k = Some r.
Proof. intros Hf E Hk. rewrite (ex_old _ _ _ E); [done|by eapply fresh_lt]. Qed.

Lemma ext_dom σ σ' N k : fresh σ → ext σ σ' N → is_Some (get_range σ' k) ↔ is_Some (get_range σ k) ∨ k ∈ N.
Proof.
  intros Hf E. destruct (decide (k < svm_next σ)%nat) as [Hk|Hk].
  - rewrite (ex_old _ _ _ E) by done. split; [by left|]. intros [?|?%(ex_ids _ _ _ E)]; [done|lia].
  - rewrite (ex_new _ _ _ E), Hf by lia. split; [by right|]. intros [[? ?]|?]; done.
Qed.

Lemma ext_plain σ σ' N : fresh σ → ext σ σ' N → plain σ → plain σ'.
Proof.
  intros Hf E Hn k r Hr. destruct (decide (k < svm_next σ)%nat) as [Hk|Hk].
  - rewrite (ex_old _ _ _ E) in Hr by done. by eapply Hn.
  - eapply (ex_plain _ _ _ E); [|done]. apply (ex_new _ _ _ E); [lia|by eexists].
Qed.

Lemma ext_trans σ σ1 σ2 N1 N2 : fresh σ → ext σ σ1 N1 → ext σ1 σ2 N2 → ext σ σ2 (N1 ++ N2).
Proof.
  intros Hf E1 E2. pose proof (ext_fresh _ _ _ Hf E1) as Hf1.
  pose proof (ex_next _ _ _ E1). pose proof (ex_next _ _ _ E2). split.
  - etransitivity; [apply E1|apply E2].
  - by rewrite (ex_bos _ _ _ E2), (ex_bos _ _ _ E1).
  - lia.
  - intros k Hk. rewrite (ex_old _ _ _ E2), (ex_old _ _ _ E1) by lia. done.
  - intros k Hk. rewrite (ext_dom _ _ _ _ Hf1 E2), elem_of_app, (ex_new _ _ _ E1) by done. done.
  - apply NoDup_app. split_and!; [apply E1| |apply E2].
    intros k ?%(ex_ids _ _ _ E1) ?%(ex_ids _ _ _ E2). lia.
  - intros k [?%(ex_ids _ _ _ E1)|?%(ex_ids _ _ _ E2)]%elem_of_app; lia.
  - intros k r [Hk|Hk]%elem_of_app Hr.
    + pose proof (ex_ids _ _ _ E1 _ Hk). rewrite (ex_old _ _ _ E2) in Hr by lia. by eapply (ex_plain _ _ _ E1).
    + by eapply (ex_plain _ _ _ E2).
Qed.

Lemma ext_perm σ σ' N N' : N ≡ₚ N' → ext σ σ' N → ext σ σ' N'.
Proof.
  intros HP E. split; try apply E; intros *; rewrite <- HP; apply E.
Qed.

(** ** Chains *)

(** Sorted and disjoint ranges from [lo] on. *)
Fixpoint chain (σ : svm_range_list) (lo : Z) (l : list nat) : Prop :=
  match l with
  | [] => True
  | id :: l => ∃ r, get_range σ id = Some r ∧ range_ok r ∧ lo ≤ start r ∧ chain σ (last r + 1) l
  end.
Definition below (σ : svm_range_list) (l : list nat) (hi : Z) : Prop :=
  ∀ id r, id ∈ l → get_range σ id = Some r → last r ≤ hi.

Lemma chain_mono σ lo lo' l : lo' ≤ lo → chain σ lo l → chain σ lo' l.
Proof. destruct l as [|id l]; [done|]. intros ? (r & ? & ? & ? & ?). exists r. split_and!; (done || lia). Qed.

Lemma chain_get σ lo l id : chain σ lo l → id ∈ l → ∃ r, get_range σ id = Some r ∧ range_ok r ∧ lo ≤ start r.
Proof.
  revert lo. induction l as [|j l IH]; intros lo; [by intros _ ?%not_elem_of_nil|].
  intros (r & Hr & Hok & Hlo & Hc) [->|Hin]%elem_of_cons; [by exists r|].
  destruct (IH _ Hc Hin) as (q & ? & ? & ?). exists q. pose proof (rg_bounds _ Hok). split_and!; (done || lia).
Qed.

Lemma chain_NoDup σ lo l : chain σ lo l → NoDup l.
Proof.
  revert lo. induction l as [|j l IH]; intros lo; [intros; apply NoDup_nil_2|].
  intros (r & Hr & Hok & Hlo & Hc). apply NoDup_cons. split; [|by eapply IH].
  intros Hin. destruct (chain_get _ _ _ _ Hc Hin) as (q & Hq & _ & ?). rewrite Hr in Hq. injection Hq as ->.
  pose proof (rg_bounds _ Hok). lia.
Qed.

Lemma chain_app σ lo mid l1 l2 :
  lo ≤ mid + 1 → chain σ lo l1 → below σ l1 mid → chain σ (mid + 1) l2 → chain σ lo (l1 ++ l2).
Proof.
  revert lo. induction l1 as [|j l IH]; intros lo Hm; simpl; [intros _ _; by apply chain_mono|].
  intros (r & Hr & Hok & Hlo & Hc) Hb H2. exists r. split_and!; try done.
  assert (last r ≤ mid) by (eapply Hb; [by apply list_elem_of_here|done]).
  apply IH; [lia|done| |done]. intros id q ? ?. eapply Hb; [by apply list_elem_of_further|done].
Qed.

Lemma chain_agree σ σ' lo l : (∀ k, k ∈ l → get_range σ' k = get_range σ k) → chain σ lo l → chain σ' lo l.
Proof.
  revert lo. induction l as [|j l IH]; intros lo Hag; simpl; [done|].
  intros (r & Hr & Hok & Hlo & Hc). exists r. rewrite Hag by apply list_elem_of_here. split_and!; try done.
  apply IH; [|done]. intros k ?. by apply Hag, list_elem_of_further.
Qed.

(** ** Pages *)

(** The page of an address in the first range that has it, changed by [f]. *)
Fixpoint pages (f : nat → svm_range → svm_range) (σ : svm_range_list) (l : list nat) (x : Z) : option svm_range :=
  match l with
  | [] => None
  | id :: l =>
      match get_range σ id with
      | Some r => if decide (covers r x) then Some (page (f id r) x) else pages f σ l x
      | None => pages f σ l x
      end
  end.
Definition as_is (id : nat) (r : svm_range) : svm_range := r.

(** The number of pages. *)
Fixpoint total (σ : svm_range_list) (l : list nat) : Z :=
  match l with
  | [] => 0
  | id :: l => (match get_range σ id with Some r => last r - start r + 1 | None => 0 end) + total σ l
  end.

Lemma pages_app f σ l1 l2 x : pages f σ (l1 ++ l2) x = pages f σ l1 x ∪ pages f σ l2 x.
Proof.
  induction l1 as [|j l IH]; simpl; [by destruct (pages _ _ _ _)|].
  destruct (get_range σ j) as [r|]; [|done]. by destruct (decide _); [destruct (pages f σ l2 x)|].
Qed.

Lemma pages_agree f g σ σ' l x :
  (∀ k, k ∈ l → get_range σ' k = get_range σ k) → (∀ k r, k ∈ l → f k r = g k r) → pages f σ' l x = pages g σ l x.
Proof.
  induction l as [|j l IH]; intros Hag Hfg; simpl; [done|].
  rewrite Hag, IH by (apply list_elem_of_here || (intros; (apply Hag || apply Hfg); by apply list_elem_of_further)).
  destruct (get_range σ j); [|done]. by rewrite Hfg by apply list_elem_of_here.
Qed.

Lemma pages_low f σ lo l x : chain σ lo l → x < lo → pages f σ l x = None.
Proof.
  revert lo. induction l as [|j l IH]; intros lo; simpl; [done|].
  intros (r & -> & Hok & Hlo & Hc) Hx. pose proof (rg_bounds _ Hok).
  rewrite decide_False by (unfold covers; lia). eapply IH; [done|lia].
Qed.

Lemma pages_high f σ hi l x : below σ l hi → hi < x → pages f σ l x = None.
Proof.
  induction l as [|j l IH]; intros Hb Hx; simpl; [done|].
  rewrite IH by (done || (intros id r ? ?; eapply Hb; [by apply list_elem_of_further|done])).
  destruct (get_range σ j) as [r|] eqn:Er; [|done]. specialize (Hb j r (list_elem_of_here _ _) Er).
  by rewrite decide_False by (unfold covers; lia).
Qed.

Lemma total_app σ l1 l2 : total σ (l1 ++ l2) = total σ l1 + total σ l2.
Proof. induction l1 as [|j l IH]; simpl; [done|]. rewrite IH. lia. Qed.

#[global] Instance total_perm σ : Proper ((≡ₚ) ==> (=)) (total σ).
Proof. intros l1 l2 H. induction H; simpl; lia. Qed.

Lemma total_agree σ σ' l : (∀ k, k ∈ l → get_range σ' k = get_range σ k) → total σ' l = total σ l.
Proof.
  induction l as [|j l IH]; intros Hag; simpl; [done|].
  rewrite Hag, IH by (apply list_elem_of_here || (intros; apply Hag; by apply list_elem_of_further)). done.
Qed.

Section Add.
Context (LOCATION_UNDEFINED FLAG_HOST_ACCESS FLAG_COHERENT : Z).
Context (mem_ok : nat → bool) (no_system_mem_limit : bool) (max_system_mem_limit : Z).
Context (max_svm_range_pages : Z) (pdds : list (option Z)).
Abbreviation range_new := (svm_range_new LOCATION_UNDEFINED FLAG_HOST_ACCESS FLAG_COHERENT mem_ok
  no_system_mem_limit max_system_mem_limit pdds).
Abbreviation split := (svm_range_split LOCATION_UNDEFINED FLAG_HOST_ACCESS FLAG_COHERENT mem_ok
  no_system_mem_limit max_system_mem_limit pdds).
Abbreviation clone := (svm_range_clone LOCATION_UNDEFINED FLAG_HOST_ACCESS FLAG_COHERENT mem_ok
  no_system_mem_limit max_system_mem_limit pdds).
Abbreviation new_range := (new_range LOCATION_UNDEFINED FLAG_HOST_ACCESS FLAG_COHERENT pdds).

(** Every request for memory can be served. *)
Definition plenty : Prop := (∀ k, mem_ok k = true) ∧ no_system_mem_limit = true.

(** ** Single steps *)

Lemma new_ext σ s l u σ' o : fresh σ → range_new σ s l u = (σ', o) →
  match o with
  | Some id => id = svm_next σ ∧ ext σ σ' [id] ∧ get_range σ' id = Some (new_range (xnack_enabled σ) (bitmap_supported σ) s l) ∧
      system_mem_used σ' = system_mem_used σ + (if u then charge σ (l - s + 1) else 0)
  | None => ext σ σ' [] ∧ system_mem_used σ' = system_mem_used σ ∧ ¬ plenty
  end.
Proof.
  intros Hf Hn. apply new_spec in Hn as (Ht & Hb & Hn). destruct o as [id|].
  - destruct Hn as (-> & Hr & Hx & Hm).
    assert (Hnew : get_range σ' (svm_next σ) = Some (new_range (xnack_enabled σ) (bitmap_supported σ) s l)).
    { unfold get_range. by rewrite Hr, lookup_insert_eq. }
    split; [done|]. split; [|done]. split; try done.
    + lia.
    + intros k Hk. unfold get_range. rewrite Hr, lookup_insert_ne by lia. done.
    + intros k Hk. rewrite list_elem_of_singleton. unfold get_range. rewrite Hr.
      destruct (decide (k = svm_next σ)) as [->|]; [by rewrite lookup_insert_eq|].
      rewrite lookup_insert_ne by done. change (ranges σ !! k) with (get_range σ k).
      rewrite (Hf k) by done. split; [intros []; done|done].
    + apply NoDup_singleton.
    + intros k ->%list_elem_of_singleton. lia.
    + intros k r ->%list_elem_of_singleton. rewrite Hnew. by intros [= <-].
  - destruct Hn as (Hr & Hx & Hm & Hno). split; [|split; [done|]].
    + assert (Hget : ∀ k, get_range σ' k = get_range σ k) by (intros k; unfold get_range; by rewrite Hr).
      split; try done.
      * lia.
      * intros k Hk. rewrite Hget, Hf by done. split; [by intros []|by intros ?%not_elem_of_nil].
      * apply NoDup_nil_2.
      * by intros k ?%not_elem_of_nil.
      * by intros k r ?%not_elem_of_nil.
    + intros [Hall Hlim]. destruct (Hno (Hall _)). congruence.
Qed.

(** A new object that is freed again. *)
Lemma ext_free σ σ' N id : id ∉ N → ext σ σ' (id :: N) → ext σ (σ' <| ranges ::= delete id |>) N.
Proof.
  intros Hni E. pose proof (ex_ids _ _ _ E id (list_elem_of_here _ _)) as Hid.
  assert (Hne : ∀ k, k ∈ N → k ≠ id) by congruence.
  split; try apply E.
  - intros k Hk. unfold get_range. simpl. rewrite lookup_delete_ne by lia. by apply (ex_old _ _ _ E).
  - intros k Hk. unfold get_range. simpl. destruct (decide (k = id)) as [->|].
    + rewrite lookup_delete_eq. split; [by intros []|done].
    + rewrite lookup_delete_ne by done. rewrite (ex_new _ _ _ E k Hk), elem_of_cons. naive_solver.
  - by apply NoDup_cons_1_2 with id, E.
  - intros k Hk. apply (ex_ids _ _ _ E). by apply list_elem_of_further.
  - intros k r Hk. unfold get_range. simpl. rewrite lookup_delete_ne by (symmetry; by apply Hne).
    apply (ex_plain _ _ _ E). by apply list_elem_of_further.
Qed.

(** An object that is new changes. *)
Lemma ext_put σ σ' N id r : id ∈ N → ext σ σ' N → plain_range r → ext σ (put_range σ' id r) N.
Proof.
  intros Hin E Hr. pose proof (ex_ids _ _ _ E _ Hin) as Hid. split; try apply E.
  - intros k Hk. rewrite get_put_ne by lia. by apply (ex_old _ _ _ E).
  - intros k Hk. destruct (decide (id = k)) as [<-|]; [by rewrite get_put_eq|rewrite get_put_ne by done; by apply E].
  - intros k q Hk. destruct (decide (id = k)) as [<-|]; [rewrite get_put_eq; by intros [= <-]|].
    rewrite get_put_ne by done. by apply E.
Qed.

Lemma ext_asked σ σ' N k : ext σ σ' N → ext σ (σ' <| asked := k |>) N.
Proof. intros E. split; apply E. Qed.

Lemma copy_dma_spec arrays n : ∀ σ, ∃ σ' res, copy_dma_addrs mem_ok σ arrays n = (σ', res) ∧ only_asked σ σ' ∧
  match res with Some l => l = slices n 0 arrays | None => ¬ plenty end.
Proof.
  induction arrays as [|[a|] arrays IH]; intros σ; cbn [copy_dma_addrs].
  - eexists _, _. split; [done|]. split; [|done]. by exists (asked σ); destruct σ.
  - unfold svm_alloc. destruct (mem_ok (asked σ)) eqn:Em; cbn [negb].
    + destruct (IH (σ <| asked := S (asked σ) |>)) as (σ' & res & H & [k ->] & Hres).
      change (σ <| asked ::= S |>) with (σ <| asked := S (asked σ) |>). rewrite H.
      eexists _, _. split; [done|]. split; [by eexists|]. destruct res as [l|]; [|done]. simpl. by rewrite Hres.
    + eexists _, _. split; [done|]. split; [by eexists|]. intros [Hall _]. by rewrite Hall in Em.
  - destruct (IH σ) as (σ' & res & -> & Ho & Hres). eexists _, _. split; [done|]. split; [done|].
    destruct res as [l|]; [|done]. simpl. by rewrite Hres.
Qed.

Lemma slices_all n arrays : Forall (λ a, ∀ l, a = Some l → Z.of_nat (length l) = n) arrays → slices n 0 arrays = arrays.
Proof.
  induction 1 as [|a arrays Ha _ IH]; [done|]. unfold slices in *. simpl. f_equal; [|done].
  destruct a as [l|]; [|done]. simpl. f_equal. unfold svm_range_copy_array.
  rewrite drop_0. apply take_ge. specialize (Ha l eq_refl). lia.
Qed.

(** A clone has the pages of its original. *)
Record clone_of (o n : svm_range) : Prop := {
  cl_ok : range_ok n;
  cl_start : start n = start o;
  cl_last : last n = last o;
  cl_page x : page n x = page o x;
}.

Lemma clone_spec σ old o : fresh σ → get_range σ old = Some o → range_ok o → plain_range o →
  ∃ σ' res, clone σ old = Some (σ', res) ∧ system_mem_used σ' = system_mem_used σ ∧
    match res with
    | Some id => ext σ σ' [id] ∧ ∃ n, get_range σ' id = Some n ∧ clone_of o n
    | None => ext σ σ' [] ∧ ¬ plenty
    end.
Proof.
  intros Hf Ho Hok (Htt & Hbo & _). unfold svm_range_clone. rewrite Ho. cbn [mbind option_bind].
  destruct (range_new σ (start o) (last o) false) as [σ1 [id|]] eqn:En; apply (new_ext _ _ _ _ _ _ Hf) in En.
  2: { destruct En as (E & Hm & Hno). by eexists _, _. }
  destruct En as (-> & E & Hid & Hm). rewrite Z.add_0_r in Hm.
  destruct (copy_dma_spec (dma_addr o) (npages o) σ1) as (σ2 & res & -> & [k ->] & Hres). destruct res as [arrays|].
  - change (get_range (σ1 <| asked := k |>) (svm_next σ)) with (get_range σ1 (svm_next σ)). rewrite Hid.
    cbn [mbind option_bind]. rewrite Hbo. eexists _, _. split; [reflexivity|]. split; [done|]. split.
    + apply ext_put; [by apply list_elem_of_singleton|by apply ext_asked|done].
    + eexists. split; [apply get_put_eq|]. rewrite (slices_all _ _ (rg_arrays _ Hok)) in Hres. subst arrays.
      pose proof (rg_npages _ Hok). assert (Hvo : in_vram o = false).
      { unfold in_vram. rewrite Htt, bool_decide_false by (by intros []). by rewrite andb_false_r. }
      split; try done.
      * destruct Hok as [H1 H2 H3 H4 H5 H6]. rewrite H2 in H3. split; try done. unfold in_vram; simpl. by rewrite andb_false_r.
      * intros x. unfold page, page_arrays. unfold in_vram in *. rewrite Hvo. simpl. by rewrite andb_false_r.
  - erewrite free_no_vram; [|exact Hid|done]. cbn [mbind option_bind].
    eexists _, _. split; [reflexivity|]. split; [done|]. split; [|done].
    apply ext_free; [by apply not_elem_of_nil|]. by apply ext_asked.
Qed.

Definition unchanged (σ σ' : svm_range_list) (l : list nat) : Prop := ∀ k, k ∉ l → get_range σ' k = get_range σ k.

(** A split of a new object makes another. *)
Lemma split_ext σ0 σ N id q s' l' :
  fresh σ0 → ext σ0 σ N → id ∈ N → get_range σ id = Some q → range_ok q → plain_range q → split_ok q s' l' →
  ∃ σ' rc new, split σ id s' l' None = Some (σ', rc, new) ∧ system_mem_used σ' = system_mem_used σ ∧
    match new with
    | Some t => rc = 0 ∧ (t ∉ N) ∧ ext σ0 σ' (t :: N) ∧ unchanged σ σ' [id; t] ∧
        ∃ o n, get_range σ' id = Some o ∧ get_range σ' t = Some n ∧ split_of q o n s' l' ∧
               plain_range o ∧ plain_range n
    | None => rc = -ENOMEM ∧ ext σ0 σ' N ∧ ¬ plenty
    end.
Proof.
  intros Hf E Hin Hq Hok (Htt & Hbo & Hchild & Hop) Hs. pose proof (ext_fresh _ _ _ Hf E) as Hf1.
  assert (Hvo : in_vram q = false).
  { unfold in_vram. rewrite Htt, bool_decide_false by (by intros []). by rewrite andb_false_r. }
  pose proof (fresh_lt _ _ _ Hf1 Hq) as Hlt. pose proof (ex_ids _ _ _ E _ Hin) as Hid.
  pose proof (ex_next _ _ _ E) as Hnx.
  destruct (split_spec LOCATION_UNDEFINED FLAG_HOST_ACCESS FLAG_COHERENT mem_ok no_system_mem_limit
    max_system_mem_limit pdds σ id q s' l' None) as (σ' & rc & new & Hsp & Ht & Hm & Hn & Hch & Hc); try done.
  { by apply Hf1. }
  { congruence. }
  exists σ', rc, new. split; [done|]. split; [done|].
  destruct Hc as [(-> & -> & Hn' & (o & n & Ho & Hnew & Hso) & Hbk & _)|(-> & -> & Hno & Hb & Hnone & a & v & Hw)].
  - specialize (Hbk Hvo). assert (Hni : svm_next σ ∉ N) by (intros ?%(ex_ids _ _ _ E); lia).
    destruct (sp_o_links _ _ _ _ _ Hso) as (_ & _ & Ho4 & Ho3 & _ & Ho1 & Ho2).
    destruct (sp_n_links _ _ _ _ _ Hso) as (_ & _ & Hn4 & Hn3 & _ & Hn1). specialize (Hn1 Hvo) as [Hn1 Hn2].
    assert (plain_range o) by (split_and!; congruence). assert (plain_range n) by (split_and!; (done || by rewrite Hn4)).
    split; [done|]. split; [done|]. split.
    + split.
      * etransitivity; [apply E|done].
      * by rewrite Hbk, (ex_bos _ _ _ E).
      * lia.
      * intros k Hk. rewrite Hch by lia. by apply E.
      * intros k Hk. rewrite elem_of_cons. destruct (decide (k = svm_next σ)) as [->|]; [rewrite Hnew; naive_solver|].
        destruct (decide (k = id)) as [->|]; [rewrite Ho; naive_solver|].
        rewrite Hch by done. rewrite (ex_new _ _ _ E) by done. naive_solver.
      * apply NoDup_cons. split; [done|apply E].
      * intros k [->|Hk%(ex_ids _ _ _ E)]%elem_of_cons; lia.
      * intros k r Hk Hr. destruct (decide (k = svm_next σ)) as [->|]; [congruence|].
        destruct (decide (k = id)) as [->|]; [congruence|]. apply elem_of_cons in Hk as [->|Hk]; [done|].
        rewrite Hch in Hr by done. by eapply (ex_plain _ _ _ E).
    + split; [|by eexists _, _]. intros k Hk. apply Hch; set_solver.
  - split; [done|]. split.
    + split.
      * etransitivity; [apply E|done].
      * by rewrite Hb, (ex_bos _ _ _ E).
      * lia.
      * intros k Hk. rewrite Hch by lia. by apply E.
      * intros k Hk. destruct (decide (k = svm_next σ)) as [->|].
        { rewrite Hnone. split; [by intros []|]. intros ?%(ex_ids _ _ _ E); lia. }
        destruct (decide (k = id)) as [->|]; [rewrite Hw; naive_solver|].
        rewrite Hch by done. by rewrite (ex_new _ _ _ E) by done.
      * apply E.
      * intros k Hk%(ex_ids _ _ _ E). lia.
      * intros k r Hk Hr. destruct (decide (k = id)) as [->|].
        { rewrite Hw in Hr. by injection Hr as <-. }
        destruct (decide (k = svm_next σ)) as [->|]; [congruence|]. rewrite Hch in Hr by done.
        by eapply (ex_plain _ _ _ E).
    + intros [Hall _]. done.
Qed.

(** The wrappers put the new piece on a list. *)
Definition with_piece (ls : add_lists) (rm : list nat) (t : nat) : add_lists :=
  mk_lists (update_list ls) (t :: insert_list ls) (remove_list ls) rm (new_list ls).

Lemma split_head_spec σ ls id s q : get_range σ id = Some q →
  ∀ σ' rc new, split σ id s (last q) None = Some (σ', rc, new) →
  match new with
  | Some t => rc = 0 ∧ is_Some (get_range σ' t) →
      ∃ rm, svm_range_split_head LOCATION_UNDEFINED FLAG_HOST_ACCESS FLAG_COHERENT mem_ok no_system_mem_limit
              max_system_mem_limit pdds σ ls id s = Some (σ', with_piece ls rm t, 0)
  | None => rc = -ENOMEM →
      svm_range_split_head LOCATION_UNDEFINED FLAG_HOST_ACCESS FLAG_COHERENT mem_ok no_system_mem_limit
              max_system_mem_limit pdds σ ls id s = Some (σ', ls, -ENOMEM)
  end.
Proof.
  intros Hq σ' rc new Hs. unfold svm_range_split_head. rewrite Hq. cbn [mbind option_bind]. rewrite Hs.
  cbn [mbind option_bind]. destruct new as [t|]; [intros [-> [h Hh]]|intros ->; done].
  change (nz 0) with false. cbn [mbind option_bind]. rewrite Hh. cbn [mbind option_bind].
  destruct (_ && _); by eexists.
Qed.

Lemma split_tail_spec σ ls id l q : get_range σ id = Some q →
  ∀ σ' rc new, split σ id (start q) l None = Some (σ', rc, new) →
  match new with
  | Some t => rc = 0 ∧ is_Some (get_range σ' t) →
      ∃ rm, svm_range_split_tail LOCATION_UNDEFINED FLAG_HOST_ACCESS FLAG_COHERENT mem_ok no_system_mem_limit
              max_system_mem_limit pdds σ ls id l = Some (σ', with_piece ls rm t, 0)
  | None => rc = -ENOMEM →
      svm_range_split_tail LOCATION_UNDEFINED FLAG_HOST_ACCESS FLAG_COHERENT mem_ok no_system_mem_limit
              max_system_mem_limit pdds σ ls id l = Some (σ', ls, -ENOMEM)
  end.
Proof.
  intros Hq σ' rc new Hs. unfold svm_range_split_tail. rewrite Hq. cbn [mbind option_bind]. rewrite Hs.
  cbn [mbind option_bind]. destruct new as [t|]; [intros [-> [h Hh]]|intros ->; done].
  change (nz 0) with false. cbn [mbind option_bind]. rewrite Hh. cbn [mbind option_bind].
  destruct (_ && _); by eexists.
Qed.

(** ** Filling gaps *)

Lemma align_down_spec x k : 0 ≤ k → align_down x (2 ^ k) = x - x `mod` 2 ^ k.
Proof.
  intros Hk. unfold align_down. replace (2 ^ k - 1) with (Z.ones k) by (rewrite Z.ones_equiv; lia).
  rewrite Z.ldiff_ones_r by done.
  rewrite Z.shiftr_div_pow2, Z.shiftl_mul_pow2 by done. assert (0 < 2 ^ k) by lia.
  pose proof (Z.div_mod x (2 ^ k)). lia.
Qed.

(** A power of two ([svm_range_set_max_pages] rounds down to one). *)
Definition max_pages_ok : Prop := ∃ k, 0 ≤ k ∧ max_svm_range_pages = 2 ^ k.

Lemma next_end s : max_pages_ok → s ≤ align_down (s + max_svm_range_pages) max_svm_range_pages - 1.
Proof.
  intros (k & Hk & ->). rewrite align_down_spec by done. assert (0 < 2 ^ k) by lia.
  pose proof (Z.mod_pos_bound (s + 2 ^ k) (2 ^ k)). lia.
Qed.

Abbreviation new_loop := (split_new_loop LOCATION_UNDEFINED FLAG_HOST_ACCESS FLAG_COHERENT mem_ok
  no_system_mem_limit max_system_mem_limit pdds).

(** The default attributes of a page that had none. *)
Definition default_page (σ : svm_range_list) (x : Z) : svm_range :=
  page (new_range (xnack_enabled σ) (bitmap_supported σ) x x) x.

Lemma page_new xnack sup s l x : page (new_range xnack sup s l) x = page (new_range xnack sup x x) x.
Proof.
  unfold page, page_arrays. f_equal. simpl. unfold slices. rewrite !map_map. by apply map_ext.
Qed.

(** What a loop leaves. *)
Record ledger (σ σ' : svm_range_list) (I Nw : list nat) : Prop := {
  lg_ext : ext σ σ' (I ++ Nw);
  lg_mem : system_mem_used σ' = system_mem_used σ + charge σ (total σ' Nw);
}.

(** All ranges are new. *)
Definition all_new (σ : svm_range_list) (l : list nat) : Prop :=
  ∀ k, k ∈ l → ∃ s e, get_range σ k = Some (new_range (xnack_enabled σ) (bitmap_supported σ) s e).

Lemma charge_add σ a b : charge σ (a + b) = charge σ a + charge σ b.
Proof. unfold charge. destruct (xnack_enabled σ); [done|]. rewrite !Z.shiftl_mul_pow2 by (unfold PAGE_SHIFT; lia). lia. Qed.
Lemma charge_0 σ : charge σ 0 = 0.
Proof. unfold charge. by destruct (xnack_enabled σ). Qed.
Lemma charge_same σ σ' a : same_tables σ σ' → charge σ' a = charge σ a.
Proof. intros (_ & _ & _ & _ & H). unfold charge. by rewrite H. Qed.

Lemma new_loop_spec fuel : ∀ σ ls s e, fresh σ → max_pages_ok → 0 < s ≤ e + 1 → (Z.to_nat (e - s + 1) ≤ fuel)%nat →
  ∃ σ' l rc, new_loop fuel σ ls s e max_svm_range_pages =
      Some (σ', mk_lists (rev l ++ update_list ls) (insert_list ls) (remove_list ls) (remap_list ls) (rev l ++ new_list ls), rc) ∧
    ledger σ σ' [] l ∧ all_new σ' l ∧ chain σ' s l ∧ below σ' l e ∧
    (rc = 0 ∧ total σ' l = e - s + 1 ∨ rc = -ENOMEM ∧ ¬ plenty).
Proof.
  induction fuel as [|fuel IH]; intros σ ls s e Hf Hmax Hs Hfuel; cbn [split_new_loop]; destruct (Z.ltb_spec e s); try lia.
  1,2: exists σ, [], 0; split; [by destruct ls|]; split; [split; [by apply ext_refl|simpl; rewrite charge_0; lia]|];
    split; [by intros k ?%not_elem_of_nil|]; split; [done|]; split; [by intros k r ?%not_elem_of_nil|]; left; simpl; split; [done|lia].
  pose proof (next_end s Hmax) as Hne. set (m := Z.min e (align_down (s + max_svm_range_pages) max_svm_range_pages - 1)) in *.
  assert (Hm : s ≤ m ≤ e) by (unfold m; lia).
  destruct (range_new σ s m true) as [σ1 [id|]] eqn:En; apply (new_ext _ _ _ _ _ _ Hf) in En.
  - destruct En as (-> & E1 & Hid & Hmem). pose proof (ext_fresh _ _ _ Hf E1) as Hf1.
    set (ls1 := mk_lists (svm_next σ :: update_list ls) (insert_list ls) (remove_list ls) (remap_list ls) (svm_next σ :: new_list ls)).
    destruct (IH σ1 ls1 (m + 1) e) as (σ2 & l & rc & Heq & [E2 Hm2] & Han & Hch & Hbe & Hrc); [done|done|lia|lia|].
    pose proof (ext_lookup _ _ _ _ _ Hf1 E2 Hid) as Hid2.
    destruct (ex_tables _ _ _ E1) as (_&_&_&Hsup1&Hx1). destruct (ex_tables _ _ _ E2) as (_&_&_&Hsup2&Hx2).
    assert (Hok : range_ok (new_range (xnack_enabled σ) (bitmap_supported σ) s m)) by (apply new_range_ok; lia).
    exists σ2, (svm_next σ :: l), rc. split.
    { simpl. rewrite <- !app_assoc. exact Heq. }
    split; [split|].
    { exact (ext_trans _ _ _ _ _ Hf E1 E2). }
    { simpl. rewrite Hid2, Hm2, Hmem. simpl. rewrite !charge_add, (charge_same _ _ _ (ex_tables _ _ _ E1)). lia. }
    split; [|split; [|split]].
    + intros k [->|Hk]%elem_of_cons; [|by apply Han]. exists s, m. by rewrite Hid2, Hx2, Hx1, Hsup2, Hsup1.
    + simpl. eexists. split_and!; [exact Hid2|done|simpl; lia|done].
    + intros k r [->|Hk]%elem_of_cons Hr; [|by eapply Hbe]. rewrite Hid2 in Hr. injection Hr as <-. simpl. lia.
    + destruct Hrc as [[-> Ht]|?]; [left|by right]. split; [done|]. simpl. rewrite Hid2, Ht. simpl. lia.
  - destruct En as (E & Hmem & Hno). exists σ1, [], (-ENOMEM). split; [by destruct ls|].
    split; [split; [done|simpl; rewrite charge_0; lia]|].
    split; [by intros k ?%not_elem_of_nil|]. split; [done|]. split; [by intros k r ?%not_elem_of_nil|]. by right.
Qed.

(** ** What will be in the tables *)

Section Attrs.
Context (xnack : bool) (attrs : list svm_attribute).
Abbreviation applied := (applied pdds xnack attrs).

Definition upd (U : list nat) (id : nat) (r : svm_range) : svm_range := if decide (id ∈ U) then applied r else r.

(** The page that the request makes of [p], when it has one. *)
Definition requested (σ : svm_range_list) (a b x : Z) (p : option svm_range) : option svm_range :=
  if decide (a ≤ x ≤ b) then Some (applied (default (default_page σ x) p)) else p.

(** [segs] takes the place of [nodes]: from page [lo] on, with the request done for
    [a .. b]; [Rm] is removed and [I] and [Nw] are inserted. *)
Record space (σ σ' : svm_range_list) (a b lo : Z) (nodes U I Rm Nw segs : list nat) : Prop := {
  sp_perm : segs ++ Rm ≡ₚ nodes ++ I ++ Nw;
  sp_upd k : k ∈ U → k ∈ segs;
  sp_nodup : NoDup U;
  sp_chain : chain σ' lo segs;
  sp_total : total σ' segs = total σ nodes + total σ' Nw;
  sp_pages x : pages (upd U) σ' segs x = requested σ a b x (pages as_is σ nodes x);
  sp_gone k : k ∈ Rm → k ∈ nodes;
}.

Lemma space_ids σ σ' a b lo nodes U I Rm Nw segs k :
  space σ σ' a b lo nodes U I Rm Nw segs → k ∈ segs → k ∈ nodes ∨ k ∈ I ++ Nw.
Proof. intros S Hk. rewrite <- elem_of_app, <- (sp_perm _ _ _ _ _ _ _ _ _ _ _ S), elem_of_app. by left. Qed.

(** Later steps leave it as it is. *)
Lemma space_later σ σ1 σ2 a b lo nodes U I Rm Nw segs N :
  space σ σ1 a b lo nodes U I Rm Nw segs → ext σ1 σ2 N → fresh σ1 →
  (∀ k, k ∈ Nw → is_Some (get_range σ1 k)) →
  space σ σ2 a b lo nodes U I Rm Nw segs.
Proof.
  intros S E Hf Hnw.
  assert (Hseg : ∀ k, k ∈ segs → get_range σ2 k = get_range σ1 k).
  { intros k Hk. destruct (chain_get _ _ _ _ (sp_chain _ _ _ _ _ _ _ _ _ _ _ S) Hk) as (r & Hr & _).
    rewrite Hr. by eapply ext_lookup. }
  assert (Hnew : ∀ k, k ∈ Nw → get_range σ2 k = get_range σ1 k).
  { intros k Hk. destruct (Hnw k Hk) as [r Hr]. rewrite Hr. by eapply ext_lookup. }
  destruct S as [S1 S2 S3 S4 S5 S6 S7]. split; try done.
  - by apply (chain_agree σ1).
  - by rewrite (total_agree _ _ segs Hseg), (total_agree _ _ Nw Hnew).
  - intros x. by rewrite (pages_agree (upd U) (upd U) σ1 σ2).
Qed.

(** What was there before earlier steps. *)
Lemma space_earlier σ σ1 σ2 a b lo nodes U I Rm Nw segs N :
  space σ1 σ2 a b lo nodes U I Rm Nw segs → ext σ σ1 N → (∀ k, k ∈ nodes → (k < svm_next σ)%nat) →
  space σ σ2 a b lo nodes U I Rm Nw segs.
Proof.
  intros [S1 S2 S3 S4 S5 S6 S7] E Hn.
  assert (Hag : ∀ k, k ∈ nodes → get_range σ1 k = get_range σ k) by (intros k Hk; by apply (ex_old _ _ _ E), Hn).
  split; try done.
  - by rewrite S5, (total_agree _ _ nodes Hag).
  - intros x. rewrite S6, (pages_agree as_is as_is σ σ1) by done. unfold requested, default_page.
    by destruct (ex_tables _ _ _ E) as (_ & _ & _ & -> & ->).
Qed.

Lemma space_perm σ σ' a b lo nodes U I Rm Nw segs U' I' Rm' Nw' :
  space σ σ' a b lo nodes U I Rm Nw segs → U ≡ₚ U' → I ≡ₚ I' → Rm ≡ₚ Rm' → Nw ≡ₚ Nw' →
  space σ σ' a b lo nodes U' I' Rm' Nw' segs.
Proof.
  intros [S1 S2 S3 S4 S5 S6 S7] HU HI HR HN. split.
  - by rewrite <- HI, <- HR, <- HN.
  - intros k. rewrite <- HU. apply S2.
  - by rewrite <- HU.
  - done.
  - by rewrite <- HN.
  - intros x. rewrite <- S6. apply pages_agree; [done|]. intros k r _. unfold upd.
    destruct (decide (k ∈ U)) as [HkU|HkU], (decide (k ∈ U')) as [HkU'|HkU']; try done; rewrite HU in HkU; done.
  - intros k. rewrite <- HR. apply S7.
Qed.

(** Two pieces of the address space. *)
Lemma space_join σ σ' a b1 a2 b lo mid nodes1 nodes2 U1 U2 I1 I2 Rm1 Rm2 Nw1 Nw2 segs1 segs2 :
  space σ σ' a b1 lo nodes1 U1 I1 Rm1 Nw1 segs1 →
  space σ σ' a2 b (mid + 1) nodes2 U2 I2 Rm2 Nw2 segs2 →
  below σ' segs1 mid → below σ nodes1 mid → chain σ (mid + 1) nodes2 → lo ≤ mid + 1 →
  a2 = b1 + 1 → a ≤ a2 → b1 ≤ b → (a ≤ b1 → b1 ≤ mid) → (a2 ≤ b → mid < a2) →
  space σ σ' a b lo (nodes1 ++ nodes2) (U1 ++ U2) (I1 ++ I2) (Rm1 ++ Rm2) (Nw1 ++ Nw2) (segs1 ++ segs2).
Proof.
  intros [P1 P2 P3 P4 P5 P6 P7] [Q1 Q2 Q3 Q4 Q5 Q6 Q7] Hb1 Hbn Hcn Hlo Ha2 Ha Hb Hm Hmid.
  assert (Hch : chain σ' lo (segs1 ++ segs2)) by by eapply chain_app.
  pose proof (chain_NoDup _ _ _ Hch) as (_ & Hdisj & _)%NoDup_app.
  split.
  - transitivity ((segs1 ++ Rm1) ++ (segs2 ++ Rm2)); [solve_Permutation|]. rewrite P1, Q1. solve_Permutation.
  - intros k [?%P2|?%Q2]%elem_of_app; apply elem_of_app; auto.
  - apply NoDup_app. split_and!; [done| |done]. intros k ?%P2 ?%Q2. by eapply Hdisj.
  - done.
  - rewrite !total_app, P5, Q5. lia.
  - intros x. rewrite !pages_app.
    rewrite (pages_agree (upd (U1 ++ U2)) (upd U1) σ' σ' segs1), (pages_agree (upd (U1 ++ U2)) (upd U2) σ' σ' segs2), P6, Q6.
    + unfold requested. destruct (decide (x ≤ mid)) as [Hx|Hx].
      * rewrite (pages_low as_is _ _ nodes2 x Hcn) by lia.
        repeat destruct (decide _); try lia; by destruct (pages _ _ nodes1 x).
      * rewrite (pages_high as_is _ mid nodes1 x Hbn) by lia.
        repeat destruct (decide _); try lia; by rewrite ?(left_id_L None (∪)).
    + done.
    + intros k r Hk. unfold upd. destruct (decide (k ∈ U2)), (decide (k ∈ U1 ++ U2)); set_solver.
    + done.
    + intros k r Hk. unfold upd. destruct (decide (k ∈ U1)), (decide (k ∈ U1 ++ U2)); set_solver.
  - intros k [?%P7|?%Q7]%elem_of_app; apply elem_of_app; auto.
Qed.

(** ** One node *)

(** A piece before or after the clone, or none. *)
Definition side (σ' : svm_range_list) (r : svm_range) (l : list nat) (s e : Z) : Prop :=
  l = [] ∧ e = s - 1 ∨
  ∃ h q, l = [h] ∧ get_range σ' h = Some q ∧ range_ok q ∧ start q = s ∧ last q = e ∧
         ∀ x, covers q x → page q x = page r x.

Lemma side_chain σ' r l s e : side σ' r l s e → chain σ' s l ∧ below σ' l e ∧ total σ' l = e - s + 1.
Proof.
  intros [[-> ->]|(h & q & -> & Hq & Hok & Hs & He & Hp)]; simpl.
  - split_and!; [done| |lia]. by intros k ? ?%not_elem_of_nil.
  - rewrite Hq. split_and!; [by exists q; split_and!; (done || lia)| |lia].
    intros k q' ->%list_elem_of_singleton. rewrite Hq. intros [= <-]. lia.
Qed.

Lemma side_pages f σ' r l s e x : side σ' r l s e → (∀ k r, k ∈ l → f k r = r) →
  pages f σ' l x = if decide (s ≤ x ≤ e) then Some (page r x) else None.
Proof.
  intros [[-> ->]|(h & q & -> & Hq & Hok & Hs & He & Hp)] Hf; simpl.
  - by rewrite decide_False by lia.
  - rewrite Hq, Hf by apply list_elem_of_here. subst s e. unfold covers in *.
    destruct (decide _); [by rewrite Hp|done].
Qed.

Lemma space_cut σ σ' node r cl q hs ts :
  get_range σ node = Some r → get_range σ' cl = Some q → range_ok r → range_ok q →
  start r ≤ start q → last q ≤ last r → (∀ x, covers q x → page q x = page r x) →
  side σ' r hs (start r) (start q - 1) → side σ' r ts (last q + 1) (last r) →
  cl ∉ hs → cl ∉ ts →
  space σ σ' (start q) (last q) (start r) [node] [cl] (ts ++ hs ++ [cl]) [node] [] (hs ++ [cl] ++ ts) ∧
  below σ' (hs ++ [cl] ++ ts) (last r).
Proof.
  intros Hr Hq Hokr Hokq Hs He Hp Hhs Hts Hch Hct.
  destruct (side_chain _ _ _ _ _ Hhs) as (Hc1 & Hb1 & Ht1). destruct (side_chain _ _ _ _ _ Hts) as (Hc2 & Hb2 & Ht2).
  pose proof (rg_bounds _ Hokq) as Hbq. pose proof (rg_bounds _ Hokr).
  split.
  - split.
    + simpl. rewrite app_nil_r. solve_Permutation.
    + intros k ->%list_elem_of_singleton. set_solver.
    + apply NoDup_singleton.
    + apply chain_app with (start q - 1); [lia|done|done|]. simpl. exists q. split_and!; try done. lia.
    + rewrite !total_app. simpl. rewrite Hr, Hq, Ht1, Ht2. lia.
    + intros x. rewrite !pages_app, (side_pages _ _ _ _ _ _ x Hhs), (side_pages _ _ _ _ _ _ x Hts);
        [|intros k' r' Hk; unfold upd; by rewrite decide_False by (intros ->%list_elem_of_singleton; done)..].
      simpl. rewrite Hr, Hq. unfold upd, requested, covers in *. rewrite (decide_True _ _ (list_elem_of_here cl [])).
      rewrite page_applied. repeat destruct (decide _); try lia; try done; simpl; unfold as_is; by rewrite Hp.
    + done.
  - intros k r' [Hk|[->%list_elem_of_singleton|Hk]%elem_of_app]%elem_of_app Hr'.
    + specialize (Hb1 _ _ Hk Hr'). lia.
    + rewrite Hq in Hr'. injection Hr' as <-. lia.
    + by apply (Hb2 k).
Qed.

(** The whole range, whose attributes change or stay as they are. *)
Lemma space_whole σ node r U a b : get_range σ node = Some r → range_ok r → NoDup U → (∀ k, k ∈ U → k = node) →
  start r ≤ a → b ≤ last r → (node ∈ U → a = start r ∧ b = last r) → (node ∉ U → applied r = r) →
  space σ σ a b (start r) [node] U [] [] [] [node].
Proof.
  intros Hr Hok Hnd HU Ha Hb Hin Hout. split; try done.
  - intros k ->%HU. apply list_elem_of_here.
  - simpl. rewrite Hr. by exists r; split_and!.
  - simpl. lia.
  - intros x. simpl. rewrite Hr. unfold upd, requested, covers, as_is. destruct (decide (node ∈ U)) as [HiU|HoU].
    + destruct (Hin HiU) as [-> ->]. destruct (decide _); [|done]. simpl. by rewrite page_applied.
    + destruct (decide (a ≤ x ≤ b)); [|done]. rewrite decide_True by lia. simpl. by rewrite <- page_applied, Hout.
  - by intros k ?%not_elem_of_nil.
Qed.

(** The split of a clone by [svm_range_split_head] and [svm_range_split_tail]. *)
Definition cut (σ0 σ : svm_range_list) (r : svm_range) (cl : nat) (hs ts : list nat) (s e : Z) : Prop :=
  ext σ0 σ (ts ++ hs ++ [cl]) ∧ side σ r hs (start r) (s - 1) ∧ side σ r ts (e + 1) (last r) ∧
  ∃ q, get_range σ cl = Some q ∧ range_ok q ∧ plain_range q ∧ start q = s ∧ last q = e ∧
       ∀ x, covers q x → page q x = page r x.

Lemma side_agree σ σ' r l s e : (∀ k, k ∈ l → get_range σ' k = get_range σ k) → side σ r l s e → side σ' r l s e.
Proof.
  intros Hag [?|(h & q & -> & Hq & ?)]; [by left|]. right. exists h, q. rewrite Hag by apply list_elem_of_here. done.
Qed.

Lemma side_one σ r id q s e : get_range σ id = Some q → range_ok q → start q = s → last q = e →
  (∀ x, covers q x → page q x = page r x) → side σ r [id] s e.
Proof. intros. right. by exists id, q. Qed.

Lemma cut_head σ0 σ ls r cl s : fresh σ0 → cut σ0 σ r cl [] [] (start r) (last r) → start r < s ≤ last r →
  ∃ σ' hs rm rc, svm_range_split_head LOCATION_UNDEFINED FLAG_HOST_ACCESS FLAG_COHERENT mem_ok no_system_mem_limit
      max_system_mem_limit pdds σ ls cl s =
      Some (σ', mk_lists (update_list ls) (hs ++ insert_list ls) (remove_list ls) rm (new_list ls), rc) ∧
    system_mem_used σ' = system_mem_used σ ∧
    (rc = 0 ∧ cut σ0 σ' r cl hs [] s (last r) ∨ rc = -ENOMEM ∧ hs = [] ∧ ext σ0 σ' [cl] ∧ ¬ plenty).
Proof.
  intros Hf (E & _ & _ & q & Hq & Hok & Hv & Hs & He & Hp) Hb. simpl in E.
  destruct (split_ext σ0 σ [cl] cl q s (last q)) as (σ' & rc & new & Hsp & Hm & Hn); try done.
  { by apply list_elem_of_singleton. } { split; [lia|]. right. lia. }
  pose proof (split_head_spec σ ls cl s q Hq _ _ _ Hsp) as Hh. destruct new as [t|].
  - destruct Hn as (-> & Hni & E' & _ & o & n & Ho & Hnew & Hso & Hvo & Hvn).
    destruct Hh as [rm ->]; [by split|]. exists σ', [t], rm, 0. split; [done|]. split; [done|]. left. split; [done|].
    destruct (sp_o _ _ _ _ _ Hso) as [Ho1 Ho2]. pose proof (sp_n _ _ _ _ _ Hso) as Hn12.
    rewrite (proj2 (Z.eqb_neq _ _)) in Hn12 by lia. destruct Hn12 as [Hn1 Hn2].
    split; [done|]. split; [|split].
    + eapply side_one; [done|by eapply sp_n_ok|congruence|done|].
      intros x Hx. rewrite (sp_page_n _ _ _ _ _ Hso x Hx). apply Hp. unfold covers in *. lia.
    + left. split; [done|lia].
    + exists o. split_and!; try done; [by eapply sp_o_ok|congruence|].
      intros x Hx. rewrite (sp_page_o _ _ _ _ _ Hso x Hx). apply Hp. unfold covers in *. lia.
  - destruct Hn as (-> & E' & Hno). rewrite (Hh eq_refl). exists σ', [], (remap_list ls), (-ENOMEM).
    split; [by destruct ls|]. split; [done|]. by right.
Qed.

Lemma cut_tail σ0 σ ls r cl hs s e : fresh σ0 → cut σ0 σ r cl hs [] s (last r) → s ≤ e < last r → cl ∉ hs →
  ∃ σ' ts rm rc, svm_range_split_tail LOCATION_UNDEFINED FLAG_HOST_ACCESS FLAG_COHERENT mem_ok no_system_mem_limit
      max_system_mem_limit pdds σ ls cl e =
      Some (σ', mk_lists (update_list ls) (ts ++ insert_list ls) (remove_list ls) rm (new_list ls), rc) ∧
    system_mem_used σ' = system_mem_used σ ∧
    (rc = 0 ∧ cut σ0 σ' r cl hs ts s e ∨ rc = -ENOMEM ∧ ts = [] ∧ ext σ0 σ' (hs ++ [cl]) ∧ ¬ plenty).
Proof.
  intros Hf (E & Hhs & _ & q & Hq & Hok & Hv & Hs & He & Hp) Hb Hch. simpl in E.
  destruct (split_ext σ0 σ (hs ++ [cl]) cl q (start q) e) as (σ' & rc & new & Hsp & Hm & Hn); try done.
  { apply elem_of_app. right. apply list_elem_of_here. } { split; [lia|]. left. lia. }
  pose proof (split_tail_spec σ ls cl e q Hq _ _ _ Hsp) as Hh. destruct new as [t|].
  - destruct Hn as (-> & Hni & E' & Hun & o & n & Ho & Hnew & Hso & Hvo & Hvn).
    destruct Hh as [rm ->]; [by split|]. exists σ', [t], rm, 0. split; [done|]. split; [done|]. left. split; [done|].
    destruct (sp_o _ _ _ _ _ Hso) as [Ho1 Ho2]. pose proof (sp_n _ _ _ _ _ Hso) as Hn12.
    rewrite Z.eqb_refl in Hn12. destruct Hn12 as [Hn1 Hn2].
    split; [done|]. split; [|split].
    + apply (side_agree σ); [|done]. intros k Hk. apply Hun. set_solver.
    + eapply side_one; [done|by eapply sp_n_ok|lia|lia|].
      intros x Hx. rewrite (sp_page_n _ _ _ _ _ Hso x Hx). apply Hp. unfold covers in *. lia.
    + exists o. split_and!; try done; [by eapply sp_o_ok|congruence|].
      intros x Hx. rewrite (sp_page_o _ _ _ _ _ Hso x Hx). apply Hp. unfold covers in *. lia.
  - destruct Hn as (-> & E' & Hno). rewrite (Hh eq_refl). exists σ', [], (remap_list ls), (-ENOMEM).
    split; [by destruct ls|]. split; [done|]. by right.
Qed.

Abbreviation update_node := (update_node LOCATION_UNDEFINED FLAG_HOST_ACCESS FLAG_COHERENT mem_ok no_system_mem_limit
  max_system_mem_limit pdds).

Definition put_lists (U I Rm rm Nw : list nat) (ls : add_lists) : add_lists :=
  mk_lists (U ++ update_list ls) (I ++ insert_list ls) (Rm ++ remove_list ls) rm (Nw ++ new_list ls).

Lemma ledger_ext σ σ' I : ext σ σ' I → system_mem_used σ' = system_mem_used σ → ledger σ σ' I [].
Proof. intros E Hm. split; [by rewrite app_nil_r|]. simpl. rewrite Hm, charge_0. lia. Qed.

(** How a step ends. *)
Definition outcome (σ σ' : svm_range_list) (a b lo hi : Z) (nodes U I Rm Nw : list nat) (rc : Z) : Prop :=
  rc = 0 ∧ (∃ segs, space σ σ' a b lo nodes U I Rm Nw segs ∧ below σ' segs hi) ∨ rc = -ENOMEM ∧ ¬ plenty.

Lemma cut_space σ σ' node r cl hs ts s e :
  fresh σ → get_range σ node = Some r → range_ok r → cut σ σ' r cl hs ts s e → start r ≤ s → e ≤ last r →
  space σ σ' s e (start r) [node] [cl] (ts ++ hs ++ [cl]) [node] [] (hs ++ [cl] ++ ts) ∧
  below σ' (hs ++ [cl] ++ ts) (last r).
Proof.
  intros Hf Hr Hok (E & Hhs & Hts & q & Hq & Hokq & _ & <- & <- & Hp) H1 H2.
  pose proof (ex_nodup _ _ _ E) as (_ & Hd1 & (_ & Hd2 & _)%NoDup_app)%NoDup_app.
  apply (space_cut σ σ' node r cl q); try done.
  - intros Hin. eapply Hd2; [done|apply list_elem_of_here].
  - intros Hin. eapply Hd1; [done|]. apply elem_of_app. right. apply list_elem_of_here.
Qed.

Lemma clone_cut σ σ' r cl n : ext σ σ' [cl] → get_range σ' cl = Some n → clone_of r n → 
  cut σ σ' r cl [] [] (start r) (last r).
Proof.
  intros E Hn [Hok Hs He Hp]. split; [done|]. split; [left; split; [done|lia]|]. split; [left; split; [done|lia]|].
  exists n. split_and!; try done. by apply (ex_plain _ _ _ E cl); [apply list_elem_of_here|].
Qed.

Lemma update_node_spec σ ls node r c b :
  fresh σ → get_range σ node = Some r → plain_range r → range_ok r → it_node r = (start r, last r) →
  c ≤ b → c ≤ last r → start r ≤ b →
  ∃ σ' U I Rm rm rc, update_node attrs σ ls node c b = Some (σ', put_lists U I Rm rm [] ls, rc) ∧
    ledger σ σ' I [] ∧
    outcome σ σ' (Z.max c (start r)) (Z.min b (last r)) (start r) (last r) [node] U I Rm [] rc.
Proof.
  intros Hf Hr Hv Hok Hit Hcb Hcl Hsb. pose proof (rg_bounds _ Hok) as Hbr.
  assert (Hbelow : below σ [node] (last r)).
  { intros k q ->%list_elem_of_singleton. rewrite Hr. by intros [= <-]. }
  assert (HE : ledger σ σ [] []) by (apply ledger_ext; [by apply ext_refl|done]).
  unfold Svm.update_node. rewrite Hr. cbn [mbind option_bind]. rewrite Hit.
  destruct (svm_range_is_same_attrs pdds r attrs && mapped_to_gpu r) eqn:Esame.
  { apply andb_true_iff in Esame as [Esame _]. exists σ, [], [], [], (remap_list ls), 0.
    split; [by destruct ls|]. split; [done|]. left. split; [done|]. exists [node]. split; [|done].
    eapply space_whole; try done; try lia; [apply NoDup_nil_2|by intros k ?%not_elem_of_nil| |].
    - by intros ?%not_elem_of_nil.
    - intros _. by apply same_attrs_applied. }
  clear Esame. destruct ((start r <? c) || (b <? last r)) eqn:Ecut.
  2: { apply orb_false_iff in Ecut as [E1%Z.ltb_ge E2%Z.ltb_ge]. exists σ, [node], [], [], (remap_list ls), 0.
    split; [by destruct ls|]. split; [done|]. left. split; [done|]. exists [node]. split; [|done].
    eapply space_whole; try done; try lia; [apply NoDup_singleton|by intros k ?%list_elem_of_singleton|].
    intros Hni. destruct Hni. apply list_elem_of_here. }
  destruct (clone_spec σ node r Hf Hr Hok Hv) as (σ1 & [cl|] & -> & Hm1 & Hcl1); cbn [mbind option_bind].
  2: { destruct Hcl1 as (E & Hno). exists σ1, [], [], [], (remap_list ls), (-ENOMEM).
    split; [by destruct ls|]. split; [by apply ledger_ext|]. by right. }
  destruct Hcl1 as (E1 & n & Hn & Hcl1). pose proof (clone_cut _ _ _ _ _ E1 Hn Hcl1) as Hcut.
  set (ls1 := mk_lists (cl :: update_list ls) (cl :: insert_list ls) (node :: remove_list ls) (remap_list ls) (new_list ls)).
  match goal with |- context [svm_range_split_head _ _ _ _ _ _ _ σ1 ?l cl c] => change l with ls1 end.
  assert (Hhead : ∃ σ2 hs rm rc,
    (if start r <? c
     then svm_range_split_head LOCATION_UNDEFINED FLAG_HOST_ACCESS FLAG_COHERENT mem_ok no_system_mem_limit
            max_system_mem_limit pdds σ1 ls1 cl c
     else Some (σ1, ls1, 0)) =
    Some (σ2, mk_lists (update_list ls1) (hs ++ insert_list ls1) (remove_list ls1) rm (new_list ls1), rc) ∧
    system_mem_used σ2 = system_mem_used σ ∧
    (rc = 0 ∧ cut σ σ2 r cl hs [] (Z.max c (start r)) (last r) ∨ rc = -ENOMEM ∧ hs = [] ∧ ext σ σ2 [cl] ∧ ¬ plenty)).
  { destruct (Z.ltb_spec (start r) c) as [Hc|Hc].
    - destruct (cut_head σ σ1 ls1 r cl c) as (σ2 & hs & rm & rc & -> & Hm & Hrc); [done|done|lia|].
      rewrite (Z.max_l c (start r)) by lia. exists σ2, hs, rm, rc. split; [done|]. split; [congruence|done].
    - rewrite Z.max_r by lia. exists σ1, [], (remap_list ls), 0. split; [done|]. split; [done|]. by left. }
  destruct Hhead as (σ2 & hs & rm2 & rc2 & -> & Hm2 & Hrc2). cbn [mbind option_bind].
  destruct Hrc2 as [[-> Hcut2]|(-> & -> & E2 & Hno)].
  2: { exists σ2, [cl], [cl], [node], rm2, (-ENOMEM). split; [done|]. split; [by apply ledger_ext|]. by right. }
  change (nz 0) with false. cbv iota.
  destruct (Z.ltb_spec b (last r)) as [Hb|Hb].
  - match goal with |- context [svm_range_split_tail _ _ _ _ _ _ _ σ2 ?l cl b] => set (ls2 := l) end.
    destruct (cut_tail σ σ2 ls2 r cl hs (Z.max c (start r)) b) as (σ3 & ts & rm & rc & -> & Hm3 & Hrc); [done|done|lia| |].
    { destruct Hcut2 as (E2 & _). simpl in E2. pose proof (ex_nodup _ _ _ E2) as (_ & Hd & _)%NoDup_app. intros Hin.
      eapply Hd; [done|apply list_elem_of_here]. }
    exists σ3, [cl], (ts ++ hs ++ [cl]), [node], rm, rc.
    split; [unfold put_lists; simpl; by rewrite <- !app_assoc|].
    destruct Hrc as [[-> Hcut3]|(-> & -> & E3 & Hno)].
    + split; [apply ledger_ext; [apply Hcut3|congruence]|]. left. split; [done|]. rewrite Z.min_l by lia.
      eexists. eapply cut_space; try done; lia.
    + split; [apply ledger_ext; [done|congruence]|]. by right.
  - exists σ2, [cl], (hs ++ [cl]), [node], rm2, 0.
    split; [unfold put_lists; simpl; by rewrite <- !app_assoc|].
    split; [apply ledger_ext; [apply Hcut2|congruence]|]. left. split; [done|]. rewrite Z.min_r by lia.
    exists (hs ++ [cl] ++ []). apply (cut_space σ σ2 node r cl hs []); try done; lia.
Qed.

Abbreviation split_new := (svm_range_split_new LOCATION_UNDEFINED FLAG_HOST_ACCESS FLAG_COHERENT mem_ok no_system_mem_limit
  max_system_mem_limit max_svm_range_pages pdds).
Abbreviation add_node := (add_node LOCATION_UNDEFINED FLAG_HOST_ACCESS FLAG_COHERENT mem_ok no_system_mem_limit
  max_system_mem_limit max_svm_range_pages pdds).
Abbreviation add_nodes := (add_nodes LOCATION_UNDEFINED FLAG_HOST_ACCESS FLAG_COHERENT mem_ok no_system_mem_limit
  max_system_mem_limit max_svm_range_pages pdds).

(** Ranges that are as long as the space they are in leave no page out. *)
Lemma chain_total σ lo l hi : chain σ lo l → below σ l hi → lo ≤ hi + 1 → total σ l ≤ hi - lo + 1.
Proof.
  revert lo. induction l as [|j l IH]; intros lo; simpl; [lia|].
  intros (r & Hr & Hok & Hlo & Hc) Hb Hle. rewrite Hr. pose proof (Hb j r (list_elem_of_here _ _) Hr).
  assert (Hb' : below σ l hi) by (intros k q Hk; apply Hb; by apply list_elem_of_further).
  specialize (IH _ Hc Hb'). lia.
Qed.

Lemma chain_full f σ lo l hi x (g : Z → svm_range) : chain σ lo l → below σ l hi → total σ l = hi - lo + 1 → lo ≤ x ≤ hi →
  (∀ k r, k ∈ l → get_range σ k = Some r → page (f k r) x = g x) → pages f σ l x = Some (g x).
Proof.
  revert lo. induction l as [|j l IH]; intros lo; simpl; [lia|].
  intros (r & Hr & Hok & Hlo & Hc) Hb Ht Hx Hg. rewrite Hr in *. pose proof (Hb j r (list_elem_of_here _ _) Hr).
  assert (Hb' : below σ l hi) by (intros k q Hk; apply Hb; by apply list_elem_of_further).
  pose proof (chain_total _ _ _ _ Hc Hb' ltac:(lia)). unfold covers. destruct (decide _).
  - f_equal. apply Hg; [apply list_elem_of_here|done].
  - apply (IH (last r + 1)); try done; try lia. intros k q Hk. apply Hg. by apply list_elem_of_further.
Qed.

Lemma split_new_spec σ ls s e : xnack = xnack_enabled σ → fresh σ → max_pages_ok → 0 < s ≤ e + 1 →
  ∃ σ' U Nw rc, split_new σ ls s e = Some (σ', put_lists U [] [] (remap_list ls) Nw ls, rc) ∧
    ledger σ σ' [] Nw ∧ outcome σ σ' s e s e [] U [] [] Nw rc.
Proof.
  intros Hx Hf Hmax Hs. unfold svm_range_split_new.
  destruct (new_loop_spec (Z.to_nat (e - s + 1)) σ ls s e) as (σ' & l & rc & -> & HL & Han & Hc & Hb & Hrc); [done|done|done|lia|].
  exists σ', (rev l), (rev l), rc. split; [done|].
  assert (Hrev : rev l ≡ₚ l) by (symmetry; apply Permutation_rev).
  split.
  { destruct HL as [E Hm]. split; [by eapply ext_perm; [|exact E]; simpl; rewrite Hrev|by rewrite Hrev]. }
  destruct Hrc as [[-> Ht]|[-> Hno]]; [left|by right]. split; [done|]. exists l. split; [|done].
  apply (space_perm _ _ _ _ _ _ l [] [] l); try done; [|by symmetry..]. split.
  - simpl. by rewrite app_nil_r.
  - done.
  - by eapply chain_NoDup.
  - done.
  - simpl. lia.
  - intros x. unfold requested. simpl. destruct (decide (s ≤ x ≤ e)).
    + apply (chain_full _ σ' s l e x (λ x, applied (default_page σ x))); try done.
      intros k r Hk Hr. unfold upd. rewrite decide_True by done. rewrite page_applied. f_equal.
      destruct (Han k Hk) as (s1 & e1 & Hr'). rewrite Hr in Hr'. injection Hr' as ->. unfold default_page.
      destruct (ex_tables _ _ _ (lg_ext _ _ _ _ HL)) as (_ & _ & _ & -> & ->). apply page_new.
    + destruct (decide (x < s)); [by eapply pages_low|eapply pages_high; [done|lia]].
  - by intros k ?%not_elem_of_nil.
Qed.

Lemma ledger_trans σ σ1 σ2 I1 Nw1 I2 Nw2 : fresh σ → ledger σ σ1 I1 Nw1 → ledger σ1 σ2 I2 Nw2 →
  ledger σ σ2 (I2 ++ I1) (Nw2 ++ Nw1).
Proof.
  intros Hf [E1 M1] [E2 M2]. pose proof (ext_fresh _ _ _ Hf E1) as Hf1. split.
  - eapply ext_perm; [|eapply ext_trans; [done|exact E1|exact E2]]. solve_Permutation.
  - rewrite total_app, charge_add, M2, M1, (charge_same _ _ _ (ex_tables _ _ _ E1)).
    rewrite (total_agree σ1 σ2 Nw1); [lia|]. intros k Hk. apply (ex_old _ _ _ E2).
    apply (ex_ids _ _ _ E1). apply elem_of_app. by right.
Qed.

Lemma ledger_dom σ σ' I Nw k : ledger σ σ' I Nw → k ∈ Nw → is_Some (get_range σ' k).
Proof.
  intros [E _] Hk. assert (k ∈ I ++ Nw) as Hin by (apply elem_of_app; by right).
  apply (ex_new _ _ _ E); [|done]. by apply (ex_ids _ _ _ E).
Qed.

Lemma add_node_spec σ ls node r c b :
  xnack = xnack_enabled σ → max_pages_ok → 0 < c →
  fresh σ → get_range σ node = Some r → plain_range r → range_ok r → it_node r = (start r, last r) →
  c ≤ b → c ≤ last r → start r ≤ b →
  ∃ σ' U I Rm rm Nw rc, add_node attrs σ ls node c b = Some (σ', put_lists U I Rm rm Nw ls, rc) ∧
    ledger σ σ' I Nw ∧
    outcome σ σ' c (Z.min b (last r)) (Z.min c (start r)) (last r) [node] U I Rm Nw rc.
Proof.
  intros Hx Hmax Hc Hf Hr Hv Hok Hit Hcb Hcl Hsb. pose proof (rg_bounds _ Hok) as Hbr.
  destruct (update_node_spec σ ls node r c b) as (σ1 & U & I & Rm & rm & rc & Heq & HL & Hout); try done.
  unfold Svm.add_node. rewrite Hr. cbn [mbind option_bind]. rewrite Heq, Hit. cbn [mbind option_bind fst].
  destruct Hout as [[-> (segs & Hsp & Hbe)]|[-> Hno]].
  2: { exists σ1, U, I, Rm, rm, [], (-ENOMEM). split; [done|]. split; [done|]. by right. }
  change (nz 0) with false. cbv iota. destruct (Z.ltb_spec c (start r)) as [Hg|Hg].
  2: { exists σ1, U, I, Rm, rm, [], 0. split; [done|]. split; [done|]. left. split; [done|]. exists segs.
       rewrite (Z.min_r c) by lia. by rewrite Z.max_l in Hsp by lia. }
  pose proof (ext_fresh _ _ _ Hf (lg_ext _ _ _ _ HL)) as Hf1.
  destruct (split_new_spec σ1 (put_lists U I Rm rm [] ls) c (start r - 1)) as (σ2 & U2 & Nw & rc & -> & HL2 & Hout2); try done; try lia.
  { rewrite Hx. symmetry. apply (ex_tables _ _ _ (lg_ext _ _ _ _ HL)). }
  exists σ2, (U2 ++ U), I, Rm, rm, Nw, rc. split; [unfold put_lists; simpl; by rewrite <- !app_assoc|].
  split; [by pose proof (ledger_trans _ _ _ _ _ _ _ Hf HL HL2) as H; rewrite app_nil_r in H|].
  destruct Hout2 as [[-> (segs2 & Hsp2 & Hbe2)]|[-> Hno]]; [left|by right]. split; [done|]. exists (segs2 ++ segs).
  rewrite Z.max_r in Hsp by lia. rewrite (Z.min_l c) by lia. split.
  - apply (space_perm _ _ _ _ _ _ (U2 ++ U) ([] ++ I) ([] ++ Rm) (Nw ++ [])); try done; [|by rewrite app_nil_r].
    apply (space_join _ _ c (start r - 1) (start r) (Z.min b (last r)) c (start r - 1) [] [node]); try done; try lia.
    + eapply space_earlier; [done|apply HL|]. by intros k ?%not_elem_of_nil.
    + replace (start r - 1 + 1) with (start r) by lia. eapply space_later; [done|apply HL2|done|].
      by intros k ?%not_elem_of_nil.
    + by intros k ? ?%not_elem_of_nil.
    + simpl. exists r. split_and!; try done. lia.
  - intros k q [Hk|Hk]%elem_of_app Hq.
    + specialize (Hbe2 k q Hk Hq). lia.
    + destruct (chain_get _ _ _ _ (sp_chain _ _ _ _ _ _ _ _ _ _ _ Hsp) Hk) as (q' & Hq' & _).
      rewrite (ext_lookup _ _ _ _ _ Hf1 (lg_ext _ _ _ _ HL2) Hq') in Hq. injection Hq as <-. by eapply Hbe.
Qed.

(** ** The loop *)

Lemma space_id σ a b lo nodes : chain σ lo nodes → b < a → space σ σ a b lo nodes [] [] [] [] nodes.
Proof.
  intros Hc Hab. split; try done.
  - by intros k ?%not_elem_of_nil.
  - apply NoDup_nil_2.
  - simpl. lia.
  - intros x. unfold requested. rewrite decide_False by lia. apply pages_agree; [done|]. intros k r _.
    unfold upd. rewrite decide_False; [done|apply not_elem_of_nil].
  - by intros k ?%not_elem_of_nil.
Qed.

Lemma space_lo σ σ' a b lo lo' nodes U I Rm Nw segs : lo' ≤ lo →
  space σ σ' a b lo nodes U I Rm Nw segs → space σ σ' a b lo' nodes U I Rm Nw segs.
Proof. intros Hl [S1 S2 S3 S4 S5 S6 S7]. split; try done. by eapply chain_mono. Qed.

Lemma split_new_empty σ ls s e : (if s <=? e then split_new σ ls s e else Some (σ, ls, 0)) = split_new σ ls s e.
Proof.
  destruct (Z.leb_spec s e); [done|]. unfold svm_range_split_new.
  replace (Z.to_nat (e - s + 1)) with O by lia. simpl. by rewrite (proj2 (Z.ltb_lt _ _)).
Qed.

Definition nodes_set (σ : svm_range_list) (l : list nat) : Prop :=
  ∀ k r, k ∈ l → get_range σ k = Some r → it_node r = (start r, last r).

(** No more nodes are in the request. *)
Lemma add_nodes_behind nodes : ∀ σ ls window c b, chain σ (b + 1) nodes → nodes_set σ nodes →
  add_nodes attrs nodes σ ls window c b = split_new σ ls c b.
Proof.
  induction nodes as [|node nodes IH]; intros σ ls window c b Hch Hset; cbn [Svm.add_nodes]; [apply split_new_empty|].
  destruct Hch as (r & Hr & Hok & Hlo & Hch). pose proof (rg_bounds _ Hok). rewrite Hr. cbn [mbind option_bind].
  unfold overlaps. rewrite (Hset node r (list_elem_of_here _ _) Hr). cbn [fst snd].
  rewrite (proj2 (Z.leb_gt (start r) b)) by lia. apply IH.
  - eapply chain_mono; [|done]. lia.
  - intros k q Hk. apply Hset. by apply list_elem_of_further.
Qed.

(** The first page of what takes the place of nodes from [lo] on. *)
Definition low (c b lo : Z) : Z := if decide (c ≤ b) then Z.min c lo else lo.

Lemma gap_spec σ ls nodes c lo b :
  xnack = xnack_enabled σ → max_pages_ok → 0 < c ≤ b + 1 → fresh σ → chain σ (Z.max lo (b + 1)) nodes →
  ∃ σ' U Nw rc, split_new σ ls c b = Some (σ', put_lists U [] [] (remap_list ls) Nw ls, rc) ∧
    ledger σ σ' [] Nw ∧
    (rc = 0 ∧ (∃ segs, space σ σ' c b (low c b lo) nodes U [] [] Nw segs) ∨ rc = -ENOMEM ∧ ¬ plenty).
Proof.
  intros Hx Hmax Hc Hf Hch.
  destruct (split_new_spec σ ls c b) as (σ' & U & Nw & rc & Heq & HL & Hout); try done.
  exists σ', U, Nw, rc. split; [done|]. split; [done|].
  destruct Hout as [[-> (segs & Hsp & Hbe)]|?]; [left|by right]. split; [done|].
  assert (Hch' : chain σ (b + 1) nodes) by (eapply chain_mono; [|done]; lia).
  assert (Hid : space σ σ' (b + 1) b (b + 1) nodes [] [] [] [] nodes).
  { eapply space_later; [by apply space_id; [|lia]|apply HL|done|by intros k ?%not_elem_of_nil]. }
  assert (Hj : space σ σ' c b c nodes U [] [] Nw (segs ++ nodes)).
  { apply (space_perm _ _ _ _ _ _ (U ++ []) [] [] (Nw ++ [])); try done; [|by rewrite app_nil_r..].
    apply (space_join _ _ c b (b + 1) b c b [] nodes U [] [] [] [] [] Nw [] segs nodes); try done; try lia.
    by intros k ? ?%not_elem_of_nil. }
  exists (segs ++ nodes). unfold low. destruct (decide (c ≤ b)); [apply (space_lo _ _ _ _ c); [lia|done]|].
  destruct Hj as [S1 S2 S3 S4 S5 S6 S7]. split; try done. assert (segs = []) as ->.
  { destruct segs as [|k segs]; [done|]. destruct (sp_chain _ _ _ _ _ _ _ _ _ _ _ Hsp) as (r & Hr & Hok & Hlo & _).
    specialize (Hbe k r (list_elem_of_here _ _) Hr). pose proof (rg_bounds _ Hok). lia. }
  simpl. apply (chain_agree σ); [|apply (chain_mono _ (Z.max lo (b + 1))); [lia|done]]. intros k Hk.
  destruct (chain_get _ _ _ _ Hch Hk) as (r & Hr & _). rewrite Hr. eapply ext_lookup; [done|apply HL|done].
Qed.

Lemma add_nodes_spec nodes : ∀ σ ls window c lo b,
  xnack = xnack_enabled σ → max_pages_ok → 0 < c ≤ b + 1 → fresh σ → plain σ →
  chain σ lo nodes → nodes_set σ nodes → (window = c ∧ c ≤ b ∨ window ≤ c ≤ lo) →
  ∃ σ' U I Rm rm Nw rc, add_nodes attrs nodes σ ls window c b = Some (σ', put_lists U I Rm rm Nw ls, rc) ∧
    ledger σ σ' I Nw ∧
    (rc = 0 ∧ (∃ segs, space σ σ' c b (low c b lo) nodes U I Rm Nw segs) ∨ rc = -ENOMEM ∧ ¬ plenty).
Proof.
  induction nodes as [|node nodes IH]; intros σ ls window c lo b Hx Hmax Hc Hf Hv Hch Hset Hw.
  { destruct (gap_spec σ ls [] c lo b) as (σ' & U & Nw & rc & Heq & HL & Hrc); try done.
    rewrite (add_nodes_behind [] σ ls window c b) by done. rewrite Heq.
    exists σ', U, [], [], (remap_list ls), Nw, rc. done. }
  destruct Hch as (r & Hr & Hok & Hlo & Hch). pose proof (rg_bounds _ Hok) as Hbr.
  assert (Hset' : nodes_set σ nodes) by (intros k q Hk; apply Hset; by apply list_elem_of_further).
  pose proof (Hset node r (list_elem_of_here _ _) Hr) as Hit.
  destruct (decide (b < start r)) as [Hbs|Hbs].
  { rewrite add_nodes_behind; [|by exists r; split_and!; [| |lia|]|done].
    destruct (gap_spec σ ls (node :: nodes) c lo b) as (σ' & U & Nw & rc & Heq & HL & Hrc); try done.
    { exists r. split_and!; try done. lia. }
    rewrite Heq. by exists σ', U, [], [], (remap_list ls), Nw, rc. }
  cbn [Svm.add_nodes]. rewrite Hr. cbn [mbind option_bind]. unfold overlaps. rewrite Hit. cbn [fst snd].
  rewrite (proj2 (Z.leb_le (start r) b)) by lia. cbn [andb].
  assert (Hone : space σ σ c (c - 1) (start r) [node] [] [] [] [] [node]).
  { apply space_id; [|lia]. exists r. by split_and!. }
  assert (Hbelow : below σ [node] (last r)).
  { intros k q ->%list_elem_of_singleton. rewrite Hr. by intros [= <-]. }
  destruct (Z.leb_spec window (last r)) as [Hwl|Hwl].
  - destruct (add_node_spec σ ls node r c b) as (σ1 & U1 & I1 & Rm1 & rm1 & Nw1 & rc1 & -> & HL1 & Hout1); try done; try lia.
    { by eapply Hv. }
    cbn [mbind option_bind]. pose proof (lg_ext _ _ _ _ HL1) as E1. pose proof (ext_fresh _ _ _ Hf E1) as Hf1.
    destruct Hout1 as [[-> (segs1 & Hsp1 & Hbe1)]|[-> Hno]].
    2: { exists σ1, U1, I1, Rm1, rm1, Nw1, (-ENOMEM). split; [done|]. split; [done|]. by right. }
    change (nz 0) with false. cbv iota.
    assert (Hag : ∀ k, k ∈ nodes → get_range σ1 k = get_range σ k).
    { intros k Hk. destruct (chain_get _ _ _ _ Hch Hk) as (q & Hq & _). rewrite Hq. by apply (ext_lookup σ _ (I1 ++ Nw1)). }
    destruct (IH σ1 (put_lists U1 I1 Rm1 rm1 Nw1 ls) c (Z.min (last r) b + 1) (last r + 1) b)
      as (σ2 & U2 & I2 & Rm2 & rm2 & Nw2 & rc2 & -> & HL2 & Hout2); try done; try lia.
    { rewrite Hx. symmetry. apply (ex_tables _ _ _ E1). }
    { by apply (ext_plain σ _ (I1 ++ Nw1)). }
    { by apply (chain_agree σ). }
    { intros k q Hk. rewrite Hag by done. by apply Hset'. }
    exists σ2, (U2 ++ U1), (I2 ++ I1), (Rm2 ++ Rm1), rm2, (Nw2 ++ Nw1), rc2.
    split; [unfold put_lists; simpl; by rewrite <- !app_assoc|]. split; [by eapply ledger_trans|].
    destruct Hout2 as [[-> (segs2 & Hsp2)]|?]; [left|by right]. split; [done|]. exists (segs1 ++ segs2).
    apply (space_perm _ _ _ _ _ _ (U1 ++ U2) (I1 ++ I2) (Rm1 ++ Rm2) (Nw1 ++ Nw2)); [|solve_Permutation..].
    apply (space_lo _ _ _ _ (Z.min c (start r))); [unfold low; destruct (decide _); lia|].
    apply (space_join _ _ c (Z.min b (last r)) (Z.min (last r) b + 1) b _ (last r) [node] nodes); try done; try lia.
    + eapply space_later; [done|apply HL2|done|]. intros k. by apply (ledger_dom σ _ I1).
    + eapply space_earlier; [|exact E1|]; [|intros k Hk; destruct (chain_get _ _ _ _ Hch Hk) as (q & Hq & _); by eapply fresh_lt].
      replace (last r + 1) with (low (Z.min (last r) b + 1) b (last r + 1)) at 1; [done|].
      unfold low. destruct (decide _); lia.
    + intros k q Hk Hq. destruct (chain_get _ _ _ _ (sp_chain _ _ _ _ _ _ _ _ _ _ _ Hsp1) Hk) as (q' & Hq' & _).
      rewrite (ext_lookup _ _ _ _ _ Hf1 (lg_ext _ _ _ _ HL2) Hq') in Hq. injection Hq as <-. by eapply Hbe1.
  - destruct (IH σ ls window c (last r + 1) b) as (σ2 & U2 & I2 & Rm2 & rm2 & Nw2 & rc2 & -> & HL2 & Hout2); try done; try lia.
    exists σ2, U2, I2, Rm2, rm2, Nw2, rc2. split; [done|]. split; [done|].
    destruct Hout2 as [[-> (segs2 & Hsp2)]|?]; [left|by right]. split; [done|]. exists (node :: segs2).
    apply (space_lo _ _ _ _ (start r)); [unfold low; destruct (decide _); lia|].
    apply (space_join _ _ c (c - 1) c b (start r) (last r) [node] nodes [] U2 [] I2 [] Rm2 [] Nw2 [node] segs2); try done; try lia.
    + eapply space_later; [done|apply HL2|done|]. by intros k ?%not_elem_of_nil.
    + unfold low in Hsp2. by destruct (decide _); [rewrite Z.min_r in Hsp2 by lia|].
    + intros k q ->%list_elem_of_singleton. rewrite (ext_lookup _ _ _ _ _ Hf (lg_ext _ _ _ _ HL2) Hr). by intros [= <-].
Qed.
End Attrs.
End Add.
