(* ===== verification/SvmSet.v ===== *)
(** * Shared virtual memory: setting attributes

    [svm_range_add] either prepares every page of the request or leaves all ranges and
    the memory account as they were; [svm_range_set_attr] then commits: new ranges go
    into the tables, attributes are applied, the ranges that clones replace go. *)

From stdpp Require Import sorting.
From S2P Require Import Prelude Svm SvmProof SvmAdd.
#[local] Open Scope Z_scope.
#[local] Open Scope list_scope.

(** ** Lists of identities *)

Lemma list_del_id_cons id j l : list_del_id id (j :: l) = if decide (j = id) then list_del_id id l else j :: list_del_id id l.
Proof. unfold list_del_id. rewrite filter_cons. by destruct (decide (j = id)), (decide (j ≠ id)). Qed.
Lemma elem_of_list_del_id k id l : k ∈ list_del_id id l ↔ k ∈ l ∧ k ≠ id.
Proof. unfold list_del_id. rewrite list_elem_of_filter. naive_solver. Qed.
Lemma list_del_id_notin id l : id ∉ l → list_del_id id l = l.
Proof.
  induction l as [|j l IH]; intros Hni; [done|]. apply not_elem_of_cons in Hni as [Hne Hni].
  by rewrite list_del_id_cons, decide_False, IH by congruence.
Qed.

Lemma list_del_id_perm id l : NoDup l → id ∈ l → id :: list_del_id id l ≡ₚ l.
Proof.
  induction 1 as [|j l Hj Hnd IH]; [by intros ?%not_elem_of_nil|]. rewrite list_del_id_cons.
  intros [->|Hin]%elem_of_cons.
  - by rewrite decide_True, list_del_id_notin.
  - rewrite decide_False by congruence. rewrite <- (IH Hin) at 2. constructor.
Qed.

(** Several identities. *)
Definition list_del_all (ids l : list nat) : list nat := filter (λ k, k ∉ ids) l.
Lemma list_del_all_nil l : list_del_all [] l = l.
Proof.
  unfold list_del_all. induction l as [|j l IH]; [done|]. rewrite filter_cons_True by apply not_elem_of_nil. by rewrite IH.
Qed.
Lemma list_del_all_cons id ids l : list_del_all ids (list_del_id id l) = list_del_all (id :: ids) l.
Proof.
  unfold list_del_all, list_del_id. rewrite list_filter_filter. apply list_filter_iff. intros k.
  rewrite not_elem_of_cons. naive_solver.
Qed.
Lemma list_del_all_perm ids l : NoDup l → NoDup ids → (∀ k, k ∈ ids → k ∈ l) → list_del_all ids l ++ ids ≡ₚ l.
Proof.
  intros Hl Hi Hs. apply NoDup_Permutation.
  - apply NoDup_app. split_and!; [by apply NoDup_filter| |done].
    intros k Hk. unfold list_del_all in Hk. by apply list_elem_of_filter in Hk as [? _].
  - done.
  - intros k. unfold list_del_all. rewrite elem_of_app, list_elem_of_filter.
    destruct (decide (k ∈ ids)); naive_solver.
Qed.

(** ** Freeing *)

(** What freeing, linking and applying leave alone. *)
Definition same_rest (σ σ' : svm_range_list) : Prop :=
  bos σ' = bos σ ∧ deferred_range_list σ' = deferred_range_list σ ∧ bitmap_supported σ' = bitmap_supported σ ∧
  xnack_enabled σ' = xnack_enabled σ ∧ svm_next σ' = svm_next σ.
#[global] Instance same_rest_refl : Reflexive same_rest.
Proof. by intros σ. Qed.
#[global] Instance same_rest_trans : Transitive same_rest.
Proof. intros a b c (?&?&?&?&?) (?&?&?&?&?). unfold same_rest. split_and!; congruence. Qed.

Lemma charge_rest σ σ' a : same_rest σ σ' → charge σ' a = charge σ a.
Proof. intros (_ & _ & _ & H & _). unfold charge. by rewrite H. Qed.

Lemma free_spec σ id r du : get_range σ id = Some r → ttm_res r = None →
  svm_range_free σ id du =
    Some (σ <| system_mem_used ::= λ u, u - (if du then charge σ (last r - start r + 1) else 0) |> <| ranges ::= delete id |>).
Proof.
  intros Hr Ht. unfold svm_range_free, svm_range_vram_node_free, charge, amdgpu_amdkfd_unreserve_mem_limit.
  rewrite Hr. cbn [mbind option_bind]. rewrite Ht. cbn [mbind option_bind].
  destruct σ as [? ? ? ? ? ? [] ? ? ?], du; cbn; do 2 f_equal; lia.
Qed.

Definition gone (σ σ' : svm_range_list) (l : list nat) : Prop :=
  ∀ k, get_range σ' k = if decide (k ∈ l) then None else get_range σ k.

Lemma total_delete σ σ' id l : id ∉ l → (∀ k, k ≠ id → get_range σ' k = get_range σ k) → total σ' l = total σ l.
Proof. intros Hid Hs. apply total_agree. intros k Hk. apply Hs. congruence. Qed.

Lemma free_all_spec l du : ∀ σ, NoDup l → (∀ k, k ∈ l → ∃ r, get_range σ k = Some r ∧ plain_range r) →
  ∃ σ', free_all σ l du = Some σ' ∧ same_rest σ σ' ∧ range_ids σ' = range_ids σ ∧ objects σ' = objects σ ∧
    gone σ σ' l ∧ system_mem_used σ' = system_mem_used σ - (if du then charge σ (total σ l) else 0).
Proof.
  induction l as [|id l IH]; intros σ Hnd Hl; simpl.
  { exists σ. split_and!; try done.
    destruct du; rewrite ?charge_0; lia. }
  apply NoDup_cons in Hnd as [Hid Hnd].
  destruct (Hl id (list_elem_of_here _ _)) as (r & Hr & Hv). rewrite (free_spec _ _ _ _ Hr (proj1 Hv)). cbn [mbind option_bind].
  match goal with |- context [free_all ?s l du] => set (σ1 := s) end.
  assert (H1 : ∀ k, k ≠ id → get_range σ1 k = get_range σ k) by (intros k Hk; by apply lookup_delete_ne).
  destruct (IH σ1 Hnd) as (σ' & -> & Hrest & Hids & Hob & Hg & Hm).
  { intros k Hk. rewrite H1 by congruence. apply Hl. by apply list_elem_of_further. }
  exists σ'. split_and!; try done.
  - intros k. rewrite Hg. destruct (decide (k = id)) as [->|Hne].
    + rewrite (decide_True _ _ (list_elem_of_here _ _)). destruct (decide _); [done|]. apply lookup_delete_eq.
    + rewrite H1 by done. destruct (decide (k ∈ l)), (decide (k ∈ id :: l)); try done; set_solver.
  - rewrite Hm, (charge_rest σ σ1), (total_delete σ σ1 id l Hid H1) by done. rewrite Hr. simpl.
    destruct du; rewrite ?charge_add; lia.
Qed.

Section Set_attr.
Context (LOCATION_SYSMEM LOCATION_UNDEFINED FLAG_HOST_ACCESS FLAG_COHERENT : Z).
Context (mem_ok : nat → bool) (no_system_mem_limit : bool) (max_system_mem_limit : Z).
Context (max_svm_range_pages : Z) (pdds : list (option Z)).
Abbreviation range_add := (svm_range_add LOCATION_UNDEFINED FLAG_HOST_ACCESS FLAG_COHERENT mem_ok no_system_mem_limit
  max_system_mem_limit max_svm_range_pages pdds).
Abbreviation set_attr := (svm_range_set_attr LOCATION_SYSMEM LOCATION_UNDEFINED FLAG_HOST_ACCESS FLAG_COHERENT mem_ok
  no_system_mem_limit max_system_mem_limit max_svm_range_pages pdds).
Abbreviation plenty := (plenty mem_ok no_system_mem_limit).
Abbreviation space := (space LOCATION_UNDEFINED FLAG_HOST_ACCESS FLAG_COHERENT pdds).
Abbreviation upd := (upd pdds).

(** ** The transaction *)

(** Everything that was made is freed again. *)
Lemma rollback σ σ' I Nw : fresh σ → ledger σ σ' I Nw →
  ∃ σ2, (σ1 ← free_all σ' I false; free_all σ1 Nw true) = Some σ2 ∧ ext σ σ2 [] ∧
    system_mem_used σ2 = system_mem_used σ.
Proof.
  intros Hf [E Hm]. pose proof (ex_nodup _ _ _ E) as (HndI & Hd & HndN)%NoDup_app.
  assert (Hget : ∀ k, k ∈ I ++ Nw → ∃ r, get_range σ' k = Some r ∧ plain_range r).
  { intros k Hk. destruct (proj2 (ex_new _ _ _ E k (proj1 (ex_ids _ _ _ E k Hk))) Hk) as [r Hr].
    exists r. split; [done|]. by eapply (ex_plain _ _ _ E). }
  destruct (free_all_spec I false σ' HndI) as (σ1 & -> & Hr1 & Hi1 & Ho1 & Hg1 & Hm1).
  { intros k Hk. apply Hget. apply elem_of_app. by left. }
  cbn [mbind option_bind].
  assert (Hsame : ∀ k, k ∈ Nw → get_range σ1 k = get_range σ' k).
  { intros k Hk. rewrite Hg1, decide_False; [done|]. intros ?. by eapply Hd. }
  destruct (free_all_spec Nw true σ1 HndN) as (σ2 & -> & Hr2 & Hi2 & Ho2 & Hg2 & Hm2).
  { intros k Hk. rewrite Hsame by done. apply Hget. apply elem_of_app. by right. }
  exists σ2. split; [done|]. destruct (ex_tables _ _ _ E) as (T1 & T2 & T3 & T4 & T5).
  assert (Hg : ∀ k, get_range σ2 k = if decide (k ∈ I ++ Nw) then None else get_range σ' k).
  { intros k. rewrite Hg2, Hg1. repeat destruct (decide _); try done; set_solver. }
  pose proof Hr1 as (R1 & R2 & R3 & R4 & R5). pose proof Hr2 as (Q1 & Q2 & Q3 & Q4 & Q5). pose proof (ex_next _ _ _ E). split.
  - split; try (by intros k ? ?%not_elem_of_nil) || (by intros k ?%not_elem_of_nil).
    + unfold same_tables. split_and!; congruence.
    + rewrite Q1, R1. apply E.
    + lia.
    + intros k Hk. rewrite Hg, decide_False; [by apply E|]. intros ?%(ex_ids _ _ _ E). lia.
    + intros k Hk. rewrite Hg. split; [|by intros ?%not_elem_of_nil]. destruct (decide _) as [|Hni]; [by intros []|].
      intros Hs. by apply (ex_new _ _ _ E k Hk) in Hs.
    + apply NoDup_nil_2.
  - rewrite Hm2, Hm1, Hm, (total_agree σ' σ1 Nw Hsame), (charge_rest σ' σ1) by done.
    rewrite (charge_same σ σ') by apply E. lia.
Qed.

Lemma add_spec σ s size attrs : fresh σ → plain σ → chain σ 1 (objects σ) → nodes_set σ (objects σ) →
  max_pages_ok max_svm_range_pages → 0 < s → 0 < size →
  ∃ σ' ls rc, range_add σ s size attrs = Some (σ', ls, rc) ∧
    (rc = 0 ∧ (∃ U I Rm rm Nw segs, ls = mk_lists U (Nw ++ I) Rm rm Nw ∧ ledger σ σ' I Nw ∧
       space (xnack_enabled σ) attrs σ σ' s (s + size - 1) 1 (objects σ) U I Rm Nw segs) ∨
     rc = -ENOMEM ∧ ¬ plenty ∧ ext σ σ' [] ∧ system_mem_used σ' = system_mem_used σ).
Proof.
  intros Hf Hv Hch Hset Hmax Hs Hsize. unfold svm_range_add.
  destruct (add_nodes_spec LOCATION_UNDEFINED FLAG_HOST_ACCESS FLAG_COHERENT mem_ok no_system_mem_limit
    max_system_mem_limit max_svm_range_pages pdds (xnack_enabled σ) attrs (objects σ) σ (mk_lists [] [] [] [] []) s s 1
    (s + size - 1)) as (σ1 & U & I & Rm & rm & Nw & rc & -> & HL & Hout); try done; try lia.
  cbn [mbind option_bind put_lists]. simpl. rewrite !app_nil_r.
  destruct Hout as [[-> (segs & Hsp)]|[-> Hno]].
  - change (nz 0) with false. cbv iota. eexists _, _, _. split; [reflexivity|]. left. split; [done|].
    exists U, I, Rm, rm, Nw, segs. split; [done|]. split; [done|].
    unfold low in Hsp. rewrite decide_True in Hsp by lia. by rewrite Z.min_r in Hsp by lia.
  - change (nz (-ENOMEM)) with true. cbv iota. destruct (rollback σ σ1 I Nw Hf HL) as (σ2 & Heq & E & Hm).
    destruct (free_all σ1 I false) as [σ1'|]; [|done]. cbn [mbind option_bind] in *. rewrite Heq. cbn [mbind option_bind].
    eexists _, _, _. split; [reflexivity|]. by right.
Qed.

(** ** The tables *)

Definition by_start (σ : svm_range_list) : relation nat := λ a b, it_start σ a ≤ it_start σ b.
Definition sorted (σ : svm_range_list) : Prop := StronglySorted (by_start σ) (objects σ).

Lemma it_start_get σ σ' k : get_range σ' k = get_range σ k → it_start σ' k = it_start σ k.
Proof. unfold it_start. by intros ->. Qed.

Lemma sorted_agree σ σ' l : (∀ k, k ∈ l → it_start σ' k = it_start σ k) →
  StronglySorted (by_start σ) l → StronglySorted (by_start σ') l.
Proof.
  intros Hag. induction 1 as [|a l Hs IH Ha]; constructor.
  - apply IH. intros k Hk. apply Hag. by apply list_elem_of_further.
  - rewrite Forall_forall in *. intros b Hb. unfold by_start.
    rewrite !Hag by (done || apply list_elem_of_here || by apply list_elem_of_further). by apply Ha.
Qed.

Lemma insert_node_perm σ id l : insert_node σ id l ≡ₚ id :: l.
Proof. induction l as [|j l IH]; simpl; [done|]. destruct (_ <? _); [done|]. rewrite IH. by constructor. Qed.

Lemma insert_node_sorted σ id l : StronglySorted (by_start σ) l → StronglySorted (by_start σ) (insert_node σ id l).
Proof.
  induction 1 as [|a l Hs IH Ha]; simpl; [by repeat constructor|].
  destruct (Z.ltb_spec (it_start σ id) (it_start σ a)).
  - constructor; [by constructor|]. rewrite Forall_forall in *. intros b [->|Hb]%elem_of_cons; [unfold by_start; lia|].
    specialize (Ha b Hb). unfold by_start in *. lia.
  - constructor; [done|]. rewrite insert_node_perm. by constructor.
Qed.

(** A range in the tables. *)
Definition linked (r : svm_range) : svm_range :=
  (r <| it_node := (start r, last r) |>) <| notifier := (start r, start r + npages r - 1) |>.
Definition link (σ : svm_range_list) (id : nat) : option svm_range_list :=
  σ ← svm_range_add_to_svms σ id; svm_range_add_notifier_locked σ id.

Lemma link_spec σ id r : get_range σ id = Some r → id ∉ objects σ → id ∉ range_ids σ → sorted σ →
  ∃ σ', link σ id = Some σ' ∧ same_rest σ σ' ∧ system_mem_used σ' = system_mem_used σ ∧
    objects σ' ≡ₚ id :: objects σ ∧ range_ids σ' ≡ₚ id :: range_ids σ ∧
    get_range σ' id = Some (linked r) ∧ (∀ k, k ≠ id → get_range σ' k = get_range σ k) ∧ sorted σ'.
Proof.
  intros Hr Hob Hids Hs. unfold link, svm_range_add_to_svms, svm_range_add_notifier_locked.
  rewrite Hr. cbn [mbind option_bind].
  match goal with |- context [interval_tree_insert ?s id] => set (σ1 := s) end.
  assert (H1 : get_range σ1 id = Some (r <| it_node := (start r, last r) |>)) by apply get_put_eq.
  change (get_range (interval_tree_insert σ1 id) id) with (get_range σ1 id). rewrite H1. cbn [mbind option_bind].
  eexists. split; [reflexivity|].
  assert (Hne : ∀ k, k ≠ id → get_range σ1 k = get_range σ k) by (intros k Hk; by apply lookup_insert_ne).
  split; [done|]. split; [done|]. split; [apply insert_node_perm|]. split.
  { simpl. rewrite list_del_id_notin by done. by rewrite Permutation_app_comm. }
  split; [apply get_put_eq|]. split.
  - intros k Hk. rewrite get_put_ne by done. by apply Hne.
  - apply (sorted_agree σ1).
    + intros k _. unfold it_start. destruct (decide (id = k)) as [<-|]; [by rewrite get_put_eq, H1|].
      by rewrite get_put_ne by done.
    + apply insert_node_sorted. apply (sorted_agree σ); [|done]. intros k Hk. apply it_start_get, Hne. intros ->. by apply Hob.
Qed.

Lemma link_all_spec l : ∀ σ, NoDup l → (∀ k, k ∈ l → is_Some (get_range σ k)) →
  (∀ k, k ∈ l → (k ∉ objects σ) ∧ (k ∉ range_ids σ)) → sorted σ →
  ∃ σ', each_id link σ l = Some σ' ∧ same_rest σ σ' ∧ system_mem_used σ' = system_mem_used σ ∧
    objects σ' ≡ₚ l ++ objects σ ∧ range_ids σ' ≡ₚ l ++ range_ids σ ∧ sorted σ' ∧
    ∀ k, get_range σ' k = if decide (k ∈ l) then linked <$> get_range σ k else get_range σ k.
Proof.
  induction l as [|id l IH]; intros σ Hnd Hex Hni Hs; cbn [each_id]; [by exists σ|].
  apply NoDup_cons in Hnd as [Hid Hnd]. destruct (Hex id (list_elem_of_here _ _)) as [r Hr].
  destruct (Hni id (list_elem_of_here _ _)) as [Hno Hnids].
  destruct (link_spec σ id r Hr Hno Hnids Hs) as (σ1 & -> & Hr1 & Hm1 & Ho1 & Hi1 & Hg1 & Hk1 & Hs1).
  cbn [mbind option_bind].
  destruct (IH σ1) as (σ2 & -> & Hr2 & Hm2 & Ho2 & Hi2 & Hs2 & Hg2); try done.
  { intros k Hk. rewrite Hk1 by congruence. apply Hex. by apply list_elem_of_further. }
  { intros k Hk. rewrite Ho1, Hi1, !not_elem_of_cons.
    destruct (Hni k (list_elem_of_further _ _ _ Hk)). assert (k ≠ id) by congruence. done. }
  exists σ2. split_and!; try done.
  - by transitivity σ1.
  - congruence.
  - rewrite Ho2, Ho1. solve_Permutation.
  - rewrite Hi2, Hi1. solve_Permutation.
  - intros k. rewrite Hg2. destruct (decide (k = id)) as [->|Hne].
    + rewrite (decide_True _ _ (list_elem_of_here _ _)), decide_False, Hg1, Hr by done. done.
    + rewrite Hk1 by done. destruct (decide (k ∈ l)), (decide (k ∈ id :: l)); try done; set_solver.
Qed.

(** Attributes are applied to each range of the list. *)
Lemma apply_all_spec attrs l : ∀ σ u, NoDup l → (∀ k, k ∈ l → is_Some (get_range σ k)) →
  ∃ σ' u', apply_all pdds attrs σ l u = Some (σ', u') ∧ same_rest σ σ' ∧ system_mem_used σ' = system_mem_used σ ∧
    objects σ' = objects σ ∧ range_ids σ' = range_ids σ ∧
    ∀ k, get_range σ' k = if decide (k ∈ l) then applied pdds (xnack_enabled σ) attrs <$> get_range σ k else get_range σ k.
Proof.
  induction l as [|id l IH]; intros σ u Hnd Hex; cbn [apply_all]; [by exists σ, u|].
  apply NoDup_cons in Hnd as [Hid Hnd]. destruct (Hex id (list_elem_of_here _ _)) as [r Hr]. rewrite Hr.
  cbn [mbind option_bind].
  pose proof (apply_attrs_flag pdds (xnack_enabled σ) r attrs u false) as Hfl.
  destruct (svm_range_apply_attrs pdds (xnack_enabled σ) r attrs u) as [r' u1]. cbn [fst] in Hfl.
  destruct (IH (put_range σ id r') u1) as (σ2 & u2 & -> & Hr2 & Hm2 & Ho2 & Hi2 & Hg2); [done| |].
  { intros k Hk. rewrite get_put_ne by congruence. apply Hex. by apply list_elem_of_further. }
  exists σ2, u2. split_and!; try done. intros k. rewrite Hg2. destruct (decide (k = id)) as [->|Hne].
  - rewrite (decide_True _ _ (list_elem_of_here _ _)), decide_False, get_put_eq, Hr by done. simpl. by rewrite Hfl.
  - rewrite get_put_ne by done. destruct (decide (k ∈ l)), (decide (k ∈ id :: l)); try done; set_solver.
Qed.

(** Ranges leave the tables and are freed. *)
Definition drop (du : bool) (σ : svm_range_list) (id : nat) : option svm_range_list :=
  σ ← svm_range_unlink σ id; svm_range_free σ id du.

Lemma drop_spec du σ id r : get_range σ id = Some r → ttm_res r = None → svm_bo r = None →
  0 < (it_node r).1 → 0 < (it_node r).2 →
  ∃ σ', drop du σ id = Some σ' ∧ same_rest σ σ' ∧ objects σ' = list_del_id id (objects σ) ∧
    range_ids σ' = list_del_id id (range_ids σ) ∧ gone σ σ' [id] ∧
    system_mem_used σ' = system_mem_used σ - (if du then charge σ (last r - start r + 1) else 0).
Proof.
  intros Hr Ht Hb Hn1 Hn2. unfold drop, svm_range_unlink. rewrite Hr. cbn [mbind option_bind].
  rewrite Hb. cbn [mbind option_bind].
  rewrite !(proj2 (nz_true _)) by lia. cbn [andb].
  match goal with |- context [interval_tree_remove ?s id] => set (σ1 := interval_tree_remove s id) end.
  assert (Hr1 : get_range σ1 id = Some r) by done.
  rewrite (free_spec σ1 id r du Hr1) by done. eexists. split; [reflexivity|]. split_and!; try done.
  intros k. destruct (decide (k ∈ [id])) as [->%list_elem_of_singleton|Hne]; [apply lookup_delete_eq|].
  apply lookup_delete_ne. intros ->. apply Hne, list_elem_of_here.
Qed.

Lemma drop_all_spec du l : ∀ σ, NoDup l →
  (∀ k, k ∈ l → ∃ r, get_range σ k = Some r ∧ plain_range r ∧ it_node r = (start r, last r) ∧ range_ok r) →
  ∃ σ', each_id (drop du) σ l = Some σ' ∧ same_rest σ σ' ∧
    objects σ' = list_del_all l (objects σ) ∧ range_ids σ' = list_del_all l (range_ids σ) ∧ gone σ σ' l ∧
    system_mem_used σ' = system_mem_used σ - (if du then charge σ (total σ l) else 0).
Proof.
  induction l as [|id l IH]; intros σ Hnd Hex; cbn [each_id].
  { exists σ. split_and!; try done.
    - by rewrite list_del_all_nil.
    - by rewrite list_del_all_nil.
    - simpl. destruct du; rewrite ?charge_0; lia. }
  apply NoDup_cons in Hnd as [Hid Hnd]. destruct (Hex id (list_elem_of_here _ _)) as (r & Hr & Hv & Hit & Hok).
  destruct Hv as (Ht & Hb & _). pose proof (rg_bounds _ Hok).
  destruct (drop_spec du σ id r Hr Ht Hb) as (σ1 & -> & Hr1 & Ho1 & Hi1 & Hg1 & Hm1); [rewrite Hit; simpl; lia..|]. cbn [mbind option_bind].
  assert (H1 : ∀ k, k ≠ id → get_range σ1 k = get_range σ k).
  { intros k Hk. by rewrite Hg1, decide_False by set_solver. }
  destruct (IH σ1) as (σ2 & -> & Hr2 & Ho2 & Hi2 & Hg2 & Hm2); [done| |].
  { intros k Hk. rewrite H1 by congruence. apply Hex. by apply list_elem_of_further. }
  exists σ2. split_and!; try done.
  - by transitivity σ1.
  - rewrite Ho2, Ho1. apply list_del_all_cons.
  - rewrite Hi2, Hi1. apply list_del_all_cons.
  - intros k. rewrite Hg2, Hg1. repeat destruct (decide _); try done; set_solver.
  - rewrite Hm2, Hm1, (charge_rest σ σ1), (total_delete σ σ1 id l Hid H1) by done. simpl. rewrite Hr.
    destruct du; rewrite ?charge_add; lia.
Qed.

(** ** The commit *)

(** A range in the tables, with no work pending. *)
Definition settled (r : svm_range) : Prop :=
  range_ok r ∧ plain_range r ∧ it_node r = (start r, last r) ∧ notifier r = (start r, last r).

(** Between requests, when no work is pending. *)
Record svm_wf (σ : svm_range_list) : Prop := {
  wf_fresh : fresh σ;
  wf_chain : chain σ 1 (objects σ);
  wf_settled k r : get_range σ k = Some r → settled r;
  wf_dom k : is_Some (get_range σ k) ↔ k ∈ objects σ;
  wf_ids : range_ids σ ≡ₚ objects σ;
  wf_idle : deferred_range_list σ = [];
}.

(** The page of an address. *)
Definition view (σ : svm_range_list) (x : Z) : option svm_range := pages as_is σ (objects σ) x.
(** System memory beyond what the ranges are charged for. *)
Definition uncharged (σ : svm_range_list) : Z := system_mem_used σ - charge σ (total σ (objects σ)).

Lemma wf_plain σ : svm_wf σ → plain σ.
Proof. intros W k r Hr. apply (wf_settled _ W k r Hr). Qed.
Lemma wf_nodes_set σ : svm_wf σ → nodes_set σ (objects σ).
Proof. intros W k r _ Hr. apply (wf_settled _ W k r Hr). Qed.

Section Commit.
Context (xnack : bool) (attrs : list svm_attribute).
Abbreviation applied := (applied pdds xnack attrs).

(** What becomes of a range. *)
Definition committed (U new : list nat) (k : nat) (r : svm_range) : svm_range :=
  let r := if decide (k ∈ new) then linked r else r in if decide (k ∈ U) then applied r else r.

Lemma page_linked r x : page (linked r) x = page r x.
Proof. done. Qed.

Lemma linked_settled r : range_ok r → plain_range r → settled (linked r).
Proof.
  intros Hok Hp. pose proof (rg_npages _ Hok). split_and!; [|done|done|simpl; f_equal; lia]. by destruct Hok.
Qed.

Lemma applied_settled r : settled r → settled (applied r).
Proof.
  intros (Hok & (Hp1 & Hp2 & Hp3 & Hp4) & Hit & Hno).
  destruct (applied_shape pdds xnack attrs r) as (H1&H2&H3&H4&H5&H6&H7&H8&H9&H10&H11&H12&H13).
  split; [by apply applied_ok|]. split; [by unfold plain_range; split_and!; congruence|]. split; congruence.
Qed.

Lemma committed_spec U new k r : range_ok r → plain_range r → (k ∉ new → settled r) →
  settled (committed U new k r) ∧ start (committed U new k r) = start r ∧ last (committed U new k r) = last r ∧
  ∀ x, page (committed U new k r) x = page (upd xnack attrs U k r) x.
Proof.
  intros Hok Hp Hs. unfold committed, SvmAdd.upd.
  assert (Hset : settled (if decide (k ∈ new) then linked r else r)).
  { destruct (decide _) as [|Hn]; [by apply linked_settled|by apply Hs]. }
  set (q := if decide (k ∈ new) then linked r else r) in *.
  assert (Hq : start q = start r ∧ last q = last r) by (unfold q; by destruct (decide _)).
  assert (Hpg : ∀ x, page q x = page r x) by (intros x; unfold q; by destruct (decide _)).
  destruct (decide (k ∈ U)); [|naive_solver].
  destruct (applied_shape pdds xnack attrs q) as (H1&H2&_).
  split; [by apply applied_settled|]. destruct Hq. split; [congruence|]. split; [congruence|].
  intros x. by rewrite !page_applied, Hpg.
Qed.

End Commit.

Lemma chain_inj σ lo l a b ra rb : chain σ lo l → a ∈ l → b ∈ l → get_range σ a = Some ra → get_range σ b = Some rb →
  start ra = start rb → a = b.
Proof.
  revert lo. induction l as [|j l IH]; intros lo; [by intros _ ?%not_elem_of_nil|].
  intros (r & Hr & Hok & Hlo & Hc) Ha Hb Hga Hgb Heq. pose proof (rg_bounds _ Hok).
  assert (Hfar : ∀ k q, k ∈ l → get_range σ k = Some q → last r < start q).
  { intros k q Hk Hq. destruct (chain_get _ _ _ _ Hc Hk) as (q' & Hq' & _ & ?). rewrite Hq in Hq'. injection Hq' as <-. lia. }
  apply elem_of_cons in Ha as [->|Ha], Hb as [->|Hb]; [done| | |by eapply IH].
  - rewrite Hr in Hga. injection Hga as <-. specialize (Hfar b rb Hb Hgb). lia.
  - rewrite Hr in Hgb. injection Hgb as <-. specialize (Hfar a ra Ha Hga). lia.
Qed.

Lemma chain_sorted σ lo l : chain σ lo l → nodes_set σ l → StronglySorted (by_start σ) l.
Proof.
  revert lo. induction l as [|j l IH]; intros lo; [constructor|].
  intros (r & Hr & Hok & Hlo & Hc) Hset. pose proof (rg_bounds _ Hok).
  assert (Hset' : nodes_set σ l) by (intros k q Hk; apply Hset; by apply list_elem_of_further).
  constructor; [by eapply IH|]. apply Forall_forall. intros k Hk.
  destruct (chain_get _ _ _ _ Hc Hk) as (q & Hq & _ & ?). unfold by_start, it_start. rewrite Hr, Hq. simpl.
  rewrite (Hset j r (list_elem_of_here _ _) Hr), (Hset' k q Hk Hq). simpl. lia.
Qed.

(** The tree is the chain of its nodes. *)
Lemma tree_chain σ lo segs : chain σ lo segs → nodes_set σ segs → sorted σ → objects σ ≡ₚ segs → objects σ = segs.
Proof.
  intros Hch Hset Hs HP. apply (StronglySorted_unique_strong (by_start σ)); [|done|by eapply chain_sorted|done].
  intros a b Ha Hb. rewrite HP in Ha. 
  destruct (chain_get _ _ _ _ Hch Ha) as (ra & Hra & _). destruct (chain_get _ _ _ _ Hch Hb) as (rb & Hrb & _).
  unfold by_start, it_start. rewrite Hra, Hrb. simpl. rewrite (Hset a ra), (Hset b rb) by done. simpl.
  intros H1 H2. eapply chain_inj; try done. lia.
Qed.

Section Commit_done.
Context (σ σ1 : svm_range_list) (attrs : list svm_attribute) (a b : Z) (U I Rm Nw segs : list nat).
Context (Hwf : svm_wf σ) (HL : ledger σ σ1 I Nw)
  (Hsp : space (xnack_enabled σ) attrs σ σ1 a b 1 (objects σ) U I Rm Nw segs).

Lemma commit_ids : NoDup (objects σ ++ I ++ Nw) ∧ NoDup (segs ++ Rm) ∧
  ∀ k, is_Some (get_range σ1 k) ↔ k ∈ objects σ ++ I ++ Nw.
Proof.
  assert (Hd : ∀ k, is_Some (get_range σ1 k) ↔ k ∈ objects σ ++ I ++ Nw).
  { intros k. rewrite (ext_dom σ σ1 (I ++ Nw) k (wf_fresh _ Hwf) (lg_ext _ _ _ _ HL)), (wf_dom _ Hwf). by rewrite !elem_of_app. }
  assert (NoDup (objects σ ++ I ++ Nw)).
  { apply NoDup_app. split_and!; [by eapply chain_NoDup, Hwf| |apply HL].
    intros k [r Hr]%(wf_dom _ Hwf) Hk%(ex_ids _ _ _ (lg_ext _ _ _ _ HL)).
    apply (fresh_lt _ _ _ (wf_fresh _ Hwf)) in Hr. lia. }
  split; [done|]. split; [|done]. by rewrite (sp_perm _ _ _ _ _ _ _ _ _ _ _ _ _ _ _ _ _ Hsp).
Qed.

Abbreviation fin := (committed (xnack_enabled σ) attrs U (Nw ++ I)).

Lemma commit_seg k : k ∈ segs → ∃ r, get_range σ1 k = Some r ∧ (k ∉ Rm) ∧
  settled (fin k r) ∧ start (fin k r) = start r ∧ last (fin k r) = last r ∧
  ∀ x, page (fin k r) x = page (upd (xnack_enabled σ) attrs U k r) x.
Proof.
  intros Hk. destruct commit_ids as (_ & (_ & Hdis & _)%NoDup_app & Hd).
  destruct (chain_get _ _ _ _ (sp_chain _ _ _ _ _ _ _ _ _ _ _ _ _ _ _ _ _ Hsp) Hk) as (r & Hr & Hok & _).
  assert (Hold : k ∉ Nw ++ I → settled r).
  { intros Hn. assert (Hin : k ∈ objects σ ++ I ++ Nw) by (apply Hd; by eexists). rewrite !elem_of_app in *.
    destruct Hin as [[q Hq]%(wf_dom _ Hwf)|?]; [|naive_solver].
    pose proof (ext_lookup _ _ _ _ _ (wf_fresh _ Hwf) (lg_ext _ _ _ _ HL) Hq) as Hq1. rewrite Hr in Hq1.
    injection Hq1 as ->. by eapply (wf_settled _ Hwf). }
  exists r. split; [done|]. split; [by apply Hdis|]. apply committed_spec; try done.
  eapply (ext_plain _ _ _ (wf_fresh _ Hwf) (lg_ext _ _ _ _ HL)); [by apply wf_plain|done].
Qed.

Lemma commit_run : ∃ σ4 u,
  (σ2 ← each_id link σ1 (Nw ++ I);
   '(σ3, u) ← apply_all pdds attrs σ2 U false;
   σ4 ← each_id (drop false) σ3 Rm; Some (σ4, u)) = Some (σ4, u) ∧
  same_rest σ1 σ4 ∧ system_mem_used σ4 = system_mem_used σ1 ∧ objects σ4 ≡ₚ segs ∧ range_ids σ4 ≡ₚ segs ∧ sorted σ4 ∧
  ∀ k, get_range σ4 k = if decide (k ∈ Rm) then None else fin k <$> get_range σ1 k.
Proof.
  destruct commit_ids as (Hnd & Hnd2 & Hd). pose proof (lg_ext _ _ _ _ HL) as E.
  destruct (ex_tables _ _ _ E) as (T1 & T2 & T3 & T4 & T5).
  pose proof Hnd as (Hnd_o & Hdis & Hnd_n)%NoDup_app. pose proof Hnd2 as (_ & Hdis2 & HndR)%NoDup_app.
  assert (Hperm : segs ++ Rm ≡ₚ (Nw ++ I) ++ objects σ).
  { rewrite (sp_perm _ _ _ _ _ _ _ _ _ _ _ _ _ _ _ _ _ Hsp). solve_Permutation. }
  destruct (link_all_spec (Nw ++ I) σ1) as (σ2 & -> & R2 & M2 & O2 & I2 & S2 & G2).
  { by rewrite Permutation_app_comm. }
  { intros k Hk. apply Hd. set_solver. }
  { intros k Hk. rewrite T1, T2, (wf_ids _ Hwf). assert (k ∉ objects σ); [|done]. intros Hko.
    apply (Hdis k Hko). set_solver. }
  { unfold sorted. rewrite T2. apply (sorted_agree σ).
    - intros k Hk. apply it_start_get. apply (ex_old _ _ _ E).
      apply (wf_dom _ Hwf) in Hk as [r Hr]. by eapply fresh_lt, Hr; apply Hwf.
    - by eapply chain_sorted, wf_nodes_set; [apply Hwf|]. }
  cbn [mbind option_bind]. rewrite T1 in I2. rewrite T2 in O2.
  destruct (apply_all_spec attrs U σ2 false) as (σ3 & u & -> & R3 & M3 & O3 & I3 & G3); [apply Hsp| |].
  { intros k Hk. apply (sp_upd _ _ _ _ _ _ _ _ _ _ _ _ _ _ _ _ _ Hsp) in Hk. 
    destruct (commit_seg k Hk) as (r & Hr & _). rewrite G2, Hr. by destruct (decide _). }
  cbn [mbind option_bind].
  assert (Hxn : xnack_enabled σ2 = xnack_enabled σ) by (destruct R2 as (_&_&_&->&_); done).
  assert (G3' : ∀ k, get_range σ3 k = fin k <$> get_range σ1 k).
  { intros k. rewrite G3, G2, Hxn. unfold committed. destruct (get_range σ1 k); by repeat destruct (decide _). }
  destruct (drop_all_spec false Rm σ3 HndR) as (σ4 & -> & R4 & O4 & I4 & G4 & M4).
  { intros k Hk. pose proof (sp_gone _ _ _ _ _ _ _ _ _ _ _ _ _ _ _ _ _ Hsp k Hk) as Hko.
    apply (wf_dom _ Hwf) in Hko as [r Hr].
    pose proof (ext_lookup _ _ _ _ _ (wf_fresh _ Hwf) E Hr) as Hr1. rewrite G3', Hr1. simpl.
    eexists. split; [done|]. pose proof (wf_settled _ Hwf _ _ Hr) as Hset.
    destruct (committed_spec (xnack_enabled σ) attrs U (Nw ++ I) k r) as ((?&?&?&?)&_); [apply Hset|apply Hset|done|].
    by split_and!. }
  cbn [mbind option_bind]. exists σ4, u. split; [done|].
  assert (Hsub : ∀ k, k ∈ Rm → k ∈ (Nw ++ I) ++ objects σ) by (intros k Hk; rewrite <- Hperm; set_solver).
  assert (HndA : NoDup ((Nw ++ I) ++ objects σ)) by by rewrite <- Hperm.
  assert (Hdel : ∀ l, l ≡ₚ (Nw ++ I) ++ objects σ → list_del_all Rm l ≡ₚ segs).
  { intros l Hl. apply (Permutation_app_inv_r Rm). rewrite Hperm, <- Hl. apply list_del_all_perm; [by rewrite Hl|done|].
    intros k. rewrite Hl. apply Hsub. }
  split_and!.
  - by transitivity σ2; [|transitivity σ3].
  - rewrite M4, M3, M2. lia.
  - rewrite O4, O3. by apply Hdel.
  - rewrite I4, I3. apply Hdel. by rewrite I2, (wf_ids _ Hwf).
  - unfold sorted. rewrite O4, O3. apply (sorted_agree σ2); [|by apply StronglySorted_filter].
    intros k Hk. apply list_elem_of_filter in Hk as [Hk _]. unfold it_start.
    rewrite G4, decide_False, G3 by done. destruct (get_range σ2 k) as [r|], (decide (k ∈ U)); simpl; try done.
    by destruct (applied_shape pdds (xnack_enabled σ2) attrs r) as (_&_&_&_&_&_&_&_&_&->&_).
  - intros k. rewrite G4, G3'. done.
Qed.

Lemma commit_done σ4 : same_rest σ1 σ4 → system_mem_used σ4 = system_mem_used σ1 →
  objects σ4 ≡ₚ segs → range_ids σ4 ≡ₚ segs → sorted σ4 →
  (∀ k, get_range σ4 k = if decide (k ∈ Rm) then None else fin k <$> get_range σ1 k) →
  svm_wf σ4 ∧ uncharged σ4 = uncharged σ ∧ (xnack_enabled σ4 = xnack_enabled σ ∧ bitmap_supported σ4 = bitmap_supported σ) ∧
  ∀ x, view σ4 x = requested LOCATION_UNDEFINED FLAG_HOST_ACCESS FLAG_COHERENT pdds (xnack_enabled σ) attrs σ a b x (view σ x).
Proof.
  intros R M O I4 S G. destruct commit_ids as (_ & Hnd2 & Hd). pose proof (lg_ext _ _ _ _ HL) as E.
  pose proof Hnd2 as (_ & Hdis2 & _)%NoDup_app.
  assert (Hseg : ∀ k, k ∈ segs → ∃ r, get_range σ1 k = Some r ∧ get_range σ4 k = Some (fin k r) ∧
    settled (fin k r) ∧ start (fin k r) = start r ∧ last (fin k r) = last r ∧
    ∀ x, page (fin k r) x = page (upd (xnack_enabled σ) attrs U k r) x).
  { intros k Hk. destruct (commit_seg k Hk) as (r & Hr & Hn & Hset). exists r. split; [done|]. split; [|done].
    by rewrite G, decide_False, Hr. }
  assert (Hin : ∀ k, is_Some (get_range σ4 k) ↔ k ∈ segs).
  { intros k. split; [|intros Hk; destruct (Hseg k Hk) as (r & _ & -> & _); by eexists].
    rewrite G. destruct (decide (k ∈ Rm)) as [|Hn]; [by intros []|]. intros Hs%fmap_is_Some%Hd.
    rewrite <- (sp_perm _ _ _ _ _ _ _ _ _ _ _ _ _ _ _ _ _ Hsp), elem_of_app in Hs. naive_solver. }
  assert (Hch : ∀ lo l, (∀ k, k ∈ l → k ∈ segs) → chain σ1 lo l → chain σ4 lo l ∧
    total σ4 l = total σ1 l ∧ ∀ x, pages as_is σ4 l x = pages (upd (xnack_enabled σ) attrs U) σ1 l x).
  { intros lo l. revert lo. induction l as [|k l IH]; intros lo Hl; [done|]. intros (r & Hr & Hok & Hlo & Hc).
    destruct (Hseg k (Hl k (list_elem_of_here _ _))) as (r' & Hr' & Hr4 & (Hok4 & _) & Hs4 & Hl4 & Hp4).
    rewrite Hr in Hr'. injection Hr' as <-.
    destruct (IH (last r + 1)) as (IH1 & IH2 & IH3); [by intros j Hj; apply Hl, list_elem_of_further|done|].
    cbn [chain total pages]. rewrite Hr, Hr4, IH2, Hs4, Hl4. split; [|split; [done|]].
    - exists (fin k r). rewrite Hs4, Hl4. by split_and!.
    - intros x. unfold as_is at 1. rewrite IH3.
      assert (Hcov : covers (fin k r) x ↔ covers r x) by (unfold covers; by rewrite Hs4, Hl4).
      destruct (decide (covers (fin k r) x)), (decide (covers r x)); [by rewrite Hp4|tauto..|done]. }
  destruct (Hch 1 segs) as (Hc4 & Ht4 & Hp4); [done|apply Hsp|].
  assert (Hset : nodes_set σ4 segs).
  { intros k r Hk Hr. destruct (Hseg k Hk) as (r' & _ & Hr' & (_ & _ & ? & _) & _). congruence. }
  pose proof (tree_chain σ4 1 segs Hc4 Hset S O) as Ho. destruct R as (R1 & R2 & R3 & R4 & R5).
  destruct (ex_tables _ _ _ E) as (T1 & T2 & T3 & T4 & T5). split; [split|split; [|split; [split; congruence|]]].
  - intros k Hk. destruct (get_range σ4 k) as [r|] eqn:Hr; [|done].
    assert (Hks : k ∈ segs) by (apply Hin; by eexists). destruct (Hseg k Hks) as (q & Hq & _).
    apply (fresh_lt _ _ _ (ext_fresh _ _ _ (wf_fresh _ Hwf) E)) in Hq. lia.
  - by rewrite Ho.
  - intros k r Hr. assert (Hks : k ∈ segs) by (apply Hin; by eexists).
    destruct (Hseg k Hks) as (q & _ & Hq & Hs & _). congruence.
  - intros k. by rewrite Ho, Hin.
  - by rewrite Ho, I4.
  - by rewrite R2, T3, (wf_idle _ Hwf).
  - unfold uncharged. rewrite Ho, Ht4, M, (lg_mem _ _ _ _ HL).
    rewrite (sp_total _ _ _ _ _ _ _ _ _ _ _ _ _ _ _ _ _ Hsp). unfold charge. rewrite R4, T5.
    destruct (xnack_enabled σ); [lia|]. rewrite !Z.shiftl_mul_pow2 by (unfold PAGE_SHIFT; lia). lia.
  - intros x. unfold view. rewrite Ho, Hp4. by rewrite (sp_pages _ _ _ _ _ _ _ _ _ _ _ _ _ _ _ _ _ Hsp).
Qed.
End Commit_done.

(** ** The request *)

Lemma idle_work σ : svm_wf σ → svm_range_deferred_list_work σ = Some σ.
Proof.
  intros W. unfold svm_range_deferred_list_work. rewrite (wf_idle _ W). simpl. by rewrite (wf_idle _ W).
Qed.

(** Nothing is different but the next identity and the requests made. *)
Definition untouched (σ σ' : svm_range_list) : Prop :=
  same_tables σ σ' ∧ ranges σ' = ranges σ ∧ bos σ' = bos σ ∧ system_mem_used σ' = system_mem_used σ.

Lemma ext_untouched σ σ' : fresh σ → ext σ σ' [] → system_mem_used σ' = system_mem_used σ → untouched σ σ'.
Proof.
  intros Hf E Hm. split; [apply E|]. split; [|split; [apply E|done]]. apply map_eq. intros k.
  change (get_range σ' k = get_range σ k). destruct (decide (k < svm_next σ)%nat) as [Hk|Hk]; [by apply E|].
  rewrite Hf by lia. destruct (get_range σ' k) eqn:Hg; [|done].
  assert (Hin : k ∈ []) by (apply (ex_new _ _ _ E); [lia|by eexists]). by apply not_elem_of_nil in Hin.
Qed.

Lemma untouched_wf σ σ' : svm_wf σ → untouched σ σ' → (svm_next σ ≤ svm_next σ')%nat →
  svm_wf σ' ∧ uncharged σ' = uncharged σ ∧ ∀ x, view σ' x = view σ x.
Proof.
  intros W ((T1 & T2 & T3 & T4 & T5) & Hr & Hb & Hm) Hn.
  assert (Hg : ∀ k, get_range σ' k = get_range σ k) by (intros k; unfold get_range; by rewrite Hr).
  split; [split|split].
  - intros k Hk. rewrite Hg. apply (wf_fresh _ W). lia.
  - rewrite T2. apply (chain_agree σ); [by intros k _|apply W].
  - intros k r. rewrite Hg. apply W.
  - intros k. rewrite Hg, T2. apply W.
  - rewrite T1, T2. apply W.
  - rewrite T3. apply W.
  - unfold uncharged, charge. rewrite Hm, T2, T5, (total_agree σ σ') by (by intros k _). done.
  - intros x. unfold view. rewrite T2. by apply pages_agree.
Qed.

(** What a request leaves: every page as asked for, or nothing changed. *)
Lemma set_attr_spec σ s size attrs : svm_wf σ → max_pages_ok max_svm_range_pages → 0 < s → 0 < size →
  svm_range_check_attr LOCATION_SYSMEM LOCATION_UNDEFINED pdds (bitmap_supported σ) attrs = 0 →
  ∃ σ' ls um rc, set_attr 0 σ s size attrs = Some (σ', ls, um, rc) ∧
    svm_wf σ' ∧ uncharged σ' = uncharged σ ∧ (xnack_enabled σ' = xnack_enabled σ ∧ bitmap_supported σ' = bitmap_supported σ) ∧
    (rc = 0 ∧ (∀ x, view σ' x = requested LOCATION_UNDEFINED FLAG_HOST_ACCESS FLAG_COHERENT pdds
                              (xnack_enabled σ) attrs σ s (s + size - 1) x (view σ x)) ∨
     rc = -ENOMEM ∧ ¬ plenty ∧ untouched σ σ').
Proof.
  intros W Hmax Hs Hsize Hck. unfold svm_range_set_attr. rewrite Hck, (idle_work σ W). change (nz 0) with false.
  cbv iota. cbn [mbind option_bind]. change (nz 0) with false. cbv iota.
  destruct (add_spec σ s size attrs) as (σ1 & ls & rc & -> & Hrc); try done; try apply W.
  { by apply wf_plain. } { by apply wf_nodes_set. }
  cbn [mbind option_bind]. destruct Hrc as [[-> (U & I & Rm & rm & Nw & segs & -> & HL & Hsp)]|(-> & Hno & E & Hm)].
  - change (nz 0) with false. cbv iota. cbn [insert_list update_list remove_list].
    destruct (commit_run _ _ _ _ _ _ _ _ _ _ W HL Hsp) as (σ4 & u & Hrun & R & M & O & I4 & S & G).
    destruct (commit_done _ _ _ _ _ _ _ _ _ _ W HL Hsp σ4 R M O I4 S G) as (W4 & Hu & Hset & Hv).
    change (each_id (λ σ id, σ ← svm_range_add_to_svms σ id; svm_range_add_notifier_locked σ id)) with (each_id link).
    change (each_id (λ σ id, σ ← svm_range_unlink σ id; svm_range_free σ id false)) with (each_id (drop false)).
    destruct (each_id link σ1 (Nw ++ I)) as [σ2|]; [|done]. cbn [mbind option_bind] in *.
    destruct (apply_all pdds attrs σ2 U false) as [[σ3 u3]|]; [|done]. cbn [mbind option_bind] in *.
    destruct (each_id (drop false) σ3 Rm) as [σ4'|]; [|done]. cbn [mbind option_bind] in *. injection Hrun as -> _.
    eexists _, _, _, _. split; [reflexivity|]. split; [done|]. split; [done|]. split; [done|]. by left.
  - change (nz (-ENOMEM)) with true. cbv iota. eexists _, _, _, _. split; [reflexivity|].
    pose proof (ext_untouched _ _ (wf_fresh _ W) E Hm) as Hun.
    destruct (untouched_wf _ _ W Hun (ex_next _ _ _ E)) as (W' & Hu & _). split; [done|]. split; [done|].
    destruct (ex_tables _ _ _ E) as (_ & _ & _ & ? & ?). split; [done|]. by right.
Qed.
End Set_attr.
