(* ===== verification/SvmUnmap.v ===== *)
(** * Shared virtual memory: unmapping by the CPU

    An unmapping splits ranges at once, but the tables are updated by deferred work:
    until then a range in the tables keeps its node and has the pieces that were cut
    off it, to add or to free, as its children.  [pend] is the invariant while work is
    pending; [shows] gives the pages that are not about to be freed. *)

From S2P Require Import Prelude Svm SvmProof SvmAdd SvmSet.
#[local] Open Scope Z_scope.
#[local] Open Scope list_scope.

(** ** Pending work *)

Definition op_of (r : svm_range) : svm_work_list_ops := work_op r.
Definition dying (r : svm_range) : Prop := work_op r = SVM_OP_UNMAP_RANGE.
#[export] Instance dying_dec r : Decision (dying r).
Proof. unfold dying. apply _. Defined.

(** The page [p] is that of address [x], in some range that stays. *)
Definition shows (σ : svm_range_list) (x : Z) (p : svm_range) : Prop :=
  ∃ k r, get_range σ k = Some r ∧ ¬ dying r ∧ covers r x ∧ p = page r x.

(** A piece that was cut off a range whose node is [node]. *)
Record piece_of (node : Z * Z) (q : svm_range) : Prop := {
  pi_bounds : node.1 ≤ start q ∧ last q ≤ node.2;
  pi_unset : it_node q = (0, 0) ∧ notifier q = (0, 0) ∧ child_list q = [];
}.

(** [B] is the range that is worked on, if one is, and [O] holds pieces of it that are on
    no list. *)
Record pend (σ : svm_range_list) (B : option nat) (O : list nat) : Prop := {
  pe_fresh : fresh σ;
  pe_range k r : get_range σ k = Some r → range_ok r ∧ ttm_res r = None ∧ svm_bo r = None;
  pe_disjoint x j k q r : get_range σ j = Some q → get_range σ k = Some r → covers q x → covers r x → j = k;
  pe_dom k : is_Some (get_range σ k) ↔
    k ∈ objects σ ∨ (∃ j r, j ∈ objects σ ∧ get_range σ j = Some r ∧ k ∈ child_list r) ∨ k ∈ O;
  pe_node k r : k ∈ objects σ → get_range σ k = Some r →
    notifier r = it_node r ∧ 0 < (it_node r).1 ∧ (it_node r).1 ≤ start r ∧ last r ≤ (it_node r).2;
  pe_settled k r : k ∈ objects σ → get_range σ k = Some r → k ∉ deferred_range_list σ →
    ¬ dying r ∧ (B ≠ Some k → child_list r = [] ∧ it_node r = (start r, last r));
  pe_deferred k : k ∈ deferred_range_list σ → k ∈ objects σ ∧
    ∃ r, get_range σ k = Some r ∧ (dying r ∨ work_op r = SVM_OP_UPDATE_RANGE_NOTIFIER);
  pe_child k r c : k ∈ objects σ → get_range σ k = Some r → c ∈ child_list r →
    (c ∉ objects σ) ∧ ∃ q, get_range σ c = Some q ∧ piece_of (it_node r) q ∧ (dying q ∨ work_op q = SVM_OP_ADD_RANGE);
  pe_orphan c : c ∈ O → (c ∉ objects σ) ∧ ∃ k r q, B = Some k ∧ get_range σ k = Some r ∧ get_range σ c = Some q ∧
    piece_of (it_node r) q ∧ ∀ j rj, j ∈ objects σ → get_range σ j = Some rj → c ∉ child_list rj;
  pe_family j k q r c : j ∈ objects σ → k ∈ objects σ → get_range σ j = Some q → get_range σ k = Some r →
    c ∈ child_list q → c ∈ child_list r → j = k;
  pe_children k r : k ∈ objects σ → get_range σ k = Some r → NoDup (child_list r);
  pe_ids : range_ids σ ≡ₚ objects σ;
  pe_nodup : NoDup (objects σ) ∧ NoDup (deferred_range_list σ) ∧ NoDup O;
  pe_sorted : sorted σ;
}.

Lemma pend_deferred_dom σ B O k : pend σ B O → k ∈ objects σ → is_Some (get_range σ k).
Proof. intros P Hk. apply (pe_dom _ _ _ P). by left. Qed.

(** All objects keep their links. *)
Definition links (r : svm_range) := (it_node r, notifier r, work_op r, child_list r).
Lemma links_inv r r' : links r' = links r →
  it_node r' = it_node r ∧ notifier r' = notifier r ∧ work_op r' = work_op r ∧ child_list r' = child_list r.
Proof. intros [= ? ? ? ?]. done. Qed.

(** A member of the family of [id]: the range itself, a child or a piece on no list. *)
Definition member (σ : svm_range_list) (O : list nat) (id p : nat) : Prop :=
  p = id ∨ (∃ r, get_range σ id = Some r ∧ p ∈ child_list r) ∨ p ∈ O.

Lemma member_bounds σ O id p r q : pend σ (Some id) O → id ∈ objects σ → get_range σ id = Some r →
  get_range σ p = Some q → member σ O id p → (it_node r).1 ≤ start q ∧ last q ≤ (it_node r).2.
Proof.
  intros P Hid Hr Hq [->|[(r' & Hr' & Hp)|Hp]].
  - rewrite Hr in Hq. injection Hq as <-. by destruct (pe_node _ _ _ P _ _ Hid Hr) as (_ & _ & ? & ?).
  - rewrite Hr in Hr'. injection Hr' as <-. destruct (pe_child _ _ _ P _ _ _ Hid Hr Hp) as (_ & q' & Hq' & Hpi & _).
    rewrite Hq in Hq'. injection Hq' as <-. apply Hpi.
  - destruct (pe_orphan _ _ _ P _ Hp) as (_ & k & r' & q' & [= <-] & Hr' & Hq' & Hpi & _).
    rewrite Hr in Hr'. injection Hr' as <-. rewrite Hq in Hq'. injection Hq' as <-. apply Hpi.
Qed.

(** Ranges keep their links and get no longer. *)
Definition shrunk (r r' : svm_range) : Prop :=
  links r' = links r ∧ start r ≤ start r' ∧ last r' ≤ last r ∧ range_ok r' ∧ ttm_res r' = None ∧ svm_bo r' = None.

Lemma split_in q o n s' l' : split_of q o n s' l' → split_ok q s' l' → in_vram q = false → ttm_res q = None → svm_bo q = None →
  shrunk q o ∧ (start q ≤ start n ∧ last n ≤ last q ∧ range_ok n ∧ ttm_res n = None ∧ svm_bo n = None ∧ work_op n = SVM_OP_NULL ∧
    it_node n = (0, 0) ∧ notifier n = (0, 0) ∧ child_list n = []) ∧
  ∀ x, (covers q x ↔ covers o x ∨ covers n x) ∧ ¬ (covers o x ∧ covers n x).
Proof.
  intros S [Hle Hok] Hv Ht Hb. destruct (sp_o _ _ _ _ _ S) as [Ho1 Ho2]. pose proof (sp_n _ _ _ _ _ S) as Hn.
  destruct (sp_o_links _ _ _ _ _ S) as (L1&L2&L3&L4&L5&L6&L7). destruct (sp_n_links _ _ _ _ _ S) as (N1&N2&N3&N4&N5&N6).
  destruct (N6 Hv) as [N7 N8]. pose proof (rg_bounds _ (sp_o_ok _ _ _ _ _ S)). pose proof (rg_bounds _ (sp_n_ok _ _ _ _ _ S)).
  assert (Hb' : start q ≤ start n ∧ last n ≤ last q) by (destruct (Z.eqb_spec (start q) s'); lia).
  split; [|split].
  - split; [by unfold links; rewrite L1, L2, L3, L4|]. split_and!; try lia; [apply S|congruence..].
  - split_and!; try done; try lia. apply S.
  - intros x. unfold covers. destruct (Z.eqb_spec (start q) s'); lia.
Qed.

(** The objects after a split of [p] into [o] and [n]. *)
Section Split.
Context (σ σ' : svm_range_list) (id : nat) (O : list nat) (p t : nat) (q o n : svm_range) (s' l' : Z).
Context (P : pend σ (Some id) O) (Hid : id ∈ objects σ) (Hmem : member σ O id p)
  (Hq : get_range σ p = Some q) (Hlive : ¬ dying q) (Ht : t = svm_next σ) (Hnext : svm_next σ' = S t)
  (Hsame : ∀ k, k ≠ p → k ≠ t → get_range σ' k = get_range σ k)
  (Ho : get_range σ' p = Some o) (Hn : get_range σ' t = Some n)
  (Hids : range_ids σ' = range_ids σ) (Hobj : objects σ' = objects σ)
  (Hdef : deferred_range_list σ' = deferred_range_list σ)
  (Hso : split_of q o n s' l') (Hs : split_ok q s' l').

Lemma split_novram : in_vram q = false.
Proof.
  destruct (pe_range _ _ _ P _ _ Hq) as (_ & Htt & _). unfold in_vram.
  rewrite Htt, bool_decide_false by (by intros []). apply andb_false_r.
Qed.

Lemma split_parts : shrunk q o ∧ (start q ≤ start n ∧ last n ≤ last q ∧ range_ok n ∧ ttm_res n = None ∧ svm_bo n = None ∧
    work_op n = SVM_OP_NULL ∧ it_node n = (0, 0) ∧ notifier n = (0, 0) ∧ child_list n = []) ∧
  ∀ x, (covers q x ↔ covers o x ∨ covers n x) ∧ ¬ (covers o x ∧ covers n x).
Proof. destruct (pe_range _ _ _ P _ _ Hq) as (_ & Htt & Hb). by apply (split_in q o n s' l'); [| |apply split_novram| |]. Qed.

Lemma split_new : get_range σ t = None ∧ p ≠ t.
Proof.
  subst t. pose proof (pe_fresh _ _ _ P (svm_next σ) ltac:(done)) as H. split; [done|]. congruence.
Qed.

Lemma split_fwd k r : get_range σ k = Some r → ∃ r', get_range σ' k = Some r' ∧ shrunk r r' ∧ (k ≠ p → r' = r).
Proof.
  intros Hk. destruct split_new as [Hf _]. destruct (decide (k = p)) as [->|Hne].
  - rewrite Hq in Hk. injection Hk as <-. exists o. split; [done|]. split; [apply split_parts|done].
  - exists r. rewrite Hsame by congruence. split; [done|]. split; [|done].
    destruct (pe_range _ _ _ P _ _ Hk) as (?&?&?). split_and!; (done || lia).
Qed.

Lemma split_bwd k r' : get_range σ' k = Some r' →
  k = t ∧ r' = n ∨ (k ≠ t ∧ ∃ r, get_range σ k = Some r ∧ shrunk r r' ∧ (k ≠ p → r' = r)).
Proof.
  intros Hk. destruct (decide (k = t)) as [->|Hne]; [left; split; congruence|right; split; [done|]].
  assert (is_Some (get_range σ k)) as [r Hr].
  { destruct (decide (k = p)) as [->|]; [by eexists|]. rewrite Hsame in Hk by done. by eexists. }
  exists r. split; [done|]. destruct (split_fwd k r Hr) as (r2 & Hr2 & ?). rewrite Hk in Hr2. by injection Hr2 as ->.
Qed.

Lemma split_t_out : t ∉ objects σ.
Proof. intros [r Hr]%(pend_deferred_dom _ _ _ _ P). destruct split_new. congruence. Qed.

Lemma split_shows x pg : shows σ' x pg ↔ shows σ x pg.
Proof.
  destruct split_parts as ((Hlo & _) & (_ & _ & _ & _ & _ & Hnop & _) & Hc). destruct (Hc x) as [Hcx _].
  apply links_inv in Hlo as (_ & _ & Hlo & _). split.
  - intros (k & r & Hk & Hd & Hx & ->). destruct (split_bwd k r Hk) as [[-> ->]|(Hkt & r0 & Hr0 & _ & Heq)].
    + exists p, q. split_and!; try done; [naive_solver|]. by apply (sp_page_n _ _ _ _ _ Hso).
    + destruct (decide (k = p)) as [->|Hne].
      * rewrite Ho in Hk. injection Hk as <-. exists p, q. split_and!; try done; [naive_solver|]. by apply (sp_page_o _ _ _ _ _ Hso).
      * exists k, r0. rewrite (Heq Hne) in *. done.
  - intros (k & r & Hk & Hd & Hx & ->). destruct (decide (k = p)) as [->|Hne].
    + rewrite Hq in Hk. injection Hk as <-. apply Hcx in Hx as [Hx|Hx].
      * exists p, o. unfold dying. rewrite Hlo. split_and!; try done. symmetry. by apply (sp_page_o _ _ _ _ _ Hso).
      * exists t, n. unfold dying. rewrite Hnop. split_and!; try done. symmetry. by apply (sp_page_n _ _ _ _ _ Hso).
    + exists k, r. destruct (split_fwd k r Hk) as (r' & Hr' & _ & Heq). rewrite (Heq Hne) in Hr'. done.
Qed.

Lemma split_pend : pend σ' (Some id) (t :: O).
Proof.
  destruct split_parts as (Hsho & (Hn1 & Hn2 & Hn3 & Hn4 & Hn5 & Hn6 & Hn7 & Hn8 & Hn9) & Hc).
  destruct split_new as [Hf Hpt]. pose proof split_t_out as Hto.
  assert (Hnode : ∀ k r', k ∈ objects σ' → get_range σ' k = Some r' →
    k ∈ objects σ ∧ ∃ r, get_range σ k = Some r ∧ shrunk r r' ∧ (k ≠ p → r' = r)).
  { intros k r' Hk Hr'. rewrite Hobj in Hk. split; [done|].
    destruct (split_bwd k r' Hr') as [[-> _]|(_ & ?)]; done. }
  assert (Hkid : ∀ c, get_range σ t = None → is_Some (get_range σ c) → c ≠ t) by (intros c ? [? ?] ->; congruence).
  split.
  - intros k Hk. rewrite Hsame by (destruct (decide (k = p)) as [->|]; [apply (fresh_lt _ _ _ (pe_fresh _ _ _ P)) in Hq|]; lia).
    apply (pe_fresh _ _ _ P). lia.
  - intros k r Hr. destruct (split_bwd k r Hr) as [[-> ->]|(_ & r0 & _ & (_ & _ & _ & ? & ? & ?) & _)]; done.
  - assert (Horg : ∀ x j r, get_range σ' j = Some r → covers r x → ∃ q', get_range σ (if decide (j = t) then p else j) = Some q' ∧ covers q' x).
    { intros x j r Hr Hx. destruct (split_bwd j r Hr) as [[-> ->]|(Hj & r0 & Hr0 & (_ & ? & ? & _) & _)].
      - rewrite decide_True by done. exists q. split; [done|]. apply (Hc x). by right.
      - rewrite decide_False by done. exists r0. split; [done|]. unfold covers in *. lia. }
    intros x j k qj rk Hj Hk Hxj Hxk. destruct (Horg x j qj Hj Hxj) as (q1 & Hq1 & Hx1). destruct (Horg x k rk Hk Hxk) as (q2 & Hq2 & Hx2).
    pose proof (pe_disjoint _ _ _ P _ _ _ _ _ Hq1 Hq2 Hx1 Hx2) as Heq.
    destruct (decide (j = t)) as [->|], (decide (k = t)) as [->|]; try congruence; exfalso; apply (Hc x).
    + subst k. rewrite Ho in Hk. rewrite Hn in Hj. by simplify_eq.
    + subst j. rewrite Ho in Hj. rewrite Hn in Hk. by simplify_eq.
  - intros k. rewrite Hobj, elem_of_cons. destruct (decide (k = t)) as [->|Hne]; [rewrite Hn; naive_solver|].
    assert (is_Some (get_range σ' k) ↔ is_Some (get_range σ k)) as ->.
    { split; [intros [r Hr]; destruct (split_bwd k r Hr) as [[? _]|(_ & r0 & ? & _)]; [done|by eexists]|].
      intros [r Hr]. destruct (split_fwd k r Hr) as (r' & ? & _). by eexists. }
    rewrite (pe_dom _ _ _ P). split; [|intros [?|[(j & r' & Hj & Hr' & Hin)|[?|?]]]; try by auto].
    + intros [?|[(j & r & Hj & Hr & Hin)|?]]; [by left| |by auto]. right; left.
      destruct (split_fwd j r Hr) as (r' & Hr' & (Hl & _) & _). exists j, r'. rewrite Hobj || idtac.
      apply links_inv in Hl as (_ & _ & _ & ->). done.
    + right; left. destruct (Hnode j r') as (_ & r & Hr & (Hl & _) & _); [by rewrite Hobj|done|]. exists j, r.
      apply links_inv in Hl as (_ & _ & _ & <-). done.
  - intros k r' Hk Hr'. destruct (Hnode k r' Hk Hr') as (Hk' & r & Hr & (Hl & ? & ? & _) & _).
    apply links_inv in Hl as (-> & -> & _ & _). destruct (pe_node _ _ _ P _ _ Hk' Hr) as (?&?&?&?). split_and!; (done || lia).
  - intros k r' Hk Hr' Hd. destruct (Hnode k r' Hk Hr') as (Hk' & r & Hr & (Hl & _) & Heq). rewrite Hdef in Hd.
    apply links_inv in Hl as (Hl1 & _ & Hl3 & Hl4). destruct (pe_settled _ _ _ P _ _ Hk' Hr Hd) as [Hdy Hset].
    split; [unfold dying; by rewrite Hl3|]. intros HB. rewrite Heq; [by apply Hset|]. intros ->. destruct Hmem as [->|[(r0 & Hr0 & Hin)|Hin]]; [done| |].
    + by destruct (pe_child _ _ _ P _ _ _ Hid Hr0 Hin) as [? _].
    + by destruct (pe_orphan _ _ _ P _ Hin) as [? _].
  - intros k Hk. rewrite Hdef in Hk. rewrite Hobj. destruct (pe_deferred _ _ _ P _ Hk) as (? & r & Hr & Hop). split; [done|].
    destruct (split_fwd k r Hr) as (r' & Hr' & (Hl & _) & _). exists r'. split; [done|].
    apply links_inv in Hl as (_ & _ & Hl3 & _). unfold dying in *. by rewrite Hl3.
  - intros k r' c Hk Hr' Hin. destruct (Hnode k r' Hk Hr') as (Hk' & r & Hr & (Hl & _) & _).
    apply links_inv in Hl as (Hl1 & _ & _ & Hl4). rewrite Hl4 in Hin. rewrite Hobj, Hl1.
    destruct (pe_child _ _ _ P _ _ _ Hk' Hr Hin) as (Hc1 & qc & Hqc & [Hb Hu] & Hop). split; [done|].
    destruct (split_fwd c qc Hqc) as (qc' & Hqc' & (Hlc & ? & ? & _) & _). exists qc'. split; [done|].
    apply links_inv in Hlc as (L1 & L2 & L3 & L4). unfold dying. rewrite L3. split; [|done]. split; [lia|congruence].
  - intros c [->|Hin]%elem_of_cons; rewrite Hobj.
    + split; [done|]. destruct (pend_deferred_dom _ _ _ _ P Hid) as [r Hr].
      destruct (split_fwd id r Hr) as (r' & Hr' & (Hl & _) & _). exists id, r', n. split_and!; try done.
      * pose proof (member_bounds _ _ _ _ _ _ P Hid Hr Hq Hmem). apply links_inv in Hl as (-> & _). split; [lia|done].
      * intros j rj Hj Hrj Hin. destruct (Hnode j rj) as (_ & r0 & Hr0 & (Hlj & _) & _); [by rewrite Hobj|done|].
        apply links_inv in Hlj as (_ & _ & _ & Hlj). rewrite Hlj in Hin.
        destruct (pe_child _ _ _ P _ _ _ Hj Hr0 Hin) as (_ & qc & Hqc & _). congruence.
    + destruct (pe_orphan _ _ _ P _ Hin) as (Hc1 & k & r & qc & [= <-] & Hr & Hqc & [Hb Hu] & Hno). split; [done|].
      destruct (split_fwd id r Hr) as (r' & Hr' & (Hl & _) & _). destruct (split_fwd c qc Hqc) as (qc' & Hqc' & (Hlc & ? & ? & _) & _).
      exists id, r', qc'. apply links_inv in Hl as (-> & _). apply links_inv in Hlc as (L1 & L2 & L3 & L4).
      split_and!; try done; [split; [lia|congruence]|].
      intros j rj Hj Hrj. destruct (Hnode j rj) as (_ & r0 & Hr0 & (Hlj & _) & _); [by rewrite Hobj|done|].
      apply links_inv in Hlj as (_ & _ & _ & ->). by eapply Hno.
  - intros j k qj rk c Hj Hk Hqj Hrk. destruct (Hnode j qj Hj Hqj) as (Hj' & q0 & Hq0 & (Hlj & _) & _).
    destruct (Hnode k rk Hk Hrk) as (Hk' & r0 & Hr0 & (Hlk & _) & _).
    apply links_inv in Hlj as (_ & _ & _ & ->). apply links_inv in Hlk as (_ & _ & _ & ->). by eapply (pe_family _ _ _ P).
  - intros k rk Hk Hrk. destruct (Hnode k rk Hk Hrk) as (Hk' & r0 & Hr0 & (Hlk & _) & _).
    apply links_inv in Hlk as (_ & _ & _ & ->). by eapply (pe_children _ _ _ P).
  - rewrite Hids, Hobj. apply P.
  - rewrite Hobj, Hdef. destruct (pe_nodup _ _ _ P) as (?&?&?). split_and!; try done. apply NoDup_cons. split; [|done].
    intros Hin. destruct (pe_orphan _ _ _ P _ Hin) as (_ & k & r & qc & _ & _ & Hqc & _). congruence.
  - unfold sorted. rewrite Hobj. apply (sorted_agree σ); [|apply P]. intros k Hk.
    destruct (pend_deferred_dom _ _ _ _ P Hk) as [r Hr]. destruct (split_fwd k r Hr) as (r' & Hr' & (Hl & _) & _).
    unfold it_start. rewrite Hr, Hr'. apply links_inv in Hl as (Hl & _). simpl. by rewrite Hl.
Qed.
End Split.

(** The pages of all ranges. *)
Definition range_pages (r : svm_range) : Z := last r - start r + 1.
Definition heap_pages (σ : svm_range_list) : Z := msum range_pages (ranges σ).

Lemma heap_pages_split σ σ' p t q o n : get_range σ p = Some q → get_range σ t = None →
  (∀ k, k ≠ p → k ≠ t → get_range σ' k = get_range σ k) → get_range σ' p = Some o → get_range σ' t = Some n →
  range_pages q = range_pages o + range_pages n → heap_pages σ' = heap_pages σ.
Proof.
  intros Hq Ht Hk Ho Hn Hp. unfold heap_pages. assert (Hne : p ≠ t) by congruence.
  assert (ranges σ' = <[t := n]> (<[p := o]> (ranges σ))) as ->.
  { apply map_eq. intros k. change (ranges σ' !! k) with (get_range σ' k).
    destruct (decide (k = t)) as [->|]; [by rewrite lookup_insert_eq|]. rewrite lookup_insert_ne by done.
    destruct (decide (k = p)) as [->|]; [by rewrite lookup_insert_eq|]. rewrite lookup_insert_ne by done. by apply Hk. }
  rewrite msum_insert_None by by rewrite lookup_insert_ne.
  rewrite (msum_update _ _ p q o Hq). lia.
Qed.

(** ** Changes of operations and lists *)

(** Where a range is, in every sense. *)
Definition place (r : svm_range) := (start r, last r, (ttm_res r, svm_bo r), it_node r, notifier r).

Section Relabel.
Context (σ σ' : svm_range_list) (B : option nat) (O : list nat) (f : nat → svm_range → svm_range).
Context (P : pend σ B O) (Hobj : objects σ' = objects σ) (Hids : range_ids σ' = range_ids σ)
  (Hnext : svm_next σ' = svm_next σ) (Hg : ∀ k, get_range σ' k = f k <$> get_range σ k)
  (Hf : ∀ k r, place (f k r) = place r ∧ (range_ok r → range_ok (f k r))).

Lemma relabel_place k r : start (f k r) = start r ∧ last (f k r) = last r ∧ ttm_res (f k r) = ttm_res r ∧
  svm_bo (f k r) = svm_bo r ∧ it_node (f k r) = it_node r ∧ notifier (f k r) = notifier r.
Proof. destruct (Hf k r) as [[= ? ? ? ? ? ?] _]. done. Qed.

Lemma relabel_inv k r' : get_range σ' k = Some r' → ∃ r, get_range σ k = Some r ∧ r' = f k r.
Proof. rewrite Hg. destruct (get_range σ k) as [r|]; [|done]. intros [= <-]. by exists r. Qed.

Lemma relabel_fields :
  fresh σ' ∧ (∀ k r, get_range σ' k = Some r → range_ok r ∧ ttm_res r = None ∧ svm_bo r = None) ∧
  (∀ x j k q r, get_range σ' j = Some q → get_range σ' k = Some r → covers q x → covers r x → j = k) ∧
  (∀ k r, k ∈ objects σ' → get_range σ' k = Some r →
     notifier r = it_node r ∧ 0 < (it_node r).1 ∧ (it_node r).1 ≤ start r ∧ last r ≤ (it_node r).2) ∧
  range_ids σ' ≡ₚ objects σ' ∧ NoDup (objects σ') ∧ sorted σ'.
Proof.
  split_and!.
  - intros k Hk. rewrite Hg, (pe_fresh _ _ _ P) by lia. done.
  - intros k r' (r & Hr & ->)%relabel_inv. destruct (pe_range _ _ _ P _ _ Hr) as (H1 & H2 & H3).
    destruct (relabel_place k r) as (_ & _ & -> & -> & _). split; [by apply Hf|done].
  - intros x j k q' r' (q & Hq & ->)%relabel_inv (r & Hr & ->)%relabel_inv. unfold covers.
    destruct (relabel_place j q) as (-> & -> & _). destruct (relabel_place k r) as (-> & -> & _).
    by apply (pe_disjoint _ _ _ P).
  - intros k r' Hk (r & Hr & ->)%relabel_inv. rewrite Hobj in Hk.
    destruct (relabel_place k r) as (-> & -> & _ & _ & -> & ->). by apply (pe_node _ _ _ P k).
  - rewrite Hids, Hobj. apply P.
  - rewrite Hobj. apply (pe_nodup _ _ _ P).
  - unfold sorted. rewrite Hobj. apply (sorted_agree σ); [|apply P]. intros k Hk. unfold it_start. rewrite Hg.
    destruct (get_range σ k) as [r|]; [|done]. simpl. by destruct (relabel_place k r) as (_ & _ & _ & _ & -> & _).
Qed.

Lemma relabel_dom k : is_Some (get_range σ' k) ↔ is_Some (get_range σ k).
Proof. rewrite Hg. by rewrite fmap_is_Some. Qed.

(** A page is shown as before where the range it is in is as alive as before. *)
Lemma relabel_shows x pg : (∀ k r, get_range σ k = Some r → covers r x → (dying (f k r) ↔ dying r) ∧ page (f k r) x = page r x) →
  shows σ' x pg ↔ shows σ x pg.
Proof.
  intros Hd. split.
  - intros (k & r' & (r & Hr & ->)%relabel_inv & Hn & Hx & ->). unfold covers in Hx.
    destruct (relabel_place k r) as (Hs & Hl & _). rewrite Hs, Hl in Hx. destruct (Hd k r Hr Hx) as [Hdd ->].
    exists k, r. by rewrite <- Hdd.
  - intros (k & r & Hr & Hn & Hx & ->). destruct (Hd k r Hr Hx) as [Hdd Hpp].
    exists k, (f k r). rewrite Hg, Hr, Hdd, Hpp. unfold covers. destruct (relabel_place k r) as (-> & -> & _). done.
Qed.

Lemma relabel_pages : heap_pages σ' = heap_pages σ.
Proof.
  apply msum_same. intros k. change (ranges σ' !! k) with (get_range σ' k). change (ranges σ !! k) with (get_range σ k).
  rewrite Hg. destruct (get_range σ k) as [r|]; [|done]. simpl. unfold range_pages.
  by destruct (relabel_place k r) as (-> & -> & _).
Qed.
End Relabel.

(** What callbacks leave alone. *)
Definition same_lists (σ σ' : svm_range_list) : Prop :=
  range_ids σ' = range_ids σ ∧ objects σ' = objects σ ∧ bitmap_supported σ' = bitmap_supported σ ∧
  xnack_enabled σ' = xnack_enabled σ ∧ system_mem_used σ' = system_mem_used σ ∧ heap_pages σ' = heap_pages σ.
#[global] Instance same_lists_refl : Reflexive same_lists.
Proof. by intros σ. Qed.
#[global] Instance same_lists_trans : Transitive same_lists.
Proof. intros a b c (?&?&?&?&?&?) (?&?&?&?&?&?). unfold same_lists. split_and!; congruence. Qed.

(** A change of what is neither place nor link. *)
Lemma relabel_links σ σ' B f : pend σ B [] → objects σ' = objects σ → range_ids σ' = range_ids σ → svm_next σ' = svm_next σ →
  deferred_range_list σ' = deferred_range_list σ → (∀ k, get_range σ' k = f k <$> get_range σ k) →
  (∀ k r, place (f k r) = place r ∧ (range_ok r → range_ok (f k r))) →
  (∀ k r, links (f k r) = links r) → pend σ' B [].
Proof.
  intros P Ho Hi Hn Hd Hg Hf Hl. destruct (relabel_fields σ σ' B [] f P Ho Hi Hn Hg Hf) as (F1 & F2 & F3 & F4 & F5 & F6 & F7).
  pose proof (relabel_inv σ σ' f Hg) as Hinv. pose proof (relabel_place f Hf) as Hp.
  assert (Hlk : ∀ k r, it_node (f k r) = it_node r ∧ notifier (f k r) = notifier r ∧ work_op (f k r) = work_op r ∧
    child_list (f k r) = child_list r) by (intros k r; by apply links_inv).
  split; try done; rewrite ?Ho, ?Hd.
  - intros k. rewrite (relabel_dom σ σ' f Hg), (pe_dom _ _ _ P).
    split; (intros [?|[(j & q & Hj & Hq & Hin)|?]]; [by left| |by auto]); right; left.
    + exists j, (f j q). rewrite Hg, Hq. destruct (Hlk j q) as (_ & _ & _ & ->). done.
    + apply Hinv in Hq as (q' & Hq & ->). destruct (Hlk j q') as (_ & _ & _ & Hc). rewrite Hc in Hin. by exists j, q'.
  - intros k q Hk (q' & Hq & ->)%Hinv Hkd. destruct (pe_settled _ _ _ P _ _ Hk Hq Hkd) as [H1 H2].
    destruct (Hlk k q') as (-> & _ & Hop & ->). destruct (Hp k q') as (-> & -> & _). unfold dying. by rewrite Hop.
  - intros k Hk. destruct (pe_deferred _ _ _ P _ Hk) as (Hko & q & Hq & Hop). split; [done|]. exists (f k q).
    rewrite Hg, Hq. split; [done|]. unfold dying. by destruct (Hlk k q) as (_ & _ & -> & _).
  - intros k q c Hk (q' & Hq & ->)%Hinv. destruct (Hlk k q') as (-> & _ & _ & ->). intros Hin.
    destruct (pe_child _ _ _ P _ _ _ Hk Hq Hin) as (Hco & qc & Hqc & [Hb Hu] & Hop). split; [done|]. exists (f c qc).
    rewrite Hg, Hqc. split; [done|]. destruct (Hlk c qc) as (L1 & L2 & L3 & L4). destruct (Hp c qc) as (S1 & S2 & _).
    unfold dying. rewrite L3. split; [|done]. split; [by rewrite S1, S2|by rewrite L1, L2, L4].
  - by intros c ?%not_elem_of_nil.
  - intros j k q1 q2 c Hj Hk (q & Hq & ->)%Hinv (q' & Hq' & ->)%Hinv. destruct (Hlk j q) as (_ & _ & _ & ->).
    destruct (Hlk k q') as (_ & _ & _ & ->). by apply (pe_family _ _ _ P).
  - intros k q Hk (q' & Hq & ->)%Hinv. destruct (Hlk k q') as (_ & _ & _ & ->). by apply (pe_children _ _ _ P k).
  - apply P.
Qed.

Lemma page_op r op x : page (r <| work_op := op |>) x = page r x.
Proof. done. Qed.

(** A piece goes on the list of its range. *)
Definition adopt (id t : nat) (op : svm_work_list_ops) (k : nat) (r : svm_range) : svm_range :=
  if decide (k = t) then r <| work_op := op |>
  else if decide (k = id) then r <| child_list ::= λ l, l ++ [t] |> else r.

Lemma adopt_place id t op k r : place (adopt id t op k r) = place r ∧ (range_ok r → range_ok (adopt id t op k r)).
Proof. unfold adopt. split; [by repeat destruct (decide _)|]. intros []. repeat destruct (decide _); by split. Qed.

Lemma add_child_pend σ id t O op c r :
  pend σ (Some id) (t :: O) → id ∈ objects σ → get_range σ t = Some c → get_range σ id = Some r → ¬ dying c →
  op = SVM_OP_UNMAP_RANGE ∨ op = SVM_OP_ADD_RANGE →
  ∃ σ', svm_range_add_child σ id (Some t) op = Some σ' ∧ pend σ' (Some id) O ∧ same_lists σ σ' ∧
    deferred_range_list σ' = deferred_range_list σ ∧
    (∀ k, get_range σ' k = adopt id t op k <$> get_range σ k) ∧
    ∀ x pg, (op = SVM_OP_UNMAP_RANGE → ¬ covers c x) → shows σ' x pg ↔ shows σ x pg.
Proof.
  intros P Hid Hc Hr Hlive Hop. destruct (pe_orphan _ _ _ P t (list_elem_of_here _ _)) as (Hto & i & r0 & c0 & [= <-] & Hr0 & Hc0 & Hpi & Hno).
  rewrite Hr in Hr0. injection Hr0 as <-. rewrite Hc in Hc0. injection Hc0 as <-.
  assert (Hne : t ≠ id) by congruence.
  unfold svm_range_add_child. cbn [mbind option_bind]. rewrite Hc. cbn [mbind option_bind].
  rewrite get_put_ne, Hr by done. cbn [mbind option_bind]. eexists. split; [reflexivity|].
  match goal with |- pend ?s _ _ ∧ _ => set (σ' := s) end.
  assert (Hg : ∀ k, get_range σ' k = adopt id t op k <$> get_range σ k).
  { intros k. unfold σ'. destruct (decide (k = id)) as [->|Hk].
    - rewrite get_put_eq, Hr. simpl. unfold adopt. by rewrite decide_False, decide_True by done.
    - rewrite get_put_ne by done. destruct (decide (k = t)) as [->|].
      + rewrite get_put_eq, Hc. simpl. unfold adopt. by rewrite decide_True by done.
      + rewrite get_put_ne by done. destruct (get_range σ k); [|done]. simpl. unfold adopt.
        by rewrite !decide_False by done. }
  assert (Hp : ∀ k q, place (adopt id t op k q) = place q ∧ (range_ok q → range_ok (adopt id t op k q))) by (intros; apply adopt_place).
  split; [|split; [split_and!; try done; exact (relabel_pages σ σ' (adopt id t op) Hg Hp)|split; [done|split; [done|]]]].
  2: { intros x pg Hx. apply (relabel_shows σ σ' (adopt id t op) Hg Hp). intros k q Hq Hqx. unfold adopt, dying.
    destruct (decide (k = t)) as [->|]; [|by destruct (decide _)]. rewrite Hc in Hq. injection Hq as <-.
    split; [|done]. simpl. destruct Hop as [->| ->]; [by destruct Hx|done]. }
  destruct (relabel_fields σ σ' _ _ (adopt id t op) P eq_refl eq_refl eq_refl Hg Hp) as (F1 & F2 & F3 & F4 & F5 & F6 & F7).
  assert (Hinv : ∀ k q', get_range σ' k = Some q' → ∃ q, get_range σ k = Some q ∧ q' = adopt id t op k q) by apply (relabel_inv σ σ' _ Hg).
  assert (Hnode : ∀ k q, k ∈ objects σ → adopt id t op k q = if decide (k = id) then q <| child_list ::= λ l, l ++ [t] |> else q).
  { intros k q Hk. unfold adopt. by rewrite decide_False by congruence. }
  assert (Hcl : ∀ k q, k ∈ objects σ → child_list (adopt id t op k q) = child_list q ++ if decide (k = id) then [t] else []).
  { intros k q Hk. rewrite Hnode by done. destruct (decide _); [done|]. by rewrite app_nil_r. }
  assert (Hit : ∀ k q, it_node (adopt id t op k q) = it_node q) by (intros k q; unfold adopt; by repeat destruct (decide _)).
  assert (Hpc : ∀ k q nd, k ∉ objects σ → piece_of nd q → piece_of nd (adopt id t op k q)).
  { intros k q nd Hk [? ?]. unfold adopt. destruct (decide (k = t)); [by split|]. by rewrite decide_False by congruence. }
  split; try done.
  - intros k. rewrite (relabel_dom σ σ' _ Hg), (pe_dom _ _ _ P), elem_of_cons. change (objects σ') with (objects σ). split.
    + intros [?|[(j & q & Hj & Hq & Hin)|[->|?]]]; [by left| | |by auto].
      * right; left. exists j, (adopt id t op j q). rewrite Hg, Hq, Hcl by done. split_and!; try done. apply elem_of_app. by left.
      * right; left. exists id, (adopt id t op id r). rewrite Hg, Hr, Hcl, decide_True by done. split_and!; try done. set_solver.
    + intros [?|[(j & q' & Hj & (q & Hq & ->)%Hinv & Hin)|?]]; [by left| |by auto].
      rewrite Hcl in Hin by done. apply elem_of_app in Hin as [Hin|Hin]; [right; left; by exists j, q|].
      destruct (decide _); [|by apply not_elem_of_nil in Hin]. apply list_elem_of_singleton in Hin as ->. by auto.
  - intros k q' Hk (q & Hq & ->)%Hinv Hd. destruct (pe_settled _ _ _ P _ _ Hk Hq Hd) as [H1 H2]. rewrite Hnode by done.
    split; [by destruct (decide _)|]. intros HB. rewrite decide_False by congruence. by apply H2.
  - intros k Hk. destruct (pe_deferred _ _ _ P _ Hk) as (Hko & q & Hq & Hopq). split; [done|].
    exists (adopt id t op k q). rewrite Hg, Hq. split; [done|]. rewrite Hnode by done. destruct (decide _); exact Hopq.
  - intros k q' c' Hk (q & Hq & ->)%Hinv Hin. change (objects σ') with (objects σ). rewrite Hcl in Hin by done. rewrite Hit.
    apply elem_of_app in Hin as [Hin|Hin].
    + destruct (pe_child _ _ _ P _ _ _ Hk Hq Hin) as (Hco & qc & Hqc & Hpq & Hopc). split; [done|].
      exists (adopt id t op c' qc). rewrite Hg, Hqc. split; [done|]. split; [by apply Hpc|].
      assert (c' ≠ t) by (intros ->; by eapply (Hno k q)). unfold adopt. rewrite decide_False by done.
      by rewrite decide_False by congruence.
    + destruct (decide (k = id)) as [->|]; [|by apply not_elem_of_nil in Hin]. apply list_elem_of_singleton in Hin as ->.
      split; [done|]. exists (adopt id t op t c). rewrite Hg, Hc. split; [done|]. rewrite Hr in Hq. injection Hq as <-.
      split; [by apply Hpc|]. unfold adopt, dying. rewrite decide_True by done. simpl. naive_solver.
  - intros c' Hin. change (objects σ') with (objects σ).
    destruct (pe_orphan _ _ _ P c' (list_elem_of_further _ _ _ Hin)) as (Hco & k & rk & qc & [= <-] & Hrk & Hqc & Hpq & Hnoc).
    split; [done|]. rewrite Hr in Hrk. injection Hrk as <-.
    exists id, (adopt id t op id r), (adopt id t op c' qc). rewrite !Hg, Hr, Hqc, Hit. split_and!; try done; [by apply Hpc|].
    intros j rj' Hj (rj & Hrj & ->)%Hinv Hin'. rewrite Hcl in Hin' by done. apply elem_of_app in Hin' as [Hin'|Hin']; [by eapply Hnoc|].
    destruct (decide _); [|by apply not_elem_of_nil in Hin']. apply list_elem_of_singleton in Hin' as ->.
    destruct (pe_nodup _ _ _ P) as (_ & _ & [? _]%NoDup_cons). done.
  - intros j k qj' rk' c' Hj Hk (qj & Hqj & ->)%Hinv (rk & Hrk & ->)%Hinv. rewrite !Hcl by done. rewrite !elem_of_app.
    intros [H1|H1] [H2|H2].
    + by eapply (pe_family _ _ _ P).
    + destruct (decide (k = id)); [|by apply not_elem_of_nil in H2]. apply list_elem_of_singleton in H2 as ->. by edestruct (Hno j qj).
    + destruct (decide (j = id)); [|by apply not_elem_of_nil in H1]. apply list_elem_of_singleton in H1 as ->. by edestruct (Hno k rk).
    + destruct (decide (j = id)), (decide (k = id)); try congruence; by (apply not_elem_of_nil in H1 || apply not_elem_of_nil in H2).
  - intros k q' Hk (q & Hq & ->)%Hinv. rewrite Hcl by done. apply NoDup_app. split_and!.
    + by eapply (pe_children _ _ _ P).
    + intros c' Hin Hin'. destruct (decide _); [|by apply not_elem_of_nil in Hin']. apply list_elem_of_singleton in Hin' as ->.
      by eapply Hno.
    + destruct (decide _); [apply NoDup_singleton|apply NoDup_nil_2].
  - split; [done|]. destruct (pe_nodup _ _ _ P) as (_ & ? & [_ ?]%NoDup_cons). done.
Qed.

(** A child is to be freed. *)
Definition mark (p : nat) (op : svm_work_list_ops) (k : nat) (r : svm_range) : svm_range :=
  if decide (k = p) then r <| work_op := op |> else r.

Lemma mark_place p op k r : place (mark p op k r) = place r ∧ (range_ok r → range_ok (mark p op k r)).
Proof. unfold mark. split; [by destruct (decide _)|]. intros []. destruct (decide _); by split. Qed.

Lemma put_mark σ p q op : get_range σ p = Some q →
  ∀ k, get_range (put_range σ p (q <| work_op := op |>)) k = mark p op k <$> get_range σ k.
Proof.
  intros Hq k. unfold mark. destruct (decide (k = p)) as [->|Hk]; [by rewrite get_put_eq, Hq|].
  rewrite get_put_ne by done. by destruct (get_range σ k).
Qed.

Lemma mark_child_pend σ id O p q r :
  pend σ (Some id) O → id ∈ objects σ → get_range σ id = Some r → p ∈ child_list r → get_range σ p = Some q →
  let σ' := put_range σ p (q <| work_op := SVM_OP_UNMAP_RANGE |>) in
  pend σ' (Some id) O ∧ same_lists σ σ' ∧
  ∀ x pg, ¬ covers q x → shows σ' x pg ↔ shows σ x pg.
Proof.
  intros P Hid Hr Hp Hq σ'. pose proof (put_mark σ p q SVM_OP_UNMAP_RANGE Hq) as Hg. fold σ' in Hg.
  set (f := mark p SVM_OP_UNMAP_RANGE) in *.
  assert (Hf : ∀ k r, place (f k r) = place r ∧ (range_ok r → range_ok (f k r))) by (intros; apply mark_place).
  destruct (pe_child _ _ _ P _ _ _ Hid Hr Hp) as (Hpo & q0 & Hq0 & Hpi & Hopq). rewrite Hq in Hq0. injection Hq0 as <-.
  destruct (relabel_fields σ σ' _ _ f P eq_refl eq_refl eq_refl Hg Hf) as (F1 & F2 & F3 & F4 & F5 & F6 & F7).
  pose proof (relabel_inv σ σ' f Hg) as Hinv.
  assert (Hnode : ∀ k q, k ∈ objects σ → f k q = q).
  { intros k q' Hk. unfold f, mark. by rewrite decide_False by congruence. }
  assert (Hlinks : ∀ k q, it_node (f k q) = it_node q ∧ child_list (f k q) = child_list q ∧ ∀ nd, piece_of nd q → piece_of nd (f k q)).
  { intros k q'. unfold f, mark. split_and!; [by destruct (decide _)..|]. intros nd [? ?]. by destruct (decide _). }
  assert (Hnode' : ∀ k q', k ∈ objects σ → get_range σ' k = Some q' → get_range σ k = Some q').
  { intros k q' Hk (q1 & Hq1 & ->)%Hinv. by rewrite Hnode. }
  split; [|split; [split_and!; try done; exact (relabel_pages σ σ' f Hg Hf)|]].
  2: { intros x pg Hx. apply (relabel_shows σ σ' f Hg Hf). intros k q' Hq' Hqx. unfold f, mark.
    destruct (decide (k = p)) as [->|]; [|done]. congruence. }
  split; try done.
  - intros k. rewrite (relabel_dom σ σ' f Hg), (pe_dom _ _ _ P). change (objects σ') with (objects σ).
    split; (intros [?|[(j & q' & Hj & Hq' & Hin)|?]]; [by left| |by auto]); right; left; exists j, q'; split_and!; try done.
    + rewrite Hg, Hq'. simpl. by rewrite Hnode.
    + by apply Hnode'.
  - intros k q' Hk Hq' Hd. apply Hnode' in Hq'; [|done]. by eapply (pe_settled _ _ _ P).
  - intros k Hk. destruct (pe_deferred _ _ _ P _ Hk) as (Hko & q' & Hq' & ?). split; [done|]. exists q'.
    split; [|done]. rewrite Hg, Hq'. simpl. by rewrite Hnode.
  - intros k q' c Hk Hq' Hin. apply Hnode' in Hq'; [|done]. destruct (pe_child _ _ _ P _ _ _ Hk Hq' Hin) as (Hco & qc & Hqc & Hpc & Hopc).
    split; [done|]. exists (f c qc). rewrite Hg, Hqc. split; [done|]. split; [by apply Hlinks|].
    unfold f, mark, dying. destruct (decide _); [by left|done].
  - intros c Hin. destruct (pe_orphan _ _ _ P _ Hin) as (Hco & k & rk & qc & HB & Hrk & Hqc & Hpc & Hno). split; [done|].
    exists k, (f k rk), (f c qc). rewrite !Hg, Hrk, Hqc. destruct (Hlinks k rk) as (-> & _).
    split_and!; try done; [by apply Hlinks|]. intros j rj Hj Hrj. apply Hnode' in Hrj; [|done]. by eapply Hno.
  - intros j k qj rk c Hj Hk Hqj Hrk. apply Hnode' in Hqj, Hrk; [|done..]. by eapply (pe_family _ _ _ P).
  - intros k rk Hk Hrk. apply Hnode' in Hrk; [|done]. by eapply (pe_children _ _ _ P).
  - apply P.
Qed.

(** ** Unmapping a member of a family *)

Section Unmap.
Context (LOCATION_UNDEFINED FLAG_HOST_ACCESS FLAG_COHERENT : Z).
Context (mem_ok : nat → bool) (no_system_mem_limit : bool) (max_system_mem_limit : Z) (pdds : list (option Z)).
Context (Hmem_ok : ∀ k, mem_ok k = true).
Abbreviation split := (svm_range_split LOCATION_UNDEFINED FLAG_HOST_ACCESS FLAG_COHERENT mem_ok
  no_system_mem_limit max_system_mem_limit pdds).
Abbreviation unmap_split := (svm_range_unmap_split LOCATION_UNDEFINED FLAG_HOST_ACCESS FLAG_COHERENT mem_ok
  no_system_mem_limit max_system_mem_limit pdds).

(** A piece is cut off and is on no list yet. *)
Lemma cut_off σ id O p q s' l' this : pend σ (Some id) O → id ∈ objects σ → member σ O id p →
  get_range σ p = Some q → ¬ dying q → split_ok q s' l' →
  ∃ σ' t o n, split σ p s' l' this = Some (σ', 0, Some t) ∧ pend σ' (Some id) (t :: O) ∧ same_lists σ σ' ∧
    deferred_range_list σ' = deferred_range_list σ ∧ get_range σ t = None ∧
    (∀ k, k ≠ p → k ≠ t → get_range σ' k = get_range σ k) ∧ get_range σ' p = Some o ∧ get_range σ' t = Some n ∧
    links o = links q ∧ start o = s' ∧ last o = l' ∧ ¬ dying n ∧
    (if start q =? s' then start n = l' + 1 ∧ last n = last q else start n = start q ∧ last n = s' - 1) ∧
    ∀ x pg, shows σ' x pg ↔ shows σ x pg.
Proof.
  intros P Hid Hmem Hq Hlive Hs. pose proof (pe_fresh _ _ _ P (svm_next σ) ltac:(done)) as Hf.
  pose proof (split_novram σ id O p q P Hq) as Hv.
  destruct (split_spec LOCATION_UNDEFINED FLAG_HOST_ACCESS FLAG_COHERENT mem_ok no_system_mem_limit max_system_mem_limit
    pdds σ p q s' l' this) as (σ' & rc & new & Hsp & (T1&T2&T3&T4&T5) & Hm & Hn & Hch & Hc); try done.
  { by eapply (pe_range _ _ _ P). } { congruence. }
  destruct Hc as [(-> & -> & Hn' & (o & n & Ho & Hnew & Hso) & _)|(_ & _ & Hno & _)]; [|done].
  destruct (split_parts σ id O p q o n s' l' P Hq Hso Hs) as ((Hlo & _) & (Hb1 & Hb2 & _ & _ & _ & Hnop & _) & _).
  exists σ', (svm_next σ), o, n. split; [done|]. split.
  { by apply (split_pend σ σ' id O p (svm_next σ) q o n s' l'). }
  split. { split_and!; try done. apply (heap_pages_split σ σ' p (svm_next σ) q o n); try done.
    destruct (sp_o _ _ _ _ _ Hso) as [H1 H2]. pose proof (sp_n _ _ _ _ _ Hso) as H3. destruct Hs as [? Hs].
    unfold range_pages. destruct (Z.eqb_spec (start q) s'); lia. }
  destruct (sp_o _ _ _ _ _ Hso) as [? ?]. pose proof (sp_n _ _ _ _ _ Hso).
  split_and!; try done; [by unfold dying; rewrite Hnop|].
  intros x pg. by apply (split_shows σ σ' id O p (svm_next σ) q o n s' l').
Qed.

(** Nothing of the range is left in the window, or it is to be freed. *)
Definition quiet (s e : Z) (r : svm_range) : Prop := dying r ∨ last r < s ∨ e < start r.

(** [p], of the family of [id], has been cut to what is outside the window. *)
Record unmapped (σ σ' : svm_range_list) (id p : nat) (s e : Z) : Prop := {
  um_pend : pend σ' (Some id) [];
  um_lists : same_lists σ σ';
  um_deferred : deferred_range_list σ' = deferred_range_list σ;
  um_id r : get_range σ id = Some r → ∃ r' N, get_range σ' id = Some r' ∧ child_list r' = child_list r ++ N ∧
    (length N ≤ 2)%nat ∧ work_op r' = work_op r ∧ it_node r' = it_node r ∧
    (p ≠ id → start r' = start r ∧ last r' = last r) ∧
    ∀ c, c ∈ N → get_range σ c = None ∧ ∃ qc, get_range σ' c = Some qc ∧ quiet s e qc;
  um_other k : k ≠ id → k ≠ p → is_Some (get_range σ k) → get_range σ' k = get_range σ k;
  um_quiet q : get_range σ p = Some q → ∃ q', get_range σ' p = Some q' ∧ start q ≤ start q' ∧ last q' ≤ last q ∧
    (quiet s e q' ∨ p = id ∧ s ≤ start q ∧ last q ≤ e ∧ start q' = start q ∧ last q' = last q);
  um_shows x pg : ¬ s ≤ x ≤ e → shows σ' x pg ↔ shows σ x pg;
}.

Lemma unmapped_refl σ id p s e q : pend σ (Some id) [] → get_range σ p = Some q →
  quiet s e q ∨ p = id ∧ s ≤ start q ∧ last q ≤ e → unmapped σ σ id p s e.
Proof.
  intros P Hq Hc. split; try done.
  - intros r Hr. exists r, []. rewrite app_nil_r. split_and!; try done; [simpl; lia|]. by intros c ?%not_elem_of_nil.
  - intros q' Hq'. rewrite Hq in Hq'. injection Hq' as <-. exists q. split_and!; [done|lia|lia|]. naive_solver.
Qed.

Lemma adopt_op id t op k r : k ≠ t → work_op (adopt id t op k r) = work_op r.
Proof. intros Hk. unfold adopt. rewrite decide_False by done. by destruct (decide _). Qed.

Lemma adopt_other id t op k r : k ≠ t → k ≠ id → adopt id t op k r = r.
Proof. intros H1 H2. unfold adopt. by rewrite !decide_False by done. Qed.

Lemma adopt_id id t op r : id ≠ t → adopt id t op id r = r <| child_list ::= λ l, l ++ [t] |>.
Proof. intros H. unfold adopt. by rewrite decide_False, decide_True by done. Qed.
Lemma adopt_new id t op r : adopt id t op t r = r <| work_op := op |>.
Proof. unfold adopt. by rewrite decide_True by done. Qed.

Lemma quiet_geo s e r r' : start r' = start r → last r' = last r → work_op r' = work_op r → quiet s e r → quiet s e r'.
Proof. unfold quiet, dying. by intros -> -> ->. Qed.

(** One piece, to be freed. *)
Lemma unmap_one σ id p q s e s' l' this : pend σ (Some id) [] → id ∈ objects σ → member σ [] id p →
  get_range σ p = Some q → ¬ dying q → split_ok q s' l' → l' < s ∨ e < s' →
  (if start q =? s' then s ≤ l' + 1 ∧ last q ≤ e else s ≤ start q ∧ s' - 1 ≤ e) →
  ∃ σ1 t n σ', split σ p s' l' this = Some (σ1, 0, Some t) ∧ t ≠ p ∧ get_range σ1 t = Some n ∧ (start q = s' → last n = last q) ∧
    svm_range_add_child σ1 id (Some t) SVM_OP_UNMAP_RANGE = Some σ' ∧ unmapped σ σ' id p s e.
Proof.
  intros P Hid Hmem Hq Hlive Hs Hout Hin.
  destruct (cut_off σ id [] p q s' l' this P Hid Hmem Hq Hlive Hs) as
    (σ1 & t & o & n & Hsp & P1 & HL1 & Hd1 & Hf & Hk1 & Ho & Hn & Hlo & Hos & Hoe & Hnd & Hnb & Hsh1).
  assert (Htp : t ≠ p) by congruence. exists σ1, t, n.
  assert (Hid1 : id ∈ objects σ1) by (destruct HL1 as (_ & -> & _); done).
  destruct (pend_deferred_dom _ _ _ _ P1 Hid1) as [r1 Hr1].
  destruct (add_child_pend σ1 id t [] SVM_OP_UNMAP_RANGE n r1 P1 Hid1 Hn Hr1 Hnd) as (σ2 & Hadd & P2 & HL2 & Hd2 & Hg2 & Hsh2); [by left|].
  exists σ2. split; [done|]. split; [done|]. split; [done|].
  split. { intros <-. rewrite Z.eqb_refl in Hnb. apply Hnb. }
  split; [done|].
  assert (Htid : t ≠ id) by (intros ->; destruct (pend_deferred_dom _ _ _ _ P Hid); congruence).
  apply links_inv in Hlo as (L1 & L2 & L3 & L4).
  split.
  - done.
  - by transitivity σ1.
  - congruence.
  - intros r Hr. exists (adopt id t SVM_OP_UNMAP_RANGE id r1), [t]. rewrite Hg2, Hr1. split; [done|].
    assert (Hr1r : child_list r1 = child_list r ∧ work_op r1 = work_op r ∧ it_node r1 = it_node r ∧ (p ≠ id → r1 = r)).
    { destruct (decide (p = id)) as [->|Hpi]; [by simplify_eq|]. rewrite Hk1 in Hr1 by done. by simplify_eq. }
    destruct Hr1r as (R1 & R2 & R3 & R4). rewrite adopt_id by done.
    split_and!; simpl; [by rewrite R1|lia|done|done|by intros Hp; rewrite R4|].
    intros c ->%list_elem_of_singleton. split; [done|]. rewrite Hg2, Hn. eexists. split; [done|]. left. by rewrite adopt_new.
  - intros k Hki Hkp [rk Hrk]. assert (k ≠ t) by congruence. rewrite Hg2, Hk1, Hrk by done. simpl. by rewrite adopt_other.
  - intros q' Hq'. rewrite Hq in Hq'. injection Hq' as <-. exists (adopt id t SVM_OP_UNMAP_RANGE p o). rewrite Hg2, Ho.
    split; [done|]. destruct (adopt_place id t SVM_OP_UNMAP_RANGE p o) as [[= Hs1 Hs2 _ _ _ _] _].
    unfold quiet. rewrite Hs1, Hs2. destruct Hs as [? Hs]. split; [lia|]. split; [lia|]. left. right. lia.
  - intros x pg Hx. rewrite Hsh2, Hsh1; [done|]. intros _ Hc. unfold covers in Hc. destruct (Z.eqb_spec (start q) s'); lia.
Qed.

(** Two pieces: the window, to be freed, and what is behind it. *)
Lemma unmap_two σ id p q s e this this' : pend σ (Some id) [] → id ∈ objects σ → member σ [] id p →
  get_range σ p = Some q → ¬ dying q → start q < s → s ≤ e → e < last q →
  ∃ σ1 t n σ2 h σ3 σ', split σ p (start q) (s - 1) this = Some (σ1, 0, Some t) ∧ get_range σ1 t = Some n ∧ last n = last q ∧
    split σ1 t (e + 1) (last q) this' = Some (σ2, 0, Some h) ∧ t ≠ p ∧ h ≠ p ∧
    svm_range_add_child σ2 id (Some h) SVM_OP_UNMAP_RANGE = Some σ3 ∧
    svm_range_add_child σ3 id (Some t) SVM_OP_ADD_RANGE = Some σ' ∧ unmapped σ σ' id p s e.
Proof.
  intros P Hid Hmem Hq Hlive Hs Hse He. pose proof (rg_bounds _ (proj1 (pe_range _ _ _ P _ _ Hq))) as Hbq.
  destruct (cut_off σ id [] p q (start q) (s - 1) this P Hid Hmem Hq Hlive) as
    (σ1 & t & o & n & Hsp & P1 & HL1 & Hd1 & Hf & Hk1 & Ho & Hn & Hlo & Hos & Hoe & Hnd & Hnb & Hsh1); [split; lia|].
  rewrite Z.eqb_refl in Hnb. destruct Hnb as [Hnb Hne].
  assert (Htp : t ≠ p) by congruence.
  assert (Hid1 : id ∈ objects σ1) by (destruct HL1 as (_ & -> & _); done).
  destruct (cut_off σ1 id [t] t n (e + 1) (last q) this' P1 Hid1) as
    (σ2 & h & o2 & n2 & Hsp2 & P2 & HL2 & Hd2 & Hf2 & Hk2 & Ho2 & Hn2 & Hlo2 & Hos2 & Hoe2 & Hnd2 & Hnb2 & Hsh2); try done.
  { right; right. apply list_elem_of_here. } { split; lia. }
  rewrite (proj2 (Z.eqb_neq _ _)) in Hnb2 by lia. destruct Hnb2 as [Hnb2 Hne2].
  assert (Hht : h ≠ t) by congruence. assert (Hhp : h ≠ p) by congruence.
  assert (Hid2 : id ∈ objects σ2) by (destruct HL2 as (_ & -> & _); done).
  destruct (pend_deferred_dom _ _ _ _ P Hid) as [r0 Hr0].
  assert (Htid : t ≠ id) by congruence.
  assert (Hhid : h ≠ id) by (destruct (pend_deferred_dom _ _ _ _ P1 Hid1); congruence).
  destruct (pend_deferred_dom _ _ _ _ P2 Hid2) as [r2 Hr2].
  destruct (add_child_pend σ2 id h [t] SVM_OP_UNMAP_RANGE n2 r2 P2 Hid2 Hn2 Hr2 Hnd2) as (σ3 & Hadd3 & P3 & HL3 & Hd3 & Hg3 & Hsh3); [by left|].
  assert (Hid3 : id ∈ objects σ3) by (destruct HL3 as (_ & -> & _); done).
  assert (Ht3 : get_range σ3 t = Some o2) by (rewrite Hg3, Ho2; simpl; by rewrite adopt_other by congruence).
  destruct (pend_deferred_dom _ _ _ _ P3 Hid3) as [r3 Hr3].
  apply links_inv in Hlo2 as (_ & _ & L3 & _).
  destruct (add_child_pend σ3 id t [] SVM_OP_ADD_RANGE o2 r3 P3 Hid3 Ht3 Hr3) as (σ4 & Hadd4 & P4 & HL4 & Hd4 & Hg4 & Hsh4);
    [by unfold dying; rewrite L3|by right|].
  exists σ1, t, n, σ2, h, σ3, σ4. do 8 (split; [done|]).
  apply links_inv in Hlo as (M1 & M2 & M3 & M4).
  assert (Hr1 : ∃ r1, get_range σ1 id = Some r1 ∧ child_list r1 = child_list r0 ∧ work_op r1 = work_op r0 ∧ it_node r1 = it_node r0 ∧ (p ≠ id → r1 = r0)).
  { destruct (decide (p = id)) as [->|Hpi]; [exists o; by simplify_eq|]. exists r0. by rewrite Hk1. }
  destruct Hr1 as (r1 & Hr1 & R1 & R2 & R3 & R4). rewrite Hk2, Hr1 in Hr2 by done. injection Hr2 as <-.
  split.
  - done.
  - by transitivity σ1; [|transitivity σ2; [|transitivity σ3]].
  - congruence.
  - intros r Hr. rewrite Hr0 in Hr. injection Hr as <-. eexists _, [h; t]. rewrite Hg4, Hg3, Hk2, Hr1 by done.
    split; [reflexivity|]. rewrite !adopt_id by done.
    split_and!; simpl; [by rewrite R1, <- app_assoc|lia|done|done|by intros Hp; rewrite R4|].
    intros c [->|[->|Hc%not_elem_of_nil]%elem_of_cons]%elem_of_cons; [| |done].
    + split; [by rewrite <- Hk1|]. rewrite Hg4, Hg3, Hn2. eexists. split; [reflexivity|]. left. by rewrite adopt_other, adopt_new by done.
    + split; [done|]. rewrite Hg4, Ht3. eexists. split; [reflexivity|]. right. rewrite adopt_new. simpl. lia.
  - intros k Hki Hkp [rk Hrk]. assert (k ≠ t) by congruence. assert (k ≠ h) by (rewrite <- Hk1 in Hrk by done; congruence).
    rewrite Hg4, Hg3, Hk2, Hk1, Hrk by done. simpl. by rewrite !adopt_other.
  - intros q' Hq'. rewrite Hq in Hq'. injection Hq' as <-. rewrite Hg4, Hg3, Hk2, Ho by done. eexists. split; [reflexivity|].
    destruct (adopt_place id t SVM_OP_ADD_RANGE p (adopt id h SVM_OP_UNMAP_RANGE p o)) as [[= Hs1 Hs2 _ _ _ _] _].
    destruct (adopt_place id h SVM_OP_UNMAP_RANGE p o) as [[= Hs3 Hs4 _ _ _ _] _]. unfold quiet. rewrite Hs1, Hs2, Hs3, Hs4.
    split; [lia|]. split; [lia|]. left. right. lia.
  - intros x pg Hx. rewrite Hsh4, Hsh3, Hsh2, Hsh1; [done| |done]. intros _. unfold covers. lia.
Qed.

(** [svm_range_unmap_split] on the range or on a child of it. *)
Lemma unmap_split_spec σ id p q r s e : pend σ (Some id) [] → id ∈ objects σ → get_range σ id = Some r →
  p = id ∨ p ∈ child_list r → get_range σ p = Some q → s ≤ e →
  ∃ σ', unmap_split σ id p s e = Some σ' ∧ unmapped σ σ' id p s e.
Proof.
  intros P Hid Hr Hp Hq Hse. pose proof (rg_bounds _ (proj1 (pe_range _ _ _ P _ _ Hq))) as Hbq.
  assert (Hmem : member σ [] id p) by (destruct Hp; [by left|right; left; by exists r]).
  unfold svm_range_unmap_split. rewrite Hq. cbn [mbind option_bind].
  destruct (decide (dying q)) as [Hdy|Hlive].
  { rewrite bool_decide_true by done. exists σ. split; [done|]. eapply unmapped_refl; [done..|]. left. by left. }
  rewrite bool_decide_false by done. destruct (Z.ltb_spec (last q) s); cbn [orb].
  { exists σ. split; [done|]. eapply unmapped_refl; [done..|]. left. right. lia. }
  destruct (Z.ltb_spec e (start q)).
  { exists σ. split; [done|]. eapply unmapped_refl; [done..|]. left. right. lia. }
  destruct (Z.ltb_spec (start q) s) as [Hs|Hs].
  - destruct (decide (e < last q)) as [He|He].
    + destruct (unmap_two σ id p q s e (Some p) (Some p)) as (σ1 & t & n & σ2 & h & σ3 & σ' & -> & Hn & Hln & Hsp2 & Htp & Hhp & Hadd & Hadd2 & Hum); try done.
      cbn [mbind option_bind]. rewrite Hn. cbn [mbind option_bind]. rewrite Hln, (proj2 (Z.ltb_lt e _)), Hsp2 by lia.
      cbn [mbind option_bind]. rewrite !bool_decide_true by congruence. cbn [andb]. rewrite Hadd. cbn [mbind option_bind].
      by exists σ'.
    + destruct (unmap_one σ id p q s e (start q) (s - 1) (Some p)) as (σ1 & t & n & σ' & -> & Htp & Hn & Hln & Hadd & Hum); try done.
      { split; lia. } { left. lia. } { rewrite Z.eqb_refl. lia. }
      cbn [mbind option_bind]. rewrite Hn. cbn [mbind option_bind]. rewrite Hln, (proj2 (Z.ltb_ge e _)) by (done || lia).
      cbn [mbind option_bind]. rewrite bool_decide_false, bool_decide_true by congruence. cbn [andb]. rewrite Hadd. by exists σ'.
  - cbn [mbind option_bind]. rewrite Hq. cbn [mbind option_bind]. destruct (Z.ltb_spec e (last q)).
    + destruct (unmap_one σ id p q s e (e + 1) (last q) (Some p)) as (σ1 & t & n & σ' & -> & Htp & Hn & Hln & Hadd & Hum); try done.
      { split; lia. } { right. lia. } { rewrite (proj2 (Z.eqb_neq _ _)) by lia. lia. }
      cbn [mbind option_bind]. rewrite bool_decide_true, bool_decide_false by congruence. cbn [andb]. rewrite Hadd. by exists σ'.
    + cbn [mbind option_bind]. rewrite bool_decide_false by (by intros Hn; apply Hn). cbn [andb].
      destruct (decide (id = p)) as [<-|Hne].
      { rewrite bool_decide_false by (by intros Hn; apply Hn). exists σ. split; [done|]. eapply unmapped_refl; [done..|]. right. done. }
      rewrite bool_decide_true by done. rewrite Hq. cbn [mbind option_bind]. eexists. split; [reflexivity|].
      destruct Hp as [->|Hp]; [done|].
      destruct (mark_child_pend σ id [] p q r P Hid Hr Hp Hq) as (P' & HL' & Hsh'). split; try done.
      * intros r' Hr'. exists r', []. rewrite get_put_ne by done. rewrite app_nil_r. split_and!; try done; [simpl; lia|].
        by intros c ?%not_elem_of_nil.
      * intros k Hki Hkp _. by rewrite get_put_ne by done.
      * intros q' Hq'. rewrite Hq in Hq'. injection Hq' as <-. eexists. rewrite get_put_eq. split_and!; [done|simpl; lia..|]. left. by left.
      * intros x pg Hx. apply Hsh'. unfold covers. lia.
Qed.

Lemma unmap_split_quiet σ id p q s e : get_range σ p = Some q → quiet s e q → unmap_split σ id p s e = Some σ.
Proof.
  intros Hq Hquiet. unfold svm_range_unmap_split. rewrite Hq. cbn [mbind option_bind].
  destruct (bool_decide _) eqn:Ed; [done|]. apply bool_decide_eq_false in Ed.
  destruct Hquiet as [?|[H|H]]; [done| |].
  - by rewrite (proj2 (Z.ltb_lt _ _) H).
  - by rewrite (proj2 (Z.ltb_lt _ _) H), orb_true_r.
Qed.

(** ** Unmapping from the GPUs *)

(** A member of a family that is in the window is no longer mapped; nothing else changes. *)
Record unhooked (σ σ' : svm_range_list) (id p : nat) (s e : Z) : Prop := {
  uh_pend : pend σ' (Some id) [];
  uh_lists : same_lists σ σ';
  uh_deferred : deferred_range_list σ' = deferred_range_list σ;
  uh_at q : get_range σ p = Some q → ∃ m, get_range σ' p = Some (q <| mapped_to_gpu := m |>);
  uh_other k : k ≠ p → get_range σ' k = get_range σ k;
  uh_shows x pg : ¬ s ≤ x ≤ e → shows σ' x pg ↔ shows σ x pg;
}.

Lemma unhooked_refl σ id p s e : pend σ (Some id) [] → unhooked σ σ id p s e.
Proof. intros P. split; try done. intros q Hq. exists (mapped_to_gpu q). rewrite Hq. by destruct q. Qed.

Definition unmap_flag (p k : nat) (r : svm_range) : svm_range :=
  if decide (k = p) then r <| mapped_to_gpu := false |> else r.

Lemma unmap_flag_place p k r : place (unmap_flag p k r) = place r ∧ (range_ok r → range_ok (unmap_flag p k r)).
Proof. unfold unmap_flag. destruct (decide _); [|done]. split; [done|]. by intros [? ? ? ? ? ?]. Qed.

Lemma unmap_window_spec σ id p q s e : pend σ (Some id) [] → get_range σ p = Some q →
  ∃ σ', unmap_window σ p s e = Some σ' ∧ unhooked σ σ' id p s e.
Proof.
  intros P Hq. pose proof (unhooked_refl σ id p s e P) as Hrefl.
  unfold unmap_window, svm_range_unmap_from_gpus. rewrite Hq. cbn [mbind option_bind].
  destruct (Z.leb_spec (Z.max s (start q)) (Z.min e (last q))); [|by exists σ].
  destruct (mapped_to_gpu q); cbn [negb]; [|by exists σ].
  destruct (Z.eqb_spec (start q) (Z.max s (start q))), (Z.eqb_spec (last q) (Z.min e (last q))); cbn [andb]; try by exists σ.
  eexists. split; [done|]. set (σ' := put_range _ _ _).
  assert (Hg : ∀ k, get_range σ' k = unmap_flag p k <$> get_range σ k).
  { intros k. unfold σ', unmap_flag. destruct (decide (k = p)) as [->|Hne]; [by rewrite get_put_eq, Hq|].
    rewrite get_put_ne by done. by destruct (get_range σ k). }
  pose proof (unmap_flag_place p) as Hf. split; try done.
  - apply (relabel_links σ σ' _ (unmap_flag p)); try done. intros k r. unfold unmap_flag. by destruct (decide _).
  - split_and!; try done. apply (relabel_pages σ σ' (unmap_flag p) Hg Hf).
  - intros q' Hq'. exists false. rewrite Hg, Hq'. unfold unmap_flag. simpl. by rewrite decide_True.
  - intros k Hne. unfold σ'. by rewrite get_put_ne.
  - intros x pg Hx. apply (relabel_shows σ σ' (unmap_flag p) Hg Hf). intros k r Hr Hcov. unfold unmap_flag.
    destruct (decide (k = p)) as [->|]; [|done]. rewrite Hq in Hr. injection Hr as <-. unfold covers in Hcov. lia.
Qed.

Lemma unhooked_unmapped σ σ1 σ2 id p s e : is_Some (get_range σ p) →
  unhooked σ σ1 id p s e → unmapped σ1 σ2 id p s e → unmapped σ σ2 id p s e.
Proof.
  intros [q Hq] [H1 H2 H3 H4 H5 H6] [U1 U2 U3 U4 U5 U6 U7]. destruct (H4 q Hq) as [m Hm].
  assert (Hnone : ∀ k, get_range σ1 k = None → get_range σ k = None).
  { intros k Hk. rewrite <- H5; [done|]. congruence. }
  split; [done|by transitivity σ1|congruence|..].
  - intros r Hr. assert (∃ m, get_range σ1 id = Some (r <| mapped_to_gpu := m |>)) as [m' Hr1].
    { destruct (decide (id = p)) as [->|]; [by apply H4|]. exists (mapped_to_gpu r). rewrite H5 by done. rewrite Hr. by destruct r. }
    destruct (U4 _ Hr1) as (r' & N & Hr' & Hcl & Hlen & Hop & Hit & Hb & HN). exists r', N. split_and!; try done.
    intros c Hc. destruct (HN c Hc). split; [by apply Hnone|done].
  - intros k Hki Hkp Hk. rewrite U5; [by apply H5|done..|by rewrite H5].
  - intros q' Hq'. rewrite Hq in Hq'. injection Hq' as <-. destruct (U6 _ Hm) as (q2 & ?). by exists q2.
  - intros x pg Hx. by rewrite U7, H6.
Qed.

(** A turn of the loop: unmapping, then the cut. *)
Lemma unmap_member_spec σ id p q r s e : pend σ (Some id) [] → id ∈ objects σ → get_range σ id = Some r →
  (p = id ∨ p ∈ child_list r) → get_range σ p = Some q → s ≤ e →
  ∃ σ1 σ', unmap_window σ p s e = Some σ1 ∧ unmap_split σ1 id p s e = Some σ' ∧ unmapped σ σ' id p s e.
Proof.
  intros P Hid Hr Hp Hq Hse. destruct (unmap_window_spec σ id p q s e P Hq) as (σ1 & Hw & H). exists σ1.
  destruct (uh_at _ _ _ _ _ _ H q Hq) as [m Hm].
  assert (∃ m, get_range σ1 id = Some (r <| mapped_to_gpu := m |>)) as [m' Hr1].
  { destruct (decide (id = p)) as [->|]; [by apply H|]. exists (mapped_to_gpu r).
    rewrite (uh_other _ _ _ _ _ _ H) by done. rewrite Hr. by destruct r. }
  assert (Hid1 : id ∈ objects σ1) by (destruct (uh_lists _ _ _ _ _ _ H) as (_ & -> & _); done).
  destruct (unmap_split_spec σ1 id p _ _ s e (uh_pend _ _ _ _ _ _ H) Hid1 Hr1 Hp Hm Hse) as (σ' & Hs & U).
  exists σ'. split_and!; try done. eapply unhooked_unmapped; [by eexists|done..].
Qed.

(** A turn for a child that is quiet adds nothing. *)
Lemma unmap_member_quiet σ id p q r s e : pend σ (Some id) [] → id ≠ p → get_range σ id = Some r →
  get_range σ p = Some q → quiet s e q →
  ∃ σ', unmap_window σ p s e = Some σ' ∧ unmap_split σ' id p s e = Some σ' ∧ unmapped σ σ' id p s e ∧
    get_range σ' id = Some r.
Proof.
  intros P Hne Hr Hq Hquiet. destruct (unmap_window_spec σ id p q s e P Hq) as (σ1 & Hw & H). exists σ1.
  destruct (uh_at _ _ _ _ _ _ H q Hq) as [m Hm].
  split; [done|]. split; [by apply (unmap_split_quiet σ1 id p _ s e Hm)|]. split; [|by rewrite (uh_other _ _ _ _ _ _ H)].
  eapply unhooked_unmapped; [by eexists|done|]. eapply unmapped_refl; [by apply H|done|by left].
Qed.

(** The family of [id] after some of its members were cut; the [done'] ones are quiet. *)
Record swept (σ σ' : svm_range_list) (id : nat) (s e : Z) (r : svm_range) (quiet_at : nat → Prop) : Prop := {
  sw_pend : pend σ' (Some id) [];
  sw_lists : same_lists σ σ';
  sw_deferred : deferred_range_list σ' = deferred_range_list σ;
  sw_id : ∃ r' N, get_range σ' id = Some r' ∧ child_list r' = child_list r ++ N ∧ work_op r' = work_op r ∧
    it_node r' = it_node r ∧ start r' = start r ∧ last r' = last r ∧ (∀ c, c ∈ N → get_range σ c = None) ∧
    ∀ i c, child_list r' !! i = Some c → quiet_at i → ∃ qc, get_range σ' c = Some qc ∧ quiet s e qc;
  sw_other k : k ≠ id → k ∉ child_list r → is_Some (get_range σ k) → get_range σ' k = get_range σ k;
  sw_shows x pg : ¬ s ≤ x ≤ e → shows σ' x pg ↔ shows σ x pg;
}.

Lemma swept_all σ σ1 id s e r r1 n n0 : swept σ σ1 id s e r (λ i, (i < n ∨ n0 ≤ i)%nat) →
  get_range σ1 id = Some r1 → child_list r1 !! n = None → swept σ σ1 id s e r (λ _, True).
Proof.
  intros [S1 S2 S3 (r' & N & Hr' & S4 & S5 & S6 & S7 & S8 & S9 & S10) S11 S12] Hr1 Hn. split; try done.
  exists r', N. split_and!; try done. intros i c Hi _. apply (S10 i c Hi). left.
  rewrite Hr1 in Hr'. injection Hr' as <-. apply lookup_ge_None in Hn. apply lookup_lt_Some in Hi. lia.
Qed.

(** One more child is cut. *)
Lemma swept_step σ σ1 σ2 id s e r r1 n c : pend σ (Some id) [] → id ∈ objects σ → get_range σ id = Some r →
  swept σ σ1 id s e r (λ i, (i < n ∨ length (child_list r) ≤ i)%nat) → get_range σ1 id = Some r1 →
  child_list r1 !! n = Some c → unmapped σ1 σ2 id c s e →
  swept σ σ2 id s e r (λ i, (i < S n ∨ length (child_list r) ≤ i)%nat) ∧
  ∃ r2, get_range σ2 id = Some r2 ∧ (length (child_list r2) ≤ length (child_list r1) + 2)%nat.
Proof.
  intros P Hid Hr [S1 S2 S3 (r' & N & Hr' & S4 & S5 & S6 & S7 & S8 & S9 & S10) S11 S12] Hr1 Hn U.
  rewrite Hr1 in Hr'. injection Hr' as <-.
  assert (Hid1 : id ∈ objects σ1) by (destruct S2 as (_ & -> & _); done).
  pose proof (list_elem_of_lookup_2 _ _ _ Hn) as Hcin. destruct (pe_child _ _ _ S1 _ _ _ Hid1 Hr1 Hcin) as (Hco & qc & Hqc & _).
  assert (Hcid : c ≠ id) by congruence.
  destruct (um_id _ _ _ _ _ _ U r1 Hr1) as (r2 & N2 & Hr2 & U1 & U2 & U3 & U4 & U5 & U6). specialize (U5 Hcid) as [U5 U5'].
  split; [|exists r2; split; [done|rewrite U1, length_app; lia]].
  assert (Hold : ∀ k, get_range σ1 k = None → get_range σ k = None).
  { intros k Hk. destruct (get_range σ k) as [rk|] eqn:Hrk; [|done]. destruct (decide (k = id)) as [->|]; [congruence|].
    destruct (decide (k ∈ child_list r)) as [Hin|Hin]; [|rewrite S11 in Hk by done; congruence].
    assert (Hin1 : k ∈ child_list r1) by (rewrite S4; apply elem_of_app; by left).
    destruct (pe_child _ _ _ S1 _ _ _ Hid1 Hr1 Hin1) as (_ & q & Hq & _). congruence. }
  split.
  - apply U.
  - transitivity σ1; [done|apply U].
  - rewrite (um_deferred _ _ _ _ _ _ U). done.
  - exists r2, (N ++ N2). rewrite U1, S4, app_assoc. split_and!; try congruence.
    + intros k [Hk|Hk]%elem_of_app; [by apply S9|]. apply Hold. by destruct (U6 k Hk).
    + intros i k Hi Hcond. rewrite <- S4 in Hi. apply lookup_app_Some in Hi as [Hi|[Hge Hi]].
      * destruct (decide (k = c)) as [->|Hkc].
        { destruct (um_quiet _ _ _ _ _ _ U qc Hqc) as (q' & Hq' & _ & _ & [?|[? _]]); [by exists q'|done]. }
        assert (Hi' : (i < n ∨ length (child_list r) ≤ i)%nat).
        { destruct Hcond as [Hlt|?]; [|by right]. destruct (decide (i = n)) as [->|]; [congruence|left; lia]. }
        destruct (S10 i k Hi Hi') as (q & Hq & Hquiet). exists q. split; [|done].
        pose proof (list_elem_of_lookup_2 _ _ _ Hi) as Hkin. destruct (pe_child _ _ _ S1 _ _ _ Hid1 Hr1 Hkin) as (Hko & _).
        rewrite (um_other _ _ _ _ _ _ U); [done|congruence|done|by eexists].
      * by apply U6, list_elem_of_lookup_2 with (i - length (child_list r1))%nat.
  - intros k Hki Hkn [rk Hrk]. rewrite (um_other _ _ _ _ _ _ U); [by apply S11|done| |rewrite S11 by done; by eexists].
    intros ->. rewrite S4 in Hcin. apply elem_of_app in Hcin as [?|Hin]; [done|]. apply S9 in Hin. congruence.
  - intros x pg Hx. rewrite (um_shows _ _ _ _ _ _ U) by done. by apply S12.
Qed.

(** The loop has enough turns: each child that was there adds at most two, which are quiet. *)
Lemma unmap_children_loop σ id s e r fuel : pend σ (Some id) [] → id ∈ objects σ → get_range σ id = Some r → s ≤ e →
  ∀ n σ1 r1, swept σ σ1 id s e r (λ i, (i < n ∨ length (child_list r) ≤ i)%nat) → get_range σ1 id = Some r1 →
  (length (child_list r1) + 2 * (length (child_list r) - n) ≤ 3 * length (child_list r))%nat →
  (3 * length (child_list r) ≤ fuel + n)%nat →
  ∃ σ', unmap_children LOCATION_UNDEFINED FLAG_HOST_ACCESS FLAG_COHERENT mem_ok no_system_mem_limit max_system_mem_limit
      pdds fuel n σ1 id s e = Some σ' ∧ swept σ σ' id s e r (λ _, True).
Proof.
  intros P Hid Hr Hse. induction fuel as [|fuel IH]; intros n σ1 r1 Hsw Hr1 Hlen Hfuel; cbn [unmap_children];
    rewrite Hr1; cbn [mbind option_bind]; destruct (child_list r1 !! n) as [c|] eqn:Hc;
    try (exists σ1; split; [done|]; by eapply swept_all).
  { apply lookup_lt_Some in Hc. lia. }
  assert (Hid1 : id ∈ objects σ1) by (destruct (sw_lists _ _ _ _ _ _ _ Hsw) as (_ & -> & _); done).
  pose proof (list_elem_of_lookup_2 _ _ _ Hc) as Hcin.
  destruct (pe_child _ _ _ (sw_pend _ _ _ _ _ _ _ Hsw) _ _ _ Hid1 Hr1 Hcin) as (_ & qc & Hqc & _).
  destruct (decide (n < length (child_list r))%nat) as [Hn|Hn].
  - destruct (unmap_member_spec σ1 id c qc r1 s e) as (σa & σ2 & -> & Hs & U); try done; [apply Hsw|by right|].
    cbn [mbind option_bind]. rewrite Hs. cbn [mbind option_bind].
    destruct (swept_step σ σ1 σ2 id s e r r1 n c) as (Hsw2 & r2 & Hr2 & Hl2); try done.
    apply (IH (S n) σ2 r2); try done; lia.
  - destruct (sw_id _ _ _ _ _ _ _ Hsw) as (r' & N & Hr' & Hcl & Hrest). rewrite Hr1 in Hr'. injection Hr' as <-.
    destruct Hrest as (_ & _ & _ & _ & _ & Hq). destruct (Hq n c Hc) as (q & Hq1 & Hquiet); [right; lia|].
    assert (Hne : id ≠ c).
    { intros <-. by destruct (pe_child _ _ _ (sw_pend _ _ _ _ _ _ _ Hsw) _ _ _ Hid1 Hr1 Hcin) as [? _]. }
    destruct (unmap_member_quiet σ1 id c q r1 s e) as (σ2 & -> & Hs & U & Hr2); try done; [apply Hsw|].
    cbn [mbind option_bind]. rewrite Hs. cbn [mbind option_bind].
    destruct (swept_step σ σ1 σ2 id s e r r1 n c) as (Hsw2 & _); try done.
    apply (IH (S n) σ2 r1); try done; lia.
Qed.

Lemma unmap_children_spec σ id s e r : pend σ (Some id) [] → id ∈ objects σ → get_range σ id = Some r → s ≤ e →
  ∃ σ', unmap_children LOCATION_UNDEFINED FLAG_HOST_ACCESS FLAG_COHERENT mem_ok no_system_mem_limit max_system_mem_limit
      pdds (3 * length (child_list r)) 0 σ id s e = Some σ' ∧ swept σ σ' id s e r (λ _, True).
Proof.
  intros P Hid Hr Hse. apply (unmap_children_loop σ id s e r _ P Hid Hr Hse 0 σ r); try done; [|lia..].
  split; try done. exists r, []. rewrite app_nil_r. split_and!; try done; [by intros c ?%not_elem_of_nil|].
  intros i c Hi [?|Hge]; [lia|]. apply lookup_lt_Some in Hi. lia.
Qed.

Lemma pend_busy σ id : pend σ None [] → pend σ (Some id) [].
Proof.
  intros P. split; try apply P.
  - intros k r Hk Hr Hd. destruct (pe_settled _ _ _ P _ _ Hk Hr Hd) as [H1 H2]. split; [done|]. intros _. by apply H2.
  - by intros c ?%not_elem_of_nil.
Qed.

Lemma pend_done σ id : pend σ (Some id) [] → id ∈ deferred_range_list σ → pend σ None [].
Proof.
  intros P Hin. split; try apply P.
  - intros k r Hk Hr Hd. destruct (pe_settled _ _ _ P _ _ Hk Hr Hd) as [H1 H2]. split; [done|]. intros _. apply H2. congruence.
  - by intros c ?%not_elem_of_nil.
Qed.

(** The range that is worked on is put on the list of deferred work. *)
Lemma defer_pend σ id r op : pend σ (Some id) [] → id ∈ objects σ → get_range σ id = Some r →
  op = SVM_OP_UNMAP_RANGE ∨ op = SVM_OP_UPDATE_RANGE_NOTIFIER →
  ∃ σ' r', svm_range_add_list_work true σ id op = Some σ' ∧ pend σ' None [] ∧ same_lists σ σ' ∧
    get_range σ' id = Some r' ∧ (r' = r ∧ dying r ∨ ¬ dying r ∧ r' = r <| work_op := op |>) ∧
    (∀ k, k ≠ id → get_range σ' k = get_range σ k) ∧
    ∀ x pg, (op = SVM_OP_UNMAP_RANGE → ¬ covers r x) → shows σ' x pg ↔ shows σ x pg.
Proof.
  intros P Hid Hr Hop. unfold svm_range_add_list_work. rewrite Hr. cbn [mbind option_bind].
  assert (Hdone : ∀ σ', (∀ k, get_range σ' k = mark id op k <$> get_range σ k) → range_ids σ' = range_ids σ → objects σ' = objects σ →
    svm_next σ' = svm_next σ → (∀ k, k ∈ deferred_range_list σ' ↔ k ∈ deferred_range_list σ ∨ k = id) → NoDup (deferred_range_list σ') →
    pend σ' None []).
  { intros σ' Hg Hi Ho Hn Hd Hnd. set (f := mark id op) in *.
    assert (Hf : ∀ k r, place (f k r) = place r ∧ (range_ok r → range_ok (f k r))) by (intros; apply mark_place).
    destruct (relabel_fields σ σ' _ _ f P Ho Hi Hn Hg Hf) as (F1 & F2 & F3 & F4 & F5 & F6 & F7).
    pose proof (relabel_inv σ σ' f Hg) as Hinv.
    assert (Hl : ∀ k q, child_list (f k q) = child_list q ∧ it_node (f k q) = it_node q ∧ ∀ nd, piece_of nd q → piece_of nd (f k q)).
    { intros k q. unfold f, mark. split_and!; [by destruct (decide _)..|]. intros nd [? ?]. by destruct (decide _). }
    assert (Hne : ∀ k q, k ≠ id → f k q = q) by (intros k q Hk; unfold f, mark; by rewrite decide_False).
    assert (Hcid : ∀ k q c, k ∈ objects σ → get_range σ k = Some q → c ∈ child_list q → c ≠ id).
    { intros k q c Hk Hq Hc ->. by destruct (pe_child _ _ _ P _ _ _ Hk Hq Hc) as [? _]. }
    split; try done; rewrite ?Ho.
    - intros k. rewrite (relabel_dom σ σ' f Hg), (pe_dom _ _ _ P).
      split; (intros [?|[(j & q' & Hj & Hq' & Hin)|?]]; [by left| |by auto]); right; left.
      + exists j, (f j q'). destruct (Hl j q') as (-> & _). by rewrite Hg, Hq'.
      + apply Hinv in Hq' as (q & Hq & ->). exists j, q. by destruct (Hl j q) as (<- & _).
    - intros k q' Hk (q & Hq & ->)%Hinv Hkd. assert ((k ∉ deferred_range_list σ) ∧ k ≠ id) as [H1 H2] by (rewrite Hd in Hkd; naive_solver).
      rewrite Hne by done. destruct (pe_settled _ _ _ P _ _ Hk Hq H1) as [H3 H4]. split; [done|]. intros _. apply H4. congruence.
    - intros k Hk. apply Hd in Hk. destruct (decide (k = id)) as [->|Hki].
      + split; [done|]. exists (f id r). rewrite Hg, Hr. split; [done|]. unfold f, mark, dying. rewrite decide_True by done. simpl. naive_solver.
      + destruct Hk as [Hk|?]; [|done]. destruct (pe_deferred _ _ _ P _ Hk) as (? & q & Hq & ?). split; [done|].
        exists q. rewrite Hg, Hq. split; [simpl; by rewrite Hne|done].
    - intros k q' c Hk (q & Hq & ->)%Hinv. destruct (Hl k q) as (-> & -> & _). intros Hc.
      destruct (pe_child _ _ _ P _ _ _ Hk Hq Hc) as (? & qc & Hqc & ?). split; [done|]. exists qc.
      rewrite Hg, Hqc. split; [|done]. simpl. rewrite Hne; [done|by eapply Hcid].
    - by intros c ?%not_elem_of_nil.
    - intros j k q1 q2 c Hj Hk (q & Hq & ->)%Hinv (q' & Hq' & ->)%Hinv. destruct (Hl j q) as (-> & _). destruct (Hl k q') as (-> & _).
      by apply (pe_family _ _ _ P).
    - intros k q1 Hk (q & Hq & ->)%Hinv. destruct (Hl k q) as (-> & _). by apply (pe_children _ _ _ P k).
    - split; [apply P|]. split; [done|apply NoDup_nil_2]. }
  assert (Hput : ∀ k, k ≠ id → get_range (put_range σ id (r <| work_op := op |>)) k = get_range σ k).
  { intros k Hk. by rewrite get_put_ne. }
  pose proof (put_mark σ id r op Hr) as Hmark.
  assert (Hplace : ∀ k r, place (mark id op k r) = place r ∧ (range_ok r → range_ok (mark id op k r))) by (intros; apply mark_place).
  assert (Hshows : ∀ x pg, ¬ dying r → (op = SVM_OP_UNMAP_RANGE → ¬ covers r x) →
    shows (put_range σ id (r <| work_op := op |>)) x pg ↔ shows σ x pg).
  { intros x pg Hdr Hx. apply (relabel_shows σ _ (mark id op) Hmark Hplace). intros k q Hq Hqx. unfold mark.
    destruct (decide (k = id)) as [->|]; [|done]. rewrite Hr in Hq. injection Hq as <-. split; [|done].
    unfold dying in *. simpl. naive_solver. }
  destruct (decide (id ∈ deferred_range_list σ)) as [Hin|Hin].
  - rewrite bool_decide_true by done. rewrite bool_decide_true by (by destruct Hop as [-> | ->]). cbn [andb].
    destruct (decide (dying r)) as [Hdy|Hdy].
    + rewrite bool_decide_false by (intros Hn; by apply Hn). exists σ, r. split; [done|]. split; [by eapply pend_done|].
      split_and!; try done. by left.
    + rewrite bool_decide_true by done. exists (put_range σ id (r <| work_op := op |>)), (r <| work_op := op |>). split; [done|]. split.
      { apply Hdone; try done; [|apply P]. intros k. simpl. naive_solver. }
      split. { split_and!; try done. apply (relabel_pages σ _ (mark id op) Hmark Hplace). }
      split_and!; [apply get_put_eq|by right|done|]. intros x pg. by apply Hshows.
  - rewrite bool_decide_false by done.
    destruct (pe_settled _ _ _ P _ _ Hid Hr Hin) as [Hdy _].
    eexists _, (r <| work_op := op |>). split; [reflexivity|].
    match goal with |- pend ?s _ _ ∧ _ => set (σ' := s) end.
    assert (Hm' : ∀ k, get_range σ' k = mark id op k <$> get_range σ k) by exact Hmark. split.
    { apply Hdone; try done.
      - intros k. simpl. rewrite elem_of_app, list_elem_of_singleton. done.
      - simpl. apply NoDup_app. split_and!; [apply P| |apply NoDup_singleton]. by intros k Hk ->%list_elem_of_singleton. }
    split. { split_and!; try done. apply (relabel_pages σ σ' (mark id op) Hm' Hplace). }
    split_and!; [apply get_put_eq|by right|done|]. intros x pg Hx. rewrite <- Hshows by done. done.
Qed.

(** ** The callback *)

Abbreviation unmap_from_cpu := (svm_range_unmap_from_cpu LOCATION_UNDEFINED FLAG_HOST_ACCESS FLAG_COHERENT mem_ok
  no_system_mem_limit max_system_mem_limit pdds true).
Abbreviation invalidate := (invalidate_unmap LOCATION_UNDEFINED FLAG_HOST_ACCESS FLAG_COHERENT mem_ok
  no_system_mem_limit max_system_mem_limit pdds true).

(** A range and all its children are quiet. *)
Definition family_quiet (σ : svm_range_list) (s e : Z) (id : nat) : Prop :=
  ∃ r, get_range σ id = Some r ∧ quiet s e r ∧ ∀ c, c ∈ child_list r → ∃ q, get_range σ c = Some q ∧ quiet s e q.

(** What a callback for [id] does. *)
Record called (σ σ' : svm_range_list) (id : nat) (s e : Z) (r : svm_range) : Prop := {
  ca_pend : pend σ' None [];
  ca_lists : same_lists σ σ';
  ca_quiet : family_quiet σ' s e id;
  ca_node : it_node <$> get_range σ' id = Some (it_node r);
  ca_other k : k ≠ id → k ∉ child_list r → is_Some (get_range σ k) → get_range σ' k = get_range σ k;
  ca_shows x pg : ¬ s ≤ x ≤ e → shows σ' x pg ↔ shows σ x pg;
}.

Lemma unmap_from_cpu_spec σ id r s e : pend σ None [] → id ∈ objects σ → get_range σ id = Some r → s ≤ e →
  ∃ σ', unmap_from_cpu σ id s e = Some σ' ∧ called σ σ' id s e r.
Proof.
  intros P0 Hid Hr Hse. pose proof (pend_busy σ id P0) as P. unfold svm_range_unmap_from_cpu. rewrite Hr. cbn [mbind option_bind].
  destruct (unmap_children_spec σ id s e r P Hid Hr Hse) as (σ1 & -> & S). cbn [mbind option_bind].
  destruct (sw_id _ _ _ _ _ _ _ S) as (r1 & N & Hr1 & Hcl1 & Hop1 & Hit1 & Hst1 & Hla1 & HN1 & Hq1).
  assert (Hid1 : id ∈ objects σ1) by (destruct (sw_lists _ _ _ _ _ _ _ S) as (_ & -> & _); done).
  destruct (unmap_member_spec σ1 id id r1 r1 s e) as (σa & σ2 & -> & Hs & U); try done; [apply S|by left|].
  cbn [mbind option_bind]. rewrite Hs. cbn [mbind option_bind].
  assert (Hid2 : id ∈ objects σ2) by (destruct (um_lists _ _ _ _ _ _ U) as (_ & -> & _); done).
  destruct (um_id _ _ _ _ _ _ U r1 Hr1) as (r2 & N2 & Hr2 & Hcl2 & _ & Hop2 & Hit2 & _ & HN2).
  destruct (um_quiet _ _ _ _ _ _ U r1 Hr1) as (r2' & Hr2' & Hb1 & Hb2 & Hq2). rewrite Hr2 in Hr2'. injection Hr2' as <-.
  set (op := if (s <=? start r) && (last r <=? e) then SVM_OP_UNMAP_RANGE else SVM_OP_UPDATE_RANGE_NOTIFIER).
  destruct (defer_pend σ2 id r2 op) as (σ3 & r3 & -> & P3 & HL3 & Hr3 & Hr3' & Hk3 & Hsh3); try done; [apply U|unfold op; destruct (_ && _); auto|].
  assert (Hchild : ∀ c, c ∈ child_list r2 → c ≠ id).
  { intros c Hc ->. by destruct (pe_child _ _ _ (um_pend _ _ _ _ _ _ U) _ _ _ Hid2 Hr2 Hc) as [? _]. }
  exists σ3. split; [done|]. split.
  - done.
  - transitivity σ1; [apply S|]. transitivity σ2; [apply U|done].
  - exists r3. split; [done|]. split.
    + destruct Hr3' as [[-> ?]|[Hlive ->]]; [by left|]. destruct Hq2 as [[Hdy|Hout]|(_ & Hs1 & He1 & _)].
      * done.
      * by right.
      * left. unfold op. rewrite !(proj2 (Z.leb_le _ _)) by lia. done.
    + intros c Hc. assert (Hc2 : c ∈ child_list r2) by (destruct Hr3' as [[-> _]|[_ ->]]; done).
      rewrite Hk3 by by apply Hchild. rewrite Hcl2 in Hc2. apply elem_of_app in Hc2 as [Hc1|HcN].
      * apply list_elem_of_lookup in Hc1 as [i Hi]. destruct (Hq1 i c Hi I) as (q & Hq & Hquiet). exists q. split; [|done].
        apply list_elem_of_lookup_2 in Hi. rewrite (um_other _ _ _ _ _ _ U); [done| | |by eexists];
          apply Hchild; rewrite Hcl2; apply elem_of_app; by left.
      * by apply HN2.
  - rewrite Hr3. simpl. f_equal. transitivity (it_node r2); [by destruct Hr3' as [[-> _]|[_ ->]]|congruence].
  - intros k Hki Hkc Hk. rewrite Hk3 by done. assert (Hk1 : get_range σ1 k = get_range σ k) by by apply S.
    rewrite (um_other _ _ _ _ _ _ U); [done..|]. by rewrite Hk1.
  - intros x pg Hx. rewrite Hsh3; [by rewrite (um_shows _ _ _ _ _ _ U), (sw_shows _ _ _ _ _ _ _ S) by done|].
    unfold op. destruct (Z.leb_spec s (start r)), (Z.leb_spec (last r) e); try done. intros _. unfold covers. lia.
Qed.

(** ** An unmapping *)

(** The callback of each notifier that an unmapping touches. *)
Definition notified (σ : svm_range_list) (s e : Z) (id : nat) : bool :=
  match get_range σ id with Some r => ((notifier r).1 <=? e) && (s <=? (notifier r).2) | None => false end.
Definition munmap (σ : svm_range_list) (s e : Z) : option svm_range_list :=
  each_id (λ σ id, invalidate s e σ id) σ (filter (λ id, notified σ s e id = true) (objects σ)).

(** A range within its node is quiet in a window when it is in the part for the node. *)
Lemma quiet_clip s e node r : node.1 ≤ start r → last r ≤ node.2 → start r ≤ last r →
  quiet (Z.max node.1 s) (Z.min node.2 e) r → quiet s e r.
Proof. intros H1 H2 H3 [?|Hq]; [by left|]. right. lia. Qed.

Lemma family_clip σ s e id r : pend σ None [] → id ∈ objects σ → get_range σ id = Some r →
  family_quiet σ (Z.max (it_node r).1 s) (Z.min (it_node r).2 e) id → family_quiet σ s e id.
Proof.
  intros P Hid Hr (r' & Hr' & Hq & Hc). rewrite Hr in Hr'. injection Hr' as <-. exists r. split; [done|].
  destruct (pe_node _ _ _ P _ _ Hid Hr) as (_ & _ & H1 & H2). pose proof (rg_bounds _ (proj1 (pe_range _ _ _ P _ _ Hr))).
  split; [apply (quiet_clip s e (it_node r)); (done || lia)|]. intros c Hin. destruct (Hc c Hin) as (q & Hqc & Hqq).
  exists q. split; [done|]. destruct (pe_child _ _ _ P _ _ _ Hid Hr Hin) as (_ & q' & Hq' & [[? ?] _] & _).
  rewrite Hqc in Hq'. injection Hq' as <-. pose proof (rg_bounds _ (proj1 (pe_range _ _ _ P _ _ Hqc))).
  apply (quiet_clip s e (it_node r)); (done || lia).
Qed.

(** A callback leaves the other families alone. *)
Lemma called_other σ σ' id s e r j : pend σ None [] → called σ σ' id s e r → id ∈ objects σ → get_range σ id = Some r →
  j ∈ objects σ → j ≠ id →
  get_range σ' j = get_range σ j ∧ ∀ rj c, get_range σ j = Some rj → c ∈ child_list rj → get_range σ' c = get_range σ c.
Proof.
  intros P C Hid Hr Hj Hne.
  assert (Hnc : ∀ k, k ∈ objects σ → k ∉ child_list r).
  { intros k Hk Hin. by destruct (pe_child _ _ _ P _ _ _ Hid Hr Hin) as [? _]. }
  split; [apply (ca_other _ _ _ _ _ _ C); [done|by apply Hnc|by apply (pend_deferred_dom _ _ _ _ P)]|].
  intros rj c Hrj Hc. destruct (pe_child _ _ _ P _ _ _ Hj Hrj Hc) as (Hco & q & Hq & _).
  apply (ca_other _ _ _ _ _ _ C); [congruence| |by eexists]. intros Hin. apply Hne. by eapply (pe_family _ _ _ P).
Qed.

Lemma munmap_loop s e l : ∀ σ, pend σ None [] → (∀ id, id ∈ l → id ∈ objects σ ∧ notified σ s e id = true) → NoDup l →
  s ≤ e →
  ∃ σ', each_id (λ σ id, invalidate s e σ id) σ l = Some σ' ∧ pend σ' None [] ∧ same_lists σ σ' ∧
    (∀ id, id ∈ l → family_quiet σ' s e id) ∧
    (∀ j, j ∈ objects σ → j ∉ l → get_range σ' j = get_range σ j ∧
       ∀ rj c, get_range σ j = Some rj → c ∈ child_list rj → get_range σ' c = get_range σ c) ∧
    (∀ j, j ∈ objects σ → it_node <$> get_range σ' j = it_node <$> get_range σ j) ∧
    ∀ x pg, ¬ s ≤ x ≤ e → shows σ' x pg ↔ shows σ x pg.
Proof.
  induction l as [|id l IH]; intros σ P Hl Hnd Hse; cbn [each_id].
  { exists σ. split_and!; try done. by intros id ?%not_elem_of_nil. }
  apply NoDup_cons in Hnd as [Hni Hnd]. destruct (Hl id (list_elem_of_here _ _)) as [Hid Hnot].
  destruct (pend_deferred_dom _ _ _ _ P Hid) as [r Hr]. destruct (pe_node _ _ _ P _ _ Hid Hr) as (Hnn & Hn1 & Hn2 & Hn3).
  pose proof (rg_bounds _ (proj1 (pe_range _ _ _ P _ _ Hr))) as Hb.
  unfold notified in Hnot. rewrite Hr, Hnn in Hnot. apply andb_true_iff in Hnot as [Hw1%Z.leb_le Hw2%Z.leb_le].
  set (a := (it_node r).1) in *. set (b := (it_node r).2) in *.
  assert (invalidate s e σ id = unmap_from_cpu σ id (Z.max a s) (Z.min b e)) as ->.
  { unfold invalidate_unmap. rewrite Hr. cbn [mbind option_bind]. rewrite Hnn. by destruct (it_node r). }
  destruct (unmap_from_cpu_spec σ id r (Z.max a s) (Z.min b e)) as (σ1 & -> & C); [done..|lia|]. cbn [mbind option_bind].
  destruct (ca_lists _ _ _ _ _ _ C) as (HL1 & HL2 & _).
  pose proof (λ j Hj Hne, called_other σ σ1 id _ _ r j P C Hid Hr Hj Hne) as Hoth.
  assert (Hnode1 : ∀ j, j ∈ objects σ → it_node <$> get_range σ1 j = it_node <$> get_range σ j).
  { intros j Hj. destruct (decide (j = id)) as [->|Hne]; [rewrite (ca_node _ _ _ _ _ _ C); by rewrite Hr|].
    by destruct (Hoth j Hj Hne) as [-> _]. }
  assert (Hq1 : family_quiet σ1 s e id).
  { pose proof (ca_node _ _ _ _ _ _ C) as Hn1'. apply fmap_Some in Hn1' as (r1 & Hr1 & Hit1).
    apply (family_clip σ1 s e id r1); [apply C|by rewrite HL2|done|]. rewrite <- Hit1. apply C. }
  destruct (IH σ1) as (σ2 & -> & P2 & HLL & Hq2 & Hoth2 & Hnode2 & Hsh2); [apply C| |done|done|].
  { intros j Hj. destruct (Hl j (list_elem_of_further _ _ _ Hj)) as [Hjo Hjn]. rewrite HL2. split; [done|].
    assert (Hne : j ≠ id) by congruence. destruct (Hoth j Hjo Hne) as [Heq _]. unfold notified in *. by rewrite Heq. }
  exists σ2. split; [done|]. split; [done|]. split; [transitivity σ1; [apply C|done]|]. rewrite HL2 in Hoth2, Hnode2. split_and!.
  - intros j [->|Hj]%elem_of_cons; [|by apply Hq2]. destruct (Hoth2 id Hid Hni) as [Hr2 Hc2].
    destruct Hq1 as (r1 & Hr1 & Hqr & Hqc). exists r1. rewrite Hr2. split; [done|]. split; [done|].
    intros c Hc. rewrite (Hc2 r1 c Hr1 Hc). by apply Hqc.
  - intros j Hj Hjl. apply not_elem_of_cons in Hjl as [Hne Hjl]. destruct (Hoth j Hj Hne) as [Hr1 Hc1].
    destruct (Hoth2 j Hj Hjl) as [Hr2 Hc2]. split; [congruence|]. intros rj c Hrj Hc. rewrite (Hc2 rj c), (Hc1 rj c) by congruence. done.
  - intros j Hj. by rewrite Hnode2, Hnode1.
  - intros x pg Hx. rewrite Hsh2 by done. apply C. lia.
Qed.

(** An unmapping takes away exactly its pages. *)
Lemma munmap_spec σ s e : pend σ None [] → s ≤ e →
  ∃ σ', munmap σ s e = Some σ' ∧ pend σ' None [] ∧ same_lists σ σ' ∧
    ∀ x pg, shows σ' x pg ↔ shows σ x pg ∧ ¬ s ≤ x ≤ e.
Proof.
  intros P Hse. destruct (munmap_loop s e (filter (λ id, notified σ s e id = true) (objects σ)) σ P)
    as (σ' & Hm & P' & HL & Hq & _ & Hnode & Hsh); [|apply NoDup_filter, P|done|].
  { intros id Hid. apply list_elem_of_filter in Hid. tauto. }
  exists σ'. split; [done|]. split; [done|]. split; [done|]. intros x pg.
  destruct (decide (s ≤ x ≤ e)) as [Hx|Hx]; [|rewrite Hsh by done; tauto]. split; [|tauto].
  intros (k & r & Hr & Hlive & Hcov & _). exfalso.
  assert (Hfam : ∀ j rj, j ∈ objects σ' → get_range σ' j = Some rj → (it_node rj).1 ≤ x ≤ (it_node rj).2 → family_quiet σ' s e j).
  { intros j rj Hj Hrj Hjx. apply Hq. destruct HL as (_ & Ho & _). rewrite Ho in Hj. apply list_elem_of_filter. split; [|done].
    specialize (Hnode j Hj). rewrite Hrj in Hnode. destruct (pend_deferred_dom _ _ _ _ P Hj) as [r0 Hr0]. rewrite Hr0 in Hnode.
    injection Hnode as Hn. unfold notified. rewrite Hr0. destruct (pe_node _ _ _ P _ _ Hj Hr0) as (-> & _). rewrite <- Hn.
    apply andb_true_iff. rewrite !Z.leb_le. lia. }
  unfold covers in Hcov. assert (Hnotq : ¬ quiet s e r) by (intros [?|?]; [done|lia]).
  destruct (proj1 (pe_dom _ _ _ P' k)) as [Hk|[(j & rj & Hj & Hrj & Hin)|Hk]]; [by eexists| | |by apply not_elem_of_nil in Hk].
  - destruct (pe_node _ _ _ P' _ _ Hk Hr) as (_ & _ & ? & ?). destruct (Hfam k r Hk Hr) as (r' & Hr' & ? & _); [lia|]. congruence.
  - destruct (pe_child _ _ _ P' _ _ _ Hj Hrj Hin) as (_ & q & Hqk & [[? ?] _] & _). rewrite Hr in Hqk. injection Hqk as <-.
    destruct (Hfam j rj Hj Hrj) as (r' & Hr' & _ & Hch); [lia|]. rewrite Hrj in Hr'. injection Hr' as <-.
    destruct (Hch k Hin) as (q & Hq' & ?). congruence.
Qed.
End Unmap.
