(* ===== verification/SvmWork.v ===== *)
(** * Shared virtual memory: deferred work

    [svm_range_deferred_list_work] frees or adds the children of each range on its list
    and then updates the node of the range or frees it.  It ends, in a state where no
    work is pending, and every page that shows stays. *)

From S2P Require Import Prelude Svm SvmProof SvmAdd SvmSet SvmUnmap.
#[local] Open Scope Z_scope.
#[local] Open Scope list_scope.

(** ** Steps *)

(** A child is taken off the list of its range. *)
Lemma pop_pend σ σ' id r c rest : pend σ (Some id) [] → id ∈ objects σ → get_range σ id = Some r → child_list r = c :: rest →
  get_range σ' id = Some (r <| child_list := rest |>) → (∀ k, k ≠ id → get_range σ' k = get_range σ k) →
  range_ids σ' = range_ids σ → objects σ' = objects σ → deferred_range_list σ' = deferred_range_list σ →
  svm_next σ' = svm_next σ →
  pend σ' (Some id) [c] ∧ heap_pages σ' = heap_pages σ ∧ ∀ x pg, shows σ' x pg ↔ shows σ x pg.
Proof.
  intros P Hid Hr Hcl Hr' Hk Hi Ho Hd Hn.
  set (f := λ (k : nat) (q : svm_range), if decide (k = id) then q <| child_list := rest |> else q).
  assert (Hg : ∀ k, get_range σ' k = f k <$> get_range σ k).
  { intros k. unfold f. destruct (decide (k = id)) as [->|Hne]; [by rewrite Hr', Hr|]. rewrite Hk by done.
    by destruct (get_range σ k). }
  assert (Hf : ∀ k r, place (f k r) = place r ∧ (range_ok r → range_ok (f k r))).
  { intros k q. unfold f. split; [by destruct (decide _)|]. intros []. destruct (decide _); by split. }
  destruct (relabel_fields σ σ' _ _ f P Ho Hi Hn Hg Hf) as (F1 & F2 & F3 & F4 & F5 & F6 & F7).
  pose proof (relabel_inv σ σ' f Hg) as Hinv.
  assert (Hne : ∀ k q, k ≠ id → f k q = q) by (intros k q Hkn; unfold f; by rewrite decide_False).
  assert (Hfid : ∀ q, f id q = q <| child_list := rest |>) by (intros q; unfold f; by rewrite decide_True).
  assert (Hop : ∀ k q, work_op (f k q) = work_op q ∧ it_node (f k q) = it_node q) by (intros k q; unfold f; by destruct (decide _)).
  assert (Hcin : c ∈ child_list r) by (rewrite Hcl; apply list_elem_of_here).
  destruct (pe_child _ _ _ P _ _ _ Hid Hr Hcin) as (Hco & qc & Hqc & Hpc & Hopc).
  assert (Hsub : ∀ j q k, get_range σ j = Some q → k ∈ child_list (f j q) → k ∈ child_list q).
  { intros j q k Hq. destruct (decide (j = id)) as [->|Hj]; [|by rewrite Hne]. rewrite Hfid, Hr in *. injection Hq as <-.
    simpl. rewrite Hcl. apply list_elem_of_further. }
  pose proof (pe_children _ _ _ P _ _ Hid Hr) as Hnd. rewrite Hcl in Hnd. apply NoDup_cons in Hnd as [Hcr Hnd].
  split; [|split; [apply (relabel_pages σ σ' f Hg Hf)|]].
  2: { intros x pg. apply (relabel_shows σ σ' f Hg Hf). intros k q _ _. unfold dying. destruct (Hop k q) as [-> _].
       split; [done|]. unfold f. by destruct (decide _). }
  split; try done; rewrite ?Ho, ?Hd.
  - intros k. rewrite (relabel_dom σ σ' f Hg), (pe_dom _ _ _ P), list_elem_of_singleton. split.
    + intros [?|[(j & q & Hj & Hq & Hin)|Hin]]; [by left| |by apply not_elem_of_nil in Hin].
      destruct (decide (j = id)) as [->|Hjn].
      * rewrite Hr in Hq. injection Hq as <-. rewrite Hcl in Hin. apply elem_of_cons in Hin as [->|Hin]; [by auto|].
        right; left. exists id, (r <| child_list := rest |>). done.
      * right; left. exists j, q. rewrite Hg, Hq. simpl. by rewrite Hne.
    + intros [?|[(j & q' & Hj & (q & Hq & ->)%Hinv & Hin)| ->]]; [by left| |].
      * right; left. exists j, q. split_and!; try done. by eapply Hsub.
      * right; left. by exists id, r.
  - intros k q' Hko (q & Hq & ->)%Hinv Hkd. destruct (pe_settled _ _ _ P _ _ Hko Hq Hkd) as [H1 H2].
    unfold dying. destruct (Hop k q) as [-> _]. split; [done|]. intros HB. rewrite Hne by congruence. by apply H2.
  - intros k Hkd. destruct (pe_deferred _ _ _ P _ Hkd) as (Hko & q & Hq & Hopq). split; [done|]. exists (f k q).
    rewrite Hg, Hq. split; [done|]. unfold dying. by destruct (Hop k q) as [-> _].
  - intros k q' c' Hko (q & Hq & ->)%Hinv Hin. apply (Hsub _ _ _ Hq) in Hin.
    destruct (pe_child _ _ _ P _ _ _ Hko Hq Hin) as (Hc'o & qc' & Hqc' & ?). split; [done|]. exists qc'.
    destruct (Hop k q) as [_ ->]. rewrite Hg, Hqc'. split; [|done]. simpl. rewrite Hne; [done|congruence].
  - intros c' ->%list_elem_of_singleton. split; [done|]. exists id, (f id r), qc. rewrite !Hg, Hr, Hqc.
    destruct (Hop id r) as [_ ->]. split_and!; try done; [simpl; rewrite Hne; [done|congruence]|].
    intros j q' Hj (q & Hq & ->)%Hinv Hin. assert (j = id) as -> by (by eapply (pe_family _ _ _ P); [..|exact Hcin]; eauto).
    rewrite Hr in Hq. injection Hq as <-. rewrite Hfid in Hin. done.
  - intros j k q1 q2 c' Hj Hko (q & Hq & ->)%Hinv (q' & Hq' & ->)%Hinv H1 H2.
    by eapply (pe_family _ _ _ P); [exact Hj|exact Hko|exact Hq|exact Hq'|eapply Hsub|eapply Hsub].
  - intros k q' Hko (q & Hq & ->)%Hinv. destruct (decide (k = id)) as [->|Hkn]; [by rewrite Hfid|].
    rewrite Hne by done. by apply (pe_children _ _ _ P k).
  - split_and!; [apply P|apply P|apply NoDup_singleton].
Qed.

(** A piece that is on no list is freed. *)
Lemma delete_pend σ σ' id c q : pend σ (Some id) [c] → get_range σ c = Some q → dying q →
  get_range σ' c = None → (∀ k, k ≠ c → get_range σ' k = get_range σ k) →
  range_ids σ' = range_ids σ → objects σ' = objects σ → deferred_range_list σ' = deferred_range_list σ →
  svm_next σ' = svm_next σ →
  pend σ' (Some id) [] ∧ heap_pages σ' = heap_pages σ - range_pages q ∧ ∀ x pg, shows σ' x pg ↔ shows σ x pg.
Proof.
  intros P Hq Hdy Hc Hk Hi Ho Hd Hn.
  assert (Hinv : ∀ k r, get_range σ' k = Some r → k ≠ c ∧ get_range σ k = Some r).
  { intros k r Hr. destruct (decide (k = c)) as [->|Hne]; [congruence|]. by rewrite <- Hk. }
  destruct (pe_orphan _ _ _ P c (list_elem_of_here _ _)) as (Hco & k0 & r0 & q0 & [= <-] & Hr0 & Hq0 & Hpc & Hno).
  split; [|split].
  - split; rewrite ?Ho, ?Hd.
    + intros k Hkn. destruct (get_range σ' k) as [r|] eqn:Hr; [|done]. apply Hinv in Hr as [_ Hr].
      apply (fresh_lt _ _ _ (pe_fresh _ _ _ P)) in Hr. lia.
    + intros k r (_ & Hr)%Hinv. by eapply (pe_range _ _ _ P).
    + intros x j k q1 q2 (_ & H1)%Hinv (_ & H2)%Hinv. by eapply (pe_disjoint _ _ _ P).
    + intros k. split.
      * intros [r (Hne & Hr)%Hinv]. destruct (proj1 (pe_dom _ _ _ P k)) as [?|[(j & rj & Hj & Hrj & Hin)|Hin]]; [by eexists|by left| |].
        { right; left. exists j, rj. rewrite Hk by congruence. done. }
        { apply list_elem_of_singleton in Hin as ->. done. }
      * intros [Hin|[(j & rj & Hj & (_ & Hrj)%Hinv & Hin)|Hin]]; [| |by apply not_elem_of_nil in Hin].
        { rewrite Hk by congruence. by apply (pend_deferred_dom _ _ _ _ P). }
        { rewrite Hk by (intros ->; by apply (Hno j rj)). destruct (pe_child _ _ _ P _ _ _ Hj Hrj Hin) as (_ & qq & ? & _). by eexists. }
    + intros k r Hko (_ & Hr)%Hinv. by apply (pe_node _ _ _ P k).
    + intros k r Hko (_ & Hr)%Hinv. by apply (pe_settled _ _ _ P k).
    + intros k Hkd. destruct (pe_deferred _ _ _ P _ Hkd) as (Hko & r & Hr & ?). split; [done|]. exists r.
      rewrite Hk by congruence. done.
    + intros k r c' Hko (_ & Hr)%Hinv Hin. destruct (pe_child _ _ _ P _ _ _ Hko Hr Hin) as (? & qc & ? & ?). split; [done|].
      exists qc. rewrite Hk by (intros ->; by apply (Hno k r)). done.
    + by intros c' ?%not_elem_of_nil.
    + intros j k q1 q2 c' Hj Hko (_ & H1)%Hinv (_ & H2)%Hinv. by apply (pe_family _ _ _ P).
    + intros k r Hko (_ & Hr)%Hinv. by apply (pe_children _ _ _ P k).
    + rewrite Hi. apply P.
    + split_and!; [apply P|apply P|apply NoDup_nil_2].
    + unfold sorted. rewrite Ho. apply (sorted_agree σ); [|apply P]. intros k Hko. apply it_start_get, Hk. congruence.
  - unfold heap_pages. assert (ranges σ' = delete c (ranges σ)) as ->; [|by apply msum_delete].
    apply map_eq. intros k. change (ranges σ' !! k) with (get_range σ' k).
    destruct (decide (k = c)) as [->|]; [by rewrite lookup_delete_eq|]. rewrite lookup_delete_ne by done. by apply Hk.
  - intros x pg. split.
    + intros (k & r & (_ & Hr)%Hinv & ?). by exists k, r.
    + intros (k & r & Hr & Hlive & ?). exists k, r. rewrite Hk; [done|]. intros ->. congruence.
Qed.

(** A piece becomes a range in the tables. *)
Lemma enter_pend σ σ' id c q : pend σ (Some id) [c] → get_range σ c = Some q → ¬ dying q →
  get_range σ' c = Some (linked q) → (∀ k, k ≠ c → get_range σ' k = get_range σ k) →
  objects σ' ≡ₚ c :: objects σ → range_ids σ' ≡ₚ c :: range_ids σ → deferred_range_list σ' = deferred_range_list σ →
  svm_next σ' = svm_next σ → sorted σ' →
  pend σ' (Some id) [] ∧ heap_pages σ' = heap_pages σ ∧ ∀ x pg, shows σ' x pg ↔ shows σ x pg.
Proof.
  intros P Hq Hlive Hc Hk Ho Hi Hd Hn Hs.
  destruct (pe_orphan _ _ _ P c (list_elem_of_here _ _)) as (Hco & k0 & r0 & q0 & [= <-] & Hr0 & Hq0 & [_ (_ & _ & Hpc)] & Hno).
  rewrite Hq in Hq0. injection Hq0 as <-.
  assert (Hinv : ∀ k r, get_range σ' k = Some r → k = c ∧ r = linked q ∨ k ≠ c ∧ get_range σ k = Some r).
  { intros k r Hr. destruct (decide (k = c)) as [->|Hne]; [left; split; congruence|right]. by rewrite <- Hk. }
  assert (Hold : ∀ k r, get_range σ' k = Some r → ∃ r', get_range σ k = Some r' ∧ start r = start r' ∧ last r = last r').
  { intros k r [[-> ->]|[_ Hr]]%Hinv; [by exists q|by exists r]. }
  assert (Hcl : ∀ k r, k ∈ objects σ' → get_range σ' k = Some r → k = c ∧ child_list r = [] ∨ k ∈ objects σ ∧ get_range σ k = Some r).
  { intros k r Hko [[-> ->]|[Hne Hr]]%Hinv; [by left|right]. rewrite Ho in Hko. apply elem_of_cons in Hko as [?|?]; done. }
  destruct (pe_range _ _ _ P _ _ Hq) as (Hok & Ht & Hb). pose proof (rg_npages _ Hok). pose proof (rg_bounds _ Hok).
  split; [|split].
  - split; rewrite ?Hd.
    + intros k Hkn. rewrite Hk; [apply (pe_fresh _ _ _ P); lia|]. intros ->. apply (fresh_lt _ _ _ (pe_fresh _ _ _ P)) in Hq. lia.
    + intros k r [[-> ->]|[_ Hr]]%Hinv; [|by eapply (pe_range _ _ _ P)]. by split_and!; [destruct Hok|..].
    + intros x j k q1 q2 (q1' & H1 & S1 & L1)%Hold (q2' & H2 & S2 & L2)%Hold. unfold covers. rewrite S1, L1, S2, L2.
      by apply (pe_disjoint _ _ _ P).
    + intros k. rewrite Ho, elem_of_cons. destruct (decide (k = c)) as [->|Hne]; [rewrite Hc; naive_solver|].
      rewrite Hk, (pe_dom _ _ _ P), list_elem_of_singleton by done. split.
      * intros [?|[(j & rj & Hj & Hrj & Hin)|?]]; [by auto| |done]. right; left. exists j, rj.
        rewrite Ho, elem_of_cons, Hk by congruence. auto.
      * intros [[?|?]|[(j & rj & Hj & Hrj & Hin)|Hin]]; [done|by left| |by apply not_elem_of_nil in Hin].
        destruct (Hcl j rj Hj Hrj) as [[-> Hnil]|[Hjo Hrj']]; [rewrite Hnil in Hin; by apply not_elem_of_nil in Hin|].
        right; left. by exists j, rj.
    + intros k r Hko Hr. destruct (Hinv k r Hr) as [[-> ->]|[Hne Hr']]; [simpl; split; [f_equal; lia|lia]|].
      rewrite Ho in Hko. apply elem_of_cons in Hko as [?|?]; [done|]. by apply (pe_node _ _ _ P k).
    + intros k r Hko Hr Hkd. destruct (Hinv k r Hr) as [[-> ->]|[Hne Hr']]; [done|].
      rewrite Ho in Hko. apply elem_of_cons in Hko as [?|?]; [done|]. by apply (pe_settled _ _ _ P k).
    + intros k Hkd. destruct (pe_deferred _ _ _ P _ Hkd) as (Hko & r & Hr & ?). rewrite Ho, elem_of_cons. split; [by right|].
      exists r. rewrite Hk by congruence. done.
    + intros k r c' Hko Hr Hin. destruct (Hcl k r Hko Hr) as [[-> Hnil]|[Hko' Hr']]; [rewrite Hnil in Hin; by apply not_elem_of_nil in Hin|].
      destruct (pe_child _ _ _ P _ _ _ Hko' Hr' Hin) as (? & qc & ? & ?).
      assert (c' ≠ c) by (intros ->; by apply (Hno k r)). rewrite Ho, not_elem_of_cons. split; [done|].
      exists qc. by rewrite Hk.
    + by intros c' ?%not_elem_of_nil.
    + intros j k q1 q2 c' Hj Hko H1 H2 Hin1 Hin2.
      destruct (Hcl j q1 Hj H1) as [[-> Hnil]|[Hj' H1']]; [rewrite Hnil in Hin1; by apply not_elem_of_nil in Hin1|].
      destruct (Hcl k q2 Hko H2) as [[-> Hnil]|[Hk' H2']]; [rewrite Hnil in Hin2; by apply not_elem_of_nil in Hin2|].
      by eapply (pe_family _ _ _ P).
    + intros k r Hko Hr. destruct (Hcl k r Hko Hr) as [[-> ->]|[Hk' Hr']]; [apply NoDup_nil_2|by apply (pe_children _ _ _ P k)].
    + rewrite Hi, Ho. f_equiv. apply P.
    + split_and!; [rewrite Ho; apply NoDup_cons; split; [done|apply P]|apply P|apply NoDup_nil_2].
    + done.
  - apply msum_same. intros k. change (ranges σ' !! k) with (get_range σ' k). change (ranges σ !! k) with (get_range σ k).
    destruct (decide (k = c)) as [->|]; [by rewrite Hc, Hq|]. by rewrite Hk.
  - intros x pg. split.
    + intros (k & r & [[-> ->]|[_ Hr]]%Hinv & ?); [by exists c, q|by exists k, r].
    + intros (k & r & Hr & Hl & ?). destruct (decide (k = c)) as [->|Hne].
      * rewrite Hq in Hr. injection Hr as <-. by exists c, (linked q).
      * exists k, r. by rewrite Hk.
Qed.

(** A range with no children leaves the tables, and is freed. *)
Lemma leave_pend σ σ' id r : pend σ (Some id) [] → id ∈ objects σ → get_range σ id = Some r → dying r → child_list r = [] →
  get_range σ' id = None → (∀ k, k ≠ id → get_range σ' k = get_range σ k) →
  range_ids σ' = list_del_id id (range_ids σ) → objects σ' = list_del_id id (objects σ) →
  deferred_range_list σ = id :: deferred_range_list σ' → svm_next σ' = svm_next σ →
  pend σ' None [] ∧ heap_pages σ' = heap_pages σ - range_pages r ∧ ∀ x pg, shows σ' x pg ↔ shows σ x pg.
Proof.
  intros P Hid Hr Hdy Hcl Hr' Hk Hi Ho Hd Hn.
  assert (Hinv : ∀ k q, get_range σ' k = Some q → k ≠ id ∧ get_range σ k = Some q).
  { intros k q Hq. destruct (decide (k = id)) as [->|Hne]; [congruence|]. by rewrite <- Hk. }
  assert (Hob : ∀ k, k ∈ objects σ' ↔ k ∈ objects σ ∧ k ≠ id) by (intros k; rewrite Ho; apply elem_of_list_del_id).
  destruct (pe_nodup _ _ _ P) as (Hnd1 & Hnd2 & _). rewrite Hd in Hnd2. apply NoDup_cons in Hnd2 as [Hidd Hnd2].
  split; [|split].
  - split.
    + intros k Hkn. destruct (get_range σ' k) as [q|] eqn:Hq; [|done]. apply Hinv in Hq as [_ Hq].
      apply (fresh_lt _ _ _ (pe_fresh _ _ _ P)) in Hq. lia.
    + intros k q (_ & Hq)%Hinv. by eapply (pe_range _ _ _ P).
    + intros x j k q1 q2 (_ & H1)%Hinv (_ & H2)%Hinv. by eapply (pe_disjoint _ _ _ P).
    + intros k. split.
      * intros [q (Hne & Hq)%Hinv]. destruct (proj1 (pe_dom _ _ _ P k)) as [?|[(j & rj & Hj & Hrj & Hin)|Hin]];
          [by eexists|left; by apply Hob| |by apply not_elem_of_nil in Hin].
        right; left. assert (j ≠ id) by (intros ->; rewrite Hr in Hrj; injection Hrj as <-; rewrite Hcl in Hin; by apply not_elem_of_nil in Hin).
        exists j, rj. rewrite Hob, Hk by done. done.
      * intros [[Hin Hne]%Hob|[(j & rj & [Hj Hjn]%Hob & (_ & Hrj)%Hinv & Hin)|Hin]]; [| |by apply not_elem_of_nil in Hin].
        { rewrite Hk by done. by apply (pend_deferred_dom _ _ _ _ P). }
        { destruct (pe_child _ _ _ P _ _ _ Hj Hrj Hin) as (? & qq & ? & _). rewrite Hk by congruence. by eexists. }
    + intros k q [Hko _]%Hob (_ & Hq)%Hinv. by apply (pe_node _ _ _ P k).
    + intros k q [Hko Hne]%Hob (_ & Hq)%Hinv Hkd. destruct (pe_settled _ _ _ P k q) as [H1 H2]; [done|done|rewrite Hd; set_solver|].
      split; [done|]. intros _. apply H2. congruence.
    + intros k Hkd. destruct (pe_deferred _ _ _ P k) as (Hko & q & Hq & ?); [rewrite Hd; by apply list_elem_of_further|].
      assert (k ≠ id) by congruence. split; [by apply Hob|]. exists q. by rewrite Hk.
    + intros k q c' [Hko Hne]%Hob (_ & Hq)%Hinv Hin. destruct (pe_child _ _ _ P _ _ _ Hko Hq Hin) as (Hc & qc & ? & ?).
      rewrite Hob. split; [naive_solver|]. exists qc. rewrite Hk by congruence. done.
    + by intros c' ?%not_elem_of_nil.
    + intros j k q1 q2 c' [Hj _]%Hob [Hko _]%Hob (_ & H1)%Hinv (_ & H2)%Hinv. by apply (pe_family _ _ _ P).
    + intros k q [Hko _]%Hob (_ & Hq)%Hinv. by apply (pe_children _ _ _ P k).
    + rewrite Hi, Ho. unfold list_del_id. by rewrite (pe_ids _ _ _ P).
    + split_and!; [rewrite Ho; by apply NoDup_filter|done|apply NoDup_nil_2].
    + unfold sorted. apply (sorted_agree σ).
      * intros k [Hko Hne]%Hob. by apply it_start_get, Hk.
      * rewrite Ho. apply StronglySorted_filter, P.
  - unfold heap_pages. assert (ranges σ' = delete id (ranges σ)) as ->; [|by apply msum_delete].
    apply map_eq. intros k. change (ranges σ' !! k) with (get_range σ' k).
    destruct (decide (k = id)) as [->|]; [by rewrite lookup_delete_eq|]. rewrite lookup_delete_ne by done. by apply Hk.
  - intros x pg. split.
    + intros (k & q & (_ & Hq)%Hinv & ?). by exists k, q.
    + intros (k & q & Hq & Hlive & ?). exists k, q. rewrite Hk; [done|]. intros ->. congruence.
Qed.

(** The node of a range with no children becomes what is left of the range. *)
Lemma settle_pend σ σ' id r : pend σ (Some id) [] → id ∈ objects σ → get_range σ id = Some r → ¬ dying r → child_list r = [] →
  get_range σ' id = Some (linked r) → (∀ k, k ≠ id → get_range σ' k = get_range σ k) →
  range_ids σ' = range_ids σ → objects σ' ≡ₚ objects σ →
  deferred_range_list σ = id :: deferred_range_list σ' → svm_next σ' = svm_next σ → sorted σ' →
  pend σ' None [] ∧ heap_pages σ' = heap_pages σ ∧ ∀ x pg, shows σ' x pg ↔ shows σ x pg.
Proof.
  intros P Hid Hr Hlive Hcl Hr' Hk Hi Ho Hd Hn Hs.
  assert (Hinv : ∀ k q, get_range σ' k = Some q → k = id ∧ q = linked r ∨ k ≠ id ∧ get_range σ k = Some q).
  { intros k q Hq. destruct (decide (k = id)) as [->|Hne]; [left; split; congruence|right]. by rewrite <- Hk. }
  assert (Hold : ∀ k q, get_range σ' k = Some q → ∃ q', get_range σ k = Some q' ∧ start q = start q' ∧ last q = last q' ∧
    child_list q = child_list q').
  { intros k q [[-> ->]|[_ Hq]]%Hinv; [by exists r|by exists q]. }
  assert (Hnew : ∀ k q, get_range σ k = Some q → ∃ q', get_range σ' k = Some q' ∧ child_list q' = child_list q).
  { intros k q Hq. destruct (decide (k = id)) as [->|Hne]; [rewrite Hr in Hq; injection Hq as <-; by eexists|].
    exists q. by rewrite Hk. }
  destruct (pe_nodup _ _ _ P) as (Hnd1 & Hnd2 & _). rewrite Hd in Hnd2. apply NoDup_cons in Hnd2 as [Hidd Hnd2].
  destruct (pe_range _ _ _ P _ _ Hr) as (Hok & Ht & Hb). pose proof (rg_npages _ Hok). pose proof (rg_bounds _ Hok).
  split; [|split].
  - split.
    + intros k Hkn. rewrite Hk; [apply (pe_fresh _ _ _ P); lia|]. intros ->. apply (fresh_lt _ _ _ (pe_fresh _ _ _ P)) in Hr. lia.
    + intros k q [[-> ->]|[_ Hq]]%Hinv; [|by eapply (pe_range _ _ _ P)]. by split_and!; [destruct Hok|..].
    + intros x j k q1 q2 (q1' & H1 & S1 & L1 & _)%Hold (q2' & H2 & S2 & L2 & _)%Hold. unfold covers. rewrite S1, L1, S2, L2.
      by apply (pe_disjoint _ _ _ P).
    + intros k. assert (is_Some (get_range σ' k) ↔ is_Some (get_range σ k)) as ->.
      { split; intros [q Hq]; [destruct (Hold k q Hq) as (? & ? & _)|destruct (Hnew k q Hq) as (? & ? & _)]; by eexists. }
      rewrite (pe_dom _ _ _ P). setoid_rewrite Ho.
      split; (intros [?|[(j & rj & Hj & Hrj & Hin)|?]]; [by left| |by auto]); right; left.
      * destruct (Hnew j rj Hrj) as (q' & ? & Heq). exists j, q'. by rewrite Heq.
      * destruct (Hold j rj Hrj) as (q' & ? & _ & _ & Heq). rewrite Heq in Hin. by exists j, q'.
    + intros k q. rewrite Ho. intros Hko [[-> ->]|[Hne Hq]]%Hinv; [simpl; split; [f_equal; lia|lia]|by apply (pe_node _ _ _ P k)].
    + intros k q. rewrite Ho. intros Hko [[-> ->]|[Hne Hq]]%Hinv Hkd; [done|].
      destruct (pe_settled _ _ _ P k q) as [H1 H2]; [done|done|rewrite Hd; set_solver|]. split; [done|]. intros _. apply H2. congruence.
    + intros k Hkd. destruct (pe_deferred _ _ _ P k) as (Hko & q & Hq & ?); [rewrite Hd; by apply list_elem_of_further|].
      rewrite Ho. split; [done|]. exists q. rewrite Hk by congruence. done.
    + intros k q c'. rewrite Ho. intros Hko [[-> ->]|[Hne Hq]]%Hinv Hin; [simpl in Hin; rewrite Hcl in Hin; by apply not_elem_of_nil in Hin|].
      destruct (pe_child _ _ _ P _ _ _ Hko Hq Hin) as (Hc & qc & ? & ?). split; [done|]. exists qc. rewrite Hk by congruence. done.
    + by intros c' ?%not_elem_of_nil.
    + intros j k q1 q2 c'. rewrite !Ho. intros Hj Hko (q1' & H1 & _ & _ & ->)%Hold (q2' & H2 & _ & _ & ->)%Hold.
      by apply (pe_family _ _ _ P).
    + intros k q. rewrite Ho. intros Hko (q' & Hq & _ & _ & ->)%Hold. by apply (pe_children _ _ _ P k).
    + rewrite Hi, Ho. apply P.
    + split_and!; [by rewrite Ho|done|apply NoDup_nil_2].
    + done.
  - apply msum_same. intros k. change (ranges σ' !! k) with (get_range σ' k). change (ranges σ !! k) with (get_range σ k).
    destruct (decide (k = id)) as [->|]; [by rewrite Hr', Hr|]. by rewrite Hk.
  - intros x pg. split.
    + intros (k & q & [[-> ->]|[_ Hq]]%Hinv & ?); [by exists id, r|by exists k, q].
    + intros (k & q & Hq & ?). destruct (decide (k = id)) as [->|Hne].
      * rewrite Hr in Hq. injection Hq as <-. by exists id, (linked r).
      * exists k, q. by rewrite Hk.
Qed.

(** ** The work for a range *)

(** [id] is at the head of the list while it is worked on. *)
Definition at_work (id : nat) (σ : svm_range_list) : svm_range_list := σ <| deferred_range_list ::= cons id |>.

(** System memory beyond what all ranges are charged for. *)
Definition account (σ : svm_range_list) : Z := system_mem_used σ - charge σ (heap_pages σ).

(** What a step of the work keeps. *)
Record worked (σ σ' : svm_range_list) : Prop := {
  wk_xnack : xnack_enabled σ' = xnack_enabled σ;
  wk_supported : bitmap_supported σ' = bitmap_supported σ;
  wk_account : account σ' = account σ;
  wk_shows x pg : shows σ' x pg ↔ shows σ x pg;
}.
#[global] Instance worked_refl : Reflexive worked.
Proof. by intros σ. Qed.
#[global] Instance worked_trans : Transitive worked.
Proof.
  intros a b c [A1 A2 A3 A4] [B1 B2 B3 B4]. split; [congruence..|]. intros x pg. by rewrite B4.
Qed.

Lemma charge_conf σ σ' z : xnack_enabled σ' = xnack_enabled σ → charge σ' z = charge σ z.
Proof. unfold charge. by intros ->. Qed.

(** A freed range gives back what it was charged. *)
Lemma account_free σ σ' r : xnack_enabled σ' = xnack_enabled σ → heap_pages σ' = heap_pages σ - range_pages r →
  system_mem_used σ' = system_mem_used σ - charge σ (last r - start r + 1) → account σ' = account σ.
Proof.
  intros Hx Hp Hm. unfold account. rewrite (charge_conf _ _ _ Hx), Hp, Hm. unfold range_pages.
  unfold charge. destruct (xnack_enabled σ); [lia|]. rewrite !Z.shiftl_mul_pow2 by (unfold PAGE_SHIFT; lia). lia.
Qed.

Lemma account_same σ σ' : xnack_enabled σ' = xnack_enabled σ → heap_pages σ' = heap_pages σ →
  system_mem_used σ' = system_mem_used σ → account σ' = account σ.
Proof. intros Hx Hp Hm. unfold account. by rewrite (charge_conf _ _ _ Hx), Hp, Hm. Qed.

Lemma handle_piece σ id c q : pend (at_work id σ) (Some id) [c] → get_range σ c = Some q → dying q ∨ work_op q = SVM_OP_ADD_RANGE →
  ∃ σ', svm_range_handle_list_op σ c = Some σ' ∧ pend (at_work id σ') (Some id) [] ∧ worked σ σ' ∧
    deferred_range_list σ' = deferred_range_list σ ∧ (∀ k, k ≠ c → get_range σ' k = get_range σ k) ∧
    ∀ k, k ∈ objects σ → k ∈ objects σ'.
Proof.
  intros P Hq Hop. destruct (pe_range _ _ _ P _ _ Hq) as (Hok & Ht & Hb).
  destruct (pe_orphan _ _ _ P c (list_elem_of_here _ _)) as (Hco & k0 & r0 & q0 & [= <-] & Hr0 & Hq0 & [_ (Hit & _ & _)] & _).
  assert (q0 = q) as -> by (change (get_range σ c = Some q0) in Hq0; congruence).
  assert (Hci : c ∉ range_ids σ).
  { pose proof (pe_ids _ _ _ P) as HP. change (range_ids σ ≡ₚ objects σ) in HP. by rewrite HP. }
  unfold svm_range_handle_list_op. rewrite Hq. cbn [mbind option_bind]. destruct Hop as [Hdy|Hop].
  - unfold dying in Hdy. rewrite Hdy. unfold svm_range_unlink. rewrite Hq. cbn [mbind option_bind]. rewrite Hb, Hit.
    cbn [mbind option_bind fst snd]. change (nz 0) with false. cbn [andb]. cbv iota.
    match goal with |- context [svm_range_free ?s c true] => set (σ1 := s) end.
    rewrite (free_spec σ1 c q true Hq Ht). eexists. split; [reflexivity|].
    match goal with |- pend (at_work _ ?s) _ _ ∧ _ => set (σ' := s) end.
    assert (Hk : ∀ k, k ≠ c → get_range σ' k = get_range σ k) by (intros k Hne; by apply lookup_delete_ne).
    destruct (delete_pend (at_work id σ) (at_work id σ') id c q P Hq Hdy) as (P' & Hpg & Hsh); try done.
    { apply lookup_delete_eq. } { by apply list_del_id_notin. }
    split; [done|]. split; [|done]. split; try done. by apply (account_free _ _ q).
  - rewrite Hop. destruct (link_spec σ c q Hq Hco Hci) as (σ' & Hl & (R1 & R2 & R3 & R4 & R5) & Hm & Ho & Hi & Hc & Hk & Hs).
    { apply P. }
    fold (link σ c). rewrite Hl. exists σ'. split; [done|].
    destruct (enter_pend (at_work id σ) (at_work id σ') id c q P Hq) as (P' & Hpg & Hsh); try done.
    { unfold dying. by rewrite Hop. } { simpl. by rewrite R2. }
    split; [done|]. split; [split; try done; by apply account_same|]. split_and!; try done.
    intros k Hko. rewrite Ho. by apply list_elem_of_further.
Qed.

(** The children of a range. *)
Lemma handle_children_spec id cs : ∀ σ r, pend (at_work id σ) (Some id) [] → id ∈ objects σ → get_range σ id = Some r →
  child_list r = cs →
  ∃ σ', handle_children σ id cs = Some σ' ∧ pend (at_work id σ') (Some id) [] ∧ worked σ σ' ∧
    deferred_range_list σ' = deferred_range_list σ ∧ id ∈ objects σ' ∧
    get_range σ' id = Some (r <| child_list := [] |>).
Proof.
  induction cs as [|c cs IH]; intros σ r P Hid Hr Hcl; cbn [handle_children].
  { exists σ. split_and!; try done. rewrite Hr. f_equal. destruct r. simpl in *. by subst. }
  rewrite Hr. cbn [mbind option_bind]. set (σ1 := put_range σ id (r <| child_list := cs |>)).
  assert (Hk1 : ∀ k, k ≠ id → get_range σ1 k = get_range σ k) by (intros k Hk; by apply get_put_ne).
  assert (Hr1 : get_range σ1 id = Some (r <| child_list := cs |>)) by apply get_put_eq.
  destruct (pop_pend (at_work id σ) (at_work id σ1) id r c cs P Hid Hr Hcl) as (P1 & Hpg1 & Hsh1); try done.
  assert (W1 : worked σ σ1) by (split; try done; by apply account_same).
  assert (Hc : c ∈ child_list r) by (rewrite Hcl; apply list_elem_of_here).
  destruct (pe_child _ _ _ P _ _ _ Hid Hr Hc) as (Hco & q & Hq & _ & Hop).
  assert (Hne : c ≠ id) by (intros ->; done).
  destruct (handle_piece σ1 id c q P1) as (σ2 & -> & P2 & W2 & Hd2 & Hk2 & Ho2); [by rewrite Hk1|done|].
  cbn [mbind option_bind].
  destruct (IH σ2 (r <| child_list := cs |>) P2) as (σ3 & -> & P3 & W3 & Hd3 & Hid3 & Hr3); [by apply Ho2|by rewrite Hk2|done|].
  exists σ3. split; [done|]. split; [done|]. split; [by transitivity σ1; [|transitivity σ2]|]. split; [by rewrite Hd3, Hd2|done].
Qed.

(** The range itself. *)
Lemma handle_self σ id r : pend (at_work id σ) (Some id) [] → id ∈ objects σ → get_range σ id = Some r → child_list r = [] →
  dying r ∨ work_op r = SVM_OP_UPDATE_RANGE_NOTIFIER →
  ∃ σ', svm_range_handle_list_op σ id = Some σ' ∧ pend σ' None [] ∧ worked σ σ' ∧
    deferred_range_list σ' = deferred_range_list σ.
Proof.
  intros P Hid Hr Hcl Hop. destruct (pe_range _ _ _ P _ _ Hr) as (Hok & Ht & Hb).
  pose proof (rg_bounds _ Hok) as Hbr. pose proof (rg_npages _ Hok) as Hnp.
  destruct (pe_node _ _ _ P _ _ Hid Hr) as (Hno & Hn1 & Hn2 & Hn3).
  unfold svm_range_handle_list_op. rewrite Hr. cbn [mbind option_bind]. destruct Hop as [Hdy|Hop].
  - unfold dying in Hdy. rewrite Hdy.
    destruct (drop_spec true σ id r Hr Ht Hb) as (σ' & Hdr & (R1 & R2 & R3 & R4 & R5) & Ho & Hi & Hg & Hm); [lia..|].
    fold (drop true σ id). rewrite Hdr. exists σ'. split; [done|].
    assert (Hk : ∀ k, k ≠ id → get_range σ' k = get_range σ k).
    { intros k Hk. rewrite Hg, decide_False; [done|]. by rewrite list_elem_of_singleton. }
    destruct (leave_pend (at_work id σ) σ' id r P Hid Hr Hdy Hcl) as (P' & Hpg & Hsh); try done.
    { rewrite Hg, decide_True; [done|apply list_elem_of_here]. } { simpl. by rewrite R2. }
    split; [done|]. split; [|done]. split; try done. by apply (account_free _ _ r).
  - rewrite Hop. unfold svm_range_update_notifier_and_interval_tree. rewrite Hr. cbn [mbind option_bind]. rewrite Hno.
    assert (Hlive : ¬ dying r) by (unfold dying; by rewrite Hop).
    destruct (it_node r) as [a b] eqn:Hit. simpl in Hn1, Hn2, Hn3.
    destruct ((start r =? a) && (last r =? b)) eqn:Esame.
    + apply andb_true_iff in Esame as [Ha%Z.eqb_eq Hb'%Z.eqb_eq]. subst a b. exists σ. split; [done|]. split; [|done].
      assert (Hlr : linked r = r).
      { unfold linked. destruct r. simpl in *. subst. f_equal. f_equal. lia. }
      destruct (settle_pend (at_work id σ) σ id r P Hid Hr Hlive Hcl) as (P' & _ & _); try done; [by rewrite Hlr|apply P].
    + clear Esame. rewrite !(proj2 (nz_true _)) by lia. cbn [andb]. cbv iota.
      unfold svm_range_add_notifier_locked.
      match goal with |- context [get_range ?s id] => set (σ1 := s) end.
      assert (Hr1 : get_range σ1 id = Some (r <| it_node := (start r, last r) |>)) by apply get_put_eq.
      rewrite Hr1. cbn [mbind option_bind]. eexists. split; [reflexivity|].
      match goal with |- pend ?s _ _ ∧ _ => set (σ' := s) end.
      assert (Hk : ∀ k, k ≠ id → get_range σ' k = get_range σ k).
      { intros k Hk. unfold σ'. rewrite get_put_ne by done. by apply lookup_insert_ne. }
      assert (Hr' : get_range σ' id = Some (linked r)) by apply get_put_eq.
      assert (Hob : objects σ' = insert_node (put_range (interval_tree_remove σ id) id (r <| it_node := (start r, last r) |>)) id
        (list_del_id id (objects σ))) by done.
      assert (Hsort : sorted σ').
      { unfold sorted. rewrite Hob. eapply sorted_agree; [|apply insert_node_sorted].
        - intros k _. unfold it_start. destruct (decide (k = id)) as [->|Hne]; [by rewrite Hr', get_put_eq|].
          rewrite Hk, get_put_ne by done. done.
        - apply (sorted_agree σ); [|apply StronglySorted_filter, P]. intros k [_ Hne]%elem_of_list_del_id.
          apply it_start_get. by rewrite get_put_ne. }
      destruct (settle_pend (at_work id σ) σ' id r P Hid Hr Hlive Hcl) as (P' & Hpg & Hsh); try done.
      { rewrite Hob, insert_node_perm. apply list_del_id_perm; [apply P|done]. }
      split; [done|]. split; [|done]. split; try done. by apply account_same.
Qed.

Lemma deferred_range_spec σ id rest : pend σ None [] → deferred_range_list σ = id :: rest →
  ∃ σ', deferred_range σ id = Some σ' ∧ pend σ' None [] ∧ worked σ σ' ∧ deferred_range_list σ' = rest.
Proof.
  intros P Hd. assert (Hin : id ∈ deferred_range_list σ) by (rewrite Hd; apply list_elem_of_here).
  destruct (pe_deferred _ _ _ P id Hin) as (Hid & r & Hr & Hop).
  unfold deferred_range. rewrite Hr. cbn [mbind option_bind].
  destruct (pe_nodup _ _ _ P) as (_ & Hnd & _). rewrite Hd in Hnd. apply NoDup_cons in Hnd as [Hni _].
  match goal with |- context [handle_children ?s id _] => set (σ1 := s) end.
  assert (Hd1 : deferred_range_list σ1 = rest).
  { unfold σ1. simpl. rewrite Hd, list_del_id_cons, decide_True by done. by apply list_del_id_notin. }
  assert (Hwork : at_work id σ1 = σ).
  { unfold at_work, σ1. destruct σ. simpl in *. subst. unfold set_field. simpl.
    rewrite list_del_id_cons, decide_True, list_del_id_notin by done. done. }
  assert (P1 : pend (at_work id σ1) (Some id) []) by (rewrite Hwork; by apply pend_busy).
  destruct (handle_children_spec id (child_list r) σ1 r P1) as (σ2 & -> & P2 & W2 & Hd2 & Hid2 & Hr2); try done.
  cbn [mbind option_bind].
  destruct (handle_self σ2 id _ P2 Hid2 Hr2) as (σ3 & -> & P3 & W3 & Hd3); [done|done|].
  exists σ3. split; [done|]. split; [done|]. split; [|congruence].
  transitivity σ2; [|done]. destruct W2 as [A1 A2 A3 A4]. by split.
Qed.

(** The work ends, and no work is pending then. *)
Lemma deferred_loop_spec fuel : ∀ σ, pend σ None [] → (length (deferred_range_list σ) ≤ fuel)%nat →
  ∃ σ', deferred_loop fuel σ = Some σ' ∧ pend σ' None [] ∧ worked σ σ' ∧ deferred_range_list σ' = [].
Proof.
  induction fuel as [|fuel IH]; intros σ P Hlen; cbn [deferred_loop]; destruct (deferred_range_list σ) as [|id rest] eqn:Hd;
    try (by exists σ); [simpl in Hlen; lia|].
  destruct (deferred_range_spec σ id rest P Hd) as (σ1 & -> & P1 & W1 & Hd1). cbn [mbind option_bind].
  destruct (IH σ1 P1) as (σ2 & -> & P2 & W2 & Hd2); [rewrite Hd1; simpl in Hlen; lia|].
  exists σ2. split_and!; try done. by transitivity σ1.
Qed.

(** ** The state between requests *)

Lemma chain_of_sorted σ l : NoDup l → StronglySorted (by_start σ) l →
  (∀ k, k ∈ l → ∃ r, get_range σ k = Some r ∧ range_ok r ∧ it_node r = (start r, last r)) →
  (∀ x j k q r, get_range σ j = Some q → get_range σ k = Some r → covers q x → covers r x → j = k) →
  ∀ lo, (∀ k r, k ∈ l → get_range σ k = Some r → lo ≤ start r) → chain σ lo l.
Proof.
  intros Hnd Hs Hok Hdis. revert Hnd. induction Hs as [|a l Hs IH Ha]; intros Hnd lo Hlo; [done|].
  apply NoDup_cons in Hnd as [Hni Hnd]. destruct (Hok a (list_elem_of_here _ _)) as (r & Hr & Hokr & Hit).
  exists r. split_and!; [done|done|by apply (Hlo a); [apply list_elem_of_here|]|].
  apply IH; [intros k Hk; apply Hok; by apply list_elem_of_further|done|]. intros k q Hk Hq.
  destruct (Hok k (list_elem_of_further _ _ _ Hk)) as (q' & Hq' & Hokq & Hitq). rewrite Hq in Hq'. injection Hq' as <-.
  rewrite Forall_forall in Ha. specialize (Ha k Hk). unfold by_start, it_start in Ha. rewrite Hr, Hq in Ha. simpl in Ha.
  rewrite Hit, Hitq in Ha. simpl in Ha. pose proof (rg_bounds _ Hokr). pose proof (rg_bounds _ Hokq).
  destruct (decide (last r < start q)); [lia|]. exfalso. apply Hni.
  assert (a = k) as ->; [|done]. apply (Hdis (start q) a k r q Hr Hq); unfold covers; lia.
Qed.

Lemma pend_wf σ : pend σ None [] → deferred_range_list σ = [] → svm_wf σ.
Proof.
  intros P Hd.
  assert (Hset : ∀ k r, k ∈ objects σ → get_range σ k = Some r → ¬ dying r ∧ child_list r = [] ∧ it_node r = (start r, last r)).
  { intros k r Hk Hr. destruct (pe_settled _ _ _ P _ _ Hk Hr) as [? H]; [rewrite Hd; apply not_elem_of_nil|]. by destruct H. }
  assert (Hdom : ∀ k, is_Some (get_range σ k) ↔ k ∈ objects σ).
  { intros k. rewrite (pe_dom _ _ _ P). split; [|by left]. intros [?|[(j & r & Hj & Hr & Hin)|Hin]]; [done| |by apply not_elem_of_nil in Hin].
    destruct (Hset j r Hj Hr) as (_ & Hnil & _). rewrite Hnil in Hin. by apply not_elem_of_nil in Hin. }
  split; try apply P; try done.
  - apply chain_of_sorted; [apply P|apply P| |apply P|].
    + intros k Hk. destruct (pend_deferred_dom _ _ _ _ P Hk) as [r Hr]. exists r. split; [done|].
      split; [by eapply (pe_range _ _ _ P)|by apply (Hset k)].
    + intros k r Hk Hr. pose proof (rg_bounds _ (proj1 (pe_range _ _ _ P _ _ Hr))). lia.
  - intros k r Hr. assert (Hk : k ∈ objects σ) by (apply Hdom; by eexists).
    destruct (Hset k r Hk Hr) as (Hlive & Hnil & Hit). destruct (pe_range _ _ _ P _ _ Hr) as (Hok & Ht & Hb).
    destruct (pe_node _ _ _ P _ _ Hk Hr) as (Hno & _). split_and!; try done. congruence.
Qed.

Lemma wf_disjoint σ : svm_wf σ → ∀ x j k q r, get_range σ j = Some q → get_range σ k = Some r → covers q x → covers r x → j = k.
Proof.
  intros W x j k q r Hq Hr Hxq Hxr. assert (Hj : j ∈ objects σ) by (apply (wf_dom _ W); by eexists).
  assert (Hk : k ∈ objects σ) by (apply (wf_dom _ W); by eexists). pose proof (wf_chain _ W) as Hc. revert Hc Hj Hk.
  generalize 1 (objects σ). intros lo l. revert lo. induction l as [|i l IH]; intros lo; [by intros _ ?%not_elem_of_nil|].
  intros (p & Hp & Hok & Hlo & Hc). 
  assert (Hfar : ∀ m t, m ∈ l → get_range σ m = Some t → covers t x → covers p x → False).
  { intros m t Hm Ht Hxt Hxp. destruct (chain_get _ _ _ _ Hc Hm) as (t' & Ht' & _ & ?). rewrite Ht in Ht'. injection Ht' as <-.
    unfold covers in *. lia. }
  intros [->|Hj]%elem_of_cons [->|Hk]%elem_of_cons; [done| | |by eapply IH].
  - rewrite Hp in Hq. injection Hq as <-. by edestruct (Hfar k r).
  - rewrite Hp in Hr. injection Hr as <-. by edestruct (Hfar j q).
Qed.

(** Between requests the pages that show are those of the tables. *)
Lemma wf_shows σ : svm_wf σ → ∀ x pg, view σ x = Some pg ↔ shows σ x pg.
Proof.
  intros W x pg. assert (Hl : ∀ l, (∀ k, k ∈ l → k ∈ objects σ) →
    (pages as_is σ l x = Some pg ↔ ∃ k r, k ∈ l ∧ get_range σ k = Some r ∧ covers r x ∧ pg = page r x)).
  { induction l as [|i l IH]; intros Hl; simpl; [split; [done|]; by intros (k & r & ?%not_elem_of_nil & _)|].
    assert (IH' := IH (λ k Hk, Hl k (list_elem_of_further _ _ _ Hk))). clear IH.
    destruct (proj2 (wf_dom _ W i) (Hl i (list_elem_of_here _ _))) as [p Hp]. rewrite Hp. destruct (decide (covers p x)) as [Hx|Hx].
    - split; [intros [= <-]; exists i, p; split_and!; [apply list_elem_of_here|done..]|].
      intros (k & r & _ & Hr & Hxr & ->). assert (i = k) as <- by by eapply wf_disjoint. rewrite Hp in Hr. by injection Hr as <-.
    - rewrite IH'. split; intros (k & r & Hk & Hr & Hxr & ->); exists k, r.
      + split_and!; [by apply list_elem_of_further|done..].
      + apply elem_of_cons in Hk as [->|Hk]; [|done]. rewrite Hp in Hr. injection Hr as <-. done. }
  unfold view. rewrite Hl by done. unfold shows. split.
  - intros (k & r & _ & Hr & ?). exists k, r. split; [done|]. split; [|done].
    intros Hdy. destruct (wf_settled _ W k r Hr) as (_ & (_ & _ & _ & ?) & _). done.
  - intros (k & r & Hr & _ & ?). exists k, r. split; [|done]. apply (wf_dom _ W). by eexists.
Qed.

Lemma wf_pend σ : svm_wf σ → pend σ None [].
Proof.
  intros W. pose proof (wf_disjoint σ W) as Hdis.
  assert (Hset : ∀ k r, get_range σ k = Some r → settled r) by apply W.
  split.
  - apply W.
  - intros k r Hr. destruct (Hset k r Hr) as (Hok & (? & ? & _) & _). done.
  - done.
  - intros k. rewrite (wf_dom _ W). split; [by left|]. intros [?|[(j & r & Hj & Hr & Hin)|Hin]]; [done| |by apply not_elem_of_nil in Hin].
    destruct (Hset j r Hr) as (_ & (_ & _ & Hnil & _) & _). rewrite Hnil in Hin. by apply not_elem_of_nil in Hin.
  - intros k r _ Hr. destruct (Hset k r Hr) as (Hok & _ & Hit & Hno). rewrite Hit, Hno. simpl.
    pose proof (rg_bounds _ Hok). split; [done|lia].
  - intros k r _ Hr _. by destruct (Hset k r Hr) as (_ & (_ & _ & ? & ?) & ? & _).
  - rewrite (wf_idle _ W). by intros k ?%not_elem_of_nil.
  - intros k r c _ Hr Hin. destruct (Hset k r Hr) as (_ & (_ & _ & Hnil & _) & _). rewrite Hnil in Hin. by apply not_elem_of_nil in Hin.
  - by intros c ?%not_elem_of_nil.
  - intros j k q r c _ _ Hq _ Hin. destruct (Hset j q Hq) as (_ & (_ & _ & Hnil & _) & _). rewrite Hnil in Hin.
    by apply not_elem_of_nil in Hin.
  - intros k r _ Hr. destruct (Hset k r Hr) as (_ & (_ & _ & -> & _) & _). apply NoDup_nil_2.
  - apply W.
  - split_and!; [by eapply chain_NoDup, W|rewrite (wf_idle _ W); apply NoDup_nil_2|apply NoDup_nil_2].
  - eapply chain_sorted; [apply W|by apply wf_nodes_set].
Qed.

(** The account of all ranges is that of the tables. *)
Lemma total_heap σ l : NoDup l → (∀ k, is_Some (get_range σ k) ↔ k ∈ l) → total σ l = heap_pages σ.
Proof.
  intros Hnd. revert σ. induction Hnd as [|i l Hi Hnd IH]; intros σ Hdom; simpl.
  - unfold heap_pages. assert (ranges σ = ∅) as ->; [|by rewrite msum_empty]. apply map_eq. intros k. rewrite lookup_empty.
    change (get_range σ k = None). apply eq_None_not_Some. rewrite Hdom. apply not_elem_of_nil.
  - destruct (proj2 (Hdom i) (list_elem_of_here _ _)) as [r Hr]. rewrite Hr.
    set (σ' := σ <| ranges ::= delete i |>).
    assert (Hk : ∀ k, k ≠ i → get_range σ' k = get_range σ k) by (intros k Hk; by apply lookup_delete_ne).
    rewrite <- (total_delete σ σ' i l Hi Hk), (IH σ').
    + unfold heap_pages. change (ranges σ') with (delete i (ranges σ)). rewrite (msum_delete _ _ i r Hr).
      unfold range_pages. lia.
    + intros k. destruct (decide (k = i)) as [->|Hne].
      * split; [|done]. intros [q Hq]. exfalso. revert Hq. change (get_range σ' i) with (delete i (ranges σ) !! i). by rewrite lookup_delete_eq.
      * rewrite Hk, Hdom, elem_of_cons by done. naive_solver.
Qed.

Lemma wf_account σ : svm_wf σ → account σ = uncharged σ.
Proof. intros W. unfold account, uncharged. by rewrite (total_heap σ (objects σ) (chain_NoDup _ _ _ (wf_chain _ W)) (wf_dom _ W)). Qed.

(** The deferred work ends in such a state, and keeps every page that shows. *)
Lemma work_spec σ : pend σ None [] →
  ∃ σ', svm_range_deferred_list_work σ = Some σ' ∧ svm_wf σ' ∧ worked σ σ' ∧ ∀ x pg, view σ' x = Some pg ↔ shows σ x pg.
Proof.
  intros P. destruct (deferred_loop_spec (length (deferred_range_list σ)) σ P) as (σ' & Hl & P' & W & Hd); [done|].
  pose proof (pend_wf σ' P' Hd) as Hwf. exists σ'. split; [done|]. split; [done|]. split; [done|].
  intros x pg. rewrite wf_shows by done. apply W.
Qed.
