(* ===== verification/SvmSystem.v ===== *)
(** * Shared virtual memory: the address space of a process

    The requests of a process together: attributes are set, the CPU unmaps pages,
    deferred work runs, GPUs map ranges.  [space_of] reads the pages of a state, and
    [aspace_step] is what each request means for them. *)

From S2P Require Import Prelude Svm SvmProof SvmAdd SvmSet SvmUnmap SvmWork.
#[local] Open Scope Z_scope.
#[local] Open Scope list_scope.

(** ** Reading a state *)

Definition live (σ : svm_range_list) (k : nat) : bool :=
  match get_range σ k with Some r => negb (bool_decide (dying r)) | None => false end.
(** The page of an address in the ranges that are not about to be freed. *)
Definition space_of (σ : svm_range_list) (x : Z) : option svm_range :=
  pages as_is σ (filter (λ k, live σ k = true) (map_to_list (ranges σ)).*1) x.

Lemma pages_in σ l x pg :
  (∀ j k q r, get_range σ j = Some q → get_range σ k = Some r → covers q x → covers r x → j = k) →
  pages as_is σ l x = Some pg ↔ ∃ k r, k ∈ l ∧ get_range σ k = Some r ∧ covers r x ∧ pg = page r x.
Proof.
  intros Hdis. induction l as [|i l IH]; simpl; [split; [done|]; by intros (k & r & ?%not_elem_of_nil & _)|].
  destruct (get_range σ i) as [p|] eqn:Hp.
  - destruct (decide (covers p x)) as [Hx|Hx].
    + split; [intros [= <-]; exists i, p; split_and!; [apply list_elem_of_here|done..]|].
      intros (k & r & _ & Hr & Hxr & ->). assert (i = k) as <- by by eapply Hdis. rewrite Hp in Hr. by injection Hr as <-.
    + rewrite IH. split; intros (k & r & Hk & Hr & Hxr & ->); exists k, r.
      * split_and!; [by apply list_elem_of_further|done..].
      * apply elem_of_cons in Hk as [->|Hk]; [|done]. rewrite Hp in Hr. injection Hr as <-. done.
  - rewrite IH. split; intros (k & r & Hk & Hr & ?); exists k, r.
    + split; [by apply list_elem_of_further|done].
    + apply elem_of_cons in Hk as [->|Hk]; [congruence|done].
Qed.

Lemma space_of_shows σ : pend σ None [] → ∀ x pg, space_of σ x = Some pg ↔ shows σ x pg.
Proof.
  intros P x pg. unfold space_of. rewrite pages_in by (intros *; by apply (pe_disjoint _ _ _ P)).
  split.
  - intros (k & r & Hk & Hr & ?). exists k, r. split; [done|]. split; [|done].
    apply list_elem_of_filter in Hk as [Hl _]. unfold live in Hl. rewrite Hr in Hl. by apply negb_true_iff, bool_decide_eq_false in Hl.
  - intros (k & r & Hr & Hlive & ?). exists k, r. split; [|done]. apply list_elem_of_filter. unfold live. rewrite Hr.
    rewrite bool_decide_false by done. split; [done|]. apply list_elem_of_fmap. exists (k, r). split; [done|].
    by apply elem_of_map_to_list.
Qed.

(** Two states that show the same. *)
Lemma space_eq σ σ' x : pend σ None [] → pend σ' None [] → (∀ pg, shows σ' x pg ↔ shows σ x pg) → space_of σ' x = space_of σ x.
Proof.
  intros P P' H. apply option_eq. intros pg. by rewrite !space_of_shows.
Qed.

Lemma space_of_view σ : svm_wf σ → ∀ x, space_of σ x = view σ x.
Proof. intros W x. apply option_eq. intros pg. by rewrite space_of_shows, wf_shows by auto using wf_pend. Qed.

(** ** Requests *)

Inductive request :=
  | SetAttr (s size : Z) (attrs : list svm_attribute)
  | Unmap (s e : Z)
  | Work.

Definition request_ok (req : request) : Prop :=
  match req with SetAttr s size _ => 0 < s ∧ 0 < size | Unmap s e => s ≤ e | Work => True end.

Section System.
Context (LOCATION_SYSMEM LOCATION_UNDEFINED FLAG_HOST_ACCESS FLAG_COHERENT : Z).
Context (mem_ok : nat → bool) (no_system_mem_limit : bool) (max_system_mem_limit : Z).
Context (max_svm_range_pages : Z) (pdds : list (option Z)).
Abbreviation set_attr := (svm_range_set_attr LOCATION_SYSMEM LOCATION_UNDEFINED FLAG_HOST_ACCESS FLAG_COHERENT mem_ok
  no_system_mem_limit max_system_mem_limit max_svm_range_pages pdds).
Abbreviation munmap := (munmap LOCATION_UNDEFINED FLAG_HOST_ACCESS FLAG_COHERENT mem_ok
  no_system_mem_limit max_system_mem_limit pdds).
Abbreviation check_attr := (svm_range_check_attr LOCATION_SYSMEM LOCATION_UNDEFINED pdds).
Abbreviation plenty := (plenty mem_ok no_system_mem_limit).
Abbreviation max_pages_ok := (max_pages_ok max_svm_range_pages).

Definition svm_step (σ : svm_range_list) (req : request) : option svm_range_list :=
  match req with
  | SetAttr s size attrs => '(σ, _, _, _) ← set_attr 0 σ s size attrs; Some σ
  | Unmap s e => munmap σ s e
  | Work => svm_range_deferred_list_work σ
  end.
Fixpoint svm_run (σ : svm_range_list) (reqs : list request) : option svm_range_list :=
  match reqs with
  | [] => Some σ
  | req :: reqs => σ ← svm_step σ req; svm_run σ reqs
  end.

(** What a request means for the pages of a process. *)
Definition fresh_page (supported : Z) (xnack : bool) (x : Z) : svm_range :=
  page (new_range LOCATION_UNDEFINED FLAG_HOST_ACCESS FLAG_COHERENT pdds xnack supported x x) x.
Definition aspace_step (supported : Z) (xnack : bool) (A : Z → option svm_range) (req : request) : Z → option svm_range :=
  match req with
  | SetAttr s size attrs =>
      if nz (check_attr supported attrs) then A
      else λ x, if decide (s ≤ x ≤ s + size - 1)
                then Some (applied pdds xnack attrs (default (fresh_page supported xnack x) (A x))) else A x
  | Unmap s e => λ x, if decide (s ≤ x ≤ e) then None else A x
  | Work => A
  end.

(** Attributes are set in any state: the work that is pending is done first. *)
Lemma set_attr_flush σ σ1 s size attrs : pend σ None [] → svm_range_deferred_list_work σ = Some σ1 → svm_wf σ1 →
  bitmap_supported σ1 = bitmap_supported σ → check_attr (bitmap_supported σ) attrs = 0 →
  set_attr 0 σ s size attrs = set_attr 0 σ1 s size attrs.
Proof.
  intros P Hw W Hb Hck. unfold svm_range_set_attr. rewrite Hb, Hck, Hw, (idle_work σ1 W). done.
Qed.

Definition same_settings (σ σ' : svm_range_list) : Prop :=
  xnack_enabled σ' = xnack_enabled σ ∧ bitmap_supported σ' = bitmap_supported σ.
#[local] Instance same_settings_refl : Reflexive same_settings.
Proof. by intros σ. Qed.
#[local] Instance same_settings_trans : Transitive same_settings.
Proof. intros a b c [? ?] [? ?]. split; congruence. Qed.

Lemma set_attr_any σ s size attrs : pend σ None [] → max_pages_ok → 0 < s → 0 < size →
  ∃ σ' ls um rc, set_attr 0 σ s size attrs = Some (σ', ls, um, rc) ∧ pend σ' None [] ∧
    account σ' = account σ ∧ same_settings σ σ' ∧
    ((∀ x, space_of σ' x = aspace_step (bitmap_supported σ) (xnack_enabled σ) (space_of σ) (SetAttr s size attrs) x) ∨
     rc = -ENOMEM ∧ ¬ plenty ∧ ∀ x, space_of σ' x = space_of σ x).
Proof.
  intros P Hmax Hs Hsize. unfold aspace_step. destruct (nz (check_attr (bitmap_supported σ) attrs)) eqn:Hck.
  { unfold svm_range_set_attr. rewrite Hck. exists σ, no_lists, false, (check_attr (bitmap_supported σ) attrs).
    split_and!; try done. by left. }
  apply nz_false in Hck. destruct (work_spec σ P) as (σ1 & Hw & W & [X B A S] & Hv).
  rewrite (set_attr_flush σ σ1) by done.
  destruct (set_attr_spec LOCATION_SYSMEM LOCATION_UNDEFINED FLAG_HOST_ACCESS FLAG_COHERENT mem_ok no_system_mem_limit
    max_system_mem_limit max_svm_range_pages pdds σ1 s size attrs W Hmax Hs Hsize) as (σ2 & ls & um & rc & Heq & W2 & Hu & Hrc);
    [by rewrite B|].
  rewrite Heq. exists σ2, ls, um, rc. destruct Hrc as (Hset & Hrc).
  split; [done|]. pose proof (wf_pend _ W) as P1. pose proof (wf_pend _ W2) as P2. split; [done|].
  split; [by rewrite (wf_account σ2), Hu, <- wf_account, A by done|].
  split; [destruct Hset; split; congruence|].
  assert (Hview : ∀ x, view σ1 x = space_of σ x) by (intros x; apply option_eq; intros pg; by rewrite Hv, space_of_shows).
  destruct Hrc as [[-> Hreq]|(-> & Hno & Hun)]; [left|right; split; [done|]; split; [done|]]; intros x; rewrite space_of_view by done.
  - rewrite Hreq. unfold requested, default_page, fresh_page. by rewrite Hview, X, B.
  - destruct Hun as ((_ & Ho & _) & Hr & _). rewrite <- Hview. unfold view. rewrite Ho.
    apply pages_agree; [|done]. intros k _. unfold get_range. by rewrite Hr.
Qed.

Lemma munmap_any σ s e : (∀ k, mem_ok k = true) → pend σ None [] → s ≤ e →
  ∃ σ', munmap σ s e = Some σ' ∧ pend σ' None [] ∧ account σ' = account σ ∧ same_settings σ σ' ∧
    ∀ x, space_of σ' x = aspace_step (bitmap_supported σ) (xnack_enabled σ) (space_of σ) (Unmap s e) x.
Proof.
  intros Hmem P Hse.
  destruct (munmap_spec LOCATION_UNDEFINED FLAG_HOST_ACCESS FLAG_COHERENT mem_ok no_system_mem_limit max_system_mem_limit pdds
    Hmem σ s e P Hse) as (σ' & -> & P' & (L1 & L2 & L3 & L4 & L5 & L6) & Hsh).
  exists σ'. split_and!; try done; [by apply account_same|]. intros x. apply option_eq. intros pg.
  rewrite space_of_shows, Hsh, <- space_of_shows by done. simpl. destruct (decide (s ≤ x ≤ e)); naive_solver.
Qed.

Lemma work_any σ : pend σ None [] →
  ∃ σ', svm_range_deferred_list_work σ = Some σ' ∧ svm_wf σ' ∧ account σ' = account σ ∧ same_settings σ σ' ∧
    ∀ x, space_of σ' x = space_of σ x.
Proof.
  intros P. destruct (work_spec σ P) as (σ' & Hw & W & [X B A S] & Hv). exists σ'. split_and!; try done.
  intros x. rewrite space_of_view by done. apply option_eq. intros pg. by rewrite Hv, space_of_shows.
Qed.

Lemma init_pend supported xnack mem_used : pend (svm_range_list_init supported xnack mem_used) None [].
Proof.
  apply wf_pend. split; try done.
  intros k. split; [by intros [? ?]|by intros ?%not_elem_of_nil].
Qed.

(** ** Reachable states *)

(** The effect of [svm_range_validate_and_map] on a range, for any addresses. *)
Definition mapped_range (r : svm_range) (arrays : list (option (list Z))) (mapped : bool) : svm_range :=
  (r <| dma_addr := arrays |>) <| mapped_to_gpu := mapped |>.

Inductive svm_reachable (supported : Z) (xnack : bool) (mem_used : Z) : svm_range_list → Prop :=
  | svm_init : svm_reachable supported xnack mem_used (svm_range_list_init supported xnack mem_used)
  | svm_request σ req σ' : svm_reachable supported xnack mem_used σ → request_ok req → svm_step σ req = Some σ' →
      svm_reachable supported xnack mem_used σ'
  | svm_map σ id r arrays mapped : svm_reachable supported xnack mem_used σ → get_range σ id = Some r →
      Forall (λ a, ∀ l, a = Some l → Z.of_nat (length l) = npages r) arrays →
      svm_reachable supported xnack mem_used (put_range σ id (mapped_range r arrays mapped)).

Lemma map_pend σ id r arrays mapped : pend σ None [] → get_range σ id = Some r →
  Forall (λ a, ∀ l, a = Some l → Z.of_nat (length l) = npages r) arrays →
  pend (put_range σ id (mapped_range r arrays mapped)) None [] ∧
  account (put_range σ id (mapped_range r arrays mapped)) = account σ.
Proof.
  intros P Hr Harr. set (σ' := put_range σ id (mapped_range r arrays mapped)).
  set (f := λ (k : nat) (q : svm_range), if decide (k = id) then if decide (npages q = npages r) then mapped_range q arrays mapped else q else q).
  assert (Hg : ∀ k, get_range σ' k = f k <$> get_range σ k).
  { intros k. unfold f. destruct (decide (k = id)) as [->|Hne].
    - unfold σ'. rewrite get_put_eq, Hr. simpl. by rewrite decide_True by done.
    - unfold σ'. rewrite get_put_ne by done. by destruct (get_range σ k). }
  assert (Hf : ∀ k q, place (f k q) = place q ∧ (range_ok q → range_ok (f k q))).
  { intros k q. unfold f. split; [by repeat destruct (decide _)|]. intros Hok. destruct (decide (k = id)); [|done]. destruct (decide (npages q = npages r)) as [Hn|]; [|done].
    destruct Hok as [H1 H2 H3 H4 H5 H6]. split; try done. simpl. by rewrite Hn. }
  split; [|by apply account_same; [|apply (relabel_pages σ σ' f Hg Hf)|]].
  apply (relabel_links σ σ' None f); try done. intros k q. unfold f. by repeat destruct (decide _).
Qed.

Lemma reachable_pend supported xnack mem_used σ : (∀ k, mem_ok k = true) → max_pages_ok →
  svm_reachable supported xnack mem_used σ →
  pend σ None [] ∧ account σ = mem_used ∧ xnack_enabled σ = xnack ∧ bitmap_supported σ = supported.
Proof.
  intros Hmem Hmax. induction 1 as [|σ req σ' _ (P & A & X & B) Hreq Hstep|σ id r arrays mapped _ (P & A & X & B) Hr Harr].
  - split; [apply init_pend|]. split; [|done]. unfold account, heap_pages. simpl. rewrite msum_empty, charge_0. lia.
  - destruct req as [s size attrs|s e|]; simpl in Hstep, Hreq.
    + destruct (set_attr_any σ s size attrs P Hmax) as (σ2 & ls & um & rc & Heq & P2 & A2 & [X2 B2] & _); [apply Hreq..|].
      rewrite Heq in Hstep. simpl in Hstep. injection Hstep as <-. split; [done|]. split_and!; congruence.
    + destruct (munmap_any σ s e Hmem P Hreq) as (σ2 & Heq & P2 & A2 & [X2 B2] & _). rewrite Heq in Hstep. injection Hstep as <-.
      split; [done|]. split_and!; congruence.
    + destruct (work_any σ P) as (σ2 & Heq & W2 & A2 & [X2 B2] & _). rewrite Heq in Hstep. injection Hstep as <-.
      split; [by apply wf_pend|]. split_and!; congruence.
  - destruct (map_pend σ id r arrays mapped P Hr Harr) as [P' A']. split; [done|]. split; [congruence|done].
Qed.

Lemma aspace_step_ext supported xnack A B req : (∀ x, A x = B x) →
  ∀ x, aspace_step supported xnack A req x = aspace_step supported xnack B req x.
Proof. intros H x. destruct req; simpl; [destruct (nz _)|..]; rewrite ?H; done. Qed.

Lemma aspace_run_ext supported xnack reqs : ∀ A B, (∀ x, A x = B x) →
  ∀ x, fold_left (aspace_step supported xnack) reqs A x = fold_left (aspace_step supported xnack) reqs B x.
Proof.
  induction reqs as [|req reqs IH]; intros A B H x; simpl; [done|]. apply IH. by apply aspace_step_ext.
Qed.

Lemma step_any σ req : plenty → max_pages_ok → pend σ None [] → request_ok req →
  ∃ σ', svm_step σ req = Some σ' ∧ pend σ' None [] ∧ same_settings σ σ' ∧
    ∀ x, space_of σ' x = aspace_step (bitmap_supported σ) (xnack_enabled σ) (space_of σ) req x.
Proof.
  intros Hplenty Hmax P Hreq. destruct req as [s size attrs|s e|]; simpl svm_step; simpl in Hreq.
  - destruct (set_attr_any σ s size attrs P Hmax) as (σ' & ls & um & rc & -> & P' & _ & Hset & Hrc); [apply Hreq..|].
    exists σ'. split_and!; try done. by destruct Hrc as [?|(_ & ? & _)].
  - destruct (munmap_any σ s e (proj1 Hplenty) P Hreq) as (σ' & -> & P' & _ & Hset & Hsp). by exists σ'.
  - destruct (work_any σ P) as (σ' & -> & W & _ & Hset & Hsp). exists σ'. split_and!; try done. by apply wf_pend.
Qed.
End System.
