(* ===== verification/SvmRead.v ===== *)
(** * Shared virtual memory: reading attributes back

    What a list of attributes sets, said without running it ([latest]); what
    [svm_range_get_attr] gathers from ranges that agree; and the answers it fills in. *)

From S2P Require Import Prelude Svm SvmProof.
#[local] Open Scope Z_scope.
#[local] Open Scope list_scope.

#[export] Instance svm_attr_type_eq_dec : EqDecision svm_attr_type.
Proof. solve_decision. Defined.

(** ** What a request sets *)

(** What the last attribute of the list that sets something sets. *)
Definition latest {A} (f : svm_attribute → option A) (attrs : list svm_attribute) : option A :=
  foldl (λ o a, match f a with Some x => Some x | None => o end) None attrs.

Definition sets_value (t : svm_attr_type) (a : svm_attribute) : option Z :=
  if decide (attr_type a = t) then Some (value a) else None.
(** The bit [k] of the flags. *)
Definition sets_flag (k : Z) (a : svm_attribute) : option bool :=
  match attr_type a with
  | ATTR_SET_FLAGS => if Z.testbit (value a) k then Some true else None
  | ATTR_CLR_FLAGS => if Z.testbit (value a) k then Some false else None
  | _ => None
  end.

Definition access_type (t : svm_attr_type) : bool :=
  match t with ATTR_ACCESS | ATTR_ACCESS_IN_PLACE | ATTR_NO_ACCESS => true | _ => false end.

Lemma latest_from {A} (f : svm_attribute → option A) attrs o :
  foldl (λ o a, match f a with Some x => Some x | None => o end) o attrs =
  match latest f attrs with Some x => Some x | None => o end.
Proof.
  unfold latest. revert o. induction attrs as [|a attrs IH]; intros o; [done|]. simpl.
  rewrite IH, (IH (match f a with Some _ => _ | None => None end)).
  destruct (foldl _ None attrs); [done|]. by destruct (f a).
Qed.

Lemma latest_cons {A} (f : svm_attribute → option A) a attrs :
  latest f (a :: attrs) = match latest f attrs with Some x => Some x | None => f a end.
Proof. unfold latest at 1. simpl. rewrite latest_from. by destruct (f a). Qed.

Lemma latest_in {A} (f : svm_attribute → option A) attrs x :
  latest f attrs = Some x → ∃ a, a ∈ attrs ∧ f a = Some x.
Proof.
  induction attrs as [|a attrs IH]; [done|]. rewrite latest_cons.
  destruct (latest f attrs) as [y|] eqn:Hl.
  - intros [= ->]. destruct (IH eq_refl) as (b & Hb & Hx). exists b. split; [by right|done].
  - intros Hx. exists a. split; [left|done].
Qed.

Section Read.
Context (LOCATION_SYSMEM LOCATION_UNDEFINED FLAG_HOST_ACCESS FLAG_COHERENT : Z).
Context (pdds : list (option Z)).
Abbreviation gpuidx := (kfd_process_gpuidx_from_gpuid pdds).
Abbreviation check_attr := (svm_range_check_attr LOCATION_SYSMEM LOCATION_UNDEFINED pdds).
Abbreviation check_one := (check_one LOCATION_SYSMEM LOCATION_UNDEFINED pdds).
Abbreviation gather := (gather LOCATION_UNDEFINED).

(** How the GPU of index [i] may access the pages. *)
Definition sets_access (i : Z) (a : svm_attribute) : option svm_attr_type :=
  if access_type (attr_type a) && (gpuidx (value a) =? i) then Some (attr_type a) else None.

(** [b] is an answer to the query [a] that reads back what [attrs] set. *)
Definition read_back (attrs : list svm_attribute) (a b : svm_attribute) : Prop :=
  match attr_type a with
  | ATTR_PREFERRED_LOC | ATTR_PREFETCH_LOC =>
      attr_type b = attr_type a ∧
      ∀ v, latest (sets_value (attr_type a)) attrs = Some v → value b = v
  | ATTR_GRANULARITY =>
      attr_type b = ATTR_GRANULARITY ∧
      ∀ n, latest (sets_value ATTR_GRANULARITY) attrs = Some n → value b = Z.min n 0x3f
  | ATTR_ACCESS =>
      value b = value a ∧
      ∀ t, latest (sets_access (gpuidx (value a))) attrs = Some t → attr_type b = t
  | ATTR_SET_FLAGS =>
      attr_type b = ATTR_SET_FLAGS ∧
      ∀ k v, 0 ≤ k < 32 → latest (sets_flag k) attrs = Some v → Z.testbit (value b) k = v
  | ATTR_CLR_FLAGS =>
      attr_type b = ATTR_CLR_FLAGS ∧
      ∀ k v, 0 ≤ k < 32 → latest (sets_flag k) attrs = Some v → Z.testbit (value b) k = negb v
  | _ => False
  end.

(** ** The attributes of a range after the request *)

Lemma applied_latest {A} (f : svm_attribute → option A) (P : A → svm_range → Prop) xnack attrs x r :
  (∀ a y r, a ∈ attrs → f a = Some y → P y (apply_one pdds xnack r a).1) →
  (∀ a y r, a ∈ attrs → f a = None → P y r → P y (apply_one pdds xnack r a).1) →
  latest f attrs = Some x → P x (applied pdds xnack attrs r).
Proof.
  intros Hs Hn. assert (Hkeep : ∀ r, match latest f attrs with
    | Some y => P y (applied pdds xnack attrs r)
    | None => ∀ y, P y r → P y (applied pdds xnack attrs r) end); [|intros Hl; specialize (Hkeep r); by rewrite Hl in Hkeep].
  clear r x. induction attrs as [|a attrs IH]; intros r; [by intros y|]. rewrite latest_cons, applied_cons.
  assert (IH' := IH (λ b y r Hb, Hs b y r (list_elem_of_further _ _ _ Hb))
    (λ b y r Hb, Hn b y r (list_elem_of_further _ _ _ Hb)) (apply_one pdds xnack r a).1). clear IH.
  destruct (latest f attrs) as [y|]; [done|]. destruct (f a) as [y|] eqn:Ha.
  - apply IH', (Hs a y r (list_elem_of_here _ _) Ha).
  - intros y Hy. apply IH', (Hn a y r (list_elem_of_here _ _) Ha Hy).
Qed.

Lemma applied_preferred xnack attrs r v :
  latest (sets_value ATTR_PREFERRED_LOC) attrs = Some v → preferred_loc (applied pdds xnack attrs r) = v.
Proof.
  apply (applied_latest (sets_value ATTR_PREFERRED_LOC) (λ v r, preferred_loc r = v));
    intros [t w] y r0 _; unfold sets_value, apply_one; simpl; destruct (decide _); try done;
    [by intros [= <-]; subst|]; by destruct t.
Qed.

Lemma applied_prefetch xnack attrs r v :
  latest (sets_value ATTR_PREFETCH_LOC) attrs = Some v → prefetch_loc (applied pdds xnack attrs r) = v.
Proof.
  apply (applied_latest (sets_value ATTR_PREFETCH_LOC) (λ v r, prefetch_loc r = v));
    intros [t w] y r0 _; unfold sets_value, apply_one; simpl; destruct (decide _); try done;
    [by intros [= <-]; subst|]; by destruct t.
Qed.

Lemma applied_granularity xnack attrs r n :
  latest (sets_value ATTR_GRANULARITY) attrs = Some n → granularity (applied pdds xnack attrs r) = Z.min n 0x3f.
Proof.
  apply (applied_latest (sets_value ATTR_GRANULARITY) (λ n r, granularity r = Z.min n 0x3f));
    intros [t w] y r0 _; unfold sets_value, apply_one; simpl; destruct (decide _); try done;
    [by intros [= <-]; subst|]; by destruct t.
Qed.

Lemma applied_flag xnack attrs r k v :
  latest (sets_flag k) attrs = Some v → Z.testbit (flags (applied pdds xnack attrs r)) k = v.
Proof.
  apply (applied_latest (sets_flag k) (λ v r, Z.testbit (flags r) k = v));
    intros [t w] y r0 _; unfold sets_flag, apply_one; destruct t; simpl; try done;
    rewrite ?Z.lor_spec, ?Z.ldiff_spec; destruct (Z.testbit w k); try done; simpl.
  - intros [= <-]. apply orb_true_r.
  - intros [= <-]. apply andb_false_r.
  - intros _. by rewrite orb_false_r.
  - intros _. by rewrite andb_true_r.
Qed.

(** The access of the GPU [i] in a range: the bits of the two bitmaps. *)
Definition access_bits (t : svm_attr_type) : bool * bool :=
  match t with
  | ATTR_ACCESS => (true, false)
  | ATTR_ACCESS_IN_PLACE => (false, true)
  | _ => (false, false)
  end.

Lemma check_attr_in supported attrs a :
  check_attr supported attrs = 0 → a ∈ attrs → check_one supported a = 0.
Proof.
  induction attrs as [|b attrs IH]; simpl; [by intros _ ?%not_elem_of_nil|].
  destruct (nz (check_one supported b)) eqn:Hb; [apply nz_true in Hb; by intros ?|]. apply nz_false in Hb.
  intros Hck [->|Hin]%elem_of_cons; [done|by apply IH].
Qed.

Lemma gpuidx_bound gpu : 0 ≤ gpuidx gpu → gpuidx gpu < Z.of_nat (length pdds).
Proof.
  unfold kfd_process_gpuidx_from_gpuid. destruct (list_find _ _) as [[i x]|] eqn:Hf.
  - apply list_find_Some in Hf as (Hi & _). apply lookup_lt_Some in Hi. lia.
  - done.
Qed.

Lemma check_access supported a :
  check_one supported a = 0 → access_type (attr_type a) = true →
  Z.of_nat (length pdds) ≤ MAX_GPU_INSTANCE →
  0 ≤ gpuidx (value a) ∧ test_bit (gpuidx (value a)) supported = true.
Proof.
  intros Hck Ht Hlen. unfold Svm.check_one in Hck.
  assert (Hck' : (if gpuidx (value a) <? 0 then -EINVAL
    else if (gpuidx (value a) <? MAX_GPU_INSTANCE) && negb (test_bit (gpuidx (value a)) supported) then -EINVAL
    else 0) = 0) by (by destruct (attr_type a)). clear Hck.
  destruct (Z.ltb_spec (gpuidx (value a)) 0); [done|]. split; [done|].
  assert ((gpuidx (value a) <? MAX_GPU_INSTANCE) = true) as Hlt.
  { apply Z.ltb_lt. pose proof (gpuidx_bound (value a)). lia. }
  rewrite Hlt in Hck'. cbn [andb] in Hck'. by destruct (test_bit _ supported).
Qed.

Lemma applied_access supported xnack attrs r i t :
  check_attr supported attrs = 0 → Z.of_nat (length pdds) ≤ MAX_GPU_INSTANCE →
  latest (sets_access i) attrs = Some t →
  (test_bit i (bitmap_access (applied pdds xnack attrs r)), test_bit i (bitmap_aip (applied pdds xnack attrs r)))
  = access_bits t.
Proof.
  intros Hck Hlen.
  apply (applied_latest (sets_access i) (λ t r,
    (test_bit i (bitmap_access r), test_bit i (bitmap_aip r)) = access_bits t)); intros a y r0 Ha;
    assert (Hc := λ Ht, check_access supported a (check_attr_in _ _ _ Hck Ha) Ht Hlen);
    destruct a as [ty w]; unfold sets_access, apply_one, test_bit in *; destruct ty; simpl in *; try done;
    destruct (Hc eq_refl) as [Hi _]; destruct (Z.eqb_spec (gpuidx w) i); try done;
    rewrite ?clear_bit_spec, ?set_bit_spec by done.
  1-3: intros [= <-]; subst i; by rewrite Z.eqb_refl, ?andb_false_r.
  all: intros _; rewrite !(proj2 (Z.eqb_neq _ _)) by done; simpl; by rewrite ?andb_true_r.
Qed.

(** An access that was set is that of a GPU that exists and is supported. *)
Lemma latest_access_supported supported attrs i t :
  check_attr supported attrs = 0 → Z.of_nat (length pdds) ≤ MAX_GPU_INSTANCE →
  latest (sets_access i) attrs = Some t → access_type t = true ∧ test_bit i supported = true.
Proof.
  intros Hck Hlen Hl. destruct (latest_in _ _ _ Hl) as (a & Ha & Hs). unfold sets_access in Hs.
  destruct (access_type (attr_type a)) eqn:Ht; [|done]. destruct (Z.eqb_spec (gpuidx (value a)) i); [|done].
  simpl in Hs. injection Hs as <-. subst i. split; [done|].
  apply check_access; [by eapply check_attr_in|done..].
Qed.

(** ** What the ranges give *)

Lemma gather_fields qs g r :
  let g' := gather qs g r in
  (g_location g', get_preferred_loc g') =
    gather_loc LOCATION_UNDEFINED (g_location g) (get_preferred_loc g) (preferred_loc r) ∧
  (g_prefetch_loc g', get_prefetch_loc g') =
    gather_loc LOCATION_UNDEFINED (g_prefetch_loc g) (get_prefetch_loc g) (prefetch_loc r) ∧
  (asks ATTR_ACCESS qs = true → g_access g' = Z.land (g_access g) (bitmap_access r) ∧
     g_aip g' = Z.land (g_aip g) (bitmap_aip r)) ∧
  (asks ATTR_SET_FLAGS qs = true → flags_and g' = Z.land (flags_and g) (flags r) ∧
     flags_or g' = Z.lor (flags_or g) (flags r)) ∧
  (asks ATTR_GRANULARITY qs = true → g_granularity g' = Z.min (granularity r) (g_granularity g)).
Proof.
  unfold Svm.gather.
  destruct (gather_loc LOCATION_UNDEFINED (g_location g) _ _) as [l1 b1].
  destruct g as [loc gl pf gp ac ai fa fo gr]. simpl.
  destruct (gather_loc LOCATION_UNDEFINED pf gp _) as [l2 b2]. simpl.
  destruct (asks ATTR_ACCESS qs), (asks ATTR_SET_FLAGS qs), (asks ATTR_GRANULARITY qs); simpl;
    try (destruct (Z.ltb_spec (granularity r) gr)); simpl; split_and!; try done; intros; lia.
Qed.

(** The location, after ranges that all have [p]. *)
Definition loc_seen (p : Z) (lg : Z * bool) : Prop :=
  lg.1 = p ∧ (lg.2 = true ∨ p = LOCATION_UNDEFINED).
Lemma gather_loc_seen p lg :
  lg = (LOCATION_UNDEFINED, true) ∨ loc_seen p lg →
  loc_seen p (gather_loc LOCATION_UNDEFINED lg.1 lg.2 p).
Proof.
  destruct lg as [l b]. unfold loc_seen, gather_loc. simpl.
  destruct (Z.eqb_spec p LOCATION_UNDEFINED) as [->|Hp].
  - intros [[= -> ->]|[-> [-> | _]]]; simpl; auto. destruct b; simpl; auto.
  - intros [[= -> ->]|[-> [-> | ?]]]; [| |done]; rewrite ?Z.eqb_refl; simpl; rewrite ?andb_false_r; auto.
Qed.

(** What each range of a list shows, and the state before and after them. *)
Lemma gather_ind (B A : gathered → Prop) (R : svm_range → Prop) qs rs :
  (∀ g r, R r → B g ∨ A g → A (gather qs g r)) →
  (∀ r, r ∈ rs → R r) → rs ≠ [] → ∀ g, B g → A (foldl (gather qs) g rs).
Proof.
  intros Hstep. assert (Hall : ∀ rs g, (∀ r, r ∈ rs → R r) → A g → A (foldl (gather qs) g rs)).
  { clear rs. induction rs as [|r rs IH]; intros g Hrs Hg; [done|]. simpl. apply IH.
    - intros r' Hr'. apply Hrs. by right.
    - apply Hstep; [apply Hrs; left|by right]. }
  destruct rs as [|r rs]; [done|]. intros Hrs _ g Hg. simpl. apply Hall.
  - intros r' Hr'. apply Hrs. by right.
  - apply Hstep; [apply Hrs; left|by left].
Qed.

Lemma gather_preferred qs rs p g :
  (∀ r, r ∈ rs → preferred_loc r = p) → rs ≠ [] →
  g_location g = LOCATION_UNDEFINED → get_preferred_loc g = true →
  g_location (foldl (gather qs) g rs) = p.
Proof.
  intros Hrs Hne H1 H2.
  apply (gather_ind (λ g, (g_location g, get_preferred_loc g) = (LOCATION_UNDEFINED, true))
    (λ g, loc_seen p (g_location g, get_preferred_loc g)) (λ r, preferred_loc r = p) qs rs); try done;
    [|by rewrite H1, H2].
  intros g0 r <- Hg. destruct (gather_fields qs g0 r) as (-> & _). by apply (gather_loc_seen _ (_, _)).
Qed.

Lemma gather_prefetch qs rs p g :
  (∀ r, r ∈ rs → prefetch_loc r = p) → rs ≠ [] →
  g_prefetch_loc g = LOCATION_UNDEFINED → get_prefetch_loc g = true →
  g_prefetch_loc (foldl (gather qs) g rs) = p.
Proof.
  intros Hrs Hne H1 H2.
  apply (gather_ind (λ g, (g_prefetch_loc g, get_prefetch_loc g) = (LOCATION_UNDEFINED, true))
    (λ g, loc_seen p (g_prefetch_loc g, get_prefetch_loc g)) (λ r, prefetch_loc r = p) qs rs); try done;
    [|by rewrite H1, H2].
  intros g0 r <- Hg. destruct (gather_fields qs g0 r) as (_ & -> & _). by apply (gather_loc_seen _ (_, _)).
Qed.

Lemma gather_granularity qs rs n g :
  asks ATTR_GRANULARITY qs = true → (∀ r, r ∈ rs → granularity r = n) → rs ≠ [] →
  n ≤ g_granularity g → g_granularity (foldl (gather qs) g rs) = n.
Proof.
  intros Hq Hrs Hne Hn.
  apply (gather_ind (λ g, n ≤ g_granularity g) (λ g, g_granularity g = n) (λ r, granularity r = n) qs rs); try done.
  intros g0 r Hr Hg. destruct (gather_fields qs g0 r) as (_ & _ & _ & _ & Hmin). rewrite Hmin by done. lia.
Qed.

Lemma gather_access qs rs i ba bp g :
  asks ATTR_ACCESS qs = true →
  (∀ r, r ∈ rs → (test_bit i (bitmap_access r), test_bit i (bitmap_aip r)) = (ba, bp)) → rs ≠ [] →
  test_bit i (g_access g) = true → test_bit i (g_aip g) = true →
  let g' := foldl (gather qs) g rs in test_bit i (g_access g') = ba ∧ test_bit i (g_aip g') = bp.
Proof.
  intros Hq Hrs Hne H1 H2.
  apply (gather_ind (λ g, test_bit i (g_access g) = true ∧ test_bit i (g_aip g) = true)
    (λ g, test_bit i (g_access g) = ba ∧ test_bit i (g_aip g) = bp)
    (λ r, (test_bit i (bitmap_access r), test_bit i (bitmap_aip r)) = (ba, bp)) qs rs); try done.
  intros g0 r [= Hra Hrp] Hg. destruct (gather_fields qs g0 r) as (_ & _ & Ha & _).
  destruct (Ha Hq) as [-> ->]. unfold test_bit in *. rewrite !Z.land_spec, Hra, Hrp.
  destruct Hg as [[-> ->]|[-> ->]]; [done|]. by rewrite !andb_diag.
Qed.

Lemma gather_flags qs rs k v g :
  asks ATTR_SET_FLAGS qs = true → (∀ r, r ∈ rs → Z.testbit (flags r) k = v) → rs ≠ [] →
  Z.testbit (flags_and g) k = true → Z.testbit (flags_or g) k = false →
  let g' := foldl (gather qs) g rs in Z.testbit (flags_and g') k = v ∧ Z.testbit (flags_or g') k = v.
Proof.
  intros Hq Hrs Hne H1 H2.
  apply (gather_ind (λ g, Z.testbit (flags_and g) k = true ∧ Z.testbit (flags_or g) k = false)
    (λ g, Z.testbit (flags_and g) k = v ∧ Z.testbit (flags_or g) k = v)
    (λ r, Z.testbit (flags r) k = v) qs rs); try done.
  intros g0 r Hr Hg. destruct (gather_fields qs g0 r) as (_ & _ & _ & Hf & _).
  destruct (Hf Hq) as [-> ->]. rewrite Z.land_spec, Z.lor_spec, Hr.
  destruct Hg as [[-> ->]|[-> ->]]; [by destruct v|]. by rewrite andb_diag, orb_diag.
Qed.

(** ** What is filled in *)

Definition filled (g : gathered) (a : svm_attribute) : svm_attribute :=
  match attr_type a with
  | ATTR_PREFERRED_LOC => a <| value := g_location g |>
  | ATTR_PREFETCH_LOC => a <| value := g_prefetch_loc g |>
  | ATTR_ACCESS =>
      a <| attr_type := if test_bit (gpuidx (value a)) (g_access g) then ATTR_ACCESS
                        else if test_bit (gpuidx (value a)) (g_aip g) then ATTR_ACCESS_IN_PLACE
                        else ATTR_NO_ACCESS |>
  | ATTR_SET_FLAGS => a <| value := flags_and g |>
  | ATTR_CLR_FLAGS => a <| value := u32 (Z.lnot (flags_or g)) |>
  | ATTR_GRANULARITY => a <| value := g_granularity g |>
  | _ => a
  end.

Lemma fill_values_all g qs :
  (∀ a, a ∈ qs → attr_type a = ATTR_ACCESS → 0 ≤ gpuidx (value a)) →
  fill_values pdds g qs = (filled g <$> qs, 0).
Proof.
  induction qs as [|a qs IH]; intros Hq; [done|]. cbn [fill_values]. rewrite fmap_cons.
  rewrite IH by (intros b Hb; apply Hq; by right).
  specialize (Hq a (list_elem_of_here _ _)).
  generalize (filled g <$> qs). intros l. unfold filled. destruct (attr_type a); try done. by rewrite (proj2 (Z.ltb_ge _ _)) by auto.
Qed.

Lemma asks_in t qs a : a ∈ qs → attr_type a = t →
  match t with
  | ATTR_PREFERRED_LOC | ATTR_PREFETCH_LOC | ATTR_ACCESS | ATTR_GRANULARITY => asks t qs = true
  | ATTR_SET_FLAGS | ATTR_CLR_FLAGS => asks ATTR_SET_FLAGS qs = true
  | _ => True
  end.
Proof.
  intros Ha <-. unfold asks. destruct (attr_type a) eqn:Ht; try done; apply existsb_exists;
    exists a; (split; [by apply list_elem_of_In|by rewrite Ht]).
Qed.

(** Ranges that all show the attributes of the request. *)
Definition shows_request (attrs : list svm_attribute) (r : svm_range) : Prop :=
  ∃ xnack r0, let r1 := applied pdds xnack attrs r0 in
    preferred_loc r = preferred_loc r1 ∧ prefetch_loc r = prefetch_loc r1 ∧
    granularity r = granularity r1 ∧ flags r = flags r1 ∧
    bitmap_access r = bitmap_access r1 ∧ bitmap_aip r = bitmap_aip r1.

(** What is gathered before any range is looked at. *)
Definition gather_start (supported : Z) (qs : list svm_attribute) : gathered :=
  mk_gathered LOCATION_UNDEFINED (asks ATTR_PREFERRED_LOC qs) LOCATION_UNDEFINED (asks ATTR_PREFETCH_LOC qs)
    supported supported 0xffffffff 0 0xff.

Lemma gathered_read_back supported attrs qs rs a :
  check_attr supported attrs = 0 → Z.of_nat (length pdds) ≤ MAX_GPU_INSTANCE →
  (∀ r, r ∈ rs → shows_request attrs r) → rs ≠ [] →
  a ∈ qs → gettable (attr_type a) = true →
  read_back attrs a (filled (foldl (gather qs) (gather_start supported qs) rs) a).
Proof.
  intros Hck Hlen Hrs Hne Ha Hget. pose proof (asks_in _ qs a Ha eq_refl) as Hasks.
  set (g := foldl _ _ _). unfold read_back, filled. destruct (attr_type a) eqn:Ht; try done; simpl.
  - split; [done|]. intros v Hv. apply gather_preferred; try done.
    intros r Hr. destruct (Hrs r Hr) as (xn & r0 & -> & _). by apply applied_preferred.
  - split; [done|]. intros v Hv. apply gather_prefetch; try done.
    intros r Hr. destruct (Hrs r Hr) as (xn & r0 & _ & -> & _). by apply applied_prefetch.
  - split; [done|]. intros t Hl. set (i := gpuidx (value a)) in *.
    destruct (latest_access_supported supported attrs i t Hck Hlen Hl) as [Htt Hsup].
    destruct (gather_access qs rs i (access_bits t).1 (access_bits t).2 (gather_start supported qs)) as [H1 H2]; try done.
    { intros r Hr. destruct (Hrs r Hr) as (xn & r0 & _ & _ & _ & _ & -> & ->).
      rewrite <- surjective_pairing. by eapply applied_access. }
    fold g in H1, H2. rewrite H1, H2. by destruct t.
  - split; [done|]. intros k v Hk Hv.
    destruct (gather_flags qs rs k v (gather_start supported qs)) as [H1 _]; try done.
    + intros r Hr. destruct (Hrs r Hr) as (xn & r0 & _ & _ & _ & -> & _). by apply applied_flag.
    + simpl. change 0xffffffff with (Z.ones 32). apply Z.ones_spec_low. lia.
    + apply Z.bits_0.
  - split; [done|]. intros k v Hk Hv.
    destruct (gather_flags qs rs k v (gather_start supported qs)) as [_ H2]; try done.
    + intros r Hr. destruct (Hrs r Hr) as (xn & r0 & _ & _ & _ & -> & _). by apply applied_flag.
    + simpl. change 0xffffffff with (Z.ones 32). apply Z.ones_spec_low. lia.
    + apply Z.bits_0.
    + unfold wrap. rewrite Z.mod_pow2_bits_low by lia. rewrite Z.lnot_spec by lia. unfold g. by rewrite H2.
  - split; [done|]. intros n Hn. apply gather_granularity; try done; [|simpl; lia].
    intros r Hr. destruct (Hrs r Hr) as (xn & r0 & _ & _ & -> & _). by apply applied_granularity.
Qed.
End Read.
