(* ===== verification/SvmClaims.v ===== *)
(** * Shared virtual memory: what the requests guarantee

    Theorems about every reachable state: the requests do to the pages of a process
    what [aspace_step] says, ranges, tables and the memory account agree, failed
    requests change nothing, attributes that were set are read back.

    The states are those that requests for pages from 1 on reach before anything is
    migrated: no range is in video memory.  [svm_failed_add_dangles] shows what a failed
    request leaves behind when one is. *)

From S2P Require Import Prelude Svm SvmProof SvmAdd SvmSet SvmUnmap SvmWork SvmSystem SvmRead.
#[local] Open Scope Z_scope.
#[local] Open Scope list_scope.

Section Claims.
Context (LOCATION_SYSMEM LOCATION_UNDEFINED FLAG_HOST_ACCESS FLAG_COHERENT : Z).
Context (no_system_mem_limit : bool) (max_system_mem_limit : Z).
Context (max_svm_range_pages : Z) (pdds : list (option Z)).
(** Memory can always be had, though the limit for it may be reached, or not always. *)
Definition ample (k : nat) : bool := true.
Abbreviation set_attr mem_ok := (svm_range_set_attr LOCATION_SYSMEM LOCATION_UNDEFINED FLAG_HOST_ACCESS FLAG_COHERENT mem_ok
  no_system_mem_limit max_system_mem_limit max_svm_range_pages pdds).
Abbreviation get_attr := (svm_range_get_attr LOCATION_UNDEFINED FLAG_HOST_ACCESS FLAG_COHERENT pdds).
Abbreviation check_attr := (svm_range_check_attr LOCATION_SYSMEM LOCATION_UNDEFINED pdds).
Abbreviation split mem_ok := (svm_range_split LOCATION_UNDEFINED FLAG_HOST_ACCESS FLAG_COHERENT mem_ok
  no_system_mem_limit max_system_mem_limit pdds).
Abbreviation run limit := (svm_run LOCATION_SYSMEM LOCATION_UNDEFINED FLAG_HOST_ACCESS FLAG_COHERENT ample
  limit max_system_mem_limit max_svm_range_pages pdds).
Abbreviation astep := (aspace_step LOCATION_SYSMEM LOCATION_UNDEFINED FLAG_HOST_ACCESS FLAG_COHERENT pdds).
Abbreviation reachable limit := (svm_reachable LOCATION_SYSMEM LOCATION_UNDEFINED FLAG_HOST_ACCESS FLAG_COHERENT ample
  limit max_system_mem_limit max_svm_range_pages pdds).

Lemma ample_ok : ∀ k, ample k = true.
Proof. done. Qed.

Lemma run_any reqs : ∀ σ, max_pages_ok max_svm_range_pages → pend σ None [] → Forall request_ok reqs →
  ∃ σ', run true σ reqs = Some σ' ∧
    ∀ x, space_of σ' x = fold_left (astep (bitmap_supported σ) (xnack_enabled σ)) reqs (space_of σ) x.
Proof.
  induction reqs as [|req reqs IH]; intros σ Hmax P Hreqs; cbn [svm_run]; [by exists σ|].
  apply Forall_cons in Hreqs as [Hreq Hreqs].
  destruct (step_any LOCATION_SYSMEM LOCATION_UNDEFINED FLAG_HOST_ACCESS FLAG_COHERENT ample true max_system_mem_limit
    max_svm_range_pages pdds σ req) as (σ1 & -> & P1 & [X1 B1] & Hsp1); try done.
  cbn [mbind option_bind]. destruct (IH σ1 Hmax P1 Hreqs) as (σ2 & -> & Hsp2). exists σ2. split; [done|].
  intros x. rewrite Hsp2, X1, B1. simpl. by apply aspace_run_ext.
Qed.

(** C12. With enough memory, every sequence of requests that set attributes, unmap pages
    and run deferred work, for pages from 1 on, in any order and from any reachable state,
    runs to its end (no pointer is null), and the pages are then what the requests mean one after the
    other: attributes are applied to exactly the pages of the request, pages that had
    none start from the defaults, unmapped pages are gone, deferred work changes none.
    (A range of page 0 is excluded: [svm_range_unlink] takes a start of 0 for a node that
    is in no tree.) *)
Theorem svm_requests_refine supported xnack mem_used σ reqs : max_pages_ok max_svm_range_pages →
  reachable true supported xnack mem_used σ → Forall request_ok reqs →
  ∃ σ', run true σ reqs = Some σ' ∧ ∀ x, space_of σ' x = fold_left (astep supported xnack) reqs (space_of σ) x.
Proof.
  intros Hmax Hre Hreqs. apply reachable_pend in Hre as (P & _ & <- & <-); [|done..]. by apply run_any.
Qed.

(** C13. In every reachable state, also when the limit for memory was reached, no page is
    in two ranges, every range that exists is in the tables or waits as a child of one
    that is, the list and the tree hold the same ranges, the tree in order, and the
    memory account is what it was plus the size of all ranges (nothing with XNACK).
    Requests are for pages from 1 on, and nothing is migrated. *)
Theorem svm_state_consistent supported xnack mem_used σ : max_pages_ok max_svm_range_pages →
  reachable no_system_mem_limit supported xnack mem_used σ →
  (∀ x j k q r, get_range σ j = Some q → get_range σ k = Some r → covers q x → covers r x → j = k) ∧
  (∀ k r, get_range σ k = Some r → range_ok r ∧
     (k ∈ objects σ ∨ ∃ j p, j ∈ objects σ ∧ get_range σ j = Some p ∧ k ∈ child_list p)) ∧
  range_ids σ ≡ₚ objects σ ∧ NoDup (objects σ) ∧ sorted σ ∧
  system_mem_used σ = mem_used + if xnack then 0 else Z.shiftl (heap_pages σ) PAGE_SHIFT.
Proof.
  intros Hmax Hre. apply reachable_pend in Hre as (P & A & <- & _); [|done..].
  split; [apply P|]. split.
  - intros k r Hr. split; [by eapply (pe_range _ _ _ P)|].
    destruct (proj1 (pe_dom _ _ _ P k)) as [?|[?|?%not_elem_of_nil]]; [by eexists|by left|by right|done].
  - split_and!; try apply P. unfold account, charge in A. lia.
Qed.

(** C14. A request to set attributes that fails before it downgrades its lock, because of
    its attributes, its addresses, an allocation for ranges at any point or the limit for
    memory, leaves every range, the tables and the memory account as they are once the
    pending work is done, or does nothing at all.  The request is for pages from 1 on and
    no range is in video memory; what fails in migration and mapping, after the lock was
    downgraded, may leave a request half done and is not modelled. *)
Theorem svm_set_attr_all_or_nothing supported xnack mem_used mem_ok valid σ s size attrs σ' ls um rc :
  max_pages_ok max_svm_range_pages → reachable no_system_mem_limit supported xnack mem_used σ → 0 < s → 0 < size →
  set_attr mem_ok valid σ s size attrs = Some (σ', ls, um, rc) → rc ≠ 0 →
  σ' = σ ∨ ∃ σ1, svm_range_deferred_list_work σ = Some σ1 ∧ untouched σ1 σ'.
Proof.
  intros Hmax Hre Hs Hsize Heq Hrc. apply reachable_pend in Hre as (P & _ & _ & _); [|done..].
  destruct (work_spec σ P) as (σ1 & Hw & W & [X B A S] & _).
  destruct (nz (check_attr (bitmap_supported σ) attrs)) eqn:Hck.
  { unfold svm_range_set_attr in Heq. rewrite Hck in Heq. left. by simplify_eq. }
  right. exists σ1. split; [done|]. destruct (nz valid) eqn:Hval.
  { unfold svm_range_set_attr in Heq. rewrite Hck, Hw in Heq. cbn [mbind option_bind] in Heq. rewrite Hval in Heq. by simplify_eq. }
  apply nz_false in Hck, Hval as ->. rewrite (set_attr_flush _ _ _ _ _ _ _ _ _ σ σ1) in Heq by done.
  destruct (set_attr_spec LOCATION_SYSMEM LOCATION_UNDEFINED FLAG_HOST_ACCESS FLAG_COHERENT mem_ok no_system_mem_limit
    max_system_mem_limit max_svm_range_pages pdds σ1 s size attrs W Hmax Hs Hsize) as (σ2 & ls2 & um2 & rc2 & Heq2 & _ & _ & _ & Hc);
    [by rewrite B|].
  rewrite Heq in Heq2. simplify_eq. by destruct Hc as [[? _]|(_ & _ & ?)].
Qed.

(** C15. A split of a range into a first or last part and the rest succeeds or fails for
    lack of memory; it keeps every page of the range, its attributes, its addresses on
    each GPU and its place in video memory, changes no other range, and the piece shares
    the buffer in video memory. *)
Theorem svm_split_exact mem_ok σ id r s' l' new0 :
  get_range σ id = Some r → get_range σ (svm_next σ) = None → range_ok r →
  s' ≤ l' → (start r = s' ∧ l' < last r ∨ start r < s' ∧ l' = last r) →
  (in_vram r = true → ∃ b, svm_bo r = Some b ∧ is_Some (bos σ !! b)) →
  ∃ σ' rc new, split mem_ok σ id s' l' new0 = Some (σ', rc, new) ∧
    (∀ k, k ≠ id → k ≠ svm_next σ → get_range σ' k = get_range σ k) ∧
    (rc = 0 ∧ new = Some (svm_next σ) ∧ (∃ o n, get_range σ' id = Some o ∧ get_range σ' (svm_next σ) = Some n ∧
       start o = s' ∧ last o = l' ∧ range_ok o ∧ range_ok n ∧
       (∀ x, covers r x ↔ covers o x ∨ covers n x) ∧
       ∀ x, (covers o x → page o x = page r x) ∧ (covers n x → page n x = page r x)) ∨
     rc = -ENOMEM ∧ new = None ∧ ¬ ∀ k, mem_ok k = true).
Proof.
  intros Hr Hf Hok Hle Hs Hv.
  destruct (split_spec LOCATION_UNDEFINED FLAG_HOST_ACCESS FLAG_COHERENT mem_ok no_system_mem_limit max_system_mem_limit
    pdds σ id r s' l' new0 Hr Hf Hok) as (σ' & rc & new & Hsp & _ & _ & _ & Hch & Hc); [done|done|].
  exists σ', rc, new. split; [done|]. split; [done|]. destruct Hc as [(-> & -> & _ & (o & n & Ho & Hn & S) & _)|(-> & -> & Hno & _)];
    [left|by right]. split; [done|]. split; [done|]. exists o, n. destruct (sp_o _ _ _ _ _ S) as [Ho1 Ho2].
  pose proof (sp_n _ _ _ _ _ S) as Hn12. split_and!; try done; try apply S.
  - intros x. unfold covers. destruct (Z.eqb_spec (start r) s'); lia.
  - intros x. split; apply S.
Qed.

(** C40. A callback for an unmapping that has to split a range, when there is no memory
    for the new one, follows a null pointer: the results of [svm_range_split] are not
    looked at. *)
Theorem svm_unmap_no_memory mem_ok σ parent id r s e : get_range σ id = Some r → work_op r ≠ SVM_OP_UNMAP_RANGE →
  s ≤ last r → start r ≤ e → start r < s ∨ e < last r → start r ≤ last r → mem_ok (asked σ) = false →
  svm_range_unmap_split LOCATION_UNDEFINED FLAG_HOST_ACCESS FLAG_COHERENT mem_ok no_system_mem_limit max_system_mem_limit pdds
    σ parent id s e = None.
Proof.
  intros Hr Hop H1 H2 Hcut Hle Hmem. unfold svm_range_unmap_split. rewrite Hr. cbn [mbind option_bind].
  rewrite bool_decide_false by done. rewrite !(proj2 (Z.ltb_ge _ _)) by lia. cbn [orb].
  assert (Hfail : ∀ s' l' this, split_ok r s' l' →
    split mem_ok σ id s' l' this = Some (σ <| asked ::= S |>, -ENOMEM, None)).
  { intros s' l' this [Hsl Hs]. unfold svm_range_split. rewrite Hr. cbn [mbind option_bind].
    assert (negb (start r =? s') && negb (last r =? l') = false) as ->.
    { destruct (Z.eqb_spec (start r) s'), (Z.eqb_spec (last r) l'); lia || done. }
    rewrite !(proj2 (Z.ltb_ge _ _)) by lia. cbn [orb]. unfold svm_range_new, svm_alloc. rewrite Hmem. cbn [negb].
    by destruct (start r =? s'). }
  destruct (Z.ltb_spec (start r) s).
  - rewrite Hfail by (split; lia). done.
  - cbn [mbind option_bind]. rewrite Hr. cbn [mbind option_bind]. rewrite (proj2 (Z.ltb_lt e _)) by lia.
    rewrite Hfail by (split; lia). cbn [mbind option_bind]. rewrite bool_decide_true by done.
    rewrite (bool_decide_false (Some id ≠ Some id)) by (intros Hn; by apply Hn). done.
Qed.

(** C23. Deferred work ends in every reachable state; then no work is pending, the ranges of
    the tree are sorted and disjoint, each has the node of its pages, every page is as
    before and running it again changes nothing. *)
Theorem svm_work_settles supported xnack mem_used σ : max_pages_ok max_svm_range_pages →
  reachable no_system_mem_limit supported xnack mem_used σ →
  ∃ σ', svm_range_deferred_list_work σ = Some σ' ∧ deferred_range_list σ' = [] ∧ chain σ' 1 (objects σ') ∧
    (∀ k r, get_range σ' k = Some r → k ∈ objects σ' ∧ child_list r = [] ∧ it_node r = (start r, last r) ∧
       notifier r = (start r, last r)) ∧
    (∀ x, space_of σ' x = space_of σ x) ∧ svm_range_deferred_list_work σ' = Some σ'.
Proof.
  intros Hmax Hre. apply reachable_pend in Hre as (P & _ & _ & _); [|done..].
  destruct (work_any σ P) as (σ' & Hw & W & _ & _ & Hsp). exists σ'. split_and!; try done; try apply W.
  - intros k r Hr. destruct (wf_settled _ W k r Hr) as (_ & (_ & _ & ? & _) & ? & ?). split_and!; try done.
    apply (wf_dom _ W). by eexists.
  - by apply idle_work.
Qed.

(** ** Reading back *)

(** The ranges a query looks at, and their pages. *)
Lemma elem_of_overlapping σ s e r : svm_wf σ →
  r ∈ overlapping σ s e ↔ ∃ k, get_range σ k = Some r ∧ start r ≤ e ∧ s ≤ last r.
Proof.
  intros W. unfold overlapping. rewrite list_elem_of_filter, list_elem_of_omap. unfold overlaps. split.
  - intros [Ho (k & _ & Hr)]. exists k. split; [done|]. destruct (wf_settled _ W k r Hr) as (_ & _ & Hit & _).
    rewrite Hit in Ho. simpl in Ho. apply andb_true_iff in Ho. rewrite !Z.leb_le in Ho. lia.
  - intros (k & Hr & H1 & H2). destruct (wf_settled _ W k r Hr) as (_ & _ & Hit & _). rewrite Hit. simpl. split.
    + apply andb_true_iff. rewrite !Z.leb_le. lia.
    + exists k. split; [|done]. apply (wf_dom _ W). by eexists.
Qed.

(** C24. Attributes that were set for some pages are read back from the same pages, in any
    reachable state and whatever the request set and the query asks for.  A location is
    the last one set, defined or not; the granularity the last one set, at most 63; a
    GPU has the kind of access (direct, in place or none) the last attribute for it
    gave; a flag bit that was last set is among those that all pages have and not among
    those that none has, and the other way round when it was last cleared. *)
Theorem svm_get_after_set supported xnack mem_used mem_ok σ s size attrs qs σ' ls um : max_pages_ok max_svm_range_pages →
  reachable no_system_mem_limit supported xnack mem_used σ → 0 < s → 0 < size →
  Z.of_nat (length pdds) ≤ MAX_GPU_INSTANCE →
  set_attr mem_ok 0 σ s size attrs = Some (σ', ls, um, 0) →
  (∀ a, a ∈ qs → gettable (attr_type a) = true ∧
     (attr_type a = ATTR_ACCESS → 0 ≤ kfd_process_gpuidx_from_gpuid pdds (value a))) →
  ∃ answers, get_attr 0 σ' s size qs = (answers, 0) ∧ Forall2 (read_back pdds attrs) qs answers.
Proof.
  intros Hmax Hre Hs Hsize Hlen Heq Hqs. apply reachable_pend in Hre as (P & _ & _ & _); [|done..].
  destruct (nz (check_attr (bitmap_supported σ) attrs)) eqn:Hck.
  { unfold svm_range_set_attr in Heq. rewrite Hck in Heq. apply nz_true in Hck. by simplify_eq. }
  apply nz_false in Hck.
  destruct (work_spec σ P) as (σ1 & Hw & W & [X B A S] & _). rewrite (set_attr_flush _ _ _ _ _ _ _ _ _ σ σ1) in Heq by done.
  destruct (set_attr_spec LOCATION_SYSMEM LOCATION_UNDEFINED FLAG_HOST_ACCESS FLAG_COHERENT mem_ok no_system_mem_limit
    max_system_mem_limit max_svm_range_pages pdds σ1 s size attrs W Hmax Hs Hsize)
    as (σ2 & ls2 & um2 & rc2 & Heq2 & W2 & _ & [X2 B2] & Hc); [by rewrite B|].
  rewrite Heq in Heq2. simplify_eq. destruct Hc as [[_ Hview]|[? _]]; [|done].
  assert (Hset : ∀ x, s ≤ x ≤ s + size - 1 → ∃ pg, view σ2 x = Some pg ∧ shows_request pdds attrs pg).
  { intros x Hx. rewrite Hview. unfold requested. rewrite decide_True by done. eexists. split; [done|].
    eexists (xnack_enabled σ1), _. by split_and!. }
  assert (Hrs : ∀ r, r ∈ overlapping σ2 s (s + size - 1) → shows_request pdds attrs r).
  { intros r (k & Hr & H1 & H2)%elem_of_overlapping; [|done]. pose proof (rg_bounds _ (proj1 (wf_settled _ W2 k r Hr))) as Hbr.
    destruct (Hset (Z.max (start r) s)) as (pg & Hpg & Hhas); [lia|]. apply wf_shows in Hpg; [|done].
    destruct Hpg as (k' & r' & Hr' & _ & Hcov & ->).
    assert (k = k') as <- by (eapply (wf_disjoint σ2 W2 (Z.max (start r) s)); [done|done|unfold covers; lia|done]).
    rewrite Hr in Hr'. injection Hr' as <-. exact Hhas. }
  assert (Hne : overlapping σ2 s (s + size - 1) ≠ []).
  { destruct (Hset s) as (pg & Hpg & _); [lia|]. apply wf_shows in Hpg; [|done].
    destruct Hpg as (k & r & Hr & _ & Hcov & _). unfold covers in Hcov. intros Hnil.
    assert (Hin : r ∈ overlapping σ2 s (s + size - 1)) by (apply elem_of_overlapping; [done|]; exists k; split; [done|lia]).
    rewrite Hnil in Hin. by apply not_elem_of_nil in Hin. }
  unfold svm_range_get_attr. change (nz 0) with false. cbv iota.
  assert (forallb (λ a, gettable (attr_type a)) qs = true) as ->.
  { apply forallb_forall. intros a Ha. apply Hqs. by apply list_elem_of_In. }
  cbn [negb]. destruct (overlapping σ2 s (s + size - 1)) as [|r0 rs] eqn:Eov; [done|].
  rewrite fill_values_all by (intros a Ha; by apply Hqs). eexists. split; [done|].
  apply Forall2_fmap_r, Forall_Forall2_diag, Forall_forall. intros a Ha.
  change (foldl _ _ (r0 :: rs)) with (foldl (gather LOCATION_UNDEFINED qs)
    (gather_start LOCATION_UNDEFINED (bitmap_supported σ2) qs) (r0 :: rs)).
  apply (gathered_read_back LOCATION_SYSMEM LOCATION_UNDEFINED); try done; [|by apply Hqs].
  by rewrite B2, B.
Qed.
End Claims.

(** ** Instances *)

(** One GPU, of id 7; locations and flags as small numbers; ranges of at most 512 pages. *)
Definition svm_state0 : svm_range_list := svm_range_list_init 1 false 0.
Definition svm_requests0 : list request :=
  [SetAttr 5 10 [mk_attr ATTR_PREFERRED_LOC 7; mk_attr ATTR_ACCESS 7]; Unmap 8 9;
   SetAttr 7 20 [mk_attr ATTR_GRANULARITY 3]; Unmap 20 40; Unmap 1 6; Work].

Lemma svm_requests_refine_witness : ∃ σ',
  svm_run 0 100 1 2 ample true 0 512 [Some 7] svm_state0 svm_requests0 = Some σ' ∧
  ∀ x, space_of σ' x = fold_left (aspace_step 0 100 1 2 [Some 7] 1 false) svm_requests0 (space_of svm_state0) x.
Proof.
  apply (svm_requests_refine 0 100 1 2 0 512 [Some 7] 1 false 0).
  - by exists 9.
  - apply svm_init.
  - repeat (constructor; [simpl; lia|]). constructor.
Defined.

(** The state after some requests is reachable. *)
Lemma svm_run_reachable LS LU FH FC limit maxm maxp pdds supported xnack used reqs : ∀ σ σ',
  svm_reachable LS LU FH FC ample limit maxm maxp pdds supported xnack used σ → Forall request_ok reqs →
  svm_run LS LU FH FC ample limit maxm maxp pdds σ reqs = Some σ' →
  svm_reachable LS LU FH FC ample limit maxm maxp pdds supported xnack used σ'.
Proof.
  induction reqs as [|req reqs IH]; intros σ σ' Hre Hok Hrun; cbn [svm_run] in Hrun; [by injection Hrun as <-|].
  apply Forall_cons in Hok as [Hreq Hok]. destruct (svm_step _ _ _ _ _ _ _ _ _ σ req) as [σ1|] eqn:Hs; [|done].
  eapply IH; [by eapply svm_request|done|done].
Qed.

Definition svm_requests1 : list request := [SetAttr 5 10 [mk_attr ATTR_PREFERRED_LOC 7; mk_attr ATTR_ACCESS 7]; Unmap 8 9].
Definition svm_state1 : svm_range_list :=
  default svm_state0 (svm_run 0 100 1 2 ample false 1000000 512 [Some 7] svm_state0 svm_requests1).
Lemma svm_state1_reachable : svm_reachable 0 100 1 2 ample false 1000000 512 [Some 7] 1 false 0 svm_state1.
Proof.
  apply (svm_run_reachable 0 100 1 2 false 1000000 512 [Some 7] 1 false 0 svm_requests1 svm_state0);
    [apply svm_init| |vm_compute; reflexivity]. repeat (constructor; [simpl; lia|]). constructor.
Qed.

(** Two ranges are left and one piece waits to be freed: 10 pages are charged. *)
Lemma svm_state_consistent_witness : size (ranges svm_state1) = 3%nat ∧ heap_pages svm_state1 = 10 ∧
  system_mem_used svm_state1 = 0 + Z.shiftl (heap_pages svm_state1) PAGE_SHIFT.
Proof.
  split; [vm_compute; reflexivity|]. split; [vm_compute; reflexivity|].
  apply (svm_state_consistent 0 100 1 2 false 1000000 512 [Some 7] 1 false 0 svm_state1); [by exists 9|apply svm_state1_reachable].
Defined.

(** The third request for memory fails, for the pages that were unmapped. *)
Definition few (k : nat) : bool := negb (bool_decide (k = 5)%nat).
Definition svm_failed0 : svm_range_list * add_lists * bool * Z :=
  default (svm_state1, no_lists, false, 0)
    (svm_range_set_attr 0 100 1 2 few false 1000000 512 [Some 7] 0 svm_state1 6 20 [mk_attr ATTR_GRANULARITY 3]).
Lemma svm_set_attr_all_or_nothing_witness : svm_failed0.1.1.1 = svm_state1 ∨
  ∃ σ1, svm_range_deferred_list_work svm_state1 = Some σ1 ∧ untouched σ1 svm_failed0.1.1.1.
Proof.
  apply (svm_set_attr_all_or_nothing 0 100 1 2 false 1000000 512 [Some 7] 1 false 0 few 0 svm_state1 6 20
    [mk_attr ATTR_GRANULARITY 3] svm_failed0.1.1.1 svm_failed0.1.1.2 svm_failed0.1.2 svm_failed0.2).
  - by exists 9.
  - apply svm_state1_reachable.
  - lia.
  - lia.
  - vm_compute; reflexivity.
  - vm_compute; discriminate.
Defined.

(** A range in video memory is cut in the middle of its buffer. *)
Definition svm_vram_range : svm_range :=
  mk_range 10 13 4 4 [Some [1; 3; 5; 7]; None] (Some 0%nat) 100 (Some 0%nat) 3 0 0 1 9 1 0 true (10, 13) (10, 13) SVM_OP_NULL [].
Definition svm_vram_state : svm_range_list :=
  mk_svms {[ 0%nat := svm_vram_range ]} {[ 0%nat := mk_bo 1 [0%nat] ]} [0%nat] [0%nat] [] 1 false 0 1 0.
Lemma svm_vram_range_ok : range_ok svm_vram_range.
Proof.
  split; simpl; try done.
  - by repeat constructor; intros l [= <-].
  - intros i. unfold test_bit. by rewrite Z.testbit_0_l.
Qed.
Lemma svm_split_exact_witness : ∃ σ' rc new,
  svm_range_split 100 1 2 ample false 1000000 [Some 7; Some 8] svm_vram_state 0 12 13 None = Some (σ', rc, new) ∧
  (∀ k, k ≠ 0%nat → k ≠ 1%nat → get_range σ' k = get_range svm_vram_state k) ∧
  (rc = 0 ∧ new = Some 1%nat ∧ (∃ o n, get_range σ' 0 = Some o ∧ get_range σ' 1 = Some n ∧
     start o = 12 ∧ last o = 13 ∧ range_ok o ∧ range_ok n ∧
     (∀ x, covers svm_vram_range x ↔ covers o x ∨ covers n x) ∧
     ∀ x, (covers o x → page o x = page svm_vram_range x) ∧ (covers n x → page n x = page svm_vram_range x)) ∨
   rc = -ENOMEM ∧ new = None ∧ ¬ ∀ k, ample k = true).
Proof.
  apply (svm_split_exact 100 1 2 false 1000000 [Some 7; Some 8] ample svm_vram_state 0 svm_vram_range 12 13 None).
  - reflexivity.
  - reflexivity.
  - apply svm_vram_range_ok.
  - lia.
  - right. split; reflexivity.
  - intros _. exists 0%nat. split; [reflexivity|]. by eexists.
Defined.

Lemma svm_unmap_no_memory_witness :
  svm_range_unmap_split 100 1 2 (λ _, false) false 1000000 [Some 7; Some 8] svm_vram_state 0 0 11 11 = None.
Proof.
  apply (svm_unmap_no_memory 100 1 2 false 1000000 [Some 7; Some 8] (λ _, false) svm_vram_state 0 0 svm_vram_range);
    [reflexivity|discriminate|simpl; lia|simpl; lia|simpl; lia|simpl; lia|reflexivity].
Defined.

Lemma svm_work_settles_witness : ∃ σ', svm_range_deferred_list_work svm_state1 = Some σ' ∧ deferred_range_list σ' = [] ∧
  chain σ' 1 (objects σ') ∧
  (∀ k r, get_range σ' k = Some r → k ∈ objects σ' ∧ child_list r = [] ∧ it_node r = (start r, last r) ∧
     notifier r = (start r, last r)) ∧
  (∀ x, space_of σ' x = space_of svm_state1 x) ∧ svm_range_deferred_list_work σ' = Some σ'.
Proof.
  apply (svm_work_settles 0 100 1 2 false 1000000 512 [Some 7] 1 false 0 svm_state1); [by exists 9|apply svm_state1_reachable].
Defined.

(** The same attribute twice, access in place and flags set and cleared. *)
Definition svm_attrs2 : list svm_attribute :=
  [mk_attr ATTR_PREFERRED_LOC 7; mk_attr ATTR_GRANULARITY 90; mk_attr ATTR_ACCESS 7; mk_attr ATTR_SET_FLAGS 12;
   mk_attr ATTR_ACCESS_IN_PLACE 7; mk_attr ATTR_CLR_FLAGS 4; mk_attr ATTR_PREFERRED_LOC 100].
Definition svm_queries2 : list svm_attribute :=
  [mk_attr ATTR_PREFERRED_LOC 0; mk_attr ATTR_GRANULARITY 0; mk_attr ATTR_ACCESS 7; mk_attr ATTR_SET_FLAGS 0;
   mk_attr ATTR_CLR_FLAGS 0].
Definition svm_done0 : svm_range_list * add_lists * bool * Z :=
  default (svm_state1, no_lists, false, 0)
    (svm_range_set_attr 0 100 1 2 ample false 1000000 512 [Some 7] 0 svm_state1 3 20 svm_attrs2).
Lemma svm_get_after_set_witness : ∃ answers,
  svm_range_get_attr 100 1 2 [Some 7] 0 svm_done0.1.1.1 3 20 svm_queries2 = (answers, 0) ∧
  Forall2 (read_back [Some 7] svm_attrs2) svm_queries2 answers.
Proof.
  apply (svm_get_after_set 0 100 1 2 false 1000000 512 [Some 7] 1 false 0 ample svm_state1 3 20 svm_attrs2 svm_queries2
    svm_done0.1.1.1 svm_done0.1.1.2 svm_done0.1.2).
  - by exists 9.
  - apply svm_state1_reachable.
  - lia.
  - lia.
  - vm_compute. discriminate.
  - vm_compute; reflexivity.
  - intros a Ha. unfold svm_queries2 in Ha. rewrite !elem_of_cons in Ha.
    destruct Ha as [-> |[-> |[-> |[-> |[-> |Ha]]]]]; [split; [done|vm_compute; congruence]..|by apply not_elem_of_nil in Ha].
Defined.

(** A request for part of the range in video memory that fails frees the piece it made
    while the list of the buffer still holds it: the last reference would follow it. *)
Lemma svm_failed_add_dangles :
  match svm_range_add 100 1 2 (λ k, negb (bool_decide (k = 2)%nat)) false 1000000 512 [Some 7; Some 8]
          svm_vram_state 11 2 [mk_attr ATTR_GRANULARITY 3] with
  | Some (σ, _, r) => r = -ENOMEM ∧ range_list <$> bos σ !! 0%nat = Some [1%nat; 0%nat] ∧ get_range σ 1 = None
  | None => False
  end.
Proof. vm_compute. done. Qed.
