(* ===== verification/Vm.v ===== *)
(** * Page tables of a GPU address space

    The tables of [amdgpu_vm_pt.c]: up to three levels of page directories over page
    tables, walked with a cursor, allocated where an update needs them, updated in
    fragments and freed where a larger entry takes their place; then the entries of
    the directories ([amdgpu_vm_update_pdes] of [amdgpu_vm.c]), and what the hardware
    reads.

    An entry of the tree ([struct amdgpu_vm_bo_base]) is named by its path: the
    indices from the root, innermost first, so that its parent is the tail and the
    root is [[]].  [tables] has the buffer of each entry that has one.  Following the
    pointer of an entry without one, an index behind the entries of a directory, a
    write behind the end of a table and the use of a buffer that was freed are [None].
    Addresses are in bytes, [pfn]s in pages of 4 KiB, the size of pages of the CPU. *)

From S2P Require Import Prelude.

Definition AMDGPU_GPU_PAGE_SHIFT : Z := 12.
Definition AMDGPU_GPU_PAGE_SIZE : Z := 4096.
Definition AMDGPU_GMC_HOLE_START : Z := 0x0000800000000000.

Definition AMDGPU_PTE_VALID : Z := 2 ^ 0.
Definition AMDGPU_PTE_SYSTEM : Z := 2 ^ 1.
Definition AMDGPU_PTE_SNOOPED : Z := 2 ^ 2.
Definition AMDGPU_PTE_EXECUTABLE : Z := 2 ^ 4.
Definition AMDGPU_PTE_READABLE : Z := 2 ^ 5.
Definition AMDGPU_PTE_WRITEABLE : Z := 2 ^ 6.
Definition AMDGPU_PTE_FRAG (x : Z) : Z := Z.shiftl (Z.land x 0x1f) 7.
Definition AMDGPU_PTE_PRT : Z := 2 ^ 51.
Definition AMDGPU_PDE_PTE : Z := 2 ^ 54.
Definition AMDGPU_PTE_TF : Z := 2 ^ 56.
Definition AMDGPU_PDE_BFS (a : Z) : Z := u64 (Z.shiftl a 59).
Definition AMDGPU_VM_NORETRY_FLAGS : Z := Z.lor (Z.lor AMDGPU_PTE_EXECUTABLE AMDGPU_PDE_PTE) AMDGPU_PTE_TF.
Definition AMDGPU_PTE_MTYPE_VG10 (a : Z) : Z := u64 (Z.shiftl a 57).
Definition AMDGPU_MTYPE_CC : Z := 2.
Definition AMDGPU_PTE_DEFAULT_ATC : Z :=
  Z.lor (Z.lor (Z.lor AMDGPU_PTE_SYSTEM AMDGPU_PTE_SNOOPED) (Z.lor AMDGPU_PTE_EXECUTABLE AMDGPU_PTE_READABLE))
    (Z.lor AMDGPU_PTE_WRITEABLE (AMDGPU_PTE_MTYPE_VG10 AMDGPU_MTYPE_CC)).

Definition AMDGPU_VM_PDB2 : Z := 0.
Definition AMDGPU_VM_PDB1 : Z := 1.
Definition AMDGPU_VM_PDB0 : Z := 2.
Definition AMDGPU_VM_PTB : Z := 3.

(** ** State *)

(** [vega10]: the chip is a Vega10 or later. *)
Record amdgpu_device := mk_adev {
  vega10 : bool;
  max_pfn : Z;
  block_size : Z;
  fragment_size : Z;
  root_level : Z;
  noretry_flags : Z;
}.

(** A page directory or table: its address and the flags of its place for an entry that
    points to it, its entries, and whether it was freed while its entry still has it. *)
Record amdgpu_bo_vm := mk_bo_vm { pt_addr : Z; pt_flags : Z; ptes : list Z; freed : bool }.
#[export] Instance eta_bo_vm : Eta amdgpu_bo_vm := λ b, mk_bo_vm (pt_addr b) (pt_flags b) (ptes b) (freed b).

Abbreviation path := (list Z).

(** [queries] counts what was asked of the environment. *)
Record amdgpu_vm := mk_vm {
  tables : gmap path amdgpu_bo_vm;
  relocated : list path;
  pt_freed : list path;
  pte_support_ats : bool;
  queries : nat;
}.
#[export] Instance eta_vm : Eta amdgpu_vm := λ v,
  mk_vm (tables v) (relocated v) (pt_freed v) (pte_support_ats v) (queries v).

Record amdgpu_vm_pt_cursor := mk_cursor { pfn : Z; parent : option path; entry : option path; level : Z }.
#[export] Instance eta_cursor : Eta amdgpu_vm_pt_cursor := λ c,
  mk_cursor (pfn c) (parent c) (entry c) (level c).

(** [pages_addr] gives the address of each page of system memory when it is set. *)
Record amdgpu_vm_update_params := mk_params {
  unlocked : bool;
  pages_addr : option (Z → Z);
  allow_override : bool;
  table_freed : bool;
}.
#[export] Instance eta_params : Eta amdgpu_vm_update_params := λ p,
  mk_params (unlocked p) (pages_addr p) (allow_override p) (table_freed p).

(** The answers of the memory manager, each by the number of the question: the result
    of making and reserving a buffer, what is in it, its address and flags; the result of
    what comes before clearing a table or updating directories (validating, mapping,
    reserving fences, preparing); the result of the wait before entries are written. *)
Record vm_env := mk_vm_env {
  bo_create : nat → Z;
  bo_contents : nat → Z;
  bo_address : nat → Z;
  bo_flags : nat → Z;
  pt_prepare : nat → Z;
  resv_wait : nat → Z;
}.

(** The functions of a memory controller: how it wants an entry of a directory, given
    level, address and flags, [None] being a BUG; and other flags for the memory of a
    node ([None] unless an APU with several nodes has them). *)
Record gmc_funcs := mk_gmc_funcs {
  get_vm_pde : Z → Z → Z → option (Z * Z);
  override_vm_pte_flags : option (Z → Z → Z);
}.

(** That of GFX9. *)
Definition gmc_v9_0_get_vm_pde (translate_further : bool) (vram_start vram_base_offset : Z)
    (level addr flags : Z) : option (Z * Z) :=
  let addr := if (Z.land flags AMDGPU_PDE_PTE =? 0) && (Z.land flags AMDGPU_PTE_SYSTEM =? 0)
              then u64 (addr - vram_start + vram_base_offset) else addr in
  if nz (Z.land addr 0xFFFF00000000003F) then None
  else if negb translate_further then Some (addr, flags)
  else if level =? AMDGPU_VM_PDB1 then
    Some (addr, if Z.land flags AMDGPU_PDE_PTE =? 0 then Z.lor flags (AMDGPU_PDE_BFS 0x9) else flags)
  else if level =? AMDGPU_VM_PDB0 then
    if nz (Z.land flags AMDGPU_PDE_PTE) then
      let flags := Z.ldiff flags AMDGPU_PDE_PTE in
      Some (if Z.land flags AMDGPU_PTE_VALID =? 0 then Z.lor addr (Z.shiftl 1 12) else addr, flags)
    else Some (addr, Z.lor flags AMDGPU_PTE_TF)
  else Some (addr, flags).

Section Vm.
Context (adev : amdgpu_device) (gmc : gmc_funcs) (env : vm_env).

(** ** Levels *)

Definition amdgpu_vm_pt_level_shift (level : Z) : Z :=
  if (level =? AMDGPU_VM_PDB2) || (level =? AMDGPU_VM_PDB1) || (level =? AMDGPU_VM_PDB0)
  then 9 * (AMDGPU_VM_PDB0 - level) + block_size adev
  else if level =? AMDGPU_VM_PTB then 0
  else 0xffffffff.

Definition AMDGPU_VM_PTE_COUNT : Z := Z.shiftl 1 (block_size adev).
Definition round_up (x y : Z) : Z := Z.lor (x - 1) (y - 1) + 1.

Definition amdgpu_vm_pt_num_entries (level : Z) : Z :=
  let shift := amdgpu_vm_pt_level_shift (root_level adev) in
  if level =? root_level adev then u32 (Z.shiftr (round_up (max_pfn adev) (Z.shiftl 1 shift)) shift)
  else if negb (level =? AMDGPU_VM_PTB) then 512
  else AMDGPU_VM_PTE_COUNT.

Definition amdgpu_vm_pt_num_ats_entries : Z :=
  u32 (Z.shiftr AMDGPU_GMC_HOLE_START (amdgpu_vm_pt_level_shift (root_level adev) + AMDGPU_GPU_PAGE_SHIFT)).

Definition amdgpu_vm_pt_entries_mask (level : Z) : Z :=
  if level <=? root_level adev then 0xffffffff
  else if negb (level =? AMDGPU_VM_PTB) then 0x1ff
  else AMDGPU_VM_PTE_COUNT - 1.

Definition AMDGPU_GPU_PAGE_ALIGN (a : Z) : Z := Z.ldiff (a + (AMDGPU_GPU_PAGE_SIZE - 1)) (AMDGPU_GPU_PAGE_SIZE - 1).
Definition amdgpu_vm_pt_size (level : Z) : Z := AMDGPU_GPU_PAGE_ALIGN (amdgpu_vm_pt_num_entries level * 8).

(** ** The cursor *)

Definition has_bo (vm : amdgpu_vm) (p : path) : bool := bool_decide (is_Some (tables vm !! p)).
(** The buffer of an entry, to be followed. *)
Definition the_bo (vm : amdgpu_vm) (p : path) : option amdgpu_bo_vm :=
  b ← tables vm !! p; if freed b then None else Some b.

Definition amdgpu_vm_pt_parent (vm : amdgpu_vm) (pt : path) : option (option path) :=
  _ ← the_bo vm pt;
  match pt with
  | [] => Some None
  | _ :: q => Some (if has_bo vm q then Some q else None)
  end.

Definition amdgpu_vm_pt_start (start : Z) : amdgpu_vm_pt_cursor :=
  mk_cursor start None (Some []) (root_level adev).

Definition amdgpu_vm_pt_descendant (vm : amdgpu_vm) (c : amdgpu_vm_pt_cursor)
    : option (amdgpu_vm_pt_cursor * bool) :=
  match entry c with
  | Some e =>
      if (level c =? AMDGPU_VM_PTB) || negb (has_bo vm e) then Some (c, false)
      else
        let mask := amdgpu_vm_pt_entries_mask (level c) in
        let shift := amdgpu_vm_pt_level_shift (level c) in
        let idx := u32 (Z.land (Z.shiftr (pfn c) shift) mask) in
        if idx <? amdgpu_vm_pt_num_entries (level c)
        then Some (mk_cursor (pfn c) (Some e) (Some (idx :: e)) (level c + 1), true) else None
  | None => Some (c, false)
  end.

Definition amdgpu_vm_pt_sibling (vm : amdgpu_vm) (c : amdgpu_vm_pt_cursor)
    : option (amdgpu_vm_pt_cursor * bool) :=
  match parent c with
  | None => Some (c, false)
  | Some q =>
      let shift := amdgpu_vm_pt_level_shift (level c - 1) in
      let num_entries := amdgpu_vm_pt_num_entries (level c - 1) in
      _ ← the_bo vm q;
      e ← entry c;
      match e with
      | [] => None
      | i :: e =>
          if bool_decide (i :: e = num_entries - 1 :: q) then Some (c, false)
          else Some (mk_cursor (Z.ldiff (u64 (pfn c + Z.shiftl 1 shift)) (Z.shiftl 1 shift - 1))
                       (Some q) (Some (i + 1 :: e)) (level c), true)
      end
  end.

Definition amdgpu_vm_pt_ancestor (vm : amdgpu_vm) (c : amdgpu_vm_pt_cursor)
    : option (amdgpu_vm_pt_cursor * bool) :=
  match parent c with
  | None => Some (c, false)
  | Some q =>
      q' ← amdgpu_vm_pt_parent vm q;
      Some (mk_cursor (pfn c) q' (Some q) (level c - 1), true)
  end.

(** The loop of [amdgpu_vm_pt_next]: up the tree until there is a sibling. *)
Fixpoint next_up (fuel : nat) (vm : amdgpu_vm) (c : amdgpu_vm_pt_cursor) : option amdgpu_vm_pt_cursor :=
  '(c, ok) ← amdgpu_vm_pt_sibling vm c;
  if (ok : bool) then Some c else
  '(c, ok) ← amdgpu_vm_pt_ancestor vm c;
  if negb ok then Some (c <| pfn := 2 ^ 64 - 1 |>) else
  match fuel with O => None | S fuel => next_up fuel vm c end.

Definition amdgpu_vm_pt_next (vm : amdgpu_vm) (c : amdgpu_vm_pt_cursor) : option amdgpu_vm_pt_cursor :=
  '(c, ok) ← amdgpu_vm_pt_descendant vm c;
  if (ok : bool) then Some c else next_up (length (default [] (entry c))) vm c.

(** Down the tree as far as it goes; there are at most four levels. *)
Fixpoint descend_all (fuel : nat) (vm : amdgpu_vm) (c : amdgpu_vm_pt_cursor) : option amdgpu_vm_pt_cursor :=
  '(c, ok) ← amdgpu_vm_pt_descendant vm c;
  if negb ok then Some c else
  match fuel with O => None | S fuel => descend_all fuel vm c end.

Definition amdgpu_vm_pt_first_dfs (vm : amdgpu_vm) (start : option amdgpu_vm_pt_cursor) : option amdgpu_vm_pt_cursor :=
  descend_all 4 vm (default (amdgpu_vm_pt_start 0) start).

Definition amdgpu_vm_pt_continue_dfs (start : option amdgpu_vm_pt_cursor) (e : option path) : bool :=
  bool_decide (is_Some e) && match start with None => true | Some s => bool_decide (e ≠ entry s) end.

Definition amdgpu_vm_pt_next_dfs (vm : amdgpu_vm) (c : amdgpu_vm_pt_cursor) : option amdgpu_vm_pt_cursor :=
  match entry c, parent c with
  | None, _ => Some c
  | Some _, None => Some (c <| entry := None |>)
  | Some _, Some _ =>
      '(c, ok) ← amdgpu_vm_pt_sibling vm c;
      if (ok : bool) then descend_all 4 vm c
      else '(c, _) ← amdgpu_vm_pt_ancestor vm c; Some c
  end.

(** [for_each_amdgpu_vm_pt_dfs_safe] around a body. *)
Definition dfs_step (start : option amdgpu_vm_pt_cursor) (body : amdgpu_vm → path → option amdgpu_vm)
    (s : amdgpu_vm * amdgpu_vm_pt_cursor * option path)
    : option ((amdgpu_vm * amdgpu_vm_pt_cursor * option path) + amdgpu_vm) :=
  let '(vm, c, e) := s in
  if negb (amdgpu_vm_pt_continue_dfs start e) then Some (inr vm) else
  e ← e;
  vm ← body vm e;
  c' ← amdgpu_vm_pt_next_dfs vm c;
  Some (inl (vm, c', entry c)).
Definition for_each_dfs (start : option amdgpu_vm_pt_cursor) (body : amdgpu_vm → path → option amdgpu_vm)
    (vm : amdgpu_vm) : option amdgpu_vm :=
  c ← amdgpu_vm_pt_first_dfs vm start;
  c' ← amdgpu_vm_pt_next_dfs vm c;
  run_loop (dfs_step start body) (vm, c', entry c).

(** ** Writing entries *)

Definition amdgpu_gmc_set_pte_pde (addr flags : Z) : Z := Z.lor (Z.land addr 0x0000FFFFFFFFF000) flags.

Definition amdgpu_vm_map_gart (pages_addr : Z → Z) (addr : Z) : Z :=
  Z.land (Z.lor (pages_addr (Z.shiftr addr 12)) (Z.land addr 0xfff)) 0xFFFFFFFFFFFFF000.

Definition ask (vm : amdgpu_vm) : amdgpu_vm := vm <| queries ::= S |>.

(** The values of [count] entries. *)
Definition pte_values (pages : option (Z → Z)) (addr : Z) (count : nat) (incr flags : Z) : list Z :=
  (λ i, let addr := u64 (addr + Z.of_nat i * incr) in
        amdgpu_gmc_set_pte_pde (match pages with Some f => amdgpu_vm_map_gart f addr | None => addr end) flags)
  <$> seq 0 count.

Definition amdgpu_vm_cpu_update (p : amdgpu_vm_update_params) (vm : amdgpu_vm) (pt : path)
    (pe addr count incr flags : Z) : option (amdgpu_vm * Z) :=
  b ← the_bo vm pt;
  let r := resv_wait env (queries vm) in
  let vm := ask vm in
  if r <? 0 then Some (vm, r)
  else if pe / 8 + count <=? Z.of_nat (length (ptes b)) then
    Some (vm <| tables ::= <[pt := b <| ptes ::= list_inserts (Z.to_nat (pe / 8))
                (pte_values (pages_addr p) addr (Z.to_nat count) (u32 incr) flags) |>]> |>, 0)
  else None.

(** ** Making and freeing tables *)

Definition params_none : amdgpu_vm_update_params := mk_params false None false false.

(** The results of validating, mapping and preparing are one answer, that comes first. *)
Definition amdgpu_vm_pt_clear (vm : amdgpu_vm) (pt : path) : option (amdgpu_vm * Z) :=
  b ← the_bo vm pt;
  let level := root_level adev + Z.of_nat (length pt) in
  let entries := Z.of_nat (length (ptes b)) in
  let '(ats_entries, entries) :=
    if negb (pte_support_ats vm) then (0, entries)
    else
      let ats := amdgpu_vm_pt_num_ats_entries in
      match pt with
      | [] => (Z.min ats entries, entries - Z.min ats entries)
      | _ => if ats <=? List.last pt 0 then (0, entries) else (entries, 0)
      end in
  let r := pt_prepare env (queries vm) in
  let vm := ask vm in
  if nz r then Some (vm, r) else
  '(vm, r) ← (if nz ats_entries then
      '(value, flags) ← (if negb (level =? AMDGPU_VM_PTB)
                         then get_vm_pde gmc level 0 (Z.lor AMDGPU_PTE_DEFAULT_ATC AMDGPU_PDE_PTE)
                         else Some (0, AMDGPU_PTE_DEFAULT_ATC));
      amdgpu_vm_cpu_update params_none vm pt 0 0 ats_entries value flags
    else Some (vm, 0));
  if nz r then Some (vm, r) else
  if nz entries then
    '(value, flags) ← (if vega10 adev then
                         if negb (level =? AMDGPU_VM_PTB) then get_vm_pde gmc level 0 AMDGPU_PDE_PTE
                         else Some (0, AMDGPU_PTE_EXECUTABLE)
                       else Some (0, 0));
    amdgpu_vm_cpu_update params_none vm pt (ats_entries * 8) 0 entries value flags
  else Some (vm, 0).

Definition amdgpu_vm_pt_create (vm : amdgpu_vm) (level : Z) : amdgpu_vm * (amdgpu_bo_vm + Z) :=
  let k := queries vm in
  let r := bo_create env k in
  (ask vm,
   if nz r then inr r
   else inl (mk_bo_vm (bo_address env k) (bo_flags env k)
               (replicate (Z.to_nat (amdgpu_vm_pt_size level / 8)) (bo_contents env k)) false)).

Definition list_del_path (p : path) (l : list path) : list path := filter (λ q, q ≠ p) l.

(** [amdgpu_vm_bo_base_init] for a table, which is made where it should be. *)
Definition amdgpu_vm_bo_base_init (vm : amdgpu_vm) (p : path) (b : amdgpu_bo_vm) : amdgpu_vm :=
  let vm := vm <| tables ::= <[p := b]> |> in
  match p with
  | [] => vm
  | _ => vm <| relocated ::= λ l, p :: list_del_path p l |>
  end.

Definition amdgpu_vm_pt_alloc (vm : amdgpu_vm) (c : amdgpu_vm_pt_cursor) : option (amdgpu_vm * Z) :=
  e ← entry c;
  if has_bo vm e then Some (vm, 0) else
  let '(vm, pt) := amdgpu_vm_pt_create vm (level c) in
  match pt with
  | inr r => Some (vm, r)
  | inl pt =>
      q ← parent c;
      _ ← the_bo vm q;
      let vm := amdgpu_vm_bo_base_init vm e pt in
      '(vm, r) ← amdgpu_vm_pt_clear vm e;
      if nz r then Some (vm <| tables ::= alter (λ b, b <| freed := true |>) e |>, r) else Some (vm, 0)
  end.

Definition amdgpu_vm_pt_free (vm : amdgpu_vm) (e : path) : option amdgpu_vm :=
  if negb (has_bo vm e) then Some vm else
  _ ← the_bo vm e;
  Some (vm <| relocated ::= list_del_path e |> <| pt_freed ::= list_del_path e |> <| tables ::= delete e |>).

Fixpoint free_list (vm : amdgpu_vm) (l : list path) : option amdgpu_vm :=
  match l with
  | [] => Some vm
  | e :: l => vm ← amdgpu_vm_pt_free vm e; free_list vm l
  end.
Definition amdgpu_vm_pt_free_work (vm : amdgpu_vm) : option amdgpu_vm :=
  let l := pt_freed vm in free_list (vm <| pt_freed := [] |>) l.

(** [list_move] of an entry to the tables to be freed. *)
Definition move_to_freed (vm : amdgpu_vm) (e : path) : amdgpu_vm :=
  vm <| relocated ::= list_del_path e |> <| pt_freed ::= λ l, e :: list_del_path e l |>.

Definition amdgpu_vm_pt_free_dfs (vm : amdgpu_vm) (start : option amdgpu_vm_pt_cursor) (unlocked : bool)
    : option amdgpu_vm :=
  let last f (vm : amdgpu_vm) := match start with
                | None => Some vm
                | Some s => e ← entry s; f vm e
                end in
  if unlocked then
    vm ← for_each_dfs start (λ vm e, Some (move_to_freed vm e)) vm;
    last (λ vm e, Some (move_to_freed vm e)) vm
  else
    vm ← for_each_dfs start amdgpu_vm_pt_free vm;
    last amdgpu_vm_pt_free vm.

Definition amdgpu_vm_pt_free_root (vm : amdgpu_vm) : option amdgpu_vm := amdgpu_vm_pt_free_dfs vm None false.

(** What [amdgpu_vm_init] does to the tables. *)
Definition amdgpu_vm_init (queries : nat) : option (amdgpu_vm * Z) :=
  let '(vm, root) := amdgpu_vm_pt_create (mk_vm ∅ [] [] false queries) (root_level adev) in
  match root with
  | inr r => Some (vm, r)
  | inl root =>
      '(vm, r) ← amdgpu_vm_pt_clear (amdgpu_vm_bo_base_init vm [] root) [];
      if nz r then vm ← amdgpu_vm_pt_free_root vm; Some (vm, r) else Some (vm, 0)
  end.

(** ** Updating a range *)

Definition amdgpu_vm_pte_update_noretry_flags (flags : Z) : Z :=
  if Z.land flags AMDGPU_VM_NORETRY_FLAGS =? AMDGPU_VM_NORETRY_FLAGS
  then Z.lor (Z.ldiff flags AMDGPU_VM_NORETRY_FLAGS) (noretry_flags adev) else flags.

(** The result of the write is dropped. *)
Definition amdgpu_vm_pte_update_flags (p : amdgpu_vm_update_params) (vm : amdgpu_vm) (pt : path)
    (level pe addr count incr flags : Z) : option amdgpu_vm :=
  '(addr, flags) ← (if negb (level =? AMDGPU_VM_PTB) then get_vm_pde gmc level addr (Z.lor flags AMDGPU_PDE_PTE)
                    else Some (addr, if vega10 adev && (Z.land flags AMDGPU_PTE_VALID =? 0)
                                        && (Z.land flags AMDGPU_PTE_PRT =? 0)
                                     then Z.lor flags AMDGPU_PTE_EXECUTABLE else flags));
  let flags := if level =? AMDGPU_VM_PTB then amdgpu_vm_pte_update_noretry_flags flags else flags in
  let flags := match override_vm_pte_flags gmc, pages_addr p with
               | Some f, None => if nz (Z.land flags AMDGPU_PTE_SYSTEM) && allow_override p then f addr flags else flags
               | _, _ => flags
               end in
  '(vm, _) ← amdgpu_vm_cpu_update p vm pt pe addr count incr flags;
  Some vm.

Definition fls64 (x : Z) : Z := if x =? 0 then 0 else Z.log2 x + 1.

(** The size of the fragment and its end. *)
Definition amdgpu_vm_pte_fragment (p : amdgpu_vm_update_params) (start end' : Z) : Z * Z :=
  let max_frag := if vega10 adev then 31 else fragment_size adev in
  match pages_addr p with
  | Some _ => (0, end')
  | None =>
      let frag := Z.min (u32 (ffs (u32 start) - 1)) (u32 (fls64 (u64 (end' - start)) - 1)) in
      if max_frag <=? frag then (max_frag, Z.ldiff end' (Z.shiftl 1 max_frag - 1))
      else (frag, u64 (start + Z.shiftl 1 frag))
  end.

(** The variables of [amdgpu_vm_ptes_update]. *)
Record update_state := mk_update {
  u_params : amdgpu_vm_update_params;
  u_vm : amdgpu_vm;
  u_cursor : amdgpu_vm_pt_cursor;
  frag_start : Z;
  frag : Z;
  frag_end : Z;
  dst : Z;
}.
#[export] Instance eta_update : Eta update_state := λ u,
  mk_update (u_params u) (u_vm u) (u_cursor u) (frag_start u) (frag u) (frag_end u) (dst u).

(** The fragments in the table [pt] up to [entry_end]: state, and the place of the next
    entry. *)
Definition fragment_step (pt : path) (level shift incr entry_end end' flags : Z) (s : update_state * Z)
    : option ((update_state * Z) + update_state) :=
  let '(u, pe_start) := s in
  let upd_end := Z.min entry_end (frag_end u) in
  let nptes := Z.max (u32 (Z.shiftr (u64 (upd_end - frag_start u)) shift)) 1 in
  vm ← amdgpu_vm_pte_update_flags (u_params u) (u_vm u) pt level pe_start (dst u) nptes incr
         (Z.lor flags (AMDGPU_PTE_FRAG (frag u)));
  let u := u <| u_vm := vm |> <| dst ::= λ d, u64 (d + nptes * incr) |> <| frag_start := upd_end |> in
  let pe_start := pe_start + nptes * 8 in
  let next u := Some (if upd_end <? entry_end then inl (u, pe_start) else inr u) in
  if frag_end u <=? upd_end then
    let '(frag', frag_end') := amdgpu_vm_pte_fragment (u_params u) upd_end end' in
    let u := u <| frag := frag' |> <| frag_end := frag_end' |> in
    if frag' <? shift then Some (inr u) else next u
  else next u.

(** The tables under what was written are freed, and the cursor gets behind it. *)
Definition free_step (u : update_state) : option (update_state + update_state) :=
  if negb (pfn (u_cursor u) <? frag_start u) then Some (inr u) else
  e ← entry (u_cursor u);
  u ← (if has_bo (u_vm u) e then
         vm ← amdgpu_vm_pt_free_dfs (u_vm u) (Some (u_cursor u)) (unlocked (u_params u));
         Some (u <| u_params ::= λ p, p <| table_freed := true |> |> <| u_vm := vm |>)
       else Some u);
  c ← amdgpu_vm_pt_next (u_vm u) (u_cursor u);
  Some (inl (u <| u_cursor := c |>)).

(** Where a turn of the loop of [amdgpu_vm_ptes_update] goes on. *)
Inductive choice := Go (c : amdgpu_vm_pt_cursor) | Return (r : Z) | Use (c : amdgpu_vm_pt_cursor).

Definition choose_level (u : update_state) (flags : Z) : option choice :=
  let c := u_cursor u in
  let shift := amdgpu_vm_pt_level_shift (level c) in
  let parent_shift := amdgpu_vm_pt_level_shift (level c - 1) in
  if unlocked (u_params u) then
    '(c, ok) ← amdgpu_vm_pt_descendant (u_vm u) c; Some (if (ok : bool) then Go c else Use c)
  else if negb (vega10 adev) && nz (Z.land flags AMDGPU_PTE_VALID) then
    if negb (level c =? AMDGPU_VM_PTB) then
      '(c, ok) ← amdgpu_vm_pt_descendant (u_vm u) c; Some (if (ok : bool) then Go c else Return (-ENOENT))
    else Some (Use c)
  else if frag u <? shift then
    '(c, ok) ← amdgpu_vm_pt_descendant (u_vm u) c; Some (if (ok : bool) then Go c else Use c)
  else if parent_shift <=? frag u then
    '(c, ok) ← amdgpu_vm_pt_ancestor (u_vm u) c; Some (if (ok : bool) then Go c else Return (-EINVAL))
  else Some (Use c).

(** The table to write to, that of an ancestor when there is none. *)
Definition choose_table (u : update_state) (c : amdgpu_vm_pt_cursor) (flags : Z)
    : option (update_state * path * Z + Z) :=
  let shift := amdgpu_vm_pt_level_shift (level c) in
  let parent_shift := amdgpu_vm_pt_level_shift (level c - 1) in
  e ← entry c;
  if has_bo (u_vm u) e then Some (inl (u <| u_cursor := c |>, e, shift))
  else if nz (Z.land flags AMDGPU_PTE_VALID) then Some (inr (-ENOENT))
  else
    '(c, ok) ← amdgpu_vm_pt_ancestor (u_vm u) c;
    if negb ok then Some (inr (-EINVAL)) else
    e ← entry c;
    Some (inl (u <| u_cursor := c |>
                 <| frag_end ::= λ f, Z.max f (Z.ldiff (frag_start u + 1 + (Z.shiftl 1 parent_shift - 1)) (Z.shiftl 1 parent_shift - 1)) |>,
               e, parent_shift)).

Definition update_table (u : update_state) (pt : path) (shift end' flags : Z) : option update_state :=
  let c := u_cursor u in
  let incr := u64 (Z.shiftl AMDGPU_GPU_PAGE_SIZE shift) in
  let mask := amdgpu_vm_pt_entries_mask (level c) in
  let pe_start := Z.land (Z.shiftr (pfn c) shift) mask * 8 in
  let entry_end := Z.shiftl (mask + 1) shift in
  let entry_end := entry_end + Z.ldiff (pfn c) (entry_end - 1) in
  let entry_end := Z.min entry_end end' in
  u ← run_loop (fragment_step pt (level c) shift incr entry_end end' flags) (u, pe_start);
  '(c, ok) ← amdgpu_vm_pt_descendant (u_vm u) c;
  if (ok : bool) then run_loop free_step (u <| u_cursor := c |>)
  else if shift <=? frag u then c ← amdgpu_vm_pt_next (u_vm u) c; Some (u <| u_cursor := c |>)
  else Some (u <| u_cursor := c |>).

Definition ptes_step (end' flags : Z) (u : update_state) : option (update_state + update_state * Z) :=
  if negb (pfn (u_cursor u) <? end') then Some (inr (u, 0)) else
  '(vm, r) ← (if unlocked (u_params u) then Some (u_vm u, 0) else amdgpu_vm_pt_alloc (u_vm u) (u_cursor u));
  let u := u <| u_vm := vm |> in
  if nz r then Some (inr (u, r)) else
  ch ← choose_level u flags;
  match ch with
  | Go c => Some (inl (u <| u_cursor := c |>))
  | Return r => Some (inr (u, r))
  | Use c =>
      t ← choose_table u c flags;
      match t with
      | inr r => Some (inr (u, r))
      | inl (u, pt, shift) => u ← update_table u pt shift end' flags; Some (inl u)
      end
  end.

Definition amdgpu_vm_ptes_update (p : amdgpu_vm_update_params) (vm : amdgpu_vm) (start end' dst flags : Z)
    : option (amdgpu_vm * amdgpu_vm_update_params * Z) :=
  let '(frag, frag_end) := amdgpu_vm_pte_fragment p start end' in
  '(u, r) ← run_loop (ptes_step end' flags)
              (mk_update p vm (amdgpu_vm_pt_start start) start frag frag_end dst);
  Some (u_vm u, u_params u, r).

(** ** Directories *)

Definition amdgpu_vm_pde_update (vm : amdgpu_vm) (e : path) : option (amdgpu_vm * Z) :=
  p ← amdgpu_vm_pt_parent vm e;
  match p, e with
  | Some q, i :: _ =>
      b ← the_bo vm e;
      '(pt, flags) ← get_vm_pde gmc (root_level adev + Z.of_nat (length q)) (pt_addr b) (pt_flags b);
      amdgpu_vm_cpu_update params_none vm q (i * 8) pt 1 0 flags
  | _, _ => Some (vm, -EINVAL)
  end.

Fixpoint update_relocated (vm : amdgpu_vm) (l : list path) : option (amdgpu_vm * Z) :=
  match l with
  | [] => Some (vm, 0)
  | e :: l =>
      '(vm, r) ← amdgpu_vm_pde_update vm e;
      if nz r then Some (vm, r) else update_relocated vm l
  end.

(** [relocated] is spliced to a list of the function at once; a result other than 0
    leaves it there. *)
Definition amdgpu_vm_update_pdes (vm : amdgpu_vm) : option (amdgpu_vm * Z) :=
  let l := relocated vm in
  if bool_decide (l = []) then Some (vm, 0) else
  let vm := vm <| relocated := [] |> in
  let r := pt_prepare env (queries vm) in
  let vm := ask vm in
  if nz r then Some (vm, r) else update_relocated vm l.
End Vm.
