(* ===== verification/VmWalk.v ===== *)
(** * Page tables: places and cursors

    Where an address is in the tree: [cell n x] numbers the entries of depth [n] over the
    whole address space, and [path_at n x] is the path of the table of depth [n] that
    covers [x].  The steps of the cursor follow it.  [vm_wf] is the shape of the tree, and
    [leaf] says which entry translates an address. *)

From S2P Require Import Prelude Vm.
#[local] Open Scope Z_scope.
#[local] Open Scope list_scope.

(** ** Powers of two *)

Lemma pow2_pos n : 0 ≤ n → 0 < 2 ^ n.
Proof. intros. by apply Z.pow_pos_nonneg. Qed.
#[export] Hint Resolve pow2_pos : kint.

Lemma ldiff_pow2 x s : 0 ≤ s → Z.ldiff x (Z.shiftl 1 s - 1) = x / 2 ^ s * 2 ^ s.
Proof.
  intros Hs. rewrite Z.shiftl_1_l. replace (2 ^ s - 1) with (Z.ones s) by (rewrite Z.ones_equiv; lia).
  by rewrite Z.ldiff_ones_r, Z.shiftr_div_pow2, Z.shiftl_mul_pow2.
Qed.

Lemma land_pow2 x s : 0 ≤ s → Z.land x (2 ^ s - 1) = x `mod` 2 ^ s.
Proof. intros Hs. replace (2 ^ s - 1) with (Z.ones s) by (rewrite Z.ones_equiv; lia). by rewrite Z.land_ones. Qed.

Lemma round_up_spec x s : 0 < x → 0 ≤ s → round_up x (Z.shiftl 1 s) = ((x - 1) / 2 ^ s + 1) * 2 ^ s.
Proof.
  intros Hx Hs. unfold round_up. rewrite Z.shiftl_1_l.
  assert (Z.lor (x - 1) (2 ^ s - 1) = (x - 1) / 2 ^ s * 2 ^ s + (2 ^ s - 1)) as ->; [|lia].
  pose proof (pow2_pos s Hs). rewrite Z.lor_comm, Z.add_comm, <- lor_add by (try apply Z.div_pos; lia).
  apply Z.bits_inj'. intros i Hi. rewrite !Z.lor_spec, <- Z.shiftl_mul_pow2 by done.
  replace (2 ^ s - 1) with (Z.ones s) by (rewrite Z.ones_equiv; lia).
  destruct (decide (i < s)).
  - by rewrite !Z.ones_spec_low by lia.
  - rewrite !Z.ones_spec_high, Z.shiftl_spec, Z.div_pow2_bits by lia. simpl. f_equal. lia.
Qed.

Lemma div_step x a b : 0 ≤ a → 0 ≤ b → x / 2 ^ (a + b) = x / 2 ^ a / 2 ^ b.
Proof. intros. rewrite Z.pow_add_r by done. rewrite Z.div_div; [done|..]; pose proof (pow2_pos a); pose proof (pow2_pos b); lia. Qed.

Lemma div_mod_inj a b m : 0 < m → a / m = b / m → a `mod` m = b `mod` m → a = b.
Proof. intros Hm H1 H2. rewrite (Z.div_mod a m), (Z.div_mod b m) by lia. congruence. Qed.

Section Walk.
Context (adev : amdgpu_device).
Abbreviation shift := (amdgpu_vm_pt_level_shift adev).
Abbreviation num_entries := (amdgpu_vm_pt_num_entries adev).
Abbreviation mask := (amdgpu_vm_pt_entries_mask adev).

(** What devices are like: two to four levels, tables of up to 8192 pages. *)
Record adev_ok : Prop := {
  ok_root : 0 ≤ root_level adev ≤ 2;
  ok_block : 0 < block_size adev ≤ 13;
  ok_pfn : 0 < max_pfn adev ≤ 2 ^ (31 + shift (root_level adev));
}.
Context (Hok : adev_ok).

Definition depth : nat := Z.to_nat (3 - root_level adev).
Definition lev (n : nat) : Z := root_level adev + Z.of_nat n.
Definition sh (n : nat) : Z := shift (lev n).

Lemma depth_bounds : (1 ≤ depth ≤ 3)%nat.
Proof. pose proof (ok_root Hok). unfold depth. lia. Qed.
Lemma lev_depth : lev depth = AMDGPU_VM_PTB.
Proof. pose proof (ok_root Hok). unfold lev, depth, AMDGPU_VM_PTB. lia. Qed.

Lemma lev_ptb n : (n ≤ depth)%nat → (lev n =? AMDGPU_VM_PTB) = bool_decide (n = depth).
Proof.
  pose proof (ok_root Hok). intros Hn. unfold lev, AMDGPU_VM_PTB in *. unfold depth in *.
  destruct (decide (n = Z.to_nat (3 - root_level adev))) as [->|].
  - rewrite bool_decide_true by done. apply Z.eqb_eq. lia.
  - rewrite bool_decide_false by done. apply Z.eqb_neq. lia.
Qed.

Lemma shift_dir l : 0 ≤ l ≤ 2 → shift l = 9 * (2 - l) + block_size adev.
Proof.
  intros Hl. unfold amdgpu_vm_pt_level_shift, AMDGPU_VM_PDB2, AMDGPU_VM_PDB1, AMDGPU_VM_PDB0, AMDGPU_VM_PTB.
  destruct (Z.eqb_spec l 0), (Z.eqb_spec l 1), (Z.eqb_spec l 2); simpl; lia.
Qed.

Lemma sh_depth : sh depth = 0.
Proof. unfold sh. rewrite lev_depth. done. Qed.

Lemma sh_dir n : (n < depth)%nat → sh n = 9 * (2 - lev n) + block_size adev.
Proof. pose proof (ok_root Hok). intros Hn. unfold sh. apply shift_dir. unfold lev, depth in *. lia. Qed.

(** The bits of an index below the root. *)
Definition bits (n : nat) : Z := if decide (n = depth) then block_size adev else 9.

Lemma bits_pos n : 0 < bits n ≤ 13.
Proof. pose proof (ok_block Hok). unfold bits. destruct (decide _); lia. Qed.

Lemma sh_step n : (n < depth)%nat → sh n = sh (S n) + bits (S n).
Proof.
  intros Hn. pose proof (ok_root Hok). unfold bits. destruct (decide (S n = depth)) as [He|].
  - rewrite He, sh_depth, sh_dir by done. unfold lev, depth in *. lia.
  - rewrite !sh_dir by lia. unfold lev. lia.
Qed.

Lemma sh_bounds n : (n ≤ depth)%nat → 0 ≤ sh n ≤ 31.
Proof.
  intros Hn. pose proof (ok_block Hok). pose proof (ok_root Hok). destruct (decide (n = depth)) as [->|].
  - rewrite sh_depth. lia.
  - rewrite sh_dir by lia. unfold lev, depth in *. lia.
Qed.

Lemma sh_pos n : (n ≤ depth)%nat → 0 < 2 ^ sh n.
Proof. intros. apply pow2_pos. by apply sh_bounds. Qed.

(** ** Cells *)

Definition cell (n : nat) (x : Z) : Z := x / 2 ^ sh n.
Definition idx (n : nat) (x : Z) : Z := match n with O => cell 0 x | _ => cell n x `mod` 2 ^ bits n end.
Fixpoint path_at (n : nat) (x : Z) : path :=
  match n with O => [] | S n => idx n x :: path_at n x end.

Definition root_entries : Z := (max_pfn adev - 1) / 2 ^ sh 0 + 1.
(** The end of the address space of the tables. *)
Definition limit : Z := root_entries * 2 ^ sh 0.

Lemma sh0_dir : sh 0 = shift (root_level adev).
Proof. unfold sh, lev. f_equal. lia. Qed.

Lemma root_entries_bounds : 0 < root_entries ≤ 2 ^ 31.
Proof.
  pose proof (ok_pfn Hok) as [H1 H2]. rewrite <- sh0_dir in H2. pose proof (sh_bounds 0 ltac:(lia)). pose proof (sh_pos 0 ltac:(lia)).
  unfold root_entries. rewrite Z.pow_add_r in H2 by lia. split; [pose proof (Z.div_pos (max_pfn adev - 1) (2 ^ sh 0)); lia|].
  assert ((max_pfn adev - 1) / 2 ^ sh 0 < 2 ^ 31); [|lia]. apply Z.div_lt_upper_bound; lia.
Qed.

Lemma limit_bounds : max_pfn adev ≤ limit ≤ 2 ^ 62.
Proof.
  pose proof (ok_pfn Hok). pose proof (sh_bounds 0 ltac:(lia)). pose proof (sh_pos 0 ltac:(lia)). unfold limit. split.
  - unfold root_entries. pose proof (Z.div_mod (max_pfn adev - 1) (2 ^ sh 0) ltac:(lia)).
    pose proof (Z.mod_pos_bound (max_pfn adev - 1) (2 ^ sh 0)). lia.
  - pose proof root_entries_bounds. assert (2 ^ sh 0 ≤ 2 ^ 31) by (apply Z.pow_le_mono_r; lia).
    change (2 ^ 62) with (2 ^ 31 * 2 ^ 31). nia.
Qed.

Definition entries (n : nat) : Z := match n with O => root_entries | _ => 2 ^ bits n end.

Lemma entries_pos n : 0 < entries n ≤ 2 ^ 31.
Proof.
  destruct n; simpl; [apply root_entries_bounds|]. pose proof (bits_pos (S n)). split; [apply pow2_pos; lia|].
  apply Z.pow_le_mono_r; lia.
Qed.

Lemma num_entries_at n : (n ≤ depth)%nat → num_entries (lev n) = entries n.
Proof.
  intros Hn. unfold amdgpu_vm_pt_num_entries. destruct n as [|n].
  - unfold lev. replace (root_level adev + Z.of_nat 0) with (root_level adev) by lia. rewrite Z.eqb_refl.
    rewrite <- sh0_dir. pose proof (sh_bounds 0 ltac:(lia)). pose proof (sh_pos 0 ltac:(lia)). pose proof (ok_pfn Hok).
    rewrite round_up_spec, Z.shiftr_div_pow2, Z.div_mul by lia. apply wrap_small. pose proof root_entries_bounds as Hr.
    unfold in_width. simpl. lia.
  - rewrite (proj2 (Z.eqb_neq _ _)) by (unfold lev; lia). rewrite lev_ptb by done. simpl. unfold bits.
    destruct (decide (S n = depth)); [rewrite bool_decide_true by done|by rewrite bool_decide_false by done]. simpl.
    unfold AMDGPU_VM_PTE_COUNT. by rewrite Z.shiftl_1_l.
Qed.

Lemma mask_at n : (n ≤ depth)%nat → mask (lev n) = match n with O => 2 ^ 32 | _ => 2 ^ bits n end - 1.
Proof.
  intros Hn. unfold amdgpu_vm_pt_entries_mask. destruct n as [|n].
  - rewrite (proj2 (Z.leb_le _ _)) by (unfold lev; lia). done.
  - rewrite (proj2 (Z.leb_gt _ _)) by (unfold lev; lia). rewrite lev_ptb by done. unfold bits.
    destruct (decide (S n = depth)); [rewrite bool_decide_true by done|by rewrite bool_decide_false by done]. simpl.
    unfold AMDGPU_VM_PTE_COUNT. by rewrite Z.shiftl_1_l.
Qed.

Lemma cell_step n x : (n < depth)%nat → cell n x = cell (S n) x / 2 ^ bits (S n).
Proof.
  intros Hn. unfold cell. rewrite sh_step by done. pose proof (bits_pos (S n)).
  apply div_step; [by apply sh_bounds|lia].
Qed.

Lemma cell_mono n x y : (n ≤ depth)%nat → x ≤ y → cell n x ≤ cell n y.
Proof. intros Hn. apply Z.div_le_mono. by apply sh_pos. Qed.

Lemma cell_nonneg n x : (n ≤ depth)%nat → 0 ≤ x → 0 ≤ cell n x.
Proof. intros Hn Hx. apply Z.div_pos; [done|by apply sh_pos]. Qed.

Lemma cell_spec n x c : (n ≤ depth)%nat → cell n x = c ↔ c * 2 ^ sh n ≤ x < (c + 1) * 2 ^ sh n.
Proof.
  intros Hn. pose proof (sh_pos n Hn). unfold cell. split.
  - intros <-. pose proof (Z.div_mod x (2 ^ sh n) ltac:(lia)). pose proof (Z.mod_pos_bound x (2 ^ sh n) ltac:(lia)). lia.
  - intros Hx. symmetry. apply (Z.div_unique _ _ _ (x - c * 2 ^ sh n)); lia.
Qed.

Lemma cell_depth x : cell depth x = x.
Proof. unfold cell. rewrite sh_depth. by rewrite Z.div_1_r. Qed.

(** The cells of a coarser depth are those of finer ones. *)
Lemma cell_coarser n m x y : (n ≤ m ≤ depth)%nat → cell m x = cell m y → cell n x = cell n y.
Proof.
  intros [Hn Hm]. induction Hn as [|m Hn IH]; [done|]. intros Heq. apply IH; [lia|].
  rewrite !(cell_step m) by lia. by rewrite Heq.
Qed.

Lemma idx_bounds n x : (n ≤ depth)%nat → 0 ≤ x < limit → 0 ≤ idx n x < entries n.
Proof.
  intros Hn Hx. destruct n as [|n]; simpl.
  - split; [apply cell_nonneg; lia|]. apply Z.div_lt_upper_bound; [apply sh_pos; lia|]. unfold limit in Hx. lia.
  - apply Z.mod_pos_bound. apply pow2_pos. pose proof (bits_pos (S n)). lia.
Qed.

(** The index the program computes. *)
Lemma idx_land n x : (n ≤ depth)%nat → 0 ≤ x < limit → Z.land (Z.shiftr x (sh n)) (mask (lev n)) = idx n x.
Proof.
  intros Hn Hx. pose proof (idx_bounds n x Hn Hx) as Hi. pose proof (entries_pos n) as He.
  rewrite mask_at, Z.shiftr_div_pow2 by (done || apply sh_bounds; done). pose proof (bits_pos n).
  destruct n as [|n]; simpl idx in *; [|rewrite land_pow2 by lia; done]. rewrite land_pow2 by lia.
  apply Z.mod_small. change (x / 2 ^ sh 0) with (cell 0 x). lia.
Qed.
Lemma idx_code n x : (n ≤ depth)%nat → 0 ≤ x < limit → u32 (Z.land (Z.shiftr x (sh n)) (mask (lev n))) = idx n x.
Proof.
  intros Hn Hx. rewrite idx_land by done. pose proof (idx_bounds n x Hn Hx). pose proof (entries_pos n).
  apply wrap_small. unfold in_width. lia.
Qed.

Lemma idx_cell n x y : (n ≤ depth)%nat → cell n x = cell n y → idx n x = idx n y.
Proof. intros Hn H. destruct n; simpl; congruence. Qed.

Lemma idx_inj n x y : (n ≤ depth)%nat → (∀ m, n = S m → cell m x = cell m y) → idx n x = idx n y → cell n x = cell n y.
Proof.
  intros Hn Hm H. destruct n as [|n]; simpl in H; [done|].
  apply (div_mod_inj _ _ (2 ^ bits (S n))); [pose proof (bits_pos (S n)); apply pow2_pos; lia| |done].
  rewrite <- !cell_step by lia. by apply Hm.
Qed.

(** A path stands for a cell of the depth above. *)
Lemma path_at_S n x y : (n ≤ depth)%nat → path_at (S n) x = path_at (S n) y ↔ cell n x = cell n y.
Proof.
  induction n as [|n IH]; intros Hn.
  - simpl. split; [by intros [= H]|by intros ->].
  - split.
    + intros H. change (idx (S n) x :: path_at (S n) x = idx (S n) y :: path_at (S n) y) in H. injection H as Hi Hp1 Hp2.
      assert (Hp : path_at (S n) x = path_at (S n) y) by (cbn [path_at]; congruence).
      apply IH in Hp; [|lia]. apply idx_inj; [done| |done]. intros m [= <-]. done.
    + intros H. cbn [path_at]. change (idx (S n) x :: path_at (S n) x = idx (S n) y :: path_at (S n) y).
      f_equal; [by apply idx_cell|]. apply IH; [lia|]. by apply (cell_coarser n (S n)); [lia|].
Qed.

Lemma path_at_cell n x y : (n < depth)%nat → cell n x = cell n y → path_at (S n) x = path_at (S n) y.
Proof. intros Hn. apply path_at_S. lia. Qed.

Lemma path_at_length n x : length (path_at n x) = n.
Proof. induction n; simpl; congruence. Qed.

Lemma path_at_same n m x y : path_at n x = path_at m y → n = m.
Proof. intros H. apply (f_equal length) in H. by rewrite !path_at_length in H. Qed.

Lemma path_at_coarser n m x y : (n ≤ m)%nat → path_at m x = path_at m y → path_at n x = path_at n y.
Proof. induction 1 as [|m Hn IH]; [done|]. intros [= _ Hp]. by apply IH. Qed.

(** ** The next cell *)

Definition nextb (n : nat) (x : Z) : Z := (cell n x + 1) * 2 ^ sh n.

Lemma nextb_bounds n x : (n ≤ depth)%nat → x < nextb n x ≤ x + 2 ^ sh n.
Proof. intros Hn. unfold nextb. pose proof (proj1 (cell_spec n x _ Hn) eq_refl). lia. Qed.

Lemma cell_nextb n x : (n ≤ depth)%nat → cell n (nextb n x) = cell n x + 1.
Proof. intros Hn. apply cell_spec; [done|]. unfold nextb. pose proof (sh_pos n Hn). lia. Qed.

Lemma nextb_limit n x : (n ≤ depth)%nat → 0 ≤ x < limit → nextb n x ≤ limit.
Proof.
  intros Hn Hx. unfold nextb, limit in *. pose proof (sh_pos n Hn) as Hp. pose proof (proj1 (cell_spec n x _ Hn) eq_refl).
  assert (∃ k, 0 < k ∧ 2 ^ sh 0 = k * 2 ^ sh n) as (k & Hk & Heq).
  { clear - Hn Hok. induction n as [|n IH]; [exists 1; lia|]. destruct IH as (k & Hk & ->); [lia|].
    exists (k * 2 ^ bits (S n)). pose proof (bits_pos (S n)). pose proof (pow2_pos (bits (S n)) ltac:(lia)).
    rewrite (sh_step n) by lia. rewrite Z.pow_add_r by (try apply sh_bounds; lia). nia. }
  rewrite Heq in *. set (w := 2 ^ sh n) in *. set (c := cell n x) in *.
  assert (c < root_entries * k); [|nia]. apply (Z.mul_lt_mono_pos_r w); nia.
Qed.

(** The last cell of its parent ends where the parent does. *)
Lemma nextb_last n x : (S n ≤ depth)%nat → idx (S n) x = entries (S n) - 1 → nextb (S n) x = nextb n x.
Proof.
  intros Hn Hi. simpl in Hi. unfold nextb. rewrite (cell_step n) by lia. rewrite (sh_step n) by lia.
  pose proof (bits_pos (S n)). pose proof (pow2_pos (bits (S n)) ltac:(lia)) as Hp.
  rewrite Z.pow_add_r by (try apply sh_bounds; lia). rewrite (Z.div_mod (cell (S n) x) (2 ^ bits (S n))) at 1 by lia. rewrite Hi. lia.
Qed.
Lemma nextb_root_last x : idx 0 x = entries 0 - 1 → nextb 0 x = limit.
Proof. simpl. unfold nextb, limit. intros ->. f_equal. lia. Qed.

(** Otherwise the next cell has the same parent. *)
Lemma nextb_inner n x : (S n ≤ depth)%nat → idx (S n) x + 1 < entries (S n) → cell n (nextb (S n) x) = cell n x.
Proof.
  intros Hn Hi. simpl in Hi. rewrite !(cell_step n) by lia. rewrite cell_nextb by done.
  pose proof (bits_pos (S n)). pose proof (pow2_pos (bits (S n)) ltac:(lia)) as Hp.
  rewrite (Z.div_mod (cell (S n) x) (2 ^ bits (S n))) at 1 by lia.
  pose proof (Z.mod_pos_bound (cell (S n) x) (2 ^ bits (S n)) Hp).
  symmetry. apply (Z.div_unique _ _ _ (cell (S n) x `mod` 2 ^ bits (S n) + 1)); lia.
Qed.

Lemma nextb_idx n x : (n ≤ depth)%nat → idx n x + 1 < entries n → idx n (nextb n x) = idx n x + 1.
Proof.
  intros Hn Hi. destruct n as [|n]; simpl in *; [by apply cell_nextb|]. rewrite cell_nextb by done.
  pose proof (bits_pos (S n)). pose proof (pow2_pos (bits (S n)) ltac:(lia)) as Hp.
  pose proof (Z.mod_pos_bound (cell (S n) x) (2 ^ bits (S n)) Hp).
  rewrite <- Zplus_mod_idemp_l. apply Z.mod_small. lia.
Qed.

Lemma path_at_nextb n x : (n ≤ depth)%nat → idx n x + 1 < entries n →
  path_at n (nextb n x) = path_at n x ∧ path_at (S n) (nextb n x) = idx n x + 1 :: path_at n x.
Proof.
  intros Hn Hi. assert (Hp : path_at n (nextb n x) = path_at n x).
  { destruct n as [|n]; [done|]. apply path_at_cell; [lia|]. by apply nextb_inner. }
  split; [done|]. cbn [path_at]. by rewrite nextb_idx, Hp.
Qed.

(** ** The shape of the tree *)

Definition tsize (n : nat) : nat := Z.to_nat (amdgpu_vm_pt_size adev (lev n) / 8).

Record vm_wf (vm : amdgpu_vm) : Prop := {
  wf_root : is_Some (tables vm !! []);
  wf_parent i q b : tables vm !! (i :: q) = Some b → is_Some (tables vm !! q) ∧ 0 ≤ i < entries (length q);
  wf_table p b : tables vm !! p = Some b → (length p ≤ depth)%nat ∧ freed b = false ∧ length (ptes b) = tsize (length p);
}.

Lemma tsize_entries n : (n ≤ depth)%nat → entries n ≤ Z.of_nat (tsize n) ≤ entries n + 512.
Proof.
  intros Hn. unfold tsize, amdgpu_vm_pt_size, AMDGPU_GPU_PAGE_ALIGN, AMDGPU_GPU_PAGE_SIZE. rewrite num_entries_at by done.
  pose proof (entries_pos n) as He. change (4096 - 1) with (Z.shiftl 1 12 - 1). rewrite ldiff_pow2 by lia. change (Z.shiftl 1 12 - 1) with 4095.
  change (2 ^ 12) with 4096. set (e := entries n) in *.
  pose proof (Z.div_mod (e * 8 + 4095) 4096 ltac:(lia)). pose proof (Z.mod_pos_bound (e * 8 + 4095) 4096 ltac:(lia)).
  replace ((e * 8 + 4095) / 4096 * 4096) with ((e * 8 + 4095) / 4096 * 512 * 8) by lia. rewrite Z.div_mul by lia. lia.
Qed.

Lemma wf_the_bo vm p b : vm_wf vm → tables vm !! p = Some b → the_bo vm p = Some b.
Proof. intros W Hp. unfold the_bo. rewrite Hp. simpl. by destruct (wf_table _ W p b Hp) as (_ & -> & _). Qed.

Lemma has_bo_true vm p b : tables vm !! p = Some b → has_bo vm p = true.
Proof. intros Hp. apply bool_decide_eq_true. by eexists. Qed.
Lemma has_bo_false vm p : tables vm !! p = None → has_bo vm p = false.
Proof. intros Hp. apply bool_decide_eq_false. rewrite Hp. by intros []. Qed.

(** Ancestors of a table are tables. *)
Lemma wf_ancestor vm n m x b : vm_wf vm → (n ≤ m)%nat → tables vm !! path_at m x = Some b → is_Some (tables vm !! path_at n x).
Proof.
  intros W Hn. revert b. induction Hn as [|m Hn IH]; intros b Hb; [by eexists|].
  destruct (wf_parent _ W _ _ _ Hb) as [[b' Hb'] _]. by eapply IH.
Qed.

(** A table is in the address space. *)
Lemma path_at_child n x i : (n < S depth)%nat → 0 ≤ x < limit → 0 ≤ i < entries n →
  ∃ y, 0 ≤ y < limit ∧ path_at n y = path_at n x ∧ idx n y = i.
Proof.
  intros Hn Hx Hi. pose proof (sh_pos n ltac:(lia)) as Hp. destruct n as [|n].
  - exists (i * 2 ^ sh 0). simpl in *. split; [unfold limit; split; nia|]. split; [done|].
    unfold cell. by rewrite Z.div_mul by lia.
  - simpl in Hi. pose proof (bits_pos (S n)) as Hb2. pose proof (pow2_pos (bits (S n)) ltac:(lia)) as Hp2.
    assert (Hs : 2 ^ sh n = 2 ^ sh (S n) * 2 ^ bits (S n)) by (rewrite (sh_step n), Z.pow_add_r by (try apply sh_bounds; lia); done).
    set (c := cell n x * 2 ^ bits (S n) + i).
    assert (Hc : cell (S n) (c * 2 ^ sh (S n)) = c) by (unfold cell; by rewrite Z.div_mul by lia).
    assert (Hcn : cell n (c * 2 ^ sh (S n)) = cell n x).
    { rewrite (cell_step n), Hc by lia. unfold c. rewrite Z.div_add_l, Z.div_small by lia. lia. }
    exists (c * 2 ^ sh (S n)). pose proof (cell_nonneg n x ltac:(lia) ltac:(lia)) as Hcell. split_and!.
    + unfold c. nia.
    + pose proof (nextb_limit n x ltac:(lia) Hx) as Hl. unfold nextb in Hl. unfold c. nia.
    + apply path_at_cell; [lia|done].
    + simpl. rewrite Hc. unfold c. rewrite Z.add_comm, Z.mod_add, Z.mod_small by lia. done.
Qed.

Lemma wf_place vm p b : vm_wf vm → tables vm !! p = Some b → ∃ x, 0 ≤ x < limit ∧ p = path_at (length p) x.
Proof.
  intros W. revert b. induction p as [|i q IH]; intros b Hb.
  { exists 0. split; [|done]. pose proof limit_bounds. pose proof (ok_pfn Hok). lia. }
  destruct (wf_parent _ W _ _ _ Hb) as [[b' Hb'] Hi]. destruct (wf_table _ W _ _ Hb) as (Hlen & _). simpl in Hlen.
  destruct (IH _ Hb') as (x & Hx & Hq). destruct (path_at_child (length q) x i) as (y & Hy & Hpy & Hiy); [lia|done|done|].
  exists y. split; [done|]. simpl. rewrite Hiy, Hpy. by f_equal.
Qed.

(** ** Translation *)

(** The entry [v] of depth [n] translates [x]. *)
Definition leaf (vm : amdgpu_vm) (n : nat) (x v : Z) : Prop :=
  ∃ b, tables vm !! path_at n x = Some b ∧ (n = depth ∨ tables vm !! path_at (S n) x = None) ∧
    ptes b !! Z.to_nat (idx n x) = Some v.

Lemma leaf_fun vm n m x v w : vm_wf vm → leaf vm n x v → leaf vm m x w → n = m ∧ v = w.
Proof.
  intros W (b & Hb & Hn & Hv) (b' & Hb' & Hm & Hw).
  assert (Hle : ∀ k l a a', tables vm !! path_at k x = Some a → (k = depth ∨ tables vm !! path_at (S k) x = None) →
    tables vm !! path_at l x = Some a' → (l ≤ k)%nat).
  { intros k l a a' Hk Hlast Hl. destruct (decide (l ≤ k)%nat) as [|Hgt]; [done|]. exfalso.
    destruct Hlast as [->|Hnone].
    - destruct (wf_table _ W _ _ Hl) as (Hlen & _). rewrite path_at_length in Hlen. lia.
    - destruct (wf_ancestor vm (S k) l x a' W ltac:(lia) Hl) as [? ?]. congruence. }
  assert (n = m) as <- by (apply Nat.le_antisymm; by eapply Hle). split; [done|]. congruence.
Qed.

Lemma leaf_total vm x : vm_wf vm → 0 ≤ x < limit → ∃ n v, leaf vm n x v ∧ (n ≤ depth)%nat.
Proof.
  intros W Hx.
  assert (Hgo : ∀ k n, (n + k = depth)%nat → is_Some (tables vm !! path_at n x) → ∃ n v, leaf vm n x v ∧ (n ≤ depth)%nat).
  { induction k as [|k IH]; intros n Hn [b Hb].
    - assert (n = depth) as -> by lia.
      destruct (lookup_lt_is_Some_2 (ptes b) (Z.to_nat (idx depth x))) as [v Hv].
      + destruct (wf_table _ W _ _ Hb) as (_ & _ & ->). rewrite path_at_length.
        pose proof (idx_bounds depth x ltac:(done) Hx). pose proof (tsize_entries depth ltac:(done)). lia.
      + exists depth, v. split; [|done]. exists b. split_and!; [done|by left|done].
    - destruct (tables vm !! path_at (S n) x) as [b'|] eqn:Hb'; [apply (IH (S n)); [lia|by eexists]|].
      destruct (lookup_lt_is_Some_2 (ptes b) (Z.to_nat (idx n x))) as [v Hv].
      + destruct (wf_table _ W _ _ Hb) as (_ & _ & ->). rewrite path_at_length.
        pose proof (idx_bounds n x ltac:(lia) Hx). pose proof (tsize_entries n ltac:(lia)). lia.
      + exists n, v. split; [|lia]. exists b. split_and!; [done|by right|done]. }
  apply (Hgo depth 0%nat); [lia|apply W].
Qed.
End Walk.
