(* ===== verification/VmCursor.v ===== *)
(** * Page tables: the cursor

    What the steps of the cursor do in a well-formed tree, that the loop of
    [amdgpu_vm_pt_next] finds the next cell, and that the depth first search frees
    exactly the tables under its start. *)

From S2P Require Import Prelude Vm VmWalk.
#[local] Open Scope Z_scope.
#[local] Open Scope list_scope.

Section Cursor.
Context (adev : amdgpu_device) (Hok : adev_ok adev).
Abbreviation depth := (depth adev).
Abbreviation lev := (lev adev).
Abbreviation sh := (sh adev).
Abbreviation cell := (cell adev).
Abbreviation idx := (idx adev).
Abbreviation path_at := (path_at adev).
Abbreviation entries := (entries adev).
Abbreviation limit := (limit adev).
Abbreviation nextb := (nextb adev).
Abbreviation vm_wf := (vm_wf adev).

(** The cursor at the table of depth [n] for [x]. *)
Definition cursor_at (n : nat) (x : Z) : amdgpu_vm_pt_cursor :=
  mk_cursor x (match n with O => None | S m => Some (path_at m x) end) (Some (path_at n x)) (lev n).

Lemma start_cursor x : amdgpu_vm_pt_start adev x = cursor_at 0 x.
Proof. unfold amdgpu_vm_pt_start, cursor_at, VmWalk.lev. simpl. f_equal. lia. Qed.

Lemma lev_S n : lev n + 1 = lev (S n).
Proof. unfold VmWalk.lev. lia. Qed.
Lemma lev_pred n : lev (S n) - 1 = lev n.
Proof. unfold VmWalk.lev. lia. Qed.

Lemma descendant_stop vm n x : (n ≤ depth)%nat → n = depth ∨ tables vm !! path_at n x = None →
  amdgpu_vm_pt_descendant adev vm (cursor_at n x) = Some (cursor_at n x, false).
Proof.
  intros Hn H. unfold amdgpu_vm_pt_descendant. cbn [entry cursor_at level]. rewrite lev_ptb by done.
  destruct H as [->|Hnone]; [by rewrite bool_decide_true|]. rewrite (has_bo_false _ _ Hnone). by rewrite orb_true_r.
Qed.

Lemma descendant_go vm n x b : (n < depth)%nat → 0 ≤ x < limit → tables vm !! path_at n x = Some b →
  amdgpu_vm_pt_descendant adev vm (cursor_at n x) = Some (cursor_at (S n) x, true).
Proof.
  intros Hn Hx Hb. unfold amdgpu_vm_pt_descendant. cbn [entry cursor_at level pfn]. rewrite lev_ptb by (done || lia).
  rewrite bool_decide_false by lia. rewrite (has_bo_true _ _ _ Hb). cbn [orb negb].
  change (amdgpu_vm_pt_level_shift adev (lev n)) with (sh n). rewrite idx_code by (done || lia).
  rewrite num_entries_at by (done || lia). pose proof (idx_bounds adev Hok n x ltac:(lia) Hx) as Hi.
  rewrite (proj2 (Z.ltb_lt _ _)) by lia. rewrite lev_S. done.
Qed.

Lemma sibling_root vm x : amdgpu_vm_pt_sibling adev vm (cursor_at 0 x) = Some (cursor_at 0 x, false).
Proof. done. Qed.

Lemma sibling_spec vm n x b : (n < depth)%nat → 0 ≤ x < limit → the_bo vm (path_at n x) = Some b →
  amdgpu_vm_pt_sibling adev vm (cursor_at (S n) x) =
    Some (if decide (idx n x = entries n - 1) then (cursor_at (S n) x, false) else (cursor_at (S n) (nextb n x), true)).
Proof.
  intros Hn Hx Hb. unfold amdgpu_vm_pt_sibling. cbn [parent cursor_at entry level pfn]. rewrite lev_pred, Hb.
  cbn [mbind option_bind VmWalk.path_at]. rewrite num_entries_at by (done || lia).
  pose proof (idx_bounds adev Hok n x ltac:(lia) Hx) as Hi.
  destruct (decide (idx n x = entries n - 1)) as [Heq|Hne].
  - rewrite bool_decide_true by by rewrite Heq. done.
  - rewrite bool_decide_false by congruence. f_equal. f_equal. unfold cursor_at.
    destruct (path_at_nextb adev Hok n x) as [-> ->]; [lia|lia|].
    change (amdgpu_vm_pt_level_shift adev (lev n)) with (sh n). f_equal.
    pose proof (sh_bounds adev Hok n ltac:(lia)). pose proof (sh_pos adev Hok n ltac:(lia)).
    rewrite ldiff_pow2, Z.shiftl_1_l by lia. pose proof (limit_bounds adev Hok) as [_ Hl].
    assert (2 ^ sh n ≤ 2 ^ 31) by (apply Z.pow_le_mono_r; lia).
    rewrite wrap_small by (unfold in_width; lia). unfold VmWalk.nextb, VmWalk.cell. f_equal.
    replace (x + 2 ^ sh n) with (x + 1 * 2 ^ sh n) by lia. rewrite Z.div_add by lia. done.
Qed.

Lemma ancestor_root vm x : amdgpu_vm_pt_ancestor vm (cursor_at 0 x) = Some (cursor_at 0 x, false).
Proof. done. Qed.

Lemma ancestor_spec vm n x b : the_bo vm (path_at n x) = Some b →
  (∀ m, n = S m → is_Some (tables vm !! path_at m x)) →
  amdgpu_vm_pt_ancestor vm (cursor_at (S n) x) = Some (cursor_at n x, true).
Proof.
  intros Hb Hp. unfold amdgpu_vm_pt_ancestor. cbn [parent cursor_at]. unfold amdgpu_vm_pt_parent. rewrite Hb.
  cbn [mbind option_bind]. destruct n as [|n]; cbn [VmWalk.path_at mbind option_bind level pfn cursor_at]; rewrite lev_pred; [done|].
  destruct (Hp n eq_refl) as [b' Hb']. by rewrite (has_bo_true _ _ _ Hb').
Qed.

(** ** The next cell *)

(** Up the tree from a cell of depth [n] (an entry of depth [S n]): the cursor gets to
    the start of the next cell, in some table that is there, or to the end. *)
Definition moved_on (vm : amdgpu_vm) (B : Z) (c : amdgpu_vm_pt_cursor) : Prop :=
  (B < limit ∧ ∃ m, (m < depth)%nat ∧ is_Some (tables vm !! path_at m B) ∧ c = cursor_at (S m) B ∧
     ∀ k, (k < m)%nat → is_Some (tables vm !! path_at k B)) ∨
  (limit ≤ B ∧ pfn c = 2 ^ 64 - 1).

Lemma the_bo_is vm p b : the_bo vm p = Some b → is_Some (tables vm !! p).
Proof. unfold the_bo. destruct (tables vm !! p); [by eexists|done]. Qed.

Lemma next_inside n x : (n < depth)%nat → 0 ≤ x < limit → idx n x ≠ entries n - 1 → nextb n x < limit.
Proof.
  intros Hn Hx Hne. pose proof (idx_bounds adev Hok n x ltac:(lia) Hx) as Hi. pose proof (nextb_limit adev Hok n x ltac:(lia) Hx) as Hle.
  destruct (decide (nextb n x = limit)) as [Heq|]; [|lia]. exfalso.
  assert (H0 : cell 0 (nextb n x) = root_entries adev).
  { rewrite Heq. unfold VmWalk.cell, VmWalk.limit. apply Z.div_mul. pose proof (sh_pos adev Hok 0 ltac:(lia)). lia. }
  destruct n as [|n].
  - simpl in Hne, Hi. rewrite cell_nextb in H0 by (done || lia). lia.
  - assert (cell 0 (nextb (S n) x) = cell 0 x) by (apply (cell_coarser adev Hok 0 n); [lia|]; apply nextb_inner; (done || lia)).
    pose proof (idx_bounds adev Hok 0 x ltac:(lia) Hx) as Hi0. simpl in Hi0. lia.
Qed.

Lemma next_up_spec vm n x fuel : (n < depth)%nat → 0 ≤ x < limit → (n < fuel)%nat →
  (∀ m, (m ≤ n)%nat → ∃ b, the_bo vm (path_at m x) = Some b) →
  ∃ c, next_up adev fuel vm (cursor_at (S n) x) = Some c ∧ moved_on vm (nextb n x) c.
Proof.
  revert fuel. induction n as [|n IH]; intros fuel Hn Hx Hfuel Hchain; (destruct fuel as [|fuel]; [lia|]); cbn [next_up].
  - destruct (Hchain 0%nat ltac:(done)) as [b Hb]. rewrite (sibling_spec vm 0 x b Hn Hx Hb). cbn [mbind option_bind].
    destruct (decide _) as [Hl|Hl].
    + rewrite (ancestor_spec _ _ _ b Hb) by done. cbn [mbind option_bind negb].
      destruct fuel; cbn [next_up]; rewrite sibling_root; cbn [mbind option_bind]; rewrite ancestor_root; cbn [mbind option_bind negb];
        (eexists; split; [done|]; right; by rewrite nextb_root_last).
    + eexists. split; [done|]. left. split; [by apply next_inside|]. exists 0%nat. split_and!; [lia|by eapply the_bo_is|done|lia].
  - destruct (Hchain (S n) ltac:(done)) as [b Hb]. rewrite (sibling_spec vm (S n) x b Hn Hx Hb). cbn [mbind option_bind].
    destruct (decide _) as [Hl|Hl].
    + rewrite (ancestor_spec _ _ _ b Hb).
      2:{ intros m [= <-]. destruct (Hchain n ltac:(lia)) as [b' Hb']. by eapply the_bo_is. }
      cbn [mbind option_bind negb]. destruct (IH fuel) as (c & -> & Hc); [lia|done|lia| |].
      { intros m Hm. apply Hchain. lia. }
      exists c. split; [done|]. rewrite nextb_last; [done|done|lia|done].
    + eexists. split; [done|]. left. split; [by apply next_inside|]. exists (S n).
      pose proof (idx_bounds adev Hok (S n) x ltac:(lia) Hx) as Hi.
      destruct (path_at_nextb adev Hok (S n) x) as [Hp _]; [lia|lia|]. split_and!.
      * lia.
      * rewrite Hp. by eapply the_bo_is.
      * done.
      * intros k Hk. rewrite (path_at_coarser adev k (S n) _ x) by (done || lia). destruct (Hchain k ltac:(lia)) as [b' Hb']. by eapply the_bo_is.
Qed.

Lemma cursor_entry_length n x : length (default [] (entry (cursor_at n x))) = n.
Proof. apply path_at_length. Qed.

(** [amdgpu_vm_pt_next] where there is nothing below. *)
Lemma next_spec vm n x : (n < depth)%nat → 0 ≤ x < limit → S n = depth ∨ tables vm !! path_at (S n) x = None →
  (∀ m, (m ≤ n)%nat → ∃ b, the_bo vm (path_at m x) = Some b) →
  ∃ c, amdgpu_vm_pt_next adev vm (cursor_at (S n) x) = Some c ∧ moved_on vm (nextb n x) c.
Proof.
  intros Hn Hx Hstop Hchain. unfold amdgpu_vm_pt_next. rewrite descendant_stop by (done || lia). cbn [mbind option_bind].
  rewrite cursor_entry_length. apply next_up_spec; (done || lia).
Qed.

(** ** Depth first search *)

(** Down from a table to the first place where the tree ends. *)
Definition bottom (vm : amdgpu_vm) (n m : nat) (x : Z) : Prop :=
  (n ≤ m ≤ depth)%nat ∧ (m = depth ∨ tables vm !! path_at m x = None) ∧
  ∀ k, (n ≤ k < m)%nat → is_Some (tables vm !! path_at k x).

Lemma bottom_exists vm n x : (n ≤ depth)%nat → ∃ m, bottom vm n m x.
Proof.
  intros Hn. assert (Hgo : ∀ j n, (n + j = depth)%nat → ∃ m, bottom vm n m x).
  { induction j as [|j IH]; intros k Hk.
    - exists k. split; [lia|]. split; [left; lia|lia].
    - destruct (tables vm !! path_at k x) as [b|] eqn:Hb.
      + destruct (IH (S k)) as (m & Hm1 & Hm2 & Hm3); [lia|]. exists m. split; [lia|]. split; [done|].
        intros l Hl. destruct (decide (l = k)) as [->|]; [by eexists|]. apply Hm3. lia.
      + exists k. split; [lia|]. split; [by right|lia]. }
  apply (Hgo (depth - n)%nat). lia.
Qed.

Lemma bottom_fun vm n m m' x : bottom vm n m x → bottom vm n m' x → m = m'.
Proof.
  intros (H1 & H2 & H3) (H1' & H2' & H3'). destruct (decide (m < m')%nat) as [Hlt|].
  - destruct H2 as [->|H2]; [lia|]. destruct (H3' m ltac:(lia)) as [? ?]. congruence.
  - destruct (decide (m' < m)%nat) as [Hlt|]; [|lia].
    destruct H2' as [->|H2']; [lia|]. destruct (H3 m' ltac:(lia)) as [? ?]. congruence.
Qed.

Lemma bottom_agree vm vm' n m x : (∀ k, (n ≤ k)%nat → tables vm' !! path_at k x = tables vm !! path_at k x) →
  bottom vm n m x → bottom vm' n m x.
Proof.
  intros Heq (H1 & H2 & H3). split; [done|]. split; [by rewrite Heq by lia|]. intros k Hk. rewrite Heq by lia. by apply H3.
Qed.

Lemma descend_bottom vm n m x fuel : 0 ≤ x < limit → bottom vm n m x → (m - n ≤ fuel)%nat →
  descend_all adev fuel vm (cursor_at n x) = Some (cursor_at m x).
Proof.
  intros Hx. revert n. induction fuel as [|fuel IH]; intros n (H1 & H2 & H3) Hf; cbn [descend_all].
  - assert (m = n) as -> by lia. rewrite descendant_stop by (done || lia). done.
  - destruct (decide (n = m)) as [->|Hne]; [rewrite descendant_stop by (done || lia); done|].
    destruct (H3 n ltac:(lia)) as [b Hb]. rewrite (descendant_go _ _ _ b) by (done || lia). cbn [mbind option_bind negb].
    apply IH; [|lia]. split; [lia|]. split; [done|]. intros k Hk. apply H3. lia.
Qed.

Lemma next_dfs_last vm n x b : (n < depth)%nat → 0 ≤ x < limit → the_bo vm (path_at n x) = Some b →
  (∀ m, n = S m → is_Some (tables vm !! path_at m x)) → idx n x = entries n - 1 →
  amdgpu_vm_pt_next_dfs adev vm (cursor_at (S n) x) = Some (cursor_at n x).
Proof.
  intros Hn Hx Hb Hp Hl. unfold amdgpu_vm_pt_next_dfs. cbn [entry parent cursor_at].
  change (mk_cursor x (Some (path_at n x)) (Some (path_at (S n) x)) (lev (S n))) with (cursor_at (S n) x).
  rewrite (sibling_spec _ _ _ _ Hn Hx Hb). rewrite decide_True by done. cbn [mbind option_bind].
  rewrite (ancestor_spec _ _ _ b Hb Hp). done.
Qed.

Lemma next_dfs_sibling vm n x b m : (n < depth)%nat → 0 ≤ x < limit → the_bo vm (path_at n x) = Some b →
  idx n x ≠ entries n - 1 → bottom vm (S n) m (nextb n x) →
  amdgpu_vm_pt_next_dfs adev vm (cursor_at (S n) x) = Some (cursor_at m (nextb n x)).
Proof.
  intros Hn Hx Hb Hl Hbot. unfold amdgpu_vm_pt_next_dfs. cbn [entry parent cursor_at].
  change (mk_cursor x (Some (path_at n x)) (Some (path_at (S n) x)) (lev (S n))) with (cursor_at (S n) x).
  rewrite (sibling_spec _ _ _ _ Hn Hx Hb). rewrite decide_False by done. cbn [mbind option_bind].
  pose proof (nextb_bounds adev Hok n x ltac:(lia)). pose proof (next_inside n x Hn Hx Hl).
  apply descend_bottom; [lia|done|]. destruct Hbot as (? & _). pose proof (depth_bounds adev Hok). lia.
Qed.

(** Tables that are gone. *)
Record cut (vm vm' : amdgpu_vm) (P : path → Prop) : Prop := {
  cut_out k : P k → tables vm' !! k = None;
  cut_in k : ¬ P k → tables vm' !! k = tables vm !! k;
  cut_relocated k : k ∈ relocated vm' ↔ k ∈ relocated vm ∧ ¬ (P k ∧ is_Some (tables vm !! k));
  cut_freed : pt_freed vm = [] → pt_freed vm' = [];
  cut_rest : pte_support_ats vm' = pte_support_ats vm ∧ queries vm' = queries vm;
}.

Lemma cut_refl vm P : (∀ k, P k → tables vm !! k = None) → cut vm vm P.
Proof.
  intros H. split; try done. intros k. split; [|tauto]. intros Hk. split; [done|].
  intros [HP [b Hb]]. rewrite (H k HP) in Hb. done.
Qed.

Lemma cut_compose vm vm1 vm2 P Q R : (∀ k, R k ↔ P k ∨ Q k) → (∀ k, Decision (P k)) → (∀ k, Decision (Q k)) →
  cut vm vm1 P → cut vm1 vm2 Q → cut vm vm2 R.
Proof.
  intros HR HP HQ [A1 A2 A3 A4 [A5 A6]] [B1 B2 B3 B4 [B5 B6]]. split.
  - intros k Hk. destruct (HQ k) as [Hq|Hq]; [by apply B1|]. rewrite B2 by done. apply A1. apply HR in Hk. tauto.
  - intros k Hk. rewrite HR in Hk. rewrite B2, A2; tauto.
  - intros k. rewrite B3, A3, HR. destruct (HP k) as [Hp|Hp].
    + rewrite (A1 k Hp). split; [intros ((? & ?) & _); tauto|]. intros (? & Hn). split; [tauto|]. intros (_ & [? [=]]).
    + rewrite (A2 k Hp). tauto.
  - auto.
  - split; congruence.
Qed.

Lemma cut_wf vm vm' P : vm_wf vm → cut vm vm' P → ¬ P [] → (∀ i q, P q → P (i :: q)) → (∀ k, Decision (P k)) → vm_wf vm'.
Proof.
  intros W [C1 C2 _ _ _] Hroot Hup HP. split.
  - rewrite C2 by done. apply W.
  - intros i q b Hb. destruct (HP (i :: q)) as [Hp|Hp]; [rewrite C1 in Hb by done; done|]. rewrite C2 in Hb by done.
    destruct (wf_parent _ _ W _ _ _ Hb) as [Hq Hi]. split; [|done]. rewrite C2; [done|]. naive_solver.
  - intros p b Hb. destruct (HP p) as [Hp|Hp]; [rewrite C1 in Hb by done; done|]. rewrite C2 in Hb by done. by apply (wf_table _ _ W).
Qed.

Lemma elem_of_list_del p q l : p ∈ list_del_path q l ↔ p ≠ q ∧ p ∈ l.
Proof. unfold list_del_path. by rewrite list_elem_of_filter. Qed.

(** A table without children is freed. *)
Lemma pt_free_spec vm p : (∀ b, tables vm !! p = Some b → freed b = false) →
  ∃ vm', amdgpu_vm_pt_free vm p = Some vm' ∧ cut vm vm' (λ k, k = p).
Proof.
  intros Hf. unfold amdgpu_vm_pt_free. destruct (tables vm !! p) as [b|] eqn:Hb.
  - rewrite (has_bo_true _ _ _ Hb). unfold the_bo. rewrite Hb. cbn [mbind option_bind negb]. rewrite (Hf b eq_refl).
    eexists. split; [done|]. split; simpl.
    + intros k ->. apply lookup_delete_eq.
    + intros k Hk. by apply lookup_delete_ne.
    + intros k. rewrite elem_of_list_del. split; [intros [? ?]; split; [done|]; tauto|].
      intros [? Hn]. split; [|done]. intros ->. apply Hn. split; [done|by eexists].
    + by intros ->.
    + done.
  - rewrite (has_bo_false _ _ Hb). cbn [negb]. exists vm. split; [done|]. apply cut_refl. by intros k ->.
Qed.

(** The tables under [p], and [p] itself. *)
Definition below (p k : path) : Prop := p `suffix_of` k ∧ k ≠ p.
Definition under (p k : path) : Prop := p `suffix_of` k.

Lemma suffix_cons_inv (p k : path) : p `suffix_of` k → k = p ∨ ∃ i, (i :: p) `suffix_of` k.
Proof.
  intros [l ->]. destruct (decide (l = [])) as [->|Hne]; [by left|right].
  destruct (exists_last Hne) as (l' & i & ->). exists i. exists l'. by rewrite <- app_assoc.
Qed.

Lemma below_children p k : below p k ↔ ∃ i, under (i :: p) k.
Proof.
  unfold below, under. split.
  - intros [Hs Hne]. by destruct (suffix_cons_inv p k Hs).
  - intros [i Hi]. split; [by eapply suffix_cons_l|]. intros ->. apply suffix_length in Hi. simpl in Hi. lia.
Qed.

Lemma under_at n m x p : under (path_at n x) p → p = path_at m x → (n ≤ m)%nat.
Proof. intros H ->. apply suffix_length in H. by rewrite !path_at_length in H. Qed.

Lemma under_path n m x y : (n ≤ m)%nat → under (path_at n x) (path_at m y) ↔ path_at n y = path_at n x.
Proof.
  intros Hn. split.
  - intros Hs. induction Hn as [|m Hn IH].
    + destruct Hs as [l Hl]. pose proof (f_equal length Hl) as Hlen. rewrite length_app, !path_at_length in Hlen.
      destruct l; [done|simpl in Hlen; lia].
    + apply suffix_cons_inv in Hs as Hs'. destruct Hs as [l Hl]. destruct l as [|i l].
      * pose proof (f_equal length Hl) as Hlen. rewrite path_at_length in Hlen. simpl in Hlen. rewrite path_at_length in Hlen. lia.
      * cbn [VmWalk.path_at] in Hl. injection Hl as _ Hl. apply IH. by exists l.
  - intros <-. induction Hn as [|m Hn IH]; [by exists []|]. destruct IH as [l Hl]. exists (idx m y :: l). cbn [VmWalk.path_at]. by rewrite Hl.
Qed.
End Cursor.
