(* ===== verification/VmDfs.v ===== *)
(** * Page tables: freeing a part of the tree

    The search of [amdgpu_vm_pt_free_dfs] meets every table under its start once, those
    below before those above, and ends there: exactly those tables are gone. *)

From S2P Require Import Prelude Vm VmWalk VmCursor.
#[local] Open Scope Z_scope.
#[local] Open Scope list_scope.

Section Dfs.
Context (adev : amdgpu_device) (Hok : adev_ok adev).
Abbreviation depth := (depth adev).
Abbreviation sh := (sh adev).
Abbreviation cell := (cell adev).
Abbreviation idx := (idx adev).
Abbreviation path_at := (path_at adev).
Abbreviation entries := (entries adev).
Abbreviation limit := (limit adev).
Abbreviation nextb := (nextb adev).
Abbreviation vm_wf := (vm_wf adev).
Abbreviation cursor_at := (cursor_at adev).
Abbreviation next_dfs := (amdgpu_vm_pt_next_dfs adev).
Abbreviation bottom := (bottom adev).

(** ** Children *)

#[local] Instance under_dec p k : Decision (under p k).
Proof. unfold under. apply _. Defined.
#[local] Instance below_dec p k : Decision (below p k).
Proof. unfold below. apply _. Defined.

(** The index of the child of [p] that [k] is under. *)
Definition child_of (p k : path) : Z := default 0 (k !! (length k - length p - 1)%nat).

Lemma under_child p i k : under (i :: p) k ↔ below p k ∧ child_of p k = i.
Proof.
  split.
  - intros Hu. split; [apply below_children; by exists i|]. destruct Hu as [l ->]. unfold child_of.
    rewrite length_app. simpl. replace (length l + S (length p) - length p - 1)%nat with (length l + 0)%nat by lia.
    by rewrite lookup_app_r, Nat.add_0_r, Nat.sub_diag by lia.
  - intros [Hb Hi]. apply below_children in Hb as [j Hj]. assert (j = i) as <-; [|done].
    destruct Hj as [l ->]. rewrite <- Hi. unfold child_of. rewrite length_app. simpl.
    replace (length l + S (length p) - length p - 1)%nat with (length l + 0)%nat by lia.
    by rewrite lookup_app_r, Nat.add_0_r, Nat.sub_diag by lia.
Qed.

(** The tables under the children of [p] from the [i]th on. *)
Definition from_child (p : path) (i : Z) (k : path) : Prop := below p k ∧ i ≤ child_of p k.
#[local] Instance from_child_dec p i k : Decision (from_child p i k).
Proof. unfold from_child. apply _. Defined.

Lemma from_child_step p i k : from_child p i k ↔ under (i :: p) k ∨ from_child p (i + 1) k.
Proof.
  rewrite under_child. unfold from_child. split; [intros [? ?]; destruct (decide (child_of p k = i)); [by left|right; split; [done|lia]]|].
  intros [[? ?]|[? ?]]; (split; [done|lia]).
Qed.

(** A table that is there is under a child that is. *)
Lemma table_child vm p k b : vm_wf vm → tables vm !! k = Some b → below p k → 0 ≤ child_of p k < entries (length p).
Proof.
  intros W Hk Hb. apply below_children in Hb as [i Hi]. pose proof (proj1 (under_child p i k) Hi) as [_ ->].
  destruct Hi as [l ->]. revert b Hk. induction l as [|j l IH]; intros b Hk; simpl in *.
  - by destruct (wf_parent _ _ W _ _ _ Hk).
  - destruct (wf_parent _ _ W _ _ _ Hk) as [[b' Hb'] _]. by eapply IH.
Qed.

Lemma cut_more vm vm' (P Q : path → Prop) : (∀ k, P k → Q k) → (∀ k, Q k → P k ∨ tables vm !! k = None) →
  (∀ k, Decision (P k)) → cut vm vm' P → cut vm vm' Q.
Proof.
  intros HPQ HQ HP [C1 C2 C3 C4 C5]. split; try done.
  - intros k Hk. destruct (HP k) as [Hp|Hp]; [by apply C1|]. rewrite C2 by done. by destruct (HQ k Hk).
  - intros k Hk. apply C2. intros Hp. by apply Hk, HPQ.
  - intros k. rewrite C3. split; intros [? Hn]; (split; [done|]); intros [Hp [b Hb]]; apply Hn; (split; [|by eexists]).
    + destruct (HQ k Hp); [done|congruence].
    + by apply HPQ.
Qed.

(** ** Turns of the search *)

Section Start.
Context (start : option amdgpu_vm_pt_cursor).
Abbreviation step := (dfs_step adev start amdgpu_vm_pt_free).
(** The entry at which the search stops, without being freed by it. *)
Definition is_start (k : path) : Prop := match start with Some s => Some k = entry s | None => False end.

(** From a state that is about to look at an entry to another such state. *)
Definition reach (t : Z) (vm : amdgpu_vm) (c : amdgpu_vm_pt_cursor) (vm' : amdgpu_vm) (c' : amdgpu_vm_pt_cursor) : Prop :=
  ∃ c1 c1', next_dfs vm c = Some c1 ∧ next_dfs vm' c' = Some c1' ∧ turns step t (vm, c1, entry c) (vm', c1', entry c').

Lemma reach_refl vm c c1 : next_dfs vm c = Some c1 → reach 0 vm c vm c.
Proof. intros H. exists c1, c1. split_and!; [done|done|]. by apply turns_O. Qed.

Lemma reach_trans t1 t2 vm1 c1 vm2 c2 vm3 c3 : reach t1 vm1 c1 vm2 c2 → reach t2 vm2 c2 vm3 c3 → reach (t1 + t2) vm1 c1 vm3 c3.
Proof.
  intros (a & b & H1 & H2 & H3) (a' & b' & H1' & H2' & H3'). exists a, b'. split_and!; [done|done|].
  assert (a' = b) as -> by congruence. by eapply turns_app.
Qed.

Lemma reach_weaken t t' vm c vm' c' : reach t vm c vm' c' → t ≤ t' → reach t' vm c vm' c'.
Proof. intros (a & b & H1 & H2 & H3) Ht. exists a, b. split_and!; [done|done|]. by eapply turns_weaken. Qed.

Lemma reach_step vm c c1 c2 e vm' : next_dfs vm c = Some c1 → entry c = Some e → ¬ is_start e →
  amdgpu_vm_pt_free vm e = Some vm' → next_dfs vm' c1 = Some c2 → reach 1 vm c vm' c1.
Proof.
  intros Hc He Hne Hf Hc1. exists c1, c2. split_and!; [done|done|]. apply turns_one. unfold dfs_step, amdgpu_vm_pt_continue_dfs.
  rewrite He, bool_decide_true by by eexists.
  assert (match start with None => true | Some s => bool_decide (Some e ≠ entry s) end = true) as ->.
  { unfold is_start in Hne. destruct start; [|done]. by apply bool_decide_eq_true. }
  cbn [andb negb mbind option_bind]. rewrite Hf. cbn [mbind option_bind]. by rewrite Hc1.
Qed.

(** Turns under a table of which [j] levels are below. *)
Fixpoint visits (j : nat) : Z := match j with O => 0 | S j => 512 * (visits j + 1) end.
Lemma visits_nonneg j : 0 ≤ visits j.
Proof. induction j; simpl; lia. Qed.

Lemma next_dfs_total vm n x : vm_wf vm → (n < depth)%nat → 0 ≤ x < limit → is_Some (tables vm !! path_at n x) →
  ∃ c, next_dfs vm (cursor_at (S n) x) = Some c.
Proof.
  intros W Hn Hx [b Hb]. pose proof (wf_the_bo _ _ _ _ W Hb) as Hbo.
  destruct (decide (idx n x = entries n - 1)) as [Hl|Hl].
  - exists (cursor_at n x). apply (next_dfs_last adev Hok vm n x b); try done. intros m ->.
    by destruct (wf_parent _ _ W _ _ _ Hb).
  - destruct (bottom_exists adev vm (S n) (nextb n x)) as [m Hm]; [lia|]. eexists.
    by apply (next_dfs_sibling adev Hok vm n x b m).
Qed.

Lemma next_dfs_any vm d x : vm_wf vm → (d ≤ depth)%nat → 0 ≤ x < limit → is_Some (tables vm !! path_at d x) →
  ∃ c, next_dfs vm (cursor_at d x) = Some c.
Proof.
  intros W Hd Hx [b Hb]. destruct d as [|n]; [by eexists|]. apply next_dfs_total; [done|lia|done|]. by destruct (wf_parent _ _ W _ _ _ Hb).
Qed.

(** [x] is where the table of depth [d] for it starts. *)
Definition region (d : nat) (x : Z) : Prop := match d with O => x = 0 | S n => x = cell n x * 2 ^ sh n end.
Definition child_start (d : nat) (x i : Z) : Z := x + i * 2 ^ sh d.

Lemma child_count n : (S n < depth)%nat → entries (S n) = 512.
Proof. intros Hn. simpl. unfold bits. by rewrite decide_False by lia. Qed.

Lemma child_start_spec d x i : (d < depth)%nat → 0 ≤ x < limit → region d x → 0 ≤ i < entries d →
  0 ≤ child_start d x i < limit ∧ path_at d (child_start d x i) = path_at d x ∧ idx d (child_start d x i) = i ∧
  cell d (child_start d x i) * 2 ^ sh d = child_start d x i.
Proof.
  intros Hd Hx Hal Hi. unfold child_start. pose proof (sh_pos adev Hok d ltac:(lia)) as Hp. destruct d as [|n].
  - simpl in Hal. subst x. rewrite Z.add_0_l. simpl in Hi. unfold VmWalk.cell at 1, VmWalk.limit. simpl VmWalk.idx. unfold VmWalk.cell.
    rewrite Z.div_mul by lia. split; [nia|]. by split.
  - simpl in Hi, Hal. pose proof (bits_pos adev Hok (S n)) as Hb. set (e := 2 ^ bits adev (S n)) in *.
    assert (Hs : 2 ^ sh n = 2 ^ sh (S n) * e).
    { rewrite (sh_step adev Hok n) by lia. rewrite Z.pow_add_r; [done|apply sh_bounds; (done || lia)|lia]. }
    assert (Hc : cell (S n) (x + i * 2 ^ sh (S n)) = cell n x * e + i).
    { unfold VmWalk.cell at 1. rewrite Hal at 1. rewrite Hs. replace (cell n x * (2 ^ sh (S n) * e) + i * 2 ^ sh (S n)) with
        ((cell n x * e + i) * 2 ^ sh (S n)) by lia. rewrite Z.div_mul by lia. done. }
    assert (Hcn : cell n (x + i * 2 ^ sh (S n)) = cell n x).
    { rewrite (cell_step adev Hok n), Hc by lia. fold e. rewrite Z.div_add_l, Z.div_small by lia. lia. }
    assert (Hlim : x + i * 2 ^ sh (S n) < limit).
    { pose proof (nextb_limit adev Hok n x ltac:(lia) Hx) as Hl. unfold VmWalk.nextb in Hl. nia. }
    split; [lia|]. split; [by apply path_at_cell; [done|lia|]|]. split.
    + simpl. rewrite Hc. fold e. rewrite Z.add_comm, Z.mod_add, Z.mod_small by lia. done.
    + rewrite Hc. rewrite Hal at 2. rewrite Hs. lia.
Qed.

Definition not_start (p : path) : Prop := ∀ k, below p k → ¬ is_start k.

(** From the first place under a table to the table, all below freed; [j] levels are
    below. *)
Definition visited (j : nat) : Prop := ∀ n x vm m, (S n + j = depth)%nat → vm_wf vm → 0 ≤ x < limit →
  x = cell n x * 2 ^ sh n → is_Some (tables vm !! path_at n x) → not_start (path_at (S n) x) → bottom vm (S n) m x →
  ∃ vm' x', 0 ≤ x' < limit ∧ path_at (S n) x' = path_at (S n) x ∧ cut vm vm' (below (path_at (S n) x)) ∧
    reach (visits j) vm (cursor_at m x) vm' (cursor_at (S n) x').

Lemma cut_below_wf vm vm' p : vm_wf vm → cut vm vm' (below p) → vm_wf vm'.
Proof.
  intros W C. apply (cut_wf adev vm vm' _ W C); [by intros [Hs%suffix_nil_inv Hne]| |apply _].
  intros i q [Hs Hne]. split; [by apply suffix_cons_r|]. intros <-. apply suffix_length in Hs. simpl in Hs. lia.
Qed.

Lemma cut_under_wf vm vm' i p : vm_wf vm → cut vm vm' (under (i :: p)) → vm_wf vm'.
Proof.
  intros W C. apply (cut_wf adev vm vm' _ W C); [by intros Hs%suffix_nil_inv| |apply _].
  intros j q Hs. by apply suffix_cons_r.
Qed.

Lemma not_under_shorter p k : (length k < length p)%nat → ¬ under p k.
Proof. intros Hl Hu. apply suffix_length in Hu. lia. Qed.

Lemma cut_parent vm vm' n x y (P : path → Prop) : (∀ k, P k → under (path_at (S n) y) k) → cut vm vm' P →
  path_at n x = path_at n y → tables vm' !! path_at n x = tables vm !! path_at n x.
Proof.
  intros HP C Hq. apply (cut_in _ _ _ C). intros Hk%HP. revert Hk. apply not_under_shorter. rewrite !path_at_length. lia.
Qed.

(** One child: what is below it, then the child. *)
Lemma visit_child j d x vm m : visited j → (S d + j = depth)%nat → vm_wf vm → 0 ≤ x < limit →
  x = cell d x * 2 ^ sh d → is_Some (tables vm !! path_at d x) → not_start (path_at d x) →
  bottom vm (S d) m x → ∃ vm1 vm2 x1, 0 ≤ x1 < limit ∧ path_at (S d) x1 = path_at (S d) x ∧
    vm_wf vm1 ∧ vm_wf vm2 ∧ cut vm vm1 (below (path_at (S d) x)) ∧ cut vm vm2 (under (path_at (S d) x)) ∧
    reach (visits j) vm (cursor_at m x) vm1 (cursor_at (S d) x1) ∧
    ∀ c c', next_dfs vm1 (cursor_at (S d) x1) = Some c → next_dfs vm2 c = Some c' →
      reach 1 vm1 (cursor_at (S d) x1) vm2 c.
Proof.
  intros Hj Hn W Hx Hal Hp Hns Hbot.
  assert (Hns' : not_start (path_at (S d) x)).
  { intros k Hk. apply Hns. apply below_children. exists (idx d x). by apply Hk. }
  destruct (Hj d x vm m Hn W Hx Hal Hp Hns' Hbot) as (vm1 & x1 & Hx1 & Hp1 & C1 & R1).
  pose proof (cut_below_wf _ _ _ W C1) as W1.
  destruct (pt_free_spec vm1 (path_at (S d) x1)) as (vm2 & Hf & C2); [by intros b Hb; destruct (wf_table _ _ W1 _ _ Hb) as (_ & ? & _)|].
  assert (C : cut vm vm2 (under (path_at (S d) x))).
  { apply (cut_compose vm vm1 vm2 (below (path_at (S d) x)) (λ k, k = path_at (S d) x1)); try apply _; [|done|done].
    intros k. rewrite Hp1. unfold below, under. split; [intros ?; destruct (decide (k = path_at (S d) x)); tauto|].
    by intros [[? _]| ->]. }
  exists vm1, vm2, x1. pose proof (cut_under_wf _ _ _ _ W C). split; [done|]. split_and!; try done. intros c c' Hc Hc'.
  eapply reach_step; [done|done| |done|done]. apply Hns. rewrite Hp1. apply below_children. by exists (idx d x).
Qed.

(** The rest of the children of a table, from the [i]th. *)
Lemma visit_children j d x : visited j → (S d + j = depth)%nat → 0 ≤ x < limit → region d x →
  not_start (path_at d x) → ∀ r i vm m, Z.of_nat i + Z.of_nat r = entries d - 1 → vm_wf vm → is_Some (tables vm !! path_at d x) →
  bottom vm (S d) m (child_start d x (Z.of_nat i)) →
  ∃ vm' x', 0 ≤ x' < limit ∧ path_at d x' = path_at d x ∧ cut vm vm' (from_child (path_at d x) (Z.of_nat i)) ∧
    reach ((Z.of_nat r + 1) * (visits j + 1)) vm (cursor_at m (child_start d x (Z.of_nat i))) vm' (cursor_at d x').
Proof.
  intros Hj Hn Hx Hal Hns. induction r as [|r IH]; intros i vm m Hi W Hp Hbot.
  all: destruct (child_start_spec d x (Z.of_nat i) ltac:(lia) Hx Hal ltac:(lia)) as (Hy & Hpy & Hiy & Hay).
  all: set (y := child_start d x (Z.of_nat i)) in *.
  all: destruct (visit_child j d y vm m) as (vm1 & vm2 & y1 & Hy1 & Hp1 & W1 & W2 & C1 & C2 & R1 & R2);
    [done|done|done|done|by symmetry|by rewrite Hpy|by rewrite Hpy|done|].
  all: assert (Hq : path_at d y1 = path_at d x) by (rewrite <- Hpy; by apply (path_at_coarser adev d (S d)); [lia|]).
  all: pose proof (proj1 (path_at_S adev Hok d _ _ ltac:(lia)) Hp1) as Hcell.
  all: assert (Hi1 : idx d y1 = Z.of_nat i) by (rewrite <- Hiy; apply idx_cell; (done || lia)).
  all: assert (P1 : is_Some (tables vm1 !! path_at d y1)) by (rewrite (cut_parent _ _ _ _ y _ (λ k, @proj1 _ _) C1) by congruence; by rewrite Hq).
  all: assert (P2 : is_Some (tables vm2 !! path_at d y1)) by (rewrite (cut_parent _ _ _ _ y _ (λ k, id) C2) by congruence; by rewrite Hq).
  all: pose proof P1 as [b1 Hb1].
  all: assert (Hpath : path_at (S d) y = Z.of_nat i :: path_at d x) by (cbn [VmWalk.path_at]; rewrite <- Hiy; f_equal; exact Hpy).
  - pose proof (next_dfs_last adev Hok vm1 d y1 b1 ltac:(lia) Hy1 (wf_the_bo _ _ _ _ W1 Hb1)) as Hnext.
    specialize (Hnext ltac:(intros k ->; by destruct (wf_parent _ _ W1 _ _ _ Hb1)) ltac:(lia)).
    destruct (next_dfs_any vm2 d y1 W2 ltac:(lia) Hy1 P2) as [c Hc].
    exists vm2, y1. split; [done|]. split; [done|]. split.
    + apply (cut_more vm vm2 (under (path_at (S d) y))); [| |apply _|done]; intros k Hk; rewrite Hpath in *.
      * apply from_child_step. by left.
      * apply from_child_step in Hk as [Hk|[Hk Hc']]; [by left|right]. destruct (tables vm !! k) as [b|] eqn:Hb; [|done].
        pose proof (table_child _ _ _ _ W Hb Hk) as Hlt. rewrite path_at_length in Hlt. lia.
    + eapply reach_weaken; [eapply reach_trans; [exact R1|by apply (R2 _ c)]|]. lia.
  - assert (Hnb : nextb d y1 = child_start d x (Z.of_nat (S i))).
    { unfold VmWalk.nextb. rewrite Hcell, Z.mul_add_distr_r, Hay. unfold y, child_start. lia. }
    destruct (bottom_exists adev vm1 (S d) (nextb d y1)) as [m2 Hm2]; [lia|].
    pose proof (next_dfs_sibling adev Hok vm1 d y1 b1 m2 ltac:(lia) Hy1 (wf_the_bo _ _ _ _ W1 Hb1)
      ltac:(lia) Hm2) as Hnext.
    assert (Hm2' : bottom vm2 (S d) m2 (nextb d y1)).
    { apply (bottom_agree adev vm1); [|done]. intros k Hk. destruct (path_at_nextb adev Hok d y1) as [_ Hpn];
        [lia|lia|].
      assert (Hnu : ¬ under (path_at (S d) y) (path_at k (nextb d y1))).
      { rewrite under_path by lia. rewrite Hpath, Hpn, Hi1. intros [= ? _]. lia. }
      rewrite (cut_in _ _ _ C1), (cut_in _ _ _ C2); [done|done|]. unfold below. intros [Hk' _]. by apply Hnu. }
    rewrite Hnb in *. destruct (IH (S i) vm2 m2) as (vm' & x' & Hx' & Hpx' & C' & R'); [lia|done|by rewrite <- Hq|done|].
    exists vm', x'. split; [done|]. split; [done|]. split.
    + apply (cut_compose vm vm2 vm' (under (path_at (S d) y)) (from_child (path_at d x) (Z.of_nat i + 1))); try apply _.
      * intros k. rewrite Hpath. apply from_child_step.
      * done.
      * by replace (Z.of_nat i + 1) with (Z.of_nat (S i)) by lia.
    + pose proof R' as (c & _ & Hc & _). eapply reach_weaken; [eapply reach_trans; [exact R1|]; eapply reach_trans; [by apply (R2 _ c)|exact R']|].
      lia.
Qed.

Lemma bottom_down vm n m x b : (n < depth)%nat → tables vm !! path_at n x = Some b → bottom vm n m x → bottom vm (S n) m x.
Proof.
  intros Hn Hb (H1 & H2 & H3). assert (m ≠ n) by (intros ->; destruct H2; [lia|congruence]).
  split; [lia|]. split; [done|]. intros k Hk. apply H3. lia.
Qed.

(** Nothing is under a place without a table. *)
Lemma none_below vm p k : vm_wf vm → tables vm !! p = None → below p k → tables vm !! k = None.
Proof.
  intros W Hp [[l ->] _]. revert Hp. induction l as [|i l IH]; [done|]. intros Hp. specialize (IH Hp).
  destruct (tables vm !! ((i :: l) ++ p)) as [b|] eqn:Hb; [|done]. change ((i :: l) ++ p) with (i :: (l ++ p)) in Hb.
  destruct (wf_parent _ _ W _ _ _ Hb) as [[? ?] _]. congruence.
Qed.
Lemma cut_nothing vm p : vm_wf vm → tables vm !! p = None → cut vm vm (below p).
Proof. intros W Hp. apply cut_refl. intros k. by apply none_below. Qed.

Lemma visit j : visited j.
Proof.
  induction j as [|j IH]; intros n x vm m Hn W Hx Hal Hp Hns Hbot.
  - pose proof Hbot as (Hm & _). assert (m = S n) as -> by lia. exists vm, x. split; [done|]. split; [done|]. split.
    + apply cut_refl. intros k Hk. destruct (tables vm !! k) as [b|] eqn:Hb; [|done]. exfalso.
      destruct (wf_table _ _ W _ _ Hb) as [Hl _]. apply below_children in Hk as [i Hi]. apply suffix_length in Hi. simpl in Hi.
      rewrite path_at_length in Hi. lia.
    + destruct (next_dfs_total vm n x W ltac:(lia) Hx Hp) as [c Hc]. by eapply reach_refl.
  - destruct (tables vm !! path_at (S n) x) as [b|] eqn:Hb.
    + destruct (visit_children j (S n) x IH ltac:(lia) Hx Hal Hns 511 0 vm m) as (vm' & x' & Hx' & Hpx' & C & R); [rewrite child_count by lia; lia|done|by eexists| |].
      { unfold child_start. rewrite Z.mul_0_l, Z.add_0_r. apply (bottom_down _ _ _ _ b); (done || lia). }
      exists vm', x'. split; [done|]. split; [done|]. split.
      * apply (cut_more vm vm' (from_child (path_at (S n) x) 0)); [by intros k []| |apply _|done].
        intros k Hk. destruct (tables vm !! k) as [bk|] eqn:Hbk; [left|by right]. split; [done|].
        pose proof (table_child _ _ _ _ W Hbk Hk). lia.
      * unfold child_start in R. rewrite Z.mul_0_l, Z.add_0_r in R. eapply reach_weaken; [exact R|]. cbn [visits]. lia.
    + assert (m = S n) as ->.
      { destruct Hbot as (? & _ & Hm). destruct (decide (m = S n)) as [|Hne]; [done|]. destruct (Hm (S n) ltac:(lia)). congruence. }
      exists vm, x. split; [done|]. split; [done|]. split; [by apply cut_nothing|].
      destruct (next_dfs_total vm n x W ltac:(lia) Hx Hp) as [c Hc]. eapply reach_weaken; [by eapply reach_refl|apply visits_nonneg].
Qed.
End Start.

(** The whole search: exactly the tables under the start are gone. *)
Lemma free_dfs_spec vm n x : vm_wf vm → (n < depth)%nat → 0 ≤ x < limit → x = cell n x * 2 ^ sh n →
  is_Some (tables vm !! path_at n x) →
  ∃ vm', amdgpu_vm_pt_free_dfs adev vm (Some (cursor_at (S n) x)) false = Some vm' ∧
    cut vm vm' (under (path_at (S n) x)) ∧ vm_wf vm'.
Proof.
  intros W Hn Hx Hal Hp. destruct (bottom_exists adev vm (S n) x) as [m Hm]; [lia|].
  set (start := cursor_at (S n) x).
  destruct (visit (Some start) (depth - S n) n x vm m) as (vm' & x' & Hx' & Hpx & C & (c1 & c1' & Hc1 & Hc1' & Ht)); [lia|done|done|done|done| |done|].
  { intros k [_ Hne]. by intros [= ->]. }
  pose proof (cut_below_wf _ _ _ W C) as W'.
  destruct (pt_free_spec vm' (path_at (S n) x)) as (vm2 & Hf & C2); [by intros b Hb; destruct (wf_table _ _ W' _ _ Hb) as (_ & ? & _)|].
  exists vm2. assert (C' : cut vm vm2 (under (path_at (S n) x))).
  { apply (cut_compose vm vm' vm2 (below (path_at (S n) x)) (λ k, k = path_at (S n) x)); try apply _; [|done|done].
    intros k. unfold below, under. split; [intros ?; destruct (decide (k = path_at (S n) x)); tauto|]. by intros [[? _]| ->]. }
  assert (W2 : vm_wf vm2) by (exact (cut_under_wf _ _ _ _ W C')).
  split; [|by split]. unfold amdgpu_vm_pt_free_dfs, for_each_dfs, amdgpu_vm_pt_first_dfs.
  assert (Hd : descend_all adev 4 vm start = Some (cursor_at m x)).
  { apply (descend_bottom adev Hok vm (S n) m x 4 Hx Hm). destruct Hm. pose proof (depth_bounds adev Hok). lia. }
  change (default (amdgpu_vm_pt_start adev 0) (Some start)) with start. rewrite Hd.
  cbn [mbind option_bind]. rewrite Hc1. cbn [mbind option_bind].
  rewrite (turns_stop _ _ _ _ vm' Ht).
  - cbn [mbind option_bind entry cursor_at]. done.
  - unfold dfs_step, amdgpu_vm_pt_continue_dfs. cbn [entry VmCursor.cursor_at start]. unfold start. cbn [entry VmCursor.cursor_at]. rewrite Hpx.
    rewrite bool_decide_true by by eexists. by rewrite bool_decide_false by (intros H; by apply H).
  - assert (depth - S n ≤ 2)%nat as Hlev by (pose proof (depth_bounds adev Hok); lia).
    destruct (depth - S n)%nat as [|[|[|]]]; simpl; lia.
Qed.

(** Without a start every table goes, the root last. *)
Lemma free_root_spec vm : vm_wf vm →
  ∃ vm', amdgpu_vm_pt_free_root adev vm = Some vm' ∧ tables vm' = ∅ ∧
    (∀ k, k ∈ relocated vm' → k ∈ relocated vm ∧ tables vm !! k = None) ∧ (pt_freed vm = [] → pt_freed vm' = []).
Proof.
  intros W. pose proof (depth_bounds adev Hok) as Hdb. pose proof (limit_bounds adev Hok) as Hlb. pose proof (ok_pfn _ Hok) as Hpfn.
  pose proof (root_entries_bounds adev Hok) as Hre. destruct (wf_root _ _ W) as [b0 Hb0].
  destruct (bottom_exists adev vm 0 0) as [m Hm]; [lia|]. assert (Hx : 0 ≤ 0 < limit) by lia.
  destruct (visit_children None (depth - 1) 0 0 (visit None (depth - 1)) ltac:(lia) Hx eq_refl ltac:(by intros k _ []) (Z.to_nat (root_entries adev - 1)) 0 vm m)
    as (vm1 & x' & Hx' & _ & C1 & (c1 & c1' & Hc1 & Hc1' & Ht)); [simpl; lia|done|by eexists| |].
  { unfold child_start. rewrite Z.mul_0_l, Z.add_0_r. apply (bottom_down _ _ _ _ b0); (done || lia). }
  unfold child_start in *. rewrite Z.mul_0_l, Z.add_0_r in *.
  assert (Hroot1 : tables vm1 !! [] = Some b0).
  { rewrite (cut_in _ _ _ C1); [done|]. intros [[_ Hne] _]. by apply Hne. }
  destruct (pt_free_spec vm1 []) as (vm2 & Hf & C2).
  { intros b Hb. assert (b = b0) as -> by congruence. by destruct (wf_table _ _ W _ _ Hb0) as (_ & ? & _). }
  assert (Hall : ∀ k, tables vm2 !! k = None).
  { intros k. destruct (decide (k = [])) as [->|Hne]; [by apply (cut_out _ _ _ C2)|]. rewrite (cut_in _ _ _ C2) by done.
    destruct (decide (from_child [] 0 k)) as [Hk|Hk]; [by apply (cut_out _ _ _ C1)|]. rewrite (cut_in _ _ _ C1) by done.
    destruct (tables vm !! k) as [b|] eqn:Hb; [|done]. exfalso. apply Hk. assert (Hbel : below [] k) by (split; [apply suffix_nil|done]).
    split; [done|]. pose proof (table_child vm [] k b W Hb Hbel). lia. }
  exists vm2. split; [|split; [by apply map_empty|split]].
  - unfold amdgpu_vm_pt_free_root, amdgpu_vm_pt_free_dfs, for_each_dfs, amdgpu_vm_pt_first_dfs.
    change (default (amdgpu_vm_pt_start adev 0) None) with (amdgpu_vm_pt_start adev 0). rewrite start_cursor.
    rewrite (descend_bottom adev Hok vm 0 m 0 4 Hx Hm) by (destruct Hm; lia). cbn [mbind option_bind]. rewrite Hc1. cbn [mbind option_bind].
    simpl in Hc1'. injection Hc1' as <-.
    set (last := mk_cursor x' None None (VmWalk.lev adev 0)) in *.
    assert (Hlast : dfs_step adev None amdgpu_vm_pt_free (vm1, last, entry (cursor_at 0 x')) = Some (inl (vm2, last, None))).
    { unfold dfs_step. change (amdgpu_vm_pt_continue_dfs None (entry (cursor_at 0 x'))) with true.
      change (entry (cursor_at 0 x')) with (Some (@nil Z)). cbn [negb mbind option_bind]. by rewrite Hf. }
    rewrite (turns_stop _ _ _ (vm2, last, None) vm2 (turns_app _ _ _ _ _ _ Ht (turns_one _ _ _ Hlast))); [done|done|].
    assert (visits (depth - 1) ≤ 512 * 513) by (assert (depth - 1 ≤ 2)%nat by lia; destruct (depth - 1)%nat as [|[|[|]]]; simpl; lia).
    pose proof (visits_nonneg (depth - 1)). rewrite Z2Nat.id by lia.
    assert ((root_entries adev - 1 + 1) * (visits (depth - 1) + 1) ≤ 2 ^ 31 * (512 * 513 + 1)) by (apply Z.mul_le_mono_nonneg; lia). lia.
  - intros k [Hk Hn]%(cut_relocated _ _ _ C2). apply (cut_relocated _ _ _ C1) in Hk as [Hk Hn1]. split; [done|].
    destruct (tables vm !! k) as [b|] eqn:Hb; [|done]. exfalso. destruct (decide (k = [])) as [->|Hne]; [apply Hn; by split|].
    apply Hn1. split; [|by eexists]. assert (Hbel : below [] k) by (split; [apply suffix_nil|done]).
    split; [done|]. change (path_at 0 0) with (@nil Z). pose proof (table_child vm [] k b W Hb Hbel). lia.
  - intros Hfr. by apply (cut_freed _ _ _ C2), (cut_freed _ _ _ C1).
Qed.
End Dfs.
