(* ===== verification/VmLeaf.v ===== *)
(** * Page tables: the reach of a table and what changes leave alone

    Where the table that covers an address ends and how its entries are numbered; the
    effect on translation of the three ways the tree changes: entries of a table are
    written, a table is made, a part of the tree is freed. *)

From S2P Require Import Prelude Vm VmWalk VmCursor VmDfs.
#[local] Open Scope Z_scope.
#[local] Open Scope list_scope.

Lemma divide_sub a b z : (z | a) → (z | b) → a < b → 0 < z → a + z ≤ b.
Proof. intros [p ->] [q ->] H Hz. assert (p < q) by (apply (Z.mul_lt_mono_pos_r z); lia). nia. Qed.

Section Leaf.
Context (adev : amdgpu_device) (Hok : adev_ok adev).
Abbreviation depth := (depth adev).
Abbreviation lev := (lev adev).
Abbreviation sh := (sh adev).
Abbreviation cell := (cell adev).
Abbreviation idx := (idx adev).
Abbreviation path_at := (path_at adev).
Abbreviation entries := (entries adev).
Abbreviation limit := (limit adev).
Abbreviation nextb := (nextb adev).
Abbreviation vm_wf := (vm_wf adev).
Abbreviation leaf := (leaf adev).

(** ** The end of a table *)

Definition tend (n : nat) (y : Z) : Z := match n with O => limit | S k => nextb k y end.

Lemma tend_bounds n y : (n ≤ depth)%nat → 0 ≤ y < limit → y < tend n y ≤ limit.
Proof.
  intros Hn Hy. destruct n as [|k]; simpl; [lia|]. split; [by apply nextb_bounds; (done || lia)|apply nextb_limit; (done || lia)].
Qed.

Lemma tend_cell k y x : (k ≤ depth)%nat → y ≤ x < nextb k y → cell k x = cell k y.
Proof.
  intros Hk Hx. apply cell_spec; [done|done|]. pose proof (proj1 (cell_spec adev Hok k y _ Hk) eq_refl). unfold VmWalk.nextb in Hx. lia.
Qed.

Lemma tend_path n y x : (n ≤ depth)%nat → y ≤ x < tend n y → path_at n x = path_at n y.
Proof. intros Hn Hx. destruct n as [|k]; [done|]. apply path_at_cell; [done|lia|]. apply tend_cell; (done || lia). Qed.

(** Within a table indices differ as the cells do. *)
Lemma idx_diff n x y : (n ≤ depth)%nat → path_at n x = path_at n y → idx n x = idx n y + (cell n x - cell n y).
Proof.
  intros Hn Hp. destruct n as [|k]; simpl; [lia|]. apply (path_at_S adev Hok) in Hp; [|lia]. rewrite !(cell_step adev Hok k) in Hp by lia.
  pose proof (bits_pos adev Hok (S k)) as Hb. pose proof (pow2_pos (bits adev (S k)) ltac:(lia)) as Hp2.
  pose proof (Z.div_mod (cell (S k) x) (2 ^ bits adev (S k)) ltac:(lia)). pose proof (Z.div_mod (cell (S k) y) (2 ^ bits adev (S k)) ltac:(lia)). rewrite Hp in *. lia.
Qed.

Lemma cell_mult n z : (n ≤ depth)%nat → (2 ^ sh n | z) → cell n z * 2 ^ sh n = z.
Proof. intros Hn [q ->]. unfold VmWalk.cell. rewrite Z.div_mul; [done|]. pose proof (sh_pos adev Hok n Hn). lia. Qed.

(** The number behind the last entry up to an aligned address. *)
Lemma tend_entries n y z : (n ≤ depth)%nat → 0 ≤ y < limit → y ≤ z ≤ tend n y → (2 ^ sh n | z) →
  0 ≤ idx n y + (cell n z - cell n y) ≤ entries n.
Proof.
  intros Hn Hy Hz Hm. pose proof (cell_mono adev Hok n y z Hn ltac:(lia)). pose proof (idx_bounds adev Hok n y Hn Hy).
  destruct (decide (z = y)) as [->|]; [lia|].
  assert (Hl : y ≤ z - 1 < tend n y) by lia. pose proof (idx_diff n (z - 1) y Hn (tend_path n y (z - 1) Hn Hl)) as Hi.
  pose proof (tend_bounds n y Hn Hy).
  pose proof (idx_bounds adev Hok n (z - 1) Hn ltac:(lia)) as Hb. split; [lia|].
  assert (cell n (z - 1) = cell n z - 1); [|lia]. apply cell_spec; [done|done|]. pose proof (cell_mult n z Hn Hm).
  pose proof (sh_pos adev Hok n Hn). lia.
Qed.

Lemma sh_mono n m : (n ≤ m ≤ depth)%nat → sh m ≤ sh n.
Proof.
  intros [Hn Hm]. induction Hn as [|m Hn IH]; [done|]. specialize (IH ltac:(lia)). rewrite (sh_step adev Hok m) in IH by lia.
  pose proof (bits_pos adev Hok (S m)). lia.
Qed.

Lemma pow2_divide a b : 0 ≤ a ≤ b → (2 ^ a | 2 ^ b).
Proof. intros H. exists (2 ^ (b - a)). rewrite <- Z.pow_add_r by lia. f_equal. lia. Qed.

Lemma divide_coarse a b z : 0 ≤ a ≤ b → (2 ^ b | z) → (2 ^ a | z).
Proof. intros H Hz. etrans; [by apply pow2_divide|done]. Qed.

Lemma tend_divide n k y f : (n ≤ depth)%nat → n = S k → 0 ≤ f ≤ sh k → (2 ^ f | tend n y).
Proof. intros Hn -> Hf. apply (divide_coarse _ (sh k)); [lia|]. simpl. unfold VmWalk.nextb. by eexists. Qed.

(** How the program finds the end of the table. *)
Lemma entry_end_code n y end' : (n ≤ depth)%nat → 0 ≤ y < limit → end' ≤ limit →
  let e := Z.shiftl (amdgpu_vm_pt_entries_mask adev (lev n) + 1) (sh n) in
  Z.min (e + Z.ldiff y (e - 1)) end' = Z.min (tend n y) end'.
Proof.
  intros Hn Hy He. pose proof (sh_bounds adev Hok n Hn) as Hs. rewrite mask_at by done. destruct n as [|k]; cbn zeta.
  - replace (2 ^ 32 - 1 + 1) with (2 ^ 32) by lia. rewrite Z.shiftl_mul_pow2, <- Z.pow_add_r by lia.
    rewrite <- (Z.shiftl_1_l (32 + sh 0)), ldiff_pow2, Z.shiftl_1_l by lia. simpl tend.
    assert (limit ≤ 2 ^ (32 + sh 0)).
    { rewrite Z.pow_add_r by lia. unfold VmWalk.limit. pose proof (root_entries_bounds adev Hok). pose proof (sh_pos adev Hok 0 ltac:(lia)). nia. }
    rewrite Z.div_small by lia. lia.
  - pose proof (bits_pos adev Hok (S k)) as Hb. replace (2 ^ bits adev (S k) - 1 + 1) with (2 ^ bits adev (S k)) by lia.
    rewrite Z.shiftl_mul_pow2, <- Z.pow_add_r by lia. replace (bits adev (S k) + sh (S k)) with (sh k) by (rewrite (sh_step adev Hok k) by lia; lia).
    pose proof (sh_bounds adev Hok k ltac:(lia)). rewrite <- (Z.shiftl_1_l (sh k)), ldiff_pow2, Z.shiftl_1_l by lia. simpl tend.
    unfold VmWalk.nextb, VmWalk.cell. f_equal. lia.
Qed.

(** ** Changes *)

(** [x] is translated as before. *)
Definition agree (vm vm' : amdgpu_vm) (x : Z) : Prop := ∀ m v, leaf vm m x v → leaf vm' m x v.

Lemma agree_refl vm x : agree vm vm x.
Proof. by intros m v. Qed.
Lemma agree_trans vm1 vm2 vm3 x : agree vm1 vm2 x → agree vm2 vm3 x → agree vm1 vm3 x.
Proof. unfold agree. auto. Qed.
Lemma agree_tables vm vm' x : tables vm' = tables vm → agree vm vm' x.
Proof. intros H m v. unfold VmWalk.leaf. by rewrite H. Qed.

Lemma wf_tables vm vm' : tables vm' = tables vm → vm_wf vm → vm_wf vm'.
Proof. intros H [W1 W2 W3]. split; rewrite H; done. Qed.

(** Entries of the table [p] are written. *)
Section Write.
Context (vm vm' : amdgpu_vm) (p : path) (b : amdgpu_bo_vm) (l' : list Z).
Context (Hb : tables vm !! p = Some b) (Hw : tables vm' = <[p := b <| ptes := l' |>]> (tables vm)).

Lemma write_some k : is_Some (tables vm' !! k) ↔ is_Some (tables vm !! k).
Proof.
  rewrite Hw. destruct (decide (k = p)) as [->|]; [rewrite lookup_insert_eq, Hb; split; by eexists|by rewrite lookup_insert_ne].
Qed.

Lemma write_wf : length l' = length (ptes b) → vm_wf vm → vm_wf vm'.
Proof.
  intros Hl W. split.
  - apply write_some, W.
  - intros i q b' Hb'. destruct (proj1 (write_some (i :: q)) ltac:(by eexists)) as [b2 Hb2].
    destruct (wf_parent _ _ W _ _ _ Hb2). by rewrite write_some.
  - intros q b'. rewrite Hw. destruct (decide (q = p)) as [->|].
    + rewrite lookup_insert_eq. intros [= <-]. destruct (wf_table _ _ W _ _ Hb) as (? & ? & ?). simpl. by rewrite Hl.
    + rewrite lookup_insert_ne by done. by apply (wf_table _ _ W).
Qed.

Lemma write_agree x : (∀ n, path_at n x = p → l' !! Z.to_nat (idx n x) = ptes b !! Z.to_nat (idx n x)) → agree vm vm' x.
Proof.
  intros Hx m v (b' & Hb' & Hend & Hv).
  assert (Hend' : m = depth ∨ tables vm' !! path_at (S m) x = None).
  { destruct Hend as [|Hend]; [by left|right]. rewrite eq_None_not_Some, write_some, Hend. by intros []. }
  destruct (decide (path_at m x = p)) as [Hp|Hp].
  - exists (b <| ptes := l' |>). split; [by rewrite Hw, Hp, lookup_insert_eq|]. split; [done|]. simpl. rewrite Hx by done. congruence.
  - exists b'. split; [by rewrite Hw, lookup_insert_ne|]. by split.
Qed.
End Write.

(** The part under a place goes. *)
Lemma cut_none vm vm' P k : (∀ k, Decision (P k)) → cut vm vm' P → tables vm !! k = None → tables vm' !! k = None.
Proof. intros HP C Hk. destruct (HP k); [by apply (cut_out _ _ _ C)|by rewrite (cut_in _ _ _ C)]. Qed.

Lemma cut_agree vm vm' n y x : cut vm vm' (under (path_at (S n) y)) → path_at (S n) x ≠ path_at (S n) y → agree vm vm' x.
Proof.
  intros C Hx m v (b & Hb & Hend & Hv). exists b. split_and!; [| |done].
  - rewrite (cut_in _ _ _ C); [done|]. destruct (decide (S n ≤ m)%nat).
    + rewrite (under_path adev (S n) m) by done. congruence.
    + apply not_under_shorter. rewrite !path_at_length. lia.
  - destruct Hend as [|Hend]; [by left|right]. eapply cut_none; [|exact C|done]. intros k. unfold under. apply _.
Qed.

(** A table is made. *)
Section Make.
Context (vm vm' : amdgpu_vm) (n : nat) (y : Z) (b : amdgpu_bo_vm).
Context (Hw : tables vm' = <[path_at (S n) y := b]> (tables vm)) (Hnone : tables vm !! path_at (S n) y = None).

Lemma make_agree x : path_at (S n) x ≠ path_at (S n) y → agree vm vm' x.
Proof.
  intros Hx m v (b' & Hb' & Hend & Hv). exists b'. split_and!; [| |done].
  - rewrite Hw, lookup_insert_ne; [done|]. intros Heq. congruence.
  - destruct Hend as [|Hend]; [by left|right]. rewrite Hw, lookup_insert_ne; [done|]. intros Heq. apply Hx.
    pose proof (path_at_same adev _ _ _ _ Heq) as [= ->]. done.
Qed.

Lemma make_wf : (S n ≤ depth)%nat → 0 ≤ y < limit → is_Some (tables vm !! path_at n y) → freed b = false → length (ptes b) = tsize adev (S n) →
  vm_wf vm → vm_wf vm'.
Proof.
  intros Hn Hy Hp Hf Hl W. split.
  - rewrite Hw, lookup_insert_ne by done. apply W.
  - intros i q b'. rewrite Hw. destruct (decide (i :: q = path_at (S n) y)) as [Heq|Hne].
    + intros _. cbn [VmWalk.path_at] in Heq. injection Heq as -> ->. rewrite path_at_length.
      split; [|apply idx_bounds; (done || lia)]. rewrite lookup_insert_ne; [done|]. intros Heq. apply (path_at_same adev) in Heq. lia.
    + rewrite lookup_insert_ne by done. intros Hb'. destruct (wf_parent _ _ W _ _ _ Hb') as [Hq Hi]. split; [|done].
      destruct (decide (q = path_at (S n) y)) as [->|]; [rewrite lookup_insert_eq; by eexists|by rewrite lookup_insert_ne].
  - intros q b'. rewrite Hw. destruct (decide (q = path_at (S n) y)) as [->|].
    + rewrite lookup_insert_eq. intros [= <-]. rewrite path_at_length. done.
    + rewrite lookup_insert_ne by done. apply (wf_table _ _ W).
Qed.

(** What it covers is translated by it. *)
Lemma make_leaf x m v w : vm_wf vm → (S n ≤ depth)%nat → 0 ≤ x < limit → path_at (S n) x = path_at (S n) y →
  ptes b = replicate (tsize adev (S n)) w → leaf vm m x v → leaf vm' (S n) x w ∧ (m ≤ n)%nat.
Proof.
  intros W Hn Hx Hp Hl (b' & Hb' & _ & _). split.
  - exists b. split; [by rewrite Hp, Hw, lookup_insert_eq|]. split.
    + right. rewrite Hw, lookup_insert_ne by (intros Heq; apply (path_at_same adev) in Heq; lia).
      destruct (tables vm !! path_at (S (S n)) x) as [b2|] eqn:Hb2; [|done].
      destruct (wf_ancestor adev vm (S n) (S (S n)) x b2 W ltac:(lia) Hb2) as [? ?]. congruence.
    + rewrite Hl. apply lookup_replicate_2. pose proof (idx_bounds adev Hok (S n) x Hn Hx).
      pose proof (tsize_entries adev Hok (S n) Hn). lia.
  - destruct (decide (m ≤ n)%nat) as [|Hgt]; [done|]. exfalso.
    destruct (wf_ancestor adev vm (S n) m x b' W ltac:(lia) Hb') as [? ?]. congruence.
Qed.
End Make.
End Leaf.
