(* ===== verification/VmWrite.v ===== *)
(** * Page tables: writing entries and making tables

    What [amdgpu_vm_cpu_update] writes, the values of entries, and that
    [amdgpu_vm_pt_alloc] makes the table of a cursor and clears it. *)

From S2P Require Import Prelude Vm VmWalk VmCursor VmDfs VmLeaf.
#[local] Open Scope Z_scope.
#[local] Open Scope list_scope.

(** What the controllers from GFX9 on do without further translation: an address that
    is aligned and in range goes through, for an entry that is a page. *)
Class VmPde (gmc : gmc_funcs) : Prop := {
  vm_pde_page level a flags : level ≠ AMDGPU_VM_PTB → 0 ≤ a < 2 ^ 48 → (4096 | a) → nz (Z.land flags AMDGPU_PDE_PTE) = true →
    get_vm_pde gmc level a flags = Some (a, flags);
}.

Lemma aligned_land a : 0 ≤ a < 2 ^ 48 → (4096 | a) → Z.land a 0xFFFF00000000003F = 0.
Proof.
  intros Ha [q ->]. apply Z.bits_inj'. intros i Hi. rewrite Z.land_spec, Z.bits_0.
  destruct (decide (i < 12)) as [Hlt|Hge].
  - replace (q * 4096) with (q * 2 ^ 12) by lia. by rewrite Z.mul_pow2_bits_low by lia.
  - destruct (decide (i < 48)) as [Hlt|Hge'].
    + assert (Z.testbit 0xFFFF00000000003F i = false) as ->; [|by rewrite andb_false_r].
      assert (12 ≤ i < 48) as Hi2 by lia. clear - Hi2. replace i with (12 + Z.of_nat (Z.to_nat (i - 12))) by lia.
      assert (Z.to_nat (i - 12) < 36)%nat as Hk by lia. revert Hk. generalize (Z.to_nat (i - 12)). intros k Hk.
      do 36 (destruct k as [|k]; [reflexivity|]). lia.
    + assert (Z.testbit (q * 4096) i = false) as ->; [|done]. apply Z.bits_above_log2; [lia|].
      destruct (decide (q = 0)) as [->|]; [done || (simpl; lia)|]. apply Z.log2_lt_pow2; [lia|]. eapply Z.lt_le_trans; [apply Ha|].
      apply Z.pow_le_mono_r; lia.
Qed.

#[export] Instance gmc_v9_0_pde start base over : VmPde (mk_gmc_funcs (gmc_v9_0_get_vm_pde false start base) over).
Proof.
  split. intros level a flags _ Ha Hal Hf. cbn [get_vm_pde]. unfold gmc_v9_0_get_vm_pde, nz in *.
  apply negb_true_iff in Hf. rewrite Hf. cbn [andb]. by rewrite aligned_land.
Qed.

Section Write.
Context (adev : amdgpu_device) (gmc : gmc_funcs) (env : vm_env) (Hok : adev_ok adev).
Context (Hwait : ∀ k, 0 ≤ resv_wait env k).
Abbreviation depth := (depth adev).
Abbreviation lev := (lev adev).
Abbreviation sh := (sh adev).
Abbreviation path_at := (path_at adev).
Abbreviation limit := (limit adev).
Abbreviation vm_wf := (vm_wf adev).
Abbreviation leaf := (leaf adev).
Abbreviation cursor_at := (cursor_at adev).

Lemma pte_values_length pages addr count incr flags : length (pte_values pages addr count incr flags) = count.
Proof. unfold pte_values. by rewrite length_fmap, length_seq. Qed.

Lemma pte_values_lookup pages addr count incr flags i : (i < count)%nat →
  pte_values pages addr count incr flags !! i = Some (amdgpu_gmc_set_pte_pde
    (match pages with Some f => amdgpu_vm_map_gart f (u64 (addr + Z.of_nat i * incr)) | None => u64 (addr + Z.of_nat i * incr) end) flags).
Proof. intros Hi. unfold pte_values. by rewrite list_lookup_fmap, lookup_seq_lt. Qed.

Lemma cpu_update_spec p vm pt b i addr count incr flags : the_bo vm pt = Some b → 0 ≤ i → 0 ≤ count →
  i + count ≤ Z.of_nat (length (ptes b)) →
  ∃ vm', amdgpu_vm_cpu_update env p vm pt (i * 8) addr count incr flags = Some (vm', 0) ∧
    tables vm' = <[pt := b <| ptes := list_inserts (Z.to_nat i) (pte_values (pages_addr p) addr (Z.to_nat count) (u32 incr) flags) (ptes b) |>]> (tables vm) ∧
    relocated vm' = relocated vm ∧ pt_freed vm' = pt_freed vm ∧ pte_support_ats vm' = pte_support_ats vm.
Proof.
  intros Hb Hi Hc Hl. unfold amdgpu_vm_cpu_update. rewrite Hb. cbn [mbind option_bind]. rewrite Z.div_mul by lia.
  pose proof (Hwait (queries vm)). rewrite (proj2 (Z.ltb_ge _ _)) by lia. rewrite (proj2 (Z.leb_le _ _)) by lia.
  eexists. by repeat split.
Qed.

(** ** Making a table *)

(** An entry of a table that was made. *)
Definition cleared (n : nat) : Z :=
  if decide (n = depth) then (if vega10 adev then AMDGPU_PTE_EXECUTABLE else 0)
  else if vega10 adev then AMDGPU_PDE_PTE else 0.

Context `{!VmPde gmc} (Hv : vega10 adev = true).

Lemma replicate_lookup_eq {A} (l : list A) n x : length l = n → (∀ i, (i < n)%nat → l !! i = Some x) → l = replicate n x.
Proof.
  intros Hl Hx. apply list_eq. intros i. destruct (decide (i < n)%nat) as [Hi|Hi].
  - rewrite Hx, lookup_replicate_2 by done. done.
  - rewrite !lookup_ge_None_2; [done|rewrite length_replicate; lia|lia].
Qed.

Lemma clear_spec vm p b : the_bo vm p = Some b → (length p ≤ depth)%nat → pte_support_ats vm = false →
  (0 < length (ptes b))%nat →
  ∃ vm' r, amdgpu_vm_pt_clear adev gmc env vm p = Some (vm', r) ∧ pte_support_ats vm' = false ∧
    relocated vm' = relocated vm ∧ pt_freed vm' = pt_freed vm ∧
    ((r ≠ 0 ∧ r = pt_prepare env (queries vm) ∧ tables vm' = tables vm) ∨
     (r = 0 ∧ pt_prepare env (queries vm) = 0 ∧ tables vm' = <[p := b <| ptes := replicate (length (ptes b)) (cleared (length p)) |>]> (tables vm))).
Proof.
  intros Hb Hp Hats Hl. unfold amdgpu_vm_pt_clear. rewrite Hb. cbn [mbind option_bind]. rewrite Hats. cbn [negb].
  unfold nz at 1. destruct (Z.eqb_spec (pt_prepare env (queries vm)) 0) as [Hz|Hz]; cbn [negb].
  2:{ do 2 eexists. split; [done|]. repeat split; [done|]. by left. }
  unfold nz. rewrite (proj2 (Z.eqb_neq _ _)) by lia. cbn [negb]. rewrite Hv.
  change (root_level adev + Z.of_nat (length p)) with (lev (length p)).
  set (fl := if decide (length p = depth) then AMDGPU_PTE_EXECUTABLE else AMDGPU_PDE_PTE).
  assert ((if negb (lev (length p) =? AMDGPU_VM_PTB) then get_vm_pde gmc (lev (length p)) 0 AMDGPU_PDE_PTE else Some (0, AMDGPU_PTE_EXECUTABLE)) = Some (0, fl)) as ->.
  { rewrite lev_ptb by done. unfold fl. destruct (decide (length p = depth)) as [Hd|Hd].
    - by rewrite bool_decide_true by done.
    - rewrite bool_decide_false by done. cbn [negb]. apply vm_pde_page; [|lia|by exists 0|done].
      intros Hlev%Z.eqb_eq. rewrite lev_ptb in Hlev by done. by apply bool_decide_eq_true in Hlev. }
  change (0 =? 0) with true. cbn [negb mbind option_bind]. change (0 =? 0) with true. cbn [negb].
  destruct (cpu_update_spec params_none (ask vm) p b 0 0 (Z.of_nat (length (ptes b))) 0 fl) as (vm' & Hu & Ht & Hr & Hf & Ha);
    [done|done|lia|lia|]. change (0 * 8) with 0 in *. rewrite Hu. exists vm', 0. split; [done|]. split; [by rewrite Ha|]. split; [done|]. split; [done|]. right. split; [done|]. split; [done|].
  rewrite Ht. change (tables (ask vm)) with (tables vm). rewrite Nat2Z.id. change (Z.to_nat 0) with 0%nat.
  rewrite (replicate_lookup_eq (list_inserts _ _ _) (length (ptes b)) (cleared (length p))); [done|..].
  - by rewrite length_inserts.
  - intros i Hi. rewrite list_lookup_inserts by (rewrite ?pte_values_length; lia). rewrite Nat.sub_0_r, pte_values_lookup by done.
    cbn. change (u32 0) with 0. rewrite Z.mul_0_r. unfold cleared, fl. rewrite Hv. by destruct (decide _).
Qed.

Definition create_error (r : Z) : Prop := r ≠ 0 ∧ ∃ k, r = bo_create env k.
Definition clear_error (r : Z) : Prop := r ≠ 0 ∧ ∃ k, r = pt_prepare env k.

(** Only questions were asked. *)
Record same_tree (vm vm' : amdgpu_vm) : Prop := {
  st_tables : tables vm' = tables vm;
  st_relocated : relocated vm' = relocated vm;
  st_freed : pt_freed vm' = pt_freed vm;
  st_ats : pte_support_ats vm' = pte_support_ats vm;
}.

(** The table [path_at n x] was made and is to be entered in its directory. *)
Record made (vm vm' : amdgpu_vm) (n : nat) (x : Z) (b : amdgpu_bo_vm) : Prop := {
  made_none : tables vm !! path_at n x = None;
  made_tables : tables vm' = <[path_at n x := b]> (tables vm);
  made_ptes : ptes b = replicate (tsize adev n) (cleared n);
  made_live : freed b = false;
  made_place : ∃ k, pt_addr b = bo_address env k ∧ pt_flags b = bo_flags env k;
  made_relocated : relocated vm' = path_at n x :: list_del_path (path_at n x) (relocated vm);
}.

Lemma alloc_spec vm n x : vm_wf vm → (n ≤ depth)%nat → 0 ≤ x < limit → pte_support_ats vm = false →
  (∀ k, (k < n)%nat → is_Some (tables vm !! path_at k x)) →
  ∃ vm' r, amdgpu_vm_pt_alloc adev gmc env vm (cursor_at n x) = Some (vm', r) ∧
    ((create_error r ∧ same_tree vm vm') ∨ clear_error r ∨
     (r = 0 ∧ vm_wf vm' ∧ pte_support_ats vm' = false ∧ pt_freed vm' = pt_freed vm ∧
       ((is_Some (tables vm !! path_at n x) ∧ vm' = vm) ∨ ∃ k b, n = S k ∧ made vm vm' n x b))).
Proof.
  intros W Hn Hx Hats Hanc. unfold amdgpu_vm_pt_alloc. cbn [entry VmCursor.cursor_at mbind option_bind].
  destruct (tables vm !! path_at n x) as [b|] eqn:Hb.
  { rewrite (has_bo_true _ _ _ Hb). exists vm, 0. split; [done|]. right. right. split_and!; try done. left. split; [by eexists|done]. }
  rewrite (has_bo_false _ _ Hb). destruct n as [|n]; [destruct (wf_root _ _ W) as [? Hroot]; simpl in Hb; congruence|].
  unfold amdgpu_vm_pt_create. cbn [level parent VmCursor.cursor_at]. unfold nz at 1.
  destruct (Z.eqb_spec (bo_create env (queries vm)) 0) as [Hz|Hz]; cbn [negb].
  2:{ do 2 eexists. split; [done|]. left. split; [|done]. split; [done|]. by eexists. }
  destruct (Hanc n ltac:(lia)) as [b0 Hb0]. cbn [mbind option_bind]. rewrite (wf_the_bo _ (ask vm) _ b0) by (done || by apply (wf_tables adev vm)).
  cbn [mbind option_bind]. set (b := mk_bo_vm _ _ _ _). set (vm1 := amdgpu_vm_bo_base_init (ask vm) (path_at (S n) x) b).
  assert (Ht1 : tables vm1 = <[path_at (S n) x := b]> (tables vm)) by done.
  assert (Hlen : length (ptes b) = tsize adev (S n)) by (simpl; by rewrite length_replicate).
  destruct (clear_spec vm1 (path_at (S n) x) b) as (vm' & r & Hc & Ha & Hr & Hf & Hcase).
  - unfold the_bo. by rewrite Ht1, lookup_insert_eq.
  - by rewrite path_at_length.
  - done.
  - rewrite Hlen. pose proof (tsize_entries adev Hok (S n) Hn). pose proof (entries_pos adev Hok (S n)). lia.
  - rewrite Hc. cbn [mbind option_bind]. destruct Hcase as [(Hne & Hre & _)|(-> & _ & Ht)].
    + unfold nz. rewrite (proj2 (Z.eqb_neq _ _) Hne). cbn [negb]. do 2 eexists. split; [done|]. right. left. split; [done|]. eexists. exact Hre.
    + cbn [nz]. do 2 eexists. split; [done|]. right. right. split; [done|]. rewrite path_at_length, Hlen in Ht.
      rewrite Ht1, insert_insert_eq in Ht. split; [|split; [done|split; [done|]]].
      * apply (make_wf adev Hok vm vm' n x _ Ht); first [done|by apply Hanc; lia|simpl; by rewrite length_replicate].
      * right. exists n. eexists. split; [done|]. split; [done|exact Ht|done|done|by eexists|exact Hr].
Qed.
End Write.
