(* ===== verification/VmFragment.v ===== *)
(** * Page tables: fragments

    The fragment that [amdgpu_vm_pte_fragment] finds is an aligned block of the range, and
    what the inner loop of [amdgpu_vm_ptes_update] writes into one table. *)

From S2P Require Import Prelude Vm VmWalk VmCursor VmDfs VmLeaf VmWrite.
#[local] Open Scope Z_scope.
#[local] Open Scope list_scope.

Lemma low_bits_divide x f : 0 ≤ f → (∀ j, 0 ≤ j < f → Z.testbit x j = false) → (2 ^ f | x).
Proof.
  intros Hf Hx. apply Z.mod_divide; [pose proof (pow2_pos f); lia|]. apply Z.bits_inj'. intros i Hi. rewrite Z.bits_0.
  destruct (decide (i < f)); [rewrite Z.mod_pow2_bits_low by lia; by apply Hx|by apply Z.mod_pow2_bits_high; lia].
Qed.

(** An aligned block of an aligned interval is inside it. *)
Lemma block_inside f lo hi x : 0 ≤ f → (2 ^ f | lo) → (2 ^ f | hi) → lo ≤ x < hi →
  lo ≤ x / 2 ^ f * 2 ^ f ∧ (x / 2 ^ f + 1) * 2 ^ f ≤ hi.
Proof.
  intros Hf [a ->] [b ->] Hx. pose proof (pow2_pos f Hf) as Hp.
  assert (a ≤ x / 2 ^ f) by (apply Z.div_le_lower_bound; lia).
  assert (x / 2 ^ f < b) by (apply Z.div_lt_upper_bound; lia). nia.
Qed.

(** The alignment of the start as the program finds it. *)
Lemma ffs_align fs f : 0 ≤ f ≤ 31 → f ≤ u32 (ffs (u32 fs) - 1) ↔ (2 ^ f | fs).
Proof.
  intros Hf. destruct (decide (u32 fs = 0)) as [Hz|Hnz].
  - split; [intros _|intros _; rewrite Hz; change (u32 (ffs 0 - 1)) with (2 ^ 32 - 1); lia].
    apply (divide_coarse _ 32); [lia|]. by apply Z.mod_divide.
  - destruct (ffs_spec (u32 fs)) as (Hb & Hset & Hlow); [by apply wrap_in_width|done|].
    assert (Hbits : ∀ j, 0 ≤ j < 32 → Z.testbit (u32 fs) j = Z.testbit fs j) by (intros j Hj; unfold wrap; by rewrite Z.mod_pow2_bits_low by lia).
    rewrite wrap_small by (unfold in_width; lia). split.
    + intros Hle. apply low_bits_divide; [lia|]. intros j Hj. rewrite <- Hbits, (Hlow j) by lia. done.
    + intros [q Hq]. rewrite Hbits in Hset by lia. destruct (decide (f ≤ ffs (u32 fs) - 1)) as [|Hgt]; [done|]. exfalso.
      generalize dependent (ffs (u32 fs)). intros j _ Hset _ Hgt. rewrite Hq, Z.mul_pow2_bits_low in Hset by lia. done.
Qed.

(** The fragment is the largest aligned block that fits. *)
Lemma fragment_block adev p fs end' : vega10 adev = true → pages_addr p = None → 0 ≤ fs < end' → end' ≤ 2 ^ 62 →
  let '(f, fe) := amdgpu_vm_pte_fragment adev p fs end' in
  0 ≤ f ≤ 31 ∧ (2 ^ f | fs) ∧ (2 ^ f | fe) ∧ fs + 2 ^ f ≤ fe ≤ end' ∧ (f < 31 → fe = fs + 2 ^ f) ∧
  ∀ g, 0 ≤ g ≤ 31 → (2 ^ g | fs) → fs + 2 ^ g ≤ end' → g ≤ f.
Proof.
  intros Hv Hp Hfs Hend. unfold amdgpu_vm_pte_fragment. rewrite Hp, Hv.
  assert (Hlog : u32 (fls64 (u64 (end' - fs)) - 1) = Z.log2 (end' - fs)).
  { rewrite (wrap_small 64) by (unfold in_width; lia). unfold fls64. rewrite (proj2 (Z.eqb_neq _ _)) by lia.
    pose proof (Z.log2_nonneg (end' - fs)). assert (Z.log2 (end' - fs) < 63) by (apply Z.log2_lt_pow2; lia).
    rewrite wrap_small by (unfold in_width; lia). lia. }
  rewrite Hlog. set (k := Z.min _ _). pose proof (Z.log2_nonneg (end' - fs)).
  assert (Hk0 : 0 ≤ k) by (unfold k; apply Z.min_glb; [apply (wrap_in_width 32); lia|done]).
  assert (Hlen : 2 ^ k ≤ end' - fs).
  { etrans; [apply (Z.pow_le_mono_r 2 k (Z.log2 (end' - fs))); [lia|unfold k; lia]|apply Z.log2_spec; lia]. }
  assert (Hal : ∀ f, 0 ≤ f ≤ 31 → f ≤ k → (2 ^ f | fs)) by (intros f Hf Hfk; apply ffs_align; [done|unfold k in Hfk; lia]).
  assert (Hbest : ∀ g, 0 ≤ g ≤ 31 → (2 ^ g | fs) → fs + 2 ^ g ≤ end' → g ≤ k).
  { intros g Hg Hd Hle. unfold k. apply Z.min_glb; [by apply ffs_align|apply Z.log2_le_pow2; lia]. }
  destruct (Z.leb_spec 31 k) as [Hbig|Hsmall].
  - pose proof (Hal 31 ltac:(lia) Hbig) as Hd. assert (2 ^ 31 ≤ 2 ^ k) by (apply Z.pow_le_mono_r; lia).
    rewrite ldiff_pow2 by lia. split; [lia|]. split; [done|]. split; [by eexists|]. split; [|split; [lia|intros g Hg _ _; lia]].
    pose proof (Z.div_mod end' (2 ^ 31) ltac:(lia)). pose proof (Z.mod_pos_bound end' (2 ^ 31) ltac:(lia)).
    destruct Hd as [q ->]. nia.
  - assert (2 ^ k ≤ 2 ^ 31) by (apply Z.pow_le_mono_r; lia). rewrite Z.shiftl_1_l, wrap_small by (unfold in_width; lia).
    pose proof (pow2_pos k Hk0). split; [lia|]. pose proof (Hal k ltac:(lia) ltac:(lia)) as Hd. split; [done|]. split; [|split; [lia|done]].
    by apply Z.divide_add_r.
Qed.

Lemma inserts_not_in {A} (i : nat) (k l : list A) j : ¬ (i ≤ j < i + length k)%nat → list_inserts i k l !! j = l !! j.
Proof. intros Hj. destruct (decide (j < i)%nat); [by apply list_lookup_inserts_lt|apply list_lookup_inserts_ge; lia]. Qed.

Section Fragment.
Context (adev : amdgpu_device) (gmc : gmc_funcs) (env : vm_env) (Hok : adev_ok adev).
Context (Hwait : ∀ k, 0 ≤ resv_wait env k) `{!VmPde gmc} (Hv : vega10 adev = true).
Abbreviation depth := (depth adev).
Abbreviation lev := (lev adev).
Abbreviation sh := (sh adev).
Abbreviation cell := (cell adev).
Abbreviation idx := (idx adev).
Abbreviation path_at := (path_at adev).
Abbreviation entries := (entries adev).
Abbreviation limit := (limit adev).
Abbreviation nextb := (nextb adev).
Abbreviation vm_wf := (vm_wf adev).
Abbreviation leaf := (leaf adev).
Abbreviation cursor_at := (cursor_at adev).
Abbreviation tend := (tend adev).

(** An update of the pages from [start] to [end'] to the addresses from [dst0] on. *)
Context (pages : option (Z → Z)) (ao : bool) (Hover : override_vm_pte_flags gmc = None ∨ ao = false).
Context (start end' dst0 flags : Z).

Record range_ok : Prop := {
  range_inside : 0 ≤ start < end' ∧ end' ≤ limit;
  range_aligned : 0 ≤ dst0 ∧ (4096 | dst0);
  range_dst : dst0 + (end' - start) * 4096 ≤ 2 ^ 48;
  (** The step between the addresses of entries is a 32-bit number. *)
  range_incr n : (n ≤ depth)%nat → sh n ≤ 19 ∨ end' - start < 2 ^ (sh n + 1);
}.
Context (Hr : range_ok).

Definition daddr (x : Z) : Z := dst0 + (x - start) * 4096.

Definition pte_flags (n : nat) (f : Z) : Z :=
  let fl := Z.lor flags (AMDGPU_PTE_FRAG f) in
  if decide (n = depth) then
    amdgpu_vm_pte_update_noretry_flags adev
      (if (Z.land fl AMDGPU_PTE_VALID =? 0) && (Z.land fl AMDGPU_PTE_PRT =? 0) then Z.lor fl AMDGPU_PTE_EXECUTABLE else fl)
  else Z.lor fl AMDGPU_PDE_PTE.

(** The entry of depth [n] for the page [x] in a fragment of [2 ^ f] pages. *)
Definition pte_value (n : nat) (x f : Z) : Z :=
  amdgpu_gmc_set_pte_pde (match pages with Some g => amdgpu_vm_map_gart g (daddr x) | None => daddr x end) (pte_flags n f).

(** ** The fragment *)

Record frag_ok (f fe fs : Z) : Prop := {
  frag_size : 0 ≤ f ≤ 31;
  frag_from : (2 ^ f | fs);
  frag_to : (2 ^ f | fe);
  frag_inside : fs < fe ≤ end';
  frag_pages : pages = None ∨ f = 0;
}.

Lemma range_end : end' ≤ 2 ^ 62.
Proof. pose proof (limit_bounds adev Hok). pose proof (range_inside Hr). lia. Qed.

Lemma frag_zero fs : fs < end' → frag_ok 0 end' fs.
Proof. intros H. split; [lia|apply Z.divide_1_l|apply Z.divide_1_l|lia|by right]. Qed.

Lemma pte_fragment_spec p fs : pages_addr p = pages → 0 ≤ fs < end' →
  let '(f, fe) := amdgpu_vm_pte_fragment adev p fs end' in frag_ok f fe fs.
Proof.
  intros Hp Hfs. destruct pages as [g|] eqn:Hpages.
  - unfold amdgpu_vm_pte_fragment. rewrite Hp. apply frag_zero. lia.
  - pose proof (fragment_block adev p fs end' Hv Hp Hfs range_end) as Hb. destruct (amdgpu_vm_pte_fragment adev p fs end') as [f fe].
    destruct Hb as (B1 & B2 & B3 & B4 & _). pose proof (pow2_pos f ltac:(lia)). split; [done|done|done|lia|by left].
Qed.

Lemma pte_fragment_nonneg p fs : 0 ≤ (amdgpu_vm_pte_fragment adev p fs end').1.
Proof.
  unfold amdgpu_vm_pte_fragment. destruct (pages_addr p); [done|]. rewrite Hv. destruct (Z.leb_spec 31 (Z.min (u32 (ffs (u32 fs) - 1)) (u32 (fls64 (u64 (end' - fs)) - 1)))); [done|].
  simpl. apply Z.min_glb; apply (wrap_in_width 32); lia.
Qed.

(** ** One write *)

Lemma pte_flags_nz n f : n ≠ depth → nz (Z.land (pte_flags n f) AMDGPU_PDE_PTE) = true.
Proof.
  intros Hn. apply nz_true. unfold pte_flags. rewrite decide_False by done. intros Hz.
  apply (f_equal (λ z, Z.testbit z 54)) in Hz. rewrite Z.land_spec, Z.lor_spec in Hz.
  change (Z.testbit AMDGPU_PDE_PTE 54) with true in Hz. by rewrite orb_true_r in Hz.
Qed.

Lemma update_flags_spec tf vm pt b n i a count incr f : the_bo vm pt = Some b → (n ≤ depth)%nat → 0 ≤ i → 0 ≤ count →
  i + count ≤ Z.of_nat (length (ptes b)) → 0 ≤ a < 2 ^ 48 → (4096 | a) →
  ∃ vm', amdgpu_vm_pte_update_flags adev gmc env (mk_params false pages ao tf) vm pt (lev n) (i * 8) a count incr
           (Z.lor flags (AMDGPU_PTE_FRAG f)) = Some vm' ∧
    tables vm' = <[pt := b <| ptes := list_inserts (Z.to_nat i) (pte_values pages a (Z.to_nat count) (u32 incr) (pte_flags n f)) (ptes b) |>]> (tables vm) ∧
    relocated vm' = relocated vm ∧ pt_freed vm' = pt_freed vm ∧ pte_support_ats vm' = pte_support_ats vm.
Proof.
  intros Hb Hn Hi Hc Hl Ha Hal. unfold amdgpu_vm_pte_update_flags. set (fl := Z.lor flags (AMDGPU_PTE_FRAG f)).
  destruct (cpu_update_spec env Hwait (mk_params false pages ao tf) vm pt b i a count incr (pte_flags n f)) as (vm' & Hu & Hrest);
    [done|done|done|done|].
  exists vm'. split; [|exact Hrest]. rewrite lev_ptb by done. rewrite Hv.
  assert (∀ fl', match override_vm_pte_flags gmc, pages_addr (mk_params false pages ao tf) with
          | Some g, None => if nz (Z.land fl' AMDGPU_PTE_SYSTEM) && allow_override (mk_params false pages ao tf) then g a fl' else fl'
          | _, _ => fl' end = fl') as Hno.
  { intros fl'. cbn [pages_addr allow_override]. destruct Hover as [-> | ->]; [done|]. rewrite andb_false_r. by destruct (override_vm_pte_flags gmc), pages. }
  pose proof (pte_flags_nz n f) as Hnz. unfold pte_flags in *. fold fl in Hu, Hnz |- *. destruct (decide (n = depth)) as [Hd|Hd].
  - rewrite bool_decide_true by done. cbn [negb andb mbind option_bind]. rewrite Hno, Hu. done.
  - rewrite bool_decide_false by done. cbn [negb]. rewrite vm_pde_page; [|by intros Hlev%Z.eqb_eq; rewrite lev_ptb in Hlev by done; apply bool_decide_eq_true in Hlev|done|done|by apply Hnz].
    cbn [mbind option_bind]. rewrite Hno, Hu. done.
Qed.

(** ** The entries of one table *)

Section Table.
Context (n : nat) (y : Z) (vm0 : amdgpu_vm) (b : amdgpu_bo_vm).
Context (Hn : (n ≤ depth)%nat) (Hy : start ≤ y < end') (Hb : tables vm0 !! path_at n y = Some b).
Context (Hal : (2 ^ sh n | y)) (Hsize : length (ptes b) = tsize adev n) (Hlive : freed b = false).

(** The number of the entry for [z]. *)
Definition slot (z : Z) : Z := idx n y + (cell n z - cell n y).

(** The pages from [y] to [fs] are written. *)
Record written (vm : amdgpu_vm) (fs : Z) (l : list Z) : Prop := {
  wr_tables : tables vm = <[path_at n y := b <| ptes := l |>]> (tables vm0);
  wr_length : length l = length (ptes b);
  wr_other j : ¬ (slot y ≤ Z.of_nat j < slot fs) → l !! j = ptes b !! j;
  wr_pages x : y ≤ x < fs → ∃ f, sh n ≤ f ≤ 31 ∧ (pages = None ∨ f = 0) ∧ y ≤ x / 2 ^ f * 2 ^ f ∧ (x / 2 ^ f + 1) * 2 ^ f ≤ fs ∧
    l !! Z.to_nat (slot x) = Some (pte_value n (cell n x * 2 ^ sh n) f);
  wr_rest : relocated vm = relocated vm0 ∧ pt_freed vm = pt_freed vm0 ∧ pte_support_ats vm = pte_support_ats vm0;
}.

Lemma y_limit : 0 ≤ y < limit.
Proof. pose proof (range_inside Hr). lia. Qed.
#[local] Hint Resolve y_limit : core.

Lemma written_start : written vm0 y (ptes b).
Proof.
  split; [|done|done|lia|done]. rewrite insert_id; [done|]. rewrite Hb. f_equal. by destruct b.
Qed.

Lemma slot_bounds z : y ≤ z ≤ tend n y → (2 ^ sh n | z) → 0 ≤ slot z ≤ entries n.
Proof. intros. by apply tend_entries. Qed.

(** The addresses of the entries of a write. *)
Lemma write_value fs c j : (2 ^ sh n | fs) → start ≤ fs → 0 ≤ Z.of_nat j < c → fs + c * 2 ^ sh n ≤ end' →
  u64 (daddr fs + Z.of_nat j * u32 (u64 (Z.shiftl AMDGPU_GPU_PAGE_SIZE (sh n)))) = daddr (fs + Z.of_nat j * 2 ^ sh n).
Proof.
  intros Hfs Hs Hj Hc. pose proof (sh_bounds adev Hok n Hn) as Hb0. pose proof (sh_pos adev Hok n Hn) as Hp.
  pose proof (range_aligned Hr) as [Hd _]. pose proof (range_dst Hr). pose proof (range_inside Hr).
  unfold AMDGPU_GPU_PAGE_SIZE. rewrite Z.shiftl_mul_pow2 by lia.
  assert (2 ^ sh n ≤ 2 ^ 31) by (apply Z.pow_le_mono_r; lia). rewrite (wrap_small 64 (4096 * 2 ^ sh n)) by (unfold in_width; lia).
  assert (Z.of_nat j * u32 (4096 * 2 ^ sh n) = Z.of_nat j * (4096 * 2 ^ sh n)) as ->.
  { destruct (decide (j = 0%nat)) as [->|Hj0]; [done|]. f_equal. apply wrap_small. unfold in_width.
    destruct (range_incr Hr n Hn) as [Hle|Hlt].
    - assert (2 ^ sh n ≤ 2 ^ 19) by (apply Z.pow_le_mono_r; lia). lia.
    - rewrite Z.pow_add_r in Hlt by lia. nia. }
  rewrite wrap_small; unfold daddr, in_width; nia.
Qed.

Lemma cell_between fs x : (2 ^ sh n | fs) → fs ≤ x → cell n x * 2 ^ sh n = fs + (cell n x - cell n fs) * 2 ^ sh n.
Proof. intros Hd Hx. pose proof (cell_mult adev Hok n fs Hn Hd). lia. Qed.

Lemma written_step vm l fs f ue vm' : written vm fs l → y ≤ fs < ue → ue ≤ tend n y → ue ≤ end' → sh n ≤ f ≤ 31 → (pages = None ∨ f = 0) →
  (2 ^ f | fs) → (2 ^ f | ue) →
  let l' := list_inserts (Z.to_nat (slot fs)) (pte_values pages (daddr fs) (Z.to_nat (cell n ue - cell n fs))
              (u32 (u64 (Z.shiftl AMDGPU_GPU_PAGE_SIZE (sh n)))) (pte_flags n f)) l in
  tables vm' = <[path_at n y := b <| ptes := l' |>]> (tables vm) →
  relocated vm' = relocated vm ∧ pt_freed vm' = pt_freed vm ∧ pte_support_ats vm' = pte_support_ats vm →
  written vm' ue l'.
Proof.
  intros [W1 W2 W3 W4 W5] Hfs Hue He Hf Hfp Hd1 Hd2 l' Ht Hrest. pose proof (sh_bounds adev Hok n Hn) as Hb0. pose proof (sh_pos adev Hok n Hn) as Hp.
  assert (Hd1' : (2 ^ sh n | fs)) by (by apply (divide_coarse _ f); [lia|]).
  assert (Hd2' : (2 ^ sh n | ue)) by (by apply (divide_coarse _ f); [lia|]).
  pose proof (slot_bounds fs ltac:(lia) Hd1') as B1. pose proof (slot_bounds ue ltac:(lia) Hd2') as B2.
  pose proof (tsize_entries adev Hok n Hn) as Hts.
  assert (Hc : cell n ue - cell n fs = slot ue - slot fs) by (unfold slot; lia).
  pose proof (cell_mono adev Hok n y fs Hn ltac:(lia)) as M1. pose proof (cell_mono adev Hok n fs ue Hn ltac:(lia)) as M2.
  split.
  - rewrite Ht, W1. apply insert_insert_eq.
  - unfold l'. by rewrite length_inserts.
  - intros j Hj. unfold slot in Hj, B1, B2, Hc. unfold l'. rewrite inserts_not_in by (rewrite pte_values_length; unfold slot; lia).
    apply W3. unfold slot. lia.
  - intros x Hx. destruct (decide (x < fs)) as [Hlt|Hge].
    + destruct (W4 x ltac:(lia)) as (g & Hg & Hgp & Hg1 & Hg2 & Hl). exists g. split_and!; [lia|lia|done|lia|lia|].
      unfold l'. rewrite inserts_not_in; [done|]. rewrite pte_values_length. assert (Hsl : 0 ≤ slot x < slot fs); [|lia].
      pose proof (cell_mono adev Hok n y x Hn ltac:(lia)). pose proof (idx_bounds adev Hok n y Hn y_limit).
      unfold slot. split; [lia|]. assert (cell n x < cell n fs); [|lia].
      pose proof (cell_mult adev Hok n fs Hn Hd1'). apply Z.div_lt_upper_bound; [done|]. unfold VmWalk.cell in *. lia.
    + exists f. destruct (block_inside f fs ue x ltac:(lia) Hd1 Hd2 ltac:(lia)) as [Hblk1 Hblk2]. split_and!; [lia|lia|done|lia|lia|].
      assert (Hcx : 0 ≤ cell n x - cell n fs < cell n ue - cell n fs).
      { pose proof (cell_mono adev Hok n fs x Hn ltac:(lia)). split; [lia|]. assert (cell n x < cell n ue); [|lia].
        pose proof (cell_mult adev Hok n ue Hn Hd2'). apply Z.div_lt_upper_bound; [done|]. unfold VmWalk.cell in *. lia. }
      set (j := Z.to_nat (cell n x - cell n fs)).
      assert (Hsx : Z.to_nat (slot x) = (Z.to_nat (slot fs) + j)%nat) by (unfold j, slot in *; lia). rewrite Hsx.
      unfold l'. rewrite list_lookup_inserts by (rewrite ?pte_values_length; unfold j, slot in *; lia).
      replace (Z.to_nat (slot fs) + j - Z.to_nat (slot fs))%nat with j by lia. rewrite pte_values_lookup by (unfold j; lia).
      rewrite (write_value fs (cell n ue - cell n fs) j); [|done|lia|unfold j; lia|].
      * rewrite (cell_between fs x Hd1' ltac:(lia)). unfold pte_value. replace (Z.of_nat j) with (cell n x - cell n fs) by (unfold j; lia). done.
      * rewrite <- (cell_between fs ue) by (done || lia). rewrite (cell_mult adev Hok n ue Hn Hd2'). lia.
  - destruct Hrest as (-> & -> & ->). done.
Qed.

(** *** The loop *)

Definition ee : Z := Z.min (tend n y) end'.
Abbreviation incr := (u64 (Z.shiftl AMDGPU_GPU_PAGE_SIZE (sh n))).

Record in_table (u : update_state) (tf : bool) : Prop := {
  it_params : u_params u = mk_params false pages ao tf;
  it_cursor : u_cursor u = cursor_at n y;
  it_start : y ≤ frag_start u ≤ ee;
  it_aligned : (2 ^ sh n | frag_start u);
  it_dst : dst u = daddr (frag_start u);
  it_size : 0 ≤ frag u;
  it_frag : frag_start u < end' → frag_ok (frag u) (frag_end u) (frag_start u);
  it_written : ∃ l, written (u_vm u) (frag_start u) l;
}.

(** Before a turn: this depth is the one for the fragment. *)
Definition fits (u : update_state) : Prop := sh n ≤ frag u ∧ ∀ k, n = S k → frag u < sh k.

Lemma ee_divide f fe : sh n ≤ f ≤ 31 → (∀ k, n = S k → f < sh k) → (2 ^ f | fe) → fe ≤ end' → (2 ^ f | Z.min ee fe).
Proof.
  intros Hf Hk Hd Hle. pose proof (sh_bounds adev Hok n Hn). unfold ee. destruct (decide (fe ≤ tend n y)).
  - by replace (Z.min (Z.min (tend n y) end') fe) with fe by lia.
  - replace (Z.min (Z.min (tend n y) end') fe) with (tend n y) by lia. destruct n as [|k] eqn:En.
    + simpl in *. pose proof (range_inside Hr). lia.
    + pose proof (Hk k eq_refl). apply (tend_divide adev (S k) k); (done || lia).
Qed.

Lemma nptes_code fs ue : y ≤ fs < ue → ue ≤ ee → (2 ^ sh n | fs) → (2 ^ sh n | ue) →
  Z.max (u32 (Z.shiftr (u64 (ue - fs)) (sh n))) 1 = cell n ue - cell n fs ∧ ue = fs + (cell n ue - cell n fs) * 2 ^ sh n.
Proof.
  intros Hfs Hue Hd1 Hd2. pose proof (sh_bounds adev Hok n Hn). pose proof (sh_pos adev Hok n Hn). pose proof range_end. pose proof (range_inside Hr). unfold ee in Hue.
  pose proof (slot_bounds fs ltac:(lia) Hd1) as B1. pose proof (slot_bounds ue ltac:(lia) Hd2) as B2. unfold slot in *.
  pose proof (cell_mult adev Hok n fs Hn Hd1) as E1. pose proof (cell_mult adev Hok n ue Hn Hd2) as E2.
  assert (Hlt : cell n fs < cell n ue) by (apply (Z.mul_lt_mono_pos_r (2 ^ sh n)); lia).
  rewrite (wrap_small 64) by (unfold in_width; lia). rewrite Z.shiftr_div_pow2 by lia.
  replace (ue - fs) with ((cell n ue - cell n fs) * 2 ^ sh n) by lia. rewrite Z.div_mul by lia.
  pose proof (entries_pos adev Hok n). pose proof (idx_bounds adev Hok n y Hn y_limit).
  pose proof (cell_mono adev Hok n y fs Hn ltac:(lia)). rewrite wrap_small by (unfold in_width; lia). lia.
Qed.

Lemma fragment_turn u tf : in_table u tf → fits u → frag_start u < ee →
  ∃ r, fragment_step adev gmc env (path_at n y) (lev n) (sh n) incr ee end' flags (u, slot (frag_start u) * 8) = Some r ∧
    let u' := match r with inl (u', pe) => u' | inr u' => u' end in
    in_table u' tf ∧ frag_start u < frag_start u' ∧
    match r with
    | inl (u', pe) => pe = slot (frag_start u') * 8 ∧ fits u' ∧ frag_start u' < ee
    | inr u' => frag_start u' = ee ∨ frag u' < sh n
    end.
Proof.
  intros [I1 I2 I3 I4 I5 I0 I6 [l I7]] [Hf1 Hf2] Hlt. unfold fragment_step.
  destruct (I6 ltac:(unfold ee in *; lia)) as [Hfs Hfrom Hto Hin Hfp].
  set (ue := Z.min ee (frag_end u)). assert (Hdiv : (2 ^ frag u | ue)) by (apply ee_divide; (auto || lia)).
  assert (Hdiv' : (2 ^ sh n | ue)) by (apply (divide_coarse _ (frag u)); [pose proof (sh_bounds adev Hok n Hn); lia|done]).
  destruct (nptes_code (frag_start u) ue) as [Hnp Hue]; [lia|lia|done|done|]. rewrite Hnp. set (c := cell n ue - cell n (frag_start u)) in *.
  pose proof (slot_bounds (frag_start u) ltac:(unfold ee in *; lia) I4) as B1. pose proof (slot_bounds ue ltac:(unfold ee in *; lia) Hdiv') as B2.
  pose proof (tsize_entries adev Hok n Hn) as Hts.
  assert (Hslot : slot ue = slot (frag_start u) + c) by (unfold slot, c; lia).
  pose proof (sh_pos adev Hok n Hn) as Hp. assert (Hc : 0 < c) by nia.
  pose proof (range_aligned Hr) as [Hd0 Hda]. pose proof (range_dst Hr). pose proof (range_inside Hr).
  destruct (update_flags_spec tf (u_vm u) (path_at n y) (b <| ptes := l |>) n (slot (frag_start u)) (dst u) c incr (frag u))
    as (vm' & Hu & Ht & Hrest); [|done|lia|lia| | | |].
  - unfold the_bo. rewrite (wr_tables _ _ _ I7), lookup_insert_eq. cbn [mbind option_bind].
    change (freed (b <| ptes := l |>)) with (freed b). by rewrite Hlive.
  - change (ptes (b <| ptes := l |>)) with l. rewrite (wr_length _ _ _ I7), Hsize. lia.
  - rewrite I5. unfold daddr. lia.
  - rewrite I5. unfold daddr. apply Z.divide_add_r; [done|]. apply Z.divide_factor_r.
  - rewrite I1, Hu. cbn [mbind option_bind]. cbn zeta.
    set (u1 := (u <| u_vm := vm' |> <| dst ::= λ d, u64 (d + c * incr) |> <| frag_start := ue |>)).
    assert (Hw : ∃ l', written vm' ue l').
    { eexists. eapply (written_step (u_vm u) l (frag_start u) (frag u) ue vm'); [done|lia|unfold ee in *; lia|lia|lia|done|done|done| |done].
      rewrite <- I5. exact Ht. }
    assert (Hdst : u64 (dst u + c * incr) = daddr ue).
    { pose proof (sh_bounds adev Hok n Hn). assert (2 ^ sh n ≤ 2 ^ 31) by (apply Z.pow_le_mono_r; lia).
      unfold AMDGPU_GPU_PAGE_SIZE. rewrite Z.shiftl_mul_pow2, (wrap_small 64 (4096 * 2 ^ sh n)) by (unfold in_width; lia).
      rewrite wrap_small; rewrite I5; unfold daddr, in_width; nia. }
    assert (Hmove : ∀ f fe, 0 ≤ f → (ue < end' → frag_ok f fe ue) → in_table (u1 <| frag := f |> <| frag_end := fe |>) tf).
    { intros f fe Hf0 Hf. split; [exact I1|exact I2| |exact Hdiv'|exact Hdst|exact Hf0|exact Hf|exact Hw]. cbn. unfold ee in *. lia. }
    assert (Hpe : slot (frag_start u) * 8 + c * 8 = slot ue * 8) by lia. rewrite Hpe.
    destruct (Z.leb_spec (frag_end u1) ue) as [Hend|Hend].
    + pose proof (pte_fragment_spec (u_params u1) ue) as Hfr. pose proof (pte_fragment_nonneg (u_params u1) ue) as Hf0.
      destruct (amdgpu_vm_pte_fragment adev (u_params u1) ue end') as [f fe] eqn:Ef.
      assert (Hok' : ue < end' → frag_ok f fe ue) by (intros ?; apply Hfr; [by change (u_params u1) with (u_params u); rewrite I1|lia]).
      specialize (Hmove f fe Hf0 Hok'). destruct (Z.ltb_spec f (sh n)) as [Hsm|Hbig].
      * eexists. split; [done|]. split; [done|]. split; [cbn; lia|]. by right.
      * destruct (Z.ltb_spec ue ee) as [Hlt'|Hge'].
        -- eexists. split; [done|]. split; [done|]. split; [cbn; lia|]. split; [done|]. split; [|done]. split; [done|].
           intros k Hk. assert (Htend : tend n y = nextb k y) by (by rewrite Hk). cbn. destruct (decide (f < sh k)) as [|Hgk]; [done|]. exfalso.
           destruct (Hok' ltac:(unfold ee in *; lia)) as [? Hfm _ _ _]. pose proof (sh_bounds adev Hok k ltac:(lia)).
           assert (Hm : (2 ^ sh k | ue)) by (apply (divide_coarse _ f); [lia|done]).
           pose proof (cell_mult adev Hok k ue ltac:(lia) Hm) as Hcm.
           assert (Hcc : cell k ue = cell k y) by (apply tend_cell; [done|lia|unfold ee in *; lia]).
           pose proof (proj1 (cell_spec adev Hok k y (cell k y) ltac:(lia)) eq_refl). rewrite Hcc in Hcm. lia.
        -- eexists. split; [done|]. split; [done|]. split; [cbn; lia|]. left. cbn. lia.
    + change (frag_end u1) with (frag_end u) in Hend. assert (Hue' : ue = ee) by lia. rewrite (proj2 (Z.ltb_ge _ _)) by lia.
      eexists. split; [done|]. split; [|split; [cbn; lia|by left]].
      replace u1 with (u1 <| frag := frag u |> <| frag_end := frag_end u |>) by done. apply Hmove; [done|]. intros ?. split; [done|done|done|lia|done].
Qed.

Lemma fragment_loop u tf : in_table u tf → fits u → frag_start u = y →
  ∃ u', run_loop (fragment_step adev gmc env (path_at n y) (lev n) (sh n) incr ee end' flags) (u, slot y * 8) = Some u' ∧
    in_table u' tf ∧ y < frag_start u' ∧ (frag_start u' = ee ∨ frag u' < sh n).
Proof.
  intros Hu Hf Hs. assert (Hlt : y < ee).
  { unfold ee. pose proof (tend_bounds adev Hok n y Hn y_limit). lia. }
  apply (run_loop_spec _ (λ s, in_table s.1 tf ∧ fits s.1 ∧ frag_start s.1 < ee ∧ s.2 = slot (frag_start s.1) * 8)
    (λ u', in_table u' tf ∧ y < frag_start u' ∧ (frag_start u' = ee ∨ frag u' < sh n)) (λ s, ee - frag_start s.1)).
  - intros [v pe] (Hv' & Hf' & Hlt' & Hpe). simpl in Hpe. subst pe.
    destruct (fragment_turn v tf Hv' Hf' Hlt') as (r & Hr' & Hit & Hmore & Hrest). exists r. split; [exact Hr'|].
    destruct r as [[v' pe']|v']; cbn in *.
    + destruct Hrest as (? & ? & ?). pose proof (it_start _ _ Hit). split_and!; try done; lia.
    + pose proof (it_start _ _ Hv'). split_and!; try done; lia.
  - cbn. rewrite Hs. split_and!; try done; lia.
  - cbn. rewrite Hs. pose proof range_end. pose proof (range_inside Hr). unfold ee. lia.
Qed.
End Table.
End Fragment.
