(* ===== verification/VmFreeing.v ===== *)
(** * Page tables: freeing what larger entries replace

    The loop of [amdgpu_vm_ptes_update] behind a write to a directory: the tables under
    the written entries are freed and the cursor gets behind them. *)

From S2P Require Import Prelude Vm VmWalk VmCursor VmDfs VmLeaf.
#[local] Open Scope Z_scope.
#[local] Open Scope list_scope.

Section Freeing.
Context (adev : amdgpu_device) (Hok : adev_ok adev).
Abbreviation depth := (depth adev).
Abbreviation sh := (sh adev).
Abbreviation cell := (cell adev).
Abbreviation idx := (idx adev).
Abbreviation path_at := (path_at adev).
Abbreviation entries := (entries adev).
Abbreviation limit := (limit adev).
Abbreviation nextb := (nextb adev).
Abbreviation vm_wf := (vm_wf adev).
Abbreviation cursor_at := (cursor_at adev).
Abbreviation tend := (tend adev).
Abbreviation moved_on := (moved_on adev).

(** Tables may be gone, nothing else. *)
Record shrunk (vm vm' : amdgpu_vm) : Prop := {
  sk_tables k : tables vm' !! k = None ∨ tables vm' !! k = tables vm !! k;
  sk_kept k : k ∈ relocated vm → is_Some (tables vm' !! k) → k ∈ relocated vm';
  sk_relocated k : k ∈ relocated vm' → k ∈ relocated vm ∧ (is_Some (tables vm !! k) → is_Some (tables vm' !! k));
  sk_freed : pt_freed vm = [] → pt_freed vm' = [];
  sk_ats : pte_support_ats vm' = pte_support_ats vm;
}.

Lemma shrunk_refl vm : shrunk vm vm.
Proof. split; auto. Qed.

Lemma shrunk_trans vm1 vm2 vm3 : shrunk vm1 vm2 → shrunk vm2 vm3 → shrunk vm1 vm3.
Proof.
  intros [A1 A2 A3 A4 A5] [B1 B2 B3 B4 B5]. split.
  - intros k. destruct (B1 k) as [->|H]; [by left|]. rewrite H. apply A1.
  - intros k Hk Hs. apply B2; [|done]. apply A2; [done|]. destruct (B1 k) as [H|H]; [rewrite H in Hs; by destruct Hs|by rewrite <- H].
  - intros k [Hk Hs]%B3. apply A3 in Hk as [Hk Hs']. auto.
  - auto.
  - congruence.
Qed.

Lemma cut_shrunk vm vm' P : (∀ k, Decision (P k)) → cut vm vm' P → shrunk vm vm'.
Proof.
  intros HP [C1 C2 C3 C4 [C5 _]]. split; [| | |done|done].
  - intros k. destruct (HP k); [left; auto|right; auto].
  - intros k Hk [b Hb]. rewrite C3. split; [done|]. intros [Hp _]. by rewrite C1 in Hb.
  - intros k [Hk Hn]%C3. split; [done|]. intros Hs. rewrite C2; [done|tauto].
Qed.

(** [amdgpu_vm_pt_next] in the middle of a table. *)
Lemma next_inner vm n x b : (n < depth)%nat → 0 ≤ x < limit → S n = depth ∨ tables vm !! path_at (S n) x = None →
  the_bo vm (path_at n x) = Some b → nextb n x < tend n x →
  amdgpu_vm_pt_next adev vm (cursor_at (S n) x) = Some (cursor_at (S n) (nextb n x)).
Proof.
  intros Hn Hx Hstop Hb Hlt. unfold amdgpu_vm_pt_next. rewrite (descendant_stop adev Hok) by (done || lia). cbn [mbind option_bind].
  rewrite cursor_entry_length. cbn [next_up]. rewrite (sibling_spec adev Hok vm n x b Hn Hx Hb).
  rewrite decide_False; [done|]. intros Hl. destruct n as [|k]; simpl in Hlt.
  - rewrite (nextb_root_last adev x Hl) in Hlt. lia.
  - rewrite (nextb_last adev Hok k x) in Hlt by (done || lia). lia.
Qed.

Section Loop.
Context (n : nat) (y fs : Z) (vm1 : amdgpu_vm).
Context (Hn : (n < depth)%nat) (Hy : 0 ≤ y < limit) (Hal : (2 ^ sh n | y)) (Hfs : y < fs ≤ tend n y) (Hfsal : (2 ^ sh n | fs)).
Context (W1 : vm_wf vm1) (Hp : is_Some (tables vm1 !! path_at n y)).

(** What is under the entries from [y] to [z] is gone, the rest as before. *)
Record freed_to (vm : amdgpu_vm) (z : Z) : Prop := {
  ft_wf : vm_wf vm;
  ft_shrunk : shrunk vm1 vm;
  ft_gone w : y ≤ w < z → tables vm !! path_at (S n) w = None;
  ft_kept k : (∀ w, y ≤ w < z → ¬ under (path_at (S n) w) k) → tables vm !! k = tables vm1 !! k;
}.

Lemma freed_start : freed_to vm1 y.
Proof. split; [done|apply shrunk_refl|lia|done]. Qed.

Lemma freed_table vm z w : freed_to vm z → path_at n w = path_at n y → is_Some (tables vm !! path_at n w).
Proof.
  intros [_ _ _ F] Hw. rewrite F; [by rewrite Hw|]. intros v _. apply not_under_shorter. rewrite !path_at_length. lia.
Qed.

Lemma freed_step vm z vm' : freed_to vm z → y ≤ z → (2 ^ sh n | z) → cut vm vm' (under (path_at (S n) z)) → vm_wf vm' →
  freed_to vm' (nextb n z).
Proof.
  intros [F1 F2 F3 F4] Hz Hd C W'. pose proof (cell_mult adev Hok n z ltac:(lia) Hd) as Hm.
  assert (Hin : ∀ w, z ≤ w < nextb n z → path_at (S n) w = path_at (S n) z).
  { intros w Hw. apply path_at_cell; [done|done|]. apply tend_cell; [done|lia|done]. }
  pose proof (nextb_bounds adev Hok n z ltac:(lia)) as Hnb. split; [done| | |].
  - eapply shrunk_trans; [done|]. eapply cut_shrunk; [|exact C]. intros k. unfold under. apply _.
  - intros w Hw. destruct (decide (w < z)) as [Hlt|Hge].
    + eapply cut_none; [|exact C|by apply F3; lia]. intros k. unfold under. apply _.
    + rewrite (Hin w) by lia. apply (cut_out _ _ _ C). by unfold under.
  - intros k Hk. rewrite (cut_in _ _ _ C) by (apply Hk; lia). apply F4. intros w Hw. apply Hk. lia.
Qed.

(** One turn. *)
Lemma free_turn u tf pages ao z : u_params u = mk_params false pages ao tf → u_cursor u = cursor_at (S n) z → freed_to (u_vm u) z →
  frag_start u = fs → y ≤ z < fs → (2 ^ sh n | z) →
  ∃ u' tf', free_step adev u = Some (inl u') ∧ u_params u' = mk_params false pages ao tf' ∧ freed_to (u_vm u') (nextb n z) ∧
    frag_start u' = frag_start u ∧ frag u' = frag u ∧ frag_end u' = frag_end u ∧ dst u' = dst u ∧
    (nextb n z < fs → u_cursor u' = cursor_at (S n) (nextb n z)) ∧ moved_on (u_vm u') (nextb n z) (u_cursor u').
Proof.
  intros Hpar Hcur F Hfu Hz Hd. unfold free_step. rewrite Hcur. cbn [pfn entry VmCursor.cursor_at]. rewrite Hfu, (proj2 (Z.ltb_lt _ _)) by lia.
  cbn [negb mbind option_bind]. pose proof (ft_wf _ _ F) as W. pose proof (tend_bounds adev Hok n y ltac:(lia) Hy).
  assert (Hzp : path_at n z = path_at n y) by (apply tend_path; [done|lia|lia]).
  assert (Hal' : z = cell n z * 2 ^ sh n) by (symmetry; apply cell_mult; (done || lia)).
  destruct (free_dfs_spec adev Hok (u_vm u) n z W Hn ltac:(lia) Hal' (freed_table _ _ _ F Hzp)) as (vm' & Hf & C & W').
  pose proof (freed_step _ _ _ F ltac:(lia) Hd C W') as F'.
  assert (∃ u2 tf', (if has_bo (u_vm u) (path_at (S n) z)
     then vm ← amdgpu_vm_pt_free_dfs adev (u_vm u) (Some (cursor_at (S n) z)) (unlocked (u_params u));
          Some (u <| u_params ::= λ p, p <| table_freed := true |> |> <| u_vm := vm |>)
     else Some u) = Some u2 ∧ u_params u2 = mk_params false pages ao tf' ∧ freed_to (u_vm u2) (nextb n z) ∧ u_cursor u2 = cursor_at (S n) z ∧
     frag_start u2 = frag_start u ∧ frag u2 = frag u ∧ frag_end u2 = frag_end u ∧ dst u2 = dst u) as (u2 & tf' & Hu2 & P1 & P2 & P3 & P4).
  { destruct (tables (u_vm u) !! path_at (S n) z) as [b|] eqn:Hb.
    - rewrite (has_bo_true _ _ _ Hb), Hpar. cbn [unlocked]. rewrite Hf. cbn [mbind option_bind]. eexists _, true. split; [done|].
      cbn. rewrite Hpar. by rewrite Hcur.
    - rewrite (has_bo_false _ _ Hb). exists u, tf. split; [done|]. split_and!; try done.
      apply (freed_step _ _ (u_vm u) F ltac:(lia) Hd); [|done]. apply cut_refl. intros k Hk.
      destruct (decide (k = path_at (S n) z)) as [->|]; [done|]. eapply (none_below adev); [done|done|by split]. }
  change (mk_cursor z (Some (path_at n z)) (Some (path_at (S n) z)) (VmWalk.lev adev (S n))) with (cursor_at (S n) z). rewrite Hu2. cbn [mbind option_bind]. rewrite P3.
  pose proof (nextb_bounds adev Hok n z ltac:(lia)) as Hnb.
  pose proof (freed_table _ _ z P2 Hzp) as [bz Hbz].
  assert (Hnone : S n = depth ∨ tables (u_vm u2) !! path_at (S n) z = None) by (right; apply (ft_gone _ _ P2); lia).
  destruct (next_spec adev Hok (u_vm u2) n z Hn ltac:(lia) Hnone) as (c & Hc & Hmv).
  { intros m Hm. destruct (wf_ancestor adev (u_vm u2) m n z bz (ft_wf _ _ P2) Hm Hbz) as [bm Hbm]. exists bm.
    eapply wf_the_bo; [apply (ft_wf _ _ P2)|done]. }
  rewrite Hc. cbn [mbind option_bind]. exists (u2 <| u_cursor := c |>), tf'. split; [done|]. cbn. destruct P4 as (? & ? & ? & ?). split_and!; try done; [congruence|]. intros Hlt.
  assert (Heq : tend n z = tend n y).
  { destruct n as [|k]; [done|]. simpl. unfold VmWalk.nextb. f_equal. f_equal. eapply (path_at_S adev Hok); [|done]. lia. }
  assert (Some c = Some (cursor_at (S n) (nextb n z))) as [= ->]; [|done]. rewrite <- Hc.
  eapply next_inner; [done|lia|done|eapply wf_the_bo; [apply (ft_wf _ _ P2)|done]|]. rewrite Heq. lia.
Qed.

Lemma free_loop u tf pages ao : u_params u = mk_params false pages ao tf → u_cursor u = cursor_at (S n) y → u_vm u = vm1 → frag_start u = fs →
  ∃ u', run_loop (free_step adev) u = Some u' ∧ ∃ tf', u_params u' = mk_params false pages ao tf' ∧ freed_to (u_vm u') fs ∧
    frag_start u' = frag_start u ∧ frag u' = frag u ∧ frag_end u' = frag_end u ∧ dst u' = dst u ∧ moved_on (u_vm u') fs (u_cursor u').
Proof.
  intros Hpar Hcur Hvm Hfu. pose proof (tend_bounds adev Hok n y ltac:(lia) Hy) as Ht. pose proof (limit_bounds adev Hok) as Hlim.
  set (same := λ v : update_state, frag_start v = frag_start u ∧ frag v = frag u ∧ frag_end v = frag_end u ∧ dst v = dst u).
  apply (run_loop_spec _ (λ v, same v ∧ (∃ tf', u_params v = mk_params false pages ao tf') ∧
      ((y ≤ pfn (u_cursor v) < fs ∧ u_cursor v = cursor_at (S n) (pfn (u_cursor v)) ∧ (2 ^ sh n | pfn (u_cursor v)) ∧ freed_to (u_vm v) (pfn (u_cursor v))) ∨
       (freed_to (u_vm v) fs ∧ moved_on (u_vm v) fs (u_cursor v))))
    (λ v, ∃ tf', u_params v = mk_params false pages ao tf' ∧ freed_to (u_vm v) fs ∧ frag_start v = frag_start u ∧ frag v = frag u ∧
       frag_end v = frag_end u ∧ dst v = dst u ∧ moved_on (u_vm v) fs (u_cursor v)) (λ v, Z.max 0 (fs - pfn (u_cursor v)))).
  - intros v (Hs & [tfv Hpv] & [(Hz & Hc & Hd & F)|(F & Hmv)]).
    + set (z := pfn (u_cursor v)) in *. destruct Hs as (S1 & S2 & S3 & S4).
      destruct (free_turn v tfv pages ao z Hpv Hc F ltac:(congruence) Hz Hd) as (v' & tf' & Hv' & P1 & P2 & P3 & P4 & P5 & P6 & P7 & P8).
      exists (inl v'). split; [done|]. pose proof (nextb_bounds adev Hok n z ltac:(lia)) as Hnb.
      pose proof (cell_mult adev Hok n z ltac:(lia) Hd) as Hm. pose proof (sh_pos adev Hok n ltac:(lia)) as Hp2.
      assert (Hnz : nextb n z = z + 2 ^ sh n) by (unfold VmWalk.nextb; lia).
      assert (Hd' : (2 ^ sh n | nextb n z)) by (unfold VmWalk.nextb; by eexists).
      pose proof (divide_sub z fs (2 ^ sh n) Hd Hfsal ltac:(lia) Hp2) as Hle.
      destruct (decide (nextb n z < fs)) as [Hlt|Hge].
      * specialize (P7 Hlt). split; [|rewrite P7; cbn; lia]. split; [by repeat split; congruence|]. split; [by eexists|]. left.
        rewrite P7. cbn [pfn VmCursor.cursor_at]. split_and!; try done; lia.
      * assert (Heq : nextb n z = fs) by lia. rewrite Heq in *. split.
        -- split; [by repeat split; congruence|]. split; [by eexists|]. by right.
        -- destruct P8 as [(_ & m & _ & _ & -> & _)|[_ Hpf]]; [cbn; lia|]. rewrite Hpf. lia.
    + exists (inr v). split.
      * unfold free_step. destruct Hs as (S1 & _). rewrite S1, Hfu.
        rewrite (proj2 (Z.ltb_ge _ _)); [done|]. destruct Hmv as [(_ & m & _ & _ & -> & _)|[_ Hpf]]; [cbn; lia|]. rewrite Hpf. lia.
      * destruct Hs as (? & ? & ? & ?). exists tfv. by split_and!.
  - split; [done|]. split; [by eexists|]. left. rewrite Hcur, Hvm. cbn [pfn VmCursor.cursor_at]. split_and!; [lia|lia|done|done|apply freed_start].
  - rewrite Hcur. cbn [pfn VmCursor.cursor_at]. lia.
Qed.
End Loop.
End Freeing.
