(* ===== verification/VmUpdate.v ===== *)
(** * Page tables: one table of an update

    What a turn of [amdgpu_vm_ptes_update] that writes entries does to the tree as a
    whole: the entries of the pages it gets past are those of the update, what was under
    them is gone, and the rest is as before. *)

From S2P Require Import Prelude Vm VmWalk VmCursor VmDfs VmLeaf VmWrite VmFragment VmFreeing.
#[local] Open Scope Z_scope.
#[local] Open Scope list_scope.

Section Update.
Context (adev : amdgpu_device) (gmc : gmc_funcs) (env : vm_env) (Hok : adev_ok adev).
Context (Hwait : ∀ k, 0 ≤ resv_wait env k) `{!VmPde gmc} (Hv : vega10 adev = true).
Abbreviation depth := (depth adev).
Abbreviation lev := (lev adev).
Abbreviation sh := (sh adev).
Abbreviation cell := (cell adev).
Abbreviation idx := (idx adev).
Abbreviation path_at := (path_at adev).
Abbreviation entries := (entries adev).
Abbreviation limit := (limit adev).
Abbreviation nextb := (nextb adev).
Abbreviation vm_wf := (vm_wf adev).
Abbreviation leaf := (leaf adev).
Abbreviation cursor_at := (cursor_at adev).
Abbreviation moved_on := (moved_on adev).
Abbreviation tend := (tend adev).
Abbreviation agree := (agree adev).
Context (pages : option (Z → Z)) (ao : bool) (Hover : override_vm_pte_flags gmc = None ∨ ao = false).
Context (start end' dst0 flags : Z) (Hr : range_ok adev start end' dst0).
Abbreviation pte_value := (pte_value adev pages start dst0 flags).
Abbreviation written := (written adev pages start dst0 flags).
Abbreviation in_table := (in_table adev pages ao start end' dst0 flags).

(** An entry of [n] with a fragment of [2 ^ f] pages, all of them from [lo] to [hi]; with a
    list of pages it is one page. *)
Definition frag_within (n : nat) (lo hi x f : Z) : Prop :=
  sh n ≤ f ≤ 31 ∧ (pages = None ∨ f = 0) ∧ lo ≤ x / 2 ^ f * 2 ^ f ∧ (x / 2 ^ f + 1) * 2 ^ f ≤ hi.

Definition same_place (b b' : amdgpu_bo_vm) : Prop := pt_addr b' = pt_addr b ∧ pt_flags b' = pt_flags b.

(** The entries of depth [n] for the pages from [y] to [fs] are written. *)
Record updated (vm vm' : amdgpu_vm) (n : nat) (y fs : Z) : Prop := {
  up_wf : vm_wf vm';
  up_table m x b' : 0 ≤ x < limit → tables vm' !! path_at m x = Some b' →
    ∃ b, tables vm !! path_at m x = Some b ∧ same_place b b' ∧
      (m = n → y ≤ x < fs → ∃ f, frag_within n y fs x f ∧ ptes b' !! Z.to_nat (idx n x) = Some (pte_value n (cell n x * 2 ^ sh n) f)) ∧
      (¬ (m = n ∧ y ≤ x < fs) → ptes b' !! Z.to_nat (idx m x) = ptes b !! Z.to_nat (idx m x));
  up_kept m x : is_Some (tables vm !! path_at m x) → (m ≤ n)%nat ∨ ¬ y ≤ x < fs → is_Some (tables vm' !! path_at m x);
  up_gone x : y ≤ x < fs → tables vm' !! path_at (S n) x = None;
  up_to_do k : k ∈ relocated vm → is_Some (tables vm' !! k) → k ∈ relocated vm';
  up_relocated k : k ∈ relocated vm' → k ∈ relocated vm ∧ (is_Some (tables vm !! k) → is_Some (tables vm' !! k));
  up_freed : pt_freed vm = [] → pt_freed vm' = [];
  up_ats : pte_support_ats vm' = pte_support_ats vm;
}.

Section Table.
Context (n : nat) (y : Z) (vm0 : amdgpu_vm) (b : amdgpu_bo_vm) (W : vm_wf vm0).
Context (Hn : (n ≤ depth)%nat) (Hy : start ≤ y < end') (Hb : tables vm0 !! path_at n y = Some b) (Hal : (2 ^ sh n | y)).

Lemma y_in_limit : 0 ≤ y < limit.
Proof. pose proof (range_inside _ _ _ _ Hr). lia. Qed.

(** A page is between aligned ones if its cell is. *)
Lemma aligned_cells x fs : (2 ^ sh n | fs) → y ≤ x < fs ↔ cell n y ≤ cell n x < cell n fs.
Proof.
  intros Hd. pose proof (cell_mult adev Hok n y Hn Hal) as E1. pose proof (cell_mult adev Hok n fs Hn Hd) as E2.
  pose proof (sh_pos adev Hok n Hn) as Hp2. split.
  - intros Hxf. pose proof (cell_mono adev Hok n y x Hn ltac:(lia)). split; [lia|].
    apply Z.div_lt_upper_bound; [done|]. unfold VmWalk.cell in *. lia.
  - pose proof (proj1 (cell_spec adev Hok n x (cell n x) Hn) eq_refl). nia.
Qed.

Lemma slot_written x fs : path_at n x = path_at n y → (2 ^ sh n | fs) → y ≤ x < fs ↔ slot adev n y y ≤ idx n x < slot adev n y fs.
Proof. intros Hp Hd. rewrite (aligned_cells x fs Hd), (idx_diff adev Hok n x y Hn Hp). unfold slot. lia. Qed.

Lemma written_table vm fs l m x b' : written n y vm0 b vm fs l → (2 ^ sh n | fs) → 0 ≤ x < limit →
  tables vm !! path_at m x = Some b' → ∃ b0, tables vm0 !! path_at m x = Some b0 ∧ same_place b0 b' ∧
      (m = n → y ≤ x < fs → path_at n x = path_at n y →
         ∃ f, frag_within n y fs x f ∧ ptes b' !! Z.to_nat (idx n x) = Some (pte_value n (cell n x * 2 ^ sh n) f)) ∧
      (¬ (m = n ∧ y ≤ x < fs) → ptes b' !! Z.to_nat (idx m x) = ptes b0 !! Z.to_nat (idx m x)).
Proof.
  intros [W1 W2 W3 W4 _] Hd Hx Hb'. rewrite W1 in Hb'. destruct (decide (path_at m x = path_at n y)) as [Hp|Hp].
  - rewrite Hp, lookup_insert_eq in Hb'. injection Hb' as <-. exists b. rewrite Hp. split; [done|]. split; [done|].
    pose proof (path_at_same adev _ _ _ _ Hp) as ->. pose proof (idx_bounds adev Hok n x Hn Hx) as Hi.
    pose proof (slot_written x fs Hp Hd) as Hs. split.
    + intros _ Hxf _. destruct (W4 x Hxf) as (f & F1 & F0 & F2 & F3 & F4). exists f. split; [done|].
      change (ptes (b <| ptes := l |>)) with l. rewrite (idx_diff adev Hok n x y Hn Hp). exact F4.
    + intros Hne. change (ptes (b <| ptes := l |>)) with l. apply W3. rewrite Z2Nat.id by lia. tauto.
  - rewrite lookup_insert_ne in Hb' by done. exists b'. split; [done|]. split; [done|]. split; [|done]. intros -> _ ?. done.
Qed.

Lemma written_updated vm vm' fs l : written n y vm0 b vm fs l → y < fs ≤ tend n y → (2 ^ sh n | fs) → vm_wf vm' → shrunk vm vm' →
  (∀ m x, (m ≤ n)%nat ∨ ¬ y ≤ x < fs → tables vm' !! path_at m x = tables vm !! path_at m x) →
  (∀ x, y ≤ x < fs → tables vm' !! path_at (S n) x = None) → updated vm0 vm' n y fs.
Proof.
  intros Hw Hfs Hd W' Hs Hk Hg. pose proof (wr_rest _ _ _ _ _ _ _ _ _ _ _ _ Hw) as (R1 & R2 & R3).
  pose proof (write_some vm0 vm _ b l Hb (wr_tables _ _ _ _ _ _ _ _ _ _ _ _ Hw)) as Hsome. split; try done.
  - intros m x b' Hx Hb'. destruct (sk_tables _ _ Hs (path_at m x)) as [Hnone|Heq]; [congruence|]. rewrite Heq in Hb'.
    destruct (written_table vm fs l m x b' Hw Hd Hx Hb') as (b0 & H1 & H2 & H3 & H4). exists b0. split_and!; try done.
    intros Hm Hxf. apply H3; [done|done|]. apply tend_path; [done|done|lia].
  - intros m x Hm Hc. rewrite Hk by done. by rewrite Hsome.
  - intros k Hkr Hks. apply (sk_kept _ _ Hs); [by rewrite R1|done].
  - intros k Hkr. apply (sk_relocated _ _ Hs) in Hkr as [Hkr Hks]. rewrite R1 in Hkr. split; [done|]. rewrite <- Hsome. done.
  - intros Hf. apply (sk_freed _ _ Hs). by rewrite R2.
  - rewrite (sk_ats _ _ Hs). done.
Qed.
End Table.

(** The turn. *)
Lemma update_table_spec u tf n b : vm_wf (u_vm u) → (n ≤ depth)%nat → start ≤ frag_start u < end' →
  tables (u_vm u) !! path_at n (frag_start u) = Some b →
  in_table n (frag_start u) (u_vm u) b u tf → fits adev n u →
  ∃ u', update_table adev gmc env u (path_at n (frag_start u)) (sh n) end' flags = Some u' ∧
    ∃ tf', u_params u' = mk_params false pages ao tf' ∧ frag_start u < frag_start u' ≤ end' ∧ dst u' = daddr start dst0 (frag_start u') ∧
    (frag_start u' < end' → frag_ok pages end' (frag u') (frag_end u') (frag_start u')) ∧
    updated (u_vm u) (u_vm u') n (frag_start u) (frag_start u') ∧ frag_start u' ≤ tend n (frag_start u) ∧ (2 ^ sh n | frag_start u') ∧
    (moved_on (u_vm u') (frag_start u') (u_cursor u') ∨ (frag_start u' = end' ∧ end' ≤ pfn (u_cursor u'))).
Proof.
  intros W Hn Hy Hb Hit Hfit. set (y := frag_start u) in *. pose proof (range_inside _ _ _ _ Hr) as [Hr1 Hr2].
  pose proof (it_aligned _ _ _ _ _ _ _ _ _ _ _ _ _ Hit) as Hal. destruct (wf_table _ _ W _ _ Hb) as (_ & Hlive & Hsize). rewrite path_at_length in Hsize.
  destruct (fragment_loop adev gmc env Hok Hwait Hv pages ao Hover start end' dst0 flags Hr n y (u_vm u) b Hn Hy Hb Hal Hsize Hlive u tf Hit Hfit eq_refl)
    as (u1 & Hu1 & Hit1 & Hmore & Hstop).
  unfold update_table. rewrite (it_cursor _ _ _ _ _ _ _ _ _ _ _ _ _ Hit). cbn [pfn level VmCursor.cursor_at].
  change (VmWalk.lev adev n) with (lev n). rewrite (idx_land adev Hok n y Hn ltac:(lia)).
  pose proof (entry_end_code adev Hok n y end' Hn ltac:(lia) Hr2) as Hee. cbn zeta in Hee.
  change (VmWalk.sh adev n) with (sh n) in Hee. change (VmWalk.lev adev n) with (lev n) in Hee. rewrite Hee.
  replace (idx n y) with (slot adev n y y) by (unfold slot; lia). unfold ee in Hu1. rewrite Hu1. cbn [mbind option_bind].
  destruct Hit1 as [P1 P2 P3 P4 P5 P0 P6 [l P7]]. unfold ee in P3, Hstop.
  pose proof (write_wf adev (u_vm u) (u_vm u1) _ b l Hb (wr_tables _ _ _ _ _ _ _ _ _ _ _ _ P7) (wr_length _ _ _ _ _ _ _ _ _ _ _ _ P7) W) as W1.
  pose proof (proj2 (write_some _ _ _ b l Hb (wr_tables _ _ _ _ _ _ _ _ _ _ _ _ P7) (path_at n y)) ltac:(by eexists)) as [b1 Hb1].
  set (fs := frag_start u1) in *. destruct (decide (n = depth)) as [Hd|Hd].
  - assert (Hfs : fs = Z.min (tend n y) end').
    { destruct Hstop as [?|Hlt]; [done|]. rewrite Hd in Hlt. change (VmWalk.sh adev) with sh in Hlt. rewrite (sh_depth adev Hok) in Hlt. lia. }
    assert (Hup : updated (u_vm u) (u_vm u1) n y fs).
    { apply (written_updated n y (u_vm u) b Hn Hy Hb Hal (u_vm u1) (u_vm u1) fs l P7); [lia|done|done|apply shrunk_refl|done|].
      intros x _. destruct (tables (u_vm u1) !! path_at (S n) x) as [bx|] eqn:Hbx; [|done].
      destruct (wf_table _ _ W1 _ _ Hbx) as [Hl _]. rewrite path_at_length in Hl. change (VmWalk.depth adev) with depth in Hl. lia. }
    rewrite (descendant_stop adev Hok) by (done || by left). cbn [mbind option_bind]. rewrite (proj2 (Z.leb_le _ _)).
    2:{ rewrite Hd. change (sh depth) with (VmWalk.sh adev depth). rewrite (sh_depth adev Hok). lia. }
    destruct n as [|k]; [pose proof (depth_bounds adev Hok); lia|].
    destruct (next_spec adev Hok (u_vm u1) k y ltac:(lia) ltac:(lia) ltac:(by left)) as (c & Hc & Hmv).
    { intros m Hm. destruct (wf_ancestor adev (u_vm u1) m (S k) y b1 W1 ltac:(lia) Hb1) as [bm Hbm]. exists bm. by eapply wf_the_bo. }
    rewrite Hc. cbn [mbind option_bind]. eexists. split; [done|]. exists tf. cbn. fold fs.
    change (tend (S k) y) with (nextb k y) in Hfs. split_and!; try done; try lia. destruct (decide (nextb k y ≤ end')) as [Hle|Hgt].
    + left. by replace fs with (nextb k y) by lia.
    + right. split; [lia|]. destruct Hmv as [(? & m & _ & _ & -> & _)|[_ ->]]; [cbn; lia|]. pose proof (limit_bounds adev Hok). lia.
  - rewrite (descendant_go adev Hok _ n y b1 ltac:(lia) ltac:(lia) Hb1). cbn [mbind option_bind].
    destruct (free_loop adev Hok n y fs (u_vm u1) ltac:(lia) ltac:(lia) Hal ltac:(lia) P4 W1 ltac:(by eexists) (u1 <| u_cursor := cursor_at (S n) y |>) tf pages ao)
      as (u2 & Hu2 & tf' & Q1 & Q2 & Q3 & Q4 & Q5 & Q6 & Q7); try done.
    rewrite Hu2. exists u2. split; [done|]. exists tf'. cbn in Q3, Q4, Q5, Q6. rewrite Q3, Q4, Q5, Q6. fold fs. split_and!; try done; try lia; [|by left].
    apply (written_updated n y (u_vm u) b Hn Hy Hb Hal (u_vm u1) (u_vm u2) fs l P7); [lia|done|apply (ft_wf _ _ _ _ _ _ Q2)|apply (ft_shrunk _ _ _ _ _ _ Q2)| |apply (ft_gone _ _ _ _ _ _ Q2)].
    intros m x Hmx. apply (ft_kept _ _ _ _ _ _ Q2). intros w Hw. destruct (decide (m ≤ n)%nat) as [Hle|Hgt].
    + apply not_under_shorter. rewrite !path_at_length. lia.
    + destruct Hmx as [|Hmx]; [done|]. rewrite (under_path adev (S n) m) by lia. intros Hp. apply (path_at_S adev Hok) in Hp; [|done].
      apply Hmx. apply (aligned_cells n y Hn Hal x fs P4). rewrite Hp. by apply (aligned_cells n y Hn Hal w fs P4).
Qed.
End Update.
