(* ===== verification/VmRange.v ===== *)
(** * Page tables: updating a range

    [amdgpu_vm_ptes_update] on GFX9 and later, locked: it ends, and when it returns 0 every
    page of the range is translated by an entry of the update and every other page as
    before, but for pages of a larger entry that the range cuts, which are not mapped any
    more. *)

From S2P Require Import Prelude Vm VmWalk VmCursor VmDfs VmLeaf VmWrite VmFragment VmFreeing VmUpdate.
#[local] Open Scope Z_scope.
#[local] Open Scope list_scope.

Section Range.
Context (adev : amdgpu_device) (gmc : gmc_funcs) (env : vm_env) (Hok : adev_ok adev).
Context (Hwait : ∀ k, 0 ≤ resv_wait env k) `{!VmPde gmc} (Hv : vega10 adev = true).
Abbreviation depth := (depth adev).
Abbreviation lev := (lev adev).
Abbreviation sh := (sh adev).
Abbreviation cell := (cell adev).
Abbreviation idx := (idx adev).
Abbreviation path_at := (path_at adev).
Abbreviation entries := (entries adev).
Abbreviation limit := (limit adev).
Abbreviation nextb := (nextb adev).
Abbreviation vm_wf := (vm_wf adev).
Abbreviation leaf := (leaf adev).
Abbreviation cursor_at := (cursor_at adev).
Abbreviation moved_on := (moved_on adev).
Abbreviation tend := (tend adev).
Abbreviation agree := (agree adev).
Abbreviation cleared := (cleared adev).

(** ** Directories *)

(** The entry of a directory of depth [n] that points to the table [c]. *)
Definition pde_of (n : nat) (c : amdgpu_bo_vm) : Z :=
  match get_vm_pde gmc (lev n) (pt_addr c) (pt_flags c) with Some (a, f) => amdgpu_gmc_set_pte_pde a f | None => 0 end.

(** Every table is entered in its directory or waits for it, and where there is no table
    the entry is a page. *)
Record dirs_of (t : gmap path amdgpu_bo_vm) (todo : list path) : Prop := {
  dir_relocated k : k ∈ todo → k ≠ [] ∧ is_Some (t !! k);
  dir_table m x b c : 0 ≤ x < limit → t !! path_at m x = Some b → t !! path_at (S m) x = Some c →
    path_at (S m) x ∈ todo ∨ ptes b !! Z.to_nat (idx m x) = Some (pde_of m c);
  dir_page m x b v : (m < depth)%nat → 0 ≤ x < limit → t !! path_at m x = Some b → t !! path_at (S m) x = None →
    ptes b !! Z.to_nat (idx m x) = Some v → Z.testbit v 54 = true;
  dir_place m x b : 0 ≤ x < limit → t !! path_at m x = Some b → ∃ k, pt_addr b = bo_address env k ∧ pt_flags b = bo_flags env k;
}.
Definition dirs (vm : amdgpu_vm) : Prop := dirs_of (tables vm) (relocated vm).

Lemma pde_of_place n b b' : same_place b b' → pde_of n b' = pde_of n b.
Proof. unfold pde_of. by intros [-> ->]. Qed.

Lemma cleared_page n : (n < depth)%nat → Z.testbit (cleared n) 54 = true.
Proof. intros Hn. unfold VmWrite.cleared. rewrite decide_False by lia. by rewrite Hv. Qed.

Lemma dirs_made vm vm' n x b : vm_wf vm → dirs vm → 0 ≤ x < limit → made adev env vm vm' (S n) x b → is_Some (tables vm !! path_at n x) → dirs vm'.
Proof.
  intros W [D1 D2 D3 D4] Hx [M1 M2 M3 M4 M6 M5] Hp. set (p := path_at (S n) x) in *. split.
  - intros k. rewrite M5, elem_of_cons, elem_of_list_del. rewrite M2. intros [->|[Hne Hk]].
    + split; [done|]. rewrite lookup_insert_eq. by eexists.
    + rewrite lookup_insert_ne by done. auto.
  - intros m z b1 c Hz Hb1 Hc. rewrite M5, elem_of_cons, elem_of_list_del. destruct (decide (path_at (S m) z = p)) as [->|Hne]; [by left; left|].
    rewrite M2, lookup_insert_ne in Hc by done. rewrite M2 in Hb1. destruct (decide (path_at m z = p)) as [Hm|Hm].
    + destruct (wf_parent _ _ W (idx m z) (path_at m z) _ Hc) as [[b2 Hb2] _]. rewrite Hm in Hb2. congruence.
    + rewrite lookup_insert_ne in Hb1 by done. destruct (D2 m z b1 c Hz Hb1 Hc) as [Hin|]; [left; by right|by right].
  - intros m z b1 v Hm Hz Hb1 Hc Hl. rewrite M2 in Hb1, Hc. destruct (decide (path_at m z = p)) as [Hpm|Hpm].
    + rewrite Hpm, lookup_insert_eq in Hb1. injection Hb1 as <-. pose proof (path_at_same adev _ _ _ _ Hpm) as ->.
      rewrite M3 in Hl. apply lookup_replicate in Hl as [-> _]. by apply cleared_page.
    + rewrite lookup_insert_ne in Hb1 by done. destruct (decide (path_at (S m) z = p)) as [Hsm|Hsm]; [rewrite Hsm, lookup_insert_eq in Hc; done|].
      rewrite lookup_insert_ne in Hc by done. by apply (D3 m z b1).
  - intros m z b1 Hz. rewrite M2. destruct (decide (path_at m z = p)) as [->|Hpm].
    + rewrite lookup_insert_eq. by intros [= <-].
    + rewrite lookup_insert_ne by done. by apply (D4 m z b1).
Qed.

Context (pages : option (Z → Z)) (ao : bool) (Hover : override_vm_pte_flags gmc = None ∨ ao = false).
Context (start end' dst0 flags : Z) (Hr : range_ok adev start end' dst0).
Abbreviation pte_value := (pte_value adev pages start dst0 flags).
Abbreviation updated := (updated adev pages start dst0 flags).
Abbreviation frag_within := (frag_within adev pages).

Lemma pte_value_page n x f : n ≠ depth → Z.testbit (pte_value n x f) 54 = true.
Proof.
  intros Hn. unfold VmFragment.pte_value, amdgpu_gmc_set_pte_pde, pte_flags. rewrite decide_False by done.
  rewrite !Z.lor_spec. change (Z.testbit AMDGPU_PDE_PTE 54) with true. by rewrite !orb_true_r.
Qed.

Section Updated.
Context (vm vm' : amdgpu_vm) (n : nat) (y fs : Z) (W : vm_wf vm) (Hn : (n ≤ depth)%nat) (Hy : start ≤ y < fs) (Hfs : fs ≤ tend n y).
Context (Hal : (2 ^ sh n | y)) (Hd : (2 ^ sh n | fs)) (Hp : is_Some (tables vm !! path_at n y)) (U : updated vm vm' n y fs) (Hy2 : 0 ≤ y < limit).

Lemma updated_back m x b : 0 ≤ x < limit → tables vm' !! path_at m x = Some b → is_Some (tables vm !! path_at m x).
Proof. intros Hx Hb. destruct (up_table _ _ _ _ _ _ _ _ _ _ U m x b Hx Hb) as (b0 & ? & _). by eexists. Qed.

Lemma updated_agree x : 0 ≤ x < limit → ¬ y ≤ x < fs → agree vm vm' x.
Proof.
  intros Hx Hout m v (b & Hb & Hend & Hl). destruct (up_kept _ _ _ _ _ _ _ _ _ _ U m x ltac:(by eexists) ltac:(by right)) as [b' Hb'].
  destruct (up_table _ _ _ _ _ _ _ _ _ _ U m x b' Hx Hb') as (b0 & H1 & _ & _ & H4). exists b'. split; [done|]. split.
  - destruct Hend as [|Hend]; [by left|right]. destruct (tables vm' !! path_at (S m) x) as [c|] eqn:Hc; [|done].
    destruct (updated_back _ _ _ Hx Hc) as [? ?]. congruence.
  - change (tables vm !! path_at m x = Some b) in Hb. assert (b0 = b) as -> by congruence. change (VmWalk.idx adev m x) with (idx m x). rewrite H4; [done|tauto].
Qed.

(** A page is translated by an entry of the update whose pages and fragment end by [hi]. *)
Definition placed (vm : amdgpu_vm) (hi x : Z) : Prop :=
  ∃ n f, (n ≤ depth)%nat ∧ start ≤ cell n x * 2 ^ sh n ∧ nextb n x ≤ hi ∧ frag_within n start hi x f ∧
    leaf vm n x (pte_value n (cell n x * 2 ^ sh n) f).

Lemma updated_placed x : y ≤ x < fs → placed vm' fs x.
Proof.
  intros Hx. pose proof (tend_bounds adev Hok n y Hn Hy2). assert (Hpx : path_at n x = path_at n y) by (apply tend_path; [done|done|lia]).
  destruct (up_kept _ _ _ _ _ _ _ _ _ _ U n x ltac:(by rewrite Hpx) ltac:(by left)) as [b' Hb'].
  destruct (up_table _ _ _ _ _ _ _ _ _ _ U n x b' ltac:(lia) Hb') as (b0 & _ & _ & H3 & _). destruct (H3 eq_refl Hx) as (f & (F1 & F0 & F2 & F3) & Hl).
  pose proof (sh_bounds adev Hok n Hn). destruct (block_inside (sh n) y fs x ltac:(lia) Hal Hd Hx) as [B1 B2].
  exists n, f. split; [done|]. split; [unfold VmWalk.cell; lia|]. split; [unfold VmWalk.nextb, VmWalk.cell; lia|].
  split; [unfold VmUpdate.frag_within; split_and!; (done || lia)|]. exists b'. split; [done|]. split; [right; by apply (up_gone _ _ _ _ _ _ _ _ _ _ U)|exact Hl].
Qed.

Lemma dirs_updated : dirs vm → dirs vm'.
Proof.
  intros [D1 D2 D3 D4]. split.
  - intros k [Hk Hs]%(up_relocated _ _ _ _ _ _ _ _ _ _ U). destruct (D1 k Hk). auto.
  - intros m x b' c' Hx Hb' Hc'. destruct (up_table _ _ _ _ _ _ _ _ _ _ U m x b' Hx Hb') as (b & H1 & _ & _ & H4).
    destruct (up_table _ _ _ _ _ _ _ _ _ _ U (S m) x c' Hx Hc') as (c & G1 & G2 & _).
    destruct (D2 m x b c Hx H1 G1) as [Hin|Heq].
    + left. apply (up_to_do _ _ _ _ _ _ _ _ _ _ U); [done|by eexists].
    + right. change (VmWalk.idx adev m x) with (idx m x) in *. rewrite H4, (pde_of_place _ _ _ G2); [done|]. intros [-> Hxf].
      pose proof (up_gone _ _ _ _ _ _ _ _ _ _ U x Hxf). congruence.
  - intros m x b' v Hm Hx Hb' Hc' Hl. destruct (up_table _ _ _ _ _ _ _ _ _ _ U m x b' Hx Hb') as (b & H1 & _ & H3 & H4).
    destruct (decide (m = n ∧ y ≤ x < fs)) as [[-> Hxf]|Hne].
    + destruct (H3 eq_refl Hxf) as (f & _ & Hl'). assert (v = pte_value n (cell n x * 2 ^ sh n) f) as -> by congruence. apply pte_value_page. lia.
    + rewrite (H4 Hne) in Hl. destruct (tables vm !! path_at (S m) x) as [c|] eqn:Hc; [|by apply (D3 m x b)]. exfalso.
      assert (Hkeep : (S m ≤ n)%nat ∨ ¬ y ≤ x < fs).
      { destruct (decide (y ≤ x < fs)) as [Hxf|]; [left|by right]. destruct (decide (m ≤ n)%nat) as [Hle|Hgt]; [assert (m ≠ n) by tauto; lia|].
        pose proof (up_gone _ _ _ _ _ _ _ _ _ _ U x Hxf) as Hg. destruct (wf_ancestor adev vm' (S n) m x b' (up_wf _ _ _ _ _ _ _ _ _ _ U) ltac:(lia) Hb'). congruence. }
      destruct (up_kept _ _ _ _ _ _ _ _ _ _ U (S m) x ltac:(by eexists) Hkeep). congruence.
  - intros m x b' Hx Hb'. destruct (up_table _ _ _ _ _ _ _ _ _ _ U m x b' Hx Hb') as (b & H1 & [-> ->] & _). by apply (D4 m x b).
Qed.
End Updated.

(** ** The whole update *)

Context (Hroot : root_level adev = 0 ∨ end' - start < 2 ^ amdgpu_vm_pt_level_shift adev (root_level adev - 1)).
Context (vm0 : amdgpu_vm).

(** [x] is translated as in [vm0], or by a cleared entry when a larger entry for it was
    hit by the range. *)
Definition kept (vm : amdgpu_vm) (x : Z) : Prop := ∀ m v, leaf vm0 m x v →
  leaf vm m x v ∨ ∃ k, (m < k ≤ depth)%nat ∧ start < nextb m x ∧ cell m x * 2 ^ sh m < end' ∧ leaf vm k x (cleared k).

(** The pages up to [hi] are done. *)
Record progress (vm : amdgpu_vm) (hi : Z) : Prop := {
  pg_wf : vm_wf vm;
  pg_ats : pte_support_ats vm = false;
  pg_dirs : dirs vm0 → dirs vm;
  pg_freed : pt_freed vm0 = [] → pt_freed vm = [];
  pg_placed x : start ≤ x < hi → placed vm hi x;
  pg_kept x : 0 ≤ x < limit → ¬ start ≤ x < end' → kept vm x;
}.

Lemma placed_agree vm vm' hi hi' x : hi ≤ hi' → (∀ m v, leaf vm m x v → nextb m x ≤ hi → leaf vm' m x v) → placed vm hi x → placed vm' hi' x.
Proof.
  intros Hle Ha (n & f & P1 & P2 & P3 & (P4 & P0 & P5 & P6) & P7). exists n, f. split; [done|]. split; [done|]. split; [lia|].
  split; [unfold VmUpdate.frag_within; split_and!; (done || lia)|]. by apply Ha.
Qed.

Lemma kept_agree vm vm' x : agree vm vm' x → kept vm x → kept vm' x.
Proof. intros Ha Hk m v Hl. destruct (Hk m v Hl) as [|(k & ? & ? & ? & ?)]; [left; auto|right; exists k; auto]. Qed.

Lemma range_limit : 0 ≤ start < end' ∧ end' ≤ limit.
Proof. exact (range_inside _ _ _ _ Hr). Qed.

(** A table that is made does not take anything that was mapped. *)
Lemma progress_made vm vm' n y b : progress vm y → start ≤ y < end' → (S n ≤ depth)%nat → is_Some (tables vm !! path_at n y) →
  made adev env vm vm' (S n) y b → vm_wf vm' → pte_support_ats vm' = false → pt_freed vm' = pt_freed vm → progress vm' y.
Proof.
  intros [G1 G2 G3 G4 G5 G6] Hy Hn Hp M W' Hats Hfr. pose proof range_limit. pose proof M as [M1 M2 M3 M4 _ M5]. split; try done.
  - intros Hd. by apply (dirs_made vm vm' n y b G1 (G3 Hd) ltac:(lia)).
  - intros Hf. rewrite Hfr. auto.
  - intros x Hx. apply (placed_agree vm _ y); [done| |by apply G5]. intros m v Hl Hnb.
    destruct (decide (path_at (S n) x = path_at (S n) y)) as [Heq|Hne]; [|by apply (make_agree adev vm vm' n y b M2)]. exfalso.
    destruct (make_leaf adev Hok vm vm' n y b M2 M1 x m v _ G1 Hn ltac:(lia) Heq M3 Hl) as [_ Hm].
    apply (path_at_S adev Hok) in Heq; [|lia]. pose proof (cell_coarser adev Hok m n x y ltac:(lia) Heq) as Hc.
    pose proof (nextb_bounds adev Hok m y ltac:(lia)) as Hb. unfold VmWalk.nextb in *. change (VmWalk.cell adev) with cell in *. rewrite Hc in Hnb. lia.
  - intros x Hx Hout. destruct (decide (path_at (S n) x = path_at (S n) y)) as [Heq|Hne].
    2:{ apply (kept_agree vm); [by apply (make_agree adev vm vm' n y b M2)|by apply G6]. }
    intros m v Hl. right. exists (S n). pose proof (proj1 (path_at_S adev Hok n x y ltac:(lia)) Heq) as Hcell.
    assert (Hgo : ∀ k w, leaf vm k x w → leaf vm' (S n) x (cleared (S n)) ∧ (k ≤ n)%nat).
    { intros k w Hk. exact (make_leaf adev Hok vm vm' n y b M2 M1 x k w _ G1 Hn Hx Heq M3 Hk). }
    destruct (G6 x Hx Hout m v Hl) as [Hl'|(k & Hk & Hk1 & Hk2 & Hl')]; destruct (Hgo _ _ Hl') as [Hnew Hle].
    + pose proof (cell_coarser adev Hok m n x y ltac:(lia) Hcell) as Hc. pose proof (proj1 (cell_spec adev Hok m y _ ltac:(lia)) eq_refl) as Hb.
      unfold VmWalk.nextb. change (VmWalk.cell adev) with cell in *. rewrite Hc. split_and!; (done || lia).
    + split_and!; (done || lia).
Qed.

Lemma progress_updated vm vm' n y fs : progress vm y → start ≤ y < fs → fs ≤ end' → (n ≤ depth)%nat → fs ≤ tend n y →
  (2 ^ sh n | y) → (2 ^ sh n | fs) → is_Some (tables vm !! path_at n y) → updated vm vm' n y fs → progress vm' fs.
Proof.
  intros [G1 G2 G3 G4 G5 G6] Hy Hfs Hn Ht Hal Hd Hp U. pose proof range_limit. split.
  - apply (up_wf _ _ _ _ _ _ _ _ _ _ U).
  - by rewrite (up_ats _ _ _ _ _ _ _ _ _ _ U).
  - intros HD. apply (dirs_updated vm vm' n y fs Hn Hy U); [lia|by apply G3].
  - intros Hf. apply (up_freed _ _ _ _ _ _ _ _ _ _ U). auto.
  - intros x Hx. destruct (decide (x < y)) as [Hlt|Hge].
    + apply (placed_agree vm _ y); [lia| |apply G5; lia]. intros m v Hl _. apply (updated_agree vm vm' n y fs Hy U); (done || lia).
    + apply (updated_placed vm vm' n y fs); (done || lia).
  - intros x Hx Hout. apply (kept_agree vm); [|by apply G6]. apply (updated_agree vm vm' n y fs Hy U); (done || lia).
Qed.

Record inv (u : update_state) : Prop := {
  iv_params : ∃ tf, u_params u = mk_params false pages ao tf;
  iv_range : start ≤ frag_start u ≤ end';
  iv_progress : progress (u_vm u) (frag_start u);
  iv_dst : dst u = daddr start dst0 (frag_start u);
  iv_frag : frag_start u < end' → frag_ok pages end' (frag u) (frag_end u) (frag_start u);
  iv_cursor : (frag_start u < end' ∧ ∃ n, (n ≤ depth)%nat ∧ u_cursor u = cursor_at n (frag_start u) ∧
                 ∀ k, (k < n)%nat → is_Some (tables (u_vm u) !! path_at k (frag_start u))) ∨
              (frag_start u = end' ∧ end' ≤ pfn (u_cursor u));
}.

(** Pages that are left, then steps of the cursor: down to the depth of the fragment, or
    up. *)
Definition measure (u : update_state) : Z :=
  8 * (end' - frag_start u) +
  (if pfn (u_cursor u) <? end' then
     if frag u <? amdgpu_vm_pt_level_shift adev (level (u_cursor u)) then 7 - level (u_cursor u) else level (u_cursor u) - root_level adev
   else 0).

Lemma measure_at u n : frag_start u < end' → u_cursor u = cursor_at n (frag_start u) →
  measure u = 8 * (end' - frag_start u) + (if frag u <? sh n then 7 - lev n else Z.of_nat n).
Proof.
  intros Hlt Hc. unfold measure. rewrite Hc. cbn [pfn level VmCursor.cursor_at]. rewrite (proj2 (Z.ltb_lt _ _)) by lia.
  change (amdgpu_vm_pt_level_shift adev (VmWalk.lev adev n)) with (sh n). unfold VmWalk.lev. by replace (root_level adev + Z.of_nat n - root_level adev) with (Z.of_nat n) by lia.
Qed.

Lemma measure_bounds u : inv u → 0 ≤ measure u - 8 * (end' - frag_start u) < 8.
Proof.
  intros [_ _ _ _ _ [(Hlt & n & Hn & Hc & _)|[Heq Hpf]]].
  - rewrite (measure_at u n Hlt Hc). pose proof (ok_root _ Hok). pose proof (depth_bounds adev Hok). unfold VmWalk.lev.
    unfold VmWalk.depth in *. destruct (_ <? _); lia.
  - unfold measure. rewrite (proj2 (Z.ltb_ge _ _)) by lia. lia.
Qed.

Lemma cursor_moved vm fs c : start ≤ fs ≤ end' → moved_on vm fs c ∨ (fs = end' ∧ end' ≤ pfn c) →
  (fs < end' ∧ ∃ n, (n ≤ depth)%nat ∧ c = cursor_at n fs ∧ ∀ k, (k < n)%nat → is_Some (tables vm !! path_at k fs)) ∨ (fs = end' ∧ end' ≤ pfn c).
Proof.
  intros Hfs [[(Hlt & m & Hm & Hp & Hc & Hk)|[Hlim Hpf]]|Hend]; [| |by right].
  - destruct (decide (fs < end')) as [Hl|Hl]; [left|right].
    + split; [done|]. exists (S m). split; [change (VmWalk.depth adev) with depth in Hm; lia|]. split; [done|]. intros k Hkm.
      destruct (decide (k = m)) as [->|]; [done|]. apply Hk. lia.
    + split; [lia|]. rewrite Hc. cbn. lia.
  - right. pose proof range_limit. split; [lia|]. rewrite Hpf. pose proof (limit_bounds adev Hok). lia.
Qed.

(** The cursor moves only. *)
Lemma inv_cursor u vm n : inv u → vm_wf vm → progress vm (frag_start u) → frag_start u < end' → (n ≤ depth)%nat →
  (∀ k, (k < n)%nat → is_Some (tables vm !! path_at k (frag_start u))) →
  inv (u <| u_vm := vm |> <| u_cursor := cursor_at n (frag_start u) |>).
Proof. intros [I1 I2 I3 I4 I5 _] W P Hlt Hn Hk. split; try done. left. split; [done|]. by exists n. Qed.

(** The depth of the next write. *)
Lemma choose_level_spec u n b : inv u → frag_start u < end' → (n ≤ depth)%nat → u_cursor u = cursor_at n (frag_start u) →
  (∀ k, (k < n)%nat → is_Some (tables (u_vm u) !! path_at k (frag_start u))) → tables (u_vm u) !! path_at n (frag_start u) = Some b →
  choose_level adev u flags = Some (
    if frag u <? sh n then Go (cursor_at (S n) (frag_start u))
    else match n with
         | O => Use (cursor_at n (frag_start u))
         | S k => if sh k <=? frag u then Go (cursor_at k (frag_start u)) else Use (cursor_at n (frag_start u))
         end).
Proof.
  intros [[tf I1] I2 I3 I4 I5 _] Hlt Hn Hc Hk Hb. pose proof range_limit. destruct (I5 Hlt) as [F1 F2 F3 F4 _].
  unfold choose_level. rewrite I1, Hc, Hv. cbn [unlocked negb andb level VmCursor.cursor_at].
  change (amdgpu_vm_pt_level_shift adev (VmWalk.lev adev n)) with (sh n). change (mk_cursor _ _ _ _) with (cursor_at n (frag_start u)).
  destruct (Z.ltb_spec (frag u) (sh n)) as [Hsm|Hbig].
  - rewrite (descendant_go adev Hok _ n _ b); [done| |lia|done]. destruct (decide (n = depth)) as [->|]; [|lia].
    change (sh depth) with (VmWalk.sh adev depth) in Hsm. rewrite (sh_depth adev Hok) in Hsm. lia.
  - destruct n as [|k].
    + rewrite (proj2 (Z.leb_gt _ _)); [done|]. unfold VmWalk.lev. change (Z.of_nat 0) with 0. rewrite Z.add_0_r.
      destruct Hroot as [-> |Hlen]; [change (amdgpu_vm_pt_level_shift adev (0 - 1)) with 0xffffffff; lia|].
      destruct (Z.lt_ge_cases (frag u) (amdgpu_vm_pt_level_shift adev (root_level adev - 1))) as [|Hge]; [done|exfalso].
      pose proof (divide_sub _ _ _ F2 F3 ltac:(lia) ltac:(apply pow2_pos; lia)).
      pose proof (Z.pow_le_mono_r 2 _ _ ltac:(lia) Hge). lia.
    + rewrite lev_pred. change (amdgpu_vm_pt_level_shift adev (VmWalk.lev adev k)) with (sh k).
      destruct (Z.leb_spec (sh k) (frag u)) as [Hup|Hfit]; [|done].
      pose proof (pg_wf _ _ I3) as W. destruct (wf_ancestor adev _ k (S k) _ b W ltac:(lia) Hb) as [bk Hbk].
      rewrite (ancestor_spec adev _ k _ bk); [done|by eapply wf_the_bo|]. intros m ->. by apply Hk; lia.
Qed.

(** A table that could not be made ends the update where it is; of one that could not be
    cleared only the result is stated. *)
Definition result (vm : amdgpu_vm) (r : Z) : Prop :=
  (r = 0 ∧ progress vm end') ∨ (create_error env r ∧ ∃ hi, start ≤ hi < end' ∧ progress vm hi) ∨ clear_error env r.
Definition outcome (s : update_state * Z) : Prop := result (u_vm s.1) s.2 ∧ ∃ tf, u_params s.1 = mk_params false pages ao tf.

Lemma progress_same vm vm' hi : progress vm hi → same_tree vm vm' → progress vm' hi.
Proof.
  intros [G1 G2 G3 G4 G5 G6] [S1 S2 S3 S4]. split.
  - by apply (wf_tables adev vm).
  - congruence.
  - unfold dirs. rewrite S1, S2. done.
  - rewrite S3. done.
  - intros x Hx. destruct (G5 x Hx) as (n & f & P). exists n, f. unfold VmWalk.leaf in *. by rewrite S1.
  - intros x Hx Hout. apply (kept_agree vm); [by apply agree_tables|by apply G6].
Qed.

(** Computing a bind by rewriting: the argument is not looked into. *)
Lemma Some_bind {A B} (f : A → option B) a : (Some a ≫= f) = f a.
Proof. done. Qed.

Lemma choose_table_spec u n x b : tables (u_vm u) !! path_at n x = Some b →
  choose_table adev u (cursor_at n x) flags = Some (inl (u <| u_cursor := cursor_at n x |>, path_at n x, sh n)).
Proof.
  intros Hb. unfold choose_table. cbn [entry level VmCursor.cursor_at mbind option_bind]. by rewrite (has_bo_true _ _ _ Hb).
Qed.

Lemma use_turn u n b : inv u → frag_start u < end' → (n ≤ depth)%nat → u_cursor u = cursor_at n (frag_start u) →
  tables (u_vm u) !! path_at n (frag_start u) = Some b → sh n ≤ frag u → (∀ k, n = S k → frag u < sh k) →
  ∃ r, (t ← choose_table adev u (cursor_at n (frag_start u)) flags;
        match t with
        | inr r => Some (inr (u, r))
        | inl (u, pt, shift) => u ← update_table adev gmc env u pt shift end' flags; Some (inl u)
        end) = Some r ∧ match r with inl u' => inv u' ∧ 0 ≤ measure u' < measure u | inr s => outcome s end.
Proof.
  intros I Hlt Hn Hc Hb Hfit1 Hfit2. pose proof I as [[tf I1] I2 I3 I4 I5 _]. pose proof range_limit as Hlim.
  pose proof (pg_wf _ _ I3) as W. destruct (I5 Hlt) as [F1 F2 F3 F4 _]. pose proof (sh_bounds adev Hok n Hn).
  rewrite (choose_table_spec u n _ b Hb), Some_bind, <- Hc.
  replace (u <| u_cursor := u_cursor u |>) with u by by destruct u.
  assert (Hal : (2 ^ sh n | frag_start u)) by (by apply (divide_coarse _ (frag u)); [lia|]).
  destruct (update_table_spec adev gmc env Hok Hwait Hv pages ao Hover start end' dst0 flags Hr u tf n b W Hn ltac:(lia) Hb)
    as (u2 & Hu2 & tf2 & Q1 & Q2 & Q3 & Q4 & Q5 & Q6 & Q7 & Q8).
  - split; [done|done| |done|done|lia|done|]. { pose proof (tend_bounds adev Hok n (frag_start u) Hn ltac:(lia)). unfold ee. lia. }
    destruct (wf_table _ _ W _ _ Hb) as (_ & ? & Hsz). rewrite path_at_length in Hsz. exists (ptes b). by apply written_start.
  - by split.
  - rewrite Hu2, Some_bind. eexists. split; [done|]. cbv iota beta.
    assert (I' : inv u2).
    { split; [by eexists|lia| |done|done|apply cursor_moved; [lia|done]].
      apply (progress_updated (u_vm u) (u_vm u2) n (frag_start u)); (done || lia || by eexists). }
    split; [done|]. pose proof (measure_bounds u2 I'). pose proof (measure_bounds u I). lia.
Qed.

Lemma ptes_turn u : inv u → ∃ r, ptes_step adev gmc env end' flags u = Some r ∧
  match r with inl u' => inv u' ∧ 0 ≤ measure u' < measure u | inr s => outcome s end.
Proof.
  intros I. pose proof range_limit as Hlim. unfold ptes_step. destruct (iv_cursor u I) as [(Hlt & n & Hn & Hc & Hk)|[Heq Hpf]].
  2:{ rewrite (proj2 (Z.ltb_ge _ _)) by done. cbn [negb]. eexists. split; [done|]. split; [|apply I].
      left. split; [done|]. simpl. rewrite <- Heq. apply I. }
  pose proof I as [[tf I1] I2 I3 I4 I5 _]. pose proof I3 as [G1 G2 _ _ _ _].
  rewrite Hc. cbn [pfn VmCursor.cursor_at]. rewrite (proj2 (Z.ltb_lt _ _)) by lia. cbn [negb]. rewrite I1. cbn [unlocked].
  change (mk_cursor _ _ _ _) with (cursor_at n (frag_start u)).
  destruct (alloc_spec adev gmc env Hok Hwait Hv (u_vm u) n (frag_start u) G1 Hn ltac:(lia) G2 Hk) as (vm1 & r & Ha & Hcases).
  rewrite Ha. cbn [mbind option_bind]. destruct (decide (r = 0)) as [->|Hne].
  2:{ unfold nz. rewrite (proj2 (Z.eqb_neq r 0)) by done. cbn [negb]. eexists. split; [done|]. split; [|by exists tf].
      destruct Hcases as [[Herr Hs]|[Herr|[? _]]]; [right; left|by right; right|done]. split; [done|]. exists (frag_start u). split; [lia|].
      by apply (progress_same (u_vm u)). }
  destruct Hcases as [[[? _] _]|[[? _]|(_ & W1 & A1 & Fr1 & Hcase)]]; [done|done|].
  change (nz 0) with false. cbv iota.
  assert (P1 : progress vm1 (frag_start u)).
  { destruct Hcase as [[_ ->]|(k & b & -> & M)]; [done|]. apply (progress_made (u_vm u) vm1 k _ b); try done; [lia|apply Hk; lia]. }
  assert (Hk1 : ∀ k, (k < n)%nat → is_Some (tables vm1 !! path_at k (frag_start u))).
  { intros k Hkn. destruct Hcase as [[_ ->]|(m & b & -> & M)]; [by apply Hk|]. rewrite (made_tables _ _ _ _ _ _ _ M).
    rewrite lookup_insert_ne by (intros Hpp%(path_at_same adev); lia). by apply Hk. }
  assert (∃ b, tables vm1 !! path_at n (frag_start u) = Some b) as [b Hb].
  { destruct Hcase as [[[b Hb] ->]|(m & b & -> & M)]; [by exists b|]. exists b. rewrite (made_tables _ _ _ _ _ _ _ M). apply lookup_insert_eq. }
  set (u1 := u <| u_vm := vm1 |>).
  assert (I' : inv u1) by (split; try done; [by eexists|left; split; [done|]; by exists n]).
  assert (Hm1 : measure u1 = measure u) by done. rewrite <- Hm1.
  rewrite (choose_level_spec u1 n b I' Hlt Hn Hc Hk1 Hb). cbn [mbind option_bind]. change (frag_start u1) with (frag_start u). change (frag u1) with (frag u).
  destruct (I5 Hlt) as [F1 F2 F3 F4 _].
  assert (Hgo : ∀ k, (k ≤ depth)%nat → (∀ j, (j < k)%nat → is_Some (tables vm1 !! path_at j (frag_start u))) →
    (if frag u <? sh k then 7 - lev k else Z.of_nat k) < (if frag u <? sh n then 7 - lev n else Z.of_nat n) →
    ∃ r, Some (inl (u1 <| u_cursor := cursor_at k (frag_start u) |>)) = Some r ∧
      match r with inl u' => inv u' ∧ 0 ≤ measure u' < measure u1 | inr s => outcome s end).
  { intros k Hkd Hkk Hdec. eexists. split; [done|]. cbv iota beta.
    assert (I2' : inv (u1 <| u_cursor := cursor_at k (frag_start u) |>)) by (apply (inv_cursor u1 vm1 k); done).
    split; [done|]. pose proof (measure_bounds _ I2') as Hmb. cbn in Hmb. split; [cbn; lia|].
    rewrite (measure_at u1 n Hlt Hc), (measure_at _ k) by done. cbn. lia. }
  assert (Huse : sh n ≤ frag u → (∀ k, n = S k → frag u < sh k) →
    ∃ r, (t ← choose_table adev u1 (cursor_at n (frag_start u)) flags;
          match t with
          | inr r => Some (inr (u1, r))
          | inl (u, pt, shift) => u ← update_table adev gmc env u pt shift end' flags; Some (inl u)
          end) = Some r ∧ match r with inl u' => inv u' ∧ 0 ≤ measure u' < measure u1 | inr s => outcome s end).
  { intros Hfit1 Hfit2. by apply (use_turn u1 n b). }
  destruct (Z.ltb_spec (frag u) (sh n)) as [Hsm|Hbig].
  - assert (n ≠ depth) by (intros ->; change (sh depth) with (VmWalk.sh adev depth) in Hsm; rewrite (sh_depth adev Hok) in Hsm; lia).
    apply Hgo; [lia| |].
    + intros j Hj. destruct (decide (j = n)) as [->|]; [by eexists|]. apply Hk1. lia.
    + pose proof (ok_root _ Hok). unfold VmWalk.lev. unfold VmWalk.depth in *. destruct (_ <? _); lia.
  - destruct n as [|k]; [apply Huse; [done|]; intros ? [=]|]. destruct (Z.leb_spec (sh k) (frag u)) as [Hup|Hfit].
    + apply Hgo; [lia|intros j Hj; apply Hk1; lia|]. rewrite (proj2 (Z.ltb_ge _ _)) by done. lia.
    + apply Huse; [done|]. by intros ? [= <-].
Qed.

Lemma ptes_update_total tf : vm_wf vm0 → pte_support_ats vm0 = false →
  ∃ vm' tf' r, amdgpu_vm_ptes_update adev gmc env (mk_params false pages ao tf) vm0 start end' dst0 flags = Some (vm', mk_params false pages ao tf', r) ∧
    result vm' r.
Proof.
  intros W Hats. pose proof range_limit as Hlim. unfold amdgpu_vm_ptes_update.
  pose proof (pte_fragment_spec adev Hok Hv pages start end' dst0 Hr (mk_params false pages ao tf) start eq_refl ltac:(lia)) as Hf.
  destruct (amdgpu_vm_pte_fragment adev (mk_params false pages ao tf) start end') as [f fe].
  assert (I : inv (mk_update (mk_params false pages ao tf) vm0 (amdgpu_vm_pt_start adev start) start f fe dst0)).
  { split; cbn; [by eexists|lia| |unfold daddr; lia|done|].
    - split; try done; [lia|]. intros x _ _ m v Hl. by left.
    - left. split; [lia|]. exists 0%nat. split; [lia|]. split; [apply start_cursor|lia]. }
  destruct (run_loop_spec (ptes_step adev gmc env end' flags) inv outcome measure _ ptes_turn I) as ([u r] & Hu & Hout & tf' & Hp).
  { pose proof (measure_bounds _ I) as Hm. cbn in Hm |- *. pose proof (range_dst _ _ _ _ Hr). pose proof (range_aligned _ _ _ _ Hr). lia. }
  cbn [fst] in Hp. rewrite Hu, Some_bind, Hp. by exists (u_vm u), tf', r.
Qed.

Lemma ptes_update_spec tf : vm_wf vm0 → pte_support_ats vm0 = false →
  ∃ vm' p' r, amdgpu_vm_ptes_update adev gmc env (mk_params false pages ao tf) vm0 start end' dst0 flags = Some (vm', p', r) ∧ result vm' r.
Proof. intros W Hats. destruct (ptes_update_total tf W Hats) as (vm' & tf' & r & Hu & Hres). by exists vm', (mk_params false pages ao tf'), r. Qed.
End Range.
