(* ===== verification/VmHw.v ===== *)
(** * Page tables: directories and the walk of the hardware

    [amdgpu_vm_update_pdes] enters the tables that wait for it in their directories, and
    then the walk of the hardware, which follows the entries from the root until one is a
    page, ends at the entry that translates the address in the tree of the driver. *)

From S2P Require Import Prelude Vm VmWalk VmCursor VmDfs VmLeaf VmWrite VmFragment VmFreeing VmUpdate VmRange.
#[local] Open Scope Z_scope.
#[local] Open Scope list_scope.

(** The entry for a table of the memory manager is made and is not a page. *)
Class VmPdeTable (gmc : gmc_funcs) (env : vm_env) : Prop := {
  vm_pde_table k l : 0 ≤ l < 3 → ∃ a f, get_vm_pde gmc l (bo_address env k) (bo_flags env k) = Some (a, f) ∧
    Z.testbit (amdgpu_gmc_set_pte_pde a f) 54 = false;
}.

Section Hw.
Context (adev : amdgpu_device) (gmc : gmc_funcs) (env : vm_env) (Hok : adev_ok adev).
Context (Hwait : ∀ k, 0 ≤ resv_wait env k) `{!VmPdeTable gmc env}.
Abbreviation depth := (depth adev).
Abbreviation lev := (lev adev).
Abbreviation sh := (sh adev).
Abbreviation cell := (cell adev).
Abbreviation idx := (idx adev).
Abbreviation path_at := (path_at adev).
Abbreviation entries := (entries adev).
Abbreviation limit := (limit adev).
Abbreviation vm_wf := (vm_wf adev).
Abbreviation leaf := (leaf adev).
Abbreviation agree := (agree adev).
Abbreviation pde_of := (pde_of adev gmc).
Abbreviation dirs_of := (dirs_of adev gmc env).
Abbreviation dirs := (dirs adev gmc env).

Lemma lev_dir n : (n < depth)%nat → 0 ≤ lev n < 3.
Proof. pose proof (ok_root _ Hok). unfold VmWalk.lev, VmWalk.depth. lia. Qed.

Lemma pde_of_some n t todo m x c : dirs_of t todo → (n < depth)%nat → 0 ≤ x < limit → t !! path_at m x = Some c →
  ∃ a f, get_vm_pde gmc (lev n) (pt_addr c) (pt_flags c) = Some (a, f) ∧ pde_of n c = amdgpu_gmc_set_pte_pde a f ∧ Z.testbit (pde_of n c) 54 = false.
Proof.
  intros D Hn Hx Hc. destruct (dir_place _ _ _ _ _ D m x c Hx Hc) as (k & Ha & Hf). unfold VmRange.pde_of. rewrite Ha, Hf.
  destruct (vm_pde_table k (lev n) (lev_dir n Hn)) as (a & f & Hg & Hb). exists a, f. by rewrite Hg.
Qed.

Lemma set_pte_pde_u64 a f : amdgpu_gmc_set_pte_pde (u64 a) f = amdgpu_gmc_set_pte_pde a f.
Proof.
  unfold amdgpu_gmc_set_pte_pde. f_equal. apply Z.bits_inj'. intros i Hi. rewrite !Z.land_spec.
  destruct (decide (i < 64)) as [Hlt|Hge]; [unfold wrap; by rewrite Z.mod_pow2_bits_low by lia|].
  assert (Z.testbit 0x0000FFFFFFFFF000 i = false) as ->; [|by rewrite !andb_false_r]. apply Z.bits_above_log2; [lia|].
  change (Z.log2 0x0000FFFFFFFFF000) with 47. lia.
Qed.

(** ** One directory entry *)

Section Entry.
Context (vm : amdgpu_vm) (todo : list path) (m : nat) (x : Z) (b c : amdgpu_bo_vm).
Context (W : vm_wf vm) (D : dirs_of (tables vm) (path_at (S m) x :: todo)) (Hx : 0 ≤ x < limit) (Hb : tables vm !! path_at m x = Some b)
  (Hc : tables vm !! path_at (S m) x = Some c).
Abbreviation e := (path_at (S m) x).
Abbreviation q := (path_at m x).
Definition entered : list Z := <[Z.to_nat (idx m x) := pde_of m c]> (ptes b).

Lemma e_depth : (m < depth)%nat.
Proof. destruct (wf_table _ _ W _ _ Hc) as [Hl _]. rewrite path_at_length in Hl. change (VmWalk.depth adev) with depth in Hl. lia. Qed.

Lemma q_idx : 0 ≤ idx m x < Z.of_nat (length (ptes b)).
Proof.
  pose proof e_depth. pose proof (idx_bounds adev Hok m x ltac:(lia) Hx). destruct (wf_table _ _ W _ _ Hb) as (_ & _ & ->).
  rewrite path_at_length. pose proof (tsize_entries adev Hok m ltac:(lia)). lia.
Qed.

(** A place of the directory other than that of [e]. *)
Lemma entered_other z : path_at m z = q → path_at (S m) z ≠ e → 0 ≤ z < limit → entered !! Z.to_nat (idx m z) = ptes b !! Z.to_nat (idx m z).
Proof.
  intros Hq Hne Hz. apply list_lookup_insert_ne. intros Hi. apply Hne. cbn [VmWalk.path_at]. f_equal; [|done].
  pose proof e_depth. pose proof (idx_bounds adev Hok m x ltac:(lia) Hx). pose proof (idx_bounds adev Hok m z ltac:(lia) Hz). lia.
Qed.

Context (vm' : amdgpu_vm) (Ht : tables vm' = <[q := b <| ptes := entered |>]> (tables vm)).

Lemma entry_back k b' : tables vm' !! k = Some b' → ∃ b0, tables vm !! k = Some b0 ∧ same_place b0 b' ∧ (k ≠ q → b' = b0) ∧ (k = q → b0 = b ∧ ptes b' = entered).
Proof.
  rewrite Ht. destruct (decide (k = q)) as [->|Hne].
  - rewrite lookup_insert_eq. intros [= <-]. by exists b.
  - rewrite lookup_insert_ne by done. intros Hb'. by exists b'.
Qed.

Lemma entry_dirs : dirs_of (tables vm') todo.
Proof.
  pose proof D as [D1 D2 D3 D4]. pose proof (write_some vm vm' q b entered Hb Ht) as Hsome. split.
  - intros k Hk. rewrite Hsome. apply D1. by right.
  - intros j z b' c' Hz Hb' Hc'. destruct (entry_back _ _ Hb') as (b0 & B1 & B2 & B3 & B4). destruct (entry_back _ _ Hc') as (c0 & C1 & C2 & _ & _).
    rewrite (pde_of_place _ _ _ _ _ C2). destruct (decide (path_at (S j) z = e)) as [He|He].
    + right. pose proof (path_at_same adev _ _ _ _ He) as [= ->]. cbn [VmWalk.path_at] in He. injection He as Hi Hq. destruct (B4 Hq) as [-> ->].
      unfold entered. change (VmWalk.idx adev m) with (idx m) in *. rewrite Hi, list_lookup_insert_eq by (pose proof q_idx; lia).
      do 2 f_equal. enough (Some c = Some c0) by congruence. rewrite <- Hc, <- C1. cbn [VmWalk.path_at]. congruence.
    + destruct (D2 j z b0 c0 Hz B1 C1) as [Hin|Heq]; [apply elem_of_cons in Hin as [?|]; [done|by left]|right].
      destruct (decide (path_at j z = q)) as [Hq|Hq]; [|by rewrite (B3 Hq)]. pose proof (path_at_same adev _ _ _ _ Hq) as ->.
      destruct (B4 Hq) as [-> ->]. rewrite entered_other; done.
  - intros j z b' v Hj Hz Hb' Hc' Hl. destruct (entry_back _ _ Hb') as (b0 & B1 & B2 & B3 & B4).
    assert (Hnone : tables vm !! path_at (S j) z = None) by (rewrite eq_None_not_Some, <- Hsome, Hc'; by intros []).
    apply (D3 j z b0 v Hj Hz B1 Hnone). destruct (decide (path_at j z = q)) as [Hq|Hq]; [|by rewrite <- (B3 Hq)].
    pose proof (path_at_same adev _ _ _ _ Hq) as ->. destruct (B4 Hq) as [-> Hp]. rewrite Hp, entered_other in Hl; [done|done| |done].
    intros He. change (tables vm !! path_at (S m) z = None) in Hnone. congruence.
  - intros j z b' Hz Hb'. destruct (entry_back _ _ Hb') as (b0 & B1 & [-> ->] & _). by apply (D4 j z b0).
Qed.

Lemma entry_agree z : 0 ≤ z < limit → agree vm vm' z.
Proof.
  intros Hz k v (b0 & B1 & B2 & B3). pose proof (write_some vm vm' q b entered Hb Ht) as Hsome.
  assert (B2' : k = depth ∨ tables vm' !! path_at (S k) z = None).
  { destruct B2 as [|B2]; [by left|right]. by rewrite eq_None_not_Some, Hsome, <- eq_None_not_Some. }
  destruct (decide (path_at k z = q)) as [Hq|Hq].
  - pose proof (path_at_same adev _ _ _ _ Hq) as ->. exists (b <| ptes := entered |>). split; [by rewrite Ht; change (VmWalk.path_at adev m z) with (path_at m z); rewrite Hq, lookup_insert_eq|]. split; [done|].
    change (ptes (b <| ptes := entered |>)) with entered. change (VmWalk.idx adev m z) with (idx m z) in *. rewrite entered_other; [|done| |done].
    + change (tables vm !! path_at m z = Some b0) in B1. congruence.
    + intros He. pose proof e_depth. destruct B2 as [->|B2]; [lia|]. change (tables vm !! path_at (S m) z = None) in B2. congruence.
  - exists b0. split; [by rewrite Ht, lookup_insert_ne|]. by split.
Qed.

Lemma entry_wf : vm_wf vm'.
Proof. apply (write_wf adev vm vm' q b entered Hb Ht); [|done]. unfold entered. by rewrite length_insert. Qed.
End Entry.

Lemma pde_update_spec vm todo m x b c : vm_wf vm → dirs_of (tables vm) (path_at (S m) x :: todo) → 0 ≤ x < limit → tables vm !! path_at m x = Some b →
  tables vm !! path_at (S m) x = Some c →
  ∃ vm', amdgpu_vm_pde_update adev gmc env vm (path_at (S m) x) = Some (vm', 0) ∧
    tables vm' = <[path_at m x := b <| ptes := entered m x b c |>]> (tables vm) ∧
    relocated vm' = relocated vm ∧ pt_freed vm' = pt_freed vm ∧ pte_support_ats vm' = pte_support_ats vm.
Proof.
  intros W D Hx Hb Hc. pose proof (e_depth vm m x c W Hc) as Hm. pose proof (q_idx vm m x b c W Hx Hb Hc) as Hi.
  unfold amdgpu_vm_pde_update, amdgpu_vm_pt_parent. rewrite (wf_the_bo _ _ _ _ W Hc). cbn [mbind option_bind VmWalk.path_at].
  rewrite (has_bo_true _ _ _ Hb). cbn [mbind option_bind].
  rewrite path_at_length. change (root_level adev + Z.of_nat m) with (lev m).
  destruct (pde_of_some m _ _ (S m) x c D Hm Hx Hc) as (a & f & Hg & Hp & _). rewrite Hg. cbn [mbind option_bind].
  destruct (cpu_update_spec env Hwait params_none vm (path_at m x) b (idx m x) a 1 0 f (wf_the_bo _ _ _ _ W Hb)) as (vm' & Hu & Ht & Hrest); [lia|lia|lia|].
  exists vm'. split; [exact Hu|]. split; [|exact Hrest]. rewrite Ht. unfold entered. rewrite Hp.
  change (pte_values _ a (Z.to_nat 1) (u32 0) f) with [amdgpu_gmc_set_pte_pde (u64 (a + 0)) f].
  by rewrite Z.add_0_r, set_pte_pde_u64.
Qed.

(** ** The directories *)

Lemma update_relocated_spec l vm : vm_wf vm → dirs_of (tables vm) l →
  ∃ vm', update_relocated adev gmc env vm l = Some (vm', 0) ∧ vm_wf vm' ∧ dirs_of (tables vm') [] ∧
    relocated vm' = relocated vm ∧ pt_freed vm' = pt_freed vm ∧ pte_support_ats vm' = pte_support_ats vm ∧
    (∀ z, 0 ≤ z < limit → agree vm vm' z).
Proof.
  revert vm. induction l as [|k l IH]; intros vm W D; cbn [update_relocated].
  { exists vm. repeat (split; [done|]). intros z _. apply agree_refl. }
  destruct (dir_relocated _ _ _ _ _ D k ltac:(by left)) as [Hk [c Hc]]. destruct (wf_place adev Hok vm k c W Hc) as (x & Hx & Hkx).
  destruct k as [|i k]; [done|]. change (length (i :: k)) with (S (length k)) in Hkx. set (m := length k) in *. rewrite Hkx in *.
  destruct (wf_parent _ _ W (idx m x) (path_at m x) c Hc) as [[b Hb] _].
  destruct (pde_update_spec vm l m x b c W D Hx Hb Hc) as (vm1 & Hu & Ht & R1 & R2 & R3). rewrite Hu. cbn [mbind option_bind]. change (nz 0) with false. cbv iota.
  destruct (IH vm1) as (vm' & Hl & W' & D' & Q1 & Q2 & Q3 & Q4).
  - by eapply entry_wf.
  - by eapply entry_dirs.
  - exists vm'. split_and!; try done; [congruence|congruence|congruence|]. intros z Hz.
    apply (agree_trans adev vm vm1); [by eapply entry_agree|by apply Q4].
Qed.

Lemma update_pdes_spec vm : vm_wf vm → dirs vm →
  ∃ vm' r, amdgpu_vm_update_pdes adev gmc env vm = Some (vm', r) ∧ vm_wf vm' ∧
    (∀ z, 0 ≤ z < limit → agree vm vm' z) ∧ pt_freed vm' = pt_freed vm ∧ pte_support_ats vm' = pte_support_ats vm ∧
    ((r = 0 ∧ dirs vm' ∧ relocated vm' = []) ∨ (r ≠ 0 ∧ ∃ k, r = pt_prepare env k)).
Proof.
  intros W D. unfold amdgpu_vm_update_pdes. destruct (decide (relocated vm = [])) as [Hl|Hl].
  { rewrite bool_decide_true by done. exists vm, 0. split_and!; try done; [intros z _; apply agree_refl|by left]. }
  rewrite bool_decide_false by done. unfold nz. destruct (Z.eqb_spec (pt_prepare env (queries (vm <| relocated := [] |>))) 0) as [Hz|Hz]; cbn [negb].
  - set (vm1 := ask (vm <| relocated := [] |>)).
    destruct (update_relocated_spec (relocated vm) vm1) as (vm' & Hu & W' & D' & Q1 & Q2 & Q3 & Q4); [by apply (wf_tables adev vm)|done|].
    rewrite Hu. exists vm', 0. split_and!; try done. left. split; [done|]. split; [|done]. unfold VmRange.dirs. by rewrite Q1.
  - eexists _, _. split; [done|]. split; [by apply (wf_tables adev vm)|]. split; [by intros z _; apply agree_tables|]. split; [done|]. split; [done|].
    right. split; [done|]. by eexists.
Qed.

(** ** The walk *)

(** From the table [p] of depth [n] the entry [v] of depth [m] is found for [x]. *)
Inductive hw_walk (vm : amdgpu_vm) (x : Z) : nat → path → nat → Z → Prop :=
  | hw_page n p b v : tables vm !! p = Some b → ptes b !! Z.to_nat (idx n x) = Some v → n = depth ∨ Z.testbit v 54 = true →
      hw_walk vm x n p n v
  | hw_table n p b w q c m v : (n < depth)%nat → tables vm !! p = Some b → ptes b !! Z.to_nat (idx n x) = Some w → Z.testbit w 54 = false →
      tables vm !! q = Some c → w = pde_of n c → hw_walk vm x (S n) q m v → hw_walk vm x n p m v.

(** No two tables are at the same place. *)
Definition distinct (vm : amdgpu_vm) : Prop :=
  ∀ n p q b c, tables vm !! p = Some b → tables vm !! q = Some c → pde_of n b = pde_of n c → p = q.

Context (vm : amdgpu_vm) (W : vm_wf vm) (D : dirs vm) (Hrel : relocated vm = []).

(** An entry of a directory points to the table under it, or is a page. *)
Lemma entry_of n x b v : (n < depth)%nat → 0 ≤ x < limit → tables vm !! path_at n x = Some b → ptes b !! Z.to_nat (idx n x) = Some v →
  (Z.testbit v 54 = true ∧ tables vm !! path_at (S n) x = None) ∨
  (Z.testbit v 54 = false ∧ ∃ c, tables vm !! path_at (S n) x = Some c ∧ v = pde_of n c).
Proof.
  intros Hn Hx Hb Hv. destruct (tables vm !! path_at (S n) x) as [c|] eqn:Hc; [right|left].
  - destruct (dir_table _ _ _ _ _ D n x b c Hx Hb Hc) as [Hin|Heq]; [rewrite Hrel in Hin; by apply elem_of_nil in Hin|].
    assert (v = pde_of n c) as -> by congruence. destruct (pde_of_some n _ _ (S n) x c D Hn Hx Hc) as (_ & _ & _ & _ & ?). split; [done|]. by exists c.
  - split; [|done]. by apply (dir_page _ _ _ _ _ D n x b).
Qed.

Lemma walk_to n x m v : 0 ≤ x < limit → (n ≤ m)%nat → leaf vm m x v → hw_walk vm x n (path_at n x) m v.
Proof.
  intros Hx Hnm (b & Hb & Hend & Hv). change (VmWalk.idx adev m x) with (idx m x) in Hv.
  destruct (wf_table _ _ W _ _ Hb) as [Hm _]. rewrite path_at_length in Hm. change (VmWalk.depth adev) with depth in Hm.
  remember (m - n)%nat as j eqn:Hj. revert n Hnm Hj. induction j as [|j IH]; intros n Hnm Hj.
  - assert (n = m) as -> by lia. apply (hw_page vm x m _ b v); [done|done|]. destruct Hend as [|Hend]; [by left|].
    destruct (decide (m = depth)) as [|Hne]; [by left|right].
    destruct (entry_of m x b v ltac:(lia) Hx Hb Hv) as [[? _]|(_ & c & Hc & _)]; [done|]. change (tables vm !! path_at (S m) x = None) in Hend. congruence.
  - destruct (wf_ancestor adev vm n m x b W ltac:(lia) Hb) as [bn Hbn]. destruct (wf_ancestor adev vm (S n) m x b W ltac:(lia) Hb) as [c Hc].
    destruct (lookup_lt_is_Some_2 (ptes bn) (Z.to_nat (idx n x))) as [w Hw].
    { destruct (wf_table _ _ W _ _ Hbn) as (_ & _ & ->). rewrite path_at_length.
      pose proof (idx_bounds adev Hok n x ltac:(lia) Hx). pose proof (tsize_entries adev Hok n ltac:(lia)). lia. }
    destruct (entry_of n x bn w ltac:(lia) Hx Hbn Hw) as [[_ Hnone]|(Hbit & c' & Hc' & Heq)]; [change (tables vm !! path_at (S n) x = Some c) in Hc; congruence|].
    apply (hw_table vm x n _ bn w (path_at (S n) x) c'); try done; [lia|]. apply IH; lia.
Qed.

Lemma walk_only n x p m v : distinct vm → 0 ≤ x < limit → p = path_at n x → hw_walk vm x n p m v → leaf vm m x v.
Proof.
  intros Hdis Hx Hp Hw. induction Hw as [n p b v Hb Hv Hpage|n p b w q c m v Hn Hb Hw Hbit Hc Hq Hwalk IH]; subst p.
  - exists b. split; [done|]. split; [|done]. destruct Hpage as [|Hbit]; [by left|].
    destruct (decide (n = depth)) as [|Hne]; [by left|right]. destruct (wf_table _ _ W _ _ Hb) as [Hl _]. rewrite path_at_length in Hl.
    change (VmWalk.depth adev) with depth in Hl. destruct (entry_of n x b v ltac:(lia) Hx Hb Hv) as [[_ ?]|(? & _)]; [done|congruence].
  - apply IH. destruct (entry_of n x b w Hn Hx Hb Hw) as [[? _]|(_ & c' & Hc' & Heq)]; [congruence|].
    apply (Hdis n q (path_at (S n) x) c c'); [done|done|congruence].
Qed.
End Hw.
