(* ===== verification/VmProof.v ===== *)
(** * Page tables: what they promise

    The address space of a GPU as its clients see it: it is made, ranges are mapped and
    unmapped, the directories are brought up to date, it is freed; and how the hardware
    translates in between. *)

From S2P Require Import Prelude Vm VmWalk VmCursor VmDfs VmLeaf VmWrite VmFragment VmFreeing VmUpdate VmRange VmHw.
#[local] Open Scope Z_scope.
#[local] Open Scope list_scope.

(** GFX9 and later: the device, the answers of the memory manager, the controller. *)
Record gfx9 (adev : amdgpu_device) (gmc : gmc_funcs) (env : vm_env) : Prop := {
  g9_device : adev_ok adev;
  g9_vega10 : vega10 adev = true;
  g9_wait k : 0 ≤ resv_wait env k;
  g9_page : VmPde gmc;
  g9_table : VmPdeTable gmc env;
}.

Section Proof.
Context (adev : amdgpu_device) (gmc : gmc_funcs) (env : vm_env) (G : gfx9 adev gmc env).
Abbreviation depth := (depth adev).
Abbreviation sh := (sh adev).
Abbreviation path_at := (path_at adev).
Abbreviation limit := (limit adev).
Abbreviation leaf := (leaf adev).
#[local] Existing Instance g9_page.
#[local] Existing Instance g9_table.

(** An address space whose tables are all in the tree, with nothing waiting to be freed. *)
Record vm_ok (vm : amdgpu_vm) : Prop := {
  ok_wf : vm_wf adev vm;
  ok_dirs : dirs adev gmc env vm;
  ok_ats : pte_support_ats vm = false;
  ok_freed : pt_freed vm = [];
}.

(** A range that can be updated. *)
Record request (pages : option (Z → Z)) (ao : bool) (start end' dst : Z) : Prop := {
  rq_range : range_ok adev start end' dst;
  rq_root : root_level adev = 0 ∨ end' - start < 2 ^ amdgpu_vm_pt_level_shift adev (root_level adev - 1);
  rq_override : override_vm_pte_flags gmc = None ∨ ao = false;
}.

Lemma update_total pages ao tf start end' dst flags vm : vm_ok vm → request pages ao start end' dst →
  ∃ vm' p' r, amdgpu_vm_ptes_update adev gmc env (mk_params false pages ao tf) vm start end' dst flags = Some (vm', p', r) ∧
    result adev gmc env pages start end' dst flags vm vm' r.
Proof.
  intros [W D A F] [R1 R2 R3]. pose proof G as [G1 G2 G3 G4 G5].
  apply (ptes_update_spec adev gmc env G1 G3 G2 pages ao R3 start end' dst flags R1 R2 vm tf W A).
Qed.

Lemma update_params pages ao tf start end' dst flags vm vm' p' r : vm_ok vm → request pages ao start end' dst →
  amdgpu_vm_ptes_update adev gmc env (mk_params false pages ao tf) vm start end' dst flags = Some (vm', p', r) →
  ∃ tf', p' = mk_params false pages ao tf'.
Proof.
  intros [W D A F] [R1 R2 R3] Hu. pose proof G as [G1 G2 G3 G4 G5].
  destruct (ptes_update_total adev gmc env G1 G3 G2 pages ao R3 start end' dst flags R1 R2 vm tf W A) as (vm2 & tf2 & r2 & Hu2 & _).
  rewrite Hu in Hu2. injection Hu2 as _ -> _. by exists tf2.
Qed.

Lemma progress_ok pages start end' dst flags vm vm' hi : vm_ok vm → progress adev gmc env pages start end' dst flags vm vm' hi → vm_ok vm'.
Proof. intros [W D A F] [P1 P2 P3 P4 _ _]. split; auto. Qed.

(** ** Making and freeing *)

Lemma vm_init_spec q : ∃ vm r, amdgpu_vm_init adev gmc env q = Some (vm, r) ∧
  ((r = 0 ∧ vm_ok vm ∧ ∀ x, 0 ≤ x < limit → leaf vm 0 x (cleared adev 0)) ∨
   (r ≠ 0 ∧ (∃ k, r = bo_create env k ∨ r = pt_prepare env k) ∧ tables vm = ∅)).
Proof.
  pose proof G as [G1 G2 G3 G4 G5]. pose proof (depth_bounds adev G1) as Hdb. unfold amdgpu_vm_init, amdgpu_vm_pt_create. cbn [VmCursor.cursor_at].
  set (vm0 := mk_vm ∅ [] [] false q). change (queries vm0) with q. unfold nz at 1.
  destruct (Z.eqb_spec (bo_create env q) 0) as [Hz|Hz]; cbn [negb].
  2:{ do 2 eexists. split; [done|]. right. split; [done|]. split; [exists q; by left|done]. }
  set (b := mk_bo_vm _ _ _ _). set (vm1 := amdgpu_vm_bo_base_init (ask vm0) [] b).
  assert (Ht1 : tables vm1 = {[ [] := b ]}) by done.
  assert (Hlev : root_level adev = lev adev 0) by (unfold lev; lia).
  assert (Hlen : length (ptes b) = tsize adev 0) by (simpl; rewrite length_replicate; unfold tsize; by rewrite <- Hlev).
  assert (Hwf : ∀ b', freed b' = false → length (ptes b') = tsize adev 0 → ∀ vm, tables vm = {[ [] := b' ]} → vm_wf adev vm).
  { intros b' Hf Hl vm Ht. split; rewrite Ht.
    - rewrite lookup_singleton_eq. by eexists.
    - intros i p b2. by rewrite lookup_singleton_ne.
    - intros p b2 Hp. apply lookup_singleton_Some in Hp as [<- <-]. split; [simpl; lia|done]. }
  destruct (clear_spec adev gmc env G1 G3 G2 vm1 [] b) as (vm2 & r & Hc & Ha & Hr & Hf & Hcase).
  - unfold the_bo. by rewrite Ht1, lookup_singleton_eq.
  - simpl. lia.
  - done.
  - rewrite Hlen. pose proof (tsize_entries adev G1 0 ltac:(lia)). pose proof (entries_pos adev G1 0). lia.
  - rewrite Hc. cbn [mbind option_bind]. destruct Hcase as [(Hne & Hre & Ht)|(-> & _ & Ht)].
    + unfold nz. rewrite (proj2 (Z.eqb_neq _ _) Hne). cbn [negb].
      destruct (free_root_spec adev G1 vm2) as (vm3 & Hfree & Hempty & _); [apply (Hwf b); [done|done|by rewrite Ht]|].
      rewrite Hfree. cbn [mbind option_bind]. do 2 eexists. split; [done|]. right. split; [done|]. split; [|done]. eexists. right. exact Hre.
    + change (nz 0) with false. cbv iota. do 2 eexists. split; [done|]. left. split; [done|].
      rewrite Ht1, insert_singleton_eq in Ht. change (length []) with 0%nat in Ht.
      set (b' := b <| ptes := replicate (length (ptes b)) (cleared adev 0) |>) in *.
      assert (Hlen' : length (ptes b') = tsize adev 0) by (etrans; [apply length_replicate|done]).
      assert (W : vm_wf adev vm2) by by apply (Hwf b').
      assert (Hroot : ∀ m x b2, tables vm2 !! path_at m x = Some b2 → m = 0%nat ∧ b2 = b').
      { intros m x b2. rewrite Ht. intros Hb2. apply lookup_singleton_Some in Hb2 as [Hp <-]. split; [|done].
        apply (f_equal length) in Hp. rewrite path_at_length in Hp. done. }
      split.
      * split; [done| |done|by rewrite Hf]. split.
        -- rewrite Hr. intros k Hk. by apply elem_of_nil in Hk.
        -- intros m x b1 c Hx Hb1 Hc1. apply Hroot in Hc1 as [? _]. done.
        -- intros m x b1 v Hm Hx Hb1 Hc1 Hl. apply Hroot in Hb1 as [-> ->]. apply lookup_replicate in Hl as [-> _]. apply cleared_page; [done|lia].
        -- intros m x b1 Hx Hb1. apply Hroot in Hb1 as [_ ->]. by exists q.
      * intros x Hx. exists b'. rewrite Ht. split; [by rewrite lookup_singleton_eq|]. split.
        -- right. by rewrite lookup_singleton_ne.
        -- apply lookup_replicate_2. rewrite Hlen. pose proof (idx_bounds adev G1 0 x ltac:(lia) Hx). pose proof (tsize_entries adev G1 0 ltac:(lia)). lia.
Qed.

(** ** Mapping *)


(** ** What is left of an update that fails *)

(** When a table cannot be made for lack of memory, the update stops in a good state:
    the pages up to some place in the range are mapped as asked, pages outside of the range
    are untouched as with success, and the tables are as they should be. *)
Theorem ptes_update_out_of_memory pages ao tf start end' dst flags vm vm' p' r : vm_ok vm → request pages ao start end' dst →
  amdgpu_vm_ptes_update adev gmc env (mk_params false pages ao tf) vm start end' dst flags = Some (vm', p', r) →
  r ≠ 0 → (∀ k, r ≠ pt_prepare env k) →
  vm_ok vm' ∧ ∃ hi, start ≤ hi < end' ∧ (∀ x, start ≤ x < hi → placed adev pages start dst flags vm' hi x) ∧
    ∀ x, 0 ≤ x < limit → ¬ start ≤ x < end' → kept adev start end' vm vm' x.
Proof.
  intros V R Hu Hne Hnc. destruct (update_total pages ao tf start end' dst flags vm V R) as (vm2 & p2 & r2 & Hu2 & Hres).
  rewrite Hu in Hu2. injection Hu2 as <- <- <-.
  destruct Hres as [[? _]|[[_ (hi & Hhi & P)]|[_ [k Hk]]]]; [done| |by edestruct Hnc]. split; [by eapply progress_ok|].
  exists hi. split; [done|]. split; apply P.
Qed.

(** The table of a failed clear: its entry keeps the buffer that was given back. *)

(** When the table that [amdgpu_vm_pt_alloc] made cannot be cleared, its buffer is
    freed but stays in its entry: the next update that comes by takes it for a table, and
    the first write to it uses freed memory. *)
Theorem pt_alloc_clear_dangles vm n x : vm_ok vm → (S n ≤ depth)%nat → 0 ≤ x < limit → is_Some (tables vm !! path_at n x) →
  tables vm !! path_at (S n) x = None → bo_create env (queries vm) = 0 → pt_prepare env (S (queries vm)) ≠ 0 →
  ∃ vm', amdgpu_vm_pt_alloc adev gmc env vm (cursor_at adev (S n) x) = Some (vm', pt_prepare env (S (queries vm))) ∧
    amdgpu_vm_pt_alloc adev gmc env vm' (cursor_at adev (S n) x) = Some (vm', 0) ∧
    ∀ p pe addr count incr flags, amdgpu_vm_cpu_update env p vm' (path_at (S n) x) pe addr count incr flags = None.
Proof.
  intros [W D A F] Hn Hx [b0 Hb0] Hnone Hz Hp. pose proof G as [G1 G2 G3 G4 G5].
  unfold amdgpu_vm_pt_alloc at 1. cbn [entry cursor_at mbind option_bind]. rewrite (has_bo_false _ _ Hnone).
  unfold amdgpu_vm_pt_create. cbn [level parent cursor_at]. unfold nz at 1. rewrite Hz. change (negb (0 =? 0)) with false. cbv iota. cbn [mbind option_bind].
  rewrite (wf_the_bo adev (ask vm) _ b0) by (done || by apply (wf_tables adev vm)). cbn [mbind option_bind].
  set (b := mk_bo_vm _ _ _ _). set (vm1 := amdgpu_vm_bo_base_init (ask vm) (path_at (S n) x) b).
  assert (Hb : tables vm1 !! path_at (S n) x = Some b) by apply lookup_insert_eq.
  destruct (clear_spec adev gmc env G1 G3 G2 vm1 (path_at (S n) x) b) as (vm2 & r & Hc & _ & _ & _ & Hcase).
  - unfold the_bo. by rewrite Hb.
  - by rewrite path_at_length.
  - done.
  - simpl. rewrite length_replicate. change (Z.to_nat (amdgpu_vm_pt_size adev (VmWalk.lev adev (S n)) / 8)) with (tsize adev (S n)).
    pose proof (tsize_entries adev G1 (S n) Hn). pose proof (entries_pos adev G1 (S n)). lia.
  - rewrite Hc. cbn [mbind option_bind]. change (queries vm1) with (S (queries vm)) in Hcase.
    destruct Hcase as [(Hne & -> & Ht)|(_ & ? & _)]; [|done].
    unfold nz. rewrite (proj2 (Z.eqb_neq _ _) Hp). cbn [negb]. eexists. split; [done|].
    set (vm3 := vm2 <| tables ::= _ |>).
    assert (Hb3 : tables vm3 !! path_at (S n) x = Some (b <| freed := true |>)).
    { change (tables vm3) with (alter (λ b, b <| freed := true |>) (path_at (S n) x) (tables vm2)). rewrite lookup_alter_eq, Ht, Hb. done. }
    split.
    + unfold amdgpu_vm_pt_alloc. cbn [entry cursor_at mbind option_bind]. by rewrite (has_bo_true _ _ _ Hb3).
    + intros p pe addr count incr flags. unfold amdgpu_vm_cpu_update, the_bo. by rewrite Hb3.
Qed.

(** ** What the hardware sees *)

(** The page of memory that the entry [v] of depth [n] gives for [x]. *)
Definition page_of (n : nat) (v x : Z) : Z := Z.land v 0x0000FFFFFFFFF000 + (x `mod` 2 ^ sh n) * 4096.

(** Flags without bits of an address. *)
Definition no_address (f : Z) : Prop := ∀ i, 12 ≤ i < 48 → Z.testbit f i = false.

Lemma pte_flags_no_address flags n f : no_address flags → no_address (noretry_flags adev) → no_address (pte_flags adev flags n f).
Proof.
  intros Hf Hn i Hi. unfold pte_flags.
  assert (H1 : Z.testbit (AMDGPU_PTE_FRAG f) i = false).
  { unfold AMDGPU_PTE_FRAG. rewrite Z.shiftl_spec, Z.land_spec by lia.
    assert (Z.testbit 0x1f (i - 7) = false) as ->; [|by rewrite andb_false_r]. apply Z.bits_above_log2; [lia|]. change (Z.log2 0x1f) with 4. lia. }
  assert (H2 : Z.testbit AMDGPU_PDE_PTE i = false) by (apply Z.pow2_bits_false; lia).
  assert (H3 : Z.testbit AMDGPU_PTE_EXECUTABLE i = false) by (apply Z.pow2_bits_false; lia).
  assert (H4 : Z.testbit (Z.lor flags (AMDGPU_PTE_FRAG f)) i = false) by by rewrite Z.lor_spec, (Hf i Hi), H1.
  destruct (decide _); [|by rewrite Z.lor_spec, H4, H2]. set (fl := if _ && _ then _ else _).
  assert (H5 : Z.testbit fl i = false) by (unfold fl; destruct (_ && _); [by rewrite Z.lor_spec, H4, H3|done]).
  clearbody fl. unfold amdgpu_vm_pte_update_noretry_flags. destruct (_ =? _); [|exact H5]. by rewrite Z.lor_spec, Z.ldiff_spec, H5, (Hn i Hi).
Qed.

Lemma set_pte_address a f : (4096 | a) → 0 ≤ a < 2 ^ 48 → no_address f → Z.land (amdgpu_gmc_set_pte_pde a f) 0x0000FFFFFFFFF000 = a.
Proof.
  intros [q ->] Ha Hf. unfold amdgpu_gmc_set_pte_pde. set (M := 0x0000FFFFFFFFF000). apply Z.bits_inj'. intros i Hi.
  assert (HM : Z.testbit M i = bool_decide (12 ≤ i < 48)).
  { unfold M. change 0x0000FFFFFFFFF000 with (Z.shiftl (Z.ones 36) 12). rewrite Z.shiftl_spec by lia.
    destruct (decide (i < 12)) as [Hlt|Hge].
    - rewrite Z.testbit_neg_r by lia. rewrite bool_decide_false by lia. done.
    - destruct (decide (i < 48)) as [Hlt|Hge'].
      + rewrite Z.ones_spec_low by lia. by rewrite bool_decide_true by lia.
      + rewrite Z.ones_spec_high by lia. by rewrite bool_decide_false by lia. }
  rewrite Z.land_spec, Z.lor_spec, Z.land_spec, HM. destruct (bool_decide_reflect (12 ≤ i < 48)) as [Hin|Hout].
  - by rewrite (Hf i Hin), orb_false_r, !andb_true_r.
  - rewrite andb_false_r. symmetry. destruct (decide (i < 12)) as [Hlt|Hge].
    + replace (q * 4096) with (q * 2 ^ 12) by lia. by rewrite Z.mul_pow2_bits_low by lia.
    + apply (Z.bits_above_log2 _ i); [lia|]. destruct (decide (q = 0)) as [->|]; [simpl; lia|]. apply Z.log2_lt_pow2; [lia|].
      eapply Z.lt_le_trans; [apply Ha|]. apply Z.pow_le_mono_r; lia.
Qed.

(** An entry of the update gives the page that was asked for. *)
Lemma placed_page start end' dst flags n x f : range_ok adev start end' dst → no_address flags → no_address (noretry_flags adev) →
  (n ≤ depth)%nat → start ≤ cell adev n x * 2 ^ sh n → nextb adev n x ≤ end' →
  page_of n (pte_value adev None start dst flags n (cell adev n x * 2 ^ sh n) f) x = dst + (x - start) * 4096.
Proof.
  intros R Hf Hnr Hn Hs He. pose proof (g9_device _ _ _ G) as Hok. pose proof (sh_pos adev Hok n Hn) as Hp.
  pose proof (nextb_bounds adev Hok n x Hn). pose proof (range_aligned _ _ _ _ R) as [Hd0 Hda]. pose proof (range_dst _ _ _ _ R).
  unfold page_of, pte_value. rewrite set_pte_address.
  - unfold daddr, cell. pose proof (Z.div_mod x (2 ^ sh n) ltac:(lia)). lia.
  - unfold daddr. apply Z.divide_add_r; [done|apply Z.divide_factor_r].
  - unfold daddr. pose proof (Z.mod_pos_bound x (2 ^ sh n) ltac:(lia)). unfold nextb, cell in *. pose proof (Z.div_mod x (2 ^ sh n) ltac:(lia)). nia.
  - by apply pte_flags_no_address.
Qed.

(** When all tables are entered in their directories and are at different places, the
    hardware, walking from the root, finds for every address exactly one entry, and it is
    the one that translates the address in the tree of the driver. *)
Theorem hw_walk_is_leaf vm x : vm_ok vm → relocated vm = [] → distinct adev gmc vm → 0 ≤ x < limit →
  (∀ n v, hw_walk adev gmc vm x 0 [] n v ↔ leaf vm n x v) ∧ ∃ n v, hw_walk adev gmc vm x 0 [] n v.
Proof.
  intros [W D _ _] Hrel Hdis Hx. pose proof G as [G1 _ _ _ G5].
  assert (Hiff : ∀ n v, hw_walk adev gmc vm x 0 [] n v ↔ leaf vm n x v).
  { intros n v. split.
    - intros Hw. by apply (walk_only adev gmc env G1 vm W D Hrel 0 x [] n v).
    - intros Hl. apply (walk_to adev gmc env G1 vm W D Hrel 0 x n v Hx); [lia|done]. }
  split; [done|]. destruct (leaf_total adev G1 vm x W Hx) as (n & v & Hl & _). exists n, v. by apply Hiff.
Qed.

Lemma pdes_ok vm vm' : vm_ok vm → amdgpu_vm_update_pdes adev gmc env vm = Some (vm', 0) →
  vm_ok vm' ∧ relocated vm' = [] ∧ ∀ x, 0 ≤ x < limit → agree adev vm vm' x.
Proof.
  intros [W D A F] Hu. pose proof G as [G1 _ G3 _ G5].
  destruct (update_pdes_spec adev gmc env G1 G3 vm W D) as (vm2 & r & Hu2 & W' & Hag & Hf & Ha & Hcase).
  rewrite Hu in Hu2. injection Hu2 as <- <-. destruct Hcase as [(_ & D' & Hrel)|[? _]]; [|done]. split; [|done]. split; [done|done|congruence|congruence].
Qed.


(** ** The life of an address space *)

Inductive vm_reachable : amdgpu_vm → Prop :=
  | reach_init q vm : amdgpu_vm_init adev gmc env q = Some (vm, 0) → vm_reachable vm
  | reach_update pages ao tf start end' dst flags vm vm' p' r : vm_reachable vm → request pages ao start end' dst →
      amdgpu_vm_ptes_update adev gmc env (mk_params false pages ao tf) vm start end' dst flags = Some (vm', p', r) →
      r = 0 ∨ (∀ k, r ≠ pt_prepare env k) → vm_reachable vm'
  | reach_pdes vm vm' : vm_reachable vm → amdgpu_vm_update_pdes adev gmc env vm = Some (vm', 0) → vm_reachable vm'.


(** Making an address space gives one in which nothing is mapped, or an error after
    which no table is left. *)
Theorem vm_init_clean q : ∃ vm r, amdgpu_vm_init adev gmc env q = Some (vm, r) ∧
  (r = 0 → vm_ok vm ∧ ∀ x, 0 ≤ x < limit → leaf vm 0 x (cleared adev 0)) ∧ (r ≠ 0 → tables vm = ∅).
Proof.
  destruct (vm_init_spec q) as (vm & r & Hi & Hcase). exists vm, r. split; [done|].
  destruct Hcase as [(-> & ? & ?)|(? & _ & ?)]; by split.
Qed.

(** C22. Freeing the tables under a place of the tree ends after meeting each of them once,
    frees exactly those and the place itself, and never touches a table after it is gone. *)
Theorem free_dfs_exact vm n x : vm_ok vm → (n < depth)%nat → 0 ≤ x < limit → x = cell adev n x * 2 ^ sh n →
  is_Some (tables vm !! path_at n x) →
  ∃ vm', amdgpu_vm_pt_free_dfs adev vm (Some (cursor_at adev (S n) x)) false = Some vm' ∧ vm_wf adev vm' ∧
    ∀ k, tables vm' !! k = if bool_decide (path_at (S n) x `suffix_of` k) then None else tables vm !! k.
Proof.
  intros V Hn Hx Hal Hp. destruct (free_dfs_spec adev (g9_device _ _ _ G) vm n x (ok_wf _ V) Hn Hx Hal Hp) as (vm' & Hf & C & W').
  exists vm'. split; [done|]. split; [done|]. intros k. case_bool_decide as Hk; [by apply (cut_out _ _ _ C)|by apply (cut_in _ _ _ C)].
Qed.
End Proof.

(** Without a list of pages the fragment of an update is the largest aligned block at
    its start that lies in the range, up to [2 ^ 31] pages. *)
Theorem pte_fragment_largest adev p start end' : vega10 adev = true → pages_addr p = None → 0 ≤ start < end' → end' ≤ 2 ^ 62 →
  let '(f, fe) := amdgpu_vm_pte_fragment adev p start end' in
  0 ≤ f ≤ 31 ∧ (2 ^ f | start) ∧ start + 2 ^ f ≤ fe ≤ end' ∧ (f < 31 → fe = start + 2 ^ f) ∧
  ∀ g, 0 ≤ g ≤ 31 → (2 ^ g | start) → start + 2 ^ g ≤ end' → g ≤ f.
Proof.
  intros Hv Hp Hs He. pose proof (fragment_block adev p start end' Hv Hp Hs He) as Hb.
  destruct (amdgpu_vm_pte_fragment adev p start end') as [f fe]. destruct Hb as (? & ? & _ & ? & ? & ?). done.
Qed.

(** ** A small device *)

Definition demo_dev : amdgpu_device := mk_adev true (2 ^ 20) 9 9 2 0.
Definition demo_gmc : gmc_funcs := mk_gmc_funcs (gmc_v9_0_get_vm_pde false 0 0) None.
(** Addresses are handed out page by page; [create] and [prepare] are the results. *)
Definition demo_env (create prepare : nat → Z) : vm_env :=
  mk_vm_env create (λ _, 0xdead) (λ k, Z.of_nat k `mod` 2 ^ 30 * 4096) (λ _, AMDGPU_PTE_VALID) prepare (λ _, 0).
Definition no_error : nat → Z := λ _, 0.
Definition demo_init (env : vm_env) : amdgpu_vm :=
  match amdgpu_vm_init demo_dev demo_gmc env 0 with Some (vm, _) => vm | None => mk_vm ∅ [] [] false 0 end.
Definition map_flags : Z := Z.lor AMDGPU_PTE_VALID (Z.lor AMDGPU_PTE_READABLE AMDGPU_PTE_WRITEABLE).

Lemma demo_dev_ok : adev_ok demo_dev.
Proof. split; [simpl; lia|simpl; lia|]. split; [done|vm_compute; discriminate]. Qed.

Lemma demo_gfx9 create prepare : gfx9 demo_dev demo_gmc (demo_env create prepare).
Proof.
  split; [apply demo_dev_ok|done|done|apply _|]. split. intros k l _.
  set (a := Z.of_nat k `mod` 2 ^ 30 * 4096). pose proof (Z.mod_pos_bound (Z.of_nat k) (2 ^ 30) ltac:(lia)) as Hk.
  assert (Ha : 0 ≤ a < 2 ^ 48) by (unfold a; lia). exists a, AMDGPU_PTE_VALID. split.
  - cbn [get_vm_pde demo_gmc bo_address bo_flags demo_env]. unfold gmc_v9_0_get_vm_pde.
    change ((Z.land AMDGPU_PTE_VALID AMDGPU_PDE_PTE =? 0) && (Z.land AMDGPU_PTE_VALID AMDGPU_PTE_SYSTEM =? 0)) with true. cbv iota.
    change (bo_address (demo_env create prepare) k) with a. rewrite Z.sub_0_r, Z.add_0_r, wrap_small by (unfold in_width; lia).
    rewrite aligned_land; [done|done|apply Z.divide_factor_r].
  - unfold amdgpu_gmc_set_pte_pde. rewrite Z.lor_spec. change (Z.testbit AMDGPU_PTE_VALID 54) with false. rewrite orb_false_r, Z.land_spec.
    change (Z.testbit 0x0000FFFFFFFFF000 54) with false. apply andb_false_r.
Qed.

Lemma demo_init_ok create prepare :
  match amdgpu_vm_init demo_dev demo_gmc (demo_env create prepare) 0 with Some (_, r) => r =? 0 | None => false end = true →
  vm_ok demo_dev demo_gmc (demo_env create prepare) (demo_init (demo_env create prepare)) ∧
  amdgpu_vm_init demo_dev demo_gmc (demo_env create prepare) 0 = Some (demo_init (demo_env create prepare), 0).
Proof.
  intros Hr. destruct (vm_init_spec _ _ _ (demo_gfx9 create prepare) 0) as (vm & r & Hi & Hcase). unfold demo_init. rewrite Hi in Hr |- *.
  apply Z.eqb_eq in Hr. subst r. destruct Hcase as [(_ & ? & _)|(? & _)]; [by split|done].
Qed.

Lemma demo_request start end' dst : 0 ≤ start < end' → end' ≤ 2 ^ 17 → 0 ≤ dst ≤ 2 ^ 40 → (4096 | dst) →
  request demo_dev demo_gmc None false start end' dst.
Proof.
  intros Hs He Hd Ha. assert (Hl : 2 ^ 20 ≤ limit demo_dev) by (vm_compute; discriminate). split.
  - split; [lia|split; [lia|done]|lia|]. intros [|[|n]] Hn; [left; vm_compute; discriminate|left; vm_compute; discriminate|].
    change (depth demo_dev) with 1%nat in Hn. lia.
  - right. change (amdgpu_vm_pt_level_shift demo_dev (root_level demo_dev - 1)) with 18. lia.
  - by left.
Qed.

Lemma demo_init_good : match amdgpu_vm_init demo_dev demo_gmc (demo_env no_error no_error) 0 with Some (_, r) => r =? 0 | None => false end = true.
Proof. vm_compute. reflexivity. Qed.


(** The same range without memory for tables. *)
Definition one_table : nat → Z := λ k, if (k =? 0)%nat then 0 else - ENOMEM.

Lemma ptes_update_out_of_memory_witness : let env := demo_env one_table no_error in
  ∃ vm vm' p' r, vm_ok demo_dev demo_gmc env vm ∧ r = - ENOMEM ∧
    amdgpu_vm_ptes_update demo_dev demo_gmc env (mk_params false None false false) vm 5 1030 0x1000000 map_flags = Some (vm', p', r) ∧
    vm_ok demo_dev demo_gmc env vm'.
Proof.
  intros env. destruct (demo_init_ok one_table no_error ltac:(vm_compute; reflexivity)) as [V _].
  assert (R : request demo_dev demo_gmc None false 5 1030 0x1000000) by (apply demo_request; [lia|lia|lia|by exists 0x1000]).
  destruct (update_total demo_dev demo_gmc env (demo_gfx9 _ _) None false false 5 1030 0x1000000 map_flags (demo_init env) V R) as (vm' & p' & r & Hu & _).
  assert (Hr : match amdgpu_vm_ptes_update demo_dev demo_gmc env (mk_params false None false false) (demo_init env) 5 1030 0x1000000 map_flags with
               | Some (_, _, r) => r =? - ENOMEM | None => false end = true) by (vm_compute; reflexivity).
  rewrite Hu in Hr. apply Z.eqb_eq in Hr. exists (demo_init env), vm', p', r. split; [done|]. split; [done|]. split; [done|].
  apply (ptes_update_out_of_memory demo_dev demo_gmc env (demo_gfx9 _ _) None false false 5 1030 0x1000000 map_flags _ vm' p' r V R Hu); [by rewrite Hr|].
  intros k. by rewrite Hr.
Defined.

Definition fourth_fails : nat → Z := λ k, if (k =? 4)%nat then - ENOMEM else 0.

Lemma pt_alloc_clear_dangles_witness : let env := demo_env no_error fourth_fails in
  ∃ vm', amdgpu_vm_pt_alloc demo_dev demo_gmc env (demo_init env) (cursor_at demo_dev 1 0) = Some (vm', - ENOMEM) ∧
    amdgpu_vm_pt_alloc demo_dev demo_gmc env vm' (cursor_at demo_dev 1 0) = Some (vm', 0).
Proof.
  intros env. destruct (demo_init_ok no_error fourth_fails ltac:(vm_compute; reflexivity)) as [V _].
  assert (Hq : queries (demo_init env) = 3%nat) by (vm_compute; reflexivity).
  assert (Hl : 2 ^ 20 ≤ limit demo_dev) by (vm_compute; discriminate).
  destruct (pt_alloc_clear_dangles demo_dev demo_gmc env (demo_gfx9 _ _) (demo_init env) 0 0 V) as (vm' & H1 & H2 & _).
  - vm_compute. lia.
  - lia.
  - apply V.
  - vm_compute. reflexivity.
  - by rewrite Hq.
  - by rewrite Hq.
  - exists vm'. split; [|done]. by rewrite H1, Hq.
Defined.

(** Only the root. *)
Lemma hw_walk_is_leaf_witness : let env := demo_env no_error no_error in let vm := demo_init env in
  ∃ n v, hw_walk demo_dev demo_gmc vm 7 0 [] n v ∧ leaf demo_dev vm n 7 v.
Proof.
  intros env vm. destruct (demo_init_ok no_error no_error demo_init_good) as [V _].
  assert (Hl : 2 ^ 20 ≤ limit demo_dev) by (vm_compute; discriminate).
  assert (Hroot : map_Forall (λ p _, p = []) (tables vm)) by (apply (bool_decide_eq_true_1 (map_Forall (λ p _, p = []) (tables vm))); vm_compute; reflexivity).
  destruct (hw_walk_is_leaf demo_dev demo_gmc env (demo_gfx9 _ _) vm 7 V) as [Hiff (n & v & Hw)].
  - vm_compute. reflexivity.
  - intros n p q b c Hp Hq _. pose proof (Hroot p b Hp). pose proof (Hroot q c Hq). congruence.
  - lia.
  - exists n, v. split; [done|]. by apply Hiff.
Defined.

Lemma pde_of_demo n b : pde_of demo_dev demo_gmc n b = pde_of demo_dev demo_gmc 0 b.
Proof. reflexivity. Qed.

Definition distinct_places (t : gmap path amdgpu_bo_vm) : bool :=
  bool_decide (map_Forall (λ p b, map_Forall (λ q c, pde_of demo_dev demo_gmc 0 b = pde_of demo_dev demo_gmc 0 c → p = q) t) t).


Lemma free_dfs_exact_witness : let env := demo_env no_error no_error in
  ∃ vm', amdgpu_vm_pt_free_dfs demo_dev (demo_init env) (Some (cursor_at demo_dev 1 0)) false = Some vm' ∧ vm_wf demo_dev vm'.
Proof.
  intros env. destruct (demo_init_ok no_error no_error demo_init_good) as [V _].
  assert (Hl : 2 ^ 20 ≤ limit demo_dev) by (vm_compute; discriminate).
  destruct (free_dfs_exact demo_dev demo_gmc env (demo_gfx9 _ _) (demo_init env) 0 0 V) as (vm' & Hf & W & _).
  - vm_compute. lia.
  - lia.
  - vm_compute. reflexivity.
  - apply V.
  - exists vm'. by split.
Defined.

Lemma pte_fragment_largest_witness : amdgpu_vm_pte_fragment demo_dev params_none 1536 4096 = (9, 2048) ∧ (2 ^ 9 | 1536).
Proof.
  split; [vm_compute; reflexivity|].
  pose proof (pte_fragment_largest demo_dev params_none 1536 4096 eq_refl eq_refl ltac:(lia) ltac:(lia)) as H.
  change (amdgpu_vm_pte_fragment demo_dev params_none 1536 4096) with (9, 2048) in H. apply H.
Defined.
