(* ===== verification/VmRes.v ===== *)
(** * Updating the pages of a resource

    [amdgpu_vm_update_range] of [amdgpu_vm.c]: a range of pages is mapped to the memory of a
    buffer, block by block ([amdgpu_res_cursor.h]) or, for system memory, by runs of pages
    whose addresses follow each other or do not.

    A resource is the kind of its memory and its list of blocks, start and size in bytes for
    the blocks of video memory ([struct drm_buddy_block]) and in pages for the nodes of
    system memory and doorbells ([struct drm_mm_node]).  Stepping behind the last block is
    [None]. *)

From S2P Require Import Prelude Vm.
#[local] Open Scope Z_scope.
#[local] Open Scope list_scope.

(** The kinds of memory, TTM_PL_ and AMDGPU_PL_. *)
Inductive placement := PL_SYSTEM | PL_TT | PL_VRAM | PL_GDS | PL_GWS | PL_OA | PL_PREEMPT | PL_DOORBELL.
#[export] Instance placement_eq_dec : EqDecision placement.
Proof. solve_decision. Defined.

Record ttm_resource := mk_resource { mem_type : placement; res_size : Z; blocks : list (Z * Z); bus_cached : bool }.

(** [cur_node] has the block of the cursor and those that follow; [cur_type] is not set for
    a range without blocks. *)
Record amdgpu_res_cursor := mk_res_cursor {
  cur_start : Z;
  cur_size : Z;
  remaining : Z;
  cur_node : list (Z * Z);
  cur_type : option placement;
}.
#[export] Instance eta_res_cursor : Eta amdgpu_res_cursor := λ c,
  mk_res_cursor (cur_start c) (cur_size c) (remaining c) (cur_node c) (cur_type c).

(** Nodes in bytes. *)
Definition node_bytes (n : Z * Z) : Z * Z := (Z.shiftl n.1 12, Z.shiftl n.2 12).

(** The block with the byte [start] of video memory; the search stays at the last block. *)
Fixpoint find_block (l : list (Z * Z)) (start : Z) : option (list (Z * Z) * Z) :=
  match l with
  | [] => None
  | (s, z) :: l' =>
      if start <? z then Some (l, start)
      else match l' with
           | [] => if z =? 0 then None else Some (l, start `mod` z)
           | _ => find_block l' (start - z)
           end
  end.

(** That of nodes, which are an array. *)
Fixpoint find_node (l : list (Z * Z)) (start : Z) : option (list (Z * Z) * Z) :=
  match l with
  | [] => None
  | (s, z) :: l' => if start <? z then Some (l, start) else find_node l' (start - z)
  end.

Definition res_at_node (t : placement) (size : Z) (f : option (list (Z * Z) * Z)) : option amdgpu_res_cursor :=
  '(l, start) ← f;
  match l with
  | (s, z) :: _ => Some (mk_res_cursor (s + start) (Z.min (z - start) size) size l (Some t))
  | [] => None
  end.

Definition amdgpu_res_first (res : option ttm_resource) (start size : Z) : option amdgpu_res_cursor :=
  let fallback t := Some (mk_res_cursor start size size [] t) in
  match res with
  | None => fallback None
  | Some res =>
      if res_size res <? u64 (start + size) then None else
      match mem_type res with
      | PL_VRAM =>
          match blocks res with
          | [] => fallback (Some PL_VRAM)
          | l => res_at_node PL_VRAM size (find_block l start)
          end
      | PL_TT => res_at_node PL_TT size (find_node (node_bytes <$> blocks res) start)
      | PL_DOORBELL => res_at_node PL_DOORBELL size (find_node (node_bytes <$> blocks res) start)
      | t => fallback (Some t)
      end
  end.

Definition amdgpu_res_next (c : amdgpu_res_cursor) (size : Z) : option amdgpu_res_cursor :=
  if remaining c <? size then None else
  let c := c <| remaining ::= λ r, r - size |> in
  if remaining c =? 0 then Some c else
  let c := c <| cur_size ::= λ s, u64 (s - size) |> in
  if nz (cur_size c) then Some (c <| cur_start ::= λ s, u64 (s + size) |>) else
  match cur_type c with
  | Some PL_VRAM | Some PL_TT | Some PL_DOORBELL =>
      match cur_node c with
      | _ :: (s, z) :: l =>
          Some (c <| cur_node := (s, z) :: l |> <| cur_start := s |> <| cur_size := Z.min z (remaining c) |>)
      | _ => None
      end
  | Some _ => Some c
  | None => None
  end.

(** ** Runs of pages *)

(** Pages of system memory whose addresses follow each other. *)
Definition follows (pages : Z → Z) (idx : Z) : bool := pages idx =? u64 (pages (idx - 1) + AMDGPU_GPU_PAGE_SIZE).

(** The loop over [count] up to [tmp]; the fuel is [tmp - 2]. *)
Fixpoint count_run (fuel : nat) (pages : Z → Z) (contiguous : bool) (pfn count : Z) : Z :=
  match fuel with
  | O => count
  | S fuel => if negb (Bool.eqb contiguous (follows pages (pfn + count))) then count
              else count_run fuel pages contiguous pfn (count + 1)
  end.

(** The pages of the run that starts at byte [start], and whether they follow each other. *)
Definition page_run (pages : Z → Z) (start num_entries : Z) : Z * bool :=
  if 1 <? num_entries then
    let pfn := Z.shiftr start 12 in
    let contiguous := follows pages (pfn + 1) in
    let count := count_run (Z.to_nat (num_entries - 2)) pages contiguous pfn 2 in
    (if contiguous then count else count - 1, contiguous)
  else (num_entries, true).

(** The answers of the device before a range is updated: the result of entering the
    device, making room for the callback, waiting for evictions and preparing. *)
Record range_env := mk_range_env { range_begin : nat → Z }.

Section Res.
Context (adev : amdgpu_device) (gmc : gmc_funcs) (env : vm_env).

(** What a turn of the loop writes: how many pages, where, with which list. *)
Definition range_chunk (pages : option (Z → Z)) (flags vram_base : Z) (c : amdgpu_res_cursor) : Z * Z * option (Z → Z) :=
  let num_entries := Z.shiftr (cur_size c) AMDGPU_GPU_PAGE_SHIFT in
  match pages with
  | Some f =>
      let '(num_entries, contiguous) := page_run f (cur_start c) num_entries in
      if contiguous then (num_entries, f (Z.shiftr (cur_start c) 12), None)
      else (num_entries, cur_start c, Some f)
  | None =>
      if nz (Z.land flags (Z.lor AMDGPU_PTE_VALID AMDGPU_PTE_PRT)) then (num_entries, u64 (vram_base + cur_start c), None)
      else (num_entries, 0, None)
  end.

Record range_state := mk_range { r_vm : amdgpu_vm; r_params : amdgpu_vm_update_params; r_cursor : amdgpu_res_cursor; r_start : Z }.

Definition range_step (pages : option (Z → Z)) (flags vram_base : Z) (s : range_state)
    : option (range_state + amdgpu_vm * Z) :=
  let c := r_cursor s in
  if remaining c =? 0 then Some (inr (r_vm s, 0)) else
  let '(num_entries, addr, list) := range_chunk pages flags vram_base c in
  let tmp := u64 (r_start s + num_entries) in
  '(vm, p, r) ← amdgpu_vm_ptes_update adev gmc env ((r_params s) <| pages_addr := list |>) (r_vm s) (r_start s) tmp addr flags;
  if nz r then Some (inr (vm, r)) else
  c ← amdgpu_res_next c (num_entries * AMDGPU_GPU_PAGE_SIZE);
  Some (inl (mk_range vm p c tmp)).

Definition amdgpu_vm_update_range (renv : range_env) (k : nat) (vm : amdgpu_vm) (unlocked allow_override : bool)
    (start last flags offset vram_base : Z) (res : option ttm_resource) (pages : option (Z → Z)) : option (amdgpu_vm * Z) :=
  let r := range_begin renv k in
  if nz r then Some (vm, r) else
  c ← amdgpu_res_first (match pages with Some _ => None | None => res end) offset
        (u64 (u64 (last - start + 1) * AMDGPU_GPU_PAGE_SIZE));
  run_loop (range_step pages flags vram_base)
    (mk_range vm (mk_params unlocked pages allow_override false) c start).
End Res.
