(* ===== verification/VmResProof.v ===== *)
(** * Updating the pages of a resource: every page gets its own

    The cursor over the blocks of a resource, the runs of pages of system memory, and the
    loop of [amdgpu_vm_update_range]: with result 0 every page of the range is translated to
    the page of the buffer at its offset, and pages outside of it are left alone. *)

From S2P Require Import Prelude Vm VmWalk VmCursor VmDfs VmLeaf VmWrite VmFragment VmFreeing VmUpdate VmRange VmHw VmProof VmRes.
#[local] Open Scope Z_scope.
#[local] Open Scope list_scope.

(** ** The cursor *)

(** The byte of memory that is byte [off] of a list of blocks. *)
Fixpoint block_at (l : list (Z * Z)) (off : Z) : Z :=
  match l with
  | [] => off
  | (s, z) :: l => if off <? z then s + off else block_at l (off - z)
  end.
Definition total (l : list (Z * Z)) : Z := foldr (λ b n, b.2 + n) 0 l.
Definition block_ok (b : Z * Z) : Prop := 0 ≤ b.1 ∧ (4096 | b.1) ∧ 0 < b.2 ∧ (4096 | b.2) ∧ b.1 + b.2 ≤ 2 ^ 48.

Definition res_blocks (res : option ttm_resource) : list (Z * Z) :=
  match res with
  | Some r => match mem_type r with
              | PL_VRAM => blocks r
              | PL_TT | PL_DOORBELL => node_bytes <$> blocks r
              | _ => []
              end
  | None => []
  end.
Definition res_byte (res : option ttm_resource) (off : Z) : Z := block_at (res_blocks res) off.

(** A range of a resource that can be walked. *)
Record walkable (res : option ttm_resource) (offset size : Z) : Prop := {
  wk_offset : 0 ≤ offset ∧ (4096 | offset);
  wk_size : 0 < size ∧ (4096 | size) ∧ offset + size ≤ 2 ^ 48;
  wk_res r : res = Some r → offset + size ≤ res_size r;
  wk_blocks r : res = Some r → mem_type r = PL_VRAM ∨ mem_type r = PL_TT ∨ mem_type r = PL_DOORBELL →
    Forall block_ok (res_blocks res) ∧ total (res_blocks res) = res_size r;
}.

Lemma total_nonneg l : Forall block_ok l → 0 ≤ total l.
Proof. induction 1 as [|b l (_ & _ & ? & _) _ IH]; cbn; [lia|]. unfold total in IH. lia. Qed.

(** The cursor is at byte [o], with [rem] bytes to go. *)
Record cursor_ok (loc : Z → Z) (o rem : Z) (c : amdgpu_res_cursor) : Prop := {
  co_rem : remaining c = rem;
  co_size : 0 < cur_size c ≤ rem ∧ (4096 | cur_size c);
  co_start : 0 ≤ cur_start c ∧ (4096 | cur_start c) ∧ cur_start c + cur_size c ≤ 2 ^ 48;
  co_loc j : 0 ≤ j < cur_size c → loc (o + j) = cur_start c + j;
  co_node : (cur_size c = rem) ∨ ∃ t s z l b, cur_type c = Some t ∧ t ∈ [PL_VRAM; PL_TT; PL_DOORBELL] ∧ cur_node c = (s, z) :: l ∧
    Forall block_ok ((s, z) :: l) ∧ 0 ≤ o - b < z ∧ cur_start c = s + (o - b) ∧ cur_size c = Z.min (z - (o - b)) rem ∧
    o + rem - b ≤ total ((s, z) :: l) ∧ ∀ j, 0 ≤ j → loc (b + j) = block_at ((s, z) :: l) j;
}.

Lemma node_ok loc t s z l o b rem : t ∈ [PL_VRAM; PL_TT; PL_DOORBELL] → Forall block_ok ((s, z) :: l) → 0 ≤ o - b < z → 0 < rem →
  (4096 | o - b) → (4096 | rem) → o + rem - b ≤ total ((s, z) :: l) → (∀ j, 0 ≤ j → loc (b + j) = block_at ((s, z) :: l) j) →
  cursor_ok loc o rem (mk_res_cursor (s + (o - b)) (Z.min (z - (o - b)) rem) rem ((s, z) :: l) (Some t)).
Proof.
  intros Ht HF Ho Hrem Hd1 Hd2 Htot Hloc. pose proof HF as [(B1 & B2 & B3 & B4 & B5) _]%Forall_cons. simpl in *. split; cbn.
  - done.
  - split; [lia|]. apply Z.min_case; [|done]. by apply Z.divide_sub_r.
  - split; [lia|]. split; [by apply Z.divide_add_r|lia].
  - intros j Hj. replace (o + j) with (b + (o - b + j)) by lia. rewrite Hloc by lia. rewrite (proj2 (Z.ltb_lt _ _)) by lia. lia.
  - right. exists t, s, z, l, b. split_and!; try done; lia.
Qed.

Lemma find_block_ok l start : Forall block_ok l → 0 ≤ start < total l →
  ∃ s z l' b, find_block l start = Some ((s, z) :: l', start - b) ∧ find_node l start = Some ((s, z) :: l', start - b) ∧
    Forall block_ok ((s, z) :: l') ∧ 0 ≤ b ∧ (4096 | b) ∧ 0 ≤ start - b < z ∧ total l = b + total ((s, z) :: l') ∧
    ∀ j, 0 ≤ j → block_at l (b + j) = block_at ((s, z) :: l') j.
Proof.
  revert start. induction l as [|[s z] l IH]; intros start HF Hs; [cbn in Hs; lia|].
  pose proof HF as [(B1 & B2 & B3 & B4 & B5) HF']%Forall_cons. cbn in B1, B2, B3, B4, B5, Hs. cbn [find_block find_node].
  destruct (Z.ltb_spec start z) as [Hlt|Hge].
  - exists s, z, l, 0. rewrite Z.sub_0_r. split_and!; try done; try lia. apply Z.divide_0_r.
  - change (foldr (λ b n, b.2 + n) 0 l) with (total l) in Hs.
    destruct (IH (start - z) HF' ltac:(lia)) as (s' & z' & l' & b & F1 & F2 & F3 & F4 & F5 & F6 & F7 & F8).
    assert (l ≠ []) by (intros ->; cbn in Hs; lia). exists s', z', l', (b + z).
    replace (start - (b + z)) with (start - z - b) by lia. rewrite F1, F2. split_and!; try done; try lia.
    + by destruct l.
    + by apply Z.divide_add_r.
    + change (total ((s, z) :: l)) with (z + total l). lia.
    + intros j Hj. rewrite <- F8 by done. cbn [block_at]. rewrite (proj2 (Z.ltb_ge _ _)) by lia. f_equal. lia.
Qed.

Lemma res_first_ok res offset size : walkable res offset size →
  ∃ c, amdgpu_res_first res offset size = Some c ∧ cursor_ok (res_byte res) offset size c.
Proof.
  intros [[H1 H2] (H3 & H4 & H5) Hr Hb].
  assert (Hfall : ∀ t, res_blocks res = [] → cursor_ok (res_byte res) offset size (mk_res_cursor offset size size [] t)).
  { intros t Hnil. split; cbn; [done|split; [lia|done]|split_and!; [lia|done|lia]| |by left].
    intros j Hj. unfold res_byte. rewrite Hnil. done. }
  unfold amdgpu_res_first. destruct res as [r|]; [|eexists; split; [done|by apply Hfall]].
  pose proof (Hr r eq_refl) as Hsz. rewrite wrap_small by (unfold in_width; lia). rewrite (proj2 (Z.ltb_ge _ _)) by lia.
  assert (Hnode : ∀ t f, t ∈ [PL_VRAM; PL_TT; PL_DOORBELL] → mem_type r = t → f (res_blocks (Some r)) offset = find_block (res_blocks (Some r)) offset ∨
      f (res_blocks (Some r)) offset = find_node (res_blocks (Some r)) offset →
      ∃ c, res_at_node t size (f (res_blocks (Some r)) offset) = Some c ∧ cursor_ok (res_byte (Some r)) offset size c).
  { intros t f Ht Hmt Hf. destruct (Hb r eq_refl) as [HF Htot]; [rewrite Hmt; set_solver|].
    destruct (find_block_ok _ offset HF ltac:(lia)) as (s & z & l & b & F1 & F2 & F3 & F4 & F5 & F6 & F7 & F8).
    rewrite F1, F2 in Hf. destruct Hf as [-> | ->]; cbn [res_at_node mbind option_bind]; eexists; (split; [done|]);
      (apply node_ok; try done; [by apply Z.divide_sub_r|lia]). }
  pose proof (Hb r eq_refl) as Hb'. destruct (mem_type r) eqn:Hmt; try (eexists; split; [done|]; apply Hfall; by cbn [res_blocks]; rewrite Hmt).
  - specialize (Hnode PL_TT (λ l _, find_node l offset)). cbn [res_blocks] in Hnode. rewrite Hmt in Hnode. apply Hnode; [set_solver|done|by right].
  - specialize (Hnode PL_VRAM (λ l _, find_block l offset)). cbn [res_blocks] in Hnode, Hb'. rewrite Hmt in Hnode, Hb'.
    destruct (Hb' ltac:(by left)) as [_ Htot]. destruct (blocks r) as [|b0 l0] eqn:Hl; [cbn in Htot; lia|]. apply Hnode; [set_solver|done|by left].
  - specialize (Hnode PL_DOORBELL (λ l _, find_node l offset)). cbn [res_blocks] in Hnode. rewrite Hmt in Hnode. apply Hnode; [set_solver|done|by right].
Qed.

Lemma res_next_ok loc o rem c k : cursor_ok loc o rem c → 0 < k ≤ cur_size c → (4096 | k) → (4096 | rem) →
  ∃ c', amdgpu_res_next c k = Some c' ∧ remaining c' = rem - k ∧ (k < rem → cursor_ok loc (o + k) (rem - k) c').
Proof.
  intros [C1 [C2 C3] (C4 & C5 & C6) C7 C8] Hk Hdk Hdr. unfold amdgpu_res_next. rewrite C1. rewrite (proj2 (Z.ltb_ge _ _)) by lia.
  set (c1 := c <| remaining ::= λ r, r - k |>). change (remaining c1) with (remaining c - k). rewrite C1.
  destruct (Z.eqb_spec (rem - k) 0) as [Hz|Hnz].
  { exists c1. split; [done|]. split; [change (remaining c1) with (remaining c - k); lia|lia]. }
  set (c2 := c1 <| cur_size ::= λ s, u64 (s - k) |>).
  assert (Hcs : cur_size c2 = cur_size c - k) by (change (cur_size c2) with (u64 (cur_size c - k)); apply wrap_small; unfold in_width; lia).
  rewrite Hcs. unfold nz. destruct (Z.eqb_spec (cur_size c - k) 0) as [Hz|Hn0]; cbn [negb].
  - destruct C8 as [C8|(t & s & z & l & b & T1 & T2 & T3 & T4 & T5 & T6 & T7 & T8 & T9)]; [lia|].
    change (cur_type c2) with (cur_type c). change (cur_node c2) with (cur_node c). rewrite T1, T3.
    assert (Hz1 : z = o + k - b) by lia. destruct l as [|[s' z'] l].
    { change (total [(s, z)]) with (z + 0) in T8. lia. }
    exists (mk_res_cursor (s' + (o + k - (o + k))) (Z.min (z' - (o + k - (o + k))) (rem - k)) (rem - k) ((s', z') :: l) (Some t)).
    pose proof T4 as [_ [(_ & _ & ? & _) _]%Forall_cons]%Forall_cons. cbn [snd] in *.
    split.
    + change (remaining c2) with (remaining c - k). rewrite C1, !Z.sub_diag, Z.add_0_r, Z.sub_0_r.
      assert (Hc : Some (c2 <| cur_node := (s', z') :: l |> <| cur_start := s' |> <| cur_size := Z.min z' (rem - k) |>) =
        Some (mk_res_cursor s' (Z.min z' (rem - k)) (rem - k) ((s', z') :: l) (Some t))).
      { unfold c2, c1. destruct c; cbn in *. by subst. }
      destruct t; try exact Hc; exfalso; set_solver.
    + split; [done|]. intros _. apply node_ok; try done.
      * by apply Forall_cons in T4 as [_ T4].
      * lia.
      * lia.
      * rewrite Z.sub_diag. apply Z.divide_0_r.
      * by apply Z.divide_sub_r.
      * change (total ((s, z) :: (s', z') :: l)) with (z + total ((s', z') :: l)) in T8. lia.
      * intros j Hj. replace (o + k + j) with (b + (z + j)) by lia. rewrite T9 by lia. cbn [block_at].
        rewrite (proj2 (Z.ltb_ge (z + j) z)) by lia. replace (z + j - z) with j by lia. done.
  - exists (c2 <| cur_start ::= λ s, u64 (s + k) |>). split; [done|]. split; [change (remaining c - k = rem - k); lia|]. intros _.
    assert (Hst : u64 (cur_start c + k) = cur_start c + k) by (apply wrap_small; unfold in_width; lia).
    split; change (cur_size (c2 <| cur_start ::= λ s, u64 (s + k) |>)) with (cur_size c2); change (cur_start (c2 <| cur_start ::= λ s, u64 (s + k) |>)) with (u64 (cur_start c + k));
      rewrite ?Hcs, ?Hst.
    + change (remaining c - k = rem - k). lia.
    + split; [lia|by apply Z.divide_sub_r].
    + split_and!; [lia|by apply Z.divide_add_r|lia].
    + intros j Hj. rewrite <- Z.add_assoc, C7 by lia. lia.
    + destruct C8 as [C8|(t & s & z & l & b & T1 & T2 & T3 & T4 & T5 & T6 & T7 & T8 & T9)]; [left; lia|right].
      exists t, s, z, l, b. split_and!; try done; lia.
Qed.

(** ** Runs of pages *)

Lemma count_run_spec fuel pages contiguous pfn count : let r := count_run fuel pages contiguous pfn count in
  count ≤ r ≤ count + Z.of_nat fuel ∧ ∀ i, count ≤ i < r → follows pages (pfn + i) = contiguous.
Proof.
  revert count. induction fuel as [|fuel IH]; intros count; cbn [count_run].
  - split; [lia|lia].
  - destruct (Bool.eqb contiguous (follows pages (pfn + count))) eqn:He; cbn [negb]; [|split; [lia|lia]].
    destruct (IH (count + 1)) as [H1 H2]. split; [lia|]. intros i Hi. destruct (decide (i = count)) as [->|]; [|apply H2; lia].
    apply Bool.eqb_prop in He. done.
Qed.

Lemma page_run_spec pages start num : 0 < num → (∀ i, 0 ≤ i < num → 0 ≤ pages (start / 4096 + i) < 2 ^ 48) →
  let '(n, contiguous) := page_run pages start num in
  0 < n ≤ num ∧ (contiguous = true → ∀ i, 0 ≤ i < n → pages (start / 4096 + i) = pages (start / 4096) + i * 4096).
Proof.
  intros Hnum Hp. unfold page_run. rewrite Z.shiftr_div_pow2 by lia. change (2 ^ 12) with 4096. set (pfn := start / 4096) in *.
  destruct (Z.ltb_spec 1 num) as [Hlt|Hge].
  - destruct (count_run_spec (Z.to_nat (num - 2)) pages (follows pages (pfn + 1)) pfn 2) as [H1 H2].
    set (r := count_run _ _ _ _ _) in *. destruct (follows pages (pfn + 1)) eqn:Hf; (split; [lia|]); [|done]. intros _.
    assert (Hstep : ∀ i, 0 < i < r → pages (pfn + i) = pages (pfn + (i - 1)) + 4096).
    { intros i Hi. assert (Hfi : follows pages (pfn + i) = true) by (destruct (decide (i = 1)) as [->|]; [done|apply H2; lia]).
      unfold follows in Hfi. apply Z.eqb_eq in Hfi. rewrite Hfi. replace (pfn + i - 1) with (pfn + (i - 1)) by lia.
      unfold AMDGPU_GPU_PAGE_SIZE. apply wrap_small. unfold in_width. pose proof (Hp (i - 1) ltac:(lia)). lia. }
    intros i [Hi Hir]. revert Hir. revert i Hi. apply (natlike_ind (λ i, i < r → _)).
    + intros _. by rewrite Z.add_0_r, Z.mul_0_l, Z.add_0_r.
    + intros i Hi IH Hr. rewrite Hstep by lia. replace (Z.succ i - 1) with i by lia. rewrite IH by lia. lia.
  - split; [lia|]. intros _ i Hi. replace i with 0 by lia. by rewrite Z.add_0_r, Z.mul_0_l, Z.add_0_r.
Qed.

(** ** A range *)

Section Range.
Context (adev : amdgpu_device) (gmc : gmc_funcs) (env : vm_env) (renv : range_env) (G : gfx9 adev gmc env).
Abbreviation depth := (depth adev).
Abbreviation sh := (sh adev).
Abbreviation cell := (cell adev).
Abbreviation nextb := (nextb adev).
Abbreviation limit := (limit adev).
Abbreviation leaf := (leaf adev).
Abbreviation kept := (kept adev).
Abbreviation vm_ok := (vm_ok adev gmc env).

(** Devices with four levels of tables and addresses of 48 bits. *)
Record wide : Prop := {
  wd_root : root_level adev = 0;
  wd_limit : limit ≤ 2 ^ 36;
  wd_noretry : no_address (noretry_flags adev);
}.
Context (D : wide).

(** [flags] make an entry that gives an address. *)
Definition mapping_flags (flags : Z) : bool := nz (Z.land flags (Z.lor AMDGPU_PTE_VALID AMDGPU_PTE_PRT)).

(** Page [i] of a range from byte [offset] of a buffer. *)
Definition page_loc (vram_base : Z) (res : option ttm_resource) (pages : option (Z → Z)) (offset i : Z) : Z :=
  match pages with Some f => f (offset / 4096 + i) | None => vram_base + res_byte res (offset + i * 4096) end.

(** [x] has an entry of an update with [flags], all of whose pages are from [lo] to [hi];
    it gives the page [a]. *)
Definition entry_for (flags lo hi a : Z) (vm : amdgpu_vm) (x : Z) : Prop :=
  ∃ n v f b, (n ≤ depth)%nat ∧ lo ≤ cell n x * 2 ^ sh n ∧ nextb n x ≤ hi ∧ leaf vm n x v ∧
    v = amdgpu_gmc_set_pte_pde b (pte_flags adev flags n f) ∧ (mapping_flags flags = true → page_of adev n v x = a).

Lemma entry_for_leaf flags lo hi a vm vm' x : (∀ n v, leaf vm n x v → nextb n x ≤ hi → leaf vm' n x v) → entry_for flags lo hi a vm x → entry_for flags lo hi a vm' x.
Proof. intros Ha (n & v & f & b & H1 & H2 & H3 & H4 & H5). exists n, v, f, b. auto 10. Qed.

Lemma entry_for_grow flags lo lo' hi hi' a vm x : lo' ≤ lo → hi ≤ hi' → entry_for flags lo hi a vm x → entry_for flags lo' hi' a vm x.
Proof. intros Hl Hh (n & v & f & b & H1 & H2 & H3 & H4 & H5). exists n, v, f, b. split_and!; (done || lia || apply H5). Qed.

Lemma kept_trans s e s' e' vm0 vm1 vm2 x : s ≤ s' → e' ≤ e → kept s e vm0 vm1 x → kept s' e' vm1 vm2 x → kept s e vm0 vm2 x.
Proof.
  intros Hs He H1 H2 m v Hl. destruct (H1 m v Hl) as [Hl1|(k & Hk & Hk1 & Hk2 & Hl1)]; destruct (H2 _ _ Hl1) as [Hl2|(k2 & Hj & Hj1 & Hj2 & Hl2)].
  - by left.
  - right. exists k2. split_and!; (done || lia).
  - right. exists k. split_and!; (done || lia).
  - right. exists k2. split_and!; (done || lia).
Qed.

Lemma kept_refl s e vm x : kept s e vm vm x.
Proof. intros m v Hl. by left. Qed.

(** A request to [amdgpu_vm_update_range]. *)
Context (ao : bool) (start last flags offset vram_base : Z) (res : option ttm_resource) (pages : option (Z → Z)).
Abbreviation loc := (page_loc vram_base res pages offset).
Abbreviation size := ((last + 1 - start) * 4096).
Abbreviation the_res := (match pages with Some _ => None | None => res end).

Record range_req : Prop := {
  rr_range : 0 ≤ start ≤ last ∧ last < limit;
  rr_incr n : (n ≤ depth)%nat → sh n ≤ 19 ∨ last + 1 - start < 2 ^ (sh n + 1);
  rr_override : override_vm_pte_flags gmc = None ∨ ao = false;
  rr_flags : no_address flags;
  rr_walk : walkable the_res offset size;
  rr_loc i : mapping_flags flags = true ∨ pages ≠ None → 0 ≤ i < last + 1 - start → 0 ≤ loc i < 2 ^ 48 ∧ (4096 | loc i);
}.
Context (Rq : range_req).

Context (vm0 : amdgpu_vm).

(** The pages up to [hi] are done. *)
Record done_to (vm : amdgpu_vm) (hi : Z) : Prop := {
  dn_ok : vm_ok vm;
  dn_pages x : start ≤ x < hi → entry_for flags start hi (loc (x - start)) vm x;
  dn_kept x : 0 ≤ x < limit → ¬ start ≤ x ≤ last → kept start (last + 1) vm0 vm x;
}.

Definition range_outcome (s : amdgpu_vm * Z) : Prop :=
  (s.2 = 0 ∧ done_to s.1 (last + 1)) ∨
  (s.2 ≠ 0 ∧ (∃ k, s.2 = bo_create env k ∨ s.2 = range_begin renv k) ∧ ∃ hi, start ≤ hi ≤ last ∧ done_to s.1 hi) ∨
  clear_error env s.2.

Lemma sh_depth_only n : (n ≤ depth)%nat → sh n ≤ 0 → n = depth.
Proof.
  intros Hn Hs. destruct (decide (n = depth)) as [|Hne]; [done|exfalso]. pose proof (g9_device _ _ _ G) as Hok.
  rewrite (sh_dir adev Hok) in Hs by lia. pose proof (ok_block _ Hok). unfold lev, VmWalk.depth in *. lia.
Qed.

(** The entries of one chunk: [n] pages of the range from [i] on are mapped from [dst]. *)
Lemma chunk_entry vm i n dst list hi x : 0 ≤ i → 0 < n → i + n ≤ last + 1 - start → range_ok adev (start + i) (start + i + n) dst →
  match list with
  | None => mapping_flags flags = true → ∀ j, 0 ≤ j < n → loc (i + j) = dst + j * 4096
  | Some f => pages = Some f ∧ dst = offset + i * 4096
  end →
  hi ≤ start + i + n → placed adev list (start + i) dst flags vm hi x → start + i ≤ x < hi → entry_for flags start hi (loc (x - start)) vm x.
Proof.
  intros Hi Hn Hin R Hlist Hhi (m & f & Hm & Hlo & Hnb & (F1 & F2 & _) & Hl) Hx. pose proof (g9_device _ _ _ G) as Hok.
  pose proof (rr_flags Rq) as Hfl. pose proof (wd_noretry D) as Hnr.
  destruct list as [g|].
  - destruct Hlist as [Hp Hd]. destruct F2 as [F2|F2]; [done|]. assert (m = depth) as -> by (apply sh_depth_only; [done|change (VmWalk.sh adev m) with (sh m) in F1; lia]).
    assert (Hs0 : sh depth = 0) by apply (sh_depth adev Hok). assert (Hc : cell depth x * 2 ^ sh depth = x) by (unfold VmWalk.cell; change (VmWalk.sh adev) with sh; rewrite Hs0, Z.pow_0_r, Z.div_1_r; lia).
    do 4 eexists. split; [done|]. split; [change (VmWalk.cell adev depth x * 2 ^ VmWalk.sh adev depth) with (cell depth x * 2 ^ sh depth) in *; lia|]. split; [done|]. split; [exact Hl|]. split; [reflexivity|].
    intros _. change (VmWalk.cell adev depth x * 2 ^ VmWalk.sh adev depth) with (cell depth x * 2 ^ sh depth). rewrite Hc. unfold page_of, pte_value.
    assert (Hda : daddr (start + i) dst x = offset + (x - start) * 4096) by (unfold daddr; lia). rewrite Hda.
    pose proof (rr_loc Rq (x - start) ltac:(right; by rewrite Hp) ltac:(lia)) as [Hb Ha]. unfold page_loc in Hb, Ha |- *. rewrite Hp in Hb, Ha |- *.
    pose proof (wk_offset _ _ _ (rr_walk Rq)) as [Ho0 [q Hq]].
    assert (Hgart : amdgpu_vm_map_gart g (offset + (x - start) * 4096) = g (offset / 4096 + (x - start))).
    { unfold amdgpu_vm_map_gart. rewrite Z.shiftr_div_pow2 by lia. change (2 ^ 12) with 4096. rewrite Hq.
      replace (q * 4096 + (x - start) * 4096) with ((q + (x - start)) * 4096) by lia. rewrite !Z.div_mul by lia.
      change 0xfff with (Z.ones 12). rewrite Z.land_ones by lia. change (2 ^ 12) with 4096. rewrite Z.mod_mul, Z.lor_0_r by lia.
      rewrite Hq, Z.div_mul in Hb, Ha by lia. set (a := g (q + (x - start))) in *. destruct Ha as [u Hu].
      apply Z.bits_inj'. intros j Hj. rewrite Z.land_spec. destruct (decide (j < 12)) as [Hlt|Hge].
      - rewrite Hu. replace (u * 4096) with (u * 2 ^ 12) by lia. by rewrite Z.mul_pow2_bits_low by lia.
      - destruct (decide (j < 64)) as [Hlt|Hge'].
        + change 0xFFFFFFFFFFFFF000 with (Z.shiftl (Z.ones 52) 12). rewrite Z.shiftl_spec, Z.ones_spec_low by lia. by rewrite andb_true_r.
        + destruct (decide (a = 0)) as [->|Ha0]; [by rewrite Z.bits_0|]. rewrite (Z.bits_above_log2 a j); [done|lia|].
          assert (Z.log2 a < 48) by (apply Z.log2_lt_pow2; lia). lia. }
    rewrite Hgart. rewrite set_pte_address; [|done|done|by apply pte_flags_no_address].
    change (VmWalk.sh adev depth) with (sh depth). rewrite Hs0, Z.pow_0_r, Z.mod_1_r. lia.
  - do 4 eexists. split; [done|]. split; [|split; [done|]]. { change (VmWalk.cell adev m x * 2 ^ VmWalk.sh adev m) with (cell m x * 2 ^ sh m) in *. lia. }
    split; [exact Hl|]. split; [reflexivity|]. intros Hmf.
    pose proof (placed_page adev gmc env G (start + i) (start + i + n) dst flags m x f R Hfl Hnr Hm Hlo ltac:(lia)) as Hpage.
    unfold pte_value in Hpage. etrans; [exact Hpage|]. rewrite <- (Hlist Hmf (x - (start + i))) by lia. f_equal. lia.
Qed.

(** One chunk after those up to [i]. *)
Lemma chunk_done vm vm' i n dst list hi : 0 ≤ i → 0 < n → i + n ≤ last + 1 - start → range_ok adev (start + i) (start + i + n) dst →
  match list with
  | None => mapping_flags flags = true → ∀ j, 0 ≤ j < n → loc (i + j) = dst + j * 4096
  | Some f => pages = Some f ∧ dst = offset + i * 4096
  end →
  done_to vm (start + i) → progress adev gmc env list (start + i) (start + i + n) dst flags vm vm' hi → start + i ≤ hi ≤ start + i + n → done_to vm' hi.
Proof.
  intros Hi Hn Hin R Hlist [D1 D2 D3] P Hhi. pose proof (rr_range Rq) as Hr. pose proof (g9_device _ _ _ G) as Hok. split.
  - by eapply progress_ok.
  - intros x Hx. destruct (decide (x < start + i)) as [Hlt|Hge].
    + apply (entry_for_grow flags start start (start + i) hi); [done|lia|]. eapply entry_for_leaf; [|apply D2; lia].
      intros m v Hl Hnb. destruct (pg_kept _ _ _ _ _ _ _ _ _ _ _ P x ltac:(lia) ltac:(lia) m v Hl) as [|(k & _ & Hc & _)]; [done|].
      change (VmWalk.nextb adev m x) with (nextb m x) in Hc. lia.
    + apply (chunk_entry vm' i n dst list hi x); try done; try lia. by apply (pg_placed _ _ _ _ _ _ _ _ _ _ _ P); lia.
  - intros x Hx Hout. apply (kept_trans start (last + 1) (start + i) (start + i + n) vm0 vm vm' x); [lia|lia|by apply D3|].
    apply (pg_kept _ _ _ _ _ _ _ _ _ _ _ P); [done|lia].
Qed.

Lemma chunk_range_ok i n dst : 0 ≤ i → 0 < n → i + n ≤ last + 1 - start → 0 ≤ dst → (4096 | dst) → dst + n * 4096 ≤ 2 ^ 48 →
  range_ok adev (start + i) (start + i + n) dst.
Proof.
  intros Hi Hn Hin Hd Ha Hb. pose proof (rr_range Rq) as Hr. split; [split; [lia|change (VmWalk.limit adev) with limit; lia]|done|lia|].
  intros m Hm. destruct (rr_incr Rq m Hm) as [|Hlt]; [by left|right]. change (VmWalk.sh adev m) with (sh m). lia.
Qed.

Lemma below_page a : (4096 | a) → a < 2 ^ 48 → a + 4096 ≤ 2 ^ 48.
Proof. intros [q ->] Ha. lia. Qed.

Lemma range_chunk_spec c i : 0 ≤ i < last + 1 - start → cursor_ok (res_byte the_res) (offset + i * 4096) (size - i * 4096) c →
  let '(n, dst, list) := range_chunk pages flags vram_base c in
  0 < n ∧ i + n ≤ last + 1 - start ∧ n * 4096 ≤ cur_size c ∧ range_ok adev (start + i) (start + i + n) dst ∧
  match list with
  | None => mapping_flags flags = true → ∀ j, 0 ≤ j < n → loc (i + j) = dst + j * 4096
  | Some f => pages = Some f ∧ dst = offset + i * 4096
  end.
Proof.
  intros Hi [C1 [C2 [k C3]] (C4 & C5 & C6) C7 _]. pose proof (rr_range Rq) as Hr. pose proof (wk_offset _ _ _ (rr_walk Rq)) as [Ho0 Hoa].
  pose proof (wk_size _ _ _ (rr_walk Rq)) as (_ & _ & Hos). unfold range_chunk. change AMDGPU_GPU_PAGE_SHIFT with 12.
  rewrite Z.shiftr_div_pow2 by lia. change (2 ^ 12) with 4096. rewrite C3, Z.div_mul by lia. rewrite C3 in C2, C6.
  pose proof (C7 0 ltac:(lia)) as Hstart. rewrite !Z.add_0_r in Hstart.
  pose proof (rr_loc Rq) as Hloc. destruct pages as [f|] eqn:Hp.
  - assert (Hcs : cur_start c = offset + i * 4096) by (rewrite <- Hstart; done). rewrite Hcs.
    assert (Hdiv : (offset + i * 4096) / 4096 = offset / 4096 + i) by (rewrite Z.div_add by lia; done).
    assert (Hpg : ∀ j, 0 ≤ j < last + 1 - start - i → 0 ≤ f ((offset + i * 4096) / 4096 + j) < 2 ^ 48 ∧ (4096 | f ((offset + i * 4096) / 4096 + j))).
    { intros j Hj. rewrite Hdiv, <- Z.add_assoc. apply (Hloc (i + j)); [by right|lia]. }
    pose proof (page_run_spec f (offset + i * 4096) k ltac:(lia)) as Hrun.
    destruct (page_run f (offset + i * 4096) k) as [n contiguous]. destruct Hrun as [Hn Hc]; [intros j Hj; apply Hpg; lia|].
    rewrite Z.shiftr_div_pow2 by lia. change (2 ^ 12) with 4096. destruct contiguous.
    + split_and!; try lia.
      * pose proof (Hpg (n - 1) ltac:(lia)) as [Hl1 Hl2]. pose proof (Hpg 0 ltac:(lia)) as [Hf1 Hf2]. rewrite Z.add_0_r in Hf1, Hf2.
        pose proof (below_page _ Hl2 ltac:(lia)) as Hbp. rewrite (Hc eq_refl (n - 1)) in Hbp by lia. apply chunk_range_ok; (done || lia).
      * intros _ j Hj. unfold page_loc. rewrite <- (Hc eq_refl j) by lia. f_equal. rewrite Hdiv. lia.
    + split_and!; try done; try lia. apply chunk_range_ok; try done; try lia. apply Z.divide_add_r; [done|apply Z.divide_factor_r].
  - change (nz (Z.land flags (Z.lor AMDGPU_PTE_VALID AMDGPU_PTE_PRT))) with (mapping_flags flags). destruct (mapping_flags flags) eqn:Hm.
    + assert (Hl : ∀ j, 0 ≤ j < k → page_loc vram_base res None offset (i + j) = vram_base + cur_start c + j * 4096).
      { intros j Hj. unfold page_loc. replace (offset + (i + j) * 4096) with (offset + i * 4096 + j * 4096) by lia.
        rewrite C7 by lia. lia. }
      pose proof (Hloc i ltac:(by left) ltac:(lia)) as [Hf1 Hf2]. pose proof (Hl 0 ltac:(lia)) as Hl0. rewrite Z.add_0_r in Hl0. rewrite Hl0 in Hf1, Hf2.
      pose proof (Hloc (i + (k - 1)) ltac:(by left) ltac:(lia)) as [Hl1 Hl2]. rewrite Hl in Hl1, Hl2 by lia. pose proof (below_page _ Hl2 ltac:(lia)) as Hbp.
      rewrite Z.mul_0_l, Z.add_0_r in Hf1, Hf2. rewrite (wrap_small 64 (vram_base + cur_start c)) by (unfold in_width; lia).
      split_and!; try lia; [apply chunk_range_ok; (done || lia)|]. intros _ j Hj. rewrite Hl by lia. lia.
    + pose proof (wd_limit D). split_and!; try lia. apply chunk_range_ok; try lia. apply Z.divide_0_r.
Qed.

(** The loop. *)
Record range_inv (s : range_state) : Prop := {
  ri_params : ∃ list tf, r_params s = mk_params false list ao tf;
  ri_place : start ≤ r_start s ≤ last + 1;
  ri_done : done_to (r_vm s) (r_start s);
  ri_rem : remaining (r_cursor s) = (last + 1 - r_start s) * 4096;
  ri_cursor : r_start s ≤ last → cursor_ok (res_byte the_res) (offset + (r_start s - start) * 4096) (size - (r_start s - start) * 4096) (r_cursor s);
}.

Lemma range_turn s : range_inv s → ∃ r, range_step adev gmc env pages flags vram_base s = Some r ∧
  match r with inl s' => range_inv s' ∧ 0 ≤ last + 1 - r_start s' < last + 1 - r_start s | inr o => range_outcome o end.
Proof.
  intros [(l0 & tf & I1) I2 I3 I4 I5]. pose proof (rr_range Rq) as Hr. pose proof (wk_size _ _ _ (rr_walk Rq)) as (_ & _ & Hos). pose proof (wk_offset _ _ _ (rr_walk Rq)) as [Ho0 _].
  unfold range_step. rewrite I4. destruct (Z.eqb_spec ((last + 1 - r_start s) * 4096) 0) as [Hz|Hnz].
  { eexists. split; [done|]. left. split; [done|]. simpl. by replace (last + 1) with (r_start s) by lia. }
  pose proof (I5 ltac:(lia)) as C. set (i := r_start s - start) in *. assert (Hs : r_start s = start + i) by (unfold i; lia).
  pose proof (range_chunk_spec (r_cursor s) i ltac:(unfold i; lia) C) as Hch.
  destruct (range_chunk pages flags vram_base (r_cursor s)) as [[n dst] list]. destruct Hch as (Hn & Hin & Hnc & R & Hlist).
  rewrite Hs, wrap_small by (pose proof (limit_bounds adev (g9_device _ _ _ G)); unfold in_width, i in *; lia).
  assert (Hp : (r_params s) <| pages_addr := list |> = mk_params false list ao tf) by by rewrite I1. rewrite Hp.
  assert (Rc : request adev gmc list ao (start + i) (start + i + n) dst) by (split; [done|left; apply (wd_root D)|apply (rr_override Rq)]).
  destruct (update_total adev gmc env G list ao tf _ _ _ flags (r_vm s) (dn_ok _ _ I3) Rc) as (vm' & p' & r & Hu & Hres).
  pose proof (update_params adev gmc env G _ _ _ _ _ _ _ _ _ _ _ (dn_ok _ _ I3) Rc Hu) as Hp'.
  rewrite Hu, Some_bind. rewrite Hs in I3. destruct Hres as [[-> P]|[[[Hne [k Hk]] (hi & Hhi & P)]|[Hne Hk]]].
  - change (nz 0) with false. cbv iota.
    destruct (res_next_ok _ _ _ _ (n * 4096) C ltac:(lia)) as (c' & Hc' & Hrem & Hco); [apply Z.divide_factor_r|exists (last + 1 - start - i); lia|].
    change (n * AMDGPU_GPU_PAGE_SIZE) with (n * 4096). rewrite Hc', Some_bind. eexists. split; [done|]. cbv iota beta. split; [|simpl; lia].
    split; cbn [r_params r_start r_vm r_cursor]; [by exists list|lia| |lia|].
    + apply (chunk_done (r_vm s) vm' i n dst list); (done || lia).
    + intros Hle. replace (start + i + n - start) with (i + n) by lia.
      replace (offset + (i + n) * 4096) with (offset + i * 4096 + n * 4096) by lia. replace (size - (i + n) * 4096) with (size - i * 4096 - n * 4096) by lia.
      apply Hco. lia.
  - unfold nz. rewrite (proj2 (Z.eqb_neq _ _) Hne). cbn [negb]. eexists. split; [done|]. right. left. split; [done|]. split; [exists k; by left|].
    exists hi. split; [lia|]. apply (chunk_done (r_vm s) vm' i n dst list); (done || lia).
  - unfold nz. rewrite (proj2 (Z.eqb_neq _ _) Hne). cbn [negb]. eexists. split; [done|]. right. right. by split.
Qed.

Lemma done_start : vm_ok vm0 → done_to vm0 start.
Proof. intros V. split; [done|lia|]. intros x _ _. apply kept_refl. Qed.

Lemma update_range_spec k : vm_ok vm0 →
  ∃ vm' r, amdgpu_vm_update_range adev gmc env renv k vm0 false ao start last flags offset vram_base res pages = Some (vm', r) ∧
    range_outcome (vm', r).
Proof.
  intros V. pose proof (rr_range Rq) as Hr. pose proof (wd_limit D). pose proof (done_start V) as H0. unfold amdgpu_vm_update_range.
  destruct (decide (range_begin renv k = 0)) as [->|Hne].
  2:{ unfold nz. rewrite (proj2 (Z.eqb_neq _ _) Hne). cbn [negb]. do 2 eexists. split; [done|]. right. left. split; [done|].
      split; [exists k; by right|]. exists start. split; [lia|done]. }
  change (nz 0) with false. cbv iota. destruct (res_first_ok _ _ _ (rr_walk Rq)) as (c & Hc & C).
  assert (Hsz : u64 (u64 (last - start + 1) * AMDGPU_GPU_PAGE_SIZE) = size).
  { unfold AMDGPU_GPU_PAGE_SIZE. rewrite (wrap_small 64 (last - start + 1)) by (unfold in_width; lia). rewrite wrap_small; [lia|unfold in_width; lia]. }
  rewrite Hsz, Hc, Some_bind.
  destruct (run_loop_spec (range_step adev gmc env pages flags vram_base) range_inv range_outcome (λ s, last + 1 - r_start s)
    (mk_range vm0 (mk_params false pages ao false) c start) range_turn) as ([vm' r] & Hl & Ho).
  - split; cbn [r_params r_start r_vm r_cursor]; [by do 2 eexists|lia|done|by rewrite (co_rem _ _ _ _ C)|].
    intros _. by rewrite Z.sub_diag, Z.mul_0_l, Z.add_0_r, Z.sub_0_r.
  - cbn. lia.
  - rewrite Hl. by exists vm', r.
Qed.
End Range.
