(* ===== verification/VmMap.v ===== *)
(** * Mappings of a GPU address space

    The mappings of buffers in an address space ([amdgpu_vm.c]): requests that map, replace,
    unmap and clear ranges of addresses keep them in an interval tree; the entries of the
    page tables follow later, when a buffer is updated ([amdgpu_vm_bo_update]) and when
    what was unmapped is cleared ([amdgpu_vm_clear_freed]).

    Mappings, their lists for a buffer ([struct amdgpu_bo_va]) and buffers are finite maps
    by identity; a freed object is not in its map, and following a pointer to it is [None].
    The interval tree is the list of its nodes in order.  [pt] has the page tables
    ([Vm]). *)

From S2P Require Import Prelude Vm VmRes.
#[local] Open Scope Z_scope.
#[local] Open Scope list_scope.

Definition AMDGPU_GPU_PAGE_MASK : Z := AMDGPU_GPU_PAGE_SIZE - 1.
Definition AMDGPU_PTE_TMZ : Z := 2 ^ 3.
Definition AMDGPU_PTE_MTYPE_VG10_MASK : Z := AMDGPU_PTE_MTYPE_VG10 3.

(** ** State *)

Record bo_va_mapping := mk_mapping { m_start : Z; m_last : Z; m_offset : Z; m_flags : Z; m_bo_va : option nat }.
#[export] Instance eta_mapping : Eta bo_va_mapping := λ m, mk_mapping (m_start m) (m_last m) (m_offset m) (m_flags m) (m_bo_va m).

(** [struct amdgpu_bo_va] with its base; [va_bo] is its buffer, if it has one. *)
Record bo_va := mk_bo_va { va_bo : option nat; valids : list nat; invalids : list nat; va_cleared : bool; va_moved : bool }.
#[export] Instance eta_bo_va : Eta bo_va := λ b, mk_bo_va (va_bo b) (valids b) (invalids b) (va_cleared b) (va_moved b).

(** [bo_shared]: the buffer has the reservation of the address space (it is not shared
    with others); [bo_dma]: the addresses of its pages of system memory. *)
Record amdgpu_bo := mk_bo {
  bo_size : Z;
  bo_shared : bool;
  bo_kernel : bool;
  bo_resource : option ttm_resource;
  bo_dma : Z → Z;
  bo_tt_cached : bool;
  bo_readonly : bool;
  bo_encrypted : bool;
  bo_uncached : bool;
  bo_vram_base : Z;
  bo_preferred : placement → bool;
}.
#[export] Instance eta_bo : Eta amdgpu_bo := λ b,
  mk_bo (bo_size b) (bo_shared b) (bo_kernel b) (bo_resource b) (bo_dma b) (bo_tt_cached b) (bo_readonly b)
    (bo_encrypted b) (bo_uncached b) (bo_vram_base b) (bo_preferred b).

(** [struct amdgpu_vm] with the bases of each buffer ([bo->vm_bo]) and, of the device, the
    count of users of partly resident textures; [prt_pending] counts the callbacks that wait
    for a fence, [asked] the questions to the environment. *)
Record space := mk_space {
  pt : amdgpu_vm;
  mappings : gmap nat bo_va_mapping;
  bo_vas : gmap nat bo_va;
  bos : gmap nat amdgpu_bo;
  chains : gmap nat (list nat);
  it : list nat;
  vm_freed : list nat;
  evicted : list nat;
  moved : list nat;
  idle : list nat;
  invalidated : list nat;
  done_list : list nat;
  num_prt_users : Z;
  prt_enabled : bool;
  prt_pending : nat;
  next_id : nat;
  asked : nat;
}.
#[export] Instance eta_space : Eta space := λ s,
  mk_space (pt s) (mappings s) (bo_vas s) (bos s) (chains s) (it s) (vm_freed s) (evicted s) (moved s) (idle s) (invalidated s) (done_list s)
    (num_prt_users s) (prt_enabled s) (prt_pending s) (next_id s) (asked s).

(** The answers of the environment by the number of the question: whether an allocation
    fails, whether a callback for a fence runs at once (or there is no memory for it),
    whether a buffer is in use by others; the flags of system memory, whether the device
    has a register for partly resident textures, and the flags the memory controller
    wants for a mapping of a buffer. *)
Record space_env := mk_space_env {
  malloc_fails : nat → bool;
  prt_now : nat → bool;
  resv_busy : nat → bool;
  gart_pte_flags : Z;
  has_set_prt : bool;
  get_vm_pte : bo_va_mapping → option amdgpu_bo → Z → Z;
}.

(** That of GFX9, without the flags of coherence for the memory of a buffer. *)
Definition gmc_v9_0_get_vm_pte (coherence : amdgpu_bo → bo_va_mapping → Z → Z) (m : bo_va_mapping) (bo : option amdgpu_bo) (flags : Z) : Z :=
  let flags := Z.lor (Z.ldiff flags AMDGPU_PTE_EXECUTABLE) (Z.land (m_flags m) AMDGPU_PTE_EXECUTABLE) in
  let flags := Z.lor (Z.ldiff flags AMDGPU_PTE_MTYPE_VG10_MASK) (Z.land (m_flags m) AMDGPU_PTE_MTYPE_VG10_MASK) in
  let flags := if nz (Z.land (m_flags m) AMDGPU_PTE_PRT) then Z.ldiff (Z.lor flags AMDGPU_PTE_PRT) AMDGPU_PTE_VALID else flags in
  match bo with
  | Some bo => if nz (Z.land flags AMDGPU_PTE_VALID) then coherence bo m flags else flags
  | None => flags
  end.

(** ** Flags of the memory of a buffer *)

Definition is_system (t : placement) : bool := match t with PL_SYSTEM => true | _ => false end.

Definition amdgpu_ttm_tt_pde_flags (bo : amdgpu_bo) (mem : option ttm_resource) : Z :=
  match mem with
  | None => 0
  | Some mem =>
      let t := mem_type mem in
      let flags := if is_system t then 0 else AMDGPU_PTE_VALID in
      let flags := if bool_decide (t = PL_TT ∨ t = PL_DOORBELL ∨ t = PL_PREEMPT)
                   then Z.lor (Z.lor flags AMDGPU_PTE_SYSTEM) (if bo_tt_cached bo then AMDGPU_PTE_SNOOPED else 0) else flags in
      if bool_decide (t = PL_VRAM) && bus_cached mem then Z.lor flags AMDGPU_PTE_SNOOPED else flags
  end.

Section Map.
Context (adev : amdgpu_device) (gmc : gmc_funcs) (env : vm_env) (renv : range_env) (senv : space_env).

Definition amdgpu_ttm_tt_pte_flags (bo : amdgpu_bo) (mem : option ttm_resource) : Z :=
  Z.lor (Z.lor (Z.lor (amdgpu_ttm_tt_pde_flags bo mem) (gart_pte_flags senv)) AMDGPU_PTE_READABLE)
    (if bo_readonly bo then 0 else AMDGPU_PTE_WRITEABLE).

(** ** Lists and trees *)

Definition ask_space (s : space) : space := s <| asked ::= S |>.

Definition list_del (i : nat) (l : list nat) : list nat := filter (λ j, j ≠ i) l.

(** [list_del] of a mapping, whichever list it is on. *)
Definition unlink (i : nat) (s : space) : space :=
  s <| vm_freed ::= list_del i |> <| bo_vas ::= fmap (λ b, b <| valids ::= list_del i |> <| invalids ::= list_del i |>) |>.

Definition get_va (s : space) (b : nat) : option bo_va := bo_vas s !! b.
Definition set_va (b : nat) (f : bo_va → bo_va) (s : space) : space := s <| bo_vas ::= alter f b |>.

Definition get_bo (s : space) (o : option nat) : option (option amdgpu_bo) :=
  match o with None => Some None | Some i => b ← bos s !! i; Some (Some b) end.

(** [vm_status] of a base is on at most one list. *)
Definition status_del (b : nat) (s : space) : space :=
  s <| evicted ::= list_del b |> <| moved ::= list_del b |> <| idle ::= list_del b |> <| invalidated ::= list_del b |> <| done_list ::= list_del b |>.

Definition amdgpu_vm_bo_evicted (bo : amdgpu_bo) (b : nat) (s : space) : space :=
  let s := status_del b (set_va b (λ v, v <| va_moved := true |>) s) in
  s <| evicted ::= λ l, if bo_kernel bo then b :: l else l ++ [b] |>.
Definition amdgpu_vm_bo_moved (b : nat) (s : space) : space := (status_del b s) <| moved ::= cons b |>.
Definition amdgpu_vm_bo_idle (b : nat) (s : space) : space :=
  set_va b (λ v, v <| va_moved := false |>) ((status_del b s) <| idle ::= cons b |>).
Definition amdgpu_vm_bo_invalidated (b : nat) (s : space) : space := (status_del b s) <| invalidated ::= cons b |>.
Definition amdgpu_vm_bo_done (b : nat) (s : space) : space := (status_del b s) <| done_list ::= cons b |>.

(** The nodes of the tree that overlap a range, in order: what iterating gives. *)
Definition overlaps (m : bo_va_mapping) (start last : Z) : bool := (m_start m <=? last) && (start <=? m_last m).
Definition node (s : space) (i : nat) : option (nat * bo_va_mapping) := m ← mappings s !! i; Some (i, m).
Definition it_overlap (s : space) (start last : Z) : option (list nat) :=
  l ← mapM (node s) (it s); Some ((filter (λ im, overlaps im.2 start last = true) l).*1).
Definition amdgpu_vm_it_iter_first (s : space) (start last : Z) : option (option nat) :=
  l ← it_overlap s start last; Some (head l).
Definition amdgpu_vm_bo_lookup_mapping (s : space) (addr : Z) : option (option nat) := amdgpu_vm_it_iter_first s addr addr.

Fixpoint it_place (ms : gmap nat bo_va_mapping) (start : Z) (i : nat) (l : list nat) : option (list nat) :=
  match l with
  | [] => Some [i]
  | j :: l => m ← ms !! j; if start <? m_start m then Some (i :: j :: l) else l ← it_place ms start i l; Some (j :: l)
  end.
Definition amdgpu_vm_it_insert (i : nat) (s : space) : option space :=
  m ← mappings s !! i; l ← it_place (mappings s) (m_start m) i (it s); Some (s <| it := l |>).
Definition amdgpu_vm_it_remove (i : nat) (s : space) : space := s <| it ::= list_del i |>.

(** ** Users of partly resident textures *)

Definition amdgpu_vm_update_prt_state (s : space) : space := s <| prt_enabled := nz (num_prt_users s) |>.
Definition amdgpu_vm_prt_get (s : space) : space :=
  if negb (has_set_prt senv) then s else
  let s := s <| num_prt_users ::= Z.add 1 |> in
  if num_prt_users s =? 1 then amdgpu_vm_update_prt_state s else s.
Definition amdgpu_vm_prt_put (s : space) : space :=
  let s := s <| num_prt_users ::= λ n, n - 1 |> in
  if num_prt_users s =? 0 then amdgpu_vm_update_prt_state s else s.
Definition amdgpu_vm_add_prt_cb (s : space) : space :=
  if negb (has_set_prt senv) then s else
  let now := prt_now senv (asked s) in
  let s := ask_space s in
  if now then amdgpu_vm_prt_put s else s <| prt_pending ::= S |>.
Definition amdgpu_vm_prt_cb (s : space) : space := amdgpu_vm_prt_put (s <| prt_pending ::= pred |>).

Definition is_prt (m : bo_va_mapping) : bool := nz (Z.land (m_flags m) AMDGPU_PTE_PRT).
Definition amdgpu_vm_free_mapping (i : nat) (s : space) : option space :=
  m ← mappings s !! i;
  let s := if is_prt m then amdgpu_vm_add_prt_cb s else s in
  Some (s <| mappings ::= delete i |>).

(** ** Buffers *)

Definition amdgpu_vm_bo_base_init (b : nat) (o : option nat) (s : space) : option space :=
  match o with
  | None => Some s
  | Some i =>
      bo ← bos s !! i;
      let s := s <| chains ::= <[i := b :: default [] (chains s !! i)]> |> in
      if negb (bo_shared bo) then Some s else
      let s := amdgpu_vm_bo_idle b s in
      mem ← bo_resource bo;
      Some (if bo_preferred bo (mem_type mem) then s else amdgpu_vm_bo_evicted bo b s)
  end.

Definition amdgpu_vm_bo_add (o : option nat) (s : space) : option (space * option nat) :=
  let fails := malloc_fails senv (asked s) in
  let s := ask_space s in
  if fails then Some (s, None) else
  let b := next_id s in
  let s := s <| next_id ::= S |> <| bo_vas ::= <[b := mk_bo_va o [] [] false false]> |> in
  s ← amdgpu_vm_bo_base_init b o s;
  Some (s, Some b).

(** A mapping was added to the buffer of a base: it is updated with the others when it
    is of this address space only. *)
Definition mark_moved (b : nat) (s : space) : option space :=
  va ← get_va s b;
  bo ← get_bo s (va_bo va);
  Some (match bo with
        | Some bo => if bo_shared bo && negb (va_moved va) then amdgpu_vm_bo_moved b s else s
        | None => s
        end).

Definition amdgpu_vm_bo_insert_map (b : nat) (i : nat) (s : space) : option space :=
  m ← mappings s !! i;
  let s := s <| mappings ::= <[i := m <| m_bo_va := Some b |>]> |> in
  let s := set_va b (λ v, v <| invalids ::= cons i |>) s in
  s ← amdgpu_vm_it_insert i s;
  let s := if is_prt m then amdgpu_vm_prt_get s else s in
  mark_moved b s.

Definition amdgpu_vm_verify_parameters (bo : option amdgpu_bo) (saddr offset size : Z) : Z :=
  if nz (Z.land saddr AMDGPU_GPU_PAGE_MASK) || nz (Z.land offset AMDGPU_GPU_PAGE_MASK) || nz (Z.land size AMDGPU_GPU_PAGE_MASK) then -EINVAL
  else if (2 ^ 64 <=? saddr + size) || (2 ^ 64 <=? offset + size) || (size =? 0) then -EINVAL
  else if match bo with Some bo => bo_size bo <? u64 (offset + size) | None => false end then -EINVAL
  else if max_pfn adev <=? Z.shiftr (u64 (saddr + size - 1)) AMDGPU_GPU_PAGE_SHIFT then -EINVAL
  else 0.

(** [kmalloc] of a mapping. *)
Definition new_mapping (m : bo_va_mapping) (s : space) : nat * space :=
  (next_id s, s <| next_id ::= S |> <| mappings ::= <[next_id s := m]> |>).

Definition amdgpu_vm_bo_map (b : nat) (saddr offset size flags : Z) (s : space) : option (space * Z) :=
  va ← get_va s b;
  bo ← get_bo s (va_bo va);
  let r := amdgpu_vm_verify_parameters bo saddr offset size in
  if nz r then Some (s, r) else
  let saddr := saddr / AMDGPU_GPU_PAGE_SIZE in
  let eaddr := saddr + (size - 1) / AMDGPU_GPU_PAGE_SIZE in
  tmp ← amdgpu_vm_it_iter_first s saddr eaddr;
  match tmp with
  | Some _ => Some (s, -EINVAL)
  | None =>
      let fails := malloc_fails senv (asked s) in
      let s := ask_space s in
      if fails then Some (s, -ENOMEM) else
      let '(i, s) := new_mapping (mk_mapping saddr eaddr offset flags None) s in
      s ← amdgpu_vm_bo_insert_map b i s;
      Some (s, 0)
  end.

Definition amdgpu_vm_bo_unmap (b : nat) (saddr : Z) (s : space) : option (space * Z) :=
  va ← get_va s b;
  let saddr := saddr / AMDGPU_GPU_PAGE_SIZE in
  vl ← mapM (node s) (valids va);
  il ← mapM (node s) (invalids va);
  let found (l : list (nat * bo_va_mapping)) := head (filter (λ im, m_start im.2 = saddr) l) in
  let del (i : nat) (s : space) := (amdgpu_vm_it_remove i (unlink i s)) <| mappings ::= alter (λ m, m <| m_bo_va := None |>) i |> in
  match found vl, found il with
  | Some (i, _), _ => Some ((del i s) <| vm_freed ::= cons i |>, 0)
  | None, Some (i, _) => s ← amdgpu_vm_free_mapping i (del i s); Some (s, 0)
  | None, None => Some (s, -ENOENT)
  end.

(** ** Clearing a range *)

(** The loop over the mappings of the range: what sticks out at its ends is kept by the
    pieces [before] and [after], which exist from their first use; a second use would put
    one on a list it is on.  [removed] gets the mappings, the last one first. *)
Definition keep_piece (piece : nat) (m : bo_va_mapping) (s : space) : option space :=
  b ← m_bo_va m;
  _ ← get_va s b;
  match mappings s !! piece with
  | Some _ => None
  | None => Some (set_va b (λ v, v <| invalids ::= cons piece |>) (s <| mappings ::= <[piece := m]> |>))
  end.

Fixpoint gather (before after : nat) (saddr eaddr : Z) (l removed : list nat) (s : space) : option (space * list nat) :=
  match l with
  | [] => Some (s, removed)
  | i :: l =>
      tmp ← mappings s !! i;
      s ← (if m_start tmp <? saddr then keep_piece before (tmp <| m_last := saddr - 1 |>) s else Some s);
      s ← (if eaddr <? m_last tmp then
             keep_piece after (tmp <| m_start := eaddr + 1 |>
                                   <| m_offset := u64 (m_offset tmp + u64 (Z.shiftl (eaddr + 1 - m_start tmp) 12)) |>) s
           else Some s);
      gather before after saddr eaddr l (i :: removed) (unlink i s)
  end.

(** What is removed shrinks to the range and waits to be cleared. *)
Fixpoint free_up (saddr eaddr : Z) (l : list nat) (s : space) : option space :=
  match l with
  | [] => Some s
  | i :: l =>
      m ← mappings s !! i;
      let m := if m_start m <? saddr then m <| m_start := saddr |> else m in
      let m := if eaddr <? m_last m then m <| m_last := eaddr |> else m in
      free_up saddr eaddr l
        ((amdgpu_vm_it_remove i s) <| mappings ::= <[i := m <| m_bo_va := None |>]> |> <| vm_freed ::= cons i |>)
  end.

(** A piece that is used gets into the tree. *)
Definition insert_piece (piece : nat) (s : space) : option space :=
  match mappings s !! piece with
  | None => Some s
  | Some m =>
      b ← m_bo_va m;
      s ← amdgpu_vm_it_insert piece s;
      mark_moved b (if is_prt m then amdgpu_vm_prt_get s else s)
  end.

Definition amdgpu_vm_bo_clear_mappings (saddr size : Z) (s : space) : option (space * Z) :=
  let r := amdgpu_vm_verify_parameters None saddr 0 size in
  if nz r then Some (s, r) else
  let saddr := saddr / AMDGPU_GPU_PAGE_SIZE in
  let eaddr := saddr + (size - 1) / AMDGPU_GPU_PAGE_SIZE in
  let fails := malloc_fails senv (asked s) in
  let s := ask_space s in
  if fails then Some (s, -ENOMEM) else
  let fails := malloc_fails senv (asked s) in
  let s := ask_space s in
  if fails then Some (s, -ENOMEM) else
  let before := next_id s in
  let after := S before in
  let s := s <| next_id := S after |> in
  l ← it_overlap s saddr eaddr;
  '(s, removed) ← gather before after saddr eaddr l [] s;
  s ← free_up saddr eaddr removed s;
  s ← insert_piece before s;
  s ← insert_piece after s;
  Some (s, 0).

Definition amdgpu_vm_bo_replace_map (b : nat) (saddr offset size flags : Z) (s : space) : option (space * Z) :=
  va ← get_va s b;
  bo ← get_bo s (va_bo va);
  let r := amdgpu_vm_verify_parameters bo saddr offset size in
  if nz r then Some (s, r) else
  let fails := malloc_fails senv (asked s) in
  let s := ask_space s in
  if fails then Some (s, -ENOMEM) else
  '(s, r) ← amdgpu_vm_bo_clear_mappings saddr size s;
  if nz r then Some (s, r) else
  let saddr := saddr / AMDGPU_GPU_PAGE_SIZE in
  let eaddr := saddr + (size - 1) / AMDGPU_GPU_PAGE_SIZE in
  let '(i, s) := new_mapping (mk_mapping saddr eaddr offset flags None) s in
  s ← amdgpu_vm_bo_insert_map b i s;
  Some (s, 0).

(** ** Taking a buffer out *)

Fixpoint del_valids (l : list nat) (s : space) : option space :=
  match l with
  | [] => Some s
  | i :: l =>
      _ ← mappings s !! i;
      del_valids l ((amdgpu_vm_it_remove i (unlink i s)) <| mappings ::= alter (λ m, m <| m_bo_va := None |>) i |> <| vm_freed ::= cons i |>)
  end.
Fixpoint del_invalids (l : list nat) (s : space) : option space :=
  match l with
  | [] => Some s
  | i :: l => s ← amdgpu_vm_free_mapping i (amdgpu_vm_it_remove i (unlink i s)); del_invalids l s
  end.

Definition amdgpu_vm_bo_del (b : nat) (s : space) : option space :=
  va ← get_va s b;
  s ← (match va_bo va with
       | None => Some s
       | Some o => _ ← bos s !! o; Some (s <| chains ::= alter (list_del b) o |>)
       end);
  let s := status_del b s in
  s ← del_valids (valids va) s;
  s ← del_invalids (invalids va) s;
  Some (s <| bo_vas ::= delete b |>).

(** A buffer moves: its bases are to be updated; a buffer of the kernel has no parent, so
    that its base gets idle. *)
Definition invalidate_base (bo : amdgpu_bo) (evict : bool) (b : nat) (s : space) : option space :=
  va ← get_va s b;
  Some (if evict && bo_shared bo then amdgpu_vm_bo_evicted bo b s
        else if va_moved va then s
        else
          let s := set_va b (λ v, v <| va_moved := true |>) s in
          if bo_kernel bo then amdgpu_vm_bo_idle b s
          else if bo_shared bo then amdgpu_vm_bo_moved b s
          else amdgpu_vm_bo_invalidated b s).

Fixpoint invalidate_bases (bo : amdgpu_bo) (evict : bool) (l : list nat) (s : space) : option space :=
  match l with
  | [] => Some s
  | b :: l => s ← invalidate_base bo evict b s; invalidate_bases bo evict l s
  end.

Definition amdgpu_vm_bo_invalidate (o : nat) (evict : bool) (s : space) : option space :=
  bo ← bos s !! o; invalidate_bases bo evict (default [] (chains s !! o)) s.

(** The memory manager moves a buffer to [mem], after [amdgpu_bo_move_notify]. *)
Definition amdgpu_bo_move_notify (o : nat) (evict : bool) (mem : option ttm_resource) (dma : Z → Z) (s : space) : option space :=
  s ← amdgpu_vm_bo_invalidate o evict s;
  Some (s <| bos ::= alter (λ bo, bo <| bo_resource := mem |> <| bo_dma := dma |>) o |>).

(** ** The page tables follow *)

(** What an update of a base writes: its memory, the flags for it, the base of video
    memory, and whether the flags may be overridden. *)
Definition update_mem (clear : bool) (bo : option amdgpu_bo) : option ttm_resource * option (Z → Z) :=
  match bo with
  | Some bo =>
      if clear then (None, None) else
      (bo_resource bo,
       match bo_resource bo with
       | Some mem => if bool_decide (mem_type mem = PL_TT ∨ mem_type mem = PL_PREEMPT) then Some (bo_dma bo) else None
       | None => None
       end)
  | None => (None, None)
  end.

Definition update_flags (clear : bool) (bo : option amdgpu_bo) (m : bo_va_mapping) : Z :=
  let flags := match bo with
               | Some bo => let flags := amdgpu_ttm_tt_pte_flags bo (update_mem clear (Some bo)).1 in
                            if bo_encrypted bo then Z.lor flags AMDGPU_PTE_TMZ else flags
               | None => 0
               end in
  let flags := if nz (Z.land (m_flags m) AMDGPU_PTE_READABLE) then flags else Z.ldiff flags AMDGPU_PTE_READABLE in
  let flags := if nz (Z.land (m_flags m) AMDGPU_PTE_WRITEABLE) then flags else Z.ldiff flags AMDGPU_PTE_WRITEABLE in
  get_vm_pte senv m bo flags.

Definition update_base (bo : option amdgpu_bo) : Z := match bo with Some bo => bo_vram_base bo | None => 0 end.
Definition update_override (bo : option amdgpu_bo) : bool := match bo with Some bo => negb (bo_uncached bo) | None => true end.

Fixpoint update_invalids (clear : bool) (bo : option amdgpu_bo) (l : list nat) (s : space) : option (space * Z) :=
  match l with
  | [] => Some (s, 0)
  | i :: l =>
      m ← mappings s !! i;
      let '(mem, pages) := update_mem clear bo in
      let k := asked s in
      let s := ask_space s in
      '(vm, r) ← amdgpu_vm_update_range adev gmc env renv k (pt s) false (update_override bo) (m_start m) (m_last m)
                   (update_flags clear bo m) (m_offset m) (update_base bo) mem pages;
      let s := s <| pt := vm |> in
      if nz r then Some (s, r) else update_invalids clear bo l s
  end.

Definition splice_valids (b : nat) (s : space) : space :=
  set_va b (λ v, v <| invalids := valids v ++ invalids v |> <| valids := [] |>) s.

Definition amdgpu_vm_bo_update (b : nat) (clear : bool) (s : space) : option (space * Z) :=
  va ← get_va s b;
  bo ← get_bo s (va_bo va);
  let s := if negb clear && va_moved va then splice_valids b s
           else if negb (Bool.eqb (va_cleared va) clear) then splice_valids b s
           else s in
  va ← get_va s b;
  '(s, r) ← update_invalids clear bo (invalids va) s;
  if nz r then Some (s, r) else
  let s := match bo with
           | Some bo =>
               if bo_shared bo then
                 match bo_resource bo with
                 | Some mem => if bo_preferred bo (mem_type mem) then amdgpu_vm_bo_idle b s else amdgpu_vm_bo_evicted bo b s
                 | None => amdgpu_vm_bo_idle b s
                 end
               else amdgpu_vm_bo_done b s
           | None => amdgpu_vm_bo_done b s
           end in
  Some (set_va b (λ v, v <| valids := invalids v ++ valids v |> <| invalids := [] |>
                         <| va_cleared := clear |> <| va_moved := false |>) s, 0).

(** Each turn takes the first mapping off the list; it is freed whatever the result. *)
Fixpoint clear_list (init_pte_value : Z) (l : list nat) (s : space) : option (space * Z) :=
  match l with
  | [] => Some (s, 0)
  | i :: l =>
      let s := s <| vm_freed := l |> in
      m ← mappings s !! i;
      let init_pte_value := if pte_support_ats (pt s) && (m_start m <? AMDGPU_GMC_HOLE_START) then AMDGPU_PTE_DEFAULT_ATC else init_pte_value in
      let k := asked s in
      let s := ask_space s in
      '(vm, r) ← amdgpu_vm_update_range adev gmc env renv k (pt s) false false (m_start m) (m_last m) init_pte_value 0 0 None None;
      s ← amdgpu_vm_free_mapping i (s <| pt := vm |>);
      if nz r then Some (s, r) else clear_list init_pte_value l s
  end.
Definition amdgpu_vm_clear_freed (s : space) : option (space * Z) := clear_list 0 (vm_freed s) s.

(** The loops over [vm->moved] and [vm->invalidated]. *)
Definition moved_step (s : space) : option (space + space * Z) :=
  match moved s with
  | [] => Some (inr (s, 0))
  | b :: _ => '(s, r) ← amdgpu_vm_bo_update b false s; Some (if nz r then inr (s, r) else inl s)
  end.
Definition invalidated_step (s : space) : option (space + space * Z) :=
  match invalidated s with
  | [] => Some (inr (s, 0))
  | b :: _ =>
      va ← get_va s b;
      _ ← va_bo va;
      let clear := resv_busy senv (asked s) in
      '(s, r) ← amdgpu_vm_bo_update b clear (ask_space s); Some (if nz r then inr (s, r) else inl s)
  end.
Definition amdgpu_vm_handle_moved (s : space) : option (space * Z) :=
  '(s, r) ← run_loop moved_step s;
  if nz r then Some (s, r) else run_loop invalidated_step s.

Definition update_pdes (s : space) : option (space * Z) :=
  '(vm, r) ← amdgpu_vm_update_pdes adev gmc env (pt s); Some (s <| pt := vm |>, r).

(** After a request of the ioctl; [upd] is the base that was mapped, if one was. *)
Definition amdgpu_gem_va_update_vm (upd : option nat) (s : space) : option (space * Z) :=
  '(s, r) ← amdgpu_vm_clear_freed s;
  if nz r then Some (s, r) else
  '(s, r) ← (match upd with Some b => amdgpu_vm_bo_update b false s | None => Some (s, 0) end);
  if nz r then Some (s, r) else update_pdes s.
End Map.
