(* ===== verification/VmMapOk.v ===== *)
(** * Mappings of a GPU address space: well-formedness

    The lists, the tree and the owners of the mappings agree; the mappings of the tree are
    disjoint, in the address space and within their buffers.  The steps of the operations
    go through states where some mappings are not in the tree or not on a list: [linked]
    names them. *)

From S2P Require Import Prelude Vm VmRes VmMap.
#[local] Open Scope Z_scope.
#[local] Open Scope list_scope.

Lemma elem_of_ids_del i j l : i ∈ list_del j l ↔ i ≠ j ∧ i ∈ l.
Proof. unfold list_del. by rewrite list_elem_of_filter. Qed.
Lemma NoDup_list_del j l : NoDup l → NoDup (list_del j l).
Proof. by apply NoDup_filter. Qed.

(** The base that owns a mapping. *)
Definition owner (s : space) (i : nat) : option nat := m ← mappings s !! i; m_bo_va m.

Lemma owner_eq s s' i : mappings s' !! i = mappings s !! i → owner s' i = owner s i.
Proof. unfold owner. by intros ->. Qed.
Lemma owner_Some s i b : owner s i = Some b ↔ ∃ m, mappings s !! i = Some m ∧ m_bo_va m = Some b.
Proof.
  unfold owner. destruct (mappings s !! i) as [m|]; cbn [mbind option_bind]; split.
  - intros ?. by exists m.
  - by intros (? & [= <-] & ?).
  - done.
  - by intros (? & ? & _).
Qed.

(** [T]: owned mappings that are not in the tree; [L]: owned mappings that are on no list
    of their owner. *)
Record linked (T L : gset nat) (s : space) : Prop := {
  lk_tree i : i ∈ it s ↔ is_Some (owner s i) ∧ i ∉ T;
  lk_list b va i : bo_vas s !! b = Some va → i ∈ valids va ∨ i ∈ invalids va ↔ owner s i = Some b ∧ i ∉ L;
  lk_owner i b : owner s i = Some b → is_Some (bo_vas s !! b);
  lk_freed i : i ∈ vm_freed s ↔ ∃ m, mappings s !! i = Some m ∧ m_bo_va m = None;
  lk_nodup : NoDup (it s) ∧ NoDup (vm_freed s);
  lk_nodup_va b va : bo_vas s !! b = Some va → NoDup (valids va ++ invalids va);
  lk_next : (∀ i, is_Some (mappings s !! i) → (i < next_id s)%nat) ∧ ∀ b, is_Some (bo_vas s !! b) → (b < next_id s)%nat;
}.

(** Membership in the sets of exceptions. *)
Ltac exceptions :=
  rewrite ?not_elem_of_union, ?not_elem_of_difference, ?elem_of_union, ?elem_of_difference, ?not_elem_of_singleton, ?elem_of_singleton; tauto.

(** What [linked] looks at. *)
Definition same_lists (s s' : space) : Prop :=
  mappings s' = mappings s ∧ it s' = it s ∧ vm_freed s' = vm_freed s ∧ next_id s' = next_id s ∧
  ∀ b, (λ v, (valids v, invalids v)) <$> (bo_vas s' !! b) = (λ v, (valids v, invalids v)) <$> (bo_vas s !! b).

Lemma same_lists_va s s' b va' : same_lists s s' → bo_vas s' !! b = Some va' →
  ∃ va, bo_vas s !! b = Some va ∧ valids va' = valids va ∧ invalids va' = invalids va.
Proof.
  intros (_ & _ & _ & _ & H) Hb. specialize (H b). rewrite Hb in H. destruct (bo_vas s !! b) as [va|]; [|done].
  injection H as ? ?. by exists va.
Qed.

Lemma linked_same T L s s' : same_lists s s' → linked T L s → linked T L s'.
Proof.
  intros Hs [A1 A2 A3 A4 A5 A6 A7]. pose proof Hs as (H1 & H2 & H3 & H4 & H5).
  assert (Ho : ∀ i, owner s' i = owner s i) by (intros; apply owner_eq; by rewrite H1). split.
  - intros i. by rewrite H2, Ho.
  - intros b va' i Hb. destruct (same_lists_va _ _ _ _ Hs Hb) as (va & Hb2 & -> & ->). rewrite Ho. by apply A2.
  - intros i b Hi. rewrite Ho in Hi. destruct (A3 i b Hi) as [va Hva]. specialize (H5 b). rewrite Hva in H5.
    destruct (bo_vas s' !! b); [by eexists|done].
  - intros i. by rewrite H3, H1.
  - by rewrite H2, H3.
  - intros b va' Hb. destruct (same_lists_va _ _ _ _ Hs Hb) as (va & Hb2 & -> & ->). by apply (A6 b).
  - rewrite H1, H4. destruct A7 as [A7 A8]. split; [done|]. intros b [va' Hb].
    destruct (same_lists_va _ _ _ _ Hs Hb) as (va & Hb2 & _). apply A8. by eexists.
Qed.

(** ** Steps *)

Lemma unlink_va i s b va' : bo_vas (unlink i s) !! b = Some va' →
  ∃ va, bo_vas s !! b = Some va ∧ va' = va <| valids ::= list_del i |> <| invalids ::= list_del i |>.
Proof.
  change (bo_vas (unlink i s)) with ((λ v, v <| valids ::= list_del i |> <| invalids ::= list_del i |>) <$> bo_vas s).
  rewrite lookup_fmap. destruct (bo_vas s !! b) as [va|]; [|done]. intros [= <-]. by exists va.
Qed.

Lemma NoDup_lists_del i l k : NoDup (l ++ k) → NoDup (list_del i l ++ list_del i k).
Proof. unfold list_del. rewrite <- filter_app. apply NoDup_filter. Qed.

Lemma linked_unlink T L s i b : linked T L s → owner s i = Some b → linked T ({[i]} ∪ L) (unlink i s).
Proof.
  intros [A1 A2 A3 A4 A5 A6 A7] Hi. split.
  - done.
  - intros b' va' j Hb. destruct (unlink_va _ _ _ _ Hb) as (va & Hva & ->). change (owner (unlink i s) j) with (owner s j).
    pose proof (A2 b' va j Hva). change (j ∈ list_del i (valids va) ∨ j ∈ list_del i (invalids va) ↔ owner s j = Some b' ∧ j ∉ {[i]} ∪ L).
    rewrite !elem_of_ids_del. exceptions.
  - intros j b' Hj. destruct (A3 j b' Hj) as [va Hva].
    change (bo_vas (unlink i s)) with ((λ v, v <| valids ::= list_del i |> <| invalids ::= list_del i |>) <$> bo_vas s). rewrite lookup_fmap, Hva. by eexists.
  - intros j. change (vm_freed (unlink i s)) with (list_del i (vm_freed s)). rewrite elem_of_ids_del. change (mappings (unlink i s)) with (mappings s).
    rewrite A4. split; [by intros [_ ?]|]. intros (m & Hm & Hn). split; [|by exists m]. intros ->. apply owner_Some in Hi as (m' & ? & ?). congruence.
  - split; [apply A5|]. apply NoDup_list_del, A5.
  - intros b' va' Hb. destruct (unlink_va _ _ _ _ Hb) as (va & Hva & ->). cbn. apply NoDup_lists_del. by apply (A6 b').
  - destruct A7 as [A7 A8]. split; [done|]. intros b' [va' Hb]. destruct (unlink_va _ _ _ _ Hb) as (va & Hva & _). apply A8. by eexists.
Qed.

Lemma linked_it_remove T L s i : linked T L s → linked ({[i]} ∪ T) L (amdgpu_vm_it_remove i s).
Proof.
  intros [A1 A2 A3 A4 A5 A6 A7]. split; try done.
  - intros j. change (it (amdgpu_vm_it_remove i s)) with (list_del i (it s)). change (owner (amdgpu_vm_it_remove i s) j) with (owner s j).
    rewrite elem_of_ids_del, A1. exceptions.
  - split; [apply NoDup_list_del, A5|apply A5].
Qed.

(** A mapping that is nowhere loses its owner and waits to be cleared. *)
Lemma linked_to_freed T L s i m m' b : linked T L s → mappings s !! i = Some m → m_bo_va m = Some b → i ∈ T → i ∈ L → m_bo_va m' = None →
  linked (T ∖ {[i]}) (L ∖ {[i]}) (s <| mappings ::= <[i := m']> |> <| vm_freed ::= cons i |>).
Proof.
  intros [A1 A2 A3 A4 A5 A6 A7] Hm Hb HT HL Hm'. set (s' := s <| mappings ::= _ |> <| vm_freed ::= _ |>).
  assert (Hl : ∀ j, mappings s' !! j = if decide (j = i) then Some m' else mappings s !! j).
  { intros j. change (mappings s') with (<[i := m']> (mappings s)). destruct (decide (j = i)) as [->|]; [by rewrite lookup_insert_eq|by rewrite lookup_insert_ne]. }
  assert (Hi : owner s i = Some b) by (apply owner_Some; by exists m).
  assert (Ho : ∀ j, owner s' j = if decide (j = i) then None else owner s j).
  { intros j. unfold owner. rewrite Hl. destruct (decide (j = i)); [done|done]. }
  split.
  - intros j. change (it s') with (it s). rewrite Ho, A1. destruct (decide (j = i)) as [->|]; [|exceptions].
    split; [by intros [_ ?]|]. by intros [[? ?] _].
  - intros b' va j Hva. change (bo_vas s') with (bo_vas s) in Hva. rewrite (A2 b' va j Hva), Ho. destruct (decide (j = i)) as [->|]; [|exceptions].
    split; [by intros [_ ?]|]. by intros [? _].
  - intros j b' Hj. rewrite Ho in Hj. destruct (decide (j = i)); [done|]. by apply (A3 j).
  - intros j. change (vm_freed s') with (i :: vm_freed s). rewrite elem_of_cons, A4, Hl. destruct (decide (j = i)) as [->|Hne].
    + split; [intros _; by exists m'|by left].
    + split; [by intros [?|?]|by right].
  - split; [apply A5|]. change (vm_freed s') with (i :: vm_freed s). constructor; [|apply A5]. rewrite A4. intros (? & ? & ?). congruence.
  - done.
  - destruct A7 as [A7 A8]. split; [|done]. intros j Hj. rewrite Hl in Hj. destruct (decide (j = i)) as [->|]; [|by apply A7]. apply A7. by eexists.
Qed.

(** It is freed. *)
Lemma linked_delete T L s i : linked T L s → is_Some (owner s i) → i ∈ T → i ∈ L → linked (T ∖ {[i]}) (L ∖ {[i]}) (s <| mappings ::= delete i |>).
Proof.
  intros [A1 A2 A3 A4 A5 A6 A7] [b Hi] HT HL. set (s' := s <| mappings ::= _ |>).
  assert (Hl : ∀ j, mappings s' !! j = if decide (j = i) then None else mappings s !! j).
  { intros j. change (mappings s') with (delete i (mappings s)). destruct (decide (j = i)) as [->|]; [by rewrite lookup_delete_eq|by rewrite lookup_delete_ne]. }
  assert (Ho : ∀ j, owner s' j = if decide (j = i) then None else owner s j).
  { intros j. unfold owner. rewrite Hl. destruct (decide (j = i)); [done|done]. }
  split.
  - intros j. change (it s') with (it s). rewrite Ho, A1. destruct (decide (j = i)) as [->|]; [|exceptions].
    split; [by intros [_ ?]|]. by intros [[? ?] _].
  - intros b' va j Hva. change (bo_vas s') with (bo_vas s) in Hva. rewrite (A2 b' va j Hva), Ho. destruct (decide (j = i)) as [->|]; [|exceptions].
    split; [by intros [_ ?]|]. by intros [? _].
  - intros j b' Hj. rewrite Ho in Hj. destruct (decide (j = i)); [done|]. by apply (A3 j).
  - intros j. change (vm_freed s') with (vm_freed s). rewrite A4, Hl. destruct (decide (j = i)) as [->|Hne]; [|done].
    split; [|by intros (? & ? & _)]. intros (m & Hm & Hn). apply owner_Some in Hi as (? & ? & ?). congruence.
  - apply A5.
  - done.
  - destruct A7 as [A7 A8]. split; [|done]. intros j Hj. rewrite Hl in Hj. destruct (decide (j = i)) as [->|]; [by destruct Hj|by apply A7].
Qed.

(** A new mapping is on the list of its owner. *)
Lemma linked_new T L s i m b : linked T L s → mappings s !! i = None → (i < next_id s)%nat → m_bo_va m = Some b → is_Some (bo_vas s !! b) → i ∉ L →
  linked ({[i]} ∪ T) L (set_va b (λ v, v <| invalids ::= cons i |>) (s <| mappings ::= <[i := m]> |>)).
Proof.
  intros [A1 A2 A3 A4 A5 A6 A7] Hi Hlt Hm [va0 Hva0] HL. set (s' := set_va b _ _).
  assert (Hl : ∀ j, mappings s' !! j = if decide (j = i) then Some m else mappings s !! j).
  { intros j. change (mappings s') with (<[i := m]> (mappings s)). destruct (decide (j = i)) as [->|]; [by rewrite lookup_insert_eq|by rewrite lookup_insert_ne]. }
  assert (Hn : owner s i = None) by (unfold owner; by rewrite Hi).
  assert (Ho : ∀ j, owner s' j = if decide (j = i) then Some b else owner s j).
  { intros j. unfold owner. rewrite Hl. destruct (decide (j = i)); [done|done]. }
  assert (Hv : ∀ b', bo_vas s' !! b' = if decide (b' = b) then Some (va0 <| invalids ::= cons i |>) else bo_vas s !! b').
  { intros b'. change (bo_vas s') with (alter (λ v, v <| invalids ::= cons i |>) b (bo_vas s)). destruct (decide (b' = b)) as [->|].
    - by rewrite lookup_alter_eq, Hva0.
    - by rewrite lookup_alter_ne. }
  assert (Hnot : ∀ b' va, bo_vas s !! b' = Some va → ¬ (i ∈ valids va ∨ i ∈ invalids va)).
  { intros b' va Hva Hin. apply (A2 b' va i Hva) in Hin as [? _]. congruence. }
  split.
  - intros j. change (it s') with (it s). rewrite Ho, A1. destruct (decide (j = i)) as [->|]; [|exceptions]. rewrite Hn.
    split; [by intros [[? ?] _]|]. exceptions.
  - intros b' va j. rewrite Hv, Ho. destruct (decide (b' = b)) as [->|Hb].
    + intros [= <-]. cbn. rewrite elem_of_cons. destruct (decide (j = i)) as [->|Hj]; [split; [done|intros _; right; by left]|].
      rewrite <- (A2 b va0 j Hva0). naive_solver.
    + intros Hva. rewrite (A2 b' va j Hva). destruct (decide (j = i)) as [->|]; [|done]. rewrite Hn. naive_solver.
  - intros j b'. rewrite Ho, Hv. destruct (decide (j = i)) as [->|].
    + intros [= <-]. rewrite decide_True by done. by eexists.
    + intros Hj. destruct (decide (b' = b)); [by eexists|by apply (A3 j)].
  - intros j. change (vm_freed s') with (vm_freed s). rewrite A4, Hl. destruct (decide (j = i)) as [->|]; [|done].
    split; [intros (? & ? & _); congruence|]. intros (? & [= <-] & ?). congruence.
  - apply A5.
  - intros b' va. rewrite Hv. destruct (decide (b' = b)) as [->|]; [|by apply A6]. intros [= <-]. cbn.
    pose proof (A6 b va0 Hva0) as Hnd. pose proof (Hnot b va0 Hva0). apply NoDup_app in Hnd as (N1 & N2 & N3). apply NoDup_app. split; [done|].
    split; [intros j Hj; rewrite elem_of_cons; intros [->|?]; [tauto|by apply (N2 j)]|constructor; [tauto|done]].
  - destruct A7 as [A7 A8]. split.
    + intros j Hj. rewrite Hl in Hj. destruct (decide (j = i)) as [->|]; [done|by apply A7].
    + intros b' Hb'. rewrite Hv in Hb'. destruct (decide (b' = b)) as [->|]; [apply A8; by eexists|by apply A8].
Qed.

(** It gets into the tree. *)
Lemma it_place_spec ms st i l : Forall (λ j, is_Some (ms !! j)) l → ∃ l', it_place ms st i l = Some l' ∧ l' ≡ₚ i :: l.
Proof.
  induction 1 as [|j l [m Hm] _ IH]; cbn [it_place]; [by exists [i]|]. rewrite Hm. cbn [mbind option_bind].
  destruct (st <? m_start m); [by eexists|]. destruct IH as (l' & -> & Hp). cbn [mbind option_bind]. eexists. split; [done|].
  rewrite Hp. apply Permutation_swap.
Qed.

Lemma linked_it_insert T L s i : linked T L s → is_Some (owner s i) → i ∈ T →
  ∃ l, amdgpu_vm_it_insert i s = Some (s <| it := l |>) ∧ l ≡ₚ i :: it s ∧ linked (T ∖ {[i]}) L (s <| it := l |>).
Proof.
  intros [A1 A2 A3 A4 A5 A6 A7] [b Hi] HT. pose proof (proj1 (owner_Some _ _ _) Hi) as (m & Hm & _).
  destruct (it_place_spec (mappings s) (m_start m) i (it s)) as (l & Hl & Hp).
  { apply Forall_forall. intros j [[b' Hj] _]%A1. apply owner_Some in Hj as (? & ? & _). by eexists. }
  exists l. unfold amdgpu_vm_it_insert. rewrite Hm. cbn [mbind option_bind]. rewrite Hl. split; [done|]. split; [done|]. split; try done.
  - intros j. change (it (s <| it := l |>)) with l. rewrite Hp, elem_of_cons, A1. change (owner (s <| it := l |>) j) with (owner s j).
    destruct (decide (j = i)) as [->|]; [|exceptions]. split; [intros _; split; [rewrite Hi; by eexists|exceptions]|by left].
  - split; [|apply A5]. change (it (s <| it := l |>)) with l. rewrite Hp. constructor; [|apply A5]. rewrite A1. by intros [_ ?].
Qed.
