(* ===== verification/VmMapOps.v ===== *)
(** * Mappings of a GPU address space: clearing a range

    What [amdgpu_vm_bo_clear_mappings] leaves: mappings that overlap the range are cut to
    it and wait to be cleared, pieces of them outside of the range are mapped as before, and
    other mappings are untouched. *)

From S2P Require Import Prelude Vm VmRes VmMap VmMapOk.
#[local] Open Scope Z_scope.
#[local] Open Scope list_scope.

Definition all_status (s : space) : list nat := evicted s ++ moved s ++ idle s ++ invalidated s ++ done_list s.

(** What the requests leave alone: the page tables, the buffers, and the mappings of a base
    that are up to date, but for those they take away. *)
Record frame (s s' : space) : Prop := {
  fr_pt : pt s' = pt s;
  fr_bos : bos s' = bos s;
  fr_chains : chains s' = chains s;
  fr_va b va' : bo_vas s' !! b = Some va' → ∃ va, bo_vas s !! b = Some va ∧ va_bo va' = va_bo va ∧ va_cleared va' = va_cleared va ∧
    va_moved va' = va_moved va ∧ ∀ i, i ∈ valids va' → i ∈ valids va;
  fr_dom b : is_Some (bo_vas s !! b) → is_Some (bo_vas s' !! b);
  fr_status b : b ∈ all_status s' → b ∈ all_status s ∨ is_Some (bo_vas s !! b);
  fr_invalidated b : b ∈ invalidated s' → b ∈ invalidated s;
}.

Lemma frame_refl s : frame s s.
Proof. split; try done. - intros b va Hb. by exists va. - by left. Qed.

Lemma frame_trans s1 s2 s3 : frame s1 s2 → frame s2 s3 → frame s1 s3.
Proof.
  intros [A1 A2 A0 A3 A4 A5 A6] [B1 B2 B0 B3 B4 B5 B6]. split; try congruence; try (by auto).
  - intros b va3 Hv3. destruct (B3 b va3 Hv3) as (va2 & Hv2 & ? & ? & ? & ?). destruct (A3 b va2 Hv2) as (va1 & Hv1 & ? & ? & ? & ?).
    exists va1. split_and!; try congruence. auto.
  - intros b Hb. destruct (B5 b Hb) as [Hb2|[va2 Hb2]]; [by apply A5|]. destruct (A3 b va2 Hb2) as (va1 & ? & _). right. by eexists.
Qed.

(** Changes of fields outside of the bases. *)
Lemma frame_fields s s' : pt s' = pt s → bos s' = bos s → chains s' = chains s → bo_vas s' = bo_vas s → evicted s' = evicted s → moved s' = moved s → idle s' = idle s →
  invalidated s' = invalidated s → done_list s' = done_list s → frame s s'.
Proof.
  intros H1 H2 H0 H3 H4 H5 H6 H7 H8. split; try done.
  - intros b va. rewrite H3. intros Hb. by exists va.
  - intros b. by rewrite H3.
  - intros b. unfold all_status. rewrite H4, H5, H6, H7, H8. by left.
  - intros b. by rewrite H7.
Qed.

Lemma frame_unlink i s : frame s (unlink i s).
Proof.
  split; try done.
  - intros b va' Hb. destruct (unlink_va _ _ _ _ Hb) as (va & Hva & ->). exists va. split_and!; try done.
    intros j. change (j ∈ list_del i (valids va) → j ∈ valids va). rewrite elem_of_ids_del. by intros [_ ?].
  - intros b [va Hb]. change (bo_vas (unlink i s)) with ((λ v, v <| valids ::= list_del i |> <| invalids ::= list_del i |>) <$> bo_vas s).
    rewrite lookup_fmap, Hb. by eexists.
  - by left.
Qed.

(** A base gets another list of mappings to be updated. *)
Lemma frame_invalids b f s : frame s (set_va b (λ v, v <| invalids ::= f |>) s).
Proof.
  split; try done.
  - intros b' va'. change (bo_vas (set_va b (λ v, v <| invalids ::= f |>) s)) with (alter (λ v, v <| invalids ::= f |>) b (bo_vas s)).
    intros Hb. apply lookup_alter_Some in Hb as [(-> & va & Hva & ->)|[_ Hva]]; [exists va; by split_and!|]. by exists va'.
  - intros b' Hb. change (bo_vas (set_va b (λ v, v <| invalids ::= f |>) s)) with (alter (λ v, v <| invalids ::= f |>) b (bo_vas s)).
    by rewrite lookup_alter_is_Some.
  - by left.
Qed.

Lemma elem_of_status_del b b' s : b ∈ all_status (status_del b' s) → b ≠ b' ∧ b ∈ all_status s.
Proof.
  unfold all_status. change (evicted (status_del b' s)) with (list_del b' (evicted s)). change (moved (status_del b' s)) with (list_del b' (moved s)).
  change (idle (status_del b' s)) with (list_del b' (idle s)). change (invalidated (status_del b' s)) with (list_del b' (invalidated s)).
  change (done_list (status_del b' s)) with (list_del b' (done_list s)). rewrite !elem_of_app, !elem_of_ids_del. tauto.
Qed.

(** A base whose buffer is of this address space only goes to the moved ones. *)
Lemma frame_bo_moved b s : is_Some (bo_vas s !! b) → frame s (amdgpu_vm_bo_moved b s).
Proof.
  intros Hb. split; try done.
  - intros b' va Hva. by exists va.
  - intros b'. assert (all_status (amdgpu_vm_bo_moved b s) ≡ₚ b :: all_status (status_del b s)) as ->.
    { unfold all_status. change (moved (amdgpu_vm_bo_moved b s)) with (b :: moved (status_del b s)). cbn -[status_del].
      change (evicted (amdgpu_vm_bo_moved b s)) with (evicted (status_del b s)). change (idle (amdgpu_vm_bo_moved b s)) with (idle (status_del b s)).
      change (invalidated (amdgpu_vm_bo_moved b s)) with (invalidated (status_del b s)). change (done_list (amdgpu_vm_bo_moved b s)) with (done_list (status_del b s)).
      by rewrite <- Permutation_middle. }
    rewrite elem_of_cons. intros [->|Hin]; [by right|]. left. by apply elem_of_status_del in Hin as [_ ?].
  - intros b'. change (invalidated (amdgpu_vm_bo_moved b s)) with (list_del b (invalidated s)). rewrite elem_of_ids_del. by intros [_ ?].
Qed.

Section Ops.
Context (adev : amdgpu_device) (senv : space_env).

Lemma prt_same (f : space → space) s : f = amdgpu_vm_prt_get senv ∨ f = amdgpu_vm_add_prt_cb senv →
  mappings (f s) = mappings s ∧ it (f s) = it s ∧ vm_freed (f s) = vm_freed s ∧ next_id (f s) = next_id s ∧ bo_vas (f s) = bo_vas s ∧ frame s (f s) ∧
  all_status (f s) = all_status s.
Proof.
  intros Hf. assert (H : mappings (f s) = mappings s ∧ it (f s) = it s ∧ vm_freed (f s) = vm_freed s ∧ next_id (f s) = next_id s ∧ bo_vas (f s) = bo_vas s ∧
    pt (f s) = pt s ∧ bos (f s) = bos s ∧ chains (f s) = chains s ∧ evicted (f s) = evicted s ∧ moved (f s) = moved s ∧ idle (f s) = idle s ∧ invalidated (f s) = invalidated s ∧ done_list (f s) = done_list s).
  { destruct Hf as [-> | ->].
    - unfold amdgpu_vm_prt_get. destruct (negb (has_set_prt senv)); [done|]. by destruct (_ =? 1).
    - unfold amdgpu_vm_add_prt_cb. destruct (negb (has_set_prt senv)); [done|]. destruct (prt_now senv (asked s)); [|done].
      unfold amdgpu_vm_prt_put. by destruct (_ =? 0). }
  destruct H as (H1 & H2 & H3 & H4 & H5 & H6 & H7 & H8 & H9 & H10 & H11 & H12 & H13). split_and!; try done; [by apply frame_fields|]. unfold all_status. congruence.
Qed.

Definition with_prt (m : bo_va_mapping) (s : space) : space := if is_prt m then amdgpu_vm_prt_get senv s else s.

Lemma with_prt_same m s : mappings (with_prt m s) = mappings s ∧ it (with_prt m s) = it s ∧ vm_freed (with_prt m s) = vm_freed s ∧
  next_id (with_prt m s) = next_id s ∧ bo_vas (with_prt m s) = bo_vas s ∧ frame s (with_prt m s).
Proof. unfold with_prt. destruct (is_prt m); [destruct (prt_same (amdgpu_vm_prt_get senv) s) as (?&?&?&?&?&?&_); [by left|done]|]. split_and!; try done. apply frame_refl. Qed.

Lemma same_lists_fields s s' : mappings s' = mappings s → it s' = it s → vm_freed s' = vm_freed s → next_id s' = next_id s → bo_vas s' = bo_vas s → same_lists s s'.
Proof. intros H1 H2 H3 H4 H5. unfold same_lists. by rewrite H1, H2, H3, H4, H5. Qed.

(** Marking a base does not change its lists. *)
Lemma mark_moved_spec b s : is_Some (bo_vas s !! b) → (∀ va, bo_vas s !! b = Some va → ∀ o, va_bo va = Some o → is_Some (bos s !! o)) →
  ∃ s', mark_moved b s = Some s' ∧ same_lists s s' ∧ frame s s'.
Proof.
  intros [va Hva] Hbo. unfold mark_moved, get_va. rewrite Hva. cbn [mbind option_bind].
  assert (∃ bo, get_bo s (va_bo va) = Some bo) as [bo ->].
  { unfold get_bo. destruct (va_bo va) as [o|] eqn:Ho; [|by eexists]. destruct (Hbo va Hva o Ho) as [bo ->]. by eexists. }
  cbn [mbind option_bind]. eexists. split; [done|].
  destruct bo as [bo|]; [destruct (bo_shared bo && negb (va_moved va))|]; [|split; [done|apply frame_refl]..].
  split; [done|]. apply frame_bo_moved. by eexists.
Qed.

Lemma keep_piece_spec T L p m b s : linked T L s → mappings s !! p = None → (p < next_id s)%nat → m_bo_va m = Some b → is_Some (bo_vas s !! b) → p ∉ L →
  ∃ s', keep_piece p m s = Some s' ∧ linked ({[p]} ∪ T) L s' ∧ mappings s' = <[p := m]> (mappings s) ∧ next_id s' = next_id s ∧ frame s s'.
Proof.
  intros Hl Hp Hlt Hm Hb HL. unfold keep_piece. rewrite Hm. cbn [mbind option_bind]. unfold get_va. destruct Hb as [va Hva]. rewrite Hva. cbn [mbind option_bind].
  rewrite Hp. eexists. split; [done|]. split; [by apply linked_new|]. split; [done|]. split; [done|].
  apply (frame_trans _ (s <| mappings ::= <[p := m]> |>)); [by apply frame_fields|apply frame_invalids].
Qed.

Lemma linked_sets T L T' L' s : (∀ i, i ∈ T ↔ i ∈ T') → (∀ i, i ∈ L ↔ i ∈ L') → linked T L s → linked T' L' s.
Proof. intros HT HL. assert (T = T') as <- by (by apply set_eq). by assert (L = L') as <- by (by apply set_eq). Qed.

Lemma keep_if (c : bool) T L p m b s : linked T L s → (c = true → mappings s !! p = None) → (p < next_id s)%nat → m_bo_va m = Some b → is_Some (bo_vas s !! b) → p ∉ L →
  ∃ s', (if c then keep_piece p m s else Some s) = Some s' ∧ linked (if c then {[p]} ∪ T else T) L s' ∧
    mappings s' = (if c then <[p := m]> (mappings s) else mappings s) ∧ next_id s' = next_id s ∧ frame s s'.
Proof.
  intros Hl Hp Hlt Hm Hb HL. destruct c.
  - destruct (keep_piece_spec T L p m b s) as (s' & H); [done|by apply Hp|done|done|done|done|]. by exists s'.
  - exists s. split_and!; try done. apply frame_refl.
Qed.

Definition before_of (saddr : Z) (m : bo_va_mapping) : bo_va_mapping := m <| m_last := saddr - 1 |>.
Definition after_of (eaddr : Z) (m : bo_va_mapping) : bo_va_mapping :=
  m <| m_start := eaddr + 1 |> <| m_offset := u64 (m_offset m + u64 (Z.shiftl (eaddr + 1 - m_start m) 12)) |>.

(** The pieces that are in use. *)
Definition used (p : nat) (s : space) : gset nat := if decide (is_Some (mappings s !! p)) then {[p]} else ∅.
Lemma elem_of_used i p s : i ∈ used p s ↔ i = p ∧ is_Some (mappings s !! p).
Proof. unfold used. destruct (decide _); set_solver. Qed.

Section Gather.
Context (before after : nat) (saddr eaddr : Z) (Hne : before ≠ after).

Definition pieces (s : space) : gset nat := used before s ∪ used after s.

(** What gathering [l] from [s] gives. *)
Record gathered (l : list nat) (s s' : space) : Prop := {
  ga_rest j : j ≠ before → j ≠ after → mappings s' !! j = mappings s !! j;
  ga_before i m : i ∈ l → mappings s !! i = Some m → m_start m < saddr → mappings s' !! before = Some (before_of saddr m);
  ga_no_before : (∀ i m, i ∈ l → mappings s !! i = Some m → saddr ≤ m_start m) → mappings s' !! before = mappings s !! before;
  ga_after i m : i ∈ l → mappings s !! i = Some m → eaddr < m_last m → mappings s' !! after = Some (after_of eaddr m);
  ga_no_after : (∀ i m, i ∈ l → mappings s !! i = Some m → m_last m ≤ eaddr) → mappings s' !! after = mappings s !! after;
  ga_next : next_id s' = next_id s;
  ga_frame : frame s s';
}.

(** At most one of [l] sticks out at each end, and none when the piece is in use. *)
Record gatherable (l : list nat) (s : space) : Prop := {
  gb_nodup : NoDup l;
  gb_ids : (before < next_id s)%nat ∧ (after < next_id s)%nat;
  gb_in i : i ∈ l → i ≠ before ∧ i ≠ after ∧ ∃ m b, mappings s !! i = Some m ∧ m_bo_va m = Some b;
  gb_start i j m m' : i ∈ l → j ∈ l → mappings s !! i = Some m → mappings s !! j = Some m' → m_start m < saddr → m_start m' < saddr → i = j;
  gb_last i j m m' : i ∈ l → j ∈ l → mappings s !! i = Some m → mappings s !! j = Some m' → eaddr < m_last m → eaddr < m_last m' → i = j;
  gb_before : is_Some (mappings s !! before) → ∀ i m, i ∈ l → mappings s !! i = Some m → saddr ≤ m_start m;
  gb_after : is_Some (mappings s !! after) → ∀ i m, i ∈ l → mappings s !! i = Some m → m_last m ≤ eaddr;
}.

Lemma gather_spec l removed s L : linked (pieces s) L s → gatherable l s → (∀ i, i ∈ L → i ≠ before ∧ i ≠ after) →
  ∃ s' r, gather before after saddr eaddr l removed s = Some (s', r) ∧ r ≡ₚ l ++ removed ∧ linked (pieces s') (list_to_set l ∪ L) s' ∧ gathered l s s'.
Proof.
  revert removed s L. induction l as [|i l IH]; intros removed s L Hl [B1 [B2 B2'] B3 B4 B5 B6 B7] HL.
  { exists s, removed. split; [done|]. split; [done|]. split; [by eapply linked_sets; [| |exact Hl]; set_solver|]. split; try done; [set_solver|set_solver|apply frame_refl]. }
  apply NoDup_cons in B1 as [Hi Hnd]. destruct (B3 i ltac:(left)) as (Hib & Hia & m & b & Hm & Hb). cbn [gather]. rewrite Hm. cbn [mbind option_bind].
  pose proof (lk_owner _ _ _ Hl i b ltac:(apply owner_Some; by exists m)) as Hva.
  assert (Hoth : ∀ j, j ∈ l → j ≠ i ∧ j ≠ before ∧ j ≠ after) by (intros j Hj; destruct (B3 j ltac:(by right)) as (? & ? & _); split; [congruence|done]).
  destruct (keep_if (m_start m <? saddr) (pieces s) L before (m <| m_last := saddr - 1 |>) b s Hl) as (s1 & -> & Hl1 & M1 & N1 & F1); [|done|done|done|by intros [? _]%HL|].
  { intros Hlt%Z.ltb_lt. destruct (mappings s !! before) eqn:He; [|done]. pose proof (B6 ltac:(by eexists) i m ltac:(left) Hm). lia. }
  cbn [mbind option_bind]. change (m <| m_last := saddr - 1 |>) with (before_of saddr m) in M1.
  destruct (keep_if (eaddr <? m_last m) _ L after (after_of eaddr m) b s1 Hl1) as (s2 & Hs2 & Hl2 & M2 & N2 & F2); [|by rewrite N1|done|by apply (fr_dom _ _ F1)|by intros [_ ?]%HL|].
  { intros Hlt%Z.ltb_lt. assert (mappings s1 !! after = mappings s !! after) as ->.
    { rewrite M1. destruct (_ <? _); [by rewrite lookup_insert_ne|done]. }
    destruct (mappings s !! after) eqn:He; [|done]. pose proof (B7 ltac:(by eexists) i m ltac:(left) Hm). lia. }
  change (m <| m_start := eaddr + 1 |> <| m_offset := u64 (m_offset m + u64 (Z.shiftl (eaddr + 1 - m_start m) 12)) |>) with (after_of eaddr m).
  rewrite Hs2. cbn [mbind option_bind].
  assert (Hrest : ∀ j, j ≠ before → j ≠ after → mappings s2 !! j = mappings s !! j).
  { intros j Hj1 Hj2. rewrite M2, M1. by destruct (_ <? _), (_ <? _); rewrite ?lookup_insert_ne by done. }
  assert (Hbe : mappings s2 !! before = if m_start m <? saddr then Some (before_of saddr m) else mappings s !! before).
  { rewrite M2, M1. by destruct (_ <? _), (_ <? _); rewrite ?lookup_insert_ne, ?lookup_insert_eq by done. }
  assert (Haf : mappings s2 !! after = if eaddr <? m_last m then Some (after_of eaddr m) else mappings s !! after).
  { rewrite M2, M1. by destruct (_ <? _), (_ <? _); rewrite ?lookup_insert_eq, ?lookup_insert_ne by done. }
  assert (Hl3 : linked (pieces (unlink i s2)) ({[i]} ∪ L) (unlink i s2)).
  { apply (linked_unlink _ _ _ _ b); [|apply owner_Some; exists m; by rewrite Hrest]. eapply linked_sets; [| |exact Hl2]; [|done].
    intros j. change (pieces (unlink i s2)) with (pieces s2). unfold pieces. rewrite (elem_of_union (used before s2)), !elem_of_used, Hbe, Haf.
    destruct (m_start m <? saddr), (eaddr <? m_last m); rewrite ?elem_of_union, ?elem_of_singleton, ?elem_of_used; split; naive_solver. }
  assert (Hml : ∀ j mj, j ∈ l → mappings (unlink i s2) !! j = Some mj → mappings s !! j = Some mj).
  { intros j mj Hj Hmj. change (mappings (unlink i s2)) with (mappings s2) in Hmj. destruct (Hoth j Hj) as (_ & ? & ?). by rewrite <- Hrest. }
  destruct (IH (i :: removed) (unlink i s2) ({[i]} ∪ L) Hl3) as (s' & r & Hg & Hr & Hl' & [A1 A2 A3 A4 A5 A6 A7]).
  - split.
    + done.
    + change (next_id (unlink i s2)) with (next_id s2). rewrite N2, N1. done.
    + intros j Hj. destruct (B3 j ltac:(by right)) as (? & ? & mj & bj & Hmj & ?). split; [done|]. split; [done|]. exists mj, bj.
      change (mappings (unlink i s2)) with (mappings s2). by rewrite Hrest.
    + intros j k mj mk Hj Hk Hmj Hmk. apply (B4 j k mj mk); [by right|by right|auto|auto].
    + intros j k mj mk Hj Hk Hmj Hmk. apply (B5 j k mj mk); [by right|by right|auto|auto].
    + change (mappings (unlink i s2)) with (mappings s2) in *. rewrite Hbe. intros Hs j mj Hj Hmj. specialize (Hml j mj Hj Hmj).
      destruct (Z.ltb_spec (m_start m) saddr) as [Hlt|Hge]; [|apply (B6 Hs j mj ltac:(by right) Hml)].
      destruct (decide (saddr ≤ m_start mj)) as [|Hgt]; [done|exfalso]. destruct (Hoth j Hj) as [Hji _]. apply Hji. apply (B4 j i mj m); [by right|left|done|done|lia|done].
    + change (mappings (unlink i s2)) with (mappings s2) in *. rewrite Haf. intros Hs j mj Hj Hmj. specialize (Hml j mj Hj Hmj).
      destruct (Z.ltb_spec eaddr (m_last m)) as [Hlt|Hge]; [|apply (B7 Hs j mj ltac:(by right) Hml)].
      destruct (decide (m_last mj ≤ eaddr)) as [|Hgt]; [done|exfalso]. destruct (Hoth j Hj) as [Hji _]. apply Hji. apply (B5 j i mj m); [by right|left|done|done|lia|done].
  - intros j. rewrite elem_of_union, elem_of_singleton. intros [->|?]; [done|by apply HL].
  - exists s', r. split; [exact Hg|]. split; [rewrite Hr; cbn; by rewrite <- Permutation_middle|]. split.
    + eapply linked_sets; [done| |exact Hl']. intros j. rewrite !elem_of_union, !elem_of_list_to_set, elem_of_singleton, elem_of_cons. tauto.
    + change (mappings (unlink i s2)) with (mappings s2) in *. split.
      * intros j Hj1 Hj2. rewrite A1 by done. by apply Hrest.
      * intros j mj Hj Hmj Hlt. apply elem_of_cons in Hj as [->|Hj].
        -- assert (mj = m) as -> by congruence. rewrite A3; [rewrite Hbe; by rewrite (proj2 (Z.ltb_lt _ _))|]. intros k mk Hk Hmk.
           destruct (decide (saddr ≤ m_start mk)) as [|Hgt]; [done|exfalso]. destruct (Hoth k Hk) as [Hki _]. apply Hki.
           apply (B4 k i mk m); [by right|left|auto|done|lia|done].
        -- apply (A2 j mj Hj); [|done]. destruct (Hoth j Hj) as (_ & ? & ?). by rewrite Hrest.
      * intros Hno. rewrite A3; [|intros k mk Hk Hmk; apply (Hno k mk); [by right|auto]]. rewrite Hbe, (proj2 (Z.ltb_ge _ _)); [done|]. apply (Hno i m); [left|done].
      * intros j mj Hj Hmj Hlt. apply elem_of_cons in Hj as [->|Hj].
        -- assert (mj = m) as -> by congruence. rewrite A5; [rewrite Haf; by rewrite (proj2 (Z.ltb_lt _ _))|]. intros k mk Hk Hmk.
           destruct (decide (m_last mk ≤ eaddr)) as [|Hgt]; [done|exfalso]. destruct (Hoth k Hk) as [Hki _]. apply Hki.
           apply (B5 k i mk m); [by right|left|auto|done|lia|done].
        -- apply (A4 j mj Hj); [|done]. destruct (Hoth j Hj) as (_ & ? & ?). by rewrite Hrest.
      * intros Hno. rewrite A5; [|intros k mk Hk Hmk; apply (Hno k mk); [by right|auto]]. rewrite Haf, (proj2 (Z.ltb_ge _ _)); [done|]. apply (Hno i m); [left|done].
      * rewrite A6. change (next_id (unlink i s2)) with (next_id s2). congruence.
      * apply (frame_trans _ s1); [done|]. apply (frame_trans _ s2); [done|]. apply (frame_trans _ (unlink i s2)); [apply frame_unlink|done].
Qed.
End Gather.

(** ** The rest of clearing *)

Lemma it_overlap_spec T L s start last : linked T L s →
  ∃ l, it_overlap s start last = Some l ∧ NoDup l ∧ ∀ i, i ∈ l ↔ i ∈ it s ∧ ∃ m, mappings s !! i = Some m ∧ overlaps m start last = true.
Proof.
  intros Hl. unfold it_overlap.
  assert (Hgo : ∀ k, NoDup k → (∀ i, i ∈ k → is_Some (mappings s !! i)) → ∃ n, mapM (node s) k = Some n ∧
    NoDup ((filter (λ im, overlaps im.2 start last = true) n).*1) ∧
    ∀ i, i ∈ (filter (λ im, overlaps im.2 start last = true) n).*1 ↔ i ∈ k ∧ ∃ m, mappings s !! i = Some m ∧ overlaps m start last = true).
  { induction k as [|i k IH]; intros Hnd Hk; cbn [mapM].
    - exists []. split; [done|]. split; [constructor|]. intros i. split; [by intros ?%elem_of_nil|]. by intros [?%elem_of_nil _].
    - apply NoDup_cons in Hnd as [Hi Hnd]. destruct (Hk i ltac:(left)) as [m Hm]. destruct (IH Hnd) as (n & -> & Hn & Hin); [intros j Hj; apply Hk; by right|].
      unfold node at 1. rewrite Hm. cbn [mbind option_bind]. eexists. split; [done|]. rewrite filter_cons. cbn [snd].
      destruct (decide (overlaps m start last = true)) as [Ho|Ho].
      + rewrite fmap_cons. cbn [fst]. split.
        * constructor; [|done]. rewrite Hin. by intros [? _].
        * intros j. rewrite !elem_of_cons, Hin. split; [|naive_solver]. intros [->|[? ?]]; [split; [by left|by exists m]|split; [by right|done]].
      + split; [done|]. intros j. rewrite Hin, elem_of_cons. split; [naive_solver|]. intros [[->|?] (mj & Hmj & ?)]; [congruence|]. split; [done|by exists mj]. }
  destruct (Hgo (it s)) as (n & -> & Hn & Hin); [apply Hl| |].
  { intros i [[b Hb] _]%(lk_tree _ _ _ Hl). apply owner_Some in Hb as (m & ? & _). by eexists. }
  cbn [mbind option_bind]. eexists. split; [done|]. by split.
Qed.

(** A mapping cut to the range. *)
Definition cut_to (saddr eaddr : Z) (m : bo_va_mapping) : bo_va_mapping :=
  mk_mapping (Z.max (m_start m) saddr) (Z.min (m_last m) eaddr) (m_offset m) (m_flags m) None.

Lemma free_up_spec saddr eaddr T l s L : linked T L s → NoDup l → (∀ i, i ∈ l → i ∈ L ∧ i ∉ T ∧ is_Some (owner s i)) →
  ∃ s', free_up saddr eaddr l s = Some s' ∧ linked T (L ∖ list_to_set l) s' ∧ (∀ i m, i ∈ l → mappings s !! i = Some m → mappings s' !! i = Some (cut_to saddr eaddr m)) ∧
    (∀ j, j ∉ l → mappings s' !! j = mappings s !! j) ∧ next_id s' = next_id s ∧ frame s s'.
Proof.
  revert s L. induction l as [|i l IH]; intros s L Hl Hnd Hin.
  { exists s. split; [done|]. split; [eapply linked_sets; [done| |exact Hl]; set_solver|]. split_and!; try done; [set_solver|apply frame_refl]. }
  apply NoDup_cons in Hnd as [Hi Hnd]. destruct (Hin i ltac:(left)) as (HL & HT & b & Hb). pose proof (proj1 (owner_Some _ _ _) Hb) as (m & Hm & Hmb).
  cbn [free_up]. rewrite Hm. cbn [mbind option_bind].
  set (m1 := if m_start m <? saddr then m <| m_start := saddr |> else m). set (m2 := if eaddr <? m_last m1 then m1 <| m_last := eaddr |> else m1).
  assert (Hm2 : m2 <| m_bo_va := None |> = cut_to saddr eaddr m).
  { unfold m2, m1, cut_to. destruct m as [ms ml mo mf mb]. cbn in *. destruct (Z.ltb_spec ms saddr); cbn; destruct (Z.ltb_spec eaddr ml); cbn; f_equal; lia. }
  rewrite Hm2. set (s1 := _ <| vm_freed ::= _ |>).
  assert (Hl1 : linked T (L ∖ {[i]}) s1).
  { eapply linked_sets; [| |apply (linked_to_freed ({[i]} ∪ T) L (amdgpu_vm_it_remove i s) i m (cut_to saddr eaddr m) b); [by apply linked_it_remove|done|done|set_solver|done|done]].
    - intros j. rewrite elem_of_difference, elem_of_union, elem_of_singleton. split; [naive_solver|]. intros Hj. split; [by right|]. intros ->. done.
    - done. }
  assert (Hm1 : ∀ j, j ≠ i → mappings s1 !! j = mappings s !! j) by (intros j Hj; change (mappings s1) with (<[i := cut_to saddr eaddr m]> (mappings s)); by rewrite lookup_insert_ne).
  destruct (IH s1 (L ∖ {[i]}) Hl1 Hnd) as (s' & Hf & Hl' & M1 & M2 & N & F).
  { intros j Hj. destruct (Hin j ltac:(by right)) as (? & ? & Ho). assert (j ≠ i) by congruence. split; [set_solver|]. split; [done|].
    rewrite (owner_eq s s1); [done|by apply Hm1]. }
  exists s'. split; [exact Hf|]. split; [|split; [|split; [|split]]].
  - eapply linked_sets; [done| |exact Hl']. intros j. rewrite !elem_of_difference, !elem_of_list_to_set, elem_of_singleton, elem_of_cons. tauto.
  - intros j mj Hj Hmj. apply elem_of_cons in Hj as [->|Hj].
    + assert (mj = m) as -> by congruence. rewrite M2 by done. change (mappings s1) with (<[i := cut_to saddr eaddr m]> (mappings s)). apply lookup_insert_eq.
    + apply M1; [done|]. rewrite Hm1; [done|congruence].
  - intros j Hj. apply not_elem_of_cons in Hj as [? ?]. rewrite M2 by done. by apply Hm1.
  - done.
  - apply (frame_trans _ s1); [by apply frame_fields|done].
Qed.

Definition bos_there (s : space) : Prop := ∀ b va o, bo_vas s !! b = Some va → va_bo va = Some o → is_Some (bos s !! o).

Lemma bos_there_frame s s' : frame s s' → bos_there s → bos_there s'.
Proof. intros [F1 F2 _ F3 F4 F5 F6] Hb b va o Hva Ho. destruct (F3 b va Hva) as (va0 & H0 & Hbo & _). rewrite F2. apply (Hb b va0 o H0). congruence. Qed.

Lemma insert_piece_spec T L p s : linked T L s → (p ∈ T ↔ is_Some (mappings s !! p)) → (∀ m, mappings s !! p = Some m → is_Some (m_bo_va m)) → bos_there s →
  ∃ s', insert_piece senv p s = Some s' ∧ linked (T ∖ {[p]}) L s' ∧ mappings s' = mappings s ∧ next_id s' = next_id s ∧ frame s s'.
Proof.
  intros Hl HT Hown Hbo. unfold insert_piece. destruct (mappings s !! p) as [m|] eqn:Hm.
  2:{ exists s. split; [done|]. split; [|split; [done|split; [done|apply frame_refl]]]. eapply linked_sets; [| |exact Hl]; [|done]. intros j.
      rewrite elem_of_difference, elem_of_singleton. split; [|by intros [? _]]. intros Hj. split; [done|]. intros ->. apply HT in Hj as [? ?]. done. }
  destruct (Hown m eq_refl) as [b Hb]. rewrite Hb. cbn [mbind option_bind].
  destruct (linked_it_insert T L s p Hl) as (l & Hins & _ & Hl1); [exists b; apply owner_Some; by exists m|by apply HT|].
  rewrite Hins. cbn [mbind option_bind]. set (s1 := s <| it := l |>) in *. change (if is_prt m then amdgpu_vm_prt_get senv s1 else s1) with (with_prt m s1).
  destruct (with_prt_same m s1) as (P1 & P2 & P3 & P4 & P5 & P6).
  assert (F1 : frame s (with_prt m s1)) by (apply (frame_trans _ s1); [by apply frame_fields|done]).
  assert (Hva : is_Some (bo_vas s !! b)) by (apply (lk_owner _ _ _ Hl p); apply owner_Some; by exists m).
  destruct (mark_moved_spec b (with_prt m s1)) as (s' & Hmk & Hs & F2); [by apply (fr_dom _ _ F1)| |].
  { intros va Hv o Ho. by apply (bos_there_frame _ _ F1 Hbo b va o). }
  exists s'. split; [done|]. pose proof Hs as (S1 & S2 & S3 & S4 & _). split; [|split; [|split]].
  - eapply linked_same; [exact Hs|]. eapply linked_same; [|exact Hl1]. by apply same_lists_fields.
  - by rewrite S1, P1.
  - by rewrite S4, P4.
  - by apply (frame_trans _ (with_prt m s1)).
Qed.

(** ** A range is cleared *)

Definition in_use (m : bo_va_mapping) : Prop := is_Some (m_bo_va m).
Definition hit (saddr eaddr : Z) (m : bo_va_mapping) : Prop := in_use m ∧ m_start m ≤ eaddr ∧ saddr ≤ m_last m.

Record cleared_range (saddr eaddr : Z) (s s' : space) : Prop := {
  cr_linked : linked ∅ ∅ s';
  cr_hit i m : mappings s !! i = Some m → hit saddr eaddr m → mappings s' !! i = Some (cut_to saddr eaddr m);
  cr_miss i m : mappings s !! i = Some m → ¬ hit saddr eaddr m → mappings s' !! i = Some m;
  cr_before i m : mappings s !! i = Some m → hit saddr eaddr m → m_start m < saddr →
    mappings s !! next_id s = None ∧ mappings s' !! next_id s = Some (before_of saddr m);
  cr_after i m : mappings s !! i = Some m → hit saddr eaddr m → eaddr < m_last m →
    mappings s !! S (next_id s) = None ∧ mappings s' !! S (next_id s) = Some (after_of eaddr m);
  cr_new j m' : mappings s !! j = None → mappings s' !! j = Some m' → ∃ i m, mappings s !! i = Some m ∧ hit saddr eaddr m ∧
    ((j = next_id s ∧ m_start m < saddr ∧ m' = before_of saddr m) ∨ (j = S (next_id s) ∧ eaddr < m_last m ∧ m' = after_of eaddr m));
  cr_frame : frame s s';
}.

Definition disjoint (s : space) : Prop := ∀ i j m m', i ≠ j → mappings s !! i = Some m → mappings s !! j = Some m' → in_use m → in_use m' →
  m_last m < m_start m' ∨ m_last m' < m_start m.

Lemma linked_next T L s n : linked T L s → (next_id s ≤ n)%nat → linked T L (s <| next_id := n |>).
Proof.
  intros [A1 A2 A3 A4 A5 A6 [A7 A8]] Hn. split; try done. split; [intros i Hi; pose proof (A7 i Hi); cbn; lia|intros i Hi; pose proof (A8 i Hi); cbn; lia].
Qed.

(** Some mapping of a list passes a test, or none does. *)
Lemma some_or_none (f : bo_va_mapping → bool) (s : space) (l : list nat) :
  (∃ i m, i ∈ l ∧ mappings s !! i = Some m ∧ f m = true) ∨ ∀ i m, i ∈ l → mappings s !! i = Some m → f m = false.
Proof.
  induction l as [|i l [(j & m & ? & ? & ?)|IH]].
  - right. by intros i m ?%elem_of_nil.
  - left. exists j, m. split; [by right|done].
  - destruct (mappings s !! i) as [m|] eqn:Hm.
    + destruct (f m) eqn:Hf; [left; exists i, m; split; [left|done]|]. right. intros j mj [->|Hj]%elem_of_cons Hmj; [congruence|by apply (IH j)].
    + right. intros j mj [->|Hj]%elem_of_cons Hmj; [congruence|by apply (IH j)].
Qed.

(** The loops, once there is memory for the pieces. *)
Lemma clear_loops saddr eaddr s l : saddr ≤ eaddr → linked ∅ ∅ s → disjoint s → bos_there s →
  NoDup l → (∀ i, i ∈ l ↔ i ∈ it s ∧ ∃ m, mappings s !! i = Some m ∧ overlaps m saddr eaddr = true) →
  ∃ s1 s2 s3 s4 removed, gather (next_id s) (S (next_id s)) saddr eaddr l [] (s <| next_id := S (S (next_id s)) |>) = Some (s1, removed) ∧
    free_up saddr eaddr removed s1 = Some s2 ∧ insert_piece senv (next_id s) s2 = Some s3 ∧ insert_piece senv (S (next_id s)) s3 = Some s4 ∧
    cleared_range saddr eaddr s s4.
Proof.
  intros Hse Hl Hd Hbo Hnd Hin. set (b := next_id s). set (a := S b). set (s0 := s <| next_id := S a |>).
  pose proof (lk_next _ _ _ Hl) as [Hnext _].
  assert (Hnone : mappings s !! b = None ∧ mappings s !! a = None).
  { split; apply eq_None_not_Some; intros Hs%Hnext; unfold a, b in *; lia. }
  destruct Hnone as [Hnb Hna].
  assert (Hhit : ∀ i, i ∈ l ↔ ∃ m, mappings s !! i = Some m ∧ hit saddr eaddr m).
  { intros i. rewrite Hin, (lk_tree _ _ _ Hl). unfold hit, overlaps. split.
    - intros [[[c Hc] _] (m & Hm & Ho)]. exists m. apply owner_Some in Hc as (m2 & ? & ?). split; [done|].
      apply andb_true_iff in Ho as [?%Z.leb_le ?%Z.leb_le]. split; [exists c; congruence|lia].
    - intros (m & Hm & [c Hc] & ? & ?). split; [split; [exists c; apply owner_Some; by exists m|set_solver]|]. exists m. split; [done|].
      apply andb_true_iff. split; apply Z.leb_le; lia. }
  assert (Hpieces : pieces b a s0 = ∅).
  { apply set_eq. intros i. unfold pieces. rewrite elem_of_union, !elem_of_used. unfold s0.
    change (mappings (s <| next_id := S a |>)) with (mappings s). rewrite Hnb, Hna. split; [by intros [[_ [? ?]]|[_ [? ?]]]|set_solver]. }
  destruct (gather_spec b a saddr eaddr ltac:(unfold a; lia) l [] s0 ∅) as (s1 & removed & Hg & Hr & Hl1 & [A1 A2 A3 A4 A5 A6 A7]).
  { rewrite Hpieces. apply linked_next; [done|unfold a, b; lia]. }
  { split; change (mappings s0) with (mappings s); change (next_id s0) with (S a).
    - done.
    - unfold a. lia.
    - intros i Hi. apply Hhit in Hi as (m & Hm & [c Hc] & _). split; [congruence|]. split; [congruence|]. by exists m, c.
    - intros i j m m' (m1 & Hm1 & Hh1)%Hhit (m2 & Hm2 & Hh2)%Hhit Hm Hm' Hlt Hlt'. destruct (decide (i = j)) as [|Hij]; [done|exfalso].
      assert (m1 = m) as -> by congruence. assert (m2 = m') as -> by congruence. destruct Hh1 as (? & ? & ?), Hh2 as (? & ? & ?).
      destruct (Hd i j m m' Hij Hm Hm'); [done|done|lia|lia].
    - intros i j m m' (m1 & Hm1 & Hh1)%Hhit (m2 & Hm2 & Hh2)%Hhit Hm Hm' Hlt Hlt'. destruct (decide (i = j)) as [|Hij]; [done|exfalso].
      assert (m1 = m) as -> by congruence. assert (m2 = m') as -> by congruence. destruct Hh1 as (? & ? & ?), Hh2 as (? & ? & ?).
      destruct (Hd i j m m' Hij Hm Hm'); [done|done|lia|lia].
    - rewrite Hnb. by intros [? ?].
    - rewrite Hna. by intros [? ?]. }
  { set_solver. }
  change (mappings s0) with (mappings s) in *. rewrite app_nil_r in Hr.
  assert (Hsame : ∀ i m, mappings s !! i = Some m → mappings s1 !! i = Some m) by (intros i m Hm; rewrite A1; [done|congruence|congruence]).
  assert (Hin1 : ∀ i, i ∈ list_to_set (C := gset nat) l ∪ ∅ ↔ i ∈ l) by (intros i; rewrite elem_of_union, elem_of_list_to_set; set_solver).
  destruct (free_up_spec saddr eaddr (pieces b a s1) removed s1 _ Hl1) as (s2 & Hf & Hl2 & B1 & B2 & B3 & B4).
  { by rewrite Hr. }
  { intros i Hi. rewrite Hr in Hi. split; [by apply Hin1|].
    apply Hhit in Hi as (m & Hm & [c Hc] & _). split; [|exists c; apply owner_Some; exists m; auto].
    unfold pieces. rewrite elem_of_union, !elem_of_used. intros [[-> _]|[-> _]]; congruence. }
  assert (Hown1 : ∀ m, mappings s1 !! b = Some m → ∃ i mi, i ∈ l ∧ mappings s !! i = Some mi ∧ m_start mi < saddr ∧ m = before_of saddr mi).
  { intros m Hm. destruct (some_or_none (λ m, m_start m <? saddr) s l) as [(i & mi & Hi & Hmi & Hlt%Z.ltb_lt)|Hall].
    - exists i, mi. split_and!; try done. rewrite (A2 i mi Hi Hmi Hlt) in Hm. congruence.
    - rewrite A3 in Hm; [congruence|]. intros i mi Hi Hmi. by apply Z.ltb_ge, (Hall i). }
  assert (Hown2 : ∀ m, mappings s1 !! a = Some m → ∃ i mi, i ∈ l ∧ mappings s !! i = Some mi ∧ eaddr < m_last mi ∧ m = after_of eaddr mi).
  { intros m Hm. destruct (some_or_none (λ m, eaddr <? m_last m) s l) as [(i & mi & Hi & Hmi & Hlt%Z.ltb_lt)|Hall].
    - exists i, mi. split_and!; try done. rewrite (A4 i mi Hi Hmi Hlt) in Hm. congruence.
    - rewrite A5 in Hm; [congruence|]. intros i mi Hi Hmi. by apply Z.ltb_ge, (Hall i). }
  assert (Hbl : b ∉ removed ∧ a ∉ removed).
  { rewrite Hr. split; intros (m & ? & _)%Hhit; congruence. }
  destruct Hbl as [Hbl Hal].
  assert (Hb2 : mappings s2 !! b = mappings s1 !! b) by by apply B2. assert (Ha2 : mappings s2 !! a = mappings s1 !! a) by by apply B2.
  assert (Hba : b ≠ a) by (unfold a; lia).
  assert (Hl2' : linked (pieces b a s1) ∅ s2).
  { eapply linked_sets; [done| |exact Hl2]. intros i. rewrite elem_of_difference, Hin1, elem_of_list_to_set, Hr. set_solver. }
  destruct (insert_piece_spec _ _ b s2 Hl2') as (s3 & Hi3 & Hl3 & M3 & N3 & F3).
  { unfold pieces. rewrite elem_of_union, !elem_of_used, Hb2. naive_solver. }
  { intros m Hm. rewrite Hb2 in Hm. destruct (Hown1 m Hm) as (i & mi & (m' & Hm' & Hu & _)%Hhit & Hmi & _ & ->). assert (m' = mi) as -> by congruence. exact Hu. }
  { apply (bos_there_frame s0); [by apply (frame_trans _ s1)|done]. }
  destruct (insert_piece_spec _ _ a s3 Hl3) as (s4 & Hi4 & Hl4 & M4 & N4 & F4).
  { unfold pieces. rewrite M3, elem_of_difference, elem_of_union, !elem_of_used, elem_of_singleton, Ha2. naive_solver. }
  { intros m Hm. rewrite M3, Ha2 in Hm. destruct (Hown2 m Hm) as (i & mi & (m' & Hm' & Hu & _)%Hhit & Hmi & _ & ->). assert (m' = mi) as -> by congruence. exact Hu. }
  { apply (bos_there_frame s0); [|done]. apply (frame_trans _ s1); [done|]. by apply (frame_trans _ s2). }
  exists s1, s2, s3, s4, removed. split; [done|]. split; [done|]. split; [done|]. split; [done|]. split.
  - eapply linked_sets; [| |exact Hl4]; [|done]. intros i. unfold pieces. rewrite !elem_of_difference, elem_of_union, !elem_of_used, !elem_of_singleton. set_solver.
  - intros i m Hm Hh. rewrite M4, M3. apply B1; [|by apply Hsame]. rewrite Hr. apply Hhit. by exists m.
  - intros i m Hm Hh. rewrite M4, M3, B2; [by apply Hsame|]. rewrite Hr. intros (m' & Hm' & Hh')%Hhit. congruence.
  - intros i m Hm Hh Hlt. split; [done|]. change (mappings s4 !! b = Some (before_of saddr m)). rewrite M4, M3, Hb2. apply (A2 i m); [|done|done]. apply Hhit. by exists m.
  - intros i m Hm Hh Hlt. split; [done|]. change (mappings s4 !! a = Some (after_of eaddr m)). rewrite M4, M3, Ha2. apply (A4 i m); [|done|done]. apply Hhit. by exists m.
  - intros j m' Hj Hm'. rewrite M4, M3 in Hm'. destruct (decide (j = b)) as [->|Hjb].
    + rewrite Hb2 in Hm'. destruct (Hown1 m' Hm') as (i & mi & (m2 & Hm2 & Hh)%Hhit & Hmi & Hlt & ->). assert (m2 = mi) as -> by congruence.
      exists i, mi. split_and!; try done. by left.
    + destruct (decide (j = a)) as [->|Hja].
      * rewrite Ha2 in Hm'. destruct (Hown2 m' Hm') as (i & mi & (m2 & Hm2 & Hh)%Hhit & Hmi & Hlt & ->). assert (m2 = mi) as -> by congruence.
        exists i, mi. split_and!; try done. by right.
      * exfalso. destruct (decide (j ∈ removed)) as [Hjr|Hjr]; [rewrite Hr in Hjr; apply Hhit in Hjr as (? & ? & _); congruence|].
        rewrite B2, A1 in Hm' by done. congruence.
  - apply (frame_trans _ s0); [by apply frame_fields|]. apply (frame_trans _ s1); [done|]. apply (frame_trans _ s2); [done|]. by apply (frame_trans _ s3).
Qed.

(** ** A mapping is inserted *)

Lemma insert_new_spec s b m : linked ∅ ∅ s → bos_there s → is_Some (bo_vas s !! b) →
  ∃ s', amdgpu_vm_bo_insert_map senv b (new_mapping m s).1 (new_mapping m s).2 = Some s' ∧ linked ∅ ∅ s' ∧
    mappings s' = <[next_id s := m <| m_bo_va := Some b |>]> (mappings s) ∧ frame s s'.
Proof.
  intros Hl Hbo Hb. unfold new_mapping. cbn [fst snd]. set (i := next_id s). set (m' := m <| m_bo_va := Some b |>).
  set (s1 := s <| next_id ::= S |> <| mappings ::= <[i := m]> |>). set (s0 := s <| next_id := S i |>).
  assert (Hi : mappings s !! i = None) by (apply eq_None_not_Some; intros Hs%(proj1 (lk_next _ _ _ Hl)); unfold i in Hs; lia).
  unfold amdgpu_vm_bo_insert_map. assert (mappings s1 !! i = Some m) as -> by apply lookup_insert_eq. cbn [mbind option_bind].
  fold m'. assert (Heq : s1 <| mappings ::= <[i := m']> |> = s0 <| mappings ::= <[i := m']> |>).
  { unfold s1, s0. destruct s; cbn. f_equal. apply insert_insert_eq. }
  rewrite Heq. set (s2 := set_va b (λ v, v <| invalids ::= cons i |>) (s0 <| mappings ::= <[i := m']> |>)).
  assert (Hl2 : linked ({[i]} ∪ ∅) ∅ s2) by (apply linked_new; [apply linked_next; [done|unfold i; lia]|done|cbn; lia|done|done|set_solver]).
  assert (F2 : frame s s2).
  { apply (frame_trans _ (s0 <| mappings ::= <[i := m']> |>)); [by apply frame_fields|apply frame_invalids]. }
  assert (Hm2 : mappings s2 !! i = Some m') by apply lookup_insert_eq.
  destruct (linked_it_insert _ _ s2 i Hl2) as (l & Hins & _ & Hl3); [exists b; apply owner_Some; by exists m'|set_solver|].
  rewrite Hins. cbn [mbind option_bind]. set (s3 := s2 <| it := l |>) in *. change (if is_prt m then amdgpu_vm_prt_get senv s3 else s3) with (with_prt m s3).
  destruct (with_prt_same m s3) as (P1 & P2 & P3 & P4 & P5 & P6).
  assert (F3 : frame s (with_prt m s3)) by (apply (frame_trans _ s2); [done|]; apply (frame_trans _ s3); [by apply frame_fields|done]).
  destruct (mark_moved_spec b (with_prt m s3)) as (s' & Hmk & Hs & F4); [by apply (fr_dom _ _ F3)| |].
  { intros va Hv o Ho. by apply (bos_there_frame _ _ F3 Hbo b va o). }
  exists s'. split; [done|]. pose proof Hs as (S1 & S2 & S3 & S4 & _). split; [|split].
  - eapply linked_same; [exact Hs|]. eapply (linked_same _ _ s3); [by apply same_lists_fields|].
    eapply linked_sets; [| |exact Hl3]; set_solver.
  - rewrite S1, P1. reflexivity.
  - by apply (frame_trans _ (with_prt m s3)).
Qed.
End Ops.
