(* ===== verification/VmMapProof.v ===== *)
(** * Mappings of a GPU address space: requests

    Every request keeps the address space well-formed and does to it what it says: pages
    are mapped, unmapped or cleared, and others are left alone. *)

From S2P Require Import Prelude Vm VmRes VmMap VmMapOk VmMapOps.
#[local] Open Scope Z_scope.
#[local] Open Scope list_scope.

(** How far the offsets of a base go. *)
Definition bo_limit (s : space) (va : bo_va) : Z :=
  match va_bo va with
  | Some o => match bos s !! o with Some bo => bo_size bo | None => 0 end
  | None => 2 ^ 48
  end.
Definition within (s : space) (va : bo_va) (m : bo_va_mapping) : Prop :=
  0 ≤ m_offset m ∧ (4096 | m_offset m) ∧ m_offset m + (m_last m - m_start m + 1) * 4096 ≤ bo_limit s va.

(** [max] is the end of the address space; no mapping has a terabyte or more. *)
Record space_ok (max : Z) (s : space) : Prop := {
  sp_linked : linked ∅ ∅ s;
  sp_range i m : mappings s !! i = Some m → 0 ≤ m_start m ≤ m_last m ∧ m_last m < max ∧ m_last m - m_start m + 1 < 2 ^ 28;
  sp_disjoint : disjoint s;
  sp_within i m b va : mappings s !! i = Some m → m_bo_va m = Some b → bo_vas s !! b = Some va → within s va m;
  sp_bos : bos_there s;
  sp_chain o b : b ∈ default [] (chains s !! o) ↔ ∃ va, bo_vas s !! b = Some va ∧ va_bo va = Some o;
  sp_size o bo : bos s !! o = Some bo → 0 ≤ bo_size bo ≤ 2 ^ 48;
  sp_status b : b ∈ all_status s → is_Some (bo_vas s !! b);
  sp_invalidated b va : b ∈ invalidated s → bo_vas s !! b = Some va → va_bo va ≠ None;
}.

(** Page [x] is byte [off] of the buffer of the base [b], mapped with [fl]. *)
Definition mapped (s : space) (x : Z) (b : nat) (off fl : Z) : Prop :=
  ∃ i m, mappings s !! i = Some m ∧ m_bo_va m = Some b ∧ m_start m ≤ x ≤ m_last m ∧ off = m_offset m + (x - m_start m) * 4096 ∧ fl = m_flags m.
(** A mapping has the page [x], be it in use or waiting to be cleared. *)
Definition covered (s : space) (x : Z) : Prop := ∃ i m, mappings s !! i = Some m ∧ m_start m ≤ x ≤ m_last m.

(** A mapping that waits to be cleared has the page. *)
Definition waiting (s : space) (x : Z) : Prop := ∃ i m, mappings s !! i = Some m ∧ m_bo_va m = None ∧ m_start m ≤ x ≤ m_last m.
(** A mapping of [b] that was entered in the page tables has it. *)
Definition entered (s : space) (b : nat) (x : Z) : Prop :=
  ∃ va i m, bo_vas s !! b = Some va ∧ i ∈ valids va ∧ mappings s !! i = Some m ∧ m_start m ≤ x ≤ m_last m.

(** What holds of every request but those that free mappings at once. *)
Record keeps (s s' : space) : Prop := {
  kp_frame : frame s s';
  kp_valid b va i : bo_vas s' !! b = Some va → i ∈ valids va → mappings s' !! i = mappings s !! i;
  kp_cover x : covered s x → covered s' x;
  kp_wait b x : waiting s' x → entered s' b x → waiting s x;
}.

Lemma space_keeps_trans s1 s2 s3 : keeps s1 s2 → keeps s2 s3 → keeps s1 s3.
Proof.
  intros [A1 A2 A3 A4] [B1 B2 B3 B4]. split; [by apply (frame_trans _ s2)| |by auto|].
  - intros b va i Hb Hi. rewrite (B2 b va i Hb Hi). destruct (fr_va _ _ B1 b va Hb) as (va2 & Hb2 & _ & _ & _ & Hv). apply (A2 b va2 i Hb2). auto.
  - intros b x Hw He. apply (A4 b x (B4 b x Hw He)). destruct He as (va & i & m & Hb & Hi & Hm & Hx).
    destruct (fr_va _ _ B1 b va Hb) as (va2 & Hb2 & _ & _ & _ & Hv). exists va2, i, m. rewrite <- (B2 b va i Hb Hi). auto.
Qed.

Lemma bo_limit_frame s s' va va' : bos s' = bos s → va_bo va' = va_bo va → bo_limit s' va' = bo_limit s va.
Proof. unfold bo_limit. by intros -> ->. Qed.

(** The parts of [space_ok] that follow from a frame. *)
Lemma space_ok_frame max s s' : space_ok max s → frame s s' → linked ∅ ∅ s' →
  (∀ i m, mappings s' !! i = Some m → 0 ≤ m_start m ≤ m_last m ∧ m_last m < max ∧ m_last m - m_start m + 1 < 2 ^ 28) → disjoint s' →
  (∀ i m b va, mappings s' !! i = Some m → m_bo_va m = Some b → bo_vas s !! b = Some va → within s va m) → space_ok max s'.
Proof.
  intros [O1 O2 O3 O4 O5 O6 O7 O8 O9] [F1 F2 F0 F3 F4 F5 F6] Hl Hr Hd Hw. split; try done.
  - intros i m b va' Hm Hb Hva. destruct (F3 b va' Hva) as (va & Hva0 & Hbo & _). destruct (Hw i m b va Hm Hb Hva0) as (W1 & W2 & W3).
    split; [done|]. split; [done|]. by rewrite (bo_limit_frame s s' va va').
  - intros b va o Hva Ho. destruct (F3 b va Hva) as (va0 & H0 & Hbo & _). rewrite F2. apply (O5 b va0 o H0). congruence.
  - intros o b. rewrite F0, O6. split.
    + intros (va & Hva & Ho). destruct (F4 b ltac:(by eexists)) as [va' Hva']. exists va'. split; [done|].
      destruct (F3 b va' Hva') as (va0 & H0 & Hbo & _). congruence.
    + intros (va' & Hva' & Ho). destruct (F3 b va' Hva') as (va0 & H0 & Hbo & _). exists va0. split; [done|congruence].
  - intros o bo. rewrite F2. apply O7.
  - intros b Hb. apply F4. destruct (F5 b Hb) as [|]; [by apply O8|done].
  - intros b va' Hb Hva'. destruct (F3 b va' Hva') as (va0 & H0 & Hbo & _). rewrite Hbo. apply (O9 b va0); [by apply F6|done].
Qed.

(** ** Clearing *)

Section Clear.
Context (max saddr eaddr : Z) (s s' : space) (Hse : 0 ≤ saddr ≤ eaddr) (O : space_ok max s) (C : cleared_range saddr eaddr s s').

Lemma hit_dec m : in_use m → hit saddr eaddr m ∨ (m_last m < saddr ∨ eaddr < m_start m).
Proof. intros Hu. unfold hit. destruct (decide (m_start m ≤ eaddr)), (decide (saddr ≤ m_last m)); [by left|right; lia..]. Qed.

Lemma after_offset i m b : mappings s !! i = Some m → m_bo_va m = Some b → eaddr < m_last m → saddr ≤ m_last m → m_start m ≤ eaddr →
  m_offset (after_of eaddr m) = m_offset m + (eaddr + 1 - m_start m) * 4096.
Proof.
  intros Hm Hb Hlt H1 H2. destruct (lk_owner _ _ _ (sp_linked _ _ O) i b) as [va Hva]; [apply owner_Some; by exists m|].
  destruct (sp_within _ _ O i m b va Hm Hb Hva) as (W1 & W2 & W3). pose proof (sp_range _ _ O i m Hm).
  assert (bo_limit s va ≤ 2 ^ 48).
  { unfold bo_limit. destruct (va_bo va) as [o|] eqn:Ho; [|lia]. destruct (bos s !! o) as [bo|] eqn:Hbo; [apply (sp_size _ _ O o bo Hbo)|lia]. }
  change (m_offset (after_of eaddr m)) with (u64 (m_offset m + u64 (Z.shiftl (eaddr + 1 - m_start m) 12))).
  rewrite Z.shiftl_mul_pow2 by lia. change (2 ^ 12) with 4096. rewrite (wrap_small 64 (_ * 4096)) by (unfold in_width; lia).
  rewrite wrap_small by (unfold in_width; lia). done.
Qed.

(** Where a mapping in use comes from. *)
Lemma origin j m' : mappings s' !! j = Some m' → in_use m' →
  (mappings s !! j = Some m' ∧ (m_last m' < saddr ∨ eaddr < m_start m')) ∨
  ∃ i m, mappings s !! i = Some m ∧ hit saddr eaddr m ∧
    ((j = next_id s ∧ m_start m < saddr ∧ m' = before_of saddr m) ∨ (j = S (next_id s) ∧ eaddr < m_last m ∧ m' = after_of eaddr m)).
Proof.
  intros Hm' Hu. destruct (mappings s !! j) as [m|] eqn:Hm.
  - left. destruct (decide (in_use m)) as [Hum|Hum].
    + destruct (hit_dec m Hum) as [Hh|Hh].
      * rewrite (cr_hit _ _ _ _ C j m Hm Hh) in Hm'. injection Hm' as <-. by destruct Hu.
      * assert (m' = m) as ->; [|done]. rewrite (cr_miss _ _ _ _ C j m Hm) in Hm'; [congruence|]. intros (_ & ? & ?). lia.
    + rewrite (cr_miss _ _ _ _ C j m Hm) in Hm'; [congruence|]. by intros [? _].
  - right. by apply (cr_new _ _ _ _ C j m').
Qed.

Lemma clear_disjoint : disjoint s'.
Proof.
  intros i j m m' Hij Hm Hm' Hu Hu'. pose proof (sp_disjoint _ _ O) as Hd.
  destruct (origin i m Hm Hu) as [[H1 Hout]|(i0 & mi & Hmi & (Hui & Hi1 & Hi2) & Hci)]; destruct (origin j m' Hm' Hu') as [[H1' Hout']|(j0 & mj & Hmj & (Huj & Hj1 & Hj2) & Hcj)].
  - by apply (Hd i j).
  - assert (i ≠ j0) by (intros ->; assert (m = mj) as -> by congruence; lia). destruct (Hd i j0 m mj ltac:(done) H1 Hmj Hu Huj);
      destruct Hcj as [(_ & ? & ->)|(_ & ? & ->)]; cbn; lia.
  - assert (j ≠ i0) by (intros ->; assert (m' = mi) as -> by congruence; lia). destruct (Hd j i0 m' mi ltac:(done) H1' Hmi Hu' Hui);
      destruct Hci as [(_ & ? & ->)|(_ & ? & ->)]; cbn; lia.
  - destruct (decide (i0 = j0)) as [->|Hne].
    + assert (mi = mj) as -> by congruence. destruct Hci as [(-> & ? & ->)|(-> & ? & ->)], Hcj as [(-> & ? & ->)|(-> & ? & ->)]; try done; cbn; lia.
    + destruct (Hd i0 j0 mi mj Hne Hmi Hmj Hui Huj); destruct Hci as [(-> & ? & ->)|(-> & ? & ->)], Hcj as [(-> & ? & ->)|(-> & ? & ->)]; try done; cbn; lia.
Qed.

Lemma clear_ok : space_ok max s'.
Proof.
  apply (space_ok_frame max s); [done|apply (cr_frame _ _ _ _ C)|apply (cr_linked _ _ _ _ C)| |apply clear_disjoint|].
  - intros i m Hm. destruct (mappings s !! i) as [m0|] eqn:Hm0.
    + pose proof (sp_range _ _ O i m0 Hm0) as Hr. destruct (decide (in_use m0)) as [Hu|Hu]; [destruct (hit_dec m0 Hu) as [Hh|Hh]|].
      * rewrite (cr_hit _ _ _ _ C i m0 Hm0 Hh) in Hm. injection Hm as <-. destruct Hh as (_ & ? & ?). cbn. lia.
      * rewrite (cr_miss _ _ _ _ C i m0 Hm0) in Hm; [by injection Hm as <-|]. intros (_ & ? & ?). lia.
      * rewrite (cr_miss _ _ _ _ C i m0 Hm0) in Hm; [by injection Hm as <-|]. by intros [? _].
    + destruct (cr_new _ _ _ _ C i m Hm0 Hm) as (k & mk & Hmk & (_ & ? & ?) & Hc). pose proof (sp_range _ _ O k mk Hmk).
      destruct Hc as [(_ & ? & ->)|(_ & ? & ->)]; cbn; lia.
  - intros i m b va Hm Hb Hva. destruct (origin i m Hm ltac:(by exists b)) as [[Hm0 _]|(k & mk & Hmk & (Hu & ? & ?) & Hc)]; [by apply (sp_within _ _ O i m b va)|].
    assert (Hbk : m_bo_va mk = Some b) by (destruct Hc as [(_ & _ & ->)|(_ & _ & ->)]; exact Hb).
    destruct (sp_within _ _ O k mk b va Hmk Hbk Hva) as (W1 & W2 & W3). pose proof (sp_range _ _ O k mk Hmk). destruct Hc as [(_ & ? & ->)|(_ & ? & ->)].
    + split; [done|]. split; [done|]. cbn. lia.
    + unfold within. rewrite (after_offset k mk b) by (done || lia). split; [lia|]. split; [apply Z.divide_add_r; [done|apply Z.divide_factor_r]|].
      change (m_start (after_of eaddr mk)) with (eaddr + 1). change (m_last (after_of eaddr mk)) with (m_last mk). lia.
Qed.

Lemma clear_mapped x b off fl : mapped s' x b off fl ↔ mapped s x b off fl ∧ ¬ saddr ≤ x ≤ eaddr.
Proof.
  split.
  - intros (j & m' & Hm' & Hb & Hx & -> & ->). destruct (origin j m' Hm' ltac:(by exists b)) as [[Hm0 Hout]|(k & mk & Hmk & (Hu & ? & ?) & Hc)].
    + split; [|lia]. by exists j, m'.
    + destruct Hc as [(_ & ? & ->)|(_ & ? & ->)]; cbn [before_of] in *.
      * change (m_start mk ≤ x ≤ saddr - 1) in Hx. split; [|lia]. exists k, mk. split_and!; try done; lia.
      * change (eaddr + 1 ≤ x ≤ m_last mk) in Hx. split; [|lia]. exists k, mk. rewrite (after_offset k mk b) by (done || lia).
        change (m_start (after_of eaddr mk)) with (eaddr + 1). split_and!; try done; lia.
  - intros [(i & m & Hm & Hb & Hx & -> & ->) Hout]. destruct (hit_dec m ltac:(by exists b)) as [Hh|Hh].
    + pose proof Hh as (_ & ? & ?). destruct (decide (x < saddr)) as [Hlt|Hge].
      * destruct (cr_before _ _ _ _ C i m Hm Hh ltac:(lia)) as [_ Hp]. exists (next_id s), (before_of saddr m). split; [done|]. split; [done|].
        split; [change (m_start m ≤ x ≤ saddr - 1); lia|done].
      * destruct (cr_after _ _ _ _ C i m Hm Hh ltac:(lia)) as [_ Hp]. exists (S (next_id s)), (after_of eaddr m). split; [done|]. split; [done|].
        rewrite (after_offset i m b) by (done || lia). change (m_start (after_of eaddr m)) with (eaddr + 1). change (m_last (after_of eaddr m)) with (m_last m).
        split_and!; try done; lia.
    + exists i, m. split_and!; try done; try lia. apply (cr_miss _ _ _ _ C); [done|]. intros (_ & ? & ?). lia.
Qed.

Lemma clear_keeps : keeps s s'.
Proof.
  split; [apply (cr_frame _ _ _ _ C)| | |].
  - intros b va i Hva Hi. pose proof (proj1 (lk_list _ _ _ (cr_linked _ _ _ _ C) b va i Hva) ltac:(by left)) as [Ho _]. apply owner_Some in Ho as (m & Hm & Hb).
    destruct (origin i m Hm ltac:(by exists b)) as [[Hm0 _]|(k & mk & Hmk & _ & Hc)]; [congruence|exfalso].
    destruct (fr_va _ _ (cr_frame _ _ _ _ C) b va Hva) as (va0 & Hva0 & _ & _ & _ & Hv). pose proof (proj1 (lk_list _ _ _ (sp_linked _ _ O) b va0 i Hva0) ltac:(left; auto)) as [Ho _].
    apply owner_Some in Ho as (m0 & Hm0 & _). pose proof (proj1 (lk_next _ _ _ (sp_linked _ _ O)) i ltac:(by eexists)). destruct Hc as [(-> & _)|(-> & _)]; lia.
  - intros x (i & m & Hm & Hx). destruct (decide (in_use m)) as [Hu|Hu].
    2:{ exists i, m. split; [|done]. apply (cr_miss _ _ _ _ C); [done|]. by intros [? _]. }
    destruct (hit_dec m Hu) as [Hh|Hh].
    2:{ exists i, m. split; [|done]. apply (cr_miss _ _ _ _ C); [done|]. intros (_ & ? & ?). lia. }
    destruct (decide (x < saddr)) as [Hlt|Hge]; [|destruct (decide (eaddr < x)) as [Hgt|Hle]].
    + destruct (cr_before _ _ _ _ C i m Hm Hh ltac:(lia)) as [_ Hp]. do 2 eexists. split; [exact Hp|]. change (m_start m ≤ x ≤ saddr - 1). lia.
    + destruct (cr_after _ _ _ _ C i m Hm Hh ltac:(lia)) as [_ Hp]. do 2 eexists. split; [exact Hp|]. change (eaddr + 1 ≤ x ≤ m_last m). lia.
    + do 2 eexists. split; [apply (cr_hit _ _ _ _ C i m Hm Hh)|]. cbn. lia.
  - intros b x (j & m' & Hm' & Hn & Hx) (va & i & mi & Hva & Hi & Hmi & Hxi).
    pose proof (proj1 (lk_list _ _ _ (cr_linked _ _ _ _ C) b va i Hva) ltac:(by left)) as [Ho _]. apply owner_Some in Ho as (mi' & Hmi' & Hb).
    assert (mi' = mi) as -> by congruence. assert (Hmp : mapped s' x b (m_offset mi + (x - m_start mi) * 4096) (m_flags mi)) by by exists i, mi.
    apply clear_mapped in Hmp as [_ Hout]. destruct (mappings s !! j) as [m|] eqn:Hm.
    + destruct (decide (in_use m)) as [Hu|Hu].
      * destruct (hit_dec m Hu) as [Hh|Hh].
        -- rewrite (cr_hit _ _ _ _ C j m Hm Hh) in Hm'. injection Hm' as <-. cbn in Hx. destruct Hh as (_ & ? & ?). exfalso. apply Hout. lia.
        -- exists j, m. rewrite (cr_miss _ _ _ _ C j m Hm) in Hm'; [by injection Hm' as <-|]. intros (_ & ? & ?). lia.
      * exists j, m. rewrite (cr_miss _ _ _ _ C j m Hm) in Hm'; [by injection Hm' as <-|]. by intros [? _].
    + destruct (cr_new _ _ _ _ C j m' Hm Hm') as (k & mk & Hmk & (Hu & _) & [(_ & _ & ->)|(_ & _ & ->)]); change (m_bo_va mk = None) in Hn; destruct Hu; congruence.
Qed.
End Clear.

(** ** Inserting *)

Definition free_range (s : space) (saddr eaddr : Z) : Prop := ∀ i m, mappings s !! i = Some m → ¬ hit saddr eaddr m.

Section Insert.
Context (max : Z) (s s' : space) (b : nat) (m : bo_va_mapping) (O : space_ok max s).
Context (Hl : linked ∅ ∅ s') (Hm : mappings s' = <[next_id s := m <| m_bo_va := Some b |>]> (mappings s)) (F : frame s s').
Context (Hr : 0 ≤ m_start m ≤ m_last m ∧ m_last m < max ∧ m_last m - m_start m + 1 < 2 ^ 28) (Hfree : free_range s (m_start m) (m_last m)).

Lemma insert_lookup i : mappings s' !! i = if decide (i = next_id s) then Some (m <| m_bo_va := Some b |>) else mappings s !! i.
Proof. rewrite Hm. destruct (decide _) as [->|]; [by rewrite lookup_insert_eq|by rewrite lookup_insert_ne]. Qed.

Lemma insert_fresh : mappings s !! next_id s = None.
Proof. apply eq_None_not_Some. intros Hs%(proj1 (lk_next _ _ _ (sp_linked _ _ O))). lia. Qed.

Lemma insert_ok : (∀ va, bo_vas s !! b = Some va → within s va m) → space_ok max s'.
Proof.
  intros Hw. apply (space_ok_frame max s); try done.
  - intros i mi. rewrite insert_lookup. destruct (decide _); [by intros [= <-]|]. apply (sp_range _ _ O).
  - intros i j mi mj Hij. rewrite !insert_lookup. destruct (decide (i = _)) as [->|Hi], (decide (j = _)) as [->|Hj]; [done| | |by apply (sp_disjoint _ _ O)].
    + intros [= <-] Hmj _ Hu. pose proof (Hfree j mj Hmj) as Hno. unfold hit in Hno. cbn. destruct (decide (m_start mj ≤ m_last m)), (decide (m_start m ≤ m_last mj)); [tauto|lia..].
    + intros Hmi [= <-] Hu _. pose proof (Hfree i mi Hmi) as Hno. unfold hit in Hno. cbn. destruct (decide (m_start mi ≤ m_last m)), (decide (m_start m ≤ m_last mi)); [tauto|lia..].
  - intros i mi b' va. rewrite insert_lookup. destruct (decide _); [|apply (sp_within _ _ O)]. intros [= <-] [= <-] Hva. by apply Hw.
Qed.

Lemma insert_mapped x b' off fl : mapped s' x b' off fl ↔
  (m_start m ≤ x ≤ m_last m ∧ b' = b ∧ off = m_offset m + (x - m_start m) * 4096 ∧ fl = m_flags m) ∨ mapped s x b' off fl.
Proof.
  split.
  - intros (i & mi & Hmi & Hb & Hx & -> & ->). rewrite insert_lookup in Hmi. destruct (decide _).
    + injection Hmi as <-. injection Hb as <-. by left.
    + right. by exists i, mi.
  - intros [(Hx & -> & -> & ->)|(i & mi & Hmi & Hb & Hx & -> & ->)].
    + exists (next_id s), (m <| m_bo_va := Some b |>). rewrite insert_lookup, decide_True by done. done.
    + exists i, mi. rewrite insert_lookup, decide_False; [done|]. intros ->. by rewrite insert_fresh in Hmi.
Qed.

Lemma insert_keeps : keeps s s'.
Proof.
  split; [done| | |].
  - intros b' va i Hva Hi. rewrite insert_lookup, decide_False; [done|]. intros ->.
    destruct (fr_va _ _ F b' va Hva) as (va0 & Hva0 & _ & _ & _ & Hv). pose proof (proj1 (lk_list _ _ _ (sp_linked _ _ O) b' va0 (next_id s) Hva0) ltac:(left; auto)) as [Ho _].
    apply owner_Some in Ho as (m0 & Hm0 & _). by rewrite insert_fresh in Hm0.
  - intros x (i & mi & Hmi & Hx). exists i, mi. rewrite insert_lookup, decide_False; [done|]. intros ->. by rewrite insert_fresh in Hmi.
  - intros b' x (i & mi & Hmi & Hn & Hx) _. exists i, mi. rewrite insert_lookup in Hmi. destruct (decide _); [by injection Hmi as <-|done].
Qed.
End Insert.

(** ** Arguments *)

Definition u64_args (saddr offset size : Z) : Prop := 0 ≤ saddr < 2 ^ 64 ∧ 0 ≤ offset < 2 ^ 64 ∧ 0 ≤ size < 2 ^ 64.

Lemma page_mask a : Z.land a AMDGPU_GPU_PAGE_MASK = a `mod` 4096.
Proof. change AMDGPU_GPU_PAGE_MASK with (Z.ones 12). by rewrite Z.land_ones. Qed.

Lemma page_aligned a : nz (Z.land a AMDGPU_GPU_PAGE_MASK) = false → (4096 | a).
Proof. rewrite page_mask. intros H%nz_false. by apply Z.mod_divide. Qed.

(** The pages of a request. *)
Definition first_page (saddr : Z) : Z := saddr / AMDGPU_GPU_PAGE_SIZE.
Definition last_page (saddr size : Z) : Z := saddr / AMDGPU_GPU_PAGE_SIZE + (size - 1) / AMDGPU_GPU_PAGE_SIZE.

Lemma verify_args_spec adev bo saddr offset size : u64_args saddr offset size →
  (amdgpu_vm_verify_parameters adev bo saddr offset size = 0 ∧ (4096 | offset) ∧ (∀ b, bo = Some b → offset + size ≤ bo_size b) ∧
     0 ≤ first_page saddr ≤ last_page saddr size ∧ last_page saddr size < max_pfn adev ∧
     size = (last_page saddr size - first_page saddr + 1) * 4096) ∨
  amdgpu_vm_verify_parameters adev bo saddr offset size = -EINVAL.
Proof.
  intros (Hs & Ho & Hz). unfold amdgpu_vm_verify_parameters. destruct (_ || _ || _) eqn:Hmask; [by right|].
  apply orb_false_iff in Hmask as [[M1%page_aligned M2%page_aligned]%orb_false_iff M3%page_aligned].
  destruct (Z.leb_spec (2 ^ 64) (saddr + size)) as [|H1]; [by right|]. destruct (Z.leb_spec (2 ^ 64) (offset + size)) as [|H2]; [by right|]. cbn [orb].
  destruct (Z.eqb_spec size 0) as [|H3]; [by right|]. rewrite (wrap_small 64 (offset + size)) by (unfold in_width; lia).
  rewrite (wrap_small 64 (saddr + size - 1)) by (unfold in_width; lia). rewrite Z.shiftr_div_pow2 by (unfold AMDGPU_GPU_PAGE_SHIFT; lia). change (2 ^ AMDGPU_GPU_PAGE_SHIFT) with 4096.
  destruct M1 as [p ->], M3 as [q ->]. unfold first_page, last_page, AMDGPU_GPU_PAGE_SIZE in *. rewrite Z.div_mul by lia.
  assert (Hq : (q * 4096 - 1) / 4096 = q - 1) by (symmetry; apply (Z.div_unique _ _ _ 4095); lia).
  assert (Hpq : (p * 4096 + q * 4096 - 1) / 4096 = p + q - 1) by (symmetry; apply (Z.div_unique _ _ _ 4095); lia). rewrite Hpq.
  destruct (match bo with Some b => bo_size b <? offset + q * 4096 | None => false end) eqn:Hbo; [by right|].
  destruct (Z.leb_spec (max_pfn adev) (p + q - 1)) as [|H4]; [by right|]. left. rewrite Hq. split; [done|]. split; [done|]. split.
  - intros b ->. by apply Z.ltb_ge in Hbo.
  - lia.
Qed.

(** ** What a lookup sees *)

(** Page [x] as a lookup finds it: base, offset and flags. *)
Definition view (s : space) (x : Z) : option (nat * Z * Z) :=
  o ← amdgpu_vm_bo_lookup_mapping s x;
  i ← o;
  m ← mappings s !! i;
  b ← m_bo_va m;
  Some (b, m_offset m + (x - m_start m) * 4096, m_flags m).

Lemma mapped_fun max s x b off fl b' off' fl' : space_ok max s → mapped s x b off fl → mapped s x b' off' fl' → b = b' ∧ off = off' ∧ fl = fl'.
Proof.
  intros O (i & m & Hm & Hb & Hx & -> & ->) (j & m' & Hm' & Hb' & Hx' & -> & ->). destruct (decide (i = j)) as [->|Hij].
  - assert (m = m') as -> by congruence. split; [congruence|done].
  - destruct (sp_disjoint _ _ O i j m m' Hij Hm Hm'); [by exists b|by exists b'|lia|lia].
Qed.

Lemma view_mapped max s x b off fl : space_ok max s → view s x = Some (b, off, fl) ↔ mapped s x b off fl.
Proof.
  intros O. unfold view, amdgpu_vm_bo_lookup_mapping, amdgpu_vm_it_iter_first.
  destruct (it_overlap_spec _ _ s x x (sp_linked _ _ O)) as (l & -> & Hnd & Hin). cbn [mbind option_bind].
  assert (Hfound : ∀ i, i ∈ l → ∃ m c, mappings s !! i = Some m ∧ m_bo_va m = Some c ∧ m_start m ≤ x ≤ m_last m).
  { intros i [Hi (m & Hm & Ho)]%Hin. apply (lk_tree _ _ _ (sp_linked _ _ O)) in Hi as [[c Hc] _]. apply owner_Some in Hc as (m2 & Hm2 & Hc).
    exists m, c. split; [done|]. split; [congruence|]. unfold overlaps in Ho. apply andb_true_iff in Ho as [?%Z.leb_le ?%Z.leb_le]. lia. }
  split.
  - destruct l as [|i l]; [done|]. cbn [head mbind option_bind]. destruct (Hfound i ltac:(left)) as (m & c & Hm & Hc & Hx).
    rewrite Hm. cbn [mbind option_bind]. rewrite Hc. cbn [mbind option_bind]. intros [= <- <- <-]. by exists i, m.
  - intros (i & m & Hm & Hb & Hx & -> & ->).
    assert (Hi : i ∈ l).
    { apply Hin. split; [apply (lk_tree _ _ _ (sp_linked _ _ O)); split; [exists b; apply owner_Some; by exists m|set_solver]|].
      exists m. split; [done|]. unfold overlaps. apply andb_true_iff. split; apply Z.leb_le; lia. }
    destruct l as [|j l]; [by apply elem_of_nil in Hi|]. cbn [head mbind option_bind]. destruct (Hfound j ltac:(left)) as (m' & c & Hm' & Hc & Hx').
    destruct (decide (i = j)) as [<-|Hij].
    + rewrite Hm. cbn [mbind option_bind]. by rewrite Hb.
    + exfalso. destruct (sp_disjoint _ _ O i j m m' Hij Hm Hm'); [by exists b|by exists c|lia|lia].
Qed.

Lemma view_none max s x : space_ok max s → view s x = None ↔ ∀ b off fl, ¬ mapped s x b off fl.
Proof.
  intros O. split.
  - intros Hn b off fl Hm%(view_mapped max); congruence.
  - intros Hno. destruct (view s x) as [[[b off] fl]|] eqn:Hv; [|done]. by apply (view_mapped max), Hno in Hv.
Qed.

(** Two address spaces that map a page alike. *)
Lemma view_same max s s' x : space_ok max s → space_ok max s' → (∀ b off fl, mapped s' x b off fl ↔ mapped s x b off fl) → view s' x = view s x.
Proof.
  intros O O' Hm. destruct (view s x) as [[[b off] fl]|] eqn:Hv.
  - apply (view_mapped max), Hm; [done|]. by apply (view_mapped max).
  - apply (view_none max); [done|]. intros b off fl Hx%Hm. by apply (view_none max s x O) with b off fl in Hv.
Qed.

(** ** Requests *)

Lemma frame_keeps s s' : frame s s' → mappings s' = mappings s → keeps s s'.
Proof.
  intros F Hm. split; [done|by rewrite Hm| |].
  - intros x (i & m & Hi & Hx). exists i, m. by rewrite Hm.
  - intros b x (i & m & Hi & Hx) _. exists i, m. by rewrite <- Hm.
Qed.

Lemma same_space_ok max s s' : space_ok max s → frame s s' → same_lists s s' → space_ok max s'.
Proof.
  intros O F Hs. pose proof Hs as (Hm & _). apply (space_ok_frame max s); try done.
  - eapply linked_same; [done|apply O].
  - rewrite Hm. apply O.
  - intros i j m m'. rewrite Hm. apply O.
  - rewrite Hm. apply O.
Qed.

Section Requests.
Context (adev : amdgpu_device) (senv : space_env).
Abbreviation max := (max_pfn adev).

Lemma ask_frame s : frame s (ask_space s).
Proof. by apply frame_fields. Qed.
Lemma ask_ok s : space_ok max s → space_ok max (ask_space s).
Proof. intros O. apply (same_space_ok max s); [done|apply ask_frame|done]. Qed.
Lemma ask_keeps s : keeps s (ask_space s).
Proof. apply frame_keeps; [apply ask_frame|done]. Qed.

Lemma get_bo_spec s b va : space_ok max s → bo_vas s !! b = Some va →
  ∃ bo, get_bo s (va_bo va) = Some bo ∧ bo_limit s va = match bo with Some bo => bo_size bo | None => 2 ^ 48 end ∧ (bo = None ↔ va_bo va = None).
Proof.
  intros O Hva. unfold get_bo, bo_limit. destruct (va_bo va) as [o|] eqn:Ho; [|by exists None].
  destruct (sp_bos _ _ O b va o Hva Ho) as [bo Hbo]. rewrite Hbo. by exists (Some bo).
Qed.

(** What a request to map says. *)
Definition maps_range (s s' : space) (b : nat) (saddr offset size flags : Z) : Prop := ∀ x b' off fl, mapped s' x b' off fl ↔
  (first_page saddr ≤ x ≤ last_page saddr size ∧ b' = b ∧ off = offset + (x - first_page saddr) * 4096 ∧ fl = flags) ∨
  (mapped s x b' off fl ∧ ¬ first_page saddr ≤ x ≤ last_page saddr size).

Lemma insert_request s b va saddr offset size flags : space_ok max s → bo_vas s !! b = Some va →
  0 ≤ first_page saddr ≤ last_page saddr size → last_page saddr size < max → size = (last_page saddr size - first_page saddr + 1) * 4096 → size < 2 ^ 40 →
  0 ≤ offset → (4096 | offset) → offset + size ≤ bo_limit s va → free_range s (first_page saddr) (last_page saddr size) →
  let m := mk_mapping (first_page saddr) (last_page saddr size) offset flags None in
  ∃ s', amdgpu_vm_bo_insert_map senv b (new_mapping m s).1 (new_mapping m s).2 = Some s' ∧ space_ok max s' ∧ keeps s s' ∧ maps_range s s' b saddr offset size flags.
Proof.
  intros O Hva Hr Hmax Hsz Hbig Ho0 Hoa Hob Hfree m. destruct (insert_new_spec senv s b m (sp_linked _ _ O) (sp_bos _ _ O) ltac:(by eexists)) as (s' & Hi & Hl & Hm & F).
  exists s'. split; [exact Hi|]. split; [|split].
  - apply (insert_ok max s s' b m); try done; [cbn; lia|]. intros va' Hva'. assert (va' = va) as -> by congruence. split; [done|]. split; [done|]. cbn. lia.
  - by apply (insert_keeps max s s' b m).
  - intros x b' off fl. rewrite (insert_mapped max s s' b m O Hm). split; [intros [?|Hmx]; [by left|right]|intros [?|[? _]]; [by left|by right]].
    split; [done|]. destruct Hmx as (i & mi & Hmi & Hb & Hx & _). intros Hin. apply (Hfree i mi Hmi). split; [by exists b'|lia].
Qed.

(** [r] is what a failed allocation gives. *)
Lemma map_spec s b va saddr offset size flags : space_ok max s → bo_vas s !! b = Some va → u64_args saddr offset size → size < 2 ^ 40 → (va_bo va = None → offset + size ≤ 2 ^ 48) →
  ∃ s' r, amdgpu_vm_bo_map adev senv b saddr offset size flags s = Some (s', r) ∧ space_ok max s' ∧ keeps s s' ∧
    ((r = 0 ∧ free_range s (first_page saddr) (last_page saddr size) ∧ maps_range s s' b saddr offset size flags) ∨
     ((r = -EINVAL ∨ (r = -ENOMEM ∧ malloc_fails senv (asked s) = true)) ∧ mappings s' = mappings s)).
Proof.
  intros O Hva Ha Hbig Hnb. unfold amdgpu_vm_bo_map, get_va. rewrite Hva. cbn [mbind option_bind].
  destruct (get_bo_spec s b va O Hva) as (bo & Hbo & Hlim & Hbn). rewrite Hbo. cbn [mbind option_bind].
  destruct (verify_args_spec adev bo saddr offset size Ha) as [(-> & V1 & V2 & V3 & V4 & V5)| ->].
  2:{ exists s, (-EINVAL). split; [done|]. split; [done|]. split; [by apply frame_keeps; [apply frame_refl|]|]. right. split; [by left|done]. }
  change (nz 0) with false. cbv iota. change (saddr / AMDGPU_GPU_PAGE_SIZE) with (first_page saddr).
  change (first_page saddr + (size - 1) / AMDGPU_GPU_PAGE_SIZE) with (last_page saddr size).
  unfold amdgpu_vm_it_iter_first. destruct (it_overlap_spec _ _ s (first_page saddr) (last_page saddr size) (sp_linked _ _ O)) as (l & -> & _ & Hin).
  cbn [mbind option_bind]. destruct l as [|i l]; cbn [head].
  2:{ exists s, (-EINVAL). split; [done|]. split; [done|]. split; [by apply frame_keeps; [apply frame_refl|]|]. right. split; [by left|done]. }
  destruct (malloc_fails senv (asked s)) eqn:Hmal.
  { exists (ask_space s), (-ENOMEM). split; [done|]. split; [by apply ask_ok|]. split; [apply ask_keeps|]. right. split; [by right|done]. }
  assert (Hfree : free_range s (first_page saddr) (last_page saddr size)).
  { intros j m Hm [[c Hc] ?]. assert (Hj : j ∈ ([] : list nat)); [|by apply elem_of_nil in Hj]. apply Hin. split.
    - apply (lk_tree _ _ _ (sp_linked _ _ O)). split; [exists c; apply owner_Some; by exists m|set_solver].
    - exists m. split; [done|]. apply andb_true_iff. split; apply Z.leb_le; lia. }
  destruct (insert_request (ask_space s) b va saddr offset size flags) as (s' & Hi & O' & K & M); try done; [by apply ask_ok|apply Ha| |].
  { change (bo_limit (ask_space s) va) with (bo_limit s va). rewrite Hlim. destruct bo as [bo|]; [by apply V2|]. apply Hnb. by apply Hbn. }
  exists s', 0. unfold new_mapping in Hi |- *. cbn [fst snd] in Hi. rewrite Hi. split; [done|]. split; [done|]. split; [apply (space_keeps_trans _ (ask_space s)); [apply ask_keeps|done]|].
  left. by split_and!.
Qed.

Definition clears_range (s s' : space) (saddr size : Z) : Prop := ∀ x b off fl, mapped s' x b off fl ↔ mapped s x b off fl ∧ ¬ first_page saddr ≤ x ≤ last_page saddr size.

Lemma map_clear_spec s saddr size : space_ok max s → u64_args saddr 0 size →
  ∃ s' r, amdgpu_vm_bo_clear_mappings adev senv saddr size s = Some (s', r) ∧ space_ok max s' ∧ keeps s s' ∧
    ((r = 0 ∧ 0 ≤ first_page saddr ≤ last_page saddr size ∧ clears_range s s' saddr size ∧ free_range s' (first_page saddr) (last_page saddr size)) ∨
     ((r = -EINVAL ∨ (r = -ENOMEM ∧ ∃ k, malloc_fails senv k = true)) ∧ mappings s' = mappings s)).
Proof.
  intros O Ha. unfold amdgpu_vm_bo_clear_mappings. destruct (verify_args_spec adev None saddr 0 size Ha) as [(-> & _ & _ & V3 & V4 & V5)| ->].
  2:{ exists s, (-EINVAL). split; [done|]. split; [done|]. split; [by apply frame_keeps; [apply frame_refl|]|]. right. split; [by left|done]. }
  change (nz 0) with false. cbv iota. change (saddr / AMDGPU_GPU_PAGE_SIZE) with (first_page saddr).
  change (first_page saddr + (size - 1) / AMDGPU_GPU_PAGE_SIZE) with (last_page saddr size).
  set (s1 := ask_space s). destruct (malloc_fails senv (asked s)) eqn:Hm1.
  { exists s1, (-ENOMEM). split; [done|]. split; [by apply ask_ok|]. split; [apply ask_keeps|]. right. split; [right; split; [done|by eexists]|done]. }
  set (s2 := ask_space s1). assert (K2 : keeps s s2) by (apply (space_keeps_trans _ s1); apply ask_keeps). assert (O2 : space_ok max s2) by by do 2 apply ask_ok.
  destruct (malloc_fails senv (asked s1)) eqn:Hm2.
  { exists s2, (-ENOMEM). split; [done|]. split; [done|]. split; [done|]. right. split; [right; split; [done|by eexists]|done]. }
  set (s3 := s2 <| next_id := S (S (next_id s2)) |>). destruct (it_overlap_spec _ _ s3 (first_page saddr) (last_page saddr size)
    (linked_next _ _ _ _ (sp_linked _ _ O2) (Nat.le_trans _ _ _ (Nat.le_succ_diag_r _) (Nat.le_succ_diag_r _)))) as (l & -> & Hnd & Hin). cbn [mbind option_bind].
  destruct (clear_loops senv (first_page saddr) (last_page saddr size) s2 l ltac:(lia) (sp_linked _ _ O2) (sp_disjoint _ _ O2) (sp_bos _ _ O2) Hnd Hin)
    as (a1 & a2 & a3 & a4 & removed & G1 & G2 & G3 & G4 & C).
  fold s3 in G1. rewrite G1. cbn [mbind option_bind]. rewrite G2. cbn [mbind option_bind]. rewrite G3. cbn [mbind option_bind]. rewrite G4. cbn [mbind option_bind].
  exists a4, 0. split; [done|]. split; [apply (clear_ok max _ _ s2 a4 V3 O2 C)|]. split; [apply (space_keeps_trans _ s2); [done|by apply (clear_keeps max _ _ s2 a4 V3 O2 C)]|].
  left. split; [done|]. split; [lia|]. split.
  - intros x b off fl. apply (clear_mapped max _ _ s2 a4 V3 O2 C).
  - intros i m Hm Hh. pose proof Hh as ([b Hb] & ? & ?). pose proof (sp_range _ _ (clear_ok max _ _ s2 a4 V3 O2 C) i m Hm).
    assert (Hmx : mapped a4 (Z.max (m_start m) (first_page saddr)) b (m_offset m + (Z.max (m_start m) (first_page saddr) - m_start m) * 4096) (m_flags m)) by (exists i, m; split_and!; (done || lia)).
    apply (clear_mapped max _ _ s2 a4 V3 O2 C) in Hmx as [_ Hmx]. lia.
Qed.

Lemma replace_spec s b va saddr offset size flags : space_ok max s → bo_vas s !! b = Some va → u64_args saddr offset size → size < 2 ^ 40 → (va_bo va = None → offset + size ≤ 2 ^ 48) →
  ∃ s' r, amdgpu_vm_bo_replace_map adev senv b saddr offset size flags s = Some (s', r) ∧ space_ok max s' ∧ keeps s s' ∧
    ((r = 0 ∧ maps_range s s' b saddr offset size flags) ∨ ((r = -EINVAL ∨ (r = -ENOMEM ∧ ∃ k, malloc_fails senv k = true)) ∧ mappings s' = mappings s)).
Proof.
  intros O Hva Ha Hbig Hnb. unfold amdgpu_vm_bo_replace_map, get_va. rewrite Hva. cbn [mbind option_bind].
  destruct (get_bo_spec s b va O Hva) as (bo & Hbo & Hlim & Hbn). rewrite Hbo. cbn [mbind option_bind].
  destruct (verify_args_spec adev bo saddr offset size Ha) as [(-> & V1 & V2 & V3 & V4 & V5)| ->].
  2:{ exists s, (-EINVAL). split; [done|]. split; [done|]. split; [by apply frame_keeps; [apply frame_refl|]|]. right. split; [by left|done]. }
  change (nz 0) with false. cbv iota. destruct (malloc_fails senv (asked s)) eqn:Hmal.
  { exists (ask_space s), (-ENOMEM). split; [done|]. split; [by apply ask_ok|]. split; [apply ask_keeps|]. right. split; [right; split; [done|by eexists]|done]. }
  destruct (map_clear_spec (ask_space s) saddr size (ask_ok s O)) as (s1 & r & Hc & O1 & K1 & Hcase); [destruct Ha as (? & _ & ?); split_and!; lia|].
  rewrite Hc. cbn [mbind option_bind]. pose proof (space_keeps_trans _ _ _ (ask_keeps s) K1) as K1'. destruct Hcase as [(-> & _ & Hcl & Hfree)|[Hr Hm]].
  2:{ exists s1, r. split; [by destruct Hr as [-> |[-> _]]|]. split; [done|]. split; [done|]. right. by split. }
  change (nz 0) with false. cbv iota. change (saddr / AMDGPU_GPU_PAGE_SIZE) with (first_page saddr).
  change (first_page saddr + (size - 1) / AMDGPU_GPU_PAGE_SIZE) with (last_page saddr size).
  destruct (fr_dom _ _ (kp_frame _ _ K1) b ltac:(by eexists)) as [va1 Hva1]. destruct (fr_va _ _ (kp_frame _ _ K1) b va1 Hva1) as (va0 & Hva0 & Hvb & _).
  assert (va0 = va) as -> by (change (bo_vas (ask_space s)) with (bo_vas s) in Hva0; congruence).
  destruct (insert_request s1 b va1 saddr offset size flags) as (s' & Hi & O' & K & M); try done; [apply Ha| |].
  { rewrite (bo_limit_frame s s1 va va1); [|apply (fr_bos _ _ (kp_frame _ _ K1))|done]. rewrite Hlim. destruct bo as [bo|]; [by apply V2|]. apply Hnb. by apply Hbn. }
  exists s', 0. unfold new_mapping in Hi |- *. cbn [fst snd] in Hi. rewrite Hi. split; [done|]. split; [done|]. split; [by apply (space_keeps_trans _ s1)|].
  left. split; [done|]. intros x b' off fl. rewrite (M x b' off fl), (Hcl x b' off fl). tauto.
Qed.

(** ** Taking mappings away *)

Lemma alter_state (f : bo_va_mapping → bo_va_mapping) i m s : mappings s !! i = Some m → s <| mappings ::= alter f i |> = s <| mappings ::= <[i := f m]> |>.
Proof.
  intros Hm. destruct s; cbn in *. f_equal. apply map_eq. intros j. destruct (decide (j = i)) as [->|].
  - by rewrite lookup_alter_eq, lookup_insert_eq, Hm.
  - by rewrite lookup_alter_ne, lookup_insert_ne.
Qed.

(** Off its list and out of the tree. *)
Definition taken (i : nat) (s : space) : space := amdgpu_vm_it_remove i (unlink i s).

Lemma taken_spec s i b : linked ∅ ∅ s → owner s i = Some b → linked {[i]} {[i]} (taken i s) ∧ frame s (taken i s).
Proof.
  intros Hl Hi. split.
  - eapply linked_sets; [| |apply linked_it_remove, (linked_unlink _ _ _ _ b Hl Hi)]; set_solver.
  - apply (frame_trans _ (unlink i s)); [apply frame_unlink|by apply frame_fields].
Qed.

Definition no_owner (m : bo_va_mapping) : bo_va_mapping := m <| m_bo_va := None |>.

Lemma detach_spec s i m b : linked ∅ ∅ s → mappings s !! i = Some m → m_bo_va m = Some b →
  let s' := (taken i s) <| mappings ::= alter no_owner i |> <| vm_freed ::= cons i |> in
  linked ∅ ∅ s' ∧ mappings s' = <[i := no_owner m]> (mappings s) ∧ frame s s'.
Proof.
  intros Hl Hm Hb s'. assert (Ho : owner s i = Some b) by (apply owner_Some; by exists m). destruct (taken_spec s i b Hl Ho) as [Hl1 F1].
  assert (Hs : s' = (taken i s) <| mappings ::= <[i := no_owner m]> |> <| vm_freed ::= cons i |>) by (unfold s'; by rewrite (alter_state _ i m)). rewrite Hs. split; [|split].
  - eapply linked_sets; [| |apply (linked_to_freed _ _ _ i m (no_owner m) b Hl1)]; try done; set_solver.
  - done.
  - apply (frame_trans _ (taken i s)); [done|by apply frame_fields].
Qed.

Lemma map_drop_spec s i m b (f : bo_va_mapping → bo_va_mapping) : linked ∅ ∅ s → mappings s !! i = Some m → m_bo_va m = Some b →
  ∃ s', amdgpu_vm_free_mapping senv i ((taken i s) <| mappings ::= alter f i |>) = Some s' ∧
    linked ∅ ∅ s' ∧ mappings s' = delete i (mappings s) ∧ frame s s' ∧ all_status s' = all_status s.
Proof.
  intros Hl Hm Hb. assert (Ho : owner s i = Some b) by (apply owner_Some; by exists m). destruct (taken_spec s i b Hl Ho) as [Hl1 F1].
  rewrite (alter_state f i m) by done. set (s1 := (taken i s) <| mappings ::= <[i := f m]> |>). unfold amdgpu_vm_free_mapping.
  assert (mappings s1 !! i = Some (f m)) as -> by apply lookup_insert_eq. cbn [mbind option_bind].
  set (s2 := if is_prt (f m) then amdgpu_vm_add_prt_cb senv s1 else s1).
  assert (H2 : mappings s2 = mappings s1 ∧ it s2 = it s1 ∧ vm_freed s2 = vm_freed s1 ∧ next_id s2 = next_id s1 ∧ bo_vas s2 = bo_vas s1 ∧ frame s1 s2 ∧ all_status s2 = all_status s1).
  { unfold s2. destruct (is_prt (f m)); [apply (prt_same senv (amdgpu_vm_add_prt_cb senv)); by right|]. split_and!; try done. apply frame_refl. }
  destruct H2 as (M2 & I2 & V2 & N2 & B2 & F2 & A2). eexists. split; [done|].
  assert (Hd : delete i (mappings s2) = delete i (mappings s)) by (rewrite M2; apply delete_insert_eq).
  split; [|split; [exact Hd|split; [|exact A2]]].
  - eapply (linked_same _ _ ((taken i s) <| mappings ::= delete i |>)).
    + unfold same_lists. change (mappings (s2 <| mappings ::= delete i |>)) with (delete i (mappings s2)). rewrite Hd. split; [done|].
      change (it (s2 <| mappings ::= delete i |>)) with (it s2). change (vm_freed (s2 <| mappings ::= delete i |>)) with (vm_freed s2).
      change (next_id (s2 <| mappings ::= delete i |>)) with (next_id s2). change (bo_vas (s2 <| mappings ::= delete i |>)) with (bo_vas s2).
      by rewrite I2, V2, N2, B2.
    + eapply linked_sets; [| |apply (linked_delete _ _ _ i Hl1)]; [set_solver|set_solver|by exists b|set_solver|set_solver].
  - apply (frame_trans _ (taken i s)); [done|]. apply (frame_trans _ s1); [by apply frame_fields|]. apply (frame_trans _ s2); [done|by apply frame_fields].
Qed.

(** Mappings go, or lose their owners. *)
Lemma shrink_ok s s' : space_ok max s → frame s s' → linked ∅ ∅ s' →
  (∀ j m', mappings s' !! j = Some m' → ∃ m, mappings s !! j = Some m ∧ (m' = m ∨ m' = no_owner m)) → space_ok max s'.
Proof.
  intros O F Hl Hsub.
  assert (Hu : ∀ j m', mappings s' !! j = Some m' → in_use m' → mappings s !! j = Some m').
  { intros j m' Hm' [c Hc]. destruct (Hsub j m' Hm') as (m & Hm & [-> | ->]); done. }
  apply (space_ok_frame max s); try done.
  - intros j m' Hm'. destruct (Hsub j m' Hm') as (m & Hm & [-> | ->]); apply (sp_range _ _ O j m Hm).
  - intros i j m m' Hij Hm Hm' H1 H2. by apply (sp_disjoint _ _ O i j m m' Hij (Hu i m Hm H1) (Hu j m' Hm' H2)).
  - intros i m b va Hm Hb Hva. apply (sp_within _ _ O i m b va); [|done|done]. apply Hu; [done|by exists b].
Qed.

(** What a request leaves that may free mappings of the pages [P] at once. *)
Record gives_up (P : Z → Prop) (s s' : space) : Prop := {
  gu_pt : pt s' = pt s;
  gu_bos : bos s' = bos s;
  gu_valid b va i : bo_vas s' !! b = Some va → i ∈ valids va → mappings s' !! i = mappings s !! i ∧
    ∃ va0, bo_vas s !! b = Some va0 ∧ va_bo va = va_bo va0 ∧ va_cleared va = va_cleared va0 ∧ (va_moved va = false → va_moved va0 = false) ∧ i ∈ valids va0;
  gu_cover x : covered s x → P x ∨ covered s' x;
  gu_wait b x : waiting s' x → entered s' b x → waiting s x;
}.

Lemma keeps_gives_up P s s' : keeps s s' → gives_up P s s'.
Proof.
  intros [F V C Wt]. split; [apply F|apply F| |right; auto|done]. intros b va i Hva Hi. split; [by apply (V b va)|].
  destruct (fr_va _ _ F b va Hva) as (va0 & H0 & H1 & H2 & H3 & H4). exists va0. split_and!; try done; [congruence|auto].
Qed.

(** Mapping [i] goes. *)
Lemma unlink_valid s s' i b va j : frame s s' → linked ∅ ∅ s → linked ∅ ∅ s' → owner s' i = None → bo_vas s' !! b = Some va → j ∈ valids va → j ≠ i.
Proof. intros F Hl Hl' Hn Hva Hj ->. pose proof (proj1 (lk_list _ _ _ Hl' b va i Hva) ltac:(by left)) as [Ho _]. congruence. Qed.

Definition unmaps (s s' : space) (m : bo_va_mapping) : Prop := ∀ x b off fl, mapped s' x b off fl ↔ mapped s x b off fl ∧ ¬ m_start m ≤ x ≤ m_last m.

(** Of two mappings in use only one has a page. *)
Lemma unmaps_one s s' i m b : space_ok max s → mappings s !! i = Some m → m_bo_va m = Some b →
  (∀ j mj, j ≠ i → mappings s' !! j = Some mj ↔ mappings s !! j = Some mj) → (∀ mi, mappings s' !! i = Some mi → m_bo_va mi = None) → unmaps s s' m.
Proof.
  intros O Hm Hb Hoth Hi x b' off fl. split.
  - intros (j & mj & Hmj & Hbj & Hx & H1 & H2). assert (Hji : j ≠ i) by (intros ->; pose proof (Hi mj Hmj); congruence). apply Hoth in Hmj; [|done].
    split; [by exists j, mj|]. destruct (sp_disjoint _ _ O j i mj m Hji Hmj Hm); [by exists b'|by exists b|lia|lia].
  - intros [(j & mj & Hmj & Hbj & Hx & H1 & H2) Hout]. assert (Hji : j ≠ i) by (intros ->; assert (mj = m) as -> by congruence; lia).
    exists j, mj. split; [by apply Hoth|done].
Qed.

(** A page of mapping [i], which goes, is in no other that was entered. *)
Lemma entered_off s s' i m b b' x : space_ok max s → space_ok max s' → frame s s' → mappings s !! i = Some m → m_bo_va m = Some b →
  (∀ j, j ≠ i → mappings s' !! j = mappings s !! j) → owner s' i = None → m_start m ≤ x ≤ m_last m → entered s' b' x → False.
Proof.
  intros O O' F Hm Hb Hoth Hn Hx (va & j & mj & Hva & Hj & Hmj & Hxj).
  pose proof (unlink_valid s s' i b' va j F (sp_linked _ _ O) (sp_linked _ _ O') Hn Hva Hj) as Hji.
  pose proof (proj1 (lk_list _ _ _ (sp_linked _ _ O') b' va j Hva) ltac:(by left)) as [Ho _]. apply owner_Some in Ho as (mj' & Hmj' & Hbj).
  assert (mj' = mj) as -> by congruence. rewrite Hoth in Hmj by done.
  destruct (sp_disjoint _ _ O i j m mj ltac:(done) Hm Hmj); [by exists b|by exists b'|lia|lia].
Qed.

Lemma head_filter_Some {A} (P : A → Prop) `{∀ a, Decision (P a)} l a : head (filter P l) = Some a → a ∈ l ∧ P a.
Proof. intros Hh. assert (Ha : a ∈ filter P l) by (destruct (filter P l); [done|injection Hh as ->; left]). apply list_elem_of_filter in Ha as [? ?]. done. Qed.
Lemma head_filter_None {A} (P : A → Prop) `{∀ a, Decision (P a)} l : head (filter P l) = None → ∀ a, a ∈ l → ¬ P a.
Proof. intros Hh a Ha Hp. assert (Hf : a ∈ filter P l) by (by apply list_elem_of_filter). destruct (filter P l); [by apply elem_of_nil in Hf|done]. Qed.

Lemma nodes_spec s l : (∀ i, i ∈ l → is_Some (mappings s !! i)) → ∃ n, mapM (node s) l = Some n ∧ ∀ i m, (i, m) ∈ n ↔ i ∈ l ∧ mappings s !! i = Some m.
Proof.
  induction l as [|i l IH]; intros Hl; cbn [mapM].
  - exists []. split; [done|]. intros i m. split; [by intros ?%elem_of_nil|by intros [?%elem_of_nil _]].
  - destruct (Hl i ltac:(left)) as [m Hm]. destruct IH as (n & -> & Hn); [intros j Hj; apply Hl; by right|]. unfold node. rewrite Hm. cbn [mbind option_bind].
    eexists. split; [done|]. intros j mj. rewrite !elem_of_cons, Hn. split; [|naive_solver]. intros [[= -> ->]|[? ?]]; [split; [by left|done]|split; [by right|done]].
Qed.

Lemma unmap_spec s b va saddr : space_ok max s → bo_vas s !! b = Some va →
  ∃ s' r, amdgpu_vm_bo_unmap senv b saddr s = Some (s', r) ∧ space_ok max s' ∧
    ((r = 0 ∧ ∃ i m, mappings s !! i = Some m ∧ m_bo_va m = Some b ∧ m_start m = first_page saddr ∧ unmaps s s' m ∧
        ((i ∈ valids va ∧ keeps s s') ∨ (i ∈ invalids va ∧ i ∉ valids va ∧ gives_up (λ x, m_start m ≤ x ≤ m_last m) s s' ∧ mappings s' = delete i (mappings s)))) ∨
     (r = -ENOENT ∧ s' = s ∧ ∀ i m, mappings s !! i = Some m → m_bo_va m = Some b → m_start m ≠ first_page saddr)).
Proof.
  intros O Hva. pose proof (sp_linked _ _ O) as Hl. unfold amdgpu_vm_bo_unmap, get_va. rewrite Hva. cbn [mbind option_bind].
  assert (Hin : ∀ i, i ∈ valids va ∨ i ∈ invalids va → ∃ m, mappings s !! i = Some m ∧ m_bo_va m = Some b).
  { intros i Hi. apply (lk_list _ _ _ Hl b va i Hva) in Hi as [Ho _]. by apply owner_Some. }
  destruct (nodes_spec s (valids va)) as (vl & -> & Hvl); [intros i Hi; destruct (Hin i ltac:(by left)) as (? & ? & _); by eexists|].
  destruct (nodes_spec s (invalids va)) as (il & -> & Hil); [intros i Hi; destruct (Hin i ltac:(by right)) as (? & ? & _); by eexists|].
  cbn [mbind option_bind]. change (saddr / AMDGPU_GPU_PAGE_SIZE) with (first_page saddr).
  destruct (head (filter (λ im : nat * bo_va_mapping, m_start im.2 = first_page saddr) vl)) as [[i m]|] eqn:Hv.
  - apply head_filter_Some in Hv as [[Hi Hm]%Hvl Hs]. destruct (Hin i ltac:(by left)) as (m' & Hm' & Hb). assert (m' = m) as -> by congruence.
    destruct (detach_spec s i m b Hl Hm Hb) as (Hl' & Hm2 & F). change (amdgpu_vm_it_remove i (unlink i s)) with (taken i s).
    set (s' := (taken i s) <| mappings ::= alter no_owner i |> <| vm_freed ::= cons i |>) in *. exists s', 0. split; [done|].
    assert (Hat : ∀ j, mappings s' !! j = if decide (j = i) then Some (no_owner m) else mappings s !! j).
    { intros j. rewrite Hm2. destruct (decide _) as [->|]; [by rewrite lookup_insert_eq|by rewrite lookup_insert_ne]. }
    assert (O' : space_ok max s').
    { apply (shrink_ok s s' O F Hl'). intros j mj. rewrite Hat. destruct (decide _) as [->|]; [intros [= <-]; exists m; by split; [|right]|intros ?; exists mj; by split; [|left]]. }
    split; [done|]. left. split; [done|]. exists i, m. split_and!; try done.
    + apply (unmaps_one s s' i m b O Hm Hb); intros j; [intros mj Hj; by rewrite Hat, decide_False|rewrite Hat, decide_True by done; by intros [= <-]].
    + left. split; [done|]. split; [done| | |].
      * intros b' va' j Hva' Hj. rewrite Hat, decide_False; [done|]. apply (unlink_valid s s' i b' va' j F Hl Hl'); [|done|done].
        unfold owner. rewrite Hat, decide_True by done. done.
      * intros x (j & mj & Hmj & Hx). destruct (decide (j = i)) as [->|Hj]; [|exists j, mj; by rewrite Hat, decide_False].
        assert (mj = m) as -> by congruence. exists i, (no_owner m). by rewrite Hat, decide_True.
      * intros b' x (j & mj & Hmj & Hn & Hx) He. rewrite Hat in Hmj. destruct (decide (j = i)); [|by exists j, mj].
        injection Hmj as <-. exfalso. apply (entered_off s s' i m b b' x O O' F Hm Hb); try done; [intros k Hk; by rewrite Hat, decide_False|].
        unfold owner. by rewrite Hat, decide_True.
  - pose proof (head_filter_None _ _ Hv) as Hno. destruct (head (filter (λ im : nat * bo_va_mapping, m_start im.2 = first_page saddr) il)) as [[i m]|] eqn:Hi2.
    + apply head_filter_Some in Hi2 as [[Hi Hm]%Hil Hs]. destruct (Hin i ltac:(by right)) as (m' & Hm' & Hb). assert (m' = m) as -> by congruence.
      destruct (map_drop_spec s i m b no_owner Hl Hm Hb) as (s' & Hf & Hl' & Hm2 & F & _). change (amdgpu_vm_it_remove i (unlink i s)) with (taken i s).
      change (λ m : bo_va_mapping, m <| m_bo_va := None |>) with no_owner. rewrite Hf. cbn [mbind option_bind]. exists s', 0. split; [done|].
      assert (Hat : ∀ j, mappings s' !! j = if decide (j = i) then None else mappings s !! j).
      { intros j. rewrite Hm2. destruct (decide _) as [->|]; [by rewrite lookup_delete_eq|by rewrite lookup_delete_ne]. }
      assert (O' : space_ok max s').
      { apply (shrink_ok s s' O F Hl'). intros j mj. rewrite Hat. destruct (decide _) as [->|]; [done|intros ?; exists mj; by split; [|left]]. }
      split; [done|]. left. split; [done|]. exists i, m. split_and!; try done.
      * apply (unmaps_one s s' i m b O Hm Hb); intros j; [intros mj Hj; by rewrite Hat, decide_False|by rewrite Hat, decide_True by done].
      * right. split; [done|]. split; [|split; [|done]].
        -- intros Hiv. pose proof (lk_nodup_va _ _ _ Hl b va Hva) as (_ & Hd & _)%NoDup_app. by apply (Hd i).
        -- split; [apply F|apply F| | |].
           ++ intros b' va' j Hva' Hj. split.
              ** rewrite Hat, decide_False; [done|]. apply (unlink_valid s s' i b' va' j F Hl Hl'); [|done|done]. unfold owner. by rewrite Hat, decide_True.
              ** destruct (fr_va _ _ F b' va' Hva') as (va0 & H0 & H1 & H2 & H3 & H4). exists va0. split_and!; try done; [congruence|auto].
           ++ intros x (j & mj & Hmj & Hx). destruct (decide (j = i)) as [->|Hj]; [left; by assert (mj = m) as -> by congruence|].
              right. exists j, mj. by rewrite Hat, decide_False.
           ++ intros b' x (j & mj & Hmj & Hn & Hx) _. rewrite Hat in Hmj. destruct (decide (j = i)); [done|by exists j, mj].
    + exists s, (-ENOENT). split; [done|]. split; [done|]. right. split; [done|]. split; [done|]. intros i m Hm Hb Hs.
      pose proof (head_filter_None _ _ Hi2) as Hno2. assert (Hi : i ∈ valids va ∨ i ∈ invalids va).
      { apply (lk_list _ _ _ Hl b va i Hva). split; [apply owner_Some; by exists m|set_solver]. }
      destruct Hi as [Hi|Hi]; [apply (Hno (i, m)); [by apply Hvl|done]|apply (Hno2 (i, m)); [by apply Hil|done]].
Qed.

(** ** Taking a base out *)

Lemma del_valids_spec b l s : linked ∅ ∅ s → NoDup l → (∀ i, i ∈ l → owner s i = Some b) →
  ∃ s', del_valids l s = Some s' ∧ linked ∅ ∅ s' ∧ frame s s' ∧ all_status s' = all_status s ∧
    ∀ j, mappings s' !! j = if decide (j ∈ l) then no_owner <$> mappings s !! j else mappings s !! j.
Proof.
  revert s. induction l as [|i l IH]; intros s Hl Hnd Hin.
  { exists s. split; [done|]. split; [done|]. split; [apply frame_refl|]. split; [done|]. intros j. by rewrite decide_False by apply not_elem_of_nil. }
  apply NoDup_cons in Hnd as [Hi Hnd]. pose proof (Hin i ltac:(left)) as Ho. apply owner_Some in Ho as (m & Hm & Hb).
  cbn [del_valids]. rewrite Hm. cbn [mbind option_bind]. destruct (detach_spec s i m b Hl Hm Hb) as (Hl1 & Hm1 & F1).
  change (amdgpu_vm_it_remove i (unlink i s)) with (taken i s). change (λ m : bo_va_mapping, m <| m_bo_va := None |>) with no_owner.
  set (s1 := (taken i s) <| mappings ::= alter no_owner i |> <| vm_freed ::= cons i |>) in *.
  destruct (IH s1 Hl1 Hnd) as (s' & Hd & Hl' & F & Hst & Hm').
  { intros j Hj. rewrite (owner_eq s s1); [apply Hin; by right|]. rewrite Hm1, lookup_insert_ne; [done|congruence]. }
  exists s'. split; [exact Hd|]. split; [done|]. split; [by apply (frame_trans _ s1)|]. split; [by rewrite Hst|]. intros j. rewrite Hm', Hm1.
  destruct (decide (j = i)) as [->|Hji].
  - rewrite decide_False, lookup_insert_eq, decide_True, Hm; [done|left|done].
  - rewrite lookup_insert_ne by done. destruct (decide (j ∈ l)) as [Hj|Hj], (decide (j ∈ i :: l)) as [Hj'|Hj']; try done; rewrite elem_of_cons in Hj'; tauto.
Qed.

Lemma del_invalids_spec b l s : linked ∅ ∅ s → NoDup l → (∀ i, i ∈ l → owner s i = Some b) →
  ∃ s', del_invalids senv l s = Some s' ∧ linked ∅ ∅ s' ∧ frame s s' ∧ all_status s' = all_status s ∧ ∀ j, mappings s' !! j = if decide (j ∈ l) then None else mappings s !! j.
Proof.
  revert s. induction l as [|i l IH]; intros s Hl Hnd Hin.
  { exists s. split; [done|]. split; [done|]. split; [apply frame_refl|]. split; [done|]. intros j. by rewrite decide_False by apply not_elem_of_nil. }
  apply NoDup_cons in Hnd as [Hi Hnd]. pose proof (Hin i ltac:(left)) as Ho. apply owner_Some in Ho as (m & Hm & Hb).
  cbn [del_invalids]. destruct (map_drop_spec s i m b id Hl Hm Hb) as (s1 & Hf & Hl1 & Hm1 & F1 & Ha1).
  assert (Hid : (taken i s) <| mappings ::= alter id i |> = amdgpu_vm_it_remove i (unlink i s)).
  { change (amdgpu_vm_it_remove i (unlink i s)) with (taken i s). destruct (taken i s); cbn. f_equal. apply map_eq. intros j.
    destruct (decide (j = i)) as [->|]; [by rewrite lookup_alter_eq, option_fmap_id|by rewrite lookup_alter_ne]. }
  rewrite Hid in Hf. rewrite Hf. cbn [mbind option_bind]. destruct (IH s1 Hl1 Hnd) as (s' & Hd & Hl' & F & Hst & Hm').
  { intros j Hj. rewrite (owner_eq s s1); [apply Hin; by right|]. rewrite Hm1, lookup_delete_ne; [done|congruence]. }
  exists s'. split; [exact Hd|]. split; [done|]. split; [by apply (frame_trans _ s1)|]. split; [by rewrite Hst, Ha1|]. intros j. rewrite Hm', Hm1.
  destruct (decide (j = i)) as [->|Hji].
  - rewrite decide_False, lookup_delete_eq, decide_True; [done|left|done].
  - rewrite lookup_delete_ne by done. destruct (decide (j ∈ l)) as [Hj|Hj], (decide (j ∈ i :: l)) as [Hj'|Hj']; try done; rewrite elem_of_cons in Hj'; tauto.
Qed.

Lemma del_spec s b va : space_ok max s → bo_vas s !! b = Some va →
  ∃ s', amdgpu_vm_bo_del senv b s = Some s' ∧ space_ok max s' ∧ (∀ x b' off fl, mapped s' x b' off fl ↔ mapped s x b' off fl ∧ b' ≠ b) ∧
    gives_up (λ x, ∃ i m, i ∈ invalids va ∧ mappings s !! i = Some m ∧ m_start m ≤ x ≤ m_last m) s s'.
Proof.
  intros O Hva. pose proof (sp_linked _ _ O) as Hl. unfold amdgpu_vm_bo_del, get_va. rewrite Hva. cbn [mbind option_bind].
  set (ch := match va_bo va with None => chains s | Some o => alter (list_del b) o (chains s) end). set (s1 := s <| chains := ch |>).
  assert (Hs1 : match va_bo va with None => Some s | Some o => _ ← bos s !! o; Some (s <| chains ::= alter (list_del b) o |>) end = Some s1).
  { unfold s1, ch. destruct (va_bo va) as [o|] eqn:Ho; [|by destruct s]. destruct (sp_bos _ _ O b va o Hva Ho) as [bo ->]. done. }
  rewrite Hs1. cbn [mbind option_bind]. set (s2 := status_del b s1).
  assert (Hsl : same_lists s s2) by done. pose proof (linked_same _ _ _ _ Hsl Hl) as Hl2.
  pose proof (lk_nodup_va _ _ _ Hl b va Hva) as (Nv & Nd & Ni)%NoDup_app.
  assert (Hown : ∀ i, i ∈ valids va ∨ i ∈ invalids va → owner s i = Some b) by (intros i Hi; by apply (lk_list _ _ _ Hl b va i Hva)).
  destruct (del_valids_spec b (valids va) s2 Hl2 Nv) as (s3 & -> & Hl3 & F3 & T3 & M3); [intros i Hi; apply Hown; by left|]. cbn [mbind option_bind].
  assert (M3' : ∀ i, i ∉ valids va → mappings s3 !! i = mappings s !! i) by (intros i Hi; by rewrite M3, decide_False).
  destruct (del_invalids_spec b (invalids va) s3 Hl3 Ni) as (s4 & -> & Hl4 & F4 & T4 & M4).
  { intros i Hi. rewrite (owner_eq s s3); [apply Hown; by right|]. apply M3'. intros Hv. by apply (Nd i). }
  cbn [mbind option_bind]. set (s5 := s4 <| bo_vas ::= delete b |>). exists s5. split; [done|]. pose proof (frame_trans _ _ _ F3 F4) as F.
  assert (Hat : ∀ j, mappings s4 !! j = if decide (j ∈ invalids va) then None else if decide (j ∈ valids va) then no_owner <$> mappings s !! j else mappings s !! j).
  { intros j. rewrite M4. by destruct (decide (j ∈ invalids va)); [|rewrite M3]. }
  assert (Hb4 : ∀ i, owner s4 i ≠ Some b).
  { intros i Hi. apply owner_Some in Hi as (m & Hm & Hb). rewrite Hat in Hm. destruct (decide (i ∈ invalids va)) as [|Hni]; [done|].
    destruct (decide (i ∈ valids va)) as [|Hnv]; [destruct (mappings s !! i); [by injection Hm as <-|done]|].
    destruct (proj2 (lk_list _ _ _ Hl b va i Hva)); [|done..]. split; [apply owner_Some; by exists m|set_solver]. }
  assert (Hv5 : ∀ b' va', bo_vas s5 !! b' = Some va' → b' ≠ b ∧ bo_vas s4 !! b' = Some va').
  { intros b' va'. change (bo_vas s5) with (delete b (bo_vas s4)). intros [? ?]%lookup_delete_Some. done. }
  assert (Hv5s : ∀ b' va', bo_vas s5 !! b' = Some va' → b' ≠ b ∧ ∃ va0, bo_vas s !! b' = Some va0 ∧ va_bo va' = va_bo va0 ∧ va_cleared va' = va_cleared va0 ∧
    va_moved va' = va_moved va0 ∧ ∀ i, i ∈ valids va' → i ∈ valids va0).
  { intros b' va' [Hne Hv]%Hv5. split; [done|]. apply (fr_va _ _ F b' va' Hv). }
  assert (Hl5 : linked ∅ ∅ s5).
  { destruct Hl4 as [A1 A2 A3 A4 A5 A6 A7]. split; try done.
    - intros b' va' i [Hne Hv]%Hv5. by apply A2.
    - intros i b' Hi. pose proof (Hb4 i) as Hno. change (owner s5 i) with (owner s4 i) in Hi. assert (b' ≠ b) by congruence.
      change (bo_vas s5) with (delete b (bo_vas s4)). rewrite lookup_delete_ne by done. by apply (A3 i).
    - intros b' va' [Hne Hv]%Hv5. by apply (A6 b').
    - destruct A7 as [A7 A8]. split; [done|]. intros b' [va' [_ Hv]%Hv5]. apply A8. by eexists. }
  assert (Hu : ∀ j m, mappings s5 !! j = Some m → in_use m → mappings s !! j = Some m ∧ m_bo_va m ≠ Some b).
  { intros j m Hm [c Hc]. assert (Hob : owner s5 j = Some c) by (apply owner_Some; by exists m).
    split; [|intros Hb; apply (Hb4 j), owner_Some; by exists m].
    change (mappings s5) with (mappings s4) in Hm. rewrite Hat in Hm. destruct (decide (j ∈ invalids va)); [done|].
    destruct (decide (j ∈ valids va)); [|done]. destruct (mappings s !! j); [injection Hm as <-; done|done]. }
  assert (Hst : ∀ b', b' ∈ all_status s5 → b' ≠ b ∧ b' ∈ all_status s).
  { intros b' Hb'. change (all_status s5) with (all_status s4) in Hb'. rewrite T4, T3 in Hb'. by apply elem_of_status_del in Hb'. }
  assert (Hdom : ∀ b', b' ≠ b → is_Some (bo_vas s !! b') → is_Some (bo_vas s5 !! b')).
  { intros b' Hne Hb'. change (bo_vas s5) with (delete b (bo_vas s4)). rewrite lookup_delete_ne by done. by apply (fr_dom _ _ F). }
  assert (Hpt : pt s5 = pt s ∧ bos s5 = bos s) by (split; [change (pt s4 = pt s); by rewrite (fr_pt _ _ F)|change (bos s4 = bos s); by rewrite (fr_bos _ _ F)]). destruct Hpt as [Hpt Hbos].
  split; [|split].
  - split; try done.
    + intros i m Hm. change (mappings s5) with (mappings s4) in Hm. rewrite Hat in Hm. destruct (decide (i ∈ invalids va)); [done|].
      destruct (decide (i ∈ valids va)); [|by apply (sp_range _ _ O i)]. destruct (mappings s !! i) as [m0|] eqn:Hm0; [|done]. injection Hm as <-. apply (sp_range _ _ O i m0 Hm0).
    + intros i j m m' Hij Hm Hm' H1 H2. apply (sp_disjoint _ _ O i j m m' Hij); [by apply Hu|by apply Hu|done|done].
    + intros i m b' va' Hm Hb' Hv. destruct (Hu i m Hm ltac:(by exists b')) as [Hm0 _]. destruct (Hv5s b' va' Hv) as (_ & va0 & Hv0 & Hbo & _).
      destruct (sp_within _ _ O i m b' va0 Hm0 Hb' Hv0) as (W1 & W2 & W3). split; [done|]. split; [done|]. by rewrite (bo_limit_frame s s5 va0 va').
    + intros b' va' o Hv Ho. destruct (Hv5s b' va' Hv) as (_ & va0 & Hv0 & Hbo & _). rewrite Hbos. apply (sp_bos _ _ O b' va0 o Hv0). congruence.
    + intros o b'. assert (Hch : chains s5 = ch) by (change (chains s5) with (chains s4); by rewrite (fr_chains _ _ F)). rewrite Hch.
      assert (Hch2 : b' ∈ default [] (ch !! o) ↔ b' ≠ b ∧ b' ∈ default [] (chains s !! o)).
      { unfold ch. destruct (va_bo va) as [o'|] eqn:Ho'.
        - destruct (decide (o = o')) as [->|Hne].
          + rewrite lookup_alter_eq. destruct (chains s !! o') as [l|]; cbn; [apply elem_of_ids_del|]. split; [by intros ?%elem_of_nil|by intros [_ ?%elem_of_nil]].
          + rewrite lookup_alter_ne by done. split; [|by intros [_ ?]]. intros Hin. split; [|done]. intros ->.
            apply (sp_chain _ _ O) in Hin as (va0 & ? & ?). congruence.
        - split; [|by intros [_ ?]]. intros Hin. split; [|done]. intros ->. apply (sp_chain _ _ O) in Hin as (va0 & ? & ?). congruence. }
      rewrite Hch2, (sp_chain _ _ O). split.
      * intros (Hne & va0 & Hv0 & Ho). destruct (Hdom b' Hne ltac:(by eexists)) as [va' Hv']. exists va'. split; [done|].
        destruct (Hv5s b' va' Hv') as (_ & va1 & Hv1 & Hbo & _). congruence.
      * intros (va' & Hv' & Ho). destruct (Hv5s b' va' Hv') as (Hne & va0 & Hv0 & Hbo & _). split; [done|]. exists va0. split; [done|congruence].
    + rewrite Hbos. apply O.
    + intros b' [Hne Hb']%Hst. apply Hdom; [done|]. by apply (sp_status _ _ O).
    + intros b' va' Hb' Hv. destruct (Hv5s b' va' Hv) as (_ & va0 & Hv0 & Hbo & _). rewrite Hbo. apply (sp_invalidated _ _ O b' va0); [|done].
      apply (fr_invalidated _ _ F) in Hb'. change (invalidated s2) with (list_del b (invalidated s)) in Hb'. by apply elem_of_ids_del in Hb' as [_ ?].
  - intros x b' off fl. split.
    + intros (j & m & Hm & Hb' & Hx & H1 & H2). destruct (Hu j m Hm ltac:(by exists b')) as [Hm0 Hne]. split; [by exists j, m|congruence].
    + intros [(j & m & Hm & Hb' & Hx & H1 & H2) Hne]. exists j, m. split; [|done]. change (mappings s5) with (mappings s4). rewrite Hat.
      assert (Hnot : ¬ (j ∈ valids va ∨ j ∈ invalids va)) by (intros Hj%Hown; apply owner_Some in Hj as (m2 & ? & ?); congruence).
      rewrite !decide_False; tauto.
  - split; [done|done| | |].
    + intros b' va' i Hv Hi. destruct (Hv5s b' va' Hv) as (Hne & va0 & Hv0 & H1 & H2 & H3 & H4). split.
      * assert (Hob : owner s5 i = Some b') by (apply (lk_list _ _ _ Hl5 b' va' i Hv); by left). apply owner_Some in Hob as (m & Hm & Hb').
        destruct (Hu i m Hm ltac:(by exists b')) as [Hm0 _]. congruence.
      * exists va0. split_and!; try done; [congruence|auto].
    + intros x (j & m & Hm & Hx). destruct (decide (j ∈ invalids va)) as [Hj|Hj]; [left; by exists j, m|]. right.
      destruct (decide (j ∈ valids va)) as [Hj2|Hj2].
      * exists j, (no_owner m). split; [|done]. change (mappings s5) with (mappings s4). by rewrite Hat, decide_False, decide_True, Hm.
      * exists j, m. split; [|done]. change (mappings s5) with (mappings s4). by rewrite Hat, !decide_False.
    + intros b' x (j & mj & Hmj & Hn & Hx) (va' & i & mi & Hv & Hi & Hmi & Hxi).
      assert (Hob : owner s5 i = Some b') by (apply (lk_list _ _ _ Hl5 b' va' i Hv); by left). apply owner_Some in Hob as (m2 & Hm2 & Hb2).
      assert (m2 = mi) as -> by congruence. destruct (Hu i mi Hmi ltac:(by exists b')) as [Hmi0 Hne].
      change (mappings s5) with (mappings s4) in Hmj. rewrite Hat in Hmj. destruct (decide (j ∈ invalids va)); [done|]. destruct (decide (j ∈ valids va)) as [Hj|]; [|by exists j, mj].
      exfalso. pose proof (Hown j ltac:(by left)) as Ho. apply owner_Some in Ho as (m0 & Hm0 & Hb0). rewrite Hm0 in Hmj. injection Hmj as <-.
      destruct (sp_disjoint _ _ O i j mi m0); [congruence|done|done|by exists b'|by exists b|cbn in Hx; lia|cbn in Hx; lia].
Qed.
End Requests.
