(* ===== verification/VmMapBase.v ===== *)
(** * Mappings of a GPU address space: bases and buffers

    The lists of the states of a base, adding a base, and what is left of the address
    space when the memory manager moves a buffer. *)

From S2P Require Import Prelude Vm VmRes VmMap VmMapOk VmMapOps VmMapProof.
#[local] Open Scope Z_scope.
#[local] Open Scope list_scope.

(** ** States *)

(** Only lists of states change, and the moved flags of the bases [P]. *)
Record restatus (P : nat → Prop) (s s' : space) : Prop := {
  rs_lists : same_lists s s';
  rs_pt : pt s' = pt s;
  rs_bos : bos s' = bos s;
  rs_chains : chains s' = chains s;
  rs_va b va' : bo_vas s' !! b = Some va' → ∃ va, bo_vas s !! b = Some va ∧ va_bo va' = va_bo va ∧ va_cleared va' = va_cleared va ∧
    valids va' = valids va ∧ invalids va' = invalids va ∧ (P b ∨ va_moved va' = va_moved va);
  rs_status b : b ∈ all_status s' → b ∈ all_status s ∨ is_Some (bo_vas s !! b);
  rs_invalidated b : b ∈ invalidated s' → b ∈ invalidated s ∨ ∃ va, bo_vas s !! b = Some va ∧ va_bo va ≠ None;
}.

Lemma restatus_refl P s : restatus P s s.
Proof. split; try done; [intros b va Hb; exists va; auto 10|by left..]. Qed.

Lemma restatus_trans P s1 s2 s3 : restatus P s1 s2 → restatus P s2 s3 → restatus P s1 s3.
Proof.
  intros [A1 A2 A3 A4 A5 A6 A7] [B1 B2 B3 B4 B5 B6 B7]. split; try congruence.
  - destruct A1 as (L1 & L2 & L3 & L4 & L5), B1 as (M1 & M2 & M3 & M4 & M5). split_and!; try congruence; try (intros b; by rewrite M5).
  - intros b va3 Hv3. destruct (B5 b va3 Hv3) as (va2 & Hv2 & ? & ? & ? & ? & C2). destruct (A5 b va2 Hv2) as (va1 & Hv1 & ? & ? & ? & ? & C1).
    exists va1. split_and!; try congruence. destruct C2 as [|C2]; [by left|]. destruct C1 as [|C1]; [by left|]. right. congruence.
  - intros b Hb. destruct (B6 b Hb) as [Hb2|[va2 Hb2]]; [by apply A6|]. destruct (A5 b va2 Hb2) as (va1 & ? & _). right. by eexists.
  - intros b Hb. destruct (B7 b Hb) as [Hb2|(va2 & Hb2 & Hne)]; [by apply A7|]. destruct (A5 b va2 Hb2) as (va1 & ? & ? & _). right. exists va1. split; [done|congruence].
Qed.

Lemma restatus_ok max P s s' : space_ok max s → restatus P s s' → space_ok max s'.
Proof.
  intros O [R1 R2 R3 R4 R5 R6 R7]. pose proof R1 as (L1 & L2 & L3 & L4 & L5). destruct O as [O1 O2 O3 O4 O5 O6 O7 O8 O9].
  assert (Hdom : ∀ b, is_Some (bo_vas s !! b) → is_Some (bo_vas s' !! b)).
  { intros b [va Hva]. specialize (L5 b). rewrite Hva in L5. destruct (bo_vas s' !! b); [by eexists|done]. }
  split.
  - by eapply linked_same.
  - rewrite L1. done.
  - intros i j m m'. rewrite L1. apply O3.
  - intros i m b va' Hm Hb Hva. rewrite L1 in Hm. destruct (R5 b va' Hva) as (va & Hva0 & Hbo & _). destruct (O4 i m b va Hm Hb Hva0) as (W1 & W2 & W3).
    split; [done|]. split; [done|]. by rewrite (bo_limit_frame s s' va va').
  - intros b va' o Hva Ho. destruct (R5 b va' Hva) as (va & Hva0 & Hbo & _). rewrite R3. apply (O5 b va o Hva0). congruence.
  - intros o b. rewrite R4, O6. split.
    + intros (va & Hva & Ho). destruct (Hdom b ltac:(by eexists)) as [va' Hva']. exists va'. split; [done|]. destruct (R5 b va' Hva') as (va0 & ? & ? & _). congruence.
    + intros (va' & Hva' & Ho). destruct (R5 b va' Hva') as (va & Hva & Hbo & _). exists va. split; [done|congruence].
  - rewrite R3. done.
  - intros b Hb. apply Hdom. destruct (R6 b Hb); [by apply O8|done].
  - intros b va' Hb Hva. destruct (R5 b va' Hva) as (va & Hva0 & Hbo & _). rewrite Hbo. destruct (R7 b Hb) as [Hi|(va2 & Hva2 & Hne)]; [by apply (O9 b)|congruence].
Qed.

(** One base changes its flag and its list. *)
Lemma restatus_one (P : nat → Prop) b s s' (f : bo_va → bo_va) : bo_vas s' = alter f b (bo_vas s) →
  (∀ v, va_bo (f v) = va_bo v ∧ va_cleared (f v) = va_cleared v ∧ valids (f v) = valids v ∧ invalids (f v) = invalids v ∧ (P b ∨ va_moved (f v) = va_moved v)) →
  mappings s' = mappings s → it s' = it s → vm_freed s' = vm_freed s → next_id s' = next_id s → pt s' = pt s → bos s' = bos s → chains s' = chains s →
  (∀ c, c ∈ all_status s' → c = b ∨ c ∈ all_status s) → is_Some (bo_vas s !! b) →
  (∀ c, c ∈ invalidated s' → c ∈ invalidated s ∨ ∃ va, bo_vas s !! c = Some va ∧ va_bo va ≠ None) → restatus P s s'.
Proof.
  intros Hb Hf H1 H2 H3 H4 H5 H6 H7 Hst Hs Hi. split; try done.
  - split_and!; try done. intros c. rewrite Hb. destruct (decide (c = b)) as [->|Hne].
    + rewrite lookup_alter_eq. destruct (bo_vas s !! b) as [va|]; [|done]. cbn. destruct (Hf va) as (_ & _ & -> & -> & _). done.
    + by rewrite lookup_alter_ne.
  - intros c va'. rewrite Hb. intros Hc. apply lookup_alter_Some in Hc as [(-> & va & Hva & ->)|[Hne Hva]].
    + exists va. destruct (Hf va) as (F1 & F2 & F3 & F4 & F5). by split_and!.
    + exists va'. auto 10.
  - intros c Hc. destruct (Hst c Hc) as [->|]; [by right|by left].
Qed.

Lemma alter_id_eq {A} (m : gmap nat A) b : m = alter (λ v, v) b m.
Proof. apply map_eq. intros c. destruct (decide (c = b)) as [->|]; [by rewrite lookup_alter_eq, option_fmap_id|by rewrite lookup_alter_ne]. Qed.

Ltac members := repeat first [rewrite elem_of_app|rewrite elem_of_cons|rewrite elem_of_nil|rewrite elem_of_ids_del]; tauto.

Lemma restatus_evicted (P : nat → Prop) bo b s : P b → is_Some (bo_vas s !! b) → restatus P s (amdgpu_vm_bo_evicted bo b s).
Proof.
  intros HP Hb. apply (restatus_one P b s _ (λ v, v <| va_moved := true |>)); try done.
  - auto 10.
  - intros c. unfold amdgpu_vm_bo_evicted, all_status. cbn -[list_del]. destruct (bo_kernel bo); members.
  - intros c. cbn -[list_del]. rewrite elem_of_ids_del. left. tauto.
Qed.

Lemma restatus_idle (P : nat → Prop) b s : P b → is_Some (bo_vas s !! b) → restatus P s (amdgpu_vm_bo_idle b s).
Proof.
  intros HP Hb. apply (restatus_one P b s _ (λ v, v <| va_moved := false |>)); try done.
  - auto 10.
  - intros c. unfold amdgpu_vm_bo_idle, all_status. cbn -[list_del]. members.
  - intros c. cbn -[list_del]. rewrite elem_of_ids_del. left. tauto.
Qed.

Lemma restatus_moved P b s : is_Some (bo_vas s !! b) → restatus P s (amdgpu_vm_bo_moved b s).
Proof.
  intros Hb. apply (restatus_one P b s _ (λ v, v)); try done.
  - apply alter_id_eq.
  - auto 10.
  - intros c. unfold amdgpu_vm_bo_moved, all_status. cbn -[list_del]. members.
  - intros c. cbn -[list_del]. rewrite elem_of_ids_del. left. tauto.
Qed.

Lemma restatus_done P b s : is_Some (bo_vas s !! b) → restatus P s (amdgpu_vm_bo_done b s).
Proof.
  intros Hb. apply (restatus_one P b s _ (λ v, v)); try done.
  - apply alter_id_eq.
  - auto 10.
  - intros c. unfold amdgpu_vm_bo_done, all_status. cbn -[list_del]. members.
  - intros c. cbn -[list_del]. rewrite elem_of_ids_del. left. tauto.
Qed.

Lemma restatus_invalidated P b s va : bo_vas s !! b = Some va → va_bo va ≠ None → restatus P s (amdgpu_vm_bo_invalidated b s).
Proof.
  intros Hb Hne. apply (restatus_one P b s _ (λ v, v)); try done.
  - apply alter_id_eq.
  - auto 10.
  - intros c. unfold amdgpu_vm_bo_invalidated, all_status. cbn -[list_del]. members.
  - intros c. cbn -[list_del]. rewrite elem_of_cons, elem_of_ids_del. intros [->|[_ ?]]; [right; by exists va|by left].
Qed.

Lemma restatus_flag (P : nat → Prop) b s flag : P b → is_Some (bo_vas s !! b) → restatus P s (set_va b (λ v, v <| va_moved := flag |>) s).
Proof.
  intros HP Hb. apply (restatus_one P b s _ (λ v, v <| va_moved := flag |>)); try done.
  - auto 10.
  - intros c. by right.
  - intros c. by left.
Qed.

(** ** Adding a base *)

Lemma base_add_spec adev senv s o : space_ok (max_pfn adev) s →
  (∀ i, o = Some i → ∃ bo, bos s !! i = Some bo ∧ (bo_shared bo = true → is_Some (bo_resource bo))) →
  ∃ s' r, amdgpu_vm_bo_add senv o s = Some (s', r) ∧ space_ok (max_pfn adev) s' ∧ mappings s' = mappings s ∧ gives_up (λ _, False) s s' ∧
    match r with
    | None => malloc_fails senv (asked s) = true
    | Some b => bo_vas s !! b = None ∧ ∃ va, bo_vas s' !! b = Some va ∧ va_bo va = o ∧ valids va = [] ∧ invalids va = []
    end.
Proof.
  intros O Ho. unfold amdgpu_vm_bo_add. destruct (malloc_fails senv (asked s)) eqn:Hm.
  { exists (ask_space s), None. split; [done|]. split; [by apply ask_ok|]. split; [done|]. split; [apply keeps_gives_up, ask_keeps|done]. }
  set (b := next_id s). set (va0 := mk_bo_va o [] [] false false).
  set (s2 := (ask_space s) <| next_id ::= S |> <| bo_vas ::= <[b := va0]> |>). change (next_id (ask_space s)) with b. fold s2.
  assert (Hb : bo_vas s !! b = None) by (apply eq_None_not_Some; intros Hs%(proj2 (lk_next _ _ _ (sp_linked _ _ O))); unfold b in Hs; lia).
  assert (Hat : ∀ c, bo_vas s2 !! c = if decide (c = b) then Some va0 else bo_vas s !! c).
  { intros c. change (bo_vas s2) with (<[b := va0]> (bo_vas s)). destruct (decide _) as [->|]; [by rewrite lookup_insert_eq|by rewrite lookup_insert_ne]. }
  set (ch := match o with None => chains s | Some i => <[i := b :: default [] (chains s !! i)]> (chains s) end). set (s3 := s2 <| chains := ch |>).
  assert (Hch : ∀ i c, c ∈ default [] (ch !! i) ↔ (o = Some i ∧ c = b) ∨ c ∈ default [] (chains s !! i)).
  { intros i c. unfold ch. destruct o as [i'|]; [|naive_solver]. destruct (decide (i = i')) as [->|Hne].
    - rewrite lookup_insert_eq. cbn. rewrite elem_of_cons. naive_solver.
    - rewrite lookup_insert_ne by done. naive_solver. }
  assert (Hold : ∀ c va, bo_vas s3 !! c = Some va → (c = b ∧ va = va0) ∨ (c ≠ b ∧ bo_vas s !! c = Some va)).
  { intros c va. change (bo_vas s3) with (bo_vas s2). rewrite Hat. destruct (decide _) as [->|]; [intros [= <-]; by left|by right]. }
  assert (Hkeep : ∀ c, is_Some (bo_vas s !! c) → is_Some (bo_vas s3 !! c)).
  { intros c [va Hc]. change (bo_vas s3) with (bo_vas s2). rewrite Hat. destruct (decide _); by eexists. }
  assert (O3 : space_ok (max_pfn adev) s3).
  { destruct O as [[A1 A2 A3 A4 A5 A6 [A7 A8]] O2 O3 O4 O5 O6 O7 O8 O9]. split; try done.
    - split; try done.
      + intros c va i [[-> ->]|[_ Hc]]%Hold; [|by apply A2]. cbn. split; [by intros [?%elem_of_nil|?%elem_of_nil]|]. intros [Hi _].
        destruct (A3 i b Hi) as [? ?]. congruence.
      + intros i c Hi. apply Hkeep. by apply (A3 i).
      + intros c va [[-> ->]|[_ Hc]]%Hold; [constructor|by apply (A6 c)].
      + change (next_id s3) with (S b). split; [intros i Hi; pose proof (A7 i Hi); unfold b; lia|]. intros c [va [[-> _]|[_ Hc]]%Hold]; [lia|].
        pose proof (A8 c ltac:(by eexists)). unfold b. lia.
    - intros i m c va Hmi Hc [[-> ->]|[_ Hv]]%Hold; [|by apply (O4 i m c va)]. destruct (A3 i b ltac:(apply owner_Some; by exists m)) as [? ?]. congruence.
    - intros c va i [[-> ->]|[_ Hv]]%Hold Hi; [|by apply (O5 c va i)]. destruct (Ho i Hi) as (bo & Hbo & _). by eexists.
    - intros i c. change (chains s3) with ch. rewrite Hch, O6. change (bo_vas s3) with (bo_vas s2). split.
      + intros [[Hi ->]|(va & Hv & Hi)]; [exists va0; by rewrite Hat, decide_True|]. exists va. split; [|done]. rewrite Hat, decide_False; [done|congruence].
      + intros (va & Hv & Hi). rewrite Hat in Hv. destruct (decide (c = b)) as [->|]; [injection Hv as <-; by left|]. right. by exists va.
    - intros c Hc. apply Hkeep. by apply O8.
    - intros c va Hc [[-> ->]|[_ Hv]]%Hold; [|by apply (O9 c)]. destruct (O8 b) as [? ?]; [|congruence]. unfold all_status. rewrite !elem_of_app. tauto. }
  assert (Hb3 : bo_vas s3 !! b = Some va0) by (change (bo_vas s3) with (bo_vas s2); by rewrite Hat, decide_True).
  assert (Hinit : ∃ s', amdgpu_vm_bo_base_init b o s2 = Some s' ∧ restatus (λ c, c = b) s3 s').
  { unfold amdgpu_vm_bo_base_init. destruct o as [i|]; [|exists s2; split; [done|]; change s2 with s3; apply restatus_refl].
    destruct (Ho i eq_refl) as (bo & Hbo & Hres). change (bos s2) with (bos s). rewrite Hbo. cbn [mbind option_bind]. change (chains s2) with (chains s).
    fold ch. change (s2 <| chains ::= <[i := b :: default [] (chains s !! i)]> |>) with s3. destruct (bo_shared bo); cbn [negb]; [|exists s3; split; [done|apply restatus_refl]].
    destruct (Hres eq_refl) as [mem Hmem]. rewrite Hmem. cbn [mbind option_bind]. eexists. split; [done|].
    assert (R1 : restatus (λ c, c = b) s3 (amdgpu_vm_bo_idle b s3)) by (apply restatus_idle; [done|by eexists]).
    destruct (bo_preferred bo (mem_type mem)); [exact R1|]. apply (restatus_trans _ _ _ _ R1). apply restatus_evicted; [done|].
    destruct (rs_lists _ _ _ R1) as (_ & _ & _ & _ & L5). specialize (L5 b). rewrite Hb3 in L5. destruct (bo_vas (amdgpu_vm_bo_idle b s3) !! b); [by eexists|done]. }
  destruct Hinit as (s' & -> & R). cbn [mbind option_bind]. exists s', (Some b). split; [done|]. split; [by eapply restatus_ok|].
  pose proof (rs_lists _ _ _ R) as (L1 & L2 & L3 & L4 & L5). split; [by rewrite L1|]. split; [|split; [done|]].
  - split; [apply R|apply R| | |].
    + intros c va i Hv Hi. destruct (rs_va _ _ _ R c va Hv) as (va1 & Hv1 & H1 & H2 & H3 & H4 & H5). rewrite H3 in Hi.
      destruct (Hold c va1 Hv1) as [[-> ->]|[Hne Hc]]; [by apply elem_of_nil in Hi|]. split; [by rewrite L1|]. exists va1.
      split_and!; try done. destruct H5 as [|H5]; [done|]. congruence.
    + intros x (i & m & Hmi & Hx). right. exists i, m. by rewrite L1.
    + intros c x (i & m & Hmi & Hx) _. exists i, m. rewrite L1 in Hmi. by split.
  - specialize (L5 b). rewrite Hb3 in L5. destruct (bo_vas s' !! b) as [va|] eqn:Hv; [|done]. exists va. split; [done|].
    destruct (rs_va _ _ _ R b va Hv) as (va1 & Hv1 & H1 & H2 & H3 & H4 & H5). assert (va1 = va0) as -> by congruence. by rewrite H1, H3, H4.
Qed.

(** ** A buffer moves *)

(** [s'] has the buffer elsewhere and its bases to be updated. *)
Record moved_away (o : nat) (s s' : space) : Prop := {
  ma_pt : pt s' = pt s;
  ma_mappings : mappings s' = mappings s;
  ma_freed : vm_freed s' = vm_freed s;
  ma_bos o' : o' ≠ o → bos s' !! o' = bos s !! o';
  ma_va b va' : bo_vas s' !! b = Some va' → ∃ va, bo_vas s !! b = Some va ∧ va_bo va' = va_bo va ∧ va_cleared va' = va_cleared va ∧
    valids va' = valids va ∧ invalids va' = invalids va ∧ (va_moved va' = false → va_moved va = false) ∧ (va_bo va = Some o → va_moved va' = true);
}.

Lemma invalidate_base_spec bo evict b s va : bo_kernel bo = false → bo_vas s !! b = Some va → va_bo va ≠ None →
  ∃ s', invalidate_base bo evict b s = Some s' ∧ restatus (λ c, c = b) s s' ∧ ∀ va', bo_vas s' !! b = Some va' → va_moved va' = true.
Proof.
  intros Hk Hva Hne. unfold invalidate_base, get_va. rewrite Hva. cbn [mbind option_bind]. eexists. split; [done|].
  destruct (evict && bo_shared bo).
  { split; [apply restatus_evicted; [done|by eexists]|]. intros va'. cbn. rewrite lookup_alter_eq, Hva. by intros [= <-]. }
  destruct (va_moved va) eqn:Hm; [split; [apply restatus_refl|congruence]|]. rewrite Hk.
  set (s1 := set_va b (λ v, v <| va_moved := true |>) s).
  assert (R1 : restatus (λ c, c = b) s s1) by (apply restatus_flag; [done|by eexists]).
  assert (Hv1 : bo_vas s1 !! b = Some (va <| va_moved := true |>)).
  { change (bo_vas s1) with (alter (λ v, v <| va_moved := true |>) b (bo_vas s)). by rewrite lookup_alter_eq, Hva. }
  destruct (bo_shared bo).
  - split; [apply (restatus_trans _ _ _ _ R1), restatus_moved; by eexists|]. intros va'. change (bo_vas (amdgpu_vm_bo_moved b s1)) with (bo_vas s1). rewrite Hv1. by intros [= <-].
  - split; [by apply (restatus_trans _ _ _ _ R1), (restatus_invalidated _ b s1 _ Hv1)|]. intros va'. change (bo_vas (amdgpu_vm_bo_invalidated b s1)) with (bo_vas s1).
    rewrite Hv1. by intros [= <-].
Qed.

Lemma invalidate_bases_spec bo evict l s : bo_kernel bo = false → (∀ b, b ∈ l → ∃ va, bo_vas s !! b = Some va ∧ va_bo va ≠ None) →
  ∃ s', invalidate_bases bo evict l s = Some s' ∧ restatus (λ c, c ∈ l) s s' ∧
    (∀ b va', b ∈ l → bo_vas s' !! b = Some va' → va_moved va' = true).
Proof.
  intros Hk. revert s. induction l as [|b l IH]; intros s Hl.
  { exists s. split; [done|]. split; [apply restatus_refl|]. by intros b va' ?%elem_of_nil. }
  destruct (Hl b ltac:(left)) as (va & Hva & Hne). cbn [invalidate_bases].
  destruct (invalidate_base_spec bo evict b s va Hk Hva Hne) as (s1 & -> & R1 & M1). cbn [mbind option_bind].
  assert (Hstep : ∀ c va0, bo_vas s !! c = Some va0 → ∃ va1, bo_vas s1 !! c = Some va1 ∧ va_bo va1 = va_bo va0).
  { intros c va0 Hc. destruct (rs_lists _ _ _ R1) as (_ & _ & _ & _ & L5). specialize (L5 c). rewrite Hc in L5. destruct (bo_vas s1 !! c) as [va1|] eqn:Hc1; [|done].
    exists va1. split; [done|]. destruct (rs_va _ _ _ R1 c va1 Hc1) as (va2 & ? & ? & _). congruence. }
  destruct (IH s1) as (s' & Hi & R & M).
  { intros c Hc. destruct (Hl c ltac:(by right)) as (va0 & Hv0 & Hn0). destruct (Hstep c va0 Hv0) as (va1 & ? & Hb1). exists va1. split; [done|congruence]. }
  exists s'. split; [exact Hi|].
  assert (R1' : restatus (λ c, c ∈ b :: l) s s1).
  { destruct R1 as [? ? ? ? R5 ? ?]. split; try done. intros c va' Hc. destruct (R5 c va' Hc) as (va0 & ? & ? & ? & ? & ? & [->|?]); exists va0; split_and!; try done; first [by right|left; apply elem_of_cons; by left]. }
  assert (R' : restatus (λ c, c ∈ b :: l) s1 s').
  { destruct R as [? ? ? ? R5 ? ?]. split; try done. intros c va' Hc. destruct (R5 c va' Hc) as (va0 & ? & ? & ? & ? & ? & [?|?]); exists va0; split_and!; try done; first [by right|left; apply elem_of_cons; by right]. }
  split; [by apply (restatus_trans _ _ _ _ R1')|]. intros c va' [->|Hc]%elem_of_cons Hv; [|by apply (M c)].
  destruct (decide (b ∈ l)) as [Hb|Hb]; [by apply (M b)|]. destruct (rs_va _ _ _ R b va' Hv) as (va1 & Hv1 & _ & _ & _ & _ & [?|Hm]); [done|]. rewrite Hm. by apply M1.
Qed.

Lemma move_spec adev s o bo evict mem dma : space_ok (max_pfn adev) s → bos s !! o = Some bo → bo_kernel bo = false →
  ∃ s', amdgpu_bo_move_notify o evict mem dma s = Some s' ∧ space_ok (max_pfn adev) s' ∧ moved_away o s s' ∧ bos s' !! o = Some (bo <| bo_resource := mem |> <| bo_dma := dma |>).
Proof.
  intros O Hbo Hk. unfold amdgpu_bo_move_notify, amdgpu_vm_bo_invalidate. rewrite Hbo. cbn [mbind option_bind].
  destruct (invalidate_bases_spec bo evict (default [] (chains s !! o)) s Hk) as (s1 & -> & R & M).
  { intros b Hb. apply (sp_chain _ _ O) in Hb as (va & Hva & Ho). exists va. split; [done|congruence]. }
  cbn [mbind option_bind]. set (f := λ bo : amdgpu_bo, bo <| bo_resource := mem |> <| bo_dma := dma |>). set (s' := s1 <| bos ::= alter f o |>).
  pose proof (restatus_ok _ _ _ _ O R) as O1. exists s'. split; [done|].
  assert (Hbos : ∀ o', bos s' !! o' = if decide (o' = o) then Some (f bo) else bos s !! o').
  { intros o'. change (bos s') with (alter f o (bos s1)). rewrite (rs_bos _ _ _ R). destruct (decide _) as [->|]; [by rewrite lookup_alter_eq, Hbo|by rewrite lookup_alter_ne]. }
  assert (Hlim : ∀ va, bo_limit s' va = bo_limit s1 va).
  { intros va. unfold bo_limit. destruct (va_bo va) as [o'|]; [|done]. rewrite Hbos, (rs_bos _ _ _ R). destruct (decide _) as [->|]; [by rewrite Hbo|done]. }
  split; [|split].
  - destruct O1 as [A1 A2 A3 A4 A5 A6 A7 A8 A9]. split; try done.
    + destruct A1 as [B1 B2 B3 B4 B5 B6 B7]. by split.
    + intros i m b va Hm Hb Hv. destruct (A4 i m b va Hm Hb Hv) as (W1 & W2 & W3). split; [done|]. split; [done|]. by rewrite Hlim.
    + intros b va o' Hv Ho. rewrite Hbos. destruct (decide _); [by eexists|]. rewrite <- (rs_bos _ _ _ R). by apply (A5 b va).
    + intros o' bo'. rewrite Hbos. destruct (decide _) as [->|]; [|rewrite <- (rs_bos _ _ _ R); apply A7]. intros [= <-]. exact (sp_size _ _ O o bo Hbo).
  - destruct (rs_lists _ _ _ R) as (L1 & L2 & L3 & L4 & L5). split; [apply R|done|done|intros o' Hne; by rewrite Hbos, decide_False|].
    intros b va' Hv. change (bo_vas s') with (bo_vas s1) in Hv. destruct (rs_va _ _ _ R b va' Hv) as (va & Hva & H1 & H2 & H3 & H4 & H5). exists va.
    assert (Hmv : b ∈ default [] (chains s !! o) → va_moved va' = true) by (intros Hb; by apply (M b)). split_and!; try done.
    + intros Hf. destruct H5 as [Hc|H5]; [rewrite (Hmv Hc) in Hf; done|congruence].
    + intros Ho. apply Hmv. apply (sp_chain _ _ O). by exists va.
  - by rewrite Hbos, decide_True.
Qed.
