(* ===== verification/VmSync.v ===== *)
(** * Mappings of a GPU address space: the page tables follow

    What an entry of the page tables says of a page, and what the updates of the page
    tables from the mappings leave: every page of a mapping that was updated is
    translated to its page of the buffer, pages that were cleared are not translated, and
    other mappings keep their entries. *)

From S2P Require Import Prelude Vm VmWalk VmCursor VmDfs VmLeaf VmWrite VmFragment VmFreeing VmUpdate VmRange VmHw VmProof.
From S2P Require Import VmRes VmResProof VmMap VmMapOk VmMapOps VmMapProof VmMapBase.
#[local] Open Scope Z_scope.
#[local] Open Scope list_scope.

(** ** Entries that translate *)

(** Flags of an entry that is not a translation. *)
Definition quiet (f : Z) : Prop := Z.testbit f 0 = false ∧ Z.testbit f 56 = false.

(** What the memory controller does to the flags of a mapping: it adds no address, and
    makes no entry a translation that is none. *)
Class VmPte (senv : space_env) : Prop := {
  vp_address m bo f : no_address f → no_address (get_vm_pte senv m bo f);
  vp_quiet m bo f : quiet f → quiet (get_vm_pte senv m bo f);
  vp_gart : no_address (gart_pte_flags senv) ∧ quiet (gart_pte_flags senv);
}.

(** Neither an address nor a translation comes from these. *)
Definition plain (f : Z) : Prop := no_address f ∧ quiet f.

Lemma no_address_lor a b : no_address a → no_address b → no_address (Z.lor a b).
Proof. intros Ha Hb i Hi. by rewrite Z.lor_spec, Ha, Hb. Qed.
Lemma no_address_ldiff a b : no_address a → no_address (Z.ldiff a b).
Proof. intros Ha i Hi. by rewrite Z.ldiff_spec, Ha. Qed.
Lemma no_address_land a b : no_address b → no_address (Z.land a b).
Proof. intros Hb i Hi. by rewrite Z.land_spec, Hb, andb_false_r. Qed.
Lemma quiet_lor a b : quiet a → quiet b → quiet (Z.lor a b).
Proof. intros [A1 A2] [B1 B2]. split; by rewrite Z.lor_spec, ?A1, ?A2, ?B1, ?B2. Qed.
Lemma quiet_ldiff a b : quiet a → quiet (Z.ldiff a b).
Proof. intros [A1 A2]. split; by rewrite Z.ldiff_spec, ?A1, ?A2. Qed.
Lemma quiet_land a b : quiet b → quiet (Z.land a b).
Proof. intros [A1 A2]. split; by rewrite Z.land_spec, ?A1, ?A2, andb_false_r. Qed.

Lemma no_address_pow k : 0 ≤ k < 12 ∨ 48 ≤ k → no_address (2 ^ k).
Proof. intros Hk i Hi. apply Z.pow2_bits_false. lia. Qed.
Lemma no_address_0 : no_address 0.
Proof. intros i _. apply Z.bits_0. Qed.
Lemma quiet_0 : quiet 0.
Proof. split; apply Z.bits_0. Qed.
Lemma no_address_mtype : no_address AMDGPU_PTE_MTYPE_VG10_MASK.
Proof.
  intros i Hi. change AMDGPU_PTE_MTYPE_VG10_MASK with (Z.lor (2 ^ 57) (2 ^ 58)). rewrite Z.lor_spec, !Z.pow2_bits_false by lia. done.
Qed.
Lemma no_address_flags : Forall no_address [AMDGPU_PTE_VALID; AMDGPU_PTE_SYSTEM; AMDGPU_PTE_SNOOPED; AMDGPU_PTE_TMZ; AMDGPU_PTE_EXECUTABLE;
  AMDGPU_PTE_READABLE; AMDGPU_PTE_WRITEABLE; AMDGPU_PTE_PRT].
Proof. repeat constructor; apply no_address_pow; lia. Qed.
Lemma no_address_flag f : f ∈ [AMDGPU_PTE_VALID; AMDGPU_PTE_SYSTEM; AMDGPU_PTE_SNOOPED; AMDGPU_PTE_TMZ; AMDGPU_PTE_EXECUTABLE;
  AMDGPU_PTE_READABLE; AMDGPU_PTE_WRITEABLE; AMDGPU_PTE_PRT] → no_address f.
Proof. intros Hf. by apply (proj1 (Forall_forall _ _) no_address_flags). Qed.
Lemma quiet_flag f : f ∈ [AMDGPU_PTE_EXECUTABLE; AMDGPU_PTE_READABLE; AMDGPU_PTE_WRITEABLE; AMDGPU_PTE_PRT; AMDGPU_PTE_TMZ; AMDGPU_PTE_MTYPE_VG10_MASK] → quiet f.
Proof. intros Hf. repeat (apply elem_of_cons in Hf as [->|Hf]; [by split|]). by apply elem_of_nil in Hf. Qed.

(** Flags put together from known ones. *)
Ltac pte_bits :=
  repeat match goal with
  | |- no_address (if ?c then _ else _) => destruct c
  | |- quiet (if ?c then _ else _) => destruct c
  | |- no_address (Z.lor _ _) => apply no_address_lor
  | |- no_address (Z.ldiff _ _) => apply no_address_ldiff
  | |- no_address (Z.land _ _) => apply no_address_land
  | |- quiet (Z.lor _ _) => apply quiet_lor
  | |- quiet (Z.ldiff _ _) => apply quiet_ldiff
  | |- quiet (Z.land _ _) => apply quiet_land
  | H : no_address ?f |- no_address ?f => exact H
  | H : quiet ?f |- quiet ?f => exact H
  | |- no_address 0 => exact no_address_0
  | |- quiet 0 => exact quiet_0
  | |- no_address AMDGPU_PTE_MTYPE_VG10_MASK => exact no_address_mtype
  | |- no_address _ => apply no_address_flag
  | |- quiet _ => apply quiet_flag
  | |- _ ∈ _ => repeat first [left|right]
  end.

(** GFX9 keeps that promise when the flags of coherence have no address. *)
Lemma gmc_v9_0_pte coherence senv : get_vm_pte senv = gmc_v9_0_get_vm_pte coherence →
  (∀ bo m f, no_address f → no_address (coherence bo m f)) → plain (gart_pte_flags senv) → VmPte senv.
Proof.
  intros He Hc Hg. split; [| |exact Hg]; intros m bo f Hf; rewrite He; unfold gmc_v9_0_get_vm_pte;
    set (f1 := Z.lor (Z.ldiff (Z.lor _ _) _) _).
  - assert (H1 : no_address f1) by (unfold f1; pte_bits).
    set (f2 := if nz (Z.land (m_flags m) AMDGPU_PTE_PRT) then _ else f1). assert (H2 : no_address f2) by (unfold f2; clearbody f1; pte_bits).
    destruct bo as [bo|]; [|exact H2]. destruct (nz (Z.land _ AMDGPU_PTE_VALID)); [by apply Hc|exact H2].
  - assert (H1 : quiet f1) by (unfold f1; pte_bits).
    set (f2 := if nz (Z.land (m_flags m) AMDGPU_PTE_PRT) then _ else f1). assert (H2 : quiet f2) by (unfold f2; clearbody f1; pte_bits).
    destruct bo as [bo|]; [|exact H2]. assert (Hv : nz (Z.land f2 AMDGPU_PTE_VALID) = false); [|by rewrite Hv].
    apply nz_false. apply Z.bits_inj'. intros i Hi. rewrite Z.land_spec, Z.bits_0. destruct (decide (i = 0)) as [->|Hne].
    + by rewrite (proj1 H2).
    + unfold AMDGPU_PTE_VALID. change 1 with (2 ^ 0). rewrite Z.pow2_bits_false by lia. apply andb_false_r.
Qed.

(** ** The flags of an update *)

Section Flags.
Context (senv : space_env) `{!VmPte senv}.

Lemma tt_pde_no_address bo mem : no_address (amdgpu_ttm_tt_pde_flags bo mem).
Proof. destruct mem as [mem|]; cbn [amdgpu_ttm_tt_pde_flags]; pte_bits. Qed.

Lemma update_flags_no_address clear bo m : no_address (update_flags senv clear bo m).
Proof.
  pose proof (proj1 vp_gart) as Hg. unfold update_flags. apply vp_address. set (f := match bo with Some _ => _ | None => 0 end).
  assert (Hf : no_address f); [|pte_bits]. unfold f. destruct bo as [bo|]; [|pte_bits]. unfold amdgpu_ttm_tt_pte_flags.
  pose proof (tt_pde_no_address bo (update_mem clear (Some bo)).1). pte_bits.
Qed.

(** Cleared entries translate nothing. *)
Lemma update_flags_quiet bo m : quiet (update_flags senv true bo m).
Proof.
  pose proof (proj2 vp_gart) as Hg. unfold update_flags. apply vp_quiet. set (f := match bo with Some _ => _ | None => 0 end).
  assert (Hf : quiet f); [|pte_bits]. unfold f. destruct bo as [bo|]; [|pte_bits]. unfold amdgpu_ttm_tt_pte_flags. cbn [update_mem fst amdgpu_ttm_tt_pde_flags]. pte_bits.
Qed.
End Flags.

(** ** What is asked of buffers and of the device *)

(** Byte [off] of the memory of a buffer, for the device. *)
Definition bo_page (bo : amdgpu_bo) (off : Z) : Z :=
  match bo_resource bo with
  | Some r => if bool_decide (mem_type r = PL_TT ∨ mem_type r = PL_PREEMPT) then bo_dma bo (off / 4096) else bo_vram_base bo + res_byte (Some r) off
  | None => bo_vram_base bo + off
  end.

(** A buffer whose pages the device can reach. *)
Record bo_ready (bo : amdgpu_bo) : Prop := {
  br_blocks r : bo_resource bo = Some r → bo_size bo ≤ res_size r ∧
    (mem_type r = PL_VRAM ∨ mem_type r = PL_TT ∨ mem_type r = PL_DOORBELL → Forall block_ok (res_blocks (Some r)) ∧ total (res_blocks (Some r)) = res_size r);
  br_pages off : 0 ≤ off < bo_size bo → (4096 | off) → 0 ≤ bo_page bo off < 2 ^ 48 ∧ (4096 | bo_page bo off);
  br_base : 0 ≤ bo_vram_base bo ∧ (4096 | bo_vram_base bo) ∧ bo_vram_base bo + bo_size bo ≤ 2 ^ 48;
}.

(** Where an update writes byte [off] to. *)
Definition update_place (clear : bool) (bo : option amdgpu_bo) (off : Z) : Z :=
  match bo with
  | Some bo => if clear then bo_vram_base bo + off else bo_page bo off
  | None => off
  end.

Section Sync.
Context (adev : amdgpu_device) (gmc : gmc_funcs) (env : vm_env) (renv : range_env) (senv : space_env).
Abbreviation max := (max_pfn adev).
Abbreviation depth := (depth adev).
Abbreviation sh := (sh adev).
Abbreviation cell := (cell adev).
Abbreviation nextb := (nextb adev).
Abbreviation limit := (limit adev).
Abbreviation leaf := (leaf adev).
Abbreviation kept := (kept adev).
Abbreviation vm_ok := (vm_ok adev gmc env).
Abbreviation entry_for := (entry_for adev).

(** GFX9 with four levels of tables of 2 MB, whose pages are all of the same kind, and
    writes of the CPU that nothing interrupts. *)
Record follows_env : Prop := {
  fe_gfx9 : gfx9 adev gmc env;
  fe_wide : wide adev;
  fe_pte : VmPte senv;
  fe_shift n : (n ≤ depth)%nat → sh n ≤ 19 ∨ 27 ≤ sh n;
  fe_override : override_vm_pte_flags gmc = None;
  fe_prepare k : pt_prepare env k = 0;
}.
Context (E : follows_env).
#[local] Instance follows_pte : VmPte senv := fe_pte E.

Lemma max_limit : max ≤ limit.
Proof.
  pose proof (sh_pos adev (g9_device _ _ _ (fe_gfx9 E)) 0 ltac:(lia)) as Hp. unfold VmWalk.limit, root_entries.
  pose proof (Z.mul_succ_div_gt (max - 1) (2 ^ sh 0) ltac:(lia)). lia.
Qed.

(** ** Entries *)

(** The page [x] is translated. *)
Definition live (vm : amdgpu_vm) (x : Z) : Prop := ∃ n v, leaf vm n x v ∧ Z.testbit v 0 = true.

Lemma quiet_entry_bit b flags n f : quiet flags → Z.testbit (amdgpu_gmc_set_pte_pde b (pte_flags adev flags n f)) 0 = false.
Proof.
  intros [H0 H1]. unfold amdgpu_gmc_set_pte_pde. rewrite Z.lor_spec, Z.land_spec.
  change (Z.testbit 0x0000FFFFFFFFF000 0) with false. rewrite andb_false_r. cbn [orb].
  assert (F : ∀ i, 0 ≤ i → i < 7 ∨ 12 ≤ i → Z.testbit (AMDGPU_PTE_FRAG f) i = false).
  { intros i Hi Hr. unfold AMDGPU_PTE_FRAG. rewrite Z.shiftl_spec, Z.land_spec by lia. destruct Hr.
    - by rewrite (Z.testbit_neg_r f) by lia.
    - assert (Z.testbit 0x1f (i - 7) = false) as ->; [|apply andb_false_r]. apply Z.bits_above_log2; [lia|]. change (Z.log2 0x1f) with 4. lia. }
  unfold pte_flags. set (fl := Z.lor flags (AMDGPU_PTE_FRAG f)).
  assert (L0 : Z.testbit fl 0 = false) by (unfold fl; by rewrite Z.lor_spec, H0, F by lia).
  assert (L1 : Z.testbit fl 56 = false) by (unfold fl; by rewrite Z.lor_spec, H1, F by lia). clearbody fl.
  destruct (decide _); [|by rewrite Z.lor_spec, L0]. set (fl2 := if _ && _ then Z.lor fl AMDGPU_PTE_EXECUTABLE else fl).
  assert (M0 : Z.testbit fl2 0 = false) by (unfold fl2; destruct (_ && _); [by rewrite Z.lor_spec, L0|done]).
  assert (M1 : Z.testbit fl2 56 = false) by (unfold fl2; destruct (_ && _); [by rewrite Z.lor_spec, L1|done]). clearbody fl2.
  unfold amdgpu_vm_pte_update_noretry_flags. destruct (Z.eqb_spec (Z.land fl2 AMDGPU_VM_NORETRY_FLAGS) AMDGPU_VM_NORETRY_FLAGS) as [He|_]; [|done].
  apply (f_equal (λ z, Z.testbit z 56)) in He. rewrite Z.land_spec, M1 in He. by vm_compute in He.
Qed.

Lemma cleared_bit n : Z.testbit (cleared adev n) 0 = false.
Proof. unfold cleared. destruct (decide _); by destruct (vega10 adev). Qed.

Lemma entry_quiet flags lo hi a vm x : vm_ok vm → quiet flags → entry_for flags lo hi a vm x → ¬ live vm x.
Proof.
  intros V Hq (n & v & f & b & _ & _ & _ & Hl & -> & _) (m & w & Hw & Hb).
  destruct (leaf_fun adev vm n m x _ w (ok_wf _ _ _ _ V) Hl Hw) as [_ <-]. by rewrite quiet_entry_bit in Hb.
Qed.

(** An entry whose pages are not in the range of an update stays. *)
Lemma entry_kept flags lo hi a vm vm' x start end' : kept start end' vm vm' x → hi ≤ start ∨ end' ≤ lo →
  entry_for flags lo hi a vm x → entry_for flags lo hi a vm' x.
Proof.
  intros K Hd (n & v & f & b & H1 & H2 & H3 & H4 & H5). destruct (K n v H4) as [Hl|(k & _ & Hk1 & Hk2 & _)].
  - exists n, v, f, b. auto.
  - change (VmWalk.nextb adev n x) with (nextb n x) in *. change (VmWalk.cell adev n x * 2 ^ VmWalk.sh adev n) with (cell n x * 2 ^ sh n) in *. lia.
Qed.

Lemma live_kept vm vm' x start end' : vm_ok vm → vm_ok vm' → 0 ≤ x < limit → kept start end' vm vm' x → live vm' x → live vm x.
Proof.
  intros V V' Hx K (n & v & Hl & Hb). destruct (leaf_total adev (g9_device _ _ _ (fe_gfx9 E)) vm x (ok_wf _ _ _ _ V) Hx) as (m & w & Hw & _).
  destruct (K m w Hw) as [Hl'|(k & _ & _ & _ & Hl')]; destruct (leaf_fun adev vm' _ _ x _ _ (ok_wf _ _ _ _ V') Hl Hl') as [-> ->].
  - by exists m, w.
  - by rewrite cleared_bit in Hb.
Qed.

(** ** One update *)

Record updated (start last flags : Z) (loc : Z → Z) (vm vm' : amdgpu_vm) (r : Z) : Prop := {
  ud_ok : vm_ok vm';
  ud_kept x : 0 ≤ x < limit → ¬ start ≤ x ≤ last → kept start (last + 1) vm vm' x;
  ud_done x : r = 0 → start ≤ x ≤ last → entry_for flags start (last + 1) (loc (x - start)) vm' x;
  ud_error : r = 0 ∨ ∃ k, r = bo_create env k ∨ r = range_begin renv k;
}.

Lemma one_update ao start last flags offset base res pages vm k : range_req adev gmc ao start last flags offset base res pages → vm_ok vm →
  ∃ vm' r, amdgpu_vm_update_range adev gmc env renv k vm false ao start last flags offset base res pages = Some (vm', r) ∧
    updated start last flags (page_loc base res pages offset) vm vm' r.
Proof.
  intros Rq V. pose proof (rr_range _ _ _ _ _ _ _ _ _ _ Rq) as Hr.
  destruct (update_range_spec adev gmc env renv (fe_gfx9 E) (fe_wide E) ao start last flags offset base res pages Rq vm k V) as (vm' & r & Hu & Ho).
  exists vm', r. split; [exact Hu|]. destruct Ho as [[Hz [D1 D2 D3]]|[(Hne & [j Hj] & hi & Hhi & [D1 D2 D3])|[Hne [j Hj]]]]; cbn [fst snd] in *.
  - split; [done|done| |by left]. intros x _ Hx. apply D2. lia.
  - split; [done|done|congruence|]. right. exists j. destruct Hj; auto.
  - rewrite (fe_prepare E) in Hj. done.
Qed.

Lemma updated_live start last flags loc vm vm' r x : vm_ok vm → updated start last flags loc vm vm' r → 0 ≤ x < limit → live vm' x →
  live vm x ∨ start ≤ x ≤ last.
Proof.
  intros V [U1 U2 U3 U4] Hx Hl. destruct (decide (start ≤ x ≤ last)) as [|Hout]; [by right|left]. apply (live_kept vm vm' x start (last + 1)); auto.
Qed.

Lemma updated_entry start last flags loc vm vm' r fl lo hi a x : updated start last flags loc vm vm' r → 0 ≤ x < limit → lo ≤ x < hi → hi ≤ start ∨ last < lo →
  entry_for fl lo hi a vm x → entry_for fl lo hi a vm' x.
Proof. intros [U1 U2 U3 U4] Hx Hlh Hd. apply (entry_kept _ _ _ _ _ _ _ start (last + 1)); [apply U2; [done|lia]|lia]. Qed.

(** ** The update of a mapping *)

(** The update of the pages of a mapping can be asked for. *)
Lemma size_ok start last : 0 ≤ start ≤ last → last - start + 1 < 2 ^ 28 → 
  0 < (last + 1 - start) * 4096 ∧ (4096 | (last + 1 - start) * 4096) ∧ ∀ n, (n ≤ depth)%nat → sh n ≤ 19 ∨ last + 1 - start < 2 ^ (sh n + 1).
Proof.
  intros H1 H2. split; [lia|]. split; [apply Z.divide_factor_r|]. intros n Hn. destruct (fe_shift E n Hn) as [|Hs]; [by left|right].
  apply (Z.lt_le_trans _ (2 ^ 28)); [lia|]. apply Z.pow_le_mono_r; lia.
Qed.

Lemma clear_req m : 0 ≤ m_start m ≤ m_last m → m_last m < max → m_last m - m_start m + 1 < 2 ^ 28 →
  range_req adev gmc false (m_start m) (m_last m) 0 0 0 None None.
Proof.
  intros H1 H2 H3. pose proof max_limit. destruct (size_ok _ _ H1 H3) as (S1 & S2 & S3). split.
  - change (VmWalk.limit adev) with limit. lia.
  - exact S3.
  - by right.
  - apply no_address_0.
  - split; [split; [lia|apply Z.divide_0_r]|split; [lia|split; [done|lia]]|done|done].
  - intros i [?|?]; done.
Qed.

Section Mapping.
Context (s : space) (i : nat) (m : bo_va_mapping) (b : nat) (va : bo_va) (bo : option amdgpu_bo) (clear : bool).
Context (O : space_ok max s) (Hm : mappings s !! i = Some m) (Hb : m_bo_va m = Some b) (Hva : bo_vas s !! b = Some va).
Context (Hbo : get_bo s (va_bo va) = Some bo) (Hready : ∀ bo', bo = Some bo' → bo_ready bo').

Lemma mapping_limit : 0 ≤ m_offset m ∧ (4096 | m_offset m) ∧ m_offset m + (m_last m - m_start m + 1) * 4096 ≤ 2 ^ 48 ∧
  ∀ bo', bo = Some bo' → m_offset m + (m_last m - m_start m + 1) * 4096 ≤ bo_size bo'.
Proof.
  destruct (sp_within _ _ O i m b va Hm Hb Hva) as (W1 & W2 & W3). destruct (get_bo_spec adev s b va O Hva) as (bo2 & Hbo2 & Hlim & _).
  assert (bo2 = bo) as -> by congruence. rewrite Hlim in W3. split_and!; try done; [|by intros bo' ->]. destruct bo as [bo'|]; [|lia].
  destruct (br_base _ (Hready bo' eq_refl)) as (? & _ & ?). lia.
Qed.

Lemma mapping_place j : 0 ≤ j ≤ m_last m - m_start m →
  page_loc (update_base bo) (update_mem clear bo).1 (update_mem clear bo).2 (m_offset m) j = update_place clear bo (m_offset m + j * 4096).
Proof.
  intros Hj. destruct mapping_limit as (L1 & [q Hq] & L3 & L4). unfold page_loc, update_place, update_base, update_mem. destruct bo as [bo'|]; [|done]. destruct clear; [done|].
  cbn [fst snd]. unfold bo_page. destruct (bo_resource bo') as [r|]; [|done]. destruct (bool_decide _); [|done]. f_equal. rewrite Hq.
  replace (q * 4096 + j * 4096) with ((q + j) * 4096) by lia. by rewrite !Z.div_mul by lia.
Qed.

Lemma mapping_req : range_req adev gmc (update_override bo) (m_start m) (m_last m) (update_flags senv clear bo m) (m_offset m) (update_base bo) (update_mem clear bo).1 (update_mem clear bo).2.
Proof.
  pose proof max_limit. destruct (sp_range _ _ O i m Hm) as (R1 & R2 & R3). destruct (size_ok _ _ R1 R3) as (S1 & S2 & S3).
  destruct mapping_limit as (L1 & L2 & L3 & L4). split.
  - change (VmWalk.limit adev) with limit. lia.
  - exact S3.
  - left. apply (fe_override E).
  - apply update_flags_no_address, _.
  - assert (Hnone : walkable None (m_offset m) ((m_last m + 1 - m_start m) * 4096)) by (split; [done|split; [done|split; [done|lia]]|done|done]).
    unfold update_mem. destruct bo as [bo'|]; [|exact Hnone]. destruct clear; [exact Hnone|]. cbn [fst snd].
    destruct (bo_resource bo') as [r|] eqn:Hr; [|exact Hnone]. destruct (bool_decide _); [exact Hnone|].
    destruct (br_blocks _ (Hready bo' eq_refl) r Hr) as [B1 B2]. split; [done|split; [done|split; [done|lia]]| |by intros ? [= <-]].
    intros ? [= <-]. pose proof (L4 bo' eq_refl). lia.
  - intros j _ Hj. rewrite mapping_place by lia. unfold update_place. destruct bo as [bo'|].
    + pose proof (L4 bo' eq_refl). destruct clear.
      * destruct (br_base _ (Hready bo' eq_refl)) as (B1 & B2 & B3). split; [lia|]. repeat apply Z.divide_add_r; try done. apply Z.divide_factor_r.
      * apply (br_pages _ (Hready bo' eq_refl)); [lia|]. apply Z.divide_add_r; [done|apply Z.divide_factor_r].
    + split; [lia|]. apply Z.divide_add_r; [done|apply Z.divide_factor_r].
Qed.
End Mapping.

(** ** All mappings of a base that are to be entered *)

Definition on_pages (m : bo_va_mapping) (x : Z) : Prop := m_start m ≤ x ≤ m_last m.
(** The mapping has its entries. *)
Definition mapping_entry (clear : bool) (bo : option amdgpu_bo) (m : bo_va_mapping) (vm : amdgpu_vm) (x : Z) : Prop :=
  entry_for (update_flags senv clear bo m) (m_start m) (m_last m + 1) (update_place clear bo (m_offset m + (x - m_start m) * 4096)) vm x.

Lemma space_ok_pt s vm n : space_ok max s → space_ok max (s <| pt := vm |> <| asked := n |>).
Proof. intros [[A1 A2 A3 A4 A5 A6 A7] O2 O3 O4 O5 O6 O7 O8 O9]. split; try done. Qed.

(** The mappings [l] of [ms] were updated in turn, up to the result [r]. *)
Record list_updated (ms : gmap nat bo_va_mapping) (l : list nat) (vm vm' : amdgpu_vm) (r : Z) : Prop := {
  lu_ok : vm_ok vm';
  lu_live x : 0 ≤ x < limit → live vm' x → live vm x ∨ ∃ i m, i ∈ l ∧ ms !! i = Some m ∧ on_pages m x;
  lu_entry fl lo hi a x : 0 ≤ x < limit → lo ≤ x < hi → (∀ i m, i ∈ l → ms !! i = Some m → hi ≤ m_start m ∨ m_last m < lo) →
    entry_for fl lo hi a vm x → entry_for fl lo hi a vm' x;
  lu_error : r = 0 ∨ ∃ k, r = bo_create env k ∨ r = range_begin renv k;
}.

Lemma list_updated_nil ms vm : vm_ok vm → list_updated ms [] vm vm 0.
Proof. intros V. split; [done|by left|done|by left]. Qed.

Lemma list_updated_one ms i l m fl loc vm vm' r : ms !! i = Some m → vm_ok vm →
  updated (m_start m) (m_last m) fl loc vm vm' r → list_updated ms (i :: l) vm vm' r.
Proof.
  intros Hm V U. split.
  - apply (ud_ok _ _ _ _ _ _ _ U).
  - intros x Hx Hl. destruct (updated_live _ _ _ _ _ _ _ x V U Hx Hl) as [|Hin]; [by left|]. right. exists i, m. split; [left|done].
  - intros f lo hi a x Hx Hlh Hd. apply (updated_entry _ _ _ _ _ _ _ _ _ _ _ _ U Hx Hlh). apply (Hd i m); [left|done].
  - apply (ud_error _ _ _ _ _ _ _ U).
Qed.

Lemma list_updated_cons ms ms1 i l vm vm1 vm' r : (∀ j, j ∈ l → ms1 !! j = ms !! j) →
  list_updated ms [i] vm vm1 0 → list_updated ms1 l vm1 vm' r → list_updated ms (i :: l) vm vm' r.
Proof.
  intros Hms [A1 A2 A3 _] [B1 B2 B3 B4]. split; [done| | |done].
  - intros x Hx Hl. destruct (B2 x Hx Hl) as [Hl1|(j & mj & Hj & Hm & ?)].
    + destruct (A2 x Hx Hl1) as [|(j & mj & Hj & ? & ?)]; [by left|]. right. exists j, mj. apply list_elem_of_singleton in Hj as ->. split; [left|done].
    + right. exists j, mj. rewrite <- Hms by done. split; [by right|done].
  - intros f lo hi a x Hx Hlh Hd He. apply B3; [done|done|intros j mj Hj Hm; apply (Hd j); [by right|by rewrite <- Hms]|]. apply A3; [done|done| |done].
    intros j mj Hj. apply list_elem_of_singleton in Hj as ->. apply Hd. left.
Qed.

Lemma update_invalids_spec clear bo b va l s : space_ok max s → vm_ok (pt s) → bo_vas s !! b = Some va → get_bo s (va_bo va) = Some bo →
  (∀ bo', bo = Some bo' → bo_ready bo') → NoDup l → (∀ i, i ∈ l → owner s i = Some b) →
  ∃ s' r, update_invalids adev gmc env renv senv clear bo l s = Some (s', r) ∧
    (∃ vm n, s' = s <| pt := vm |> <| asked := n |>) ∧ list_updated (mappings s) l (pt s) (pt s') r ∧
    (r = 0 → ∀ i m x, i ∈ l → mappings s !! i = Some m → on_pages m x → mapping_entry clear bo m (pt s') x).
Proof.
  intros O V Hva Hbo Hready. revert s O V Hva Hbo. induction l as [|i l IH]; intros s O V Hva Hbo Hnd Hin.
  { exists s, 0. split; [done|]. split; [exists (pt s), (asked s); by destruct s|]. split; [by apply list_updated_nil|]. by intros _ i m x ?%elem_of_nil. }
  apply NoDup_cons in Hnd as [Hi Hnd]. pose proof (Hin i ltac:(left)) as Ho. apply owner_Some in Ho as (m & Hm & Hb).
  cbn [update_invalids]. rewrite Hm, Some_bind. destruct (update_mem clear bo) as [mem pages] eqn:Hmp.
  pose proof (mapping_req s i m b va bo clear O Hm Hb Hva Hbo Hready) as Rq. rewrite Hmp in Rq. cbn [fst snd] in Rq.
  change (pt (ask_space s)) with (pt s). destruct (one_update _ _ _ _ _ _ _ _ (pt s) (asked s) Rq V) as (vm & r & Hu & U).
  rewrite Hu, Some_bind. set (s1 := (ask_space s) <| pt := vm |>).
  assert (Hs1 : s1 = s <| pt := vm |> <| asked := S (asked s) |>) by (unfold s1; by destruct s).
  pose proof (list_updated_one (mappings s) i [] m _ _ _ vm r Hm V U) as U1. pose proof (list_updated_one (mappings s) i l m _ _ _ vm r Hm V U) as Ul.
  destruct (nz r) eqn:Hr.
  { apply nz_true in Hr. exists s1, r. split; [done|]. split; [by do 2 eexists|]. split; [exact Ul|]. by intros ->. }
  apply nz_false in Hr. subst r. assert (O1 : space_ok max s1) by (rewrite Hs1; by apply space_ok_pt).
  destruct (IH s1 O1 (ud_ok _ _ _ _ _ _ _ U) Hva Hbo Hnd) as (s' & r & -> & (vm2 & n2 & Hs') & L & Hd); [intros j Hj; apply Hin; by right|].
  exists s', r. split; [done|]. split; [exists vm2, n2; by rewrite Hs'|].
  split; [by apply (list_updated_cons _ (mappings s1) i l (pt s) vm)|]. intros Hr j mj x [->|Hj]%elem_of_cons Hmj Hx; [|by apply (Hd Hr j)].
  assert (mj = m) as -> by congruence. destruct (sp_range _ _ O i m Hm) as (R1 & R2 & R3). pose proof max_limit. unfold on_pages in Hx.
  apply (lu_entry _ _ _ _ _ L); [lia|lia| |].
  - intros k mk Hk Hmk. pose proof (Hin k ltac:(by right)) as Hok. apply owner_Some in Hok as (mk' & Hmk' & Hbk). change (mappings s1) with (mappings s) in Hmk.
    assert (mk' = mk) as -> by congruence. destruct (sp_disjoint _ _ O k i mk m) as [|]; [congruence|done|done|by exists b|by exists b|right; lia|left; lia].
  - pose proof (ud_done _ _ _ _ _ _ _ U x eq_refl Hx) as He. pose proof (mapping_place s i m b va bo clear O Hm Hb Hva Hbo Hready (x - m_start m) ltac:(lia)) as Hp.
    rewrite Hmp in Hp. cbn [fst snd] in Hp. rewrite Hp in He. exact He.
Qed.

(** ** Clearing what was unmapped *)

(** The first mapping that waits is freed. *)
Lemma freed_turn s i l vm : space_ok max s → vm_freed s = i :: l →
  ∃ m s', mappings s !! i = Some m ∧ m_bo_va m = None ∧
    amdgpu_vm_free_mapping senv i ((ask_space (s <| vm_freed := l |>)) <| pt := vm |>) = Some s' ∧ space_ok max s' ∧
    mappings s' = delete i (mappings s) ∧ pt s' = vm ∧ vm_freed s' = l ∧ bos s' = bos s ∧ bo_vas s' = bo_vas s.
Proof.
  intros O Hfr. pose proof (sp_linked _ _ O) as Hl. destruct (proj1 (lk_freed _ _ _ Hl i) ltac:(rewrite Hfr; left)) as (m & Hm & Hn).
  exists m. set (s1 := (ask_space (s <| vm_freed := l |>)) <| pt := vm |>). unfold amdgpu_vm_free_mapping.
  change (mappings s1) with (mappings s). rewrite Hm, Some_bind. set (s2 := if is_prt m then amdgpu_vm_add_prt_cb senv s1 else s1).
  assert (H2 : mappings s2 = mappings s1 ∧ it s2 = it s1 ∧ vm_freed s2 = vm_freed s1 ∧ next_id s2 = next_id s1 ∧ bo_vas s2 = bo_vas s1 ∧ frame s1 s2 ∧
    all_status s2 = all_status s1).
  { unfold s2. destruct (is_prt m); [apply (prt_same senv (amdgpu_vm_add_prt_cb senv)); by right|]. split_and!; try done. apply frame_refl. }
  destruct H2 as (M2 & I2 & V2 & N2 & B2 & [F1 F2 F3 F4 F5 F6 F7] & T2). set (s' := s2 <| mappings ::= delete i |>). exists s'. split; [done|]. split; [done|]. split; [done|].
  assert (Hms : mappings s' = delete i (mappings s)) by (change (mappings s') with (delete i (mappings s2)); by rewrite M2).
  assert (Hown : ∀ j, owner s' j = owner s j).
  { intros j. unfold owner. rewrite Hms. destruct (decide (j = i)) as [->|]; [by rewrite lookup_delete_eq, Hm|by rewrite lookup_delete_ne]. }
  assert (Hsub : ∀ j mj, mappings s' !! j = Some mj → j ≠ i ∧ mappings s !! j = Some mj) by (intros j mj; rewrite Hms; intros [? ?]%lookup_delete_Some; done).
  assert (Hbv : bo_vas s' = bo_vas s) by (change (bo_vas s') with (bo_vas s2); by rewrite B2).
  assert (Hbo : bos s' = bos s) by (change (bos s') with (bos s2); by rewrite F2).
  split; [|split; [done|split; [by change (pt s') with (pt s2)|split; [by change (vm_freed s') with (vm_freed s2)|done]]]].
  destruct O as [[A1 A2 A3 A4 [A5 A5'] A6 [A7 A8]] O2 O3 O4 O5 O6 O7 O8 O9]. rewrite Hfr in A5'. apply NoDup_cons in A5' as [Hil Hnd].
  assert (Hvf : vm_freed s' = l) by (change (vm_freed s') with (vm_freed s2); by rewrite V2). split.
  - split.
    + intros j. change (it s') with (it s2). rewrite I2, Hown. apply A1.
    + intros b va j. rewrite Hbv, Hown. apply A2.
    + intros j b. rewrite Hbv, Hown. apply A3.
    + intros j. rewrite Hvf, Hms. pose proof (A4 j) as H4. rewrite Hfr, elem_of_cons in H4. split.
      * intros Hj. assert (j ≠ i) by (by intros ->). rewrite lookup_delete_ne by done. apply H4. by right.
      * intros (mj & [Hne Hmj]%lookup_delete_Some & Hnj). destruct (proj2 H4) as [|]; [by exists mj|done|done].
    + change (it s') with (it s2). by rewrite I2, Hvf.
    + intros b va. rewrite Hbv. apply A6.
    + change (next_id s') with (next_id s2). rewrite N2, Hbv. split; [|exact A8]. intros j [mj [_ Hmj]%Hsub]. apply A7. by exists mj.
  - intros j mj [_ Hmj]%Hsub. by apply (O2 j).
  - intros j k mj mk Hjk [_ Hmj]%Hsub [_ Hmk]%Hsub. by apply (O3 j k).
  - intros j mj b va [_ Hmj]%Hsub. rewrite Hbv. intros Hb Hva. destruct (O4 j mj b va Hmj Hb Hva) as (W1 & W2 & W3). split; [done|]. split; [done|].
    by rewrite (bo_limit_frame s s' va va).
  - intros b va o. rewrite Hbv, Hbo. apply O5.
  - intros o b. change (chains s') with (chains s2). rewrite F3, Hbv. apply O6.
  - rewrite Hbo. apply O7.
  - intros b Hb. change (all_status s') with (all_status s2) in Hb. rewrite T2 in Hb. rewrite Hbv. by apply O8.
  - intros b va Hb. change (invalidated s') with (invalidated s2) in Hb. rewrite Hbv. apply O9. by apply F7 in Hb.
Qed.

Lemma clear_list_spec l s : space_ok max s → vm_ok (pt s) → vm_freed s = l →
  ∃ s' r, clear_list adev gmc env renv senv 0 l s = Some (s', r) ∧ space_ok max s' ∧ list_updated (mappings s) l (pt s) (pt s') r ∧
    bos s' = bos s ∧ bo_vas s' = bo_vas s ∧ (∀ j, j ∉ l → mappings s' !! j = mappings s !! j) ∧
    (∀ j m, mappings s' !! j = Some m → mappings s !! j = Some m) ∧ (r = 0 → vm_freed s' = []) ∧
    (r = 0 → ∀ i m x, i ∈ l → mappings s !! i = Some m → on_pages m x → 0 ≤ x < limit → ¬ live (pt s') x).
Proof.
  revert s. induction l as [|i l IH]; intros s O V Hfr.
  { exists s, 0. split; [done|]. split; [done|]. split; [by apply list_updated_nil|]. split_and!; try done. by intros _ i m x ?%elem_of_nil. }
  cbn [clear_list]. pose proof (proj2 (lk_nodup _ _ _ (sp_linked _ _ O))) as Hnd. rewrite Hfr in Hnd. apply NoDup_cons in Hnd as [Hil Hnd].
  destruct (proj1 (lk_freed _ _ _ (sp_linked _ _ O) i) ltac:(rewrite Hfr; left)) as (m & Hm & Hn).
  change (mappings (s <| vm_freed := l |>)) with (mappings s). rewrite Hm, Some_bind. change (pt (s <| vm_freed := l |>)) with (pt s).
  rewrite (ok_ats _ _ _ _ V). cbn [andb]. change (asked (s <| vm_freed := l |>)) with (asked s). change (pt (ask_space (s <| vm_freed := l |>))) with (pt s).
  destruct (sp_range _ _ O i m Hm) as (R1 & R2 & R3). destruct (one_update _ _ _ _ _ _ _ _ (pt s) (asked s) (clear_req m R1 R2 R3) V) as (vm & r & Hu & U).
  rewrite Hu, Some_bind. destruct (freed_turn s i l vm O Hfr) as (m2 & s1 & Hm2 & _ & Hf & O1 & M1 & P1 & V1 & B1 & A1). rewrite Hf, Some_bind.
  assert (Hlk : ∀ j, j ≠ i → mappings s1 !! j = mappings s !! j) by (intros j Hj; rewrite M1; by apply lookup_delete_ne).
  assert (Hsub : ∀ j mj, mappings s1 !! j = Some mj → mappings s !! j = Some mj) by (intros j mj; rewrite M1; by intros [_ ?]%lookup_delete_Some).
  destruct (nz r) eqn:Hr.
  { apply nz_true in Hr. exists s1, r. split; [done|]. split; [done|]. rewrite P1. split; [by apply (list_updated_one _ i l m _ _ _ _ _ Hm V U)|].
    split_and!; try done. intros j [? _]%not_elem_of_cons. by apply Hlk. }
  apply nz_false in Hr. subst r. destruct (IH s1 O1) as (s' & r & -> & O' & L & B' & A' & K' & S' & F' & D'); [rewrite P1; apply U|done|]. rewrite P1 in L.
  assert (Hin : ∀ j, j ∈ l → j ≠ i) by (intros j Hj ->; done).
  exists s', r. split; [done|]. split; [done|]. split; [|split; [by rewrite B'|split; [by rewrite A'|split; [|split; [auto|split; [exact F'|]]]]]].
  - apply (list_updated_cons _ (mappings s1) i l _ vm); [auto|by apply (list_updated_one _ i [] m _ _ _ _ _ Hm V U)|done].
  - intros j [Hji Hjl]%not_elem_of_cons. rewrite K' by done. by apply Hlk.
  - intros Hr j mj x [->|Hj]%elem_of_cons Hmj Hx Hxl; [|apply (D' Hr j mj x); [done|rewrite Hlk; auto|done|done]].
    assert (mj = m) as -> by congruence. intros Hlv.
    destruct (lu_live _ _ _ _ _ L x Hxl Hlv) as [Hlv1|(k & mk & Hk & Hmk & Hxk)]; [|by apply (D' Hr k mk x)].
    exact (entry_quiet _ _ _ _ vm x (ud_ok _ _ _ _ _ _ _ U) quiet_0 (ud_done _ _ _ _ _ _ _ U x eq_refl Hx) Hlv1).
Qed.
End Sync.
