(* ===== verification/VmSpace.v ===== *)
(** * Mappings of a GPU address space: the invariant

    The mappings and the page tables in step: the entries of a mapping that is up to date
    give its pages of the buffer, and a page that is translated is one of a mapping, in use
    or waiting to be cleared.  Every request and every update keeps that. *)

From S2P Require Import Prelude Vm VmWalk VmCursor VmDfs VmLeaf VmWrite VmFragment VmFreeing VmUpdate VmRange VmHw VmProof.
From S2P Require Import VmRes VmResProof VmMap VmMapOk VmMapOps VmMapProof VmMapBase VmSync.
#[local] Open Scope Z_scope.
#[local] Open Scope list_scope.

(** ** Lists of a base *)

Lemma set_va_lookup b f s c : bo_vas (set_va b f s) !! c = if decide (c = b) then f <$> bo_vas s !! c else bo_vas s !! c.
Proof.
  change (bo_vas (set_va b f s)) with (alter f b (bo_vas s)). destruct (decide _) as [->|]; [by rewrite lookup_alter_eq|by rewrite lookup_alter_ne].
Qed.

(** A base gets its mappings in another order, or on the other list. *)
Lemma space_ok_relist max s b f : space_ok max s → (∀ v, va_bo (f v) = va_bo v ∧ valids (f v) ++ invalids (f v) ≡ₚ valids v ++ invalids v) → space_ok max (set_va b f s).
Proof.
  intros [[A1 A2 A3 A4 A5 A6 [A7 A8]] O2 O3 O4 O5 O6 O7 O8 O9] Hf.
  assert (Hat : ∀ c va', bo_vas (set_va b f s) !! c = Some va' → ∃ va, bo_vas s !! c = Some va ∧ va_bo va' = va_bo va ∧ valids va' ++ invalids va' ≡ₚ valids va ++ invalids va).
  { intros c va'. rewrite set_va_lookup. destruct (decide _) as [->|]; [|by exists va']. intros (va & Hva & ->)%fmap_Some. exists va. split; [done|]. apply Hf. }
  assert (Hdom : ∀ c, is_Some (bo_vas s !! c) → is_Some (bo_vas (set_va b f s) !! c)).
  { intros c Hc. rewrite set_va_lookup. destruct (decide _); [by apply fmap_is_Some|done]. }
  split; try done.
  - split; try done.
    + intros c va' i (va & Hva & _ & Hp)%Hat. rewrite <- !elem_of_app, Hp, elem_of_app. by apply A2.
    + intros i c Hi. by apply Hdom, (A3 i).
    + intros c va' (va & Hva & _ & Hp)%Hat. rewrite Hp. by apply (A6 c).
    + split; [done|]. intros c [va' (va & Hva & _)%Hat]. apply A8. by eexists.
  - intros i m c va' Hm Hc (va & Hva & Hbo & _)%Hat. destruct (O4 i m c va Hm Hc Hva) as (W1 & W2 & W3). split; [done|]. split; [done|].
    by rewrite (bo_limit_frame s (set_va b f s) va va').
  - intros c va' o (va & Hva & Hbo & _)%Hat Ho. apply (O5 c va o Hva). congruence.
  - intros o c. change (chains (set_va b f s)) with (chains s). rewrite O6. split.
    + intros (va & Hva & Ho). destruct (Hdom c ltac:(by eexists)) as [va' Hva']. exists va'. split; [done|]. destruct (Hat c va' Hva') as (va0 & ? & ? & _). congruence.
    + intros (va' & Hva' & Ho). destruct (Hat c va' Hva') as (va & Hva & Hbo & _). exists va. split; [done|congruence].
  - intros c Hc. by apply Hdom, O8.
  - intros c va' Hc (va & Hva & Hbo & _)%Hat. rewrite Hbo. by apply (O9 c).
Qed.

Section Space.
Context (adev : amdgpu_device) (gmc : gmc_funcs) (env : vm_env) (renv : range_env) (senv : space_env).
Context (E : follows_env adev gmc env senv).
Abbreviation max := (max_pfn adev).
Abbreviation limit := (limit adev).
Abbreviation leaf := (leaf adev).
Abbreviation vm_ok := (vm_ok adev gmc env).
Abbreviation entry_for := (entry_for adev).
Abbreviation mapping_entry := (mapping_entry adev senv).
Abbreviation live := (live adev).

(** The entry for page [x] of a mapping of the base [va] that was entered. *)
Definition entry_good (s : space) (va : bo_va) (m : bo_va_mapping) (x : Z) : Prop :=
  if va_cleared va then ∃ fl a, quiet fl ∧ entry_for fl (m_start m) (m_last m + 1) a (pt s) x
  else va_moved va = false → ∀ bo, get_bo s (va_bo va) = Some bo → mapping_entry false bo m (pt s) x.

Record synced (s : space) : Prop := {
  sy_ok : space_ok max s;
  sy_pt : vm_ok (pt s);
  sy_bos o bo : bos s !! o = Some bo → bo_ready bo;
  sy_entry b va i m x : bo_vas s !! b = Some va → i ∈ valids va → mappings s !! i = Some m → on_pages m x → entry_good s va m x;
  sy_wait b x : waiting s x → ¬ entered s b x;
  sy_live x : 0 ≤ x < limit → live (pt s) x → covered s x;
}.

Lemma get_bo_same s s' o : bos s' = bos s → get_bo s' o = get_bo s o.
Proof. unfold get_bo. by intros ->. Qed.

(** Requests leave the page tables alone. *)
Lemma synced_gives_up P s s' : synced s → space_ok max s' → gives_up P s s' → (∀ x, 0 ≤ x < limit → P x → ¬ live (pt s) x) → synced s'.
Proof.
  intros [S1 S2 S3 S4 S5 S6] O' [U1 U2 U3 U4 U5] HP. split; rewrite ?U1; try done.
  - intros o bo. rewrite U2. apply S3.
  - intros b va i m x Hva Hi Hm Hx. destruct (U3 b va i Hva Hi) as (Hsame & va0 & Hva0 & Hbo & Hcl & Hmv & Hi0). rewrite Hsame in Hm.
    pose proof (S4 b va0 i m x Hva0 Hi0 Hm Hx) as Hg. unfold entry_good in *. rewrite U1, Hcl. destruct (va_cleared va0); [done|].
    intros Hf bo. rewrite (get_bo_same s s' _ U2), Hbo. apply Hg. auto.
  - intros b x Hw He. pose proof (U5 b x Hw He) as Hw0. apply (S5 b x Hw0). destruct He as (va & i & m & Hva & Hi & Hm & Hx).
    destruct (U3 b va i Hva Hi) as (Hsame & va0 & Hva0 & _ & _ & _ & Hi0). exists va0, i, m. by rewrite <- Hsame.
  - intros x Hx Hl. destruct (U4 x (S6 x Hx Hl)) as [Hp|]; [|done]. by apply HP in Hp.
Qed.

Lemma synced_keeps s s' : synced s → space_ok max s' → keeps s s' → synced s'.
Proof. intros S O' K. apply (synced_gives_up (λ _, False) s); [done|done|by apply keeps_gives_up|done]. Qed.

(** A buffer moves. *)
Lemma synced_moved o s s' : synced s → space_ok max s' → moved_away o s s' → (∀ bo, bos s' !! o = Some bo → bo_ready bo) → synced s'.
Proof.
  intros [S1 S2 S3 S4 S5 S6] O' [M1 M2 M3 M4 M5] Hr. split; rewrite ?M1; try done.
  - intros o' bo Hbo. destruct (decide (o' = o)) as [->|Hne]; [by apply Hr|]. rewrite M4 in Hbo by done. by apply (S3 o').
  - intros b va i m x Hva Hi Hm Hx. destruct (M5 b va Hva) as (va0 & Hva0 & Hbo & Hcl & Hv & _ & Hmv & Hmo). rewrite Hv in Hi. rewrite M2 in Hm.
    pose proof (S4 b va0 i m x Hva0 Hi Hm Hx) as Hg. unfold entry_good in *. rewrite M1, Hcl. destruct (va_cleared va0); [done|].
    intros Hf bo Hget. apply Hg; [by apply Hmv|]. rewrite Hbo in Hget. unfold get_bo in *. destruct (va_bo va0) as [o'|]; [|done].
    rewrite <- M4; [done|]. intros ->. rewrite (Hmo eq_refl) in Hf. done.
  - intros b x (i & m & Hm & Hn & Hx) (va & j & mj & Hva & Hj & Hmj & Hxj). rewrite M2 in Hm, Hmj. destruct (M5 b va Hva) as (va0 & Hva0 & _ & _ & Hv & _). rewrite Hv in Hj.
    apply (S5 b x); [by exists i, m|]. by exists va0, j, mj.
  - intros x Hx Hl. destruct (S6 x Hx Hl) as (i & m & Hm & Hxm). exists i, m. by rewrite M2.
Qed.

(** The directories are brought up to date. *)
Lemma synced_pdes s vm : synced s → amdgpu_vm_update_pdes adev gmc env (pt s) = Some (vm, 0) → synced (s <| pt := vm |>) ∧ relocated vm = [].
Proof.
  intros [S1 S2 S3 S4 S5 S6] Hu. destruct (pdes_ok adev gmc env (fe_gfx9 _ _ _ _ E) (pt s) vm S2 Hu) as (V & Hrel & Hag). split; [|done].
  assert (He : ∀ fl lo hi a x, 0 ≤ x < limit → entry_for fl lo hi a (pt s) x → entry_for fl lo hi a vm x).
  { intros fl lo hi a x Hx. apply entry_for_leaf. intros n v Hl _. by apply Hag. }
  pose proof (max_limit adev gmc env senv E) as Hmax. split; try done.
  - destruct S1 as [[A1 A2 A3 A4 A5 A6 A7] O2 O3 O4 O5 O6 O7 O8 O9]. by split.
  - intros b va i m x Hva Hi Hm Hx. pose proof (sp_range _ _ S1 i m Hm) as Hr. unfold on_pages in Hx. pose proof (S4 b va i m x Hva Hi Hm Hx) as Hg. unfold entry_good in *.
    destruct (va_cleared va).
    + destruct Hg as (fl & a & Hq & Hg). exists fl, a. split; [done|]. apply He; [lia|exact Hg].
    + intros Hf bo Hbo. apply He; [lia|]. by apply Hg.
  - intros x Hx (n & v & Hl & Hb). apply S6; [done|].
    destruct (leaf_total adev (g9_device _ _ _ (fe_gfx9 _ _ _ _ E)) (pt s) x (ok_wf _ _ _ _ S2) Hx) as (k & w & Hw & _).
    destruct (leaf_fun adev vm n k x v w (ok_wf _ _ _ _ V) Hl (Hag x Hx k w Hw)) as [-> ->]. by exists k, w.
Qed.

(** ** A base is updated *)

(** The mappings to be entered are entered, nothing waits to be cleared. *)
Lemma invalids_updated clear bo b va s : synced s → vm_freed s = [] → bo_vas s !! b = Some va → get_bo s (va_bo va) = Some bo →
  ∃ s' r, update_invalids adev gmc env renv senv clear bo (invalids va) s = Some (s', r) ∧ synced s' ∧ (∃ vm n, s' = s <| pt := vm |> <| asked := n |>) ∧
    (r = 0 ∨ ∃ k, r = bo_create env k ∨ r = range_begin renv k) ∧
    (r = 0 → ∀ i m x, i ∈ invalids va → mappings s !! i = Some m → on_pages m x → mapping_entry clear bo m (pt s') x).
Proof.
  intros [S1 S2 S3 S4 S5 S6] Hfr Hva Hbo. pose proof (sp_linked _ _ S1) as Hl. pose proof (lk_nodup_va _ _ _ Hl b va Hva) as (_ & Hd & Hnd)%NoDup_app.
  assert (Hown : ∀ c vc i, bo_vas s !! c = Some vc → i ∈ valids vc ∨ i ∈ invalids vc → ∃ m, mappings s !! i = Some m ∧ m_bo_va m = Some c).
  { intros c vc i Hc Hi. apply owner_Some. by apply (lk_list _ _ _ Hl c vc i Hc). }
  destruct (update_invalids_spec adev gmc env renv senv E clear bo b va (invalids va) s S1 S2 Hva Hbo) as (s' & r & Hu & (vm & n & Hs') & [L1 L2 L3 L4] & Hdone).
  { intros bo' ->. unfold get_bo in Hbo. destruct (va_bo va) as [o|]; [|done]. destruct (bos s !! o) as [bo2|] eqn:Ho; [|done]. injection Hbo as ->. by apply (S3 o). }
  { done. }
  { intros i Hi. apply owner_Some. apply (Hown b va); [done|by right]. }
  exists s', r. split; [exact Hu|]. split; [|split; [by exists vm, n|by split]]. subst s'. cbn [pt] in *. pose proof (max_limit adev gmc env senv E) as Hmax. split; try done.
  - by apply space_ok_pt.
  - intros c vc i m x Hc Hi Hm Hx. pose proof (S4 c vc i m x Hc Hi Hm Hx) as Hg. pose proof (sp_range _ _ S1 i m Hm) as Hr. unfold on_pages in Hx.
    destruct (Hown c vc i Hc ltac:(by left)) as (m2 & Hm2 & Hbi). assert (m2 = m) as -> by (change (mappings s !! i = Some m) in Hm; congruence).
    assert (Hkeep : ∀ fl a, entry_for fl (m_start m) (m_last m + 1) a (pt s) x → entry_for fl (m_start m) (m_last m + 1) a vm x).
    { intros fl a. apply L3; [lia|lia|]. intros j mj Hj Hmj. destruct (Hown b va j Hva ltac:(by right)) as (m2 & Hm3 & Hbj). assert (m2 = mj) as -> by congruence.
      assert (Hij : i ≠ j).
      { intros ->. assert (m = mj) as -> by congruence. assert (c = b) as -> by congruence. change (bo_vas s !! b = Some vc) in Hc. assert (vc = va) as -> by congruence. by apply (Hd j). }
      destruct (sp_disjoint _ _ S1 i j m mj Hij Hm2 Hmj); [by exists c|by exists b|left; lia|right; lia]. }
    unfold entry_good in *. destruct (va_cleared vc).
    + destruct Hg as (fl & a & Hq & Hg). exists fl, a. split; [done|]. by apply Hkeep.
    + intros Hf bo' Hbo'. apply Hkeep. by apply Hg.
  - intros x Hx Hlv. destruct (L2 x Hx Hlv) as [|(i & m & _ & Hm & Hxm)]; [by apply S6|by exists i, m].
Qed.

(** The mappings of a base are all to be entered again. *)
Lemma synced_splice b s : synced s → synced (splice_valids b s).
Proof.
  intros S. pose proof (space_ok_relist max s b (λ v, v <| invalids := valids v ++ invalids v |> <| valids := [] |>) (sy_ok _ S)) as O'.
  apply (synced_gives_up (λ _, False) s); [done| | |done].
  { apply O'. intros v. by split. }
  unfold splice_valids. split; try done.
  - intros c va i. rewrite set_va_lookup. destruct (decide _) as [->|].
    + intros (va0 & _ & ->)%fmap_Some. by intros ?%elem_of_nil.
    + intros Hva Hi. split; [done|]. by exists va.
  - by right.
Qed.

(** The end of an update: the base goes to a list, its mappings are all entered. *)
Definition update_end (b : nat) (clear : bool) (bo : option amdgpu_bo) (s : space) : space :=
  let s := match bo with
           | Some bo =>
               if bo_shared bo then
                 match bo_resource bo with
                 | Some mem => if bo_preferred bo (mem_type mem) then amdgpu_vm_bo_idle b s else amdgpu_vm_bo_evicted bo b s
                 | None => amdgpu_vm_bo_idle b s
                 end
               else amdgpu_vm_bo_done b s
           | None => amdgpu_vm_bo_done b s
           end in
  set_va b (λ v, v <| valids := invalids v ++ valids v |> <| invalids := [] |> <| va_cleared := clear |> <| va_moved := false |>) s.

Lemma update_end_status b clear bo s : is_Some (bo_vas s !! b) →
  ∃ s2, update_end b clear bo s = set_va b (λ v, v <| valids := invalids v ++ valids v |> <| invalids := [] |> <| va_cleared := clear |> <| va_moved := false |>) s2 ∧
    restatus (λ c, c = b) s s2 ∧ vm_freed s2 = vm_freed s ∧ moved s2 = list_del b (moved s) ∧ invalidated s2 = list_del b (invalidated s).
Proof.
  intros Hb. unfold update_end. eexists. split; [reflexivity|].
  destruct bo as [bo|]; [|split; [by apply restatus_done|done]]. destruct (bo_shared bo); [|split; [by apply restatus_done|done]].
  destruct (bo_resource bo) as [mem|]; [|split; [by apply restatus_idle|done]].
  destruct (bo_preferred bo (mem_type mem)); [split; [by apply restatus_idle|done]|split; [by apply restatus_evicted|done]].
Qed.

Lemma update_ended b clear bo va s : synced s → vm_freed s = [] → bo_vas s !! b = Some va → get_bo s (va_bo va) = Some bo →
  (∀ i m x, i ∈ invalids va → mappings s !! i = Some m → on_pages m x → mapping_entry clear bo m (pt s) x) →
  valids va = [] ∨ ((clear = false → va_moved va = false) ∧ va_cleared va = clear) →
  let s' := update_end b clear bo s in synced s' ∧ vm_freed s' = [] ∧ mappings s' = mappings s ∧ it s' = it s ∧
    moved s' = list_del b (moved s) ∧ invalidated s' = list_del b (invalidated s) ∧ bos s' = bos s ∧
    (∃ va', bo_vas s' !! b = Some va' ∧ va_bo va' = va_bo va ∧ va_moved va' = false ∧ va_cleared va' = clear ∧ invalids va' = [] ∧ valids va' = invalids va ++ valids va) ∧
    ∀ c, c ≠ b → bo_vas s' !! c = bo_vas s !! c ∨ ∃ vc vc', bo_vas s !! c = Some vc ∧ bo_vas s' !! c = Some vc' ∧ va_bo vc' = va_bo vc ∧ va_cleared vc' = va_cleared vc ∧
      valids vc' = valids vc ∧ invalids vc' = invalids vc ∧ va_moved vc' = va_moved vc.
Proof.
  intros S Hfr Hva Hbo Hdone Hold s'. destruct (update_end_status b clear bo s ltac:(by eexists)) as (s2 & Hs2 & R & F2 & M2 & I2). fold s' in Hs2.
  pose proof R as [(R1 & R1b & _ & _ & R1c) R2 R3 R4 R5 R6 R7]. set (g := λ v : bo_va, v <| valids := invalids v ++ valids v |> <| invalids := [] |> <| va_cleared := clear |> <| va_moved := false |>) in *.
  assert (Hva2 : ∃ va2, bo_vas s2 !! b = Some va2 ∧ va_bo va2 = va_bo va ∧ valids va2 = valids va ∧ invalids va2 = invalids va).
  { specialize (R1c b). rewrite Hva in R1c. destruct (bo_vas s2 !! b) as [va2|] eqn:Hv2; [|done]. exists va2. split; [done|].
    destruct (R5 b va2 Hv2) as (va0 & Hva0 & H1 & _ & H3 & H4 & _). assert (va0 = va) as -> by congruence. done. }
  destruct Hva2 as (va2 & Hva2 & Hb2 & Hv2 & Hi2).
  assert (Hat : bo_vas s' !! b = Some (g va2)) by (rewrite Hs2, set_va_lookup, decide_True, Hva2; done).
  assert (Hne : ∀ c, c ≠ b → bo_vas s' !! c = bo_vas s2 !! c) by (intros c Hc; by rewrite Hs2, set_va_lookup, decide_False).
  assert (Hms : mappings s' = mappings s) by (rewrite Hs2; exact R1). assert (Hpt : pt s' = pt s) by (rewrite Hs2; exact R2). assert (Hbs : bos s' = bos s) by (rewrite Hs2; exact R3).
  assert (Hf' : vm_freed s' = []) by (rewrite Hs2; change (vm_freed s2 = []); congruence).
  assert (O' : space_ok max s').
  { rewrite Hs2. apply space_ok_relist; [eapply restatus_ok; [apply (sy_ok _ S)|exact R]|]. intros v. split; [done|]. cbn. rewrite app_nil_r. apply Permutation_app_comm. }
  split; [|split; [done|split; [done|split; [by rewrite Hs2|split; [by rewrite Hs2|split; [by rewrite Hs2|split; [done|split]]]]]]].
  - destruct S as [S1 S2 S3 S4 S5 S6]. split; rewrite ?Hpt; try done.
    + intros o bo'. rewrite Hbs. apply S3.
    + intros c vc i m x Hc Hi Hm Hx. rewrite Hms in Hm. unfold entry_good. rewrite Hpt. destruct (decide (c = b)) as [->|Hcb].
      * rewrite Hat in Hc. injection Hc as <-. change (i ∈ invalids va2 ++ valids va2) in Hi. rewrite Hi2, Hv2 in Hi. change (va_cleared (g va2)) with clear.
        change (va_bo (g va2)) with (va_bo va2). rewrite Hb2. apply elem_of_app in Hi as [Hi|Hi].
        -- pose proof (Hdone i m x Hi Hm Hx) as He. destruct clear.
           ++ do 2 eexists. split; [apply (update_flags_quiet senv (VmPte0 := fe_pte _ _ _ _ E) bo m)|exact He].
           ++ intros _ bo' Hbo'. rewrite (get_bo_same s s' _ Hbs) in Hbo'. assert (bo' = bo) as -> by congruence. exact He.
        -- destruct Hold as [Hnil|[Hmv Hcl]]; [rewrite Hnil in Hi; by apply elem_of_nil in Hi|]. pose proof (S4 b va i m x Hva Hi Hm Hx) as Hg. unfold entry_good in Hg.
           rewrite Hcl in Hg. destruct clear; [done|]. intros _ bo' Hbo'. rewrite (get_bo_same s s' _ Hbs) in Hbo'. by apply Hg; [apply Hmv|].
      * rewrite Hne in Hc by done. destruct (R5 c vc Hc) as (vc0 & Hc0 & H1 & H2 & H3 & H4 & [?|H5]); [done|]. rewrite H3 in Hi.
        pose proof (S4 c vc0 i m x Hc0 Hi Hm Hx) as Hg. unfold entry_good in Hg. rewrite H2. destruct (va_cleared vc0); [done|]. rewrite H5, H1.
        intros Hf bo' Hbo'. rewrite (get_bo_same s s' _ Hbs) in Hbo'. by apply Hg.
    + intros c x (j & mj & Hmj & Hn & _). rewrite Hms in Hmj. assert (Hj : j ∈ vm_freed s) by (apply (lk_freed _ _ _ (sp_linked _ _ S1)); by exists mj).
      rewrite Hfr in Hj. by apply elem_of_nil in Hj.
    + intros x Hx Hl. destruct (S6 x Hx Hl) as (j & mj & Hmj & Hxj). exists j, mj. by rewrite Hms.
  - exists (g va2). split; [done|]. split; [done|]. split; [done|]. split; [done|]. split; [done|]. by rewrite <- Hi2, <- Hv2.
  - intros c Hc. rewrite Hne by done. destruct (bo_vas s2 !! c) as [vc'|] eqn:Hvc.
    + right. destruct (R5 c vc' Hvc) as (vc & Hc0 & H1 & H2 & H3 & H4 & [?|H5]); [done|]. by exists vc, vc'.
    + left. specialize (R1c c). rewrite Hvc in R1c. by destruct (bo_vas s !! c).
Qed.

(** What an update of the base [b] with result [r] leaves. *)
Record base_updated (b : nat) (clear : bool) (s s' : space) (r : Z) : Prop := {
  bu_synced : synced s';
  bu_freed : vm_freed s' = [];
  bu_mappings : mappings s' = mappings s;
  bu_it : it s' = it s;
  bu_bos : bos s' = bos s;
  bu_error : r = 0 ∨ ∃ k, r = bo_create env k ∨ r = range_begin renv k;
  bu_moved : r = 0 → moved s' = list_del b (moved s) ∧ invalidated s' = list_del b (invalidated s);
  bu_dom c : is_Some (bo_vas s !! c) → is_Some (bo_vas s' !! c);
  bu_done : r = 0 → ∃ va', bo_vas s' !! b = Some va' ∧ va_moved va' = false ∧ va_cleared va' = clear ∧ invalids va' = [];
  bu_other c vc : r = 0 → c ≠ b → bo_vas s !! c = Some vc → ∃ vc', bo_vas s' !! c = Some vc' ∧ va_bo vc' = va_bo vc ∧ va_cleared vc' = va_cleared vc ∧
    valids vc' = valids vc ∧ invalids vc' = invalids vc ∧ va_moved vc' = va_moved vc;
}.

Lemma bo_update_spec b clear s va : synced s → vm_freed s = [] → bo_vas s !! b = Some va →
  ∃ s' r, amdgpu_vm_bo_update adev gmc env renv senv b clear s = Some (s', r) ∧ base_updated b clear s s' r.
Proof.
  intros S Hfr Hva. destruct (get_bo_spec adev s b va (sy_ok _ S) Hva) as (bo & Hbo & _). unfold amdgpu_vm_bo_update, get_va.
  rewrite Hva, Some_bind, Hbo, Some_bind. set (s1 := if negb clear && va_moved va then _ else _).
  assert (H1 : synced s1 ∧ vm_freed s1 = [] ∧ mappings s1 = mappings s ∧ it s1 = it s ∧ bos s1 = bos s ∧ moved s1 = moved s ∧ invalidated s1 = invalidated s ∧
    (∀ c, c ≠ b → bo_vas s1 !! c = bo_vas s !! c) ∧ ∃ va1, bo_vas s1 !! b = Some va1 ∧ va_bo va1 = va_bo va ∧
    (valids va1 = [] ∨ ((clear = false → va_moved va1 = false) ∧ va_cleared va1 = clear))).
  { assert (Hsp : synced (splice_valids b s) ∧ ∃ va1, bo_vas (splice_valids b s) !! b = Some va1 ∧ va_bo va1 = va_bo va ∧ valids va1 = []).
    { split; [by apply synced_splice|]. unfold splice_valids. rewrite set_va_lookup, decide_True, Hva by done. by eexists. }
    destruct Hsp as (Ssp & va1 & Hva1 & Hb1 & Hv1).
    assert (Hne : ∀ c, c ≠ b → bo_vas (splice_valids b s) !! c = bo_vas s !! c) by (intros c Hc; unfold splice_valids; by rewrite set_va_lookup, decide_False).
    unfold s1. destruct (negb clear && va_moved va) eqn:Hmv; [split_and!; try done; exists va1; by split_and!; [..|left]|].
    destruct (Bool.eqb (va_cleared va) clear) eqn:Hcl; cbn [negb]; [|split_and!; try done; exists va1; by split_and!; [..|left]].
    split_and!; try done. exists va. split; [done|]. split; [done|]. right. apply Bool.eqb_prop in Hcl. split; [|done]. intros ->. by destruct (va_moved va). }
  destruct H1 as (S1 & F1 & M1 & I1 & B1 & V1 & X1 & Hne & va1 & Hva1 & Hb1 & Hold). clearbody s1. rewrite Hva1, Some_bind.
  assert (Hbo1 : get_bo s1 (va_bo va1) = Some bo) by (rewrite Hb1; unfold get_bo; rewrite B1; exact Hbo).
  destruct (invalids_updated clear bo b va1 s1 S1 F1 Hva1 Hbo1) as (s2 & r & Hu & S2 & (vm & n & Hs2) & Her & Hdone). rewrite Hu, Some_bind.
  assert (Hdom1 : ∀ c, is_Some (bo_vas s !! c) → is_Some (bo_vas s1 !! c)).
  { intros c Hc. destruct (decide (c = b)) as [->|]; [by eexists|by rewrite Hne]. }
  destruct (nz r) eqn:Hr.
  { apply nz_true in Hr. exists s2, r. split; [done|]. subst s2. by split. }
  apply nz_false in Hr. subst r. specialize (Hdone eq_refl). assert (Hms2 : mappings s2 = mappings s1) by by subst s2. rewrite <- Hms2 in Hdone.
  destruct (update_ended b clear bo va1 s2 S2) as (S' & F' & M' & I' & V' & X' & B' & (va' & Hva' & Hb' & Hm' & Hc' & Hi' & Hv') & Hoth); try (by subst s2).
  exists (update_end b clear bo s2), 0. split; [done|]. split; try done.
  - subst s2. by rewrite M'.
  - subst s2. by rewrite I'.
  - subst s2. by rewrite B'.
  - intros _. rewrite V', X', <- V1, <- X1. by subst s2.
  - intros c Hc. destruct (decide (c = b)) as [->|Hcb]; [by eexists|]. pose proof (Hdom1 c Hc) as [vc Hvc]. destruct (Hoth c Hcb) as [Heq|(v1 & v2 & _ & Hv2 & _)]; [|by eexists].
    rewrite Heq. subst s2. by eexists.
  - intros _. by exists va'.
  - intros c vc _ Hcb Hvc. assert (Hvc2 : bo_vas s2 !! c = Some vc) by (subst s2; cbn [bo_vas]; by rewrite Hne).
    destruct (Hoth c Hcb) as [Heq|(v1 & v2 & Hv1 & Hv2 & E1 & E2 & E3 & E4 & E5)]; [exists vc; by rewrite Heq|]. assert (v1 = vc) as -> by congruence. by exists v2.
Qed.

(** ** What was unmapped is cleared *)

Lemma clear_freed_spec s : synced s → ∃ s' r, amdgpu_vm_clear_freed adev gmc env renv senv s = Some (s', r) ∧
  space_ok max s' ∧ vm_ok (pt s') ∧ (r = 0 ∨ ∃ k, r = bo_create env k ∨ r = range_begin renv k) ∧
  (∀ x b off fl, mapped s' x b off fl ↔ mapped s x b off fl) ∧ bo_vas s' = bo_vas s ∧ bos s' = bos s ∧
  (r = 0 → synced s' ∧ vm_freed s' = []).
Proof.
  intros [S1 S2 S3 S4 S5 S6]. pose proof (sp_linked _ _ S1) as Hl.
  destruct (clear_list_spec adev gmc env renv senv E (vm_freed s) s S1 S2 eq_refl) as (s' & r & Hc & O' & [L1 L2 L3 L4] & B' & A' & K' & Sub & F' & D').
  assert (Hown : ∀ i m, mappings s !! i = Some m → is_Some (m_bo_va m) → i ∉ vm_freed s).
  { intros i m Hm Hs Hi. apply (lk_freed _ _ _ Hl) in Hi as (m2 & Hm2 & Hn). assert (m2 = m) as -> by congruence. rewrite Hn in Hs. by destruct Hs. }
  exists s', r. split; [exact Hc|]. split; [done|]. split; [done|]. split; [done|]. split.
  { intros x b off fl. split; intros (i & m & Hm & Hb & Hx); exists i, m; (split; [|by split]); [by apply Sub|]. rewrite K'; [done|]. by apply (Hown i m); [|exists b]. }
  split; [done|]. split; [done|]. intros Hr. split; [|by apply F']. pose proof (max_limit adev gmc env senv E) as Hmax. split; try done.
  - intros o bo. rewrite B'. apply S3.
  - intros b va i m x Hva Hi Hm Hx. rewrite A' in Hva. apply Sub in Hm. pose proof (S4 b va i m x Hva Hi Hm Hx) as Hg. pose proof (sp_range _ _ S1 i m Hm) as Hrg. unfold on_pages in Hx.
    assert (Hkeep : ∀ fl a, entry_for fl (m_start m) (m_last m + 1) a (pt s) x → entry_for fl (m_start m) (m_last m + 1) a (pt s') x).
    { intros fl a. apply L3; [lia|lia|]. intros j mj Hj Hmj. apply (lk_freed _ _ _ Hl) in Hj as (m2 & Hm2 & Hn). assert (m2 = mj) as -> by congruence.
      destruct (decide (m_last m < m_start mj)) as [|Hge]; [left; lia|]. destruct (decide (m_last mj < m_start m)) as [|Hge2]; [by right|].
      pose proof (sp_range _ _ S1 j mj Hm2). exfalso. apply (S5 b (Z.max (m_start m) (m_start mj))); [exists j, mj|exists va, i, m]; split_and!; (done || lia). }
    unfold entry_good in *. destruct (va_cleared va).
    + destruct Hg as (fl & a & Hq & Hg). exists fl, a. split; [done|]. by apply Hkeep.
    + intros Hf bo Hbo. rewrite (get_bo_same s s' _ B') in Hbo. apply Hkeep. by apply Hg.
  - intros b x (j & mj & Hmj & Hn & _) _. assert (Hj : j ∈ vm_freed s') by (apply (lk_freed _ _ _ (sp_linked _ _ O')); by exists mj).
    rewrite (F' Hr) in Hj. by apply elem_of_nil in Hj.
  - intros x Hx Hlv. assert (Hlv0 : live (pt s) x).
    { destruct (L2 x Hx Hlv) as [|(i & m & Hi & Hm & Hxm)]; [done|]. by destruct (D' Hr i m x Hi Hm Hxm Hx). }
    destruct (S6 x Hx Hlv0) as (i & m & Hm & Hxm). destruct (decide (i ∈ vm_freed s)) as [Hi|Hi]; [by destruct (D' Hr i m x Hi Hm Hxm Hx)|].
    exists i, m. by rewrite K'.
Qed.

(** ** Moved buffers *)

(** All mappings of the base are entered, for the place its buffer has now. *)
Definition up_to_date (s : space) (b : nat) : Prop := ∃ va, bo_vas s !! b = Some va ∧ va_moved va = false ∧ invalids va = [].

Lemma length_list_del b l : b ∈ l → (length (list_del b l) < length l)%nat.
Proof. intros Hb. unfold list_del. apply length_filter_lt with b; [done|]. by intros []. Qed.

(** The loops of [amdgpu_vm_handle_moved]: [todo] is the list they work off. *)
Section Loop.
Context (todo : space → list nat) (body : space → option (space + space * Z)).
Context (Htodo : ∀ b s s', moved s' = list_del b (moved s) → invalidated s' = list_del b (invalidated s) → todo s' = list_del b (todo s)).
Context (Hbody : ∀ s, synced s → vm_freed s = [] →
  (todo s = [] ∧ body s = Some (inr (s, 0))) ∨
  ∃ b clear n s' r, b ∈ todo s ∧ body s = Some (if nz r then inr (s', r) else inl s') ∧ base_updated b clear (s <| asked := n |>) s' r).

Record working (s0 s : space) : Prop := {
  wo_synced : synced s;
  wo_freed : vm_freed s = [];
  wo_mappings : mappings s = mappings s0;
  wo_it : it s = it s0;
  wo_bos : bos s = bos s0;
  wo_moved b : b ∈ moved s → b ∈ moved s0;
  wo_invalidated b : b ∈ invalidated s0 → b ∈ invalidated s ∨ up_to_date s b;
  wo_length : (length (invalidated s) ≤ length (invalidated s0))%nat;
  wo_done b : b ∈ todo s0 → b ∈ todo s ∨ up_to_date s b;
  wo_kept b : up_to_date s0 b → up_to_date s b;
}.

Definition worked (s0 : space) (o : space * Z) : Prop :=
  ∃ s1, (o.2 = 0 → s1 = o.1 ∧ todo s1 = []) ∧ working s0 s1 ∧ (o.2 ≠ 0 → ∃ b clear n, base_updated b clear (s1 <| asked := n |>) o.1 o.2).

Lemma working_step s0 s s' b clear n : working s0 s → b ∈ todo s → base_updated b clear (s <| asked := n |>) s' 0 →
  working s0 s' ∧ todo s' = list_del b (todo s).
Proof.
  intros [W1 W2 W3 W4 W5 W6 W6i W6l W7 W8] Hb [B1 B2 B3 B4 B5 B6 B7 B8 B9 B10]. destruct (B7 eq_refl) as [Hmv Hin]. pose proof (Htodo b s s' Hmv Hin) as Ht.
  destruct (B9 eq_refl) as (va' & Hva' & Hm' & _ & Hi'). change (mappings s' = mappings s) in B3. change (it s' = it s) in B4. change (bos s' = bos s) in B5.
  assert (Hup : ∀ c, up_to_date s c → up_to_date s' c).
  { intros c (vc & Hc & Hcm & Hci). destruct (decide (c = b)) as [->|Hne]; [by exists va'|].
    destruct (B10 c vc eq_refl Hne Hc) as (vc' & Hc' & _ & _ & _ & E4 & E5). exists vc'. split_and!; congruence. }
  split; [|done]. split; try congruence.
  - intros c. rewrite Hmv. intros [_ Hc]%elem_of_ids_del. by apply W6.
  - intros c Hc. destruct (W6i c Hc) as [Hc'|]; [|right; auto]. destruct (decide (c = b)) as [->|Hne]; [right; by exists va'|left]. rewrite Hin. by apply elem_of_ids_del.
  - rewrite Hin. etrans; [|exact W6l]. apply length_filter.
  - intros c Hc. destruct (W7 c Hc) as [Hin'|]; [|right; auto]. destruct (decide (c = b)) as [->|Hne]; [right; by exists va'|left]. rewrite Ht. by apply elem_of_ids_del.
  - auto.
Qed.

Lemma loop_spec s0 : synced s0 → vm_freed s0 = [] → Z.of_nat (length (todo s0)) < 2 ^ 64 → ∃ o, run_loop body s0 = Some o ∧ worked s0 o.
Proof.
  intros S F Hlen. apply (run_loop_spec body (working s0) (worked s0) (λ s, Z.of_nat (length (todo s)))); [|split; (done || auto)|done].
  intros s W. destruct (Hbody s (wo_synced _ _ W) (wo_freed _ _ W)) as [[Ht ->]|(b & clear & n & s' & r & Hb & -> & U)].
  - eexists. split; [done|]. exists s. split; [done|]. split; [done|]. by intros [].
  - eexists. split; [done|]. destruct (nz r) eqn:Hr.
    + apply nz_true in Hr. exists s. split; [done|]. split; [done|]. intros _. by exists b, clear, n.
    + apply nz_false in Hr. subst r. destruct (working_step s0 s s' b clear n W Hb U) as [W' Ht]. split; [done|].
      pose proof (length_list_del b (todo s) Hb). rewrite Ht. lia.
Qed.
End Loop.

Lemma synced_asked s n : synced s → synced (s <| asked := n |>).
Proof.
  intros S. apply (synced_keeps s); [done| |].
  - apply (same_space_ok max s); [apply S|by apply frame_fields|done].
  - apply frame_keeps; [by apply frame_fields|done].
Qed.

Lemma moved_body s : synced s → vm_freed s = [] →
  (moved s = [] ∧ moved_step adev gmc env renv senv s = Some (inr (s, 0))) ∨
  ∃ b clear n s' r, b ∈ moved s ∧ moved_step adev gmc env renv senv s = Some (if nz r then inr (s', r) else inl s') ∧ base_updated b clear (s <| asked := n |>) s' r.
Proof.
  intros S F. unfold moved_step. destruct (moved s) as [|b l] eqn:Hm; [by left|]. right.
  destruct (sp_status _ _ (sy_ok _ S) b) as [va Hva]; [unfold all_status; rewrite Hm, !elem_of_app; right; left; left|].
  destruct (bo_update_spec b false s va S F Hva) as (s' & r & -> & U). exists b, false, (asked s), s', r. split; [left|]. split; [done|]. by destruct s.
Qed.

Lemma invalidated_body s : synced s → vm_freed s = [] →
  (invalidated s = [] ∧ invalidated_step adev gmc env renv senv s = Some (inr (s, 0))) ∨
  ∃ b clear n s' r, b ∈ invalidated s ∧ invalidated_step adev gmc env renv senv s = Some (if nz r then inr (s', r) else inl s') ∧ base_updated b clear (s <| asked := n |>) s' r.
Proof.
  intros Sy F. unfold invalidated_step. destruct (invalidated s) as [|b l] eqn:Hm; [by left|]. right.
  destruct (sp_status _ _ (sy_ok _ Sy) b) as [va Hva]; [unfold all_status; rewrite Hm, !elem_of_app; do 3 right; left; left|].
  unfold get_va. rewrite Hva, Some_bind. pose proof (sp_invalidated _ _ (sy_ok _ Sy) b va ltac:(rewrite Hm; left) Hva) as Ho.
  destruct (va_bo va) as [o|] eqn:Hov; [|done]. rewrite Some_bind.
  destruct (bo_update_spec b (resv_busy senv (asked s)) (ask_space s) va) as (s' & r & -> & U); [by apply synced_asked|done|done|].
  exists b, (resv_busy senv (asked s)), (S (asked s)), s', r. split; [left|]. by split.
Qed.

(** The end of a loop. *)
Record settled (s s' : space) (r : Z) : Prop := {
  se_synced : synced s';
  se_freed : vm_freed s' = [];
  se_mappings : mappings s' = mappings s;
  se_it : it s' = it s;
  se_error : r = 0 ∨ ∃ k, r = bo_create env k ∨ r = range_begin renv k;
}.

Lemma worked_settled todo s s' r : worked todo s (s', r) → settled s s' r.
Proof.
  intros (s1 & H0 & W & Hne). pose proof W as [W1 W2 W3 W4 _ _ _ _ _ _]. cbn [fst snd] in *. destruct (decide (r = 0)) as [->|Hr].
  - destruct (H0 eq_refl) as [-> _]. split; auto.
  - destruct (Hne Hr) as (b & clear & n & [B1 B2 B3 B4 _ B6 _ _ _ _]). split; try done.
    + etrans; [exact B3|exact W3].
    + etrans; [exact B4|exact W4].
Qed.

Lemma handle_moved_spec s : synced s → vm_freed s = [] → Z.of_nat (length (moved s)) < 2 ^ 64 → Z.of_nat (length (invalidated s)) < 2 ^ 64 →
  ∃ s' r, amdgpu_vm_handle_moved adev gmc env renv senv s = Some (s', r) ∧ settled s s' r ∧
    (r = 0 → moved s' = [] ∧ invalidated s' = [] ∧ ∀ b, b ∈ moved s ∨ b ∈ invalidated s → up_to_date s' b).
Proof.
  intros Sy F Hl1 Hl2. unfold amdgpu_vm_handle_moved.
  destruct (loop_spec moved _ (λ b s s' H _, H) moved_body s Sy F Hl1) as ([s1 r1] & -> & Hw1). rewrite Some_bind.
  pose proof (worked_settled _ _ _ _ Hw1) as E1. destruct (nz r1) eqn:Hr1.
  { apply nz_true in Hr1. exists s1, r1. split; [done|]. by split. }
  apply nz_false in Hr1. subst r1. destruct Hw1 as (s1' & H0 & W1 & _). destruct (H0 eq_refl) as [-> Hm1]. cbn [fst snd] in *.
  destruct (loop_spec invalidated _ (λ b s s' _ H, H) invalidated_body s1 (se_synced _ _ _ E1) (se_freed _ _ _ E1)) as ([s2 r2] & -> & Hw2).
  { pose proof (wo_length _ _ _ W1). lia. }
  pose proof (worked_settled _ _ _ _ Hw2) as E2. exists s2, r2. split; [done|]. split.
  { destruct E1 as [_ _ A1 A2 _], E2 as [B1 B2 B3 B4 B5]. split; congruence. }
  intros ->. destruct Hw2 as (s2' & H02 & W2 & _). destruct (H02 eq_refl) as [-> Hi2]. cbn [fst snd] in *.
  assert (Hm2 : moved s2 = []).
  { destruct (moved s2) as [|b l] eqn:Hm; [done|]. pose proof (wo_moved _ _ _ W2 b ltac:(rewrite Hm; left)) as Hb. rewrite Hm1 in Hb. by apply elem_of_nil in Hb. }
  split; [done|]. split; [done|]. intros b [Hb|Hb].
  - destruct (wo_done _ _ _ W1 b Hb) as [Hb1|Hup]; [rewrite Hm1 in Hb1; by apply elem_of_nil in Hb1|]. by apply (wo_kept _ _ _ W2).
  - destruct (wo_invalidated _ _ _ W1 b Hb) as [Hb1|Hup]; [|by apply (wo_kept _ _ _ W2)].
    destruct (wo_done _ _ _ W2 b Hb1) as [Hb2|]; [rewrite Hi2 in Hb2; by apply elem_of_nil in Hb2|done].
Qed.

(** ** After a request *)

Lemma update_pdes_total s : synced s → ∃ vm, update_pdes adev gmc env s = Some (s <| pt := vm |>, 0) ∧ synced (s <| pt := vm |>) ∧ relocated vm = [].
Proof.
  intros Sy. pose proof (fe_gfx9 _ _ _ _ E) as [G1 _ G3 _ G5]. destruct (sy_pt _ Sy) as [W D _ _].
  destruct (update_pdes_spec adev gmc env G1 G3 (pt s) W D) as (vm & r & Hu & _ & _ & _ & _ & Hcase).
  assert (r = 0) as -> by (destruct Hcase as [[? _]|[? [k Hk]]]; [done|rewrite (fe_prepare _ _ _ _ E) in Hk; done]).
  exists vm. unfold update_pdes. rewrite Hu, Some_bind. split; [done|]. by apply synced_pdes.
Qed.

Lemma va_update_spec upd s : synced s → (∀ b, upd = Some b → is_Some (bo_vas s !! b)) →
  ∃ s' r, amdgpu_gem_va_update_vm adev gmc env renv senv upd s = Some (s', r) ∧ space_ok max s' ∧ vm_ok (pt s') ∧
    (∀ x b off fl, mapped s' x b off fl ↔ mapped s x b off fl) ∧
    (r = 0 → synced s' ∧ vm_freed s' = [] ∧ relocated (pt s') = [] ∧ ∀ b, upd = Some b → up_to_date s' b).
Proof.
  intros Sy Hupd. unfold amdgpu_gem_va_update_vm.
  destruct (clear_freed_spec s Sy) as (s1 & r1 & -> & O1 & P1 & _ & M1 & A1 & B1 & H1). rewrite Some_bind.
  destruct (nz r1) eqn:Hr1; [apply nz_true in Hr1; by exists s1, r1|]. apply nz_false in Hr1. subst r1. destruct (H1 eq_refl) as [S1 F1].
  assert (H2 : ∃ s2 r2, match upd with Some b => amdgpu_vm_bo_update adev gmc env renv senv b false s1 | None => Some (s1, 0) end = Some (s2, r2) ∧
    synced s2 ∧ mappings s2 = mappings s1 ∧ vm_freed s2 = [] ∧ (r2 = 0 → ∀ b, upd = Some b → up_to_date s2 b)).
  { destruct upd as [b|]; [|by exists s1, 0]. destruct (Hupd b eq_refl) as [va Hva]. rewrite <- A1 in Hva.
    destruct (bo_update_spec b false s1 va S1 F1 Hva) as (s2 & r2 & -> & [U1 U2 U3 U4 U5 U6 U7 U8 U9 U10]). exists s2, r2. split_and!; try done.
    intros Hr b' [= <-]. destruct (U9 Hr) as (va' & ? & ? & _ & ?). by exists va'. }
  destruct H2 as (s2 & r2 & -> & S2 & M2 & F2 & D2). rewrite Some_bind.
  assert (Hmap : ∀ x b off fl, mapped s2 x b off fl ↔ mapped s x b off fl) by (intros x b off fl; rewrite <- M1; unfold mapped; by rewrite M2).
  destruct (nz r2) eqn:Hr2; [apply nz_true in Hr2; exists s2, r2; split; [done|]; split; [apply S2|]; split; [apply S2|]; by split|].
  apply nz_false in Hr2. subst r2. destruct (update_pdes_total s2 S2) as (vm & Hu & S3 & Hrel). exists (s2 <| pt := vm |>), 0.
  split; [exact Hu|]. split; [apply S3|]. split; [apply S3|]. split; [exact Hmap|]. intros _. split; [done|]. split; [done|]. split; [done|].
  intros b Hb. destruct (D2 eq_refl b Hb) as (va & ? & ? & ?). by exists va.
Qed.
End Space.
