(* ===== verification/VmMapClaims.v ===== *)
(** * Mappings of a GPU address space: what they promise

    An address space as its clients use it: buffers are added, mapped, unmapped and moved,
    and the page tables are brought up to date, in any order; what a lookup then says of
    a page is what the requests mean, and what the hardware does with it follows. *)

From S2P Require Import Prelude Vm VmWalk VmCursor VmDfs VmLeaf VmWrite VmFragment VmFreeing VmUpdate VmRange VmHw VmProof.
From S2P Require Import VmRes VmResProof VmMap VmMapOk VmMapOps VmMapProof VmMapBase VmSync VmSpace.
#[local] Open Scope Z_scope.
#[local] Open Scope list_scope.

Inductive vm_call :=
  | CAdd (o : option nat)
  | CDel (b : nat)
  | CMap (b : nat) (saddr offset size flags : Z)
  | CReplace (b : nat) (saddr offset size flags : Z)
  | CClear (saddr size : Z)
  | CUnmap (b : nat) (saddr : Z)
  | CMove (o : nat) (evict : bool) (mem : option ttm_resource) (dma : Z → Z)
  | CUpdate (b : nat) (clear : bool)
  | CClearFreed
  | CHandleMoved
  | CVaUpdate (upd : option nat)
  | CPdes.

Section Claims.
Context (adev : amdgpu_device) (gmc : gmc_funcs) (env : vm_env) (renv : range_env) (senv : space_env).
Context (E : follows_env adev gmc env senv).
Abbreviation max := (max_pfn adev).
Abbreviation limit := (limit adev).
Abbreviation live := (live adev).
Abbreviation synced := (synced adev gmc env senv).

Definition run_call (c : vm_call) (s : space) : option (space * Z) :=
  match c with
  | CAdd o => '(s, r) ← amdgpu_vm_bo_add senv o s; Some (s, match r with Some _ => 0 | None => -ENOMEM end)
  | CDel b => s ← amdgpu_vm_bo_del senv b s; Some (s, 0)
  | CMap b saddr offset size flags => amdgpu_vm_bo_map adev senv b saddr offset size flags s
  | CReplace b saddr offset size flags => amdgpu_vm_bo_replace_map adev senv b saddr offset size flags s
  | CClear saddr size => amdgpu_vm_bo_clear_mappings adev senv saddr size s
  | CUnmap b saddr => amdgpu_vm_bo_unmap senv b saddr s
  | CMove o evict mem dma => s ← amdgpu_bo_move_notify o evict mem dma s; Some (s, 0)
  | CUpdate b clear => amdgpu_vm_bo_update adev gmc env renv senv b clear s
  | CClearFreed => amdgpu_vm_clear_freed adev gmc env renv senv s
  | CHandleMoved => amdgpu_vm_handle_moved adev gmc env renv senv s
  | CVaUpdate upd => amdgpu_gem_va_update_vm adev gmc env renv senv upd s
  | CPdes => update_pdes adev gmc env s
  end.

(** No page of the mappings of [va] that are to be entered, and pass the test, is
    translated. *)
Definition invalids_dead (s : space) (va : bo_va) (P : bo_va_mapping → Prop) : Prop :=
  ∀ i m x, i ∈ invalids va → mappings s !! i = Some m → P m → on_pages m x → ¬ live (pt s) x.

(** What the callers see to: objects exist, arguments are numbers of 64 bits for less than
    a terabyte, a mapping without a buffer has an offset that is an address, a buffer that
    moves goes where the device can reach it, and what was unmapped is cleared before
    something is entered.  A mapping is not taken from its base while it is to be entered
    anew and its old pages are still translated. *)
Definition call_ok (s : space) (c : vm_call) : Prop :=
  match c with
  | CAdd o => ∀ i, o = Some i → ∃ bo, bos s !! i = Some bo ∧ (bo_shared bo = true → is_Some (bo_resource bo))
  | CDel b => ∃ va, bo_vas s !! b = Some va ∧ invalids_dead s va (λ _, True)
  | CMap b saddr offset size _ | CReplace b saddr offset size _ =>
      ∃ va, bo_vas s !! b = Some va ∧ u64_args saddr offset size ∧ size < 2 ^ 40 ∧ (va_bo va = None → offset + size ≤ 2 ^ 48)
  | CClear saddr size => u64_args saddr 0 size
  | CUnmap b saddr => ∃ va, bo_vas s !! b = Some va ∧ invalids_dead s va (λ m, m_start m = first_page saddr)
  | CMove o _ mem dma => ∃ bo, bos s !! o = Some bo ∧ bo_kernel bo = false ∧ bo_ready (bo <| bo_resource := mem |> <| bo_dma := dma |>)
  | CUpdate b _ => is_Some (bo_vas s !! b) ∧ vm_freed s = []
  | CClearFreed | CPdes => True
  | CHandleMoved => vm_freed s = [] ∧ Z.of_nat (length (moved s)) < 2 ^ 64 ∧ Z.of_nat (length (invalidated s)) < 2 ^ 64
  | CVaUpdate upd => ∀ b, upd = Some b → is_Some (bo_vas s !! b)
  end.

(** Calls that clear pages; they must not fail. *)
Definition clears (c : vm_call) : bool := match c with CClearFreed | CVaUpdate _ => true | _ => false end.

Definition space_init (vm : amdgpu_vm) (l : gmap nat amdgpu_bo) : space := mk_space vm ∅ ∅ l ∅ [] [] [] [] [] [] [] 0 false 0 0 0.

Inductive space_reachable : space → Prop :=
  | space_new q vm l : amdgpu_vm_init adev gmc env q = Some (vm, 0) → (∀ o bo, l !! o = Some bo → bo_ready bo ∧ 0 ≤ bo_size bo ≤ 2 ^ 48) →
      space_reachable (space_init vm l)
  | space_call s c s' r : space_reachable s → call_ok s c → run_call c s = Some (s', r) → (clears c = true → r = 0) → space_reachable s'.

(** ** What each call does to the pages *)

Definition in_range (lo hi x : Z) : bool := (lo <=? x) && (x <=? hi).
Definition same_pages (s s' : space) : Prop := ∀ x, view s' x = view s x.

Definition effect (c : vm_call) (s s' : space) (r : Z) : Prop :=
  match c with
  | CMap b saddr offset size flags =>
      (r = 0 ∧ ∀ x, if in_range (first_page saddr) (last_page saddr size) x
                    then view s x = None ∧ view s' x = Some (b, offset + (x - first_page saddr) * 4096, flags) else view s' x = view s x) ∨
      ((r = -EINVAL ∨ r = -ENOMEM) ∧ same_pages s s')
  | CReplace b saddr offset size flags =>
      (r = 0 ∧ ∀ x, view s' x = if in_range (first_page saddr) (last_page saddr size) x then Some (b, offset + (x - first_page saddr) * 4096, flags) else view s x) ∨
      ((r = -EINVAL ∨ r = -ENOMEM) ∧ same_pages s s')
  | CClear saddr size =>
      (r = 0 ∧ ∀ x, view s' x = if in_range (first_page saddr) (last_page saddr size) x then None else view s x) ∨
      ((r = -EINVAL ∨ r = -ENOMEM) ∧ same_pages s s')
  | CUnmap b saddr =>
      (r = 0 ∧ ∃ last, first_page saddr ≤ last ∧ ∀ x, if in_range (first_page saddr) last x
                       then (∃ off fl, view s x = Some (b, off, fl)) ∧ view s' x = None else view s' x = view s x) ∨
      (r = -ENOENT ∧ s' = s)
  | CDel b => r = 0 ∧ ∀ x, view s' x = match view s x with Some (b', off, fl) => if decide (b' = b) then None else Some (b', off, fl) | None => None end
  | CAdd _ => (r = 0 ∨ r = -ENOMEM) ∧ same_pages s s'
  | CMove _ _ _ _ | CPdes => r = 0 ∧ same_pages s s'
  | CUpdate _ _ | CClearFreed | CHandleMoved | CVaUpdate _ => same_pages s s'
  end.

Lemma in_range_true lo hi x : in_range lo hi x = true ↔ lo ≤ x ≤ hi.
Proof. unfold in_range. rewrite andb_true_iff, !Z.leb_le. done. Qed.
Lemma in_range_false lo hi x : in_range lo hi x = false ↔ ¬ lo ≤ x ≤ hi.
Proof. rewrite <- in_range_true. by destruct (in_range lo hi x). Qed.

Section Pages.
Context (s s' : space) (O : space_ok max s) (O' : space_ok max s').

Lemma pages_same : (∀ x b off fl, mapped s' x b off fl ↔ mapped s x b off fl) → same_pages s s'.
Proof. intros H x. by apply (view_same max). Qed.

Lemma pages_equal : mappings s' = mappings s → same_pages s s'.
Proof. intros H. apply pages_same. intros x b off fl. unfold mapped. by rewrite H. Qed.

Lemma page_gone x : (∀ b off fl, ¬ mapped s' x b off fl) → view s' x = None.
Proof. by apply (view_none max). Qed.

Lemma page_kept x : (∀ b off fl, mapped s' x b off fl ↔ mapped s x b off fl) → view s' x = view s x.
Proof. by apply (view_same max). Qed.

Lemma maps_range_view b saddr offset size flags x : maps_range s s' b saddr offset size flags →
  view s' x = if in_range (first_page saddr) (last_page saddr size) x then Some (b, offset + (x - first_page saddr) * 4096, flags) else view s x.
Proof.
  intros M. destruct (in_range _ _ x) eqn:Hx.
  - apply in_range_true in Hx. apply (view_mapped max); [done|]. apply M. by left.
  - apply in_range_false in Hx. apply page_kept. intros b' off fl. rewrite (M x b' off fl). tauto.
Qed.

Lemma clears_range_view saddr size x : clears_range s s' saddr size →
  view s' x = if in_range (first_page saddr) (last_page saddr size) x then None else view s x.
Proof.
  intros C. destruct (in_range _ _ x) eqn:Hx.
  - apply in_range_true in Hx. apply page_gone. intros b off fl Hm. apply C in Hm. tauto.
  - apply in_range_false in Hx. apply page_kept. intros b off fl. rewrite (C x b off fl). tauto.
Qed.
End Pages.

(** ** Every call *)

Definition call_fine (c : vm_call) (s : space) : Prop :=
  ∃ s' r, run_call c s = Some (s', r) ∧ effect c s s' r ∧ ((clears c = true → r = 0) → synced s').

Lemma add_fine o s : synced s → call_ok s (CAdd o) → call_fine (CAdd o) s.
Proof.
  intros Sy Hok. destruct (base_add_spec adev senv s o (sy_ok _ _ _ _ _ Sy) Hok) as (s' & r & Ha & O' & Hm & Hg & _).
  exists s', (match r with Some _ => 0 | None => -ENOMEM end). cbn [run_call]. rewrite Ha. split; [done|]. split.
  - split; [destruct r; auto|]. by apply pages_equal; [apply Sy| |].
  - intros _. by apply (synced_gives_up adev gmc env senv (λ _, False) s).
Qed.

Lemma del_fine b s : synced s → call_ok s (CDel b) → call_fine (CDel b) s.
Proof.
  intros Sy (va & Hva & Hdead). pose proof (sy_ok _ _ _ _ _ Sy) as O. destruct (del_spec adev senv s b va O Hva) as (s' & Hd & O' & Hm & Hg).
  exists s', 0. cbn [run_call]. rewrite Hd. split; [done|]. split.
  - split; [done|]. intros x. destruct (view s x) as [[[b' off] fl]|] eqn:Hv.
    + destruct (decide (b' = b)) as [->|Hne].
      * apply (page_gone s' O'). intros c off' fl' [Hmx Hc]%Hm. apply (view_mapped max) in Hv; [|done]. by destruct (mapped_fun max s x _ _ _ _ _ _ O Hmx Hv) as [-> _].
      * apply (view_mapped max); [done|]. apply Hm. split; [by apply (view_mapped max)|done].
    + apply (page_gone s' O'). intros c off' fl' [Hmx _]%Hm. by apply (view_none max s x O) with c off' fl' in Hv.
  - intros _. apply (synced_gives_up adev gmc env senv _ s s' Sy O' Hg). intros x _ (i & m & Hi & Hmi & Hx). by apply (Hdead i m x).
Qed.

Lemma map_fine b saddr offset size flags s : synced s → call_ok s (CMap b saddr offset size flags) → call_fine (CMap b saddr offset size flags) s.
Proof.
  intros Sy (va & Hva & Ha & Hsz & Hn). pose proof (sy_ok _ _ _ _ _ Sy) as O.
  destruct (map_spec adev senv s b va saddr offset size flags O Hva Ha Hsz Hn) as (s' & r & Hr & O' & K & Hcase). exists s', r. split; [exact Hr|]. split.
  - destruct Hcase as [(-> & Hfree & M)|[He Hm]]; [left|right; split; [tauto|by apply (pages_equal s s' O O')]]. split; [done|]. intros x.
    pose proof (maps_range_view s s' O O' b saddr offset size flags x M) as Hv. destruct (in_range _ _ x) eqn:Hx; [|done]. split; [|done].
    apply in_range_true in Hx. apply (page_gone s O). intros b' off fl (i & m & Hmi & Hb & Hxm & _). apply (Hfree i m Hmi). split; [by exists b'|lia].
  - intros _. by apply (synced_keeps adev gmc env senv s).
Qed.

Lemma replace_fine b saddr offset size flags s : synced s → call_ok s (CReplace b saddr offset size flags) → call_fine (CReplace b saddr offset size flags) s.
Proof.
  intros Sy (va & Hva & Ha & Hsz & Hn). pose proof (sy_ok _ _ _ _ _ Sy) as O.
  destruct (replace_spec adev senv s b va saddr offset size flags O Hva Ha Hsz Hn) as (s' & r & Hr & O' & K & Hcase). exists s', r. split; [exact Hr|]. split.
  - destruct Hcase as [(-> & M)|[He Hm]]; [left|right; split; [tauto|by apply (pages_equal s s' O O')]]. split; [done|]. intros x. by apply maps_range_view.
  - intros _. by apply (synced_keeps adev gmc env senv s).
Qed.

Lemma clear_fine saddr size s : synced s → call_ok s (CClear saddr size) → call_fine (CClear saddr size) s.
Proof.
  intros Sy Ha. pose proof (sy_ok _ _ _ _ _ Sy) as O. destruct (map_clear_spec adev senv s saddr size O Ha) as (s' & r & Hr & O' & K & Hcase). exists s', r. split; [exact Hr|]. split.
  - destruct Hcase as [(-> & _ & C & _)|[He Hm]]; [left|right; split; [tauto|by apply (pages_equal s s' O O')]]. split; [done|]. intros x. by apply clears_range_view.
  - intros _. by apply (synced_keeps adev gmc env senv s).
Qed.

Lemma unmap_fine b saddr s : synced s → call_ok s (CUnmap b saddr) → call_fine (CUnmap b saddr) s.
Proof.
  intros Sy (va & Hva & Hdead). pose proof (sy_ok _ _ _ _ _ Sy) as O. destruct (unmap_spec adev senv s b va saddr O Hva) as (s' & r & Hr & O' & Hcase). exists s', r. split; [exact Hr|].
  destruct Hcase as [(-> & i & m & Hm & Hb & Hst & Hun & Hcase)|(-> & -> & _)].
  - split.
    + left. split; [done|]. exists (m_last m). pose proof (sp_range _ _ O i m Hm). split; [lia|]. intros x. rewrite <- Hst. destruct (in_range _ _ x) eqn:Hx.
      * apply in_range_true in Hx. split; [exists (m_offset m + (x - m_start m) * 4096), (m_flags m); apply (view_mapped max); [done|by exists i, m]|].
        apply (page_gone s' O'). intros c off fl [_ Hout]%Hun. tauto.
      * apply in_range_false in Hx. apply (page_kept s s' O O'). intros c off fl. rewrite (Hun x c off fl). tauto.
    + intros _. destruct Hcase as [[_ K]|(Hi & _ & Hg & _)]; [by apply (synced_keeps adev gmc env senv s)|].
      apply (synced_gives_up adev gmc env senv _ s s' Sy O' Hg). intros x _ Hx. by apply (Hdead i m x).
  - split; [by right|done].
Qed.

Lemma move_fine o evict mem dma s : synced s → call_ok s (CMove o evict mem dma) → call_fine (CMove o evict mem dma) s.
Proof.
  intros Sy (bo & Hbo & Hk & Hr). pose proof (sy_ok _ _ _ _ _ Sy) as O. destruct (move_spec adev s o bo evict mem dma O Hbo Hk) as (s' & Hmv & O' & M & Hbo').
  exists s', 0. cbn [run_call]. rewrite Hmv. split; [done|]. split; [split; [done|]; apply (pages_equal s s' O O'); apply M|].
  intros _. apply (synced_moved adev gmc env senv o s s' Sy O' M). intros bo' Hb. by assert (bo' = bo <| bo_resource := mem |> <| bo_dma := dma |>) as -> by congruence.
Qed.

Lemma call_spec c s : synced s → call_ok s c → call_fine c s.
Proof.
  intros Sy Hok. pose proof (sy_ok _ _ _ _ _ Sy) as O. destruct c as [o|b|b saddr offset size flags|b saddr offset size flags|saddr size|b saddr|o evict mem dma|b clear| | |upd|].
  - by apply add_fine.
  - by apply del_fine.
  - by apply map_fine.
  - by apply replace_fine.
  - by apply clear_fine.
  - by apply unmap_fine.
  - by apply move_fine.
  - destruct Hok as [[va Hva] Hf]. destruct (bo_update_spec adev gmc env renv senv E b clear s va Sy Hf Hva) as (s' & r & Hr & U).
    exists s', r. split; [exact Hr|]. split; [|intros _; apply U]. apply (pages_equal s s' O); apply U.
  - destruct (clear_freed_spec adev gmc env renv senv E s Sy) as (s' & r & Hr & O' & _ & _ & M & _ & _ & H0).
    exists s', r. split; [exact Hr|]. split; [by apply (pages_same s s' O O')|]. intros Hz. by apply H0, Hz.
  - destruct Hok as (Hf & Hl1 & Hl2). destruct (handle_moved_spec adev gmc env renv senv E s Sy Hf Hl1 Hl2) as (s' & r & Hr & [T1 T2 T3 T4 T5] & _).
    exists s', r. split; [exact Hr|]. split; [|done]. apply (pages_equal s s' O); [apply T1|done].
  - destruct (va_update_spec adev gmc env renv senv E upd s Sy Hok) as (s' & r & Hr & O' & _ & M & H0).
    exists s', r. split; [exact Hr|]. split; [by apply (pages_same s s' O O')|]. intros Hz. by apply H0, Hz.
  - destruct (update_pdes_total adev gmc env senv E s Sy) as (vm & Hu & S' & _). exists (s <| pt := vm |>), 0. split; [exact Hu|]. split; [|done].
    split; [done|]. by apply pages_equal; [|apply S'|].
Qed.

Lemma init_synced q vm l : amdgpu_vm_init adev gmc env q = Some (vm, 0) → (∀ o bo, l !! o = Some bo → bo_ready bo ∧ 0 ≤ bo_size bo ≤ 2 ^ 48) → synced (space_init vm l).
Proof.
  intros Hi Hl. pose proof (fe_gfx9 _ _ _ _ E) as G. destruct (vm_init_spec adev gmc env G q) as (vm2 & r & Hi2 & Hcase). rewrite Hi in Hi2. injection Hi2 as <- <-.
  destruct Hcase as [(_ & V & Hc)|[? _]]; [|done]. split; try done.
  - split; try done.
    + split; try done.
      * intros i. cbn. split; [by intros ?%elem_of_nil|]. intros [[b Hb] _]. by apply owner_Some in Hb as (m & ? & _).
      * intros i. cbn. split; [by intros ?%elem_of_nil|]. by intros (m & ? & _).
      * split; constructor.
      * split; intros i [? ?]; done.
    + intros o b. cbn. split; [by intros ?%elem_of_nil|]. by intros (va & ? & _).
    + intros o bo Hbo. by apply (Hl o bo).
    + intros b. unfold all_status. cbn. by intros ?%elem_of_nil.
  - intros o bo Hbo. by apply (Hl o bo).
  - intros b x (i & m & ? & _). done.
  - intros x Hx (n & v & Hv & Hb). destruct (leaf_fun adev vm _ _ x _ _ (ok_wf _ _ _ _ V) Hv (Hc x Hx)) as [-> ->]. by rewrite cleared_bit in Hb.
Qed.

Lemma reachable_synced s : space_reachable s → synced s.
Proof.
  induction 1 as [q vm l Hi Hl|s c s' r _ IH Hok Hr Hz]; [by eapply init_synced|].
  destruct (call_spec c s IH Hok) as (s2 & r2 & Hr2 & _ & Hs). rewrite Hr in Hr2. injection Hr2 as <- <-. by apply Hs.
Qed.


(** What the hardware does with page [x]: it finds one entry, which is [v] at depth [n]. *)
Definition hw_finds (s : space) (x : Z) (n : nat) (v : Z) : Prop :=
  hw_walk adev gmc (pt s) x 0 [] n v ∧ ∀ m w, hw_walk adev gmc (pt s) x 0 [] m w → m = n ∧ w = v.

Lemma finds_leaf s x n v : synced s → relocated (pt s) = [] → distinct adev gmc (pt s) → 0 ≤ x < limit → leaf adev (pt s) n x v → hw_finds s x n v.
Proof.
  intros Sy Hrel Hdis Hx Hl. pose proof (sy_pt _ _ _ _ _ Sy) as V.
  destruct (hw_walk_is_leaf adev gmc env (fe_gfx9 _ _ _ _ E) (pt s) x V Hrel Hdis Hx) as [Hiff _]. split; [by apply Hiff|].
  intros m w Hw%Hiff. destruct (leaf_fun adev (pt s) m n x w v (ok_wf _ _ _ _ V) Hw Hl). by split.
Qed.




(** An unmapping of a mapping that is to be entered anew, while its old pages are still
    translated, frees the mapping at once: no mapping has the page any more, nothing waits
    to be cleared, and the page stays translated. *)
Theorem unmap_leaves_translation s b va saddr i m x : space_reachable s → vm_freed s = [] → bo_vas s !! b = Some va →
  (∀ j mj, j ∈ valids va → mappings s !! j = Some mj → m_start mj ≠ first_page saddr) →
  i ∈ invalids va → mappings s !! i = Some m → m_start m = first_page saddr → on_pages m x → live (pt s) x →
  ∃ s', amdgpu_vm_bo_unmap senv b saddr s = Some (s', 0) ∧ view s' x = None ∧ ¬ covered s' x ∧ live (pt s') x ∧
    amdgpu_vm_clear_freed adev gmc env renv senv s' = Some (s', 0).
Proof.
  intros Hs Hfr Hva Hnv Hi Hm Hst Hx Hlv. pose proof (reachable_synced s Hs) as Sy. pose proof (sy_ok _ _ _ _ _ Sy) as O.
  assert (Ho : owner s i = Some b) by (apply (lk_list _ _ _ (sp_linked _ _ O) b va i Hva); by right). apply owner_Some in Ho as (m1 & Hm1 & Hbm).
  assert (m1 = m) as -> by congruence.
  destruct (unmap_spec adev senv s b va saddr O Hva) as (s' & r & Hr & O' & [(-> & j & mj & Hmj & Hbj & Hstj & Hun & Hcase)|(_ & _ & Hno)]); [|by destruct (Hno i m Hm Hbm)].
  destruct Hcase as [[Hj _]|(Hj & _ & Hg & Hdel)]; [by destruct (Hnv j mj Hj Hmj)|]. exists s'. split; [exact Hr|].
  assert (j = i) as ->.
  { destruct (decide (j = i)) as [|Hji]; [done|exfalso]. pose proof (sp_range _ _ O i m Hm). pose proof (sp_range _ _ O j mj Hmj).
    destruct (sp_disjoint _ _ O j i mj m Hji Hmj Hm); [by exists b|by exists b|lia|lia]. }
  assert (mj = m) as -> by congruence.
  assert (Hwait : ∀ k mk, mappings s !! k = Some mk → is_Some (m_bo_va mk)).
  { intros k mk Hmk. destruct (m_bo_va mk) eqn:Hb; [by eexists|]. assert (Hk : k ∈ vm_freed s) by (apply (lk_freed _ _ _ (sp_linked _ _ O)); by exists mk).
    rewrite Hfr in Hk. by apply elem_of_nil in Hk. }
  assert (Hfr' : vm_freed s' = []).
  { destruct (vm_freed s') as [|k l] eqn:Hk; [done|exfalso]. destruct (proj1 (lk_freed _ _ _ (sp_linked _ _ O') k) ltac:(rewrite Hk; left)) as (mk & Hmk & Hn).
    rewrite Hdel in Hmk. apply lookup_delete_Some in Hmk as [_ Hmk]. destruct (Hwait k mk Hmk). congruence. }
  split; [apply (page_gone s' O'); intros c off fl [_ Hout]%Hun; by apply Hout|]. split; [|split].
  - intros (k & mk & Hmk & Hxk). rewrite Hdel in Hmk. apply lookup_delete_Some in Hmk as [Hki Hmk]. unfold on_pages in Hx.
    destruct (sp_disjoint _ _ O k i mk m ltac:(done) Hmk Hm); [by apply (Hwait k)|by exists b|lia|lia].
  - by rewrite (gu_pt _ _ _ Hg).
  - unfold amdgpu_vm_clear_freed. by rewrite Hfr'.
Qed.

(** When the clearing of what was unmapped cannot begin, for lack of memory or because the
    page tables are being evicted, the mapping that was to be cleared is freed all the
    same: it waits no longer, and its pages stay as they are in the page tables. *)
Theorem clear_freed_error_forgets s i l m : space_reachable s → vm_freed s = i :: l → mappings s !! i = Some m → range_begin renv (asked s) ≠ 0 →
  ∃ s', amdgpu_vm_clear_freed adev gmc env renv senv s = Some (s', range_begin renv (asked s)) ∧ vm_freed s' = l ∧ mappings s' = delete i (mappings s) ∧
    (∀ x, on_pages m x → live (pt s) x → live (pt s') x) ∧ ∀ x, view s' x = view s x.
Proof.
  intros Hs Hfr Hm Hne. pose proof (reachable_synced s Hs) as Sy. pose proof (sy_ok _ _ _ _ _ Sy) as O.
  destruct (freed_turn adev senv s i l (pt s) O Hfr) as (m2 & s' & Hm2 & Hn & Hf & O' & M1 & P1 & V1 & _ & _). exists s'.
  unfold amdgpu_vm_clear_freed. rewrite Hfr. cbn [clear_list]. change (mappings (s <| vm_freed := l |>)) with (mappings s). rewrite Hm, Some_bind.
  unfold amdgpu_vm_update_range. change (asked (s <| vm_freed := l |>)) with (asked s). rewrite (proj2 (nz_true _) Hne), Some_bind.
  change (pt (ask_space (s <| vm_freed := l |>))) with (pt s). rewrite Hf, Some_bind, (proj2 (nz_true _) Hne).
  split; [done|]. split; [done|]. split; [done|]. split; [by rewrite P1|]. intros x. apply (page_kept s s' O O'). intros b off fl.
  assert (Hat : ∀ j mj, m_bo_va mj = Some b → mappings s' !! j = Some mj ↔ mappings s !! j = Some mj).
  { intros j mj Hb. rewrite M1. destruct (decide (j = i)) as [->|]; [|by rewrite lookup_delete_ne]. rewrite lookup_delete_eq, Hm2. split; [done|congruence]. }
  split; intros (j & mj & Hmj & Hb & Hx); exists j, mj; (split; [by apply (Hat j mj Hb)|by split]).
Qed.
End Claims.

(** ** A small address space *)

Definition map_dev : amdgpu_device := mk_adev true (2 ^ 36) 9 9 0 0.
Definition map_env : vm_env := demo_env no_error no_error.
Definition map_senv : space_env :=
  mk_space_env (λ _, false) (λ _, true) (λ _, false) AMDGPU_PTE_EXECUTABLE true (gmc_v9_0_get_vm_pte (λ _ _ f, f)).
(** Nothing fails, or the update with the number [k]. *)
Definition begins : range_env := mk_range_env (λ _, 0).
Definition begins_not (k : nat) : range_env := mk_range_env (λ j, if (j =? k)%nat then -ENOMEM else 0).

(** Four pages of video memory in two blocks. *)
Definition map_res : ttm_resource := mk_resource PL_VRAM 0x4000 [(0x100000, 0x2000); (0x800000, 0x2000)] false.
Definition map_bo : amdgpu_bo := mk_bo 0x4000 true false (Some map_res) (λ _, 0) false false false false 0x40000000 (λ _, true).
Definition map_bos : gmap nat amdgpu_bo := {[ 0%nat := map_bo ]}.

Lemma map_dev_ok : adev_ok map_dev.
Proof. split; [simpl; lia|simpl; lia|]. split; [done|vm_compute; discriminate]. Qed.

Lemma map_follows : follows_env map_dev demo_gmc map_env map_senv.
Proof.
  destruct (demo_gfx9 no_error no_error) as [_ G2 G3 G4 G5]. assert (Hd : depth map_dev = 3%nat) by (vm_compute; reflexivity).
  assert (Hsh : ∀ n, (n ≤ 3)%nat → sh map_dev n ∈ [27; 18; 9; 0]).
  { intros [|[|[|[|n]]]] Hn; [vm_compute; set_solver..|lia]. }
  split; [split; [apply map_dev_ok|done..]| | | |done|done].
  - split; [done|vm_compute; discriminate|]. intros i _. apply Z.bits_0.
  - apply (gmc_v9_0_pte (λ _ _ f, f)); [done|done|]. split; [apply no_address_flag; repeat first [left|right]|by split].
  - intros n Hn. rewrite Hd in Hn. pose proof (Hsh n Hn) as H. repeat (apply elem_of_cons in H as [H|H]; [rewrite H; lia|]). by apply elem_of_nil in H.
Qed.

Lemma map_bos_ready o bo : map_bos !! o = Some bo → bo_ready bo ∧ 0 ≤ bo_size bo ≤ 2 ^ 48.
Proof.
  unfold map_bos. intros [<- <-]%lookup_singleton_Some. split; [|simpl; lia]. split.
  - intros r [= <-]. split; [simpl; lia|]. intros _. split; [|done]. repeat constructor; cbn; try lia; apply Z.mod_divide; done.
  - intros off Hoff [q Hq]. change (bo_size map_bo) with 0x4000 in Hoff. assert (Hq4 : q = 0 ∨ q = 1 ∨ q = 2 ∨ q = 3) by lia.
    destruct Hq4 as [->|[->|[->| ->]]]; rewrite Hq; (split; [vm_compute; split; [discriminate|reflexivity]|apply Z.mod_divide; done]).
  - cbn. split; [lia|]. split; [by exists 0x40000|lia].
Qed.

Definition map_space : space :=
  space_init (match amdgpu_vm_init map_dev demo_gmc map_env 0 with Some (vm, _) => vm | None => mk_vm ∅ [] [] false 0 end) map_bos.

Definition run_one (renv : range_env) (c : vm_call) (s : space) : space :=
  match run_call map_dev demo_gmc map_env renv map_senv c s with Some (s, _) => s | None => s end.
Definition one_runs (renv : range_env) (c : vm_call) (s : space) : bool :=
  match run_call map_dev demo_gmc map_env renv map_senv c s with Some (_, r) => negb (clears c && nz r) | None => false end.
Fixpoint run_calls (renv : range_env) (l : list vm_call) (s : space) : space :=
  match l with [] => s | c :: l => run_calls renv l (run_one renv c s) end.
(** Calls that may be made, one after the other. *)
Fixpoint calls_ok (renv : range_env) (l : list vm_call) (s : space) : Prop :=
  match l with [] => True | c :: l => call_ok map_dev s c ∧ one_runs renv c s = true ∧ calls_ok renv l (run_one renv c s) end.

Lemma run_calls_reachable renv l s : space_reachable map_dev demo_gmc map_env renv map_senv s → calls_ok renv l s →
  space_reachable map_dev demo_gmc map_env renv map_senv (run_calls renv l s).
Proof.
  revert s. induction l as [|c l IH]; intros s Hs Hok; [done|]. cbn [run_calls calls_ok] in *. destruct Hok as (Hc & Hr & Hok). apply IH; [|done].
  unfold one_runs, run_one in *. destruct (run_call map_dev demo_gmc map_env renv map_senv c s) as [[s' r]|] eqn:Hs'; [|done].
  apply (space_call _ _ _ _ _ s c s' r Hs Hc Hs'). intros Hcl. rewrite Hcl in Hr. apply nz_false. by destruct (nz r).
Qed.

Lemma map_space_reachable renv : space_reachable map_dev demo_gmc map_env renv map_senv map_space.
Proof.
  apply (space_new _ _ _ _ _ 0 (pt map_space) map_bos); [|apply map_bos_ready].
  destruct (vm_init_spec map_dev demo_gmc map_env (fe_gfx9 _ _ _ _ map_follows) 0) as (vm & r & Hi & Hcase). unfold map_space. rewrite Hi.
  destruct Hcase as [(-> & _)|(Hne & [k [Hk|Hk]] & _)]; [done|by destruct (Hne Hk)..].
Qed.

Definition rw : Z := Z.lor AMDGPU_PTE_READABLE AMDGPU_PTE_WRITEABLE.
(** The buffer is mapped at page 16, and entered. *)
Definition mapped_calls : list vm_call := [CAdd (Some 0%nat); CMap 0 0x10000 0 0x4000 rw; CUpdate 0 false; CPdes].
Definition base_of (o : nat) (v i : list nat) : bo_va := mk_bo_va (Some o) v i false false.

Lemma calls_ok_app renv l1 l2 s : calls_ok renv l1 s → calls_ok renv l2 (run_calls renv l1 s) → calls_ok renv (l1 ++ l2) s.
Proof.
  revert s. induction l1 as [|c l1 IH]; intros s H1 H2; [done|]. cbn [app calls_ok run_calls] in *. destruct H1 as (Hc & Hr & H1).
  split; [done|]. split; [done|]. by apply IH.
Qed.

Lemma mapped_calls_ok renv : renv = begins ∨ renv = begins_not 3 → calls_ok renv mapped_calls map_space.
Proof.
  intros Hrenv. destruct Hrenv as [-> | ->];
    (split; [|split; [vm_compute; reflexivity|split; [|split; [vm_compute; reflexivity|split; [|split; [vm_compute; reflexivity|split; [done|split; [vm_compute; reflexivity|done]]]]]]]];
    [intros i [= <-]; exists map_bo; split; [done|]; by eexists
    |exists (base_of 0 [] []); split; [vm_compute; reflexivity|split; [split_and!; lia|split; [lia|done]]]
    |split; [exists (base_of 0 [] [1%nat]); vm_compute; reflexivity|vm_compute; reflexivity]]).
Qed.

Lemma calls_reachable renv l : renv = begins ∨ renv = begins_not 3 → calls_ok renv l (run_calls renv mapped_calls map_space) →
  space_reachable map_dev demo_gmc map_env renv map_senv (run_calls renv (mapped_calls ++ l) map_space).
Proof. intros Hrenv Hl. apply run_calls_reachable; [apply map_space_reachable|]. apply calls_ok_app; [by apply mapped_calls_ok|done]. Qed.

Lemma map_limit : 2 ^ 36 ≤ limit map_dev.
Proof. vm_compute. discriminate. Qed.



Lemma map_distinct vm : distinct_places (tables vm) = true → distinct map_dev demo_gmc vm.
Proof. intros Hd n p q b c Hb Hc He. apply bool_decide_eq_true in Hd. exact (Hd p b Hb q c Hc He). Qed.



(** The buffer moved after it was entered. *)
Definition moved_calls : list vm_call := [CMove 0 false (Some map_res) (λ _, 0)].


(** The second page was cleared: the first is to be entered anew, and still is. *)
Definition cut_calls : list vm_call := [CClear 0x11000 0x1000; CClearFreed].

Definition live_at (vm : amdgpu_vm) (x : Z) : bool :=
  match tables vm !! path_at map_dev 3 x with
  | Some b => match ptes b !! Z.to_nat (idx map_dev 3 x) with Some v => Z.testbit v 0 | None => false end
  | None => false
  end.
Lemma live_at_live vm x : live_at vm x = true → live map_dev vm x.
Proof.
  unfold live_at. intros Hl. destruct (tables vm !! path_at map_dev 3 x) as [b|] eqn:Hb; [|done]. destruct (ptes b !! Z.to_nat (idx map_dev 3 x)) as [v|] eqn:Hv; [|done].
  exists 3%nat, v. split; [|done]. exists b. split; [done|]. split; [by left|done].
Qed.

Lemma unmap_leaves_translation_witness : let s := run_calls begins (mapped_calls ++ cut_calls) map_space in
  ∃ s', amdgpu_vm_bo_unmap map_senv 0 0x10000 s = Some (s', 0) ∧ view s' 16 = None ∧ ¬ covered s' 16 ∧ live map_dev (pt s') 16 ∧
    amdgpu_vm_clear_freed map_dev demo_gmc map_env begins map_senv s' = Some (s', 0).
Proof.
  intros s. assert (Hs : space_reachable map_dev demo_gmc map_env begins map_senv s).
  { apply calls_reachable; [by left|]. split; [split_and!; lia|]. split; [vm_compute; reflexivity|]. split; [done|]. split; [vm_compute; reflexivity|done]. }
  apply (unmap_leaves_translation map_dev demo_gmc map_env begins map_senv map_follows s 0 (base_of 0 [] [3%nat; 2%nat]) 0x10000 2 (mk_mapping 16 16 0 rw (Some 0%nat)) 16 Hs).
  - vm_compute. reflexivity.
  - vm_compute. reflexivity.
  - intros j mj Hj. exfalso. exact (not_elem_of_nil j Hj).
  - right. left.
  - vm_compute. reflexivity.
  - reflexivity.
  - split; vm_compute; discriminate.
  - apply live_at_live. vm_compute. reflexivity.
Defined.

Lemma clear_freed_error_forgets_witness : let s := run_calls (begins_not 3) (mapped_calls ++ [CUnmap 0 0x10000]) map_space in
  ∃ s', amdgpu_vm_clear_freed map_dev demo_gmc map_env (begins_not 3) map_senv s = Some (s', -ENOMEM) ∧ vm_freed s' = [] ∧ live map_dev (pt s') 16 ∧ view s' 16 = None.
Proof.
  intros s. assert (Hs : space_reachable map_dev demo_gmc map_env (begins_not 3) map_senv s).
  { apply calls_reachable; [by right|]. split; [|split; [vm_compute; reflexivity|done]]. exists (base_of 0 [1%nat] []). split; [vm_compute; reflexivity|].
    intros i m x Hi. exfalso. exact (not_elem_of_nil i Hi). }
  assert (Ha : asked s = 3%nat) by (vm_compute; reflexivity).
  destruct (clear_freed_error_forgets map_dev demo_gmc map_env (begins_not 3) map_senv map_follows s 1 [] (mk_mapping 16 19 0 rw None) Hs) as (s' & Hc & Hf & _ & Hl & Hv).
  - vm_compute. reflexivity.
  - vm_compute. reflexivity.
  - by rewrite Ha.
  - rewrite Ha in Hc. exists s'. split; [exact Hc|]. split; [exact Hf|]. split; [apply Hl; [split; vm_compute; discriminate|apply live_at_live; vm_compute; reflexivity]|].
    rewrite Hv. vm_compute. reflexivity.
Defined.
